(* ===== verification/_CoqProject ===== *)
-Q . S2P
Prelude.v
Bytes.v
Overlay.v
KString.v
Format.v
FormatSpec.v
RtList.v
Bitmap.v
Kernel.v
Scheduler.v
Object.v
Timer.v
Thread.v
Ipc.v
Message.v
MemPool.v
Mem.v
MemHeap.v
Invariant.v
ThreadSpec.v
Check.v
Demo.v
TimerSpec.v
ThreadRun.v
IpcSpec.v
Semaphore.v
Mutex.v
Event.v
Mailbox.v
MsgQueue.v
KernelSpec.v
Registry.v
Lifecycle.v
Creation.v
Startup.v
Device.v
RingBuffer.v
FinshVm.v
FinshData.v
FinshCompile.v
FinshParser.v
FinshTree.v
FinshExpr.v
FinshCode.v
FinshRun.v
FinshSpec.v
FinshDemo.v
DfsPath.v
Dfs.v
DfsPosix.v
DfsInv.v
DfsCalls.v
DfsMount.v
DfsSpec.v
DfsDemo.v
Shell.v
ShellSpec.v
Msh.v
MshSpec.v
ShellDemo.v
MemPoolSpec.v
MemSpec.v
MemApi.v
MemHeapSpec.v
MemHeapApi.v
MemHeapFree.v
MemHeapRealloc.v
MemHeapDemo.v
