(* ===== verification/Prelude.v ===== *)
(** * RT-Thread, its kernel, its shell and its file system: a verification development

    The program is the real-time kernel of [src/src] (RT-Thread 2.1.0), in the
    configuration of [bsp/same70/rtconfig.h]: a 32-bit Cortex-M7, 32 priorities,
    names of 8 characters, soft timers, one level of timer lists, application modules,
    the small-memory allocator, stack checks and context checks enabled.

    ** The program and its model

    The kernel is a set of C files that share a few global variables and call each
    other: the intrusive lists of [rtservice.h] are the queues of everything else; the
    scheduler keeps a queue of ready threads per priority and a bitmap of the queues
    that are not empty; threads are suspended on and resumed from these queues and the
    wait lists of the synchronisation objects; timers are kept on a sorted list that the
    clock interrupt examines; semaphores, mutexes, events, mailboxes, message queues and
    memory pools are wait lists with a payload; every object is registered by name in the
    container of its class, devices too; the small-memory allocator keeps its blocks, with
    their headers, in one array of bytes behind a semaphore; memory heaps are objects that each
    manage a pool of memory in the same way, with a ring of blocks and a ring of free
    blocks, behind a semaphore of their own; dead threads wait on a list
    for the idle thread to release them.  The model follows this structure.

    The state is the record [kernel] of Kernel.v: one heap of list nodes, which holds
    the links of every list (a node is named by what contains it), the records of the
    objects with the fields of their C structures, the bytes of the allocators, and the
    global variables.  Aliasing is kept: a thread is on a list because its node is linked
    there and for no other reason.  A function is a computation in the state monad with
    faults of this file: failed assertions, wild pointers, deliberate halts and exhausted
    loop bounds are different faults, and [wp m s Q] says that [m] runs from [s] without any
    fault and ends in [Q], so that every theorem stated with [wp] includes that the code
    returns.  Machine integers are integers with their wrap-around written out.

    A call that gives up the processor in the middle, such as [rt_sem_take] on an empty
    semaphore, returns [Resched rest]: the state in which another thread runs, and the
    rest of the call, which runs when the thread is scheduled again (type [outcome] of
    Thread.v).  Interrupts are disabled in the critical sections of the code; a model
    function is one or several such sections, and where the code opens the section in
    the middle (message queues) the sections are separate definitions and a step
    relation interleaves them.

    The shell of [src/components/finsh] is a program of its own: it reads a line of C, parses
    it into a table of nodes, compiles the nodes to byte code and runs the byte code on a
    stack machine that reads and writes the memory of the system.  Its state is the record
    [finsh] of FinshData.v: the tables of nodes and variables, the text segment and the
    stack of the machine, the position of the scanner, and the memory.  Arrays have their
    size, and an access outside of them is a fault; what the operators of C leave undefined
    (a division by zero, a shift by 32) is a fault of its own; the exported functions are a
    parameter.

    In front of the interpreter stands the line editor of [shell.c]: it reads characters from
    the device of the shell, keeps a line in an array, a cursor and a history, prints what
    the terminal needs, and gives each line that is ended to the interpreter or to the word
    shell of [msh.c], which cuts it into words and runs a command of the symbol table.  The
    state is the record [system] of Shell.v: the structure [finsh_shell], what has been
    received and printed, and the rest of the system.  What lines and completion do is the
    class [Commands]; Msh.v is an instance of it ([msh_commands]), whose own parameters, the
    class [MshWorld], are the table of symbols, files, directories and modules.

    The virtual file system of [src/components/dfs/src] stands between POSIX calls and the
    file systems that are mounted: it turns paths into absolute ones, finds the file system
    that is mounted deepest above a path, and keeps the table of descriptors.  Its state is
    the record [dfs] of Dfs.v: the three tables, the working directory, the streams of
    directories, the nesting of the lock, and how many strings and streams are allocated.
    The functions of the file systems and of the devices act on a state of their own; they
    are parameters, and what the virtual file system relies on (they return, and leave its
    fields of a descriptor alone) is the class [FileSystems] of DfsInv.v.  Which allocations
    fail is part of the state.

    ** The files

    - Prelude.v: integers, lists, the monad, [wp] and its tactics.
    - Bytes.v: memory as bytes, words in it.  Overlay.v: structures laid over memory (the
      class [Layout]), whose fields the code reads and writes in place.
    - KString.v: the memory and string functions of [kservice.c], with their properties.
    - RtList.v: [rtservice.h], the lists; [rep h L]: the heap [h] holds the lists [L].
    - Bitmap.v: [__rt_ffs] of [kservice.c].
    - Kernel.v: the structures of [rtdef.h], the state, field accessors and their rules.
    - Scheduler.v: [scheduler.c], and the invariant of the ready queues.
    - Object.v, Timer.v, Thread.v: [object.c], [timer.c], [thread.c], [clock.c],
      [irq.c], the creation of the idle thread of [idle.c].
    - Ipc.v, Message.v: [ipc.c].  MemPool.v: [mempool.c].  Mem.v: [mem.c].
      MemHeap.v: [memheap.c].
    - Invariant.v: the invariant [kinv] of the whole kernel and how each elementary
      change keeps it; ThreadSpec.v, TimerSpec.v, ThreadRun.v, IpcSpec.v: what the
      operations on threads, timers and wait lists do.
    - Check.v, Demo.v: an executable test of the invariant that is proved to imply it,
      and a kernel booted by the modelled code, on which the theorems are instantiated.
    - KernelSpec.v: the properties of lists, bitmap, scheduler, threads and timers.
    - Semaphore.v, Mutex.v, Event.v, Mailbox.v, MsgQueue.v: the properties of [ipc.c].
    - Registry.v: the lookup by name of [object.c] and [thread.c], and registration.
    - Lifecycle.v: creation and deletion of dynamic threads and timers, and the idle thread
      of [idle.c]; Creation.v: what creation and start-up of a thread do.
    - Startup.v: [rtthread_startup] of [components.c], from reset to the first thread.
    - Device.v: [device.c] and its properties.
    - Format.v: the formatted output of [kservice.c], the text that it prints, and numbers
      read back.  FormatSpec.v: formats as data, how they are written, what they mean, and
      that [rt_snprintf] prints this meaning.
    - RingBuffer.v: the ring buffers of [components/drivers/src/ringbuffer.c] and
      [rtdevice.h], with their properties.
    - FinshVm.v: the virtual machine of the shell, [finsh_vm.c] and [finsh_ops.c].
      FinshData.v: [finsh_node.c], [finsh_var.c], [finsh_heap.c], [finsh_error.c] and the look-up
      of symbols.  FinshCompile.v: [finsh_compiler.c].  FinshParser.v: [finsh_token.c],
      [finsh_parser.c], [finsh_init.c] and [finsh_run_line] of [shell.c].
    - FinshTree.v: the node table as trees, and the type check on them.  FinshExpr.v:
      expressions, their types, meaning and byte code.  FinshCode.v: the compiler writes
      that code.  FinshRun.v: the machine runs it as the meaning says.  FinshSpec.v: the
      properties of the shell.  FinshDemo.v: lines of text and what the shell answers.
    - Shell.v: the line editor of [shell.c].  ShellSpec.v: an editor on lines, a terminal, and
      that the code implements the one and shows it on the other.  Msh.v: [msh.c] and
      [msh_file.c].  MshSpec.v: words, commands and completion.  ShellDemo.v: a small system
      that satisfies what the two ask for, keys typed on it, and where the code goes wrong.
    - DfsPath.v: [dfs_subdir] and the paths of [dfs_normalize_path].  Dfs.v: [dfs.c],
      [dfs_fs.c] and [dfs_file.c].  DfsPosix.v: [dfs_posix.c].
    - DfsInv.v: the invariant of the virtual file system and what its inner functions do to
      it; DfsCalls.v: the POSIX functions keep it; DfsMount.v: mounting and unmounting keep
      it.  DfsSpec.v: the properties of the virtual file system.  DfsDemo.v: a small file
      system in memory, and what the code does in cases that it does not foresee.
    - MemPoolSpec.v: the properties of memory pools.
    - MemSpec.v, MemApi.v: the invariant of the allocator's heap, and the properties of
      [rt_malloc], [rt_free], [rt_realloc], [rt_calloc] and the set-up.
    - MemHeapSpec.v: the two rings of a memory heap, and what reading and writing an item
      does to them; MemHeapApi.v: the invariant of a heap and [rt_memheap_alloc];
      MemHeapFree.v, MemHeapRealloc.v: [rt_memheap_free] and [rt_memheap_realloc];
      MemHeapDemo.v: the set-up, a heap on which the theorems are instantiated, and sizes
      that the code does not foresee.

    ** What is proved

    The invariant says, among other things: lists are disjoint and well linked; a thread
    is on the ready queue of its priority if and only if it is ready; a bit of the bitmap
    is set if and only if the queue is not empty; the timer of a thread runs only while
    it is suspended; threads on wait lists are suspended.  Every operation is shown to
    keep it and to do, on every path, what a description in terms of queues of threads
    says.  On top of this: the scheduler elects the first thread of the best priority;
    yielding is round robin; sleeping threads wake exactly on time, across the
    wrap-around of the tick counter; a thread that begins to wait for a mutex lends its owner
    its priority; permits are handed over, and events wake the threads whose condition they
    satisfy; mailboxes, message queues and memory pools refine their abstract counterparts;
    message queues are sound under every interleaving of their critical sections.

    The heap of the allocator is a row of blocks that tile it; allocation, release and
    reallocation are described on the row, keep every byte in use, and are inverse where
    they should be.  The same holds of a memory heap, whose free blocks are on a ring in
    any order: two free blocks are never neighbours, the ring holds exactly the free
    blocks, and [available_size] counts their bytes ([memheap_ok]); it is set up so
    ([memheap_setup_spec]), and allocation, release and reallocation keep it so
    ([rt_memheap_alloc_spec], [rt_memheap_free_spec], [rt_memheap_realloc_spec]).  What is
    registered is found, and devices count their users.  Threads are created wholly or not
    at all, with the memory given back ([rt_thread_create_spec]), and deleted ones are released
    by the idle thread.  For every list of threads that an application may create, start-up
    reaches a kernel in which the invariant holds and the first thread of the best priority
    runs ([rtthread_startup_spec]).  A format is a list of characters and directives whose
    meaning is defined without the code that reads them; [rt_snprintf] stores the text that it
    means as far as it fits and nothing else ([rt_snprintf_spec]), and ring buffers are
    bounded queues of bytes.

    The compiler of the shell is correct: for statements that have a type (every operand at
    least as wide as the operation, which the compiler chooses by the left operand), whose
    code fits into the 128 bytes of the text segment and whose values fit into the stack,
    compiling the nodes and running the machine gives the value of the last statement and
    leaves the memory as the meaning of the statements says ([finsh_computes_value]).  The
    machine ends on every text ([finsh_vm_run_ends]), and the type check computes the
    types ([finsh_type_check_types]).

    The line editor is an editor ([shell_implements_editor]): for keys that are printable
    characters, the four arrows, backspace and the ends of lines, and lines of at most 78
    characters, the array, the positions and the history hold the line with its cursor and the
    last five commands, and every line is run as it was typed, in the order of typing; if the
    commands do not fault the shell does not.  A terminal that interprets what is printed
    shows the line behind the prompt with the cursor in its place ([shell_shows_line]); the
    classes [CommandLaws] and the proofs of ShellDemo.v say what this needs of the commands
    (a short directory, printable output).  The words of msh are those of a reference that
    works on lists ([msh_split_words]), every line runs the command it names, with these words
    ([msh_exec_spec]), and completion extends a line by what is common to all candidates and
    by no more ([msh_auto_complete_extends]).

    In the virtual file system every descriptor is free or open, with one reference, on a
    mounted file system; what is allocated is exactly what the tables own, and every call
    releases the lock; this holds after any sequence of calls, each of which returns
    ([dfs_reachable_safe]).  The conditions of the calls are those that the code does not
    test: a path does not end above the root, there is memory for its copy, a type of file
    system is registered, no file is open on what is unmounted, a file that is closed with
    its stream can be closed.  Paths are walks ([normalize_walks]), the deepest mount point
    is found ([lookup_deepest_mount]), and opening and closing do what they should
    ([open_takes_lowest], [open_close]).

    Some theorems show where the code does not do what it means to: the release of one mutex
    takes away the priority that another one lends ([release_loses_inheritance]), a thread that was
    never started must not be deleted ([rt_thread_delete_stale_mask]), a time-out spoils a
    memory pool ([rt_mp_free_stale_count]), a failing driver locks its device
    ([device_close_failure_locks]), sizes wrap in the allocator ([rt_malloc_wraps],
    [rt_calloc_wraps]) and in memory heaps ([rt_memheap_alloc_wraps], and
    [rt_memheap_realloc_wraps], where the block is spoiled), blocks are missed by it
    ([rt_malloc_misses_exact], [rt_realloc_hides_block]), a forced write empties a ring
    buffer ([put_force_empties]), [%o] is hexadecimal ([octal_prints_hexadecimal]),
    [rt_strnlen] reads one byte too many and [rt_strncmp] may have the wrong sign; the
    compiler of the shell writes behind its text segment ([text_segment_overflow]), the
    operators ignore the results of calls ([operator_on_call]), and the parser takes every
    parenthesis for a cast ([grouping]), and a string of 128 characters is left without its
    end ([long_literal]); to mount a file system of an unknown type is to
    follow a null pointer ([mount_unknown_type]), and the examples of DfsDemo.v show
    others; more than ten words are written behind an array ([msh_exec_spec]), and the
    examples of ShellDemo.v show what a lost carriage return, a full line, a percent sign
    in the name of a directory and long lines of scripts do.

    ** Bounds

    The only fuel of the kernel is that of loops over lists and memory and of loops that wait
    again.
    Loops over lists take [list_fuel], the number of nodes of the heap, which exceeds the
    length of every list; loops over the blocks of the allocator and over strings take the
    number of bytes of the memory; the walk through the free list of a memory heap takes the
    number of headers that fit into its pool; the theorems show that these suffice.  The clock
    interrupt takes the number of timers it may serve as an argument, and the theorems ask
    for more than there are.  A receiver that is woken and finds the queue empty again waits
    again: the theorems describe one round, and the rest of the call is again a call of the
    loop.  In the shell the walks through the node table take one more than its 16 nodes
    (no tree in the table is higher: [height_bound]), the machine takes the 128 bytes of its
    text segment (every operation moves forward: [finsh_vm_run_ends]), the scanner and the
    parser take the length of the line and more, and the walks through the string heap take
    the number of block headers that fit into it.  The loops that normalise a path take the
    length of the path; [normalize_walks] shows that it suffices.  The line editor takes one more
    than the number of characters that have been received, and the division into words the
    length of the array; both suffice.  Scripts may run scripts and have any number of lines:
    [SCRIPT_FUEL] bounds how deep and how many, and nothing is claimed of scripts that need more.

    ** What is not modelled

    Hooks (they only observe), the contents of stack frames, context switches themselves
    (the requests are logged in [hw_log]), the memory of dynamic objects (a parameter:
    which object the memory becomes), the functions of drivers (parameters), the console
    of [kservice.c] and the version that start-up prints on it, the slab allocator and the [rt_malloc] that takes its memory from
    memory heaps, which the configuration does not use, the loader of application modules,
    and everything outside the kernel but the ring buffers, the interpreter of the shell
    and the virtual file system: drivers, the file systems themselves, the partition table
    and the shell commands of the virtual file system, the commands of the shell ([cmd.c],
    [msh_cmd.c]), the choice of its device and its password (the configuration has none),
    the tables of exported functions that are built by the linker, and the board support.
    The receive semaphore of the shell is the number of rounds; the blocks that msh frees
    are not counted. *)

From Stdlib Require Import ZArith Lia.
From stdpp Require Import numbers strings base fin_maps gmap list.

(** * Machine integers

    The kernel is compiled for a 32-bit target ([rtdef.h]: [rt_uint32_t] is
    [unsigned long], [rt_base_t] is [long]).  A [w]-bit unsigned integer is a
    [Z] kept in range by [wrap w]; a signed one by [swrap w]. *)

Local Open Scope Z_scope.

Definition wrap (w z : Z) : Z := z mod 2 ^ w.
Definition swrap (w z : Z) : Z := (z + 2 ^ (w - 1)) mod 2 ^ w - 2 ^ (w - 1).
Notation u8 := (wrap 8).
Notation u16 := (wrap 16).
Notation u32 := (wrap 32).
Notation s16 := (swrap 16).
Notation s32 := (swrap 32).

Definition RT_UINT32_MAX : Z := 0xffffffff.
Definition RT_TICK_MAX : Z := RT_UINT32_MAX.

(** [RT_ALIGN] and [RT_ALIGN_DOWN] at width 32. *)
Definition RT_ALIGN (size align : Z) : Z :=
  Z.land (u32 (size + align - 1)) (u32 (Z.lnot (align - 1))).
Definition RT_ALIGN_DOWN (size align : Z) : Z :=
  Z.land (u32 size) (u32 (Z.lnot (align - 1))).

(** Masks of the alignment 4. *)
Lemma land_mask4 x : 0 <= x < 2 ^ 32 → Z.land x (u32 (Z.lnot 3)) = 4 * (x / 4).
Proof.
  intros Hx. change (u32 (Z.lnot 3)) with (Z.ones 32 - 3).
  assert (Z.land x (Z.ones 32 - 3) = Z.ldiff x (Z.ones 2)) as ->.
  { apply Z.bits_inj'. intros i Hi. rewrite Z.land_spec, Z.ldiff_spec.
    destruct (decide (i < 32)) as [Hi32|Hi32].
    - f_equal. change (Z.ones 32 - 3) with (Z.ldiff (Z.ones 32) (Z.ones 2)).
      rewrite Z.ldiff_spec, Z.ones_spec_low by lia. done.
    - replace (Z.testbit x i) with false; [done|]. symmetry.
      rewrite <- (Z.mod_small x (2 ^ 32)) by lia. apply Z.mod_pow2_bits_high. lia. }
  rewrite Z.ldiff_ones_r, Z.shiftl_mul_pow2, Z.shiftr_div_pow2 by lia. change (2 ^ 2) with 4. lia.
Qed.

Lemma RT_ALIGN_DOWN_4 x : 0 <= x < 2 ^ 32 → RT_ALIGN_DOWN x 4 = 4 * (x / 4).
Proof.
  intros Hx. unfold RT_ALIGN_DOWN. change (4 - 1) with 3. unfold wrap at 1.
  rewrite Z.mod_small by lia. by apply land_mask4.
Qed.

(** A mask test reads one bit. *)
Lemma land_pow2_eqb f i : 0 <= i → (Z.land f (2 ^ i) =? 0) = negb (Z.testbit f i).
Proof.
  intros Hi. destruct (Z.eqb_spec (Z.land f (2 ^ i)) 0) as [E|E].
  - assert (Z.testbit (Z.land f (2 ^ i)) i = false) as H by by rewrite E, Z.bits_0.
    rewrite Z.land_spec, Z.pow2_bits_true, andb_true_r in H by done. by rewrite H.
  - destruct (Z.testbit f i) eqn:Hf; [done|]. exfalso. apply E, Z.bits_inj. intros j.
    rewrite Z.land_spec, Z.bits_0, Z.pow2_bits_eqb by done.
    destruct (Z.eqb_spec i j) as [<-|]; [by rewrite Hf|apply andb_false_r].
Qed.

(** * Lists *)

Lemma filter_ne_id {A} `{EqDecision A} (a : A) (l : list A) :
  a ∉ l → filter (λ x, x ≠ a) l = l.
Proof.
  induction l as [|b l IH]; [done|]. intros Hn. rewrite filter_cons_True by set_solver.
  f_equal. apply IH. set_solver.
Qed.

Lemma filter_ne_split {A} `{EqDecision A} (a : A) l1 l2 :
  NoDup (l1 ++ a :: l2) → filter (λ x, x ≠ a) (l1 ++ a :: l2) = l1 ++ l2.
Proof.
  intros (_ & Hd & [Hn _]%NoDup_cons)%NoDup_app. rewrite filter_app.
  rewrite filter_cons_False by naive_solver. rewrite !filter_ne_id; set_solver.
Qed.

Lemma list_filter_all {A} (P : A → Prop) `{∀ x, Decision (P x)} (l : list A) :
  Forall P l → filter P l = l.
Proof.
  induction 1 as [|a l Ha _ IH]; [done|]. by rewrite filter_cons_True, IH.
Qed.

Lemma list_filter_none {A} (P : A → Prop) `{∀ x, Decision (P x)} (l : list A) :
  Forall (λ x, ¬ P x) l → filter P l = [].
Proof. induction 1 as [|a l Ha _ IH]; [done|]. by rewrite filter_cons_False. Qed.

Lemma list_filter_iff' {A} (P Q : A → Prop) `{∀ x, Decision (P x), ∀ x, Decision (Q x)} (l : list A) :
  (∀ x, x ∈ l → P x ↔ Q x) → filter P l = filter Q l.
Proof.
  induction l as [|a l IH]; [done|]. intros Hpq. destruct (decide (P a)) as [Ha|Ha].
  - rewrite !filter_cons_True by (try apply Hpq; set_solver). f_equal. apply IH. set_solver.
  - rewrite !filter_cons_False; [apply IH; set_solver| |done]. rewrite <- Hpq; [done|set_solver].
Qed.

Lemma elem_of_not_nil {A} (a : A) (l : list A) : a ∈ l → l ≠ [].
Proof. intros Ha ->. by apply not_elem_of_nil in Ha. Qed.

(** A C string: the characters up to the first zero. *)
Fixpoint c_string (l : list Z) : list Z :=
  match l with [] => [] | c :: l => if c =? 0 then [] else c :: c_string l end.

Lemma c_string_app l b : Forall (λ c, c ≠ 0) l → c_string (l ++ 0 :: b) = l.
Proof. induction 1 as [|x l Hx _ IH]; [done|]. cbn. destruct (Z.eqb_spec x 0); [done|]. by rewrite IH. Qed.

(** * A state monad with faults

    [F_assert]: an [RT_ASSERT] fails ([rt_assert_handler] does not return).
    [F_pointer]: the code reads or writes through a pointer that designates
    nothing (null, or the container of a list head).  [F_halt]: the kernel stops
    on purpose (stack overflow).  [F_fuel]: the bound of a modelled loop is
    exhausted.  [F_undefined]: an operation that C leaves undefined, such as a division by
    zero. *)

Inductive fault := F_assert | F_pointer | F_halt | F_fuel | F_undefined.

Inductive res (A : Type) :=
  | Ok (a : A)
  | Err (f : fault).
Arguments Ok {A} a.
Arguments Err {A} f.

Definition M (S A : Type) : Type := S → res (A * S).

#[export] Instance M_ret {S} : MRet (M S) := λ A a s, Ok (a, s).
#[export] Instance M_bind {S} : MBind (M S) := λ A B f m s,
  match m s with
  | Ok (a, s') => f a s'
  | Err e => Err e
  end.

Definition fail {S A} (e : fault) : M S A := λ s, Err e.
Definition get {S} : M S S := λ s, Ok (s, s).
Definition gets {S A} (f : S → A) : M S A := λ s, Ok (f s, s).
Definition modify {S} (f : S → S) : M S unit := λ s, Ok (tt, f s).
Definition deref {S A} (o : option A) : M S A :=
  match o with Some a => mret a | None => fail F_pointer end.
Definition rt_assert {S} (b : bool) : M S unit :=
  if b then mret tt else fail F_assert.
Definition when {S} (b : bool) (m : M S unit) : M S unit :=
  if b then m else mret tt.

(** Run a computation on a part of the state. *)
Definition zoom {S T A} (prj : S → T) (upd : T → S → S) (m : M T A) : M S A := λ s,
  match m (prj s) with
  | Ok (a, t) => Ok (a, upd t s)
  | Err e => Err e
  end.

(** [wp m s Q]: the run of [m] from [s] does not fault and ends in a value and
    a state that satisfy [Q]. *)
Definition wp {S A} (m : M S A) (s : S) (Q : A → S → Prop) : Prop :=
  match m s with
  | Ok (a, s') => Q a s'
  | Err _ => False
  end.

Section wp_rules.
Context {S : Type}.

Lemma wp_ret {A} (a : A) (s : S) Q : Q a s → wp (mret a) s Q.
Proof. done. Qed.

Lemma wp_bind {A B} (m : M S A) (f : A → M S B) s Q :
  wp m s (λ a s', wp (f a) s' Q) → wp (m ≫= f) s Q.
Proof. unfold wp, mbind, M_bind. by destruct (m s) as [[a s']|]. Qed.

Lemma wp_bind_inv {A B} (m : M S A) (f : A → M S B) s Q :
  wp (m ≫= f) s Q → wp m s (λ a s', wp (f a) s' Q).
Proof. unfold wp, mbind, M_bind. by destruct (m s) as [[a s']|]. Qed.

Lemma wp_assoc {A B C} (m : M S A) (f : A → M S B) (g : B → M S C) s Q :
  wp ((m ≫= f) ≫= g) s Q → wp (m ≫= λ a, f a ≫= g) s Q.
Proof. unfold wp, mbind, M_bind. by destruct (m s) as [[a s']|]. Qed.

Lemma wp_mono {A} (m : M S A) s (Q Q' : A → S → Prop) :
  wp m s Q → (∀ a s', Q a s' → Q' a s') → wp m s Q'.
Proof. unfold wp. destruct (m s) as [[a s']|]; auto. Qed.

Lemma wp_get (s : S) Q : Q s s → wp get s Q.
Proof. done. Qed.

Lemma wp_gets {A} (f : S → A) s Q : Q (f s) s → wp (gets f) s Q.
Proof. done. Qed.

Lemma wp_modify (f : S → S) s Q : Q tt (f s) → wp (modify f) s Q.
Proof. done. Qed.

Lemma wp_deref {A} (o : option A) a (s : S) Q :
  o = Some a → Q a s → wp (deref o) s Q.
Proof. by intros ->. Qed.

Lemma wp_assert b (s : S) Q : b = true → Q tt s → wp (rt_assert b) s Q.
Proof. by intros ->. Qed.

Lemma wp_zoom {T A} prj upd (m : M T A) (s : S) Q :
  wp m (prj s) (λ a t, Q a (upd t s)) → wp (zoom prj upd m) s Q.
Proof. unfold wp, zoom. by destruct (m (prj s)) as [[a t]|]. Qed.

(** A fault after a run that succeeds. *)
Lemma err_bind {A B} (m : M S A) (f : A → M S B) s e :
  wp m s (λ a s', f a s' = Err e) → (m ≫= f) s = Err e.
Proof. unfold wp, mbind, M_bind. by destruct (m s) as [[a s']|]. Qed.

(** What [wp] says of the run itself. *)
Lemma wp_run {A} (m : M S A) s Q :
  wp m s Q ↔ ∃ a s', m s = Ok (a, s') ∧ Q a s'.
Proof.
  unfold wp. destruct (m s) as [[a s']|e]; split.
  - eauto.
  - by intros (? & ? & [= <- <-] & ?).
  - done.
  - by intros (? & ? & ? & ?).
Qed.

Lemma wp_and {A} (m : M S A) s (Q1 Q2 : A → S → Prop) :
  wp m s Q1 → wp m s Q2 → wp m s (λ a s', Q1 a s' ∧ Q2 a s').
Proof. unfold wp. destruct (m s) as [[a s']|]; auto. Qed.
End wp_rules.

(** What a run that does not fault says of its parts. *)
Lemma bind_ok {S A B} (m : M S A) (f : A → M S B) s b s' :
  (x ← m; f x) s = Ok (b, s') → ∃ a s1, m s = Ok (a, s1) ∧ f a s1 = Ok (b, s').
Proof. unfold mbind, M_bind. destruct (m s) as [[a s1]|] eqn:E; [eauto|done]. Qed.

Lemma deref_ok {S A} (o : option A) (s : S) a s' : deref o s = Ok (a, s') → o = Some a ∧ s' = s.
Proof. destruct o; [|done]. by intros [= -> ->]. Qed.


(** Symbolic execution: one rule per monadic constructor at the head. *)
Ltac wp_step :=
  lazymatch goal with
  | |- wp (_ ≫= _) _ _ => apply wp_bind
  | |- wp (mret _) _ _ => apply wp_ret
  | |- wp get _ _ => apply wp_get
  | |- wp (gets _) _ _ => apply wp_gets
  | |- wp (modify _) _ _ => apply wp_modify
  | |- wp (deref _) _ _ => eapply wp_deref; [by eauto|]
  | |- wp (zoom _ _ _) _ _ => apply wp_zoom
  end; cbv beta.
Ltac wp_steps := repeat wp_step.
(** Use a proved specification for the head computation. *)
Tactic Notation "wp_use" open_constr(H) "as" simple_intropattern(p) :=
  eapply wp_mono;
  [eapply H | let v := fresh "v" in let st := fresh "st" in intros v st p].
