(* ===== verification/Bytes.v ===== *)
(** Byte-addressed memory: what pointers of C read and write.

    A memory maps the addresses of the objects in it to bytes; reading or writing
    anywhere else faults, so that a theorem about a run that does not fault is also a
    theorem about the addresses it uses.  Wider integers are little-endian, as on the
    Cortex-M7. *)

From Stdlib Require Import ZArith Lia.
From stdpp Require Import numbers base fin_maps gmap list.
From S2P Require Import Prelude.
Local Open Scope Z_scope.

Notation ram := (gmap Z Z).

Definition rd8 (a : Z) : M ram Z := m ← get; deref (m !! a).
Definition wr8 (a v : Z) : M ram unit :=
  m ← get; deref (m !! a);; modify (<[a := v]>).

(** An integer of [n] bytes. *)
Fixpoint rd_word (n : nat) (a : Z) : M ram Z :=
  match n with
  | O => mret 0
  | S n => b ← rd8 a; r ← rd_word n (a + 1); mret (b + 256 * r)
  end.
Fixpoint wr_word (n : nat) (a v : Z) : M ram unit :=
  match n with
  | O => mret tt
  | S n => wr8 a (v mod 256);; wr_word n (a + 1) (v / 256)
  end.
Notation rd16 := (rd_word 2).
Notation rd32 := (rd_word 4).
Notation wr16 := (wr_word 2).
Notation wr32 := (wr_word 4).

(** * Sequences of bytes in memory *)

(** The bytes [l] are at [a]. *)
Fixpoint bytes_at (m : ram) (a : Z) (l : list Z) : Prop :=
  match l with
  | [] => True
  | x :: l => m !! a = Some x ∧ bytes_at m (a + 1) l
  end.

(** The memory with [l] written at [a]. *)
Fixpoint store (a : Z) (l : list Z) (m : ram) : ram :=
  match l with
  | [] => m
  | x :: l => store (a + 1) l (<[a := x]> m)
  end.

(** There are [n] bytes at [a]. *)
Definition mapped (m : ram) (a : Z) (n : nat) : Prop :=
  ∀ b, a <= b < a + Z.of_nat n → is_Some (m !! b).

Definition byte (x : Z) : Prop := 0 <= x < 256.

Lemma lookup_store a l m b :
  store a l m !! b = if (a <=? b) && (b <? a + Z.of_nat (length l))
                     then l !! Z.to_nat (b - a) else m !! b.
Proof.
  revert a m. induction l as [|x l IH]; intros a m; simpl.
  { destruct (Z.leb_spec a b), (Z.ltb_spec b (a + Z.of_nat 0)); simpl; [lia|done..]. }
  rewrite IH. destruct (decide (b = a)) as [->|Hne].
  - rewrite lookup_insert_eq.
    destruct (Z.leb_spec (a + 1) a), (Z.leb_spec a a), (Z.ltb_spec a (a + Z.of_nat (S (length l))));
      simpl; try lia. by replace (Z.to_nat (a - a)) with 0%nat by lia.
  - rewrite lookup_insert_ne by done.
    destruct (Z.leb_spec (a + 1) b), (Z.ltb_spec b (a + 1 + Z.of_nat (length l))),
      (Z.leb_spec a b), (Z.ltb_spec b (a + Z.of_nat (S (length l)))); simpl; try lia; try done.
    by replace (Z.to_nat (b - a)) with (S (Z.to_nat (b - (a + 1)))) by lia.
Qed.

Lemma lookup_store_out a l m b :
  ¬ (a <= b < a + Z.of_nat (length l)) → store a l m !! b = m !! b.
Proof. intros H. rewrite lookup_store. destruct (Z.leb_spec a b), (Z.ltb_spec b (a + Z.of_nat (length l))); try done; lia. Qed.

Lemma lookup_store_in a l m b :
  a <= b < a + Z.of_nat (length l) → store a l m !! b = l !! Z.to_nat (b - a).
Proof. intros H. rewrite lookup_store, (proj2 (Z.leb_le _ _)), (proj2 (Z.ltb_lt _ _)) by lia. done. Qed.

Lemma store_app a l1 l2 m :
  store a (l1 ++ l2) m = store (a + Z.of_nat (length l1)) l2 (store a l1 m).
Proof.
  revert a m. induction l1 as [|x l1 IH]; intros a m.
  { simpl. by rewrite Z.add_0_r. }
  cbn [app store]. rewrite IH. f_equal. rewrite length_cons. lia.
Qed.

Lemma store_insert_comm a l m b x :
  ¬ (a <= b < a + Z.of_nat (length l)) → store a l (<[b := x]> m) = <[b := x]> (store a l m).
Proof.
  intros Hb. apply map_eq. intros c. rewrite lookup_store. destruct (decide (c = b)) as [->|].
  - rewrite !lookup_insert_eq. destruct (Z.leb_spec a b), (Z.ltb_spec b (a + Z.of_nat (length l))); try done; lia.
  - by rewrite !lookup_insert_ne, lookup_store by done.
Qed.

Lemma bytes_at_lookup m a l :
  bytes_at m a l ↔ ∀ b, a <= b < a + Z.of_nat (length l) → m !! b = l !! Z.to_nat (b - a).
Proof.
  revert a. induction l as [|x l IH]; intros a; simpl; [split; [lia|done]|]. rewrite IH. split.
  - intros [H1 H2] b Hb. destruct (decide (b = a)) as [->|].
    + by replace (Z.to_nat (a - a)) with 0%nat by lia.
    + rewrite H2 by lia. by replace (Z.to_nat (b - a)) with (S (Z.to_nat (b - (a + 1)))) by lia.
  - intros H. split.
    + rewrite H by lia. by replace (Z.to_nat (a - a)) with 0%nat by lia.
    + intros b Hb. rewrite H by lia.
      by replace (Z.to_nat (b - a)) with (S (Z.to_nat (b - (a + 1)))) by lia.
Qed.

Lemma bytes_at_app m a l1 l2 :
  bytes_at m a (l1 ++ l2) ↔ bytes_at m a l1 ∧ bytes_at m (a + Z.of_nat (length l1)) l2.
Proof.
  revert a. induction l1 as [|x l1 IH]; intros a; cbn [app bytes_at].
  { rewrite Z.add_0_r. tauto. }
  rewrite IH, length_cons. replace (a + 1 + Z.of_nat (length l1)) with (a + Z.of_nat (S (length l1))) by lia.
  tauto.
Qed.

(** What is written is there, and nothing else changes. *)
Lemma bytes_at_store m a l : bytes_at (store a l m) a l.
Proof. apply bytes_at_lookup. intros b Hb. by rewrite lookup_store_in. Qed.

Lemma bytes_at_store_ne m a l b l' :
  a + Z.of_nat (length l) <= b ∨ b + Z.of_nat (length l') <= a →
  bytes_at (store a l m) b l' ↔ bytes_at m b l'.
Proof.
  intros Hd. rewrite !bytes_at_lookup. split; intros H c Hc.
  - rewrite <- H by done. by rewrite lookup_store_out by lia.
  - by rewrite lookup_store_out, H by lia.
Qed.

Lemma bytes_at_insert_ne m a x b l :
  ¬ (b <= a < b + Z.of_nat (length l)) → bytes_at m b l → bytes_at (<[a := x]> m) b l.
Proof.
  rewrite !bytes_at_lookup. intros Hn H c Hc. rewrite lookup_insert_ne by lia. by apply H.
Qed.

Lemma bytes_at_mapped m a l : bytes_at m a l → mapped m a (length l).
Proof.
  rewrite bytes_at_lookup. intros H b Hb. rewrite H by done. apply lookup_lt_is_Some. lia.
Qed.

(** Mapped memory holds bytes. *)
Lemma mapped_bytes m a n : mapped m a n → ∃ l, length l = n ∧ bytes_at m a l.
Proof.
  revert a. induction n as [|n IH]; intros a Hm; [by exists []|].
  destruct (Hm a) as [x Hx]; [lia|]. destruct (IH (a + 1)) as (l & Hl & Hb).
  { intros b Hb. apply Hm. lia. }
  exists (x :: l). simpl. by rewrite Hl.
Qed.

Lemma mapped_insert m a n b x : mapped m a n → mapped (<[b := x]> m) a n.
Proof.
  intros H c Hc. destruct (decide (c = b)) as [->|]; [rewrite lookup_insert_eq; eauto|].
  rewrite lookup_insert_ne by done. by apply H.
Qed.

Lemma mapped_store m a n b l : mapped m a n → mapped (store b l m) a n.
Proof.
  revert b m. induction l as [|x l IH]; intros b m H; simpl; [done|]. apply IH. by apply mapped_insert.
Qed.

Lemma mapped_le m a n b k :
  mapped m a n → a <= b → b + Z.of_nat k <= a + Z.of_nat n → mapped m b k.
Proof. intros H ? ? c Hc. apply H. lia. Qed.

(** * Little-endian integers *)

Fixpoint le_bytes (n : nat) (v : Z) : list Z :=
  match n with O => [] | S n => v mod 256 :: le_bytes n (v / 256) end.
Fixpoint le_val (l : list Z) : Z :=
  match l with [] => 0 | x :: l => x + 256 * le_val l end.

Lemma length_le_bytes n v : length (le_bytes n v) = n.
Proof. revert v. induction n as [|n IH]; intros v; simpl; [done|]. by rewrite IH. Qed.

Lemma le_val_bytes n v : 0 <= v < 256 ^ Z.of_nat n → le_val (le_bytes n v) = v.
Proof.
  revert v. induction n as [|n IH]; intros v Hv; simpl; [change (256 ^ Z.of_nat 0) with 1 in Hv; lia|].
  rewrite IH; [pose proof (Z.div_mod v 256); lia|].
  rewrite Nat2Z.inj_succ, Z.pow_succ_r in Hv by lia.
  split; [apply Z.div_pos; lia|]. apply Z.div_lt_upper_bound; lia.
Qed.

Lemma le_bytes_val l : Forall byte l → le_bytes (length l) (le_val l) = l.
Proof.
  unfold byte. induction 1 as [|x l Hx _ IH]; simpl; [done|].
  replace (x + 256 * le_val l) with (x + le_val l * 256) by lia.
  rewrite Z_mod_plus_full, Z_div_plus_full by lia. rewrite Z.mod_small, Z.div_small by lia.
  by rewrite Z.add_0_l, IH.
Qed.

(** * Rules for the accesses *)

Lemma wp_rd8 m a x (Q : Z → ram → Prop) : m !! a = Some x → Q x m → wp (rd8 a) m Q.
Proof. intros H ?. unfold rd8. wp_step. wp_step. eapply wp_deref; [exact H|done]. Qed.

Lemma wp_wr8 m a v (Q : unit → ram → Prop) :
  is_Some (m !! a) → Q tt (<[a := v]> m) → wp (wr8 a v) m Q.
Proof.
  intros [x H] ?. unfold wr8. wp_step. wp_step. wp_step. eapply wp_deref; [exact H|]. by wp_step.
Qed.

Lemma wp_rd_word m a l (Q : Z → ram → Prop) n :
  n = length l → bytes_at m a l → Q (le_val l) m → wp (rd_word n a) m Q.
Proof.
  intros ->. revert a Q. induction l as [|x l IH]; intros a Q Hl HQ; simpl; [by wp_step|].
  destruct Hl as [Hx Hl]. wp_step. eapply wp_rd8; [done|]. wp_step. apply IH; [done|]. by wp_step.
Qed.

Lemma wp_wr_word n m a v (Q : unit → ram → Prop) :
  mapped m a n → Q tt (store a (le_bytes n v) m) → wp (wr_word n a v) m Q.
Proof.
  revert m a v. induction n as [|n IH]; intros m a v Hm HQ; simpl; [by wp_step|].
  wp_step. apply wp_wr8; [apply Hm; lia|]. apply IH; [|done].
  apply mapped_insert. eapply mapped_le; [exact Hm|lia|lia].
Qed.

(** * What a run without a fault has done *)

Lemma rd8_ok a m x m' : rd8 a m = Ok (x, m') → m' = m.
Proof. intros H. apply bind_ok in H as (? & ? & [= <- <-] & H). by apply deref_ok in H as [_ ->]. Qed.

Lemma wr8_ok a x m u m' : wr8 a x m = Ok (u, m') → m' = <[a := x]> m.
Proof.
  intros H. apply bind_ok in H as (? & ? & [= <- <-] & H). apply bind_ok in H as (? & ? & H1 & H).
  apply deref_ok in H1 as [_ ->]. by injection H.
Qed.

Lemma rd_word_ok n b m v m' : rd_word n b m = Ok (v, m') → m' = m.
Proof.
  revert b v m'. induction n as [|n IH]; intros b v m' H; [by injection H|].
  apply bind_ok in H as (? & ? & ->%rd8_ok & H). apply bind_ok in H as (? & ? & ->%IH & H). by injection H.
Qed.

Lemma wr_word_ok n b v m u m' :
  wr_word n b v m = Ok (u, m') → m' = store b (le_bytes n v) m.
Proof.
  revert b v m. induction n as [|n IH]; intros b v m H; [by injection H|].
  apply bind_ok in H as (? & ? & ->%wr8_ok & H). by apply IH in H.
Qed.

Lemma le_val_wrap n v : le_val (le_bytes n v) = v mod 256 ^ Z.of_nat n.
Proof.
  revert v. induction n as [|n IH]; intros v; [by rewrite Z.mod_1_r|]. cbn [le_bytes le_val]. rewrite IH.
  rewrite Nat2Z.inj_succ, Z.pow_succ_r by lia. pose proof (Z.pow_pos_nonneg 256 (Z.of_nat n)).
  by rewrite Z.rem_mul_r by lia.
Qed.
