(* ===== verification/Overlay.v ===== *)
(** Structures laid over memory: the headers that an allocator keeps in the memory it
    hands out.

    A layout says which bytes hold a structure of a given size; an overlay is a map of the
    structures that are in use at present, which do not overlap, together with data that
    no structure covers and that has not changed.  Both allocators of the kernel reason
    on overlays, with layouts of their own. *)

From Stdlib Require Import ZArith Lia.
From stdpp Require Import numbers base fin_maps gmap list.
From S2P Require Import Prelude Bytes.
Local Open Scope Z_scope.

Definition bytes_ok (m : ram) : Prop := ∀ b x, m !! b = Some x → byte x.

Lemma le_bytes_ok n v : Forall byte (le_bytes n v).
Proof. revert v. induction n as [|n IH]; intros v; simpl; constructor; [apply Z.mod_pos_bound; lia|apply IH]. Qed.

Lemma bytes_ok_store m a l : bytes_ok m → Forall byte l → bytes_ok (store a l m).
Proof.
  intros Hm Hl b x. rewrite lookup_store. case_match; [|apply Hm].
  intros Hx. by apply (Forall_lookup_1 _ _ _ _ Hl Hx).
Qed.

Lemma is_Some_store m a l b : is_Some (m !! b) → is_Some (store a l m !! b).
Proof.
  intros Hb. destruct (decide (a <= b < a + Z.of_nat (length l))).
  - rewrite lookup_store_in by done. apply lookup_lt_is_Some. lia.
  - by rewrite lookup_store_out.
Qed.

Lemma le_val_range l : Forall byte l → 0 <= le_val l < 256 ^ Z.of_nat (length l).
Proof.
  unfold byte. induction 1 as [|x l Hx _ IH]; [simpl; lia|].
  rewrite length_cons, Nat2Z.inj_succ, Z.pow_succ_r by lia. simpl. lia.
Qed.

(** Mapped memory that holds bytes. *)
Lemma mapped_bytes_ok m p n : bytes_ok m → mapped m p n → ∃ l, length l = n ∧ bytes_at m p l ∧ Forall byte l.
Proof.
  intros Hok Hm. apply mapped_bytes in Hm as (l & Hl & Hb). exists l. split_and!; [done|done|].
  apply Forall_lookup. intros i x Hi. apply (Hok (p + Z.of_nat i)). rewrite bytes_at_lookup in Hb.
  apply lookup_lt_Some in Hi as Hlt. rewrite Hb by lia. by replace (Z.to_nat (p + Z.of_nat i - p)) with i by lia.
Qed.

(** A structure of [n] bytes: it depends on these bytes only, and any bytes are one. *)
Class Layout {X} (n : Z) (at_ : ram → Z → X → Prop) : Prop := {
  layout_frame m p x a l : a + Z.of_nat (length l) <= p ∨ p + n <= a → at_ m p x → at_ (store a l m) p x;
  layout_exists m p : bytes_ok m → mapped m p (Z.to_nat n) → ∃ x, at_ m p x
}.

(** The memory [m], reached from [m0], with the structures [hm]: they do not overlap, and
    the data [D] has not changed. *)
Record overlay {X} (n : Z) (at_ : ram → Z → X → Prop) (D : Z → Prop) (m0 m : ram) (hm : gmap Z X) : Prop := {
  vw_header p x : hm !! p = Some x → at_ m p x;
  vw_apart p q x y : hm !! p = Some x → hm !! q = Some y → p ≠ q → p + n <= q ∨ q + n <= p;
  vw_off p x b : hm !! p = Some x → D b → b < p ∨ p + n <= b;
  vw_data b : D b → m !! b = m0 !! b;
  vw_dom b : is_Some (m0 !! b) → is_Some (m !! b);
  vw_bytes : bytes_ok m
}.
Arguments vw_header {_ _ _ _ _ _ _}.
Arguments vw_apart {_ _ _ _ _ _ _}.
Arguments vw_off {_ _ _ _ _ _ _}.
Arguments vw_data {_ _ _ _ _ _ _}.
Arguments vw_dom {_ _ _ _ _ _ _}.
Arguments vw_bytes {_ _ _ _ _ _ _}.

Section overlay.
Context {X : Type} {n : Z} {at_ : ram → Z → X → Prop} `{!Layout n at_}.
Implicit Types (D : Z → Prop) (m : ram) (hm : gmap Z X) (x y : X).

Lemma insert_is_Some hm p x x' q y : hm !! p = Some x → <[p := x']> hm !! q = Some y → is_Some (hm !! q).
Proof.
  intros Hp Hq. destruct (decide (q = p)) as [->|]; [by eauto|]. rewrite lookup_insert_ne in Hq by done. by eauto.
Qed.

(** Writing a part of a structure. *)
Lemma view_store D m0 m hm p x x' o l :
  overlay n at_ D m0 m hm → hm !! p = Some x → Forall byte l → 0 <= o → o + Z.of_nat (length l) <= n →
  at_ (store (p + o) l m) p x' → overlay n at_ D m0 (store (p + o) l m) (<[p := x']> hm).
Proof using All.
  intros Hv Hp Hl Ho Hlen Hx'. split.
  - intros q y. destruct (decide (q = p)) as [->|Hne]; [rewrite lookup_insert_eq; by intros [= <-]|].
    rewrite lookup_insert_ne by done. intros Hq. apply layout_frame; [|by apply (vw_header Hv)].
    destruct (vw_apart Hv p q x y Hp Hq); [done|lia|lia].
  - intros q r y z Hq Hr. apply (insert_is_Some _ _ _ _ _ _ Hp) in Hq as [? ?].
    apply (insert_is_Some _ _ _ _ _ _ Hp) in Hr as [? ?]. by eapply (vw_apart Hv).
  - intros q y b Hq. apply (insert_is_Some _ _ _ _ _ _ Hp) in Hq as [? ?]. by eapply (vw_off Hv).
  - intros b Hb. destruct (vw_off Hv p x b Hp Hb); rewrite lookup_store_out by lia; by apply (vw_data Hv).
  - intros b Hb. by apply is_Some_store, (vw_dom Hv).
  - apply bytes_ok_store; [apply Hv|done].
Qed.

(** Structures that are not needed any more are data. *)
Lemma view_drop D m0 m hm p : overlay n at_ D m0 m hm → overlay n at_ D m0 m (delete p hm).
Proof.
  intros [H1 H2 H3 H4 H5 H6]. split; try done.
  - intros q x [_ Hq]%lookup_delete_Some. by apply H1.
  - intros q r x y [_ Hq]%lookup_delete_Some [_ Hr]%lookup_delete_Some. by apply (H2 q r x y).
  - intros q x b [_ Hq]%lookup_delete_Some. by apply (H3 q x b).
Qed.

(** A new structure may be laid over free memory. *)
Lemma view_new D m0 m hm p :
  overlay n at_ D m0 m hm → mapped m p (Z.to_nat n) →
  (∀ q y, hm !! q = Some y → p + n <= q ∨ q + n <= p) → (∀ b, D b → b < p ∨ p + n <= b) →
  ∃ x, overlay n at_ D m0 m (<[p := x]> hm).
Proof using All.
  intros Hv Hm Hap Hoff. destruct (layout_exists m p (vw_bytes Hv) Hm) as [x Hx]. exists x.
  destruct Hv as [H1 H2 H3 H4 H5 H6]. split; try done.
  - intros q y [[<- <-]|[_ Hq]]%lookup_insert_Some; [done|by apply H1].
  - intros q r y z [[<- <-]|[? Hq]]%lookup_insert_Some [[<- <-]|[? Hr]]%lookup_insert_Some Hne; [done|..].
    + by apply (Hap r z).
    + destruct (Hap q y Hq); lia.
    + by apply (H2 q r y z).
  - intros q y b [[<- <-]|[_ Hq]]%lookup_insert_Some; [apply Hoff|by apply (H3 q y)].
Qed.

Lemma mapped_view D m0 m hm a k : overlay n at_ D m0 m hm → mapped m0 a k → mapped m a k.
Proof. intros Hv Hm b Hb. by apply (vw_dom Hv), Hm. Qed.

(** A memory without structures, all of which is data. *)
Lemma view_empty m : bytes_ok m → overlay n at_ (λ _, False) m m ∅.
Proof. intros Hb. by split. Qed.
End overlay.
