(* ===== verification/KString.v ===== *)
(** The memory and string functions of [src/kservice.c], on byte-addressed memory, and
    what they compute.

    [char] is unsigned, as on ARM.  [rt_memset] and [rt_memcpy] are the word-wise
    versions that are compiled without [RT_TINY_SIZE].  Loops that end at a zero byte
    have the size of the memory as fuel: they visit every address once at most. *)

From Stdlib Require Import ZArith Lia.
From stdpp Require Import numbers base fin_maps gmap list.
From S2P Require Import Prelude Bytes.
Local Open Scope Z_scope.

(** * Memory *)

(** [while (count--) *m++ = d]. *)
Fixpoint set_bytes (n : nat) (m d : Z) : M ram unit :=
  match n with
  | O => mret tt
  | S n => wr8 m d;; set_bytes n (m + 1) d
  end.

(** The loops of [rt_memset] that store [k] words at a time; the results are the pointer
    and the count after them. *)
Fixpoint wr_words (k : nat) (p buffer : Z) : M ram Z :=
  match k with
  | O => mret p
  | S k => wr32 p buffer;; wr_words k (p + 4) buffer
  end.
Fixpoint set_loop (fuel k : nat) (p buffer count : Z) : M ram (Z * Z) :=
  match fuel with
  | O => fail F_fuel
  | S fuel =>
      if Z.of_nat k * 4 <=? count
      then p ← wr_words k p buffer; set_loop fuel k p buffer (count - Z.of_nat k * 4)
      else mret (p, count)
  end.

Definition rt_memset (s c count : Z) : M ram Z :=
  let d := Z.land c 0xff in
  let fuel := S (Z.to_nat count) in
  '(m, count) ←
    (if negb (count <? 4) && (Z.land s 3 =? 0) then
       let buffer := Z.lor (u32 (Z.shiftl d 8)) d in
       let buffer := Z.lor buffer (u32 (Z.shiftl buffer 16)) in
       '(p, count) ← set_loop fuel 4 s buffer count;
       set_loop fuel 1 p buffer count
     else mret (s, count));
  set_bytes (Z.to_nat count) m d;;
  mret s.

(** [while (n--) *dst++ = *src++]. *)
Fixpoint copy_bytes (n : nat) (dst src : Z) : M ram unit :=
  match n with
  | O => mret tt
  | S n => b ← rd8 src; wr8 dst b;; copy_bytes n (dst + 1) (src + 1)
  end.

Fixpoint copy_words (k : nat) (dst src : Z) : M ram (Z * Z) :=
  match k with
  | O => mret (dst, src)
  | S k => v ← rd32 src; wr32 dst v;; copy_words k (dst + 4) (src + 4)
  end.
Fixpoint copy_loop (fuel k : nat) (dst src len : Z) : M ram (Z * Z * Z) :=
  match fuel with
  | O => fail F_fuel
  | S fuel =>
      if Z.of_nat k * 4 <=? len
      then '(dst, src) ← copy_words k dst src; copy_loop fuel k dst src (len - Z.of_nat k * 4)
      else mret (dst, src, len)
  end.

Definition rt_memcpy (dst src count : Z) : M ram Z :=
  let fuel := S (Z.to_nat count) in
  '(d, s, len) ←
    (if negb (count <? 16) && (Z.lor (Z.land src 3) (Z.land dst 3) =? 0) then
       '(d, s, len) ← copy_loop fuel 4 dst src count;
       copy_loop fuel 1 d s len
     else mret (dst, src, count));
  copy_bytes (Z.to_nat len) d s;;
  mret dst.

(** [while (n--) *(--tmp) = *(--s)]. *)
Fixpoint copy_back (n : nat) (tmp s : Z) : M ram unit :=
  match n with
  | O => mret tt
  | S n => b ← rd8 (s - 1); wr8 (tmp - 1) b;; copy_back n (tmp - 1) (s - 1)
  end.

Definition rt_memmove (dest src n : Z) : M ram Z :=
  (if (src <? dest) && (dest <? src + n)
   then copy_back (Z.to_nat n) (dest + n) (src + n)
   else copy_bytes (Z.to_nat n) dest src);;
  mret dest.

Fixpoint memcmp_loop (n : nat) (su1 su2 : Z) : M ram Z :=
  match n with
  | O => mret 0
  | S n =>
      x ← rd8 su1; y ← rd8 su2;
      if negb (x - y =? 0) then mret (x - y) else memcmp_loop n (su1 + 1) (su2 + 1)
  end.
Definition rt_memcmp (cs ct count : Z) : M ram Z := memcmp_loop (Z.to_nat count) cs ct.

(** * Strings *)

Fixpoint strlen_loop (fuel : nat) (s sc : Z) : M ram Z :=
  match fuel with
  | O => fail F_fuel
  | S fuel => b ← rd8 sc; if b =? 0 then mret (sc - s) else strlen_loop fuel s (sc + 1)
  end.
Definition rt_strlen (s : Z) : M ram Z := m ← get; strlen_loop (S (size m)) s s.

(** The byte is read before the length is compared. *)
Fixpoint strnlen_loop (n : nat) (s sc : Z) : M ram Z :=
  b ← rd8 sc;
  if b =? 0 then mret (sc - s)
  else match n with O => mret (sc - s) | S n => strnlen_loop n s (sc + 1) end.
Definition rt_strnlen (s maxlen : Z) : M ram Z := strnlen_loop (Z.to_nat maxlen) s s.

Fixpoint strcmp_loop (fuel : nat) (cs ct : Z) : M ram Z :=
  match fuel with
  | O => fail F_fuel
  | S fuel =>
      x ← rd8 cs; y ← rd8 ct;
      if negb (x =? 0) && (x =? y) then strcmp_loop fuel (cs + 1) (ct + 1) else mret (x - y)
  end.
Definition rt_strcmp (cs ct : Z) : M ram Z := m ← get; strcmp_loop (S (size m)) cs ct.

(** The result is a [signed char]. *)
Fixpoint strncmp_loop (count : nat) (cs ct res : Z) : M ram Z :=
  match count with
  | O => mret res
  | S count =>
      x ← rd8 cs; y ← rd8 ct;
      let res := swrap 8 (x - y) in
      if negb (res =? 0) || (x =? 0) then mret res else strncmp_loop count (cs + 1) (ct + 1) res
  end.
Definition rt_strncmp (cs ct count : Z) : M ram Z := strncmp_loop (Z.to_nat count) cs ct 0.

Definition lower (c : Z) : Z := if (65 <=? c) && (c <=? 90) then c + 32 else c.
Fixpoint strcasecmp_loop (fuel : nat) (a b : Z) : M ram Z :=
  match fuel with
  | O => fail F_fuel
  | S fuel =>
      x ← rd8 a; y ← rd8 b;
      let ca := lower (Z.land x 0xff) in
      let cb := lower (Z.land y 0xff) in
      if (ca =? cb) && negb (ca =? 0) then strcasecmp_loop fuel (a + 1) (b + 1)
      else mret (u32 (ca - cb))
  end.
Definition rt_strcasecmp (a b : Z) : M ram Z := m ← get; strcasecmp_loop (S (size m)) a b.

Fixpoint strncpy_loop (n : nat) (d s : Z) : M ram unit :=
  match n with
  | O => mret tt
  | S n =>
      b ← rd8 s; wr8 d b;;
      if b =? 0 then set_bytes n (d + 1) 0 else strncpy_loop n (d + 1) (s + 1)
  end.
Definition rt_strncpy (dst src n : Z) : M ram Z := strncpy_loop (Z.to_nat n) dst src;; mret dst.

(** [n] more positions may hold the string; the result is 0 if none does. *)
Fixpoint strstr_loop (n : nat) (s1 s2 l2 : Z) : M ram Z :=
  match n with
  | O => mret 0
  | S n =>
      r ← rt_memcmp s1 s2 l2;
      if r =? 0 then mret s1 else strstr_loop n (s1 + 1) s2 l2
  end.
Definition rt_strstr (s1 s2 : Z) : M ram Z :=
  l2 ← rt_strlen s2;
  if l2 =? 0 then mret s1
  else l1 ← rt_strlen s1; strstr_loop (Z.to_nat (l1 - l2 + 1)) s1 s2 l2.

(** * Filling and copying *)

Lemma wp_set_bytes n m a d (Q : unit → ram → Prop) :
  mapped m a n → Q tt (store a (replicate n d) m) → wp (set_bytes n a d) m Q.
Proof.
  revert m a. induction n as [|n IH]; intros m a Hm HQ; simpl; [by wp_step|].
  wp_step. apply wp_wr8; [apply Hm; lia|]. apply IH; [|done].
  apply mapped_insert. eapply mapped_le; [exact Hm|lia|lia].
Qed.

(** The word that [rt_memset] stores has the byte four times. *)
Definition memset_word (d : Z) : Z :=
  let buffer := Z.lor (u32 (Z.shiftl d 8)) d in Z.lor buffer (u32 (Z.shiftl buffer 16)).

Lemma memset_word_bytes d : byte d → le_bytes 4 (memset_word d) = replicate 4 d.
Proof.
  intros Hd. assert (forallb (λ d, bool_decide (le_bytes 4 (memset_word d) = replicate 4 d)) (seqZ 0 256) = true)
    as H by by vm_compute.
  rewrite forallb_forall in H. eapply bool_decide_eq_true, H, list_elem_of_In, elem_of_seqZ.
  unfold byte in Hd. lia.
Qed.

Lemma wp_wr_words k m p d w :
  le_bytes 4 w = replicate 4 d → mapped m p (4 * k) →
  wp (wr_words k p w) m (λ p' m', p' = p + Z.of_nat (4 * k) ∧ m' = store p (replicate (4 * k) d) m).
Proof.
  intros Hw. revert m p. induction k as [|k IH]; intros m p Hm; cbn [wr_words].
  { wp_step. split; [lia|done]. }
  wp_step. apply wp_wr_word; [eapply mapped_le; [exact Hm|lia|lia]|]. rewrite Hw.
  eapply wp_mono; [apply IH|].
  { apply mapped_store. eapply mapped_le; [exact Hm|lia|lia]. }
  intros p' m' [-> ->]. split; [lia|]. replace (4 * S k)%nat with (4 + 4 * k)%nat by lia.
  rewrite replicate_add, store_app, length_replicate. done.
Qed.

Lemma wp_set_loop fuel k m p d w count :
  le_bytes 4 w = replicate 4 d → (0 < k)%nat → 0 <= count < Z.of_nat fuel →
  mapped m p (Z.to_nat count) →
  wp (set_loop fuel k p w count) m (λ r m', ∃ n : nat,
    r = (p + Z.of_nat n, count - Z.of_nat n) ∧ Z.of_nat n <= count ∧ m' = store p (replicate n d) m).
Proof.
  intros Hw Hk. revert m p count. induction fuel as [|fuel IH]; intros m p count Hc Hm; [lia|].
  cbn [set_loop]. destruct (Z.leb_spec (Z.of_nat k * 4) count) as [Hle|Hle].
  - wp_step. eapply wp_mono; [apply (wp_wr_words k m p d w Hw)|].
    { eapply mapped_le; [exact Hm|lia|lia]. }
    intros p' m' [-> ->]. eapply wp_mono; [apply IH|].
    + lia.
    + apply mapped_store. eapply mapped_le; [exact Hm|lia|lia].
    + intros r m' (n & -> & Hn & ->). exists (4 * k + n)%nat.
      rewrite replicate_add, store_app, length_replicate. split_and!; [f_equal; lia|lia|done].
  - wp_step. exists 0%nat. split_and!; [f_equal; lia|lia|done].
Qed.

(** [rt_memset], with its loops of four words, of words and of bytes, is the byte-wise
    fill: for every alignment and every length it writes the low byte of [c] to exactly the
    [count] bytes at [s]. *)
Theorem rt_memset_spec m s c count :
  0 <= count → mapped m s (Z.to_nat count) →
  wp (rt_memset s c count) m (λ r m', r = s ∧
    m' = store s (replicate (Z.to_nat count) (c mod 256)) m).
Proof.
  intros Hc Hm. assert (Z.land c 0xff = c mod 256) as Ed by apply (Z.land_ones c 8 ltac:(lia)).
  assert (byte (c mod 256)) as Hb by (apply Z.mod_pos_bound; lia).
  unfold rt_memset. rewrite Ed. set (d := c mod 256) in *. wp_step.
  eapply (wp_mono _ _ (λ r m', ∃ n : nat, r = (s + Z.of_nat n, count - Z.of_nat n) ∧
    Z.of_nat n <= count ∧ m' = store s (replicate n d) m)).
  - case_match; [|wp_step; exists 0%nat; split_and!; [f_equal; lia|lia|done]].
    pose proof (memset_word_bytes d Hb) as Hw. unfold memset_word in Hw. cbv zeta in Hw |- *.
    wp_step. eapply wp_mono; [apply (wp_set_loop _ 4 m s d); [done|lia|lia|done]|].
    intros [p c'] m1 (n1 & [= -> ->] & Hn1 & ->).
    eapply wp_mono; [apply (wp_set_loop _ 1 _ _ d); [done|lia|lia|]|].
    { apply mapped_store. eapply mapped_le; [exact Hm|lia|lia]. }
    intros r m2 (n2 & -> & Hn2 & ->). exists (n1 + n2)%nat.
    rewrite replicate_add, store_app, length_replicate. split_and!; [f_equal; lia|lia|done].
  - intros [p c'] m1 (n & [= -> ->] & Hn & ->). cbv iota beta. wp_step. apply wp_set_bytes.
    { apply mapped_store. eapply mapped_le; [exact Hm|lia|lia]. }
    wp_step. split; [done|]. replace (Z.to_nat count) with (n + Z.to_nat (count - Z.of_nat n))%nat by lia.
    by rewrite replicate_add, store_app, length_replicate.
Qed.

Lemma wp_copy_bytes l m dst src (Q : unit → ram → Prop) :
  bytes_at m src l → mapped m dst (length l) → ¬ (src < dst < src + Z.of_nat (length l)) →
  Q tt (store dst l m) → wp (copy_bytes (length l) dst src) m Q.
Proof.
  revert m dst src. induction l as [|x l IH]; intros m dst src Hb Hm Hd HQ; [simpl; by wp_step|].
  destruct Hb as [Hx Hb]. rewrite length_cons in *. cbn [copy_bytes].
  wp_step. eapply wp_rd8; [done|]. wp_step. apply wp_wr8; [apply Hm; lia|]. apply IH.
  - apply bytes_at_insert_ne; [lia|done].
  - apply mapped_insert. eapply mapped_le; [exact Hm|lia|lia].
  - lia.
  - done.
Qed.

Section memcpy.
Context (dst src : Z) (l : list Z).
Hypotheses (Hbyte : Forall byte l)
  (Hdisj : dst + Z.of_nat (length l) <= src ∨ src + Z.of_nat (length l) <= dst).

(** [n] bytes have been copied. *)
Definition copied (m : ram) (n : nat) (d s len : Z) (m' : ram) : Prop :=
  d = dst + Z.of_nat n ∧ s = src + Z.of_nat n ∧ len = Z.of_nat (length l) - Z.of_nat n ∧
  (n <= length l)%nat ∧ m' = store dst (take n l) m.

Lemma copied_rest m n d s len m' :
  bytes_at m src l → mapped m dst (length l) → copied m n d s len m' →
  bytes_at m' s (drop n l) ∧ mapped m' d (length l - n).
Proof using Hdisj.
  intros Hb Hm (-> & -> & -> & Hn & ->). split.
  - rewrite <- (take_drop n l) in Hb at 1. apply bytes_at_app in Hb as [_ Hb].
    rewrite length_take_le in Hb by done. apply bytes_at_store_ne; [|done].
    rewrite length_take_le, length_drop by done. lia.
  - apply mapped_store. eapply mapped_le; [exact Hm|lia|lia].
Qed.

Lemma wp_copy_words k m n d s len m' (Q : Z * Z → ram → Prop) :
  bytes_at m src l → mapped m dst (length l) → copied m n d s len m' → Z.of_nat k * 4 <= len →
  (∀ d' s' m2, copied m (n + k * 4) d' s' (len - Z.of_nat k * 4) m2 → Q (d', s') m2) →
  wp (copy_words k d s) m' Q.
Proof using Hbyte Hdisj.
  intros Hb Hm. revert n d s len m'. induction k as [|k IH]; intros n d s len m' Hc Hk HQ; cbn [copy_words].
  { wp_step. apply HQ. replace (n + 0 * 4)%nat with n by lia. by replace (len - Z.of_nat 0 * 4) with len by lia. }
  destruct (copied_rest m n d s len m' Hb Hm Hc) as [Hb' Hm'].
  destruct Hc as (-> & -> & -> & Hn & ->).
  pose proof (take_drop 4 (drop n l)) as Etd. rewrite <- Etd in Hb'. apply bytes_at_app in Hb' as [Hb4 _].
  assert (length (take 4 (drop n l)) = 4%nat) as Hl4 by (rewrite length_take, length_drop; lia).
  wp_step. eapply (wp_rd_word _ _ (take 4 (drop n l))); [done|done|].
  wp_step. apply wp_wr_word; [eapply mapped_le; [exact Hm'|lia|lia]|].
  assert (le_bytes 4 (le_val (take 4 (drop n l))) = take 4 (drop n l)) as ->.
  { rewrite <- Hl4 at 1. apply le_bytes_val. by apply Forall_take, Forall_drop. }
  eapply (IH (n + 4)%nat _ _ (Z.of_nat (length l) - Z.of_nat n - 4)).
  - split_and!; [lia|lia|lia|lia|]. rewrite <- take_take_drop, store_app, length_take_le by lia. done.
  - lia.
  - intros d' s' m2 Hc. apply HQ. replace (n + S k * 4)%nat with (n + 4 + k * 4)%nat by lia.
    by replace (Z.of_nat (length l) - Z.of_nat n - Z.of_nat (S k) * 4)
      with (Z.of_nat (length l) - Z.of_nat n - 4 - Z.of_nat k * 4) by lia.
Qed.

Lemma wp_copy_loop fuel k m n d s len m' (Q : Z * Z * Z → ram → Prop) :
  bytes_at m src l → mapped m dst (length l) → copied m n d s len m' → (0 < k)%nat →
  len < Z.of_nat fuel →
  (∀ n' d' s' len' m2, copied m n' d' s' len' m2 → Q (d', s', len') m2) →
  wp (copy_loop fuel k d s len) m' Q.
Proof using Hbyte Hdisj.
  intros Hb Hm Hc Hk. revert n d s len m' Hc.
  induction fuel as [|fuel IH]; intros n d s len m' Hc Hf HQ; [destruct Hc as (_ & _ & -> & ? & _); lia|].
  cbn [copy_loop]. destruct (Z.leb_spec (Z.of_nat k * 4) len) as [Hle|Hle]; [|wp_step; by eapply HQ].
  wp_step. eapply (wp_copy_words k); [done..|]. intros d' s' m2 Hc'. eapply IH; [done|lia|done].
Qed.

Lemma wp_memcpy m :
  bytes_at m src l → mapped m dst (length l) →
  wp (rt_memcpy dst src (Z.of_nat (length l))) m (λ r m', r = dst ∧ m' = store dst l m).
Proof using Hbyte Hdisj.
  intros Hb Hm. unfold rt_memcpy. set (count := Z.of_nat (length l)).
  assert (copied m 0 dst src count m) as H0.
  { split_and!; [lia|lia|lia|lia|]. by rewrite take_0. }
  wp_step. eapply (wp_mono _ _ (λ '(d, s, len) m', ∃ n, copied m n d s len m')).
  - case_match; [|wp_step; by exists 0%nat].
    wp_step. eapply (wp_copy_loop _ 4 m 0); [done|done|done|lia|lia|]. intros n1 d1 s1 len1 m1 Hc1.
    eapply (wp_copy_loop _ 1 m n1); [done|done|done|lia| |by eauto].
    destruct Hc1 as (_ & _ & -> & ? & _). lia.
  - intros [[d s] len] m' [n Hc]. cbv iota beta. destruct (copied_rest m n d s len m' Hb Hm Hc) as [Hb' Hm'].
    destruct Hc as (-> & -> & -> & Hn & ->). wp_step.
    replace (Z.to_nat (Z.of_nat (length l) - Z.of_nat n)) with (length (drop n l)) by (rewrite length_drop; lia).
    apply wp_copy_bytes; [done|by rewrite length_drop|rewrite length_drop; lia|].
    wp_step. split; [done|]. rewrite <- (take_drop n l) at 3.
    by rewrite store_app, length_take_le by done.
Qed.
End memcpy.

(** [rt_memcpy], with its loops of four words, of words and of bytes, copies exactly
    the [count] bytes at [src] to [dst], for every alignment, when the two areas do not
    overlap. *)
Theorem rt_memcpy_spec m dst src l :
  bytes_at m src l → Forall byte l → mapped m dst (length l) →
  dst + Z.of_nat (length l) <= src ∨ src + Z.of_nat (length l) <= dst →
  wp (rt_memcpy dst src (Z.of_nat (length l))) m (λ r m', r = dst ∧ m' = store dst l m).
Proof. intros. by apply wp_memcpy. Qed.

Lemma wp_copy_back l m dst src (Q : unit → ram → Prop) :
  bytes_at m src l → mapped m dst (length l) → src < dst → Q tt (store dst l m) →
  wp (copy_back (length l) (dst + Z.of_nat (length l)) (src + Z.of_nat (length l))) m Q.
Proof.
  revert m Q. induction l as [|x l IH] using rev_ind; intros m Q Hb Hm Hd HQ; [simpl; by wp_step|].
  apply bytes_at_app in Hb as [Hb [Hx _]]. rewrite length_app in *. simpl in *.
  rewrite Nat.add_1_r in *. cbn [copy_back].
  replace (src + Z.of_nat (S (length l)) - 1) with (src + Z.of_nat (length l)) by lia.
  replace (dst + Z.of_nat (S (length l)) - 1) with (dst + Z.of_nat (length l)) by lia.
  wp_step. eapply wp_rd8; [done|]. wp_step. apply wp_wr8; [apply Hm; lia|]. apply IH.
  - apply bytes_at_insert_ne; [lia|done].
  - apply mapped_insert. eapply mapped_le; [exact Hm|lia|lia].
  - done.
  - rewrite store_insert_comm by lia. by rewrite store_app in HQ.
Qed.

(** [rt_memmove] copies correctly however the two areas overlap: afterwards the bytes
    that were at [src] are at [dst], and no other byte has changed. *)
Theorem rt_memmove_spec m dst src l :
  bytes_at m src l → mapped m dst (length l) →
  wp (rt_memmove dst src (Z.of_nat (length l))) m (λ r m', r = dst ∧ m' = store dst l m).
Proof.
  intros Hb Hm. unfold rt_memmove. rewrite Nat2Z.id. wp_step.
  destruct (Z.ltb_spec src dst), (Z.ltb_spec dst (src + Z.of_nat (length l))); cbn [andb].
  - apply wp_copy_back; [done|done|done|]. by wp_step.
  - apply wp_copy_bytes; [done|done|lia|]. by wp_step.
  - apply wp_copy_bytes; [done|done|lia|]. by wp_step.
  - apply wp_copy_bytes; [done|done|lia|]. by wp_step.
Qed.

(** * Comparing and searching *)

(** The string [s] is at [a]: its bytes, none of them zero, and a zero. *)
Definition cstring (m : ram) (a : Z) (s : list Z) : Prop :=
  bytes_at m a (s ++ [0]) ∧ Forall (λ x, byte x ∧ x ≠ 0) s.

Lemma cstring_nil m a : cstring m a [] ↔ m !! a = Some 0.
Proof. unfold cstring. simpl. naive_solver. Qed.

Lemma cstring_cons m a x s :
  cstring m a (x :: s) ↔ m !! a = Some x ∧ byte x ∧ x ≠ 0 ∧ cstring m (a + 1) s.
Proof. unfold cstring. simpl. rewrite Forall_cons. tauto. Qed.

Lemma mapped_size m a n : mapped m a n → (n <= size m)%nat.
Proof.
  intros Hm. rewrite <- (size_dom (D := gset Z) m).
  rewrite <- (Nat2Z.id n), <- (length_seqZ a (Z.of_nat n)), <- (size_list_to_set (C := gset Z)) by apply NoDup_seqZ.
  apply subseteq_size. intros b Hb. apply elem_of_list_to_set, elem_of_seqZ in Hb.
  apply elem_of_dom. by apply Hm.
Qed.

Lemma cstring_size m a s : cstring m a s → (length s < size m)%nat.
Proof.
  intros [Hb%bytes_at_mapped%mapped_size _]. rewrite length_app in Hb. simpl in Hb. lia.
Qed.

Lemma wp_strlen_loop fuel m a0 a s :
  cstring m a s → (length s < fuel)%nat →
  wp (strlen_loop fuel a0 a) m (λ r m', r = a + Z.of_nat (length s) - a0 ∧ m' = m).
Proof.
  revert a s. induction fuel as [|fuel IH]; intros a s Hs Hf; [lia|]. cbn [strlen_loop]. wp_step.
  destruct s as [|x s].
  - apply cstring_nil in Hs. eapply wp_rd8; [done|]. simpl. wp_step. split; [lia|done].
  - apply cstring_cons in Hs as (Hx & _ & Hn & Hs). eapply wp_rd8; [done|].
    rewrite (proj2 (Z.eqb_neq _ _) Hn). simpl in *. eapply wp_mono; [apply IH; [done|lia]|].
    intros r m' [-> ->]. split; [lia|done].
Qed.

Lemma rt_strlen_spec m a s :
  cstring m a s → wp (rt_strlen a) m (λ r m', r = Z.of_nat (length s) ∧ m' = m).
Proof.
  intros Hs. unfold rt_strlen. wp_step. wp_step.
  eapply wp_mono; [apply (wp_strlen_loop _ m a a s Hs)|].
  - pose proof (cstring_size m a s Hs). lia.
  - intros r m' [-> ->]. split; [lia|done].
Qed.

(** Its comment says that [rt_strnlen] never looks beyond [s + maxlen]; but it reads the
    byte there before it compares the length. *)
Lemma strnlen_reads_beyond n m a0 a l :
  length l = n → bytes_at m a l → 0 ∉ l → m !! (a + Z.of_nat n) = None →
  strnlen_loop n a0 a m = Err F_pointer.
Proof.
  revert a l. induction n as [|n IH]; intros a l Hl Hb H0 Hnone.
  - replace (a + Z.of_nat 0) with a in Hnone by lia. cbn [strnlen_loop].
    unfold rd8, mbind, M_bind, get, deref. by rewrite Hnone.
  - destruct l as [|x l]; [done|]. destruct Hb as [Hx Hb]. apply not_elem_of_cons in H0 as [Hx0 H0].
    cbn [strnlen_loop]. apply err_bind. eapply wp_rd8; [done|]. rewrite (proj2 (Z.eqb_neq _ _)) by done.
    eapply (IH (a + 1) l); [by simplify_eq/=|done|done|].
    by replace (a + 1 + Z.of_nat n) with (a + Z.of_nat (S n)) by lia.
Qed.

Theorem rt_strnlen_reads_beyond m a l :
  bytes_at m a l → 0 ∉ l → m !! (a + Z.of_nat (length l)) = None →
  rt_strnlen a (Z.of_nat (length l)) m = Err F_pointer.
Proof. intros. unfold rt_strnlen. rewrite Nat2Z.id. by eapply strnlen_reads_beyond. Qed.

(** The first difference of two strings, as an integer: 0 if they are equal. *)
Fixpoint difference (s1 s2 : list Z) : Z :=
  match s1, s2 with
  | x :: s1, y :: s2 => if x =? y then difference s1 s2 else x - y
  | x :: _, [] => x
  | [], y :: _ => - y
  | [], [] => 0
  end.

Lemma difference_eq s1 s2 :
  Forall (λ x, byte x ∧ x ≠ 0) s1 → Forall (λ x, byte x ∧ x ≠ 0) s2 →
  difference s1 s2 = 0 ↔ s1 = s2.
Proof.
  intros H1. revert s2. induction H1 as [|x s1 [_ Hx] _ IH]; intros s2 H2;
    destruct H2 as [|y s2 [_ Hy] H2]; simpl; [done|split; [lia|done]..|].
  destruct (Z.eqb_spec x y) as [->|].
  - rewrite IH by done. split; [by intros ->|by intros [= ->]].
  - split; [lia|]. by intros [= ? _].
Qed.

Lemma wp_strcmp_loop fuel m a b s1 s2 :
  cstring m a s1 → cstring m b s2 → (length s1 < fuel)%nat →
  wp (strcmp_loop fuel a b) m (λ r m', r = difference s1 s2 ∧ m' = m).
Proof.
  revert a b s1 s2. induction fuel as [|fuel IH]; intros a b s1 s2 H1 H2 Hf; [lia|].
  cbn [strcmp_loop]. wp_step. destruct s1 as [|x s1].
  - apply cstring_nil in H1. eapply wp_rd8; [done|]. wp_step.
    destruct s2 as [|y s2]; [apply cstring_nil in H2|apply cstring_cons in H2 as (H2 & _)];
      (eapply wp_rd8; [done|]); simpl; wp_step; (split; [lia|done]).
  - apply cstring_cons in H1 as (Hx & _ & Hn & H1). eapply wp_rd8; [done|].
    rewrite (proj2 (Z.eqb_neq _ _) Hn). wp_step. simpl in Hf. destruct s2 as [|y s2].
    + apply cstring_nil in H2. eapply wp_rd8; [done|]. simpl.
      rewrite (proj2 (Z.eqb_neq _ _) Hn). wp_step. split; [lia|done].
    + apply cstring_cons in H2 as (Hy & _ & _ & H2). eapply wp_rd8; [done|]. simpl.
      destruct (Z.eqb_spec x y); [apply IH; [done|done|lia]|by wp_step].
Qed.

Lemma swrap8_zero x y : byte x → byte y → swrap 8 (x - y) = 0 ↔ x = y.
Proof.
  unfold byte, swrap. intros Hx Hy. change (2 ^ (8 - 1)) with 128. change (2 ^ 8) with 256. split; [|intros ->; rewrite Z.sub_diag; done].
  intros H. pose proof (Z.div_mod (x - y + 128) 256). pose proof (Z.mod_pos_bound (x - y + 128) 256). lia.
Qed.

(** The first [n] bytes of the string [s] with its zero are at [a]; the zero may be missing
    after [n] bytes. *)
Definition cprefix (n : nat) (m : ram) (a : Z) (s : list Z) : Prop :=
  bytes_at m a (take n (s ++ [0])) ∧ Forall (λ x, byte x ∧ x ≠ 0) s.

Lemma cprefix_nil n m a : cprefix (S n) m a [] → m !! a = Some 0.
Proof. unfold cprefix. simpl. naive_solver. Qed.

Lemma cprefix_cons n m a x s :
  cprefix (S n) m a (x :: s) → m !! a = Some x ∧ byte x ∧ x ≠ 0 ∧ cprefix n m (a + 1) s.
Proof. unfold cprefix. simpl. rewrite Forall_cons. tauto. Qed.

Lemma cstring_prefix n m a s : cstring m a s → cprefix n m a s.
Proof.
  intros [Hb Hs]. split; [|done]. rewrite <- (take_drop n (s ++ [0])) in Hb.
  by apply bytes_at_app in Hb as [? _].
Qed.

(** At most [n] bytes are compared, and the difference is cut to a signed byte. *)
Lemma wp_strncmp_loop n m a b s1 s2 :
  cprefix n m a s1 → cprefix n m b s2 →
  wp (strncmp_loop n a b 0) m (λ r m', r = swrap 8 (difference (take n s1) (take n s2)) ∧ m' = m).
Proof.
  revert a b s1 s2. induction n as [|n IH]; intros a b s1 s2 H1 H2; cbn [strncmp_loop].
  { wp_step. by rewrite !take_0. }
  wp_step. destruct s1 as [|x s1].
  - apply cprefix_nil in H1. eapply wp_rd8; [done|]. wp_step.
    destruct s2 as [|y s2]; [apply cprefix_nil in H2|apply cprefix_cons in H2 as (H2 & _)];
      (eapply wp_rd8; [done|]); rewrite orb_true_r; by wp_step.
  - apply cprefix_cons in H1 as (Hx & Hbx & Hn & H1). eapply wp_rd8; [done|]. wp_step.
    rewrite (proj2 (Z.eqb_neq _ _) Hn). destruct s2 as [|y s2].
    + apply cprefix_nil in H2. eapply wp_rd8; [done|]. rewrite orb_false_r, Z.sub_0_r.
      destruct (Z.eqb_spec (swrap 8 x) 0) as [E|]; [|simpl; by wp_step]. exfalso. apply Hn.
      apply (swrap8_zero x 0); [done|done|by rewrite Z.sub_0_r].
    + apply cprefix_cons in H2 as (Hy & Hby & _ & H2). eapply wp_rd8; [done|]. rewrite orb_false_r. simpl.
      destruct (Z.eqb_spec (swrap 8 (x - y)) 0) as [E|E]; simpl.
      * rewrite E. apply swrap8_zero in E as ->; [|done..]. rewrite Z.eqb_refl. by apply IH.
      * wp_step. destruct (Z.eqb_spec x y) as [->|]; [|done]. exfalso. apply E. by apply swrap8_zero.
Qed.

Lemma difference_range s1 s2 :
  Forall (λ x, byte x ∧ x ≠ 0) s1 → Forall (λ x, byte x ∧ x ≠ 0) s2 → -256 < difference s1 s2 < 256.
Proof.
  unfold byte. intros H1. revert s2. induction H1 as [|x s1 [? Hx] _ IH]; intros s2 H2;
    destruct H2 as [|y s2 [? Hy] H2]; simpl; [lia..|]. destruct (x =? y); [by apply IH|lia].
Qed.

Lemma wp_strncmp m a b s1 s2 n :
  cprefix (Z.to_nat n) m a s1 → cprefix (Z.to_nat n) m b s2 →
  wp (rt_strncmp a b n) m (λ r m',
    (r = 0 ↔ take (Z.to_nat n) s1 = take (Z.to_nat n) s2) ∧
    (-128 <= difference (take (Z.to_nat n) s1) (take (Z.to_nat n) s2) < 128 →
     r = difference (take (Z.to_nat n) s1) (take (Z.to_nat n) s2)) ∧ m' = m).
Proof.
  intros H1 H2. unfold rt_strncmp. eapply wp_mono; [by apply (wp_strncmp_loop _ m a b s1 s2)|].
  intros r m' [-> ->]. set (t1 := take (Z.to_nat n) s1). set (t2 := take (Z.to_nat n) s2).
  assert (Forall (λ x, byte x ∧ x ≠ 0) t1) as F1 by apply Forall_take, H1.
  assert (Forall (λ x, byte x ∧ x ≠ 0) t2) as F2 by apply Forall_take, H2.
  rewrite <- (difference_eq t1 t2) by done. pose proof (difference_range t1 t2 F1 F2) as Hr.
  unfold swrap. change (2 ^ (8 - 1)) with 128. change (2 ^ 8) with 256.
  pose proof (Z.div_mod (difference t1 t2 + 128) 256). pose proof (Z.mod_pos_bound (difference t1 t2 + 128) 256).
  split_and!; [lia|lia|done].
Qed.

(** [rt_strcmp] and [rt_strncmp] decide equality: the result is zero exactly when the
    strings, or their first [n] bytes, are equal.  [rt_strcmp] returns the difference of the
    first bytes that differ; [rt_strncmp] returns it cut to a signed byte, which has the
    right sign only for differences of less than 128. *)
Theorem rt_strcmp_spec m a b s1 s2 n :
  cstring m a s1 → cstring m b s2 →
  wp (rt_strcmp a b) m (λ r m', r = difference s1 s2 ∧ (r = 0 ↔ s1 = s2) ∧ m' = m) ∧
  wp (rt_strncmp a b n) m (λ r m',
    (r = 0 ↔ take (Z.to_nat n) s1 = take (Z.to_nat n) s2) ∧
    (-128 <= difference (take (Z.to_nat n) s1) (take (Z.to_nat n) s2) < 128 →
     r = difference (take (Z.to_nat n) s1) (take (Z.to_nat n) s2)) ∧ m' = m).
Proof.
  intros H1 H2. split.
  - unfold rt_strcmp. wp_step. wp_step. eapply wp_mono; [apply (wp_strcmp_loop _ m a b s1 s2 H1 H2)|].
    { pose proof (cstring_size m a s1 H1). lia. }
    intros r m' [-> ->]. split_and!; [done|apply difference_eq; [apply H1|apply H2]|done].
  - apply wp_strncmp; by apply cstring_prefix.
Qed.

Lemma wp_strncpy_loop n m d a s (Q : unit → ram → Prop) :
  cstring m a s → mapped m d n → (d + Z.of_nat n <= a ∨ a + Z.of_nat (length s) < d) →
  Q tt (store d (take n (s ++ replicate n 0)) m) → wp (strncpy_loop n d a) m Q.
Proof.
  revert m d a s. induction n as [|n IH]; intros m d a s Hs Hm Hd HQ; cbn [strncpy_loop].
  { wp_step. by rewrite take_0 in HQ. }
  wp_step. destruct s as [|x s].
  - apply cstring_nil in Hs. eapply wp_rd8; [done|]. wp_step. apply wp_wr8; [apply Hm; lia|].
    change (0 =? 0) with true. cbv iota. apply wp_set_bytes.
    { apply mapped_insert. eapply mapped_le; [exact Hm|lia|lia]. }
    rewrite app_nil_l in HQ. rewrite firstn_all2 in HQ by by rewrite length_replicate. exact HQ.
  - apply cstring_cons in Hs as (Hx & Hb & Hn & Hs). eapply wp_rd8; [done|]. wp_step.
    apply wp_wr8; [apply Hm; lia|]. rewrite (proj2 (Z.eqb_neq _ _) Hn). rewrite length_cons in Hd.
    apply (IH _ _ _ s).
    + destruct Hs as [Hs ?]. split; [|done]. apply bytes_at_insert_ne; [|done].
      rewrite length_app. simpl. lia.
    + apply mapped_insert. eapply mapped_le; [exact Hm|lia|lia].
    + lia.
    + simpl in HQ. replace (take n (s ++ replicate n 0)) with (take n (s ++ 0 :: replicate n 0)); [done|].
      rewrite !take_app. f_equal. change (0 :: replicate n 0) with (replicate (S n) 0).
      rewrite !take_replicate. f_equal. lia.
Qed.

(** [rt_strncpy] writes exactly [n] bytes: the string, cut after [n] bytes or filled
    up with zeros; a string of [n] bytes or more is left without a zero at its end. *)
Theorem rt_strncpy_spec m dst src s n :
  0 <= n → cstring m src s → mapped m dst (Z.to_nat n) →
  dst + n <= src ∨ src + Z.of_nat (length s) < dst →
  wp (rt_strncpy dst src n) m (λ r m', r = dst ∧
    m' = store dst (take (Z.to_nat n) (s ++ replicate (Z.to_nat n) 0)) m).
Proof.
  intros Hn Hs Hm Hd. unfold rt_strncpy. wp_step.
  apply (wp_strncpy_loop _ _ _ _ s); [done|done|lia|]. by wp_step.
Qed.

Lemma wp_memcmp l1 l2 m a b :
  length l1 = length l2 → bytes_at m a l1 → bytes_at m b l2 →
  wp (rt_memcmp a b (Z.of_nat (length l1))) m (λ r m', (r = 0 ↔ l1 = l2) ∧ m' = m).
Proof.
  unfold rt_memcmp. rewrite Nat2Z.id. revert a b l2.
  induction l1 as [|x l1 IH]; intros a b l2 Hl H1 H2; destruct l2 as [|y l2]; try done; cbn [memcmp_loop length].
  destruct H1 as [Hx H1], H2 as [Hy H2]. wp_step. eapply wp_rd8; [done|]. wp_step. eapply wp_rd8; [done|].
  destruct (Z.eqb_spec (x - y) 0) as [E|E]; simpl.
  - assert (x = y) as -> by lia. eapply wp_mono; [apply IH; [by simplify_eq/=|done|done]|].
    intros r m' [-> ->]. split; [|done]. split; [by intros ->|by intros [= ->]].
  - wp_step. split; [|done]. split; [lia|]. intros [= -> _]. lia.
Qed.

(** [t] occurs in [s] at the position [i]. *)
Definition occurs (t s : list Z) (i : nat) : Prop := take (length t) (drop i s) = t.

Lemma wp_strstr_loop n m a b s t :
  bytes_at m a s → bytes_at m b t → (n + length t = S (length s))%nat →
  wp (strstr_loop n a b (Z.of_nat (length t))) m (λ r m', m' = m ∧
    ((r = 0 ∧ ∀ i, (i < n)%nat → ¬ occurs t s i) ∨
     ∃ i, r = a + Z.of_nat i ∧ (i < n)%nat ∧ occurs t s i ∧ ∀ j, (j < i)%nat → ¬ occurs t s j)).
Proof.
  intros Ha Hb. revert a s Ha. induction n as [|n IH]; intros a s Ha Hn; cbn [strstr_loop].
  { wp_step. split; [done|]. left. split; [done|lia]. }
  assert (length (take (length t) s) = length t) as Hlt by (apply length_take_le; lia).
  wp_step. rewrite <- Hlt. eapply wp_mono; [apply (wp_memcmp (take (length t) s) t m a b Hlt)|]; [|done|].
  { rewrite <- (take_drop (length t) s) in Ha. by apply bytes_at_app in Ha as [? _]. }
  rewrite Hlt. intros r m' [Hr ->]. destruct (Z.eqb_spec r 0) as [E|E].
  - wp_step. split; [done|]. right. exists 0%nat. split_and!; [lia|lia|by apply Hr|lia].
  - assert (¬ occurs t s 0) as H0. { intros H. by apply E, Hr. }
    destruct n as [|n].
    + cbn [strstr_loop]. wp_step. split; [done|]. left. split; [done|]. intros i Hi.
      by replace i with 0%nat by lia.
    + destruct s as [|x s]; [simpl in Hn; lia|]. destruct Ha as [_ Ha]. simpl in Hn.
      eapply wp_mono; [apply (IH (a + 1) s Ha); lia|].
      intros r' m' [-> Hcase]. split; [done|]. destruct Hcase as [[-> Hno]|(i & -> & Hi & Hocc & Hno)].
      * left. split; [done|]. intros [|i] Hi; [done|]. apply Hno. lia.
      * right. exists (S i). split_and!; [lia|lia|exact Hocc|]. intros [|j] Hj; [done|]. apply Hno. lia.
Qed.

(** [rt_strstr] returns the first occurrence: the address of the first position at
    which the second string occurs in the first, or null when there is none; the empty
    string occurs at once. *)
Theorem rt_strstr_spec m a b s t :
  cstring m a s → cstring m b t →
  wp (rt_strstr a b) m (λ r m', m' = m ∧
    ((r = 0 ∧ ∀ i, ¬ (occurs t s i ∧ (i + length t <= length s)%nat)) ∨
     ∃ i, r = a + Z.of_nat i ∧ (i + length t <= length s)%nat ∧ occurs t s i ∧
          ∀ j, (j < i)%nat → ¬ occurs t s j)).
Proof.
  intros Hs Ht. unfold rt_strstr. wp_step. eapply wp_mono; [apply (rt_strlen_spec m b t Ht)|].
  intros r m' [-> ->]. destruct (Z.eqb_spec (Z.of_nat (length t)) 0) as [E|E].
  - wp_step. split; [done|]. right. exists 0%nat. destruct t; [|done]. split_and!; [lia|simpl; lia|done|lia].
  - wp_step. eapply wp_mono; [apply (rt_strlen_spec m a s Hs)|]. intros r m' [-> ->].
    destruct (decide (length t <= length s)%nat) as [Hle|Hle].
    + destruct Hs as [Hs _], Ht as [Ht _]. apply bytes_at_app in Hs as [Hs _], Ht as [Ht _].
      eapply wp_mono; [apply (wp_strstr_loop _ m a b s t); [done|done|lia]|].
      intros r m' [-> Hcase]. split; [done|]. destruct Hcase as [[-> Hno]|(i & -> & Hi & Hocc & Hno)].
      * left. split; [done|]. intros i [Hocc Hi]. apply (Hno i); [lia|done].
      * right. exists i. split_and!; [done|lia|done|done].
    + replace (Z.to_nat (Z.of_nat (length s) - Z.of_nat (length t) + 1)) with 0%nat by lia.
      cbn [strstr_loop]. wp_step. split; [done|]. left. split; [done|]. intros i [_ Hi]. lia.
Qed.

Lemma lower_range x : byte x → x ≠ 0 → 0 < lower (Z.land x 0xff) < 256.
Proof.
  unfold byte. intros Hx Hn. change 0xff with (Z.ones 8). rewrite Z.land_ones by lia. change (2 ^ 8) with 256. rewrite Z.mod_small by lia.
  unfold lower. destruct (Z.leb_spec 65 x), (Z.leb_spec x 90); simpl; lia.
Qed.

Lemma wp_strcasecmp_loop fuel m a b s1 s2 :
  cstring m a s1 → cstring m b s2 → (length s1 < fuel)%nat →
  let f := (λ x, lower (Z.land x 0xff)) in
  wp (strcasecmp_loop fuel a b) m (λ r m', (r = 0 ↔ f <$> s1 = f <$> s2) ∧ m' = m).
Proof.
  intros H1 H2 Hf f. revert a b s1 s2 H1 H2 Hf.
  induction fuel as [|fuel IH]; intros a b s1 s2 H1 H2 Hf; [lia|].
  assert (∀ x y, 0 <= x < 256 → 0 <= y < 256 → u32 (x - y) = 0 ↔ x = y) as Hu.
  { intros x y Hx Hy. unfold wrap. change (2 ^ 32) with 4294967296.
    pose proof (Z.div_mod (x - y) 4294967296). pose proof (Z.mod_pos_bound (x - y) 4294967296). lia. }
  cbn [strcasecmp_loop]. wp_step. destruct s1 as [|x s1].
  - apply cstring_nil in H1. eapply wp_rd8; [done|]. wp_step. change (lower (Z.land 0 255)) with 0.
    destruct s2 as [|y s2]; [apply cstring_nil in H2|apply cstring_cons in H2 as (H2 & Hb & Hn & _)];
      (eapply wp_rd8; [done|]); rewrite andb_false_r; wp_step.
    + done.
    + pose proof (lower_range y Hb Hn). split; [|done]. rewrite Hu by lia. split; [lia|done].
  - apply cstring_cons in H1 as (Hx & Hb & Hn & H1). pose proof (lower_range x Hb Hn) as Hlx.
    eapply wp_rd8; [done|]. wp_step. destruct s2 as [|y s2].
    + apply cstring_nil in H2. eapply wp_rd8; [done|]. change (lower (Z.land 0 255)) with 0.
      rewrite (proj2 (Z.eqb_neq _ _)) by lia. simpl. wp_step. split; [|done]. rewrite Hu by lia. split; [lia|done].
    + apply cstring_cons in H2 as (Hy & Hby & Hny & H2). pose proof (lower_range y Hby Hny) as Hly.
      eapply wp_rd8; [done|]. simpl in Hf. rewrite (proj2 (Z.eqb_neq (lower (Z.land x 255)) 0)) by lia.
      rewrite andb_true_r. rewrite !fmap_cons. fold (f x) (f y) in *. destruct (Z.eqb_spec (f x) (f y)) as [E|E].
      * eapply wp_mono; [apply IH; [done|done|lia]|]. intros r m' [-> ->]. split; [|done].
        rewrite E. split; [by intros ->|by intros [= ->]].
      * wp_step. split; [|done]. rewrite Hu by lia. split; [done|]. by intros [= ? _].
Qed.

(** [rt_strcasecmp] is zero exactly when the strings are equal up to case. *)
Lemma rt_strcasecmp_spec m a b s1 s2 :
  cstring m a s1 → cstring m b s2 →
  let f := (λ x, lower (Z.land x 0xff)) in
  wp (rt_strcasecmp a b) m (λ r m', (r = 0 ↔ f <$> s1 = f <$> s2) ∧ m' = m).
Proof.
  intros H1 H2 f. unfold rt_strcasecmp. wp_step. wp_step.
  apply (wp_strcasecmp_loop _ m a b s1 s2 H1 H2). pose proof (cstring_size m a s1 H1). lia.
Qed.

(** * Instances *)

(** Memory with the given bytes at address [a]. *)
Definition ram_of (a : Z) (l : list Z) : ram := store a l ∅.

Definition text : ram := ram_of 100 [97; 98; 97; 98; 99; 0; 97; 98; 99; 0; 0; 0; 0; 0; 0; 0; 0; 0; 0; 0].

Lemma text_strings : cstring text 100 [97; 98; 97; 98; 99] ∧ cstring text 106 [97; 98; 99].
Proof. unfold cstring, byte. by split; (split; [|repeat constructor]). Qed.

Lemma text_mapped a n :
  forallb (λ b, bool_decide (is_Some (text !! b))) (seqZ a (Z.of_nat n)) = true → mapped text a n.
Proof.
  rewrite forallb_forall. intros H b Hb. eapply bool_decide_eq_true, H, list_elem_of_In, elem_of_seqZ. lia.
Qed.

Lemma rt_memset_witness :
  wp (rt_memset 100 0x141 17) text (λ r m', r = 100 ∧ m' = store 100 (replicate 17 65) text).
Proof. apply (rt_memset_spec text 100 0x141 17); [done|]. by apply text_mapped. Defined.

Lemma rt_memcpy_witness :
  wp (rt_memcpy 112 100 5) text (λ r m', r = 112 ∧ m' = store 112 [97; 98; 97; 98; 99] text).
Proof.
  apply (rt_memcpy_spec text 112 100 [97; 98; 97; 98; 99]).
  - done.
  - unfold byte. by repeat constructor.
  - by apply text_mapped.
  - right. done.
Defined.

Lemma rt_memmove_witness :
  wp (rt_memmove 102 100 5) text (λ r m', r = 102 ∧ m' = store 102 [97; 98; 97; 98; 99] text).
Proof.
  apply (rt_memmove_spec text 102 100 [97; 98; 97; 98; 99]).
  - done.
  - by apply text_mapped.
Defined.

Lemma rt_strcmp_witness :
  wp (rt_strcmp 100 106) text (λ r _, r = -2) ∧ wp (rt_strncmp 100 106 2) text (λ r _, r = 0).
Proof.
  destruct text_strings as [H1 H2].
  destruct (rt_strcmp_spec text 100 106 [97; 98; 97; 98; 99] [97; 98; 99] 2 H1 H2) as [Hc Hn]. split.
  - eapply wp_mono; [exact Hc|]. by intros r m' (-> & _).
  - eapply wp_mono; [exact Hn|]. intros r m' ([_ H] & _). by apply H.
Defined.

Lemma rt_strncpy_witness :
  wp (rt_strncpy 112 106 8) text (λ r m', r = 112 ∧ m' = store 112 [97; 98; 99; 0; 0; 0; 0; 0] text).
Proof.
  apply (rt_strncpy_spec text 112 106 [97; 98; 99] 8).
  - done.
  - apply text_strings.
  - by apply text_mapped.
  - right. done.
Defined.

Lemma rt_strstr_witness : wp (rt_strstr 100 106) text (λ r m', r ≠ 0 → ∃ i, r = 100 + Z.of_nat i).
Proof.
  eapply wp_mono.
  - apply (rt_strstr_spec text 100 106 [97; 98; 97; 98; 99] [97; 98; 99]); apply text_strings.
  - intros r m' [_ [[-> _]|(i & -> & _)]]; [done|]. intros _. by exists i.
Defined.

(** [rt_strncmp] orders a byte below a smaller one when they are far apart. *)
Example rt_strncmp_wrong_sign :
  wp (rt_strncmp 0 2 1) (ram_of 0 [200; 0; 10; 0]) (λ r _, r = -66).
Proof. by vm_compute. Qed.

Example rt_strnlen_fault : rt_strnlen 0 2 (ram_of 0 [65; 66]) = Err F_pointer.
Proof. by vm_compute. Qed.
