(* ===== verification/Format.v ===== *)
(** Formatted output, [src/kservice.c]: [rt_vsnprintf] and the functions it uses.

    The buffer is a part of a memory of bytes.  Format strings are lists of characters
    without the final zero; the strings among the arguments are given by their characters,
    so they do not overlap the buffer; an argument of another type than the one fetched is a
    fault.  [RT_PRINTF_PRECISION] is defined, [RT_PRINTF_LONGLONG] and [RT_PRINTF_SPECIAL] are not.
    Addresses do not wrap around.

    [printed] is the text that a format and its arguments give, read as the code reads the
    format; the code stores it as far as it fits ([rt_snprintf_stores]), and numbers can be
    read back ([decimal_roundtrip]).  FormatSpec.v says what a format means. *)

From Stdlib Require Import ZArith Lia.
From stdpp Require Import numbers base gmap list.
From S2P Require Import Prelude Bytes.
Local Open Scope Z_scope.

(** * The code *)

Definition ZEROPAD : Z := 1.
Definition SIGN : Z := 2.
Definition PLUS : Z := 4.
Definition SPACE : Z := 8.
Definition LEFT : Z := 16.
Definition SPECIAL : Z := 32.
Definition LARGE : Z := 64.

Definition has (flags f : Z) : bool := negb (Z.land flags f =? 0).

Definition isdigit (c : Z) : bool := u32 (c - 48) <? 10.

(** The remainder and the new value of [*n]. *)
Definition divide (n base : Z) : Z * Z :=
  if base =? 10 then (u32 n mod 10, s32 (u32 n / 10)) else (u32 n mod 16, s32 (u32 n / 16)).

Fixpoint skip_atoi (i : Z) (s : list Z) : Z * list Z :=
  match s with
  | c :: s' => if isdigit c then skip_atoi (s32 (i * 10 + c - 48)) s' else (i, s)
  | [] => (i, [])
  end.

Definition digit_char (large : bool) (d : Z) : Z :=
  if d <? 10 then 48 + d else (if large then 55 else 87) + d.

(** [if (buf <= end) *buf = c; ++ buf;] *)
Definition putc (end_ c str : Z) : M ram Z :=
  (if str <=? end_ then wr8 str c else mret tt);; mret (str + 1).

Fixpoint put_chars (end_ : Z) (l : list Z) (str : Z) : M ram Z :=
  match l with
  | [] => mret str
  | c :: l => str ← putc end_ c str; put_chars end_ l str
  end.

(** [while (size-- > 0) { put c }] and the value it leaves in [size]. *)
Fixpoint pad (n : nat) (end_ c str : Z) : M ram Z :=
  match n with O => mret str | S n => str ← putc end_ c str; pad n end_ c str end.
Definition counted (size : Z) : Z := Z.min size 0 - 1.

(** The digits in [tmp], last digit first; [room] is what is left of its 16 characters. *)
Fixpoint tmp_digits (room : nat) (large : bool) (num base : Z) : option (list Z) :=
  if num =? 0 then Some []
  else
    match room with
    | O => None
    | S room =>
        let '(d, num) := divide num base in
        l ← tmp_digits room large num base; Some (digit_char large d :: l)
    end.

Definition number_tmp (large : bool) (num base : Z) : option (list Z) :=
  if num =? 0 then Some [48] else tmp_digits 16 large num base.

(** The sign character, 0 for none, and the number to print. *)
Definition number_sign (num type : Z) : Z * Z :=
  if has type SIGN then
    if num <? 0 then (45, s32 (- num))
    else if has type PLUS then (43, num)
    else if has type SPACE then (32, num)
    else (0, num)
  else (0, num).

(** The sign; its character counts for the field when it is stored. *)
Definition put_sign (end_ sign size str : Z) : M ram (Z * Z) :=
  if sign =? 0 then mret (str, size)
  else
    let size := if str <=? end_ then size - 1 else size in
    str ← putc end_ sign str;
    mret (str, size).

(** What [print_number] does behind the sign, with [size] characters of the field left. *)
Definition behind_sign (end_ : Z) (left : bool) (c gap : Z) (digits : list Z) (size str : Z) : M ram Z :=
  '(str, size) ←
    (if left then mret (str, size)
     else str ← pad (Z.to_nat size) end_ c str; mret (str, counted size));
  str ← pad (Z.to_nat gap) end_ 48 str;
  str ← put_chars end_ digits str;
  pad (Z.to_nat size) end_ 32 str.

Definition print_number (end_ num base s precision type str : Z) : M ram Z :=
  let type := if has type LEFT then Z.land type (Z.lnot ZEROPAD) else type in
  let c := if has type ZEROPAD then 48 else 32 in
  let '(sign, num) := number_sign num type in
  tmp ← deref (number_tmp (has type LARGE) num base);
  let i := Z.of_nat (length tmp) in
  let precision := if precision <? i then i else precision in
  let size := s - precision in
  '(str, size) ←
    (if has type (Z.lor ZEROPAD LEFT) then mret (str, size)
     else
       let size := if negb (sign =? 0) && (0 <? size) then size - 1 else size in
       str ← pad (Z.to_nat size) end_ 32 str;
       mret (str, counted size));
  '(str, size) ← put_sign end_ sign size str;
  behind_sign end_ (has type LEFT) c (precision - i) (rev tmp) size str.

(** ** Directives *)

Inductive arg := A_int (z : Z) | A_ptr (a : Z) | A_str (s : option (list Z)).

Definition take_int (args : list arg) : option (Z * list arg) :=
  match args with A_int z :: args => Some (z, args) | _ => None end.
Definition take_ptr (args : list arg) : option (Z * list arg) :=
  match args with A_ptr z :: args => Some (z, args) | _ => None end.
Definition take_str (args : list arg) : option (option (list Z) * list arg) :=
  match args with A_str s :: args => Some (s, args) | _ => None end.

(** The loop over the flags, behind the percent sign. *)
Fixpoint fmt_flags (flags : Z) (fmt : list Z) : Z * list Z :=
  match fmt with
  | c :: fmt' =>
      if c =? 45 then fmt_flags (Z.lor flags LEFT) fmt'
      else if c =? 43 then fmt_flags (Z.lor flags PLUS) fmt'
      else if c =? 32 then fmt_flags (Z.lor flags SPACE) fmt'
      else if c =? 35 then fmt_flags (Z.lor flags SPECIAL) fmt'
      else if c =? 48 then fmt_flags (Z.lor flags ZEROPAD) fmt'
      else (flags, fmt)
  | [] => (flags, [])
  end.

Definition current (fmt : list Z) : Z := default 0 (head fmt).

(** The field width, the flags, the rest of the format and of the arguments. *)
Definition fmt_width (flags : Z) (fmt : list Z) (args : list arg) : option (Z * Z * list Z * list arg) :=
  if isdigit (current fmt) then let '(w, fmt) := skip_atoi 0 fmt in Some (w, flags, fmt, args)
  else if current fmt =? 42 then
    '(w, args) ← take_int args;
    Some (if w <? 0 then (s32 (- w), Z.lor flags LEFT, tail fmt, args) else (w, flags, tail fmt, args))
  else Some (-1, flags, fmt, args).

Definition fmt_precision (fmt : list Z) (args : list arg) : option (Z * list Z * list arg) :=
  if current fmt =? 46 then
    let fmt := tail fmt in
    '(p, fmt, args) ←
      (if isdigit (current fmt) then let '(p, fmt) := skip_atoi 0 fmt in Some (p, fmt, args)
       else if current fmt =? 42 then '(p, args) ← take_int args; Some (p, tail fmt, args)
       else Some (-1, fmt, args));
    Some (if p <? 0 then 0 else p, fmt, args)
  else Some (-1, fmt, args).

(** The qualifier 'h' or 'l', or 0. *)
Definition fmt_qualifier (fmt : list Z) : Z * list Z :=
  let c := current fmt in
  if (c =? 104) || (c =? 108) then (c, tail fmt) else (0, fmt).

Record directive := mk_directive {
  dv_flags : Z; dv_width : Z; dv_precision : Z; dv_qualifier : Z; dv_conversion : Z
}.

(** A directive, behind its percent sign; the rest of the format is behind its conversion. *)
Definition fmt_directive (fmt : list Z) (args : list arg) : option (directive * list Z * list arg) :=
  let '(flags, fmt) := fmt_flags 0 fmt in
  '(width, flags, fmt, args) ← fmt_width flags fmt args;
  '(precision, fmt, args) ← fmt_precision fmt args;
  let '(qualifier, fmt) := fmt_qualifier fmt in
  Some (mk_directive flags width precision qualifier (current fmt), tail fmt, args).

(** [case 'c'] *)
Definition print_char (end_ : Z) (d : directive) (c str : Z) : M ram Z :=
  '(str, width) ←
    (if has (dv_flags d) LEFT then mret (str, dv_width d)
     else str ← pad (Z.to_nat (dv_width d - 1)) end_ 32 str; mret (str, Z.min (dv_width d - 1) 0));
  str ← putc end_ (u8 c) str;
  pad (Z.to_nat (width - 1)) end_ 32 str.

(** "(NULL)" *)
Definition null_text : list Z := [40; 78; 85; 76; 76; 41].

(** [case 's'] *)
Definition print_string (end_ : Z) (d : directive) (s : option (list Z)) (str : Z) : M ram Z :=
  let s := default null_text s in
  let len := Z.of_nat (length s) in
  let len := if (0 <? dv_precision d) && (dv_precision d <? len) then dv_precision d else len in
  '(str, width) ←
    (if has (dv_flags d) LEFT then mret (str, dv_width d)
     else str ← pad (Z.to_nat (dv_width d - len)) end_ 32 str; mret (str, Z.min (dv_width d) len - 1));
  str ← put_chars end_ (take (Z.to_nat len) s) str;
  pad (Z.to_nat (width - len)) end_ 32 str.

(** The base of an integer conversion and its flags; [None] for the others. *)
Definition integer_format (c flags : Z) : option (Z * Z) :=
  if c =? 111 then Some (8, flags)
  else if c =? 88 then Some (16, Z.lor flags LARGE)
  else if c =? 120 then Some (16, flags)
  else if (c =? 100) || (c =? 105) then Some (10, Z.lor flags SIGN)
  else if c =? 117 then Some (10, flags)
  else None.

(** The argument of an integer conversion, an [rt_uint32_t] that becomes a [long]. *)
Definition integer_value (qualifier flags z : Z) : Z :=
  if qualifier =? 104 then
    if has flags SIGN then s32 (u32 (swrap 16 (u16 z))) else s32 (u16 z)
  else s32 (u32 z).

(** One directive; the rest of the arguments.  At the end of the format the percent sign alone
    is printed. *)
Definition print_directive (end_ : Z) (d : directive) (args : list arg) (str : Z) : M ram (Z * list arg) :=
  let c := dv_conversion d in
  match integer_format c (dv_flags d) with
  | Some (base, flags) =>
      '(z, args) ← deref (take_int args);
      str ← print_number end_ (integer_value (dv_qualifier d) flags z) base (dv_width d)
              (dv_precision d) flags str;
      mret (str, args)
  | None =>
      if c =? 99 then
        '(z, args) ← deref (take_int args);
        str ← print_char end_ d z str; mret (str, args)
      else if c =? 115 then
        '(s, args) ← deref (take_str args);
        str ← print_string end_ d s str; mret (str, args)
      else if c =? 112 then
        '(a, args) ← deref (take_ptr args);
        let '(width, flags) := if dv_width d =? -1 then (8, Z.lor (dv_flags d) ZEROPAD)
                               else (dv_width d, dv_flags d) in
        str ← print_number end_ (s32 a) 16 width (dv_precision d) flags str;
        mret (str, args)
      else if c =? 37 then str ← putc end_ 37 str; mret (str, args)
      else
        str ← putc end_ 37 str;
        str ← (if c =? 0 then mret str else putc end_ c str);
        mret (str, args)
  end.

Fixpoint format_loop (fuel : nat) (end_ : Z) (fmt : list Z) (args : list arg) (str : Z) : M ram Z :=
  match fmt with
  | [] => mret str
  | c :: fmt =>
      match fuel with
      | O => fail F_fuel
      | S fuel =>
          if c =? 37 then
            '(d, fmt, args) ← deref (fmt_directive fmt args);
            '(str, args) ← print_directive end_ d args str;
            format_loop fuel end_ fmt args str
          else str ← putc end_ c str; format_loop fuel end_ fmt args str
      end
  end.

Definition rt_vsnprintf (buf size : Z) (fmt : list Z) (args : list arg) : M ram Z :=
  let end_ := u32 (buf + size - 1) in
  let end_ := if end_ <? buf then 0xffffffff else end_ in
  str ← format_loop (length fmt) end_ fmt args buf;
  (if str <=? end_ then wr8 str 0 else wr8 end_ 0);;
  mret (s32 (str - buf)).

Definition rt_snprintf (buf size : Z) (fmt : list Z) (args : list arg) : M ram Z :=
  rt_vsnprintf buf size fmt args.
Definition rt_vsprintf (buf : Z) (fmt : list Z) (args : list arg) : M ram Z :=
  rt_vsnprintf buf 0xffffffff fmt args.
Definition rt_sprintf (buf : Z) (fmt : list Z) (args : list arg) : M ram Z :=
  rt_vsprintf buf fmt args.

(** * The text of a format *)

Definition reps (n c : Z) : list Z := replicate (Z.to_nat n) c.

(** The numeral of [n], most significant digit first. *)
Fixpoint numeral (fuel : nat) (large : bool) (base n : Z) : list Z :=
  match fuel with
  | O => []
  | S fuel =>
      (if n <? base then [] else numeral fuel large base (n / base)) ++ [digit_char large (n mod base)]
  end.

Definition radix (base : Z) : Z := if base =? 10 then 10 else 16.
Definition sign_text (sign : Z) : list Z := if sign =? 0 then [] else [sign].

(** Sign and digits in their field: to the left, or behind blanks, or with zeros behind the
    sign. *)
Definition field_text (width : Z) (left zeros : bool) (sign body : list Z) : list Z :=
  let w := width - Z.of_nat (length sign) - Z.of_nat (length body) in
  if left then sign ++ body ++ reps w 32
  else if zeros then sign ++ reps w 48 ++ body
  else reps w 32 ++ sign ++ body.

Definition number_text (num base width precision flags : Z) : list Z :=
  let '(sign, num) := number_sign num flags in
  let digits := numeral 16 (has flags LARGE) (radix base) (u32 num) in
  field_text width (has flags LEFT) (has flags ZEROPAD) (sign_text sign)
    (reps (precision - Z.of_nat (length digits)) 48 ++ digits).

(** At most [precision] characters of a string. *)
Definition string_text (precision : Z) (s : option (list Z)) : list Z :=
  let s := default null_text s in
  if 0 <? precision then take (Z.to_nat precision) s else s.

Definition directive_text (d : directive) (args : list arg) : option (list Z * list arg) :=
  let c := dv_conversion d in
  let left := has (dv_flags d) LEFT in
  match integer_format c (dv_flags d) with
  | Some (base, flags) =>
      '(z, args) ← take_int args;
      Some (number_text (integer_value (dv_qualifier d) flags z) base (dv_width d) (dv_precision d) flags, args)
  | None =>
      if c =? 99 then
        '(z, args) ← take_int args; Some (field_text (dv_width d) left false [] [u8 z], args)
      else if c =? 115 then
        '(s, args) ← take_str args;
        Some (field_text (dv_width d) left false [] (string_text (dv_precision d) s), args)
      else if c =? 112 then
        '(a, args) ← take_ptr args;
        Some (if dv_width d =? -1 then number_text (s32 a) 16 8 (dv_precision d) (Z.lor (dv_flags d) ZEROPAD)
              else number_text (s32 a) 16 (dv_width d) (dv_precision d) (dv_flags d), args)
      else if c =? 37 then Some ([37], args)
      else Some (37 :: (if c =? 0 then [] else [c]), args)
  end.

Fixpoint format_text (fuel : nat) (fmt : list Z) (args : list arg) : option (list Z) :=
  match fmt, fuel with
  | [], _ => Some []
  | _ :: _, O => None
  | c :: fmt, S fuel =>
      if c =? 37 then
        '(d, fmt, args) ← fmt_directive fmt args;
        '(t, args) ← directive_text d args;
        rest ← format_text fuel fmt args; Some (t ++ rest)
      else rest ← format_text fuel fmt args; Some (c :: rest)
  end.

(** What [printf] prints for a format and its arguments. *)
Definition printed (fmt : list Z) (args : list arg) : option (list Z) :=
  format_text (length fmt) fmt args.

(** * The code prints the text as far as it fits *)

Definition room (end_ str : Z) : nat := Z.to_nat (end_ + 1 - str).

(** [c] prints [t] at the given position: up to [end_] it is stored there, the position
    behind it is exact when all of it fits, and never too small. *)
Definition prints (end_ : Z) (c : Z → M ram Z) (t : list Z) : Prop :=
  ∀ str m, mapped m str (room end_ str `min` length t) →
  wp (c str) m (λ str' m',
    m' = store str (take (room end_ str) t) m ∧
    str + Z.of_nat (length t) <= str' ∧
    (str + Z.of_nat (length t) <= end_ + 1 → str' = str + Z.of_nat (length t))).

Lemma prints_ret end_ : prints end_ mret [].
Proof. intros str m _. wp_step. rewrite take_nil. simpl. split_and!; [done|lia|lia]. Qed.

Lemma prints_bind end_ c1 c2 t1 t2 :
  prints end_ c1 t1 → prints end_ c2 t2 → prints end_ (λ str, str ← c1 str; c2 str) (t1 ++ t2).
Proof.
  intros H1 H2 str m Hm. rewrite length_app in *. wp_step.
  eapply wp_mono; [apply H1; eapply mapped_le; [exact Hm|lia|lia]|].
  intros str1 ? (-> & Hge & Hex). cbv beta.
  eapply wp_mono.
  { apply H2, mapped_store. intros b Hb. apply Hm. unfold room in *. lia. }
  intros str2 ? (-> & Hge2 & Hex2). cbv beta. split_and!; [|lia|lia].
  rewrite take_app, store_app, length_take.
  destruct (decide (str + Z.of_nat (length t1) <= end_ + 1)) as [Hf|Hf].
  - rewrite Hex by done. f_equal; [unfold room in *; lia|]. f_equal. unfold room in *. lia.
  - replace (room end_ str1) with 0%nat by (unfold room; lia).
    replace (room end_ str - length t1)%nat with 0%nat by (unfold room; lia). by rewrite !take_0.
Qed.

Lemma prints_eq end_ c c' t t' : prints end_ c t → (∀ str m, c' str m = c str m) → t = t' → prints end_ c' t'.
Proof. intros H Hc <- str m Hm. unfold wp. rewrite Hc. by apply H. Qed.

Lemma prints_putc end_ ch : prints end_ (putc end_ ch) [ch].
Proof.
  intros str m Hm. unfold putc. wp_step. destruct (Z.leb_spec str end_).
  - apply wp_wr8; [apply Hm; unfold room in *; simpl; lia|]. wp_step.
    replace (room end_ str) with (S (Z.to_nat (end_ - str))) by (unfold room; lia).
    cbn [take store length]. rewrite take_nil. split_and!; [done|lia|lia].
  - wp_step. replace (room end_ str) with 0%nat by (unfold room; lia). wp_step.
    cbn [take store length]. split_and!; [done|lia|lia].
Qed.

Lemma prints_cons end_ ch c t :
  prints end_ c t → prints end_ (λ str, str ← putc end_ ch str; c str) (ch :: t).
Proof. intros H. apply (prints_bind end_ _ _ [ch]); [apply prints_putc|done]. Qed.

Lemma prints_chars end_ l : prints end_ (put_chars end_ l) l.
Proof. induction l as [|x l IH]; [apply prints_ret|]. by apply prints_cons. Qed.

Lemma prints_pad end_ n ch : prints end_ (pad n end_ ch) (replicate n ch).
Proof. induction n as [|n IH]; [apply prints_ret|]. by apply prints_cons. Qed.

(** ** Numbers *)

Lemma has_lor flags f g : has flags (Z.lor f g) = has flags f || has flags g.
Proof.
  unfold has. rewrite Z.land_lor_distr_r.
  destruct (Z.eqb_spec (Z.lor (Z.land flags f) (Z.land flags g)) 0) as [H|H].
  - apply Z.lor_eq_0_iff in H as [-> ->]. done.
  - destruct (Z.eqb_spec (Z.land flags f) 0) as [Hf|], (Z.eqb_spec (Z.land flags g) 0) as [Hg|]; try done.
    by rewrite Hf, Hg in H.
Qed.

Lemma has_drop_zeropad flags f : Z.land f ZEROPAD = 0 → has (Z.land flags (Z.lnot ZEROPAD)) f = has flags f.
Proof.
  intros Hf. unfold has. f_equal. f_equal. rewrite <- Z.land_assoc. f_equal.
  apply Z.bits_inj'. intros i Hi. rewrite Z.land_spec, Z.lnot_spec by done.
  assert (Hb : Z.testbit (Z.land f ZEROPAD) i = false) by (rewrite Hf; apply Z.bits_0).
  rewrite Z.land_spec in Hb. by destruct (Z.testbit ZEROPAD i), (Z.testbit f i).
Qed.

Lemma has_zeropad_dropped flags : has (Z.land flags (Z.lnot ZEROPAD)) ZEROPAD = false.
Proof. unfold has. rewrite <- Z.land_assoc. change (Z.land (Z.lnot ZEROPAD) ZEROPAD) with 0. by rewrite Z.land_0_r. Qed.

(** The digits go into [tmp] in the opposite order, and 16 characters are enough. *)
Lemma divide_radix n base : divide n base = (u32 n mod radix base, s32 (u32 n / radix base)).
Proof. unfold divide, radix. by destruct (base =? 10). Qed.

Lemma u32_s32 x : u32 (s32 x) = u32 x.
Proof.
  unfold wrap, swrap. rewrite Zminus_mod_idemp_l. f_equal. lia.
Qed.

Lemma s32_eqb_0 x : 0 <= x < 2 ^ 32 → (s32 x =? 0) = (x =? 0).
Proof.
  intros Hx. destruct (Z.eqb_spec x 0) as [->|Hne]; [done|]. apply Z.eqb_neq. intros H0.
  assert (H : u32 (s32 x) = 0) by by rewrite H0.
  rewrite u32_s32 in H. unfold wrap in H. rewrite Z.mod_small in H by lia. done.
Qed.

Lemma tmp_digits_numeral fuel large base n num :
  0 < n < 2 ^ 32 → n < radix base ^ Z.of_nat fuel → s32 n = num → 
  tmp_digits fuel large num base = Some (rev (numeral fuel large (radix base) n)).
Proof.
  revert n num. induction fuel as [|fuel IH]; intros n num Hn Hlt <-.
  { simpl in Hlt. lia. }
  assert (Hr : 10 <= radix base <= 16) by (unfold radix; destruct (base =? 10); lia).
  cbn [tmp_digits numeral]. rewrite s32_eqb_0 by lia. destruct (Z.eqb_spec n 0); [lia|].
  rewrite divide_radix, u32_s32. unfold wrap. rewrite (Z.mod_small n (2 ^ 32)) by lia.
  rewrite rev_app_distr. cbn [rev app].
  destruct (Z.ltb_spec n (radix base)) as [Hs|Hs].
  - rewrite Z.div_small by lia. by destruct fuel.
  - erewrite IH; [done| | |done].
    + split; [apply Z.div_str_pos; lia|]. apply Z.div_lt_upper_bound; nia.
    + apply Z.div_lt_upper_bound; [lia|]. rewrite Nat2Z.inj_succ, Z.pow_succ_r in Hlt by lia. lia.
Qed.

Lemma number_tmp_numeral large base num :
  -2 ^ 31 <= num < 2 ^ 31 →
  number_tmp large num base = Some (rev (numeral 16 large (radix base) (u32 num))).
Proof.
  intros Hn. unfold number_tmp. destruct (Z.eqb_spec num 0) as [->|Hne].
  { unfold radix. by destruct (base =? 10), large. }
  assert (Hu : num = s32 (u32 num)).
  { unfold swrap, wrap. rewrite Zplus_mod_idemp_l, Z.mod_small by lia. lia. }
  assert (Hb : 0 <= u32 num < 2 ^ 32) by (apply Z.mod_pos_bound; lia).
  apply tmp_digits_numeral; [|unfold radix; destruct (base =? 10); lia|done].
  split; [|lia]. destruct (decide (u32 num = 0)) as [H0|]; [|lia]. rewrite Hu, H0 in Hne. done.
Qed.

Lemma prints_reps end_ n ch : prints end_ (pad (Z.to_nat n) end_ ch) (reps n ch).
Proof. apply prints_pad. Qed.

Lemma length_reps n c : length (reps n c) = Z.to_nat n.
Proof. apply length_replicate. Qed.

Lemma reps_nonpos n c : n <= 0 → reps n c = [].
Proof. intros H. unfold reps. by replace (Z.to_nat n) with 0%nat by lia. Qed.

(** A computation whose value goes to a continuation through a pair. *)
Lemma prints_pair {B} end_ c (y : B) (k : Z * B → M ram Z) t1 t2 :
  prints end_ c t1 → prints end_ (λ str, k (str, y)) t2 →
  prints end_ (λ str, (str ← c str; mret (str, y)) ≫= k) (t1 ++ t2).
Proof.
  intros H1 H2. eapply prints_eq; [exact (prints_bind _ _ _ _ _ H1 H2)| |done].
  intros str m. unfold mbind, M_bind. by destruct (c str m) as [[? ?]|].
Qed.

Definition behind_text (left : bool) (c gap : Z) (digits : list Z) (size : Z) : list Z :=
  if left then reps gap 48 ++ digits ++ reps size 32 else reps size c ++ reps gap 48 ++ digits.

Lemma prints_behind end_ left c gap digits size :
  prints end_ (behind_sign end_ left c gap digits size) (behind_text left c gap digits size).
Proof.
  unfold behind_sign, behind_text. destruct left.
  - apply (prints_bind end_ _ _ _ (digits ++ reps size 32)); [apply prints_reps|].
    apply prints_bind; [apply prints_chars|apply prints_reps].
  - apply prints_pair; [apply prints_reps|].
    apply (prints_bind end_ _ _ _ digits); [apply prints_reps|].
    pose proof (prints_bind end_ _ _ _ _ (prints_chars end_ digits) (prints_reps end_ (counted size) 32)) as H.
    rewrite reps_nonpos, app_nil_r in H by (unfold counted; lia). exact H.
Qed.

Lemma behind_text_mono left c gap digits size :
  (length (behind_text left c gap digits (size - 1)) <= length (behind_text left c gap digits size))%nat.
Proof. unfold behind_text. destruct left; rewrite !length_app, !length_reps; lia. Qed.

(** The sign counts for the field only when it is stored; otherwise nothing behind it is. *)
Lemma prints_sign end_ sign (size : Z) (body : Z → Z → M ram Z) (text : Z → list Z) :
  (∀ size, prints end_ (body size) (text size)) →
  (length (text (size - 1)%Z) <= length (text size))%nat →
  prints end_ (λ str, '(str, size) ← put_sign end_ sign size str; body size str)
    (sign_text sign ++ text (size - Z.of_nat (length (sign_text sign)))).
Proof.
  intros Hb Hl. unfold put_sign, sign_text. destruct (Z.eqb_spec sign 0).
  { cbn [length app]. rewrite Z.sub_0_r. apply Hb. }
  cbn [length app]. change (Z.of_nat 1) with 1. intros str m Hm. cbv beta zeta.
  pose proof (λ size, prints_pair end_ (putc end_ sign) size (λ '(str, size), body size str) [sign]
             (text size) (prints_putc _ _) (Hb _) str m) as H.
  destruct (Z.leb_spec str end_) as [Hle|Hgt]; [by apply H|].
  replace (room end_ str) with 0%nat in * by (unfold room; lia).
  eapply wp_mono; [apply H; intros b Hb'; lia|]. cbv beta.
  rewrite length_cons, !take_0, length_app. intros str' m' (-> & Hge & _). cbn [length] in Hge.
  split_and!; [done|lia|lia].
Qed.

Lemma prints_field end_ (width sign : Z) (left zeros : bool) (gap : Z) (digits : list Z) :
  prints end_ (λ str,
    '(str, size) ←
      (if zeros || left then mret (str, width)
       else
         let size := if negb (sign =? 0) && (0 <? width) then width - 1 else width in
         str ← pad (Z.to_nat size) end_ 32 str;
         mret (str, counted size));
    '(str, size) ← put_sign end_ sign size str;
    behind_sign end_ left (if zeros then 48 else 32) gap digits size str)
  (field_text (width + Z.of_nat (length (reps gap 48 ++ digits))) left zeros (sign_text sign) (reps gap 48 ++ digits)).
Proof.
  pose proof (λ size, prints_sign end_ sign size _ _
    (prints_behind end_ left (if zeros then 48 else 32) gap digits) (behind_text_mono _ _ _ _ _)) as Hs.
  unfold field_text.
  set (body := reps gap 48 ++ digits) in *.
  replace (width + _ - _ - _) with (width - Z.of_nat (length (sign_text sign))) by lia.
  destruct (zeros || left) eqn:E.
  { eapply prints_eq; [apply Hs|done|]. unfold behind_text. unfold body. destruct left; [by rewrite <- app_assoc|].
    by destruct zeros. }
  apply orb_false_iff in E as [-> ->].
  set (size := if negb (sign =? 0) && (0 <? width) then width - 1 else width).
  eapply prints_eq; [|done|].
  { exact (prints_pair end_ _ _ (λ '(str, size), put_sign end_ sign size str ≫= _) _ _
             (prints_reps end_ size 32) (Hs (counted size))). }
  unfold size, behind_text. rewrite (reps_nonpos (counted _ - _)) by (unfold counted; lia). cbn [app].
  f_equal. unfold sign_text. destruct (sign =? 0); cbn [negb andb length]; [f_equal; lia|].
  destruct (Z.ltb_spec 0 width); [f_equal; lia|]. by rewrite !reps_nonpos by lia.
Qed.

Lemma prints_deref {A} end_ (o : option A) a (k : A → Z → M ram Z) t :
  o = Some a → prints end_ (k a) t → prints end_ (λ str, a ← deref o; k a str) t.
Proof. by intros ->. Qed.

Lemma number_sign_range num flags :
  -2 ^ 31 <= num < 2 ^ 31 → -2 ^ 31 <= (number_sign num flags).2 < 2 ^ 31.
Proof.
  intros Hn. unfold number_sign. destruct (has flags SIGN); [|done].
  destruct (num <? 0); [|by destruct (has flags PLUS), (has flags SPACE)].
  unfold swrap. simpl. pose proof (Z.mod_pos_bound (- num + 2 ^ (32 - 1)) (2 ^ 32)). lia.
Qed.

Lemma prints_number end_ num base width precision flags :
  -2 ^ 31 <= num < 2 ^ 31 →
  prints end_ (print_number end_ num base width precision flags) (number_text num base width precision flags).
Proof.
  intros Hn. unfold print_number, number_text.
  set (type := if has flags LEFT then Z.land flags (Z.lnot ZEROPAD) else flags).
  assert (Hty : ∀ f, Z.land f ZEROPAD = 0 → has type f = has flags f).
  { intros f Hf. unfold type. destruct (has flags LEFT) eqn:E; [by apply has_drop_zeropad|done]. }
  assert (Hz : has type ZEROPAD = negb (has flags LEFT) && has flags ZEROPAD).
  { unfold type. destruct (has flags LEFT) eqn:E; [apply has_zeropad_dropped|done]. }
  assert (Hsg : number_sign num type = number_sign num flags) by (unfold number_sign; by rewrite !Hty).
  cbv zeta. rewrite Hsg, has_lor, Hz, !Hty by done.
  pose proof (number_sign_range num flags Hn) as Hn'.
  destruct (number_sign num flags) as [sign n]. simpl in Hn'.
  eapply prints_deref; [by apply number_tmp_numeral|].
  set (digits := numeral 16 (has flags LARGE) (radix base) (u32 n)). cbv beta.
  rewrite length_rev, rev_involutive.
  set (i := Z.of_nat (length digits)).
  set (p := if precision <? i then i else precision).
  assert (Hp : i <= p /\ reps (precision - i) 48 = reps (p - i) 48).
  { unfold p. destruct (Z.ltb_spec precision i); [|done]. by rewrite !reps_nonpos by lia. }
  destruct Hp as [Hip ->]. eapply prints_eq; [apply (prints_field end_ (width - p))|reflexivity|].
  rewrite length_app, length_reps. replace (width - p + _) with width by lia.
  unfold field_text. by destruct (has flags LEFT).
Qed.

(** ** Directives *)

Lemma print_char_text end_ d z :
  prints end_ (print_char end_ d z) (field_text (dv_width d) (has (dv_flags d) LEFT) false [] [u8 z]).
Proof.
  unfold print_char, field_text. cbn [length]. rewrite Z.sub_0_r. change (Z.of_nat 1) with 1.
  destruct (has (dv_flags d) LEFT).
  - apply prints_cons, prints_reps.
  - eapply prints_eq; [|done|].
    + eapply (prints_pair end_ _ _ (λ '(str, width), putc end_ (u8 z) str ≫= _) _ _ (prints_reps end_ _ 32)).
      apply prints_cons, prints_reps.
    + rewrite (reps_nonpos (Z.min _ _ - 1)) by lia. done.
Qed.

Lemma print_string_text end_ d s :
  prints end_ (print_string end_ d s)
    (field_text (dv_width d) (has (dv_flags d) LEFT) false [] (string_text (dv_precision d) s)).
Proof.
  unfold print_string, field_text, string_text. cbn [length]. rewrite Z.sub_0_r.
  set (l := default null_text s). set (w := dv_width d). set (p := dv_precision d).
  set (len := if (0 <? p) && (p <? Z.of_nat (length l)) then p else Z.of_nat (length l)).
  assert ((if 0 <? p then take (Z.to_nat p) l else l) = take (Z.to_nat len) l ∧
               Z.of_nat (length (take (Z.to_nat len) l)) = len) as [-> Hlen].
  { unfold len. destruct (Z.ltb_spec 0 p), (Z.ltb_spec p (Z.of_nat (length l))); cbn [andb];
      rewrite ?length_take; (split; [|lia]); rewrite ?(take_ge l) by lia; done. }
  rewrite Hlen. cbn [app]. destruct (has (dv_flags d) LEFT).
  - apply prints_bind; [apply prints_chars|apply prints_reps].
  - eapply prints_eq; [|done|].
    + eapply (prints_pair end_ _ _ (λ '(str, width), put_chars end_ _ str ≫= _) _ _ (prints_reps end_ _ 32)).
      apply prints_bind; [apply prints_chars|apply prints_reps].
    + rewrite (reps_nonpos (Z.min _ _ - 1 - _)), app_nil_r by lia. done.
Qed.

Lemma s32_range x : -2 ^ 31 <= s32 x < 2 ^ 31.
Proof. unfold swrap. pose proof (Z.mod_pos_bound (x + 2 ^ (32 - 1)) (2 ^ 32)). lia. Qed.

Lemma integer_value_range q flags z : -2 ^ 31 <= integer_value q flags z < 2 ^ 31.
Proof. unfold integer_value. destruct (q =? 104), (has flags SIGN); apply s32_range. Qed.

(** A directive prints its text and goes on with the rest of the arguments. *)
Lemma prints_directive end_ d args t args' (k : list arg → Z → M ram Z) t' :
  directive_text d args = Some (t, args') → prints end_ (k args') t' →
  prints end_ (λ str, '(str, args) ← print_directive end_ d args str; k args str) (t ++ t').
Proof.
  intros Hd Hk. unfold directive_text, print_directive in *.
  pose proof (λ c t1 H1, prints_pair end_ c args' (λ '(str, args), k args str) t1 t' H1 Hk) as Hpair.
  destruct (integer_format _ _) as [[base flags]|].
  { destruct (take_int args) as [[z a]|] eqn:E; [|done]. injection Hd as <- <-.
    apply Hpair, prints_number, integer_value_range. }
  destruct (dv_conversion d =? 99).
  { destruct (take_int args) as [[z a]|] eqn:E; [|done]. injection Hd as <- <-. apply Hpair, print_char_text. }
  destruct (dv_conversion d =? 115).
  { destruct (take_str args) as [[z a]|] eqn:E; [|done]. injection Hd as <- <-. apply Hpair, print_string_text. }
  destruct (dv_conversion d =? 112).
  { destruct (take_ptr args) as [[z a]|] eqn:E; [|done]. injection Hd as <- <-.
    destruct (dv_width d =? -1); apply Hpair, prints_number, s32_range. }
  destruct (dv_conversion d =? 37).
  { injection Hd as <- <-. apply Hpair, prints_putc. }
  injection Hd as <- <-. destruct (dv_conversion d =? 0).
  { apply (Hpair _ [37]), prints_putc. }
  eapply prints_eq; [apply Hpair; apply (prints_cons end_ 37), prints_putc| |done].
  intros str m. unfold mbind, M_bind. by destruct (putc end_ 37 str m) as [[? ?]|].
Qed.

Lemma prints_format end_ fuel fmt args t :
  format_text fuel fmt args = Some t → prints end_ (format_loop fuel end_ fmt args) t.
Proof.
  revert fmt args t. induction fuel as [|fuel IH]; intros [|c fmt] args t Ht; simpl in Ht; try done.
  1-2: injection Ht as <-; apply prints_ret.
  cbn [format_loop]. destruct (c =? 37).
  - apply bind_Some in Ht as ([[d fmt'] args'] & Hd & Ht).
    apply bind_Some in Ht as ([t1 args''] & Ht1 & Ht). apply bind_Some in Ht as (t2 & Ht2 & [= <-]).
    rewrite Hd. apply (prints_directive end_ d args' t1 args'' (format_loop fuel end_ fmt')); [done|].
    by apply IH.
  - apply bind_Some in Ht as (t2 & Ht2 & [= <-]). apply prints_cons. by apply IH.
Qed.

(** ** The whole function *)

(** The zero behind the text, or in the place of the character at [end_]. *)
Lemma store_terminated buf end_ t (m : ram) :
  buf <= end_ →
  <[Z.min end_ (buf + Z.of_nat (length t)) := 0]> (store buf (take (room end_ buf) t) m) =
  store buf (take (Z.to_nat (end_ - buf)) t ++ [0]) m.
Proof.
  intros Hle. rewrite store_app, length_take. cbn [store].
  replace (buf + Z.of_nat (Z.to_nat (end_ - buf) `min` length t)) with (Z.min end_ (buf + Z.of_nat (length t))) by lia.
  apply map_eq. intros b. destruct (decide (b = Z.min end_ (buf + Z.of_nat (length t)))) as [->|Hne].
  { by rewrite !lookup_insert_eq. }
  rewrite !lookup_insert_ne by done. rewrite !lookup_store, !length_take.
  unfold room. destruct (Z.leb_spec buf b); [|done]. cbn [andb].
  destruct (Z.ltb_spec b (buf + Z.of_nat (Z.to_nat (end_ + 1 - buf) `min` length t))),
    (Z.ltb_spec b (buf + Z.of_nat (Z.to_nat (end_ - buf) `min` length t))); try lia; [|done].
  rewrite !lookup_take_lt by lia. done.
Qed.

(** The run with [end_] as the last usable address. *)
Lemma wp_vsnprintf buf size end_ fmt args t m :
  end_ = (let e := u32 (buf + size - 1) in if e <? buf then 0xffffffff else e) →
  buf <= end_ → printed fmt args = Some t →
  mapped m buf (S (Z.to_nat (end_ - buf) `min` length t)) →
  wp (rt_vsnprintf buf size fmt args) m (λ r m',
    m' = store buf (take (Z.to_nat (end_ - buf)) t ++ [0]) m ∧
    ∃ k, r = s32 (Z.of_nat k) ∧ (length t <= k)%nat ∧ (buf + Z.of_nat (length t) <= end_ → k = length t)).
Proof.
  intros He Hle Ht Hm. unfold rt_vsnprintf. cbv zeta in *. rewrite <- He. wp_step.
  eapply wp_mono; [apply (prints_format _ _ _ _ _ Ht)|].
  { intros b Hb. apply Hm. unfold room in *. lia. }
  intros str m' (-> & Hge & Hex). cbv beta. wp_step.
  assert (Hw : (if str <=? end_ then wr8 str 0 else wr8 end_ 0) =
               wr8 (Z.min end_ (buf + Z.of_nat (length t))) 0).
  { destruct (Z.leb_spec str end_); f_equal; lia. }
  rewrite Hw. apply wp_wr8; [apply (mapped_store _ buf (S (Z.to_nat (end_ - buf) `min` length t))); [done|lia]|].
  wp_step. split; [by apply store_terminated|].
  exists (Z.to_nat (str - buf)). split_and!; [f_equal; lia|lia|lia].
Qed.

(** [rt_snprintf] with a positive size stores exactly the text [printed] of the format and the
    arguments, cut to [size - 1] characters, with a zero behind it, and changes no
    other byte; it returns the length of the text when that fits, and at least that length
    (as a 32-bit integer) when it does not. *)
Theorem rt_snprintf_stores buf size fmt args t m :
  0 <= buf → 0 < size <= 2 ^ 31 → buf + size <= 2 ^ 32 → mapped m buf (Z.to_nat size) →
  printed fmt args = Some t →
  wp (rt_snprintf buf size fmt args) m (λ r m',
    m' = store buf (take (Z.to_nat (size - 1)) t ++ [0]) m ∧
    (Z.of_nat (length t) < size → r = Z.of_nat (length t)) ∧
    ∃ k, r = s32 (Z.of_nat k) ∧ (length t <= k)%nat).
Proof.
  intros Hb Hs He Hm Ht. eapply wp_mono.
  { apply (wp_vsnprintf buf size (buf + size - 1) fmt args t); [|lia|done|].
    - cbv zeta. unfold wrap. rewrite Z.mod_small by lia. destruct (Z.ltb_spec (buf + size - 1) buf); [lia|done].
    - eapply mapped_le; [exact Hm|lia|lia]. }
  intros r m' (-> & k & Hk & Hge & Hex). cbv beta.
  replace (buf + size - 1 - buf) with (size - 1) by lia. split_and!; [done| |by exists k].
  intros Hf. rewrite Hk, Hex by lia. unfold swrap. rewrite Z.mod_small by lia. lia.
Qed.

(** Called with size 0, where C's [snprintf] stores nothing, [rt_snprintf] takes the rest
    of the address space for its buffer: it stores the whole text and the zero behind it. *)
Theorem rt_snprintf_size_0 buf fmt args t m :
  0 < buf → buf + Z.of_nat (length t) < 2 ^ 32 → mapped m buf (S (length t)) →
  printed fmt args = Some t →
  wp (rt_snprintf buf 0 fmt args) m (λ _ m', m' = store buf (t ++ [0]) m).
Proof.
  intros Hb He Hm Ht. eapply wp_mono.
  { apply (wp_vsnprintf buf 0 0xffffffff fmt args t); [|lia|done|].
    - cbv zeta. unfold wrap. rewrite Z.mod_small by lia. destruct (Z.ltb_spec (buf + 0 - 1) buf); [done|lia].
    - eapply mapped_le; [exact Hm|lia|lia]. }
  intros r m' (-> & _). cbv beta. by rewrite take_ge by lia.
Qed.

(** The octal conversion prints hexadecimal digits: [divide] knows the bases 10 and 16 only. *)
Lemma tmp_digits_8 fuel large num : tmp_digits fuel large num 8 = tmp_digits fuel large num 16.
Proof.
  revert num. induction fuel as [|fuel IH]; intros num; [done|]. cbn [tmp_digits].
  change (divide num 8) with (divide num 16). destruct (divide num 16) as [d n]. by rewrite IH.
Qed.

Lemma print_number_8 end_ num s precision type str :
  print_number end_ num 8 s precision type str = print_number end_ num 16 s precision type str.
Proof. unfold print_number, number_tmp. destruct (number_sign _ _). by rewrite tmp_digits_8. Qed.

Lemma print_directive_8 end_ flags width precision qualifier args str :
  print_directive end_ (mk_directive flags width precision qualifier 111) args str =
  print_directive end_ (mk_directive flags width precision qualifier 120) args str.
Proof.
  unfold print_directive. cbn [dv_conversion dv_flags dv_width dv_precision dv_qualifier].
  assert (E1 : integer_format 111 flags = Some (8, flags)) by reflexivity.
  assert (E2 : integer_format 120 flags = Some (16, flags)) by reflexivity.
  rewrite E1, E2. cbv beta iota.
  destruct (take_int args) as [[z args']|]; unfold deref, mbind, M_bind, mret, M_ret, fail.
  - rewrite print_number_8. reflexivity.
  - reflexivity.
Qed.

Lemma format_loop_8 end_ args str : format_loop 2 end_ [37; 111] args str = format_loop 2 end_ [37; 120] args str.
Proof.
  transitivity ('(str, args) ← print_directive end_ (mk_directive 0 (-1) (-1) 0 111) args str;
                format_loop 1 end_ [] args str); [reflexivity|].
  rewrite print_directive_8. reflexivity.
Qed.

(** The conversion [%o] prints its argument in hexadecimal, whatever the argument:
    [divide] has cases for 10 and 16 only. *)
Theorem octal_prints_hexadecimal buf size args :
  rt_snprintf buf size [37; 111] args = rt_snprintf buf size [37; 120] args.
Proof. unfold rt_snprintf, rt_vsnprintf. cbv zeta. cbn [length]. rewrite format_loop_8. reflexivity. Qed.

(** ** Numbers read back *)

Lemma length_numeral fuel large base n k :
  1 < base → 0 <= n < base ^ Z.of_nat (S k) → (length (numeral fuel large base n) <= S k)%nat.
Proof.
  intros Hb. revert n k. induction fuel as [|fuel IH]; intros n k Hn; cbn [numeral]; [cbn [length]; lia|].
  rewrite length_app. cbn [length]. destruct (Z.ltb_spec n base) as [|Hge]; [cbn [length]; lia|].
  rewrite Nat2Z.inj_succ, Z.pow_succ_r in Hn by lia. destruct k as [|k].
  { change (Z.of_nat 0) with 0 in Hn. rewrite Z.pow_0_r in Hn. lia. }
  enough (length (numeral fuel large base (n / base)) <= S k)%nat by lia. apply IH.
  split; [apply Z.div_pos; lia|]. apply Z.div_lt_upper_bound; lia.
Qed.

Lemma s32_small x : -2 ^ 31 <= x < 2 ^ 31 → s32 x = x.
Proof. intros H. unfold swrap. rewrite Z.mod_small by lia. lia. Qed.

Lemma isdigit_digit d : 0 <= d < 10 → isdigit (digit_char false d) = true.
Proof.
  intros H. unfold isdigit, digit_char, wrap. rewrite (proj2 (Z.ltb_lt d 10)) by lia.
  rewrite Z.mod_small by lia. apply Z.ltb_lt. lia.
Qed.

(** [skip_atoi] reads the decimal numeral of [n] as [n] and stops behind it. *)
Lemma skip_atoi_numeral fuel n i rest :
  0 <= n < 10 ^ Z.of_nat fuel → 0 <= i →
  i * 10 ^ Z.of_nat (length (numeral fuel false 10 n)) + n < 2 ^ 31 →
  skip_atoi i (numeral fuel false 10 n ++ rest) =
  skip_atoi (i * 10 ^ Z.of_nat (length (numeral fuel false 10 n)) + n) rest.
Proof.
  revert n i rest. induction fuel as [|fuel IH]; intros n i rest Hn Hi Hlt; cbn [numeral] in *.
  { change (10 ^ Z.of_nat 0) with 1 in Hn. cbn [app length]. f_equal. simpl. lia. }
  rewrite Nat2Z.inj_succ, Z.pow_succ_r in Hn by lia.
  assert (Hq : n = 10 * (n / 10) + n mod 10) by (apply Z.div_mod; lia).
  pose proof (Z.mod_pos_bound n 10 eq_refl) as Hd.
  assert (Hlast : ∀ j, 0 <= j → j * 10 + n mod 10 < 2 ^ 31 →
    skip_atoi j (digit_char false (n mod 10) :: rest) = skip_atoi (j * 10 + n mod 10) rest).
  { intros j Hj Hb. cbn [skip_atoi]. rewrite isdigit_digit by lia. f_equal.
    unfold digit_char. rewrite (proj2 (Z.ltb_lt _ 10)) by lia. rewrite s32_small; lia. }
  set (pre := if n <? 10 then [] else numeral fuel false 10 (n / 10)) in *.
  rewrite length_app in Hlt |- *. cbn [length] in Hlt |- *.
  rewrite Nat2Z.inj_add, Z.pow_add_r in Hlt |- * by lia. change (10 ^ Z.of_nat 1) with 10 in *.
  rewrite <- app_assoc. cbn [app].
  assert (Hpre : skip_atoi i (pre ++ digit_char false (n mod 10) :: rest) =
    skip_atoi (i * 10 ^ Z.of_nat (length pre) + n / 10) (digit_char false (n mod 10) :: rest)).
  { unfold pre in *. destruct (Z.ltb_spec n 10) as [Hs|Hs].
    - cbn [app length]. rewrite (Z.div_small n 10) by lia. f_equal. simpl. lia.
    - apply IH; [|done|lia]. split; [apply Z.div_pos; lia|]. apply Z.div_lt_upper_bound; lia. }
  rewrite Hpre, Hlast; [f_equal; lia| |lia].
  pose proof (Z.pow_nonneg 10 (Z.of_nat (length pre))). nia.
Qed.

Lemma printed_d n :
  -2 ^ 31 < n < 2 ^ 31 →
  printed [37; 100] [A_int n] =
  Some ((if n <? 0 then [45] else []) ++ numeral 16 false 10 (Z.abs n)).
Proof.
  intros Hn.
  transitivity (Some (number_text (integer_value 0 SIGN n) 10 (-1) (-1) SIGN ++ [])); [reflexivity|].
  rewrite app_nil_r. f_equal.
  assert (Hv : integer_value 0 SIGN n = n).
  { change (integer_value 0 SIGN n) with (s32 (u32 n)). unfold swrap, wrap.
    rewrite Zplus_mod_idemp_l, Z.mod_small by lia. lia. }
  rewrite Hv.
  assert (Hsg : number_sign n SIGN = (if n <? 0 then 45 else 0, Z.abs n)).
  { change (number_sign n SIGN) with (if n <? 0 then (45, s32 (- n)) else (0, n)).
    destruct (Z.ltb_spec n 0); f_equal; [rewrite s32_small; lia|lia]. }
  unfold number_text. rewrite Hsg. change (has SIGN LARGE) with false. change (radix 10) with 10.
  unfold wrap. rewrite (Z.mod_small (Z.abs n)) by lia.
  unfold field_text. change (has SIGN LEFT) with false. change (has SIGN ZEROPAD) with false.
  rewrite !reps_nonpos by lia. destruct (n <? 0); reflexivity.
Qed.

(** What [rt_snprintf] prints for [%d], [skip_atoi] reads back: the digits behind the sign
    are read as the absolute value and the reader stops behind them. *)
Theorem decimal_roundtrip buf n rest m :
  -2 ^ 31 < n < 2 ^ 31 → 0 <= buf → buf + 12 <= 2 ^ 32 → mapped m buf 12 → isdigit (current rest) = false →
  wp (rt_snprintf buf 12 [37; 100] [A_int n]) m (λ r m', ∃ sign digits,
    sign = (if n <? 0 then [45] else []) ∧
    bytes_at m' buf (sign ++ digits ++ [0]) ∧
    r = Z.of_nat (length (sign ++ digits)) ∧
    skip_atoi 0 (digits ++ rest) = (Z.abs n, rest)).
Proof.
  intros Hn Hb He Hm Hr. eapply wp_mono.
  { eapply (wp_vsnprintf buf 12 (buf + 11)); [|lia|by apply printed_d|].
    - cbv zeta. unfold wrap. rewrite Z.mod_small by lia. destruct (Z.ltb_spec (buf + 12 - 1) buf); lia.
    - eapply mapped_le; [exact Hm|lia|lia]. }
  intros r m' (-> & k & Hk & _ & Hex). cbv beta.
  assert (Hl : (length (numeral 16 false 10 (Z.abs n)) <= 10)%nat) by (apply length_numeral; lia).
  exists (if n <? 0 then [45] else []), (numeral 16 false 10 (Z.abs n)).
  assert (Hs : (length (if (n <? 0)%Z then [45%Z] else []) <= 1)%nat) by (destruct (n <? 0); cbn [length]; lia).
  rewrite length_app in *. split_and!; [done| | |].
  - rewrite take_ge by (rewrite length_app; lia). rewrite <- app_assoc. apply bytes_at_store.
  - rewrite Hk, Hex by lia. rewrite s32_small; lia.
  - rewrite skip_atoi_numeral; [|lia|lia|lia]. replace (0 * _ + _) with (Z.abs n) by lia.
    destruct rest as [|c rest]; [done|]. cbn [skip_atoi]. change (isdigit c = false) in Hr. by rewrite Hr.
Qed.

(** * Instances *)

(** Sixteen bytes at address 4096. *)
Definition demo_buffer : ram := store 4096 (replicate 16 170) ∅.

Lemma demo_buffer_mapped n : (n <= 16)%nat → mapped demo_buffer 4096 n.
Proof.
  intros Hn. apply (mapped_le demo_buffer 4096 16); [|lia|lia].
  apply (bytes_at_mapped _ _ (replicate 16 170)), bytes_at_store.
Qed.

(** "%s=%-4d|%+05d", cut to seven characters. *)
Definition demo_format : list Z := [37; 115; 61; 37; 45; 52; 100; 124; 37; 43; 48; 53; 100].
Definition demo_args : list arg := [A_str (Some [97; 98]); A_int 42; A_int 7].

Lemma rt_snprintf_stores_witness :
  wp (rt_snprintf 4096 8 demo_format demo_args) demo_buffer (λ r m',
    m' = store 4096 [97; 98; 61; 52; 50; 32; 32; 0] demo_buffer ∧ ∃ k, r = s32 (Z.of_nat k) ∧ (13 <= k)%nat).
Proof.
  eapply wp_mono.
  - apply (rt_snprintf_stores 4096 8 demo_format demo_args
      [97; 98; 61; 52; 50; 32; 32; 124; 43; 48; 48; 48; 55] demo_buffer);
      [lia|lia|lia|apply demo_buffer_mapped; lia|vm_compute; reflexivity].
  - intros r m' (-> & _ & Hk). split; [reflexivity|exact Hk].
Defined.

Lemma rt_snprintf_size_0_witness :
  wp (rt_snprintf 4096 0 [37; 117] [A_int 1234]) demo_buffer (λ _ m',
    m' = store 4096 [49; 50; 51; 52; 0] demo_buffer).
Proof.
  apply (rt_snprintf_size_0 4096 [37; 117] [A_int 1234] [49; 50; 51; 52] demo_buffer);
    [lia|simpl; lia|apply demo_buffer_mapped; simpl; lia|vm_compute; reflexivity].
Defined.

Lemma decimal_roundtrip_witness :
  wp (rt_snprintf 4096 12 [37; 100] [A_int (-905)]) demo_buffer (λ r m', ∃ sign digits,
    sign = [45] ∧ bytes_at m' 4096 (sign ++ digits ++ [0]) ∧ r = Z.of_nat (length (sign ++ digits)) ∧
    skip_atoi 0 (digits ++ [44; 49]) = (905, [44; 49])).
Proof.
  apply (decimal_roundtrip 4096 (-905) [44; 49] demo_buffer);
    [lia|lia|lia|apply demo_buffer_mapped; lia|vm_compute; reflexivity].
Defined.

(** A sign that does not fit is not counted for the width of its field: for "x%+05d" with room for
    one character the code returns 7, although the text has six characters. *)
Example sign_not_counted :
  length <$> printed [120; 37; 43; 48; 53; 100] [A_int 7] = Some 6%nat ∧
  rt_snprintf 4096 1 [120; 37; 43; 48; 53; 100] [A_int 7] demo_buffer = Ok (7, <[4096 := 0]> demo_buffer).
Proof. split; vm_compute; reflexivity. Qed.

(** A precision of zero does not cut a string. *)
Example zero_precision : printed [37; 46; 48; 115] [A_str (Some [97; 98])] = Some [97; 98].
Proof. vm_compute. reflexivity. Qed.
