(* ===== verification/FormatSpec.v ===== *)
(** What a format means: directives as data, how they are written, and the text that each one
    describes, without reference to the code that reads them; and that [rt_snprintf] prints
    this text. *)

From Stdlib Require Import ZArith Lia.
From stdpp Require Import numbers base gmap list.
From S2P Require Import Prelude Bytes Format.
Local Open Scope Z_scope.

(** * Formats *)

Inductive flag := Minus | Plus | Blank | Hash | Zero.
#[export] Instance flag_eq_dec : EqDecision flag.
Proof. solve_decision. Defined.

(** A width or a precision: absent, a number, or taken from the arguments. *)
Inductive measure := M_none | M_number (n : Z) | M_star.

Inductive length_mark := Q_none | Q_short | Q_long.

Inductive conversion :=
  | Decimal | Integer | Unsigned | Octal | Hex | HEX | Character | Text | Pointer | Percent
  | Unknown (c : Z).

(** [sp_precision] is [Some M_none] for a period alone. *)
Record spec := mk_spec {
  sp_flags : list flag;
  sp_width : measure;
  sp_precision : option measure;
  sp_length : length_mark;
  sp_conversion : conversion
}.

Inductive piece := Char (c : Z) | Directive (d : spec).

(** ** How they are written *)

Definition flag_char (f : flag) : Z :=
  match f with Minus => 45 | Plus => 43 | Blank => 32 | Hash => 35 | Zero => 48 end.

Definition digit_table (upper : bool) : list Z :=
  [48; 49; 50; 51; 52; 53; 54; 55; 56; 57] ++
  (if upper then [65; 66; 67; 68; 69; 70] else [97; 98; 99; 100; 101; 102]).
Definition digit (upper : bool) (d : Z) : Z := default 0 (digit_table upper !! Z.to_nat d).

(** The digits of [n] in a base, the most significant first; [fuel] digits suffice below
    [base ^ fuel] ([positional_value]). *)
Fixpoint positional (fuel : nat) (upper : bool) (base n : Z) : list Z :=
  match fuel with
  | O => []
  | S fuel => (if n <? base then [] else positional fuel upper base (n / base)) ++ [digit upper (n mod base)]
  end.

Definition show_measure (m : measure) : list Z :=
  match m with M_none => [] | M_number n => positional 16 false 10 n | M_star => [42] end.
Definition show_precision (p : option measure) : list Z :=
  match p with None => [] | Some m => 46 :: show_measure m end.
Definition show_length (q : length_mark) : list Z :=
  match q with Q_none => [] | Q_short => [104] | Q_long => [108] end.
Definition conversion_char (c : conversion) : Z :=
  match c with
  | Decimal => 100 | Integer => 105 | Unsigned => 117 | Octal => 111 | Hex => 120 | HEX => 88
  | Character => 99 | Text => 115 | Pointer => 112 | Percent => 37 | Unknown c => c
  end.

(** A directive behind its percent sign, and a format. *)
Definition show_spec (d : spec) : list Z :=
  (flag_char <$> sp_flags d) ++ show_measure (sp_width d) ++ show_precision (sp_precision d) ++
  show_length (sp_length d) ++ [conversion_char (sp_conversion d)].
Fixpoint show (ps : list piece) : list Z :=
  match ps with
  | [] => []
  | Char c :: ps => c :: show ps
  | Directive d :: ps => 37 :: show_spec d ++ show ps
  end.

(** The characters that mean something behind a percent sign. *)
Definition reserved : list Z :=
  [0; 32; 35; 37; 42; 43; 45; 46; 48; 49; 50; 51; 52; 53; 54; 55; 56; 57; 88; 99; 100; 104; 105; 108; 111; 112; 115; 117; 120].

Definition piece_ok (p : piece) : Prop :=
  match p with
  | Char c => c ≠ 37 ∧ c ≠ 0
  | Directive d =>
      (∀ n, sp_width d = M_number n → 0 < n < 2 ^ 31) ∧
      (∀ n, sp_precision d = Some (M_number n) → 0 <= n < 2 ^ 31) ∧
      (∀ c, sp_conversion d = Unknown c → 0 < c < 256 ∧ c ∉ reserved)
  end.

(** ** What they mean *)

Definition measured (m : measure) (args : list arg) : option (option Z * list arg) :=
  match m, args with
  | M_none, _ => Some (None, args)
  | M_number n, _ => Some (Some n, args)
  | M_star, A_int z :: args => if bool_decide (-2 ^ 31 < z < 2 ^ 31) then Some (Some z, args) else None
  | M_star, _ => None
  end.

(** A precision that is negative or only a period is 0. *)
Definition precise (p : option measure) (args : list arg) : option (option Z * list arg) :=
  match p with
  | None => Some (None, args)
  | Some m => '(n, args) ← measured m args; Some (Some (Z.max 0 (default 0 n)), args)
  end.

(** An integer argument at the width of its length mark. *)
Definition as_signed (q : length_mark) (z : Z) : Z := match q with Q_short => s16 z | _ => s32 z end.
Definition as_unsigned (q : length_mark) (z : Z) : Z := match q with Q_short => u16 z | _ => u32 z end.

(** The sign of [v]: always for negative numbers, for others if a flag asks for it. *)
Definition sign_of (flags : list flag) (v : Z) : list Z :=
  if v <? 0 then [45]
  else if bool_decide (Plus ∈ flags) then [43]
  else if bool_decide (Blank ∈ flags) then [32] else [].

(** Digits with zeros in front up to the precision, in their field. *)
Definition number (width : Z) (left zeros : bool) (precision : option Z) (sign digits : list Z) : list Z :=
  field_text width left zeros sign (reps (default 0 precision - Z.of_nat (length digits)) 48 ++ digits).

(** A string, cut to a precision that is not 0; "(NULL)" for a null pointer. *)
Definition cut_text (precision : option Z) (s : option (list Z)) : list Z :=
  let s := default [40; 78; 85; 76; 76; 41] s in
  match precision with Some p => if 0 <? p then take (Z.to_nat p) s else s | None => s end.

(** The text of one directive and the arguments that it leaves.  A negative width means its
    absolute value, to the left.  Octal numbers are printed in hexadecimal: [divide] has no
    base 8. *)
Definition meaning (d : spec) (args : list arg) : option (list Z * list arg) :=
  '(w, args) ← measured (sp_width d) args;
  '(p, args) ← precise (sp_precision d) args;
  let width := Z.abs (default 0 w) in
  let left := bool_decide (Minus ∈ sp_flags d) || (default 0 w <? 0) in
  let zeros := bool_decide (Zero ∈ sp_flags d) in
  let int (f : Z → list Z) := match args with A_int z :: args => Some (f z, args) | _ => None end in
  let natural upper base :=
    int (λ z, number width left zeros p [] (positional 16 upper base (as_unsigned (sp_length d) z))) in
  match sp_conversion d with
  | Decimal | Integer => int (λ z,
      let v := as_signed (sp_length d) z in
      number width left zeros p (sign_of (sp_flags d) v) (positional 16 false 10 (Z.abs v)))
  | Unsigned => natural false 10
  | Octal | Hex => natural false 16
  | HEX => natural true 16
  | Character => int (λ z, field_text width left false [] [z mod 256])
  | Text =>
      match args with
      | A_str s :: args => Some (field_text width left false [] (cut_text p s), args)
      | _ => None
      end
  | Pointer =>
      match args with
      | A_ptr a :: args =>
          let digits := positional 16 false 16 (u32 a) in
          Some (if w then number width left zeros p [] digits else number 8 left true p [] digits, args)
      | _ => None
      end
  | Percent => Some ([37], args)
  | Unknown c => Some ([37; c], args)
  end.

Fixpoint text (ps : list piece) (args : list arg) : option (list Z) :=
  match ps with
  | [] => Some []
  | Char c :: ps => t ← text ps args; Some (c :: t)
  | Directive d :: ps => '(t, args) ← meaning d args; t' ← text ps args; Some (t ++ t')
  end.

(** * Numerals *)

(** Reading digits back gives the number. *)
Definition digit_value (c : Z) : Z := if c <? 58 then c - 48 else if c <? 71 then c - 55 else c - 87.

Lemma digit_char_digit upper d : 0 <= d < 16 → digit_char upper d = digit upper d.
Proof.
  intros Hd. assert (d ∈ seqZ 0 16) as H by (apply elem_of_seqZ; lia). revert H. clear Hd. revert d.
  apply Forall_forall. destruct upper; vm_compute; repeat constructor.
Qed.

Lemma digit_value_digit upper d : 0 <= d < 16 → digit_value (digit upper d) = d.
Proof.
  intros Hd. assert (d ∈ seqZ 0 16) as H by (apply elem_of_seqZ; lia). revert H. clear Hd. revert d.
  apply Forall_forall. destruct upper; vm_compute; repeat constructor.
Qed.

Lemma positional_value fuel upper base n :
  2 <= base <= 16 → 0 <= n < base ^ Z.of_nat fuel →
  foldl (λ v c, v * base + digit_value c) 0 (positional fuel upper base n) = n.
Proof.
  intros Hb. revert n. induction fuel as [|fuel IH]; intros n Hn; [simpl in *; lia|].
  cbn [positional]. rewrite foldl_app. simpl. pose proof (Z.mod_pos_bound n base ltac:(lia)).
  rewrite digit_value_digit by lia. rewrite Nat2Z.inj_succ, Z.pow_succ_r in Hn by lia.
  destruct (Z.ltb_spec n base) as [Hs|Hs]; simpl.
  - rewrite Z.mod_small by lia. lia.
  - rewrite IH; [pose proof (Z.div_mod n base); lia|].
    split; [apply Z.div_pos; lia|apply Z.div_lt_upper_bound; lia].
Qed.

Lemma numeral_positional fuel upper base n :
  2 <= base <= 16 → numeral fuel upper base n = positional fuel upper base n.
Proof.
  intros Hb. revert n. induction fuel as [|fuel IH]; intros n; [done|]. cbn [numeral positional].
  rewrite digit_char_digit by (pose proof (Z.mod_pos_bound n base ltac:(lia)); lia). by rewrite IH.
Qed.

(** * Reading a directive *)

Definition flag_bit (f : flag) : Z :=
  match f with Minus => LEFT | Plus => PLUS | Blank => SPACE | Hash => SPECIAL | Zero => ZEROPAD end.

Lemma has_lor_l a b g : has (Z.lor a b) g = has a g || has b g.
Proof.
  unfold has. rewrite (Z.land_comm _ g), Z.land_lor_distr_r, <- !(Z.land_comm g).
  destruct (Z.eqb_spec (Z.land g a) 0) as [->|Ha], (Z.eqb_spec (Z.land g b) 0) as [->|Hb]; simpl; try done;
    apply negb_true_iff, Z.eqb_neq; rewrite Z.lor_eq_0_iff; tauto.
Qed.

Definition starts_flag (r : list Z) : Prop := current r ∈ flag_char <$> [Minus; Plus; Blank; Hash; Zero].

Lemma fmt_flags_show b fs r :
  ¬ starts_flag r →
  ∃ b', fmt_flags b ((flag_char <$> fs) ++ r) = (b', r) ∧
        ∀ g, has b' g = has b g || existsb (λ f, has (flag_bit f) g) fs.
Proof.
  intros Hr. revert b. induction fs as [|f fs IH]; intros b.
  - exists b. split; [|intros g; by rewrite orb_false_r].
    destruct r as [|c r]; [done|]. unfold starts_flag, current in Hr. simpl in Hr.
    rewrite !not_elem_of_cons in Hr. destruct Hr as (H1 & H2 & H3 & H4 & H5 & _). simpl.
    by rewrite !(proj2 (Z.eqb_neq _ _)) by done.
  - destruct (IH (Z.lor b (flag_bit f))) as (b' & Hb & Hg). exists b'. split.
    + rewrite <- Hb. by destruct f.
    + intros g. rewrite Hg, has_lor_l. cbn [existsb]. by rewrite orb_assoc.
Qed.

(** The bits behind the flags are the flags. *)
Lemma flags_has fs f : existsb (λ f', has (flag_bit f') (flag_bit f)) fs = bool_decide (f ∈ fs).
Proof.
  induction fs as [|f' fs IH]; [by destruct f|]. cbn [existsb]. rewrite IH.
  rewrite (bool_decide_ext (f ∈ f' :: fs) (f = f' ∨ f ∈ fs)) by apply elem_of_cons.
  rewrite bool_decide_or. f_equal. by destruct f, f'.
Qed.

Lemma flags_lack fs g : g = SIGN ∨ g = LARGE → existsb (λ f, has (flag_bit f) g) fs = false.
Proof. intros [-> | ->]; induction fs as [|f fs IH]; [done| |done|]; cbn [existsb]; rewrite IH; by destruct f. Qed.

(** ** Numbers in formats *)

Lemma positional_head fuel n :
  0 < n < 10 ^ Z.of_nat fuel → ∃ d l, 1 <= d < 10 ∧ positional fuel false 10 n = digit false d :: l.
Proof.
  revert n. induction fuel as [|fuel IH]; intros n Hn; [simpl in Hn; lia|].
  rewrite Nat2Z.inj_succ, Z.pow_succ_r in Hn by lia. cbn [positional].
  destruct (Z.ltb_spec n 10).
  - exists n, []. split; [lia|]. by rewrite Z.mod_small by lia.
  - destruct (IH (n / 10)) as (d & l & Hd & ->); [|by exists d, (l ++ [digit false (n mod 10)])].
    split; [apply Z.div_str_pos; lia|apply Z.div_lt_upper_bound; lia].
Qed.

Lemma digit_decimal d : 0 <= d < 10 → digit false d = 48 + d.
Proof. intros Hd. rewrite <- digit_char_digit by lia. unfold digit_char. by rewrite (proj2 (Z.ltb_lt d 10)) by lia. Qed.

Lemma skip_atoi_show n r :
  0 <= n < 2 ^ 31 → isdigit (current r) = false → skip_atoi 0 (positional 16 false 10 n ++ r) = (n, r).
Proof.
  intros Hn Hr. rewrite <- numeral_positional by lia. rewrite skip_atoi_numeral by lia.
  replace (0 * _ + n) with n by lia. destruct r as [|c r]; [done|]. cbn [skip_atoi].
  change (isdigit c = false) in Hr. by rewrite Hr.
Qed.

Lemma isdigit_positional n r : 0 <= n < 2 ^ 31 → isdigit (current (positional 16 false 10 n ++ r)) = true.
Proof.
  intros Hn. destruct (decide (n = 0)) as [->|]; [done|].
  destruct (positional_head 16 n) as (d & l & Hd & ->); [simpl; lia|].
  change (isdigit (digit false d) = true). rewrite <- digit_char_digit by lia. apply isdigit_digit. lia.
Qed.

Definition measure_ok (m : measure) : Prop := ∀ n, m = M_number n → 0 <= n < 2 ^ 31.

(** What cannot follow a number. *)
Definition ends_measure (r : list Z) : Prop := isdigit (current r) = false ∧ current r ≠ 42.

Lemma fmt_width_show b m r args n args' :
  measure_ok m → ends_measure r → measured m args = Some (n, args') →
  fmt_width b (show_measure m ++ r) args =
    Some (default (-1) (Z.abs <$> n), if default 0 n <? 0 then Z.lor b LEFT else b, r, args').
Proof.
  intros Hm [Hd Hs] Hn. unfold fmt_width. destruct m as [|k|]; cbn [show_measure].
  - injection Hn as <- <-. cbn [app]. rewrite Hd, (proj2 (Z.eqb_neq _ _) Hs). done.
  - injection Hn as <- <-. specialize (Hm k eq_refl).
    rewrite isdigit_positional, skip_atoi_show by done. simpl.
    destruct (Z.ltb_spec k 0); [lia|]. by rewrite Z.abs_eq by lia.
  - destruct args as [|[z| |] args]; try done. cbn [measured] in Hn. case_bool_decide as Hz; [|done].
    injection Hn as <- <-. simpl. destruct (Z.ltb_spec z 0).
    + rewrite s32_small by lia. by rewrite Z.abs_neq by lia.
    + by rewrite Z.abs_eq by lia.
Qed.

Lemma fmt_precision_show p r args n args' :
  (∀ m, p = Some m → measure_ok m) → ends_measure r → current r ≠ 46 → precise p args = Some (n, args') →
  fmt_precision (show_precision p ++ r) args = Some (default (-1) n, r, args').
Proof.
  intros Hm [Hd Hs] Hp Hn. unfold fmt_precision. destruct p as [m|]; cbn [show_precision].
  2: { injection Hn as <- <-. cbn [app]. by rewrite (proj2 (Z.eqb_neq _ _) Hp). }
  specialize (Hm m eq_refl). cbn [precise] in Hn. apply bind_Some in Hn as ([k args1] & Hk & [= <- <-]).
  change (current ((46 :: show_measure m) ++ r) =? 46) with true. cbv iota.
  change (tail ((46 :: show_measure m) ++ r)) with (show_measure m ++ r).
  destruct m as [|z|]; cbn [show_measure].
  - injection Hk as <- <-. cbn [app]. rewrite Hd, (proj2 (Z.eqb_neq _ _) Hs). done.
  - injection Hk as <- <-. specialize (Hm z eq_refl).
    rewrite isdigit_positional, skip_atoi_show by done. simpl.
    destruct (Z.ltb_spec z 0); [lia|]. by rewrite Z.max_r by lia.
  - destruct args as [|[z| |] args]; try done. cbn [measured] in Hk. case_bool_decide as Hz; [|done].
    injection Hk as <- <-. simpl. destruct (Z.ltb_spec z 0); [by rewrite Z.max_l by lia|by rewrite Z.max_r by lia].
Qed.

(** ** The whole directive *)

Lemma isdigit_false c : 0 <= c < 256 → ¬ (48 <= c < 58) → isdigit c = false.
Proof.
  intros Hc Hn. unfold isdigit, wrap. apply Z.ltb_ge. destruct (Z.le_gt_cases 48 c).
  - rewrite Z.mod_small; lia.
  - rewrite <- (Z.mod_add _ 1) by lia. rewrite Z.mod_small; lia.
Qed.

(** The characters that end a directive. *)
Definition ends_directive (c : Z) : Prop :=
  0 <= c < 256 ∧ c ∉ [32; 35; 42; 43; 45; 46; 48; 49; 50; 51; 52; 53; 54; 55; 56; 57; 104; 108].

Lemma conversion_ends cv : (∀ c, cv = Unknown c → 0 < c < 256 ∧ c ∉ reserved) → ends_directive (conversion_char cv).
Proof.
  intros Hc. destruct cv as [| | | | | | | | | |c]; try (split; [simpl; lia|by apply (bool_decide_unpack _)]).
  destruct (Hc c eq_refl) as [Hr Hn]. split; [simpl; lia|]. cbn [conversion_char].
  intros Hin. apply Hn. revert Hin. unfold reserved. set_solver.
Qed.

Lemma ends_directive_inv c r :
  ends_directive c → ends_measure (c :: r) ∧ c ≠ 46 ∧ c ≠ 104 ∧ c ≠ 108 ∧ ¬ starts_flag (c :: r).
Proof.
  intros [Hb Hc]. rewrite !not_elem_of_cons in Hc. destruct_and!. unfold ends_measure, starts_flag, current. simpl.
  rewrite !not_elem_of_cons. split_and!; try done. apply isdigit_false; lia.
Qed.

Definition qualifier_char (q : length_mark) : Z := match q with Q_none => 0 | Q_short => 104 | Q_long => 108 end.

Lemma fmt_qualifier_show q c r :
  ends_directive c → fmt_qualifier (show_length q ++ c :: r) = (qualifier_char q, c :: r).
Proof.
  intros (_ & _ & H1 & H2 & _)%(ends_directive_inv _ r). destruct q; try done.
  unfold fmt_qualifier. cbn [show_length app current head default]. unfold current. simpl.
  by rewrite !(proj2 (Z.eqb_neq _ _)) by done.
Qed.

Lemma behind_precision q c r :
  ends_directive c →
  ends_measure (show_length q ++ c :: r) ∧ current (show_length q ++ c :: r) ≠ 46 ∧ ¬ starts_flag (show_length q ++ c :: r).
Proof.
  intros Hc.
  destruct q; [|split_and!; [by split|done|by apply (bool_decide_unpack _)]..].
  destruct (ends_directive_inv c r Hc) as (? & ? & _ & _ & ?). done.
Qed.

(** The bits of the flags, [left] included for a negative width. *)
Definition flags_read (b : Z) (fs : list flag) (left : bool) : Prop :=
  (∀ f, has b (flag_bit f) = match f with Minus => left | _ => bool_decide (f ∈ fs) end) ∧
  has b SIGN = false ∧ has b LARGE = false.

Lemma fmt_flags_read fs r :
  ¬ starts_flag r →
  ∃ b, fmt_flags 0 ((flag_char <$> fs) ++ r) = (b, r) ∧
       ∀ neg : bool, flags_read (if neg then Z.lor b LEFT else b) fs (bool_decide (Minus ∈ fs) || neg).
Proof.
  intros Hr. destruct (fmt_flags_show 0 fs r Hr) as (b & Hb & Hg). exists b. split; [done|]. intros neg.
  split_and!; [intros f|..]; destruct neg; rewrite ?has_lor_l, Hg, ?flags_has, ?flags_lack by auto; simpl;
    rewrite ?orb_true_r, ?orb_false_r; try done; by destruct f; rewrite ?orb_true_r, ?orb_false_r.
Qed.

Lemma behind_flags m p r :
  (∀ n, m = M_number n → 0 < n < 2 ^ 31) → ¬ starts_flag r →
  ¬ starts_flag (show_measure m ++ show_precision p ++ r).
Proof.
  intros Hm Hr. destruct m as [|n|]; cbn [show_measure].
  - destruct p; [by apply (bool_decide_unpack _)|done].
  - specialize (Hm n eq_refl). destruct (positional_head 16 n) as (d & l & Hd & ->); [simpl; lia|].
    rewrite digit_decimal by lia. unfold starts_flag, current. simpl. rewrite !elem_of_cons, elem_of_nil. lia.
  - by apply (bool_decide_unpack _).
Qed.

Lemma behind_width p r : ends_measure r → ends_measure (show_precision p ++ r).
Proof. intros Hr. by destruct p. Qed.

Lemma fmt_directive_show d rest args w p args1 args2 :
  piece_ok (Directive d) → measured (sp_width d) args = Some (w, args1) →
  precise (sp_precision d) args1 = Some (p, args2) →
  ∃ b, flags_read b (sp_flags d) (bool_decide (Minus ∈ sp_flags d) || (default 0 w <? 0)) ∧
       fmt_directive (show_spec d ++ rest) args =
         Some (mk_directive b (default (-1) (Z.abs <$> w)) (default (-1) p)
                 (qualifier_char (sp_length d)) (conversion_char (sp_conversion d)), rest, args2).
Proof.
  intros (Hwd & Hpr & Hcv) Hw Hp. pose proof (conversion_ends _ Hcv) as Hend.
  destruct (behind_precision (sp_length d) _ rest Hend) as (Hm & H46 & Hfl).
  destruct (fmt_flags_read (sp_flags d) _ (behind_flags (sp_width d) (sp_precision d) _ Hwd Hfl)) as (b & Hb & Hbits).
  exists (if default 0 w <? 0 then Z.lor b LEFT else b). split; [by apply Hbits|].
  unfold fmt_directive, show_spec. rewrite <- !app_assoc. cbn [app]. rewrite Hb.
  rewrite (fmt_width_show _ _ _ _ w args1) by (done || by apply behind_width || (intros n Hn; specialize (Hwd n Hn); lia)).
  cbn [mbind option_bind].
  rewrite (fmt_precision_show _ _ _ p args2); [| |done|done|done].
  2: { intros m Hpm n ->. by apply Hpr. }
  cbn [mbind option_bind]. by rewrite fmt_qualifier_show.
Qed.

(** * The text of a directive *)

(** ** Values *)

Lemma s32_u32 x : s32 (u32 x) = s32 x.
Proof. unfold swrap, wrap. by rewrite Zplus_mod_idemp_l. Qed.

Lemma s16_u16 x : s16 (u16 x) = s16 x.
Proof. unfold swrap, wrap. by rewrite Zplus_mod_idemp_l. Qed.

Lemma s16_range x : -2 ^ 15 <= s16 x < 2 ^ 15.
Proof. unfold swrap. pose proof (Z.mod_pos_bound (x + 2 ^ (16 - 1)) (2 ^ 16) eq_refl). lia. Qed.

Lemma wrap_range w x : 0 <= w → 0 <= wrap w x < 2 ^ w.
Proof. intros Hw. apply Z.mod_pos_bound. lia. Qed.

Lemma integer_signed q b z : has b SIGN = true → integer_value (qualifier_char q) b z = as_signed q z.
Proof.
  intros Hb. destruct q; unfold integer_value; cbn [qualifier_char as_signed]; simpl; rewrite ?Hb, s32_u32; try done.
  rewrite s16_u16. apply s32_small. pose proof (s16_range z). lia.
Qed.

Lemma integer_unsigned q b z : has b SIGN = false → u32 (integer_value (qualifier_char q) b z) = as_unsigned q z.
Proof.
  intros Hb. destruct q; unfold integer_value; cbn [qualifier_char as_unsigned]; simpl; rewrite ?Hb, ?s32_u32, u32_s32; try done.
  pose proof (wrap_range 16 z ltac:(lia)). unfold wrap at 1. apply Z.mod_small. lia.
Qed.

Lemma as_signed_range q z : -2 ^ 31 <= as_signed q z < 2 ^ 31.
Proof. destruct q; cbn [as_signed]; [apply s32_range|pose proof (s16_range z); lia|apply s32_range]. Qed.

(** ** Fields *)

Lemma field_text_width w left zeros sign body :
  field_text (default (-1) (Z.abs <$> w)) left zeros sign body = field_text (Z.abs (default 0 w)) left zeros sign body.
Proof. destruct w; [done|]. unfold field_text. simpl. by rewrite !reps_nonpos by lia. Qed.

Lemma reps_precision p n : 0 <= n → reps (default (-1) p - n) 48 = reps (default 0 p - n) 48.
Proof. intros Hn. destruct p; [done|]. simpl. by rewrite !reps_nonpos by lia. Qed.

Lemma number_width w left zeros p sign digits :
  number (default (-1) (Z.abs <$> w)) left zeros p sign digits = number (Z.abs (default 0 w)) left zeros p sign digits.
Proof. apply field_text_width. Qed.

Lemma string_text_cut p s : string_text (default (-1) p) s = cut_text p s.
Proof. by destruct p. Qed.

Lemma number_text_unsigned v base w p flags :
  has flags SIGN = false →
  number_text v base w (default (-1) p) flags =
  number w (has flags LEFT) (has flags ZEROPAD) p []
    (positional 16 (has flags LARGE) (radix base) (u32 v)).
Proof.
  intros Hs. unfold number_text, number_sign. rewrite Hs. cbn [sign_text].
  rewrite numeral_positional by (unfold radix; destruct (_ =? _); lia).
  by rewrite reps_precision by lia.
Qed.

Lemma number_text_signed v w p flags fs left :
  flags_read flags fs left → -2 ^ 31 <= v < 2 ^ 31 →
  number_text v 10 w (default (-1) p) (Z.lor flags SIGN) =
  number w left (bool_decide (Zero ∈ fs)) p (sign_of fs v) (positional 16 false 10 (Z.abs v)).
Proof.
  intros (Hf & _ & HL) Hv. unfold number_text.
  pose proof (Hf Minus) as Hm. pose proof (Hf Plus) as Hp. pose proof (Hf Blank) as Hb. pose proof (Hf Zero) as Hz.
  cbn [flag_bit] in Hm, Hp, Hb, Hz.
  assert (Hbit : ∀ g, has SIGN g = false → has (Z.lor flags SIGN) g = has flags g).
  { intros g Hg. by rewrite has_lor_l, Hg, orb_false_r. }
  assert (number_sign v (Z.lor flags SIGN) =
    (if v <? 0 then 45 else if bool_decide (Plus ∈ fs) then 43 else if bool_decide (Blank ∈ fs) then 32 else 0,
     if v <? 0 then s32 (- v) else v)) as ->.
  { unfold number_sign. rewrite has_lor_l, orb_true_r, !Hbit, Hp, Hb by done.
    destruct (v <? 0), (bool_decide (Plus ∈ fs)), (bool_decide (Blank ∈ fs)); done. }
  rewrite !Hbit, HL, Hm, Hz by done.
  assert (u32 (if v <? 0 then s32 (- v) else v) = Z.abs v) as ->.
  { destruct (Z.ltb_spec v 0); rewrite ?u32_s32; unfold wrap; rewrite Z.mod_small by lia; lia. }
  change (radix 10) with 10. rewrite numeral_positional, reps_precision by lia. unfold number. f_equal.
  unfold sign_of. destruct (v <? 0), (bool_decide (Plus ∈ fs)), (bool_decide (Blank ∈ fs)); done.
Qed.

(** ** Directives *)

#[local] Arguments positional : simpl never.
#[local] Arguments has : simpl never.
#[local] Arguments number : simpl never.
#[local] Arguments number_text : simpl never.
#[local] Arguments field_text : simpl never.
#[local] Arguments integer_value : simpl never.
(** A conversion character without a meaning. *)
Lemma unknown_text d args c :
  dv_conversion d = c → 0 < c → c ∉ reserved → directive_text d args = Some ([37; c], args).
Proof.
  intros <- H0 Hc. unfold reserved in Hc. rewrite !not_elem_of_cons in Hc. destruct_and!.
  unfold directive_text, integer_format. by rewrite !(proj2 (Z.eqb_neq (dv_conversion d) _)) by done.
Qed.

Lemma meaning_text d args t rest args' :
  piece_ok (Directive d) → meaning d args = Some (t, args') →
  ∃ dv args2, fmt_directive (show_spec d ++ rest) args = Some (dv, rest, args2) ∧
              directive_text dv args2 = Some (t, args').
Proof.
  intros Hok Hm. unfold meaning in Hm.
  apply bind_Some in Hm as ([w args1] & Hw & Hm). apply bind_Some in Hm as ([p args2] & Hp & Hm).
  destruct (fmt_directive_show d rest args w p args1 args2 Hok Hw Hp) as (b & Hb & Hd).
  eexists _, args2. split; [exact Hd|]. clear Hd Hw Hp.
  cbv zeta in Hm. set (left := bool_decide _ || _) in *. destruct Hb as (Hf & HS & HL) eqn:Eb. clear Eb.
  pose proof (Hf Minus) as Hl. pose proof (Hf Zero) as Hz. cbn [flag_bit] in Hl, Hz.
  destruct (sp_conversion d) as [| | | | | | | | | |c] eqn:Ec; cbn [conversion_char].
  11: { injection Hm as <- <-. destruct Hok as (_ & _ & Hc). destruct (Hc c Ec). by apply unknown_text; [|lia|]. }
  10: { by injection Hm as <- <-. }
  all: unfold directive_text; cbn [dv_conversion dv_flags dv_width dv_precision dv_qualifier].
  all: destruct args2 as [|[z|a|s] args2]; try done; injection Hm as <- <-; simpl; f_equal; f_equal.
  1-2: rewrite integer_signed by (by rewrite has_lor_l, orb_true_r);
    rewrite (number_text_signed _ _ _ _ (sp_flags d) left) by (done || apply as_signed_range); apply number_width.
  5: by rewrite field_text_width, Hl.
  5: by rewrite field_text_width, Hl, string_text_cut.
  5: { destruct w as [w|].
       - rewrite (proj2 (Z.eqb_neq _ _)) by (simpl; lia). rewrite number_text_unsigned, HL, Hl, Hz, u32_s32 by done. done.
       - simpl. rewrite number_text_unsigned; rewrite !has_lor_l, ?HS, ?HL, ?Hl, ?u32_s32; [|done].
         by rewrite !orb_false_r, orb_true_r. }
  4: assert (Hbit : ∀ g, has LARGE g = false → has (Z.lor b LARGE) g = has b g)
       by (intros g Hg; by rewrite has_lor_l, Hg, orb_false_r).
  all: rewrite number_text_unsigned, integer_unsigned, ?Hbit, ?HS, ?HL, ?Hl, ?Hz, ?number_width by (rewrite ?Hbit; done);
    rewrite ?has_lor_l, ?HL; done.
Qed.

(** ** Formats *)

Lemma show_text ps args t fuel :
  Forall piece_ok ps → text ps args = Some t → (length (show ps) <= fuel)%nat →
  format_text fuel (show ps) args = Some t.
Proof.
  intros Hps. revert args t fuel. induction Hps as [|[c|d] ps Hp Hps IH]; intros args t fuel Ht Hf; cbn [text show] in *.
  - by destruct fuel.
  - apply bind_Some in Ht as (t' & Ht' & [= <-]). destruct fuel as [|fuel]; [simpl in Hf; lia|].
    destruct Hp as [Hc _]. cbn [format_text]. rewrite (proj2 (Z.eqb_neq _ _) Hc), (IH args t') by (done || simpl in Hf; lia). done.
  - apply bind_Some in Ht as ([t1 args'] & Hd & Ht). apply bind_Some in Ht as (t2 & Ht2 & [= <-]).
    destruct fuel as [|fuel]; [simpl in Hf; lia|]. cbn [format_text]. simpl in Hf. rewrite length_app in Hf.
    destruct (meaning_text d args t1 (show ps) args' Hp Hd) as (dv & args2 & Hdir & Htext).
    change (37 =? 37) with true. cbv iota. rewrite Hdir. cbn [mbind option_bind]. rewrite Htext. cbn [mbind option_bind].
    by rewrite (IH args' t2) by (done || lia).
Qed.

(** C38: for a format [ps] of characters and directives, with any flags, widths, precisions and
    length marks, [rt_snprintf] with a positive size stores exactly the text that the format
    and the arguments mean, cut to [size - 1] characters, with a zero behind it, and changes
    no other byte; it returns the length of the text when that fits, and at least that length
    (as a 32-bit integer) when it does not.  The meaning of a directive ([meaning]) does
    not mention the code that reads or prints it. *)
Theorem rt_snprintf_spec buf size ps args t m :
  0 <= buf → 0 < size <= 2 ^ 31 → buf + size <= 2 ^ 32 → mapped m buf (Z.to_nat size) →
  Forall piece_ok ps → text ps args = Some t →
  wp (rt_snprintf buf size (show ps) args) m (λ r m',
    m' = store buf (take (Z.to_nat (size - 1)) t ++ [0]) m ∧
    (Z.of_nat (length t) < size → r = Z.of_nat (length t)) ∧
    ∃ k, r = s32 (Z.of_nat k) ∧ (length t <= k)%nat).
Proof. intros. apply rt_snprintf_stores; try done. by apply show_text. Qed.

(** * Instances *)

(** "%s=%-4hd|%+05i,%.3x %*u" *)
Definition demo_pieces : list piece :=
  [Directive (mk_spec [] M_none None Q_none Text); Char 61;
   Directive (mk_spec [Minus] (M_number 4) None Q_short Decimal); Char 124;
   Directive (mk_spec [Plus; Zero] (M_number 5) None Q_none Integer); Char 44;
   Directive (mk_spec [] M_none (Some (M_number 3)) Q_long Hex); Char 32;
   Directive (mk_spec [] M_star None Q_none Unsigned)].
Definition demo_values : list arg :=
  [A_str (Some [97; 98]); A_int 65578; A_int 7; A_int 10; A_int (-3); A_int 9].

Example demo_shown :
  show demo_pieces =
  [37; 115; 61; 37; 45; 52; 104; 100; 124; 37; 43; 48; 53; 105; 44; 37; 46; 51; 108; 120; 32; 37; 42; 117].
Proof. reflexivity. Qed.

(** "ab=42  |+0007,00a 9  ", cut to fifteen characters. *)
Lemma rt_snprintf_witness :
  wp (rt_snprintf 4096 16 (show demo_pieces) demo_values) demo_buffer (λ r m',
    m' = store 4096 [97; 98; 61; 52; 50; 32; 32; 124; 43; 48; 48; 48; 55; 44; 48; 0] demo_buffer ∧
    ∃ k, r = s32 (Z.of_nat k) ∧ (21 <= k)%nat).
Proof.
  eapply wp_mono.
  - apply (rt_snprintf_spec 4096 16 demo_pieces demo_values
      [97; 98; 61; 52; 50; 32; 32; 124; 43; 48; 48; 48; 55; 44; 48; 48; 97; 32; 57; 32; 32] demo_buffer);
      [lia|lia|lia|apply demo_buffer_mapped; lia| |vm_compute; reflexivity].
    unfold demo_pieces. repeat apply Forall_cons_2; try apply Forall_nil_2; try done.
    all: split_and!; intros ? [=]; subst; lia.
  - intros r m' (-> & _ & Hk). split; [reflexivity|exact Hk].
Defined.
