(* ===== verification/RtList.v ===== *)
(** The intrusive circular doubly linked list of [include/rtservice.h].

    A heap maps the address of each [struct rt_list_node] to its [next] and
    [prev] pointers; the operations perform the same reads and writes, in the
    same order, as the C inline functions.  [rep h L] says that the heap [h]
    holds the family of rings [L]: for every head the sequence of the nodes
    linked behind it.  A node that is on no list is a head with an empty
    sequence, which is what [rt_list_init] and [rt_list_remove] leave.  The
    section [refinement] proves that each operation on pointers implements the
    operation on sequences. *)

From stdpp Require Import base gmap list.
From S2P Require Import Prelude.

Record rt_list_node (N : Type) := mk_node { next : N; prev : N }.
Arguments mk_node {N} next prev.
Arguments next {N} r.
Arguments prev {N} r.

Notation lheap N := (gmap N (rt_list_node N)).

Section ops.
Context {N : Type} `{Countable N}.

Definition rd_next (n : N) : M (lheap N) N :=
  h ← get; c ← deref (h !! n); mret (next c).
Definition rd_prev (n : N) : M (lheap N) N :=
  h ← get; c ← deref (h !! n); mret (prev c).
Definition wr_next (n v : N) : M (lheap N) unit :=
  h ← get; c ← deref (h !! n); modify (<[n := mk_node v (prev c)]>).
Definition wr_prev (n v : N) : M (lheap N) unit :=
  h ← get; c ← deref (h !! n); modify (<[n := mk_node (next c) v]>).

(** [l->next = l->prev = l]; the node's memory is the caller's, so it exists
    from then on. *)
Definition rt_list_init (l : N) : M (lheap N) unit := modify (<[l := mk_node l l]>).

Definition rt_list_insert_after (l n : N) : M (lheap N) unit :=
  a ← rd_next l; wr_prev a n;;
  b ← rd_next l; wr_next n b;;
  wr_next l n;;
  wr_prev n l.

Definition rt_list_insert_before (l n : N) : M (lheap N) unit :=
  a ← rd_prev l; wr_next a n;;
  b ← rd_prev l; wr_prev n b;;
  wr_prev l n;;
  wr_next n l.

Definition rt_list_remove (n : N) : M (lheap N) unit :=
  a ← rd_next n; b ← rd_prev n; wr_prev a b;;
  c ← rd_prev n; d ← rd_next n; wr_next c d;;
  wr_prev n n;;
  wr_next n n.

Definition rt_list_isempty (l : N) : M (lheap N) bool :=
  n ← rd_next l; mret (bool_decide (n = l)).
End ops.


Lemma elem_of_removelast {A} (l : list A) x : x ∈ removelast l → x ∈ l.
Proof.
  destruct l as [|y l _] using rev_ind; [done|]. rewrite removelast_last. set_solver.
Qed.

Section refinement.
Context {N : Type} `{Countable N}.
Implicit Types (h : lheap N) (n x y hd : N) (l ns ms : list N).

(** ** Linked sequences of nodes *)

Definition lnk h x y : Prop :=
  next <$> h !! x = Some y ∧ prev <$> h !! y = Some x.

Fixpoint linked h ns : Prop :=
  match ns with
  | x :: ((y :: _) as r) => lnk h x y ∧ linked h r
  | _ => True
  end.

(** The ring of head [hd] and elements [l]. *)
Definition dlist h hd l : Prop := NoDup (hd :: l) ∧ linked h (hd :: l ++ [hd]).

(** The heap holds the rings of [L], which share no node. *)
Definition rep h (L : gmap N (list N)) : Prop :=
  (∀ hd l, L !! hd = Some l → dlist h hd l) ∧
  (∀ hd1 hd2 l1 l2 n, L !! hd1 = Some l1 → L !! hd2 = Some l2 →
     n ∈ hd1 :: l1 → n ∈ hd2 :: l2 → hd1 = hd2).

Lemma linked_app h ns x ms :
  linked h (ns ++ x :: ms) ↔ linked h (ns ++ [x]) ∧ linked h (x :: ms).
Proof.
  induction ns as [|y ns IH]; [simpl; tauto|].
  destruct ns as [|z ns]; simpl in *; [tauto|]. rewrite IH. tauto.
Qed.

Lemma linked_frame h h' ns :
  (∀ x, x ∈ removelast ns → next <$> h' !! x = next <$> h !! x) →
  (∀ x, x ∈ tail ns → prev <$> h' !! x = prev <$> h !! x) →
  linked h ns → linked h' ns.
Proof.
  induction ns as [|x ns IH]; [done|]. destruct ns as [|y ns]; [done|].
  intros Hn Hp [[H1 H2] Hl]. split.
  - split; [rewrite Hn|rewrite Hp]; set_solver.
  - apply IH; [| |done]; intros z Hz.
    + apply Hn. set_solver.
    + apply Hp. set_solver.
Qed.

Lemma linked_mid h ns x y ms : linked h (ns ++ x :: y :: ms) → lnk h x y.
Proof. intros [_ Hl]%linked_app. by destruct Hl. Qed.

(** ** Node-level effects of the primitive reads and writes *)

Lemma wp_rd_next h n x Q :
  next <$> h !! n = Some x → Q x h → wp (rd_next n) h Q.
Proof.
  intros (c & Hc & ->)%fmap_Some ?. unfold rd_next. do 2 wp_step.
  wp_step. wp_steps. done.
Qed.

Lemma wp_rd_prev h n x Q :
  prev <$> h !! n = Some x → Q x h → wp (rd_prev n) h Q.
Proof.
  intros (c & Hc & ->)%fmap_Some ?. unfold rd_prev. do 2 wp_step.
  wp_step. wp_steps. done.
Qed.

(** The heap after [n->next = v] or [n->prev = v]. *)
Definition set_next n v h : lheap N := alter (λ c, mk_node v (prev c)) n h.
Definition set_prev n v h : lheap N := alter (λ c, mk_node (next c) v) n h.

Lemma wp_wr_next h n v Q :
  is_Some (h !! n) → Q tt (set_next n v h) → wp (wr_next n v) h Q.
Proof.
  intros [c Hc] ?. unfold wr_next. do 2 wp_step. wp_step. wp_steps.
  replace (<[n:=mk_node v (prev c)]> h) with (set_next n v h); [done|].
  apply map_eq; intros i. unfold set_next. rewrite lookup_alter, lookup_insert.
  case_decide; subst; by rewrite ?Hc.
Qed.

Lemma wp_wr_prev h n v Q :
  is_Some (h !! n) → Q tt (set_prev n v h) → wp (wr_prev n v) h Q.
Proof.
  intros [c Hc] ?. unfold wr_prev. do 2 wp_step. wp_step. wp_steps.
  replace (<[n:=mk_node (next c) v]> h) with (set_prev n v h); [done|].
  apply map_eq; intros i. unfold set_prev. rewrite lookup_alter, lookup_insert.
  case_decide; subst; by rewrite ?Hc.
Qed.

Lemma next_set_next h n v i :
  next <$> set_next n v h !! i
  = if decide (n = i) then (λ _, v) <$> h !! i else next <$> h !! i.
Proof.
  unfold set_next. rewrite lookup_alter. case_decide; subst; [|done].
  by destruct (h !! i).
Qed.
Lemma next_set_prev h n v i : next <$> set_prev n v h !! i = next <$> h !! i.
Proof.
  unfold set_prev. rewrite lookup_alter. case_decide; subst; [|done].
  by destruct (h !! i).
Qed.
Lemma prev_set_prev h n v i :
  prev <$> set_prev n v h !! i
  = if decide (n = i) then (λ _, v) <$> h !! i else prev <$> h !! i.
Proof.
  unfold set_prev. rewrite lookup_alter. case_decide; subst; [|done].
  by destruct (h !! i).
Qed.
Lemma prev_set_next h n v i : prev <$> set_next n v h !! i = prev <$> h !! i.
Proof.
  unfold set_next. rewrite lookup_alter. case_decide; subst; [|done].
  by destruct (h !! i).
Qed.
Lemma is_Some_set_next h n v i : is_Some (set_next n v h !! i) ↔ is_Some (h !! i).
Proof.
  unfold set_next. rewrite lookup_alter. case_decide; subst; [|done].
  by rewrite fmap_is_Some.
Qed.
Lemma is_Some_set_prev h n v i : is_Some (set_prev n v h !! i) ↔ is_Some (h !! i).
Proof.
  unfold set_prev. rewrite lookup_alter. case_decide; subst; [|done].
  by rewrite fmap_is_Some.
Qed.

Lemma const_set_next h n v i (w : N) :
  (λ _, w) <$> set_next n v h !! i = (λ _ : rt_list_node N, w) <$> h !! i.
Proof.
  unfold set_next. rewrite lookup_alter. case_decide; subst; [|done].
  by destruct (h !! i).
Qed.
Lemma const_set_prev h n v i (w : N) :
  (λ _, w) <$> set_prev n v h !! i = (λ _ : rt_list_node N, w) <$> h !! i.
Proof.
  unfold set_prev. rewrite lookup_alter. case_decide; subst; [|done].
  by destruct (h !! i).
Qed.

(** A heap [h'] that differs from [h] by linking [n] between [x] and [y]. *)
Definition spliced h x n y h' : Prop :=
  (∀ i, next <$> h' !! i =
     if decide (i = n) then Some y else if decide (i = x) then Some n
     else next <$> h !! i) ∧
  (∀ i, prev <$> h' !! i =
     if decide (i = n) then Some x else if decide (i = y) then Some n
     else prev <$> h !! i).

(** A heap [h'] that differs from [h] by unlinking [n] from between [x] and [y]. *)
Definition unspliced h x n y h' : Prop :=
  (∀ i, next <$> h' !! i =
     if decide (i = n) then Some n else if decide (i = x) then Some y
     else next <$> h !! i) ∧
  (∀ i, prev <$> h' !! i =
     if decide (i = n) then Some n else if decide (i = y) then Some x
     else prev <$> h !! i).

Ltac heap_simpl :=
  repeat first
    [ rewrite next_set_next | rewrite next_set_prev
    | rewrite prev_set_prev | rewrite prev_set_next
    | rewrite const_set_next | rewrite const_set_prev ].
Ltac heap_cases := heap_simpl; repeat case_decide; simplify_eq/=; try done.
Ltac node_exists :=
  repeat first [rewrite is_Some_set_next | rewrite is_Some_set_prev]; by eauto.

Lemma is_Some_next h n x : next <$> h !! n = Some x → is_Some (h !! n).
Proof. intros (c & -> & _)%fmap_Some. eauto. Qed.
Lemma is_Some_prev h n x : prev <$> h !! n = Some x → is_Some (h !! n).
Proof. intros (c & -> & _)%fmap_Some. eauto. Qed.

Lemma wp_insert_after h x y n :
  lnk h x y → is_Some (h !! n) → n ≠ x → n ≠ y →
  wp (rt_list_insert_after x n) h (λ _ h', spliced h x n y h').
Proof.
  intros [Hx Hy] [c Hn] Hnx Hny. unfold rt_list_insert_after.
  pose proof (is_Some_next _ _ _ Hx) as [cx Hcx].
  pose proof (is_Some_prev _ _ _ Hy) as [cy Hcy].
  wp_step. eapply wp_rd_next; [done|].
  wp_step. apply wp_wr_prev; [eauto|].
  wp_step. eapply wp_rd_next; [by rewrite next_set_prev|].
  wp_step. apply wp_wr_next; [node_exists|].
  wp_step. apply wp_wr_next; [node_exists|].
  apply wp_wr_prev; [node_exists|].
  split; intros i; heap_cases; by rewrite ?Hn, ?Hcx, ?Hcy.
Qed.

Lemma wp_insert_before h x y n :
  lnk h x y → is_Some (h !! n) → n ≠ x → n ≠ y →
  wp (rt_list_insert_before y n) h (λ _ h', spliced h x n y h').
Proof.
  intros [Hx Hy] [c Hn] Hnx Hny. unfold rt_list_insert_before.
  pose proof (is_Some_next _ _ _ Hx) as [cx Hcx].
  pose proof (is_Some_prev _ _ _ Hy) as [cy Hcy].
  wp_step. eapply wp_rd_prev; [done|].
  wp_step. apply wp_wr_next; [eauto|].
  wp_step. eapply wp_rd_prev; [by rewrite prev_set_next|].
  wp_step. apply wp_wr_prev; [node_exists|].
  wp_step. apply wp_wr_prev; [node_exists|].
  apply wp_wr_next; [node_exists|].
  split; intros i; heap_cases; by rewrite ?Hn, ?Hcx, ?Hcy.
Qed.

Lemma wp_remove h x y n :
  lnk h x n → lnk h n y →
  wp (rt_list_remove n) h (λ _ h', unspliced h x n y h').
Proof.
  intros [Hx Hn] [Hn' Hy]. unfold rt_list_remove.
  pose proof (is_Some_next _ _ _ Hx) as [cx Hcx].
  pose proof (is_Some_prev _ _ _ Hy) as [cy Hcy].
  pose proof (is_Some_prev _ _ _ Hn) as [cn Hcn].
  wp_step. eapply wp_rd_next; [done|].
  wp_step. eapply wp_rd_prev; [done|].
  wp_step. apply wp_wr_prev; [eauto|].
  wp_step. eapply (wp_rd_prev _ _ x).
  { rewrite prev_set_prev. case_decide; subst; [by rewrite Hcy|done]. }
  wp_step. eapply wp_rd_next; [by rewrite next_set_prev|].
  wp_step. apply wp_wr_next; [node_exists|].
  wp_step. apply wp_wr_prev; [node_exists|].
  apply wp_wr_next; [node_exists|].
  split; intros i; heap_cases; by rewrite ?Hcn, ?Hcx, ?Hcy.
Qed.

(** ** Rings *)

Lemma ring_perm hd l l' ns x y ms n :
  hd :: l ++ [hd] = ns ++ x :: y :: ms →
  hd :: l' ++ [hd] = ns ++ x :: n :: y :: ms →
  l' ≡ₚ n :: l.
Proof.
  intros E E'. apply (Permutation_app_inv_r [hd]), (Permutation_cons_inv (a:=hd)).
  transitivity (n :: (hd :: l ++ [hd])); [rewrite E, E'|]; solve_Permutation.
Qed.

(** In a ring split as [ns ++ x :: y :: ms] the nodes before [x] are not [x],
    and no node after the first one, up to [x], is [y]; and symmetrically. *)
Lemma ring_split_fresh hd l ns x y ms :
  NoDup (hd :: l) → hd :: l ++ [hd] = ns ++ x :: y :: ms →
  x ∉ ns ∧ y ∉ tail (ns ++ [x]) ∧ y ∉ ms ∧ x ∉ removelast (y :: ms).
Proof.
  intros Hnd E.
  destruct ms as [|z ms _] using rev_ind.
  - assert (hd :: l = ns ++ [x] ∧ hd = y) as [E' <-].
    { change (hd :: l ++ [hd]) with ((hd :: l) ++ [hd]) in E.
      replace (ns ++ [x; y]) with ((ns ++ [x]) ++ [y]) in E by by rewrite <- app_assoc.
      by apply app_inj_tail in E. }
    assert (Hnd' := Hnd). rewrite E' in Hnd'. apply NoDup_app in Hnd' as (_ & Hx & _).
    apply NoDup_cons in Hnd as [? _]. rewrite <- E'.
    split_and!; [set_solver|done|set_solver|set_solver].
  - assert (hd :: l = ns ++ x :: y :: ms ∧ hd = z) as [E' <-].
    { change (hd :: l ++ [hd]) with ((hd :: l) ++ [hd]) in E.
      replace (ns ++ x :: y :: ms ++ [z]) with ((ns ++ x :: y :: ms) ++ [z]) in E
        by by rewrite <- app_assoc.
      by apply app_inj_tail in E. }
    assert (Hnd' := Hnd). rewrite E' in Hnd'.
    apply NoDup_app in Hnd' as (? & Hd & Hnd2).
    apply NoDup_cons in Hnd2 as [Hx Hnd3]. apply NoDup_cons in Hnd3 as [Hy Hnd4].
    assert (y ≠ hd) as Hyhd.
    { destruct ns as [|w ns]; simplify_list_eq; [set_solver|].
      intros ->. apply NoDup_cons in Hnd as [? _]. set_solver. }
    split_and!.
    + intros ?. eapply Hd; [done|]. set_solver.
    + destruct ns as [|w ns]; simpl; [set_solver|].
      rewrite elem_of_app, list_elem_of_singleton. intros [?| ->]; [|set_solver].
      eapply (Hd y); set_solver.
    + rewrite elem_of_app, list_elem_of_singleton. naive_solver.
    + replace (y :: ms ++ [hd]) with ((y :: ms) ++ [hd]) by done.
      rewrite removelast_last. done.
Qed.

Lemma linked_splice h h' hd l l' ns x y ms n :
  NoDup (hd :: l) → n ∉ hd :: l →
  hd :: l ++ [hd] = ns ++ x :: y :: ms →
  hd :: l' ++ [hd] = ns ++ x :: n :: y :: ms →
  linked h (hd :: l ++ [hd]) → spliced h x n y h' →
  linked h' (hd :: l' ++ [hd]).
Proof.
  intros Hnd Hn E E' Hl [Hnx Hpv].
  destruct (ring_split_fresh _ _ _ _ _ _ Hnd E) as (F1 & F2 & F3 & F4).
  assert (∀ i, i ∈ ns ++ x :: y :: ms → i ≠ n) as Hne.
  { intros i Hi ->. rewrite <- E in Hi. set_solver. }
  rewrite E in Hl. apply linked_app in Hl as [Hl1 [_ Hl2]].
  rewrite E'. apply linked_app. split; [|split; [|split]].
  - eapply linked_frame; [| |exact Hl1]; intros i Hi.
    + rewrite removelast_last in Hi. rewrite Hnx, decide_False, decide_False; set_solver.
    + rewrite Hpv, decide_False, decide_False; [done|set_solver|].
      apply Hne. destruct ns; set_solver.
  - split; [rewrite Hnx|rewrite Hpv].
    + rewrite decide_False by (apply Hne; set_solver). by rewrite decide_True.
    + by rewrite decide_True.
  - split; [rewrite Hnx|rewrite Hpv].
    + by rewrite decide_True.
    + rewrite decide_False by (apply Hne; set_solver). by rewrite decide_True.
  - eapply linked_frame; [| |exact Hl2]; intros i Hi.
    + rewrite Hnx, decide_False, decide_False; [done|set_solver|].
      apply Hne. assert (i ∈ y :: ms) by by apply elem_of_removelast. set_solver.
    + simpl in Hi. rewrite Hpv, decide_False, decide_False; [done|set_solver|].
      apply Hne. set_solver.
Qed.

Lemma linked_unsplice h h' hd l l' ns x y ms n :
  NoDup (hd :: l') → n ∉ hd :: l' →
  hd :: l ++ [hd] = ns ++ x :: n :: y :: ms →
  hd :: l' ++ [hd] = ns ++ x :: y :: ms →
  linked h (hd :: l ++ [hd]) → unspliced h x n y h' →
  linked h' (hd :: l' ++ [hd]).
Proof.
  intros Hnd Hn E E' Hl [Hnx Hpv].
  destruct (ring_split_fresh _ _ _ _ _ _ Hnd E') as (F1 & F2 & F3 & F4).
  assert (∀ i, i ∈ ns ++ x :: y :: ms → i ≠ n) as Hne.
  { intros i Hi ->. rewrite <- E' in Hi. set_solver. }
  rewrite E in Hl. apply linked_app in Hl as [Hl1 [_ [_ Hl2]]].
  rewrite E'. apply linked_app. split; [|split].
  - eapply linked_frame; [| |exact Hl1]; intros i Hi.
    + rewrite removelast_last in Hi. rewrite Hnx, decide_False, decide_False; set_solver.
    + rewrite Hpv, decide_False, decide_False; [done|set_solver|].
      apply Hne. destruct ns; set_solver.
  - split; [rewrite Hnx|rewrite Hpv];
      rewrite decide_False by (apply Hne; set_solver); by rewrite decide_True.
  - eapply linked_frame; [| |exact Hl2]; intros i Hi.
    + rewrite Hnx, decide_False, decide_False; [done|set_solver|].
      apply Hne. assert (i ∈ y :: ms) by by apply elem_of_removelast. set_solver.
    + simpl in Hi. rewrite Hpv, decide_False, decide_False; [done|set_solver|].
      apply Hne. set_solver.
Qed.

(** A ring none of whose nodes is touched is kept. *)
Lemma dlist_frame h h' hd l :
  (∀ i, i ∈ hd :: l → next <$> h' !! i = next <$> h !! i) →
  (∀ i, i ∈ hd :: l → prev <$> h' !! i = prev <$> h !! i) →
  dlist h hd l → dlist h' hd l.
Proof.
  intros Hn Hp [Hnd Hl]. split; [done|]. eapply linked_frame; [| |exact Hl].
  - intros i Hi. apply Hn. change (hd :: l ++ [hd]) with ((hd :: l) ++ [hd]) in Hi.
    by rewrite removelast_last in Hi.
  - simpl. intros i Hi. apply Hp. set_solver.
Qed.

Lemma rep_dlist h L hd l : rep h L → L !! hd = Some l → dlist h hd l.
Proof. intros [Hd _]. apply Hd. Qed.

(** A node belongs to one ring. *)
Lemma rep_inj n h L hd1 hd2 l1 l2 :
  rep h L → L !! hd1 = Some l1 → L !! hd2 = Some l2 →
  n ∈ hd1 :: l1 → n ∈ hd2 :: l2 → hd1 = hd2.
Proof. intros [_ Hd]. apply Hd. Qed.

Lemma rep_head_not_in h L hd1 hd2 l1 l2 :
  rep h L → L !! hd1 = Some l1 → L !! hd2 = Some l2 → hd2 ∉ l1.
Proof.
  intros Hrep H1 H2 Hin.
  assert (hd1 = hd2) as -> by (eapply (rep_inj hd2 h L); eauto; set_solver).
  destruct (rep_dlist _ _ _ _ Hrep H1) as [Hnd _]. apply NoDup_cons in Hnd as [? _].
  simplify_eq. done.
Qed.

Lemma rep_splice h h' L hd l l' ns x y ms n :
  rep h L → L !! hd = Some l → L !! n = Some [] → n ≠ hd →
  hd :: l ++ [hd] = ns ++ x :: y :: ms →
  hd :: l' ++ [hd] = ns ++ x :: n :: y :: ms →
  spliced h x n y h' →
  rep h' (<[hd := l']> (delete n L)).
Proof.
  intros Hrep Hhd Hn Hne E E' Hsp.
  destruct (rep_dlist _ _ _ _ Hrep Hhd) as [Hnd Hl].
  assert (n ∉ hd :: l) as Hnl.
  { rewrite not_elem_of_cons. split; [done|]. eapply rep_head_not_in; eauto. }
  pose proof (ring_perm _ _ _ _ _ _ _ _ E E') as Hperm.
  assert (∀ i, i ∈ ns ++ x :: y :: ms → i ∈ hd :: l) as Hin.
  { intros i. rewrite <- E. set_solver. }
  split.
  - intros hd2 l2 Hl2. destruct (decide (hd2 = hd)) as [->|Hne2].
    + rewrite lookup_insert_eq in Hl2. simplify_eq. split.
      * rewrite Hperm, perm_swap. by apply NoDup_cons.
      * eapply linked_splice; eauto.
    + rewrite lookup_insert_ne in Hl2 by done.
      apply lookup_delete_Some in Hl2 as [Hne3 Hl2].
      eapply dlist_frame; [| |by eapply rep_dlist]; intros i Hi;
        (assert (i ∉ hd :: l) by (intros ?; apply Hne2; by eapply (rep_inj i h L)));
        (assert (i ≠ n) by (intros ->; apply Hne3; eapply (rep_inj n h L); eauto; set_solver));
        destruct Hsp as [Hnx Hpv]; rewrite ?Hnx, ?Hpv; rewrite !decide_False; try done;
        intros ->; set_solver.
  - intros hd1 hd2 l1 l2 i. destruct (decide (hd1 = hd)) as [->|N1], (decide (hd2 = hd)) as [->|N2];
      rewrite ?lookup_insert_eq, ?lookup_insert_ne, ?lookup_delete_Some by done; [done| | |].
    + intros [= <-] [N3 H2]. rewrite Hperm, elem_of_cons, elem_of_cons. intros Hi Hi2.
      exfalso. destruct Hi as [->|[->|Hi]].
      * apply N2. eapply (rep_inj hd h L); eauto; set_solver.
      * apply N3. eapply (rep_inj n h L); eauto; set_solver.
      * apply N2. eapply (rep_inj i h L); eauto; set_solver.
    + intros [N3 H1] [= <-]. rewrite Hperm, !elem_of_cons. intros Hi1 Hi.
      exfalso. destruct Hi as [->|[->|Hi]].
      * apply N1. eapply (rep_inj hd h L); eauto; set_solver.
      * apply N3. eapply (rep_inj n h L); eauto; set_solver.
      * apply N1. eapply (rep_inj i h L); eauto; set_solver.
    + intros [_ H1] [_ H2]. by eapply (rep_inj i h L).
Qed.

Lemma rep_unsplice h h' L hd l l' ns x y ms n :
  rep h L → L !! hd = Some l → n ∈ l →
  hd :: l ++ [hd] = ns ++ x :: n :: y :: ms →
  hd :: l' ++ [hd] = ns ++ x :: y :: ms →
  unspliced h x n y h' →
  rep h' (<[hd := l']> (<[n := []]> L)).
Proof.
  intros Hrep Hhd Hn E E' Hsp.
  destruct (rep_dlist _ _ _ _ Hrep Hhd) as [Hnd Hl].
  pose proof (ring_perm _ _ _ _ _ _ _ _ E' E) as Hperm.
  assert (NoDup (n :: hd :: l')) as [Hnl Hnd']%NoDup_cons.
  { by rewrite perm_swap, <- Hperm. }
  assert (n ≠ hd) as Hne by set_solver.
  assert (∀ i, i ∈ ns ++ x :: y :: ms → i ∈ hd :: l) as Hin.
  { intros i. rewrite <- E', Hperm. set_solver. }
  assert (∀ i, i ∈ hd :: l' → i ∈ hd :: l) as Hsub.
  { intros i. rewrite Hperm. set_solver. }
  split.
  - intros hd2 l2 Hl2. destruct (decide (hd2 = hd)) as [->|Hne2].
    { rewrite lookup_insert_eq in Hl2. simplify_eq. split; [done|].
      eapply linked_unsplice; eauto. }
    rewrite lookup_insert_ne in Hl2 by done.
    destruct (decide (hd2 = n)) as [->|Hne3].
    { rewrite lookup_insert_eq in Hl2. simplify_eq. split; [apply NoDup_singleton|].
      split; [|done]. destruct Hsp as [Hnx Hpv].
      split; [rewrite Hnx|rewrite Hpv]; by rewrite decide_True. }
    rewrite lookup_insert_ne in Hl2 by done.
    eapply dlist_frame; [| |by eapply rep_dlist]; intros i Hi;
      (assert (i ∉ hd :: l) by (intros ?; apply Hne2; by eapply (rep_inj i h L)));
      destruct Hsp as [Hnx Hpv]; rewrite ?Hnx, ?Hpv; rewrite !decide_False; try done;
      intros ->; set_solver.
  - assert (∀ hd2 l2, hd2 ≠ hd → hd2 ≠ n → L !! hd2 = Some l2 →
              ∀ i, i ∈ hd2 :: l2 → i ∉ hd :: l) as Hoth.
    { intros hd2 l2 N1 N2 H2 i Hi ?. apply N1. by eapply (rep_inj i h L). }
    intros hd1 hd2 l1 l2 i.
    destruct (decide (hd1 = hd)) as [->|N1], (decide (hd2 = hd)) as [->|N2];
      rewrite ?lookup_insert_eq, ?(lookup_insert_ne _ hd) by done; [done| | |].
    + intros [= <-]. destruct (decide (hd2 = n)) as [->|N3].
      * rewrite lookup_insert_eq. intros [= <-]. set_solver.
      * rewrite lookup_insert_ne by done. intros H2 ? ?. exfalso.
        by eapply (Hoth hd2 l2); eauto.
    + intros H1 [= <-]. revert H1. destruct (decide (hd1 = n)) as [->|N3].
      * rewrite lookup_insert_eq. intros [= <-]. set_solver.
      * rewrite lookup_insert_ne by done. intros H2 ? ?. exfalso.
        by eapply (Hoth hd1 l1); eauto.
    + destruct (decide (hd1 = n)) as [->|N3], (decide (hd2 = n)) as [->|N4];
        rewrite ?lookup_insert_eq, ?(lookup_insert_ne _ n) by done; [done| | |].
      * intros [= <-] H2 Hi ?. exfalso. eapply (Hoth hd2 l2 N2 N4 H2 i); set_solver.
      * intros H1 [= <-] ? Hi. exfalso. eapply (Hoth hd1 l1 N1 N3 H1 i); set_solver.
      * intros ? ?. by eapply (rep_inj i h L).
Qed.

Lemma dlist_lnk h hd l ns x y ms :
  dlist h hd l → hd :: l ++ [hd] = ns ++ x :: y :: ms → lnk h x y.
Proof. intros [_ Hl] E. rewrite E in Hl. by eapply linked_mid. Qed.

Lemma rep_is_Some h L hd l n :
  rep h L → L !! hd = Some l → n ∈ hd :: l → is_Some (h !! n).
Proof.
  intros Hrep Hhd Hn.
  assert (∃ ns y ms, hd :: l ++ [hd] = ns ++ n :: y :: ms) as (ns & y & ms & E).
  { apply list_elem_of_split in Hn as (l1 & l2 & E).
    destruct l2 as [|y l2].
    - exists l1, hd, []. change (hd :: l ++ [hd]) with ((hd :: l) ++ [hd]).
      by rewrite E, <- app_assoc.
    - exists l1, y, (l2 ++ [hd]). change (hd :: l ++ [hd]) with ((hd :: l) ++ [hd]).
      by rewrite E, <- app_assoc. }
  destruct (dlist_lnk _ _ _ _ _ _ _ (rep_dlist _ _ _ _ Hrep Hhd) E) as [Hn' _].
  by eapply is_Some_next.
Qed.

(** ** The operations on rings *)

Lemma wp_next_head h L hd l (Q : N → lheap N → Prop) :
  rep h L → L !! hd = Some l → Q (default hd (head l)) h → wp (rd_next hd) h Q.
Proof.
  intros Hrep Hhd HQ. eapply wp_rd_next; [|done].
  apply (dlist_lnk h hd l [] hd _ (tail (l ++ [hd]))); [by eapply rep_dlist|].
  by destruct l.
Qed.

Lemma wp_next_elem h L hd l1 n l2 (Q : N → lheap N → Prop) :
  rep h L → L !! hd = Some (l1 ++ n :: l2) →
  Q (default hd (head l2)) h → wp (rd_next n) h Q.
Proof.
  intros Hrep Hhd HQ. eapply wp_rd_next; [|done].
  apply (dlist_lnk h hd (l1 ++ n :: l2) (hd :: l1) n _ (tail (l2 ++ [hd]))).
  - by eapply rep_dlist.
  - simpl. rewrite <- app_assoc. by destruct l2.
Qed.

Lemma wp_prev_elem h L hd l1 n l2 (Q : N → lheap N → Prop) :
  rep h L → L !! hd = Some (l1 ++ n :: l2) →
  Q (default hd (last l1)) h → wp (rd_prev n) h Q.
Proof.
  intros Hrep Hhd HQ. eapply wp_rd_prev; [|done].
  destruct l1 as [|x l1 _] using rev_ind.
  - apply (dlist_lnk h hd (n :: l2) [] hd n (l2 ++ [hd])); [by eapply rep_dlist|done].
  - rewrite last_snoc.
    apply (dlist_lnk h hd ((l1 ++ [x]) ++ n :: l2) (hd :: l1) x n (l2 ++ [hd]));
      [by eapply rep_dlist|]. simpl. by rewrite <- !app_assoc.
Qed.

Lemma wp_prev_head h L hd l (Q : N → lheap N → Prop) :
  rep h L → L !! hd = Some l → Q (default hd (last l)) h → wp (rd_prev hd) h Q.
Proof.
  intros Hrep Hhd HQ. eapply wp_rd_prev; [|done].
  destruct l as [|x l _] using rev_ind.
  - apply (dlist_lnk h hd [] [] hd hd []); [by eapply rep_dlist|done].
  - rewrite last_snoc. apply (dlist_lnk h hd (l ++ [x]) (hd :: l) x hd []);
      [by eapply rep_dlist|]. by rewrite <- app_assoc.
Qed.

Lemma wp_isempty h L hd l :
  rep h L → L !! hd = Some l →
  wp (rt_list_isempty hd) h (λ b h', h' = h ∧ b = bool_decide (l = [])).
Proof.
  intros Hrep Hhd. unfold rt_list_isempty. wp_step. eapply wp_next_head; [done..|].
  wp_step. split; [done|]. apply bool_decide_ext.
  destruct l as [|x l]; simpl; [done|]. split; [|done]. intros ->.
  destruct (rep_dlist _ _ _ _ Hrep Hhd) as [Hnd _]. apply NoDup_cons in Hnd. set_solver.
Qed.

Lemma detached_not_in h L hd l n :
  rep h L → L !! hd = Some l → L !! n = Some [] → n ≠ hd → n ∉ hd :: l.
Proof.
  intros Hrep Hhd Hn Hne. rewrite not_elem_of_cons. split; [done|].
  eapply rep_head_not_in; eauto.
Qed.

Lemma wp_insert_between_after h L hd l l' ns x y ms n :
  rep h L → L !! hd = Some l → L !! n = Some [] → n ≠ hd →
  hd :: l ++ [hd] = ns ++ x :: y :: ms →
  hd :: l' ++ [hd] = ns ++ x :: n :: y :: ms →
  wp (rt_list_insert_after x n) h (λ _ h', rep h' (<[hd := l']> (delete n L))).
Proof.
  intros Hrep Hhd Hn Hne E E'.
  pose proof (detached_not_in _ _ _ _ _ Hrep Hhd Hn Hne) as Hni.
  assert (∀ i, i ∈ ns ++ x :: y :: ms → i ∈ hd :: l) as Hin.
  { intros i. rewrite <- E. set_solver. }
  wp_use wp_insert_after as Hsp.
  - eapply (dlist_lnk h hd l ns); [by eapply rep_dlist|done].
  - eapply rep_is_Some; [done|apply Hn|set_solver].
  - intros ->. apply Hni, Hin. set_solver.
  - intros ->. apply Hni, Hin. set_solver.
  - by eapply rep_splice.
Qed.

Lemma wp_insert_between_before h L hd l l' ns x y ms n :
  rep h L → L !! hd = Some l → L !! n = Some [] → n ≠ hd →
  hd :: l ++ [hd] = ns ++ x :: y :: ms →
  hd :: l' ++ [hd] = ns ++ x :: n :: y :: ms →
  wp (rt_list_insert_before y n) h (λ _ h', rep h' (<[hd := l']> (delete n L))).
Proof.
  intros Hrep Hhd Hn Hne E E'.
  pose proof (detached_not_in _ _ _ _ _ Hrep Hhd Hn Hne) as Hni.
  assert (∀ i, i ∈ ns ++ x :: y :: ms → i ∈ hd :: l) as Hin.
  { intros i. rewrite <- E. set_solver. }
  wp_use wp_insert_before as Hsp.
  - eapply (dlist_lnk h hd l ns); [by eapply rep_dlist|done].
  - eapply rep_is_Some; [done|apply Hn|set_solver].
  - intros ->. apply Hni, Hin. set_solver.
  - intros ->. apply Hni, Hin. set_solver.
  - by eapply rep_splice.
Qed.

(** [rt_list_insert_before(head, n)] appends. *)
Lemma insert_before_head h L hd l n :
  rep h L → L !! hd = Some l → L !! n = Some [] → n ≠ hd →
  wp (rt_list_insert_before hd n) h
     (λ _ h', rep h' (<[hd := l ++ [n]]> (delete n L))).
Proof.
  intros Hrep Hhd Hn Hne. destruct l as [|x l _] using rev_ind.
  - by eapply (wp_insert_between_before h L hd [] [n] [] hd hd []).
  - eapply (wp_insert_between_before h L hd (l ++ [x]) _ (hd :: l) x hd []); [done..| |];
      simpl; by rewrite <- !app_assoc.
Qed.

(** [rt_list_insert_before(x, n)] with [x] an element puts [n] before [x]. *)
Lemma insert_before_elem h L hd l1 x l2 n :
  rep h L → L !! hd = Some (l1 ++ x :: l2) → L !! n = Some [] → n ≠ hd →
  wp (rt_list_insert_before x n) h
     (λ _ h', rep h' (<[hd := l1 ++ n :: x :: l2]> (delete n L))).
Proof.
  intros Hrep Hhd Hn Hne. destruct l1 as [|y l1 _] using rev_ind.
  - by eapply (wp_insert_between_before h L hd (x :: l2) _ [] hd x (l2 ++ [hd])).
  - eapply (wp_insert_between_before h L hd _ _ (hd :: l1) y x (l2 ++ [hd])); [done..| |];
      simpl; by rewrite <- !app_assoc.
Qed.

(** [rt_list_insert_after(head, n)] prepends. *)
Lemma insert_after_head h L hd l n :
  rep h L → L !! hd = Some l → L !! n = Some [] → n ≠ hd →
  wp (rt_list_insert_after hd n) h (λ _ h', rep h' (<[hd := n :: l]> (delete n L))).
Proof.
  intros Hrep Hhd Hn Hne.
  eapply (wp_insert_between_after h L hd l (n :: l) [] hd
            (default hd (head l)) (tail (l ++ [hd]))); [done..| |]; by destruct l.
Qed.

Lemma insert_after_elem h L hd l1 x l2 n :
  rep h L → L !! hd = Some (l1 ++ x :: l2) → L !! n = Some [] → n ≠ hd →
  wp (rt_list_insert_after x n) h
     (λ _ h', rep h' (<[hd := l1 ++ x :: n :: l2]> (delete n L))).
Proof.
  intros Hrep Hhd Hn Hne.
  eapply (wp_insert_between_after h L hd _ _ (hd :: l1) x
            (default hd (head l2)) (tail (l2 ++ [hd]))); [done..| |];
    simpl; rewrite <- app_assoc; by destruct l2.
Qed.

(** Insertion after the last node of a prefix of the ring. *)
Lemma insert_after_prefix h L hd l1 l2 n :
  rep h L → L !! hd = Some (l1 ++ l2) → L !! n = Some [] → n ≠ hd →
  wp (rt_list_insert_after (default hd (last l1)) n) h
     (λ _ h', rep h' (<[hd := l1 ++ n :: l2]> (delete n L))).
Proof.
  intros Hrep Hhd Hn Hne. destruct l1 as [|x l1 _] using rev_ind.
  - by apply insert_after_head.
  - rewrite last_snoc. rewrite <- !app_assoc in *. by apply insert_after_elem.
Qed.

(** Reading the node that follows a prefix of the ring. *)
Lemma wp_next_prefix h L hd l1 l2 (Q : N → lheap N → Prop) :
  rep h L → L !! hd = Some (l1 ++ l2) →
  Q (default hd (head l2)) h → wp (rd_next (default hd (last l1))) h Q.
Proof.
  intros Hrep Hhd HQ. destruct l1 as [|x l1 _] using rev_ind.
  - by eapply wp_next_head.
  - rewrite last_snoc. rewrite <- app_assoc in Hhd. by eapply wp_next_elem.
Qed.

(** A ring is not longer than memory. *)
Lemma rep_length h L hd l : rep h L → L !! hd = Some l → (length l < size h)%nat.
Proof.
  intros Hrep Hhd. destruct (rep_dlist _ _ _ _ Hrep Hhd) as [Hnd _].
  assert (length (hd :: l) ≤ size h)%nat; [|done].
  rewrite <- (size_dom h), <- (size_list_to_set (C:=gset N) (hd :: l)) by done.
  apply subseteq_size. intros n Hn%elem_of_list_to_set. apply elem_of_dom.
  by eapply rep_is_Some.
Qed.

(** [rt_list_remove] takes an element out of its ring. *)
Lemma remove_elem h L hd l1 n l2 :
  rep h L → L !! hd = Some (l1 ++ n :: l2) →
  wp (rt_list_remove n) h (λ _ h', rep h' (<[hd := l1 ++ l2]> (<[n := []]> L))).
Proof.
  intros Hrep Hhd.
  assert (∃ ns x, hd :: l1 = ns ++ [x]) as (ns & x & E).
  { destruct l1 as [|x l1 _] using rev_ind; [by exists [], hd|by exists (hd :: l1), x]. }
  assert (∃ y ms, l2 ++ [hd] = y :: ms) as (y & ms & E2).
  { destruct l2; simpl; eauto. }
  assert (hd :: (l1 ++ n :: l2) ++ [hd] = ns ++ x :: n :: y :: ms) as Ering.
  { rewrite app_comm_cons, app_comm_cons, E. simplify_list_eq. by rewrite E2. }
  assert (hd :: (l1 ++ l2) ++ [hd] = ns ++ x :: y :: ms) as Ering'.
  { rewrite app_comm_cons, app_comm_cons, E. simplify_list_eq. by rewrite E2. }
  pose proof (rep_dlist _ _ _ _ Hrep Hhd) as Hd.
  wp_use wp_remove as Hsp.
  - by eapply (dlist_lnk h hd _ ns x n).
  - eapply (dlist_lnk h hd _ (ns ++ [x]) n y ms); [done|]. by rewrite Ering, <- app_assoc.
  - eapply rep_unsplice; [done..| |exact Ering|exact Ering'|exact Hsp]. set_solver.
Qed.

(** [rt_list_remove] of a node that is on no list changes nothing. *)
Lemma remove_detached h L n :
  rep h L → L !! n = Some [] → wp (rt_list_remove n) h (λ _ h', rep h' L).
Proof.
  intros Hrep Hn.
  assert (lnk h n n) as Hnn.
  { by apply (dlist_lnk h n [] [] n n []); [eapply rep_dlist|]. }
  wp_use wp_remove as [Hnx Hpv]; [done..|]. destruct Hrep as [Hr1 Hr2]. split; [|done].
  intros hd l Hl. eapply dlist_frame; [| |by apply Hr1]; intros i _;
    rewrite ?Hnx, ?Hpv; case_decide; subst; try done; by destruct Hnn as [H1 H2].
Qed.

(** [rt_list_init] of a node that is on no list, new or not. *)
Lemma init_detached h L n :
  rep h L → (∀ hd l, L !! hd = Some l → n ∈ hd :: l → hd = n ∧ l = []) →
  wp (rt_list_init n) h (λ _ h', rep h' (<[n := []]> L)).
Proof.
  intros [Hr1 Hr2] Hn. unfold rt_list_init. wp_step. split.
  - intros hd l Hl. destruct (decide (hd = n)) as [->|Hne].
    + rewrite lookup_insert_eq in Hl. simplify_eq. split; [apply NoDup_singleton|].
      split; [|done]. split; by rewrite lookup_insert_eq.
    + rewrite lookup_insert_ne in Hl by done.
      eapply dlist_frame; [| |by apply Hr1]; intros i Hi;
        (rewrite lookup_insert_ne; [done|]); intros ->; by destruct (Hn _ _ Hl Hi).
  - intros hd1 hd2 l1 l2 i.
    destruct (decide (hd1 = n)) as [->|N1], (decide (hd2 = n)) as [->|N2];
      rewrite ?lookup_insert_eq, ?lookup_insert_ne by done; [done| | |].
    + intros [= <-] H2 ->%list_elem_of_singleton Hi. by destruct (Hn _ _ H2 Hi).
    + intros H1 [= <-] Hi ->%list_elem_of_singleton. by destruct (Hn _ _ H1 Hi).
    + by eauto.
Qed.
End refinement.
