(* ===== verification/Bitmap.v ===== *)
(** [__rt_ffs] of [src/kservice.c]: the find-first-set routine the scheduler
    uses to pick the highest ready priority, with its 256-entry table, and its
    correctness for every 32-bit word. *)

From Stdlib Require Import ZArith Lia.
From stdpp Require Import numbers base list.
From S2P Require Import Prelude.
Local Open Scope Z_scope.

Definition __lowest_bit_bitmap : list Z :=
  [ (* 00 *) 0; 0; 1; 0; 2; 0; 1; 0; 3; 0; 1; 0; 2; 0; 1; 0;
    (* 10 *) 4; 0; 1; 0; 2; 0; 1; 0; 3; 0; 1; 0; 2; 0; 1; 0;
    (* 20 *) 5; 0; 1; 0; 2; 0; 1; 0; 3; 0; 1; 0; 2; 0; 1; 0;
    (* 30 *) 4; 0; 1; 0; 2; 0; 1; 0; 3; 0; 1; 0; 2; 0; 1; 0;
    (* 40 *) 6; 0; 1; 0; 2; 0; 1; 0; 3; 0; 1; 0; 2; 0; 1; 0;
    (* 50 *) 4; 0; 1; 0; 2; 0; 1; 0; 3; 0; 1; 0; 2; 0; 1; 0;
    (* 60 *) 5; 0; 1; 0; 2; 0; 1; 0; 3; 0; 1; 0; 2; 0; 1; 0;
    (* 70 *) 4; 0; 1; 0; 2; 0; 1; 0; 3; 0; 1; 0; 2; 0; 1; 0;
    (* 80 *) 7; 0; 1; 0; 2; 0; 1; 0; 3; 0; 1; 0; 2; 0; 1; 0;
    (* 90 *) 4; 0; 1; 0; 2; 0; 1; 0; 3; 0; 1; 0; 2; 0; 1; 0;
    (* A0 *) 5; 0; 1; 0; 2; 0; 1; 0; 3; 0; 1; 0; 2; 0; 1; 0;
    (* B0 *) 4; 0; 1; 0; 2; 0; 1; 0; 3; 0; 1; 0; 2; 0; 1; 0;
    (* C0 *) 6; 0; 1; 0; 2; 0; 1; 0; 3; 0; 1; 0; 2; 0; 1; 0;
    (* D0 *) 4; 0; 1; 0; 2; 0; 1; 0; 3; 0; 1; 0; 2; 0; 1; 0;
    (* E0 *) 5; 0; 1; 0; 2; 0; 1; 0; 3; 0; 1; 0; 2; 0; 1; 0;
    (* F0 *) 4; 0; 1; 0; 2; 0; 1; 0; 3; 0; 1; 0; 2; 0; 1; 0 ].

(** The index is a byte, so the default of [nth] is never taken. *)
Definition lowest_bit (b : Z) : Z := nth (Z.to_nat b) __lowest_bit_bitmap 0.

Definition __rt_ffs (value : Z) : Z :=
  if value =? 0 then 0
  else if negb (Z.land value 0xff =? 0) then lowest_bit (Z.land value 0xff) + 1
  else if negb (Z.land value 0xff00 =? 0) then
    lowest_bit (Z.shiftr (Z.land value 0xff00) 8) + 9
  else if negb (Z.land value 0xff0000 =? 0) then
    lowest_bit (Z.shiftr (Z.land value 0xff0000) 16) + 17
  else lowest_bit (Z.shiftr (Z.land value 0xff000000) 24) + 25.

(** [r] is the number of the lowest set bit of [v], counted from 1. *)
Definition is_ffs (v r : Z) : Prop :=
  1 <= r ∧ Z.testbit v (r - 1) = true ∧
  ∀ i, 0 <= i < r - 1 → Z.testbit v i = false.

Lemma is_ffs_unique v r r' : is_ffs v r → is_ffs v r' → r = r'.
Proof.
  intros (? & H1 & L1) (? & H2 & L2).
  destruct (Z.lt_trichotomy r r') as [Hlt|[?|Hlt]]; [|done|].
  - rewrite (L2 (r - 1)) in H1 by lia. done.
  - rewrite (L1 (r' - 1)) in H2 by lia. done.
Qed.

(** The table, checked entry by entry. *)
Definition lowest_bit_ok (b : Z) : bool :=
  let r := lowest_bit b in
  (0 <=? r) && (r <? 8) && Z.testbit b r && (b mod 2 ^ r =? 0).

Lemma lowest_bit_table :
  forallb lowest_bit_ok (Z.of_nat <$> seq 1 255) = true.
Proof. vm_compute. reflexivity. Qed.

Lemma lowest_bit_spec b :
  0 < b < 256 → 0 <= lowest_bit b < 8 ∧ is_ffs b (lowest_bit b + 1).
Proof.
  intros Hb. pose proof lowest_bit_table as H. rewrite forallb_forall in H.
  specialize (H b). unfold lowest_bit_ok in H.
  assert (In b (Z.of_nat <$> seq 1 255)) as Hin.
  { apply list_elem_of_In, list_elem_of_fmap. exists (Z.to_nat b).
    split; [lia|]. apply elem_of_seq. lia. }
  apply H in Hin. rewrite !andb_true_iff in Hin. destruct Hin as [[[H1 H2] H3] H4].
  split; [lia|]. split; [lia|]. replace (lowest_bit b + 1 - 1) with (lowest_bit b) by lia.
  split; [done|]. intros i Hi. apply Z.eqb_eq in H4.
  rewrite <- (Z.mod_pow2_bits_low b (lowest_bit b) i) by lia.
  rewrite H4. apply Z.bits_0.
Qed.

(** Byte [j] of a word, as the code extracts it with a mask and a shift. *)
Lemma testbit_byte v j i :
  0 <= j → 0 <= i →
  Z.testbit (Z.shiftr (Z.land v (Z.shiftl 255 j)) j) i
  = Z.testbit v (i + j) && (i <? 8).
Proof.
  intros Hj Hi. rewrite Z.shiftr_spec, Z.land_spec, Z.shiftl_spec by lia.
  f_equal. replace (i + j - j) with i by lia. change 255 with (Z.ones 8).
  destruct (Z.ltb_spec i 8); [by apply Z.ones_spec_low|by apply Z.ones_spec_high].
Qed.

Lemma byte_range v j : 0 <= j →
  0 <= Z.shiftr (Z.land v (Z.shiftl 255 j)) j < 256.
Proof.
  intros Hj. rewrite Z.shiftr_land, Z.shiftr_shiftl_l, Z.sub_diag, Z.shiftl_0_r by lia.
  change 255 with (Z.ones 8). rewrite Z.land_ones by lia. apply Z.mod_pos_bound. lia.
Qed.

Lemma mask_zero v j i :
  0 <= j → Z.land v (Z.shiftl 255 j) = 0 → j <= i < j + 8 → Z.testbit v i = false.
Proof.
  intros Hj H0 Hi. pose proof (testbit_byte v j (i - j) Hj ltac:(lia)) as H.
  rewrite H0, Z.shiftr_0_l, Z.bits_0 in H. replace (i - j + j) with i in H by lia.
  destruct (Z.ltb_spec (i - j) 8); [|lia]. by rewrite andb_true_r in H.
Qed.

Lemma ffs_byte v j :
  0 <= j → Z.land v (Z.shiftl 255 j) ≠ 0 → (∀ i, 0 <= i < j → Z.testbit v i = false) →
  let b := Z.shiftr (Z.land v (Z.shiftl 255 j)) j in
  is_ffs v (lowest_bit b + (j + 1)) ∧ lowest_bit b + (j + 1) <= j + 8.
Proof.
  intros Hj Hne Hlow b.
  assert (0 < b < 256) as Hb.
  { pose proof (byte_range v j Hj) as Hr. fold b in Hr.
    enough (b ≠ 0) by lia. intros Hb. apply Hne. apply Z.bits_inj. intros i.
    destruct (Z.lt_ge_cases i 0); [by rewrite !Z.testbit_neg_r by lia|].
    rewrite Z.bits_0, Z.land_spec, Z.shiftl_spec by lia.
    destruct (Z.lt_ge_cases i j); [by rewrite (Hlow i) by lia|].
    change 255 with (Z.ones 8).
    destruct (Z.lt_ge_cases (i - j) 8).
    - pose proof (testbit_byte v j (i - j) Hj ltac:(lia)) as Ht. fold b in Ht.
      rewrite Hb, Z.bits_0 in Ht. replace (i - j + j) with i in Ht by lia.
      destruct (Z.ltb_spec (i - j) 8); [|lia]. rewrite andb_true_r in Ht. by rewrite <- Ht.
    - rewrite Z.ones_spec_high by lia. apply andb_false_r. }
  destruct (lowest_bit_spec b Hb) as [Hr (_ & Ht & Hl)]. split; [|lia]. split; [lia|].
  replace (lowest_bit b + 1 - 1) with (lowest_bit b) in * by lia.
  replace (lowest_bit b + (j + 1) - 1) with (lowest_bit b + j) by lia. split.
  - unfold b in Ht at 1. rewrite testbit_byte in Ht by lia.
    by apply andb_true_iff in Ht as [? _].
  - intros i Hi. destruct (Z.lt_ge_cases i j); [apply Hlow; lia|].
    specialize (Hl (i - j) ltac:(lia)). unfold b in Hl. rewrite testbit_byte in Hl by lia.
    replace (i - j + j) with i in Hl by lia.
    destruct (Z.ltb_spec (i - j) 8); [|lia]. by rewrite andb_true_r in Hl.
Qed.

(** Every nonzero 32-bit word has its lowest set bit found. *)
Lemma __rt_ffs_spec v : 0 < v < 2 ^ 32 → is_ffs v (__rt_ffs v) ∧ __rt_ffs v <= 32.
Proof.
  intros Hv. unfold __rt_ffs. destruct (Z.eqb_spec v 0); [lia|].
  pose proof (ffs_byte v 0 ltac:(lia)) as B0. rewrite Z.shiftr_0_r in B0.
  pose proof (ffs_byte v 8 ltac:(lia)) as B1.
  pose proof (ffs_byte v 16 ltac:(lia)) as B2.
  pose proof (ffs_byte v 24 ltac:(lia)) as B3.
  change (Z.shiftl 255 0) with 0xff in B0. change (Z.shiftl 255 8) with 0xff00 in B1.
  change (Z.shiftl 255 16) with 0xff0000 in B2.
  change (Z.shiftl 255 24) with 0xff000000 in B3. simpl in *.
  destruct (Z.eqb_spec (Z.land v 0xff) 0) as [E0|E0]; simpl; [|destruct B0; [done|lia|split; [done|lia]]].
  assert (∀ i, 0 <= i < 8 → Z.testbit v i = false) as L0.
  { intros i Hi. apply (mask_zero v 0 i); [lia|done|lia]. }
  destruct (Z.eqb_spec (Z.land v 0xff00) 0) as [E1|E1]; simpl; [|destruct B1; [done..|split; [done|lia]]].
  assert (∀ i, 0 <= i < 16 → Z.testbit v i = false) as L1.
  { intros i Hi. destruct (Z.lt_ge_cases i 8); [apply L0; lia|].
    apply (mask_zero v 8 i); [lia|done|lia]. }
  destruct (Z.eqb_spec (Z.land v 0xff0000) 0) as [E2|E2]; simpl; [|destruct B2; [done..|split; [done|lia]]].
  assert (∀ i, 0 <= i < 24 → Z.testbit v i = false) as L2.
  { intros i Hi. destruct (Z.lt_ge_cases i 16); [apply L1; lia|].
    apply (mask_zero v 16 i); [lia|done|lia]. }
  destruct B3; [|done|split; [done|lia]]. intros E3.
  apply n. apply Z.bits_inj. intros i. rewrite Z.bits_0.
  destruct (Z.lt_ge_cases i 0); [by apply Z.testbit_neg_r|].
  destruct (Z.lt_ge_cases i 24); [by apply L2|].
  destruct (Z.lt_ge_cases i 32); [apply (mask_zero v 24 i); [lia|done|lia]|].
  rewrite <- (Z.mod_small v (2 ^ 32)) by lia. apply Z.mod_pow2_bits_high. lia.
Qed.
