(* ===== verification/Kernel.v ===== *)
(** The kernel's data: the structures of [include/rtdef.h] and the global
    variables of [scheduler.c], [clock.c], [timer.c] and [irq.c], as one record.

    Addresses are symbolic.  A thread, a semaphore, ... is designated by a
    number; a list node by the structure that embeds it, so that [rt_list_entry]
    is the partial inverse of that embedding: applied to the head of a list it
    gives no structure, and the dereference that follows faults.  The base
    structure [struct rt_object] every kernel object starts with is kept apart,
    under [objects], from the fields of the derived structure.

    The configuration is the one of [bsp/same70/rtconfig.h]. *)

From Stdlib Require Import ZArith Lia.
From stdpp Require Import strings base gmap list.
From S2P Require Import Prelude Bytes RtList.
Local Open Scope Z_scope.

(** ** Configuration and constants *)

Definition RT_NAME_MAX : nat := 8.
Definition RT_THREAD_PRIORITY_MAX : Z := 32.
Definition RT_TICK_PER_SECOND : Z := 1000.
Definition RT_TIMER_SKIP_LIST_LEVEL : nat := 1.
Definition RT_TIMER_SKIP_LIST_MASK : Z := 3.

Definition RT_EOK : Z := 0.
Definition RT_ERROR : Z := 1.
Definition RT_ETIMEOUT : Z := 2.
Definition RT_EFULL : Z := 3.
Definition RT_EEMPTY : Z := 4.

Definition RT_Object_Class_Thread : Z := 0.
Definition RT_Object_Class_Semaphore : Z := 1.
Definition RT_Object_Class_Mutex : Z := 2.
Definition RT_Object_Class_Event : Z := 3.
Definition RT_Object_Class_MailBox : Z := 4.
Definition RT_Object_Class_MessageQueue : Z := 5.
Definition RT_Object_Class_MemHeap : Z := 6.
Definition RT_Object_Class_MemPool : Z := 7.
Definition RT_Object_Class_Device : Z := 8.
Definition RT_Object_Class_Timer : Z := 9.
Definition RT_Object_Class_Module : Z := 10.
Definition RT_Object_Class_Unknown : Z := 11.
Definition RT_Object_Class_Static : Z := 0x80.

Definition RT_TIMER_FLAG_ACTIVATED : Z := 1.
Definition RT_TIMER_FLAG_ONE_SHOT : Z := 0.
Definition RT_TIMER_FLAG_PERIODIC : Z := 2.
Definition RT_TIMER_FLAG_SOFT_TIMER : Z := 4.
Definition RT_IPC_FLAG_FIFO : Z := 0.
Definition RT_IPC_FLAG_PRIO : Z := 1.
Definition RT_WAITING_FOREVER : Z := -1.

Definition RT_ALIGN_SIZE : Z := 4.
Definition RT_EVENT_FLAG_AND : Z := 1.
Definition RT_EVENT_FLAG_OR : Z := 2.
Definition RT_EVENT_FLAG_CLEAR : Z := 4.

(** ** Identities *)

(** The built-in timer of a thread, or a timer of its own. *)
Inductive timer_id := T_thread (t : nat) | T_timer (n : nat).

Inductive objid :=
  | O_thread (t : nat) | O_timer (tm : timer_id) | O_sem (s : nat)
  | O_mutex (m : nat) | O_event (e : nat) | O_mb (m : nat) | O_mq (m : nat)
  | O_mp (m : nat) | O_device (d : nat) | O_module (m : nat) | O_memheap (h : nat).

(** The list nodes and list heads of the kernel. *)
Inductive node :=
  | N_ready (p : Z)                          (* &rt_thread_priority_table[p] *)
  | N_defunct                                (* &rt_thread_defunct *)
  | N_tlist (t : nat)                        (* &thread->tlist *)
  | N_timer_list (soft : bool) (lvl : nat)   (* &rt_timer_list[lvl], &rt_soft_timer_list[lvl] *)
  | N_row (tm : timer_id) (lvl : nat)        (* &timer->row[lvl] *)
  | N_suspend (o : objid)                    (* &ipc->suspend_thread *)
  | N_sender (m : nat)                       (* &mb->suspend_sender_thread *)
  | N_container (m : option nat) (c : Z)     (* &rt_object_container[c].object_list, of a module *)
  | N_object (o : objid).                    (* &object->list *)

#[export] Instance timer_id_eq_dec : EqDecision timer_id.
Proof. solve_decision. Defined.
#[export] Instance timer_id_countable : Countable timer_id.
Proof.
  refine (inj_countable'
    (λ x, match x with T_thread t => inl t | T_timer n => inr n end)
    (λ x, match x with inl t => T_thread t | inr n => T_timer n end) _).
  by intros [].
Defined.
#[export] Instance objid_eq_dec : EqDecision objid.
Proof. solve_decision. Defined.
#[export] Instance objid_countable : Countable objid.
Proof.
  refine (inj_countable'
    (λ x, match x with
      | O_thread t => inl (0%nat, t) | O_timer tm => inr tm | O_sem n => inl (1%nat, n)
      | O_mutex n => inl (2%nat, n) | O_event n => inl (3%nat, n) | O_mb n => inl (4%nat, n)
      | O_mq n => inl (5%nat, n) | O_mp n => inl (6%nat, n) | O_device n => inl (7%nat, n)
      | O_module n => inl (8%nat, n) | O_memheap n => inl (9%nat, n) end)
    (λ x, match x with
      | inr tm => O_timer tm | inl (0%nat, t) => O_thread t | inl (1%nat, n) => O_sem n
      | inl (2%nat, n) => O_mutex n | inl (3%nat, n) => O_event n | inl (4%nat, n) => O_mb n
      | inl (5%nat, n) => O_mq n | inl (6%nat, n) => O_mp n | inl (7%nat, n) => O_device n
      | inl (8%nat, n) => O_module n | inl (_, n) => O_memheap n end) _).
  by intros [].
Defined.
#[export] Instance node_eq_dec : EqDecision node.
Proof. solve_decision. Defined.
#[export] Instance node_countable : Countable node.
Proof.
  refine (inj_countable'
    (λ x, match x with
      | N_ready p => inl (inl (inl p)) | N_defunct => inl (inl (inr (inl tt)))
      | N_tlist t => inl (inl (inr (inr t))) | N_timer_list b l => inl (inr (inl (b, l)))
      | N_row tm l => inl (inr (inr (tm, l))) | N_suspend o => inr (inl (inl o))
      | N_sender m => inr (inl (inr m)) | N_container m c => inr (inr (inl (m, c)))
      | N_object o => inr (inr (inr o)) end)
    (λ x, match x with
      | inl (inl (inl p)) => N_ready p | inl (inl (inr (inl _))) => N_defunct
      | inl (inl (inr (inr t))) => N_tlist t | inl (inr (inl (b, l))) => N_timer_list b l
      | inl (inr (inr (tm, l))) => N_row tm l | inr (inl (inl o)) => N_suspend o
      | inr (inl (inr m)) => N_sender m | inr (inr (inl (m, c))) => N_container m c
      | inr (inr (inr o)) => N_object o end) _).
  by intros [].
Defined.

(** [rt_list_entry(n, struct rt_thread, tlist)],
    [rt_list_entry(n, struct rt_timer, row[lvl])] and
    [rt_list_entry(n, struct rt_object, list)]. *)
Definition tlist_entry (n : node) : option nat :=
  match n with N_tlist t => Some t | _ => None end.
Definition row_entry (lvl : nat) (n : node) : option timer_id :=
  match n with
  | N_row tm l => if decide (l = lvl) then Some tm else None
  | _ => None
  end.

Definition object_entry (n : node) : option objid :=
  match n with N_object o => Some o | _ => None end.

(** ** Structures *)

(** The thread states of [rtdef.h]. *)
Inductive thread_stat :=
  | RT_THREAD_INIT | RT_THREAD_READY | RT_THREAD_SUSPEND | RT_THREAD_RUNNING
  | RT_THREAD_CLOSE.
#[export] Instance thread_stat_eq_dec : EqDecision thread_stat.
Proof. solve_decision. Defined.

(** A timer runs [rt_thread_timeout] or a function of the application. *)
Inductive timeout_fn := TF_thread_timeout | TF_user (f : nat).
#[export] Instance timeout_fn_eq_dec : EqDecision timeout_fn.
Proof. solve_decision. Defined.

(** What the kernel asks of the processor port. *)
Inductive hw_event :=
  | HW_switch_to (to : nat)
  | HW_switch (from to : nat)
  | HW_switch_interrupt (from to : nat).

(** [struct rt_object]: the base of every kernel object, without its list node. *)
Record rt_object := mk_object {
  name : string;
  type : Z;
  flag : Z;
  module_id : option nat
}.

(** [struct rt_thread] beyond its base object, its list node and its timer.
    [stack_byte0] is the byte at [stack_addr], the overflow guard. *)
Record rt_thread := mk_thread {
  sp : Z;
  stack_addr : Z;
  stack_size : Z;
  stack_byte0 : Z;
  error : Z;
  stat : thread_stat;
  current_priority : Z;
  init_priority : Z;
  number_mask : Z;
  event_set : Z;
  event_info : Z;
  th_init_tick : Z;
  remaining_tick : Z;
  cleanup : option nat;
  entry : nat;
  parameter : nat;
  user_data : Z
}.

(** [struct rt_timer] beyond its base object and its rows. *)
Record rt_timer := mk_timer {
  timeout_func : timeout_fn;
  tm_parameter : nat;
  init_tick : Z;
  timeout_tick : Z
}.

(** The IPC structures beyond [struct rt_ipc_object]. *)
Record rt_semaphore := mk_semaphore {
  sem_value : Z
}.
Record rt_mutex := mk_mutex {
  mutex_value : Z;
  original_priority : Z;
  hold : Z;
  owner : option nat
}.
Record rt_event := mk_event {
  set : Z
}.
Record rt_mailbox := mk_mailbox {
  msg_pool : list Z;
  mb_size : Z;
  mb_entry : Z;
  in_offset : Z;
  out_offset : Z
}.

(** A message queue; pointers to messages are addresses, 0 is null. *)
Record rt_messagequeue := mk_messagequeue {
  mq_msg_pool : Z;
  mq_msg_size : Z;
  max_msgs : Z;
  mq_entry : Z;
  msg_queue_head : Z;
  msg_queue_tail : Z;
  msg_queue_free : Z
}.

(** [struct rt_mq_message]: the link, and the bytes that follow it. *)
Record mq_message := mk_message {
  msg_next : Z;
  msg_data : list Z
}.

(** A memory pool, and the header word of its blocks: the next free block while
    the block is free, the pool it belongs to while it is allocated. *)
Record rt_mempool := mk_mempool {
  mp_start_address : Z;
  mp_size : Z;
  mp_block_size : Z;
  block_list : Z;
  block_total_count : Z;
  block_free_count : Z;
  suspend_thread_count : Z
}.
Inductive mp_word := W_next (a : Z) | W_pool (m : nat).

(** [struct rt_memheap] beyond its base object, its lock, and [free_header], which is a
    structure in memory. *)
Record rt_memheap := mk_memheap {
  start_addr : Z;
  pool_size : Z;
  available_size : Z;
  max_used_size : Z;
  mh_block_list : Z;
  free_list : Z
}.

(** The allocators: the static variables of [mem.c], the memory heaps by address, and the
    memory that all of them manage. *)
Record small_mem := mk_small_mem {
  heap_ptr : Z;
  heap_end : Z;
  lfree : Z;
  mem_size_aligned : Z;
  used_mem : Z;
  max_mem : Z;
  memheaps : gmap Z rt_memheap;
  mem_bytes : ram
}.

(** What the kernel uses of an application module: its main thread and its references. *)
Record rt_module := mk_module {
  module_thread : option nat;
  nref : Z
}.

(** [struct rt_device] beyond its base object; the functions of the driver are parameters
    of the model, the callbacks of the application are designated by numbers. *)
Record rt_device := mk_device {
  dev_flag : Z;
  open_flag : Z;
  ref_count : Z;
  rx_indicate : option nat;
  tx_complete : option nat
}.

(** The kernel's memory. *)
Record kernel := mk_kernel {
  heap : lheap node;
  objects : gmap objid rt_object;
  threads : gmap nat rt_thread;
  timers : gmap timer_id rt_timer;
  sems : gmap nat rt_semaphore;
  mutexes : gmap nat rt_mutex;
  events : gmap nat rt_event;
  mailboxes : gmap nat rt_mailbox;
  mqs : gmap nat rt_messagequeue;
  mq_mem : gmap Z mq_message;
  mempools : gmap nat rt_mempool;
  mp_mem : gmap Z mp_word;
  rt_current_thread : option nat;
  rt_current_priority : Z;
  rt_thread_ready_priority_group : Z;
  rt_scheduler_lock_nest : Z;
  rt_interrupt_nest : Z;
  rt_tick : Z;
  random_nr : Z;
  errno : Z;
  sysmem : small_mem;
  modules : gmap nat rt_module;
  devices : gmap nat rt_device;
  hw_log : list hw_event
}.

(** ** Field updates *)

Definition set_name (v : string) (o : rt_object) : rt_object :=
  mk_object v (o.(type)) (o.(flag)) (o.(module_id)).
Definition set_type (v : Z) (o : rt_object) : rt_object :=
  mk_object (o.(name)) v (o.(flag)) (o.(module_id)).
Definition set_flag (v : Z) (o : rt_object) : rt_object :=
  mk_object (o.(name)) (o.(type)) v (o.(module_id)).
Definition set_module_id (v : option nat) (o : rt_object) : rt_object :=
  mk_object (o.(name)) (o.(type)) (o.(flag)) v.
Definition set_sp (v : Z) (t : rt_thread) : rt_thread :=
  mk_thread v (t.(stack_addr)) (t.(stack_size)) (t.(stack_byte0)) (t.(error))
    (t.(stat)) (t.(current_priority)) (t.(init_priority)) (t.(number_mask))
    (t.(event_set)) (t.(event_info)) (t.(th_init_tick)) (t.(remaining_tick))
    (t.(cleanup)) (t.(entry)) (t.(parameter)) (t.(user_data)).
Definition set_stack_addr (v : Z) (t : rt_thread) : rt_thread :=
  mk_thread (t.(sp)) v (t.(stack_size)) (t.(stack_byte0)) (t.(error)) (t.(stat))
    (t.(current_priority)) (t.(init_priority)) (t.(number_mask)) (t.(event_set))
    (t.(event_info)) (t.(th_init_tick)) (t.(remaining_tick)) (t.(cleanup)) (t.(entry))
    (t.(parameter)) (t.(user_data)).
Definition set_stack_size (v : Z) (t : rt_thread) : rt_thread :=
  mk_thread (t.(sp)) (t.(stack_addr)) v (t.(stack_byte0)) (t.(error)) (t.(stat))
    (t.(current_priority)) (t.(init_priority)) (t.(number_mask)) (t.(event_set))
    (t.(event_info)) (t.(th_init_tick)) (t.(remaining_tick)) (t.(cleanup)) (t.(entry))
    (t.(parameter)) (t.(user_data)).
Definition set_stack_byte0 (v : Z) (t : rt_thread) : rt_thread :=
  mk_thread (t.(sp)) (t.(stack_addr)) (t.(stack_size)) v (t.(error)) (t.(stat))
    (t.(current_priority)) (t.(init_priority)) (t.(number_mask)) (t.(event_set))
    (t.(event_info)) (t.(th_init_tick)) (t.(remaining_tick)) (t.(cleanup)) (t.(entry))
    (t.(parameter)) (t.(user_data)).
Definition set_error (v : Z) (t : rt_thread) : rt_thread :=
  mk_thread (t.(sp)) (t.(stack_addr)) (t.(stack_size)) (t.(stack_byte0)) v (t.(stat))
    (t.(current_priority)) (t.(init_priority)) (t.(number_mask)) (t.(event_set))
    (t.(event_info)) (t.(th_init_tick)) (t.(remaining_tick)) (t.(cleanup)) (t.(entry))
    (t.(parameter)) (t.(user_data)).
Definition set_stat (v : thread_stat) (t : rt_thread) : rt_thread :=
  mk_thread (t.(sp)) (t.(stack_addr)) (t.(stack_size)) (t.(stack_byte0)) (t.(error)) v
    (t.(current_priority)) (t.(init_priority)) (t.(number_mask)) (t.(event_set))
    (t.(event_info)) (t.(th_init_tick)) (t.(remaining_tick)) (t.(cleanup)) (t.(entry))
    (t.(parameter)) (t.(user_data)).
Definition set_current_priority (v : Z) (t : rt_thread) : rt_thread :=
  mk_thread (t.(sp)) (t.(stack_addr)) (t.(stack_size)) (t.(stack_byte0)) (t.(error))
    (t.(stat)) v (t.(init_priority)) (t.(number_mask)) (t.(event_set)) (t.(event_info))
    (t.(th_init_tick)) (t.(remaining_tick)) (t.(cleanup)) (t.(entry)) (t.(parameter))
    (t.(user_data)).
Definition set_init_priority (v : Z) (t : rt_thread) : rt_thread :=
  mk_thread (t.(sp)) (t.(stack_addr)) (t.(stack_size)) (t.(stack_byte0)) (t.(error))
    (t.(stat)) (t.(current_priority)) v (t.(number_mask)) (t.(event_set))
    (t.(event_info)) (t.(th_init_tick)) (t.(remaining_tick)) (t.(cleanup)) (t.(entry))
    (t.(parameter)) (t.(user_data)).
Definition set_number_mask (v : Z) (t : rt_thread) : rt_thread :=
  mk_thread (t.(sp)) (t.(stack_addr)) (t.(stack_size)) (t.(stack_byte0)) (t.(error))
    (t.(stat)) (t.(current_priority)) (t.(init_priority)) v (t.(event_set))
    (t.(event_info)) (t.(th_init_tick)) (t.(remaining_tick)) (t.(cleanup)) (t.(entry))
    (t.(parameter)) (t.(user_data)).
Definition set_event_set (v : Z) (t : rt_thread) : rt_thread :=
  mk_thread (t.(sp)) (t.(stack_addr)) (t.(stack_size)) (t.(stack_byte0)) (t.(error))
    (t.(stat)) (t.(current_priority)) (t.(init_priority)) (t.(number_mask)) v
    (t.(event_info)) (t.(th_init_tick)) (t.(remaining_tick)) (t.(cleanup)) (t.(entry))
    (t.(parameter)) (t.(user_data)).
Definition set_event_info (v : Z) (t : rt_thread) : rt_thread :=
  mk_thread (t.(sp)) (t.(stack_addr)) (t.(stack_size)) (t.(stack_byte0)) (t.(error))
    (t.(stat)) (t.(current_priority)) (t.(init_priority)) (t.(number_mask))
    (t.(event_set)) v (t.(th_init_tick)) (t.(remaining_tick)) (t.(cleanup)) (t.(entry))
    (t.(parameter)) (t.(user_data)).
Definition set_th_init_tick (v : Z) (t : rt_thread) : rt_thread :=
  mk_thread (t.(sp)) (t.(stack_addr)) (t.(stack_size)) (t.(stack_byte0)) (t.(error))
    (t.(stat)) (t.(current_priority)) (t.(init_priority)) (t.(number_mask))
    (t.(event_set)) (t.(event_info)) v (t.(remaining_tick)) (t.(cleanup)) (t.(entry))
    (t.(parameter)) (t.(user_data)).
Definition set_remaining_tick (v : Z) (t : rt_thread) : rt_thread :=
  mk_thread (t.(sp)) (t.(stack_addr)) (t.(stack_size)) (t.(stack_byte0)) (t.(error))
    (t.(stat)) (t.(current_priority)) (t.(init_priority)) (t.(number_mask))
    (t.(event_set)) (t.(event_info)) (t.(th_init_tick)) v (t.(cleanup)) (t.(entry))
    (t.(parameter)) (t.(user_data)).
Definition set_cleanup (v : option nat) (t : rt_thread) : rt_thread :=
  mk_thread (t.(sp)) (t.(stack_addr)) (t.(stack_size)) (t.(stack_byte0)) (t.(error))
    (t.(stat)) (t.(current_priority)) (t.(init_priority)) (t.(number_mask))
    (t.(event_set)) (t.(event_info)) (t.(th_init_tick)) (t.(remaining_tick)) v
    (t.(entry)) (t.(parameter)) (t.(user_data)).
Definition set_entry (v : nat) (t : rt_thread) : rt_thread :=
  mk_thread (t.(sp)) (t.(stack_addr)) (t.(stack_size)) (t.(stack_byte0)) (t.(error))
    (t.(stat)) (t.(current_priority)) (t.(init_priority)) (t.(number_mask))
    (t.(event_set)) (t.(event_info)) (t.(th_init_tick)) (t.(remaining_tick))
    (t.(cleanup)) v (t.(parameter)) (t.(user_data)).
Definition set_parameter (v : nat) (t : rt_thread) : rt_thread :=
  mk_thread (t.(sp)) (t.(stack_addr)) (t.(stack_size)) (t.(stack_byte0)) (t.(error))
    (t.(stat)) (t.(current_priority)) (t.(init_priority)) (t.(number_mask))
    (t.(event_set)) (t.(event_info)) (t.(th_init_tick)) (t.(remaining_tick))
    (t.(cleanup)) (t.(entry)) v (t.(user_data)).
Definition set_user_data (v : Z) (t : rt_thread) : rt_thread :=
  mk_thread (t.(sp)) (t.(stack_addr)) (t.(stack_size)) (t.(stack_byte0)) (t.(error))
    (t.(stat)) (t.(current_priority)) (t.(init_priority)) (t.(number_mask))
    (t.(event_set)) (t.(event_info)) (t.(th_init_tick)) (t.(remaining_tick))
    (t.(cleanup)) (t.(entry)) (t.(parameter)) v.
Definition set_timeout_func (v : timeout_fn) (t : rt_timer) : rt_timer :=
  mk_timer v (t.(tm_parameter)) (t.(init_tick)) (t.(timeout_tick)).
Definition set_tm_parameter (v : nat) (t : rt_timer) : rt_timer :=
  mk_timer (t.(timeout_func)) v (t.(init_tick)) (t.(timeout_tick)).
Definition set_init_tick (v : Z) (t : rt_timer) : rt_timer :=
  mk_timer (t.(timeout_func)) (t.(tm_parameter)) v (t.(timeout_tick)).
Definition set_timeout_tick (v : Z) (t : rt_timer) : rt_timer :=
  mk_timer (t.(timeout_func)) (t.(tm_parameter)) (t.(init_tick)) v.
Definition set_mutex_value (v : Z) (m : rt_mutex) : rt_mutex :=
  mk_mutex v (m.(original_priority)) (m.(hold)) (m.(owner)).
Definition set_original_priority (v : Z) (m : rt_mutex) : rt_mutex :=
  mk_mutex (m.(mutex_value)) v (m.(hold)) (m.(owner)).
Definition set_hold (v : Z) (m : rt_mutex) : rt_mutex :=
  mk_mutex (m.(mutex_value)) (m.(original_priority)) v (m.(owner)).
Definition set_owner (v : option nat) (m : rt_mutex) : rt_mutex :=
  mk_mutex (m.(mutex_value)) (m.(original_priority)) (m.(hold)) v.
Definition set_msg_pool (v : list Z) (m : rt_mailbox) : rt_mailbox :=
  mk_mailbox v (m.(mb_size)) (m.(mb_entry)) (m.(in_offset)) (m.(out_offset)).
Definition set_mb_size (v : Z) (m : rt_mailbox) : rt_mailbox :=
  mk_mailbox (m.(msg_pool)) v (m.(mb_entry)) (m.(in_offset)) (m.(out_offset)).
Definition set_mb_entry (v : Z) (m : rt_mailbox) : rt_mailbox :=
  mk_mailbox (m.(msg_pool)) (m.(mb_size)) v (m.(in_offset)) (m.(out_offset)).
Definition set_in_offset (v : Z) (m : rt_mailbox) : rt_mailbox :=
  mk_mailbox (m.(msg_pool)) (m.(mb_size)) (m.(mb_entry)) v (m.(out_offset)).
Definition set_out_offset (v : Z) (m : rt_mailbox) : rt_mailbox :=
  mk_mailbox (m.(msg_pool)) (m.(mb_size)) (m.(mb_entry)) (m.(in_offset)) v.
Definition set_mq_msg_pool (v : Z) (q : rt_messagequeue) : rt_messagequeue :=
  mk_messagequeue v (q.(mq_msg_size)) (q.(max_msgs)) (q.(mq_entry))
    (q.(msg_queue_head)) (q.(msg_queue_tail)) (q.(msg_queue_free)).
Definition set_mq_msg_size (v : Z) (q : rt_messagequeue) : rt_messagequeue :=
  mk_messagequeue (q.(mq_msg_pool)) v (q.(max_msgs)) (q.(mq_entry))
    (q.(msg_queue_head)) (q.(msg_queue_tail)) (q.(msg_queue_free)).
Definition set_max_msgs (v : Z) (q : rt_messagequeue) : rt_messagequeue :=
  mk_messagequeue (q.(mq_msg_pool)) (q.(mq_msg_size)) v (q.(mq_entry))
    (q.(msg_queue_head)) (q.(msg_queue_tail)) (q.(msg_queue_free)).
Definition set_mq_entry (v : Z) (q : rt_messagequeue) : rt_messagequeue :=
  mk_messagequeue (q.(mq_msg_pool)) (q.(mq_msg_size)) (q.(max_msgs)) v
    (q.(msg_queue_head)) (q.(msg_queue_tail)) (q.(msg_queue_free)).
Definition set_msg_queue_head (v : Z) (q : rt_messagequeue) : rt_messagequeue :=
  mk_messagequeue (q.(mq_msg_pool)) (q.(mq_msg_size)) (q.(max_msgs)) (q.(mq_entry)) v
    (q.(msg_queue_tail)) (q.(msg_queue_free)).
Definition set_msg_queue_tail (v : Z) (q : rt_messagequeue) : rt_messagequeue :=
  mk_messagequeue (q.(mq_msg_pool)) (q.(mq_msg_size)) (q.(max_msgs)) (q.(mq_entry))
    (q.(msg_queue_head)) v (q.(msg_queue_free)).
Definition set_msg_queue_free (v : Z) (q : rt_messagequeue) : rt_messagequeue :=
  mk_messagequeue (q.(mq_msg_pool)) (q.(mq_msg_size)) (q.(max_msgs)) (q.(mq_entry))
    (q.(msg_queue_head)) (q.(msg_queue_tail)) v.
Definition set_msg_next (v : Z) (m : mq_message) : mq_message :=
  mk_message v (m.(msg_data)).
Definition set_msg_data (v : list Z) (m : mq_message) : mq_message :=
  mk_message (m.(msg_next)) v.
Definition set_mp_start_address (v : Z) (p : rt_mempool) : rt_mempool :=
  mk_mempool v (p.(mp_size)) (p.(mp_block_size)) (p.(block_list))
    (p.(block_total_count)) (p.(block_free_count)) (p.(suspend_thread_count)).
Definition set_mp_size (v : Z) (p : rt_mempool) : rt_mempool :=
  mk_mempool (p.(mp_start_address)) v (p.(mp_block_size)) (p.(block_list))
    (p.(block_total_count)) (p.(block_free_count)) (p.(suspend_thread_count)).
Definition set_mp_block_size (v : Z) (p : rt_mempool) : rt_mempool :=
  mk_mempool (p.(mp_start_address)) (p.(mp_size)) v (p.(block_list))
    (p.(block_total_count)) (p.(block_free_count)) (p.(suspend_thread_count)).
Definition set_block_list (v : Z) (p : rt_mempool) : rt_mempool :=
  mk_mempool (p.(mp_start_address)) (p.(mp_size)) (p.(mp_block_size)) v
    (p.(block_total_count)) (p.(block_free_count)) (p.(suspend_thread_count)).
Definition set_block_total_count (v : Z) (p : rt_mempool) : rt_mempool :=
  mk_mempool (p.(mp_start_address)) (p.(mp_size)) (p.(mp_block_size)) (p.(block_list))
    v (p.(block_free_count)) (p.(suspend_thread_count)).
Definition set_block_free_count (v : Z) (p : rt_mempool) : rt_mempool :=
  mk_mempool (p.(mp_start_address)) (p.(mp_size)) (p.(mp_block_size)) (p.(block_list))
    (p.(block_total_count)) v (p.(suspend_thread_count)).
Definition set_suspend_thread_count (v : Z) (p : rt_mempool) : rt_mempool :=
  mk_mempool (p.(mp_start_address)) (p.(mp_size)) (p.(mp_block_size)) (p.(block_list))
    (p.(block_total_count)) (p.(block_free_count)) v.
Definition set_heap_ptr (v : Z) (h : small_mem) : small_mem :=
  mk_small_mem v (h.(heap_end)) (h.(lfree)) (h.(mem_size_aligned)) (h.(used_mem))
    (h.(max_mem)) (h.(memheaps)) (h.(mem_bytes)).
Definition set_heap_end (v : Z) (h : small_mem) : small_mem :=
  mk_small_mem (h.(heap_ptr)) v (h.(lfree)) (h.(mem_size_aligned)) (h.(used_mem))
    (h.(max_mem)) (h.(memheaps)) (h.(mem_bytes)).
Definition set_lfree (v : Z) (h : small_mem) : small_mem :=
  mk_small_mem (h.(heap_ptr)) (h.(heap_end)) v (h.(mem_size_aligned)) (h.(used_mem))
    (h.(max_mem)) (h.(memheaps)) (h.(mem_bytes)).
Definition set_mem_size_aligned (v : Z) (h : small_mem) : small_mem :=
  mk_small_mem (h.(heap_ptr)) (h.(heap_end)) (h.(lfree)) v (h.(used_mem)) (h.(max_mem))
    (h.(memheaps)) (h.(mem_bytes)).
Definition set_used_mem (v : Z) (h : small_mem) : small_mem :=
  mk_small_mem (h.(heap_ptr)) (h.(heap_end)) (h.(lfree)) (h.(mem_size_aligned)) v
    (h.(max_mem)) (h.(memheaps)) (h.(mem_bytes)).
Definition set_max_mem (v : Z) (h : small_mem) : small_mem :=
  mk_small_mem (h.(heap_ptr)) (h.(heap_end)) (h.(lfree)) (h.(mem_size_aligned))
    (h.(used_mem)) v (h.(memheaps)) (h.(mem_bytes)).
Definition set_mem_bytes (v : ram) (h : small_mem) : small_mem :=
  mk_small_mem (h.(heap_ptr)) (h.(heap_end)) (h.(lfree)) (h.(mem_size_aligned))
    (h.(used_mem)) (h.(max_mem)) (h.(memheaps)) v.
Definition set_memheaps (v : gmap Z rt_memheap) (h : small_mem) : small_mem :=
  mk_small_mem (h.(heap_ptr)) (h.(heap_end)) (h.(lfree)) (h.(mem_size_aligned))
    (h.(used_mem)) (h.(max_mem)) v (h.(mem_bytes)).
Definition set_available_size (v : Z) (x : rt_memheap) : rt_memheap :=
  mk_memheap (x.(start_addr)) (x.(pool_size)) v (x.(max_used_size)) (x.(mh_block_list))
    (x.(free_list)).
Definition set_max_used_size (v : Z) (x : rt_memheap) : rt_memheap :=
  mk_memheap (x.(start_addr)) (x.(pool_size)) (x.(available_size)) v (x.(mh_block_list))
    (x.(free_list)).
Definition set_module_thread (v : option nat) (m : rt_module) : rt_module :=
  mk_module v (m.(nref)).
Definition set_nref (v : Z) (m : rt_module) : rt_module :=
  mk_module (m.(module_thread)) v.
Definition set_dev_flag (v : Z) (d : rt_device) : rt_device :=
  mk_device v (d.(open_flag)) (d.(ref_count)) (d.(rx_indicate)) (d.(tx_complete)).
Definition set_open_flag (v : Z) (d : rt_device) : rt_device :=
  mk_device (d.(dev_flag)) v (d.(ref_count)) (d.(rx_indicate)) (d.(tx_complete)).
Definition set_ref_count (v : Z) (d : rt_device) : rt_device :=
  mk_device (d.(dev_flag)) (d.(open_flag)) v (d.(rx_indicate)) (d.(tx_complete)).
Definition set_rx_indicate (v : option nat) (d : rt_device) : rt_device :=
  mk_device (d.(dev_flag)) (d.(open_flag)) (d.(ref_count)) v (d.(tx_complete)).
Definition set_tx_complete (v : option nat) (d : rt_device) : rt_device :=
  mk_device (d.(dev_flag)) (d.(open_flag)) (d.(ref_count)) (d.(rx_indicate)) v.
Definition set_heap (v : lheap node) (k : kernel) : kernel :=
  mk_kernel v (k.(objects)) (k.(threads)) (k.(timers)) (k.(sems)) (k.(mutexes))
    (k.(events)) (k.(mailboxes)) (k.(mqs)) (k.(mq_mem)) (k.(mempools)) (k.(mp_mem))
    (k.(rt_current_thread)) (k.(rt_current_priority))
    (k.(rt_thread_ready_priority_group)) (k.(rt_scheduler_lock_nest))
    (k.(rt_interrupt_nest)) (k.(rt_tick)) (k.(random_nr)) (k.(errno)) (k.(sysmem))
    (k.(modules)) (k.(devices)) (k.(hw_log)).
Definition set_objects (v : gmap objid rt_object) (k : kernel) : kernel :=
  mk_kernel (k.(heap)) v (k.(threads)) (k.(timers)) (k.(sems)) (k.(mutexes))
    (k.(events)) (k.(mailboxes)) (k.(mqs)) (k.(mq_mem)) (k.(mempools)) (k.(mp_mem))
    (k.(rt_current_thread)) (k.(rt_current_priority))
    (k.(rt_thread_ready_priority_group)) (k.(rt_scheduler_lock_nest))
    (k.(rt_interrupt_nest)) (k.(rt_tick)) (k.(random_nr)) (k.(errno)) (k.(sysmem))
    (k.(modules)) (k.(devices)) (k.(hw_log)).
Definition set_threads (v : gmap nat rt_thread) (k : kernel) : kernel :=
  mk_kernel (k.(heap)) (k.(objects)) v (k.(timers)) (k.(sems)) (k.(mutexes))
    (k.(events)) (k.(mailboxes)) (k.(mqs)) (k.(mq_mem)) (k.(mempools)) (k.(mp_mem))
    (k.(rt_current_thread)) (k.(rt_current_priority))
    (k.(rt_thread_ready_priority_group)) (k.(rt_scheduler_lock_nest))
    (k.(rt_interrupt_nest)) (k.(rt_tick)) (k.(random_nr)) (k.(errno)) (k.(sysmem))
    (k.(modules)) (k.(devices)) (k.(hw_log)).
Definition set_timers (v : gmap timer_id rt_timer) (k : kernel) : kernel :=
  mk_kernel (k.(heap)) (k.(objects)) (k.(threads)) v (k.(sems)) (k.(mutexes))
    (k.(events)) (k.(mailboxes)) (k.(mqs)) (k.(mq_mem)) (k.(mempools)) (k.(mp_mem))
    (k.(rt_current_thread)) (k.(rt_current_priority))
    (k.(rt_thread_ready_priority_group)) (k.(rt_scheduler_lock_nest))
    (k.(rt_interrupt_nest)) (k.(rt_tick)) (k.(random_nr)) (k.(errno)) (k.(sysmem))
    (k.(modules)) (k.(devices)) (k.(hw_log)).
Definition set_sems (v : gmap nat rt_semaphore) (k : kernel) : kernel :=
  mk_kernel (k.(heap)) (k.(objects)) (k.(threads)) (k.(timers)) v (k.(mutexes))
    (k.(events)) (k.(mailboxes)) (k.(mqs)) (k.(mq_mem)) (k.(mempools)) (k.(mp_mem))
    (k.(rt_current_thread)) (k.(rt_current_priority))
    (k.(rt_thread_ready_priority_group)) (k.(rt_scheduler_lock_nest))
    (k.(rt_interrupt_nest)) (k.(rt_tick)) (k.(random_nr)) (k.(errno)) (k.(sysmem))
    (k.(modules)) (k.(devices)) (k.(hw_log)).
Definition set_mutexes (v : gmap nat rt_mutex) (k : kernel) : kernel :=
  mk_kernel (k.(heap)) (k.(objects)) (k.(threads)) (k.(timers)) (k.(sems)) v
    (k.(events)) (k.(mailboxes)) (k.(mqs)) (k.(mq_mem)) (k.(mempools)) (k.(mp_mem))
    (k.(rt_current_thread)) (k.(rt_current_priority))
    (k.(rt_thread_ready_priority_group)) (k.(rt_scheduler_lock_nest))
    (k.(rt_interrupt_nest)) (k.(rt_tick)) (k.(random_nr)) (k.(errno)) (k.(sysmem))
    (k.(modules)) (k.(devices)) (k.(hw_log)).
Definition set_events (v : gmap nat rt_event) (k : kernel) : kernel :=
  mk_kernel (k.(heap)) (k.(objects)) (k.(threads)) (k.(timers)) (k.(sems))
    (k.(mutexes)) v (k.(mailboxes)) (k.(mqs)) (k.(mq_mem)) (k.(mempools)) (k.(mp_mem))
    (k.(rt_current_thread)) (k.(rt_current_priority))
    (k.(rt_thread_ready_priority_group)) (k.(rt_scheduler_lock_nest))
    (k.(rt_interrupt_nest)) (k.(rt_tick)) (k.(random_nr)) (k.(errno)) (k.(sysmem))
    (k.(modules)) (k.(devices)) (k.(hw_log)).
Definition set_mailboxes (v : gmap nat rt_mailbox) (k : kernel) : kernel :=
  mk_kernel (k.(heap)) (k.(objects)) (k.(threads)) (k.(timers)) (k.(sems))
    (k.(mutexes)) (k.(events)) v (k.(mqs)) (k.(mq_mem)) (k.(mempools)) (k.(mp_mem))
    (k.(rt_current_thread)) (k.(rt_current_priority))
    (k.(rt_thread_ready_priority_group)) (k.(rt_scheduler_lock_nest))
    (k.(rt_interrupt_nest)) (k.(rt_tick)) (k.(random_nr)) (k.(errno)) (k.(sysmem))
    (k.(modules)) (k.(devices)) (k.(hw_log)).
Definition set_mqs (v : gmap nat rt_messagequeue) (k : kernel) : kernel :=
  mk_kernel (k.(heap)) (k.(objects)) (k.(threads)) (k.(timers)) (k.(sems))
    (k.(mutexes)) (k.(events)) (k.(mailboxes)) v (k.(mq_mem)) (k.(mempools))
    (k.(mp_mem)) (k.(rt_current_thread)) (k.(rt_current_priority))
    (k.(rt_thread_ready_priority_group)) (k.(rt_scheduler_lock_nest))
    (k.(rt_interrupt_nest)) (k.(rt_tick)) (k.(random_nr)) (k.(errno)) (k.(sysmem))
    (k.(modules)) (k.(devices)) (k.(hw_log)).
Definition set_mq_mem (v : gmap Z mq_message) (k : kernel) : kernel :=
  mk_kernel (k.(heap)) (k.(objects)) (k.(threads)) (k.(timers)) (k.(sems))
    (k.(mutexes)) (k.(events)) (k.(mailboxes)) (k.(mqs)) v (k.(mempools)) (k.(mp_mem))
    (k.(rt_current_thread)) (k.(rt_current_priority))
    (k.(rt_thread_ready_priority_group)) (k.(rt_scheduler_lock_nest))
    (k.(rt_interrupt_nest)) (k.(rt_tick)) (k.(random_nr)) (k.(errno)) (k.(sysmem))
    (k.(modules)) (k.(devices)) (k.(hw_log)).
Definition set_mempools (v : gmap nat rt_mempool) (k : kernel) : kernel :=
  mk_kernel (k.(heap)) (k.(objects)) (k.(threads)) (k.(timers)) (k.(sems))
    (k.(mutexes)) (k.(events)) (k.(mailboxes)) (k.(mqs)) (k.(mq_mem)) v (k.(mp_mem))
    (k.(rt_current_thread)) (k.(rt_current_priority))
    (k.(rt_thread_ready_priority_group)) (k.(rt_scheduler_lock_nest))
    (k.(rt_interrupt_nest)) (k.(rt_tick)) (k.(random_nr)) (k.(errno)) (k.(sysmem))
    (k.(modules)) (k.(devices)) (k.(hw_log)).
Definition set_mp_mem (v : gmap Z mp_word) (k : kernel) : kernel :=
  mk_kernel (k.(heap)) (k.(objects)) (k.(threads)) (k.(timers)) (k.(sems))
    (k.(mutexes)) (k.(events)) (k.(mailboxes)) (k.(mqs)) (k.(mq_mem)) (k.(mempools)) v
    (k.(rt_current_thread)) (k.(rt_current_priority))
    (k.(rt_thread_ready_priority_group)) (k.(rt_scheduler_lock_nest))
    (k.(rt_interrupt_nest)) (k.(rt_tick)) (k.(random_nr)) (k.(errno)) (k.(sysmem))
    (k.(modules)) (k.(devices)) (k.(hw_log)).
Definition set_rt_current_thread (v : option nat) (k : kernel) : kernel :=
  mk_kernel (k.(heap)) (k.(objects)) (k.(threads)) (k.(timers)) (k.(sems))
    (k.(mutexes)) (k.(events)) (k.(mailboxes)) (k.(mqs)) (k.(mq_mem)) (k.(mempools))
    (k.(mp_mem)) v (k.(rt_current_priority)) (k.(rt_thread_ready_priority_group))
    (k.(rt_scheduler_lock_nest)) (k.(rt_interrupt_nest)) (k.(rt_tick)) (k.(random_nr))
    (k.(errno)) (k.(sysmem)) (k.(modules)) (k.(devices)) (k.(hw_log)).
Definition set_rt_current_priority (v : Z) (k : kernel) : kernel :=
  mk_kernel (k.(heap)) (k.(objects)) (k.(threads)) (k.(timers)) (k.(sems))
    (k.(mutexes)) (k.(events)) (k.(mailboxes)) (k.(mqs)) (k.(mq_mem)) (k.(mempools))
    (k.(mp_mem)) (k.(rt_current_thread)) v (k.(rt_thread_ready_priority_group))
    (k.(rt_scheduler_lock_nest)) (k.(rt_interrupt_nest)) (k.(rt_tick)) (k.(random_nr))
    (k.(errno)) (k.(sysmem)) (k.(modules)) (k.(devices)) (k.(hw_log)).
Definition set_rt_thread_ready_priority_group (v : Z) (k : kernel) : kernel :=
  mk_kernel (k.(heap)) (k.(objects)) (k.(threads)) (k.(timers)) (k.(sems))
    (k.(mutexes)) (k.(events)) (k.(mailboxes)) (k.(mqs)) (k.(mq_mem)) (k.(mempools))
    (k.(mp_mem)) (k.(rt_current_thread)) (k.(rt_current_priority)) v
    (k.(rt_scheduler_lock_nest)) (k.(rt_interrupt_nest)) (k.(rt_tick)) (k.(random_nr))
    (k.(errno)) (k.(sysmem)) (k.(modules)) (k.(devices)) (k.(hw_log)).
Definition set_rt_scheduler_lock_nest (v : Z) (k : kernel) : kernel :=
  mk_kernel (k.(heap)) (k.(objects)) (k.(threads)) (k.(timers)) (k.(sems))
    (k.(mutexes)) (k.(events)) (k.(mailboxes)) (k.(mqs)) (k.(mq_mem)) (k.(mempools))
    (k.(mp_mem)) (k.(rt_current_thread)) (k.(rt_current_priority))
    (k.(rt_thread_ready_priority_group)) v (k.(rt_interrupt_nest)) (k.(rt_tick))
    (k.(random_nr)) (k.(errno)) (k.(sysmem)) (k.(modules)) (k.(devices)) (k.(hw_log)).
Definition set_rt_interrupt_nest (v : Z) (k : kernel) : kernel :=
  mk_kernel (k.(heap)) (k.(objects)) (k.(threads)) (k.(timers)) (k.(sems))
    (k.(mutexes)) (k.(events)) (k.(mailboxes)) (k.(mqs)) (k.(mq_mem)) (k.(mempools))
    (k.(mp_mem)) (k.(rt_current_thread)) (k.(rt_current_priority))
    (k.(rt_thread_ready_priority_group)) (k.(rt_scheduler_lock_nest)) v (k.(rt_tick))
    (k.(random_nr)) (k.(errno)) (k.(sysmem)) (k.(modules)) (k.(devices)) (k.(hw_log)).
Definition set_rt_tick (v : Z) (k : kernel) : kernel :=
  mk_kernel (k.(heap)) (k.(objects)) (k.(threads)) (k.(timers)) (k.(sems))
    (k.(mutexes)) (k.(events)) (k.(mailboxes)) (k.(mqs)) (k.(mq_mem)) (k.(mempools))
    (k.(mp_mem)) (k.(rt_current_thread)) (k.(rt_current_priority))
    (k.(rt_thread_ready_priority_group)) (k.(rt_scheduler_lock_nest))
    (k.(rt_interrupt_nest)) v (k.(random_nr)) (k.(errno)) (k.(sysmem)) (k.(modules))
    (k.(devices)) (k.(hw_log)).
Definition set_random_nr (v : Z) (k : kernel) : kernel :=
  mk_kernel (k.(heap)) (k.(objects)) (k.(threads)) (k.(timers)) (k.(sems))
    (k.(mutexes)) (k.(events)) (k.(mailboxes)) (k.(mqs)) (k.(mq_mem)) (k.(mempools))
    (k.(mp_mem)) (k.(rt_current_thread)) (k.(rt_current_priority))
    (k.(rt_thread_ready_priority_group)) (k.(rt_scheduler_lock_nest))
    (k.(rt_interrupt_nest)) (k.(rt_tick)) v (k.(errno)) (k.(sysmem)) (k.(modules))
    (k.(devices)) (k.(hw_log)).
Definition set_errno (v : Z) (k : kernel) : kernel :=
  mk_kernel (k.(heap)) (k.(objects)) (k.(threads)) (k.(timers)) (k.(sems))
    (k.(mutexes)) (k.(events)) (k.(mailboxes)) (k.(mqs)) (k.(mq_mem)) (k.(mempools))
    (k.(mp_mem)) (k.(rt_current_thread)) (k.(rt_current_priority))
    (k.(rt_thread_ready_priority_group)) (k.(rt_scheduler_lock_nest))
    (k.(rt_interrupt_nest)) (k.(rt_tick)) (k.(random_nr)) v (k.(sysmem)) (k.(modules))
    (k.(devices)) (k.(hw_log)).
Definition set_sysmem (v : small_mem) (k : kernel) : kernel :=
  mk_kernel (k.(heap)) (k.(objects)) (k.(threads)) (k.(timers)) (k.(sems))
    (k.(mutexes)) (k.(events)) (k.(mailboxes)) (k.(mqs)) (k.(mq_mem)) (k.(mempools))
    (k.(mp_mem)) (k.(rt_current_thread)) (k.(rt_current_priority))
    (k.(rt_thread_ready_priority_group)) (k.(rt_scheduler_lock_nest))
    (k.(rt_interrupt_nest)) (k.(rt_tick)) (k.(random_nr)) (k.(errno)) v (k.(modules))
    (k.(devices)) (k.(hw_log)).
Definition set_modules (v : gmap nat rt_module) (k : kernel) : kernel :=
  mk_kernel (k.(heap)) (k.(objects)) (k.(threads)) (k.(timers)) (k.(sems))
    (k.(mutexes)) (k.(events)) (k.(mailboxes)) (k.(mqs)) (k.(mq_mem)) (k.(mempools))
    (k.(mp_mem)) (k.(rt_current_thread)) (k.(rt_current_priority))
    (k.(rt_thread_ready_priority_group)) (k.(rt_scheduler_lock_nest))
    (k.(rt_interrupt_nest)) (k.(rt_tick)) (k.(random_nr)) (k.(errno)) (k.(sysmem)) v
    (k.(devices)) (k.(hw_log)).
Definition set_devices (v : gmap nat rt_device) (k : kernel) : kernel :=
  mk_kernel (k.(heap)) (k.(objects)) (k.(threads)) (k.(timers)) (k.(sems))
    (k.(mutexes)) (k.(events)) (k.(mailboxes)) (k.(mqs)) (k.(mq_mem)) (k.(mempools))
    (k.(mp_mem)) (k.(rt_current_thread)) (k.(rt_current_priority))
    (k.(rt_thread_ready_priority_group)) (k.(rt_scheduler_lock_nest))
    (k.(rt_interrupt_nest)) (k.(rt_tick)) (k.(random_nr)) (k.(errno)) (k.(sysmem))
    (k.(modules)) v (k.(hw_log)).
Definition set_hw_log (v : list hw_event) (k : kernel) : kernel :=
  mk_kernel (k.(heap)) (k.(objects)) (k.(threads)) (k.(timers)) (k.(sems))
    (k.(mutexes)) (k.(events)) (k.(mailboxes)) (k.(mqs)) (k.(mq_mem)) (k.(mempools))
    (k.(mp_mem)) (k.(rt_current_thread)) (k.(rt_current_priority))
    (k.(rt_thread_ready_priority_group)) (k.(rt_scheduler_lock_nest))
    (k.(rt_interrupt_nest)) (k.(rt_tick)) (k.(random_nr)) (k.(errno)) (k.(sysmem))
    (k.(modules)) (k.(devices)) v.

(** ** Access *)

Notation K := (M kernel).

(** Run a list operation on the kernel's memory. *)
Definition on_heap {A} (m : M (lheap node) A) : K A := zoom heap set_heap m.

Definition get_thread (t : nat) : K rt_thread :=
  k ← get; deref (threads k !! t).
Definition upd_thread (t : nat) (f : rt_thread → rt_thread) : K unit :=
  x ← get_thread t; modify (λ k, set_threads (<[t := f x]> (threads k)) k).
Definition get_object (o : objid) : K rt_object :=
  k ← get; deref (objects k !! o).
Definition upd_object (o : objid) (f : rt_object → rt_object) : K unit :=
  x ← get_object o; modify (λ k, set_objects (<[o := f x]> (objects k)) k).
Definition get_timer (tm : timer_id) : K rt_timer :=
  k ← get; deref (timers k !! tm).
Definition upd_timer (tm : timer_id) (f : rt_timer → rt_timer) : K unit :=
  x ← get_timer tm; modify (λ k, set_timers (<[tm := f x]> (timers k)) k).
Definition get_sem (s : nat) : K rt_semaphore :=
  k ← get; deref (sems k !! s).
Definition put_sem (s : nat) (x : rt_semaphore) : K unit :=
  modify (λ k, set_sems (<[s := x]> (sems k)) k).
Definition get_mutex (m : nat) : K rt_mutex :=
  k ← get; deref (mutexes k !! m).
Definition upd_mutex (m : nat) (f : rt_mutex → rt_mutex) : K unit :=
  x ← get_mutex m; modify (λ k, set_mutexes (<[m := f x]> (mutexes k)) k).
Definition get_event (e : nat) : K rt_event :=
  k ← get; deref (events k !! e).
Definition put_event (e : nat) (x : rt_event) : K unit :=
  modify (λ k, set_events (<[e := x]> (events k)) k).
Definition get_mb (m : nat) : K rt_mailbox :=
  k ← get; deref (mailboxes k !! m).
Definition upd_mb (m : nat) (f : rt_mailbox → rt_mailbox) : K unit :=
  x ← get_mb m; modify (λ k, set_mailboxes (<[m := f x]> (mailboxes k)) k).
Definition get_mq (m : nat) : K rt_messagequeue :=
  k ← get; deref (mqs k !! m).
Definition upd_mq (m : nat) (f : rt_messagequeue → rt_messagequeue) : K unit :=
  x ← get_mq m; modify (λ k, set_mqs (<[m := f x]> (mqs k)) k).
Definition get_msg (a : Z) : K mq_message :=
  k ← get; deref (mq_mem k !! a).
Definition upd_msg (a : Z) (f : mq_message → mq_message) : K unit :=
  x ← get_msg a; modify (λ k, set_mq_mem (<[a := f x]> (mq_mem k)) k).
Definition get_mp (m : nat) : K rt_mempool :=
  k ← get; deref (mempools k !! m).
Definition upd_mp (m : nat) (f : rt_mempool → rt_mempool) : K unit :=
  x ← get_mp m; modify (λ k, set_mempools (<[m := f x]> (mempools k)) k).

(** ** Rules for the accessors *)

Section rules.
Implicit Types k : kernel.

Lemma wp_get_thread k t x (Q : rt_thread → kernel → Prop) :
  threads k !! t = Some x → Q x k → wp (get_thread t) k Q.
Proof. intros. unfold get_thread. do 2 wp_step. by eapply wp_deref. Qed.
Lemma wp_upd_thread k t x f (Q : unit → kernel → Prop) :
  threads k !! t = Some x → Q tt (set_threads (<[t := f x]> (threads k)) k) →
  wp (upd_thread t f) k Q.
Proof. intros. unfold upd_thread. wp_step. by eapply wp_get_thread. Qed.
Lemma wp_get_object k o x (Q : rt_object → kernel → Prop) :
  objects k !! o = Some x → Q x k → wp (get_object o) k Q.
Proof. intros. unfold get_object. do 2 wp_step. by eapply wp_deref. Qed.
Lemma wp_upd_object k o x f (Q : unit → kernel → Prop) :
  objects k !! o = Some x → Q tt (set_objects (<[o := f x]> (objects k)) k) →
  wp (upd_object o f) k Q.
Proof. intros. unfold upd_object. wp_step. by eapply wp_get_object. Qed.
Lemma wp_get_timer k tm x (Q : rt_timer → kernel → Prop) :
  timers k !! tm = Some x → Q x k → wp (get_timer tm) k Q.
Proof. intros. unfold get_timer. do 2 wp_step. by eapply wp_deref. Qed.
Lemma wp_upd_timer k tm x f (Q : unit → kernel → Prop) :
  timers k !! tm = Some x → Q tt (set_timers (<[tm := f x]> (timers k)) k) →
  wp (upd_timer tm f) k Q.
Proof. intros. unfold upd_timer. wp_step. by eapply wp_get_timer. Qed.
Lemma wp_get_sem k s x (Q : rt_semaphore → kernel → Prop) :
  sems k !! s = Some x → Q x k → wp (get_sem s) k Q.
Proof. intros. unfold get_sem. do 2 wp_step. by eapply wp_deref. Qed.
Lemma wp_get_mutex k m x (Q : rt_mutex → kernel → Prop) :
  mutexes k !! m = Some x → Q x k → wp (get_mutex m) k Q.
Proof. intros. unfold get_mutex. do 2 wp_step. by eapply wp_deref. Qed.
Lemma wp_upd_mutex k m x f (Q : unit → kernel → Prop) :
  mutexes k !! m = Some x → Q tt (set_mutexes (<[m := f x]> (mutexes k)) k) →
  wp (upd_mutex m f) k Q.
Proof. intros. unfold upd_mutex. wp_step. by eapply wp_get_mutex. Qed.
Lemma wp_get_event k e x (Q : rt_event → kernel → Prop) :
  events k !! e = Some x → Q x k → wp (get_event e) k Q.
Proof. intros. unfold get_event. do 2 wp_step. by eapply wp_deref. Qed.
Lemma wp_get_mb k m x (Q : rt_mailbox → kernel → Prop) :
  mailboxes k !! m = Some x → Q x k → wp (get_mb m) k Q.
Proof. intros. unfold get_mb. do 2 wp_step. by eapply wp_deref. Qed.
Lemma wp_upd_mb k m x f (Q : unit → kernel → Prop) :
  mailboxes k !! m = Some x → Q tt (set_mailboxes (<[m := f x]> (mailboxes k)) k) →
  wp (upd_mb m f) k Q.
Proof. intros. unfold upd_mb. wp_step. by eapply wp_get_mb. Qed.
Lemma wp_get_mq k m x (Q : rt_messagequeue → kernel → Prop) :
  mqs k !! m = Some x → Q x k → wp (get_mq m) k Q.
Proof. intros. unfold get_mq. do 2 wp_step. by eapply wp_deref. Qed.
Lemma wp_upd_mq k m x f (Q : unit → kernel → Prop) :
  mqs k !! m = Some x → Q tt (set_mqs (<[m := f x]> (mqs k)) k) →
  wp (upd_mq m f) k Q.
Proof. intros. unfold upd_mq. wp_step. by eapply wp_get_mq. Qed.
Lemma wp_get_msg k a x (Q : mq_message → kernel → Prop) :
  mq_mem k !! a = Some x → Q x k → wp (get_msg a) k Q.
Proof. intros. unfold get_msg. do 2 wp_step. by eapply wp_deref. Qed.
Lemma wp_upd_msg k a x f (Q : unit → kernel → Prop) :
  mq_mem k !! a = Some x → Q tt (set_mq_mem (<[a := f x]> (mq_mem k)) k) →
  wp (upd_msg a f) k Q.
Proof. intros. unfold upd_msg. wp_step. by eapply wp_get_msg. Qed.
Lemma wp_get_mp k m x (Q : rt_mempool → kernel → Prop) :
  mempools k !! m = Some x → Q x k → wp (get_mp m) k Q.
Proof. intros. unfold get_mp. do 2 wp_step. by eapply wp_deref. Qed.
Lemma wp_upd_mp k m x f (Q : unit → kernel → Prop) :
  mempools k !! m = Some x → Q tt (set_mempools (<[m := f x]> (mempools k)) k) →
  wp (upd_mp m f) k Q.
Proof. intros. unfold upd_mp. wp_step. by eapply wp_get_mp. Qed.

(** A list operation specified on heaps, run on the kernel. *)
Lemma wp_on_heap {A} (m : M (lheap node) A) k (P : A → lheap node → Prop)
    (Q : A → kernel → Prop) :
  wp m (heap k) P → (∀ a h, P a h → Q a (set_heap h k)) → wp (on_heap m) k Q.
Proof. intros Hm HPQ. unfold on_heap. wp_step. eapply wp_mono; eauto. Qed.

Lemma set_heap_id k : set_heap (heap k) k = k.
Proof. by destruct k. Qed.
End rules.
