(* ===== verification/Scheduler.v ===== *)
(** The scheduler, [src/scheduler.c]: the ready queues, the priority bitmap, the
    selection of the next thread and the scheduler lock.

    [sched_ok] is the invariant of the ready table; [detach] and [enqueue] are
    the operations on sequences that the list code implements. *)

From Stdlib Require Import ZArith Lia.
From stdpp Require Import numbers base gmap list.
From S2P Require Import Prelude RtList Bitmap Kernel.
Local Open Scope Z_scope.

(** * The code *)

(** [_rt_scheduler_stack_check]: the first stack byte must still be ['#'] and
    the stack pointer inside the stack, or the system stops. *)
Definition rt_scheduler_stack_check (t : nat) : K unit :=
  x ← get_thread t;
  if negb (stack_byte0 x =? 35)
     || (sp x <=? stack_addr x)
     || (u32 (stack_addr x + stack_size x) <? sp x)
  then fail F_halt
  else mret tt.

Definition ready_lists : list Z := Z.of_nat <$> seq 0 (Z.to_nat RT_THREAD_PRIORITY_MAX).

Definition init_lists (ns : list node) : K unit :=
  foldr (λ n m, on_heap (rt_list_init n);; m) (mret tt) ns.

Definition rt_system_scheduler_init : K unit :=
  modify (set_rt_scheduler_lock_nest 0);;
  init_lists (N_ready <$> ready_lists);;
  modify (set_rt_current_priority (RT_THREAD_PRIORITY_MAX - 1));;
  modify (set_rt_current_thread None);;
  modify (set_rt_thread_ready_priority_group 0);;
  on_heap (rt_list_init N_defunct).

(** [__rt_ffs(rt_thread_ready_priority_group) - 1], an [rt_ubase_t]. *)
Definition highest_ready_priority (k : kernel) : Z :=
  u32 (__rt_ffs (rt_thread_ready_priority_group k) - 1).

Definition log_hw (e : hw_event) : K unit := modify (λ k, set_hw_log (hw_log k ++ [e]) k).

Definition rt_system_scheduler_start : K unit :=
  k ← get;
  n ← on_heap (rd_next (N_ready (highest_ready_priority k)));
  to ← deref (tlist_entry n);
  modify (set_rt_current_thread (Some to));;
  log_hw (HW_switch_to to).

Definition rt_schedule : K unit :=
  k ← get;
  if rt_scheduler_lock_nest k =? 0 then
    let highest := highest_ready_priority k in
    n ← on_heap (rd_next (N_ready highest));
    to ← deref (tlist_entry n);
    if decide (Some to = rt_current_thread k) then mret tt
    else
      modify (set_rt_current_priority (u8 highest));;
      modify (set_rt_current_thread (Some to));;
      rt_scheduler_stack_check to;;
      from ← deref (rt_current_thread k);
      log_hw (if rt_interrupt_nest k =? 0 then HW_switch from to
              else HW_switch_interrupt from to)
  else mret tt.

Definition rt_schedule_insert_thread (t : nat) : K unit :=
  upd_thread t (set_stat RT_THREAD_READY);;
  x ← get_thread t;
  on_heap (rt_list_insert_before (N_ready (current_priority x)) (N_tlist t));;
  modify (λ k, set_rt_thread_ready_priority_group
                 (Z.lor (rt_thread_ready_priority_group k) (number_mask x)) k).

Definition rt_schedule_remove_thread (t : nat) : K unit :=
  on_heap (rt_list_remove (N_tlist t));;
  x ← get_thread t;
  e ← on_heap (rt_list_isempty (N_ready (current_priority x)));
  if (e : bool) then
    modify (λ k, set_rt_thread_ready_priority_group
                   (Z.land (rt_thread_ready_priority_group k)
                           (Z.lnot (number_mask x))) k)
  else mret tt.

Definition rt_enter_critical : K unit :=
  modify (λ k, set_rt_scheduler_lock_nest (s16 (rt_scheduler_lock_nest k + 1)) k).

Definition rt_exit_critical : K unit :=
  modify (λ k, set_rt_scheduler_lock_nest (s16 (rt_scheduler_lock_nest k - 1)) k);;
  k ← get;
  if rt_scheduler_lock_nest k <=? 0 then
    modify (set_rt_scheduler_lock_nest 0);;
    rt_schedule
  else mret tt.

Definition rt_critical_level : K Z := k ← get; mret (u16 (rt_scheduler_lock_nest k)).

(** * Sequences behind the lists *)

Abbreviation lists := (gmap node (list node)).

(** Take [n] out of the sequence it is in. *)
Definition detach (n : node) (L : lists) : lists :=
  <[n := []]> (filter (λ m, m ≠ n) <$> L).

(** Put the detached node [n] at the end of the sequence of [hd]. *)
Definition enqueue (hd n : node) (L : lists) : lists :=
  alter (λ l, l ++ [n]) hd (delete n L).

(** [n] is on some sequence, possibly alone. *)
Definition placed (n : node) (L : lists) : Prop :=
  ∃ hd l, L !! hd = Some l ∧ n ∈ hd :: l.

(** [n] heads no sequence of others. *)
Definition not_head (n : node) (L : lists) : Prop := ∀ l, L !! n = Some l → l = [].

(** * The invariant of the ready table *)

(** The threads of the ready queue of priority [p], first to run first. *)
Definition ready_queue (L : lists) (p : Z) : list nat :=
  omap tlist_entry (default [] (L !! N_ready p)).

Record sched_ok (h : lheap node) (ths : gmap nat rt_thread) (grp : Z) (L : lists) : Prop := {
  so_rep : rep h L;
  so_queue : ∀ p, 0 <= p < RT_THREAD_PRIORITY_MAX →
    L !! N_ready p = Some (N_tlist <$> ready_queue L p);
  so_ready : ∀ p t, 0 <= p < RT_THREAD_PRIORITY_MAX →
    t ∈ ready_queue L p ↔
    ∃ x, ths !! t = Some x ∧ stat x = RT_THREAD_READY ∧ current_priority x = p;
  so_group_range : 0 <= grp < 2 ^ 32;
  so_group : ∀ p, 0 <= p < RT_THREAD_PRIORITY_MAX →
    Z.testbit grp p = true ↔ ready_queue L p ≠ [];
  so_prio : ∀ t x, ths !! t = Some x →
    0 <= current_priority x < RT_THREAD_PRIORITY_MAX;
  so_mask : ∀ t x, ths !! t = Some x → stat x ≠ RT_THREAD_INIT →
    number_mask x = 2 ^ current_priority x;
  so_placed : ∀ t x, ths !! t = Some x → placed (N_tlist t) L;
  so_not_head : ∀ t, not_head (N_tlist t) L
}.

Definition sched_inv (k : kernel) (L : lists) : Prop :=
  sched_ok (heap k) (threads k) (rt_thread_ready_priority_group k) L.

(** * Lemmas *)

Section lists.
Implicit Types (L : lists) (n m hd : node) (l : list node).

Lemma lookup_detach_eq n L : detach n L !! n = Some [].
Proof. apply lookup_insert_eq. Qed.

Lemma lookup_detach_ne n m L :
  m ≠ n → detach n L !! m = filter (λ m, m ≠ n) <$> L !! m.
Proof. intros. unfold detach. by rewrite lookup_insert_ne, lookup_fmap. Qed.

(** A node that is alone is in no other sequence. *)
Lemma alone_not_in h L hd l n :
  rep h L → L !! n = Some [] → L !! hd = Some l → n ∉ l.
Proof.
  intros Hrep Hn Hhd. eapply rep_head_not_in; eauto.
Qed.

Lemma detach_alone h L n : rep h L → L !! n = Some [] → detach n L = L.
Proof.
  intros Hrep Hn. apply map_eq. intros hd. destruct (decide (hd = n)) as [->|Hne].
  - by rewrite lookup_detach_eq, Hn.
  - rewrite lookup_detach_ne by done. destruct (L !! hd) as [l|] eqn:Hl; [|done].
    simpl. f_equal. apply filter_ne_id. by eapply alone_not_in.
Qed.

Lemma detach_elem h L hd l1 n l2 :
  rep h L → L !! hd = Some (l1 ++ n :: l2) →
  <[hd := l1 ++ l2]> (<[n := []]> L) = detach n L.
Proof.
  intros Hrep Hhd. destruct (rep_dlist _ _ _ _ Hrep Hhd) as [Hnd _].
  assert (hd ≠ n) as Hne by (apply NoDup_cons in Hnd; set_solver).
  apply map_eq. intros m. destruct (decide (m = hd)) as [->|Hm].
  { rewrite lookup_insert_eq, lookup_detach_ne, Hhd by done. simpl.
    rewrite filter_ne_split; [done|]. by apply NoDup_cons in Hnd as [_ ?]. }
  rewrite lookup_insert_ne by done. destruct (decide (m = n)) as [->|Hmn].
  { by rewrite lookup_insert_eq, lookup_detach_eq. }
  rewrite lookup_insert_ne, lookup_detach_ne by done.
  destruct (L !! m) as [l|] eqn:Hl; [|done]. simpl. rewrite filter_ne_id; [done|].
  intros Hin. apply Hm. eapply (rep_inj n h L); eauto; set_solver.
Qed.

Lemma placed_cases h L n :
  rep h L → placed n L → not_head n L →
  L !! n = Some [] ∨ ∃ hd l1 l2, L !! hd = Some (l1 ++ n :: l2).
Proof.
  intros Hrep (hd & l & Hl & Hin) Hnh. apply elem_of_cons in Hin as [->|Hin].
  - left. by rewrite Hl, (Hnh _ Hl).
  - right. apply list_elem_of_split in Hin as (l1 & l2 & ->). eauto.
Qed.

(** [rt_list_remove] implements [detach], wherever the node is. *)
Lemma wp_list_remove h L n :
  rep h L → placed n L → not_head n L →
  wp (rt_list_remove n) h (λ _ h', rep h' (detach n L)).
Proof.
  intros Hrep Hpl Hnh. destruct (placed_cases _ _ _ Hrep Hpl Hnh) as [Hn|(hd & l1 & l2 & Hhd)].
  - rewrite (detach_alone h) by done. by apply remove_detached.
  - rewrite <- (detach_elem h L hd l1 n l2) by done. by apply remove_elem.
Qed.

Lemma enqueue_alter L hd n l :
  L !! hd = Some l → n ≠ hd → enqueue hd n L = <[hd := l ++ [n]]> (delete n L).
Proof.
  intros Hl Hne. apply map_eq. intros m. unfold enqueue.
  rewrite lookup_alter, lookup_insert. case_decide; subst; [|done].
  by rewrite lookup_delete_ne, Hl by done.
Qed.

(** [rt_list_insert_before(head, n)] implements [enqueue]. *)
Lemma wp_list_enqueue h L hd n l :
  rep h L → L !! hd = Some l → L !! n = Some [] → n ≠ hd →
  wp (rt_list_insert_before hd n) h (λ _ h', rep h' (enqueue hd n L)).
Proof.
  intros. erewrite enqueue_alter by done. by apply insert_before_head.
Qed.

Lemma lookup_enqueue_eq L hd n l :
  L !! hd = Some l → n ≠ hd → enqueue hd n L !! hd = Some (l ++ [n]).
Proof. intros. by rewrite (enqueue_alter _ _ _ l), lookup_insert_eq. Qed.

Lemma lookup_enqueue_ne L hd n m :
  m ≠ hd → m ≠ n → enqueue hd n L !! m = L !! m.
Proof.
  intros. unfold enqueue. by rewrite lookup_alter_ne, lookup_delete_ne.
Qed.

Lemma lookup_enqueue_self L hd n : n ≠ hd → enqueue hd n L !! n = None.
Proof. intros. unfold enqueue. by rewrite lookup_alter_ne, lookup_delete_eq. Qed.

Lemma placed_detach n m L : not_head n L → placed m L → placed m (detach n L).
Proof.
  intros Hn (hd & l & Hl & Hin). destruct (decide (m = n)) as [->|Hne].
  { exists n, []. rewrite lookup_detach_eq. set_solver. }
  destruct (decide (hd = n)) as [->|Hhd].
  { rewrite (Hn _ Hl) in Hin. set_solver. }
  exists hd, (filter (λ m, m ≠ n) l). rewrite lookup_detach_ne, Hl by done.
  split; [done|]. rewrite elem_of_cons in Hin |- *. rewrite list_elem_of_filter. naive_solver.
Qed.

Lemma not_head_detach n m L : not_head m L → not_head m (detach n L).
Proof.
  intros Hm l. destruct (decide (m = n)) as [->|Hne].
  { rewrite lookup_detach_eq. by intros [= <-]. }
  rewrite lookup_detach_ne, fmap_Some by done. by intros (l' & ->%Hm & ->).
Qed.

Lemma placed_enqueue hd n m L :
  n ≠ hd → is_Some (L !! hd) → L !! n = Some [] → placed m L → placed m (enqueue hd n L).
Proof.
  intros Hne [l Hl] Hn (hd' & l' & Hl' & Hin). destruct (decide (m = n)) as [->|Hmn].
  { exists hd, (l ++ [n]). rewrite (lookup_enqueue_eq _ _ _ l) by done. set_solver. }
  destruct (decide (hd' = hd)) as [->|Hhd].
  { exists hd, (l ++ [n]). rewrite (lookup_enqueue_eq _ _ _ l) by done. set_solver. }
  exists hd', l'. rewrite lookup_enqueue_ne; [done..|]. intros ->. simplify_eq. set_solver.
Qed.

Lemma not_head_enqueue hd n m L :
  m ≠ hd → n ≠ hd → not_head m L → not_head m (enqueue hd n L).
Proof.
  intros Hne Hnh Hm l. destruct (decide (m = n)) as [->|Hmn].
  - by rewrite lookup_enqueue_self.
  - rewrite lookup_enqueue_ne by done. apply Hm.
Qed.
End lists.

(** ** The priority bitmap *)

Lemma testbit_set_group g p q :
  0 <= p → Z.testbit (Z.lor g (2 ^ p)) q = Z.testbit g q || (q =? p).
Proof. intros. rewrite Z.lor_spec, Z.pow2_bits_eqb by done. by rewrite Z.eqb_sym. Qed.

Lemma testbit_clear_group g p q :
  0 <= p → 0 <= q →
  Z.testbit (Z.land g (Z.lnot (2 ^ p))) q = Z.testbit g q && negb (q =? p).
Proof.
  intros. rewrite Z.land_spec, Z.lnot_spec, Z.pow2_bits_eqb by done.
  by rewrite Z.eqb_sym.
Qed.

Lemma group_set_range g p :
  0 <= g < 2 ^ 32 → 0 <= p < 32 → 0 <= Z.lor g (2 ^ p) < 2 ^ 32.
Proof.
  intros Hg Hp. assert (0 <= Z.lor g (2 ^ p)) by (apply Z.lor_nonneg; lia).
  split; [done|]. destruct (Z.eq_dec (Z.lor g (2 ^ p)) 0); [lia|].
  apply Z.log2_lt_pow2; [lia|]. rewrite Z.log2_lor by lia.
  apply Z.max_lub_lt; [|rewrite Z.log2_pow2; lia].
  destruct (Z.eq_dec g 0) as [->|]; [simpl; lia|]. apply Z.log2_lt_pow2; lia.
Qed.

Lemma group_clear_range g m :
  0 <= g < 2 ^ 32 → 0 <= Z.land g m < 2 ^ 32.
Proof.
  intros Hg. assert (0 <= Z.land g m) by (apply Z.land_nonneg; lia). split; [done|].
  rewrite <- (Z.mod_small g (2 ^ 32)), <- Z.land_ones by lia.
  rewrite <- Z.land_assoc, (Z.land_comm _ m), Z.land_assoc, Z.land_ones by lia.
  apply Z.mod_pos_bound. lia.
Qed.

(** The bitmap after the queue of [p] may have become empty. *)
Definition clear_if_empty (L : lists) (p mask grp : Z) : Z :=
  if decide (L !! N_ready p = Some []) then Z.land grp (Z.lnot mask) else grp.

(** ** The queues *)

Lemma ready_queue_fmap (L : lists) p q :
  L !! N_ready p = Some (N_tlist <$> q) → ready_queue L p = q.
Proof.
  intros HL. unfold ready_queue. rewrite HL. simpl. clear HL.
  induction q as [|u q IH]; [done|]. csimpl. by rewrite IH.
Qed.

Lemma filter_fmap_tlist t (q : list nat) :
  filter (λ m, m ≠ N_tlist t) (N_tlist <$> q) = N_tlist <$> filter (λ u, u ≠ t) q.
Proof.
  induction q as [|u q IH]; [done|]. csimpl. destruct (decide (u = t)) as [->|].
  - rewrite !filter_cons_False by naive_solver. done.
  - rewrite !filter_cons_True by naive_solver. csimpl. by rewrite IH.
Qed.

Lemma queue_detach (L : lists) t p q :
  L !! N_ready p = Some (N_tlist <$> q) →
  detach (N_tlist t) L !! N_ready p = Some (N_tlist <$> filter (λ u, u ≠ t) q).
Proof. intros HL. rewrite lookup_detach_ne, HL by done. simpl. by rewrite filter_fmap_tlist. Qed.

Lemma ready_queue_detach (L : lists) t p q :
  L !! N_ready p = Some (N_tlist <$> q) →
  ready_queue (detach (N_tlist t) L) p = filter (λ u, u ≠ t) (ready_queue L p).
Proof.
  intros HL. rewrite (ready_queue_fmap _ _ _ HL).
  by apply ready_queue_fmap, queue_detach.
Qed.

Lemma queue_enqueue (L : lists) t p q p' :
  L !! N_ready p = Some (N_tlist <$> q) →
  enqueue (N_ready p') (N_tlist t) L !! N_ready p
  = Some (N_tlist <$> (q ++ if decide (p = p') then [t] else [])).
Proof.
  intros HL. case_decide; subst.
  - rewrite (lookup_enqueue_eq _ _ _ (N_tlist <$> q)) by done. by rewrite fmap_app.
  - rewrite lookup_enqueue_ne by naive_solver. by rewrite app_nil_r.
Qed.

Lemma ready_queue_enqueue (L : lists) t p q p' :
  L !! N_ready p = Some (N_tlist <$> q) →
  ready_queue (enqueue (N_ready p') (N_tlist t) L) p
  = ready_queue L p ++ if decide (p = p') then [t] else [].
Proof.
  intros HL. rewrite (ready_queue_fmap _ _ _ HL).
  by apply ready_queue_fmap, queue_enqueue.
Qed.

Lemma queue_empty_iff (L : lists) p q :
  L !! N_ready p = Some (N_tlist <$> q) → L !! N_ready p = Some [] ↔ q = [].
Proof. intros ->. split; [|by intros ->]. destruct q; [done|]. by intros [=]. Qed.

(** ** Transitions of the ready table *)

Section transitions.
Context {h : lheap node} {ths : gmap nat rt_thread} {grp : Z} {L : lists}.
Hypothesis Hok : sched_ok h ths grp L.

Lemma ready_queue_not_in t x p :
  ths !! t = Some x → 0 <= p < RT_THREAD_PRIORITY_MAX →
  (stat x ≠ RT_THREAD_READY ∨ current_priority x ≠ p) → t ∉ ready_queue L p.
Proof.
  intros Hx Hp Hn (x' & Hx' & ? & ?)%(so_ready _ _ _ _ Hok); [|done].
  simplify_eq. naive_solver.
Qed.

(** A field the table does not depend on changes. *)
Lemma sched_ok_upd t x x' :
  ths !! t = Some x → stat x' = stat x → current_priority x' = current_priority x →
  number_mask x' = number_mask x → sched_ok h (<[t := x']> ths) grp L.
Proof.
  intros Hx Hs Hp Hm. destruct Hok as [Hr Hq Hrd Hgr Hg Hpr Hmk Hpl Hnh]. split; try done.
  - intros p u Hpp. rewrite Hrd by done. destruct (decide (u = t)) as [->|Hne].
    + rewrite lookup_insert_eq, Hx. split; intros (y & [= <-] & ? & ?);
        [exists x'|exists x]; split_and!; congruence.
    + by rewrite lookup_insert_ne.
  - intros u y. destruct (decide (u = t)) as [->|Hne].
    + rewrite lookup_insert_eq. intros [= <-]. rewrite Hp. eauto.
    + rewrite lookup_insert_ne by done. eauto.
  - intros u y. destruct (decide (u = t)) as [->|Hne].
    + rewrite lookup_insert_eq. intros [= <-]. rewrite Hp, Hm, Hs. eauto.
    + rewrite lookup_insert_ne by done. eauto.
  - intros u y. destruct (decide (u = t)) as [->|Hne].
    + rewrite lookup_insert_eq. intros [= <-]. eauto.
    + rewrite lookup_insert_ne by done. eauto.
Qed.

(** A thread that is not ready any more leaves whatever list it was on. *)
Lemma sched_ok_unready h' t x x' :
  ths !! t = Some x → stat x' ≠ RT_THREAD_READY →
  number_mask x = 2 ^ current_priority x →
  current_priority x' = current_priority x → number_mask x' = number_mask x →
  rep h' (detach (N_tlist t) L) →
  sched_ok h' (<[t := x']> ths)
    (clear_if_empty (detach (N_tlist t) L) (current_priority x) (number_mask x) grp)
    (detach (N_tlist t) L).
Proof.
  intros Hx Hnr Hmask Hp' Hm' Hrep.
  destruct Hok as [Hr Hq Hrd Hgr Hg Hpr Hmk Hpl Hnh].
  pose proof (Hpr _ _ Hx) as Hprx. split; try done.
  - intros p Hp. by rewrite (ready_queue_detach _ _ _ _ (Hq p Hp)), (queue_detach _ _ _ _ (Hq p Hp)).
  - intros p u Hp. rewrite (ready_queue_detach _ _ _ _ (Hq p Hp)), list_elem_of_filter, Hrd by done.
    destruct (decide (u = t)) as [->|Hne].
    + rewrite lookup_insert_eq. naive_solver.
    + rewrite lookup_insert_ne by done. naive_solver.
  - unfold clear_if_empty. case_decide; [by apply group_clear_range|done].
  - intros p Hp. rewrite (ready_queue_detach _ _ _ _ (Hq p Hp)).
    pose proof (queue_empty_iff _ _ _ (queue_detach L t _ _ (Hq _ Hprx))) as Hemp.
    unfold clear_if_empty. rewrite Hmask. destruct (decide (p = current_priority x)) as [->|Hne].
    + case_decide as Hd; rewrite Hemp in Hd.
      * rewrite testbit_clear_group, Hd, Z.eqb_refl, andb_false_r by lia. naive_solver.
      * rewrite Hg by done. split; [done|]. intros _ Hn. apply Hd. by rewrite Hn.
    + assert (filter (λ u, u ≠ t) (ready_queue L p) = ready_queue L p) as ->.
      { apply filter_ne_id. by eapply (ready_queue_not_in t x p); eauto. }
      rewrite <- Hg by done. case_decide; [|done].
      rewrite testbit_clear_group by lia. by rewrite (proj2 (Z.eqb_neq _ _) Hne), andb_true_r.
  - intros u y. destruct (decide (u = t)) as [->|Hne].
    + rewrite lookup_insert_eq. intros [= <-]. rewrite Hp'. eauto.
    + rewrite lookup_insert_ne by done. eauto.
  - intros u y. destruct (decide (u = t)) as [->|Hne].
    + rewrite lookup_insert_eq. intros [= <-] _. by rewrite Hp', Hm'.
    + rewrite lookup_insert_ne by done. eauto.
  - intros u y. destruct (decide (u = t)) as [->|Hne].
    + rewrite lookup_insert_eq. intros _. apply placed_detach; eauto.
    + rewrite lookup_insert_ne by done. intros ?. apply placed_detach; eauto.
  - intros u. by apply not_head_detach.
Qed.
End transitions.

Section transitions2.
Context {h : lheap node} {ths : gmap nat rt_thread} {grp : Z} {L : lists}.
Hypothesis Hok : sched_ok h ths grp L.

(** A detached thread becomes ready: it joins the end of its queue. *)
Lemma sched_ok_make_ready h' t x x' :
  ths !! t = Some x → stat x ≠ RT_THREAD_READY → L !! N_tlist t = Some [] →
  stat x' = RT_THREAD_READY → 0 <= current_priority x' < RT_THREAD_PRIORITY_MAX →
  number_mask x' = 2 ^ current_priority x' →
  rep h' (enqueue (N_ready (current_priority x')) (N_tlist t) L) →
  sched_ok h' (<[t := x']> ths) (Z.lor grp (number_mask x'))
    (enqueue (N_ready (current_priority x')) (N_tlist t) L).
Proof.
  intros Hx Hnr Hal Hs' Hp' Hm' Hrep.
  pose proof (λ p Hp, ready_queue_not_in Hok t x p Hx Hp (or_introl Hnr)) as Hnq.
  destruct Hok as [Hr Hq Hrd Hgr Hg Hpr Hmk Hpl Hnh]. split; try done.
  - intros p Hp. by rewrite (ready_queue_enqueue _ _ _ _ _ (Hq p Hp)),
      (queue_enqueue _ _ _ _ _ (Hq p Hp)).
  - intros p u Hp. rewrite (ready_queue_enqueue _ _ _ _ _ (Hq p Hp)), elem_of_app, Hrd by done.
    destruct (decide (u = t)) as [->|Hne].
    + rewrite lookup_insert_eq. case_decide; split.
      * intros _. exists x'. naive_solver.
      * intros _. right. set_solver.
      * intros [?|?]; [naive_solver|set_solver].
      * naive_solver.
    + rewrite lookup_insert_ne by done. case_decide; set_solver.
  - rewrite Hm'. by apply group_set_range.
  - intros p Hp. rewrite (ready_queue_enqueue _ _ _ _ _ (Hq p Hp)), Hm'.
    rewrite testbit_set_group by lia. rewrite orb_true_iff, Hg by done.
    rewrite Z.eqb_eq. case_decide; subst.
    + split; [|auto]. intros _ Hn%app_eq_nil. naive_solver.
    + rewrite app_nil_r. naive_solver.
  - intros u y. destruct (decide (u = t)) as [->|Hne].
    + rewrite lookup_insert_eq. by intros [= <-].
    + rewrite lookup_insert_ne by done. eauto.
  - intros u y. destruct (decide (u = t)) as [->|Hne].
    + rewrite lookup_insert_eq. by intros [= <-].
    + rewrite lookup_insert_ne by done. eauto.
  - intros u y. assert (is_Some (L !! N_ready (current_priority x'))) as Hs.
    { rewrite Hq by done. eauto. }
    destruct (decide (u = t)) as [->|Hne].
    + rewrite lookup_insert_eq. intros _. apply placed_enqueue; eauto.
    + rewrite lookup_insert_ne by done. intros ?. apply placed_enqueue; eauto.
  - intros u. by apply not_head_enqueue.
Qed.
End transitions2.

(** ** The operations *)

Definition set_ready_group (h : lheap node) (g : Z) (k : kernel) : kernel :=
  set_rt_thread_ready_priority_group g (set_heap h k).

Lemma wp_remove_thread k L t x l :
  rep (heap k) L → threads k !! t = Some x → placed (N_tlist t) L → not_head (N_tlist t) L →
  L !! N_ready (current_priority x) = Some l →
  wp (rt_schedule_remove_thread t) k (λ _ k', ∃ h,
    rep h (detach (N_tlist t) L) ∧
    k' = set_ready_group h
           (clear_if_empty (detach (N_tlist t) L) (current_priority x) (number_mask x)
              (rt_thread_ready_priority_group k)) k).
Proof.
  intros Hrep Hx Hpl Hnh Hl. unfold rt_schedule_remove_thread.
  wp_step. eapply wp_on_heap; [by apply (wp_list_remove _ L)|]. intros ? h Hrep'.
  wp_step. eapply wp_get_thread; [done|].
  assert (detach (N_tlist t) L !! N_ready (current_priority x)
          = Some (filter (λ m, m ≠ N_tlist t) l)) as Hl'.
  { by rewrite lookup_detach_ne, Hl. }
  wp_step. eapply wp_on_heap; [exact (wp_isempty _ _ _ _ Hrep' Hl')|].
  intros e h' [Hh ->]. rewrite Hh. unfold clear_if_empty, set_ready_group. rewrite Hl'.
  case_bool_decide as Hd.
  - wp_step. exists h. by rewrite decide_True by congruence.
  - wp_step. exists h. rewrite decide_False by congruence. by destruct k.
Qed.

Lemma wp_insert_thread k L t x l :
  rep (heap k) L → threads k !! t = Some x → L !! N_tlist t = Some [] →
  L !! N_ready (current_priority x) = Some l →
  wp (rt_schedule_insert_thread t) k (λ _ k', ∃ h,
    rep h (enqueue (N_ready (current_priority x)) (N_tlist t) L) ∧
    k' = set_ready_group h (Z.lor (rt_thread_ready_priority_group k) (number_mask x))
           (set_threads (<[t := set_stat RT_THREAD_READY x]> (threads k)) k)).
Proof.
  intros Hrep Hx Hal Hl. unfold rt_schedule_insert_thread.
  wp_step. eapply wp_upd_thread; [done|].
  wp_step. eapply wp_get_thread; [apply lookup_insert_eq|].
  wp_step. eapply wp_on_heap; [by eapply (wp_list_enqueue _ L)|].
  intros ? h Hrep'. wp_step. exists h. done.
Qed.

(** ** Selecting the next thread *)

(** The ready threads in the order in which they would be chosen. *)
Definition run_order (L : lists) : list nat := ready_lists ≫= ready_queue L.

Lemma elem_of_ready_lists p : p ∈ ready_lists ↔ 0 <= p < RT_THREAD_PRIORITY_MAX.
Proof.
  unfold ready_lists. rewrite list_elem_of_fmap. setoid_rewrite elem_of_seq.
  unfold RT_THREAD_PRIORITY_MAX. split.
  - intros (n & -> & ?). lia.
  - intros ?. exists (Z.to_nat p). lia.
Qed.

(** The head of [run_order] is the head of the first queue that is not empty. *)
Lemma head_run_order L p t :
  0 <= p < RT_THREAD_PRIORITY_MAX → head (ready_queue L p) = Some t →
  (∀ q, 0 <= q < p → ready_queue L q = []) → head (run_order L) = Some t.
Proof.
  intros Hp Ht Hlow. unfold run_order, ready_lists.
  assert (seq 0 (Z.to_nat RT_THREAD_PRIORITY_MAX)
          = seq 0 (Z.to_nat p) ++ Z.to_nat p :: seq (S (Z.to_nat p)) (31 - Z.to_nat p)) as ->.
  { rewrite cons_seq. transitivity (seq 0 (Z.to_nat p + S (31 - Z.to_nat p))).
    - f_equal. unfold RT_THREAD_PRIORITY_MAX in *. lia.
    - by rewrite seq_app. }
  rewrite fmap_app, bind_app, fmap_cons, bind_cons.
  assert (((Z.of_nat <$> seq 0 (Z.to_nat p)) ≫= ready_queue L) = []) as ->.
  - assert (∀ n, n ∈ seq 0 (Z.to_nat p) → ready_queue L (Z.of_nat n) = []) as H.
    { intros n Hn%elem_of_seq. apply Hlow. lia. }
    induction (seq 0 (Z.to_nat p)) as [|n ns IH]; [done|]. csimpl.
    rewrite H by set_solver. apply IH. intros. apply H. set_solver.
  - replace (Z.of_nat (Z.to_nat p)) with p by lia. simpl.
    by destruct (ready_queue L p); simplify_eq/=.
Qed.

Section select.
Context {k : kernel} {L : lists}.
Hypothesis Hinv : sched_inv k L.

(** [__rt_ffs] on the bitmap finds the highest priority with a ready thread. *)
Lemma highest_ready_priority_spec t x :
  threads k !! t = Some x → stat x = RT_THREAD_READY →
  let p := highest_ready_priority k in
  0 <= p < RT_THREAD_PRIORITY_MAX ∧ ready_queue L p ≠ [] ∧
  ∀ q, 0 <= q < p → ready_queue L q = [].
Proof.
  intros Hx Hs. unfold highest_ready_priority. set (g := rt_thread_ready_priority_group k).
  pose proof (so_group_range _ _ _ _ Hinv) as Hgr. fold g in Hgr.
  pose proof (so_prio _ _ _ _ Hinv _ _ Hx) as Hp.
  assert (Z.testbit g (current_priority x) = true) as Hb.
  { apply (so_group _ _ _ _ Hinv); [done|].
    apply (elem_of_not_nil t). apply (so_ready _ _ _ _ Hinv); eauto. }
  assert (g ≠ 0) as Hg0 by (intros E; by rewrite E, Z.bits_0 in Hb).
  destruct (__rt_ffs_spec g) as [(H1 & H2 & H3) H4]; [lia|].
  unfold wrap. rewrite Z.mod_small by lia.
  assert (∀ p, 0 <= p < RT_THREAD_PRIORITY_MAX → Z.testbit g p = false → ready_queue L p = []) as Hf.
  { intros p Hpr Hp0. destruct (ready_queue L p) eqn:E; [done|].
    assert (Z.testbit g p = true); [|congruence].
    apply (so_group _ _ _ _ Hinv); [done|]. by rewrite E. }
  unfold RT_THREAD_PRIORITY_MAX in *. split_and!; [lia|lia| |].
  - apply (so_group _ _ _ _ Hinv); [unfold RT_THREAD_PRIORITY_MAX; lia|done].
  - intros q Hq. apply Hf; [lia|]. apply H3. lia.
Qed.

Lemma run_order_ready t :
  t ∈ run_order L ↔ ∃ x, threads k !! t = Some x ∧ stat x = RT_THREAD_READY.
Proof.
  unfold run_order. rewrite list_elem_of_bind. setoid_rewrite elem_of_ready_lists. split.
  - intros (p & Hp & Hin). apply (so_ready _ _ _ _ Hinv) in Hp as (x & ? & ? & ?); eauto.
  - intros (x & Hx & Hs). exists (current_priority x). split.
    + by eapply (so_ready _ _ _ _ Hinv); eauto using so_prio.
    + eauto using so_prio.
Qed.
End select.

Definition stack_ok (x : rt_thread) : bool :=
  (stack_byte0 x =? 35) && (stack_addr x <? sp x)
  && (sp x <=? u32 (stack_addr x + stack_size x)).

(** The effect of a scheduling point that elects [to]: nothing if it runs
    already, a context switch otherwise. *)
Definition switched (cur to : nat) (prio : Z) (k : kernel) : kernel :=
  if decide (to = cur) then k
  else
    set_hw_log (hw_log k ++ [if rt_interrupt_nest k =? 0 then HW_switch cur to
                             else HW_switch_interrupt cur to])
      (set_rt_current_thread (Some to) (set_rt_current_priority prio k)).

Lemma wp_rd_next_kernel k L hd l (Q : node → kernel → Prop) :
  rep (heap k) L → L !! hd = Some l → Q (default hd (head l)) k →
  wp (on_heap (rd_next hd)) k Q.
Proof.
  intros Hrep Hl HQ. unfold on_heap. apply wp_zoom. eapply wp_next_head; [done..|].
  by rewrite set_heap_id.
Qed.

Lemma wp_stack_check k t x (Q : unit → kernel → Prop) :
  threads k !! t = Some x → stack_ok x = true → Q tt k →
  wp (rt_scheduler_stack_check t) k Q.
Proof.
  unfold stack_ok. rewrite !andb_true_iff. intros Hx [[H1 H2] H3] HQ.
  unfold rt_scheduler_stack_check. wp_step. eapply wp_get_thread; [done|].
  rewrite H1. destruct (Z.leb_spec (sp x) (stack_addr x)); [lia|].
  destruct (Z.ltb_spec (u32 (stack_addr x + stack_size x)) (sp x)); [lia|]. done.
Qed.

Lemma rt_schedule_locked k :
  rt_scheduler_lock_nest k ≠ 0 → rt_schedule k = Ok (tt, k).
Proof.
  intros H. unfold rt_schedule, mbind, M_bind, get. by rewrite (proj2 (Z.eqb_neq _ _) H).
Qed.

(** The elected thread is the head of the run order, and its queue the one the
    bitmap designates. *)
Lemma elected_queue k L to :
  sched_inv k L → head (run_order L) = Some to →
  head (ready_queue L (highest_ready_priority k)) = Some to ∧
  0 <= highest_ready_priority k < RT_THREAD_PRIORITY_MAX ∧
  ∃ x, threads k !! to = Some x ∧ stat x = RT_THREAD_READY ∧
       current_priority x = highest_ready_priority k.
Proof.
  intros Hinv Hhd. assert (to ∈ run_order L) as Hto by by apply head_Some_elem_of.
  apply (run_order_ready Hinv) in Hto as (x & Hx & Hs).
  destruct (highest_ready_priority_spec Hinv to x Hx Hs) as (Hp & Hne & Hlow).
  destruct (ready_queue L (highest_ready_priority k)) as [|t q] eqn:Hq; [done|].
  pose proof (head_run_order L (highest_ready_priority k) t Hp ltac:(by rewrite Hq) Hlow) as Ht.
  rewrite Ht in Hhd. simplify_eq. split_and!; [done|lia|lia|].
  apply (so_ready _ _ _ _ Hinv); [done|]. rewrite Hq. set_solver.
Qed.

Lemma wp_rt_schedule k L cur to x :
  sched_inv k L → rt_scheduler_lock_nest k = 0 → rt_current_thread k = Some cur →
  head (run_order L) = Some to → threads k !! to = Some x → stack_ok x = true →
  wp rt_schedule k (λ _ k', k' = switched cur to (current_priority x) k).
Proof.
  intros Hinv Hlk Hcur Hto Hx Hst.
  destruct (elected_queue _ _ _ Hinv Hto) as (Hhd & Hp & x' & Hx' & Hs & Hpx). simplify_eq.
  unfold rt_schedule. wp_step. wp_step. rewrite Hlk, Z.eqb_refl.
  wp_step. eapply wp_rd_next_kernel; [apply (so_rep _ _ _ _ Hinv)|by apply (so_queue _ _ _ _ Hinv)|].
  wp_step. apply (wp_deref _ to).
  { by destruct (ready_queue L _); simplify_eq/=. }
  rewrite Hcur. unfold switched. destruct (decide (to = cur)) as [->|Hne].
  { rewrite decide_True by done. by wp_step. }
  rewrite decide_False by naive_solver.
  wp_step. wp_step. wp_step. wp_step. wp_step.
  eapply wp_stack_check; [done..|]. wp_step. eapply wp_deref; [done|].
  unfold log_hw. wp_step. simpl. unfold wrap. rewrite Z.mod_small.
  - by rewrite Hpx.
  - unfold RT_THREAD_PRIORITY_MAX in Hp. lia.
Qed.

(** The projections a switch leaves alone. *)
Lemma sched_inv_switched k L cur to p :
  sched_inv k L → sched_inv (switched cur to p k) L.
Proof. intros H. unfold switched. by case_decide. Qed.

Lemma current_switched k cur to p :
  rt_current_thread k = Some cur → rt_current_thread (switched cur to p k) = Some to.
Proof. intros H. unfold switched. case_decide; by subst. Qed.
