(* ===== verification/Object.v ===== *)
(** Kernel objects, [src/object.c]: registration of an object in the container
    of its class, removal, and the static/dynamic distinction.

    The base structure of an object that was never registered is zero, as static
    memory is.  The hook pointers are null, as [object.c] leaves them. *)

From Stdlib Require Import ZArith Lia.
From stdpp Require Import strings base gmap list.
From S2P Require Import Prelude RtList Kernel.
Local Open Scope Z_scope.

(** [rt_module_self] of [module.c]: the module of the running thread. *)
Definition rt_module_self : K (option nat) :=
  k ← get;
  match rt_current_thread k with
  | None => mret None
  | Some t => o ← get_object (O_thread t); mret (module_id o)
  end.

(** [rt_strncpy(object->name, name, RT_NAME_MAX)]. *)
Definition object_name (s : string) : string := String.substring 0 RT_NAME_MAX s.

Definition zero_object : rt_object := mk_object "" 0 0 None.

Definition rt_object_init (o : objid) (ty : Z) (nm : string) : K unit :=
  m ← rt_module_self;
  k ← get;
  let old := default zero_object (objects k !! o) in
  modify (λ k, set_objects
    (<[o := set_name (object_name nm)
              (set_type (u8 (Z.lor ty RT_Object_Class_Static)) old)]> (objects k)) k);;
  on_heap (rt_list_insert_after (N_container m ty) (N_object o)).

Definition rt_object_detach (o : objid) : K unit :=
  on_heap (rt_list_remove (N_object o)).

Definition rt_object_is_systemobject (o : objid) : K bool :=
  x ← get_object o; mret (negb (Z.land (type x) RT_Object_Class_Static =? 0)).

(** The dynamic objects.  [o] is the object that the memory returned by
    [RT_KERNEL_MALLOC] becomes; [None] when there is none. *)
Definition RT_OBJECT_FLAG_MODULE : Z := 0x80.

Definition RT_DEBUG_NOT_IN_INTERRUPT : K unit :=
  k ← get; rt_assert (rt_interrupt_nest k =? 0).
Definition RT_DEBUG_IN_THREAD_CONTEXT : K unit :=
  k ← get;
  rt_assert (bool_decide (is_Some (rt_current_thread k)));;
  RT_DEBUG_NOT_IN_INTERRUPT.

Definition rt_object_allocate (o : option objid) (ty : Z) (nm : string) : K (option objid) :=
  RT_DEBUG_NOT_IN_INTERRUPT;;
  m ← rt_module_self;
  match o with
  | None => mret None
  | Some o =>
      modify (λ k, set_objects
        (<[o := mk_object (object_name nm) (u8 ty)
                  (match m with Some _ => RT_OBJECT_FLAG_MODULE | None => 0 end) m]> (objects k)) k);;
      on_heap (rt_list_insert_after
        (N_container (if ty =? RT_Object_Class_Module then None else m) ty) (N_object o));;
      mret (Some o)
  end.

(** [free] is [RT_KERNEL_FREE]. *)
Definition rt_object_delete (free : objid → K unit) (o : objid) : K unit :=
  x ← get_object o;
  rt_assert (Z.land (type x) RT_Object_Class_Static =? 0);;
  on_heap (rt_list_remove (N_object o));;
  free o.
