(* ===== verification/Timer.v ===== *)
(** Timers, [src/timer.c], first part: the timer structure, the removal of a
    timer from the rows of its list, and stopping, detaching and controlling it.
    [Thread.v] holds the operations that wake threads. *)

From Stdlib Require Import ZArith Lia.
From stdpp Require Import strings base gmap list.
From S2P Require Import Prelude RtList Kernel Object.
Local Open Scope Z_scope.

Definition timer_rows : list nat := seq 0 RT_TIMER_SKIP_LIST_LEVEL.

Definition clear_flag (f : Z) (o : rt_object) : rt_object :=
  set_flag (Z.land (flag o) (u8 (Z.lnot f))) o.
Definition raise_flag (f : Z) (o : rt_object) : rt_object :=
  set_flag (Z.lor (flag o) f) o.

(** [_rt_timer_init]. *)
Definition rt_timer_init_fields (tm : timer_id) (timeout : timeout_fn) (param : nat)
    (time fl : Z) : K unit :=
  upd_object (O_timer tm) (set_flag fl);;
  upd_object (O_timer tm) (clear_flag RT_TIMER_FLAG_ACTIVATED);;
  modify (λ k, set_timers (<[tm := mk_timer timeout param time 0]> (timers k)) k);;
  foldr (λ i m, on_heap (rt_list_init (N_row tm i));; m) (mret tt) timer_rows.

Definition rt_timer_init (tm : timer_id) (nm : string) (timeout : timeout_fn)
    (param : nat) (time fl : Z) : K unit :=
  rt_object_init (O_timer tm) RT_Object_Class_Timer nm;;
  rt_timer_init_fields tm timeout param time fl.

(** [rt_timer_list_next_timeout]: the last row holds every timer. *)
Definition rt_timer_list_next_timeout (soft : bool) : K Z :=
  let hd := N_timer_list soft (RT_TIMER_SKIP_LIST_LEVEL - 1) in
  e ← on_heap (rt_list_isempty hd);
  if (e : bool) then mret RT_TICK_MAX
  else
    n ← on_heap (rd_next hd);
    tm ← deref (row_entry (RT_TIMER_SKIP_LIST_LEVEL - 1) n);
    x ← get_timer tm; mret (timeout_tick x).

(** [_rt_timer_remove]. *)
Definition rt_timer_remove (tm : timer_id) : K unit :=
  foldr (λ i m, on_heap (rt_list_remove (N_row tm i));; m) (mret tt) timer_rows.

Definition rt_timer_detach (tm : timer_id) : K Z :=
  rt_timer_remove tm;;
  rt_object_detach (O_timer tm);;
  mret (- RT_EOK).

Definition rt_timer_stop (tm : timer_id) : K Z :=
  o ← get_object (O_timer tm);
  if Z.land (flag o) RT_TIMER_FLAG_ACTIVATED =? 0 then mret (- RT_ERROR)
  else
    rt_timer_remove tm;;
    upd_object (O_timer tm) (clear_flag RT_TIMER_FLAG_ACTIVATED);;
    mret RT_EOK.

Inductive timer_cmd :=
  | RT_TIMER_CTRL_SET_TIME (tick : Z) | RT_TIMER_CTRL_GET_TIME
  | RT_TIMER_CTRL_SET_ONESHOT | RT_TIMER_CTRL_SET_PERIODIC | RT_TIMER_CTRL_OTHER.

(** The value written through [arg], if any, and the status. *)
Definition rt_timer_control (tm : timer_id) (cmd : timer_cmd) : K (option Z * Z) :=
  match cmd with
  | RT_TIMER_CTRL_GET_TIME => x ← get_timer tm; mret (Some (init_tick x), RT_EOK)
  | RT_TIMER_CTRL_SET_TIME tick => upd_timer tm (set_init_tick tick);; mret (None, RT_EOK)
  | RT_TIMER_CTRL_SET_ONESHOT =>
      upd_object (O_timer tm) (clear_flag RT_TIMER_FLAG_PERIODIC);; mret (None, RT_EOK)
  | RT_TIMER_CTRL_SET_PERIODIC =>
      upd_object (O_timer tm) (raise_flag RT_TIMER_FLAG_PERIODIC);; mret (None, RT_EOK)
  | RT_TIMER_CTRL_OTHER => mret (None, RT_EOK)
  end.

Definition rt_system_timer_init : K unit :=
  foldr (λ i m, on_heap (rt_list_init (N_timer_list false i));; m) (mret tt) timer_rows.
