(* ===== verification/Thread.v ===== *)
(** Threads, [src/thread.c]: start, suspension, resumption, exit, yield, sleep
    and control, and the timer operations of [src/timer.c] that wake threads.
    The order of the definitions follows the calls.

    The running thread goes on after [rt_schedule] returns in it; what it does
    then is a computation of its own ([outcome]). *)

From Stdlib Require Import ZArith Lia.
From stdpp Require Import strings base gmap list.
From S2P Require Import Prelude RtList Bitmap Kernel Scheduler Object Timer.
Local Open Scope Z_scope.

(** A call of the running thread either returns, or reaches [rt_schedule] and
    goes on with a computation when the thread runs again (at once if the
    scheduler elected it). *)
Inductive outcome (A : Type) :=
  | Return (a : A)
  | Resched (rest : kernel → res (outcome A * kernel)).
Arguments Return {A} a.
Arguments Resched {A} rest.

(** Go on with [f] once the computation has returned. *)
Fixpoint after {A B} (o : outcome A) (f : A → K (outcome B)) : K (outcome B) :=
  match o with
  | Return a => f a
  | Resched rest => mret (Resched (λ k,
      match rest k with
      | Ok (o, k') => after o f k'
      | Err e => Err e
      end))
  end.

Definition timer_thread : nat := 0.
Definition idle : nat := 1.

Definition rt_thread_self : K (option nat) := k ← get; mret (rt_current_thread k).

(** * Suspending and resuming *)

Definition rt_thread_suspend (t : nat) : K Z :=
  x ← get_thread t;
  if decide (stat x = RT_THREAD_READY) then
    upd_thread t (set_stat RT_THREAD_SUSPEND);;
    rt_schedule_remove_thread t;;
    rt_timer_stop (T_thread t);;
    mret RT_EOK
  else mret (- RT_ERROR).

Definition rt_thread_resume (t : nat) : K Z :=
  x ← get_thread t;
  if decide (stat x = RT_THREAD_SUSPEND) then
    on_heap (rt_list_remove (N_tlist t));;
    rt_timer_stop (T_thread t);;
    rt_schedule_insert_thread t;;
    mret RT_EOK
  else mret (- RT_ERROR).

(** * Starting a timer *)

(** The bound of the loops over a list: no list has more nodes than memory. *)
Definition list_fuel (k : kernel) : nat := S (size (heap k)).

(** The search in one row of the skip list, from [row_head]. *)
Fixpoint timer_row_search (fuel : nat) (soft : bool) (lvl : nat) (tick : Z)
    (row_head : node) : K node :=
  match fuel with
  | O => fail F_fuel
  | S fuel =>
      e ← on_heap (rd_prev (N_timer_list soft lvl));
      if decide (row_head = e) then mret row_head
      else
        p ← on_heap (rd_next row_head);
        tm ← deref (row_entry lvl p);
        x ← get_timer tm;
        let d := u32 (timeout_tick x - tick) in
        if d =? 0 then
          r ← on_heap (rd_next row_head); timer_row_search fuel soft lvl tick r
        else if d <? RT_TICK_MAX / 2 then mret row_head
        else
          r ← on_heap (rd_next row_head); timer_row_search fuel soft lvl tick r
  end.

(** [row_head[lvl] + 1]: the same structure's node in the next row. *)
Definition node_below (n : node) : node :=
  match n with
  | N_timer_list s l => N_timer_list s (S l)
  | N_row tm l => N_row tm (S l)
  | _ => n
  end.

(** The outer loop: the insertion point of every row, first row first. *)
Fixpoint timer_row_heads (soft : bool) (tick : Z) (row_head : node) (lvls : list nat)
    : K (list node) :=
  match lvls with
  | [] => mret []
  | lvl :: lvls =>
      k ← get;
      h ← timer_row_search (list_fuel k) soft lvl tick row_head;
      hs ← timer_row_heads soft tick (node_below h) lvls;
      mret (h :: hs)
  end.

(** The loop over [row_lvl]: link the timer in the rows above the last while
    the tested bits of the insertion counter are zero. *)
Fixpoint timer_link_rows (tm : timer_id) (row_head : list node) (tst_nr : Z)
    (lvls : list nat) : K unit :=
  match lvls with
  | [] => mret tt
  | row_lvl :: lvls =>
      if Z.land tst_nr RT_TIMER_SKIP_LIST_MASK =? 0 then
        h ← deref (row_head !! (RT_TIMER_SKIP_LIST_LEVEL - row_lvl)%nat);
        on_heap (rt_list_insert_after h (N_row tm (RT_TIMER_SKIP_LIST_LEVEL - row_lvl)));;
        timer_link_rows tm row_head
          (Z.shiftr tst_nr (Z.shiftr (RT_TIMER_SKIP_LIST_MASK + 1) 1)) lvls
      else mret tt
  end.

Definition rt_tick_get : K Z := k ← get; mret (rt_tick k).

Definition rt_timer_start (tm : timer_id) : K Z :=
  rt_timer_remove tm;;
  upd_object (O_timer tm) (clear_flag RT_TIMER_FLAG_ACTIVATED);;
  x ← get_timer tm;
  rt_assert (init_tick x <? RT_TICK_MAX / 2);;
  now ← rt_tick_get;
  let tick := u32 (now + init_tick x) in
  upd_timer tm (set_timeout_tick tick);;
  o ← get_object (O_timer tm);
  let soft := negb (Z.land (flag o) RT_TIMER_FLAG_SOFT_TIMER =? 0) in
  row_head ← timer_row_heads soft tick (N_timer_list soft 0) timer_rows;
  modify (λ k, set_random_nr (u32 (random_nr k + 1)) k);;
  k ← get;
  h ← deref (row_head !! (RT_TIMER_SKIP_LIST_LEVEL - 1)%nat);
  on_heap (rt_list_insert_after h (N_row tm (RT_TIMER_SKIP_LIST_LEVEL - 1)));;
  timer_link_rows tm row_head (random_nr k) (seq 2 (RT_TIMER_SKIP_LIST_LEVEL - 1));;
  upd_object (O_timer tm) (raise_flag RT_TIMER_FLAG_ACTIVATED);;
  if soft then
    y ← get_thread timer_thread;
    if decide (stat y = RT_THREAD_READY) then mret (- RT_EOK)
    else rt_thread_resume timer_thread;; rt_schedule;; mret (- RT_EOK)
  else mret (- RT_EOK).

(** * Creating and starting a thread *)

(** The register frame of the Cortex-M7 port with its FPU flag word: 17 words. *)
Definition sizeof_stack_frame : Z := 68.

(** [rt_hw_stack_init] of [libcpu/arm/cortex-m7/cpuport.c]: the initial stack
    pointer.  The contents of the frame are not modelled. *)
Definition rt_hw_stack_init (stack_top : Z) : Z :=
  u32 (RT_ALIGN_DOWN (u32 (stack_top + 4)) 8 - sizeof_stack_frame).

Definition zero_thread : rt_thread :=
  mk_thread 0 0 0 0 0 RT_THREAD_INIT 0 0 0 0 0 0 0 None 0 0 0.

(** [_rt_thread_init].  [number_mask] keeps what the memory held. *)
Definition rt_thread_init_fields (t : nat) (entry_fn param : nat)
    (stack_start size priority tick : Z) : K Z :=
  on_heap (rt_list_init (N_tlist t));;
  rt_assert (priority <? RT_THREAD_PRIORITY_MAX);;
  modify (λ k,
    let old := default zero_thread (threads k !! t) in
    set_threads (<[t :=
      set_entry entry_fn (set_parameter param
      (set_stack_addr stack_start (set_stack_size size
      (set_stack_byte0 35
      (set_sp (rt_hw_stack_init (u32 (stack_start + size - 4)))
      (set_init_priority priority (set_current_priority priority
      (set_th_init_tick tick (set_remaining_tick tick
      (set_error RT_EOK (set_stat RT_THREAD_INIT
      (set_cleanup None (set_user_data 0 old)))))))))))))]> (threads k)) k);;
  o ← get_object (O_thread t);
  rt_timer_init (T_thread t) (name o) TF_thread_timeout t 0 RT_TIMER_FLAG_ONE_SHOT;;
  mret RT_EOK.

Definition rt_thread_init (t : nat) (nm : string) (entry_fn param : nat)
    (stack_start size priority tick : Z) : K Z :=
  rt_assert (negb (stack_start =? 0));;
  rt_object_init (O_thread t) RT_Object_Class_Thread nm;;
  rt_thread_init_fields t entry_fn param stack_start size priority tick.

Definition rt_thread_startup (t : nat) : K Z :=
  x ← get_thread t;
  rt_assert (bool_decide (stat x = RT_THREAD_INIT));;
  upd_thread t (set_current_priority (init_priority x));;
  upd_thread t (λ x, set_number_mask (u32 (Z.shiftl 1 (current_priority x))) x);;
  upd_thread t (set_stat RT_THREAD_SUSPEND);;
  rt_thread_resume t;;
  self ← rt_thread_self;
  match self with
  | Some _ => rt_schedule;; mret RT_EOK
  | None => mret RT_EOK
  end.

(** * Ending a thread *)

Definition rt_thread_exit : K unit :=
  self ← rt_thread_self;
  t ← deref self;
  rt_schedule_remove_thread t;;
  upd_thread t (set_stat RT_THREAD_CLOSE);;
  rt_timer_detach (T_thread t);;
  sys ← rt_object_is_systemobject (O_thread t);
  x ← get_thread t;
  (if (sys : bool) && bool_decide (cleanup x = None)
   then rt_object_detach (O_thread t)
   else on_heap (rt_list_insert_after N_defunct (N_tlist t)));;
  rt_schedule.

Definition rt_thread_detach (t : nat) : K Z :=
  rt_schedule_remove_thread t;;
  rt_timer_detach (T_thread t);;
  upd_thread t (set_stat RT_THREAD_CLOSE);;
  rt_object_detach (O_thread t);;
  x ← get_thread t;
  (if decide (cleanup x = None) then mret tt
   else on_heap (rt_list_insert_after N_defunct (N_tlist t)));;
  mret RT_EOK.

Definition rt_thread_delete (t : nat) : K Z :=
  rt_schedule_remove_thread t;;
  rt_timer_detach (T_thread t);;
  upd_thread t (set_stat RT_THREAD_CLOSE);;
  on_heap (rt_list_insert_after N_defunct (N_tlist t));;
  mret RT_EOK.

(** * Giving up the processor *)

Definition rt_thread_yield : K Z :=
  self ← rt_thread_self;
  t ← deref self;
  x ← get_thread t;
  a ← on_heap (rd_next (N_tlist t));
  b ← on_heap (rd_prev (N_tlist t));
  if bool_decide (stat x = RT_THREAD_READY) && bool_decide (a ≠ b) then
    on_heap (rt_list_remove (N_tlist t));;
    on_heap (rt_list_insert_before (N_ready (current_priority x)) (N_tlist t));;
    rt_schedule;;
    mret RT_EOK
  else mret RT_EOK.

Definition rt_thread_sleep (tick : Z) : K (outcome Z) :=
  self ← rt_thread_self;
  t ← deref self;
  rt_thread_suspend t;;
  rt_timer_control (T_thread t) (RT_TIMER_CTRL_SET_TIME tick);;
  rt_timer_start (T_thread t);;
  rt_schedule;;
  mret (Resched (
    x ← get_thread t;
    (if error x =? - RT_ETIMEOUT then upd_thread t (set_error RT_EOK) else mret tt);;
    mret (Return RT_EOK))).

Definition rt_thread_delay (tick : Z) : K (outcome Z) := rt_thread_sleep tick.

(** * Control *)

Inductive thread_cmd :=
  | RT_THREAD_CTRL_STARTUP | RT_THREAD_CTRL_CLOSE
  | RT_THREAD_CTRL_CHANGE_PRIORITY (prio : Z) | RT_THREAD_CTRL_INFO.

Definition change_priority (p : Z) (x : rt_thread) : rt_thread :=
  set_number_mask (u32 (Z.shiftl 1 p)) (set_current_priority p x).

Definition rt_thread_control (t : nat) (cmd : thread_cmd) : K Z :=
  match cmd with
  | RT_THREAD_CTRL_CHANGE_PRIORITY p =>
      x ← get_thread t;
      (if decide (stat x = RT_THREAD_READY) then
         rt_schedule_remove_thread t;;
         upd_thread t (change_priority p);;
         rt_schedule_insert_thread t
       else upd_thread t (change_priority p));;
      mret RT_EOK
  | RT_THREAD_CTRL_STARTUP => rt_thread_startup t
  | RT_THREAD_CTRL_CLOSE => rt_thread_delete t
  | RT_THREAD_CTRL_INFO => mret RT_EOK
  end.

(** * Time *)

Definition rt_thread_timeout (t : nat) : K unit :=
  x ← get_thread t;
  rt_assert (bool_decide (stat x = RT_THREAD_SUSPEND));;
  upd_thread t (set_error (- RT_ETIMEOUT));;
  on_heap (rt_list_remove (N_tlist t));;
  rt_schedule_insert_thread t;;
  rt_schedule.

Section timeouts.
(** The timeout functions of the application, by number. *)
Variable user_timeout : nat → nat → K unit.

Definition run_timeout (f : timeout_fn) (param : nat) : K unit :=
  match f with
  | TF_thread_timeout => rt_thread_timeout param
  | TF_user f => user_timeout f param
  end.

(** After the timeout function: restart a periodic timer that is still active. *)
Definition timer_rearm (tm : timer_id) : K unit :=
  o ← get_object (O_timer tm);
  if negb (Z.land (flag o) RT_TIMER_FLAG_PERIODIC =? 0)
     && negb (Z.land (flag o) RT_TIMER_FLAG_ACTIVATED =? 0) then
    upd_object (O_timer tm) (clear_flag RT_TIMER_FLAG_ACTIVATED);;
    rt_timer_start tm;; mret tt
  else upd_object (O_timer tm) (clear_flag RT_TIMER_FLAG_ACTIVATED).

(** The loop of [rt_timer_check]; [fuel] bounds the number of timers run. *)
Fixpoint timer_check_loop (fuel : nat) (current_tick : Z) : K unit :=
  match fuel with
  | O => fail F_fuel
  | S fuel =>
      let hd := N_timer_list false (RT_TIMER_SKIP_LIST_LEVEL - 1) in
      e ← on_heap (rt_list_isempty hd);
      if (e : bool) then mret tt
      else
        n ← on_heap (rd_next hd);
        tm ← deref (row_entry (RT_TIMER_SKIP_LIST_LEVEL - 1) n);
        x ← get_timer tm;
        if u32 (current_tick - timeout_tick x) <? RT_TICK_MAX / 2 then
          rt_timer_remove tm;;
          run_timeout (timeout_func x) (tm_parameter x);;
          now ← rt_tick_get;
          timer_rearm tm;;
          timer_check_loop fuel now
        else mret tt
  end.

Definition rt_timer_check (fuel : nat) : K unit :=
  now ← rt_tick_get; timer_check_loop fuel now.

(** [rt_tick_increase] of [src/clock.c], run by the clock interrupt. *)
Definition rt_tick_increase (fuel : nat) : K unit :=
  modify (λ k, set_rt_tick (u32 (rt_tick k + 1)) k);;
  self ← rt_thread_self;
  t ← deref self;
  upd_thread t (λ x, set_remaining_tick (u32 (remaining_tick x - 1)) x);;
  x ← get_thread t;
  (if remaining_tick x =? 0 then
     upd_thread t (λ x, set_remaining_tick (th_init_tick x) x);;
     rt_thread_yield;; mret tt
   else mret tt);;
  rt_timer_check fuel.

(** The loop of [rt_soft_timer_check], at the node [n]. *)
Fixpoint soft_timer_loop (fuel : nat) (current_tick : Z) (n : node) : K unit :=
  match fuel with
  | O => fail F_fuel
  | S fuel =>
      if decide (n = N_timer_list true (RT_TIMER_SKIP_LIST_LEVEL - 1)) then mret tt
      else
        tm ← deref (row_entry (RT_TIMER_SKIP_LIST_LEVEL - 1) n);
        x ← get_timer tm;
        if u32 (current_tick - timeout_tick x) <? RT_TICK_MAX / 2 then
          n ← on_heap (rd_next n);
          rt_timer_remove tm;;
          rt_exit_critical;;
          run_timeout (timeout_func x) (tm_parameter x);;
          now ← rt_tick_get;
          rt_enter_critical;;
          timer_rearm tm;;
          soft_timer_loop fuel now n
        else mret tt
  end.

Definition rt_soft_timer_check (fuel : nat) : K unit :=
  now ← rt_tick_get;
  rt_enter_critical;;
  n ← on_heap (rd_next (N_timer_list true (RT_TIMER_SKIP_LIST_LEVEL - 1)));
  soft_timer_loop fuel now n;;
  rt_exit_critical.

(** One round of the loop of [rt_thread_timer_entry]. *)
Definition rt_thread_timer_entry (fuel : nat) : K (outcome unit) :=
  next_timeout ← rt_timer_list_next_timeout true;
  let check (_ : Z) : K (outcome unit) := rt_soft_timer_check fuel;; mret (Return tt) in
  if next_timeout =? RT_TICK_MAX then
    self ← rt_thread_self;
    t ← deref self;
    rt_thread_suspend t;;
    rt_schedule;;
    mret (Resched (check 0))
  else
    current_tick ← rt_tick_get;
    if u32 (next_timeout - current_tick) <? RT_TICK_MAX / 2 then
      o ← rt_thread_delay (u32 (next_timeout - current_tick));
      after o check
    else check 0.
End timeouts.

Definition rt_timer_next_timeout_tick : K Z := rt_timer_list_next_timeout false.

Definition RT_TIMER_THREAD_PRIO : Z := 4.
Definition RT_TIMER_THREAD_STACK_SIZE : Z := 512.
Definition IDLE_THREAD_STACK_SIZE : Z := 512.

(** [stack] is the address of [timer_thread_stack], [entry_fn] the number of
    [rt_thread_timer_entry]. *)
Definition rt_system_timer_thread_init (stack : Z) (entry_fn : nat) : K unit :=
  foldr (λ i m, on_heap (rt_list_init (N_timer_list true i));; m) (mret tt) timer_rows;;
  rt_thread_init timer_thread "timer" entry_fn 0 stack RT_TIMER_THREAD_STACK_SIZE
    RT_TIMER_THREAD_PRIO 10;;
  rt_thread_startup timer_thread;;
  mret tt.

(** [rt_thread_idle_init] of [src/idle.c]; [stack] is the address of
    [rt_thread_stack], [entry_fn] the number of [rt_thread_idle_entry]. *)
Definition rt_thread_idle_init (stack : Z) (entry_fn : nat) : K unit :=
  rt_thread_init idle "tidle" entry_fn 0 stack IDLE_THREAD_STACK_SIZE
    (RT_THREAD_PRIORITY_MAX - 1) 32;;
  rt_thread_startup idle;;
  mret tt.

Definition rt_tick_set (tick : Z) : K unit := modify (set_rt_tick tick).

Definition rt_tick_from_millisecond (ms : Z) : Z :=
  u32 (u32 (RT_TICK_PER_SECOND * ms) + 999) / 1000.

Definition rt_interrupt_enter : K unit :=
  modify (λ k, set_rt_interrupt_nest (u8 (rt_interrupt_nest k + 1)) k).
Definition rt_interrupt_leave : K unit :=
  modify (λ k, set_rt_interrupt_nest (u8 (rt_interrupt_nest k - 1)) k).
Definition rt_interrupt_get_nest : K Z := k ← get; mret (rt_interrupt_nest k).
