(* ===== verification/Ipc.v ===== *)
(** Inter-process communication, [src/ipc.c], first part: the wait lists, the
    semaphore, the mutex with priority inheritance, and the event set.

    The hook pointers are null.  A call that blocks the running thread ends its
    first part at [rt_schedule] and goes on as the [Resched] computation. *)

From Stdlib Require Import ZArith Lia.
From stdpp Require Import strings base gmap list.
From S2P Require Import Prelude RtList Bitmap Kernel Scheduler Object Timer Thread.
Local Open Scope Z_scope.

(** * Wait lists *)

Definition rt_ipc_object_init (o : objid) : K unit := on_heap (rt_list_init (N_suspend o)).

(** The loop of the [RT_IPC_FLAG_PRIO] case: insert [t] before the first thread
    of lower priority; the result is the node at which the loop stops. *)
Fixpoint ipc_prio_loop (fuel : nat) (list : node) (t : nat) (n : node) : K node :=
  match fuel with
  | O => fail F_fuel
  | S fuel =>
      if decide (n = list) then mret n
      else
        s ← deref (tlist_entry n);
        x ← get_thread t;
        y ← get_thread s;
        if current_priority x <? current_priority y then
          on_heap (rt_list_insert_before (N_tlist s) (N_tlist t));; mret n
        else
          n ← on_heap (rd_next n); ipc_prio_loop fuel list t n
  end.

Definition rt_ipc_list_suspend (list : node) (t : nat) (fl : Z) : K unit :=
  rt_thread_suspend t;;
  if fl =? RT_IPC_FLAG_FIFO then on_heap (rt_list_insert_before list (N_tlist t))
  else if fl =? RT_IPC_FLAG_PRIO then
    k ← get;
    n ← on_heap (rd_next list);
    n ← ipc_prio_loop (list_fuel k) list t n;
    if decide (n = list) then on_heap (rt_list_insert_before list (N_tlist t)) else mret tt
  else mret tt.

Definition rt_ipc_list_resume (list : node) : K unit :=
  n ← on_heap (rd_next list);
  t ← deref (tlist_entry n);
  rt_thread_resume t;; mret tt.

Fixpoint ipc_resume_loop (fuel : nat) (list : node) : K unit :=
  match fuel with
  | O => fail F_fuel
  | S fuel =>
      e ← on_heap (rt_list_isempty list);
      if (e : bool) then mret tt
      else
        n ← on_heap (rd_next list);
        t ← deref (tlist_entry n);
        upd_thread t (set_error (- RT_ERROR));;
        rt_thread_resume t;;
        ipc_resume_loop fuel list
  end.

Definition rt_ipc_list_resume_all (list : node) : K unit :=
  k ← get; ipc_resume_loop (list_fuel k) list.

(** The common end of the blocking calls: join the wait list, start the timer of
    the thread if there is a waiting time, and schedule.  The result is the tick
    at which the timer was started, 0 if it was not. *)
Definition wait_on (list : node) (t : nat) (fl time : Z) : K Z :=
  rt_ipc_list_suspend list t fl;;
  tick_delta ←
    (if 0 <? time then
       now ← rt_tick_get;
       rt_timer_control (T_thread t) (RT_TIMER_CTRL_SET_TIME time);;
       rt_timer_start (T_thread t);;
       mret now
     else mret 0);
  rt_schedule;;
  mret tick_delta.

(** [thread->error], the result of a wait that does not loop. *)
Definition wait_result (t : nat) : K (outcome Z) :=
  y ← get_thread t;
  if negb (error y =? RT_EOK) then mret (Return (error y)) else mret (Return RT_EOK).

Inductive ipc_cmd := RT_IPC_CMD_RESET (arg : Z) | RT_IPC_CMD_OTHER.

(** * Semaphore *)

Definition rt_sem_init (s : nat) (nm : string) (value fl : Z) : K Z :=
  rt_object_init (O_sem s) RT_Object_Class_Semaphore nm;;
  rt_ipc_object_init (O_sem s);;
  put_sem s (mk_semaphore (u16 value));;
  upd_object (O_sem s) (set_flag fl);;
  mret RT_EOK.

Definition rt_sem_detach (s : nat) : K Z :=
  rt_ipc_list_resume_all (N_suspend (O_sem s));;
  rt_object_detach (O_sem s);;
  mret RT_EOK.

Definition rt_sem_create (new : option nat) (nm : string) (value fl : Z) : K (option nat) :=
  RT_DEBUG_NOT_IN_INTERRUPT;;
  o ← rt_object_allocate (O_sem <$> new) RT_Object_Class_Semaphore nm;
  match new with
  | None => mret None
  | Some s =>
      rt_ipc_object_init (O_sem s);;
      put_sem s (mk_semaphore (u16 value));;
      upd_object (O_sem s) (set_flag fl);;
      mret (Some s)
  end.

Definition rt_sem_delete (free : objid → K unit) (s : nat) : K Z :=
  RT_DEBUG_NOT_IN_INTERRUPT;;
  rt_ipc_list_resume_all (N_suspend (O_sem s));;
  rt_object_delete free (O_sem s);;
  mret RT_EOK.

Definition rt_sem_take (s : nat) (time : Z) : K (outcome Z) :=
  x ← get_sem s;
  if 0 <? sem_value x then
    put_sem s (mk_semaphore (u16 (sem_value x - 1)));;
    mret (Return RT_EOK)
  else if time =? 0 then mret (Return (- RT_ETIMEOUT))
  else
    RT_DEBUG_IN_THREAD_CONTEXT;;
    self ← rt_thread_self;
    t ← deref self;
    upd_thread t (set_error RT_EOK);;
    o ← get_object (O_sem s);
    wait_on (N_suspend (O_sem s)) t (flag o) time;;
    mret (Resched (wait_result t)).

Definition rt_sem_trytake (s : nat) : K (outcome Z) := rt_sem_take s 0.

Definition rt_sem_release (s : nat) : K Z :=
  e ← on_heap (rt_list_isempty (N_suspend (O_sem s)));
  if negb e then
    rt_ipc_list_resume (N_suspend (O_sem s));;
    rt_schedule;;
    mret RT_EOK
  else
    x ← get_sem s;
    put_sem s (mk_semaphore (u16 (sem_value x + 1)));;
    mret RT_EOK.

Definition rt_sem_control (s : nat) (cmd : ipc_cmd) : K Z :=
  match cmd with
  | RT_IPC_CMD_RESET value =>
      rt_ipc_list_resume_all (N_suspend (O_sem s));;
      put_sem s (mk_semaphore (u16 value));;
      rt_schedule;;
      mret RT_EOK
  | RT_IPC_CMD_OTHER => mret (- RT_ERROR)
  end.

(** * Mutex *)

Definition mutex_free : rt_mutex := mk_mutex 1 0xff 0 None.

Definition rt_mutex_init (m : nat) (nm : string) (fl : Z) : K Z :=
  rt_object_init (O_mutex m) RT_Object_Class_Mutex nm;;
  rt_ipc_object_init (O_mutex m);;
  modify (λ k, set_mutexes (<[m := mutex_free]> (mutexes k)) k);;
  upd_object (O_mutex m) (set_flag fl);;
  mret RT_EOK.

Definition rt_mutex_detach (m : nat) : K Z :=
  rt_ipc_list_resume_all (N_suspend (O_mutex m));;
  rt_object_detach (O_mutex m);;
  mret RT_EOK.

Definition rt_mutex_create (new : option nat) (nm : string) (fl : Z) : K (option nat) :=
  RT_DEBUG_NOT_IN_INTERRUPT;;
  o ← rt_object_allocate (O_mutex <$> new) RT_Object_Class_Mutex nm;
  match new with
  | None => mret None
  | Some m =>
      rt_ipc_object_init (O_mutex m);;
      modify (λ k, set_mutexes (<[m := mutex_free]> (mutexes k)) k);;
      upd_object (O_mutex m) (set_flag fl);;
      mret (Some m)
  end.

Definition rt_mutex_delete (free : objid → K unit) (m : nat) : K Z :=
  RT_DEBUG_NOT_IN_INTERRUPT;;
  rt_ipc_list_resume_all (N_suspend (O_mutex m));;
  rt_object_delete free (O_mutex m);;
  mret RT_EOK.

Definition rt_mutex_take (m : nat) (time : Z) : K (outcome Z) :=
  RT_DEBUG_IN_THREAD_CONTEXT;;
  self ← rt_thread_self;
  t ← deref self;
  upd_thread t (set_error RT_EOK);;
  x ← get_mutex m;
  if decide (owner x = Some t) then
    upd_mutex m (λ x, set_hold (u8 (hold x + 1)) x);;
    mret (Return RT_EOK)
  else if 0 <? mutex_value x then
    upd_mutex m (λ x, set_mutex_value (u16 (mutex_value x - 1)) x);;
    y ← get_thread t;
    upd_mutex m (λ x, set_owner (Some t) x);;
    upd_mutex m (λ x, set_original_priority (current_priority y) x);;
    upd_mutex m (λ x, set_hold (u8 (hold x + 1)) x);;
    mret (Return RT_EOK)
  else if time =? 0 then
    upd_thread t (set_error (- RT_ETIMEOUT));;
    mret (Return (- RT_ETIMEOUT))
  else
    y ← get_thread t;
    w ← deref (owner x);
    z ← get_thread w;
    (if current_priority y <? current_priority z then
       rt_thread_control w (RT_THREAD_CTRL_CHANGE_PRIORITY (current_priority y));; mret tt
     else mret tt);;
    o ← get_object (O_mutex m);
    wait_on (N_suspend (O_mutex m)) t (flag o) time;;
    mret (Resched (wait_result t)).

Definition rt_mutex_release (m : nat) : K Z :=
  RT_DEBUG_IN_THREAD_CONTEXT;;
  self ← rt_thread_self;
  t ← deref self;
  x ← get_mutex m;
  if decide (owner x ≠ Some t) then
    upd_thread t (set_error (- RT_ERROR));;
    mret (- RT_ERROR)
  else
    upd_mutex m (λ x, set_hold (u8 (hold x - 1)) x);;
    x ← get_mutex m;
    if hold x =? 0 then
      y ← get_thread t;
      (if negb (original_priority x =? current_priority y) then
         rt_thread_control t (RT_THREAD_CTRL_CHANGE_PRIORITY (original_priority x));; mret tt
       else mret tt);;
      e ← on_heap (rt_list_isempty (N_suspend (O_mutex m)));
      if negb e then
        n ← on_heap (rd_next (N_suspend (O_mutex m)));
        w ← deref (tlist_entry n);
        z ← get_thread w;
        upd_mutex m (λ x, set_owner (Some w) x);;
        upd_mutex m (λ x, set_original_priority (current_priority z) x);;
        upd_mutex m (λ x, set_hold (u8 (hold x + 1)) x);;
        rt_ipc_list_resume (N_suspend (O_mutex m));;
        rt_schedule;;
        mret RT_EOK
      else
        upd_mutex m (λ x, set_mutex_value (u16 (mutex_value x + 1)) x);;
        upd_mutex m (λ x, set_owner None x);;
        upd_mutex m (λ x, set_original_priority 0xff x);;
        mret RT_EOK
    else mret RT_EOK.

Definition rt_mutex_control (m : nat) (cmd : ipc_cmd) : K Z := mret (- RT_ERROR).

(** * Event set *)

Definition rt_event_init (e : nat) (nm : string) (fl : Z) : K Z :=
  rt_object_init (O_event e) RT_Object_Class_Event nm;;
  upd_object (O_event e) (set_flag fl);;
  rt_ipc_object_init (O_event e);;
  put_event e (mk_event 0);;
  mret RT_EOK.

Definition rt_event_detach (e : nat) : K Z :=
  rt_ipc_list_resume_all (N_suspend (O_event e));;
  rt_object_detach (O_event e);;
  mret RT_EOK.

Definition rt_event_create (new : option nat) (nm : string) (fl : Z) : K (option nat) :=
  RT_DEBUG_NOT_IN_INTERRUPT;;
  o ← rt_object_allocate (O_event <$> new) RT_Object_Class_Event nm;
  match new with
  | None => mret None
  | Some e =>
      upd_object (O_event e) (set_flag fl);;
      rt_ipc_object_init (O_event e);;
      put_event e (mk_event 0);;
      mret (Some e)
  end.

Definition rt_event_delete (free : objid → K unit) (e : nat) : K Z :=
  RT_DEBUG_NOT_IN_INTERRUPT;;
  rt_ipc_list_resume_all (N_suspend (O_event e));;
  rt_object_delete free (O_event e);;
  mret RT_EOK.

(** The test of [rt_event_send] on one waiting thread: what becomes of the
    thread's [event_set] if its condition holds. *)
Definition event_match (x : rt_thread) (s : Z) : option Z :=
  if negb (Z.land (event_info x) RT_EVENT_FLAG_AND =? 0) then
    if Z.land (event_set x) s =? event_set x then Some (event_set x) else None
  else if negb (Z.land (event_info x) RT_EVENT_FLAG_OR =? 0) then
    if negb (Z.land (event_set x) s =? 0) then Some (Z.land (event_set x) s) else None
  else None.

(** The loop over the wait list; the result is [need_schedule]. *)
Fixpoint event_send_loop (fuel : nat) (e : nat) (n : node) (need_schedule : bool) : K bool :=
  match fuel with
  | O => fail F_fuel
  | S fuel =>
      if decide (n = N_suspend (O_event e)) then mret need_schedule
      else
        t ← deref (tlist_entry n);
        x ← get_thread t;
        v ← get_event e;
        match event_match x (set v) with
        | None =>
            n ← on_heap (rd_next n);
            event_send_loop fuel e n need_schedule
        | Some s =>
            upd_thread t (set_event_set s);;
            n ← on_heap (rd_next n);
            (if negb (Z.land (event_info x) RT_EVENT_FLAG_CLEAR =? 0)
             then put_event e (mk_event (Z.land (set v) (u32 (Z.lnot s)))) else mret tt);;
            rt_thread_resume t;;
            event_send_loop fuel e n true
        end
  end.

Definition rt_event_send (e : nat) (s : Z) : K Z :=
  if s =? 0 then mret (- RT_ERROR)
  else
    v ← get_event e;
    put_event e (mk_event (Z.lor (set v) s));;
    empty ← on_heap (rt_list_isempty (N_suspend (O_event e)));
    need_schedule ←
      (if negb empty then
         k ← get;
         n ← on_heap (rd_next (N_suspend (O_event e)));
         event_send_loop (list_fuel k) e n false
       else mret false);
    (if (need_schedule : bool) then rt_schedule else mret tt);;
    mret RT_EOK.

(** The result is the value stored through [recved], if any, and the status. *)
Definition rt_event_recv (e : nat) (s opt timeout : Z) : K (outcome (option Z * Z)) :=
  RT_DEBUG_IN_THREAD_CONTEXT;;
  if s =? 0 then mret (Return (None, - RT_ERROR))
  else
    self ← rt_thread_self;
    t ← deref self;
    upd_thread t (set_error RT_EOK);;
    v ← get_event e;
    status ←
      (if negb (Z.land opt RT_EVENT_FLAG_AND =? 0) then
         mret (if Z.land (set v) s =? s then RT_EOK else - RT_ERROR)
       else if negb (Z.land opt RT_EVENT_FLAG_OR =? 0) then
         mret (if negb (Z.land (set v) s =? 0) then RT_EOK else - RT_ERROR)
       else rt_assert false;; mret (- RT_ERROR));
    if status =? RT_EOK then
      (if negb (Z.land opt RT_EVENT_FLAG_CLEAR =? 0)
       then put_event e (mk_event (Z.land (set v) (u32 (Z.lnot s)))) else mret tt);;
      y ← get_thread t;
      mret (Return (Some (Z.land (set v) s), error y))
    else if timeout =? 0 then
      upd_thread t (set_error (- RT_ETIMEOUT));;
      y ← get_thread t;
      mret (Return (None, error y))
    else
      upd_thread t (set_event_set s);;
      upd_thread t (set_event_info opt);;
      o ← get_object (O_event e);
      wait_on (N_suspend (O_event e)) t (flag o) timeout;;
      mret (Resched (
        y ← get_thread t;
        if negb (error y =? RT_EOK) then mret (Return (None, error y))
        else mret (Return (Some (event_set y), error y)))).

Definition rt_event_control (e : nat) (cmd : ipc_cmd) : K Z :=
  match cmd with
  | RT_IPC_CMD_RESET _ =>
      rt_ipc_list_resume_all (N_suspend (O_event e));;
      put_event e (mk_event 0);;
      rt_schedule;;
      mret RT_EOK
  | RT_IPC_CMD_OTHER => mret (- RT_ERROR)
  end.
