(* ===== verification/Message.v ===== *)
(** Inter-process communication, [src/ipc.c], second part: mailboxes and message
    queues.

    The calls that wait in a loop take [fuel], the number of times the thread may
    wake up and have to wait again. *)

From Stdlib Require Import ZArith Lia.
From stdpp Require Import strings base gmap list.
From S2P Require Import Prelude RtList Bitmap Kernel Scheduler Object Timer Thread Ipc.
Local Open Scope Z_scope.

(** What is left of the waiting time after a wait that began at [tick_delta]. *)
Definition remaining_timeout (timeout tick_delta now : Z) : Z :=
  if 0 <? timeout then
    let timeout := s32 (timeout - u32 (now - tick_delta)) in
    if timeout <? 0 then 0 else timeout
  else timeout.

(** * Mailbox *)

(** [msgpool] is the memory given for the messages. *)
Definition mb_empty (msgpool : list Z) (size : Z) : rt_mailbox :=
  mk_mailbox msgpool (u16 size) 0 0 0.

Definition rt_mb_init (m : nat) (nm : string) (msgpool : list Z) (size fl : Z) : K Z :=
  rt_object_init (O_mb m) RT_Object_Class_MailBox nm;;
  upd_object (O_mb m) (set_flag fl);;
  rt_ipc_object_init (O_mb m);;
  modify (λ k, set_mailboxes (<[m := mb_empty msgpool size]> (mailboxes k)) k);;
  on_heap (rt_list_init (N_sender m));;
  mret RT_EOK.

Definition rt_mb_detach (m : nat) : K Z :=
  rt_ipc_list_resume_all (N_suspend (O_mb m));;
  rt_ipc_list_resume_all (N_sender m);;
  rt_object_detach (O_mb m);;
  mret RT_EOK.

(** [pool] is what [RT_KERNEL_MALLOC] returns for the messages. *)
Definition rt_mb_create (free : objid → K unit) (new : option nat) (pool : option (list Z))
    (nm : string) (size fl : Z) : K (option nat) :=
  RT_DEBUG_NOT_IN_INTERRUPT;;
  o ← rt_object_allocate (O_mb <$> new) RT_Object_Class_MailBox nm;
  match new with
  | None => mret None
  | Some m =>
      upd_object (O_mb m) (set_flag fl);;
      rt_ipc_object_init (O_mb m);;
      match pool with
      | None => rt_object_delete free (O_mb m);; mret None
      | Some msgpool =>
          modify (λ k, set_mailboxes (<[m := mb_empty msgpool size]> (mailboxes k)) k);;
          on_heap (rt_list_init (N_sender m));;
          mret (Some m)
      end
  end.

(** [free_pool] is [RT_KERNEL_FREE] on the messages. *)
Definition rt_mb_delete (free : objid → K unit) (free_pool : nat → K unit) (m : nat) : K Z :=
  RT_DEBUG_NOT_IN_INTERRUPT;;
  rt_ipc_list_resume_all (N_suspend (O_mb m));;
  rt_ipc_list_resume_all (N_sender m);;
  free_pool m;;
  rt_object_delete free (O_mb m);;
  mret RT_EOK.

(** [mb->msg_pool[mb->in_offset] = value] and the counters. *)
Definition mb_put (m : nat) (value : Z) : K unit :=
  x ← get_mb m;
  deref (msg_pool x !! Z.to_nat (in_offset x));;
  upd_mb m (set_msg_pool (<[Z.to_nat (in_offset x) := value]> (msg_pool x)));;
  upd_mb m (λ x, set_in_offset (u16 (in_offset x + 1)) x);;
  upd_mb m (λ x, if mb_size x <=? in_offset x then set_in_offset 0 x else x);;
  upd_mb m (λ x, set_mb_entry (u16 (mb_entry x + 1)) x).

(** The end of [rt_mb_send_wait], once there is room. *)
Definition mb_deliver (m : nat) (value : Z) : K Z :=
  mb_put m value;;
  e ← on_heap (rt_list_isempty (N_suspend (O_mb m)));
  if negb e then
    rt_ipc_list_resume (N_suspend (O_mb m));;
    rt_schedule;;
    mret RT_EOK
  else mret RT_EOK.

(** The loop of [rt_mb_send_wait]. *)
Fixpoint mb_send_loop (fuel : nat) (m : nat) (self : option nat) (value timeout : Z)
    : K (outcome Z) :=
  match fuel with
  | O => fail F_fuel
  | S fuel =>
      x ← get_mb m;
      if mb_entry x =? mb_size x then
        t ← deref self;
        upd_thread t (set_error RT_EOK);;
        if timeout =? 0 then mret (Return (- RT_EFULL))
        else
          RT_DEBUG_IN_THREAD_CONTEXT;;
          o ← get_object (O_mb m);
          tick_delta ← wait_on (N_sender m) t (flag o) timeout;
          mret (Resched (
            y ← get_thread t;
            if negb (error y =? RT_EOK) then mret (Return (error y))
            else
              now ← rt_tick_get;
              mb_send_loop fuel m self value (remaining_timeout timeout tick_delta now)))
      else
        r ← mb_deliver m value; mret (Return r)
  end.

Definition rt_mb_send_wait (fuel : nat) (m : nat) (value timeout : Z) : K (outcome Z) :=
  self ← rt_thread_self;
  x ← get_mb m;
  if (mb_entry x =? mb_size x) && (timeout =? 0) then mret (Return (- RT_EFULL))
  else mb_send_loop fuel m self value timeout.

Definition rt_mb_send (m : nat) (value : Z) : K (outcome Z) := rt_mb_send_wait 1 m value 0.

(** [*value = mb->msg_pool[mb->out_offset]] and the counters. *)
Definition mb_get (m : nat) : K Z :=
  x ← get_mb m;
  value ← deref (msg_pool x !! Z.to_nat (out_offset x));
  upd_mb m (λ x, set_out_offset (u16 (out_offset x + 1)) x);;
  upd_mb m (λ x, if mb_size x <=? out_offset x then set_out_offset 0 x else x);;
  upd_mb m (λ x, set_mb_entry (u16 (mb_entry x - 1)) x);;
  mret value.

(** The end of [rt_mb_recv], once there is a message. *)
Definition mb_fetch (m : nat) : K (option Z * Z) :=
  value ← mb_get m;
  e ← on_heap (rt_list_isempty (N_sender m));
  if negb e then
    rt_ipc_list_resume (N_sender m);;
    rt_schedule;;
    mret (Some value, RT_EOK)
  else mret (Some value, RT_EOK).

(** The loop of [rt_mb_recv]; the result is the value stored, if any, and the
    status. *)
Fixpoint mb_recv_loop (fuel : nat) (m : nat) (self : option nat) (timeout : Z)
    : K (outcome (option Z * Z)) :=
  match fuel with
  | O => fail F_fuel
  | S fuel =>
      x ← get_mb m;
      if mb_entry x =? 0 then
        t ← deref self;
        upd_thread t (set_error RT_EOK);;
        if timeout =? 0 then
          upd_thread t (set_error (- RT_ETIMEOUT));;
          mret (Return (None, - RT_ETIMEOUT))
        else
          RT_DEBUG_IN_THREAD_CONTEXT;;
          o ← get_object (O_mb m);
          tick_delta ← wait_on (N_suspend (O_mb m)) t (flag o) timeout;
          mret (Resched (
            y ← get_thread t;
            if negb (error y =? RT_EOK) then mret (Return (None, error y))
            else
              now ← rt_tick_get;
              mb_recv_loop fuel m self (remaining_timeout timeout tick_delta now)))
      else
        r ← mb_fetch m; mret (Return r)
  end.

Definition rt_mb_recv (fuel : nat) (m : nat) (timeout : Z) : K (outcome (option Z * Z)) :=
  self ← rt_thread_self;
  x ← get_mb m;
  if (mb_entry x =? 0) && (timeout =? 0) then mret (Return (None, - RT_ETIMEOUT))
  else mb_recv_loop fuel m self timeout.

Definition rt_mb_control (m : nat) (cmd : ipc_cmd) : K Z :=
  match cmd with
  | RT_IPC_CMD_RESET _ =>
      rt_ipc_list_resume_all (N_suspend (O_mb m));;
      rt_ipc_list_resume_all (N_sender m);;
      upd_mb m (set_mb_entry 0);;
      upd_mb m (set_in_offset 0);;
      upd_mb m (set_out_offset 0);;
      rt_schedule;;
      mret RT_EOK
  | RT_IPC_CMD_OTHER => mret (- RT_ERROR)
  end.

(** * Message queue *)

Definition sizeof_mq_message : Z := 4.

(** The address of the message number [temp] of the pool. *)
Definition mq_slot (q : rt_messagequeue) (temp : Z) : Z :=
  u32 (mq_msg_pool q + temp * (mq_msg_size q + sizeof_mq_message)).

(** The loop that chains the free messages: [n] of them from number [temp] on.
    The bytes of a message keep what the memory held. *)
Fixpoint mq_link_free (m : nat) (temp : Z) (n : nat) : K unit :=
  match n with
  | O => mret tt
  | S n =>
      q ← get_mq m;
      let head := mq_slot q temp in
      modify (λ k,
        let old := default (mk_message 0 (replicate (Z.to_nat (mq_msg_size q)) 0)) (mq_mem k !! head) in
        set_mq_mem (<[head := set_msg_next (msg_queue_free q) old]> (mq_mem k)) k);;
      upd_mq m (set_msg_queue_free head);;
      mq_link_free m (temp + 1) n
  end.

(** The fields set before and after the loop. *)
Definition mq_setup (m : nat) (msgpool msg_size max : Z) : K unit :=
  modify (λ k, set_mqs (<[m := mk_messagequeue msgpool msg_size max 0 0 0 0]> (mqs k)) k);;
  mq_link_free m 0 (Z.to_nat max);;
  upd_mq m (set_mq_entry 0).

Definition rt_mq_init (m : nat) (nm : string) (msgpool msg_size pool_size fl : Z) : K Z :=
  rt_object_init (O_mq m) RT_Object_Class_MessageQueue nm;;
  upd_object (O_mq m) (set_flag fl);;
  rt_ipc_object_init (O_mq m);;
  let msg_size := u16 (RT_ALIGN msg_size RT_ALIGN_SIZE) in
  mq_setup m msgpool msg_size (u16 (pool_size / (msg_size + sizeof_mq_message)));;
  mret RT_EOK.

Definition rt_mq_detach (m : nat) : K Z :=
  rt_ipc_list_resume_all (N_suspend (O_mq m));;
  rt_object_detach (O_mq m);;
  mret RT_EOK.

Definition rt_mq_delete (free : objid → K unit) (free_pool : nat → K unit) (m : nat) : K Z :=
  RT_DEBUG_NOT_IN_INTERRUPT;;
  rt_ipc_list_resume_all (N_suspend (O_mq m));;
  free_pool m;;
  rt_object_delete free (O_mq m);;
  mret RT_EOK.

(** [malloc] is [RT_KERNEL_MALLOC]: the address for a size, 0 if there is none. *)
Definition rt_mq_create (malloc : Z → K Z) (free : objid → K unit) (free_pool : nat → K unit)
    (new : option nat) (nm : string) (msg_size max fl : Z) : K (option nat) :=
  RT_DEBUG_NOT_IN_INTERRUPT;;
  o ← rt_object_allocate (O_mq <$> new) RT_Object_Class_MessageQueue nm;
  match new with
  | None => mret None
  | Some m =>
      upd_object (O_mq m) (set_flag fl);;
      rt_ipc_object_init (O_mq m);;
      let msg_size := u16 (RT_ALIGN msg_size RT_ALIGN_SIZE) in
      msgpool ← malloc (u32 ((msg_size + sizeof_mq_message) * u16 max));
      if msgpool =? 0 then rt_mq_delete free free_pool m;; mret None
      else mq_setup m msgpool msg_size (u16 max);; mret (Some m)
  end.

(** The first critical section of [rt_mq_send] and [rt_mq_urgent]: take a free
    message; 0 if there is none. *)
Definition mq_take_free (m : nat) : K Z :=
  q ← get_mq m;
  let msg := msg_queue_free q in
  if msg =? 0 then mret 0
  else
    x ← get_msg msg;
    upd_mq m (set_msg_queue_free (msg_next x));;
    mret msg.

(** [rt_memcpy(msg + 1, buffer, size)]. *)
Definition mq_fill (msg : Z) (buffer : list Z) : K unit :=
  upd_msg msg (λ x, set_msg_data (buffer ++ drop (length buffer) (msg_data x)) x).

(** The end of the second critical section: count the message, wake a receiver. *)
Definition mq_notify (m : nat) : K Z :=
  upd_mq m (λ q, set_mq_entry (u16 (mq_entry q + 1)) q);;
  e ← on_heap (rt_list_isempty (N_suspend (O_mq m)));
  if negb e then
    rt_ipc_list_resume (N_suspend (O_mq m));;
    rt_schedule;;
    mret RT_EOK
  else mret RT_EOK.

(** Link the message at the tail. *)
Definition mq_link_tail (m : nat) (msg : Z) : K unit :=
  q ← get_mq m;
  (if negb (msg_queue_tail q =? 0) then upd_msg (msg_queue_tail q) (set_msg_next msg)
   else mret tt);;
  upd_mq m (set_msg_queue_tail msg);;
  (if msg_queue_head q =? 0 then upd_mq m (set_msg_queue_head msg) else mret tt).

(** Link the message at the head. *)
Definition mq_link_head (m : nat) (msg : Z) : K unit :=
  q ← get_mq m;
  upd_msg msg (set_msg_next (msg_queue_head q));;
  upd_mq m (set_msg_queue_head msg);;
  (if msg_queue_tail q =? 0 then upd_mq m (set_msg_queue_tail msg) else mret tt).

Definition rt_mq_send (m : nat) (buffer : list Z) : K Z :=
  rt_assert (negb (bool_decide (buffer = [])));;
  q ← get_mq m;
  if mq_msg_size q <? Z.of_nat (length buffer) then mret (- RT_ERROR)
  else
    msg ← mq_take_free m;
    if msg =? 0 then mret (- RT_EFULL)
    else
      upd_msg msg (set_msg_next 0);;
      mq_fill msg buffer;;
      mq_link_tail m msg;;
      mq_notify m.

Definition rt_mq_urgent (m : nat) (buffer : list Z) : K Z :=
  rt_assert (negb (bool_decide (buffer = [])));;
  q ← get_mq m;
  if mq_msg_size q <? Z.of_nat (length buffer) then mret (- RT_ERROR)
  else
    msg ← mq_take_free m;
    if msg =? 0 then mret (- RT_EFULL)
    else
      mq_fill msg buffer;;
      mq_link_head m msg;;
      mq_notify m.

(** The first critical section at the end of [rt_mq_recv]: take the first message. *)
Definition mq_take_head (m : nat) : K Z :=
  q ← get_mq m;
  let msg := msg_queue_head q in
  x ← get_msg msg;
  upd_mq m (set_msg_queue_head (msg_next x));;
  (if msg_queue_tail q =? msg then upd_mq m (set_msg_queue_tail 0) else mret tt);;
  upd_mq m (λ q, set_mq_entry (u16 (mq_entry q - 1)) q);;
  mret msg.

(** The second one: give the message back. *)
Definition mq_put_free (m : nat) (msg : Z) : K unit :=
  q ← get_mq m;
  upd_msg msg (set_msg_next (msg_queue_free q));;
  upd_mq m (set_msg_queue_free msg).

Definition mq_fetch (m : nat) (size : Z) : K (list Z) :=
  msg ← mq_take_head m;
  q ← get_mq m;
  x ← get_msg msg;
  let data := take (Z.to_nat (if mq_msg_size q <? size then mq_msg_size q else size)) (msg_data x) in
  mq_put_free m msg;;
  mret data.

(** The loop of [rt_mq_recv]; the result is the bytes stored, if any, and the
    status. *)
Fixpoint mq_recv_loop (fuel : nat) (m : nat) (self : option nat) (size timeout : Z)
    : K (outcome (option (list Z) * Z)) :=
  match fuel with
  | O => fail F_fuel
  | S fuel =>
      q ← get_mq m;
      if mq_entry q =? 0 then
        RT_DEBUG_IN_THREAD_CONTEXT;;
        t ← deref self;
        upd_thread t (set_error RT_EOK);;
        if timeout =? 0 then
          upd_thread t (set_error (- RT_ETIMEOUT));;
          mret (Return (None, - RT_ETIMEOUT))
        else
          o ← get_object (O_mq m);
          tick_delta ← wait_on (N_suspend (O_mq m)) t (flag o) timeout;
          mret (Resched (
            y ← get_thread t;
            if negb (error y =? RT_EOK) then mret (Return (None, error y))
            else
              now ← rt_tick_get;
              mq_recv_loop fuel m self size (remaining_timeout timeout tick_delta now)))
      else
        data ← mq_fetch m size; mret (Return (Some data, RT_EOK))
  end.

Definition rt_mq_recv (fuel : nat) (m : nat) (size timeout : Z)
    : K (outcome (option (list Z) * Z)) :=
  rt_assert (negb (size =? 0));;
  self ← rt_thread_self;
  q ← get_mq m;
  if (mq_entry q =? 0) && (timeout =? 0) then mret (Return (None, - RT_ETIMEOUT))
  else mq_recv_loop fuel m self size timeout.

(** The loop of [rt_mq_control] that empties the queue. *)
Fixpoint mq_drain (fuel : nat) (m : nat) : K unit :=
  match fuel with
  | O => fail F_fuel
  | S fuel =>
      q ← get_mq m;
      let msg := msg_queue_head q in
      if msg =? 0 then mret tt
      else
        x ← get_msg msg;
        upd_mq m (set_msg_queue_head (msg_next x));;
        (if msg_queue_tail q =? msg then upd_mq m (set_msg_queue_tail 0) else mret tt);;
        mq_put_free m msg;;
        mq_drain fuel m
  end.

Definition rt_mq_control (m : nat) (cmd : ipc_cmd) : K Z :=
  match cmd with
  | RT_IPC_CMD_RESET _ =>
      rt_ipc_list_resume_all (N_suspend (O_mq m));;
      q ← get_mq m;
      mq_drain (S (Z.to_nat (max_msgs q))) m;;
      upd_mq m (set_mq_entry 0);;
      rt_schedule;;
      mret RT_EOK
  | RT_IPC_CMD_OTHER => mret (- RT_ERROR)
  end.
