(* ===== verification/MemPool.v ===== *)
(** Memory pools, [src/mempool.c], and the error number of [src/kservice.c].

    The memory of the pools is [mp_mem]: for each block the word in front of it, by
    address.  The bytes of the blocks belong to the application. *)

From Stdlib Require Import ZArith Lia.
From stdpp Require Import strings base gmap list.
From S2P Require Import Prelude RtList Bitmap Kernel Scheduler Object Timer Thread Ipc Message.
Local Open Scope Z_scope.

(** * The error number *)

Definition rt_get_errno : K Z :=
  k ← get;
  if negb (rt_interrupt_nest k =? 0) then mret (errno k)
  else
    match rt_current_thread k with
    | None => mret (errno k)
    | Some t => x ← get_thread t; mret (error x)
    end.

Definition rt_set_errno (e : Z) : K unit :=
  k ← get;
  if negb (rt_interrupt_nest k =? 0) then modify (set_errno e)
  else
    match rt_current_thread k with
    | None => modify (set_errno e)
    | Some t => upd_thread t (set_error e)
    end.

(** * Set-up *)

(** [sizeof(rt_uint8_t * )]. *)
Definition sizeof_pointer : Z := 4.

Definition get_word (a : Z) : K mp_word := k ← get; deref (mp_mem k !! a).
Definition put_word (a : Z) (w : mp_word) : K unit :=
  modify (λ k, set_mp_mem (<[a := w]> (mp_mem k)) k).

(** The header of the block number [offset]. *)
Definition mp_slot (block_ptr block_size offset : Z) : Z :=
  u32 (block_ptr + offset * u32 (block_size + sizeof_pointer)).

(** The loop that chains the blocks: [n] of them from number [offset] on; the result is
    the value of [offset] at its end. *)
Fixpoint mp_link_blocks (block_ptr block_size offset : Z) (n : nat) : K Z :=
  match n with
  | O => mret offset
  | S n =>
      put_word (mp_slot block_ptr block_size offset) (W_next (mp_slot block_ptr block_size (offset + 1)));;
      mp_link_blocks block_ptr block_size (offset + 1) n
  end.

(** The common end of [rt_mp_init] and [rt_mp_create]. *)
Definition mp_setup (m : nat) (start size block_size count : Z) : K unit :=
  modify (λ k, set_mempools (<[m := mk_mempool start size block_size 0 count count 0]> (mempools k)) k);;
  on_heap (rt_list_init (N_suspend (O_mp m)));;
  offset ← mp_link_blocks start block_size 0 (Z.to_nat count);
  put_word (mp_slot start block_size (offset - 1)) (W_next 0);;
  upd_mp m (set_block_list start).

Definition rt_mp_init (m : nat) (nm : string) (start size block_size : Z) : K Z :=
  rt_object_init (O_mp m) RT_Object_Class_MemPool nm;;
  let size := RT_ALIGN_DOWN size RT_ALIGN_SIZE in
  let block_size := RT_ALIGN block_size RT_ALIGN_SIZE in
  mp_setup m start size block_size (size / u32 (block_size + sizeof_pointer));;
  mret RT_EOK.

(** The loop of [rt_mp_detach] and [rt_mp_delete] that wakes every waiting thread. *)
Fixpoint mp_resume_loop (fuel : nat) (m : nat) : K unit :=
  match fuel with
  | O => fail F_fuel
  | S fuel =>
      e ← on_heap (rt_list_isempty (N_suspend (O_mp m)));
      if (e : bool) then mret tt
      else
        n ← on_heap (rd_next (N_suspend (O_mp m)));
        t ← deref (tlist_entry n);
        upd_thread t (set_error (- RT_ERROR));;
        rt_thread_resume t;;
        upd_mp m (λ p, set_suspend_thread_count (u32 (suspend_thread_count p - 1)) p);;
        mp_resume_loop fuel m
  end.

Definition rt_mp_detach (m : nat) : K Z :=
  k ← get;
  mp_resume_loop (list_fuel k) m;;
  rt_object_detach (O_mp m);;
  mret RT_EOK.

(** [malloc] is [rt_malloc]: the address for a size, 0 if there is none; [free] is
    [rt_free], [free_object] what [rt_object_delete] does with the object. *)
Definition rt_mp_create (malloc : Z → K Z) (free_object : objid → K unit)
    (new : option nat) (nm : string) (block_count block_size : Z) : K (option nat) :=
  RT_DEBUG_NOT_IN_INTERRUPT;;
  rt_object_allocate (O_mp <$> new) RT_Object_Class_MemPool nm;;
  match new with
  | None => mret None
  | Some m =>
      let block_size := RT_ALIGN block_size RT_ALIGN_SIZE in
      let size := u32 (u32 (block_size + sizeof_pointer) * block_count) in
      start ← malloc size;
      if start =? 0 then rt_object_delete free_object (O_mp m);; mret None
      else mp_setup m start size block_size block_count;; mret (Some m)
  end.

Definition rt_mp_delete (free : Z → K unit) (free_object : objid → K unit) (m : nat) : K Z :=
  RT_DEBUG_NOT_IN_INTERRUPT;;
  k ← get;
  mp_resume_loop (list_fuel k) m;;
  p ← get_mp m;
  free (mp_start_address p);;
  rt_object_delete free_object (O_mp m);;
  mret RT_EOK.

(** * Allocation *)

(** The end of [rt_mp_alloc]: take the first free block. *)
Definition mp_take (m : nat) : K Z :=
  upd_mp m (λ p, set_block_free_count (u32 (block_free_count p - 1)) p);;
  p ← get_mp m;
  let block_ptr := block_list p in
  rt_assert (negb (block_ptr =? 0));;
  w ← get_word block_ptr;
  match w with
  | W_next a => upd_mp m (set_block_list a)
  | W_pool _ => fail F_pointer
  end;;
  put_word block_ptr (W_pool m);;
  mret (u32 (block_ptr + sizeof_pointer)).

(** Join the waiting threads, at the front, and give up the processor; the result is the
    tick at which the timer was started, 0 if it was not. *)
Definition mp_wait (m t : nat) (time : Z) : K Z :=
  rt_thread_suspend t;;
  on_heap (rt_list_insert_after (N_suspend (O_mp m)) (N_tlist t));;
  upd_mp m (λ p, set_suspend_thread_count (u32 (suspend_thread_count p + 1)) p);;
  before_sleep ←
    (if 0 <? time then
       now ← rt_tick_get;
       rt_timer_control (T_thread t) (RT_TIMER_CTRL_SET_TIME time);;
       rt_timer_start (T_thread t);;
       mret now
     else mret 0);
  rt_schedule;;
  mret before_sleep.

(** The loop of [rt_mp_alloc]; the result is the address of the block, 0 if there is
    none. *)
Fixpoint mp_alloc_loop (fuel : nat) (m : nat) (self : option nat) (time : Z) : K (outcome Z) :=
  match fuel with
  | O => fail F_fuel
  | S fuel =>
      p ← get_mp m;
      if block_free_count p =? 0 then
        if time =? 0 then rt_set_errno (- RT_ETIMEOUT);; mret (Return 0)
        else
          RT_DEBUG_NOT_IN_INTERRUPT;;
          t ← deref self;
          upd_thread t (set_error RT_EOK);;
          before_sleep ← mp_wait m t time;
          mret (Resched (
            y ← get_thread t;
            if negb (error y =? RT_EOK) then mret (Return 0)
            else
              now ← rt_tick_get;
              mp_alloc_loop fuel m self (remaining_timeout time before_sleep now)))
      else b ← mp_take m; mret (Return b)
  end.

Definition rt_mp_alloc (fuel : nat) (m : nat) (time : Z) : K (outcome Z) :=
  self ← rt_thread_self;
  mp_alloc_loop fuel m self time.

(** The start of [rt_mp_free]: the pool of the block, by the word in front of it, and the
    block linked into the free blocks.  A word that does not designate a pool is a wild
    pointer. *)
Definition mp_put (block : Z) : K nat :=
  let block_ptr := u32 (block - sizeof_pointer) in
  w ← get_word block_ptr;
  m ← deref (match w with W_pool m => Some m | W_next _ => None end);
  upd_mp m (λ p, set_block_free_count (u32 (block_free_count p + 1)) p);;
  p ← get_mp m;
  put_word block_ptr (W_next (block_list p));;
  upd_mp m (set_block_list block_ptr);;
  mret m.

Definition rt_mp_free (block : Z) : K unit :=
  m ← mp_put block;
  p ← get_mp m;
  if 0 <? suspend_thread_count p then
    n ← on_heap (rd_next (N_suspend (O_mp m)));
    t ← deref (tlist_entry n);
    upd_thread t (set_error RT_EOK);;
    rt_thread_resume t;;
    upd_mp m (λ p, set_suspend_thread_count (u32 (suspend_thread_count p - 1)) p);;
    rt_schedule
  else mret tt.
