(* ===== verification/Mem.v ===== *)
(** The system heap, [src/mem.c]: the small-memory allocator.

    The heap is a chain of blocks in the memory [mem_bytes]: every block starts with a
    [struct heap_mem], four integers that the code reads and writes in place, so that
    headers and the data of the blocks share the memory.  The semaphore [heap_sem] is a
    kernel semaphore.  The hooks are null. *)

From Stdlib Require Import ZArith Lia.
From stdpp Require Import strings base gmap list.
From S2P Require Import Prelude Bytes KString RtList Bitmap Kernel Scheduler Object Timer Thread Ipc.
Local Open Scope Z_scope.

Definition HEAP_MAGIC : Z := 0x1ea0.
Definition MIN_SIZE : Z := 12.
Definition MIN_SIZE_ALIGNED : Z := 12.
Definition SIZEOF_STRUCT_MEM : Z := 12.

Definition heap_sem : nat := 7.

Notation H := (M small_mem).

Definition on_bytes {A} (m : M ram A) : H A := zoom mem_bytes set_mem_bytes m.

(** The fields of the [struct heap_mem] at [p]. *)
Definition get_magic (p : Z) : H Z := on_bytes (rd16 p).
Definition get_used (p : Z) : H Z := on_bytes (rd16 (p + 2)).
Definition get_next (p : Z) : H Z := on_bytes (rd32 (p + 4)).
Definition get_prev (p : Z) : H Z := on_bytes (rd32 (p + 8)).
Definition put_magic (p v : Z) : H unit := on_bytes (wr16 p v).
Definition put_used (p v : Z) : H unit := on_bytes (wr16 (p + 2) v).
Definition put_next (p v : Z) : H unit := on_bytes (wr32 (p + 4) v).
Definition put_prev (p v : Z) : H unit := on_bytes (wr32 (p + 8) v).

(** [(struct heap_mem * )&heap_ptr[ptr]]. *)
Definition block_at (ptr : Z) : H Z := h ← get; mret (u32 (heap_ptr h + ptr)).
(** [(rt_uint8_t * )mem - heap_ptr]. *)
Definition offset_of (mem : Z) : H Z := h ← get; mret (u32 (mem - heap_ptr h)).

(** [a->next = b->next; ((struct heap_mem * )&heap_ptr[b->next])->prev = a - heap_ptr]: the
    block [b] becomes a part of the block [a] in front of it. *)
Definition join_blocks (a b : Z) : H unit :=
  n ← get_next b;
  put_next a n;;
  n ← get_next b;
  q ← block_at n;
  o ← offset_of a;
  put_prev q o.

(** [plug_holes]: join the free block [mem] with the block behind it ... *)
Definition plug_forward (mem : Z) : H unit :=
  h ← get;
  n ← get_next mem;
  nmem ← block_at n;
  free_next ← (if mem =? nmem then mret false
               else u ← get_used nmem; mret ((u =? 0) && negb (nmem =? heap_end h)));
  when free_next (
    modify (λ h, if lfree h =? nmem then set_lfree mem h else h);;
    join_blocks mem nmem).

(** ... and with the block in front of it. *)
Definition plug_backward (mem : Z) : H unit :=
  p ← get_prev mem;
  pmem ← block_at p;
  free_prev ← (if pmem =? mem then mret false else u ← get_used pmem; mret (u =? 0));
  when free_prev (
    modify (λ h, if lfree h =? mem then set_lfree pmem h else h);;
    join_blocks pmem mem).

Definition plug_holes (mem : Z) : H unit :=
  h ← get;
  rt_assert (heap_ptr h <=? mem);;
  rt_assert (mem <? heap_end h);;
  u ← get_used mem;
  rt_assert (u =? 0);;
  plug_forward mem;;
  plug_backward mem.

(** The part of [rt_system_heap_init] that lays the heap out; [false] if there is no room
    for the two headers. *)
Definition heap_setup (begin_addr end_addr : Z) : H bool :=
  let begin_align := RT_ALIGN begin_addr RT_ALIGN_SIZE in
  let end_align := RT_ALIGN_DOWN end_addr RT_ALIGN_SIZE in
  if (2 * SIZEOF_STRUCT_MEM <? end_align) && (begin_align <=? u32 (end_align - 2 * SIZEOF_STRUCT_MEM)) then
    modify (set_mem_size_aligned (u32 (end_align - begin_align - 2 * SIZEOF_STRUCT_MEM)));;
    modify (set_heap_ptr begin_align);;
    h ← get;
    let mem := heap_ptr h in
    put_magic mem HEAP_MAGIC;;
    put_next mem (u32 (mem_size_aligned h + SIZEOF_STRUCT_MEM));;
    put_prev mem 0;;
    put_used mem 0;;
    n ← get_next mem;
    e ← block_at n;
    modify (set_heap_end e);;
    put_magic e HEAP_MAGIC;;
    put_used e 1;;
    put_next e (u32 (mem_size_aligned h + SIZEOF_STRUCT_MEM));;
    put_prev e (u32 (mem_size_aligned h + SIZEOF_STRUCT_MEM));;
    mret true
  else mret false.

Definition on_mem {A} (m : H A) : K A := zoom sysmem set_sysmem m.

Definition rt_system_heap_init (begin_addr end_addr : Z) : K unit :=
  RT_DEBUG_NOT_IN_INTERRUPT;;
  b ← on_mem (heap_setup begin_addr end_addr);
  if (b : bool) then
    rt_sem_init heap_sem "heap" 1 RT_IPC_FLAG_FIFO;;
    on_mem (modify (λ h, set_lfree (heap_ptr h) h))
  else mret tt.

(** A block has 12 bytes at least: the bound of the loops over the blocks. *)
Definition mem_fuel (h : small_mem) : nat :=
  Z.to_nat (mem_size_aligned h / SIZEOF_STRUCT_MEM) + 3.

(** [used_mem += n], and the maximum. *)
Definition count_used (n : Z) : H unit :=
  modify (λ h, set_used_mem (u32 (used_mem h + n)) h);;
  modify (λ h, if max_mem h <? used_mem h then set_max_mem (used_mem h) h else h).

(** [while (lfree->used && lfree != heap_end) lfree = &heap_ptr[lfree->next]]. *)
Fixpoint lfree_loop (fuel : nat) : H unit :=
  match fuel with
  | O => fail F_fuel
  | S fuel =>
      h ← get;
      u ← get_used (lfree h);
      if negb (u =? 0) && negb (lfree h =? heap_end h) then
        n ← get_next (lfree h);
        b ← block_at n;
        modify (set_lfree b);;
        lfree_loop fuel
      else mret tt
  end.

(** Create the free block [mem2] at the offset [ptr2] inside the block [mem] at [ptr];
    [mark]: [mem] becomes used. *)
Definition split_block (mark : bool) (mem ptr ptr2 : Z) : H Z :=
  h ← get;
  mem2 ← block_at ptr2;
  put_magic mem2 HEAP_MAGIC;;
  put_used mem2 0;;
  n ← get_next mem;
  put_next mem2 n;;
  put_prev mem2 ptr;;
  put_next mem ptr2;;
  when mark (put_used mem 1);;
  n2 ← get_next mem2;
  (if negb (n2 =? u32 (mem_size_aligned h + SIZEOF_STRUCT_MEM)) then
     q ← block_at n2; put_prev q ptr2
   else mret tt);;
  mret mem2.

(** The block [mem] at the offset [ptr] fits: split it if the rest can be a block ... *)
Definition malloc_cut (mem ptr size : Z) : H unit :=
  n ← get_next mem;
  if u32 (size + SIZEOF_STRUCT_MEM + MIN_SIZE_ALIGNED) <=? u32 (n - u32 (ptr + SIZEOF_STRUCT_MEM)) then
    split_block true mem ptr (u32 (ptr + SIZEOF_STRUCT_MEM + size));;
    count_used (size + SIZEOF_STRUCT_MEM)
  else
    put_used mem 1;;
    n ← get_next mem;
    o ← offset_of mem;
    count_used (u32 (n - o)).

(** ... and take it. *)
Definition malloc_take (mem ptr size : Z) : H unit :=
  malloc_cut mem ptr size;;
  put_magic mem HEAP_MAGIC;;
  h ← get;
  if mem =? lfree h then
    lfree_loop (mem_fuel h);;
    h ← get;
    u ← get_used (lfree h);
    rt_assert ((lfree h =? heap_end h) || (u =? 0))
  else mret tt.

(** The loop of [rt_malloc], from the offset [ptr]; the result is the block. *)
Fixpoint malloc_loop (fuel : nat) (size ptr : Z) : H (option Z) :=
  match fuel with
  | O => fail F_fuel
  | S fuel =>
      h ← get;
      if ptr <? u32 (mem_size_aligned h - size) then
        mem ← block_at ptr;
        u ← get_used mem;
        fits ← (if u =? 0 then
                  n ← get_next mem; mret (size <=? u32 (n - u32 (ptr + SIZEOF_STRUCT_MEM)))
                else mret false);
        if (fits : bool) then malloc_take mem ptr size;; mret (Some mem)
        else n ← get_next mem; malloc_loop fuel size n
      else mret None
  end.

Definition malloc_search (size : Z) : H (option Z) :=
  h ← get;
  ptr ← offset_of (lfree h);
  malloc_loop (mem_fuel h) size ptr.

(** The asserts at the end of [rt_malloc]. *)
Definition malloc_checks (mem size : Z) : H unit :=
  h ← get;
  rt_assert (u32 (mem + SIZEOF_STRUCT_MEM + size) <=? heap_end h);;
  rt_assert (u32 (mem + SIZEOF_STRUCT_MEM) mod RT_ALIGN_SIZE =? 0);;
  rt_assert (Z.land mem (RT_ALIGN_SIZE - 1) =? 0).

(** The result is the address of the memory, 0 if there is none. *)
Definition rt_malloc (size : Z) : K (outcome Z) :=
  RT_DEBUG_NOT_IN_INTERRUPT;;
  if size =? 0 then mret (Return 0)
  else
    let size := RT_ALIGN size RT_ALIGN_SIZE in
    h ← gets sysmem;
    if mem_size_aligned h <? size then mret (Return 0)
    else
      let size := if size <? MIN_SIZE_ALIGNED then MIN_SIZE_ALIGNED else size in
      o ← rt_sem_take heap_sem RT_WAITING_FOREVER;
      after o (λ _,
        r ← on_mem (malloc_search size);
        rt_sem_release heap_sem;;
        match r with
        | Some mem => on_mem (malloc_checks mem size);; mret (Return (u32 (mem + SIZEOF_STRUCT_MEM)))
        | None => mret (Return 0)
        end).

(** [rt_free] while it holds the semaphore. *)
Definition free_block (mem : Z) : H unit :=
  u ← get_used mem;
  rt_assert (negb (u =? 0));;
  g ← get_magic mem;
  rt_assert (g =? HEAP_MAGIC);;
  put_used mem 0;;
  put_magic mem HEAP_MAGIC;;
  modify (λ h, if mem <? lfree h then set_lfree mem h else h);;
  n ← get_next mem;
  o ← offset_of mem;
  modify (λ h, set_used_mem (u32 (used_mem h - u32 (n - o))) h);;
  plug_holes mem.

Definition in_heap (h : small_mem) (rmem : Z) : bool := (heap_ptr h <=? rmem) && (rmem <? heap_end h).

Definition rt_free (rmem : Z) : K (outcome unit) :=
  RT_DEBUG_NOT_IN_INTERRUPT;;
  if rmem =? 0 then mret (Return tt)
  else
    rt_assert (Z.land rmem (RT_ALIGN_SIZE - 1) =? 0);;
    h ← gets sysmem;
    rt_assert (in_heap h rmem);;
    let mem := u32 (rmem - SIZEOF_STRUCT_MEM) in
    o ← rt_sem_take heap_sem RT_WAITING_FOREVER;
    after o (λ _,
      on_mem (free_block mem);;
      rt_sem_release heap_sem;;
      mret (Return tt)).

(** Shrink the block [mem] at [ptr] of [size] bytes to [newsize]. *)
Definition realloc_split (mem ptr size newsize : Z) : H unit :=
  modify (λ h, set_used_mem (u32 (used_mem h - u32 (size - newsize))) h);;
  mem2 ← split_block false mem ptr (u32 (ptr + SIZEOF_STRUCT_MEM + newsize));
  plug_holes mem2.

(** What [rt_realloc] decides while it holds the semaphore: the block stays, or its
    contents move, with the size it has. *)
Definition realloc_block (rmem newsize : Z) : H (option Z) :=
  h ← get;
  if negb (in_heap h rmem) then mret None
  else
    let mem := u32 (rmem - SIZEOF_STRUCT_MEM) in
    ptr ← offset_of mem;
    n ← get_next mem;
    let size := u32 (n - ptr - SIZEOF_STRUCT_MEM) in
    if size =? newsize then mret None
    else if u32 (newsize + SIZEOF_STRUCT_MEM + MIN_SIZE) <? size
    then realloc_split mem ptr size newsize;; mret None
    else mret (Some size).

(** Go on after a call that may have let another thread run: at once, or when the thread
    runs again. *)
Definition resume_after {A B} (m : K A) (f : A → K (outcome B)) : K (outcome B) :=
  t ← gets rt_current_thread;
  a ← m;
  t' ← gets rt_current_thread;
  if decide (t = t') then f a else mret (Resched (f a)).

Definition rt_realloc (rmem newsize : Z) : K (outcome Z) :=
  RT_DEBUG_NOT_IN_INTERRUPT;;
  let newsize := RT_ALIGN newsize RT_ALIGN_SIZE in
  h ← gets sysmem;
  if mem_size_aligned h <? newsize then mret (Return 0)
  else if rmem =? 0 then rt_malloc newsize
  else
    o ← rt_sem_take heap_sem RT_WAITING_FOREVER;
    after o (λ _,
      r ← on_mem (realloc_block rmem newsize);
      resume_after (rt_sem_release heap_sem) (λ _,
        match r with
        | None => mret (Return rmem)
        | Some size =>
            o ← rt_malloc newsize;
            after o (λ nmem,
              if nmem =? 0 then mret (Return 0)
              else
                on_mem (on_bytes (rt_memcpy nmem rmem (if size <? newsize then size else newsize)));;
                o ← rt_free rmem;
                after o (λ _, mret (Return nmem)))
        end)).

Definition rt_calloc (count size : Z) : K (outcome Z) :=
  RT_DEBUG_NOT_IN_INTERRUPT;;
  o ← rt_malloc (u32 (count * size));
  after o (λ p,
    (if p =? 0 then mret tt else on_mem (on_bytes (rt_memset p 0 (u32 (count * size))));; mret tt);;
    mret (Return p)).

(** The total size, the size in use and its maximum. *)
Definition rt_memory_info : K (Z * Z * Z) :=
  h ← gets sysmem; mret (mem_size_aligned h, used_mem h, max_mem h).

(** [rt_strdup] of [src/kservice.c]. *)
Definition rt_strdup (s : Z) : K (outcome Z) :=
  l ← on_mem (on_bytes (rt_strlen s));
  let len := u32 (l + 1) in
  o ← rt_malloc len;
  after o (λ tmp,
    if tmp =? 0 then mret (Return 0)
    else on_mem (on_bytes (rt_memcpy tmp s len));; mret (Return tmp)).
