(* ===== verification/MemHeap.v ===== *)
(** Memory heaps, [src/memheap.c].

    The pool of a heap is a ring of blocks that tile it; every block starts with a
    [struct rt_memheap_item], and the last one is a header without data that is never free.
    Free blocks are on a second ring, whose head is the item [free_header] inside the
    [struct rt_memheap].  Items are structures in the memory [mem_bytes], which the code
    reads and writes in place; the other fields of a heap are a record.  A heap is
    designated by its address; its base object and its lock have the number of the address. *)

From Stdlib Require Import ZArith Lia.
From stdpp Require Import strings base gmap list.
From S2P Require Import Prelude Bytes KString RtList Bitmap Kernel Scheduler Object Timer Thread Ipc MemPool Mem.
Local Open Scope Z_scope.

Definition RT_MEMHEAP_MAGIC : Z := 0x1ea01ea0.
Definition RT_MEMHEAP_MASK : Z := 0xfffffffe.
Definition RT_MEMHEAP_USED : Z := 1.
Definition RT_MEMHEAP_MINIALLOC : Z := 12.
Definition RT_MEMHEAP_SIZE : Z := 24.

(** The offset of [free_header] in [struct rt_memheap]. *)
Definition free_header (heap : Z) : Z := heap + 48.

Definition memheap_object (heap : Z) : objid := O_memheap (Z.to_nat heap).
Definition lock (heap : Z) : nat := Z.to_nat heap.

Definition get_memheap (heap : Z) : H rt_memheap := h ← get; deref (memheaps h !! heap).
Definition upd_memheap (heap : Z) (f : rt_memheap → rt_memheap) : H unit :=
  x ← get_memheap heap; modify (λ h, set_memheaps (<[heap := f x]> (memheaps h)) h).

(** * Items *)

Definition item_magic (p : Z) : H Z := on_bytes (rd32 p).
Definition item_pool_ptr (p : Z) : H Z := on_bytes (rd32 (p + 4)).
Definition item_next (p : Z) : H Z := on_bytes (rd32 (p + 8)).
Definition item_prev (p : Z) : H Z := on_bytes (rd32 (p + 12)).
Definition item_next_free (p : Z) : H Z := on_bytes (rd32 (p + 16)).
Definition item_prev_free (p : Z) : H Z := on_bytes (rd32 (p + 20)).
Definition set_item_magic (p v : Z) : H unit := on_bytes (wr32 p v).
Definition set_item_pool_ptr (p v : Z) : H unit := on_bytes (wr32 (p + 4) v).
Definition set_item_next (p v : Z) : H unit := on_bytes (wr32 (p + 8) v).
Definition set_item_prev (p v : Z) : H unit := on_bytes (wr32 (p + 12) v).
Definition set_item_next_free (p v : Z) : H unit := on_bytes (wr32 (p + 16) v).
Definition set_item_prev_free (p v : Z) : H unit := on_bytes (wr32 (p + 20) v).

(** [RT_MEMHEAP_IS_USED] and [MEMITEM_SIZE]. *)
Definition RT_MEMHEAP_IS_USED (p : Z) : H bool :=
  m ← item_magic p; mret (negb (Z.land m RT_MEMHEAP_USED =? 0)).
Definition MEMITEM_SIZE (p : Z) : H Z :=
  n ← item_next p; mret (u32 (n - p - RT_MEMHEAP_SIZE)).

(** Remove the item [p] from the free list. *)
Definition remove_free (p : Z) : H unit :=
  n ← item_next_free p; v ← item_prev_free p; set_item_prev_free n v;;
  v ← item_prev_free p; n ← item_next_free p; set_item_next_free v n.

(** Insert the item [p] at the front of the free list of the heap. *)
Definition insert_free (heap p : Z) : H unit :=
  x ← get_memheap heap;
  n ← item_next_free (free_list x); set_item_next_free p n;;
  set_item_prev_free p (free_list x);;
  n ← item_next_free (free_list x); set_item_prev_free n p;;
  set_item_next_free (free_list x) p.

(** Lay a new free block [p] behind the block [header]. *)
Definition new_block (heap p header : Z) : H unit :=
  set_item_magic p RT_MEMHEAP_MAGIC;;
  set_item_pool_ptr p heap;;
  set_item_prev p header;;
  n ← item_next header; set_item_next p n;;
  n ← item_next header; set_item_prev n p;;
  set_item_next header p.

(** Join the block [header] with the free block [p] behind it. *)
Definition merge_next (header p : Z) : H unit :=
  n ← item_next p; set_item_prev n header;;
  n ← item_next p; set_item_next header n;;
  remove_free p.

(** [heap->available_size -= n], and the maximum. *)
Definition take_available (heap n : Z) : H unit :=
  upd_memheap heap (λ x, set_available_size (u32 (available_size x - n)) x);;
  upd_memheap heap (λ x,
    if max_used_size x <? u32 (pool_size x - available_size x)
    then set_max_used_size (u32 (pool_size x - available_size x)) x else x).
(** [heap->available_size += n]. *)
Definition add_available (heap n : Z) : H unit :=
  upd_memheap heap (λ x, set_available_size (u32 (available_size x + n)) x).

(** * Set-up *)

(** The part of [rt_memheap_init] that lays the pool out. *)
Definition memheap_setup (heap start size : Z) : H unit :=
  let pool := RT_ALIGN_DOWN size RT_ALIGN_SIZE in
  let available := u32 (pool - 2 * RT_MEMHEAP_SIZE) in
  let hd := free_header heap in
  modify (λ h, set_memheaps
    (<[heap := mk_memheap start pool available (u32 (pool - available)) 0 0]> (memheaps h)) h);;
  set_item_magic hd RT_MEMHEAP_MAGIC;;
  set_item_pool_ptr hd heap;;
  set_item_next hd 0;;
  set_item_prev hd 0;;
  set_item_next_free hd hd;;
  set_item_prev_free hd hd;;
  upd_memheap heap (λ x, mk_memheap (start_addr x) (pool_size x) (available_size x) (max_used_size x)
    (mh_block_list x) hd);;
  set_item_magic start RT_MEMHEAP_MAGIC;;
  set_item_pool_ptr start heap;;
  set_item_next start 0;;
  set_item_prev start 0;;
  set_item_next_free start start;;
  set_item_prev_free start start;;
  set_item_next start (u32 (start + available + RT_MEMHEAP_SIZE));;
  n ← item_next start; set_item_prev start n;;
  upd_memheap heap (λ x, mk_memheap (start_addr x) (pool_size x) (available_size x) (max_used_size x)
    start (free_list x));;
  insert_free heap start;;
  tail ← item_next start;
  set_item_magic tail (Z.lor RT_MEMHEAP_MAGIC RT_MEMHEAP_USED);;
  set_item_pool_ptr tail heap;;
  set_item_next tail start;;
  set_item_prev tail start;;
  set_item_prev_free tail 0;;
  set_item_next_free tail 0.

Definition rt_memheap_init (heap : Z) (nm : string) (start size : Z) : K Z :=
  rt_assert (negb (heap =? 0));;
  rt_object_init (memheap_object heap) RT_Object_Class_MemHeap nm;;
  on_mem (memheap_setup heap start size);;
  rt_sem_init (lock heap) nm 1 RT_IPC_FLAG_FIFO;;
  mret RT_EOK.

Definition rt_memheap_detach (heap : Z) : K Z :=
  rt_assert (negb (heap =? 0));;
  rt_object_detach (O_sem (lock heap));;
  rt_object_detach (memheap_object heap);;
  mret RT_EOK.

(** * Allocation *)

(** A block has 24 bytes at least: the bound of the walk through the free list. *)
Definition memheap_fuel (x : rt_memheap) : nat := Z.to_nat (pool_size x / RT_MEMHEAP_SIZE) + 3.

(** [while (header_ptr != heap->free_list && free_size < size)]: the item where the search
    ends, and the last size that was seen. *)
Fixpoint search_free (fuel : nat) (heap size p free_size : Z) : H (Z * Z) :=
  match fuel with
  | O => fail F_fuel
  | S fuel =>
      x ← get_memheap heap;
      if negb (p =? free_list x) && (free_size <? size) then
        free_size ← MEMITEM_SIZE p;
        if free_size <? size
        then n ← item_next_free p; search_free fuel heap size n free_size
        else search_free fuel heap size p free_size
      else mret (p, free_size)
  end.

(** Take the block [p] of [free_size] bytes off the free list, cut if the rest can be a
    block. *)
Definition take_block (heap size p free_size : Z) : H unit :=
  if u32 (size + RT_MEMHEAP_SIZE + RT_MEMHEAP_MINIALLOC) <=? free_size then
    let new_ptr := u32 (p + size + RT_MEMHEAP_SIZE) in
    new_block heap new_ptr p;;
    remove_free p;;
    set_item_next_free p 0;;
    set_item_prev_free p 0;;
    insert_free heap new_ptr;;
    take_available heap (size + RT_MEMHEAP_SIZE)
  else
    take_available heap free_size;;
    remove_free p;;
    set_item_next_free p 0;;
    set_item_prev_free p 0.

(** What [rt_memheap_alloc] does while it holds the lock; the result is the block. *)
Definition alloc_block (heap size : Z) : H (option Z) :=
  x ← get_memheap heap;
  p ← item_next_free (free_list x);
  '(p, free_size) ← search_free (memheap_fuel x) heap size p 0;
  if size <=? free_size then
    take_block heap size p free_size;;
    m ← item_magic p;
    set_item_magic p (Z.lor m RT_MEMHEAP_USED);;
    mret (Some p)
  else mret None.

Definition align_request (size : Z) : Z :=
  let size := RT_ALIGN size RT_ALIGN_SIZE in
  if size <? RT_MEMHEAP_MINIALLOC then RT_MEMHEAP_MINIALLOC else size.

(** The result of [rt_sem_take] on the lock: go on, or record the error. *)
Definition if_locked {A} (none : A) (m : K (outcome A)) (result : Z) : K (outcome A) :=
  if negb (result =? RT_EOK) then rt_set_errno result;; mret (Return none) else m.

Definition rt_memheap_alloc (heap size : Z) : K (outcome Z) :=
  rt_assert (negb (heap =? 0));;
  let size := align_request size in
  x ← on_mem (get_memheap heap);
  if size <? available_size x then
    o ← rt_sem_take (lock heap) RT_WAITING_FOREVER;
    after o (if_locked 0 (
      r ← on_mem (alloc_block heap size);
      rt_sem_release (lock heap);;
      mret (Return match r with Some p => u32 (p + RT_MEMHEAP_SIZE) | None => 0 end)))
  else mret (Return 0).

(** * Release *)

(** Join the block [p] with the block in front of it if that is free; the result is the
    block, and whether it still has to be inserted into the free list. *)
Definition merge_prev (heap p : Z) : H (Z * bool) :=
  v ← item_prev p;
  u ← RT_MEMHEAP_IS_USED v;
  if negb u then
    add_available heap RT_MEMHEAP_SIZE;;
    v ← item_prev p; n ← item_next p; set_item_next v n;;
    n ← item_next p; v ← item_prev p; set_item_prev n v;;
    v ← item_prev p;
    mret (v, false)
  else mret (p, true).

(** What [rt_memheap_free] does while it holds the lock. *)
Definition free_item (heap p : Z) : H unit :=
  m ← item_magic p;
  set_item_magic p (Z.land m (u32 (Z.lnot RT_MEMHEAP_USED)));;
  s ← MEMITEM_SIZE p;
  add_available heap s;;
  '(p, insert_header) ← merge_prev heap p;
  n ← item_next p;
  u ← RT_MEMHEAP_IS_USED n;
  when (negb u) (
    add_available heap RT_MEMHEAP_SIZE;;
    n ← item_next p;
    merge_next p n);;
  when insert_header (insert_free heap p).

(** The checks of the item, and its heap. *)
Definition check_item (p : Z) : H Z :=
  m ← item_magic p;
  rt_assert (Z.land m RT_MEMHEAP_MASK =? RT_MEMHEAP_MAGIC);;
  rt_assert (negb (Z.land m RT_MEMHEAP_USED =? 0));;
  n ← item_next p;
  m ← item_magic n;
  rt_assert (Z.land m RT_MEMHEAP_MASK =? RT_MEMHEAP_MAGIC);;
  item_pool_ptr p.

Definition rt_memheap_free (ptr : Z) : K (outcome unit) :=
  if ptr =? 0 then mret (Return tt)
  else
    let p := u32 (ptr - RT_MEMHEAP_SIZE) in
    heap ← on_mem (check_item p);
    o ← rt_sem_take (lock heap) RT_WAITING_FOREVER;
    after o (if_locked tt (
      on_mem (free_item heap p);;
      rt_sem_release (lock heap);;
      mret (Return tt))).

(** * Reallocation *)

(** Let the block [p] grow into the free block behind it, if that is large enough. *)
Definition grow_block (heap p ptr oldsize newsize : Z) : H bool :=
  next_ptr ← item_next p;
  rt_assert (p <? next_ptr);;
  u ← RT_MEMHEAP_IS_USED next_ptr;
  if negb u then
    s ← MEMITEM_SIZE next_ptr;
    let nextsize := s32 s in
    rt_assert (0 <? next_ptr);;
    if u32 (newsize + RT_MEMHEAP_MINIALLOC) <? u32 (nextsize + oldsize) then
      take_available heap (newsize - oldsize);;
      remove_free next_ptr;;
      n ← item_next next_ptr; v ← item_prev next_ptr; set_item_prev n v;;
      v ← item_prev next_ptr; n ← item_next next_ptr; set_item_next v n;;
      let next_ptr := u32 (ptr + newsize) in
      new_block heap next_ptr p;;
      insert_free heap next_ptr;;
      mret true
    else mret false
  else mret false.

(** Cut the block [p] to [newsize] bytes. *)
Definition shrink_block (heap p newsize : Z) : H unit :=
  let new_ptr := u32 (p + newsize + RT_MEMHEAP_SIZE) in
  new_block heap new_ptr p;;
  n ← item_next new_ptr;
  u ← RT_MEMHEAP_IS_USED n;
  when (negb u) (
    free_ptr ← item_next new_ptr;
    s ← MEMITEM_SIZE free_ptr;
    upd_memheap heap (λ x, set_available_size (u32 (available_size x - s)) x);;
    merge_next new_ptr free_ptr);;
  insert_free heap new_ptr;;
  s ← MEMITEM_SIZE new_ptr;
  add_available heap s.

(** Allocate a new block and move the contents of the old one. *)
Definition move_block (heap ptr oldsize newsize : Z) : K (outcome Z) :=
  o ← rt_memheap_alloc heap newsize;
  after o (λ new_ptr,
    if new_ptr =? 0 then mret (Return new_ptr)
    else
      on_mem (on_bytes (rt_memcpy new_ptr ptr (if oldsize <? newsize then oldsize else newsize)));;
      o ← rt_memheap_free ptr;
      after o (λ _, mret (Return new_ptr))).

Definition rt_memheap_realloc (heap ptr newsize : Z) : K (outcome Z) :=
  if newsize =? 0 then
    o ← rt_memheap_free ptr;
    after o (λ _, mret (Return 0))
  else
    let newsize := align_request newsize in
    if ptr =? 0 then rt_memheap_alloc heap newsize
    else
      let p := u32 (ptr - RT_MEMHEAP_SIZE) in
      oldsize ← on_mem (MEMITEM_SIZE p);
      if oldsize <? newsize then
        o ← rt_sem_take (lock heap) RT_WAITING_FOREVER;
        after o (if_locked 0 (
          grown ← on_mem (grow_block heap p ptr oldsize newsize);
          resume_after (rt_sem_release (lock heap)) (λ _,
            if (grown : bool) then mret (Return ptr)
            else move_block heap ptr oldsize newsize)))
      else if oldsize <=? u32 (newsize + RT_MEMHEAP_SIZE + RT_MEMHEAP_MINIALLOC) then mret (Return ptr)
      else
        o ← rt_sem_take (lock heap) RT_WAITING_FOREVER;
        after o (if_locked 0 (
          on_mem (shrink_block heap p newsize);;
          rt_sem_release (lock heap);;
          mret (Return ptr))).
