(* ===== verification/Invariant.v ===== *)
(** The invariant of the kernel and the primitive transitions that keep it.

    [kern_ok] gathers the ready table ([sched_ok]), the typing of the lists, the
    timers and the wait lists.  Its arguments are the parts of the kernel it
    constrains, so that a change of any other part keeps it by computation.  The
    transitions below are the steps out of which suspension, resumption, waiting
    and expiry are made. *)

From Stdlib Require Import ZArith Lia.
From stdpp Require Import numbers strings base gmap list.
From S2P Require Import Prelude RtList Bitmap Kernel Scheduler Object Timer Thread.
Local Open Scope Z_scope.

(** * Typing of lists *)

(** Which nodes the list of a head may hold. *)
Definition accepts (hd n : node) : bool :=
  match hd, n with
  | (N_ready _ | N_defunct | N_suspend _ | N_sender _), N_tlist _ => true
  | N_timer_list _ lvl, N_row _ lvl' => bool_decide (lvl = lvl')
  | N_container _ _, N_object _ => true
  | _, _ => false
  end.

Definition typed (L : lists) : Prop :=
  ∀ hd l n, L !! hd = Some l → n ∈ l → accepts hd n = true.

(** The lists on which a thread waits. *)
Definition is_wait (hd : node) : bool :=
  match hd with N_suspend _ | N_sender _ => true | _ => false end.

(** The timers of a list, soonest first. *)
Definition timer_queue (L : lists) (soft : bool) : list timer_id :=
  omap (row_entry 0) (default [] (L !! N_timer_list soft 0)).

Definition row0 (tm : timer_id) : node := N_row tm 0.

(** * The invariant *)

Record kern_ok (h : lheap node) (ths : gmap nat rt_thread) (grp : Z)
    (tms : gmap timer_id rt_timer) (objs : gmap objid rt_object) (L : lists) : Prop := {
  ko_sched : sched_ok h ths grp L;
  ko_typed : typed L;
  ko_timer_lists : ∀ soft, is_Some (L !! N_timer_list soft 0);
  (** a timer on a list is active, and on the list of its kind *)
  ko_active : ∀ soft tm, tm ∈ timer_queue L soft →
    ∃ o, objs !! O_timer tm = Some o ∧ Z.testbit (flag o) 0 = true ∧
         Z.testbit (flag o) 2 = soft;
  ko_timer_exists : ∀ soft tm, tm ∈ timer_queue L soft → is_Some (tms !! tm);
  ko_row : ∀ tm y, tms !! tm = Some y →
    placed (row0 tm) L ∧ is_Some (objs !! O_timer tm);
  (** the built-in timer of a thread *)
  ko_thread_timer : ∀ t x, ths !! t = Some x →
    ∃ y o, tms !! T_thread t = Some y ∧ timeout_func y = TF_thread_timeout ∧
      tm_parameter y = t ∧ objs !! O_timer (T_thread t) = Some o ∧
      (flag o = 0 ∨ flag o = RT_TIMER_FLAG_ACTIVATED);
  (** it runs only while the thread is suspended *)
  ko_timed_wait : ∀ soft t, T_thread t ∈ timer_queue L soft →
    ∃ x, ths !! t = Some x ∧ stat x = RT_THREAD_SUSPEND;
  (** a thread on a wait list is suspended *)
  ko_wait : ∀ hd l t, is_wait hd = true → L !! hd = Some l → N_tlist t ∈ l →
    ∃ x, ths !! t = Some x ∧ stat x = RT_THREAD_SUSPEND
}.

Definition kinv (k : kernel) (L : lists) : Prop :=
  kern_ok (heap k) (threads k) (rt_thread_ready_priority_group k) (timers k)
          (objects k) L.

(** * Lemmas on typed lists *)

Section typed.
Implicit Types (L : lists) (n hd : node).

Lemma typed_not_head L n : typed L → (∀ m, accepts n m = false) → not_head n L.
Proof.
  intros Ht Ha l Hl. destruct l as [|m l]; [done|].
  specialize (Ht n _ m Hl ltac:(set_solver)). by rewrite Ha in Ht.
Qed.

Lemma not_head_tlist L t : typed L → not_head (N_tlist t) L.
Proof. intros. by apply typed_not_head. Qed.
Lemma not_head_row L tm i : typed L → not_head (N_row tm i) L.
Proof. intros. by apply typed_not_head. Qed.
Lemma not_head_object L o : typed L → not_head (N_object o) L.
Proof. intros. by apply typed_not_head. Qed.

Lemma typed_detach L n : typed L → typed (detach n L).
Proof.
  intros Ht hd l m. destruct (decide (hd = n)) as [->|Hne].
  - rewrite lookup_detach_eq. intros [= <-]. set_solver.
  - rewrite lookup_detach_ne, fmap_Some by done.
    intros (l' & Hl & ->) [_ ?]%list_elem_of_filter. by eapply Ht.
Qed.

(** A list that cannot hold [n] is not touched by the removal of [n]. *)
Lemma lookup_detach_untyped L hd n :
  typed L → accepts hd n = false → hd ≠ n → detach n L !! hd = L !! hd.
Proof.
  intros Ht Ha Hne. rewrite lookup_detach_ne by done.
  destruct (L !! hd) as [l|] eqn:Hl; [|done]. simpl. rewrite filter_ne_id; [done|].
  intros Hin. specialize (Ht _ _ _ Hl Hin). congruence.
Qed.

(** Replace the list of [hd] after taking [n] out of its own. *)
Lemma typed_insert L hd n l :
  typed L → (∀ m, m ∈ l → accepts hd m = true) → typed (<[hd := l]> (delete n L)).
Proof.
  intros Ht Hl hd' l' m. destruct (decide (hd' = hd)) as [->|Hne].
  - rewrite lookup_insert_eq. intros [= <-]. apply Hl.
  - rewrite lookup_insert_ne by done. rewrite lookup_delete_Some. intros [_ ?]. by apply Ht.
Qed.

Lemma timer_queue_fmap L soft q :
  L !! N_timer_list soft 0 = Some (row0 <$> q) → timer_queue L soft = q.
Proof.
  intros HL. unfold timer_queue. rewrite HL. simpl. clear HL.
  induction q as [|u q IH]; [done|]. csimpl. by rewrite IH.
Qed.

Lemma timer_list_rows L soft l :
  typed L → L !! N_timer_list soft 0 = Some l → l = row0 <$> timer_queue L soft.
Proof.
  intros Ht Hl. unfold timer_queue. rewrite Hl. simpl.
  assert (∀ m, m ∈ l → accepts (N_timer_list soft 0) m = true) as Ha by (intros; by eapply Ht).
  clear Hl Ht. induction l as [|m l IH]; [done|].
  pose proof (Ha m ltac:(set_solver)) as Hm. destruct m; try done. simpl in Hm.
  apply bool_decide_eq_true in Hm as <-. csimpl. f_equal. apply IH. set_solver.
Qed.

Lemma elem_of_timer_queue L soft tm l :
  typed L → L !! N_timer_list soft 0 = Some l → tm ∈ timer_queue L soft ↔ row0 tm ∈ l.
Proof.
  intros Ht Hl. rewrite (timer_list_rows _ _ _ Ht Hl) at 1. rewrite list_elem_of_fmap.
  split; [eauto|]. by intros (tm' & [= ->] & ?).
Qed.

Lemma ready_queue_ext L L' p :
  L' !! N_ready p = L !! N_ready p → ready_queue L' p = ready_queue L p.
Proof. intros E. unfold ready_queue. by rewrite E. Qed.

Lemma timer_queue_ext L L' s :
  L' !! N_timer_list s 0 = L !! N_timer_list s 0 → timer_queue L' s = timer_queue L s.
Proof. intros E. unfold timer_queue. by rewrite E. Qed.

Lemma filter_fmap_row tm (q : list timer_id) :
  filter (λ m, m ≠ row0 tm) (row0 <$> q) = row0 <$> filter (λ u, u ≠ tm) q.
Proof.
  induction q as [|u q IH]; [done|]. csimpl. destruct (decide (u = tm)) as [->|].
  - rewrite !filter_cons_False by naive_solver. done.
  - rewrite !filter_cons_True by (unfold row0; naive_solver). csimpl. by rewrite IH.
Qed.

Lemma timer_queue_detach L s tm :
  typed L → timer_queue (detach (row0 tm) L) s = filter (λ u, u ≠ tm) (timer_queue L s).
Proof.
  intros Ht. destruct (L !! N_timer_list s 0) as [l|] eqn:Hl.
  - apply timer_queue_fmap. rewrite lookup_detach_ne, Hl by done. simpl.
    rewrite (timer_list_rows _ _ _ Ht Hl) at 1. by rewrite filter_fmap_row.
  - unfold timer_queue. by rewrite lookup_detach_ne, Hl.
Qed.
End typed.

(** * Transitions *)

(** The ready table does not depend on the other lists. *)
Lemma sched_ok_lists h h' ths grp L L' :
  sched_ok h ths grp L → rep h' L' → typed L' →
  (∀ p, 0 <= p < RT_THREAD_PRIORITY_MAX → L' !! N_ready p = L !! N_ready p) →
  (∀ t x, ths !! t = Some x → placed (N_tlist t) L → placed (N_tlist t) L') →
  sched_ok h' ths grp L'.
Proof.
  intros [Hr Hq Hrd Hgr Hg Hpr Hmk Hpl Hnh] Hrep Ht HL Hp.
  assert (∀ p, 0 <= p < RT_THREAD_PRIORITY_MAX → ready_queue L' p = ready_queue L p) as Heq
    by (intros; by apply ready_queue_ext, HL).
  split; try done.
  - intros p ?. by rewrite HL, Heq, Hq.
  - intros p t ?. rewrite Heq by done. eauto.
  - intros p ?. rewrite Heq by done. eauto.
  - eauto.
  - intros t. by apply not_head_tlist.
Qed.

Section transitions.
Context {h : lheap node} {ths : gmap nat rt_thread} {grp : Z}.
Context {tms : gmap timer_id rt_timer} {objs : gmap objid rt_object} {L : lists}.
Hypothesis Hok : kern_ok h ths grp tms objs L.

Lemma ko_rep : rep h L.
Proof. apply Hok. Qed.

(** The thread that is on a ready queue is on no wait list, and no timer runs. *)
Lemma not_timed t x soft :
  ths !! t = Some x → stat x ≠ RT_THREAD_SUSPEND → T_thread t ∉ timer_queue L soft.
Proof. intros Hx Hs Hin. destruct (ko_timed_wait _ _ _ _ _ _ Hok _ _ Hin) as (? & ? & ?). congruence. Qed.

(** [rt_list_remove(&thread->tlist)] for a thread that is not ready. *)
Lemma kern_ok_detach_tlist h' t x :
  ths !! t = Some x → stat x ≠ RT_THREAD_READY →
  rep h' (detach (N_tlist t) L) → kern_ok h' ths grp tms objs (detach (N_tlist t) L).
Proof.
  intros Hx Hs Hrep. destruct Hok as [Hsch Hty Htl Hact Hex Hrow Htt Htw Hw].
  assert (∀ s, detach (N_tlist t) L !! N_timer_list s 0 = L !! N_timer_list s 0) as Htm.
  { intros s. by apply lookup_detach_untyped. }
  assert (∀ s, timer_queue (detach (N_tlist t) L) s = timer_queue L s) as Htq.
  { intros s. by apply timer_queue_ext. }
  split; try done.
  - eapply sched_ok_lists; [done|done|by apply typed_detach| |].
    + intros p Hp. rewrite (queue_detach _ _ _ _ (so_queue _ _ _ _ Hsch p Hp)).
      rewrite filter_ne_id; [by rewrite <- (so_queue _ _ _ _ Hsch p Hp)|].
      eapply ready_queue_not_in; eauto.
    + intros. apply placed_detach; [by apply not_head_tlist|done].
  - by apply typed_detach.
  - intros s. by rewrite Htm.
  - intros s tm. rewrite Htq. apply Hact.
  - intros s tm. rewrite Htq. apply Hex.
  - intros tm y Hy. destruct (Hrow _ _ Hy). split; [|done].
    apply placed_detach; [by apply not_head_tlist|done].
  - intros s u. rewrite Htq. apply Htw.
  - intros hd l u Hwt. rewrite lookup_detach_ne, fmap_Some by by destruct hd.
    intros (l' & Hl & ->) [_ ?]%list_elem_of_filter. by eapply Hw.
Qed.

(** A ready thread that leaves the ready table. *)
Lemma kern_ok_unready h' t x x' :
  ths !! t = Some x → stat x = RT_THREAD_READY → stat x' ≠ RT_THREAD_READY →
  current_priority x' = current_priority x → number_mask x' = number_mask x →
  rep h' (detach (N_tlist t) L) →
  kern_ok h' (<[t := x']> ths)
    (clear_if_empty (detach (N_tlist t) L) (current_priority x) (number_mask x) grp)
    tms objs (detach (N_tlist t) L).
Proof.
  intros Hx Hs Hs' Hp Hm Hrep.
  pose proof (not_timed t x) as Hnt.
  destruct Hok as [Hsch Hty Htl Hact Hex Hrow Htt Htw Hw].
  assert (∀ s, detach (N_tlist t) L !! N_timer_list s 0 = L !! N_timer_list s 0) as Htm.
  { intros s. by apply lookup_detach_untyped. }
  assert (∀ s, timer_queue (detach (N_tlist t) L) s = timer_queue L s) as Htq.
  { intros s. by apply timer_queue_ext. }
  split; try done.
  - eapply sched_ok_unready; try done. eapply so_mask; [done..|]. congruence.
  - by apply typed_detach.
  - intros s. by rewrite Htm.
  - intros s tm. rewrite Htq. apply Hact.
  - intros s tm. rewrite Htq. apply Hex.
  - intros tm y Hy. destruct (Hrow _ _ Hy). split; [|done].
    apply placed_detach; [by apply not_head_tlist|done].
  - intros u y. destruct (decide (u = t)) as [->|]; [|rewrite lookup_insert_ne by done; eauto].
    intros _. eauto.
  - intros s u. rewrite Htq. intros Hin. destruct (decide (u = t)) as [->|].
    + exfalso. eapply (Hnt s); [done|congruence|done].
    + rewrite lookup_insert_ne by done. eauto.
  - intros hd l u Hwt. rewrite lookup_detach_ne, fmap_Some by by destruct hd.
    intros (l' & Hl & ->) [Hne ?]%list_elem_of_filter. destruct (decide (u = t)) as [->|]; [done|].
    rewrite lookup_insert_ne by done. by eapply Hw.
Qed.

(** A detached thread whose timer does not run joins its ready queue. *)
Lemma kern_ok_make_ready h' t x x' :
  ths !! t = Some x → stat x ≠ RT_THREAD_READY → L !! N_tlist t = Some [] →
  (∀ s, T_thread t ∉ timer_queue L s) →
  stat x' = RT_THREAD_READY → 0 <= current_priority x' < RT_THREAD_PRIORITY_MAX →
  number_mask x' = 2 ^ current_priority x' →
  rep h' (enqueue (N_ready (current_priority x')) (N_tlist t) L) →
  kern_ok h' (<[t := x']> ths) (Z.lor grp (number_mask x')) tms objs
    (enqueue (N_ready (current_priority x')) (N_tlist t) L).
Proof.
  intros Hx Hs Hal Hnt Hs' Hp Hm Hrep. pose proof ko_rep as Hr.
  destruct Hok as [Hsch Hty Htl Hact Hex Hrow Htt Htw Hw].
  assert (∀ s, enqueue (N_ready (current_priority x')) (N_tlist t) L !! N_timer_list s 0
               = L !! N_timer_list s 0) as Htm.
  { intros s. by apply lookup_enqueue_ne. }
  assert (∀ s, timer_queue (enqueue (N_ready (current_priority x')) (N_tlist t) L) s
               = timer_queue L s) as Htq.
  { intros s. by apply timer_queue_ext. }
  pose proof (so_queue _ _ _ _ Hsch _ Hp) as Hq.
  split; try done.
  - by eapply sched_ok_make_ready.
  - erewrite enqueue_alter by done. apply typed_insert; [done|].
    intros m [Hm'|Hm']%elem_of_app; [by eapply Hty|]. apply list_elem_of_singleton in Hm' as ->. done.
  - intros s. by rewrite Htm.
  - intros s tm. rewrite Htq. apply Hact.
  - intros s tm. rewrite Htq. apply Hex.
  - intros tm y Hy. destruct (Hrow _ _ Hy). split; [|done].
    apply placed_enqueue; [done|rewrite Hq; eauto|done..].
  - intros u y. destruct (decide (u = t)) as [->|]; [|rewrite lookup_insert_ne by done; eauto].
    intros _. eauto.
  - intros s u. rewrite Htq. intros Hin. destruct (decide (u = t)) as [->|]; [by exfalso; eapply Hnt|].
    rewrite lookup_insert_ne by done. eauto.
  - intros hd l u Hwt Hl Hin. destruct (decide (u = t)) as [->|Hne].
    + exfalso. revert Hl. rewrite lookup_enqueue_ne by by destruct hd. intros Hl.
      by eapply (alone_not_in h L hd l).
    + rewrite lookup_insert_ne by done. eapply (Hw hd l); [done| |done].
      by rewrite lookup_enqueue_ne in Hl by by destruct hd.
Qed.

(** A timer leaves its list. *)
Lemma kern_ok_detach_row h' tm :
  rep h' (detach (row0 tm) L) → kern_ok h' ths grp tms objs (detach (row0 tm) L).
Proof.
  intros Hrep. destruct Hok as [Hsch Hty Htl Hact Hex Hrow Htt Htw Hw].
  assert (∀ s u, u ∈ timer_queue (detach (row0 tm) L) s → u ∈ timer_queue L s) as Hsub.
  { intros s u. rewrite timer_queue_detach by done. by intros [_ ?]%list_elem_of_filter. }
  split; try done.
  - eapply sched_ok_lists; [done|done|by apply typed_detach| |].
    + intros p _. by apply lookup_detach_untyped.
    + intros. apply placed_detach; [by apply not_head_row|done].
  - by apply typed_detach.
  - intros s. rewrite lookup_detach_ne, fmap_is_Some by done. apply Htl.
  - intros s u ?%Hsub. eauto.
  - intros s u ?%Hsub. eauto.
  - intros u y Hy. destruct (Hrow _ _ Hy). split; [|done].
    apply placed_detach; [by apply not_head_row|done].
  - intros s u ?%Hsub. eauto.
  - intros hd l u Hwt. rewrite lookup_detach_untyped; [by apply Hw|done| |]; by destruct hd.
Qed.

(** A field of a thread the invariant does not depend on. *)
Lemma kern_ok_upd_thread t x x' :
  ths !! t = Some x → stat x' = stat x → current_priority x' = current_priority x →
  number_mask x' = number_mask x → kern_ok h (<[t := x']> ths) grp tms objs L.
Proof.
  intros Hx Hs Hp Hm. destruct Hok as [Hsch Hty Htl Hact Hex Hrow Htt Htw Hw].
  assert (∀ u, (∃ y, ths !! u = Some y ∧ stat y = RT_THREAD_SUSPEND) →
            ∃ y, <[t := x']> ths !! u = Some y ∧ stat y = RT_THREAD_SUSPEND) as Hsu.
  { intros u (y & Hy & ?). destruct (decide (u = t)) as [->|].
    - exists x'. rewrite lookup_insert_eq. simplify_eq. split; congruence.
    - exists y. by rewrite lookup_insert_ne. }
  split; try done.
  - by eapply sched_ok_upd.
  - intros u y. destruct (decide (u = t)) as [->|]; [|rewrite lookup_insert_ne by done; eauto].
    intros _. eauto.
  - eauto.
  - intros hd l u ? ? ?. apply Hsu. by eapply Hw.
Qed.

(** The base structure of an object changes. *)
Lemma kern_ok_upd_object id o o' :
  objs !! id = Some o →
  (∀ tm, id = O_timer tm →
     (∀ s, tm ∈ timer_queue L s → Z.testbit (flag o') 0 = true ∧ Z.testbit (flag o') 2 = s) ∧
     (∀ t, tm = T_thread t → flag o' = 0 ∨ flag o' = RT_TIMER_FLAG_ACTIVATED)) →
  kern_ok h ths grp tms (<[id := o']> objs) L.
Proof.
  intros Ho Hid. destruct Hok as [Hsch Hty Htl Hact Hex Hrow Htt Htw Hw]. split; try done.
  - intros s tm Hin. destruct (decide (id = O_timer tm)) as [->|].
    + exists o'. rewrite lookup_insert_eq. split; [done|].
      by apply (proj1 (Hid _ eq_refl)).
    + rewrite lookup_insert_ne by done. eauto.
  - intros tm y Hy. destruct (Hrow _ _ Hy) as [? [? ?]]. split; [done|].
    destruct (decide (id = O_timer tm)) as [->|];
      rewrite ?lookup_insert_eq, ?lookup_insert_ne by done; eauto.
  - intros t x Hx. destruct (Htt _ _ Hx) as (y & o2 & ? & ? & ? & ? & ?).
    destruct (decide (id = O_timer (T_thread t))) as [->|].
    + exists y, o'. rewrite lookup_insert_eq. split_and!; try done.
      by eapply (proj2 (Hid _ eq_refl)).
    + exists y, o2. by rewrite lookup_insert_ne.
Qed.

(** The delay or the expiry tick of a timer changes. *)
Lemma kern_ok_upd_timer tm y y' :
  tms !! tm = Some y → timeout_func y' = timeout_func y → tm_parameter y' = tm_parameter y →
  kern_ok h ths grp (<[tm := y']> tms) objs L.
Proof.
  intros Hy Hf Hp. destruct Hok as [Hsch Hty Htl Hact Hex Hrow Htt Htw Hw]. split; try done.
  - intros s u Hin. rewrite lookup_insert. case_decide; eauto.
  - intros u z. destruct (decide (u = tm)) as [->|]; [|rewrite lookup_insert_ne by done; eauto].
    intros _. eauto.
  - intros t x Hx. destruct (Htt _ _ Hx) as (z & o & Hz & ? & ? & ? & ?).
    destruct (decide (tm = T_thread t)) as [->|].
    + exists y', o. rewrite lookup_insert_eq. simplify_eq. split_and!; congruence.
    + exists z, o. by rewrite lookup_insert_ne.
Qed.

(** A timer that is on no list joins the list of its kind. *)
Lemma kern_ok_insert_row h' tm s l1 l2 o :
  L !! N_timer_list s 0 = Some (l1 ++ l2) → L !! row0 tm = Some [] →
  is_Some (tms !! tm) →
  objs !! O_timer tm = Some o → Z.testbit (flag o) 0 = true → Z.testbit (flag o) 2 = s →
  (∀ t, tm = T_thread t → ∃ x, ths !! t = Some x ∧ stat x = RT_THREAD_SUSPEND) →
  rep h' (<[N_timer_list s 0 := l1 ++ row0 tm :: l2]> (delete (row0 tm) L)) →
  kern_ok h' ths grp tms objs (<[N_timer_list s 0 := l1 ++ row0 tm :: l2]> (delete (row0 tm) L)).
Proof.
  intros Hl Hal Hextm Ho Hf0 Hf2 Hth Hrep. set (L' := <[_ := _]> _) in *.
  destruct Hok as [Hsch Hty Htl Hact Hex Hrow Htt Htw Hw].
  assert (typed L') as Hty'.
  { apply typed_insert; [done|]. intros m. rewrite elem_of_app, elem_of_cons.
    intros [?|[->|?]]; [|done|]; eapply Hty; [done| |done|]; set_solver. }
  assert (∀ hd, hd ≠ N_timer_list s 0 → hd ≠ row0 tm → L' !! hd = L !! hd) as Hoth.
  { intros hd ? ?. unfold L'. by rewrite lookup_insert_ne, lookup_delete_ne. }
  assert (L' !! N_timer_list s 0 = Some (l1 ++ row0 tm :: l2)) as Hl'.
  { apply lookup_insert_eq. }
  assert (∀ m, m ≠ row0 tm → placed m L → placed m L') as Hpl.
  { intros m Hm (hd & l & Hhd & Hin). destruct (decide (hd = N_timer_list s 0)) as [->|].
    - eexists _, _. split; [exact Hl'|]. simplify_eq. set_solver.
    - destruct (decide (hd = row0 tm)) as [->|]; [simplify_eq; set_solver|].
      exists hd, l. by rewrite Hoth. }
  assert (∀ s' u, u ∈ timer_queue L' s' → u = tm ∧ s' = s ∨ u ∈ timer_queue L s') as Hq.
  { intros s' u. destruct (decide (s' = s)) as [->|].
    - rewrite (elem_of_timer_queue L' s u _ Hty' Hl'), (elem_of_timer_queue L s u _ Hty Hl).
      rewrite !elem_of_app, elem_of_cons. unfold row0. intuition congruence.
    - rewrite (timer_queue_ext L L' s'); [auto|]. apply Hoth; [congruence|done]. }
  split; try done.
  - eapply sched_ok_lists; [done..| |].
    + intros. by apply Hoth.
    + intros. by apply Hpl.
  - intros s'. destruct (decide (s' = s)) as [->|]; [by rewrite Hl'|].
    rewrite Hoth; [done|congruence|done].
  - intros s' u [[-> ->]|?]%Hq; [|eauto]. exists o. done.
  - intros s' u [[-> ->]|?]%Hq; eauto.
  - intros u y Hy. destruct (Hrow _ _ Hy). split; [|done].
    destruct (decide (u = tm)) as [->|]; [|apply Hpl; [unfold row0; congruence|done]].
    eexists _, _. split; [exact Hl'|]. set_solver.
  - intros s' t [[<- ->]|?]%Hq; eauto.
  - intros hd l u Hwt. rewrite Hoth by by destruct hd. by apply Hw.
Qed.

(** A suspended thread that is on no list joins a wait list. *)
Lemma kern_ok_wait h' t x hd l1 l2 :
  is_wait hd = true → L !! hd = Some (l1 ++ l2) → L !! N_tlist t = Some [] →
  ths !! t = Some x → stat x = RT_THREAD_SUSPEND →
  rep h' (<[hd := l1 ++ N_tlist t :: l2]> (delete (N_tlist t) L)) →
  kern_ok h' ths grp tms objs (<[hd := l1 ++ N_tlist t :: l2]> (delete (N_tlist t) L)).
Proof.
  intros Hwt Hl Hal Hx Hs Hrep. set (L' := <[_ := _]> _) in *.
  destruct Hok as [Hsch Hty Htl Hact Hex Hrow Htt Htw Hw].
  assert (typed L') as Hty'.
  { apply typed_insert; [done|]. intros m. rewrite elem_of_app, elem_of_cons.
    intros [?|[->|?]]; [|by destruct hd|]; eapply Hty; [done| |done|]; set_solver. }
  assert (∀ hd', hd' ≠ hd → hd' ≠ N_tlist t → L' !! hd' = L !! hd') as Hoth.
  { intros hd' ? ?. unfold L'. by rewrite lookup_insert_ne, lookup_delete_ne. }
  assert (L' !! hd = Some (l1 ++ N_tlist t :: l2)) as Hl' by apply lookup_insert_eq.
  assert (∀ m, placed m L → placed m L') as Hpl.
  { intros m (hd' & l & Hhd & Hin). destruct (decide (hd' = hd)) as [->|].
    - eexists _, _. split; [exact Hl'|]. simplify_eq. set_solver.
    - destruct (decide (hd' = N_tlist t)) as [->|].
      + eexists _, _. split; [exact Hl'|]. simplify_eq. set_solver.
      + exists hd', l. by rewrite Hoth. }
  assert (∀ s, L' !! N_timer_list s 0 = L !! N_timer_list s 0) as Htm.
  { intros s. apply Hoth; [by destruct hd|done]. }
  split; try done.
  - eapply sched_ok_lists; [done..| |by eauto]. intros. apply Hoth; [by destruct hd|done].
  - intros s. by rewrite Htm.
  - intros s tm. rewrite (timer_queue_ext L L' s) by done. apply Hact.
  - intros s tm. rewrite (timer_queue_ext L L' s) by done. apply Hex.
  - intros tm y Hy. destruct (Hrow _ _ Hy). split; [by apply Hpl|done].
  - intros s u. rewrite (timer_queue_ext L L' s) by done. apply Htw.
  - intros hd' l u Hwt' Hl2 Hin. destruct (decide (hd' = hd)) as [->|].
    + rewrite Hl' in Hl2. simplify_eq. apply elem_of_app in Hin.
      rewrite elem_of_cons in Hin. destruct Hin as [?|[[= ->]|?]]; [|eauto|];
        eapply (Hw hd); [done..| |done|done|]; set_solver.
    + rewrite Hoth in Hl2 by (done || by destruct hd'). by eapply Hw.
Qed.
(** The lists the invariant speaks of: all but the containers of objects and the list of
    dead threads. *)
Definition in_use (hd : node) : bool :=
  match hd with N_ready _ | N_timer_list _ _ | N_suspend _ | N_sender _ => true | _ => false end.

(** A change of the other lists. *)
Lemma kern_ok_lists h' L' :
  rep h' L' → typed L' → (∀ hd, in_use hd = true → L' !! hd = L !! hd) →
  (∀ m, placed m L → placed m L') → kern_ok h' ths grp tms objs L'.
Proof.
  intros Hrep Hty' Hoth Hpl. destruct Hok as [Hsch Hty Htl Hact Hex Hrow Htt Htw Hw].
  assert (∀ s, timer_queue L' s = timer_queue L s) as Htq by (intros s; by apply timer_queue_ext, Hoth).
  split; try done.
  - eapply sched_ok_lists; [done..| |by eauto]. intros. by apply Hoth.
  - intros s. by rewrite Hoth.
  - intros s tm. rewrite Htq. apply Hact.
  - intros s tm. rewrite Htq. apply Hex.
  - intros tm y Hy. destruct (Hrow _ _ Hy). split; [by apply Hpl|done].
  - intros s u. rewrite Htq. apply Htw.
  - intros hd l u Hwt. rewrite Hoth by by destruct hd. by apply Hw.
Qed.
End transitions.

(** A ready thread moves to the end of the queue of a (new) priority. *)
Lemma kern_ok_requeue h ths grp tms objs L h1 h2 t x x' :
  kern_ok h ths grp tms objs L →
  ths !! t = Some x → stat x = RT_THREAD_READY →
  rep h1 (detach (N_tlist t) L) →
  stat x' = RT_THREAD_READY → 0 <= current_priority x' < RT_THREAD_PRIORITY_MAX →
  number_mask x' = 2 ^ current_priority x' →
  rep h2 (enqueue (N_ready (current_priority x')) (N_tlist t) (detach (N_tlist t) L)) →
  kern_ok h2 (<[t := x']> ths)
    (Z.lor (clear_if_empty (detach (N_tlist t) L) (current_priority x) (number_mask x) grp)
           (number_mask x')) tms objs
    (enqueue (N_ready (current_priority x')) (N_tlist t) (detach (N_tlist t) L)).
Proof.
  intros Hok Hx Hs Hr1 Hs' Hp' Hm' Hr2.
  pose proof (kern_ok_unready Hok h1 t x (set_stat RT_THREAD_SUSPEND x)
    Hx Hs ltac:(done) ltac:(done) ltac:(done) Hr1) as Hok1.
  rewrite <- (insert_insert_eq ths t x' (set_stat RT_THREAD_SUSPEND x)).
  apply (kern_ok_make_ready Hok1 h2 t (set_stat RT_THREAD_SUSPEND x) x'); try done.
  - apply lookup_insert_eq.
  - apply lookup_detach_eq.
  - intros s. rewrite (timer_queue_ext L).
    + eapply (not_timed Hok); [done|congruence].
    + apply lookup_detach_untyped; [apply Hok|done..].
Qed.

(** The bitmap after a thread has left its queue and joined it again. *)
Lemma group_requeue h ths grp L t x :
  sched_ok h ths grp L → ths !! t = Some x → stat x = RT_THREAD_READY →
  Z.lor (clear_if_empty (detach (N_tlist t) L) (current_priority x) (number_mask x) grp)
        (number_mask x) = grp.
Proof.
  intros Hok Hx Hs. pose proof (so_prio _ _ _ _ Hok _ _ Hx) as Hp.
  rewrite (so_mask _ _ _ _ Hok _ _ Hx) by congruence.
  assert (Z.testbit grp (current_priority x) = true) as Hb.
  { apply (so_group _ _ _ _ Hok); [done|]. apply (elem_of_not_nil t).
    apply (so_ready _ _ _ _ Hok); eauto. }
  apply Z.bits_inj'. intros i Hi. rewrite testbit_set_group by lia. unfold clear_if_empty.
  case_decide; [rewrite testbit_clear_group by lia|]; destruct (Z.eqb_spec i (current_priority x)) as [->|];
    by rewrite ?Hb, ?orb_true_r, ?orb_false_r, ?andb_true_r.
Qed.

(** A thread that is not ready changes priority where it is. *)
Lemma kern_ok_set_priority h ths grp tms objs L t x x' :
  kern_ok h ths grp tms objs L →
  ths !! t = Some x → stat x ≠ RT_THREAD_READY → stat x' = stat x →
  0 <= current_priority x' < RT_THREAD_PRIORITY_MAX →
  number_mask x' = 2 ^ current_priority x' →
  kern_ok h (<[t := x']> ths) grp tms objs L.
Proof.
  intros [[Hr Hq Hrd Hgr Hg Hpr Hmk Hpl Hnh] Hty Htl Hact Hex Hrow Htt Htw Hw] Hx Hs Hs' Hp' Hm'.
  assert (∀ (P : nat → rt_thread → Prop), P t x' → (∀ u y, ths !! u = Some y → P u y) →
            ∀ u y, <[t := x']> ths !! u = Some y → P u y) as Hins.
  { intros P Hpt Hp u y. destruct (decide (u = t)) as [->|].
    - rewrite lookup_insert_eq. by intros [= <-].
    - rewrite lookup_insert_ne by done. apply Hp. }
  assert (∀ st u, st ≠ RT_THREAD_READY → (∃ y, ths !! u = Some y ∧ stat y = st) →
            ∃ y, <[t := x']> ths !! u = Some y ∧ stat y = st) as Hst.
  { intros st u _ (y & Hy & ?). destruct (decide (u = t)) as [->|].
    - exists x'. rewrite lookup_insert_eq. simplify_eq. split; congruence.
    - exists y. by rewrite lookup_insert_ne. }
  split; try done.
  - split; try done.
    + intros p u Hp. rewrite Hrd by done. destruct (decide (u = t)) as [->|].
      * rewrite lookup_insert_eq, Hx. split; intros (y & [= <-] & ? & ?); congruence.
      * by rewrite lookup_insert_ne.
    + by apply Hins.
    + by apply (Hins (λ _ y, stat y ≠ RT_THREAD_INIT → number_mask y = 2 ^ current_priority y)).
    + apply (Hins (λ u _, placed (N_tlist u) L)); eauto.
  - apply (Hins (λ u _, ∃ y o, tms !! T_thread u = Some y ∧ timeout_func y = TF_thread_timeout ∧
      tm_parameter y = u ∧ objs !! O_timer (T_thread u) = Some o ∧
      (flag o = 0 ∨ flag o = RT_TIMER_FLAG_ACTIVATED))); eauto.
  - intros s u Hin. apply Hst; [done|by eapply Htw].
  - intros hd l u ? ? ?. apply Hst; [done|by eapply Hw].
Qed.
