(* ===== verification/ThreadSpec.v ===== *)
(** What the thread and timer operations do, from a state of the invariant:
    suspension, resumption, expiry, sleep, yield and change of priority, the
    timer list and the clock tick. *)

From Stdlib Require Import ZArith Lia.
From stdpp Require Import numbers strings base gmap list.
From S2P Require Import Prelude RtList Bitmap Kernel Scheduler Object Timer Thread Invariant.
Local Open Scope Z_scope.

(** * Frames *)

Definition is_timer_obj (id : objid) : bool :=
  match id with O_timer _ => true | _ => false end.

(** What no operation on threads and timers touches. *)
Record frame (k k' : kernel) : Prop := {
  fr_sems : sems k' = sems k;
  fr_mutexes : mutexes k' = mutexes k;
  fr_events : events k' = events k;
  fr_mailboxes : mailboxes k' = mailboxes k;
  fr_mqs : mqs k' = mqs k;
  fr_mq_mem : mq_mem k' = mq_mem k;
  fr_mempools : mempools k' = mempools k;
  fr_mp_mem : mp_mem k' = mp_mem k;
  fr_sysmem : sysmem k' = sysmem k;
  fr_modules : modules k' = modules k;
  fr_devices : devices k' = devices k;
  fr_tick : rt_tick k' = rt_tick k;
  fr_lock : rt_scheduler_lock_nest k' = rt_scheduler_lock_nest k;
  fr_nest : rt_interrupt_nest k' = rt_interrupt_nest k;
  fr_objects : ∀ id, is_timer_obj id = false → objects k' !! id = objects k !! id
}.

(** A step that does not reach the scheduler. *)
Record quiet (k k' : kernel) : Prop := {
  qt_frame : frame k k';
  qt_current : rt_current_thread k' = rt_current_thread k;
  qt_priority : rt_current_priority k' = rt_current_priority k;
  qt_log : hw_log k' = hw_log k
}.

#[export] Instance frame_preorder : PreOrder frame.
Proof.
  split; [done|]. intros k1 k2 k3 [] []. split; try congruence.
  intros id Hid. by rewrite fr_objects1, fr_objects0.
Qed.
#[export] Instance quiet_preorder : PreOrder quiet.
Proof.
  split; [done|]. intros k1 k2 k3 [] []. split; [by etrans|congruence..].
Qed.

Create HintDb rtk.
#[export] Hint Resolve qt_frame : rtk.

(** Close a frame goal whose states are given by field updates. *)
Ltac solve_quiet :=
  split; [split; simpl; [done..|]; intros ? ?; try done;
          (rewrite lookup_insert_ne; [done|by intros <-])
         | done..].

(** * Timers *)

Section timer_ops.
Context {k : kernel} {L : lists}.
Hypothesis Hinv : kinv k L.

Lemma row_alone tm y :
  timers k !! tm = Some y → (∀ s, tm ∉ timer_queue L s) → L !! row0 tm = Some [].
Proof.
  intros Hy Hn. destruct (ko_row _ _ _ _ _ _ Hinv _ _ Hy) as [(hd & l & Hl & Hin) _].
  pose proof (ko_typed _ _ _ _ _ _ Hinv) as Hty.
  apply elem_of_cons in Hin as [<-|Hin].
  - by rewrite Hl, (not_head_row _ _ _ Hty _ Hl).
  - exfalso. pose proof (Hty _ _ _ Hl Hin) as Ha.
    destruct hd as [| | |s lvl| | | | |]; try done. simpl in Ha.
    apply bool_decide_eq_true in Ha as ->.
    apply (Hn s). by apply (elem_of_timer_queue L s tm l).
Qed.

Lemma wp_timer_remove tm y :
  timers k !! tm = Some y →
  wp (rt_timer_remove tm) k (λ _ k', ∃ h, k' = set_heap h k ∧ kinv k' (detach (row0 tm) L)).
Proof.
  intros Hy. unfold rt_timer_remove, timer_rows. simpl. wp_step.
  destruct (ko_row _ _ _ _ _ _ Hinv _ _ Hy) as [Hpl _].
  eapply wp_on_heap.
  - apply (wp_list_remove _ L); [apply Hinv|done|].
    apply not_head_row, Hinv.
  - intros ? h Hrep. wp_step. exists h. split; [done|]. by apply (kern_ok_detach_row Hinv).
Qed.

Lemma not_in_detach_row tm s : tm ∉ timer_queue (detach (row0 tm) L) s.
Proof.
  rewrite timer_queue_detach by apply Hinv. rewrite list_elem_of_filter. naive_solver.
Qed.

Lemma active_land o : (Z.land (flag o) RT_TIMER_FLAG_ACTIVATED =? 0) = negb (Z.testbit (flag o) 0).
Proof. by apply (land_pow2_eqb _ 0). Qed.
End timer_ops.

(** Clearing the [ACTIVATED] bit of the timer of a thread leaves no flag. *)
Lemma clear_active_thread o :
  flag o = 0 ∨ flag o = RT_TIMER_FLAG_ACTIVATED →
  flag (clear_flag RT_TIMER_FLAG_ACTIVATED o) = 0.
Proof. unfold clear_flag. simpl. by intros [-> | ->]. Qed.

Lemma wp_timer_stop_thread k L t x :
  kinv k L → threads k !! t = Some x →
  wp (rt_timer_stop (T_thread t)) k (λ _ k',
    quiet k k' ∧ threads k' = threads k ∧ timers k' = timers k ∧
    kinv k' (detach (row0 (T_thread t)) L)).
Proof.
  intros Hinv Hx. destruct (ko_thread_timer _ _ _ _ _ _ Hinv _ _ Hx)
    as (y & o & Hy & _ & _ & Ho & Hf).
  unfold rt_timer_stop. wp_step. eapply wp_get_object; [done|].
  rewrite active_land. destruct (Z.testbit (flag o) 0) eqn:Hb; simpl.
  - wp_step. wp_use (wp_timer_remove Hinv _ _ Hy) as (h & -> & Hinv').
    wp_step. eapply wp_upd_object; [done|]. wp_step.
    split_and!; [solve_quiet|done|done|].
    eapply (kern_ok_upd_object Hinv'); [done|]. intros tm [= <-]. split.
    + intros s Hin. exfalso. by eapply (not_in_detach_row Hinv).
    + intros _ _. left. by apply clear_active_thread.
  - wp_step. split_and!; [done..|].
    rewrite (detach_alone (heap k)); [done|apply Hinv|].
    eapply (row_alone Hinv); [done|]. intros s Hin.
    destruct (ko_active _ _ _ _ _ _ Hinv _ _ Hin) as (o' & ? & ? & _). congruence.
Qed.

(** * Suspending and resuming *)

Lemma number_mask_ready k L t x :
  kinv k L → threads k !! t = Some x → stat x ≠ RT_THREAD_INIT →
  number_mask x = 2 ^ current_priority x.
Proof. intros Hinv. apply (so_mask _ _ _ _ (ko_sched _ _ _ _ _ _ Hinv)). Qed.

Lemma prio_range k L t x :
  kinv k L → threads k !! t = Some x → 0 <= current_priority x < RT_THREAD_PRIORITY_MAX.
Proof. intros Hinv. apply (so_prio _ _ _ _ (ko_sched _ _ _ _ _ _ Hinv)). Qed.

Lemma ready_list_lookup k L p :
  kinv k L → 0 <= p < RT_THREAD_PRIORITY_MAX →
  L !! N_ready p = Some (N_tlist <$> ready_queue L p).
Proof. intros Hinv. apply (so_queue _ _ _ _ (ko_sched _ _ _ _ _ _ Hinv)). Qed.

Lemma tlist_placed k L t x :
  kinv k L → threads k !! t = Some x → placed (N_tlist t) L.
Proof. intros Hinv. apply (so_placed _ _ _ _ (ko_sched _ _ _ _ _ _ Hinv)). Qed.

#[export] Hint Resolve number_mask_ready prio_range tlist_placed : rtk.

Lemma wp_thread_suspend k L t x :
  kinv k L → threads k !! t = Some x → stat x = RT_THREAD_READY →
  wp (rt_thread_suspend t) k (λ r k',
    r = RT_EOK ∧ quiet k k' ∧
    threads k' = <[t := set_stat RT_THREAD_SUSPEND x]> (threads k) ∧
    timers k' = timers k ∧ kinv k' (detach (N_tlist t) L)).
Proof.
  intros Hinv Hx Hs. unfold rt_thread_suspend.
  wp_step. eapply wp_get_thread; [done|]. rewrite decide_True by done.
  wp_step. eapply wp_upd_thread; [done|].
  wp_step. wp_use (wp_remove_thread _ L t (set_stat RT_THREAD_SUSPEND x)) as (h & Hrep & ->).
  - apply Hinv.
  - apply lookup_insert_eq.
  - by eapply tlist_placed.
  - apply not_head_tlist, Hinv.
  - eapply ready_list_lookup; [done|]. simpl. by eapply prio_range.
  - assert (kinv (set_ready_group h
        (clear_if_empty (detach (N_tlist t) L) (current_priority x) (number_mask x)
           (rt_thread_ready_priority_group k))
        (set_threads (<[t:=set_stat RT_THREAD_SUSPEND x]> (threads k)) k))
        (detach (N_tlist t) L)) as Hinv1.
    { by apply (kern_ok_unready Hinv _ _ x). }
    assert (∀ s, T_thread t ∉ timer_queue L s) as Hnt.
    { intros s. eapply (not_timed Hinv); [done|congruence]. }
    wp_step. wp_use (wp_timer_stop_thread _ _ t (set_stat RT_THREAD_SUSPEND x) Hinv1)
      as (Hq & Ht & Htm & Hk).
    { apply lookup_insert_eq. }
    wp_step. split_and!; [done| |by rewrite Ht|by rewrite Htm|].
    + etrans; [|done]. solve_quiet.
    + rewrite (detach_alone h) in Hk; [done|done|].
      destruct (ko_thread_timer _ _ _ _ _ _ Hinv _ _ Hx) as (y & o & Hy & _).
      eapply (row_alone Hinv1); [exact Hy|]. intros s.
      rewrite (timer_queue_ext L); [apply Hnt|].
      apply lookup_detach_untyped; [apply Hinv|done..].
Qed.

Lemma wp_thread_suspend_disorder k t x :
  threads k !! t = Some x → stat x ≠ RT_THREAD_READY →
  wp (rt_thread_suspend t) k (λ r k', r = - RT_ERROR ∧ k' = k).
Proof.
  intros Hx Hs. unfold rt_thread_suspend. wp_step. eapply wp_get_thread; [done|].
  rewrite decide_False by done. by wp_step.
Qed.

(** The lists after the thread [t] of priority [p] has been made ready. *)
Definition resumed (t : nat) (p : Z) (L : lists) : lists :=
  enqueue (N_ready p) (N_tlist t) (detach (row0 (T_thread t)) (detach (N_tlist t) L)).

Lemma wp_thread_resume k L t x :
  kinv k L → threads k !! t = Some x → stat x = RT_THREAD_SUSPEND →
  wp (rt_thread_resume t) k (λ r k',
    r = RT_EOK ∧ quiet k k' ∧
    threads k' = <[t := set_stat RT_THREAD_READY x]> (threads k) ∧
    timers k' = timers k ∧ kinv k' (resumed t (current_priority x) L)).
Proof.
  intros Hinv Hx Hs. unfold rt_thread_resume.
  wp_step. eapply wp_get_thread; [done|]. rewrite decide_True by done.
  wp_step. eapply wp_on_heap.
  { apply (wp_list_remove _ L); [apply Hinv|by eapply tlist_placed|apply not_head_tlist, Hinv]. }
  intros ? h Hrep.
  assert (kinv (set_heap h k) (detach (N_tlist t) L)) as Hinv1.
  { eapply (kern_ok_detach_tlist Hinv); [done|congruence|done]. }
  wp_step. wp_use (wp_timer_stop_thread _ _ t x Hinv1) as (Hq & Ht & Htm & Hinv2); [done|].
  pose proof (prio_range _ _ _ _ Hinv Hx) as Hp.
  set (L2 := detach (row0 (T_thread t)) (detach (N_tlist t) L)) in *.
  assert (L2 !! N_tlist t = Some []) as Hal.
  { unfold L2. by rewrite lookup_detach_ne, lookup_detach_eq. }
  wp_step. wp_use (wp_insert_thread _ L2 t x) as (h' & Hrep' & ->).
  - apply Hinv2.
  - by rewrite Ht.
  - done.
  - by eapply ready_list_lookup.
  - wp_step. split_and!; [done| |simpl; by rewrite Ht|simpl; by rewrite Htm|].
    + etrans; [|etrans; [exact Hq|]]; by split.
    + apply (kern_ok_make_ready Hinv2 h' t x (set_stat RT_THREAD_READY x)); simpl; try done.
      * by rewrite Ht.
      * congruence.
      * intros s. by apply (not_in_detach_row Hinv1).
      * eapply number_mask_ready; [exact Hinv|done|congruence].
Qed.

Lemma wp_thread_resume_disorder k t x :
  threads k !! t = Some x → stat x ≠ RT_THREAD_SUSPEND →
  wp (rt_thread_resume t) k (λ r k', r = - RT_ERROR ∧ k' = k).
Proof.
  intros Hx Hs. unfold rt_thread_resume. wp_step. eapply wp_get_thread; [done|].
  rewrite decide_False by done. by wp_step.
Qed.

(** The thread [t] leaves the list it is on and joins the end of the ready queue
    of priority [p]. *)
Definition requeued (t : nat) (p : Z) (L : lists) : lists :=
  enqueue (N_ready p) (N_tlist t) (detach (N_tlist t) L).

Lemma timer_queue_requeued L t p s :
  typed L → timer_queue (requeued t p L) s = timer_queue L s.
Proof.
  intros Ht. apply timer_queue_ext. unfold requeued.
  rewrite lookup_enqueue_ne by done. by apply lookup_detach_untyped.
Qed.

(** * Scheduling points *)

Definition stacks_ok (ths : gmap nat rt_thread) : Prop :=
  ∀ t x, ths !! t = Some x → stack_ok x = true.

(** A kernel whose scheduler has been started: the invariant holds, a thread
    runs, the idle thread is ready, and no stack has overflowed. *)
Record running (k : kernel) (L : lists) : Prop := {
  rn_inv : kinv k L;
  rn_stacks : stacks_ok (threads k);
  rn_idle : ∃ x, threads k !! idle = Some x ∧ stat x = RT_THREAD_READY;
  rn_current : is_Some (rt_current_thread k)
}.

(** The thread that runs after a scheduling point. *)
Definition elected (k : kernel) (L : lists) : option nat :=
  if rt_scheduler_lock_nest k =? 0 then head (run_order L) else rt_current_thread k.

Lemma run_order_head k L :
  running k L → ∃ to x, head (run_order L) = Some to ∧ threads k !! to = Some x ∧
    stat x = RT_THREAD_READY.
Proof.
  intros [Hinv _ Hidle _].
  pose proof (ko_sched _ _ _ _ _ _ Hinv : sched_inv k L) as Hs.
  apply (run_order_ready Hs) in Hidle.
  destruct (run_order L) as [|to q] eqn:E; [by apply not_elem_of_nil in Hidle|].
  assert (to ∈ run_order L) as Hto by (rewrite E; set_solver).
  apply (run_order_ready Hs) in Hto as (x & ? & ?). eauto.
Qed.

(** What a scheduling point leaves alone. *)
Record same_memory (k k' : kernel) : Prop := {
  sm_frame : frame k k';
  sm_heap : heap k' = heap k;
  sm_objects : objects k' = objects k;
  sm_threads : threads k' = threads k;
  sm_timers : timers k' = timers k;
  sm_group : rt_thread_ready_priority_group k' = rt_thread_ready_priority_group k
}.

Lemma switched_same_memory cur to p k : same_memory k (switched cur to p k).
Proof. unfold switched. by case_decide. Qed.

Lemma running_same_memory k k' L :
  same_memory k k' → is_Some (rt_current_thread k') → running k L → running k' L.
Proof.
  intros [_ Hh Ho Ht Htm Hg] Hc [Hinv Hst Hid _]. split; [|by rewrite Ht..|done].
  unfold kinv. by rewrite Hh, Ho, Ht, Htm, Hg.
Qed.

Lemma wp_schedule k L :
  running k L →
  wp rt_schedule k (λ _ k',
    running k' L ∧ same_memory k k' ∧ rt_current_thread k' = elected k L).
Proof.
  intros Hrun. destruct (rn_current _ _ Hrun) as [cur Hcur].
  unfold elected. destruct (Z.eqb_spec (rt_scheduler_lock_nest k) 0) as [Hl|Hl].
  - destruct (run_order_head _ _ Hrun) as (to & x & Hto & Hx & _).
    eapply wp_mono.
    { eapply (wp_rt_schedule k L cur to x); [apply Hrun|done..|by eapply rn_stacks]. }
    intros ? k' ->. rewrite (current_switched _ _ _ _ Hcur).
    pose proof (switched_same_memory cur to (current_priority x) k).
    split_and!; [|done|done]. eapply running_same_memory; [done| |done].
    rewrite (current_switched _ _ _ _ Hcur). eauto.
  - unfold wp. rewrite rt_schedule_locked by done. done.
Qed.

Lemma stacks_ok_insert ths t x x' :
  stacks_ok ths → ths !! t = Some x → stack_ok x' = stack_ok x →
  stacks_ok (<[t := x']> ths).
Proof.
  intros Hs Hx He u y. destruct (decide (u = t)) as [->|].
  - rewrite lookup_insert_eq. intros [= <-]. rewrite He. eauto.
  - rewrite lookup_insert_ne by done. eauto.
Qed.

(** The idle thread stays ready when another thread changes, or it is made ready. *)
Lemma idle_insert (ths : gmap nat rt_thread) t x' :
  (∃ x, ths !! idle = Some x ∧ stat x = RT_THREAD_READY) →
  (t = idle → stat x' = RT_THREAD_READY) →
  ∃ x, <[t := x']> ths !! idle = Some x ∧ stat x = RT_THREAD_READY.
Proof.
  intros (x & Hx & Hs) Ht. destruct (decide (t = idle)) as [->|].
  - exists x'. rewrite lookup_insert_eq. auto.
  - exists x. by rewrite lookup_insert_ne.
Qed.
