(* ===== verification/Check.v ===== *)
(** An executable test of the invariant, sound for [kinv] and [running].  It is
    used to evaluate the operations on concrete kernels: [lists_of] reads the
    sequences off the memory. *)

From Stdlib Require Import ZArith Lia.
From stdpp Require Import numbers strings base gmap list.
From S2P Require Import Prelude RtList Bitmap Kernel Scheduler Object Timer Thread Invariant.
From S2P Require Import ThreadSpec.
Local Open Scope Z_scope.

(** * Finite maps *)

Definition all_entries {I A} `{Countable I} (f : I → A → bool) (m : gmap I A) : bool :=
  forallb (λ '(i, x), f i x) (map_to_list m).

Lemma all_entries_spec {I A} `{Countable I} (f : I → A → bool) (m : gmap I A) :
  all_entries f m = true → ∀ i x, m !! i = Some x → f i x = true.
Proof.
  unfold all_entries. rewrite forallb_forall. intros Hf i x Hx.
  apply (Hf (i, x)). by apply list_elem_of_In, elem_of_map_to_list.
Qed.

Lemma forallb_elem {A} (f : A → bool) l x : forallb f l = true → x ∈ l → f x = true.
Proof. rewrite forallb_forall. intros Hf Hx. by apply Hf, list_elem_of_In. Qed.

(** * The lists in memory *)

Fixpoint walk (fuel : nat) (h : lheap node) (hd n : node) : list node :=
  match fuel with
  | O => []
  | S fuel => if decide (n = hd) then []
              else n :: match h !! n with Some c => walk fuel h hd (next c) | None => [] end
  end.

Definition is_head (n : node) : bool :=
  match n with N_tlist _ | N_row _ _ | N_object _ => false | _ => true end.

(** Every list of the kernel, and every node that is on no list. *)
Definition lists_of (h : lheap node) : lists :=
  foldr (λ '(n, c) L,
    if is_head n || bool_decide (next c = n) then <[n := walk (size h) h n (next c)]> L else L)
    ∅ (map_to_list h).

Definition linked_b (h : lheap node) : list node → bool :=
  fix go ns := match ns with
  | x :: ((y :: _) as r) =>
      bool_decide (next <$> h !! x = Some y) && bool_decide (prev <$> h !! y = Some x) && go r
  | _ => true
  end.

Definition rep_b (h : lheap node) (L : lists) : bool :=
  all_entries (λ hd l, linked_b h (hd :: l ++ [hd])) L
  && bool_decide (NoDup (map_to_list L ≫= λ '(hd, l), hd :: l)).

Lemma linked_b_spec h ns : linked_b h ns = true → linked h ns.
Proof.
  induction ns as [|x ns IH]; [done|]. destruct ns as [|y ns]; [done|].
  simpl. rewrite !andb_true_iff, !bool_decide_eq_true. intros [[? ?] ?].
  split; [by split|by apply IH].
Qed.

Lemma NoDup_bind_inj {A B} (f : A → list B) (l : list A) a1 a2 b :
  NoDup (l ≫= f) → a1 ∈ l → a2 ∈ l → b ∈ f a1 → b ∈ f a2 → a1 = a2.
Proof.
  induction l as [|a l IH]; [by intros _ ?%not_elem_of_nil|].
  rewrite bind_cons, NoDup_app. intros (_ & Hd & Hnd) H1 H2 Hb1 Hb2.
  apply elem_of_cons in H1 as [->|H1], H2 as [->|H2]; [done| | |by apply IH].
  - exfalso. apply (Hd b); [done|]. apply list_elem_of_bind; eauto.
  - exfalso. apply (Hd b); [done|]. apply list_elem_of_bind; eauto.
Qed.

Lemma NoDup_bind_elem {A B} (f : A → list B) (l : list A) a :
  NoDup (l ≫= f) → a ∈ l → NoDup (f a).
Proof.
  induction l as [|a' l IH]; [by intros _ ?%not_elem_of_nil|].
  rewrite bind_cons, NoDup_app. intros (? & _ & ?) [->|?]%elem_of_cons; auto.
Qed.

Lemma rep_b_spec h L : rep_b h L = true → rep h L.
Proof.
  unfold rep_b. rewrite andb_true_iff, bool_decide_eq_true. intros [Hl Hnd].
  pose proof (all_entries_spec _ _ Hl) as Hall. split.
  - intros hd l HL. split; [|by apply linked_b_spec, Hall].
    apply (NoDup_bind_elem _ _ (hd, l) Hnd). by apply elem_of_map_to_list.
  - intros hd1 hd2 l1 l2 n H1 H2 Hn1 Hn2.
    assert ((hd1, l1) = (hd2, l2)) as [= ]; [|done].
    eapply (NoDup_bind_inj _ _ _ _ n Hnd); by try apply elem_of_map_to_list.
Qed.

(** * The invariant *)

Definition placed_b (n : node) (L : lists) : bool :=
  existsb (λ '(hd, l), bool_decide (n ∈ hd :: l)) (map_to_list L).

Lemma placed_b_spec n L : placed_b n L = true → placed n L.
Proof.
  unfold placed_b. rewrite existsb_exists. intros ([hd l] & Hin & Hd).
  apply list_elem_of_In, elem_of_map_to_list in Hin. apply bool_decide_eq_true in Hd.
  by exists hd, l.
Qed.

Definition has_stat (ths : gmap nat rt_thread) (s : thread_stat) (t : nat) : bool :=
  match ths !! t with Some x => bool_decide (stat x = s) | None => false end.

Lemma has_stat_spec ths s t :
  has_stat ths s t = true → ∃ x, ths !! t = Some x ∧ stat x = s.
Proof. unfold has_stat. destruct (ths !! t) as [x|]; [|done]. intros ?%bool_decide_eq_true. eauto. Qed.

Definition ready_b (ths : gmap nat rt_thread) (L : lists) (grp p : Z) : bool :=
  bool_decide (L !! N_ready p = Some (N_tlist <$> ready_queue L p))
  && forallb (λ t, match ths !! t with
                   | Some x => bool_decide (stat x = RT_THREAD_READY) && (current_priority x =? p)
                   | None => false
                   end) (ready_queue L p)
  && eqb (Z.testbit grp p) (negb (bool_decide (ready_queue L p = []))).

Definition thread_b (L : lists) (tms : gmap timer_id rt_timer) (objs : gmap objid rt_object)
    (t : nat) (x : rt_thread) : bool :=
  (if decide (stat x = RT_THREAD_READY)
   then bool_decide (t ∈ ready_queue L (current_priority x)) else true)
  && (0 <=? current_priority x) && (current_priority x <? RT_THREAD_PRIORITY_MAX)
  && (bool_decide (stat x = RT_THREAD_INIT) || (number_mask x =? 2 ^ current_priority x))
  && placed_b (N_tlist t) L
  && match tms !! T_thread t, objs !! O_timer (T_thread t) with
     | Some y, Some o => bool_decide (timeout_func y = TF_thread_timeout)
                         && bool_decide (tm_parameter y = t)
                         && ((flag o =? 0) || (flag o =? RT_TIMER_FLAG_ACTIVATED))
     | _, _ => false
     end.

Definition queued_timer_b (ths : gmap nat rt_thread) (tms : gmap timer_id rt_timer)
    (objs : gmap objid rt_object) (soft : bool) (tm : timer_id) : bool :=
  match objs !! O_timer tm, tms !! tm with
  | Some o, Some _ => Z.testbit (flag o) 0 && eqb (Z.testbit (flag o) 2) soft
  | _, _ => false
  end
  && match tm with T_thread t => has_stat ths RT_THREAD_SUSPEND t | T_timer _ => true end.

Definition list_b (ths : gmap nat rt_thread) (hd : node) (l : list node) : bool :=
  forallb (λ n, accepts hd n
    && match n with
       | N_tlist t => negb (is_wait hd) || has_stat ths RT_THREAD_SUSPEND t
       | _ => true
       end) l.

Definition kern_b (h : lheap node) (ths : gmap nat rt_thread) (grp : Z)
    (tms : gmap timer_id rt_timer) (objs : gmap objid rt_object) (L : lists) : bool :=
  rep_b h L
  && (0 <=? grp) && (grp <? 2 ^ 32)
  && forallb (ready_b ths L grp) ready_lists
  && all_entries (thread_b L tms objs) ths
  && all_entries (list_b ths) L
  && all_entries (λ tm _, placed_b (row0 tm) L && bool_decide (is_Some (objs !! O_timer tm))) tms
  && forallb (λ s, bool_decide (is_Some (L !! N_timer_list s 0))
                   && forallb (queued_timer_b ths tms objs s) (timer_queue L s)) [false; true].

Lemma kern_b_spec h ths grp tms objs L :
  kern_b h ths grp tms objs L = true → kern_ok h ths grp tms objs L.
Proof.
  unfold kern_b. rewrite !andb_true_iff, Z.leb_le, Z.ltb_lt.
  intros [[[[[[[Hrep Hg0] Hg1] Hrd] Hth] Hli] Htm] Hq].
  pose proof (λ p H, forallb_elem _ _ p Hrd (proj2 (elem_of_ready_lists p) H)) as Hrdy.
  pose proof (all_entries_spec _ _ Hth) as Hths.
  pose proof (all_entries_spec _ _ Hli) as Hlis.
  pose proof (all_entries_spec _ _ Htm) as Htms.
  assert (∀ s, bool_decide (is_Some (L !! N_timer_list s 0)) = true ∧
    ∀ tm, tm ∈ timer_queue L s → queued_timer_b ths tms objs s tm = true) as Hqs.
  { intros s. pose proof (forallb_elem _ _ s Hq ltac:(destruct s; set_solver)) as H.
    simpl in H. apply andb_true_iff in H as [? ?]. split; [done|]. intros. by eapply forallb_elem. }
  clear Hrd Hth Hli Htm Hq. unfold ready_b in Hrdy. unfold thread_b in Hths. unfold list_b in Hlis.
  unfold queued_timer_b in Hqs.
  assert (typed L) as Hty.
  { intros hd l n HL Hn. pose proof (forallb_elem _ _ _ (Hlis _ _ HL) Hn) as H. simpl in H.
    by apply andb_true_iff in H as [? _]. }
  assert (∀ t x, ths !! t = Some x →
    (stat x = RT_THREAD_READY → t ∈ ready_queue L (current_priority x)) ∧
    0 <= current_priority x < RT_THREAD_PRIORITY_MAX ∧
    (stat x ≠ RT_THREAD_INIT → number_mask x = 2 ^ current_priority x) ∧
    placed (N_tlist t) L) as Hthr.
  { intros t x Hx. specialize (Hths t x Hx). rewrite !andb_true_iff in Hths.
    destruct Hths as [[[[[H1 H2] H3] H4] H5] _]. split_and!.
    - intros Hs. rewrite decide_True in H1 by done. by apply bool_decide_eq_true in H1.
    - lia.
    - lia.
    - intros Hs. apply orb_true_iff in H4 as [H4|H4]; [by apply bool_decide_eq_true in H4|lia].
    - by apply placed_b_spec. }
  split; [split|..]; try done.
  - by apply rep_b_spec.
  - intros p Hp. specialize (Hrdy p Hp). rewrite !andb_true_iff in Hrdy.
    by destruct Hrdy as [[?%bool_decide_eq_true _] _].
  - intros p t Hp. split.
    + intros Ht. specialize (Hrdy p Hp). rewrite !andb_true_iff in Hrdy.
      destruct Hrdy as [[_ H] _]. apply (forallb_elem _ _ t) in H; [|done]. simpl in H.
      destruct (ths !! t) as [x|]; [|done]. apply andb_true_iff in H as [?%bool_decide_eq_true ?].
      exists x. split_and!; [done|done|lia].
    + intros (x & Hx & Hs & <-). by apply (Hthr t x).
  - intros p Hp. specialize (Hrdy p Hp). rewrite !andb_true_iff in Hrdy.
    destruct Hrdy as [_ H]. apply eqb_prop in H. rewrite H.
    case_bool_decide; simpl; naive_solver.
  - intros t x Hx. by apply (Hthr t x).
  - intros t x Hx. by apply (Hthr t x).
  - intros t x Hx. by apply (Hthr t x).
  - intros t. by apply not_head_tlist.
  - intros s. destruct (Hqs s) as [H _]. by apply bool_decide_eq_true in H.
  - intros s tm Hin. destruct (Hqs s) as [_ H]. specialize (H tm Hin).
    apply andb_true_iff in H as [H _]. destruct (objs !! O_timer tm) as [o|]; [|done].
    destruct (tms !! tm); [|done]. apply andb_true_iff in H as [? ?%eqb_prop]. eauto.
  - intros s tm Hin. destruct (Hqs s) as [_ H]. specialize (H tm Hin).
    apply andb_true_iff in H as [H _]. destruct (objs !! O_timer tm) as [o|]; [|done].
    destruct (tms !! tm); [|done]. eauto.
  - intros tm y Hy. specialize (Htms tm y Hy). apply andb_true_iff in Htms as [H1 H2].
    split; [by apply placed_b_spec|by apply bool_decide_eq_true in H2].
  - intros t x Hx. specialize (Hths t x Hx). rewrite !andb_true_iff in Hths.
    destruct Hths as [_ H]. destruct (tms !! T_thread t) as [y|] eqn:Ey; [|done].
    destruct (objs !! O_timer (T_thread t)) as [o|] eqn:Eo; [|done].
    rewrite !andb_true_iff, !bool_decide_eq_true, orb_true_iff in H.
    destruct H as [[? ?] H]. exists y, o. split_and!; [done..|]. destruct H; [left|right]; lia.
  - intros s t Hin. destruct (Hqs s) as [_ H]. specialize (H _ Hin).
    apply andb_true_iff in H as [_ H]. by apply has_stat_spec.
  - intros hd l t Hw HL Hin. pose proof (forallb_elem _ _ _ (Hlis _ _ HL) Hin) as H. simpl in H.
    rewrite Hw in H. apply andb_true_iff in H as [_ H]. by apply has_stat_spec.
Qed.

Definition kinv_b (k : kernel) (L : lists) : bool :=
  kern_b (heap k) (threads k) (rt_thread_ready_priority_group k) (timers k) (objects k) L.

Definition running_b (k : kernel) (L : lists) : bool :=
  kinv_b k L && all_entries (λ _ x, stack_ok x) (threads k)
  && has_stat (threads k) RT_THREAD_READY idle && bool_decide (is_Some (rt_current_thread k)).

Lemma kinv_b_spec k L : kinv_b k L = true → kinv k L.
Proof. apply kern_b_spec. Qed.

Lemma running_b_spec k L : running_b k L = true → running k L.
Proof.
  unfold running_b. rewrite !andb_true_iff, bool_decide_eq_true. intros [[[H1 H2] H3] H4].
  split; [by apply kinv_b_spec|exact (all_entries_spec _ _ H2)|by apply has_stat_spec|done].
Qed.
