(* ===== verification/Demo.v ===== *)
(** A concrete kernel, booted by the modelled code: the states on which the
    theorems are instantiated. *)

From Stdlib Require Import ZArith Lia.
From stdpp Require Import numbers strings base gmap list.
From S2P Require Import Prelude RtList Bitmap Kernel Scheduler Object Timer Thread Ipc.
From S2P Require Import Invariant ThreadSpec Check.
Local Open Scope Z_scope.

(** Static memory: the object containers are initialised, the nodes of the
    objects hold null pointers (here: the node itself). *)
Definition static_heap (objs : list objid) : lheap node :=
  list_to_map ((λ n, (n, mk_node n n)) <$>
    ((λ c, N_container None (Z.of_nat c)) <$> seq 0 11) ++ (N_object <$> objs)).

Definition thread_objects (ts : list nat) : list objid :=
  ts ≫= λ t, [O_thread t; O_timer (T_thread t)].

Definition reset_kernel (objs : list objid) : kernel :=
  mk_kernel (static_heap objs) ∅ ∅ ∅ ∅ ∅ ∅ ∅ ∅ ∅ ∅ ∅ None 0 0 0 0 0 0 0
    (mk_small_mem 0 0 0 0 0 0 ∅ ∅) ∅ ∅ [].

(** Start-up with three application threads 2, 3 and 4 of priorities 10, 10 and 12. *)
Definition boot : K unit :=
  rt_system_timer_init;;
  rt_system_scheduler_init;;
  rt_thread_init 2 "main" 2 0 0x20001000 512 10 20;; rt_thread_startup 2;;
  rt_thread_init 3 "worker" 3 0 0x20002000 512 10 20;; rt_thread_startup 3;;
  rt_thread_init 4 "logger" 4 0 0x20003000 512 12 5;; rt_thread_startup 4;;
  rt_system_timer_thread_init 0x20004000 0;;
  rt_thread_idle_init 0x20005000 1;;
  rt_system_scheduler_start.

Definition run {A} (m : K A) (k : kernel) : kernel :=
  match m k with Ok (_, k') => k' | Err _ => k end.

(** After the boot the timer thread runs, finds no timer and suspends itself. *)
Definition booted : kernel :=
  run (boot;; rt_thread_timer_entry (λ _ _, mret tt) 10)
      (reset_kernel (thread_objects (seq 0 5) ++ [O_sem 0; O_sem 7; O_mutex 0; O_event 0; O_mb 0; O_mq 0; O_mp 0;
        O_timer (T_timer 0)])).

Definition lists_at (k : kernel) : lists := lists_of (heap k).

(** The running thread has created a semaphore without permits. *)
Definition sem_demo : kernel := run (rt_sem_init 0 "sem" 0 RT_IPC_FLAG_PRIO) booted.
