(* ===== verification/TimerSpec.v ===== *)
(** The timer list: the search of [rt_timer_start] is a stable insertion by
    expiry, correct across the wrap-around of the tick counter; starting a timer
    keeps the invariant; the clock interrupt fires the expired timers. *)

From Stdlib Require Import ZArith Lia.
From stdpp Require Import numbers strings base gmap list sorting.
From S2P Require Import Prelude RtList Bitmap Kernel Scheduler Object Timer Thread Invariant.
From S2P Require Import ThreadSpec.
Local Open Scope Z_scope.

(** * The reference insertion *)

(** [t->timeout_tick - timer->timeout_tick] is neither 0 nor in the past half. *)
Definition later (tms : gmap timer_id rt_timer) (tick : Z) (u : timer_id) : bool :=
  match tms !! u with
  | Some y => let d := u32 (timeout_tick y - tick) in negb (d =? 0) && (d <? RT_TICK_MAX / 2)
  | None => false
  end.

(** Insert before the first timer that expires later. *)
Fixpoint insert_timer (tms : gmap timer_id rt_timer) (tick : Z) (tm : timer_id)
    (q : list timer_id) : list timer_id :=
  match q with
  | [] => [tm]
  | u :: q => if later tms tick u then tm :: u :: q else u :: insert_timer tms tick tm q
  end.

Lemma insert_timer_perm tms tick tm q : insert_timer tms tick tm q ≡ₚ tm :: q.
Proof.
  induction q as [|u q IH]; [done|]. simpl. case_match; [done|].
  rewrite IH. apply perm_swap.
Qed.

(** * The search loop *)

Lemma last_row0 (q : list timer_id) u hd :
  default hd (last (row0 <$> (q ++ [u]))) = row0 u.
Proof. rewrite fmap_app. csimpl. by rewrite last_snoc. Qed.

Lemma wp_row_search k L s tick tm fuel q1 q2 :
  kinv k L → L !! N_timer_list s 0 = Some (row0 <$> (q1 ++ q2)) →
  (∀ u, u ∈ q2 → is_Some (timers k !! u)) → (length q2 < fuel)%nat →
  wp (timer_row_search fuel s 0 tick (default (N_timer_list s 0) (last (row0 <$> q1)))) k
    (λ n k', k' = k ∧ ∃ a b, q1 ++ q2 = a ++ b ∧
       n = default (N_timer_list s 0) (last (row0 <$> a)) ∧
       a ++ tm :: b = q1 ++ insert_timer (timers k) tick tm q2).
Proof.
  intros Hinv. revert q1 fuel. induction q2 as [|u q2 IH]; intros q1 fuel HL Hex Hf;
    (destruct fuel as [|fuel]; [simpl in Hf; lia|]); simpl.
  - rewrite app_nil_r in HL. wp_step. unfold on_heap at 1. apply wp_zoom.
    eapply wp_prev_head; [apply Hinv|done|]. rewrite set_heap_id.
    rewrite decide_True by done. wp_step. split; [done|]. exists q1, []. done.
  - pose proof (ko_rep Hinv) as Hrep.
    assert (default (N_timer_list s 0) (last (row0 <$> q1))
            ≠ default (N_timer_list s 0) (last (row0 <$> (q1 ++ u :: q2)))) as Hne.
    { destruct (rep_dlist _ _ _ _ Hrep HL) as [Hnd _].
      assert (∃ v, v ∈ u :: q2 ∧ default (N_timer_list s 0) (last (row0 <$> (q1 ++ u :: q2)))
                = row0 v) as (v & Hv & ->).
      { destruct (exists_last (l := u :: q2)) as (q3 & v & E); [done|]. rewrite E.
        exists v. split; [set_solver|]. by rewrite app_assoc, last_row0. }
      apply NoDup_cons in Hnd as [_ Hnd]. rewrite fmap_app in Hnd.
      apply NoDup_app in Hnd as (_ & Hd & _).
      destruct (last (row0 <$> q1)) as [w|] eqn:Ew; [|done]. simpl. intros ->.
      apply last_Some_elem_of in Ew. eapply Hd; [done|]. apply list_elem_of_fmap; eauto. }
    wp_step. unfold on_heap at 1. apply wp_zoom.
    eapply wp_prev_head; [done|exact HL|]. rewrite set_heap_id.
    rewrite decide_False by done.
    assert (L !! N_timer_list s 0 = Some ((row0 <$> q1) ++ row0 u :: (row0 <$> q2))) as HL'.
    { by rewrite HL, fmap_app. }
    wp_step. unfold on_heap at 1. apply wp_zoom.
    eapply wp_next_prefix; [done|exact HL'|]. rewrite set_heap_id. simpl.
    destruct (Hex u) as [y Hy]; [set_solver|].
    wp_step. wp_step. wp_step. eapply wp_get_timer; [done|].
    assert (wp (r ← on_heap (rd_next (default (N_timer_list s 0) (last (row0 <$> q1))));
                timer_row_search fuel s 0 tick r) k
              (λ n k', k' = k ∧ ∃ a b, q1 ++ u :: q2 = a ++ b ∧
                 n = default (N_timer_list s 0) (last (row0 <$> a)) ∧
                 a ++ tm :: b = q1 ++ u :: insert_timer (timers k) tick tm q2)) as Hgo.
    { wp_step. unfold on_heap at 1. apply wp_zoom.
      eapply wp_next_prefix; [done|exact HL'|]. rewrite set_heap_id. simpl.
      rewrite <- (last_row0 q1 u (N_timer_list s 0)).
      wp_use (IH (q1 ++ [u])) as [-> (a & b & E1 & -> & E2)].
      - by rewrite <- app_assoc.
      - set_solver.
      - simpl in Hf. lia.
      - split; [done|]. exists a, b. rewrite <- app_assoc in E1, E2. done. }
    unfold later. rewrite Hy.
    destruct (Z.eqb_spec (u32 (timeout_tick y - tick)) 0) as [E0|E0]; simpl; [done|].
    destruct (Z.ltb_spec (u32 (timeout_tick y - tick)) (RT_TICK_MAX / 2)) as [E1|E1]; [|done].
    wp_step. split; [done|]. exists q1, (u :: q2). done.
Qed.

(** * Starting a timer *)

Lemma clear_active_bits o :
  Z.testbit (flag (clear_flag RT_TIMER_FLAG_ACTIVATED o)) 0 = false ∧
  Z.testbit (flag (clear_flag RT_TIMER_FLAG_ACTIVATED o)) 1 = Z.testbit (flag o) 1 ∧
  Z.testbit (flag (clear_flag RT_TIMER_FLAG_ACTIVATED o)) 2 = Z.testbit (flag o) 2.
Proof.
  change (flag (clear_flag RT_TIMER_FLAG_ACTIVATED o)) with (Z.land (flag o) 254).
  rewrite !Z.land_spec. change (Z.testbit 254 0) with false.
  change (Z.testbit 254 1) with true. change (Z.testbit 254 2) with true.
  by rewrite andb_false_r, !andb_true_r.
Qed.

Lemma raise_active_bits o :
  Z.testbit (flag (raise_flag RT_TIMER_FLAG_ACTIVATED o)) 0 = true ∧
  Z.testbit (flag (raise_flag RT_TIMER_FLAG_ACTIVATED o)) 2 = Z.testbit (flag o) 2.
Proof.
  change (flag (raise_flag RT_TIMER_FLAG_ACTIVATED o)) with (Z.lor (flag o) 1).
  rewrite !Z.lor_spec.
  change (Z.testbit 1 0) with true. change (Z.testbit 1 2) with false.
  by rewrite orb_true_r, orb_false_r.
Qed.

(** The lists after a hard timer has been started. *)
Definition timer_started (tms : gmap timer_id rt_timer) (tick : Z) (tm : timer_id)
    (L : lists) : lists :=
  <[N_timer_list false 0 :=
      row0 <$> insert_timer tms tick tm (filter (λ u, u ≠ tm) (timer_queue L false))]>
    (delete (row0 tm) (detach (row0 tm) L)).

Lemma wp_timer_start_hard k L tm y o :
  kinv k L → timers k !! tm = Some y → objects k !! O_timer tm = Some o →
  Z.testbit (flag o) 2 = false → init_tick y < RT_TICK_MAX / 2 →
  (∀ t, tm = T_thread t → (flag o = 0 ∨ flag o = RT_TIMER_FLAG_ACTIVATED) ∧
     ∃ x, threads k !! t = Some x ∧ stat x = RT_THREAD_SUSPEND) →
  let tick := u32 (rt_tick k + init_tick y) in
  let tms := <[tm := set_timeout_tick tick y]> (timers k) in
  wp (rt_timer_start tm) k (λ r k',
    r = - RT_EOK ∧ quiet k k' ∧ threads k' = threads k ∧ timers k' = tms ∧
    objects k' = <[O_timer tm := raise_flag RT_TIMER_FLAG_ACTIVATED
                     (clear_flag RT_TIMER_FLAG_ACTIVATED o)]> (objects k) ∧
    kinv k' (timer_started tms tick tm L)).
Proof.
  intros Hinv Hy Ho Hsoft Hit Hth tick tms.
  pose proof (ko_timer_exists _ _ _ _ _ _ Hinv false) as Hex. unfold rt_timer_start.
  wp_step. wp_use (wp_timer_remove Hinv _ _ Hy) as (h & -> & Hinv1).
  wp_step. eapply wp_upd_object; [done|].
  wp_step. eapply wp_get_timer; [done|].
  wp_step. apply wp_assert; [by apply Z.ltb_lt|].
  wp_step. unfold rt_tick_get. wp_step. wp_step. wp_step.
  wp_step. eapply wp_upd_timer; [done|].
  wp_step. eapply wp_get_object; [apply lookup_insert_eq|].
  destruct (clear_active_bits o) as (_ & _ & Hb2). rewrite Hsoft in Hb2.
  rewrite (land_pow2_eqb _ 2) by lia. rewrite Hb2. simpl (negb (negb _)).
  set (o1 := clear_flag RT_TIMER_FLAG_ACTIVATED o) in *.
  match goal with |- wp _ ?s _ => set (k2 := s) end.
  set (L1 := detach (row0 tm) L) in *.
  assert (kinv k2 L1) as Hinv2.
  { eapply kern_ok_upd_timer; [|exact Hy|done|done].
    eapply (kern_ok_upd_object Hinv1); [done|]. intros tm' [= <-]. split.
    - intros s Hin. exfalso. by eapply (not_in_detach_row Hinv).
    - intros t Ht. left. apply clear_active_thread. by destruct (Hth t Ht). }
  pose proof (ko_typed _ _ _ _ _ _ Hinv) as Hty.
  assert (timer_queue L1 false = filter (λ u, u ≠ tm) (timer_queue L false)) as Hq
    by by apply timer_queue_detach.
  destruct (ko_timer_lists _ _ _ _ _ _ Hinv2 false) as [l Hl].
  pose proof (timer_list_rows _ _ _ (ko_typed _ _ _ _ _ _ Hinv2) Hl) as El. rewrite Hq in El.
  set (q := filter (λ u, u ≠ tm) (timer_queue L false)) in *.
  change (seq 0 RT_TIMER_SKIP_LIST_LEVEL) with [0%nat]. simpl timer_row_heads.
  wp_step. wp_step. wp_step. wp_step.
  wp_use (wp_row_search k2 L1 false tick tm (list_fuel k2) [] q) as [-> (a & b & Eab & -> & Eins)].
  { done. }
  { simpl. by rewrite Hl, El. }
  { intros u [_ Hu]%list_elem_of_filter. simpl. rewrite lookup_insert. case_decide; eauto. }
  { unfold list_fuel. pose proof (rep_length _ _ _ _ (ko_rep Hinv2) Hl) as Hlen.
    rewrite El, length_fmap in Hlen. lia. }
  simpl in Eab, Eins. wp_step. wp_step. wp_step. wp_step. wp_step. wp_step. wp_step.
  simpl (([_] : list node) !! _). wp_step. wp_step. wp_step.
  eapply wp_on_heap.
  { apply (insert_after_prefix _ L1 _ (row0 <$> a) (row0 <$> b)); [apply Hinv2| | |done].
    - by rewrite Hl, El, Eab, fmap_app.
    - apply lookup_detach_eq. }
  intros ? h' Hrep'. simpl timer_link_rows. wp_step. wp_step.
  wp_step. eapply wp_upd_object; [apply lookup_insert_eq|]. wp_step.
  split_and!; [done| |done|done| |].
  - split; [split; simpl; [done..|]|done..]. intros id Hid.
    rewrite !lookup_insert_ne; [done|by intros <-..].
  - simpl. by rewrite insert_insert_eq.
  - unfold timer_started. fold L1 q.
    assert (insert_timer tms tick tm q = a ++ tm :: b) as -> by exact (eq_sym Eins).
    rewrite fmap_app, fmap_cons.
    destruct (raise_active_bits o1) as [Hr0 Hr2].
    eapply kern_ok_insert_row; [| | | |apply lookup_insert_eq|done|by rewrite Hr2| |done].
    + eapply (kern_ok_upd_object Hinv2); [apply lookup_insert_eq|]. intros tm' [= <-]. split.
      * intros s Hin. exfalso. by eapply (not_in_detach_row Hinv).
      * intros t Ht. right. destruct (Hth t Ht) as [Hf _].
        apply clear_active_thread in Hf. fold o1 in Hf.
        change (Z.lor (flag o1) 1 = 1). by rewrite Hf.
    + by rewrite Hl, El, Eab, fmap_app.
    + apply lookup_detach_eq.
    + simpl. rewrite lookup_insert_eq. eauto.
    + intros t Ht. by destruct (Hth t Ht).
Qed.

(** * Order of the timer list *)

Section order.
Context (tms : gmap timer_id rt_timer).

(** Ticks from [now] to the expiry of a timer. *)
Definition delay (now : Z) (u : timer_id) : Z :=
  match tms !! u with Some y => u32 (timeout_tick y - now) | None => 0 end.

(** The list is sorted by delay, and no delay reaches half of the tick range. *)
Definition timers_sorted (now : Z) (q : list timer_id) : Prop :=
  StronglySorted (λ a b, delay now a <= delay now b) q ∧
  Forall (λ u, is_Some (tms !! u) ∧ delay now u < RT_TICK_MAX / 2) q.

Lemma delay_nonneg now u : 0 <= delay now u.
Proof. unfold delay, wrap. case_match; [|lia]. apply Z.mod_pos_bound. lia. Qed.

(** Inside the window the wrapping comparison of the code compares delays. *)
Lemma later_delay now u d :
  is_Some (tms !! u) → delay now u < RT_TICK_MAX / 2 → 0 <= d < RT_TICK_MAX / 2 →
  later tms (u32 (now + d)) u = (d <? delay now u).
Proof.
  intros [y Hy] Hu Hd. pose proof (delay_nonneg now u) as Hn. revert Hu Hn.
  unfold later, delay, wrap. rewrite Hy. intros Hu Hn.
  rewrite Zminus_mod_idemp_r.
  assert (timeout_tick y - (now + d) = (timeout_tick y - now) - d) as -> by lia.
  rewrite <- Zminus_mod_idemp_l. set (e := (timeout_tick y - now) mod 2 ^ 32) in *.
  change (RT_TICK_MAX / 2) with 2147483647 in *.
  destruct (Z.ltb_spec d e).
  - rewrite Z.mod_small by lia.
    destruct (Z.eqb_spec (e - d) 0), (Z.ltb_spec (e - d) 2147483647); simpl; lia.
  - destruct (Z.eq_dec d e) as [->|].
    + rewrite Z.sub_diag, Z.mod_0_l by lia. done.
    + rewrite <- (Z.mod_add _ 1), Z.mod_small by lia.
      destruct (Z.eqb_spec (e - d + 1 * 2 ^ 32) 0),
        (Z.ltb_spec (e - d + 1 * 2 ^ 32) 2147483647); simpl; lia.
Qed.

Lemma elem_of_insert_timer tick tm q u :
  u ∈ insert_timer tms tick tm q ↔ u = tm ∨ u ∈ q.
Proof. by rewrite insert_timer_perm, elem_of_cons. Qed.

(** Stable sorted insertion: after the timers that expire no later, before the
    ones that expire strictly later. *)
Lemma insert_timer_sorted now tm q d :
  timers_sorted now q → is_Some (tms !! tm) → delay now tm = d → 0 <= d < RT_TICK_MAX / 2 →
  timers_sorted now (insert_timer tms (u32 (now + d)) tm q).
Proof.
  intros [Hs Hf] Htm Hd Hr. split.
  - induction Hs as [|u q Hq IH Hall]; simpl.
    { repeat constructor. }
    apply Forall_cons in Hf as [[Hu Hul] Hf]. rewrite later_delay by done.
    destruct (Z.ltb_spec d (delay now u)).
    + constructor; [by constructor|]. constructor; [lia|].
      eapply Forall_impl; [exact Hall|]. simpl. lia.
    + constructor; [by apply IH|]. apply Forall_forall. intros v.
      rewrite elem_of_insert_timer. rewrite Forall_forall in Hall.
      intros [->|?]; [lia|by apply Hall].
  - apply Forall_forall. intros v. rewrite elem_of_insert_timer. rewrite Forall_forall in Hf.
    intros [->|?]; [rewrite Hd; split; [done|lia]|by apply Hf].
Qed.

Lemma insert_timer_split now tm q d :
  timers_sorted now q → 0 <= d < RT_TICK_MAX / 2 →
  insert_timer tms (u32 (now + d)) tm q
  = filter (λ u, delay now u <= d) q ++ tm :: filter (λ u, d < delay now u) q.
Proof.
  intros [Hs Hf] Hr. induction Hs as [|u q Hq IH Hall]; [done|]. simpl.
  apply Forall_cons in Hf as [[Hu Hul] Hf]. rewrite later_delay by done.
  destruct (Z.ltb_spec d (delay now u)).
  - rewrite Forall_forall in Hall.
    rewrite (list_filter_all (λ u, d < delay now u)).
    + rewrite (list_filter_none (λ u, delay now u <= d)); [done|].
      apply Forall_cons. split; [lia|]. apply Forall_forall. intros v Hv.
      specialize (Hall v Hv). lia.
    + apply Forall_cons. split; [lia|]. apply Forall_forall. intros v Hv.
      specialize (Hall v Hv). lia.
  - rewrite filter_cons_True, filter_cons_False by lia. simpl. by rewrite IH.
Qed.
End order.

(** * Expiry *)

Definition timed_out (x : rt_thread) : rt_thread :=
  set_stat RT_THREAD_READY (set_error (- RT_ETIMEOUT) x).

Lemma wp_thread_timeout k L t x :
  running k L → threads k !! t = Some x → stat x = RT_THREAD_SUSPEND →
  (∀ s, T_thread t ∉ timer_queue L s) →
  let L' := requeued t (current_priority x) L in
  wp (rt_thread_timeout t) k (λ _ k',
    running k' L' ∧ frame k k' ∧ threads k' = <[t := timed_out x]> (threads k) ∧
    timers k' = timers k ∧ objects k' = objects k ∧ rt_current_thread k' = elected k L').
Proof.
  intros Hrun Hx Hs Hnt L'. pose proof (rn_inv _ _ Hrun) as Hinv. unfold rt_thread_timeout.
  wp_step. eapply wp_get_thread; [done|].
  wp_step. apply wp_assert; [by rewrite Hs|].
  wp_step. eapply wp_upd_thread; [done|].
  set (x1 := set_error (- RT_ETIMEOUT) x).
  assert (kinv (set_threads (<[t := x1]> (threads k)) k) L) as Hinv1
    by by eapply (kern_ok_upd_thread Hinv).
  wp_step. eapply wp_on_heap.
  { apply (wp_list_remove _ L); [apply Hinv|by apply (tlist_placed _ _ _ _ Hinv Hx)|apply not_head_tlist, Hinv]. }
  intros ? h Hrep. set (L1 := detach (N_tlist t) L) in *.
  match goal with |- wp _ ?s _ => set (k2 := s) end.
  assert (threads k2 !! t = Some x1) as Hx2 by apply lookup_insert_eq.
  assert (kinv k2 L1) as Hinv2.
  { eapply (kern_ok_detach_tlist Hinv1 _ t x1); [done|unfold x1; simpl; congruence|done]. }
  assert (L1 !! N_tlist t = Some []) as Hal by apply lookup_detach_eq.
  wp_step. wp_use (wp_insert_thread k2 L1 t x1) as (h' & Hrep' & ->).
  - apply Hinv2.
  - done.
  - done.
  - eapply ready_list_lookup; [done|]. by apply (prio_range _ _ _ _ Hinv Hx).
  - match goal with |- wp _ ?s _ => set (k3 := s) end.
    assert (threads k3 = <[t := timed_out x]> (threads k)) as Ht3.
    { simpl. by rewrite insert_insert_eq. }
    assert (running k3 L') as Hrun3.
    { split.
      - apply (kern_ok_make_ready Hinv2 h' t x1 (timed_out x)); simpl; try done.
        + congruence.
        + intros s. unfold L1. rewrite (timer_queue_ext L); [done|].
          by apply lookup_detach_untyped; [apply Hinv|..].
        + by apply (prio_range _ _ _ _ Hinv Hx).
        + eapply number_mask_ready; [exact Hinv|done|congruence].
      - rewrite Ht3. eapply stacks_ok_insert; [apply Hrun|done|done].
      - rewrite Ht3. apply idle_insert; [apply Hrun|done].
      - apply Hrun. }
    wp_use (wp_schedule k3 L' Hrun3) as (Hr & [Hf Hh Ho Ht Htm Hg] & Hc).
    split_and!; [done| |by rewrite Ht|by rewrite Htm|by rewrite Ho|done].
    etrans; [|exact Hf]. by split.
Qed.

(** * The clock interrupt *)

Definition due (tms : gmap timer_id rt_timer) (now : Z) (u : timer_id) : bool :=
  match tms !! u with
  | Some y => u32 (now - timeout_tick y) <? RT_TICK_MAX / 2
  | None => false
  end.

(** The timer of [t] fires: the timer leaves its list and the thread is ready. *)
Definition expire (st : gmap nat rt_thread * lists) (t : nat) : gmap nat rt_thread * lists :=
  match st.1 !! t with
  | Some x => (<[t := timed_out x]> st.1,
               requeued t (current_priority x) (detach (row0 (T_thread t)) st.2))
  | None => st
  end.

(** The loop stops at the first timer that is not due. *)
Definition head_not_due (tms : gmap timer_id rt_timer) (now : Z) (q : list timer_id) : Prop :=
  ∀ u, head q = Some u → due tms now u = false.

Section check_loop.
Variable user_timeout : nat → nat → K unit.

Lemma wp_rearm_thread k L t x :
  running k L → threads k !! t = Some x → (∀ s, T_thread t ∉ timer_queue L s) →
  wp (timer_rearm (T_thread t)) k (λ _ k',
    running k' L ∧ quiet k k' ∧ threads k' = threads k ∧ timers k' = timers k).
Proof.
  intros [Hinv Hst Hid Hc] Hx Hnt.
  destruct (ko_thread_timer _ _ _ _ _ _ Hinv _ _ Hx) as (y & o & Hy & _ & _ & Ho & Hf).
  unfold timer_rearm. wp_step. eapply wp_get_object; [done|].
  assert (Z.land (flag o) RT_TIMER_FLAG_PERIODIC = 0) as -> by (destruct Hf as [-> | ->]; done).
  simpl. eapply wp_upd_object; [done|]. split_and!; [|solve_quiet|done..].
  split; [|done..]. eapply (kern_ok_upd_object Hinv); [done|]. intros tm [= <-]. split.
  - intros s Hin. by destruct (Hnt s).
  - intros _ _. left. by apply clear_active_thread.
Qed.

(** One timer of a thread fires. *)
Lemma wp_fire k L t q (fuel : nat) (Q : unit → kernel → Prop) :
  running k L → timer_queue L false = T_thread t :: q →
  due (timers k) (rt_tick k) (T_thread t) = true →
  (∀ k', let st := expire (threads k, L) t in
     running k' st.2 → frame k k' → threads k' = st.1 → timers k' = timers k →
     timer_queue st.2 false = q → rt_current_thread k' = elected k st.2 →
     wp (timer_check_loop user_timeout fuel (rt_tick k')) k' Q) →
  wp (timer_check_loop user_timeout (S fuel) (rt_tick k)) k Q.
Proof.
  intros Hrun Hq Hdue Hgo. pose proof (rn_inv _ _ Hrun) as Hinv.
  pose proof (ko_typed _ _ _ _ _ _ Hinv) as Hty.
  assert (T_thread t ∈ timer_queue L false) as Hin by (rewrite Hq; set_solver).
  destruct (ko_timed_wait _ _ _ _ _ _ Hinv _ _ Hin) as (x & Hx & Hs).
  destruct (ko_thread_timer _ _ _ _ _ _ Hinv _ _ Hx) as (y & o & Hy & Hfn & Hpar & _ & _).
  destruct (ko_timer_lists _ _ _ _ _ _ Hinv false) as [l Hl].
  pose proof (timer_list_rows _ _ _ Hty Hl) as El. rewrite Hq in El. simpl in El. subst l.
  unfold due in Hdue. rewrite Hy in Hdue. simpl.
  wp_step. eapply wp_on_heap; [exact (wp_isempty _ _ _ _ (ko_rep Hinv) Hl)|].
  intros e h [-> ->]. rewrite set_heap_id. simpl.
  wp_step. eapply wp_rd_next_kernel; [apply Hinv|exact Hl|]. simpl.
  wp_step. wp_step. wp_step. eapply wp_get_timer; [done|]. rewrite Hdue.
  wp_step. wp_use (wp_timer_remove Hinv _ _ Hy) as (h & -> & Hinv1).
  set (L1 := detach (row0 (T_thread t)) L) in *.
  assert (∀ s, T_thread t ∉ timer_queue L1 s) as Hnt by (intros; by apply (not_in_detach_row Hinv)).
  assert (running (set_heap h k) L1) as Hrun1 by (split; [done|apply Hrun..]).
  rewrite Hfn, Hpar. simpl.
  wp_step. wp_use (wp_thread_timeout _ L1 t x Hrun1) as (Hrun2 & Hf2 & Ht2 & Htm2 & _ & Hc2); [done..|].
  set (L2 := requeued t (current_priority x) L1) in *.
  wp_step. unfold rt_tick_get. wp_step. wp_step. wp_step.
  wp_step. wp_use (wp_rearm_thread _ L2 t (timed_out x) Hrun2) as (Hrun3 & Hq3 & Ht3 & Htm3).
  { rewrite Ht2. apply lookup_insert_eq. }
  { intros s. unfold L2. rewrite timer_queue_requeued; [done|]. by apply typed_detach. }
  assert (expire (threads k, L) t = (<[t := timed_out x]> (threads k), L2)) as Ee.
  { unfold expire. simpl. by rewrite Hx. }
  rewrite <- (fr_tick _ _ (qt_frame _ _ Hq3)). cbv zeta in Hgo. rewrite Ee in Hgo.
  apply Hgo; simpl; try done.
  - etrans; [|apply Hq3]. etrans; [|exact Hf2]. by split.
  - by rewrite Ht3, Ht2.
  - by rewrite Htm3, Htm2.
  - unfold L2. rewrite timer_queue_requeued by by apply typed_detach.
    unfold L1. rewrite timer_queue_detach, Hq by done.
    assert (NoDup (T_thread t :: q)) as Hnd.
    { destruct (rep_dlist _ _ _ _ (ko_rep Hinv) Hl) as [Hnd _].
      apply NoDup_cons in Hnd as [_ Hnd]. rewrite <- fmap_cons in Hnd.
      by eapply NoDup_fmap_1. }
    by apply (filter_ne_split (T_thread t) []).
  - rewrite (qt_current _ _ Hq3), Hc2. done.
Qed.

(** The loop stops. *)
Lemma wp_check_stop k L (fuel : nat) :
  running k L → head_not_due (timers k) (rt_tick k) (timer_queue L false) →
  wp (timer_check_loop user_timeout (S fuel) (rt_tick k)) k (λ _ k', k' = k).
Proof.
  intros Hrun Hnd. pose proof (rn_inv _ _ Hrun) as Hinv.
  destruct (ko_timer_lists _ _ _ _ _ _ Hinv false) as [l Hl].
  pose proof (timer_list_rows _ _ _ (ko_typed _ _ _ _ _ _ Hinv) Hl) as El. simpl.
  wp_step. eapply wp_on_heap; [exact (wp_isempty _ _ _ _ (ko_rep Hinv) Hl)|].
  intros e h [-> ->]. rewrite set_heap_id. case_bool_decide as Hd; [by wp_step|].
  destruct (timer_queue L false) as [|u q] eqn:Hq; [by subst|]. simpl in El. subst l.
  destruct (ko_timer_exists _ _ _ _ _ _ Hinv false u) as [y Hy]; [rewrite Hq; set_solver|].
  wp_step. eapply wp_rd_next_kernel; [apply Hinv|exact Hl|]. simpl.
  wp_step. wp_step. wp_step. eapply wp_get_timer; [done|].
  specialize (Hnd u eq_refl). unfold due in Hnd. rewrite Hy in Hnd. rewrite Hnd. by wp_step.
Qed.

(** The timers of the threads [q] are due and the next timer is not: the loop
    fires exactly these, in order. *)
Lemma wp_timer_check_loop k L fuel ts rest :
  running k L → timer_queue L false = (T_thread <$> ts) ++ rest →
  Forall (λ t, due (timers k) (rt_tick k) (T_thread t) = true) ts →
  head_not_due (timers k) (rt_tick k) rest → (length ts < fuel)%nat →
  let st := foldl expire (threads k, L) ts in
  wp (timer_check_loop user_timeout fuel (rt_tick k)) k (λ _ k',
    running k' st.2 ∧ frame k k' ∧ threads k' = st.1 ∧ timers k' = timers k ∧
    timer_queue st.2 false = rest ∧
    rt_current_thread k' = match ts with [] => rt_current_thread k | _ => elected k st.2 end).
Proof.
  revert k L fuel. induction ts as [|t ts IH]; intros k L fuel Hrun Hq Hd Hnd Hf;
    (destruct fuel as [|fuel]; [simpl in Hf; lia|]).
  - eapply wp_mono; [by apply (wp_check_stop k L); [|rewrite Hq]|]. by intros ? ? ->.
  - apply Forall_cons in Hd as [Hd1 Hd]. eapply wp_fire; [done|exact Hq|done|].
    intros k1 st Hrun1 Hf1 Ht1 Htm1 Hq1 Hc1. subst st.
    rewrite <- Htm1, <- (fr_tick _ _ Hf1) in Hd, Hnd.
    pose proof (IH k1 _ fuel Hrun1 Hq1 Hd Hnd ltac:(simpl in Hf; lia)) as H. simpl in H |- *.
    rewrite Ht1 in H. rewrite <- surjective_pairing in H.
    eapply wp_mono; [exact H|]. intros ? k' (Hr & Hfr & Ht & Htm & Hqq & Hc).
    split_and!; [done|by etrans|done|by rewrite Htm|done|].
    rewrite Hc. destruct ts; [done|]. unfold elected.
    rewrite (fr_lock _ _ Hf1). destruct (rt_scheduler_lock_nest k =? 0) eqn:El; [done|].
    rewrite Hc1. unfold elected. by rewrite El.
Qed.
End check_loop.
