(* ===== verification/ThreadRun.v ===== *)
(** The thread operations that reach the scheduler, from a running kernel:
    yield, change of priority, sleep, and the clock tick. *)

From Stdlib Require Import ZArith Lia.
From stdpp Require Import numbers strings base gmap list sorting.
From S2P Require Import Prelude RtList Bitmap Kernel Scheduler Object Timer Thread Invariant.
From S2P Require Import ThreadSpec TimerSpec.
Local Open Scope Z_scope.

(** * Yield *)

(** Round robin: the thread goes to the end of its queue, unless it is alone. *)
Definition yielded (t : nat) (p : Z) (L : lists) : lists :=
  if decide (ready_queue L p = [t]) then L else requeued t p L.

(** A ready thread in the list of its queue. *)
Lemma ready_split k L t x :
  kinv k L → threads k !! t = Some x → stat x = RT_THREAD_READY →
  ∃ q1 q2, ready_queue L (current_priority x) = q1 ++ t :: q2 ∧
    L !! N_ready (current_priority x) = Some ((N_tlist <$> q1) ++ N_tlist t :: (N_tlist <$> q2)).
Proof.
  intros Hinv Hx Hs. pose proof (prio_range _ _ _ _ Hinv Hx) as Hp.
  assert (t ∈ ready_queue L (current_priority x)) as Hin.
  { apply (so_ready _ _ _ _ (ko_sched _ _ _ _ _ _ Hinv)); eauto. }
  apply list_elem_of_split in Hin as (q1 & q2 & E). exists q1, q2. split; [done|].
  rewrite (ready_list_lookup _ _ _ Hinv Hp), E, fmap_app. done.
Qed.

(** The code's test for another thread in the queue: the two neighbours of the
    node differ. *)
Lemma neighbours_differ (q1 q2 : list nat) t (hd : node) :
  NoDup (q1 ++ t :: q2) → (∀ u, hd ≠ N_tlist u) →
  default hd (head (N_tlist <$> q2)) ≠ default hd (last (N_tlist <$> q1)) ↔ q1 ++ t :: q2 ≠ [t].
Proof.
  intros Hnd Hhd. destruct q1 as [|u q1 _] using rev_ind; destruct q2 as [|v q2]; simpl.
  - naive_solver.
  - split; [done|]. intros _ E. by eapply Hhd.
  - rewrite fmap_app. csimpl. rewrite last_snoc. simpl. split; [|intros _; apply Hhd].
    intros _ E. apply (f_equal length) in E. rewrite !length_app in E. simpl in E. lia.
  - rewrite fmap_app. csimpl. rewrite last_snoc. simpl. split.
    + intros _ E. apply (f_equal length) in E. rewrite !length_app in E. simpl in E. lia.
    + intros _ [= ->]. apply NoDup_app in Hnd as (_ & Hd & _). eapply (Hd u); set_solver.
Qed.

Lemma wp_requeue_same k L t x (Q : unit → kernel → Prop) :
  running k L → threads k !! t = Some x → stat x = RT_THREAD_READY →
  (∀ h, running (set_heap h k) (requeued t (current_priority x) L) → Q tt (set_heap h k)) →
  wp (on_heap (rt_list_remove (N_tlist t));;
      on_heap (rt_list_insert_before (N_ready (current_priority x)) (N_tlist t))) k Q.
Proof.
  intros Hrun Hx Hs HQ. pose proof (rn_inv _ _ Hrun) as Hinv.
  pose proof (prio_range _ _ _ _ Hinv Hx) as Hp.
  wp_step. eapply wp_on_heap.
  { apply (wp_list_remove _ L); [apply Hinv|by apply (tlist_placed _ _ _ _ Hinv Hx)|
      apply not_head_tlist, Hinv]. }
  intros ? h1 Hr1. eapply wp_on_heap.
  { eapply (wp_list_enqueue _ (detach (N_tlist t) L)); [done| |apply lookup_detach_eq|done].
    by apply queue_detach, (ready_list_lookup _ _ _ Hinv). }
  intros [] h2 Hr2. change (set_heap h2 (set_heap h1 k)) with (set_heap h2 k). apply HQ.
  split; [|apply Hrun..].
  pose proof (kern_ok_requeue _ _ _ _ _ _ h1 h2 t x x Hinv Hx Hs Hr1 Hs Hp
    ltac:(eapply number_mask_ready; [exact Hinv|done|congruence]) Hr2) as H.
  rewrite (group_requeue (heap k) (threads k)) in H by (done || apply Hinv).
  by rewrite insert_id in H.
Qed.

Lemma wp_thread_yield k L t x :
  running k L → rt_current_thread k = Some t → threads k !! t = Some x →
  stat x = RT_THREAD_READY →
  let L' := yielded t (current_priority x) L in
  wp rt_thread_yield k (λ r k',
    r = RT_EOK ∧ running k' L' ∧ frame k k' ∧ threads k' = threads k ∧
    timers k' = timers k ∧ objects k' = objects k ∧
    rt_current_thread k' = if decide (ready_queue L (current_priority x) = [t])
                           then Some t else elected k L').
Proof.
  intros Hrun Hcur Hx Hs L'. pose proof (rn_inv _ _ Hrun) as Hinv.
  destruct (ready_split _ _ _ _ Hinv Hx Hs) as (q1 & q2 & Eq & HL).
  assert (NoDup (q1 ++ t :: q2)) as Hnd.
  { destruct (rep_dlist _ _ _ _ (ko_rep Hinv) HL) as [Hnd _].
    apply NoDup_cons in Hnd as [_ Hnd]. rewrite <- fmap_cons, <- fmap_app in Hnd.
    by eapply NoDup_fmap_1. }
  unfold rt_thread_yield, rt_thread_self. wp_steps. eapply wp_get_thread; [done|].
  wp_step. unfold on_heap at 1. apply wp_zoom.
  eapply wp_next_elem; [apply Hinv|exact HL|]. rewrite set_heap_id.
  wp_step. unfold on_heap at 1. apply wp_zoom.
  eapply wp_prev_elem; [apply Hinv|exact HL|]. rewrite set_heap_id.
  rewrite (bool_decide_eq_true_2 _ Hs). simpl.
  pose proof (neighbours_differ q1 q2 t (N_ready (current_priority x)) Hnd ltac:(done)) as Hne.
  unfold L', yielded. rewrite Eq. case_bool_decide as Hd.
  - apply Hne in Hd. rewrite decide_False by done. rewrite decide_False by done.
    apply wp_assoc. wp_step. apply (wp_requeue_same k L t x); [done..|]. intros h Hrun'.
    wp_step. wp_use (wp_schedule _ _ Hrun') as (Hr & [Hf Hh Ho Ht Htm Hg] & Hc). wp_step.
    split_and!; [done|done| |done..]. etrans; [|exact Hf]. by split.
  - assert (q1 ++ t :: q2 = [t]) as E by (apply dec_stable; naive_solver).
    rewrite !decide_True by done. by wp_step.
Qed.

(** * Change of priority *)

Lemma shiftl_mask p : 0 <= p < RT_THREAD_PRIORITY_MAX → u32 (Z.shiftl 1 p) = 2 ^ p.
Proof.
  intros Hp. unfold RT_THREAD_PRIORITY_MAX in Hp. rewrite Z.shiftl_1_l. unfold wrap.
  apply Z.mod_small. split; [lia|]. apply Z.pow_lt_mono_r; lia.
Qed.

Lemma wp_change_priority k L t x p :
  kinv k L → threads k !! t = Some x → 0 <= p < RT_THREAD_PRIORITY_MAX →
  wp (rt_thread_control t (RT_THREAD_CTRL_CHANGE_PRIORITY p)) k (λ r k',
    r = RT_EOK ∧ quiet k k' ∧ threads k' = <[t := change_priority p x]> (threads k) ∧
    timers k' = timers k ∧ objects k' = objects k ∧
    kinv k' (if decide (stat x = RT_THREAD_READY) then requeued t p L else L)).
Proof.
  intros Hinv Hx Hp. pose proof (shiftl_mask _ Hp) as Hm. simpl.
  wp_step. eapply wp_get_thread; [done|]. destruct (decide (stat x = RT_THREAD_READY)) as [Hs|Hs].
  - wp_step. wp_step. wp_use (wp_remove_thread k L t x) as (h1 & Hr1 & ->).
    { apply Hinv. } { done. } { by eapply tlist_placed. } { apply not_head_tlist, Hinv. }
    { eapply ready_list_lookup; [done|]. by eapply prio_range. }
    wp_step. eapply wp_upd_thread; [done|].
    wp_use (wp_insert_thread _ (detach (N_tlist t) L) t (change_priority p x)) as (h2 & Hr2 & ->).
    { done. } { apply lookup_insert_eq. } { apply lookup_detach_eq. }
    { by apply queue_detach, (ready_list_lookup _ _ _ Hinv). }
    assert (set_stat RT_THREAD_READY (change_priority p x) = change_priority p x) as Eready.
    { destruct x. simpl in Hs. by subst. }
    assert (<[t := set_stat RT_THREAD_READY (change_priority p x)]>
              (<[t := change_priority p x]> (threads k))
            = <[t := change_priority p x]> (threads k)) as Et.
    { by rewrite insert_insert_eq, Eready. }
    wp_step. split_and!; [done|by split|by simpl; rewrite Et|done|done|].
    unfold kinv. simpl. rewrite Et.
    by apply (kern_ok_requeue (heap k) _ _ _ _ _ h1 h2 t x (change_priority p x)).
  - wp_step. eapply wp_upd_thread; [done|]. wp_step. split_and!; [done|by split|done..|].
    by eapply (kern_ok_set_priority _ _ _ _ _ _ _ x).
Qed.

(** * Sleep *)

(** The lists after [t] has gone to sleep until [tick]. *)
Definition asleep (tms : gmap timer_id rt_timer) (tick : Z) (t : nat) (L : lists) : lists :=
  timer_started tms tick (T_thread t) (detach (N_tlist t) L).

(** Start the timer of a thread that has just been suspended. *)
Lemma wp_start_thread_timer k L t x time :
  kinv k L → threads k !! t = Some x → stat x = RT_THREAD_SUSPEND →
  time < RT_TICK_MAX / 2 →
  wp (rt_timer_control (T_thread t) (RT_TIMER_CTRL_SET_TIME time);; rt_timer_start (T_thread t)) k
    (λ _ k', quiet k k' ∧ threads k' = threads k ∧ ∃ y,
       timers k !! T_thread t = Some y ∧
       let tick := u32 (rt_tick k + time) in
       timers k' = <[T_thread t := set_timeout_tick tick (set_init_tick time y)]> (timers k) ∧
       kinv k' (timer_started (timers k') tick (T_thread t) L)).
Proof.
  intros Hinv Hx Hs Htime.
  destruct (ko_thread_timer _ _ _ _ _ _ Hinv _ _ Hx) as (y & o & Hy & _ & _ & Ho & Hf).
  simpl. wp_step. wp_step. eapply wp_upd_timer; [done|]. wp_step.
  match goal with |- wp _ ?s _ => set (k1 := s) end.
  assert (kinv k1 L) as Hinv1 by by eapply (kern_ok_upd_timer Hinv).
  eapply wp_mono.
  - eapply (wp_timer_start_hard k1 L (T_thread t) (set_init_tick time y) o Hinv1).
    + apply lookup_insert_eq.
    + done.
    + by destruct Hf as [-> | ->].
    + done.
    + intros ? [= <-]. eauto.
  - intros r k' (_ & Hq & Ht & Htm & _ & Hk). simpl in Htm. rewrite insert_insert_eq in Htm.
    split_and!; [etrans; [|exact Hq]; by split|done|]. exists y. split_and!; [done|done|].
    rewrite Htm. simpl in Hk. by rewrite insert_insert_eq in Hk.
Qed.

Lemma wp_thread_sleep k L t x time :
  running k L → rt_current_thread k = Some t → threads k !! t = Some x →
  stat x = RT_THREAD_READY → t ≠ idle → time < RT_TICK_MAX / 2 →
  wp (rt_thread_sleep time) k (λ out k', ∃ y,
    timers k !! T_thread t = Some y ∧
    let tick := u32 (rt_tick k + time) in
    let L' := asleep (timers k') tick t L in
    timers k' = <[T_thread t := set_timeout_tick tick (set_init_tick time y)]> (timers k) ∧
    running k' L' ∧ frame k k' ∧ threads k' = <[t := set_stat RT_THREAD_SUSPEND x]> (threads k) ∧
    rt_current_thread k' = elected k L' ∧
    ∃ rest, out = Resched rest ∧ ∀ k2 x2, threads k2 !! t = Some x2 →
      wp rest k2 (λ r k3, r = Return RT_EOK ∧ k3 =
        if error x2 =? - RT_ETIMEOUT
        then set_threads (<[t := set_error RT_EOK x2]> (threads k2)) k2 else k2)).
Proof.
  intros Hrun Hcur Hx Hs Hid Htime. pose proof (rn_inv _ _ Hrun) as Hinv.
  unfold rt_thread_sleep, rt_thread_self. wp_steps.
  wp_use (wp_thread_suspend k L t x Hinv) as (_ & Hq1 & Ht1 & Htm1 & Hinv1); [done..|].
  apply wp_assoc. wp_step.
  wp_use (wp_start_thread_timer _ _ t (set_stat RT_THREAD_SUSPEND x) time Hinv1)
    as (Hq2 & Ht2 & y & Hy & Htm2 & Hinv2).
  { rewrite Ht1. apply lookup_insert_eq. } { done. } { done. }
  rewrite Htm1, (fr_tick _ _ (qt_frame _ _ Hq1)) in *.
  assert (running st0 (asleep (timers st0) (u32 (rt_tick k + time)) t L)) as Hrun2.
  { split; [done|rewrite Ht2, Ht1..|].
    - eapply stacks_ok_insert; [apply Hrun|done|done].
    - apply idle_insert; [apply Hrun|done].
    - rewrite (qt_current _ _ Hq2), (qt_current _ _ Hq1). eauto. }
  wp_step. wp_use (wp_schedule _ _ Hrun2) as (Hr & [Hf Hh Ho Ht Htm Hg] & Hc). wp_step.
  exists y. rewrite Htm, Htm2. split_and!; [done|done|by rewrite <- Htm2| | | |].
  - etrans; [apply Hq1|]. etrans; [apply Hq2|done].
  - by rewrite Ht, Ht2.
  - rewrite Hc. unfold elected. rewrite (qt_current _ _ Hq2), (qt_current _ _ Hq1).
    rewrite (fr_lock _ _ (qt_frame _ _ Hq2)), (fr_lock _ _ (qt_frame _ _ Hq1)). by rewrite Htm2.
  - eexists. split; [done|]. intros k2 x2 Hx2. wp_step. eapply wp_get_thread; [done|].
    wp_step. case_match; [eapply wp_upd_thread; [done|]|wp_step]; by wp_step.
Qed.

(** * The clock tick *)

Lemma delay_tick tms now u :
  1 <= delay tms now u → delay tms (u32 (now + 1)) u = delay tms now u - 1.
Proof.
  unfold delay, wrap. destruct (tms !! u) as [y|]; [|lia]. intros H.
  rewrite Zminus_mod_idemp_r. replace (timeout_tick y - (now + 1)) with (timeout_tick y - now - 1) by lia.
  rewrite <- Zminus_mod_idemp_l. set (e := (timeout_tick y - now) mod 2 ^ 32) in *.
  pose proof (Z.mod_pos_bound (timeout_tick y - now) (2 ^ 32) ltac:(lia)) as Hb.
  change ((timeout_tick y - now) mod 2 ^ 32) with e in Hb. apply Z.mod_small. lia.
Qed.

(** One tick later, the timers that are due are those with at most one tick to go. *)
Lemma due_tick tms now u :
  is_Some (tms !! u) → delay tms now u < RT_TICK_MAX / 2 →
  due tms (u32 (now + 1)) u = bool_decide (delay tms now u <= 1).
Proof.
  intros [y Hy]. unfold due, delay, wrap. rewrite Hy. intros Hu.
  rewrite Zminus_mod_idemp_l. replace (now + 1 - timeout_tick y) with (1 - (timeout_tick y - now)) by lia.
  rewrite <- Zminus_mod_idemp_r. set (e := (timeout_tick y - now) mod 2 ^ 32) in *.
  assert (0 <= e) by (apply Z.mod_pos_bound; lia).
  change (RT_TICK_MAX / 2) with 2147483647 in *. case_bool_decide.
  - rewrite Z.mod_small by lia. apply Z.ltb_lt. lia.
  - rewrite <- (Z.mod_add _ 1), Z.mod_small by lia. apply Z.ltb_ge. lia.
Qed.

Lemma sorted_split tms now q :
  timers_sorted tms now q →
  q = filter (λ u, delay tms now u <= 1) q ++ filter (λ u, 1 < delay tms now u) q.
Proof.
  intros [Hs _]. induction Hs as [|u q Hq IH Hall]; [done|].
  destruct (decide (delay tms now u <= 1)).
  - rewrite filter_cons_True, filter_cons_False by lia. simpl. by f_equal.
  - rewrite Forall_forall in Hall. rewrite (list_filter_none (λ u, delay tms now u <= 1)).
    + rewrite (list_filter_all (λ u, 1 < delay tms now u)); [done|].
      apply Forall_cons. split; [lia|]. apply Forall_forall. intros v Hv%Hall. lia.
    + apply Forall_cons. split; [lia|]. apply Forall_forall. intros v Hv%Hall. lia.
Qed.

Lemma sorted_tick tms now q :
  timers_sorted tms now q →
  timers_sorted tms (u32 (now + 1)) (filter (λ u, 1 < delay tms now u) q).
Proof.
  intros [Hs Hf]. split.
  - induction Hs as [|u q Hq IH Hall]; [constructor|]. apply Forall_cons in Hf as [_ Hf].
    destruct (decide (1 < delay tms now u)); [|rewrite filter_cons_False by done; by apply IH].
    rewrite filter_cons_True by done. constructor; [by apply IH|].
    apply Forall_forall. intros v [Hv Hin]%list_elem_of_filter. rewrite Forall_forall in Hall.
    specialize (Hall v Hin). rewrite !delay_tick; lia.
  - apply Forall_forall. intros v [Hv Hin]%list_elem_of_filter. rewrite Forall_forall in Hf.
    destruct (Hf v Hin). split; [done|]. rewrite delay_tick; lia.
Qed.

(** The time slice of the running thread: its counter, and the lists. *)
Definition slice_over (x : rt_thread) : bool := u32 (remaining_tick x - 1) =? 0.
Definition slice_thread (x : rt_thread) : rt_thread :=
  set_remaining_tick (if slice_over x then th_init_tick x else u32 (remaining_tick x - 1)) x.
Definition slice_lists (t : nat) (x : rt_thread) (L : lists) : lists :=
  if slice_over x then yielded t (current_priority x) L else L.

Lemma timer_queue_slice t x L s :
  typed L → timer_queue (slice_lists t x L) s = timer_queue L s.
Proof.
  intros. unfold slice_lists, yielded. destruct (slice_over x); [|done].
  case_decide; [done|]. by apply timer_queue_requeued.
Qed.

Lemma running_upd_thread k L t x x' :
  running k L → threads k !! t = Some x → stat x' = stat x →
  current_priority x' = current_priority x → number_mask x' = number_mask x →
  stack_ok x' = stack_ok x → running (set_threads (<[t := x']> (threads k)) k) L.
Proof.
  intros [Hinv Hst Hid Hc] Hx Hs Hp Hm Hso. split; simpl.
  - by eapply (kern_ok_upd_thread Hinv).
  - by eapply stacks_ok_insert.
  - apply idle_insert; [done|]. intros ->. destruct Hid as (y & ? & ?). congruence.
  - done.
Qed.

Lemma running_set_tick k L v : running k L → running (set_rt_tick v k) L.
Proof. intros [Hinv Hst Hid Hc]. by split. Qed.

(** What the interrupt does before it looks at the timers. *)
Lemma wp_time_slice k L t x {A} (m : K A) (Q : A → kernel → Prop) :
  running k L → rt_current_thread k = Some t → threads k !! t = Some x →
  stat x = RT_THREAD_READY →
  (∀ k', running k' (slice_lists t x L) → frame k k' →
     threads k' = <[t := slice_thread x]> (threads k) → timers k' = timers k →
     rt_current_thread k' = Some t ∨ rt_current_thread k' = elected k (slice_lists t x L) →
     wp m k' Q) →
  wp (upd_thread t (λ x, set_remaining_tick (u32 (remaining_tick x - 1)) x);;
      x ← get_thread t;
      (if remaining_tick x =? 0 then
         upd_thread t (λ x, set_remaining_tick (th_init_tick x) x);;
         rt_thread_yield;; mret tt
       else mret tt);;
      m) k Q.
Proof.
  intros Hrun Hcur Hx Hs Hgo.
  wp_step. eapply wp_upd_thread; [done|]. wp_step. eapply wp_get_thread; [apply lookup_insert_eq|].
  simpl. unfold slice_thread, slice_lists in Hgo. fold (slice_over x).
  set (x1 := set_remaining_tick (u32 (remaining_tick x - 1)) x).
  destruct (slice_over x) eqn:Eo.
  - wp_step. wp_step. eapply wp_upd_thread; [apply lookup_insert_eq|]. simpl.
    set (x2 := set_remaining_tick (th_init_tick x) x1).
    assert (<[t := x2]> (<[t := x1]> (threads k))
            = <[t := set_remaining_tick (th_init_tick x) x]> (threads k)) as Et.
    { rewrite insert_insert_eq. done. }
    match goal with |- wp _ ?s _ => set (k1 := s) end.
    assert (k1 = set_threads (<[t := set_remaining_tick (th_init_tick x) x]> (threads k)) k) as Ek.
    { unfold k1. by rewrite <- Et. }
    wp_step. wp_use (wp_thread_yield k1 L t x2) as (_ & Hr & Hf & Ht & Htm & _ & Hcu).
    + rewrite Ek. by eapply running_upd_thread.
    + done.
    + apply lookup_insert_eq.
    + done.
    + wp_step. apply Hgo; [exact Hr| |by rewrite Ht, Ek|by rewrite Htm|].
      * etrans; [|exact Hf]. rewrite Ek. by split.
      * rewrite Hcu. case_decide; [by left|right]. unfold elected. by rewrite Ek.
  - wp_step. wp_step. apply Hgo; [by eapply running_upd_thread|by split|done|done|by left].
Qed.

Lemma filter_fmap_thread (P : timer_id → Prop) `{∀ u, Decision (P u)} (ts : list nat) :
  filter P (T_thread <$> ts) = T_thread <$> filter (λ t, P (T_thread t)) ts.
Proof.
  induction ts as [|t ts IH]; [done|]. csimpl. destruct (decide (P (T_thread t))).
  - rewrite !filter_cons_True by done. csimpl. by rewrite IH.
  - rewrite !filter_cons_False by done. done.
Qed.

(** The running thread is ready. *)
Definition current_ready (k : kernel) : Prop :=
  ∃ t x, rt_current_thread k = Some t ∧ threads k !! t = Some x ∧ stat x = RT_THREAD_READY.

Lemma current_ready_elected k k' L :
  running k' L → rt_scheduler_lock_nest k = 0 → rt_current_thread k' = elected k L →
  current_ready k'.
Proof.
  intros Hr Hn Hc. destruct (run_order_head _ _ Hr) as (to & x & Hto & Hx & Hs).
  exists to, x. split_and!; [|done|done]. rewrite Hc. unfold elected. by rewrite Hn.
Qed.

Lemma wp_tick_increase user k L t x ts fuel :
  running k L → rt_current_thread k = Some t → threads k !! t = Some x →
  stat x = RT_THREAD_READY →
  timer_queue L false = T_thread <$> ts →
  timers_sorted (timers k) (rt_tick k) (T_thread <$> ts) → (length ts < fuel)%nat →
  let del u := delay (timers k) (rt_tick k) (T_thread u) in
  let st := foldl expire (<[t := slice_thread x]> (threads k), slice_lists t x L)
              (filter (λ u, del u <= 1) ts) in
  wp (rt_tick_increase user fuel) k (λ _ k',
    running k' st.2 ∧ threads k' = st.1 ∧ timers k' = timers k ∧
    rt_tick k' = u32 (rt_tick k + 1) ∧
    timer_queue st.2 false = T_thread <$> filter (λ u, 1 < del u) ts ∧
    timers_sorted (timers k') (rt_tick k') (timer_queue st.2 false) ∧
    rt_scheduler_lock_nest k' = rt_scheduler_lock_nest k ∧
    (rt_scheduler_lock_nest k = 0 → current_ready k')).
Proof.
  intros Hrun Hcur Hx Hs Hq Hsort Hfuel del st. pose proof (rn_inv _ _ Hrun) as Hinv.
  unfold rt_tick_increase, rt_thread_self. do 8 wp_step.
  apply (wp_time_slice _ L t x); [by apply running_set_tick|done..|].
  intros k1 Hrun1 Hf1 Ht1 Htm1 Hc1. unfold rt_timer_check, rt_tick_get. wp_steps.
  pose proof (fr_tick _ _ Hf1) as Etick. simpl in Ht1, Htm1, Etick.
  pose proof (sorted_split _ _ _ Hsort) as Esp. rewrite !filter_fmap_thread in Esp.
  pose proof (proj1 (Forall_forall _ _) (proj2 Hsort)) as Hall.
  assert (∀ u, u ∈ ts → due (timers k1) (rt_tick k1) (T_thread u) = bool_decide (del u <= 1)) as Hdue.
  { intros u Hu. destruct (Hall (T_thread u)) as [? ?]; [by apply list_elem_of_fmap_2|].
    rewrite Htm1, Etick. by apply due_tick. }
  wp_use (wp_timer_check_loop user k1 (slice_lists t x L) fuel
    (filter (λ u, del u <= 1) ts) (T_thread <$> filter (λ u, 1 < del u) ts) Hrun1)
    as (Hr & Hf & Ht & Htm & Hqq & Hcc).
  - rewrite timer_queue_slice by apply Hinv. by rewrite Hq, Esp at 1.
  - apply Forall_forall. intros u [Hu Hin]%list_elem_of_filter. rewrite Hdue by done.
    by apply bool_decide_eq_true.
  - intros u Hu. apply head_Some_elem_of, list_elem_of_fmap in Hu as (v & -> & Hv).
    apply list_elem_of_filter in Hv as [Hv Hin]. rewrite Hdue by done.
    apply bool_decide_eq_false. lia.
  - pose proof (length_filter (λ u, del u <= 1) ts). lia.
  - rewrite Ht1 in *. fold st in Hr, Ht, Hqq.
    assert (rt_scheduler_lock_nest k1 = rt_scheduler_lock_nest k) as El by by rewrite (fr_lock _ _ Hf1).
    split_and!; [done|done|by rewrite Htm, Htm1|by rewrite (fr_tick _ _ Hf)|done| | |].
    + rewrite Htm, Htm1, (fr_tick _ _ Hf), Etick, Hqq.
      pose proof (sorted_tick _ _ _ Hsort) as Hst. by rewrite filter_fmap_thread in Hst.
    + by rewrite (fr_lock _ _ Hf).
    + intros Hn. destruct (filter (λ u, del u <= 1) ts) as [|u us] eqn:Efil.
      * destruct Hc1 as [Hc1|Hc1]; rewrite Hc1 in Hcc.
        -- exists t, (slice_thread x). split_and!; [done| |done]. rewrite Ht. apply lookup_insert_eq.
        -- by eapply (current_ready_elected k).
      * eapply (current_ready_elected k1); [done|by rewrite El|done].
Qed.
