(* ===== verification/IpcSpec.v ===== *)
(** Wait lists: the code of [src/ipc.c] that suspends a thread on a list and that
    resumes threads from it, from a state of the invariant. *)

From Stdlib Require Import ZArith Lia.
From stdpp Require Import numbers strings base gmap list sorting.
From S2P Require Import Prelude RtList Bitmap Kernel Scheduler Object Timer Thread Ipc.
From S2P Require Import Invariant ThreadSpec TimerSpec ThreadRun.
Local Open Scope Z_scope.

(** * Queues of waiting threads *)

(** The threads of a wait list, first to be resumed first. *)
Definition wait_queue (L : lists) (hd : node) : list nat :=
  omap tlist_entry (default [] (L !! hd)).

Definition prio (ths : gmap nat rt_thread) (t : nat) : Z :=
  match ths !! t with Some x => current_priority x | None => 0 end.

(** Insert before the first thread of lower priority. *)
Fixpoint insert_prio (ths : gmap nat rt_thread) (p : Z) (t : nat) (q : list nat) : list nat :=
  match q with
  | [] => [t]
  | u :: q => if p <? prio ths u then t :: u :: q else u :: insert_prio ths p t q
  end.

(** The order of a wait list, by the flag of its object. *)
Definition insert_wait (fl : Z) (ths : gmap nat rt_thread) (p : Z) (t : nat) (q : list nat)
    : list nat :=
  if fl =? RT_IPC_FLAG_FIFO then q ++ [t] else insert_prio ths p t q.

Definition ipc_flag (fl : Z) : Prop := fl = RT_IPC_FLAG_FIFO ∨ fl = RT_IPC_FLAG_PRIO.

(** The lists after the ready thread [t] has been suspended on [hd]. *)
Definition waiting (hd : node) (fl : Z) (ths : gmap nat rt_thread) (t : nat) (L : lists) : lists :=
  <[hd := N_tlist <$> insert_wait fl ths (prio ths t) t (wait_queue L hd)]>
    (delete (N_tlist t) (detach (N_tlist t) L)).

Lemma wait_queue_fmap L hd q : L !! hd = Some (N_tlist <$> q) → wait_queue L hd = q.
Proof.
  intros HL. unfold wait_queue. rewrite HL. simpl. clear HL.
  induction q as [|u q IH]; [done|]. csimpl. by rewrite IH.
Qed.

Lemma wait_list_nodes L hd l :
  typed L → is_wait hd = true → L !! hd = Some l → l = N_tlist <$> wait_queue L hd.
Proof.
  intros Ht Hw Hl. unfold wait_queue. rewrite Hl. simpl.
  assert (∀ m, m ∈ l → accepts hd m = true) as Ha by (intros; by eapply Ht).
  clear Hl Ht. induction l as [|m l IH]; [done|].
  pose proof (Ha m ltac:(set_solver)) as Hm. destruct hd; try done; destruct m; try done.
  all: csimpl; f_equal; apply IH; set_solver.
Qed.

Lemma wait_queue_suspended k L hd t :
  kinv k L → is_wait hd = true → t ∈ wait_queue L hd →
  ∃ x, threads k !! t = Some x ∧ stat x = RT_THREAD_SUSPEND.
Proof.
  intros Hinv Hw Hin. destruct (L !! hd) as [l|] eqn:Hl.
  - eapply (ko_wait _ _ _ _ _ _ Hinv hd l t); [done..|].
    rewrite (wait_list_nodes L hd l (ko_typed _ _ _ _ _ _ Hinv) Hw Hl). by apply list_elem_of_fmap_2.
  - unfold wait_queue in Hin. rewrite Hl in Hin. by apply not_elem_of_nil in Hin.
Qed.

Lemma insert_prio_ext ths ths' p t q :
  (∀ u, u ∈ q → prio ths' u = prio ths u) → insert_prio ths' p t q = insert_prio ths p t q.
Proof.
  induction q as [|u q IH]; [done|]. intros Hq. simpl. rewrite Hq by set_solver.
  rewrite IH; [done|]. set_solver.
Qed.

Lemma elem_of_insert_wait fl ths p t q u : u ∈ insert_wait fl ths p t q ↔ u = t ∨ u ∈ q.
Proof.
  unfold insert_wait. case_match; [set_solver|].
  induction q as [|v q IH]; simpl; [set_solver|]. case_match; set_solver.
Qed.

(** In a list sorted by priority, the new thread goes behind those of the same or
    a higher priority and before the others. *)
Definition prio_sorted (ths : gmap nat rt_thread) (q : list nat) : Prop :=
  StronglySorted (λ a b, prio ths a <= prio ths b) q.

Lemma insert_prio_split ths p t q :
  prio_sorted ths q →
  insert_prio ths p t q = filter (λ u, prio ths u <= p) q ++ t :: filter (λ u, p < prio ths u) q.
Proof.
  induction 1 as [|u q Hq IH Hall]; [done|]. simpl. destruct (Z.ltb_spec p (prio ths u)).
  - rewrite Forall_forall in Hall. rewrite (list_filter_all (λ u, p < prio ths u)).
    + rewrite (list_filter_none (λ u, prio ths u <= p)); [done|].
      apply Forall_cons. split; [lia|]. apply Forall_forall. intros v Hv%Hall. lia.
    + apply Forall_cons. split; [lia|]. apply Forall_forall. intros v Hv%Hall. lia.
  - rewrite filter_cons_True, filter_cons_False by lia. simpl. by rewrite IH.
Qed.

Lemma insert_prio_sorted ths t q :
  prio_sorted ths q → prio_sorted ths (insert_prio ths (prio ths t) t q).
Proof.
  induction 1 as [|u q Hq IH Hall]; simpl; [repeat constructor|].
  destruct (Z.ltb_spec (prio ths t) (prio ths u)).
  - constructor; [by constructor|]. constructor; [lia|].
    eapply Forall_impl; [exact Hall|]. simpl. lia.
  - constructor; [done|]. apply Forall_forall. intros v.
    pose proof (elem_of_insert_wait RT_IPC_FLAG_PRIO ths (prio ths t) t q v) as E.
    unfold insert_wait in E. simpl in E. rewrite E. rewrite Forall_forall in Hall.
    intros [->|?]; [lia|by apply Hall].
Qed.

Lemma insert_prio_app ths p t q :
  ∃ q1 q2, q = q1 ++ q2 ∧ insert_prio ths p t q = q1 ++ t :: q2.
Proof.
  induction q as [|u q IH]; simpl; [by exists [], []|].
  case_match; [by exists [], (u :: q)|]. destruct IH as (q1 & q2 & -> & E).
  exists (u :: q1), q2. by rewrite E.
Qed.

(** * Suspending on a list *)

Lemma wp_prio_loop k L hd t x q1 q2 fuel :
  rep (heap k) L → L !! hd = Some (N_tlist <$> (q1 ++ q2)) → L !! N_tlist t = Some [] →
  (∀ u, hd ≠ N_tlist u) → threads k !! t = Some x →
  (∀ u, u ∈ q2 → is_Some (threads k !! u)) → (length q2 < fuel)%nat →
  wp (ipc_prio_loop fuel hd t (default hd (head (N_tlist <$> q2)))) k (λ n k',
    (n = hd ∧ k' = k ∧ insert_prio (threads k) (current_priority x) t q2 = q2 ++ [t]) ∨
    (n ≠ hd ∧ ∃ h, k' = set_heap h k ∧
       rep h (<[hd := N_tlist <$> (q1 ++ insert_prio (threads k) (current_priority x) t q2)]>
                (delete (N_tlist t) L)))).
Proof.
  intros Hrep HL Hal Hhd Hx. revert q1 fuel HL.
  induction q2 as [|u q2 IH]; intros q1 fuel HL Hex Hf;
    (destruct fuel as [|fuel]; [simpl in Hf; lia|]); simpl.
  { rewrite decide_True by done. wp_step. by left. }
  rewrite decide_False by (intros E; by eapply Hhd). destruct (Hex u) as [y Hy]; [set_solver|].
  wp_step. wp_step. wp_step. eapply wp_get_thread; [done|]. wp_step. eapply wp_get_thread; [done|].
  unfold prio. rewrite Hy. rewrite fmap_app in HL. csimpl in HL.
  destruct (Z.ltb_spec (current_priority x) (current_priority y)).
  - wp_step. eapply wp_on_heap; [by eapply (insert_before_elem _ L hd (N_tlist <$> q1) _ (N_tlist <$> q2))|].
    intros ? h Hr. wp_step. right. split; [by intros E; eapply Hhd|]. exists h. split; [done|].
    rewrite fmap_app. done.
  - wp_step. unfold on_heap at 1. apply wp_zoom.
    eapply wp_next_elem; [done|exact HL|]. rewrite set_heap_id.
    wp_use (IH (q1 ++ [u])) as Hpost.
    + rewrite <- app_assoc. by rewrite fmap_app.
    + set_solver.
    + simpl in Hf. lia.
    + destruct Hpost as [(-> & -> & E)|(Hn & h & -> & Hr)].
      * left. split_and!; [done..|]. simpl. by rewrite E.
      * right. split; [done|]. exists h. split; [done|]. by rewrite <- app_assoc in Hr.
Qed.

Lemma is_wait_not_tlist hd u : is_wait hd = true → hd ≠ N_tlist u.
Proof. by destruct hd. Qed.

(** Taking out a thread that is not waiting does not touch a wait list. *)
Lemma lookup_detach_wait k L hd l t x :
  kinv k L → is_wait hd = true → L !! hd = Some l → threads k !! t = Some x →
  stat x ≠ RT_THREAD_SUSPEND → detach (N_tlist t) L !! hd = Some l.
Proof.
  intros Hinv Hw Hl Hx Hs. rewrite lookup_detach_ne, Hl by by apply is_wait_not_tlist. simpl.
  rewrite filter_ne_id; [done|]. intros Hin.
  destruct (ko_wait _ _ _ _ _ _ Hinv hd l t Hw Hl Hin) as (y & ? & ?). congruence.
Qed.

Lemma wp_list_suspend k L hd t x fl :
  kinv k L → is_wait hd = true → is_Some (L !! hd) → ipc_flag fl →
  threads k !! t = Some x → stat x = RT_THREAD_READY →
  wp (rt_ipc_list_suspend hd t fl) k (λ _ k',
    quiet k k' ∧ threads k' = <[t := set_stat RT_THREAD_SUSPEND x]> (threads k) ∧
    timers k' = timers k ∧ kinv k' (waiting hd fl (threads k) t L)).
Proof.
  intros Hinv Hw [l Hl] Hfl Hx Hs. unfold rt_ipc_list_suspend.
  wp_step. wp_use (wp_thread_suspend k L t x Hinv) as (_ & Hq & Ht & Htm & Hinv1); [done..|].
  set (L1 := detach (N_tlist t) L) in *. rename st into k1.
  pose proof (wait_list_nodes L hd l (ko_typed _ _ _ _ _ _ Hinv) Hw Hl) as El.
  assert (L1 !! hd = Some (N_tlist <$> wait_queue L hd)) as Hl1.
  { rewrite <- El. apply (lookup_detach_wait k L hd l t x); [done..|congruence]. }
  assert (L1 !! N_tlist t = Some []) as Hal by apply lookup_detach_eq.
  assert (threads k1 !! t = Some (set_stat RT_THREAD_SUSPEND x)) as Hx1.
  { rewrite Ht. apply lookup_insert_eq. }
  assert (∀ h1 l1 l2, N_tlist <$> wait_queue L hd = l1 ++ l2 →
    l1 ++ N_tlist t :: l2 = N_tlist <$> insert_wait fl (threads k) (prio (threads k) t) t (wait_queue L hd) →
    rep h1 (<[hd := l1 ++ N_tlist t :: l2]> (delete (N_tlist t) L1)) →
    quiet k (set_heap h1 k1) ∧ threads (set_heap h1 k1) = <[t:=set_stat RT_THREAD_SUSPEND x]> (threads k) ∧
    timers (set_heap h1 k1) = timers k ∧ kinv (set_heap h1 k1) (waiting hd fl (threads k) t L)) as Hend.
  { intros h1 l1 l2 E1 E2 Hr. split_and!; [etrans; [exact Hq|by split]|done..|].
    unfold waiting. fold L1. rewrite <- E2.
    eapply (kern_ok_wait Hinv1); [done|by rewrite Hl1, E1|done|exact Hx1|done|done]. }
  assert (prio (threads k) t = current_priority x) as Ep by (unfold prio; by rewrite Hx).
  assert (rep (heap k1) L1) as Hrep1 by apply Hinv1.
  assert (N_tlist t ≠ hd) as Hne by (intros E; by eapply is_wait_not_tlist).
  destruct Hfl as [-> | ->]; simpl.
  - eapply wp_on_heap; [by eapply (insert_before_head _ L1)|]. intros ? h1 Hr.
    eapply (Hend h1 _ []); [symmetry; apply app_nil_r| |done]. unfold insert_wait. simpl.
    by rewrite fmap_app.
  - wp_step. wp_step. wp_step. eapply wp_rd_next_kernel; [done|exact Hl1|].
    assert (insert_prio (threads k1) (current_priority x) t (wait_queue L hd)
            = insert_prio (threads k) (current_priority x) t (wait_queue L hd)) as Eins.
    { apply insert_prio_ext. intros u Hu. unfold prio. rewrite Ht, lookup_insert_ne; [done|].
      intros <-. destruct (wait_queue_suspended k L hd t Hinv Hw Hu) as (y & ? & ?). congruence. }
    wp_step. wp_use (wp_prio_loop k1 L1 hd t (set_stat RT_THREAD_SUSPEND x) [] (wait_queue L hd)
      (list_fuel k1) Hrep1 Hl1 Hal) as Hpost; [by intros; apply is_wait_not_tlist|done| | |].
    + intros u Hu. rewrite Ht, lookup_insert. case_decide; [eauto|].
      destruct (wait_queue_suspended k L hd u Hinv Hw Hu) as (y & ? & ?). eauto.
    + unfold list_fuel. pose proof (rep_length _ _ _ _ Hrep1 Hl1) as Hlen.
      rewrite length_fmap in Hlen. lia.
    + destruct Hpost as [(-> & -> & E)|(Hn & h & -> & Hr)]; simpl in *; rewrite Eins in *.
      * rewrite decide_True by done. eapply wp_on_heap; [by eapply (insert_before_head _ L1)|].
        intros ? h1 Hr. eapply (Hend h1 _ []); [symmetry; apply app_nil_r| |done].
        unfold insert_wait. simpl. by rewrite Ep, E, fmap_app.
      * rewrite decide_False by done. wp_step.
        destruct (insert_prio_app (threads k) (current_priority x) t (wait_queue L hd))
          as (q1 & q2 & E1 & E2).
        apply (Hend h (N_tlist <$> q1) (N_tlist <$> q2)); [by rewrite E1, fmap_app| |].
        -- unfold insert_wait. simpl. by rewrite Ep, E2, fmap_app.
        -- by rewrite E2, fmap_app in Hr.
Qed.

(** * Blocking *)

(** The lists after [t] has joined a wait list, which gives [W], and has given up the
    processor with or without a time limit. *)
Definition blocked_on (W : lists) (time : Z) (t : nat) (k : kernel)
    (tms : gmap timer_id rt_timer) : lists :=
  if 0 <? time then timer_started tms (u32 (rt_tick k + time)) (T_thread t) W else W.

(** What a blocking call has done when the processor is given away. *)
Record gives_up (W : lists) (time : Z) (t : nat) (x : rt_thread) (k k' : kernel) : Prop := {
  bl_running : running k' (blocked_on W time t k (timers k'));
  bl_frame : frame k k';
  bl_threads : threads k' = <[t := set_stat RT_THREAD_SUSPEND x]> (threads k);
  bl_forever : time <= 0 → timers k' = timers k;
  bl_timed : 0 < time → ∃ y, timers k !! T_thread t = Some y ∧
    timers k' = <[T_thread t := set_timeout_tick (u32 (rt_tick k + time))
                                  (set_init_tick time y)]> (timers k);
  bl_current : rt_current_thread k' = elected k (blocked_on W time t k (timers k'))
}.
Arguments bl_running {_ _ _ _ _ _}.
Arguments bl_frame {_ _ _ _ _ _}.
Arguments bl_threads {_ _ _ _ _ _}.

Definition blocked (hd : node) (fl time : Z) (t : nat) (k : kernel) (L : lists)
    (tms : gmap timer_id rt_timer) : lists :=
  blocked_on (waiting hd fl (threads k) t L) time t k tms.
Definition blocks (hd : node) (fl time : Z) (t : nat) (x : rt_thread) (k : kernel) (L : lists)
    (k' : kernel) : Prop :=
  gives_up (waiting hd fl (threads k) t L) time t x k k'.

(** Arm the timer of the suspended thread [t], if there is a waiting time. *)
Definition arm_timer (t : nat) (time : Z) : K Z :=
  if 0 <? time then
    now ← rt_tick_get;
    rt_timer_control (T_thread t) (RT_TIMER_CTRL_SET_TIME time);;
    rt_timer_start (T_thread t);;
    mret now
  else mret 0.

Lemma wp_give_up k L k1 W t x time :
  running k L → t ≠ idle → threads k !! t = Some x → time < RT_TICK_MAX / 2 →
  quiet k k1 → threads k1 = <[t := set_stat RT_THREAD_SUSPEND x]> (threads k) →
  timers k1 = timers k → kinv k1 W →
  wp (r ← arm_timer t time; rt_schedule;; mret r) k1 (λ r k',
    r = (if 0 <? time then rt_tick k else 0) ∧ gives_up W time t x k k').
Proof.
  intros Hrun Hid Hx Htime Hq1 Ht1 Htm1 Hinv1.
  assert (∀ k2 r, quiet k k2 → threads k2 = <[t := set_stat RT_THREAD_SUSPEND x]> (threads k) →
    (time <= 0 → timers k2 = timers k) →
    (0 < time → ∃ y, timers k !! T_thread t = Some y ∧
      timers k2 = <[T_thread t := set_timeout_tick (u32 (rt_tick k + time))
                                   (set_init_tick time y)]> (timers k)) →
    kinv k2 (blocked_on W time t k (timers k2)) → r = (if 0 <? time then rt_tick k else 0) →
    wp (rt_schedule;; mret r) k2 (λ r k',
      r = (if 0 <? time then rt_tick k else 0) ∧ gives_up W time t x k k')) as Hgo.
  { intros k2 r Hq Ht Hf Htd Hk ->.
    assert (running k2 (blocked_on W time t k (timers k2))) as Hrun2.
    { split; [done|rewrite Ht..|].
      - eapply stacks_ok_insert; [apply Hrun|done|done].
      - apply idle_insert; [apply Hrun|done].
      - rewrite (qt_current _ _ Hq). apply Hrun. }
    wp_step. wp_use (wp_schedule _ _ Hrun2) as (Hr & [Hfr Hh Ho Hth Htm Hg] & Hc).
    wp_step. split; [done|]. rewrite <- Htm in Hr, Hc, Hf, Htd. split; try done.
    - etrans; [apply Hq|done].
    - by rewrite Hth.
    - rewrite Hc. unfold elected. by rewrite (qt_current _ _ Hq), (fr_lock _ _ (qt_frame _ _ Hq)). }
  wp_step. unfold blocked_on in Hgo. unfold arm_timer. destruct (Z.ltb_spec 0 time).
  - unfold rt_tick_get. wp_step. wp_step. wp_step. wp_step. apply wp_assoc.
    wp_step. wp_use (wp_start_thread_timer _ _ t (set_stat RT_THREAD_SUSPEND x) time Hinv1)
      as (Hq2 & Ht2 & y & Hy & Htm2 & Hinv2).
    { rewrite Ht1. apply lookup_insert_eq. } { done. } { done. }
    rewrite Htm1, (fr_tick _ _ (qt_frame _ _ Hq1)) in *. wp_step.
    apply Hgo; [by etrans|by rewrite Ht2|lia|eauto|done|done].
  - wp_step. apply Hgo; [done..|lia|done|done].
Qed.

Lemma wp_wait_on k L hd t x fl time :
  running k L → is_wait hd = true → is_Some (L !! hd) → ipc_flag fl →
  threads k !! t = Some x → stat x = RT_THREAD_READY → t ≠ idle → time < RT_TICK_MAX / 2 →
  wp (wait_on hd t fl time) k (λ r k',
    r = (if 0 <? time then rt_tick k else 0) ∧ blocks hd fl time t x k L k').
Proof.
  intros Hrun Hw HL Hfl Hx Hs Hid Htime. pose proof (rn_inv _ _ Hrun) as Hinv. unfold wait_on.
  wp_step. wp_use (wp_list_suspend k L hd t x fl Hinv Hw HL Hfl Hx Hs) as (Hq1 & Ht1 & Htm1 & Hinv1).
  by apply (wp_give_up k L).
Qed.

Lemma blocks_running {hd fl time t x k L k'} :
  blocks hd fl time t x k L k' → running k' (blocked hd fl time t k L (timers k')).
Proof. apply bl_running. Qed.

(** The wait list of a blocked thread. *)
Lemma wait_queue_blocked hd fl time t k L tms :
  is_wait hd = true →
  wait_queue (blocked hd fl time t k L tms) hd
  = insert_wait fl (threads k) (prio (threads k) t) t (wait_queue L hd).
Proof.
  intros Hw. apply wait_queue_fmap. unfold blocked, blocked_on.
  assert (waiting hd fl (threads k) t L !! hd
    = Some (N_tlist <$> insert_wait fl (threads k) (prio (threads k) t) t (wait_queue L hd))) as HW
    by apply lookup_insert_eq.
  case_match; [|done]. unfold timer_started. rewrite lookup_insert_ne by by destruct hd.
  rewrite lookup_delete_ne, lookup_detach_ne, HW by by destruct hd. simpl.
  rewrite filter_ne_id; [done|]. intros Hin. by apply list_elem_of_fmap in Hin as (? & ? & _).
Qed.

(** * Resuming *)

Lemma wait_head k L hd u q :
  kinv k L → is_wait hd = true → wait_queue L hd = u :: q →
  L !! hd = Some (N_tlist u :: (N_tlist <$> q)) ∧ NoDup (u :: q) ∧
  ∃ x, threads k !! u = Some x ∧ stat x = RT_THREAD_SUSPEND.
Proof.
  intros Hinv Hw Hq. destruct (L !! hd) as [l|] eqn:Hl.
  - pose proof (wait_list_nodes L hd l (ko_typed _ _ _ _ _ _ Hinv) Hw Hl) as ->.
    rewrite Hq in Hl |- *. split_and!; [done| |].
    + destruct (rep_dlist _ _ _ _ (ko_rep Hinv) Hl) as [Hnd _].
      apply NoDup_cons in Hnd as [_ Hnd]. by eapply NoDup_fmap_1.
    + eapply (wait_queue_suspended k L hd); [done..|]. rewrite Hq. set_solver.
  - unfold wait_queue in Hq. by rewrite Hl in Hq.
Qed.

Lemma wait_queue_nil k L hd :
  kinv k L → is_wait hd = true → is_Some (L !! hd) → wait_queue L hd = [] → L !! hd = Some [].
Proof.
  intros Hinv Hw [l Hl] Hq.
  pose proof (wait_list_nodes L hd l (ko_typed _ _ _ _ _ _ Hinv) Hw Hl) as E.
  rewrite Hq in E. by subst.
Qed.

(** [rt_list_isempty] on a wait list. *)
Lemma wp_wait_isempty k L hd (Q : bool → kernel → Prop) :
  kinv k L → is_wait hd = true → is_Some (L !! hd) →
  Q (bool_decide (wait_queue L hd = [])) k → wp (on_heap (rt_list_isempty hd)) k Q.
Proof.
  intros Hinv Hw [l Hl] HQ.
  pose proof (wait_list_nodes L hd l (ko_typed _ _ _ _ _ _ Hinv) Hw Hl) as E.
  eapply wp_on_heap; [exact (wp_isempty _ _ _ _ (ko_rep Hinv) Hl)|].
  intros e h [-> ->]. rewrite set_heap_id.
  rewrite (bool_decide_ext _ (wait_queue L hd = [])); [done|]. rewrite E.
  split; [|by intros ->]. by destruct (wait_queue L hd).
Qed.

Lemma wait_queue_resumed L hd u p :
  typed L → is_wait hd = true →
  wait_queue (resumed u p L) hd = filter (λ t, t ≠ u) (wait_queue L hd).
Proof.
  intros Hty Hw. destruct (L !! hd) as [l|] eqn:Hl.
  - apply wait_queue_fmap. unfold resumed.
    rewrite lookup_enqueue_ne by by destruct hd.
    rewrite lookup_detach_untyped; [|by apply typed_detach|by destruct hd|by destruct hd].
    rewrite lookup_detach_ne, Hl by by apply is_wait_not_tlist. simpl.
    rewrite (wait_list_nodes L hd l Hty Hw Hl) at 1. by rewrite filter_fmap_tlist.
  - unfold wait_queue, resumed. rewrite lookup_enqueue_ne by by destruct hd.
    rewrite lookup_detach_untyped; [|by apply typed_detach|by destruct hd|by destruct hd].
    by rewrite lookup_detach_ne, Hl by by apply is_wait_not_tlist.
Qed.

Lemma is_Some_resumed L hd u p :
  is_wait hd = true → is_Some (L !! hd) → is_Some (resumed u p L !! hd).
Proof.
  intros Hw [l Hl]. unfold resumed. rewrite lookup_enqueue_ne by by destruct hd.
  rewrite !lookup_detach_ne by by destruct hd. rewrite Hl. eauto.
Qed.

Lemma wp_list_resume k L hd u q :
  kinv k L → is_wait hd = true → wait_queue L hd = u :: q →
  wp (rt_ipc_list_resume hd) k (λ _ k', ∃ x,
    threads k !! u = Some x ∧ stat x = RT_THREAD_SUSPEND ∧ quiet k k' ∧
    threads k' = <[u := set_stat RT_THREAD_READY x]> (threads k) ∧ timers k' = timers k ∧
    kinv k' (resumed u (current_priority x) L) ∧
    wait_queue (resumed u (current_priority x) L) hd = q).
Proof.
  intros Hinv Hw Hq. destruct (wait_head k L hd u q Hinv Hw Hq) as (Hl & Hnd & x & Hx & Hs).
  unfold rt_ipc_list_resume. wp_step. eapply wp_rd_next_kernel; [apply Hinv|exact Hl|]. simpl.
  wp_step. wp_step. wp_step.
  wp_use (wp_thread_resume k L u x Hinv Hx Hs) as (_ & Hqt & Ht & Htm & Hk). wp_step.
  exists x. split_and!; try done. rewrite wait_queue_resumed, Hq by (apply Hinv || done).
  by apply (filter_ne_split u []).
Qed.

(** A resumed thread leaves the kernel running. *)
Lemma running_resumed k k' L u x :
  running k L → quiet k k' → threads k !! u = Some x →
  threads k' = <[u := set_stat RT_THREAD_READY x]> (threads k) →
  kinv k' (resumed u (current_priority x) L) → running k' (resumed u (current_priority x) L).
Proof.
  intros Hrun Hq Hx Ht Hk. split; [done|rewrite Ht..|].
  - eapply stacks_ok_insert; [apply Hrun|done|done].
  - apply idle_insert; [apply Hrun|done].
  - rewrite (qt_current _ _ Hq). apply Hrun.
Qed.

(** Wake the first waiter and schedule: the end of the calls that signal. *)
Lemma wp_signal k L hd u q :
  running k L → is_wait hd = true → wait_queue L hd = u :: q →
  wp (rt_ipc_list_resume hd;; rt_schedule) k (λ _ k', ∃ x,
    threads k !! u = Some x ∧ stat x = RT_THREAD_SUSPEND ∧
    let L' := resumed u (current_priority x) L in
    running k' L' ∧ frame k k' ∧ wait_queue L' hd = q ∧
    threads k' = <[u := set_stat RT_THREAD_READY x]> (threads k) ∧
    timers k' = timers k ∧ rt_current_thread k' = elected k L').
Proof.
  intros Hrun Hw Hq. wp_step.
  wp_use (wp_list_resume k L hd u q (rn_inv _ _ Hrun) Hw Hq) as (x & Hx & Hs & Hqt & Ht & Htm & Hk & Hq').
  pose proof (running_resumed k st L u x Hrun Hqt Hx Ht Hk) as Hrun'.
  wp_use (wp_schedule _ _ Hrun') as (Hr & [Hf Hh Ho Hth Htm' Hg] & Hc).
  exists x. split_and!; [done|done|]. cbv zeta.
  split_and!; [done|etrans; [apply Hqt|done]|done|by rewrite Hth|by rewrite Htm'|].
  rewrite Hc. unfold elected. by rewrite (qt_current _ _ Hqt), (fr_lock _ _ (qt_frame _ _ Hqt)).
Qed.

(** * Resuming all *)

(** A waiter is woken with [-RT_ERROR]. *)
Definition evict (st : gmap nat rt_thread * lists) (t : nat) : gmap nat rt_thread * lists :=
  match st.1 !! t with
  | Some x => (<[t := set_stat RT_THREAD_READY (set_error (- RT_ERROR) x)]> st.1,
               resumed t (current_priority x) st.2)
  | None => st
  end.

Lemma wp_resume_loop hd q k L fuel :
  running k L → is_wait hd = true → is_Some (L !! hd) → wait_queue L hd = q →
  (length q < fuel)%nat →
  let st := foldl evict (threads k, L) q in
  wp (ipc_resume_loop fuel hd) k (λ _ k',
    running k' st.2 ∧ quiet k k' ∧ threads k' = st.1 ∧ timers k' = timers k ∧
    wait_queue st.2 hd = [] ∧ is_Some (st.2 !! hd)).
Proof.
  revert k L fuel. induction q as [|u q IH]; intros k L fuel Hrun Hw HL Hq Hf;
    (destruct fuel as [|fuel]; [simpl in Hf; lia|]); simpl; pose proof (rn_inv _ _ Hrun) as Hinv.
  - wp_step. eapply (wp_wait_isempty k L); [done..|]. rewrite Hq. simpl. by wp_step.
  - destruct (wait_head k L hd u q Hinv Hw Hq) as (Hl & Hnd & x & Hx & Hs).
    wp_step. eapply (wp_wait_isempty k L); [done..|]. rewrite Hq. simpl.
    wp_step. eapply wp_rd_next_kernel; [apply Hinv|exact Hl|]. simpl. wp_step. wp_step.
    set (x1 := set_error (- RT_ERROR) x).
    wp_step. eapply wp_upd_thread; [done|]. fold x1.
    match goal with |- wp _ ?s _ => set (k1 := s) end.
    assert (running k1 L) as Hrun1 by by eapply running_upd_thread.
    assert (threads k1 !! u = Some x1) as Hx1 by apply lookup_insert_eq.
    wp_step. wp_use (wp_thread_resume k1 L u x1 (rn_inv _ _ Hrun1) Hx1 Hs) as (_ & Hqt & Ht & Htm & Hk).
    pose proof (running_resumed k1 _ L u x1 Hrun1 Hqt Hx1 Ht Hk) as Hrun2.
    assert (threads st = <[u := set_stat RT_THREAD_READY x1]> (threads k)) as Ht'.
    { rewrite Ht. simpl. by rewrite insert_insert_eq. }
    assert (evict (threads k, L) u = (threads st, resumed u (current_priority x1) L)) as Ee.
    { unfold evict. simpl. by rewrite Hx, Ht'. }
    rewrite Ee. eapply wp_mono.
    + apply (IH st _ fuel Hrun2 Hw); [by apply is_Some_resumed| |simpl in Hf; lia].
      rewrite wait_queue_resumed, Hq by (apply Hinv || done). by apply (filter_ne_split u []).
    + intros ? k2 (Hr & Hq2 & Ht2 & Htm2 & Hwq & Hs2). split_and!; try done.
      * etrans; [|exact Hq2]. etrans; [|exact Hqt]. by split.
      * by rewrite Htm2, Htm.
Qed.

Lemma wp_resume_all hd k L :
  running k L → is_wait hd = true → is_Some (L !! hd) →
  let st := foldl evict (threads k, L) (wait_queue L hd) in
  wp (rt_ipc_list_resume_all hd) k (λ _ k',
    running k' st.2 ∧ quiet k k' ∧ threads k' = st.1 ∧ timers k' = timers k ∧
    wait_queue st.2 hd = [] ∧ is_Some (st.2 !! hd)).
Proof.
  intros Hrun Hw HL. unfold rt_ipc_list_resume_all. wp_step. wp_step.
  apply wp_resume_loop; [done..|]. destruct HL as [l Hl].
  pose proof (wait_list_nodes L hd l (ko_typed _ _ _ _ _ _ (rn_inv _ _ Hrun)) Hw Hl) as E.
  pose proof (rep_length _ _ _ _ (ko_rep (rn_inv _ _ Hrun)) Hl) as Hlen.
  rewrite E, length_fmap in Hlen. unfold list_fuel. lia.
Qed.

(** * IPC objects and the calling thread *)

(** An IPC object in memory: its wait list exists, its flag is one of the two. *)
Definition ipc_ok (k : kernel) (L : lists) (o : objid) : Prop :=
  is_Some (L !! N_suspend o) ∧ ∃ b, objects k !! o = Some b ∧ ipc_flag (flag b).

(** The running thread may block: it is ready, it is not the idle thread, and no
    interrupt is being served. *)
Record may_block (k : kernel) (t : nat) (x : rt_thread) : Prop := {
  mb_current : rt_current_thread k = Some t;
  mb_thread : threads k !! t = Some x;
  mb_ready : stat x = RT_THREAD_READY;
  mb_not_idle : t ≠ idle;
  mb_thread_mode : rt_interrupt_nest k = 0
}.

Definition obj_flag (k : kernel) (o : objid) : Z :=
  match objects k !! o with Some b => flag b | None => 0 end.

(** Store an error code in a thread. *)
Definition with_error (t : nat) (e : Z) (x : rt_thread) (k : kernel) : kernel :=
  set_threads (<[t := set_error e x]> (threads k)) k.

Lemma running_with_error k L t x e :
  running k L → threads k !! t = Some x → running (with_error t e x k) L.
Proof. intros. by eapply running_upd_thread. Qed.

Lemma wp_thread_context k L t x (Q : unit → kernel → Prop) :
  running k L → may_block k t x → Q tt k → wp RT_DEBUG_IN_THREAD_CONTEXT k Q.
Proof.
  intros Hrun [Hc _ _ _ Hn] HQ. unfold RT_DEBUG_IN_THREAD_CONTEXT, RT_DEBUG_NOT_IN_INTERRUPT.
  wp_step. wp_step. wp_step. apply wp_assert; [rewrite Hc; done|].
  wp_step. wp_step. apply wp_assert; [by rewrite Hn|done].
Qed.

(** Preservation of an IPC object by operations that frame it. *)
Lemma ipc_ok_objects k k' L L' o :
  ipc_ok k L o → objects k' !! o = objects k !! o → is_Some (L' !! N_suspend o) → ipc_ok k' L' o.
Proof. intros [_ (b & ? & ?)] Ho ?. split; [done|]. exists b. by rewrite Ho. Qed.

Lemma ipc_ok_frame k k' L L' o :
  ipc_ok k L o → frame k k' → is_timer_obj o = false → is_Some (L' !! N_suspend o) →
  ipc_ok k' L' o.
Proof. intros [_ (b & ? & ?)] Hf Ho ?. split; [done|]. exists b. by rewrite (fr_objects _ _ Hf). Qed.

Lemma is_Some_blocked hd hd' fl time t k L tms :
  is_wait hd = true → is_wait hd' = true → is_Some (L !! hd') →
  is_Some (blocked hd fl time t k L tms !! hd').
Proof.
  intros Hw Hw' [l Hl]. unfold blocked, blocked_on.
  assert (is_Some (waiting hd fl (threads k) t L !! hd')) as HW.
  { unfold waiting. rewrite lookup_insert. case_decide; [eauto|].
    rewrite lookup_delete_ne, lookup_detach_ne, Hl by by destruct hd'. eauto. }
  case_match; [|done]. unfold timer_started. rewrite lookup_insert_ne by by destruct hd'.
  rewrite lookup_delete_ne, lookup_detach_ne by by destruct hd'. by apply fmap_is_Some.
Qed.

(** ** Tests *)

Definition ipc_flag_b (fl : Z) : bool := (fl =? RT_IPC_FLAG_FIFO) || (fl =? RT_IPC_FLAG_PRIO).

Definition ipc_ok_b (k : kernel) (L : lists) (o : objid) : bool :=
  bool_decide (is_Some (L !! N_suspend o))
  && match objects k !! o with Some b => ipc_flag_b (flag b) | None => false end.

Lemma ipc_ok_b_spec k L o : ipc_ok_b k L o = true → ipc_ok k L o.
Proof.
  unfold ipc_ok_b, ipc_flag_b. rewrite andb_true_iff, bool_decide_eq_true. intros [? H].
  split; [done|]. destruct (objects k !! o) as [b|]; [|done]. exists b. split; [done|].
  rewrite orb_true_iff in H. unfold ipc_flag. destruct H; [left|right]; lia.
Qed.

(** The structure of a thread, for concrete kernels. *)
Definition thread_at (k : kernel) (t : nat) : rt_thread := default zero_thread (threads k !! t).

Definition may_block_b (k : kernel) (t : nat) : bool :=
  bool_decide (rt_current_thread k = Some t) && bool_decide (is_Some (threads k !! t))
  && bool_decide (stat (thread_at k t) = RT_THREAD_READY) && bool_decide (t ≠ idle)
  && (rt_interrupt_nest k =? 0).

Lemma may_block_b_spec k t : may_block_b k t = true → may_block k t (thread_at k t).
Proof.
  unfold may_block_b. rewrite !andb_true_iff, !bool_decide_eq_true.
  intros [[[[H1 [y H2]] H3] H4] H5]. split; [done| |done|done|lia].
  unfold thread_at. by rewrite H2.
Qed.
