(* ===== verification/Semaphore.v ===== *)
(** The semaphore of [src/ipc.c]: what [rt_sem_take], [rt_sem_release] and
    [rt_sem_control] do on every path, and the invariant that relates the counter
    and the waiting threads. *)

From Stdlib Require Import ZArith Lia.
From stdpp Require Import numbers strings base gmap list.
From S2P Require Import Prelude RtList Bitmap Kernel Scheduler Object Timer Thread Ipc.
From S2P Require Import Invariant ThreadSpec Check Demo TimerSpec ThreadRun IpcSpec.
Local Open Scope Z_scope.

Definition sem_list (s : nat) : node := N_suspend (O_sem s).

(** A semaphore: a 16-bit count, and no thread waits while it is positive. *)
Record sem_ok (k : kernel) (L : lists) (s : nat) (v : Z) : Prop := {
  sk_value : sems k !! s = Some (mk_semaphore v);
  sk_range : 0 <= v < 2 ^ 16;
  sk_ipc : ipc_ok k L (O_sem s);
  sk_idle : 0 < v → wait_queue L (sem_list s) = []
}.

(** * Taking *)

Section take.
Context {k : kernel} {L : lists} {s : nat} {v : Z}.
Hypothesis Hrun : running k L.
Hypothesis Hsem : sem_ok k L s v.

Lemma sem_take_available time :
  0 < v →
  wp (rt_sem_take s time) k (λ out k',
    out = Return RT_EOK ∧ k' = set_sems (<[s := mk_semaphore (v - 1)]> (sems k)) k).
Proof.
  intros Hv. pose proof (sk_range _ _ _ _ Hsem) as Hr. unfold rt_sem_take.
  wp_step. eapply wp_get_sem; [apply Hsem|]. simpl. rewrite (proj2 (Z.ltb_lt _ _) Hv).
  wp_step. unfold put_sem. wp_step. wp_step. split; [done|].
  unfold wrap. by rewrite Z.mod_small by lia.
Qed.

Lemma sem_take_empty :
  v = 0 → wp (rt_sem_take s 0) k (λ out k', out = Return (- RT_ETIMEOUT) ∧ k' = k).
Proof.
  intros ->. unfold rt_sem_take. wp_step. eapply wp_get_sem; [apply Hsem|]. simpl. by wp_step.
Qed.

Lemma sem_take_wait t x time :
  v = 0 → may_block k t x → time ≠ 0 → time < RT_TICK_MAX / 2 →
  wp (rt_sem_take s time) k (λ out k',
    out = Resched (wait_result t) ∧
    blocks (sem_list s) (obj_flag k (O_sem s)) time t (set_error RT_EOK x)
      (with_error t RT_EOK x k) L k').
Proof.
  intros -> Hb Hn Htime. destruct (sk_ipc _ _ _ _ Hsem) as [HL (b & Hob & Hfl)].
  unfold rt_sem_take. wp_step. eapply wp_get_sem; [apply Hsem|]. simpl.
  rewrite (proj2 (Z.eqb_neq _ _) Hn). wp_step. eapply wp_thread_context; [done..|].
  destruct Hb as [Hc Hx Hs Hid _]. unfold rt_thread_self. do 6 wp_step.
  wp_step. eapply wp_upd_thread; [done|]. wp_step. eapply wp_get_object; [done|].
  wp_step. wp_use (wp_wait_on (with_error t RT_EOK x k) L (sem_list s) t (set_error RT_EOK x)
    (flag b) time) as [_ Hbl]; [by apply running_with_error|done|done|done|apply lookup_insert_eq|done..|].
  wp_step. split; [done|]. unfold obj_flag. by rewrite Hob.
Qed.
End take.

(** * The invariant *)

Lemma sem_ok_blocked k k' L s v t x fl time e :
  sem_ok k L s v → v = 0 → threads k !! t = Some x →
  blocks (sem_list s) fl time t (set_error e x) (with_error t e x k) L k' →
  sem_ok k' (blocked (sem_list s) fl time t (with_error t e x k) L (timers k')) s v.
Proof.
  intros [Hv Hr Hi Hw] -> Hx [_ Hf _ _ _ _]. split; [by rewrite (fr_sems _ _ Hf)|done| |done].
  eapply ipc_ok_frame; [exact Hi| |done|].
  - etrans; [|exact Hf]. by split.
  - apply is_Some_blocked; [done..|]. apply Hi.
Qed.

Lemma sem_ok_resumed k k' L s v u p :
  sem_ok k L s v → typed L → frame k k' → v = 0 → sem_ok k' (resumed u p L) s v.
Proof.
  intros [Hv Hr Hi Hw] Hty Hf ->. split; [by rewrite (fr_sems _ _ Hf)|done| |done].
  eapply ipc_ok_frame; [exact Hi|done|done|]. by apply is_Some_resumed; [|apply Hi].
Qed.

(** * Releasing *)

Section release.
Context {k : kernel} {L : lists} {s : nat} {v : Z}.
Hypothesis Hrun : running k L.
Hypothesis Hsem : sem_ok k L s v.

Lemma sem_release_count :
  wait_queue L (sem_list s) = [] →
  wp (rt_sem_release s) k (λ r k',
    r = RT_EOK ∧ k' = set_sems (<[s := mk_semaphore (u16 (v + 1))]> (sems k)) k).
Proof.
  intros Hq. unfold rt_sem_release. wp_step.
  eapply (wp_wait_isempty k L); [apply Hrun|done|apply Hsem|]. fold (sem_list s). rewrite Hq. simpl.
  wp_step. eapply wp_get_sem; [apply Hsem|]. wp_step. unfold put_sem. wp_step. by wp_step.
Qed.

Lemma sem_release_wake u q :
  wait_queue L (sem_list s) = u :: q →
  wp (rt_sem_release s) k (λ r k', r = RT_EOK ∧ ∃ x,
    threads k !! u = Some x ∧ stat x = RT_THREAD_SUSPEND ∧
    let L' := resumed u (current_priority x) L in
    running k' L' ∧ frame k k' ∧ wait_queue L' (sem_list s) = q ∧
    threads k' = <[u := set_stat RT_THREAD_READY x]> (threads k) ∧
    timers k' = timers k ∧ rt_current_thread k' = elected k L').
Proof.
  intros Hq. unfold rt_sem_release. wp_step.
  eapply (wp_wait_isempty k L); [apply Hrun|done|apply Hsem|]. fold (sem_list s). rewrite Hq. simpl.
  apply wp_assoc. wp_step. wp_use (wp_signal k L (sem_list s) u q Hrun eq_refl Hq) as Hpost.
  by wp_step.
Qed.
End release.

(** * Properties *)

(** C5: [rt_sem_take], on every path.  With a permit it takes one and touches
    nothing else; without a permit and without waiting time it fails with
    [-RT_ETIMEOUT] and touches nothing; otherwise it suspends the caller on the
    wait list at the position its flag prescribes, arms its timer if the waiting
    time is finite, and gives the processor to the best ready thread.  The
    semaphore invariant (no thread waits while permits are left) holds after. *)
Theorem rt_sem_take_spec k L s v t x time :
  running k L → sem_ok k L s v → may_block k t x → time < RT_TICK_MAX / 2 →
  wp (rt_sem_take s time) k (λ out k',
    if 0 <? v then
      out = Return RT_EOK ∧ k' = set_sems (<[s := mk_semaphore (v - 1)]> (sems k)) k ∧
      sem_ok k' L s (v - 1)
    else if time =? 0 then out = Return (- RT_ETIMEOUT) ∧ k' = k
    else
      let fl := obj_flag k (O_sem s) in
      let k1 := with_error t RT_EOK x k in
      let L' := blocked (sem_list s) fl time t k1 L (timers k') in
      out = Resched (wait_result t) ∧
      blocks (sem_list s) fl time t (set_error RT_EOK x) k1 L k' ∧ sem_ok k' L' s 0 ∧
      wait_queue L' (sem_list s)
      = insert_wait fl (threads k1) (prio (threads k1) t) t (wait_queue L (sem_list s))).
Proof.
  intros Hrun Hsem Hb Htime. pose proof (sk_range _ _ _ _ Hsem) as Hr.
  destruct (Z.ltb_spec 0 v) as [Hv|Hv].
  - eapply wp_mono; [by apply (sem_take_available Hsem)|]. intros ? ? [-> ->].
    split_and!; [done|done|]. destruct Hsem as [? ? ? Hw].
    split; [apply lookup_insert_eq|lia|done|]. intros _. by apply Hw.
  - assert (v = 0) as -> by lia. destruct (Z.eqb_spec time 0) as [->|Hn].
    + by apply (sem_take_empty Hsem).
    + eapply wp_mono; [by apply (sem_take_wait Hrun Hsem t x time)|]. intros ? k' [-> Hbl].
      split_and!; [done|done| |by apply wait_queue_blocked].
      eapply sem_ok_blocked; [done|done|apply Hb|done].
Qed.

(** C6: [rt_sem_release], on every path.  With waiting threads the permit goes
    to the first one: it becomes ready, the count stays, and the best ready thread
    runs.  Without, the count is incremented, modulo 2^16.  The invariant holds
    after in both cases. *)
Theorem rt_sem_release_spec k L s v :
  running k L → sem_ok k L s v →
  wp (rt_sem_release s) k (λ r k', r = RT_EOK ∧
    match wait_queue L (sem_list s) with
    | [] => k' = set_sems (<[s := mk_semaphore (u16 (v + 1))]> (sems k)) k ∧
            sem_ok k' L s (u16 (v + 1))
    | u :: q => ∃ x, threads k !! u = Some x ∧ stat x = RT_THREAD_SUSPEND ∧
        let L' := resumed u (current_priority x) L in
        running k' L' ∧ sem_ok k' L' s 0 ∧ wait_queue L' (sem_list s) = q ∧
        threads k' = <[u := set_stat RT_THREAD_READY x]> (threads k) ∧
        rt_current_thread k' = elected k L'
    end).
Proof.
  intros Hrun Hsem. destruct (wait_queue L (sem_list s)) as [|u q] eqn:Hq.
  - eapply wp_mono; [by apply (sem_release_count Hrun Hsem)|]. intros ? ? [-> ->].
    split_and!; [done|done|]. destruct Hsem as [? ? ? Hw].
    split; [apply lookup_insert_eq|apply Z.mod_pos_bound; lia|done|done].
  - eapply wp_mono; [by apply (sem_release_wake Hrun Hsem u q)|].
    intros ? k' [-> (x & Hx & Hs & Hr & Hf & Hq' & Ht & _ & Hc)]. split; [done|].
    exists x. split_and!; [done|done|]. cbv zeta. split_and!; [done| |done..].
    pose proof (sk_range _ _ _ _ Hsem) as Hrg.
    assert (v = 0) as ->.
    { destruct (Z.eq_dec v 0); [done|]. rewrite (sk_idle _ _ _ _ Hsem) in Hq by lia. done. }
    eapply sem_ok_resumed; [done|apply Hrun|done|done].
Qed.

(** A permit released while a thread waits is handed to that thread: the
    pending [rt_sem_take] returns [RT_EOK] when the thread runs again, and the
    count is still zero, so that nobody else can have taken the permit. *)
Theorem rt_sem_handoff k L s t x time :
  running k L → sem_ok k L s 0 → may_block k t x → time ≠ 0 → time < RT_TICK_MAX / 2 →
  wait_queue L (sem_list s) = [] →
  wp (o ← rt_sem_take s time;
      rt_sem_release s;;
      match o with Resched rest => rest | Return r => mret (Return r) end) k (λ out k',
    out = Return RT_EOK ∧ sems k' !! s = Some (mk_semaphore 0) ∧
    ∃ y, threads k' !! t = Some y ∧ stat y = RT_THREAD_READY).
Proof.
  intros Hrun Hsem Hb Hn Htime Hq. wp_step.
  wp_use (sem_take_wait Hrun Hsem t x time) as [-> Hbl]; [done..|].
  pose proof (sem_ok_blocked _ _ _ _ _ t x _ _ _ Hsem eq_refl (mb_thread _ _ _ Hb) Hbl) as Hsem1.
  pose proof (blocks_running Hbl) as Hrun1. destruct Hbl as [_ Hf1 Ht1 _ _ _]. simpl in Ht1. rewrite insert_insert_eq in Ht1.
  wp_step. wp_use (sem_release_wake Hrun1 Hsem1 t []) as (_ & y & Hy & _ & _ & Hf2 & _ & Ht2 & _ & _).
  { rewrite wait_queue_blocked, Hq by done. unfold insert_wait. by case_match. }
  rewrite Ht1, lookup_insert_eq in Hy. simplify_eq.
  assert (threads st0 !! t = Some (set_stat RT_THREAD_READY (set_stat RT_THREAD_SUSPEND (set_error RT_EOK x))))
    as Hy by (rewrite Ht2; apply lookup_insert_eq).
  unfold wait_result. wp_step. eapply wp_get_thread; [exact Hy|]. simpl. wp_step.
  split_and!; [done| |by eauto]. rewrite (fr_sems _ _ Hf2). apply Hsem1.
Qed.

(** Resetting a semaphore ([RT_IPC_CMD_RESET]) wakes every waiting thread
    with the error [-RT_ERROR], in the order of the list, and stores the new count
    modulo 2^16. *)
Theorem rt_sem_reset_spec k L s v value :
  running k L → sem_ok k L s v →
  let st := foldl evict (threads k, L) (wait_queue L (sem_list s)) in
  wp (rt_sem_control s (RT_IPC_CMD_RESET value)) k (λ r k',
    r = RT_EOK ∧ running k' st.2 ∧ sem_ok k' st.2 s (u16 value) ∧ threads k' = st.1 ∧
    wait_queue st.2 (sem_list s) = [] ∧ rt_current_thread k' = elected k st.2).
Proof.
  intros Hrun Hsem st. unfold rt_sem_control.
  wp_step. wp_use (wp_resume_all (sem_list s) k L Hrun eq_refl) as (Hr & Hq & Ht & Htm & Hwq & HL).
  { apply Hsem. }
  fold st in Hr, Ht, Hwq, HL. wp_step. unfold put_sem. wp_step.
  match goal with |- wp _ ?s _ => set (k1 := s) end.
  assert (running k1 st.2) as Hrun1 by (split; apply Hr).
  wp_step. wp_use (wp_schedule _ _ Hrun1) as (Hr2 & [Hf Hh Ho Hth Htm' Hg] & Hc). wp_step.
  split_and!; [done|done| |by rewrite Hth|done|].
  - split; [rewrite (fr_sems _ _ Hf); apply lookup_insert_eq|apply Z.mod_pos_bound; lia| |done].
    eapply (ipc_ok_frame k1); [|done|done|done]. split; [done|].
    destruct (sk_ipc _ _ _ _ Hsem) as [_ (b & Hb & ?)]. exists b.
    split; [|done]. simpl. by rewrite (fr_objects _ _ (qt_frame _ _ Hq)).
  - rewrite Hc. unfold elected. simpl.
    by rewrite (qt_current _ _ Hq), (fr_lock _ _ (qt_frame _ _ Hq)).
Qed.

(** * Instances *)

Lemma sem_demo_ok : sem_ok sem_demo (lists_at sem_demo) 0 0.
Proof. split; [by vm_compute|lia|apply ipc_ok_b_spec; by vm_compute|lia]. Qed.

Lemma rt_sem_take_witness :
  wp (rt_sem_take 0 100) sem_demo (λ out k', out = Resched (wait_result 2) ∧
    sems k' !! 0%nat = Some (mk_semaphore 0)).
Proof.
  eapply wp_mono.
  - apply (rt_sem_take_spec sem_demo (lists_at sem_demo) 0 0 2 (thread_at sem_demo 2) 100).
    + apply running_b_spec. by vm_compute.
    + exact sem_demo_ok.
    + apply may_block_b_spec. by vm_compute.
    + done.
  - intros out k' (Ho & _ & Hs & _). split; [exact Ho|apply Hs].
Defined.

Lemma rt_sem_release_witness :
  wp (rt_sem_release 0) sem_demo (λ r k', r = RT_EOK ∧ sems k' !! 0%nat = Some (mk_semaphore 1)).
Proof.
  eapply wp_mono.
  - apply (rt_sem_release_spec sem_demo (lists_at sem_demo) 0 0).
    + apply running_b_spec. by vm_compute.
    + exact sem_demo_ok.
  - intros r k' [-> H].
    replace (wait_queue (lists_at sem_demo) (sem_list 0)) with (@nil nat) in H by (by vm_compute).
    destruct H as [_ H]. split; [done|apply H].
Defined.

Lemma rt_sem_handoff_witness :
  wp (o ← rt_sem_take 0 RT_WAITING_FOREVER;
      rt_sem_release 0;;
      match o with Resched rest => rest | Return r => mret (Return r) end) sem_demo
    (λ out _, out = Return RT_EOK).
Proof.
  eapply wp_mono.
  - apply (rt_sem_handoff sem_demo (lists_at sem_demo) 0 2 (thread_at sem_demo 2) RT_WAITING_FOREVER).
    + apply running_b_spec. by vm_compute.
    + exact sem_demo_ok.
    + apply may_block_b_spec. by vm_compute.
    + done.
    + done.
    + by vm_compute.
  - by intros out k' [-> _].
Defined.

Lemma rt_sem_reset_witness :
  wp (rt_sem_control 0 (RT_IPC_CMD_RESET 65537)) sem_demo (λ r k',
    r = RT_EOK ∧ sems k' !! 0%nat = Some (mk_semaphore 1)).
Proof.
  eapply wp_mono.
  - apply (rt_sem_reset_spec sem_demo (lists_at sem_demo) 0 0 65537).
    + apply running_b_spec. by vm_compute.
    + exact sem_demo_ok.
  - intros r k' (-> & _ & H & _). split; [done|apply H].
Defined.
