(* ===== verification/Mutex.v ===== *)
(** The mutex of [src/ipc.c]: ownership, recursion, hand-over to the first waiter
    and priority inheritance, on every path of [rt_mutex_take] and
    [rt_mutex_release]. *)

From Stdlib Require Import ZArith Lia.
From stdpp Require Import numbers strings base gmap list.
From S2P Require Import Prelude RtList Bitmap Kernel Scheduler Object Timer Thread Ipc.
From S2P Require Import Invariant ThreadSpec Check Demo TimerSpec ThreadRun IpcSpec.
Local Open Scope Z_scope.

Definition mutex_list (m : nat) : node := N_suspend (O_mutex m).

(** A mutex is free, with nobody waiting, or it has one owner, who holds it at
    least once and does not wait for it. *)
Record mutex_ok (k : kernel) (L : lists) (m : nat) (x : rt_mutex) : Prop := {
  mx_mutex : mutexes k !! m = Some x;
  mx_ipc : ipc_ok k L (O_mutex m);
  mx_owner : match owner x with
    | None => x = mutex_free ∧ wait_queue L (mutex_list m) = []
    | Some w => mutex_value x = 0 ∧ 1 <= hold x <= 255 ∧
        0 <= original_priority x < RT_THREAD_PRIORITY_MAX ∧
        is_Some (threads k !! w) ∧ w ∉ wait_queue L (mutex_list m)
    end
}.

Definition with_mutex (m : nat) (x : rt_mutex) (k : kernel) : kernel :=
  set_mutexes (<[m := x]> (mutexes k)) k.

(** * Lemmas *)

Lemma u8_small z : 0 <= z < 256 → u8 z = z.
Proof. intros. by apply Z.mod_small. Qed.

(** Threads change, but none disappears. *)
Lemma is_Some_insert_thread (ths : gmap nat rt_thread) t x u :
  is_Some (ths !! u) → is_Some (<[t := x]> ths !! u).
Proof. intros [y Hy]. rewrite lookup_insert. case_decide; eauto. Qed.

Lemma mutex_ok_free k L m :
  mutexes k !! m = Some mutex_free → ipc_ok k L (O_mutex m) →
  wait_queue L (mutex_list m) = [] → mutex_ok k L m mutex_free.
Proof. by intros; split. Qed.

(** The change of priority of a thread leaves the kernel running; a wait list is
    not touched. *)
Lemma wp_running_priority k L w z p :
  running k L → threads k !! w = Some z → 0 <= p < RT_THREAD_PRIORITY_MAX →
  wp (rt_thread_control w (RT_THREAD_CTRL_CHANGE_PRIORITY p)) k (λ _ k',
    let L' := if decide (stat z = RT_THREAD_READY) then requeued w p L else L in
    running k' L' ∧ quiet k k' ∧ threads k' = <[w := change_priority p z]> (threads k) ∧
    timers k' = timers k ∧ objects k' = objects k ∧
    ∀ hd, is_wait hd = true → L' !! hd = L !! hd).
Proof.
  intros Hrun Hz Hp. pose proof (rn_inv _ _ Hrun) as Hinv.
  eapply wp_mono; [by apply (wp_change_priority k L w z p)|].
  intros r k' (_ & Hq & Ht & Htm & Ho & Hk). cbv zeta. split_and!; [|done..|].
  - split; [done|rewrite Ht..|].
    + eapply stacks_ok_insert; [apply Hrun|done|done].
    + apply idle_insert; [apply Hrun|]. intros ->. destruct (rn_idle _ _ Hrun) as (y & ? & ?).
      simpl. congruence.
    + rewrite (qt_current _ _ Hq). apply Hrun.
  - intros hd Hw. case_decide as Hs; [|done]. unfold requeued.
    rewrite lookup_enqueue_ne by by destruct hd. destruct (L !! hd) as [l|] eqn:Hl.
    + apply (lookup_detach_wait k L hd l w z); [done..|congruence].
    + by rewrite lookup_detach_ne, Hl by by apply is_wait_not_tlist.
Qed.

Lemma wait_queue_ext L L' hd : L' !! hd = L !! hd → wait_queue L' hd = wait_queue L hd.
Proof. intros E. unfold wait_queue. by rewrite E. Qed.

(** * Taking *)

Section take.
Context {k : kernel} {L : lists} {m t : nat} {x : rt_mutex} {y : rt_thread}.
Hypothesis Hrun : running k L.
Hypothesis Hm : mutex_ok k L m x.
Hypothesis Hb : may_block k t y.

Let k1 : kernel := with_error t RT_EOK y k.

(** The common beginning. *)
Lemma wp_mutex_take_begin time (Q : outcome Z → kernel → Prop) :
  wp (if decide (owner x = Some t) then
        upd_mutex m (λ x, set_hold (u8 (hold x + 1)) x);;
        mret (Return RT_EOK)
      else if 0 <? mutex_value x then
        upd_mutex m (λ x, set_mutex_value (u16 (mutex_value x - 1)) x);;
        y ← get_thread t;
        upd_mutex m (λ x, set_owner (Some t) x);;
        upd_mutex m (λ x, set_original_priority (current_priority y) x);;
        upd_mutex m (λ x, set_hold (u8 (hold x + 1)) x);;
        mret (Return RT_EOK)
      else if time =? 0 then
        upd_thread t (set_error (- RT_ETIMEOUT));;
        mret (Return (- RT_ETIMEOUT))
      else
        y ← get_thread t;
        w ← deref (owner x);
        z ← get_thread w;
        (if current_priority y <? current_priority z then
           rt_thread_control w (RT_THREAD_CTRL_CHANGE_PRIORITY (current_priority y));; mret tt
         else mret tt);;
        o ← get_object (O_mutex m);
        wait_on (N_suspend (O_mutex m)) t (flag o) time;;
        mret (Resched (wait_result t))) k1 Q →
  wp (rt_mutex_take m time) k Q.
Proof.
  intros H. unfold rt_mutex_take. wp_step. eapply wp_thread_context; [done..|].
  destruct Hb as [Hc Hy _ _ _]. unfold rt_thread_self. do 6 wp_step.
  wp_step. eapply wp_upd_thread; [done|]. wp_step. eapply wp_get_mutex; [apply Hm|]. exact H.
Qed.

Lemma mutex_take_recursive time :
  owner x = Some t →
  wp (rt_mutex_take m time) k (λ out k',
    out = Return RT_EOK ∧ k' = with_mutex m (set_hold (u8 (hold x + 1)) x) k1).
Proof.
  intros Ho. apply wp_mutex_take_begin. rewrite decide_True by done.
  wp_step. eapply wp_upd_mutex; [apply Hm|]. by wp_step.
Qed.

Lemma mutex_take_free time :
  owner x = None →
  wp (rt_mutex_take m time) k (λ out k',
    out = Return RT_EOK ∧ k' = with_mutex m (mk_mutex 0 (current_priority y) 1 (Some t)) k1).
Proof.
  intros Ho. apply wp_mutex_take_begin.
  pose proof (mx_owner _ _ _ _ Hm) as Hx. rewrite Ho in Hx. destruct Hx as [Ex _].
  pose proof (mx_mutex _ _ _ _ Hm) as Hmx. rewrite Ex in Hmx |- *.
  rewrite decide_False by done. simpl.
  wp_step. eapply wp_upd_mutex; [exact Hmx|]. wp_step. eapply wp_get_thread; [apply lookup_insert_eq|].
  wp_step. eapply wp_upd_mutex; [apply lookup_insert_eq|].
  wp_step. eapply wp_upd_mutex; [apply lookup_insert_eq|].
  wp_step. eapply wp_upd_mutex; [apply lookup_insert_eq|]. wp_step. split; [done|].
  unfold with_mutex, set_mutexes. simpl. by rewrite !insert_insert_eq.
Qed.

Lemma mutex_take_busy w :
  owner x = Some w → w ≠ t →
  wp (rt_mutex_take m 0) k (λ out k',
    out = Return (- RT_ETIMEOUT) ∧ k' = with_error t (- RT_ETIMEOUT) y k).
Proof.
  intros Ho Hne. pose proof (mx_owner _ _ _ _ Hm) as Hx. rewrite Ho in Hx. destruct Hx as (Hv & _).
  apply wp_mutex_take_begin. rewrite decide_False, Hv by congruence. simpl.
  wp_step. eapply wp_upd_thread; [apply lookup_insert_eq|]. wp_step. split; [done|].
  unfold with_error, set_threads. simpl. by rewrite insert_insert_eq.
Qed.

(** The threads after the owner [w] has inherited the priority of the caller. *)
Definition inherit (w : nat) (z : rt_thread) (p : Z) (ths : gmap nat rt_thread)
    : gmap nat rt_thread :=
  if p <? current_priority z then <[w := change_priority p z]> ths else ths.

Lemma mutex_take_wait w z time :
  owner x = Some w → w ≠ t → threads k !! w = Some z → time ≠ 0 → time < RT_TICK_MAX / 2 →
  wp (rt_mutex_take m time) k (λ out k',
    out = Resched (wait_result t) ∧ ∃ k2 L2,
      running k2 L2 ∧ frame k k2 ∧
      threads k2 = inherit w z (current_priority y) (<[t := set_error RT_EOK y]> (threads k)) ∧
      L2 !! mutex_list m = L !! mutex_list m ∧
      blocks (mutex_list m) (obj_flag k (O_mutex m)) time t (set_error RT_EOK y) k2 L2 k').
Proof.
  intros Ho Hne Hz Htm Htime. apply wp_mutex_take_begin.
  pose proof (mx_owner _ _ _ _ Hm) as Hx. rewrite Ho in Hx. destruct Hx as (Hv & _ & Horg & _ & _).
  destruct (mx_ipc _ _ _ _ Hm) as [HL (b & Hob & Hfl)].
  rewrite decide_False, Hv by congruence. simpl. rewrite (proj2 (Z.eqb_neq _ _) Htm).
  destruct Hb as [Hc Hy Hs Hid Hn].
  assert (running k1 L) as Hrun1 by by apply running_with_error.
  assert (threads k1 !! t = Some (set_error RT_EOK y)) as Hy1 by apply lookup_insert_eq.
  wp_step. eapply wp_get_thread; [exact Hy1|]. rewrite Ho. wp_step. wp_step.
  wp_step. eapply wp_get_thread; [simpl; rewrite lookup_insert_ne by done; exact Hz|].
  assert (∀ k2 L2, running k2 L2 → quiet k1 k2 → objects k2 = objects k1 →
    threads k2 = inherit w z (current_priority y) (<[t := set_error RT_EOK y]> (threads k)) →
    L2 !! mutex_list m = L !! mutex_list m →
    wp (o ← get_object (O_mutex m);
        wait_on (N_suspend (O_mutex m)) t (flag o) time;;
        mret (Resched (wait_result t))) k2 (λ out k', out = Resched (wait_result t) ∧ ∃ k2 L2,
      running k2 L2 ∧ frame k k2 ∧
      threads k2 = inherit w z (current_priority y) (<[t := set_error RT_EOK y]> (threads k)) ∧
      L2 !! mutex_list m = L !! mutex_list m ∧
      blocks (mutex_list m) (obj_flag k (O_mutex m)) time t (set_error RT_EOK y) k2 L2 k')) as Hgo.
  { intros k2 L2 Hr2 Hq2 Hob2 Ht2 HL2.
    wp_step. eapply wp_get_object; [rewrite Hob2; exact Hob|].
    assert (threads k2 !! t = Some (set_error RT_EOK y)) as Hy2.
    { rewrite Ht2. unfold inherit. case_match; rewrite ?lookup_insert_ne by done; apply lookup_insert_eq. }
    wp_step. wp_use (wp_wait_on k2 L2 (mutex_list m) t (set_error RT_EOK y) (flag b) time)
      as [_ Hbl]; [done|done|by rewrite HL2|done..|].
    wp_step. split; [done|]. exists k2, L2. unfold obj_flag. rewrite Hob. split_and!; try done.
    etrans; [|apply Hq2]. by split. }
  simpl. wp_step. destruct (Z.ltb_spec (current_priority y) (current_priority z)) as [Hlt|Hge].
  - wp_step. wp_use (wp_running_priority k1 L w z (current_priority y)) as (Hr & Hq & Ht & _ & Hobj & Hw).
    + done.
    + simpl. by rewrite lookup_insert_ne.
    + by apply (prio_range _ _ _ _ (rn_inv _ _ Hrun) Hy).
    + wp_step. eapply Hgo; [exact Hr|done|done| |by apply Hw].
      unfold inherit. by rewrite (proj2 (Z.ltb_lt _ _) Hlt).
  - wp_step. apply (Hgo k1 L); [done..| |done].
    unfold inherit. by rewrite (proj2 (Z.ltb_ge _ _) Hge).
Qed.
End take.

(** * Releasing *)

Section release.
Context {k : kernel} {L : lists} {m t : nat} {x : rt_mutex} {y : rt_thread}.
Hypothesis Hrun : running k L.
Hypothesis Hm : mutex_ok k L m x.
Hypothesis Hb : may_block k t y.

Lemma mutex_release_foreign :
  owner x ≠ Some t →
  wp (rt_mutex_release m) k (λ r k', r = - RT_ERROR ∧ k' = with_error t (- RT_ERROR) y k).
Proof.
  intros Ho. unfold rt_mutex_release. wp_step. eapply wp_thread_context; [done..|].
  destruct Hb as [Hc Hy _ _ _]. unfold rt_thread_self. do 6 wp_step.
  wp_step. eapply wp_get_mutex; [apply Hm|]. rewrite decide_True by done.
  wp_step. eapply wp_upd_thread; [done|]. by wp_step.
Qed.

Lemma mutex_release_nested :
  owner x = Some t → 1 < hold x →
  wp (rt_mutex_release m) k (λ r k',
    r = RT_EOK ∧ k' = with_mutex m (set_hold (hold x - 1) x) k).
Proof.
  intros Ho Hh. pose proof (mx_owner _ _ _ _ Hm) as Hx. rewrite Ho in Hx. destruct Hx as (_ & Hr & _).
  unfold rt_mutex_release. wp_step. eapply wp_thread_context; [done..|].
  destruct Hb as [Hc Hy _ _ _]. unfold rt_thread_self. do 6 wp_step.
  wp_step. eapply wp_get_mutex; [apply Hm|]. rewrite decide_False by naive_solver.
  wp_step. eapply wp_upd_mutex; [apply Hm|]. wp_step. eapply wp_get_mutex; [apply lookup_insert_eq|].
  simpl. rewrite u8_small by lia. rewrite (proj2 (Z.eqb_neq _ _)) by lia. by wp_step.
Qed.

(** The last release, up to the hand-over: the priority is restored. *)
Definition restored (p : Z) (ths : gmap nat rt_thread) : gmap nat rt_thread :=
  if p =? current_priority y then ths else <[t := change_priority p y]> ths.

Lemma wp_mutex_release_last (Q : Z → kernel → Prop) :
  owner x = Some t → hold x = 1 →
  (∀ k2 L2, running k2 L2 → frame (with_mutex m (set_hold 0 x) k) k2 →
     threads k2 = restored (original_priority x) (threads k) → timers k2 = timers k →
     rt_current_thread k2 = rt_current_thread k →
     (∀ hd, is_wait hd = true → L2 !! hd = L !! hd) →
     wp (e ← on_heap (rt_list_isempty (N_suspend (O_mutex m)));
         if negb e then
           n ← on_heap (rd_next (N_suspend (O_mutex m)));
           w ← deref (tlist_entry n);
           z ← get_thread w;
           upd_mutex m (λ x, set_owner (Some w) x);;
           upd_mutex m (λ x, set_original_priority (current_priority z) x);;
           upd_mutex m (λ x, set_hold (u8 (hold x + 1)) x);;
           rt_ipc_list_resume (N_suspend (O_mutex m));;
           rt_schedule;;
           mret RT_EOK
         else
           upd_mutex m (λ x, set_mutex_value (u16 (mutex_value x + 1)) x);;
           upd_mutex m (λ x, set_owner None x);;
           upd_mutex m (λ x, set_original_priority 0xff x);;
           mret RT_EOK) k2 Q) →
  wp (rt_mutex_release m) k Q.
Proof.
  intros Ho Hh Hgo. pose proof (mx_owner _ _ _ _ Hm) as Hx. rewrite Ho in Hx.
  destruct Hx as (_ & _ & Horg & _).
  unfold rt_mutex_release. wp_step. eapply wp_thread_context; [done..|].
  destruct Hb as [Hc Hy _ _ _]. unfold rt_thread_self. do 6 wp_step.
  wp_step. eapply wp_get_mutex; [apply Hm|]. rewrite decide_False by naive_solver.
  wp_step. eapply wp_upd_mutex; [apply Hm|]. wp_step. eapply wp_get_mutex; [apply lookup_insert_eq|].
  simpl. rewrite Hh. simpl (u8 (1 - 1) =? 0). cbv iota. change (u8 (1 - 1)) with 0.
  wp_step. eapply wp_get_thread; [exact Hy|]. simpl.
  set (k1 := set_mutexes (<[m:=set_hold 0 x]> (mutexes k)) k).
  assert (running k1 L) as Hrun1 by (split; apply Hrun). unfold restored in Hgo.
  wp_step. destruct (Z.eqb_spec (original_priority x) (current_priority y)); simpl.
  - wp_step. by apply (Hgo k1 L).
  - wp_step. wp_use (wp_running_priority k1 L t y (original_priority x) Hrun1 Hy Horg)
      as (Hr & Hq & Ht & Htm & Hobj & Hw).
    wp_step. eapply Hgo; [exact Hr|apply Hq|done|done|by rewrite (qt_current _ _ Hq)|exact Hw].
Qed.

Lemma mutex_release_free :
  owner x = Some t → hold x = 1 → wait_queue L (mutex_list m) = [] →
  wp (rt_mutex_release m) k (λ r k', r = RT_EOK ∧
    mutexes k' = <[m := mutex_free]> (mutexes k) ∧
    threads k' = restored (original_priority x) (threads k) ∧
    rt_current_thread k' = rt_current_thread k ∧
    ∃ L', running k' L' ∧ mutex_ok k' L' m mutex_free).
Proof.
  intros Ho Hh Hq. pose proof (mx_owner _ _ _ _ Hm) as Hx. rewrite Ho in Hx. destruct Hx as (Hv & _).
  apply wp_mutex_release_last; [done..|]. intros k2 L2 Hr2 Hf2 Ht2 Htm2 Hc2 Hw2.
  pose proof (Hw2 (mutex_list m) eq_refl) as HL2.
  pose proof (fr_mutexes _ _ Hf2) as Hmx. simpl in Hmx.
  wp_step. eapply (wp_wait_isempty k2 L2); [apply Hr2|done| |].
  { fold (mutex_list m). rewrite HL2. apply Hm. }
  fold (mutex_list m). rewrite (wait_queue_ext L), Hq by done. simpl.
  wp_step. eapply wp_upd_mutex; [rewrite Hmx; apply lookup_insert_eq|].
  wp_step. eapply wp_upd_mutex; [apply lookup_insert_eq|].
  wp_step. eapply wp_upd_mutex; [apply lookup_insert_eq|]. wp_step.
  assert (set_original_priority 255 (set_owner None (set_mutex_value
    (u16 (mutex_value (set_hold 0 x) + 1)) (set_hold 0 x))) = mutex_free) as ->.
  { unfold mutex_free. destruct x. simpl in *. by subst. }
  split_and!; [done| |done|done|].
  - simpl. rewrite !insert_insert_eq, Hmx. by rewrite insert_insert_eq.
  - exists L2. split; [by split; apply Hr2|]. apply mutex_ok_free.
    + apply lookup_insert_eq.
    + eapply ipc_ok_objects; [apply Hm| |].
      * simpl. by rewrite (fr_objects _ _ Hf2).
      * fold (mutex_list m). rewrite HL2. apply Hm.
    + by rewrite (wait_queue_ext L).
Qed.

Lemma mutex_release_handover u q :
  owner x = Some t → hold x = 1 → wait_queue L (mutex_list m) = u :: q →
  wp (rt_mutex_release m) k (λ r k', r = RT_EOK ∧ ∃ z L',
    threads k !! u = Some z ∧ u ≠ t ∧ stat z = RT_THREAD_SUSPEND ∧
    mutexes k' = <[m := mk_mutex 0 (current_priority z) 1 (Some u)]> (mutexes k) ∧
    threads k' = <[u := set_stat RT_THREAD_READY z]> (restored (original_priority x) (threads k)) ∧
    running k' L' ∧ wait_queue L' (mutex_list m) = q ∧
    mutex_ok k' L' m (mk_mutex 0 (current_priority z) 1 (Some u)) ∧
    rt_current_thread k' = elected k L').
Proof.
  intros Ho Hh Hq. pose proof (mx_owner _ _ _ _ Hm) as Hx. rewrite Ho in Hx.
  destruct Hx as (Hv & _ & _ & _ & Hnw).
  apply wp_mutex_release_last; [done..|]. intros k2 L2 Hr2 Hf2 Ht2 Htm2 Hc2 Hw2.
  pose proof (Hw2 (mutex_list m) eq_refl) as HL2.
  assert (wait_queue L2 (mutex_list m) = u :: q) as Hq2 by by rewrite (wait_queue_ext L).
  pose proof (fr_mutexes _ _ Hf2) as Hmx. simpl in Hmx.
  assert (u ≠ t) as Hne by (intros ->; apply Hnw; rewrite Hq; set_solver).
  destruct (wait_head k2 L2 (mutex_list m) u q (rn_inv _ _ Hr2) eq_refl Hq2) as (Hl & Hnd & z & Hz & Hs).
  assert (threads k !! u = Some z) as Hzk.
  { rewrite Ht2 in Hz. unfold restored in Hz. case_match; [done|].
    by rewrite lookup_insert_ne in Hz by done. }
  wp_step. eapply (wp_wait_isempty k2 L2); [apply Hr2|done|exact (mk_is_Some _ _ Hl)|].
  fold (mutex_list m). rewrite Hq2. simpl.
  wp_step. eapply wp_rd_next_kernel; [apply Hr2|exact Hl|]. simpl. wp_step. wp_step.
  wp_step. eapply wp_get_thread; [exact Hz|].
  wp_step. eapply wp_upd_mutex; [rewrite Hmx; apply lookup_insert_eq|].
  wp_step. eapply wp_upd_mutex; [apply lookup_insert_eq|].
  wp_step. eapply wp_upd_mutex; [apply lookup_insert_eq|].
  match goal with |- context [set_hold ?a ?b] =>
    assert (set_hold a b = mk_mutex 0 (current_priority z) 1 (Some u)) as -> end.
  { destruct x. simpl in *. by subst. }
  match goal with |- wp _ ?s _ => set (k3 := s) end.
  assert (running k3 L2) as Hr3 by (split; apply Hr2).
  assert (mutexes k3 = <[m := mk_mutex 0 (current_priority z) 1 (Some u)]> (mutexes k)) as Hmx3.
  { simpl. rewrite !insert_insert_eq, Hmx. by rewrite insert_insert_eq. }
  apply wp_assoc. wp_step.
  wp_use (wp_signal k3 L2 (mutex_list m) u q Hr3 eq_refl Hq2) as (z' & Hz' & _ & Hr & Hf & Hq' & Ht & Htm & Hc).
  simpl in Hz', Ht. assert (z' = z) as -> by congruence. wp_step. split; [done|].
  exists z, (resumed u (current_priority z) L2).
  split_and!; [done|done|done|by rewrite (fr_mutexes _ _ Hf)|by rewrite Ht, Ht2|done|done| |].
  - split.
    + rewrite (fr_mutexes _ _ Hf), Hmx3. apply lookup_insert_eq.
    + eapply ipc_ok_objects; [apply Hm| |].
      * rewrite (fr_objects _ _ Hf) by done. simpl. by rewrite (fr_objects _ _ Hf2).
      * apply is_Some_resumed; [done|]. fold (mutex_list m). by rewrite Hl.
    + simpl. split_and!; [done|lia|lia| | | |].
      * by apply (prio_range _ _ _ _ (rn_inv _ _ Hr2) Hz).
      * by apply (prio_range _ _ _ _ (rn_inv _ _ Hr2) Hz).
      * rewrite Ht, lookup_insert_eq. eauto.
      * rewrite Hq'. by apply NoDup_cons in Hnd as [? _].
  - rewrite Hc. unfold elected. simpl. by rewrite Hc2, (fr_lock _ _ Hf2).
Qed.
End release.

(** * Properties *)

(** C3: [rt_mutex_take], on every path.  The owner takes it again and only the
    hold count grows (modulo 2^8); a free mutex gets the caller as its owner, with
    its priority remembered; a mutex of another thread gives [-RT_ETIMEOUT] to a
    caller that does not wait, and suspends a caller that waits, after the owner
    has inherited the caller's priority. *)
Theorem rt_mutex_take_spec k L m x t y time :
  running k L → mutex_ok k L m x → may_block k t y → time < RT_TICK_MAX / 2 →
  wp (rt_mutex_take m time) k (λ out k',
    let k1 := with_error t RT_EOK y k in
    match owner x with
    | None => out = Return RT_EOK ∧
        k' = with_mutex m (mk_mutex 0 (current_priority y) 1 (Some t)) k1
    | Some w =>
        if decide (w = t) then
          out = Return RT_EOK ∧ k' = with_mutex m (set_hold (u8 (hold x + 1)) x) k1
        else if time =? 0 then
          out = Return (- RT_ETIMEOUT) ∧ k' = with_error t (- RT_ETIMEOUT) y k
        else out = Resched (wait_result t) ∧ ∃ z k2 L2,
          threads k !! w = Some z ∧ running k2 L2 ∧ frame k k2 ∧
          threads k2 = inherit w z (current_priority y) (threads k1) ∧
          blocks (mutex_list m) (obj_flag k (O_mutex m)) time t (set_error RT_EOK y) k2 L2 k'
    end).
Proof.
  intros Hrun Hm Hb Htime. pose proof (mx_owner _ _ _ _ Hm) as Hx.
  destruct (owner x) as [w|] eqn:Ho; [|by apply (mutex_take_free Hrun Hm Hb)].
  destruct Hx as (_ & _ & _ & [z Hz] & _). destruct (decide (w = t)) as [->|Hne].
  { by apply (mutex_take_recursive Hrun Hm Hb). }
  destruct (Z.eqb_spec time 0) as [->|Hn]; [by apply (mutex_take_busy Hrun Hm Hb w)|].
  eapply wp_mono; [by apply (mutex_take_wait Hrun Hm Hb w z time)|].
  intros out k' (-> & k2 & L2 & ? & ? & ? & _ & ?). split; [done|]. by exists z, k2, L2.
Qed.

(** Priority inheritance: when a thread begins to wait for a mutex, the owner gets a
    priority at least as high as the waiter's; the waiter is in the queue of the mutex and
    the mutex still has the same owner.  It need not last: see
    [release_loses_inheritance]. *)
Theorem rt_mutex_take_inherits k L m x t y w time :
  running k L → mutex_ok k L m x → may_block k t y → owner x = Some w → w ≠ t →
  time ≠ 0 → time < RT_TICK_MAX / 2 →
  wp (rt_mutex_take m time) k (λ _ k', ∃ L',
    running k' L' ∧ t ∈ wait_queue L' (mutex_list m) ∧ mutexes k' !! m = Some x ∧
    prio (threads k') w = Z.min (prio (threads k) w) (prio (threads k) t) ∧
    prio (threads k') t = prio (threads k) t).
Proof.
  intros Hrun Hm Hb Ho Hne Hn Htime. pose proof (mx_owner _ _ _ _ Hm) as Hx. rewrite Ho in Hx.
  destruct Hx as (_ & _ & _ & [z Hz] & _).
  eapply wp_mono; [by apply (mutex_take_wait Hrun Hm Hb w z time)|].
  intros out k' (-> & k2 & L2 & Hr2 & Hf2 & Ht2 & _ & Hbl).
  pose proof (mb_thread _ _ _ Hb) as Hy. pose proof (blocks_running Hbl) as Hr.
  destruct Hbl as [_ Hf Ht _ _ _].
  eexists. split_and!; [exact Hr| | | |].
  - rewrite wait_queue_blocked by done. apply elem_of_insert_wait. by left.
  - rewrite (fr_mutexes _ _ Hf), (fr_mutexes _ _ Hf2). apply Hm.
  - unfold prio. rewrite Ht, Hz, Hy, lookup_insert_ne by done. rewrite Ht2. unfold inherit.
    destruct (Z.ltb_spec (current_priority y) (current_priority z)).
    + rewrite lookup_insert_eq. simpl. lia.
    + rewrite lookup_insert_ne, Hz by done. lia.
  - unfold prio. by rewrite Ht, lookup_insert_eq, Hy.
Qed.

(** C4: [rt_mutex_release], on every path.  A thread that is not the owner gets
    [-RT_ERROR] and changes nothing but its error code; the owner of a nested
    mutex holds it once less; the last release restores the owner's priority and
    gives the mutex to the first waiter, who becomes ready, or frees it. *)
Theorem rt_mutex_release_spec k L m x t y :
  running k L → mutex_ok k L m x → may_block k t y →
  wp (rt_mutex_release m) k (λ r k',
    if decide (owner x ≠ Some t) then r = - RT_ERROR ∧ k' = with_error t (- RT_ERROR) y k
    else if decide (1 < hold x) then
      r = RT_EOK ∧ k' = with_mutex m (set_hold (hold x - 1) x) k
    else r = RT_EOK ∧ ∃ L', running k' L' ∧
      match wait_queue L (mutex_list m) with
      | [] => mutex_ok k' L' m mutex_free ∧
          threads k' = @restored t y (original_priority x) (threads k)
      | u :: q => ∃ z, threads k !! u = Some z ∧ u ≠ t ∧
          mutex_ok k' L' m (mk_mutex 0 (current_priority z) 1 (Some u)) ∧
          wait_queue L' (mutex_list m) = q ∧
          threads k' = <[u := set_stat RT_THREAD_READY z]>
                         (@restored t y (original_priority x) (threads k)) ∧
          rt_current_thread k' = elected k L'
      end).
Proof.
  intros Hrun Hm Hb. case_decide as Ho; [by apply (mutex_release_foreign Hrun Hm Hb)|].
  pose proof (mx_owner _ _ _ _ Hm) as Hx. rewrite Ho in Hx.
  destruct Hx as (_ & Hh & _). case_decide as Hn; [by apply (mutex_release_nested Hrun Hm Hb)|].
  assert (hold x = 1) as H1 by lia. destruct (wait_queue L (mutex_list m)) as [|u q] eqn:Hq.
  - eapply wp_mono; [by apply (mutex_release_free Hrun Hm Hb)|].
    intros ? k' (-> & _ & Ht & _ & L' & Hr & Hok). split; [done|]. by exists L'.
  - eapply wp_mono; [by apply (mutex_release_handover Hrun Hm Hb u q)|].
    intros ? k' (-> & z & L' & Hz & Hne & _ & _ & Ht & Hr & Hwq & Hok & Hc).
    split; [done|]. exists L'. split; [done|]. by exists z.
Qed.

(** The mutex invariant (at most one owner, who holds it between 1 and 255
    times and does not wait for it; no waiter while it is free) is kept by taking,
    as long as the hold count does not overflow. *)
Theorem rt_mutex_take_invariant k L m x t y time :
  running k L → mutex_ok k L m x → may_block k t y → time < RT_TICK_MAX / 2 →
  (owner x = Some t → hold x < 255) →
  wp (rt_mutex_take m time) k (λ _ k', ∃ L' x', running k' L' ∧ mutex_ok k' L' m x' ∧
    (owner x' = owner x ∨ owner x = None ∧ owner x' = Some t)).
Proof.
  intros Hrun Hm Hb Htime Hhold. pose proof (mb_thread _ _ _ Hb) as Hy.
  assert (∀ e, running (with_error t e y k) L) as Hre by (intros; by apply running_with_error).
  pose proof (mx_owner _ _ _ _ Hm) as Hx. destruct (owner x) as [w|] eqn:Ho.
  - destruct Hx as (Hv & Hh & Horg & [z Hz] & Hnw). destruct (decide (w = t)) as [->|Hne].
    + eapply wp_mono; [by apply (mutex_take_recursive Hrun Hm Hb)|]. intros ? k' [_ ->].
      exists L, (set_hold (u8 (hold x + 1)) x). split; [split; apply (Hre RT_EOK)|]. split; [|by left].
      split; [apply lookup_insert_eq|apply Hm|]. simpl. rewrite Ho.
      rewrite u8_small by (specialize (Hhold eq_refl); lia). specialize (Hhold eq_refl).
      split_and!; [done|lia|lia|lia|lia|rewrite lookup_insert_eq; eauto|done].
    + destruct (Z.eqb_spec time 0) as [->|Hn].
      * eapply wp_mono; [by apply (mutex_take_busy Hrun Hm Hb w)|]. intros ? k' [_ ->].
        exists L, x. split; [apply Hre|]. split; [|by left]. destruct Hm as [? ? ?].
        split; [done|done|]. rewrite Ho. split_and!; try done; try lia.
        by apply is_Some_insert_thread.
      * eapply wp_mono; [by apply (mutex_take_wait Hrun Hm Hb w z time)|].
        intros ? k' (_ & k2 & L2 & Hr2 & Hf2 & Ht2 & HL2 & Hbl).
        eexists _, x. split; [exact (blocks_running Hbl)|]. split; [|by left].
        pose proof (bl_frame Hbl) as Hf.
        split; [rewrite (fr_mutexes _ _ Hf), (fr_mutexes _ _ Hf2); apply Hm| |].
        -- eapply ipc_ok_frame; [apply Hm|by etrans|done|].
           apply is_Some_blocked; [done..|]. fold (mutex_list m). rewrite HL2. apply Hm.
        -- rewrite Ho. split_and!; try done; try lia.
           ++ rewrite (bl_threads Hbl), Ht2. apply is_Some_insert_thread.
              unfold inherit. case_match; repeat apply is_Some_insert_thread; eauto.
           ++ rewrite wait_queue_blocked by done. rewrite elem_of_insert_wait.
              rewrite (wait_queue_ext L) by done. naive_solver.
  - eapply wp_mono; [by apply (mutex_take_free Hrun Hm Hb)|]. intros ? k' [_ ->].
    destruct Hx as [Ex Hq]. exists L, (mk_mutex 0 (current_priority y) 1 (Some t)). split; [split; apply (Hre RT_EOK)|].
    split; [|by right]. split; [apply lookup_insert_eq|apply Hm|]. simpl.
    pose proof (prio_range _ _ _ _ (rn_inv _ _ Hrun) Hy).
    rewrite Hq. split_and!; [done|lia|lia|lia|lia|rewrite lookup_insert_eq; eauto|set_solver].
Qed.

(** * Instances *)

Definition mutex_demo : kernel := run (rt_mutex_init 0 "lock" RT_IPC_FLAG_PRIO) booted.

Lemma mutex_demo_ok : mutex_ok mutex_demo (lists_at mutex_demo) 0 mutex_free.
Proof. split; [by vm_compute|apply ipc_ok_b_spec; by vm_compute|by vm_compute]. Qed.

(** The logger (priority 12) owns the mutex and the main thread (priority 10)
    runs. *)
Definition owned : rt_mutex := mk_mutex 0 12 1 (Some 4%nat).
Definition owned_demo : kernel := with_mutex 0 owned mutex_demo.

Lemma owned_demo_ok : mutex_ok owned_demo (lists_at owned_demo) 0 owned.
Proof.
  split; [by vm_compute|apply ipc_ok_b_spec; by vm_compute|].
  cbv beta iota delta [owned owner mutex_value hold original_priority].
  replace (wait_queue (lists_at owned_demo) (mutex_list 0)) with (@nil nat) by (by vm_compute).
  split; [reflexivity|]. split; [lia|]. split; [by unfold RT_THREAD_PRIORITY_MAX|].
  split; [exists (thread_at owned_demo 4); by vm_compute|apply not_elem_of_nil].
Qed.

Lemma owned_demo_running : running owned_demo (lists_at owned_demo).
Proof. apply running_b_spec. by vm_compute. Qed.

Lemma owned_demo_may_block : may_block owned_demo 2 (thread_at owned_demo 2).
Proof. apply may_block_b_spec. by vm_compute. Qed.

Lemma rt_mutex_take_witness :
  wp (rt_mutex_take 0 0) owned_demo (λ out _, out = Return (- RT_ETIMEOUT)).
Proof.
  eapply wp_mono.
  - apply (rt_mutex_take_spec owned_demo (lists_at owned_demo) 0 owned 2 (thread_at owned_demo 2) 0).
    + exact owned_demo_running.
    + exact owned_demo_ok.
    + exact owned_demo_may_block.
    + done.
  - by intros out k' [-> _].
Defined.

Lemma rt_mutex_take_inherits_witness :
  wp (rt_mutex_take 0 RT_WAITING_FOREVER) owned_demo (λ _ k', prio (threads k') 4 = 10).
Proof.
  eapply wp_mono.
  - apply (rt_mutex_take_inherits owned_demo (lists_at owned_demo) 0 owned 2
             (thread_at owned_demo 2) 4 RT_WAITING_FOREVER).
    + exact owned_demo_running.
    + exact owned_demo_ok.
    + exact owned_demo_may_block.
    + done.
    + done.
    + done.
    + done.
  - intros out k' (L' & _ & _ & _ & H & _). rewrite H. by vm_compute.
Defined.

Lemma rt_mutex_release_witness :
  wp (rt_mutex_release 0) owned_demo (λ r _, r = - RT_ERROR).
Proof.
  eapply wp_mono.
  - apply (rt_mutex_release_spec owned_demo (lists_at owned_demo) 0 owned 2 (thread_at owned_demo 2)).
    + exact owned_demo_running.
    + exact owned_demo_ok.
    + exact owned_demo_may_block.
  - by intros out k' [-> _].
Defined.

Lemma rt_mutex_take_invariant_witness :
  wp (rt_mutex_take 0 0) owned_demo (λ _ k', ∃ L' x', mutex_ok k' L' 0 x').
Proof.
  eapply wp_mono.
  - apply (rt_mutex_take_invariant owned_demo (lists_at owned_demo) 0 owned 2 (thread_at owned_demo 2) 0).
    + exact owned_demo_running.
    + exact owned_demo_ok.
    + exact owned_demo_may_block.
    + done.
    + done.
  - intros out k' (L' & x' & _ & H & _). by exists L', x'.
Defined.

(** The logger owns two mutexes and both other threads wait for the first: it runs at their
    priority.  When it releases the second it falls back to its own priority, with the two
    still waiting. *)
Definition two_mutexes : kernel :=
  with_mutex 0 owned (with_mutex 1 owned
    (run (rt_mutex_init 0 "lock" RT_IPC_FLAG_PRIO;; rt_mutex_init 1 "other" RT_IPC_FLAG_PRIO)
      (set_heap (heap booted ∪ static_heap [O_mutex 1]) booted))).
Definition contended : kernel :=
  run (rt_mutex_take 0 RT_WAITING_FOREVER;; rt_mutex_take 0 RT_WAITING_FOREVER) two_mutexes.

Example release_loses_inheritance :
  rt_current_thread contended = Some 4%nat ∧ prio (threads contended) 4 = 10 ∧
  wait_queue (lists_at contended) (mutex_list 0) = [2; 3]%nat ∧
  wp (rt_mutex_release 1) contended (λ r k', r = RT_EOK ∧ prio (threads k') 4 = 12 ∧
    owner <$> mutexes k' !! 0%nat = Some (Some 4%nat) ∧
    wait_queue (lists_at k') (mutex_list 0) = [2; 3]%nat).
Proof. split_and!; by vm_compute. Qed.
