(* ===== verification/Event.v ===== *)
(** The event set of [src/ipc.c]: which threads [rt_event_send] wakes, what
    [rt_event_recv] consumes, and the invariant that no thread waits for events
    that are present. *)

From Stdlib Require Import ZArith Lia.
From stdpp Require Import numbers strings base gmap list.
From S2P Require Import Prelude RtList Bitmap Kernel Scheduler Object Timer Thread Ipc.
From S2P Require Import Invariant ThreadSpec Check Demo TimerSpec ThreadRun IpcSpec.
Local Open Scope Z_scope.

Definition event_list (e : nat) : node := N_suspend (O_event e).

(** * The reference: one scan of the waiting threads *)

(** What a thread waits for, bit by bit: all of its events (bit 0 of [event_info], which
    takes precedence), or at least one of them (bit 1); with neither it waits for ever. *)
Definition satisfied (x : rt_thread) (s : Z) : Prop :=
  if Z.testbit (event_info x) 0
  then ∀ i, 0 <= i → Z.testbit (event_set x) i = true → Z.testbit s i = true
  else Z.testbit (event_info x) 1 = true ∧
    ∃ i, 0 <= i ∧ Z.testbit (event_set x) i = true ∧ Z.testbit s i = true.

Lemma land_subset a s : Z.land a s = a ↔ ∀ i, 0 <= i → Z.testbit a i = true → Z.testbit s i = true.
Proof.
  split.
  - intros E i _ Ha. rewrite <- E, Z.land_spec in Ha. by apply andb_true_iff in Ha as [_ ?].
  - intros H. apply Z.bits_inj'. intros i Hi. rewrite Z.land_spec. specialize (H i Hi).
    destruct (Z.testbit a i); [by rewrite H|done].
Qed.

Lemma land_overlap a s : Z.land a s ≠ 0 ↔ ∃ i, 0 <= i ∧ Z.testbit a i = true ∧ Z.testbit s i = true.
Proof.
  split.
  - intros H. assert (∃ i, 0 <= i ∧ Z.testbit (Z.land a s) i = true) as (i & Hi & Hb).
    { destruct (Z.lt_trichotomy (Z.land a s) 0) as [Hn|[|Hp]]; [|done|].
      - exists (Z.log2 (Z.pred (- Z.land a s)) + 1). pose proof (Z.log2_nonneg (Z.pred (- Z.land a s))).
        split; [lia|]. apply Z.bits_above_log2_neg; lia.
      - exists (Z.log2 (Z.land a s)). split; [apply Z.log2_nonneg|by apply Z.bit_log2]. }
    rewrite Z.land_spec in Hb. apply andb_true_iff in Hb. by exists i.
  - intros (i & _ & Ha & Hs) E. apply (f_equal (λ z, Z.testbit z i)) in E. by rewrite Z.land_spec, Ha, Hs, Z.bits_0 in E.
Qed.

Lemma testbit_flag_b opt i : 0 <= i → negb (Z.land opt (2 ^ i) =? 0) = Z.testbit opt i.
Proof. intros. by rewrite land_pow2_eqb, negb_involutive. Qed.

#[export] Instance satisfied_dec x s : Decision (satisfied x s).
Proof.
  unfold satisfied. destruct (Z.testbit (event_info x) 0).
  - destruct (decide (Z.land (event_set x) s = event_set x)) as [H|H]; [left|right]; by rewrite <- land_subset.
  - destruct (Z.testbit (event_info x) 1); [|right; by intros [? _]].
    destruct (decide (Z.land (event_set x) s = 0)) as [H|H]; [right; intros [_ Hn]; by apply land_overlap in Hn|left].
    split; [done|by apply land_overlap].
Defined.

(** The test of the code is that condition, and yields the events that the thread waits for
    and that are present. *)
Lemma event_match_spec x s :
  event_match x s = if decide (satisfied x s) then Some (Z.land (event_set x) s) else None.
Proof.
  unfold event_match. change RT_EVENT_FLAG_AND with (2 ^ 0). change RT_EVENT_FLAG_OR with (2 ^ 1).
  rewrite !testbit_flag_b by lia. destruct (decide (satisfied x s)) as [H|H]; unfold satisfied in H.
  - destruct (Z.testbit (event_info x) 0).
    + apply land_subset in H. by rewrite H, Z.eqb_refl.
    + destruct H as [-> H%land_overlap]. by rewrite (proj2 (Z.eqb_neq _ _) H).
  - destruct (Z.testbit (event_info x) 0).
    + destruct (Z.eqb_spec (Z.land (event_set x) s) (event_set x)) as [E|]; [|done]. destruct H. by apply land_subset.
    + destruct (Z.testbit (event_info x) 1); [|done]. destruct (Z.eqb_spec (Z.land (event_set x) s) 0); [done|].
      destruct H. split; [done|by apply land_overlap].
Qed.

(** The event set, the threads and the lists. *)
Record scan := mk_scan {
  sc_set : Z;
  sc_threads : gmap nat rt_thread;
  sc_lists : lists;
  sc_woken : bool
}.

(** A waiting thread is woken if its condition holds, and gets the events it waits for that
    are present; those it asked to clear (bit 2) are not seen by the threads behind it. *)
Definition scan_step (st : scan) (t : nat) : scan :=
  match sc_threads st !! t with
  | None => st
  | Some x =>
      if decide (satisfied x (sc_set st)) then
        let v := Z.land (event_set x) (sc_set st) in
        mk_scan
          (if Z.testbit (event_info x) 2 then Z.land (sc_set st) (u32 (Z.lnot v)) else sc_set st)
          (<[t := set_stat RT_THREAD_READY (set_event_set v x)]> (sc_threads st))
          (resumed t (current_priority x) (sc_lists st))
          true
      else st
  end.

Lemma scan_step_match st t x :
  sc_threads st !! t = Some x →
  scan_step st t = match event_match x (sc_set st) with
    | None => st
    | Some v => mk_scan
        (if Z.testbit (event_info x) 2 then Z.land (sc_set st) (u32 (Z.lnot v)) else sc_set st)
        (<[t := set_stat RT_THREAD_READY (set_event_set v x)]> (sc_threads st))
        (resumed t (current_priority x) (sc_lists st)) true
    end.
Proof. intros Hx. unfold scan_step. rewrite Hx, event_match_spec. by case_decide. Qed.

(** * The loop *)

Lemma wp_event_loop e fuel q1 q2 k L s w :
  running k L → events k !! e = Some (mk_event s) → is_Some (L !! event_list e) →
  wait_queue L (event_list e) = q1 ++ q2 → (length q2 < fuel)%nat →
  let st := foldl scan_step (mk_scan s (threads k) L w) q2 in
  wp (event_send_loop fuel e (default (event_list e) (head (N_tlist <$> q2))) w) k (λ b k',
    b = sc_woken st ∧ running k' (sc_lists st) ∧ threads k' = sc_threads st ∧
    events k' = <[e := mk_event (sc_set st)]> (events k) ∧ timers k' = timers k ∧
    objects k' !! O_event e = objects k !! O_event e ∧
    rt_current_thread k' = rt_current_thread k ∧
    rt_scheduler_lock_nest k' = rt_scheduler_lock_nest k ∧
    is_Some (sc_lists st !! event_list e)).
Proof.
  revert fuel q1 k L s w. induction q2 as [|t q2 IH]; intros fuel q1 k L s w Hrun He HL Hq Hf;
    (destruct fuel as [|fuel]; [simpl in Hf; lia|]).
  { simpl. rewrite decide_True by done. wp_step. split_and!; try done. by rewrite insert_id. }
  pose proof (rn_inv _ _ Hrun) as Hinv. destruct HL as [l Hl].
  pose proof (wait_list_nodes L (event_list e) l (ko_typed _ _ _ _ _ _ Hinv) eq_refl Hl) as El.
  rewrite Hq, fmap_app in El. csimpl in El.
  destruct (wait_queue_suspended k L (event_list e) t Hinv eq_refl) as (x & Hx & Hs).
  { rewrite Hq. set_solver. }
  simpl. wp_step. wp_step.
  wp_step. eapply wp_get_thread; [done|]. wp_step. eapply wp_get_event; [done|].
  simpl. destruct (event_match x s) as [v|] eqn:Em.
  - (* woken *)
    set (x1 := set_event_set v x).
    set (s' := if Z.testbit (event_info x) 2 then Z.land s (u32 (Z.lnot v)) else s).
    assert (scan_step (mk_scan s (threads k) L w) t
      = mk_scan s' (<[t := set_stat RT_THREAD_READY x1]> (threads k))
          (resumed t (current_priority x) L) true) as ->.
    { rewrite (scan_step_match _ _ x) by done. simpl. by rewrite Em. }
    wp_step. eapply wp_upd_thread; [done|]. fold x1.
    wp_step. unfold on_heap at 1. apply wp_zoom.
    eapply wp_next_elem; [apply Hinv|by rewrite Hl, El|]. rewrite set_heap_id.
    match goal with |- wp _ ?s _ => set (k1 := s) end.
    assert (running k1 L) as Hrun1 by by eapply running_upd_thread.
    change RT_EVENT_FLAG_CLEAR with (2 ^ 2). rewrite land_pow2_eqb, negb_involutive by lia.
    wp_step.
    assert (∀ Q : unit → kernel → Prop,
      Q tt (set_events (<[e := mk_event s']> (events k1)) k1) →
      wp (if Z.testbit (event_info x) 2 then put_event e (mk_event (Z.land s (u32 (Z.lnot v))))
          else mret tt) k1 Q) as Hput.
    { intros Q HQ. unfold s' in HQ. destruct (Z.testbit (event_info x) 2); [exact HQ|wp_step].
      simpl in HQ. rewrite insert_id in HQ by done. by destruct k. }
    apply Hput. match goal with |- wp _ ?s _ => set (k2 := s) end.
    assert (running k2 L) as Hrun2 by (split; apply Hrun1).
    assert (threads k2 !! t = Some x1) as Hx2 by apply lookup_insert_eq.
    wp_step. wp_use (wp_thread_resume k2 L t x1 (rn_inv _ _ Hrun2) Hx2 Hs) as (_ & Hqt & Ht & Htm & Hk).
    pose proof (running_resumed k2 _ L t x1 Hrun2 Hqt Hx2 Ht Hk) as Hrun3.
    assert (threads st = <[t := set_stat RT_THREAD_READY x1]> (threads k)) as Ht'.
    { rewrite Ht. simpl. by rewrite insert_insert_eq. }
    eapply wp_mono; [apply (IH fuel q1 st _ s' true Hrun3)|].
    + rewrite (fr_events _ _ (qt_frame _ _ Hqt)). apply lookup_insert_eq.
    + apply is_Some_resumed; [done|]. by rewrite Hl.
    + rewrite wait_queue_resumed, Hq by (apply Hinv || done). apply filter_ne_split.
      rewrite <- Hq. destruct (rep_dlist _ _ _ _ (ko_rep Hinv) Hl) as [Hnd _].
      apply NoDup_cons in Hnd as [_ Hnd]. rewrite El in Hnd.
      rewrite Hq. rewrite <- fmap_cons, <- fmap_app in Hnd. by eapply NoDup_fmap_1.
    + simpl in Hf. lia.
    + rewrite Ht'. simpl. intros b k' (-> & Hr & Hth & Hev & Htm' & Hob & Hc & Hlk & HS).
      split_and!; [done|exact Hr|exact Hth| | | | | |exact HS].
      * rewrite Hev, (fr_events _ _ (qt_frame _ _ Hqt)). simpl. by rewrite insert_insert_eq.
      * by rewrite Htm', Htm.
      * rewrite Hob. by rewrite (fr_objects _ _ (qt_frame _ _ Hqt)).
      * by rewrite Hc, (qt_current _ _ Hqt).
      * by rewrite Hlk, (fr_lock _ _ (qt_frame _ _ Hqt)).
  - (* not woken *)
    assert (scan_step (mk_scan s (threads k) L w) t = mk_scan s (threads k) L w) as ->.
    { rewrite (scan_step_match _ _ x) by done. simpl. by rewrite Em. }
    wp_step. unfold on_heap at 1. apply wp_zoom.
    eapply wp_next_elem; [apply Hinv|by rewrite Hl, El|]. rewrite set_heap_id.
    apply (IH fuel (q1 ++ [t]) k L s w Hrun He); [by rewrite Hl| |simpl in Hf; lia].
    by rewrite <- app_assoc.
Qed.

(** * The invariant *)

(** No waiting thread's condition holds. *)
Definition unsatisfied (ths : gmap nat rt_thread) (s : Z) (t : nat) : Prop :=
  ∃ x, ths !! t = Some x ∧ ¬ satisfied x s.

Record event_ok (k : kernel) (L : lists) (e : nat) (s : Z) : Prop := {
  ev_set : events k !! e = Some (mk_event s);
  ev_ipc : ipc_ok k L (O_event e);
  ev_wait : ∀ t, t ∈ wait_queue L (event_list e) → unsatisfied (threads k) s t
}.

Lemma event_match_none x s : event_match x s = None ↔ ¬ satisfied x s.
Proof. rewrite event_match_spec. by case_decide. Qed.

(** Fewer events satisfy no more conditions. *)
Lemma satisfied_land x s m : satisfied x (Z.land s m) → satisfied x s.
Proof.
  unfold satisfied. destruct (Z.testbit (event_info x) 0).
  - intros H i Hi Hx. specialize (H i Hi Hx). rewrite Z.land_spec in H. by apply andb_true_iff in H as [? _].
  - intros (? & i & ? & ? & Hs). split; [done|]. exists i. rewrite Z.land_spec in Hs. by apply andb_true_iff in Hs as [? _].
Qed.

Lemma typed_enqueue L hd n : typed L → accepts hd n = true → typed (enqueue hd n L).
Proof.
  intros Ht Ha hd' l m. unfold enqueue. rewrite lookup_alter. case_decide as Hd; subst.
  - rewrite fmap_Some. intros (l' & Hl & ->). apply lookup_delete_Some in Hl as [_ Hl].
    rewrite elem_of_app, list_elem_of_singleton. intros [? | ->]; [by eapply Ht|done].
  - rewrite lookup_delete_Some. intros [_ ?]. by eapply Ht.
Qed.

Lemma typed_resumed L t p : typed L → typed (resumed t p L).
Proof. intros. apply typed_enqueue; [|done]. by do 2 apply typed_detach. Qed.

(** After the scan nobody waits for events that are present. *)
Lemma scan_unsatisfied e q2 q1 s ths L w :
  typed L → wait_queue L (event_list e) = q1 ++ q2 → NoDup (q1 ++ q2) →
  (∀ t, t ∈ q1 → unsatisfied ths s t) → (∀ t, t ∈ q2 → is_Some (ths !! t)) →
  let st := foldl scan_step (mk_scan s ths L w) q2 in
  ∀ t, t ∈ wait_queue (sc_lists st) (event_list e) → unsatisfied (sc_threads st) (sc_set st) t.
Proof.
  revert q1 s ths L w. induction q2 as [|t q2 IH]; intros q1 s ths L w Hty Hq Hnd H1 H2; simpl.
  { rewrite Hq, app_nil_r. done. }
  destruct (H2 t) as [x Hx]; [set_solver|]. rewrite (scan_step_match _ _ x) by done. simpl.
  destruct (event_match x s) as [v|] eqn:Em.
  - assert (NoDup (q1 ++ q2) ∧ t ∉ q1 ++ q2) as [Hnd' Hnt].
    { rewrite <- Permutation_middle in Hnd. by apply NoDup_cons in Hnd as [? ?]. }
    apply (IH q1); [by apply typed_resumed| |done| |].
    + rewrite wait_queue_resumed, Hq by done. by apply filter_ne_split.
    + intros u Hu. destruct (H1 u Hu) as (y & Hy & Hn). exists y.
      rewrite lookup_insert_ne by set_solver. split; [done|].
      case_match; [|done]. intros Hs. by apply Hn, (satisfied_land _ _ _ Hs).
    + intros u Hu. rewrite lookup_insert_ne by set_solver. set_solver.
  - apply (IH (q1 ++ [t])); [done|by rewrite <- app_assoc|by rewrite <- app_assoc| |set_solver].
    intros u [Hu|Hu%list_elem_of_singleton]%elem_of_app; [by apply H1|subst]. exists x. split; [done|by apply event_match_none].
Qed.

Lemma wait_queue_NoDup k L hd :
  kinv k L → is_wait hd = true → NoDup (wait_queue L hd).
Proof.
  intros Hinv Hw. destruct (wait_queue L hd) as [|u q] eqn:Hq; [constructor|].
  by destruct (wait_head k L hd u q Hinv Hw Hq) as (_ & ? & _).
Qed.

(** * Receiving *)

(** The condition of [rt_event_recv]. *)
Definition recv_ready (s set opt : Z) : bool :=
  if Z.testbit opt 0 then Z.land s set =? set else negb (Z.land s set =? 0).

(** The thread that waits has recorded what it waits for. *)
Definition event_waiter (set opt : Z) (x : rt_thread) : rt_thread :=
  set_event_info opt (set_event_set set (set_error RT_EOK x)).

Section recv.
Context {k : kernel} {L : lists} {e t : nat} {s : Z} {x : rt_thread}.
Hypothesis Hrun : running k L.
Hypothesis Hev : event_ok k L e s.
Hypothesis Hb : may_block k t x.
Variables set opt : Z.
Hypothesis Hset : set ≠ 0.
Hypothesis Hopt : Z.testbit opt 0 = true ∨ Z.testbit opt 1 = true.

Let k1 : kernel := with_error t RT_EOK x k.

Lemma wp_event_recv_begin timeout (Q : outcome (option Z * Z) → kernel → Prop) :
  wp (if recv_ready s set opt then
        (if Z.testbit opt 2
         then put_event e (mk_event (Z.land s (u32 (Z.lnot set)))) else mret tt);;
        y ← get_thread t;
        mret (Return (Some (Z.land s set), error y))
      else if timeout =? 0 then
        upd_thread t (set_error (- RT_ETIMEOUT));;
        y ← get_thread t;
        mret (Return (None, error y))
      else
        upd_thread t (set_event_set set);;
        upd_thread t (set_event_info opt);;
        o ← get_object (O_event e);
        wait_on (N_suspend (O_event e)) t (flag o) timeout;;
        mret (Resched (
          y ← get_thread t;
          if negb (error y =? RT_EOK) then mret (Return (None, error y))
          else mret (Return (Some (event_set y), error y))))) k1 Q →
  wp (rt_event_recv e set opt timeout) k Q.
Proof.
  intros H. unfold rt_event_recv. wp_step. eapply wp_thread_context; [done..|].
  rewrite (proj2 (Z.eqb_neq _ _) Hset). pose proof (mb_thread _ _ _ Hb) as Hx.
  pose proof (mb_current _ _ _ Hb) as Hc.
  unfold rt_thread_self. do 6 wp_step. wp_step. eapply wp_upd_thread; [done|].
  wp_step. eapply wp_get_event; [apply Hev|]. wp_step. fold (with_error t RT_EOK x k). fold k1.
  change RT_EVENT_FLAG_AND with (2 ^ 0). change RT_EVENT_FLAG_OR with (2 ^ 1).
  change RT_EVENT_FLAG_CLEAR with (2 ^ 2). rewrite !testbit_flag_b by lia.
  unfold recv_ready in H. simpl (Kernel.set _). destruct (Z.testbit opt 0) eqn:Hand.
  - wp_step. destruct (Z.land s set =? set); simpl; exact H.
  - destruct (Z.testbit opt 1) eqn:Hor; [|naive_solver].
    wp_step. destruct (negb (Z.land s set =? 0)); simpl; exact H.
Qed.

Lemma event_recv_ready timeout :
  recv_ready s set opt = true →
  wp (rt_event_recv e set opt timeout) k (λ out k',
    out = Return (Some (Z.land s set), RT_EOK) ∧
    k' = if Z.testbit opt 2
         then set_events (<[e := mk_event (Z.land s (u32 (Z.lnot set)))]> (events k1)) k1 else k1).
Proof.
  intros Hr. apply wp_event_recv_begin. rewrite Hr. wp_step. destruct (Z.testbit opt 2).
  - unfold put_event. wp_step. wp_step. eapply wp_get_thread; [apply lookup_insert_eq|]. by wp_step.
  - wp_step. wp_step. eapply wp_get_thread; [apply lookup_insert_eq|]. by wp_step.
Qed.

Lemma event_recv_poll :
  recv_ready s set opt = false →
  wp (rt_event_recv e set opt 0) k (λ out k',
    out = Return (None, - RT_ETIMEOUT) ∧ k' = with_error t (- RT_ETIMEOUT) x k).
Proof.
  intros Hr. apply wp_event_recv_begin. rewrite Hr. simpl.
  wp_step. eapply wp_upd_thread; [apply lookup_insert_eq|].
  wp_step. eapply wp_get_thread; [apply lookup_insert_eq|]. wp_step. split; [done|].
  unfold with_error, set_threads. simpl. by rewrite insert_insert_eq.
Qed.

Lemma event_recv_wait timeout :
  recv_ready s set opt = false → timeout ≠ 0 → timeout < RT_TICK_MAX / 2 →
  wp (rt_event_recv e set opt timeout) k (λ out k', ∃ k2,
    k2 = set_threads (<[t := event_waiter set opt x]> (threads k)) k ∧
    out = Resched (
      y ← get_thread t;
      if negb (error y =? RT_EOK) then mret (Return (None, error y))
      else mret (Return (Some (event_set y), error y))) ∧
    blocks (event_list e) (obj_flag k (O_event e)) timeout t (event_waiter set opt x) k2 L k').
Proof.
  intros Hr Hn Htime. apply wp_event_recv_begin. rewrite Hr, (proj2 (Z.eqb_neq _ _) Hn).
  destruct (ev_ipc _ _ _ _ Hev) as [HL (b & Hob & Hfl)]. destruct Hb as [Hc Hx Hs Hid _].
  wp_step. eapply wp_upd_thread; [apply lookup_insert_eq|].
  wp_step. eapply wp_upd_thread; [apply lookup_insert_eq|].
  match goal with |- wp _ ?s _ => set (k2 := s) end.
  assert (k2 = set_threads (<[t := event_waiter set opt x]> (threads k)) k) as E2.
  { unfold k2, set_threads. simpl. by rewrite !insert_insert_eq. }
  wp_step. eapply wp_get_object; [done|]. clearbody k2. subst k2.
  wp_step. wp_use (wp_wait_on _ L (event_list e) t (event_waiter set opt x) (flag b) timeout) as [_ Hbl].
  - by eapply running_upd_thread.
  - done.
  - done.
  - done.
  - apply lookup_insert_eq.
  - done.
  - done.
  - done.
  - wp_step. eexists. split; [done|]. split; [done|]. unfold obj_flag. by rewrite Hob.
Qed.
End recv.

(** * Sending *)

(** The end of [rt_event_send]. *)
Lemma wp_event_send_end k1 k2 L2 (b : bool) :
  running k2 L2 → rt_current_thread k2 = rt_current_thread k1 →
  rt_scheduler_lock_nest k2 = rt_scheduler_lock_nest k1 →
  wp ((if b then rt_schedule else mret tt);; mret RT_EOK) k2 (λ r k',
    r = RT_EOK ∧ running k' L2 ∧ threads k' = threads k2 ∧ events k' = events k2 ∧
    objects k' = objects k2 ∧
    rt_current_thread k' = if b then elected k1 L2 else rt_current_thread k1).
Proof.
  intros Hr2 Hc2 Hlk2. wp_step. destruct b; [|wp_step; by wp_step].
  wp_use (wp_schedule _ _ Hr2) as (Hr & [Hf Hh Ho Hth Htm Hg] & Hc). wp_step.
  split_and!; [done|done|done|by rewrite (fr_events _ _ Hf)|done|].
  rewrite Hc. unfold elected. by rewrite Hc2, Hlk2.
Qed.

Lemma event_send_scan k L e s bits :
  running k L → events k !! e = Some (mk_event s) → is_Some (L !! event_list e) → bits ≠ 0 →
  let st := foldl scan_step (mk_scan (Z.lor s bits) (threads k) L false)
              (wait_queue L (event_list e)) in
  wp (rt_event_send e bits) k (λ r k',
    r = RT_EOK ∧ running k' (sc_lists st) ∧ threads k' = sc_threads st ∧
    events k' = <[e := mk_event (sc_set st)]> (events k) ∧
    objects k' !! O_event e = objects k !! O_event e ∧ is_Some (sc_lists st !! event_list e) ∧
    rt_current_thread k' = if sc_woken st then elected k (sc_lists st) else rt_current_thread k).
Proof.
  intros Hrun He HL Hn st. unfold rt_event_send. rewrite (proj2 (Z.eqb_neq _ _) Hn).
  wp_step. eapply wp_get_event; [done|]. simpl (set _). wp_step. unfold put_event. wp_step.
  match goal with |- wp _ ?s _ => set (k1 := s) end.
  assert (running k1 L) as Hrun1 by (split; apply Hrun).
  wp_step. eapply (wp_wait_isempty k1 L); [apply Hrun1|done|done|]. fold (event_list e).
  destruct (wait_queue L (event_list e)) as [|u q] eqn:Hq.
  - rewrite bool_decide_eq_true_2 by done. cbv beta iota delta [negb]. wp_step. wp_step.
    wp_use (wp_event_send_end k k1 L false Hrun1) as (-> & Hr & Ht & He' & Ho & Hc); [done..|].
    split_and!; [done|done|done|done|by rewrite Ho|done|done].
  - rewrite bool_decide_eq_false_2 by done. cbv beta iota delta [negb]. wp_step. wp_step. wp_step. wp_step.
    destruct (wait_head k1 L (event_list e) u q (rn_inv _ _ Hrun1) eq_refl Hq) as (Hl & _ & _).
    eapply wp_rd_next_kernel; [apply Hrun1|exact Hl|]. simpl.
    wp_use (wp_event_loop e (list_fuel k1) [] (u :: q) k1 L (Z.lor s bits) false Hrun1)
      as (-> & Hr & Ht & He1 & _ & Ho & Hc & Hlk & HS).
    + apply lookup_insert_eq.
    + done.
    + done.
    + pose proof (rep_length _ _ _ _ (ko_rep (rn_inv _ _ Hrun1)) Hl) as Hlen. unfold list_fuel.
      simpl in Hlen |- *. rewrite length_fmap in Hlen. lia.
    + wp_use (wp_event_send_end k _ _ (sc_woken st) Hr) as (-> & Hr' & Ht' & He' & Ho' & Hc');
        [done..|]. simpl in He1. rewrite insert_insert_eq in He1.
      split_and!; [done|done|by rewrite Ht'|by rewrite He'|by rewrite Ho'|done|done].
Qed.

(** * Properties *)

(** C10: [rt_event_send].  The bits are added to the set and the waiting threads
    are scanned once, in the order of the list: each one whose condition (all of
    its bits, or any of them) holds is made ready, with the bits it gets, and the
    bits it asked to clear are hidden from the threads behind it.  After, no
    thread waits for events that are present, and the best ready thread runs. *)
Theorem rt_event_send_spec k L e s bits :
  running k L → event_ok k L e s → bits ≠ 0 →
  let st := foldl scan_step (mk_scan (Z.lor s bits) (threads k) L false)
              (wait_queue L (event_list e)) in
  wp (rt_event_send e bits) k (λ r k',
    r = RT_EOK ∧ running k' (sc_lists st) ∧ threads k' = sc_threads st ∧
    event_ok k' (sc_lists st) e (sc_set st) ∧
    rt_current_thread k' = if sc_woken st then elected k (sc_lists st) else rt_current_thread k).
Proof.
  intros Hrun Hev Hn st. pose proof (rn_inv _ _ Hrun) as Hinv.
  eapply wp_mono; [by apply (event_send_scan k L e s bits); [|apply Hev..|]|].
  intros r k' (-> & Hr & Ht & He & Ho & HS & Hc). split_and!; [done|done|done| |done]. split.
  - rewrite He. apply lookup_insert_eq.
  - eapply ipc_ok_objects; [apply Hev|done|done].
  - rewrite Ht.
    apply (scan_unsatisfied e _ []); [apply Hinv|done|by eapply wait_queue_NoDup|set_solver|].
    intros t Hin. destruct (wait_queue_suspended k L (event_list e) t Hinv eq_refl Hin) as (? & ? & _).
    eauto.
Qed.

(** [rt_event_recv], on every path.  If the condition holds the call returns
    the events at once, and removes them if it was asked to; a caller that does
    not wait gets [-RT_ETIMEOUT]; otherwise the caller records what it waits for
    and is suspended, and nobody waits for events that are present. *)
Theorem rt_event_recv_spec k L e s t x set opt timeout :
  running k L → event_ok k L e s → may_block k t x → set ≠ 0 →
  Z.testbit opt 0 = true ∨ Z.testbit opt 1 = true → timeout < RT_TICK_MAX / 2 →
  wp (rt_event_recv e set opt timeout) k (λ out k',
    let k1 := with_error t RT_EOK x k in
    if recv_ready s set opt then
      out = Return (Some (Z.land s set), RT_EOK) ∧
      k' = if Z.testbit opt 2
           then set_events (<[e := mk_event (Z.land s (u32 (Z.lnot set)))]> (events k)) k1 else k1
    else if timeout =? 0 then
      out = Return (None, - RT_ETIMEOUT) ∧ k' = with_error t (- RT_ETIMEOUT) x k
    else ∃ L', running k' L' ∧ event_ok k' L' e s ∧
      wait_queue L' (event_list e)
      = insert_wait (obj_flag k (O_event e)) (threads k') (current_priority x) t
          (wait_queue L (event_list e)) ∧
      threads k' !! t = Some (set_stat RT_THREAD_SUSPEND (event_waiter set opt x))).
Proof.
  intros Hrun Hev Hb Hset Hopt Htime. cbv zeta. destruct (recv_ready s set opt) eqn:Hr.
  { by apply (event_recv_ready Hrun Hev Hb). }
  destruct (Z.eqb_spec timeout 0) as [->|Hn]; [by apply (event_recv_poll Hrun Hev Hb)|].
  eapply wp_mono; [by apply (event_recv_wait Hrun Hev Hb set opt Hset Hopt timeout)|].
  intros out k' (k2 & -> & -> & Hbl). pose proof (mb_thread _ _ _ Hb) as Hx.
  eexists. split; [exact (blocks_running Hbl)|].
  pose proof (bl_frame Hbl) as Hf. pose proof (bl_threads Hbl) as Ht.
  simpl in Ht. rewrite insert_insert_eq in Ht.
  assert (∀ u, prio (threads k') u = prio (threads k) u) as Hprio.
  { intros u. unfold prio. rewrite Ht, lookup_insert. case_decide; subst; [by rewrite Hx|done]. }
  assert (prio (<[t:=event_waiter set opt x]> (threads k)) t = current_priority x) as Hpt.
  { unfold prio. by rewrite lookup_insert_eq. }
  split_and!.
  - split.
    + rewrite (fr_events _ _ Hf). apply Hev.
    + eapply ipc_ok_frame; [apply Hev| |done|].
      * etrans; [|exact Hf]. by split.
      * apply is_Some_blocked; [done..|apply Hev].
    + intros u. rewrite wait_queue_blocked, elem_of_insert_wait by done. rewrite Ht. intros [->|Hu].
      * eexists. rewrite lookup_insert_eq. split; [done|]. apply event_match_none. unfold event_match, recv_ready in *. simpl.
        change RT_EVENT_FLAG_AND with (2 ^ 0). change RT_EVENT_FLAG_OR with (2 ^ 1).
        rewrite !testbit_flag_b by lia. rewrite (Z.land_comm set s).
        destruct (Z.testbit opt 0); [by rewrite Hr|]. rewrite Hr. by destruct (Z.testbit opt 1).
      * destruct (ev_wait _ _ _ _ Hev u Hu) as (y & Hy & Hm). exists y. split; [|done].
        rewrite lookup_insert_ne; [done|]. intros ->.
        destruct (wait_queue_suspended k L (event_list e) u (rn_inv _ _ Hrun) eq_refl Hu) as (? & ? & ?).
        pose proof (mb_ready _ _ _ Hb). congruence.
  - rewrite wait_queue_blocked by done. simpl threads. rewrite Hpt. unfold insert_wait. case_match; [done|].
    apply insert_prio_ext. intros u _. rewrite Hprio. unfold prio. rewrite lookup_insert.
    case_decide; subst; [by rewrite Hx|done].
  - rewrite Ht. apply lookup_insert_eq.
Qed.

(** The bits a waiting thread gets are those it would get if it came later. *)
Lemma event_match_recv set opt x S :
  Z.testbit opt 0 = true ∨ Z.testbit opt 1 = true → recv_ready S set opt = true →
  event_match (set_stat RT_THREAD_SUSPEND (event_waiter set opt x)) S = Some (Z.land S set).
Proof.
  intros Hopt Hr. unfold event_match, recv_ready in *. simpl.
  change RT_EVENT_FLAG_AND with (2 ^ 0). change RT_EVENT_FLAG_OR with (2 ^ 1).
  rewrite !testbit_flag_b, (Z.land_comm set S) by lia. destruct (Z.testbit opt 0).
  - rewrite Hr. by apply Z.eqb_eq in Hr as ->.
  - rewrite Hr. destruct Hopt as [?|Ho]; [done|]. by rewrite Ho.
Qed.

Lemma clear_received S set : Z.land S (u32 (Z.lnot (Z.land S set))) = Z.land S (u32 (Z.lnot set)).
Proof.
  unfold wrap. apply Z.bits_inj'. intros i Hi. rewrite !Z.land_spec.
  rewrite <- !Z.land_ones, !Z.land_spec, !Z.lnot_spec, Z.land_spec by lia.
  by destruct (Z.testbit S i), (Z.testbit set i).
Qed.

(** A thread that waits for events and is woken by [rt_event_send] gets the
    same events, and leaves the same set behind, as if it had called
    [rt_event_recv] after the events were sent. *)
Theorem rt_event_handoff k L e s t x set opt timeout bits :
  running k L → event_ok k L e s → may_block k t x → set ≠ 0 →
  Z.testbit opt 0 = true ∨ Z.testbit opt 1 = true → timeout ≠ 0 → timeout < RT_TICK_MAX / 2 →
  wait_queue L (event_list e) = [] → recv_ready s set opt = false →
  bits ≠ 0 → recv_ready (Z.lor s bits) set opt = true →
  wp (o ← rt_event_recv e set opt timeout;
      rt_event_send e bits;;
      match o with Resched rest => rest | Return r => mret (Return r) end) k (λ out k',
    out = Return (Some (Z.land (Z.lor s bits) set), RT_EOK) ∧
    events k' !! e = Some (mk_event
      (if Z.testbit opt 2 then Z.land (Z.lor s bits) (u32 (Z.lnot set)) else Z.lor s bits))).
Proof.
  intros Hrun Hev Hb Hset Hopt Hn Htime Hq Hnr Hbits Hr. wp_step.
  wp_use (event_recv_wait Hrun Hev Hb set opt Hset Hopt timeout) as (k2 & -> & -> & Hbl); [done..|].
  pose proof (bl_frame Hbl) as Hf. pose proof (bl_threads Hbl) as Ht.
  pose proof (blocks_running Hbl) as Hrun1.
  simpl in Ht. rewrite insert_insert_eq in Ht. set (L1 := blocked _ _ _ _ _ _ _) in *.
  assert (wait_queue L1 (event_list e) = [t]) as Hq1.
  { unfold L1. rewrite wait_queue_blocked, Hq by done. unfold insert_wait. by case_match. }
  wp_step. wp_use (event_send_scan st L1 e s bits Hrun1) as (_ & _ & Ht2 & He2 & _).
  { rewrite (fr_events _ _ Hf). apply Hev. }
  { apply is_Some_blocked; [done..|apply Hev]. }
  { done. }
  rewrite Hq1 in Ht2, He2. cbn [foldl] in Ht2, He2.
  rewrite (scan_step_match _ _ (set_stat RT_THREAD_SUSPEND (event_waiter set opt x))) in Ht2, He2
    by (simpl; rewrite Ht; apply lookup_insert_eq).
  cbn [sc_threads sc_set sc_lists] in Ht2, He2.
  rewrite event_match_recv in Ht2, He2 by done.
  cbn [sc_threads sc_set sc_lists] in Ht2, He2.
  wp_step. eapply wp_get_thread; [rewrite Ht2; apply lookup_insert_eq|].
  change (wp (mret (Return (Some (Z.land (Z.lor s bits) set), RT_EOK))) st0 (λ out k',
    out = Return (Some (Z.land (Z.lor s bits) set), RT_EOK) ∧ events k' !! e = Some (mk_event
      (if Z.testbit opt 2 then Z.land (Z.lor s bits) (u32 (Z.lnot set)) else Z.lor s bits)))).
  wp_step. split; [done|]. rewrite He2, lookup_insert_eq.
  change (event_info (set_stat RT_THREAD_SUSPEND (event_waiter set opt x))) with opt.
  by rewrite clear_received.
Qed.

(** * Instances *)

(** An event set with bit 0 present. *)
Definition event_demo : kernel :=
  run (rt_event_init 0 "event" RT_IPC_FLAG_FIFO;; rt_event_send 0 1) booted.

Lemma event_demo_running : running event_demo (lists_at event_demo).
Proof. apply running_b_spec. by vm_compute. Qed.

Lemma event_demo_may_block : may_block event_demo 2 (thread_at event_demo 2).
Proof. apply may_block_b_spec. by vm_compute. Qed.

Lemma event_demo_queue : wait_queue (lists_at event_demo) (event_list 0) = [].
Proof. by vm_compute. Qed.

Lemma event_demo_ok : event_ok event_demo (lists_at event_demo) 0 1.
Proof.
  split; [by vm_compute|apply ipc_ok_b_spec; by vm_compute|].
  rewrite event_demo_queue. by intros t ?%not_elem_of_nil.
Qed.

Lemma rt_event_send_witness :
  wp (rt_event_send 0 6) event_demo (λ r k', r = RT_EOK ∧ events k' !! 0%nat = Some (mk_event 7)).
Proof.
  eapply wp_mono.
  - apply (rt_event_send_spec event_demo (lists_at event_demo) 0 1 6).
    + exact event_demo_running.
    + exact event_demo_ok.
    + done.
  - rewrite event_demo_queue. intros r k' (-> & _ & _ & H & _). split; [done|apply H].
Defined.

Lemma rt_event_recv_witness :
  wp (rt_event_recv 0 5 RT_EVENT_FLAG_OR 0) event_demo (λ out _, out = Return (Some 1, RT_EOK)).
Proof.
  eapply wp_mono.
  - apply (rt_event_recv_spec event_demo (lists_at event_demo) 0 1 2 (thread_at event_demo 2)
             5 RT_EVENT_FLAG_OR 0).
    + exact event_demo_running.
    + exact event_demo_ok.
    + exact event_demo_may_block.
    + done.
    + by right.
    + done.
  - by intros out k' [-> _].
Defined.

Lemma rt_event_handoff_witness :
  wp (o ← rt_event_recv 0 5 (RT_EVENT_FLAG_AND + RT_EVENT_FLAG_CLEAR) 100;
      rt_event_send 0 4;;
      match o with Resched rest => rest | Return r => mret (Return r) end) event_demo (λ out k',
    out = Return (Some 5, RT_EOK) ∧ events k' !! 0%nat = Some (mk_event 0)).
Proof.
  apply (rt_event_handoff event_demo (lists_at event_demo) 0 1 2 (thread_at event_demo 2)
           5 (RT_EVENT_FLAG_AND + RT_EVENT_FLAG_CLEAR) 100 4).
  - exact event_demo_running.
  - exact event_demo_ok.
  - exact event_demo_may_block.
  - done.
  - by left.
  - done.
  - done.
  - exact event_demo_queue.
  - done.
  - done.
  - done.
Defined.
