(* ===== verification/Mailbox.v ===== *)
(** The mailbox of [src/ipc.c]: the ring of messages refines a bounded queue, and
    what sending and receiving do on every path. *)

From Stdlib Require Import ZArith Lia.
From stdpp Require Import numbers strings base gmap list.
From S2P Require Import Prelude RtList Bitmap Kernel Scheduler Object Timer Thread Ipc.
From S2P Require Import Message Invariant ThreadSpec Check Demo TimerSpec ThreadRun IpcSpec.
Local Open Scope Z_scope.

(** * The ring *)

(** The message number [i] from the oldest. *)
Definition ring_at (x : rt_mailbox) (i : nat) : Z :=
  default 0 (msg_pool x !! Z.to_nat ((out_offset x + Z.of_nat i) mod mb_size x)).

(** The messages, oldest first. *)
Definition contents (x : rt_mailbox) : list Z := ring_at x <$> seq 0 (Z.to_nat (mb_entry x)).

Record ring_ok (x : rt_mailbox) : Prop := {
  rg_size : 0 < mb_size x < 2 ^ 16;
  rg_pool : Z.of_nat (length (msg_pool x)) = mb_size x;
  rg_entry : 0 <= mb_entry x <= mb_size x;
  rg_out : 0 <= out_offset x < mb_size x;
  rg_in : in_offset x = (out_offset x + mb_entry x) mod mb_size x
}.

(** [++offset; if (offset >= size) offset = 0]. *)
Definition bump (size offset : Z) : Z :=
  if size <=? u16 (offset + 1) then 0 else u16 (offset + 1).

Definition ring_put (v : Z) (x : rt_mailbox) : rt_mailbox :=
  mk_mailbox (<[Z.to_nat (in_offset x) := v]> (msg_pool x)) (mb_size x) (u16 (mb_entry x + 1))
    (bump (mb_size x) (in_offset x)) (out_offset x).
Definition ring_get (x : rt_mailbox) : rt_mailbox :=
  mk_mailbox (msg_pool x) (mb_size x) (u16 (mb_entry x - 1))
    (in_offset x) (bump (mb_size x) (out_offset x)).

Lemma bump_mod size o : 0 < size < 2 ^ 16 → 0 <= o < size → bump size o = (o + 1) mod size.
Proof.
  intros Hs Ho. unfold bump, wrap. rewrite (Z.mod_small (o + 1) (2 ^ 16)) by lia.
  destruct (Z.leb_spec size (o + 1)).
  - replace (o + 1) with size by lia. by rewrite Z.mod_same by lia.
  - by rewrite Z.mod_small by lia.
Qed.

Lemma length_contents x : ring_ok x → Z.of_nat (length (contents x)) = mb_entry x.
Proof. intros H. unfold contents. rewrite length_fmap, length_seq. pose proof (rg_entry _ H). lia. Qed.

Lemma contents_lookup x i :
  (i < Z.to_nat (mb_entry x))%nat → contents x !! i = Some (ring_at x i).
Proof. intros Hi. unfold contents. rewrite list_lookup_fmap, lookup_seq_lt by done. done. Qed.

Section ring.
Context {x : rt_mailbox}.
Hypothesis Hx : ring_ok x.

Lemma in_offset_range : 0 <= in_offset x < mb_size x.
Proof. rewrite (rg_in _ Hx). apply Z.mod_pos_bound. pose proof (rg_size _ Hx). lia. Qed.

Lemma ring_put_ok v : mb_entry x < mb_size x → ring_ok (ring_put v x).
Proof.
  intros Hf. pose proof in_offset_range as Hin. pose proof (bump_mod _ _ (rg_size _ Hx) Hin) as Hb.
  destruct Hx as [Hs Hp He Ho Hi].
  unfold ring_put. split; simpl; [done| | |done|].
  - by rewrite length_insert.
  - unfold wrap. rewrite Z.mod_small by lia. lia.
  - rewrite Hb. unfold wrap. rewrite (Z.mod_small (mb_entry x + 1)) by lia.
    rewrite Hi, Zplus_mod_idemp_l. f_equal. lia.
Qed.

Lemma ring_get_ok : 0 < mb_entry x → ring_ok (ring_get x).
Proof.
  intros Hf. pose proof (bump_mod _ _ (rg_size _ Hx) (rg_out _ Hx)) as Hb.
  destruct Hx as [Hs Hp He Ho Hi]. unfold ring_get. split; simpl; [done|done| | |].
  - unfold wrap. rewrite Z.mod_small by lia. lia.
  - rewrite Hb. apply Z.mod_pos_bound. lia.
  - rewrite Hb. unfold wrap. rewrite (Z.mod_small (mb_entry x - 1)) by lia.
    rewrite Zplus_mod_idemp_l, Hi. f_equal. lia.
Qed.

(** The slots of distinct messages are distinct. *)
Lemma slot_inj i j :
  0 <= i < mb_size x → 0 <= j < mb_size x →
  (out_offset x + i) mod mb_size x = (out_offset x + j) mod mb_size x → i = j.
Proof.
  intros Hi Hj E. pose proof (rg_size _ Hx).
  assert ((i - j) mod mb_size x = 0) as Hm.
  { replace (i - j) with ((out_offset x + i) - (out_offset x + j)) by lia.
    rewrite Zminus_mod, E, Z.sub_diag. apply Z.mod_0_l. lia. }
  apply Z.mod_divide in Hm as [c Hc]; [|lia]. destruct (Z.eq_dec c 0) as [->|Hc0]; [lia|]. exfalso.
  assert (c <= -1 ∨ 1 <= c) as [?|?] by lia; nia.
Qed.

(** Storing appends to the queue. *)
Lemma contents_put v : mb_entry x < mb_size x → contents (ring_put v x) = contents x ++ [v].
Proof.
  intros Hf. pose proof in_offset_range as Hin. destruct Hx as [Hs Hp He Ho Hi].
  unfold contents. simpl. unfold wrap. rewrite Z.mod_small by lia.
  replace (Z.to_nat (mb_entry x + 1)) with (Z.to_nat (mb_entry x) + 1)%nat by lia.
  rewrite seq_app, fmap_app. simpl. f_equal.
  - apply list_fmap_ext. intros n i [Ei Hlt]%lookup_seq. simpl in Ei. subst n. unfold ring_at. simpl.
    rewrite list_lookup_insert_ne; [done|]. intros E.
    assert (mb_entry x = Z.of_nat i); [|lia]. apply slot_inj; [lia|lia|].
    rewrite <- Hi. pose proof (Z.mod_pos_bound (out_offset x + Z.of_nat i) (mb_size x)). lia.
  - f_equal. unfold ring_at. simpl.
    replace (out_offset x + Z.of_nat (Z.to_nat (mb_entry x))) with (out_offset x + mb_entry x) by lia.
    rewrite <- Hi, list_lookup_insert_eq by lia. done.
Qed.

(** Fetching removes the oldest message. *)
Lemma contents_get :
  0 < mb_entry x → contents x = ring_at x 0 :: contents (ring_get x).
Proof.
  intros Hf. pose proof (bump_mod _ _ (rg_size _ Hx) (rg_out _ Hx)) as Hb.
  destruct Hx as [Hs Hp He Ho Hi]. unfold contents. simpl. unfold wrap.
  rewrite Z.mod_small by lia.
  replace (Z.to_nat (mb_entry x)) with (S (Z.to_nat (mb_entry x - 1))) by lia. simpl. f_equal.
  rewrite <- fmap_S_seq, <- list_fmap_compose. apply list_fmap_ext. intros n i [Ei _]%lookup_seq.
  simpl in Ei. subst n. simpl. unfold ring_at. simpl. rewrite Hb, Zplus_mod_idemp_l. do 2 f_equal.
  f_equal. f_equal. lia.
Qed.

Lemma ring_at_0 : msg_pool x !! Z.to_nat (out_offset x) = Some (ring_at x 0).
Proof.
  destruct Hx as [Hs Hp He Ho Hi]. unfold ring_at.
  rewrite Z.add_0_r, Z.mod_small by lia.
  destruct (lookup_lt_is_Some_2 (msg_pool x) (Z.to_nat (out_offset x))) as [v ->]; [lia|done].
Qed.
End ring.

(** * The operations *)

Record mb_ok (k : kernel) (L : lists) (m : nat) (x : rt_mailbox) : Prop := {
  mk_mailbox_at : mailboxes k !! m = Some x;
  mk_ring : ring_ok x;
  mk_ipc : ipc_ok k L (O_mb m);
  mk_sender : is_Some (L !! N_sender m)
}.

Definition recv_list (m : nat) : node := N_suspend (O_mb m).
Definition with_mailbox (m : nat) (x : rt_mailbox) (k : kernel) : kernel :=
  set_mailboxes (<[m := x]> (mailboxes k)) k.

Lemma with_mailbox_twice m x y k : with_mailbox m x (with_mailbox m y k) = with_mailbox m x k.
Proof. unfold with_mailbox, set_mailboxes. simpl. by rewrite insert_insert_eq. Qed.

Lemma running_with_mailbox k L m x : running k L → running (with_mailbox m x k) L.
Proof. intros H. split; apply H. Qed.

Lemma mb_ok_with k L m x x' :
  mb_ok k L m x → ring_ok x' → mb_ok (with_mailbox m x' k) L m x'.
Proof. intros [_ _ ? ?] ?. split; [apply lookup_insert_eq|done..]. Qed.

(** A signal on either list of the mailbox keeps it. *)
Lemma mb_ok_resumed k k' L m x u p :
  mb_ok k L m x → frame k k' → mb_ok k' (resumed u p L) m x.
Proof.
  intros [? ? Hi ?] Hf. split; [by rewrite (fr_mailboxes _ _ Hf)|done| |by apply is_Some_resumed].
  eapply ipc_ok_frame; [exact Hi|done|done|]. by apply is_Some_resumed; [|apply Hi].
Qed.

Lemma mb_ok_blocked k k' L m x hd fl time t y :
  mb_ok k L m x → is_wait hd = true → blocks hd fl time t y k L k' →
  mb_ok k' (blocked hd fl time t k L (timers k')) m x.
Proof.
  intros [? ? Hi ?] Hw [_ Hf _ _ _ _].
  split; [by rewrite (fr_mailboxes _ _ Hf)|done| |by apply is_Some_blocked].
  eapply ipc_ok_frame; [exact Hi|done|done|]. apply is_Some_blocked; [done|done|apply Hi].
Qed.

(** What is left of a signalling call: wake the first thread of [hd], if any. *)
Definition signalled (hd : node) (k : kernel) (L : lists) (k' : kernel) (L' : lists) : Prop :=
  match wait_queue L hd with
  | [] => k' = k ∧ L' = L
  | u :: q => ∃ z, threads k !! u = Some z ∧ stat z = RT_THREAD_SUSPEND ∧
      L' = resumed u (current_priority z) L ∧ wait_queue L' hd = q ∧
      threads k' = <[u := set_stat RT_THREAD_READY z]> (threads k) ∧
      rt_current_thread k' = elected k L'
  end.

Lemma wp_signal_if hd k L {A} (a : A) :
  running k L → is_wait hd = true → is_Some (L !! hd) →
  wp (e ← on_heap (rt_list_isempty hd);
      if negb e then rt_ipc_list_resume hd;; rt_schedule;; mret a else mret a) k (λ r k',
    r = a ∧ ∃ L', running k' L' ∧ frame k k' ∧ signalled hd k L k' L' ∧
      (L' = L ∨ ∃ u p, L' = resumed u p L)).
Proof.
  intros Hrun Hw HL. wp_step. eapply (wp_wait_isempty k L); [apply Hrun|done..|].
  unfold signalled. destruct (wait_queue L hd) as [|u q] eqn:Hq.
  - rewrite bool_decide_eq_true_2 by done. simpl. wp_step. split; [done|]. exists L. split_and!; [done|done|done|done|by left].
  - rewrite bool_decide_eq_false_2 by done. simpl. apply wp_assoc. wp_step.
    wp_use (wp_signal k L hd u q Hrun Hw Hq) as (z & Hz & Hs & Hr & Hf & Hwq & Ht & _ & Hc).
    wp_step. split; [done|]. eexists. split_and!; [exact Hr|done| |eauto]. exists z. done.
Qed.

Section ops.
Context {k : kernel} {L : lists} {m : nat} {x : rt_mailbox}.
Hypothesis Hrun : running k L.
Hypothesis Hmb : mb_ok k L m x.

Lemma wp_mb_put v :
  wp (mb_put m v) k (λ _ k', k' = with_mailbox m (ring_put v x) k).
Proof.
  pose proof (mk_mailbox_at _ _ _ _ Hmb) as Hx. pose proof (mk_ring _ _ _ _ Hmb) as Hr.
  pose proof (in_offset_range Hr) as Hin. pose proof (rg_pool _ Hr) as Hp.
  destruct (lookup_lt_is_Some_2 (msg_pool x) (Z.to_nat (in_offset x))) as [old Hold]; [lia|].
  unfold mb_put. wp_step. eapply wp_get_mb; [exact Hx|]. wp_step. wp_step.
  wp_step. eapply wp_upd_mb; [exact Hx|]. wp_step. eapply wp_upd_mb; [apply lookup_insert_eq|].
  wp_step. eapply wp_upd_mb; [apply lookup_insert_eq|]. eapply wp_upd_mb; [apply lookup_insert_eq|].
  unfold with_mailbox, set_mailboxes. simpl. rewrite !insert_insert_eq. unfold ring_put, bump.
  by case_match.
Qed.

Lemma wp_mb_get :
  wp (mb_get m) k (λ v k', v = ring_at x 0 ∧ k' = with_mailbox m (ring_get x) k).
Proof.
  pose proof (mk_mailbox_at _ _ _ _ Hmb) as Hx. pose proof (mk_ring _ _ _ _ Hmb) as Hr.
  unfold mb_get. wp_step. eapply wp_get_mb; [exact Hx|].
  wp_step. eapply wp_deref; [by apply ring_at_0|].
  wp_step. eapply wp_upd_mb; [exact Hx|]. wp_step. eapply wp_upd_mb; [apply lookup_insert_eq|].
  wp_step. eapply wp_upd_mb; [apply lookup_insert_eq|]. wp_step. split; [done|].
  unfold with_mailbox, set_mailboxes. simpl. rewrite !insert_insert_eq. unfold ring_get, bump.
  by case_match.
Qed.

(** Deliver a message to a mailbox with room. *)
Lemma wp_mb_deliver v :
  mb_entry x < mb_size x →
  wp (mb_deliver m v) k (λ r k', r = RT_EOK ∧ ∃ L', running k' L' ∧ mb_ok k' L' m (ring_put v x) ∧
    signalled (recv_list m) (with_mailbox m (ring_put v x) k) L k' L').
Proof.
  intros Hf. unfold mb_deliver. wp_step. eapply wp_mono; [apply wp_mb_put|]. intros ? ? ->.
  pose proof (mb_ok_with _ _ _ _ (ring_put v x) Hmb (ring_put_ok (mk_ring _ _ _ _ Hmb) v Hf)) as Hmb1.
  eapply wp_mono.
  - apply (wp_signal_if (recv_list m) _ L RT_EOK); [by apply running_with_mailbox|done|apply Hmb].
  - intros r k' (-> & L' & Hr & Hfr & Hs & HL). split; [done|]. exists L'. split_and!; [done| |done].
    destruct HL as [->|(u & p & ->)].
    + destruct Hmb1 as [? ? Hi ?]. split; [by rewrite (fr_mailboxes _ _ Hfr)|done| |done].
      eapply ipc_ok_frame; [exact Hi|done|done|apply Hi].
    + by eapply mb_ok_resumed.
Qed.

Lemma wp_mb_fetch :
  0 < mb_entry x →
  wp (mb_fetch m) k (λ r k', r = (Some (ring_at x 0), RT_EOK) ∧ ∃ L', running k' L' ∧
    mb_ok k' L' m (ring_get x) ∧ signalled (N_sender m) (with_mailbox m (ring_get x) k) L k' L').
Proof.
  intros Hf. unfold mb_fetch. wp_step. eapply wp_mono; [apply wp_mb_get|]. intros ? ? [-> ->].
  pose proof (mb_ok_with _ _ _ _ (ring_get x) Hmb (ring_get_ok (mk_ring _ _ _ _ Hmb) Hf)) as Hmb1.
  eapply wp_mono.
  - apply (wp_signal_if (N_sender m) _ L); [by apply running_with_mailbox|done|apply Hmb].
  - intros r k' (-> & L' & Hr & Hfr & Hs & HL). split; [done|]. exists L'. split_and!; [done| |done].
    destruct HL as [->|(u & p & ->)].
    + destruct Hmb1 as [? ? Hi ?]. split; [by rewrite (fr_mailboxes _ _ Hfr)|done| |done].
      eapply ipc_ok_frame; [exact Hi|done|done|apply Hi].
    + by eapply mb_ok_resumed.
Qed.
End ops.

(** * The calls *)

Section calls.
Context {k : kernel} {L : lists} {m : nat} {x : rt_mailbox}.
Hypothesis Hrun : running k L.
Hypothesis Hmb : mb_ok k L m x.

Lemma mb_send_room fuel v timeout :
  mb_entry x < mb_size x →
  wp (rt_mb_send_wait (S fuel) m v timeout) k (λ out k', out = Return RT_EOK ∧ ∃ L',
    running k' L' ∧ mb_ok k' L' m (ring_put v x) ∧
    signalled (recv_list m) (with_mailbox m (ring_put v x) k) L k' L').
Proof.
  intros Hf. assert ((mb_entry x =? mb_size x) = false) as Hne by (apply Z.eqb_neq; lia).
  pose proof (mk_mailbox_at _ _ _ _ Hmb) as Hx.
  unfold rt_mb_send_wait, rt_thread_self. do 4 wp_step. wp_step. eapply wp_get_mb; [done|].
  rewrite Hne. simpl. wp_step. eapply wp_get_mb; [done|]. rewrite Hne.
  wp_step. eapply wp_mono; [by apply (wp_mb_deliver Hrun Hmb)|]. intros ? k' [-> H]. by wp_step.
Qed.

Lemma mb_send_full fuel v :
  mb_entry x = mb_size x →
  wp (rt_mb_send_wait fuel m v 0) k (λ out k', out = Return (- RT_EFULL) ∧ k' = k).
Proof.
  intros Hf. unfold rt_mb_send_wait, rt_thread_self. do 4 wp_step.
  wp_step. eapply wp_get_mb; [apply Hmb|]. rewrite Hf, Z.eqb_refl. simpl. by wp_step.
Qed.

Lemma mb_send_wait fuel t y v timeout :
  mb_entry x = mb_size x → may_block k t y → timeout ≠ 0 → timeout < RT_TICK_MAX / 2 →
  let k1 := with_error t RT_EOK y k in
  wp (rt_mb_send_wait (S fuel) m v timeout) k (λ out k',
    blocks (N_sender m) (obj_flag k (O_mb m)) timeout t (set_error RT_EOK y) k1 L k' ∧
    out = Resched (
      y ← get_thread t;
      if negb (error y =? RT_EOK) then mret (Return (error y))
      else
        now ← rt_tick_get;
        mb_send_loop fuel m (Some t) v
          (remaining_timeout timeout (if 0 <? timeout then rt_tick k else 0) now))).
Proof.
  intros Hf Hb Hn Htime k1. destruct (mk_ipc _ _ _ _ Hmb) as [_ (b & Hob & Hfl)].
  pose proof (mk_mailbox_at _ _ _ _ Hmb) as Hx. pose proof (mb_current _ _ _ Hb) as Hc.
  unfold rt_mb_send_wait, rt_thread_self. do 4 wp_step. wp_step. eapply wp_get_mb; [done|].
  rewrite Hf, Z.eqb_refl, (proj2 (Z.eqb_neq _ _) Hn). simpl.
  wp_step. eapply wp_get_mb; [done|]. rewrite Hf, Z.eqb_refl. rewrite Hc. wp_step. wp_step.
  destruct Hb as [_ Hy Hs Hid Hnest]. wp_step. eapply wp_upd_thread; [done|]. fold k1.
  rewrite (proj2 (Z.eqb_neq _ _) Hn). wp_step.
  eapply (wp_thread_context k1 L t (set_error RT_EOK y)).
  { by apply running_with_error. } { split; try done. apply lookup_insert_eq. }
  wp_step. eapply wp_get_object; [done|].
  wp_step. wp_use (wp_wait_on k1 L (N_sender m) t (set_error RT_EOK y) (flag b) timeout) as [-> Hbl].
  - by apply running_with_error.
  - done.
  - apply Hmb.
  - done.
  - apply lookup_insert_eq.
  - done.
  - done.
  - done.
  - wp_step. split; [|done]. unfold obj_flag. by rewrite Hob.
Qed.

Lemma mb_recv_some fuel timeout :
  0 < mb_entry x →
  wp (rt_mb_recv (S fuel) m timeout) k (λ out k', out = Return (Some (ring_at x 0), RT_EOK) ∧ ∃ L',
    running k' L' ∧ mb_ok k' L' m (ring_get x) ∧
    signalled (N_sender m) (with_mailbox m (ring_get x) k) L k' L').
Proof.
  intros Hf. assert ((mb_entry x =? 0) = false) as Hne by (apply Z.eqb_neq; lia).
  pose proof (mk_mailbox_at _ _ _ _ Hmb) as Hx.
  unfold rt_mb_recv, rt_thread_self. do 4 wp_step. wp_step. eapply wp_get_mb; [done|].
  rewrite Hne. simpl. wp_step. eapply wp_get_mb; [done|]. rewrite Hne.
  wp_step. eapply wp_mono; [by apply (wp_mb_fetch Hrun Hmb)|]. intros ? k' [-> H]. by wp_step.
Qed.

Lemma mb_recv_empty fuel :
  mb_entry x = 0 →
  wp (rt_mb_recv fuel m 0) k (λ out k', out = Return (None, - RT_ETIMEOUT) ∧ k' = k).
Proof.
  intros Hf. unfold rt_mb_recv, rt_thread_self. do 4 wp_step.
  wp_step. eapply wp_get_mb; [apply Hmb|]. rewrite Hf. simpl. by wp_step.
Qed.

Lemma mb_recv_wait fuel t y timeout :
  mb_entry x = 0 → may_block k t y → timeout ≠ 0 → timeout < RT_TICK_MAX / 2 →
  let k1 := with_error t RT_EOK y k in
  wp (rt_mb_recv (S fuel) m timeout) k (λ out k',
    blocks (recv_list m) (obj_flag k (O_mb m)) timeout t (set_error RT_EOK y) k1 L k' ∧
    out = Resched (
      y ← get_thread t;
      if negb (error y =? RT_EOK) then mret (Return (None, error y))
      else
        now ← rt_tick_get;
        mb_recv_loop fuel m (Some t)
          (remaining_timeout timeout (if 0 <? timeout then rt_tick k else 0) now))).
Proof.
  intros Hf Hb Hn Htime k1. destruct (mk_ipc _ _ _ _ Hmb) as [HL (b & Hob & Hfl)].
  pose proof (mk_mailbox_at _ _ _ _ Hmb) as Hx. pose proof (mb_current _ _ _ Hb) as Hc.
  unfold rt_mb_recv, rt_thread_self. do 4 wp_step. wp_step. eapply wp_get_mb; [done|].
  rewrite Hf, (proj2 (Z.eqb_neq _ _) Hn). simpl.
  wp_step. eapply wp_get_mb; [done|]. rewrite Hf. simpl (0 =? 0). cbv iota.
  rewrite Hc. wp_step. wp_step.
  destruct Hb as [_ Hy Hs Hid Hnest]. wp_step. eapply wp_upd_thread; [done|]. fold k1.
  rewrite (proj2 (Z.eqb_neq _ _) Hn). wp_step.
  eapply (wp_thread_context k1 L t (set_error RT_EOK y)).
  { by apply running_with_error. } { split; try done. apply lookup_insert_eq. }
  wp_step. eapply wp_get_object; [done|].
  wp_step. wp_use (wp_wait_on k1 L (recv_list m) t (set_error RT_EOK y) (flag b) timeout) as [-> Hbl].
  - by apply running_with_error.
  - done.
  - done.
  - done.
  - apply lookup_insert_eq.
  - done.
  - done.
  - done.
  - wp_step. split; [|done]. unfold obj_flag. by rewrite Hob.
Qed.
End calls.

(** * Properties *)

(** [rt_mb_send_wait], on every path, against the bounded queue.  With room
    the message is appended to the queue and the first waiting receiver, if any, is
    woken; a full mailbox gives [-RT_EFULL] to a sender that does not wait and is
    left alone; otherwise the sender is suspended on the list of senders, and when
    it runs again it reports its error code or tries again with what is left of its
    waiting time. *)
Theorem rt_mb_send_wait_spec k L m x t y v timeout fuel :
  running k L → mb_ok k L m x → (mb_entry x = mb_size x → may_block k t y) →
  timeout < RT_TICK_MAX / 2 →
  wp (rt_mb_send_wait (S fuel) m v timeout) k (λ out k',
    if mb_entry x <? mb_size x then out = Return RT_EOK ∧ ∃ L' x',
      running k' L' ∧ mb_ok k' L' m x' ∧ contents x' = contents x ++ [v] ∧
      signalled (recv_list m) (with_mailbox m x' k) L k' L'
    else if timeout =? 0 then out = Return (- RT_EFULL) ∧ k' = k
    else
      let k1 := with_error t RT_EOK y k in
      let fl := obj_flag k (O_mb m) in
      let L' := blocked (N_sender m) fl timeout t k1 L (timers k') in
      running k' L' ∧ mb_ok k' L' m x ∧ rt_current_thread k' = elected k L' ∧
      wait_queue L' (N_sender m)
      = insert_wait fl (threads k1) (prio (threads k1) t) t (wait_queue L (N_sender m)) ∧
      out = Resched (
        y ← get_thread t;
        if negb (error y =? RT_EOK) then mret (Return (error y))
        else
          now ← rt_tick_get;
          mb_send_loop fuel m (Some t) v
            (remaining_timeout timeout (if 0 <? timeout then rt_tick k else 0) now))).
Proof.
  intros Hrun Hmb Hb Htime. pose proof (mk_ring _ _ _ _ Hmb) as Hr. pose proof (rg_entry _ Hr) as He.
  destruct (Z.ltb_spec (mb_entry x) (mb_size x)) as [Hf|Hf].
  - eapply wp_mono; [by apply (mb_send_room Hrun Hmb)|]. intros out k' (-> & L' & ? & ? & ?).
    split; [done|]. exists L', (ring_put v x). split_and!; [done|done|by apply contents_put|done].
  - assert (mb_entry x = mb_size x) as E by lia.
    destruct (Z.eqb_spec timeout 0) as [->|Hn]; [by apply (mb_send_full Hmb)|].
    eapply wp_mono; [by apply (mb_send_wait Hrun Hmb fuel t y v timeout E (Hb E))|].
    intros out k' [Hbl ->]. cbv zeta. split_and!; [apply Hbl| |apply Hbl|by apply wait_queue_blocked|done].
    eapply mb_ok_blocked; [|done|exact Hbl]. destruct Hmb. by split.
Qed.

(** [rt_mb_recv], on every path, against the bounded queue.  The oldest
    message is removed and returned, and the first waiting sender, if any, is
    woken; an empty mailbox gives [-RT_ETIMEOUT] to a receiver that does not wait;
    otherwise the receiver is suspended, and when it runs again it reports its
    error code or tries again with what is left of its waiting time. *)
Theorem rt_mb_recv_spec k L m x t y timeout fuel :
  running k L → mb_ok k L m x → (mb_entry x = 0 → may_block k t y) →
  timeout < RT_TICK_MAX / 2 →
  wp (rt_mb_recv (S fuel) m timeout) k (λ out k',
    match contents x with
    | v :: q => out = Return (Some v, RT_EOK) ∧ ∃ L' x',
        running k' L' ∧ mb_ok k' L' m x' ∧ contents x' = q ∧
        signalled (N_sender m) (with_mailbox m x' k) L k' L'
    | [] =>
        if timeout =? 0 then out = Return (None, - RT_ETIMEOUT) ∧ k' = k
        else
          let k1 := with_error t RT_EOK y k in
          let fl := obj_flag k (O_mb m) in
          let L' := blocked (recv_list m) fl timeout t k1 L (timers k') in
          running k' L' ∧ mb_ok k' L' m x ∧ rt_current_thread k' = elected k L' ∧
          wait_queue L' (recv_list m)
          = insert_wait fl (threads k1) (prio (threads k1) t) t (wait_queue L (recv_list m)) ∧
          out = Resched (
            y ← get_thread t;
            if negb (error y =? RT_EOK) then mret (Return (None, error y))
            else
              now ← rt_tick_get;
              mb_recv_loop fuel m (Some t)
                (remaining_timeout timeout (if 0 <? timeout then rt_tick k else 0) now))
    end).
Proof.
  intros Hrun Hmb Hb Htime. pose proof (mk_ring _ _ _ _ Hmb) as Hr. pose proof (rg_entry _ Hr) as He.
  pose proof (length_contents _ Hr) as Hlen. destruct (Z.eq_dec (mb_entry x) 0) as [E|E].
  - destruct (contents x) as [|w q]; [|simpl in Hlen; lia].
    destruct (Z.eqb_spec timeout 0) as [->|Hn]; [by apply (mb_recv_empty Hmb)|].
    eapply wp_mono; [by apply (mb_recv_wait Hrun Hmb fuel t y timeout E (Hb E))|].
    intros out k' [Hbl ->]. cbv zeta. split_and!; [apply Hbl| |apply Hbl|by apply wait_queue_blocked|done].
    eapply mb_ok_blocked; [|done|exact Hbl]. destruct Hmb. by split.
  - rewrite (contents_get Hr) by lia.
    eapply wp_mono; [apply (mb_recv_some Hrun Hmb); lia|]. intros out k' (-> & L' & ? & ? & ?).
    split; [done|]. by exists L', (ring_get x).
Qed.

(** Send the messages [vs]; receive [n] messages. *)
Fixpoint send_all (m : nat) (vs : list Z) : K unit :=
  match vs with [] => mret tt | v :: vs => rt_mb_send m v;; send_all m vs end.
Fixpoint recv_all (m n : nat) : K (list Z) :=
  match n with
  | O => mret []
  | S n =>
      o ← rt_mb_recv 1 m 0;
      rest ← recv_all m n;
      mret (match o with Return (Some v, _) => v :: rest | _ => rest end)
  end.

Lemma wp_send_all m vs k L x :
  running k L → mb_ok k L m x → wait_queue L (recv_list m) = [] →
  mb_entry x + Z.of_nat (length vs) <= mb_size x →
  wp (send_all m vs) k (λ _ k', ∃ x', running k' L ∧ mb_ok k' L m x' ∧ contents x' = contents x ++ vs).
Proof.
  revert k x. induction vs as [|v vs IH]; intros k x Hrun Hmb Hq Hlen; simpl.
  { wp_step. exists x. by rewrite app_nil_r. }
  simpl in Hlen. pose proof (mk_ring _ _ _ _ Hmb) as Hr. pose proof (rg_entry _ Hr) as He.
  wp_step. eapply wp_mono; [apply (mb_send_room Hrun Hmb 0 v 0); lia|].
  intros out k1 (_ & L' & Hr1 & Hmb1 & Hs). unfold signalled in Hs. rewrite Hq in Hs.
  destruct Hs as [_ ->]. eapply wp_mono; [apply (IH k1 (ring_put v x) Hr1 Hmb1 Hq)|].
  - simpl. pose proof (rg_size _ Hr). unfold wrap. rewrite Z.mod_small by lia. lia.
  - intros ? k2 (x' & ? & ? & E). exists x'. split_and!; [done..|].
    rewrite E, (contents_put Hr) by lia. by rewrite <- app_assoc.
Qed.

Lemma wp_recv_all m n k L x :
  running k L → mb_ok k L m x → wait_queue L (N_sender m) = [] →
  Z.of_nat n <= mb_entry x →
  wp (recv_all m n) k (λ vs k', ∃ x', running k' L ∧ mb_ok k' L m x' ∧
    contents x = vs ++ contents x' ∧ length vs = n).
Proof.
  revert k x. induction n as [|n IH]; intros k x Hrun Hmb Hq Hlen; simpl.
  { wp_step. by exists x. }
  pose proof (mk_ring _ _ _ _ Hmb) as Hr. pose proof (rg_entry _ Hr) as He.
  wp_step. eapply wp_mono; [apply (mb_recv_some Hrun Hmb 0 0); lia|].
  intros out k1 (-> & L' & Hr1 & Hmb1 & Hs). unfold signalled in Hs. rewrite Hq in Hs.
  destruct Hs as [_ ->]. wp_step. eapply wp_mono; [apply (IH k1 (ring_get x) Hr1 Hmb1 Hq)|].
  - simpl. pose proof (rg_size _ Hr). unfold wrap. rewrite Z.mod_small by lia. lia.
  - intros vs k2 (x' & ? & ? & E & ?). wp_step. exists x'. split_and!; [done..| |simpl; lia].
    rewrite (contents_get Hr), E by lia. done.
Qed.

(** C9: a mailbox is a queue.  Messages sent to a mailbox that has room for them
    and that nobody waits on are received in the order in which they were sent,
    after the messages that were there before; none is lost or duplicated. *)
Theorem rt_mb_fifo k L m x vs :
  running k L → mb_ok k L m x →
  wait_queue L (recv_list m) = [] → wait_queue L (N_sender m) = [] →
  mb_entry x + Z.of_nat (length vs) <= mb_size x →
  wp (send_all m vs;; recv_all m (length (contents x) + length vs)) k (λ ws k',
    ws = contents x ++ vs ∧ ∃ x', mb_ok k' L m x' ∧ contents x' = []).
Proof.
  intros Hrun Hmb Hq1 Hq2 Hlen. wp_step.
  eapply wp_mono; [by apply (wp_send_all m vs k L x)|]. intros ? k1 (x1 & Hr1 & Hmb1 & E1).
  eapply wp_mono; [apply (wp_recv_all m _ k1 L x1 Hr1 Hmb1 Hq2)|].
  - rewrite <- (length_contents x1) by apply Hmb1. rewrite E1, length_app. lia.
  - intros ws k2 (x2 & _ & Hmb2 & E2 & Hl).
    assert (length (contents x2) = 0%nat) as Hz.
    { apply (f_equal length) in E2. rewrite E1, !length_app in E2. lia. }
    apply length_zero_iff_nil in Hz. rewrite Hz, app_nil_r in E2.
    split; [by rewrite <- E2, E1|]. by exists x2.
Qed.

(** * Instances *)

(** A mailbox of two messages that holds one. *)
Definition mb_demo : kernel :=
  run (rt_mb_init 0 "mb" [0; 0] 2 RT_IPC_FLAG_FIFO;; rt_mb_send 0 7) booted.
Definition mb_demo_box : rt_mailbox := mk_mailbox [7; 0] 2 1 1 0.

Lemma mb_demo_running : running mb_demo (lists_at mb_demo).
Proof. apply running_b_spec. by vm_compute. Qed.

Lemma mb_demo_ok : mb_ok mb_demo (lists_at mb_demo) 0 mb_demo_box.
Proof.
  split; [by vm_compute|by split|apply ipc_ok_b_spec; by vm_compute|].
  exists []. by vm_compute.
Qed.

Lemma mb_demo_may_block : may_block mb_demo 2 (thread_at mb_demo 2).
Proof. apply may_block_b_spec. by vm_compute. Qed.

Lemma rt_mb_send_wait_witness :
  wp (rt_mb_send_wait 1 0 9 100) mb_demo (λ out _, out = Return RT_EOK).
Proof.
  eapply wp_mono.
  - apply (rt_mb_send_wait_spec mb_demo (lists_at mb_demo) 0 mb_demo_box 2 (thread_at mb_demo 2) 9 100 0).
    + exact mb_demo_running.
    + exact mb_demo_ok.
    + intros _. exact mb_demo_may_block.
    + done.
  - by intros out k' [-> _].
Defined.

Lemma rt_mb_recv_witness :
  wp (rt_mb_recv 1 0 100) mb_demo (λ out _, out = Return (Some 7, RT_EOK)).
Proof.
  eapply wp_mono.
  - apply (rt_mb_recv_spec mb_demo (lists_at mb_demo) 0 mb_demo_box 2 (thread_at mb_demo 2) 100 0).
    + exact mb_demo_running.
    + exact mb_demo_ok.
    + intros _. exact mb_demo_may_block.
    + done.
  - by intros out k' [-> _].
Defined.

Lemma rt_mb_fifo_witness :
  wp (send_all 0 [8];; recv_all 0 2) mb_demo (λ ws _, ws = [7; 8]).
Proof.
  eapply wp_mono.
  - apply (rt_mb_fifo mb_demo (lists_at mb_demo) 0 mb_demo_box [8]).
    + exact mb_demo_running.
    + exact mb_demo_ok.
    + by vm_compute.
    + by vm_compute.
    + done.
  - by intros ws k' [-> _].
Defined.
