(* ===== verification/MsgQueue.v ===== *)
(** The message queue of [src/ipc.c]: the chained messages refine a bounded queue
    with an urgent entrance; the invariant is kept by each critical section, so
    that it holds however the sections of several callers interleave. *)

From Stdlib Require Import ZArith Lia.
From stdpp Require Import numbers strings base gmap list.
From S2P Require Import Prelude RtList Bitmap Kernel Scheduler Object Timer Thread Ipc.
From S2P Require Import Message Invariant ThreadSpec Check Demo TimerSpec ThreadRun IpcSpec.
From S2P Require Import Mailbox.
Local Open Scope Z_scope.

(** * Chains of messages *)

(** The messages [l], linked from the pointer [a] to null. *)
Fixpoint chain (mem : gmap Z mq_message) (a : Z) (l : list Z) : Prop :=
  match l with
  | [] => a = 0
  | b :: l => a = b ∧ b ≠ 0 ∧ ∃ x, mem !! b = Some x ∧ chain mem (msg_next x) l
  end.

Lemma chain_insert mem a l b x : b ∉ l → chain mem a l → chain (<[b := x]> mem) a l.
Proof.
  revert a. induction l as [|c l IH]; [done|]. intros a Hb (-> & Hn & y & Hy & Hc).
  split; [done|]. split; [done|]. exists y. rewrite lookup_insert_ne by set_solver.
  split; [done|]. apply IH; [set_solver|done].
Qed.

(** Change the bytes of a message. *)
Lemma chain_data mem a l b x y :
  mem !! b = Some x → msg_next y = msg_next x → chain mem a l → chain (<[b := y]> mem) a l.
Proof.
  intros Hb Hn. revert a. induction l as [|c l IH]; [done|]. intros a (-> & Hc & z & Hz & Hl).
  split; [done|]. split; [done|]. destruct (decide (b = c)) as [->|].
  - exists y. rewrite lookup_insert_eq. simplify_eq. rewrite Hn. eauto.
  - exists z. rewrite lookup_insert_ne by done. eauto.
Qed.

(** Append a message whose link is null. *)
Lemma chain_snoc mem a l t b :
  NoDup (l ++ [t; b]) → chain mem a (l ++ [t]) → b ≠ 0 →
  (∃ y, mem !! b = Some y ∧ msg_next y = 0) →
  ∀ x, mem !! t = Some x → chain (<[t := set_msg_next b x]> mem) a (l ++ [t; b]).
Proof.
  intros Hnd Hc Hb (y & Hy & Hy0) x Hx. revert a Hnd Hc.
  induction l as [|c l IH]; intros a Hnd Hc; simpl in *.
  - destruct Hc as (-> & Ht & z & Hz & _). simplify_eq. split_and!; [done|done|].
    exists (set_msg_next b x). rewrite lookup_insert_eq. split_and!; [done|done|done|].
    exists y. rewrite lookup_insert_ne; [done|]. apply NoDup_cons in Hnd as [? _]. set_solver.
  - destruct Hc as (-> & Hcn & z & Hz & Hl). split_and!; [done|done|]. exists z.
    apply NoDup_cons in Hnd as [Hnc Hnd]. rewrite lookup_insert_ne by set_solver.
    split; [done|]. by apply IH.
Qed.

(** * The invariant *)

(** [fr] are the free messages, [us] the queued ones, oldest first, and [held]
    those that a caller has taken and not yet linked again. *)
Record mq_inv (k : kernel) (m : nat) (q : rt_messagequeue) (fr us held : list Z) : Prop := {
  qi_mq : mqs k !! m = Some q;
  qi_free : chain (mq_mem k) (msg_queue_free q) fr;
  qi_used : chain (mq_mem k) (msg_queue_head q) us;
  qi_tail : msg_queue_tail q = default 0 (last us);
  qi_entry : mq_entry q = Z.of_nat (length us);
  qi_nodup : NoDup (fr ++ us ++ held);
  qi_slots : ∀ a, a ∈ fr ++ us ++ held → a ≠ 0 ∧
    ∃ x, mq_mem k !! a = Some x ∧ Z.of_nat (length (msg_data x)) = mq_msg_size q;
  qi_count : Z.of_nat (length (fr ++ us ++ held)) = max_msgs q ∧ max_msgs q < 2 ^ 16
}.

(** The bytes of the queued messages. *)
Definition payload (k : kernel) (a : Z) : list Z :=
  match mq_mem k !! a with Some x => msg_data x | None => [] end.
Definition payloads (k : kernel) (us : list Z) : list (list Z) := payload k <$> us.

(** The kernel after a critical section: only the queue and its messages change. *)
Definition with_mq (m : nat) (q : rt_messagequeue) (mem : gmap Z mq_message) (k : kernel) : kernel :=
  set_mq_mem mem (set_mqs (<[m := q]> (mqs k)) k).

(** The messages [l] are as they were. *)
Definition untouched (k : kernel) (mem : gmap Z mq_message) (l : list Z) : Prop :=
  ∀ b, b ∈ l → mem !! b = mq_mem k !! b.

Lemma payloads_ext k k' us :
  (∀ a, a ∈ us → mq_mem k' !! a = mq_mem k !! a) → payloads k' us = payloads k us.
Proof.
  intros H. apply list_fmap_ext. intros i a Ha. unfold payload.
  rewrite H; [done|]. by eapply list_elem_of_lookup_2.
Qed.

(** * The critical sections *)

Section sections.
Context {k : kernel} {m : nat} {q : rt_messagequeue} {fr us held : list Z}.
Hypothesis Hq : mq_inv k m q fr us held.

Lemma wp_take_free_none :
  fr = [] → wp (mq_take_free m) k (λ a k', a = 0 ∧ k' = k).
Proof.
  intros ->. unfold mq_take_free. wp_step. eapply wp_get_mq; [apply Hq|].
  pose proof (qi_free _ _ _ _ _ _ Hq) as Hf. simpl in Hf. rewrite Hf. simpl. by wp_step.
Qed.

Lemma wp_take_free a fr' :
  fr = a :: fr' →
  wp (mq_take_free m) k (λ b k', b = a ∧ mq_mem k' = mq_mem k ∧ ∃ q',
    k' = with_mq m q' (mq_mem k) k ∧ mq_msg_size q' = mq_msg_size q ∧
    mq_inv k' m q' fr' us (a :: held)).
Proof.
  intros E. destruct Hq as [Hm Hf Hu Ht He Hnd Hs Hc]. rewrite E in *.
  destruct Hf as (Hfa & Ha & x & Hx & Hf).
  unfold mq_take_free. wp_step. eapply wp_get_mq; [done|].
  rewrite Hfa, (proj2 (Z.eqb_neq _ _) Ha). wp_step. eapply wp_get_msg; [done|].
  wp_step. eapply wp_upd_mq; [done|]. wp_step. split; [done|]. split; [done|].
  exists (set_msg_queue_free (msg_next x) q). split; [by destruct k|]. split; [done|].
  assert ((a :: fr') ++ us ++ held ≡ₚ fr' ++ us ++ a :: held) as Hp 
    by (simpl; rewrite !app_assoc; apply Permutation_middle).
  split; simpl; try done.
  - apply lookup_insert_eq.
  - by rewrite <- Hp.
  - intros b. rewrite <- Hp. apply Hs.
  - by rewrite <- Hp.
Qed.

(** The caller writes to a message it holds. *)
Lemma mq_inv_write a x y :
  a ∈ held → mq_mem k !! a = Some x → length (msg_data y) = length (msg_data x) →
  mq_inv (set_mq_mem (<[a := y]> (mq_mem k)) k) m q fr us held ∧
  payloads (set_mq_mem (<[a := y]> (mq_mem k)) k) us = payloads k us.
Proof.
  intros Ha Hx Hlen. destruct Hq as [Hm Hf Hu Ht He Hnd Hs Hc].
  assert (a ∉ fr ∧ a ∉ us) as [Hnf Hnu].
  { apply NoDup_app in Hnd as (_ & H1 & H2). apply NoDup_app in H2 as (_ & H2 & _). set_solver. }
  split.
  - split; simpl; try done; [by apply chain_insert..|].
    intros b Hb. destruct (Hs b Hb) as (? & z & Hz & Hzl). split; [done|].
    destruct (decide (b = a)) as [->|].
    + exists y. rewrite lookup_insert_eq. simplify_eq. split; [done|]. lia.
    + exists z. by rewrite lookup_insert_ne.
  - apply payloads_ext. intros b Hb. simpl. rewrite lookup_insert_ne; [done|set_solver].
Qed.

Lemma last_us_null : default 0 (last us) = 0 → us = [].
Proof.
  intros E. destruct us as [|t us' _] eqn:Eus using rev_ind; [done|]. rewrite last_snoc in E.
  destruct (qi_slots _ _ _ _ _ _ Hq t) as [Hn _]; [set_solver|]. by simpl in E.
Qed.

(** Link a held message at the tail and count it. *)
Lemma wp_link_tail a held' :
  held = a :: held' → (∃ x, mq_mem k !! a = Some x ∧ msg_next x = 0) →
  wp (mq_link_tail m a;; upd_mq m (λ q, set_mq_entry (u16 (mq_entry q + 1)) q)) k (λ _ k', ∃ q' mem,
    k' = with_mq m q' mem k ∧ mq_msg_size q' = mq_msg_size q ∧
    mq_inv k' m q' fr (us ++ [a]) held' ∧ payloads k' (us ++ [a]) = payloads k us ++ [payload k a] ∧
    untouched k mem held').
Proof.
  intros E (x & Hx & Hx0). pose proof last_us_null as Hlast.
  destruct Hq as [Hm Hf Hu Ht He Hnd Hs [Hc1 Hc2]]. rewrite E in *.
  destruct (Hs a) as [Ha _]; [set_solver|].
  assert (fr ++ us ++ a :: held' = fr ++ (us ++ [a]) ++ held') as Eapp by by rewrite <- !app_assoc.
  assert (u16 (mq_entry q + 1) = Z.of_nat (length (us ++ [a]))) as Ee.
  { rewrite He, length_app. simpl. unfold wrap. rewrite !length_app in Hc1. simpl in Hc1.
    rewrite Z.mod_small by lia. lia. }
  unfold mq_link_tail. wp_step. wp_step. eapply wp_get_mq; [done|].
  destruct (Z.eqb_spec (msg_queue_tail q) 0) as [Et|Et]; simpl.
  - (* the queue was empty *)
    rewrite Ht in Et. apply Hlast in Et. subst us. simpl in Hu. wp_step. wp_step.
    wp_step. eapply wp_upd_mq; [done|]. rewrite Hu. simpl. eapply wp_upd_mq; [apply lookup_insert_eq|].
    eapply wp_upd_mq; [apply lookup_insert_eq|]. eexists _, (mq_mem k).
    split; [unfold with_mq, set_mqs, set_mq_mem; simpl; by rewrite !insert_insert_eq|].
    split; [done|]. split.
    + split; simpl; try done.
      * rewrite !insert_insert_eq. apply lookup_insert_eq.
      * split_and!; [done|done|]. eauto.
    + done.
  - (* behind the last message *)
    destruct us as [|t us' _] using rev_ind; [done|]. rewrite last_snoc in Ht. simpl in Ht.
    destruct (Hs t) as (Htn & xt & Hxt & Hlt); [set_solver|].
    assert (a ≠ t ∧ t ∉ fr ∧ t ∉ us' ∧ NoDup (us' ++ [t; a]) ∧ t ∉ held') as (Hat & Htf & Htu & Hnd2 & Hth).
    { pose proof Hnd as Hnd0. rewrite Eapp in Hnd0.
      apply NoDup_app in Hnd0 as (_ & H1 & H2). apply NoDup_app in H2 as (H2 & H6 & _).
      rewrite <- app_assoc in H2. simpl in H2. pose proof H2 as H3.
      apply NoDup_app in H2 as (_ & H4 & H5). apply NoDup_cons in H5 as [H5 _].
      split_and!; [set_solver|set_solver|set_solver|done|set_solver]. }
    wp_step. eapply wp_upd_msg; [by rewrite Ht|]. rewrite Ht.
    wp_step. eapply wp_upd_mq; [done|].
    assert (msg_queue_head q ≠ 0) as Hh.
    { destruct us' as [|c us']; simpl in Hu; destruct Hu as (-> & ? & _); done. }
    rewrite (proj2 (Z.eqb_neq _ _) Hh). wp_step. eapply wp_upd_mq; [apply lookup_insert_eq|].
    eexists _, (<[t := set_msg_next a xt]> (mq_mem k)).
    split; [unfold with_mq, set_mqs, set_mq_mem; simpl; by rewrite !insert_insert_eq|].
    split; [done|]. split.
    + split; simpl.
      * rewrite insert_insert_eq. apply lookup_insert_eq.
      * by apply chain_insert.
      * rewrite <- app_assoc. apply chain_snoc; [done|done|done|eauto|done].
      * by rewrite last_snoc.
      * done.
      * by rewrite <- Eapp.
      * intros b. rewrite <- Eapp. intros Hb. destruct (Hs b Hb) as (? & z & Hz & ?). split; [done|].
        destruct (decide (b = t)) as [->|].
        -- exists (set_msg_next a xt). rewrite lookup_insert_eq. done.
        -- exists z. by rewrite lookup_insert_ne.
      * by rewrite <- Eapp.
    + split; [|intros b Hb; rewrite lookup_insert_ne; [done|by intros <-]].
      unfold payloads. rewrite !fmap_app. simpl. unfold payload. simpl.
      rewrite lookup_insert_eq, lookup_insert_ne, Hx, Hxt by done. do 2 f_equal.
      apply list_fmap_ext. intros i b Hb. rewrite lookup_insert_ne; [done|].
      intros <-. apply Htu. by eapply list_elem_of_lookup_2.
Qed.

(** Link a held message at the head and count it. *)
Lemma wp_link_head a held' :
  held = a :: held' →
  wp (mq_link_head m a;; upd_mq m (λ q, set_mq_entry (u16 (mq_entry q + 1)) q)) k (λ _ k', ∃ q' mem,
    k' = with_mq m q' mem k ∧ mq_msg_size q' = mq_msg_size q ∧
    mq_inv k' m q' fr (a :: us) held' ∧ payloads k' (a :: us) = payload k a :: payloads k us ∧
    untouched k mem held').
Proof.
  intros E. pose proof last_us_null as Hlast.
  destruct Hq as [Hm Hf Hu Ht He Hnd Hs [Hc1 Hc2]]. rewrite E in *.
  destruct (Hs a) as (Ha & x & Hx & Hxl); [set_solver|].
  assert (fr ++ us ++ a :: held' ≡ₚ fr ++ (a :: us) ++ held') as Hp.
  { apply Permutation_app_head. simpl. symmetry. apply Permutation_middle. }
  assert (a ∉ fr ∧ a ∉ us ∧ a ∉ held') as (Hnf & Hnu & Hnh).
  { apply NoDup_app in Hnd as (_ & H1 & H2). apply NoDup_app in H2 as (_ & H2 & H3).
    apply NoDup_cons in H3 as [H3 _]. set_solver. }
  unfold mq_link_head. wp_step. wp_step. eapply wp_get_mq; [done|].
  wp_step. eapply wp_upd_msg; [done|]. wp_step. eapply wp_upd_mq; [done|].
  set (mem := <[a := set_msg_next (msg_queue_head q) x]> (mq_mem k)).
  assert (∀ q', mq_msg_size q' = mq_msg_size q → max_msgs q' = max_msgs q →
    msg_queue_free q' = msg_queue_free q → msg_queue_head q' = a →
    msg_queue_tail q' = default 0 (last (a :: us)) →
    mq_entry q' = u16 (mq_entry q + 1) →
    mq_inv (with_mq m q' mem k) m q' fr (a :: us) held' ∧
    payloads (with_mq m q' mem k) (a :: us) = payload k a :: payloads k us ∧
    untouched k mem held') as Hinv.
  { intros q' H1 H2 H3 H4 H5 H6. split; [|split].
    - split; simpl.
      + apply lookup_insert_eq.
      + rewrite H3. by apply chain_insert.
      + split_and!; [done|done|]. eexists. split; [apply lookup_insert_eq|]. simpl. by apply chain_insert.
      + done.
      + rewrite H6, He. rewrite !length_app in Hc1. simpl in Hc1. unfold wrap.
        rewrite Z.mod_small by lia. lia.
      + by rewrite <- Hp.
      + intros b. rewrite H1. rewrite <- Hp. intros Hb. destruct (Hs b Hb) as (? & z & Hz & ?).
        split; [done|]. unfold mem. destruct (decide (b = a)) as [->|].
        * eexists. rewrite lookup_insert_eq. split; [done|]. done.
        * exists z. by rewrite lookup_insert_ne.
      + rewrite H2. by rewrite <- Hp.
    - unfold payloads. simpl. unfold payload at 1. simpl. unfold mem. rewrite lookup_insert_eq.
      unfold payload at 2. rewrite Hx. f_equal. apply payloads_ext. intros b Hb. simpl.
      rewrite lookup_insert_ne; [done|]. intros <-. done.
    - intros b Hb. unfold mem. rewrite lookup_insert_ne; [done|]. intros <-. done. }
  assert (last (a :: us) = Some (default a (last us))) as Elast.
  { destruct us as [|t us' _] using rev_ind; [done|].
    change (a :: us' ++ [t]) with ((a :: us') ++ [t]). by rewrite !last_snoc. }
  destruct (Z.eqb_spec (msg_queue_tail q) 0) as [Et|Et].
  - eapply wp_upd_mq; [apply lookup_insert_eq|]. eapply wp_upd_mq; [apply lookup_insert_eq|].
    eexists _, mem. split; [unfold with_mq, set_mqs, set_mq_mem; simpl; by rewrite !insert_insert_eq|].
    split; [done|]. unfold set_mqs, set_mq_mem. simpl. rewrite !insert_insert_eq.
    apply Hinv; try done. simpl. rewrite Ht in Et. apply Hlast in Et. by subst us.
  - wp_step. eapply wp_upd_mq; [apply lookup_insert_eq|].
    eexists _, mem. split; [unfold with_mq, set_mqs, set_mq_mem; simpl; by rewrite !insert_insert_eq|].
    split; [done|]. unfold set_mqs, set_mq_mem. simpl. rewrite !insert_insert_eq.
    apply Hinv; try done. simpl msg_queue_tail. rewrite Elast, Ht. simpl.
    destruct us as [|t us' _] using rev_ind; [done|]. by rewrite last_snoc.
Qed.

(** Take the oldest message. *)
Lemma wp_take_head a us' :
  us = a :: us' →
  wp (mq_take_head m) k (λ b k', b = a ∧ ∃ q',
    k' = with_mq m q' (mq_mem k) k ∧ mq_msg_size q' = mq_msg_size q ∧
    mq_inv k' m q' fr us' (a :: held)).
Proof.
  intros E. destruct Hq as [Hm Hf Hu Ht He Hnd Hs [Hc1 Hc2]]. rewrite E in *.
  destruct Hu as (Hua & Ha & x & Hx & Hu).
  assert (fr ++ (a :: us') ++ held ≡ₚ fr ++ us' ++ a :: held) as Hp.
  { apply Permutation_app_head. simpl. apply Permutation_middle. }
  assert (a ∉ us') as Hnu.
  { apply NoDup_app in Hnd as (_ & _ & H2). simpl in H2. apply NoDup_cons in H2 as [H2 _]. set_solver. }
  unfold mq_take_head. wp_step. eapply wp_get_mq; [done|]. rewrite Hua.
  wp_step. eapply wp_get_msg; [done|]. wp_step. eapply wp_upd_mq; [done|]. wp_step.
  assert (∀ q', mq_msg_size q' = mq_msg_size q → max_msgs q' = max_msgs q →
    msg_queue_free q' = msg_queue_free q → msg_queue_head q' = msg_next x →
    msg_queue_tail q' = default 0 (last us') → mq_entry q' = u16 (mq_entry q - 1) →
    mq_inv (with_mq m q' (mq_mem k) k) m q' fr us' (a :: held)) as Hinv.
  { intros q' H1 H2 H3 H4 H5 H6. split; simpl.
    - apply lookup_insert_eq.
    - by rewrite H3.
    - by rewrite H4.
    - done.
    - rewrite H6, He. rewrite !length_app in Hc1. simpl in Hc1 |- *. unfold wrap.
      rewrite Z.mod_small by lia. lia.
    - by rewrite <- Hp.
    - intros b. rewrite H1, <- Hp. apply Hs.
    - rewrite H2, <- Hp. done. }
  destruct (Z.eqb_spec (msg_queue_tail q) a) as [Et|Et].
  - eapply wp_upd_mq; [apply lookup_insert_eq|].
    wp_step. eapply wp_upd_mq; [apply lookup_insert_eq|]. wp_step. split; [done|].
    eexists. split; [unfold with_mq, set_mqs, set_mq_mem; simpl; by rewrite !insert_insert_eq|].
    split; [done|]. unfold set_mqs. simpl. rewrite !insert_insert_eq. apply Hinv; try done. simpl.
    destruct us' as [|t us'' _] using rev_ind; [done|]. exfalso. apply Hnu.
    change (a :: us'' ++ [t]) with ((a :: us'') ++ [t]) in Ht. rewrite last_snoc in Ht. simpl in Ht.
    set_solver.
  - wp_step. wp_step. eapply wp_upd_mq; [apply lookup_insert_eq|]. wp_step. split; [done|].
    eexists. split; [unfold with_mq, set_mqs, set_mq_mem; simpl; by rewrite !insert_insert_eq|].
    split; [done|]. unfold set_mqs. simpl. rewrite !insert_insert_eq. apply Hinv; try done. simpl.
    destruct us' as [|t us'' _] using rev_ind; [by simpl in Ht|]. rewrite last_snoc.
    change (a :: us'' ++ [t]) with ((a :: us'') ++ [t]) in Ht. by rewrite last_snoc in Ht.
Qed.

(** Give a held message back. *)
Lemma wp_put_free a held' :
  held = a :: held' →
  wp (mq_put_free m a) k (λ _ k', ∃ q' mem,
    k' = with_mq m q' mem k ∧ mq_msg_size q' = mq_msg_size q ∧
    mq_inv k' m q' (a :: fr) us held' ∧ payloads k' us = payloads k us ∧ untouched k mem held').
Proof.
  intros E. destruct Hq as [Hm Hf Hu Ht He Hnd Hs [Hc1 Hc2]]. rewrite E in *.
  destruct (Hs a) as (Ha & x & Hx & Hxl); [set_solver|].
  assert (fr ++ us ++ a :: held' ≡ₚ (a :: fr) ++ us ++ held') as Hp.
  { simpl. rewrite !app_assoc. symmetry. apply Permutation_middle. }
  assert (a ∉ fr ∧ a ∉ us ∧ a ∉ held') as (Hnf & Hnu & Hnh).
  { apply NoDup_app in Hnd as (_ & H1 & H2). apply NoDup_app in H2 as (_ & H2 & H3).
    apply NoDup_cons in H3 as [H3 _]. set_solver. }
  unfold mq_put_free. wp_step. eapply wp_get_mq; [done|]. wp_step. eapply wp_upd_msg; [done|].
  eapply wp_upd_mq; [done|]. eexists _, (<[a := set_msg_next (msg_queue_free q) x]> (mq_mem k)).
  split; [done|]. split; [done|]. split.
  - split; simpl.
    + apply lookup_insert_eq.
    + split_and!; [done|done|]. eexists. split; [apply lookup_insert_eq|]. simpl. by apply chain_insert.
    + by apply chain_insert.
    + done.
    + done.
    + by rewrite <- Hp.
    + intros b. rewrite <- Hp. intros Hb. destruct (Hs b Hb) as (? & z & Hz & ?). split; [done|].
      destruct (decide (b = a)) as [->|].
      * eexists. rewrite lookup_insert_eq. split; [done|]. done.
      * exists z. by rewrite lookup_insert_ne.
    + split; [|done]. rewrite <- Hc1, Hp. done.
  - split; [|intros b Hb; rewrite lookup_insert_ne; [done|by intros <-]].
    apply payloads_ext. intros b Hb. simpl. rewrite lookup_insert_ne; [done|]. intros <-. done.
Qed.
End sections.

(** * The calls *)

Definition mq_list (m : nat) : node := N_suspend (O_mq m).

(** The effect of a call on threads: nothing, or the first receiver is woken. *)
Definition notified (hd : node) (k : kernel) (L : lists) (k' : kernel) (L' : lists) : Prop :=
  match wait_queue L hd with
  | [] => threads k' = threads k ∧ rt_current_thread k' = rt_current_thread k ∧ L' = L
  | u :: q => ∃ z, threads k !! u = Some z ∧ stat z = RT_THREAD_SUSPEND ∧
      L' = resumed u (current_priority z) L ∧ wait_queue L' hd = q ∧
      threads k' = <[u := set_stat RT_THREAD_READY z]> (threads k) ∧
      rt_current_thread k' = elected k L'
  end.

Lemma running_with_mq k L m q mem : running k L → running (with_mq m q mem k) L.
Proof. intros H. split; apply H. Qed.

Lemma mq_inv_frame k k' m q fr us held :
  mq_inv k m q fr us held → mqs k' = mqs k → mq_mem k' = mq_mem k →
  mq_inv k' m q fr us held ∧ ∀ l, payloads k' l = payloads k l.
Proof.
  intros [? ? ? ? ? ? ? ?] E1 E2. split; [by split; rewrite ?E1, ?E2|].
  intros l. apply payloads_ext. by rewrite E2.
Qed.

(** The common end of sending: link (by [link]), count and notify. *)
Lemma wp_mq_finish k L m q fr held us' ps (link : K unit) :
  running k L → ipc_ok k L (O_mq m) →
  wp (link;; upd_mq m (λ q, set_mq_entry (u16 (mq_entry q + 1)) q)) k (λ _ k', ∃ q' mem,
    k' = with_mq m q' mem k ∧ mq_msg_size q' = mq_msg_size q ∧
    mq_inv k' m q' fr us' held ∧ payloads k' us' = ps ∧ untouched k mem held) →
  wp (link;; mq_notify m) k (λ r k', r = RT_EOK ∧ ∃ q' L',
    running k' L' ∧ ipc_ok k' L' (O_mq m) ∧ mq_msg_size q' = mq_msg_size q ∧
    mq_inv k' m q' fr us' held ∧ payloads k' us' = ps ∧ notified (mq_list m) k L k' L' ∧
    untouched k (mq_mem k') held).
Proof.
  intros Hrun Hipc Hlink. unfold mq_notify. apply wp_assoc. wp_step.
  eapply wp_mono; [exact Hlink|]. intros [] k1 (q' & mem & -> & Hsz & Hinv & Hp & Hun).
  eapply wp_mono.
  - apply (wp_signal_if (mq_list m) _ L RT_EOK); [by apply running_with_mq|done|apply Hipc].
  - intros r k' (-> & L' & Hr & Hf & Hs & HL). split; [done|]. exists q', L'.
    destruct (mq_inv_frame _ k' _ _ _ _ _ Hinv (fr_mqs _ _ Hf) (fr_mq_mem _ _ Hf)) as [Hinv' Hp'].
    split_and!; [done| |done|done|by rewrite Hp'| |].
    + eapply (ipc_ok_frame (with_mq m q' mem k) k' L L'); [exact Hipc|done|done|].
      destruct HL as [->|(u & p & ->)]; [apply Hipc|]. apply is_Some_resumed; [done|apply Hipc].
    + unfold signalled in Hs. unfold notified. destruct (wait_queue L (mq_list m)) as [|u l].
      * destruct Hs as [-> ->]. done.
      * exact Hs.
    + by rewrite (fr_mq_mem _ _ Hf).
Qed.

Section calls.
Context {k : kernel} {L : lists} {m : nat} {q : rt_messagequeue} {fr us held : list Z}.
Hypothesis Hrun : running k L.
Hypothesis Hipc : ipc_ok k L (O_mq m).
Hypothesis Hq : mq_inv k m q fr us held.
Variable buffer : list Z.
Hypothesis Hbuf : buffer ≠ [].

Lemma mq_send_too_long :
  mq_msg_size q < Z.of_nat (length buffer) →
  wp (rt_mq_send m buffer) k (λ r k', r = - RT_ERROR ∧ k' = k).
Proof.
  intros Hl. unfold rt_mq_send. wp_step. apply wp_assert; [by rewrite bool_decide_eq_false_2|].
  wp_step. eapply wp_get_mq; [apply Hq|]. rewrite (proj2 (Z.ltb_lt _ _) Hl). by wp_step.
Qed.

Lemma mq_send_full :
  Z.of_nat (length buffer) <= mq_msg_size q → fr = [] →
  wp (rt_mq_send m buffer) k (λ r k', r = - RT_EFULL ∧ k' = k).
Proof.
  intros Hl Hf. unfold rt_mq_send. wp_step. apply wp_assert; [by rewrite bool_decide_eq_false_2|].
  wp_step. eapply wp_get_mq; [apply Hq|]. rewrite (proj2 (Z.ltb_ge _ _) Hl).
  wp_step. eapply wp_mono; [by apply (wp_take_free_none Hq)|]. intros ? ? [-> ->]. simpl. by wp_step.
Qed.

(** The bytes of the message in the slot [a] after the copy. *)
Definition filled (a : Z) : list Z := buffer ++ drop (length buffer) (payload k a).

Lemma mq_send_room a fr' :
  Z.of_nat (length buffer) <= mq_msg_size q → fr = a :: fr' →
  wp (rt_mq_send m buffer) k (λ r k', r = RT_EOK ∧ ∃ q' L',
    running k' L' ∧ ipc_ok k' L' (O_mq m) ∧ mq_msg_size q' = mq_msg_size q ∧
    mq_inv k' m q' fr' (us ++ [a]) held ∧
    payloads k' (us ++ [a]) = payloads k us ++ [filled a] ∧ notified (mq_list m) k L k' L').
Proof.
  intros Hl Hf. unfold rt_mq_send. wp_step. apply wp_assert; [by rewrite bool_decide_eq_false_2|].
  wp_step. eapply wp_get_mq; [apply Hq|]. rewrite (proj2 (Z.ltb_ge _ _) Hl).
  wp_step. eapply wp_mono; [by apply (wp_take_free Hq a fr')|].
  intros b k1 (-> & Hmem1 & q1 & Ek1 & Hsz1 & Hq1).
  destruct (qi_slots _ _ _ _ _ _ Hq1 a) as (Ha & x & Hx & Hxl); [set_solver|].
  rewrite (proj2 (Z.eqb_neq _ _) Ha).
  assert (payload k a = msg_data x) as Epa by (unfold payload; by rewrite <- Hmem1, Hx).
  wp_step. eapply wp_upd_msg; [done|]. wp_step. unfold mq_fill.
  eapply wp_upd_msg; [apply lookup_insert_eq|].
  set (y := set_msg_data (filled a) (set_msg_next 0 x)).
  match goal with |- wp _ ?s _ => assert (s = set_mq_mem (<[a := y]> (mq_mem k1)) k1) as -> end.
  { unfold y, filled. rewrite Epa. unfold set_mq_mem. simpl. by rewrite insert_insert_eq. }
  destruct (mq_inv_write Hq1 a x y) as [Hq2 Hp2]; [set_solver|done| |].
  { simpl. unfold filled. rewrite Epa, length_app, length_drop. lia. }
  set (k2 := set_mq_mem (<[a := y]> (mq_mem k1)) k1) in *.
  assert (running k2 L) as Hrun2 by (unfold k2; rewrite Ek1; split; apply Hrun).
  assert (ipc_ok k2 L (O_mq m)) as Hipc2 by (unfold k2; rewrite Ek1; exact Hipc).
  eapply wp_mono; [apply (wp_mq_finish k2 L m q1 fr' held (us ++ [a]) (payloads k2 us ++ [payload k2 a]))|].
  - done.
  - done.
  - apply (wp_link_tail Hq2 a held); [done|]. exists y. unfold k2. simpl. by rewrite lookup_insert_eq.
  - intros r k' (-> & q' & L' & ? & ? & Hsz & ? & Hps & Hn & _). split; [done|]. exists q', L'.
    assert (payload k2 a = filled a) as Ep2 by (unfold payload, k2; simpl; by rewrite lookup_insert_eq).
    split_and!; [done|done|by rewrite Hsz|done| |].
    + rewrite Hps, Ep2, Hp2. f_equal. apply payloads_ext. by rewrite Hmem1.
    + unfold notified, elected in *. unfold k2 in Hn. rewrite Ek1 in Hn. exact Hn.
Qed.

Lemma mq_urgent_room a fr' :
  Z.of_nat (length buffer) <= mq_msg_size q → fr = a :: fr' →
  wp (rt_mq_urgent m buffer) k (λ r k', r = RT_EOK ∧ ∃ q' L',
    running k' L' ∧ ipc_ok k' L' (O_mq m) ∧ mq_msg_size q' = mq_msg_size q ∧
    mq_inv k' m q' fr' (a :: us) held ∧
    payloads k' (a :: us) = filled a :: payloads k us ∧ notified (mq_list m) k L k' L').
Proof.
  intros Hl Hf. unfold rt_mq_urgent. wp_step. apply wp_assert; [by rewrite bool_decide_eq_false_2|].
  wp_step. eapply wp_get_mq; [apply Hq|]. rewrite (proj2 (Z.ltb_ge _ _) Hl).
  wp_step. eapply wp_mono; [by apply (wp_take_free Hq a fr')|].
  intros b k1 (-> & Hmem1 & q1 & Ek1 & Hsz1 & Hq1).
  destruct (qi_slots _ _ _ _ _ _ Hq1 a) as (Ha & x & Hx & Hxl); [set_solver|].
  rewrite (proj2 (Z.eqb_neq _ _) Ha).
  assert (payload k a = msg_data x) as Epa by (unfold payload; by rewrite <- Hmem1, Hx).
  wp_step. unfold mq_fill. eapply wp_upd_msg; [done|].
  set (y := set_msg_data (filled a) x).
  match goal with |- wp _ ?s _ => assert (s = set_mq_mem (<[a := y]> (mq_mem k1)) k1) as -> end.
  { unfold y, filled. by rewrite Epa. }
  destruct (mq_inv_write Hq1 a x y) as [Hq2 Hp2]; [set_solver|done| |].
  { simpl. unfold filled. rewrite Epa, length_app, length_drop. lia. }
  set (k2 := set_mq_mem (<[a := y]> (mq_mem k1)) k1) in *.
  assert (running k2 L) as Hrun2 by (unfold k2; rewrite Ek1; split; apply Hrun).
  assert (ipc_ok k2 L (O_mq m)) as Hipc2 by (unfold k2; rewrite Ek1; exact Hipc).
  eapply wp_mono; [apply (wp_mq_finish k2 L m q1 fr' held (a :: us) (payload k2 a :: payloads k2 us))|].
  - done.
  - done.
  - by apply (wp_link_head Hq2 a held).
  - intros r k' (-> & q' & L' & ? & ? & Hsz & ? & Hps & Hn & _). split; [done|]. exists q', L'.
    assert (payload k2 a = filled a) as Ep2 by (unfold payload, k2; simpl; by rewrite lookup_insert_eq).
    split_and!; [done|done|by rewrite Hsz|done| |].
    + rewrite Hps, Ep2, Hp2. f_equal. apply payloads_ext. by rewrite Hmem1.
    + unfold notified, elected in *. unfold k2 in Hn. rewrite Ek1 in Hn. exact Hn.
Qed.
Lemma mq_urgent_too_long :
  mq_msg_size q < Z.of_nat (length buffer) →
  wp (rt_mq_urgent m buffer) k (λ r k', r = - RT_ERROR ∧ k' = k).
Proof.
  intros Hl. unfold rt_mq_urgent. wp_step. apply wp_assert; [by rewrite bool_decide_eq_false_2|].
  wp_step. eapply wp_get_mq; [apply Hq|]. rewrite (proj2 (Z.ltb_lt _ _) Hl). by wp_step.
Qed.

Lemma mq_urgent_full :
  Z.of_nat (length buffer) <= mq_msg_size q → fr = [] →
  wp (rt_mq_urgent m buffer) k (λ r k', r = - RT_EFULL ∧ k' = k).
Proof.
  intros Hl Hf. unfold rt_mq_urgent. wp_step. apply wp_assert; [by rewrite bool_decide_eq_false_2|].
  wp_step. eapply wp_get_mq; [apply Hq|]. rewrite (proj2 (Z.ltb_ge _ _) Hl).
  wp_step. eapply wp_mono; [by apply (wp_take_free_none Hq)|]. intros ? ? [-> ->]. simpl. by wp_step.
Qed.
End calls.

Section receive.
Context {k : kernel} {L : lists} {m : nat} {q : rt_messagequeue} {fr us held : list Z}.
Hypothesis Hrun : running k L.
Hypothesis Hipc : ipc_ok k L (O_mq m).
Hypothesis Hq : mq_inv k m q fr us held.

Lemma wp_mq_fetch size a us' :
  us = a :: us' →
  wp (mq_fetch m size) k (λ data k',
    data = take (Z.to_nat (Z.min (mq_msg_size q) size)) (payload k a) ∧ ∃ q' mem,
    k' = with_mq m q' mem k ∧ mq_msg_size q' = mq_msg_size q ∧
    mq_inv k' m q' (a :: fr) us' held ∧ payloads k' us' = payloads k us').
Proof.
  intros E. unfold mq_fetch. wp_step. eapply wp_mono; [by apply (wp_take_head Hq a us')|].
  intros b k1 (-> & q1 & Ek1 & Hsz1 & Hq1).
  destruct (qi_slots _ _ _ _ _ _ Hq1 a) as (Ha & x & Hx & Hxl); [set_solver|].
  assert (payload k a = msg_data x) as Epa.
  { unfold payload. rewrite Ek1 in Hx. simpl in Hx. by rewrite Hx. }
  wp_step. eapply wp_get_mq; [apply Hq1|]. wp_step. eapply wp_get_msg; [done|].
  wp_step. eapply wp_mono; [by apply (wp_put_free Hq1 a held)|].
  intros [] k2 (q2 & mem & Ek2 & Hsz2 & Hq2 & Hp2 & _). wp_step. split.
  - rewrite Epa, Hsz1. f_equal. f_equal. destruct (Z.ltb_spec (mq_msg_size q) size); lia.
  - exists q2, mem. split_and!; [|by rewrite Hsz2|done|].
    + rewrite Ek2, Ek1. unfold with_mq, set_mqs, set_mq_mem. simpl. by rewrite insert_insert_eq.
    + rewrite Hp2. apply payloads_ext. by rewrite Ek1.
Qed.

Lemma mq_recv_some fuel size timeout a us' :
  size ≠ 0 → us = a :: us' →
  wp (rt_mq_recv (S fuel) m size timeout) k (λ out k',
    out = Return (Some (take (Z.to_nat (Z.min (mq_msg_size q) size)) (payload k a)), RT_EOK) ∧ ∃ q' mem,
    k' = with_mq m q' mem k ∧ mq_msg_size q' = mq_msg_size q ∧
    mq_inv k' m q' (a :: fr) us' held ∧ payloads k' us' = payloads k us').
Proof.
  intros Hs E. pose proof (qi_entry _ _ _ _ _ _ Hq) as He. rewrite E in He. simpl in He.
  assert ((mq_entry q =? 0) = false) as Hne by (apply Z.eqb_neq; lia).
  unfold rt_mq_recv, rt_thread_self. wp_step. apply wp_assert; [by apply negb_true_iff, Z.eqb_neq|].
  do 4 wp_step. wp_step. eapply wp_get_mq; [apply Hq|]. rewrite Hne. simpl.
  wp_step. eapply wp_get_mq; [apply Hq|]. rewrite Hne.
  wp_step. eapply wp_mono; [by apply (wp_mq_fetch size a us')|]. intros ? k' [-> H]. by wp_step.
Qed.

Lemma mq_recv_empty fuel size :
  size ≠ 0 → us = [] →
  wp (rt_mq_recv fuel m size 0) k (λ out k', out = Return (None, - RT_ETIMEOUT) ∧ k' = k).
Proof.
  intros Hs E. pose proof (qi_entry _ _ _ _ _ _ Hq) as He. rewrite E in He. simpl in He.
  unfold rt_mq_recv, rt_thread_self. wp_step. apply wp_assert; [by apply negb_true_iff, Z.eqb_neq|].
  do 4 wp_step. wp_step. eapply wp_get_mq; [apply Hq|]. rewrite He. simpl. by wp_step.
Qed.

Lemma mq_recv_wait fuel t y size timeout :
  size ≠ 0 → us = [] → may_block k t y → timeout ≠ 0 → timeout < RT_TICK_MAX / 2 →
  let k1 := with_error t RT_EOK y k in
  wp (rt_mq_recv (S fuel) m size timeout) k (λ out k',
    blocks (mq_list m) (obj_flag k (O_mq m)) timeout t (set_error RT_EOK y) k1 L k' ∧
    out = Resched (
      y ← get_thread t;
      if negb (error y =? RT_EOK) then mret (Return (None, error y))
      else
        now ← rt_tick_get;
        mq_recv_loop fuel m (Some t) size
          (remaining_timeout timeout (if 0 <? timeout then rt_tick k else 0) now))).
Proof.
  intros Hsz E Hb Hn Htime k1. destruct Hipc as [HL (b & Hob & Hfl)].
  pose proof (qi_entry _ _ _ _ _ _ Hq) as He. rewrite E in He. simpl in He.
  pose proof (mb_current _ _ _ Hb) as Hc. pose proof (qi_mq _ _ _ _ _ _ Hq) as Hx.
  unfold rt_mq_recv, rt_thread_self. wp_step. apply wp_assert; [by apply negb_true_iff, Z.eqb_neq|].
  do 4 wp_step. wp_step. eapply wp_get_mq; [done|].
  rewrite He, (proj2 (Z.eqb_neq _ _) Hn). simpl.
  wp_step. eapply wp_get_mq; [done|]. rewrite He. change (Z.of_nat 0 =? 0) with true. cbv iota.
  wp_step. eapply (wp_thread_context k L t y); [done|done|].
  rewrite Hc. wp_step. wp_step.
  destruct Hb as [_ Hy Hs Hid Hnest]. wp_step. eapply wp_upd_thread; [done|]. fold k1.
  rewrite (proj2 (Z.eqb_neq _ _) Hn). wp_step. eapply wp_get_object; [done|].
  wp_step. wp_use (wp_wait_on k1 L (mq_list m) t (set_error RT_EOK y) (flag b) timeout) as [-> Hbl].
  - by apply running_with_error.
  - done.
  - done.
  - done.
  - apply lookup_insert_eq.
  - done.
  - done.
  - done.
  - wp_step. split; [|done]. unfold obj_flag. by rewrite Hob.
Qed.
End receive.

(** * The bounded queue the calls implement *)

Inductive mq_op := Op_send (b : list Z) | Op_urgent (b : list Z) | Op_recv (size : Z).
Inductive mq_ans := Status (r : Z) | Bytes (b : list Z).

(** A queue [Q] of at most [cap] messages of at most [size] bytes: what a call
    answers and what it leaves. *)
Definition mq_spec (size cap : Z) (Q : list (list Z)) (op : mq_op) : list (list Z) * mq_ans :=
  let post b Q' :=
    if size <? Z.of_nat (length b) then (Q, Status (- RT_ERROR))
    else if cap <=? Z.of_nat (length Q) then (Q, Status (- RT_EFULL))
    else (Q', Status RT_EOK) in
  match op with
  | Op_send b => post b (Q ++ [b])
  | Op_urgent b => post b (b :: Q)
  | Op_recv n =>
      match Q with
      | [] => (Q, Status (- RT_ETIMEOUT))
      | b :: Q' => (Q', Bytes (take (Z.to_nat n) b))
      end
  end.

(** The calls, without waiting. *)
Definition mq_call (m : nat) (op : mq_op) : K mq_ans :=
  match op with
  | Op_send b => r ← rt_mq_send m b; mret (Status r)
  | Op_urgent b => r ← rt_mq_urgent m b; mret (Status r)
  | Op_recv n =>
      o ← rt_mq_recv 1 m n 0;
      match o with
      | Return (Some d, _) => mret (Bytes d)
      | Return (None, r) => mret (Status r)
      | Resched _ => fail F_fuel
      end
  end.

(** The arguments the assertions of the calls demand. *)
Definition op_ok (op : mq_op) : Prop :=
  match op with Op_send b | Op_urgent b => b ≠ [] | Op_recv n => 0 < n end.

(** A message is stored in a slot of [size] bytes: a receiver that asks for more
    than was sent also gets what the slot held before. *)
Definition answers (a : mq_ans) (r : mq_ans) : Prop :=
  match a, r with
  | Status s, Status s' => s' = s
  | Bytes b, Bytes d => b `prefix_of` d
  | _, _ => False
  end.

(** The queue object [m] holds the messages [Q]. *)
Definition mq_rep (k : kernel) (L : lists) (m : nat) (size cap : Z) (Q : list (list Z)) : Prop :=
  ipc_ok k L (O_mq m) ∧ ∃ q fr us, mq_inv k m q fr us [] ∧ mq_msg_size q = size ∧ max_msgs q = cap ∧
    Forall2 prefix Q (payloads k us).

Lemma mq_inv_cap k k' m q q' fr fr' us us' held held' :
  mq_inv k m q fr us held → mq_inv k' m q' fr' us' held' →
  length (fr ++ us ++ held) = length (fr' ++ us' ++ held') → max_msgs q' = max_msgs q.
Proof. intros H H' E. destruct (qi_count _ _ _ _ _ _ H), (qi_count _ _ _ _ _ _ H'). lia. Qed.

Lemma prefix_filled k a b :
  b `prefix_of` @filled k b a.
Proof. unfold filled. by apply prefix_app_r. Qed.

Lemma mq_rep_length k m q fr us Q :
  mq_inv k m q fr us [] → Forall2 prefix Q (payloads k us) →
  Z.of_nat (length Q) = Z.of_nat (length us) ∧
  max_msgs q = Z.of_nat (length fr) + Z.of_nat (length us).
Proof.
  intros Hq HQ. apply Forall2_length in HQ. unfold payloads in HQ. rewrite length_fmap in HQ.
  destruct (qi_count _ _ _ _ _ _ Hq) as [Hc _]. rewrite !length_app in Hc. simpl in Hc. lia.
Qed.

Definition op_post (op : mq_op) : Prop := match op with Op_recv _ => False | _ => True end.

Lemma wp_post k L m size cap Q op :
  running k L → mq_rep k L m size cap Q → op_post op → op_ok op →
  wp (mq_call m op) k (λ r k', r = (mq_spec size cap Q op).2 ∧
    (r ≠ Status RT_EOK ∧ k' = k ∧ (mq_spec size cap Q op).1 = Q ∨
     r = Status RT_EOK ∧ ∃ L', running k' L' ∧ mq_rep k' L' m size cap (mq_spec size cap Q op).1 ∧
      notified (mq_list m) k L k' L')).
Proof.
  intros Hrun (Hipc & q & fr & us & Hq & Hsz & Hcap & HQ) Hp Hok.
  destruct (mq_rep_length _ _ _ _ _ _ Hq HQ) as [HlQ Hlc].
  destruct op as [b|b|n]; [| |done]; simpl; wp_step.
  - destruct (Z.ltb_spec size (Z.of_nat (length b))) as [Hlb|Hlb].
    { eapply wp_mono; [apply (mq_send_too_long Hq b Hok); lia|]. intros r k' [-> ->]. wp_step. auto. }
    destruct fr as [|a fr'].
    { rewrite (proj2 (Z.leb_le _ _)) by (simpl in *; lia).
      eapply wp_mono; [apply (mq_send_full Hq b Hok); [lia|done]|]. intros r k' [-> ->]. wp_step. auto. }
    rewrite (proj2 (Z.leb_gt _ _)) by (simpl in *; lia).
    eapply wp_mono; [apply (mq_send_room Hrun Hipc Hq b Hok a fr'); [lia|done]|].
    intros r k' (-> & q' & L' & Hrun' & Hipc' & Hsz' & Hq' & Hps & Hn). wp_step.
    split; [done|]. right. split; [done|]. exists L'. split_and!; [done| |done]. split; [done|].
    exists q', fr', (us ++ [a]). split_and!; [done|lia| |].
    + rewrite (mq_inv_cap _ _ _ _ _ _ _ _ _ _ _ Hq Hq'); [done|]. rewrite !length_app. simpl. lia.
    + rewrite Hps. apply Forall2_app; [done|]. constructor; [apply prefix_filled|constructor].
  - destruct (Z.ltb_spec size (Z.of_nat (length b))) as [Hlb|Hlb].
    { eapply wp_mono; [apply (mq_urgent_too_long Hq b Hok); lia|]. intros r k' [-> ->]. wp_step. auto. }
    destruct fr as [|a fr'].
    { rewrite (proj2 (Z.leb_le _ _)) by (simpl in *; lia).
      eapply wp_mono; [apply (mq_urgent_full Hq b Hok); [lia|done]|]. intros r k' [-> ->]. wp_step. auto. }
    rewrite (proj2 (Z.leb_gt _ _)) by (simpl in *; lia).
    eapply wp_mono; [apply (mq_urgent_room Hrun Hipc Hq b Hok a fr'); [lia|done]|].
    intros r k' (-> & q' & L' & Hrun' & Hipc' & Hsz' & Hq' & Hps & Hn). wp_step.
    split; [done|]. right. split; [done|]. exists L'. split_and!; [done| |done]. split; [done|].
    exists q', fr', (a :: us). split_and!; [done|lia| |].
    + rewrite (mq_inv_cap _ _ _ _ _ _ _ _ _ _ _ Hq Hq'); [done|]. rewrite !length_app. simpl. lia.
    + rewrite Hps. constructor; [apply prefix_filled|done].
Qed.

(** Receiving a message. *)
Lemma wp_mq_recv_cons k L m size cap b Q fuel n timeout :
  running k L → mq_rep k L m size cap (b :: Q) → 0 < n →
  wp (rt_mq_recv (S fuel) m n timeout) k (λ out k', ∃ d, out = Return (Some d, RT_EOK) ∧
    take (Z.to_nat n) b `prefix_of` d ∧ Z.of_nat (length d) = Z.min size n ∧
    running k' L ∧ mq_rep k' L m size cap Q ∧ threads k' = threads k ∧
    rt_current_thread k' = rt_current_thread k).
Proof.
  intros Hrun (Hipc & q & fr & us & Hq & Hsz & Hcap & HQ) Hn.
  destruct us as [|a us']; [inversion HQ|]. unfold payloads in HQ. rewrite fmap_cons in HQ.
  apply Forall2_cons_1 in HQ as [Hb HQ].
  destruct (qi_slots _ _ _ _ _ _ Hq a) as (Ha & x & Hx & Hxl); [set_solver|].
  assert (Z.of_nat (length (payload k a)) = size) as Hpl by (unfold payload; by rewrite Hx, Hxl).
  eapply wp_mono; [apply (mq_recv_some Hrun Hipc Hq fuel n timeout a us'); [lia|done]|].
  intros out k' (-> & q' & mem & -> & Hsz' & Hq' & Hps). eexists. split; [done|]. split_and!.
  - rewrite Hsz. destruct Hb as [c Hc]. rewrite Hc. pose proof (f_equal length Hc) as Hlc.
    rewrite length_app in Hlc.
    destruct (Z.le_gt_cases n size).
    + rewrite Z.min_r by lia. rewrite take_app. apply prefix_app_r. done.
    + rewrite Z.min_l by lia. rewrite take_app, !take_ge by lia. by apply prefix_app_r.
  - rewrite length_take. lia.
  - by apply running_with_mq.
  - split; [done|]. exists q', (a :: fr), us'. split_and!; [done|lia| |by rewrite Hps].
    rewrite (mq_inv_cap _ _ _ _ _ _ _ _ _ _ _ Hq Hq'); [done|]. rewrite !length_app. simpl. lia.
  - done.
  - done.
Qed.

Lemma mq_rep_empty k L m size cap : mq_rep k L m size cap [] →
  ipc_ok k L (O_mq m) ∧ ∃ q fr, mq_inv k m q fr [] [] ∧ mq_msg_size q = size ∧ max_msgs q = cap.
Proof.
  intros (Hipc & q & fr & us & Hq & Hsz & Hcap & HQ). split; [done|]. exists q, fr.
  apply Forall2_nil_inv_l in HQ. unfold payloads in HQ. apply fmap_nil_inv in HQ. subst us. done.
Qed.

(** * Interleaved critical sections *)

(** The sections of the calls.  Between two of them other threads and interrupt
    handlers run theirs. *)
Inductive section :=
  | S_take                       (** take a free message *)
  | S_fill (a : Z) (b : list Z)  (** [rt_mq_send]: clear its link, copy the bytes *)
  | S_copy (a : Z) (b : list Z)  (** [rt_mq_urgent]: copy the bytes *)
  | S_tail (a : Z)               (** [rt_mq_send]: link it, count it, wake a receiver *)
  | S_head (a : Z)               (** [rt_mq_urgent]: the same at the head *)
  | S_fetch                      (** take the first message, if there is one *)
  | S_give (a : Z).              (** give it back *)

Definition exec_section (m : nat) (s : section) : K Z :=
  match s with
  | S_take => mq_take_free m
  | S_fill a b => upd_msg a (set_msg_next 0);; mq_fill a b;; mret a
  | S_copy a b => mq_fill a b;; mret a
  | S_tail a => mq_link_tail m a;; mq_notify m
  | S_head a => mq_link_head m a;; mq_notify m
  | S_fetch => q ← get_mq m; if mq_entry q =? 0 then mret 0 else mq_take_head m
  | S_give a => mq_put_free m a;; mret a
  end.

(** The kernel, the messages callers hold, and those of them that are filled. *)
Record config := mk_config { c_kernel : kernel; c_raw : list Z; c_filled : list Z }.

(** A caller touches the messages it holds only, within the size, and [rt_mq_send]
    links a message after it has filled it. *)
Definition permitted (size : Z) (c : config) (s : section) : Prop :=
  match s with
  | S_take | S_fetch => True
  | S_fill a b | S_copy a b => a ∈ c_raw c ∧ Z.of_nat (length b) <= size
  | S_head a | S_give a => a ∈ c_raw c
  | S_tail a => a ∈ c_filled c
  end.

Definition forget (a : Z) (l : list Z) : list Z := filter (λ b, b ≠ a) l.

Definition after_section (c : config) (s : section) (r : Z) (k : kernel) : config :=
  match s with
  | S_take | S_fetch => mk_config k (if r =? 0 then c_raw c else r :: c_raw c) (c_filled c)
  | S_fill a _ => mk_config k (forget a (c_raw c)) (a :: c_filled c)
  | S_copy _ _ => mk_config k (c_raw c) (c_filled c)
  | S_tail a => mk_config k (c_raw c) (forget a (c_filled c))
  | S_head a | S_give a => mk_config k (forget a (c_raw c)) (c_filled c)
  end.

Inductive mq_step (m : nat) (size : Z) : config → config → Prop :=
  | mq_step_intro c s r k :
      permitted size c s → exec_section m s (c_kernel c) = Ok (r, k) →
      mq_step m size c (after_section c s r k).

(** The queue is sound, whatever callers hold. *)
Definition mq_good (m : nat) (size cap : Z) (c : config) : Prop :=
  ∃ L q fr us,
    running (c_kernel c) L ∧ ipc_ok (c_kernel c) L (O_mq m) ∧
    mq_inv (c_kernel c) m q fr us (c_raw c ++ c_filled c) ∧
    mq_msg_size q = size ∧ max_msgs q = cap ∧
    (∀ a, a ∈ c_filled c → ∃ x, mq_mem (c_kernel c) !! a = Some x ∧ msg_next x = 0).

Lemma forget_perm a l : NoDup l → a ∈ l → l ≡ₚ a :: forget a l.
Proof.
  intros Hnd (l1 & l2 & ->)%list_elem_of_split. unfold forget.
  rewrite filter_ne_split by done. symmetry. apply Permutation_middle.
Qed.

Lemma mq_inv_held k m q fr us held held' :
  held ≡ₚ held' → mq_inv k m q fr us held → mq_inv k m q fr us held'.
Proof.
  intros Hp [? ? ? ? ? Hnd Hs Hc].
  assert (fr ++ us ++ held ≡ₚ fr ++ us ++ held') as Hpp by by rewrite Hp.
  split; try done; [by rewrite <- Hpp| |by rewrite <- Hpp].
  intros a. rewrite <- Hpp. apply Hs.
Qed.

Lemma NoDup_held k m q fr us l1 l2 :
  mq_inv k m q fr us (l1 ++ l2) → NoDup l1 ∧ NoDup l2 ∧ ∀ a, a ∈ l1 → a ∉ l2.
Proof.
  intros H. pose proof (qi_nodup _ _ _ _ _ _ H) as Hn. apply NoDup_app in Hn as (_ & _ & Hn).
  apply NoDup_app in Hn as (_ & _ & Hn). apply NoDup_app in Hn as (? & ? & ?). done.
Qed.

Lemma elem_of_forget a b l : b ∈ forget a l ↔ b ≠ a ∧ b ∈ l.
Proof. unfold forget. by rewrite list_elem_of_filter. Qed.

(** The messages [l] keep their null links. *)
Lemma filled_untouched k mem (l held : list Z) :
  (∀ a, a ∈ l → ∃ x, mq_mem k !! a = Some x ∧ msg_next x = 0) →
  untouched k mem held → (∀ a, a ∈ l → a ∈ held) →
  ∀ a, a ∈ l → ∃ x, mem !! a = Some x ∧ msg_next x = 0.
Proof. intros Hl Hu Hs a Ha. rewrite Hu by auto. auto. Qed.

Ltac same_length Hp :=
  apply Permutation_length in Hp; simpl in *; rewrite ?length_app in *; simpl in *;
  rewrite ?length_app in *; lia.

Section interleaving.
Context {k : kernel} {L : lists} {m : nat} {q : rt_messagequeue} {fr us raw filled : list Z}.
Hypothesis Hrun : running k L.
Hypothesis Hipc : ipc_ok k L (O_mq m).
Hypothesis Hq : mq_inv k m q fr us (raw ++ filled).
Hypothesis Hfilled : ∀ a, a ∈ filled → ∃ x, mq_mem k !! a = Some x ∧ msg_next x = 0.

Let good := mq_good m (mq_msg_size q) (max_msgs q).

Lemma good_with_mq q' mem fr' us' raw' filled' :
  let k' := with_mq m q' mem k in
  mq_inv k' m q' fr' us' (raw' ++ filled') → mq_msg_size q' = mq_msg_size q →
  length (fr' ++ us' ++ raw' ++ filled') = length (fr ++ us ++ raw ++ filled) →
  (∀ a, a ∈ filled' → ∃ x, mem !! a = Some x ∧ msg_next x = 0) →
  good (mk_config k' raw' filled').
Proof.
  intros k' Hq' Hsz Hlen Hf. exists L, q', fr', us'.
  split_and!; [by apply running_with_mq|done|done|done| |done].
  by apply (mq_inv_cap _ _ _ _ _ _ _ _ _ _ _ Hq Hq').
Qed.

Lemma good_take :
  wp (mq_take_free m) k (λ r k', good (after_section (mk_config k raw filled) S_take r k')).
Proof.
  assert (fr = [] ∨ ∃ a fr', fr = a :: fr') as [Efr|(a & fr' & Efr)] by (destruct fr; eauto).
  - eapply wp_mono; [by apply (wp_take_free_none Hq)|]. intros r k' [-> ->]. simpl. by exists L, q, fr, us.
  - eapply wp_mono; [by apply (wp_take_free Hq a fr')|]. intros r k' (-> & _ & q' & -> & Hsz & Hq').
    destruct (qi_slots _ _ _ _ _ _ Hq' a) as [Ha _]; [set_solver|].
    simpl. rewrite (proj2 (Z.eqb_neq _ _) Ha). eapply good_with_mq; [exact Hq'|done| |done].
    rewrite Efr, !length_app. simpl. rewrite ?length_app. lia.
Qed.

Lemma good_fetch :
  wp (exec_section m S_fetch) k (λ r k', good (after_section (mk_config k raw filled) S_fetch r k')).
Proof.
  pose proof (qi_entry _ _ _ _ _ _ Hq) as He. simpl. wp_step. eapply wp_get_mq; [apply Hq|].
  assert (us = [] ∨ ∃ a us', us = a :: us') as [Eus|(a & us' & Eus)] by (destruct us; eauto).
  - rewrite He, Eus. simpl. wp_step. simpl. by exists L, q, fr, us.
  - rewrite (proj2 (Z.eqb_neq _ _)) by (rewrite He, Eus; simpl; lia).
    eapply wp_mono; [by apply (wp_take_head Hq a us')|]. intros r k' (-> & q' & -> & Hsz & Hq').
    destruct (qi_slots _ _ _ _ _ _ Hq' a) as [Ha _]; [set_solver|].
    rewrite (proj2 (Z.eqb_neq _ _) Ha). eapply good_with_mq; [exact Hq'|done| |done].
    rewrite Eus, !length_app. simpl. rewrite ?length_app. lia.
Qed.

Lemma good_give a :
  a ∈ raw →
  wp (exec_section m (S_give a)) k (λ r k', good (after_section (mk_config k raw filled) (S_give a) r k')).
Proof.
  intros Ha. destruct (NoDup_held _ _ _ _ _ _ _ Hq) as (Hn1 & Hn2 & Hd).
  pose proof (forget_perm a raw Hn1 Ha) as Hp. simpl. wp_step.
  assert (mq_inv k m q fr us (a :: forget a raw ++ filled)) as Hq1.
  { eapply mq_inv_held; [|exact Hq]. by rewrite Hp at 1. }
  eapply wp_mono; [by apply (wp_put_free Hq1 a (forget a raw ++ filled))|].
  intros [] k' (q' & mem & -> & Hsz & Hq' & _ & Hu). wp_step.
  eapply good_with_mq; [exact Hq'|done| |].
  - same_length Hp.
  - eapply filled_untouched; [exact Hfilled|exact Hu|]. set_solver.
Qed.

(** Filling keeps everything else. *)
Lemma good_write a x y filled' raw' :
  a ∈ raw → mq_mem k !! a = Some x → length (msg_data y) = length (msg_data x) →
  raw' ++ filled' ≡ₚ raw ++ filled →
  (∀ b, b ∈ filled' → b ∈ filled ∨ b = a ∧ msg_next y = 0) →
  good (mk_config (set_mq_mem (<[a := y]> (mq_mem k)) k) raw' filled').
Proof.
  intros Ha Hx Hlen Hp Hf. destruct (NoDup_held _ _ _ _ _ _ _ Hq) as (Hn1 & Hn2 & Hd).
  destruct (mq_inv_write Hq a x y) as [Hq' _]; [set_solver|done|done|].
  exists L, q, fr, us. simpl. split_and!; [split; apply Hrun|done| |done|done|].
  - eapply mq_inv_held; [|exact Hq']. done.
  - intros b Hb. destruct (Hf b Hb) as [Hb'|[-> Hy]].
    + rewrite lookup_insert_ne by set_solver. auto.
    + exists y. by rewrite lookup_insert_eq.
Qed.

Lemma good_fill a b :
  a ∈ raw → Z.of_nat (length b) <= mq_msg_size q →
  wp (exec_section m (S_fill a b)) k (λ r k', good (after_section (mk_config k raw filled) (S_fill a b) r k')).
Proof.
  intros Ha Hb. destruct (NoDup_held _ _ _ _ _ _ _ Hq) as (Hn1 & _).
  destruct (qi_slots _ _ _ _ _ _ Hq a) as (_ & x & Hx & Hxl); [set_solver|].
  simpl. wp_step. eapply wp_upd_msg; [done|]. wp_step. unfold mq_fill.
  eapply wp_upd_msg; [apply lookup_insert_eq|]. wp_step. simpl. rewrite insert_insert_eq.
  eapply good_write; [done|done| | |].
  - simpl. rewrite length_app, length_drop. lia.
  - rewrite <- Permutation_middle. change (a :: forget a raw ++ filled) with ((a :: forget a raw) ++ filled).
    by rewrite <- forget_perm.
  - set_solver.
Qed.

Lemma good_copy a b :
  a ∈ raw → Z.of_nat (length b) <= mq_msg_size q →
  wp (exec_section m (S_copy a b)) k (λ r k', good (after_section (mk_config k raw filled) (S_copy a b) r k')).
Proof.
  intros Ha Hb. destruct (qi_slots _ _ _ _ _ _ Hq a) as (_ & x & Hx & Hxl); [set_solver|].
  simpl. wp_step. unfold mq_fill. eapply wp_upd_msg; [done|]. wp_step.
  eapply good_write; [done|done| |done|set_solver]. simpl. rewrite length_app, length_drop. lia.
Qed.

Lemma good_head a :
  a ∈ raw →
  wp (exec_section m (S_head a)) k (λ r k', good (after_section (mk_config k raw filled) (S_head a) r k')).
Proof.
  intros Ha. destruct (NoDup_held _ _ _ _ _ _ _ Hq) as (Hn1 & Hn2 & Hd).
  pose proof (forget_perm a raw Hn1 Ha) as Hp.
  assert (mq_inv k m q fr us (a :: forget a raw ++ filled)) as Hq1.
  { eapply mq_inv_held; [|exact Hq]. by rewrite Hp at 1. }
  eapply wp_mono; [eapply (wp_mq_finish k L m q fr _ (a :: us)); [done|done|by apply (wp_link_head Hq1)]|].
  intros r k' (-> & q' & L' & Hr & Hi & Hsz & Hq' & _ & _ & Hu). exists L', q', fr, (a :: us).
  split_and!; [done|done|done|done| |].
  - apply (mq_inv_cap _ _ _ _ _ _ _ _ _ _ _ Hq Hq').
    same_length Hp.
  - eapply filled_untouched; [exact Hfilled|exact Hu|]. set_solver.
Qed.

Lemma good_tail a :
  a ∈ filled →
  wp (exec_section m (S_tail a)) k (λ r k', good (after_section (mk_config k raw filled) (S_tail a) r k')).
Proof.
  intros Ha. destruct (NoDup_held _ _ _ _ _ _ _ Hq) as (Hn1 & Hn2 & Hd).
  pose proof (forget_perm a filled Hn2 Ha) as Hp.
  assert (mq_inv k m q fr us (a :: raw ++ forget a filled)) as Hq1.
  { eapply mq_inv_held; [|exact Hq]. rewrite Hp at 1. by rewrite <- Permutation_middle. }
  eapply wp_mono; [eapply (wp_mq_finish k L m q fr _ (us ++ [a])); [done|done|by apply (wp_link_tail Hq1); [|auto]]|].
  intros r k' (-> & q' & L' & Hr & Hi & Hsz & Hq' & _ & _ & Hu). exists L', q', fr, (us ++ [a]).
  split_and!; [done|done|done|done| |].
  - apply (mq_inv_cap _ _ _ _ _ _ _ _ _ _ _ Hq Hq').
    same_length Hp.
  - simpl. intros b. rewrite elem_of_forget. intros [Hne Hb]. rewrite Hu; [auto|].
    rewrite elem_of_app, elem_of_forget. auto.
Qed.
End interleaving.

Lemma good_section m size cap c s :
  mq_good m size cap c → permitted size c s →
  wp (exec_section m s) (c_kernel c) (λ r k', mq_good m size cap (after_section c s r k')).
Proof.
  destruct c as [k raw filled]. intros (L & q & fr & us & Hr & Hi & Hq & <- & <- & Hf) Hp. simpl in *.
  destruct s; simpl in Hp.
  - by eapply good_take.
  - destruct Hp. by eapply good_fill.
  - destruct Hp. by eapply good_copy.
  - by eapply good_tail.
  - by eapply good_head.
  - by eapply good_fetch.
  - by eapply good_give.
Qed.

(** * Initialisation *)

Section setup.
Context {k0 : kernel} {m : nat} {pool size max : Z}.
Hypothesis Hpool : 0 < pool.
Hypothesis Hsize : 0 <= size.
Hypothesis Hmax : 0 <= max < 2 ^ 16.
Hypothesis Hfit : pool + max * (size + sizeof_mq_message) <= 2 ^ 32.

Definition slot_at (i : Z) : Z := pool + i * (size + sizeof_mq_message).
(** The slots chained so far, last one first. *)
Definition slots (n : nat) : list Z := reverse ((λ i, slot_at (Z.of_nat i)) <$> seq 0 n).

Lemma slot_at_pos i : 0 <= i → slot_at i ≠ 0.
Proof. unfold slot_at, sizeof_mq_message. nia. Qed.

Lemma slot_at_inj i j : 0 <= i → 0 <= j → slot_at i = slot_at j → i = j.
Proof. unfold slot_at, sizeof_mq_message. nia. Qed.

Lemma slots_S n : slots (S n) = slot_at (Z.of_nat n) :: slots n.
Proof. unfold slots. rewrite seq_S, fmap_app, reverse_app. done. Qed.

Lemma elem_of_slots n a : a ∈ slots n ↔ ∃ i, (i < n)%nat ∧ a = slot_at (Z.of_nat i).
Proof.
  clear Hpool Hsize Hmax Hfit. unfold slots. rewrite elem_of_reverse, list_elem_of_fmap. setoid_rewrite elem_of_seq.
  split; intros (i & H); exists i; naive_solver lia.
Qed.

Lemma NoDup_slots n : NoDup (slots n).
Proof.
  induction n as [|n IH]; [constructor|]. rewrite slots_S. constructor; [|done].
  rewrite elem_of_slots. intros (i & Hi & E). apply slot_at_inj in E; lia.
Qed.

(** The memory of the pool may hold anything of the right size. *)
Definition pool_mem (mem : gmap Z mq_message) : Prop :=
  ∀ i x, 0 <= i < max → mem !! slot_at i = Some x → Z.of_nat (length (msg_data x)) = size.

Record chained (k : kernel) (n : nat) : Prop := {
  ch_mq : mqs k !! m = Some (mk_messagequeue pool size max 0 0 0 (default 0 (head (slots n)))) ;
  ch_mem : pool_mem (mq_mem k);
  ch_chain : chain (mq_mem k) (default 0 (head (slots n))) (slots n);
  ch_slots : ∀ a, a ∈ slots n → ∃ x, mq_mem k !! a = Some x ∧ Z.of_nat (length (msg_data x)) = size
}.
Lemma chained_step k n x :
  Z.of_nat n < max → chained k n →
  Z.of_nat (length (msg_data x)) = size → msg_next x = default 0 (head (slots n)) →
  chained (with_mq m (mk_messagequeue pool size max 0 0 0 (slot_at (Z.of_nat n)))
             (<[slot_at (Z.of_nat n) := x]> (mq_mem k)) k) (S n).
Proof.
  intros Hn [Hm Hp Hc Hs] Hx Hnext.
  assert (slot_at (Z.of_nat n) ∉ slots n) as Hni.
  { rewrite elem_of_slots. intros (i & Hi & E). apply slot_at_inj in E; lia. }
  split; rewrite ?slots_S; simpl.
  - apply lookup_insert_eq.
  - intros i y Hi. destruct (decide (i = Z.of_nat n)) as [->|Hne].
    + rewrite lookup_insert_eq. by intros [= <-].
    + rewrite lookup_insert_ne; [by apply Hp|]. intros E. apply slot_at_inj in E; lia.
  - split_and!; [done|apply slot_at_pos; lia|]. exists x. rewrite lookup_insert_eq. split; [done|].
    rewrite Hnext. by apply chain_insert.
  - intros a [->|Ha]%elem_of_cons.
    + exists x. by rewrite lookup_insert_eq.
    + rewrite lookup_insert_ne; [by apply Hs|]. by intros <-.
Qed.

Lemma wp_link_free n : ∀ i k,
  Z.of_nat (i + n) = max → chained k i →
  wp (mq_link_free m (Z.of_nat i) n) k (λ _ k', chained k' (i + n)).
Proof.
  induction n as [|n IH]; intros i k Hi Hc; cbn [mq_link_free].
  { wp_step. by rewrite Nat.add_0_r. }
  pose proof (ch_mq _ _ Hc) as Hm. wp_step. eapply wp_get_mq; [done|]. cbv zeta.
  assert (mq_slot (mk_messagequeue pool size max 0 0 0 (default 0 (head (slots i)))) (Z.of_nat i)
          = slot_at (Z.of_nat i)) as Eslot.
  { unfold mq_slot, slot_at, wrap. cbn [mq_msg_pool mq_msg_size].
    apply Z.mod_small. unfold sizeof_mq_message in *. nia. }
  rewrite Eslot. wp_step. wp_step. wp_step. eapply wp_upd_mq; [exact Hm|].
  set (x := default _ (mq_mem k !! _)).
  assert (Z.of_nat (length (msg_data x)) = size) as Hx.
  { unfold x. destruct (mq_mem k !! slot_at (Z.of_nat i)) as [y|] eqn:Ey; simpl.
    - eapply (ch_mem _ _ Hc); [|exact Ey]. lia.
    - rewrite length_replicate. lia. }
  replace (Z.of_nat i + 1) with (Z.of_nat (S i)) by lia. rewrite Nat.add_succ_r.
  apply (IH (S i)); [lia|].
  apply (chained_step k i (set_msg_next (default 0 (head (slots i))) x)); [lia|done|done|done].
Qed.

Lemma wp_mq_setup :
  pool_mem (mq_mem k0) →
  wp (mq_setup m pool size max) k0 (λ _ k',
    mq_inv k' m (mk_messagequeue pool size max 0 0 0 (default 0 (head (slots (Z.to_nat max)))))
      (slots (Z.to_nat max)) [] []).
Proof.
  intros Hmem. unfold mq_setup. wp_step. wp_step. wp_step.
  eapply wp_mono; [apply (wp_link_free (Z.to_nat max) 0)|].
  - lia.
  - split; simpl; [apply lookup_insert_eq|done|done|]. by intros a ?%not_elem_of_nil.
  - intros [] k [Hm _ Hc Hs]. simpl in *. eapply wp_upd_mq; [done|]. split; simpl.
    + apply lookup_insert_eq.
    + done.
    + done.
    + done.
    + done.
    + rewrite !app_nil_r. apply NoDup_slots.
    + intros a. rewrite !app_nil_r. intros Ha. split; [|by apply Hs].
      apply elem_of_slots in Ha as (i & _ & ->). apply slot_at_pos. lia.
    + rewrite !app_nil_r. unfold slots. rewrite length_reverse, length_fmap, length_seq. lia.
Qed.
End setup.

(** * Properties *)

(** [rt_mq_send] and [rt_mq_urgent], on every path, against the bounded queue:
    a message that is too long or finds the queue full is refused and nothing
    changes; otherwise it is queued, at the tail or at the head, and the first
    waiting receiver, if any, becomes ready, the best ready thread running next. *)
Theorem rt_mq_send_spec k L m size cap Q op :
  running k L → mq_rep k L m size cap Q → op_post op → op_ok op →
  wp (mq_call m op) k (λ r k', r = (mq_spec size cap Q op).2 ∧
    (r ≠ Status RT_EOK ∧ k' = k ∧ (mq_spec size cap Q op).1 = Q ∨
     r = Status RT_EOK ∧ ∃ L', running k' L' ∧ mq_rep k' L' m size cap (mq_spec size cap Q op).1 ∧
      notified (mq_list m) k L k' L')).
Proof. apply wp_post. Qed.

(** [rt_mq_recv], on every path, against the bounded queue: the first message is
    removed and its bytes stored; an empty queue gives [-RT_ETIMEOUT] to a receiver
    that does not wait, and otherwise the receiver is suspended with its waiting
    time; when it runs again it reports its error code or tries again. *)
Theorem rt_mq_recv_spec k L m size cap Q t y n timeout fuel :
  running k L → mq_rep k L m size cap Q → 0 < n → (Q = [] → may_block k t y) →
  timeout < RT_TICK_MAX / 2 →
  wp (rt_mq_recv (S fuel) m n timeout) k (λ out k',
    match Q with
    | b :: Q' => ∃ d, out = Return (Some d, RT_EOK) ∧ take (Z.to_nat n) b `prefix_of` d ∧
        Z.of_nat (length d) = Z.min size n ∧ running k' L ∧ mq_rep k' L m size cap Q'
    | [] =>
        if timeout =? 0 then out = Return (None, - RT_ETIMEOUT) ∧ k' = k
        else
          let k1 := with_error t RT_EOK y k in
          let fl := obj_flag k (O_mq m) in
          let L' := blocked (mq_list m) fl timeout t k1 L (timers k') in
          running k' L' ∧ mq_rep k' L' m size cap [] ∧ rt_current_thread k' = elected k L' ∧
          wait_queue L' (mq_list m)
          = insert_wait fl (threads k1) (prio (threads k1) t) t (wait_queue L (mq_list m)) ∧
          out = Resched (
            y ← get_thread t;
            if negb (error y =? RT_EOK) then mret (Return (None, error y))
            else
              now ← rt_tick_get;
              mq_recv_loop fuel m (Some t) n
                (remaining_timeout timeout (if 0 <? timeout then rt_tick k else 0) now))
    end).
Proof.
  intros Hrun Hrep Hn Hb Htime. destruct Q as [|b Q'].
  - apply mq_rep_empty in Hrep as (Hipc & q & fr & Hq & Hsz & Hcap).
    destruct (Z.eqb_spec timeout 0) as [->|Ht]; [apply (mq_recv_empty Hq); [lia|done]|].
    eapply wp_mono; [apply (mq_recv_wait Hrun Hipc Hq fuel t y n timeout); [lia|done|by apply Hb|done|done]|].
    intros out k' [Hbl ->]. cbv zeta.
    split_and!; [apply Hbl| |apply Hbl|by apply wait_queue_blocked|done].
    pose proof (bl_frame Hbl) as Hf.
    destruct (mq_inv_frame _ k' _ _ _ _ _ Hq (fr_mqs _ _ Hf) (fr_mq_mem _ _ Hf)) as [Hq' Hp'].
    split; [|exists q, fr, []; split_and!; [done..|by rewrite Hp']].
    eapply (ipc_ok_frame (with_error t RT_EOK y k) k' L); [exact Hipc|exact Hf|done|].
    apply is_Some_blocked; [done|done|apply Hipc].
  - eapply wp_mono; [by apply (wp_mq_recv_cons k L m size cap b Q' fuel n timeout)|].
    intros out k' (d & -> & ? & ? & ? & ? & _). by exists d.
Qed.

Fixpoint mq_calls (m : nat) (ops : list mq_op) : K (list mq_ans) :=
  match ops with
  | [] => mret []
  | op :: ops => r ← mq_call m op; rs ← mq_calls m ops; mret (r :: rs)
  end.
Fixpoint mq_specs (size cap : Z) (Q : list (list Z)) (ops : list mq_op)
    : list (list Z) * list mq_ans :=
  match ops with
  | [] => (Q, [])
  | op :: ops =>
      let '(Q1, a) := mq_spec size cap Q op in
      let '(Q2, l) := mq_specs size cap Q1 ops in (Q2, a :: l)
  end.

Lemma wp_mq_call k L m size cap Q op :
  running k L → mq_rep k L m size cap Q → wait_queue L (mq_list m) = [] → op_ok op →
  wp (mq_call m op) k (λ r k', answers (mq_spec size cap Q op).2 r ∧
    running k' L ∧ mq_rep k' L m size cap (mq_spec size cap Q op).1).
Proof.
  intros Hrun Hrep Hw Hok. assert (op_post op ∨ ¬ op_post op) as [Hp|Hp] by (destruct op; simpl; tauto).
  - eapply wp_mono; [by apply wp_post|]. intros r k' [-> [(_ & -> & ->)|(E & L' & Hr & Hq & Hn)]].
    + split; [|done]. by destruct op; simpl; repeat case_match.
    + unfold notified in Hn. rewrite Hw in Hn. destruct Hn as (_ & _ & ->).
      rewrite E. split; [done|]. by split.
  - destruct op as [| |n]; [by destruct Hp|by destruct Hp|]. simpl. wp_step. destruct Q as [|b Q].
    + pose proof Hrep as (_ & q & fr & Hq & _)%mq_rep_empty. simpl in Hok.
      eapply wp_mono; [apply (mq_recv_empty Hq 1 n); [lia|done]|]. intros out k' [-> ->]. by wp_step.
    + eapply wp_mono; [by apply (wp_mq_recv_cons k L m size cap b Q 0 n 0)|].
      intros out k' (d & -> & ? & _ & ? & ? & _). by wp_step.
Qed.

(** C7: a message queue refines the bounded queue with an urgent entrance.  For
    every sequence of calls that do not wait, on a queue nobody waits on, each
    answer is the answer of the bounded queue: the same status, and on reception
    the bytes that were sent. *)
Theorem rt_mq_refines k L m size cap Q ops :
  running k L → mq_rep k L m size cap Q → wait_queue L (mq_list m) = [] → Forall op_ok ops →
  wp (mq_calls m ops) k (λ rs k', Forall2 answers (mq_specs size cap Q ops).2 rs ∧
    running k' L ∧ mq_rep k' L m size cap (mq_specs size cap Q ops).1).
Proof.
  intros Hrun Hrep Hw Hok. revert k Q Hrun Hrep.
  induction Hok as [|op ops Hop _ IH]; intros k Q Hrun Hrep; simpl.
  { by wp_step. }
  wp_step. eapply wp_mono; [by apply (wp_mq_call k L m size cap Q)|].
  intros r k1 (Ha & Hr1 & Hrep1). destruct (mq_spec size cap Q op) as [Q1 a]. simpl in *.
  specialize (IH k1 Q1 Hr1 Hrep1). destruct (mq_specs size cap Q1 ops) as [Q2 l]. simpl in *.
  wp_step. eapply wp_mono; [exact IH|]. intros rs k2 (? & ? & ?). wp_step. split; [by constructor|done].
Qed.

(** C8: the queue is sound under interleaving.  However the critical sections of
    senders, urgent senders and receivers interleave, the chains of free and of
    queued messages stay well formed and disjoint from the messages that callers
    hold, the count stays right and no message is lost; and no section ever faults. *)
Theorem rt_mq_interleaving m size cap c c' :
  mq_good m size cap c → rtc (mq_step m size) c c' →
  mq_good m size cap c' ∧
  ∀ s, permitted size c' s → ∃ r k, exec_section m s (c_kernel c') = Ok (r, k).
Proof.
  intros Hg Hs. assert (mq_good m size cap c') as Hg'.
  { induction Hs as [c|c1 c2 c3 [c s r k Hp He] _ IH]; [done|]. apply IH.
    pose proof (good_section m size cap c s Hg Hp) as Hw. unfold wp in Hw. by rewrite He in Hw. }
  split; [done|]. intros s Hp. pose proof (good_section m size cap c' s Hg' Hp) as Hw.
  apply wp_run in Hw as (r & k & ? & _). eauto.
Qed.

(** The set-up of [rt_mq_init] and [rt_mq_create] makes an empty queue: from a
    pool that fits the address space, whatever it holds, all [max] slots are chained
    in the free list, and nothing is queued. *)
Theorem mq_setup_spec k m pool size max :
  0 < pool → 0 <= size → 0 <= max < 2 ^ 16 →
  pool + max * (size + sizeof_mq_message) <= 2 ^ 32 → @pool_mem pool size max (mq_mem k) →
  wp (mq_setup m pool size max) k (λ _ k', ∃ q fr,
    mq_inv k' m q fr [] [] ∧ Z.of_nat (length fr) = max ∧ mq_msg_size q = size ∧
    ∀ a, a ∈ fr ↔ ∃ i, 0 <= i < max ∧ a = pool + i * (size + sizeof_mq_message)).
Proof.
  intros Hp Hs Hm Hf Hmem. eapply wp_mono; [by apply (wp_mq_setup Hp Hs Hm Hf)|].
  intros [] k' Hq. eexists _, _. split; [exact Hq|]. split_and!; [|done|].
  - unfold slots. rewrite length_reverse, length_fmap, length_seq. lia.
  - intros a. rewrite elem_of_slots. unfold slot_at. split.
    + intros (i & ? & ->). exists (Z.of_nat i). split; [lia|done].
    + intros (i & ? & ->). exists (Z.to_nat i). rewrite Z2Nat.id by lia. split; [lia|done].
Qed.

(** * Instances *)

(** A queue of two messages of four bytes that holds one of two bytes. *)
Definition mq_demo : kernel :=
  run (rt_mq_init 0 "mq" 0x20006000 4 16 RT_IPC_FLAG_FIFO;; rt_mq_send 0 [7; 8]) booted.
Definition mq_demo_queue : rt_messagequeue :=
  mk_messagequeue 0x20006000 4 2 1 0x20006008 0x20006008 0x20006000.

Lemma mq_demo_running : running mq_demo (lists_at mq_demo).
Proof. apply running_b_spec. by vm_compute. Qed.

Lemma mq_demo_ipc : ipc_ok mq_demo (lists_at mq_demo) (O_mq 0).
Proof. apply ipc_ok_b_spec. by vm_compute. Qed.

Lemma mq_demo_inv : mq_inv mq_demo 0 mq_demo_queue [0x20006000] [0x20006008] [].
Proof.
  split.
  - by vm_compute.
  - split_and!; [by vm_compute|done|]. exists (mk_message 0 [0; 0; 0; 0]). by vm_compute.
  - split_and!; [by vm_compute|done|]. exists (mk_message 0 [7; 8; 0; 0]). by vm_compute.
  - by vm_compute.
  - by vm_compute.
  - apply (bool_decide_unpack (NoDup ([0x20006000; 0x20006008]))). by vm_compute.
  - intros a [->|[->|[]%not_elem_of_nil]%elem_of_cons]%elem_of_cons; (split; [done|]).
    + exists (mk_message 0 [0; 0; 0; 0]). by vm_compute.
    + exists (mk_message 0 [7; 8; 0; 0]). by vm_compute.
  - by vm_compute.
Qed.

Lemma mq_demo_rep : mq_rep mq_demo (lists_at mq_demo) 0 4 2 [[7; 8]].
Proof.
  split; [exact mq_demo_ipc|]. eexists _, _, _. split; [exact mq_demo_inv|].
  split_and!; [done|done|].
  assert (payloads mq_demo [0x20006008] = [[7; 8; 0; 0]]) as -> by by vm_compute.
  constructor; [|constructor]. by exists [0; 0].
Qed.

Lemma rt_mq_send_witness :
  wp (mq_call 0 (Op_urgent [1])) mq_demo (λ r k', r = Status RT_EOK).
Proof.
  eapply wp_mono.
  - apply (rt_mq_send_spec mq_demo (lists_at mq_demo) 0 4 2 [[7; 8]] (Op_urgent [1])).
    + exact mq_demo_running.
    + exact mq_demo_rep.
    + exact I.
    + done.
  - by intros r k' [-> _].
Defined.

Lemma rt_mq_recv_witness :
  wp (rt_mq_recv 1 0 2 0) mq_demo (λ out _, ∃ d, out = Return (Some d, RT_EOK) ∧ [7; 8] `prefix_of` d).
Proof.
  eapply wp_mono.
  - apply (rt_mq_recv_spec mq_demo (lists_at mq_demo) 0 4 2 [[7; 8]] 2 (thread_at mq_demo 2) 2 0 0).
    + exact mq_demo_running.
    + exact mq_demo_rep.
    + done.
    + done.
    + done.
  - intros out k' (d & ? & ? & _). by exists d.
Defined.

Lemma rt_mq_refines_witness :
  wp (mq_calls 0 [Op_urgent [1]; Op_send [2]; Op_recv 1; Op_recv 2; Op_recv 4]) mq_demo
    (λ rs _, Forall2 answers
      [Status RT_EOK; Status (- RT_EFULL); Bytes [1]; Bytes [7; 8]; Status (- RT_ETIMEOUT)] rs).
Proof.
  eapply wp_mono.
  - apply (rt_mq_refines mq_demo (lists_at mq_demo) 0 4 2 [[7; 8]]).
    + exact mq_demo_running.
    + exact mq_demo_rep.
    + by vm_compute.
    + by repeat constructor.
  - by intros rs k' [H _].
Defined.

Lemma mq_demo_step :
  ∃ c, mq_step 0 4 (mk_config mq_demo [] []) c ∧ c_raw c = [0x20006000].
Proof.
  assert (match mq_take_free 0 mq_demo with Ok (r, _) => r =? 0x20006000 | Err _ => false end = true)
    as H by by vm_compute.
  destruct (mq_take_free 0 mq_demo) as [[r k]|] eqn:E; [|discriminate H]. apply Z.eqb_eq in H. subst r.
  eexists. split; [exact (mq_step_intro 0 4 (mk_config mq_demo [] []) S_take _ k I E)|]. reflexivity.
Qed.

(** A sender has taken a message and is preempted before it has filled it. *)
Lemma rt_mq_interleaving_witness :
  ∃ c, mq_good 0 4 2 c ∧ c_raw c = [0x20006000].
Proof.
  destruct mq_demo_step as (c & Hs & Hc). exists c. split; [|exact Hc].
  apply (rt_mq_interleaving 0 4 2 (mk_config mq_demo [] [])); [|exact (rtc_once _ _ Hs)].
  exists (lists_at mq_demo), mq_demo_queue, [0x20006000], [0x20006008]. split_and!.
  - exact mq_demo_running.
  - exact mq_demo_ipc.
  - exact mq_demo_inv.
  - done.
  - done.
  - by intros a ?%not_elem_of_nil.
Defined.

Lemma mq_setup_witness :
  wp (mq_setup 0 0x20006000 4 2) booted (λ _ k', ∃ q fr, mq_inv k' 0 q fr [] [] ∧ Z.of_nat (length fr) = 2).
Proof.
  eapply wp_mono.
  - apply (mq_setup_spec booted 0 0x20006000 4 2); [done|done|done|done|].
    intros i x _ H. assert (mq_mem booted = ∅) as E by by vm_compute. rewrite E, lookup_empty in H. discriminate H.
  - intros [] k' (q & fr & ? & ? & _). by exists q, fr.
Defined.
