(* ===== verification/KernelSpec.v ===== *)
(** What the lists, the bitmap, the scheduler, the threads and the timers promise:
    the properties of [rtservice.h], [kservice.c], [scheduler.c], [thread.c],
    [timer.c] and [clock.c]. *)

From Stdlib Require Import ZArith Lia.
From stdpp Require Import numbers strings base gmap list.
From S2P Require Import Prelude RtList Bitmap Kernel Scheduler Object Timer Thread Ipc.
From S2P Require Import Invariant ThreadSpec Check Demo TimerSpec ThreadRun IpcSpec.
Local Open Scope Z_scope.

(** * Lists *)

(** C13: the pointer surgery of [rt_list_insert_before], [rt_list_insert_after] and
    [rt_list_remove] edits lists.  On a memory that holds the disjoint circular lists
    [L], inserting a detached node next to any element, removing any element and the
    test for emptiness do what they do to sequences, and leave every other list alone. *)
Theorem rt_list_refines {N} `{Countable N} (h : lheap N) (L : gmap N (list N)) hd l1 x l2 n :
  rep h L → L !! hd = Some (l1 ++ x :: l2) → L !! n = Some [] → n ≠ hd →
  wp (rt_list_insert_before x n) h (λ _ h', rep h' (<[hd := l1 ++ n :: x :: l2]> (delete n L))) ∧
  wp (rt_list_insert_after x n) h (λ _ h', rep h' (<[hd := l1 ++ x :: n :: l2]> (delete n L))) ∧
  wp (rt_list_insert_before hd n) h (λ _ h', rep h' (<[hd := (l1 ++ x :: l2) ++ [n]]> (delete n L))) ∧
  wp (rt_list_insert_after hd n) h (λ _ h', rep h' (<[hd := n :: l1 ++ x :: l2]> (delete n L))) ∧
  wp (rt_list_remove x) h (λ _ h', rep h' (<[hd := l1 ++ l2]> (<[x := []]> L))) ∧
  wp (rt_list_isempty hd) h (λ b h', h' = h ∧ b = false) ∧
  wp (rt_list_isempty n) h (λ b h', h' = h ∧ b = true).
Proof.
  intros Hr Hl Hn Hne. split_and!.
  - by apply insert_before_elem.
  - by apply insert_after_elem.
  - by apply insert_before_head.
  - by apply insert_after_head.
  - by apply remove_elem.
  - eapply wp_mono; [by apply (wp_isempty h L hd)|]. intros b h' [-> ->]. split; [done|].
    by destruct l1.
  - eapply wp_mono; [by apply (wp_isempty h L n)|]. by intros b h' [-> ->].
Qed.

(** Two lists in memory: [0 -> 1 -> 2], and [3] alone. *)
Definition two_lists : lheap nat :=
  list_to_map [(0%nat, mk_node 1%nat 2%nat); (1%nat, mk_node 2%nat 0%nat);
               (2%nat, mk_node 0%nat 1%nat); (3%nat, mk_node 3%nat 3%nat)].

Lemma two_lists_rep : rep two_lists (<[0%nat := [1; 2]%nat]> (<[3%nat := []]> ∅)).
Proof.
  split.
  - intros hd l. rewrite !lookup_insert_Some, lookup_empty.
    intros [[<- <-]|[_ [[<- <-]|[_ ?]]]]; [| |done]; (split; [by apply (bool_decide_unpack (NoDup _))|done]).
  - intros hd1 hd2 l1 l2 n. rewrite !lookup_insert_Some, lookup_empty.
    intros [[<- <-]|[_ [[<- <-]|[_ ?]]]] [[<- <-]|[_ [[<- <-]|[_ ?]]]]; set_solver.
Qed.

Lemma rt_list_refines_witness :
  wp (rt_list_insert_before 2%nat 3%nat) two_lists
    (λ _ h, rep h (<[0%nat := [1; 3; 2]%nat]> (delete 3%nat (<[0%nat := [1; 2]%nat]> (<[3%nat := []]> ∅))))).
Proof.
  by apply (rt_list_refines two_lists (<[0%nat := [1; 2]%nat]> (<[3%nat := []]> ∅)) 0%nat [1%nat] 2%nat [] 3%nat
    two_lists_rep).
Defined.

(** * The bitmap of ready priorities *)

(** C40: [__rt_ffs], which looks bytes up in a table, is find-first-set: of a 32-bit
    word it gives the position, counted from 1, of its lowest bit set, and 0 for 0. *)
Theorem rt_ffs_correct v :
  0 <= v < 2 ^ 32 →
  if v =? 0 then __rt_ffs v = 0
  else 1 <= __rt_ffs v <= 32 ∧ Z.testbit v (__rt_ffs v - 1) = true ∧
       ∀ i, 0 <= i < __rt_ffs v - 1 → Z.testbit v i = false.
Proof.
  intros Hv. destruct (Z.eqb_spec v 0) as [->|Hn]; [done|].
  destruct (__rt_ffs_spec v) as [(? & ? & ?) ?]; [lia|]. done.
Qed.

Lemma rt_ffs_witness : Z.testbit 0x50000 (__rt_ffs 0x50000 - 1) = true.
Proof. by destruct (rt_ffs_correct 0x50000) as (_ & H & _). Defined.

(** * The scheduler *)

(** C1: [rt_schedule] elects.  With the scheduler unlocked the thread that runs next is
    a ready one, no ready thread has a better priority, and it is the first of those of
    its priority; with the scheduler locked nothing changes.  Only the current thread
    and priority change, never the memory of threads, lists or timers. *)
Theorem rt_schedule_elects k L :
  running k L →
  wp rt_schedule k (λ _ k', running k' L ∧ same_memory k k' ∧
    if rt_scheduler_lock_nest k =? 0 then ∃ t x,
      rt_current_thread k' = Some t ∧ threads k !! t = Some x ∧ stat x = RT_THREAD_READY ∧
      head (ready_queue L (current_priority x)) = Some t ∧
      ∀ u y, threads k !! u = Some y → stat y = RT_THREAD_READY →
        current_priority x <= current_priority y
    else rt_current_thread k' = rt_current_thread k).
Proof.
  intros Hr. eapply wp_mono; [by apply wp_schedule|]. intros [] k' (Hr' & Hm & Hc).
  split; [done|]. split; [done|]. rewrite Hc. unfold elected.
  destruct (Z.eqb_spec (rt_scheduler_lock_nest k) 0) as [El|]; [|done].
  pose proof (ko_sched _ _ _ _ _ _ (rn_inv _ _ Hr)) as Hs.
  destruct (run_order_head _ _ Hr) as (t & x & Ht & Hx & Hsx).
  destruct (elected_queue k L t) as (Hh & Hp & x' & Hx' & _ & Hpx); [done|done|]. simplify_eq.
  destruct (highest_ready_priority_spec Hs t x Hx Hsx) as (_ & _ & Hlow).
  exists t, x. rewrite Hpx. split_and!; [done..|]. intros u y Hu Hsu.
  destruct (Z.le_gt_cases (highest_ready_priority k) (current_priority y)) as [?|Hlt]; [done|].
  exfalso. assert (0 <= current_priority y < RT_THREAD_PRIORITY_MAX) as Hpy by (by eapply so_prio).
  assert (u ∈ ready_queue L (current_priority y)) as Hin.
  { apply (so_ready _ _ _ _ Hs); [done|]. eauto. }
  rewrite Hlow in Hin by lia. set_solver.
Qed.

Lemma booted_running : running booted (lists_at booted).
Proof. apply running_b_spec. by vm_compute. Qed.

Lemma rt_schedule_elects_witness :
  wp rt_schedule booted (λ _ k', running k' (lists_at booted)).
Proof. eapply wp_mono; [apply (rt_schedule_elects _ _ booted_running)|]. by intros [] k' [H _]. Defined.

(** [n] times [m]. *)
Fixpoint repeat_m (n : nat) (m : K unit) : K unit :=
  match n with O => mret tt | S n => m;; repeat_m n m end.

Definition with_lock (v : Z) (k : kernel) : kernel := set_rt_scheduler_lock_nest v k.

Lemma running_with_lock k L v : running k L → running (with_lock v k) L.
Proof. intros H. split; apply H. Qed.

Lemma current_with_lock v k : rt_current_thread (with_lock v k) = rt_current_thread k.
Proof. done. Qed.

Lemma lock_with_lock v k : rt_scheduler_lock_nest (with_lock v k) = v.
Proof. done. Qed.

Lemma s16_small z : - 2 ^ 15 <= z < 2 ^ 15 → s16 z = z.
Proof. intros Hz. unfold swrap. rewrite Z.mod_small by lia. lia. Qed.

Lemma wp_enter_critical n : ∀ k,
  0 <= rt_scheduler_lock_nest k → rt_scheduler_lock_nest k + Z.of_nat n < 2 ^ 15 →
  wp (repeat_m n rt_enter_critical) k (λ _ k',
    k' = with_lock (rt_scheduler_lock_nest k + Z.of_nat n) k).
Proof.
  induction n as [|n IH]; intros k H0 Hn; cbn [repeat_m].
  - wp_step. rewrite Z.add_0_r. by destruct k.
  - wp_step. unfold rt_enter_critical at 1. wp_step. eapply wp_mono; [apply IH|]; simpl.
    + rewrite s16_small by lia. lia.
    + rewrite s16_small by lia. lia.
    + intros [] k' ->. unfold with_lock. simpl. rewrite s16_small by lia.
      unfold set_rt_scheduler_lock_nest. simpl. f_equal. lia.
Qed.

Lemma wp_exit_inner n : ∀ k,
  Z.of_nat n < rt_scheduler_lock_nest k < 2 ^ 15 →
  wp (repeat_m n rt_exit_critical) k (λ _ k',
    k' = with_lock (rt_scheduler_lock_nest k - Z.of_nat n) k).
Proof.
  induction n as [|n IH]; intros k Hn; cbn [repeat_m].
  - wp_step. rewrite Z.sub_0_r. by destruct k.
  - wp_step. unfold rt_exit_critical at 1. do 4 wp_step. simpl. rewrite s16_small by lia.
    rewrite (proj2 (Z.leb_gt _ _)) by lia. wp_step. eapply wp_mono; [apply IH|]; simpl.
    + lia.
    + intros [] k' ->. unfold with_lock, set_rt_scheduler_lock_nest. simpl. f_equal. lia.
Qed.

(** Critical sections nest.  Between [n] entries and [n] exits the scheduler is
    locked: a reschedule request in between changes nothing; the thread that is
    elected runs when the outermost section is left, and the nesting is back to 0. *)
Theorem critical_section_nests k L n :
  running k L → rt_scheduler_lock_nest k = 0 → Z.of_nat (S n) < 2 ^ 15 →
  wp (repeat_m (S n) rt_enter_critical;; rt_schedule) k (λ _ k1,
    k1 = with_lock (Z.of_nat (S n)) k ∧
    wp (repeat_m n rt_exit_critical) k1 (λ _ k2, k2 = with_lock 1 k ∧
      wp rt_exit_critical k2 (λ _ k3, running k3 L ∧ rt_scheduler_lock_nest k3 = 0 ∧
        rt_current_thread k3 = head (run_order L)))).
Proof.
  intros Hr Hl Hn. wp_step. eapply wp_mono; [apply wp_enter_critical; rewrite Hl; lia|].
  intros [] k1 ->. rewrite Hl, Z.add_0_l. apply wp_run. exists tt. eexists.
  split; [apply rt_schedule_locked; simpl; lia|]. split; [done|].
  eapply wp_mono; [apply wp_exit_inner; simpl; lia|]. intros [] k2 ->.
  cbn [rt_scheduler_lock_nest with_lock set_rt_scheduler_lock_nest].
  replace (Z.of_nat (S n) - Z.of_nat n) with 1 by lia. split; [done|].
  unfold rt_exit_critical. do 4 wp_step. simpl. wp_step. wp_step.
  eapply wp_mono; [apply (wp_schedule (with_lock 0 k) L); by apply running_with_lock|].
  intros [] k3 (Hr3 & Hm & Hc). split_and!; [done| |done]. by rewrite (fr_lock _ _ (sm_frame _ _ Hm)).
Qed.

Lemma critical_section_witness :
  wp (repeat_m 2 rt_enter_critical;; rt_schedule) booted
    (λ _ k1, rt_current_thread k1 = rt_current_thread booted).
Proof.
  eapply wp_mono.
  - apply (critical_section_nests booted (lists_at booted) 1); [exact booted_running|by vm_compute|done].
  - intros [] k1 [-> _]. exact (current_with_lock _ booted).
Defined.

(** The nesting counter is 16 bits wide and signed.  Two more entries at a depth
    of 32767 make it negative, and then a single exit takes itself for the outermost
    one: it unlocks the scheduler and reschedules, with 32768 sections still open. *)
Theorem critical_section_overflow k L :
  running k L → rt_scheduler_lock_nest k = 2 ^ 15 - 1 →
  wp (rt_enter_critical;; rt_enter_critical;; rt_exit_critical) k (λ _ k',
    rt_scheduler_lock_nest k' = 0 ∧ rt_current_thread k' = head (run_order L)).
Proof.
  intros Hr Hl. wp_step. unfold rt_enter_critical at 1. wp_step.
  wp_step. unfold rt_enter_critical at 1. wp_step. simpl. rewrite Hl.
  unfold rt_exit_critical. do 4 wp_step. simpl. wp_step. wp_step.
  eapply wp_mono; [apply (wp_schedule (with_lock 0 k) L); by apply running_with_lock|].
  intros [] k3 (Hr3 & Hm & Hc). split; [|done]. by rewrite (fr_lock _ _ (sm_frame _ _ Hm)).
Qed.

Lemma critical_section_overflow_witness :
  wp (rt_enter_critical;; rt_enter_critical;; rt_exit_critical) (with_lock 32767 booted)
    (λ _ k', rt_scheduler_lock_nest k' = 0).
Proof.
  eapply wp_mono.
  - apply (critical_section_overflow (with_lock 32767 booted) (lists_at booted)); [|exact (lock_with_lock _ booted)].
    apply running_with_lock. exact booted_running.
  - by intros [] k' [H _].
Defined.

(** * Threads *)

Lemma ready_queue_resumed k L t p r :
  kinv k L → 0 <= r < RT_THREAD_PRIORITY_MAX →
  ready_queue (resumed t p L) r
  = filter (λ u, u ≠ t) (ready_queue L r) ++ if decide (r = p) then [t] else [].
Proof.
  intros Hi Hr. unfold resumed. pose proof (ready_list_lookup _ _ _ Hi Hr) as Hq.
  apply queue_detach with (t := t) in Hq.
  rewrite (ready_queue_enqueue _ _ _ (filter (λ u, u ≠ t) (ready_queue L r))).
  - f_equal. erewrite ready_queue_ext; [by apply ready_queue_fmap|].
    apply lookup_detach_untyped; [apply typed_detach, Hi|done|done].
  - rewrite lookup_detach_untyped; [done|apply typed_detach, Hi|done|done].
Qed.

Lemma ready_queue_requeued k L t p r :
  kinv k L → 0 <= r < RT_THREAD_PRIORITY_MAX →
  ready_queue (requeued t p L) r
  = filter (λ u, u ≠ t) (ready_queue L r) ++ if decide (r = p) then [t] else [].
Proof.
  intros Hi Hr. unfold requeued. pose proof (ready_list_lookup _ _ _ Hi Hr) as Hq.
  apply queue_detach with (t := t) in Hq.
  rewrite (ready_queue_enqueue _ _ _ (filter (λ u, u ≠ t) (ready_queue L r))) by done.
  f_equal. by apply ready_queue_fmap.
Qed.

(** [rt_thread_suspend] and [rt_thread_resume], on every path.  Suspending a ready
    thread takes it out of the queue of its priority and stops its timer; resuming a
    suspended one takes it off the list it waits on, stops its timer and puts it at
    the end of that queue; a thread in another state is refused and nothing changes.
    The invariant of the kernel is kept, and no other thread moves. *)
Theorem suspend_resume_spec k L t x :
  kinv k L → threads k !! t = Some x →
  wp (rt_thread_suspend t) k (λ r k',
    if decide (stat x = RT_THREAD_READY) then r = RT_EOK ∧ ∃ L', kinv k' L' ∧
      threads k' = <[t := set_stat RT_THREAD_SUSPEND x]> (threads k) ∧
      (∀ p, 0 <= p < RT_THREAD_PRIORITY_MAX → ready_queue L' p = filter (λ u, u ≠ t) (ready_queue L p)) ∧
      T_thread t ∉ timer_queue L' false
    else r = - RT_ERROR ∧ k' = k) ∧
  wp (rt_thread_resume t) k (λ r k',
    if decide (stat x = RT_THREAD_SUSPEND) then r = RT_EOK ∧ ∃ L', kinv k' L' ∧
      threads k' = <[t := set_stat RT_THREAD_READY x]> (threads k) ∧
      (∀ p, 0 <= p < RT_THREAD_PRIORITY_MAX →
        ready_queue L' p = ready_queue L p ++ if decide (p = current_priority x) then [t] else []) ∧
      T_thread t ∉ timer_queue L' false
    else r = - RT_ERROR ∧ k' = k).
Proof.
  intros Hi Hx. split.
  - case_decide as Hs; [|by apply (wp_thread_suspend_disorder k t x)].
    eapply wp_mono; [by apply (wp_thread_suspend k L t x)|]. intros r k' (-> & _ & Ht & _ & Hi').
    split; [done|]. exists (detach (N_tlist t) L). split_and!; [done|done| |].
    + intros p Hp. by eapply ready_queue_detach, ready_list_lookup.
    + rewrite (timer_queue_ext L).
      * apply (not_timed Hi t x false Hx). by rewrite Hs.
      * apply lookup_detach_untyped; [apply Hi|done|done].
  - case_decide as Hs; [|by apply (wp_thread_resume_disorder k t x)].
    eapply wp_mono; [by apply (wp_thread_resume k L t x)|]. intros r k' (-> & _ & Ht & _ & Hi').
    split; [done|]. exists (resumed t (current_priority x) L). split_and!; [done|done| |].
    + intros p Hp. rewrite (ready_queue_resumed k) by done. f_equal. apply filter_ne_id.
      eapply (ready_queue_not_in (ko_sched _ _ _ _ _ _ Hi)); [exact Hx|done|]. left. by rewrite Hs.
    + eapply (not_timed Hi' t (set_stat RT_THREAD_READY x)); [|done]. rewrite Ht. apply lookup_insert_eq.
Qed.

Lemma suspend_resume_witness :
  wp (rt_thread_suspend 3) booted (λ r k', r = RT_EOK) ∧
  wp (rt_thread_resume 3) booted (λ r k', r = - RT_ERROR).
Proof.
  assert (threads booted !! 3%nat = Some (thread_at booted 3)) as Hx by by vm_compute.
  assert (stat (thread_at booted 3) = RT_THREAD_READY) as Hs by by vm_compute.
  destruct (suspend_resume_spec booted (lists_at booted) 3 (thread_at booted 3)
    (rn_inv _ _ booted_running) Hx) as [H1 H2].
  clear Hx. revert Hs H1 H2. generalize (thread_at booted 3). generalize booted.
  intros k x Hs H1 H2. split.
  - eapply wp_mono; [exact H1|]. intros r k'; cbv beta. rewrite decide_True by exact Hs. by intros [-> _].
  - eapply wp_mono; [exact H2|]. intros r k'; cbv beta. rewrite decide_False by (by rewrite Hs). by intros [-> _].
Defined.

(** The queue of the best priority is [q], its first thread runs. *)
Record rotating (k : kernel) (L : lists) (p : Z) (q : list nat) : Prop := {
  rt_run : running k L;
  rt_lock : rt_scheduler_lock_nest k = 0;
  rt_prio : 0 <= p < RT_THREAD_PRIORITY_MAX;
  rt_best : ∀ r, 0 <= r < p → ready_queue L r = [];
  rt_queue : ready_queue L p = q;
  rt_first : rt_current_thread k = head q ∧ q ≠ []
}.

Lemma ready_queue_NoDup k L p :
  kinv k L → 0 <= p < RT_THREAD_PRIORITY_MAX → NoDup (ready_queue L p).
Proof.
  intros Hi Hp. pose proof (ready_list_lookup _ _ _ Hi Hp) as Hq.
  destruct (rep_dlist _ _ _ _ (so_rep _ _ _ _ (ko_sched _ _ _ _ _ _ Hi)) Hq) as [Hn _].
  apply NoDup_cons in Hn as [_ Hn]. by apply NoDup_fmap_1 in Hn.
Qed.

Lemma wp_rotate k L p t q :
  rotating k L p (t :: q) →
  wp rt_thread_yield k (λ r k', r = RT_EOK ∧ threads k' = threads k ∧ ∃ L', rotating k' L' p (q ++ [t])).
Proof.
  intros [Hr Hl Hp Hb Hq [Hc _]]. pose proof (rn_inv _ _ Hr) as Hi. simpl in Hc.
  pose proof (ready_queue_NoDup _ _ _ Hi Hp) as Hnd. rewrite Hq in Hnd.
  apply NoDup_cons in Hnd as [Hnq _].
  destruct (proj1 (so_ready _ _ _ _ (ko_sched _ _ _ _ _ _ Hi) p t Hp)) as (x & Hx & Hs & Hpx).
  { rewrite Hq. set_solver. }
  eapply wp_mono; [by apply (wp_thread_yield k L t x)|].
  intros r k' (-> & Hr' & Hf & Ht & _ & _ & Hc'). split; [done|]. split; [done|].
  rewrite Hpx in Hr', Hc'. unfold yielded in Hr', Hc'. rewrite Hq in Hr', Hc'.
  destruct q as [|u q].
  - rewrite decide_True in Hr' by done. rewrite decide_True in Hc' by done. exists L.
    split; simpl; [done|by rewrite (fr_lock _ _ Hf)|done..|by split].
  - rewrite decide_False in Hr' by done. rewrite !decide_False in Hc' by done. exists (requeued t p L).
    assert (ready_queue (requeued t p L) p = (u :: q) ++ [t]) as Hq'.
    { rewrite (ready_queue_requeued k) by done. rewrite decide_True, Hq by done. f_equal.
      rewrite filter_cons_False by naive_solver. by apply filter_ne_id. }
    assert (∀ r, 0 <= r < p → ready_queue (requeued t p L) r = []) as Hb'.
    { intros r Hrp. rewrite (ready_queue_requeued k) by (done || lia).
      rewrite Hb, decide_False by lia. done. }
    split; try done; [by rewrite (fr_lock _ _ Hf)|].
    split; [|done]. rewrite Hc'. unfold elected. rewrite Hl. simpl.
    eapply head_run_order; [exact Hp|by rewrite Hq'|done].
Qed.

(** C12: yielding is round robin.  The ready threads of the best priority take turns in
    the order of their queue: the thread at place [i] runs after exactly [i] yields,
    and a full turn restores the queue, so that none of them starves. *)
Theorem rt_thread_yield_round_robin k L p q i t :
  rotating k L p q → q !! i = Some t →
  wp (repeat_m i (rt_thread_yield;; mret tt)) k (λ _ k', rt_current_thread k' = Some t ∧
    ∃ L', rotating k' L' p (drop i q ++ take i q)).
Proof.
  intros Hr Hi.
  assert (∀ i k L q q', rotating k L p (q ++ q') → length q = i → q' ≠ [] →
    wp (repeat_m i (rt_thread_yield;; mret tt)) k (λ _ k', ∃ L', rotating k' L' p (q' ++ q))) as Hrot.
  { clear. intros i. induction i as [|i IH]; intros k L q q' Hr Hl Hq'; cbn [repeat_m].
    - wp_step. apply length_zero_iff_nil in Hl as ->. rewrite app_nil_r. eauto.
    - destruct q as [|t q]; [done|]. simpl in Hr, Hl. wp_step. wp_step.
      eapply wp_mono; [by eapply wp_rotate|]. intros r k1 (_ & _ & L1 & Hr1). wp_step.
      rewrite <- app_assoc in Hr1. eapply wp_mono; [eapply (IH k1 L1 q (q' ++ [t])); [done|lia|by destruct q']|].
      intros [] k2 (L2 & H2). rewrite <- app_assoc in H2. simpl in H2. eauto. }
  pose proof (lookup_lt_Some _ _ _ Hi) as Hlt. pose proof (drop_S _ _ _ Hi) as Hd.
  eapply wp_mono; [eapply (Hrot i k L (take i q) (drop i q))|].
  - by rewrite take_drop.
  - rewrite length_take. lia.
  - by rewrite Hd.
  - intros [] k' (L' & Hr'). split; [|eauto]. destruct (rt_first _ _ _ _ Hr') as [Hc _].
    rewrite Hc, Hd. done.
Qed.

(** The three threads of the demonstration after the timer thread went to sleep. *)
Lemma booted_rotating : rotating booted (lists_at booted) 10 [2; 3]%nat.
Proof.
  split.
  - exact booted_running.
  - by vm_compute.
  - done.
  - intros r Hr. assert (forallb (λ i, bool_decide (ready_queue (lists_at booted) (Z.of_nat i) = []))
      (seq 0 10) = true) as Hall by by vm_compute.
    apply (forallb_elem _ _ (Z.to_nat r)) in Hall; [|apply elem_of_seq; lia].
    apply bool_decide_eq_true in Hall. by rewrite Z2Nat.id in Hall by lia.
  - by vm_compute.
  - split; [by vm_compute|done].
Qed.

Lemma rt_thread_yield_round_robin_witness :
  wp (repeat_m 1 (rt_thread_yield;; mret tt)) booted (λ _ k', rt_current_thread k' = Some 3%nat).
Proof.
  eapply wp_mono.
  - apply (rt_thread_yield_round_robin booted (lists_at booted) 10 [2; 3]%nat 1 3%nat booted_rotating).
    reflexivity.
  - by intros [] k' [H _].
Defined.

(** Changing the priority of a thread keeps the invariant.  A ready thread moves to
    the end of the queue of its new priority and every other queue keeps its order; a
    suspended thread stays where it is on the list it waits on, which is not sorted
    again.  The bit mask of the thread follows its priority. *)
Theorem change_priority_spec k L t x p :
  kinv k L → threads k !! t = Some x → 0 <= p < RT_THREAD_PRIORITY_MAX →
  wp (rt_thread_control t (RT_THREAD_CTRL_CHANGE_PRIORITY p)) k (λ r k', r = RT_EOK ∧ ∃ L' x',
    kinv k' L' ∧ threads k' = <[t := x']> (threads k) ∧
    current_priority x' = p ∧ number_mask x' = 2 ^ p ∧ stat x' = stat x ∧
    if decide (stat x = RT_THREAD_READY) then
      ∀ r, 0 <= r < RT_THREAD_PRIORITY_MAX → ready_queue L' r
        = filter (λ u, u ≠ t) (ready_queue L r) ++ if decide (r = p) then [t] else []
    else L' = L).
Proof.
  intros Hi Hx Hp. eapply wp_mono; [by apply (wp_change_priority k L t x p)|].
  intros r k' (-> & _ & Ht & _ & _ & Hi'). split; [done|]. eexists _, (change_priority p x).
  split_and!; [exact Hi'|done|done|by apply shiftl_mask|done|].
  case_decide; [|done]. intros r Hr. by apply (ready_queue_requeued k).
Qed.

Lemma change_priority_witness :
  wp (rt_thread_control 3 (RT_THREAD_CTRL_CHANGE_PRIORITY 12)) booted (λ r k', r = RT_EOK).
Proof.
  eapply wp_mono.
  - apply (change_priority_spec booted (lists_at booted) 3 (thread_at booted 3) 12).
    + exact (rn_inv _ _ booted_running).
    + by vm_compute.
    + done.
  - by intros r k' [-> _].
Defined.

(** * Timers *)

(** The delays when one timer is armed. *)
Lemma delay_insert_ne tms now tm y u : u ≠ tm → delay (<[tm := y]> tms) now u = delay tms now u.
Proof. intros Hu. unfold delay. by rewrite lookup_insert_ne. Qed.

Lemma delay_insert_eq tms now tm y d :
  0 <= d < RT_TICK_MAX / 2 → delay (<[tm := set_timeout_tick (u32 (now + d)) y]> tms) now tm = d.
Proof.
  intros Hd. unfold delay. rewrite lookup_insert_eq. simpl. unfold wrap.
  rewrite Zminus_mod_idemp_l. change (RT_TICK_MAX / 2) with 2147483647 in Hd.
  replace (now + d - now) with d by lia. apply Z.mod_small. lia.
Qed.

Lemma timers_sorted_insert tms now tm y q :
  tm ∉ q → timers_sorted tms now q → timers_sorted (<[tm := y]> tms) now q.
Proof.
  intros Hn [Hs1 Hs2]. split.
  - induction Hs1 as [|u q Hq IH Hall]; [constructor|].
    apply Forall_cons in Hs2 as [_ Hs2]. apply not_elem_of_cons in Hn as [Hne Hn].
    constructor; [by apply IH|]. rewrite Forall_forall in Hall |- *. intros v Hv.
    rewrite !delay_insert_ne by set_solver. by apply Hall.
  - rewrite Forall_forall in Hs2 |- *. intros u Hu. destruct (Hs2 u Hu) as [H1 H2].
    assert (u ≠ tm) by (by intros ->). by rewrite delay_insert_ne, lookup_insert_ne.
Qed.

(** C11: [rt_timer_start] keeps the timer list sorted, across the wrap-around of the
    tick counter.  A timer that is started with a delay below half of the tick range
    goes behind the timers that expire no later and before those that expire later;
    the other timers keep their order. *)
Theorem rt_timer_start_sorted k L tm y o :
  kinv k L → timers k !! tm = Some y → objects k !! O_timer tm = Some o →
  Z.testbit (flag o) 2 = false → 0 <= init_tick y < RT_TICK_MAX / 2 →
  (∀ t, tm = T_thread t → (flag o = 0 ∨ flag o = RT_TIMER_FLAG_ACTIVATED) ∧
     ∃ x, threads k !! t = Some x ∧ stat x = RT_THREAD_SUSPEND) →
  tm ∉ timer_queue L false → timers_sorted (timers k) (rt_tick k) (timer_queue L false) →
  wp (rt_timer_start tm) k (λ r k', r = RT_EOK ∧ ∃ L', kinv k' L' ∧
    delay (timers k') (rt_tick k') tm = init_tick y ∧
    timers_sorted (timers k') (rt_tick k') (timer_queue L' false) ∧
    timer_queue L' false
    = filter (λ u, delay (timers k) (rt_tick k) u <= init_tick y) (timer_queue L false) ++ tm ::
      filter (λ u, init_tick y < delay (timers k) (rt_tick k) u) (timer_queue L false)).
Proof.
  intros Hi Hy Ho Hf Hd Hth Hn Hs.
  set (tick := u32 (rt_tick k + init_tick y)).
  set (tms := <[tm := set_timeout_tick tick y]> (timers k)).
  eapply wp_mono; [apply (wp_timer_start_hard k L tm y o); [done|done|done|done|lia|done]|].
  intros r k' (-> & Hq & _ & Htm & _ & Hi'). split; [done|].
  exists (timer_started tms tick tm L). split; [done|].
  rewrite Htm, (fr_tick _ _ (qt_frame _ _ Hq)). fold tms.
  assert (∀ u, u ≠ tm → delay tms (rt_tick k) u = delay (timers k) (rt_tick k) u) as Hdel
    by (intros; by apply delay_insert_ne).
  assert (delay tms (rt_tick k) tm = init_tick y) as Hdtm by by apply delay_insert_eq.
  assert (timers_sorted tms (rt_tick k) (timer_queue L false)) as Hs' by by apply timers_sorted_insert.
  assert (timer_queue (timer_started tms tick tm L) false
          = insert_timer tms tick tm (timer_queue L false)) as Hqueue.
  { apply timer_queue_fmap. unfold timer_started. rewrite lookup_insert_eq.
    by rewrite filter_ne_id. }
  rewrite Hqueue. split_and!; [done| |].
  - apply insert_timer_sorted; [done| |done|done]. unfold tms. rewrite lookup_insert_eq. eauto.
  - unfold tick. rewrite (insert_timer_split tms) by done. f_equal; [|f_equal].
    + apply list_filter_iff'. intros u Hu. rewrite Hdel; [done|]. by intros ->.
    + apply list_filter_iff'. intros u Hu. rewrite Hdel; [done|]. by intros ->.
Qed.

(** Ten ticks before the counter wraps around, thread 2 goes to sleep for 50 ticks and
    thread 3, which runs next, sets up a timer of 20 ticks. *)
Definition late : kernel := run (rt_thread_sleep 50) (set_rt_tick 0xfffffff6 booted).
Definition timer_demo : kernel :=
  run (rt_timer_init (T_timer 0) "tick" (TF_user 0) 0 20 RT_TIMER_FLAG_ONE_SHOT) late.

Definition timer_at (k : kernel) (tm : timer_id) : rt_timer :=
  default (mk_timer TF_thread_timeout 0 0 0) (timers k !! tm).
Definition object_at (k : kernel) (o : objid) : rt_object := default zero_object (objects k !! o).

Lemma sorted_singleton tms now u :
  is_Some (tms !! u) → delay tms now u < RT_TICK_MAX / 2 → timers_sorted tms now [u].
Proof. intros H1 H2. split; [by repeat constructor|]. by constructor. Qed.

Lemma rt_timer_start_witness :
  wp (rt_timer_start (T_timer 0)) timer_demo (λ r k', r = RT_EOK ∧ ∃ L', kinv k' L' ∧
    timer_queue L' false = [T_timer 0; T_thread 2]).
Proof.
  assert (timer_queue (lists_at timer_demo) false = [T_thread 2]) as Hq by by vm_compute.
  assert (delay (timers timer_demo) (rt_tick timer_demo) (T_thread 2) = 50) as Hd by by vm_compute.
  assert (init_tick (timer_at timer_demo (T_timer 0)) = 20) as Hi by by vm_compute.
  eapply wp_mono.
  - apply (rt_timer_start_sorted timer_demo (lists_at timer_demo) (T_timer 0)
      (timer_at timer_demo (T_timer 0)) (object_at timer_demo (O_timer (T_timer 0)))).
    + apply kinv_b_spec. by vm_compute.
    + by vm_compute.
    + by vm_compute.
    + by vm_compute.
    + rewrite Hi. split; [discriminate|reflexivity].
    + discriminate.
    + rewrite Hq. apply not_elem_of_cons. split; [discriminate|apply not_elem_of_nil].
    + rewrite Hq. apply sorted_singleton; [exists (timer_at timer_demo (T_thread 2)); by vm_compute|].
      rewrite Hd. reflexivity.
  - revert Hq Hd Hi. generalize (timer_at timer_demo (T_timer 0)). generalize timer_demo.
    intros k y Hq Hd Hi r k' (-> & L' & Hk & _ & _ & Hql). split; [done|]. exists L'. split; [done|].
    rewrite Hql, Hq, Hi, filter_cons_False, filter_cons_True by lia. done.
Defined.

(** [rt_thread_sleep] suspends the caller and arms its timer: the caller leaves the
    ready queues, its timer expires after exactly the time asked for, in a list that
    stays sorted, the best of the other threads runs, and when the caller runs again it
    returns [RT_EOK] and forgets the time-out code. *)
Theorem rt_thread_sleep_spec k L t x time :
  running k L → rt_current_thread k = Some t → threads k !! t = Some x →
  stat x = RT_THREAD_READY → t ≠ idle → 0 <= time < RT_TICK_MAX / 2 →
  timers_sorted (timers k) (rt_tick k) (timer_queue L false) →
  wp (rt_thread_sleep time) k (λ out k', ∃ L',
    running k' L' ∧ threads k' = <[t := set_stat RT_THREAD_SUSPEND x]> (threads k) ∧
    rt_current_thread k' = elected k L' ∧
    delay (timers k') (rt_tick k') (T_thread t) = time ∧
    (∀ u, u ∈ timer_queue L' false ↔ u = T_thread t ∨ u ∈ timer_queue L false) ∧
    timers_sorted (timers k') (rt_tick k') (timer_queue L' false) ∧
    ∃ rest, out = Resched rest ∧ ∀ k2 x2, threads k2 !! t = Some x2 →
      wp rest k2 (λ r k3, r = Return RT_EOK ∧ k3 =
        if error x2 =? - RT_ETIMEOUT
        then set_threads (<[t := set_error RT_EOK x2]> (threads k2)) k2 else k2)).
Proof.
  intros Hr Hc Hx Hs Hid Ht Hsort. pose proof (rn_inv _ _ Hr) as Hi.
  eapply wp_mono; [apply (wp_thread_sleep k L t x time); done || lia|].
  intros out k' (y & Hy & Htm & Hr' & Hf & Hth & Hcu & Hout). eexists.
  split; [exact Hr'|]. split; [done|]. split; [done|]. rewrite (fr_tick _ _ Hf).
  set (tick := u32 (rt_tick k + time)) in *.
  assert (T_thread t ∉ timer_queue L false) as Hn by (apply (not_timed Hi t x); [done|by rewrite Hs]).
  assert (∀ u, u ≠ T_thread t → delay (timers k') (rt_tick k) u = delay (timers k) (rt_tick k) u) as Hdel.
  { intros u Hu. rewrite Htm. by apply delay_insert_ne. }
  assert (delay (timers k') (rt_tick k) (T_thread t) = time) as Hd.
  { rewrite Htm. by apply delay_insert_eq. }
  assert (timer_queue (asleep (timers k') tick t L) false
          = insert_timer (timers k') tick (T_thread t) (timer_queue L false)) as Hq.
  { apply timer_queue_fmap. unfold asleep, timer_started. rewrite lookup_insert_eq.
    rewrite (timer_queue_ext L).
    - by rewrite filter_ne_id.
    - apply lookup_detach_untyped; [apply Hi|done|done]. }
  rewrite Hq. split_and!; [done| | |done].
  - intros u. by rewrite elem_of_insert_timer.
  - apply insert_timer_sorted; [|rewrite Htm, lookup_insert_eq; eauto|done|done].
    rewrite Htm. by apply timers_sorted_insert.
Qed.

Lemma rt_thread_sleep_witness :
  wp (rt_thread_sleep 50) booted (λ out k', ∃ L', running k' L' ∧
    delay (timers k') (rt_tick k') (T_thread 2) = 50).
Proof.
  eapply wp_mono.
  - apply (rt_thread_sleep_spec booted (lists_at booted) 2 (thread_at booted 2) 50).
    + exact booted_running.
    + by vm_compute.
    + by vm_compute.
    + by vm_compute.
    + discriminate.
    + split; [discriminate|reflexivity].
    + assert (timer_queue (lists_at booted) false = []) as E by by vm_compute. rewrite E.
      split; constructor.
  - intros out k' (L' & ? & _ & _ & ? & _). by exists L'.
Defined.

(** A kernel between two clock interrupts: the scheduler is unlocked, a ready thread
    runs, and the hard timers are those of the suspended threads [ts]. *)
Record ticking (k : kernel) (L : lists) (ts : list nat) : Prop := {
  tk_running : running k L;
  tk_lock : rt_scheduler_lock_nest k = 0;
  tk_current : current_ready k;
  tk_queue : timer_queue L false = T_thread <$> ts;
  tk_sorted : timers_sorted (timers k) (rt_tick k) (T_thread <$> ts)
}.

Definition ticks_left (k : kernel) (u : nat) : Z := delay (timers k) (rt_tick k) (T_thread u).

Lemma expire_lookup ts st u x :
  NoDup ts → st.1 !! u = Some x →
  (foldl expire st ts).1 !! u = Some (if decide (u ∈ ts) then timed_out x else x).
Proof.
  revert st x. induction ts as [|t ts IH]; intros st x Hnd Hx; [done|].
  apply NoDup_cons in Hnd as [Hn Hnd]. cbn [foldl].
  destruct (decide (u = t)) as [->|Hne].
  - rewrite (IH _ (timed_out x)); [|done|unfold expire; rewrite Hx; apply lookup_insert_eq].
    rewrite decide_False by done. by rewrite decide_True by set_solver.
  - rewrite (IH _ x); [|done|].
    + f_equal. destruct (decide (u ∈ ts)); [by rewrite decide_True by set_solver|].
      by rewrite decide_False by set_solver.
    + unfold expire. destruct (st.1 !! t); [|done]. simpl. by rewrite lookup_insert_ne.
Qed.

Lemma ticking_threads k L ts u :
  ticking k L ts → u ∈ ts → ∃ x, threads k !! u = Some x ∧ stat x = RT_THREAD_SUSPEND.
Proof.
  intros Ht Hu. eapply (ko_timed_wait _ _ _ _ _ _ (rn_inv _ _ (tk_running _ _ _ Ht)) false).
  rewrite (tk_queue _ _ _ Ht). by apply list_elem_of_fmap_2.
Qed.

Lemma ticking_NoDup k L ts : ticking k L ts → NoDup ts.
Proof.
  intros [Hr _ _ Hq _]. pose proof (rn_inv _ _ Hr) as Hi.
  destruct (ko_timer_lists _ _ _ _ _ _ Hi false) as [l Hl].
  pose proof (timer_list_rows _ _ _ (ko_typed _ _ _ _ _ _ Hi) Hl) as El. rewrite Hq in El.
  destruct (rep_dlist _ _ _ _ (so_rep _ _ _ _ (ko_sched _ _ _ _ _ _ Hi)) Hl) as [Hn _].
  apply NoDup_cons in Hn as [_ Hn]. rewrite El in Hn.
  by apply NoDup_fmap_1, NoDup_fmap_1 in Hn.
Qed.

(** One interrupt, seen from the sleeping threads. *)
Lemma wp_tick user k L ts fuel :
  ticking k L ts → (length ts < fuel)%nat →
  wp (rt_tick_increase user fuel) k (λ _ k', ∃ L',
    ticking k' L' (filter (λ u, 1 < ticks_left k u) ts) ∧ rt_tick k' = u32 (rt_tick k + 1) ∧
    ∀ u x, u ∈ ts → threads k !! u = Some x →
      if decide (1 < ticks_left k u)
      then threads k' !! u = Some x ∧ ticks_left k' u = ticks_left k u - 1
      else threads k' !! u = Some (timed_out x)).
Proof.
  intros Ht Hfuel. pose proof (ticking_NoDup _ _ _ Ht) as Hnd.
  pose proof (λ u, ticking_threads k L ts u Ht) as Hsus.
  destruct Ht as [Hr Hl (t & y & Hc & Hy & Hs) Hq Hsort].
  eapply wp_mono; [by apply (wp_tick_increase user k L t y ts fuel)|].
  intros [] k' (Hr' & Hth & Htm & Htick & Hq' & Hsort' & Hl' & Hcr).
  eexists. split_and!; [|done|].
  - split; [exact Hr'|by rewrite Hl'|by apply Hcr|done|]. rewrite Hq' in Hsort'. exact Hsort'.
  - intros u x Hu Hx. destruct (Hsus u Hu) as (x' & Hx' & Hsx). simplify_eq.
    assert (u ≠ t) as Hne by (intros ->; simplify_eq; congruence).
    rewrite Hth, (expire_lookup _ _ u x); [|by apply NoDup_filter|by simpl; rewrite lookup_insert_ne].
    fold (ticks_left k u). case_decide as Hd; unfold ticks_left in Hd.
    + rewrite decide_False by (rewrite list_elem_of_filter; unfold ticks_left in *; lia).
      split; [done|]. unfold ticks_left. rewrite Htm, Htick. by rewrite delay_tick by lia.
    + by rewrite decide_True by (rewrite list_elem_of_filter; split; [lia|done]).
Qed.

(** C2: the clock interrupt serves the sleepers on time.  A thread that sleeps for [d]
    more ticks is untouched by the next [d - 1] interrupts, and the [d]th one makes it
    ready with the time-out code, however the counter wraps around and whatever the
    other sleepers and the time slices of the running threads do in between. *)
Theorem sleepers_wake_on_time user k L ts fuel n u x :
  ticking k L ts → (length ts < fuel)%nat → u ∈ ts → threads k !! u = Some x →
  Z.of_nat (S n) <= Z.max 1 (ticks_left k u) →
  wp (repeat_m (S n) (rt_tick_increase user fuel)) k (λ _ k', ∃ L' ts', ticking k' L' ts' ∧
    rt_tick k' = u32 (rt_tick k + Z.of_nat (S n)) ∧
    if Z.of_nat (S n) <? ticks_left k u
    then u ∈ ts' ∧ threads k' !! u = Some x ∧ ticks_left k' u = ticks_left k u - Z.of_nat (S n)
    else u ∉ ts' ∧ threads k' !! u = Some (timed_out x)).
Proof.
  revert k L ts. induction n as [|n IH]; intros k L ts Ht Hfuel Hu Hx Hn.
  - cbn [repeat_m]. wp_step. eapply wp_mono; [by apply (wp_tick user k L ts)|].
    intros [] k' (L' & Ht' & Htk & Hall). wp_step. eexists _, _. split; [exact Ht'|]. split; [done|].
    specialize (Hall u x Hu Hx). change (Z.of_nat 1) with 1.
    destruct (Z.ltb_spec 1 (ticks_left k u)).
    + rewrite decide_True in Hall by done. rewrite list_elem_of_filter. naive_solver.
    + rewrite decide_False in Hall by lia. rewrite list_elem_of_filter. split; [lia|done].
  - change (repeat_m (S (S n)) (rt_tick_increase user fuel))
      with (rt_tick_increase user fuel;; repeat_m (S n) (rt_tick_increase user fuel)).
    wp_step. eapply wp_mono; [by apply (wp_tick user k L ts)|].
    intros [] k1 (L1 & Ht1 & Htk1 & Hall). specialize (Hall u x Hu Hx).
    rewrite decide_True in Hall by lia. destruct Hall as [Hx1 Hd1].
    eapply wp_mono; [apply (IH k1 L1 _ Ht1)|].
    + pose proof (length_filter (λ u, 1 < ticks_left k u) ts). lia.
    + apply list_elem_of_filter. split; [lia|done].
    + done.
    + lia.
    + intros [] k2 (L2 & ts2 & Ht2 & Htk2 & Hres). exists L2, ts2. split; [done|]. split.
      * rewrite Htk2, Htk1. unfold wrap. rewrite Zplus_mod_idemp_l. f_equal. lia.
      * rewrite Hd1 in Hres.
        destruct (Z.ltb_spec (Z.of_nat (S n)) (ticks_left k u - 1)),
          (Z.ltb_spec (Z.of_nat (S (S n))) (ticks_left k u)); try lia; [|done].
        split_and!; [naive_solver|naive_solver|]. destruct Hres as (_ & _ & ->). lia.
Qed.

(** Thread 2 sleeps for 50 ticks, ten ticks before the counter wraps around. *)
Lemma late_ticking : ticking late (lists_at late) [2%nat].
Proof.
  split.
  - apply running_b_spec. by vm_compute.
  - by vm_compute.
  - exists 3%nat, (thread_at late 3). split_and!; by vm_compute.
  - by vm_compute.
  - apply sorted_singleton; [exists (timer_at late (T_thread 2)); by vm_compute|].
    assert (delay (timers late) (rt_tick late) (T_thread 2) = 50) as E by by vm_compute.
    rewrite E. reflexivity.
Qed.

Lemma sleepers_wake_on_time_witness :
  wp (repeat_m 50 (rt_tick_increase (λ _ _, mret tt) 2)) late (λ _ k',
    rt_tick k' = 40 ∧ threads k' !! 2%nat = Some (timed_out (thread_at late 2))).
Proof.
  assert (ticks_left late 2 = 50) as Hd by by vm_compute.
  assert (rt_tick late = 0xfffffff6) as Ht by by vm_compute.
  eapply wp_mono.
  - apply (sleepers_wake_on_time (λ _ _, mret tt) late (lists_at late) [2%nat] 2 49 2 (thread_at late 2)).
    + exact late_ticking.
    + apply Nat.lt_succ_diag_r.
    + apply list_elem_of_singleton. reflexivity.
    + by vm_compute.
    + rewrite Hd. discriminate.
  - intros [] k' (L' & ts' & _ & Hk & H). rewrite Hd in H. split; [|exact (proj2 H)].
    rewrite Hk, Ht. reflexivity.
Defined.

(** * Start-up *)

(** An instance of start-up.  From static memory, initialising the timers and
    the scheduler, creating and starting three application threads, the timer thread
    and the idle thread, starting the scheduler and letting the timer thread find
    nothing to do reaches a kernel in which every invariant holds, all threads but the
    timer thread are ready, and the first application thread runs. *)
Theorem boot_reaches_running :
  running booted (lists_at booted) ∧ rt_current_thread booted = Some 2%nat ∧
  run_order (lists_at booted) = [2; 3; 4; 1]%nat.
Proof. split; [exact booted_running|]. split; by vm_compute. Qed.
