(* ===== verification/Registry.v ===== *)
(** Finding kernel objects by name: [rt_object_find] of [src/object.c] and [rt_thread_find]
    of [src/thread.c].

    A name is a string without zero characters; the field [name] of an object holds its
    first [RT_NAME_MAX] characters.  [name_compare_sound] relates the comparison used here
    to the bytes that [rt_strncmp] reads. *)

From Stdlib Require Import ZArith Lia Ascii String.
From stdpp Require Import numbers strings base gmap list.
From S2P Require Import Prelude Bytes KString RtList Bitmap Kernel Scheduler Object Timer Thread.
From S2P Require Import Invariant ThreadSpec Check Demo KernelSpec.
Local Open Scope Z_scope.

(** * The code *)

(** [rt_strncmp(object->name, name, n) == 0].  The field has [RT_NAME_MAX] characters; a
    longer comparison that has found no difference there leaves the field. *)
Definition strncmp_name (field nm : string) (n : nat) : K bool :=
  if (n <=? RT_NAME_MAX)%nat then
    mret (String.eqb (substring 0 n field) (substring 0 n nm))
  else if String.eqb (substring 0 RT_NAME_MAX field) (substring 0 RT_NAME_MAX nm) then fail F_pointer
  else mret false.

(** The loop over a container, at the node [n]: the first object that passes the test. *)
Fixpoint find_loop (fuel : nat) (test : rt_object → K bool) (hd n : node) : K (option objid) :=
  match fuel with
  | O => fail F_fuel
  | S fuel =>
      if decide (n = hd) then mret None
      else
        o ← deref (object_entry n);
        x ← get_object o;
        b ← test x;
        if (b : bool) then mret (Some o)
        else n' ← on_heap (rd_next n); find_loop fuel test hd n'
  end.

Definition find_in (test : rt_object → K bool) (hd : node) : K (option objid) :=
  k ← get;
  n ← on_heap (rd_next hd);
  find_loop (list_fuel k) test hd n.

Definition name_is (nm : string) (x : rt_object) : K bool := strncmp_name (name x) nm RT_NAME_MAX.

Definition rt_thread_find (nm : string) : K (option objid) :=
  self ← rt_thread_self;
  let critical (m : K unit) := match self with Some _ => m | None => mret tt end in
  critical rt_enter_critical;;
  o ← find_in (name_is nm) (N_container None RT_Object_Class_Thread);
  critical rt_exit_critical;;
  mret o.

(** The name up to the first slash, and the rest from the slash on if there is one. *)
Fixpoint split_slash (nm : string) : string * option string :=
  match nm with
  | EmptyString => (EmptyString, None)
  | String c s =>
      if Ascii.eqb c "/" then (EmptyString, Some nm)
      else let '(m, rest) := split_slash s in (String c m, rest)
  end.

Fixpoint skip_slashes (nm : string) : string :=
  match nm with
  | String c s => if Ascii.eqb c "/" then skip_slashes s else nm
  | EmptyString => EmptyString
  end.

(** The test of the loop over the modules; [nm] is the prefix of the path. *)
Definition module_is (nm : string) (x : rt_object) : K bool :=
  let n := String.length nm in
  b ← strncmp_name (name x) nm n;
  mret ((b : bool) && ((n =? RT_NAME_MAX)%nat || (String.length (name x) <=? n)%nat)).

Definition module_entry (o : objid) : option nat :=
  match o with O_module m => Some m | _ => None end.

(** A search with the scheduler locked. *)
Definition find_critical (test : rt_object → K bool) (hd : node) : K (option objid) :=
  rt_enter_critical;;
  o ← find_in test hd;
  rt_exit_critical;;
  mret o.

Definition rt_object_find (nm : option string) (ty : Z) : K (option objid) :=
  match nm with
  | None => mret None
  | Some nm =>
      if RT_Object_Class_Unknown <? ty then mret None
      else
        RT_DEBUG_NOT_IN_INTERRUPT;;
        match split_slash nm with
        | (_, None) => find_critical (name_is nm) (N_container None ty)
        | (md, Some rest) =>
            o ← find_critical (module_is md) (N_container None RT_Object_Class_Module);
            match o with
            | None => mret None
            | Some o =>
                m ← deref (module_entry o);
                let nm := skip_slashes rest in
                if String.eqb nm "" then
                  mret (if ty =? RT_Object_Class_Module then Some o else None)
                else find_critical (name_is nm) (N_container (Some m) ty)
            end
        end
  end.

(** * Names and bytes *)

Definition string_bytes (s : string) : list Z :=
  (λ c, Z.of_nat (nat_of_ascii c)) <$> list_ascii_of_string s.

Lemma string_bytes_prefix n s : string_bytes (substring 0 n s) = take n (string_bytes s).
Proof.
  revert n. induction s as [|c s IH]; intros [|n]; [done..|].
  unfold string_bytes in *. simpl. f_equal. apply IH.
Qed.

Lemma string_bytes_inj s1 s2 : string_bytes s1 = string_bytes s2 → s1 = s2.
Proof.
  revert s2. induction s1 as [|c s1 IH]; intros [|d s2]; try done.
  unfold string_bytes in *. simpl. intros [= E1%Nat2Z.inj E2]. f_equal; [|by apply IH].
  by rewrite <- (ascii_nat_embedding c), E1, ascii_nat_embedding.
Qed.

(** The comparison of names is [rt_strncmp] on the bytes of the field, which need not end
    in a zero, and of the name. *)
Lemma name_compare_sound m a b field nm k :
  cprefix RT_NAME_MAX m a (string_bytes field) → cprefix RT_NAME_MAX m b (string_bytes nm) →
  wp (rt_strncmp a b 8) m (λ r _, wp (strncmp_name field nm RT_NAME_MAX) k (λ eq k',
    (r =? 0) = eq ∧ k' = k)).
Proof.
  intros H1 H2. eapply wp_mono; [by apply (wp_strncmp m a b (string_bytes field) (string_bytes nm) 8)|].
  intros r m' (Hr & _). unfold strncmp_name. change (RT_NAME_MAX <=? RT_NAME_MAX)%nat with true.
  cbv iota. wp_step. split; [|done]. change (Z.to_nat 8) with RT_NAME_MAX in Hr.
  rewrite <- !string_bytes_prefix in Hr.
  destruct (String.eqb_spec (substring 0 RT_NAME_MAX field) (substring 0 RT_NAME_MAX nm)) as [E|E].
  - apply Z.eqb_eq, Hr. by f_equal.
  - apply Z.eqb_neq. intros E0. apply E, string_bytes_inj, Hr, E0.
Qed.

(** * What is found *)

(** The objects of a class, newest first: those of the kernel, or of a module. *)
Definition container (L : lists) (m : option nat) (ty : Z) : list objid :=
  omap object_entry (default [] (L !! N_container m ty)).

(** The first object of a list whose record passes a test. *)
Definition first_such (objs : gmap objid rt_object) (p : rt_object → bool) (os : list objid)
    : option objid := List.find (λ o, from_option p false (objs !! o)) os.

(** Names are compared in their first [RT_NAME_MAX] characters. *)
Definition same_name (nm : string) (x : rt_object) : bool :=
  String.eqb (object_name (name x)) (object_name nm).
Definition exact_name (nm : string) (x : rt_object) : bool := String.eqb (name x) nm.

(** The container is there and its objects are, each with a name of at most [RT_NAME_MAX]
    characters. *)
Definition catalogued (k : kernel) (L : lists) (m : option nat) (ty : Z) : Prop :=
  is_Some (L !! N_container m ty) ∧
  ∀ o, o ∈ container L m ty →
    ∃ x, objects k !! o = Some x ∧ (String.length (name x) <= RT_NAME_MAX)%nat.

Lemma container_nodes L m ty l :
  typed L → L !! N_container m ty = Some l → l = N_object <$> container L m ty.
Proof.
  intros Ht Hl. unfold container. rewrite Hl. simpl.
  assert (∀ n, n ∈ l → ∃ o, n = N_object o) as Hn.
  { intros n Hn. pose proof (Ht _ _ _ Hl Hn) as Ha. destruct n; try done. eauto. }
  clear Hl. induction l as [|n l IH]; [done|]. destruct (Hn n) as [o ->]; [set_solver|].
  simpl. f_equal. apply IH. set_solver.
Qed.

Lemma wp_find_loop k L hd test p fuel os2 : ∀ os1,
  rep (heap k) L → L !! hd = Some ((N_object <$> os1) ++ (N_object <$> os2)) → (∀ o, hd ≠ N_object o) →
  (∀ o, o ∈ os2 → ∃ x, objects k !! o = Some x ∧ test x k = Ok (p x, k)) →
  (length os2 < fuel)%nat →
  wp (find_loop fuel test hd (default hd (head (N_object <$> os2)))) k
    (λ r k', r = first_such (objects k) p os2 ∧ k' = k).
Proof.
  revert os2. induction fuel as [|fuel IH]; intros os2 os1 Hr HL Hhd Ht Hf; [lia|].
  cbn [find_loop]. destruct os2 as [|o os2]; simpl.
  { rewrite decide_True by done. by wp_step. }
  rewrite decide_False by done. destruct (Ht o) as (x & Hx & Htx); [set_solver|].
  wp_step. wp_step. wp_step. eapply wp_get_object; [done|].
  wp_step. unfold wp at 1. rewrite Htx. unfold first_such. simpl. rewrite Hx. simpl.
  destruct (p x); [by wp_step|]. wp_step. unfold on_heap. apply wp_zoom.
  eapply wp_next_elem; [done|exact HL|]. rewrite set_heap_id.
  apply (IH os2 (os1 ++ [o])); [done| |done|set_solver|simpl in Hf; lia].
  by rewrite fmap_app, <- app_assoc.
Qed.

Lemma wp_find_in k L m ty test p :
  kinv k L → catalogued k L m ty →
  (∀ x, (String.length (name x) <= RT_NAME_MAX)%nat → test x k = Ok (p x, k)) →
  wp (find_in test (N_container m ty)) k
    (λ r k', r = first_such (objects k) p (container L m ty) ∧ k' = k).
Proof.
  intros Hi [[l Hl] Hos] Ht. pose proof (ko_rep Hi) as Hr.
  pose proof (rep_length _ _ _ _ Hr Hl) as Hlen.
  pose proof (container_nodes L m ty l (ko_typed _ _ _ _ _ _ Hi) Hl) as El. rewrite El in Hl, Hlen.
  rewrite length_fmap in Hlen.
  unfold find_in. do 2 wp_step. wp_step. unfold on_heap. apply wp_zoom.
  eapply wp_next_head; [done|exact Hl|]. rewrite set_heap_id.
  apply (wp_find_loop k L _ test p _ _ []); [done|done|done| |unfold list_fuel; lia].
  intros o (x & Hx & Hn)%Hos. eauto.
Qed.

(** ** Critical sections that only read *)

Lemma with_lock_id k : with_lock (rt_scheduler_lock_nest k) k = k.
Proof. by destruct k. Qed.

(** [k'] is [k] after a scheduling point. *)
Record rescheduled (k k' : kernel) (L : lists) : Prop := {
  rs_running : running k' L;
  rs_memory : same_memory k k';
  rs_current : rt_current_thread k' = elected k L
}.

Definition lock_free (k : kernel) : Prop := 0 <= rt_scheduler_lock_nest k < 2 ^ 15 - 1.

Lemma wp_critical {A} (m : K A) (a : A) k L :
  running k L → lock_free k →
  (∀ k1, kinv k1 L → objects k1 = objects k → wp m k1 (λ r k', r = a ∧ k' = k1)) →
  wp (rt_enter_critical;; r ← m; rt_exit_critical;; mret r) k (λ r k',
    r = a ∧ rescheduled k k' L).
Proof.
  intros Hr Hl Hm. unfold lock_free in Hl. wp_step. unfold rt_enter_critical. wp_step.
  rewrite s16_small by lia. fold (with_lock (rt_scheduler_lock_nest k + 1) k).
  wp_step. eapply wp_mono; [apply Hm; [apply (running_with_lock k L _ Hr)|done]|].
  intros r k1 [-> ->]. wp_step. unfold rt_exit_critical. do 4 wp_step. simpl.
  rewrite s16_small by lia. replace (rt_scheduler_lock_nest k + 1 - 1) with (rt_scheduler_lock_nest k) by lia.
  destruct (Z.leb_spec (rt_scheduler_lock_nest k) 0) as [H0|H0].
  - wp_step. wp_step. change (set_rt_scheduler_lock_nest _ _) with (with_lock 0 k).
    replace (with_lock 0 k) with k by (rewrite <- (with_lock_id k) at 1; f_equal; lia).
    wp_use (wp_schedule k L Hr) as (Hr' & Hs & Hc). by wp_step.
  - wp_step. change (set_rt_scheduler_lock_nest _ _) with (with_lock (rt_scheduler_lock_nest k) k).
    rewrite with_lock_id. wp_step. split; [done|]. split; [done|done|].
    unfold elected. by rewrite (proj2 (Z.eqb_neq _ _)) by lia.
Qed.

Lemma rescheduled_trans k1 k2 k3 L :
  rescheduled k1 k2 L → rescheduled k2 k3 L → rescheduled k1 k3 L.
Proof.
  intros [Hr1 Hm1 Hc1] [Hr2 Hm2 Hc2]. split; [done| |].
  - destruct Hm1, Hm2. split; [by etrans|congruence..].
  - rewrite Hc2. unfold elected. rewrite (fr_lock _ _ (sm_frame _ _ Hm1)).
    destruct (Z.eqb_spec (rt_scheduler_lock_nest k1) 0) as [|Hn]; [done|].
    rewrite Hc1. unfold elected. by rewrite (proj2 (Z.eqb_neq _ _) Hn).
Qed.

(** ** The two tests *)

Lemma name_is_same nm x k : name_is nm x k = Ok (same_name nm x, k).
Proof. done. Qed.

Lemma substring_all s n : (String.length s <= n)%nat → substring 0 n s = s.
Proof.
  revert n. induction s as [|c s IH]; intros [|n] Hn; simpl in *; [done|done|lia|]. f_equal.
  apply IH. lia.
Qed.

Lemma length_substring s n : String.length (substring 0 n s) = Nat.min n (String.length s).
Proof. revert n. induction s as [|c s IH]; intros [|n]; simpl; by rewrite ?IH. Qed.

(** A module is found by its whole name. *)
Lemma module_is_exact nm x k :
  (String.length nm <= RT_NAME_MAX)%nat → (String.length (name x) <= RT_NAME_MAX)%nat →
  module_is nm x k = Ok (exact_name nm x, k).
Proof.
  intros Hn Hx.
  assert (String.eqb (substring 0 (String.length nm) (name x)) nm &&
          ((String.length nm =? RT_NAME_MAX)%nat || (String.length (name x) <=? String.length nm)%nat)
          = exact_name nm x) as E.
  { unfold exact_name. destruct (String.eqb_spec (name x) nm) as [E|E].
    - rewrite E, substring_all, String.eqb_refl, Nat.leb_refl, orb_true_r by done. done.
    - destruct (String.eqb_spec (substring 0 (String.length nm) (name x)) nm) as [E2|E2]; [|done]. simpl.
      destruct (Nat.leb_spec (String.length (name x)) (String.length nm)).
      + exfalso. by rewrite substring_all in E2.
      + rewrite orb_false_r. apply Nat.eqb_neq. lia. }
  unfold module_is, strncmp_name. rewrite (proj2 (Nat.leb_le _ _) Hn).
  rewrite (substring_all nm) by done. rewrite <- E. done.
Qed.

(** ** The lookups *)

Lemma wp_find_critical k L m ty test p :
  running k L → lock_free k → catalogued k L m ty →
  (∀ x k, (String.length (name x) <= RT_NAME_MAX)%nat → test x k = Ok (p x, k)) →
  wp (find_critical test (N_container m ty)) k (λ r k',
    r = first_such (objects k) p (container L m ty) ∧ rescheduled k k' L).
Proof.
  intros Hr Hl Hc Ht. unfold find_critical. apply (wp_critical _ _ k L); [done|done|].
  intros k1 Hi Ho. rewrite <- Ho. apply (wp_find_in k1 L m ty test p); [done| |by intros; apply Ht].
  destruct Hc as [? Hc]. split; [done|]. by rewrite Ho.
Qed.

(** The object a path names: an object of the kernel, or, behind a slash, an object of the
    module named before it; the module itself when nothing follows the slash. *)
Definition resolve (k : kernel) (L : lists) (nm : string) (ty : Z) : option objid :=
  match split_slash nm with
  | (_, None) => first_such (objects k) (same_name nm) (container L None ty)
  | (md, Some rest) =>
      o ← first_such (objects k) (exact_name md) (container L None RT_Object_Class_Module);
      m ← module_entry o;
      let nm := skip_slashes rest in
      if String.eqb nm "" then if ty =? RT_Object_Class_Module then Some o else None
      else first_such (objects k) (same_name nm) (container L (Some m) ty)
  end.

(** Every container that a path may lead to is in order. *)
Record catalogue (k : kernel) (L : lists) (ty : Z) : Prop := {
  ct_objects : catalogued k L None ty;
  ct_modules : catalogued k L None RT_Object_Class_Module;
  ct_module : ∀ o, o ∈ container L None RT_Object_Class_Module →
    ∃ m, o = O_module m ∧ catalogued k L (Some m) ty
}.

Lemma catalogued_rescheduled k k' L m ty :
  rescheduled k k' L → catalogued k L m ty → catalogued k' L m ty.
Proof. intros [_ Hm _] [? H]. split; [done|]. by rewrite (sm_objects _ _ Hm). Qed.

Lemma first_such_elem objs p os o : first_such objs p os = Some o → o ∈ os.
Proof. intros [H _]%List.find_some. by apply list_elem_of_In. Qed.

Lemma wp_find_plain k L nm ty :
  running k L → lock_free k → rt_interrupt_nest k = 0 → ty <= RT_Object_Class_Unknown →
  catalogued k L None ty → (split_slash nm).2 = None →
  wp (rt_object_find (Some nm) ty) k (λ r k',
    r = first_such (objects k) (same_name nm) (container L None ty) ∧ rescheduled k k' L).
Proof.
  intros Hr Hl Hn Hty Hco Hp. unfold rt_object_find. rewrite (proj2 (Z.ltb_ge _ _) Hty).
  wp_step. unfold RT_DEBUG_NOT_IN_INTERRUPT. do 2 wp_step. apply wp_assert; [by rewrite Hn|].
  destruct (split_slash nm) as [md rest]. simpl in Hp. subst.
  apply (wp_find_critical k L None ty _ (same_name nm)); [done..|by intros].
Qed.

(** [rt_object_find] returns the newest object of the class whose name agrees with the
    name in the first [RT_NAME_MAX] characters, looks behind a slash in the containers of
    the module named before it, and answers [RT_NULL] if and only if there is none; it
    changes nothing, and the thread elected by the scheduler goes on.  The prefix of the
    path must fit in a name. *)
Theorem rt_object_find_spec k L nm ty :
  running k L → lock_free k → rt_interrupt_nest k = 0 → ty <= RT_Object_Class_Unknown →
  catalogue k L ty → (String.length (split_slash nm).1 <= RT_NAME_MAX)%nat ∨ (split_slash nm).2 = None →
  wp (rt_object_find (Some nm) ty) k (λ r k', r = resolve k L nm ty ∧ rescheduled k k' L).
Proof.
  intros Hr Hl Hn Hty [Hco Hcm Hcs] Hp. unfold resolve.
  destruct ((split_slash nm).2) as [rest|] eqn:Es.
  2: { wp_use (wp_find_plain k L nm ty) as H; [done..|]. by destruct (split_slash nm) as [md []]. }
  unfold rt_object_find. rewrite (proj2 (Z.ltb_ge _ _) Hty). wp_step. unfold RT_DEBUG_NOT_IN_INTERRUPT.
  do 2 wp_step. apply wp_assert; [by rewrite Hn|].
  destruct (split_slash nm) as [md rest']. simpl in Es, Hp. subst rest'.
  destruct Hp as [Hp|]; [|done]. wp_step.
  eapply wp_mono; [apply (wp_find_critical k L None RT_Object_Class_Module _ (exact_name md)); [done..|]|].
  { intros x k1 Hx. by apply module_is_exact. }
  intros r k1 [-> Hk1]. destruct (first_such _ _ _) as [o|] eqn:E; simpl; [|by wp_step].
  apply first_such_elem in E. destruct (Hcs o E) as (m & -> & Hcat). simpl. wp_step. wp_step.
  destruct (String.eqb_spec (skip_slashes rest) "") as [|Hne]; [by wp_step|].
  eapply wp_mono; [apply (wp_find_critical k1 L (Some m) ty _ (same_name (skip_slashes rest))); [apply Hk1| |by eapply catalogued_rescheduled|by intros]|].
  { unfold lock_free. by rewrite (fr_lock _ _ (sm_frame _ _ (rs_memory _ _ _ Hk1))). }
  intros r k2 [-> Hk2]. rewrite (sm_objects _ _ (rs_memory _ _ _ Hk1)).
  split; [done|by eapply rescheduled_trans].
Qed.

Lemma rt_thread_find_spec k L nm :
  running k L → lock_free k → catalogued k L None RT_Object_Class_Thread →
  wp (rt_thread_find nm) k (λ r k',
    r = first_such (objects k) (same_name nm) (container L None RT_Object_Class_Thread) ∧
    rescheduled k k' L).
Proof.
  intros Hr Hl Hc. unfold rt_thread_find, rt_thread_self. do 3 wp_step.
  destruct (rn_current _ _ Hr) as [t Ht]. rewrite Ht.
  by apply (wp_find_critical k L None RT_Object_Class_Thread _ (same_name nm)).
Qed.

(** * Registration *)

(** The lists after the detached object [o] has joined a container. *)
Definition registered (o : objid) (m : option nat) (ty : Z) (L : lists) : lists :=
  <[N_container m ty := N_object o :: default [] (L !! N_container m ty)]> (delete (N_object o) L).

Lemma lookup_registered o m ty L hd :
  hd ≠ N_container m ty → hd ≠ N_object o → registered o m ty L !! hd = L !! hd.
Proof. intros H1 H2. unfold registered. by rewrite lookup_insert_ne, lookup_delete_ne. Qed.

Lemma lookup_registered_eq o m ty L :
  registered o m ty L !! N_container m ty = Some (N_object o :: default [] (L !! N_container m ty)).
Proof. apply lookup_insert_eq. Qed.

Lemma container_registered o m ty L :
  container (registered o m ty L) m ty = o :: container L m ty.
Proof. unfold container at 1. by rewrite lookup_registered_eq. Qed.

Lemma typed_registered o m ty L : typed L → typed (registered o m ty L).
Proof.
  intros Ht. apply typed_insert; [done|]. intros n [->|Hn]%elem_of_cons; [done|].
  destruct (L !! N_container m ty) as [l|] eqn:Hl; [by eapply Ht|by apply elem_of_nil in Hn].
Qed.

Lemma placed_registered_mono o m ty L n :
  L !! N_object o = Some [] → placed n L → placed n (registered o m ty L).
Proof.
  intros Ho (hd & l' & Hl' & Hn). destruct (decide (hd = N_container m ty)) as [->|];
    [|destruct (decide (hd = N_object o)) as [->|]].
  - eexists _, _. split; [apply lookup_registered_eq|]. rewrite Hl'. simpl. set_solver.
  - eexists _, _. split; [apply lookup_registered_eq|]. simplify_eq. set_solver.
  - exists hd, l'. by rewrite lookup_registered.
Qed.

Lemma kern_ok_registered h h' ths grp tms objs L o m ty :
  kern_ok h ths grp tms objs L → L !! N_object o = Some [] →
  rep h' (registered o m ty L) → kern_ok h' ths grp tms objs (registered o m ty L).
Proof.
  intros Hok Ho Hrep. apply (kern_ok_lists Hok); [done|apply typed_registered, Hok| |].
  - intros hd Hu. apply lookup_registered; by destruct hd.
  - intros n. by apply placed_registered_mono.
Qed.

Lemma kern_ok_objects h ths grp tms objs objs' L :
  kern_ok h ths grp tms objs L → (∀ tm, objs' !! O_timer tm = objs !! O_timer tm) →
  kern_ok h ths grp tms objs' L.
Proof.
  intros [Hsch Hty Htl Hact Hex Hrow Htt Htw Hw] Ho. split; try done.
  - intros s tm H. rewrite Ho. eauto.
  - intros tm y Hy. rewrite Ho. eauto.
  - intros t x Hx. setoid_rewrite Ho. eauto.
Qed.

(** The record of an object that [rt_object_init] has registered. *)
Definition init_record (ty : Z) (nm : string) (old : option rt_object) : rt_object :=
  set_name (object_name nm) (set_type (u8 (Z.lor ty RT_Object_Class_Static)) (default zero_object old)).

(** The running thread belongs to no module. *)
Definition kernel_context (k : kernel) : Prop :=
  ∀ t, rt_current_thread k = Some t → ∃ x, objects k !! O_thread t = Some x ∧ module_id x = None.

Lemma wp_module_self k (Q : option nat → kernel → Prop) :
  kernel_context k → Q None k → wp rt_module_self k Q.
Proof.
  intros Hc HQ. unfold rt_module_self. do 2 wp_step. destruct (rt_current_thread k) as [t|] eqn:E; [|by wp_step].
  destruct (Hc t E) as (x & Hx & Hm). wp_step. eapply wp_get_object; [done|]. wp_step. by rewrite Hm.
Qed.

Lemma wp_object_init_lists k L o ty nm (Q : unit → kernel → Prop) :
  rep (heap k) L → kernel_context k → L !! N_object o = Some [] → is_Some (L !! N_container None ty) →
  (∀ h, rep h (registered o None ty L) →
    Q tt (set_heap h (set_objects (<[o := init_record ty nm (objects k !! o)]> (objects k)) k))) →
  wp (rt_object_init o ty nm) k Q.
Proof.
  intros Hr Hc Ho [l Hl] HQ. unfold rt_object_init. wp_step. apply wp_module_self; [done|].
  do 4 wp_step. eapply wp_on_heap; [by apply (insert_after_head _ L _ l)|].
  intros [] h Hrep. apply HQ. unfold registered. by rewrite Hl.
Qed.

Lemma wp_object_init k L o ty nm :
  kinv k L → kernel_context k → is_timer_obj o = false → L !! N_object o = Some [] →
  is_Some (L !! N_container None ty) →
  wp (rt_object_init o ty nm) k (λ _ k', ∃ h,
    k' = set_heap h (set_objects (<[o := init_record ty nm (objects k !! o)]> (objects k)) k) ∧
    kinv k' (registered o None ty L)).
Proof.
  intros Hi Hc Ht Ho Hl. apply (wp_object_init_lists _ L); [apply Hi|done..|]. intros h Hrep.
  exists h. split; [done|]. eapply kern_ok_registered; [|done|done].
  eapply kern_ok_objects; [exact Hi|]. intros tm. simpl. rewrite lookup_insert_ne; [done|by intros ->].
Qed.

Lemma placed_registered o m ty L : placed (N_object o) (registered o m ty L).
Proof. eexists _, _. split; [apply lookup_registered_eq|]. set_solver. Qed.

Lemma kern_ok_detach_object h h' ths grp tms objs L o :
  kern_ok h ths grp tms objs L → rep h' (detach (N_object o) L) →
  kern_ok h' ths grp tms objs (detach (N_object o) L).
Proof.
  intros Hok Hrep. pose proof (ko_typed _ _ _ _ _ _ Hok) as Ht.
  apply (kern_ok_lists Hok); [done|by apply typed_detach| |].
  - intros hd Hu. apply lookup_detach_untyped; [done|by destruct hd|by destruct hd].
  - intros m Hm. apply placed_detach; [by apply not_head_object|done].
Qed.

Lemma wp_object_detach k L o :
  kinv k L → placed (N_object o) L →
  wp (rt_object_detach o) k (λ _ k', ∃ h, k' = set_heap h k ∧ kinv k' (detach (N_object o) L)).
Proof.
  intros Hi Hp. unfold rt_object_detach. eapply wp_on_heap.
  { apply (wp_list_remove _ L); [apply Hi|done|apply not_head_object, Hi]. }
  intros [] h Hrep. exists h. split; [done|]. by eapply kern_ok_detach_object.
Qed.

Lemma filter_object_nodes o (os : list objid) :
  filter (λ n, n ≠ N_object o) (N_object <$> os) = N_object <$> filter (λ p, p ≠ o) os.
Proof.
  induction os as [|p os IH]; [done|]. csimpl. destruct (decide (p = o)) as [->|].
  - rewrite !filter_cons_False by naive_solver. done.
  - rewrite !filter_cons_True by naive_solver. csimpl. by f_equal.
Qed.

#[local] Instance N_object_inj : Inj (=) (=) N_object.
Proof. by intros ?? [= ->]. Qed.

Lemma container_detach o m ty L :
  typed L → container (detach (N_object o) L) m ty = filter (λ p, p ≠ o) (container L m ty).
Proof.
  intros Ht. destruct (L !! N_container m ty) as [l|] eqn:Hl.
  - pose proof (container_nodes L m ty l Ht Hl) as El.
    assert (detach (N_object o) L !! N_container m ty = Some (N_object <$> filter (λ p, p ≠ o) (container L m ty))) as E.
    { rewrite lookup_detach_ne by done. rewrite Hl, El. simpl. by rewrite filter_object_nodes. }
    pose proof (container_nodes _ m ty _ (typed_detach _ _ Ht) E) as E2.
    symmetry. by apply (inj (fmap N_object)).
  - unfold container. rewrite lookup_detach_ne by done. by rewrite Hl.
Qed.

Lemma first_such_ext objs objs' p os :
  (∀ o, o ∈ os → objs' !! o = objs !! o) → first_such objs' p os = first_such objs p os.
Proof.
  unfold first_such. induction os as [|o os IH]; intros H; [done|]. simpl.
  rewrite H by set_solver. destruct (from_option p false (objs !! o)); [done|]. apply IH. set_solver.
Qed.

Lemma object_name_idem nm : object_name (object_name nm) = object_name nm.
Proof. unfold object_name. apply substring_all. rewrite length_substring. lia. Qed.

Lemma container_fresh k L o m ty :
  kinv k L → L !! N_object o = Some [] → o ∉ container L m ty.
Proof.
  intros Hi Ho Hin. destruct (L !! N_container m ty) as [l|] eqn:Hl.
  - pose proof (container_nodes L m ty l (ko_typed _ _ _ _ _ _ Hi) Hl) as El.
    eapply (alone_not_in (heap k) L); [apply Hi|exact Ho|exact Hl|]. rewrite El. by apply list_elem_of_fmap_2.
  - unfold container in Hin. rewrite Hl in Hin. by apply elem_of_nil in Hin.
Qed.

Lemma catalogued_init k k' L o ty nm :
  kinv k L → catalogued k L None ty → L !! N_object o = Some [] →
  objects k' = <[o := init_record ty nm (objects k !! o)]> (objects k) →
  catalogued k' (registered o None ty L) None ty.
Proof.
  intros Hi [Hc Hn] Ho Ek. split; [rewrite lookup_registered_eq; eauto|].
  rewrite container_registered, Ek. intros p [->|Hp]%elem_of_cons.
  - rewrite lookup_insert_eq. eexists. split; [done|]. simpl. unfold object_name.
    rewrite length_substring. lia.
  - rewrite lookup_insert_ne; [by apply Hn|]. intros ->. by eapply container_fresh.
Qed.

(** What is registered is found, until it is detached.  After [rt_object_init] the name
    finds the new object, whatever other objects have it; after [rt_object_detach] it finds
    what it found before. *)
Theorem register_find_roundtrip k L o ty nm :
  running k L → lock_free k → rt_interrupt_nest k = 0 → kernel_context k →
  ty <= RT_Object_Class_Unknown → catalogued k L None ty →
  L !! N_object o = Some [] → is_timer_obj o = false → (split_slash nm).2 = None →
  wp (rt_object_init o ty nm) k (λ _ k1,
    wp (rt_object_find (Some nm) ty) k1 (λ r k2, r = Some o ∧
      wp (rt_object_detach o;; rt_object_find (Some nm) ty) k2 (λ r k3,
        r = first_such (objects k) (same_name nm) (container L None ty) ∧
        ∃ L', running k3 L' ∧ container L' None ty = container L None ty))).
Proof.
  intros Hr Hl Hn Hc Hty Hcat Ho Ht Hs. pose proof (rn_inv _ _ Hr) as Hi.
  pose proof (container_fresh k L o None ty Hi Ho) as Hf.
  eapply wp_mono; [by apply (wp_object_init k L o ty nm); [done..|apply Hcat]|].
  intros [] k1 (h & -> & Hi1). set (k1 := set_heap h _) in *.
  assert (running k1 (registered o None ty L)) as Hr1 by (split; [done|apply Hr..]).
  pose proof (catalogued_init k k1 L o ty nm Hi Hcat Ho eq_refl) as Hcat1.
  eapply wp_mono; [by apply (wp_find_plain k1 (registered o None ty L) nm ty)|].
  intros r k2 [-> [Hr2 Hm2 _]]. split.
  { rewrite container_registered. unfold first_such. simpl. rewrite lookup_insert_eq. simpl.
    unfold same_name. simpl. by rewrite object_name_idem, String.eqb_refl. }
  wp_step. eapply wp_mono; [apply (wp_object_detach k2 (registered o None ty L) o); [apply Hr2|apply placed_registered]|].
  intros [] k3 (h3 & -> & Hi3). set (k3 := set_heap h3 k2) in *. set (L3 := detach _ _) in *.
  assert (container L3 None ty = container L None ty) as Ec.
  { unfold L3. rewrite container_detach by apply Hi1. rewrite container_registered.
    rewrite filter_cons_False by naive_solver. by apply filter_ne_id. }
  assert (objects k3 = <[o := init_record ty nm (objects k !! o)]> (objects k)) as Eo
    by exact (sm_objects _ _ Hm2).
  eapply wp_mono; [apply (wp_find_plain k3 L3 nm ty); [split; [done|apply Hr2..]| | |done| |done]|].
  - unfold lock_free. change (rt_scheduler_lock_nest k3) with (rt_scheduler_lock_nest k2).
    by rewrite (fr_lock _ _ (sm_frame _ _ Hm2)).
  - change (rt_interrupt_nest k3) with (rt_interrupt_nest k2). by rewrite (fr_nest _ _ (sm_frame _ _ Hm2)).
  - split; [unfold L3; rewrite lookup_detach_ne, lookup_registered_eq by done; eauto|].
    rewrite Ec, Eo. intros p Hp. rewrite lookup_insert_ne by (intros ->; done). by apply Hcat.
  - intros r k4 [-> [Hr4 _ _]]. rewrite Ec, Eo. split; [|by exists L3].
    apply first_such_ext. intros p Hp. apply lookup_insert_ne. by intros ->.
Qed.

(** * Instances *)

Definition catalogued_b (k : kernel) (L : lists) (m : option nat) (ty : Z) : bool :=
  bool_decide (is_Some (L !! N_container m ty)) &&
  forallb (λ o, from_option (λ x, String.length (name x) <=? RT_NAME_MAX)%nat false (objects k !! o))
    (container L m ty).

Lemma catalogued_b_spec k L m ty : catalogued_b k L m ty = true → catalogued k L m ty.
Proof.
  intros [H1%bool_decide_eq_true H2]%andb_true_iff. split; [done|]. intros o Ho.
  rewrite forallb_forall in H2. specialize (H2 o ltac:(by apply list_elem_of_In)).
  destruct (objects k !! o) as [x|]; [|done]. exists x. split; [done|]. by apply Nat.leb_le.
Qed.

Lemma booted_catalogue : catalogue booted (lists_at booted) RT_Object_Class_Thread.
Proof.
  split; [apply catalogued_b_spec; by vm_compute..|].
  assert (container (lists_at booted) None RT_Object_Class_Module = []) as -> by by vm_compute.
  by intros o Ho%elem_of_nil.
Qed.

Lemma booted_lock_free : lock_free booted.
Proof. split; by vm_compute. Qed.

Definition kernel_context_b (k : kernel) : bool :=
  match rt_current_thread k with
  | None => true
  | Some t => from_option (λ x, bool_decide (module_id x = None)) false (objects k !! O_thread t)
  end.

Lemma kernel_context_b_spec k : kernel_context_b k = true → kernel_context k.
Proof.
  unfold kernel_context_b. intros H t Ht. rewrite Ht in H. destruct (objects k !! O_thread t) as [x|]; [|done].
  exists x. split; [done|]. by apply bool_decide_eq_true in H.
Qed.

Lemma booted_kernel_context : kernel_context booted.
Proof. apply kernel_context_b_spec. by vm_compute. Qed.

Lemma rt_object_find_witness :
  wp (rt_object_find (Some "worker") RT_Object_Class_Thread) booted (λ r _, r = Some (O_thread 3)).
Proof.
  eapply wp_mono.
  - apply (rt_object_find_spec booted (lists_at booted) "worker" RT_Object_Class_Thread).
    + exact booted_running.
    + exact booted_lock_free.
    + by vm_compute.
    + by vm_compute.
    + exact booted_catalogue.
    + left. apply Nat.leb_le. by vm_compute.
  - intros r k' [-> _]. by vm_compute.
Defined.

Lemma register_find_witness :
  wp (rt_object_init (O_sem 0) RT_Object_Class_Semaphore "lock") booted (λ _ k1,
    wp (rt_object_find (Some "lock") RT_Object_Class_Semaphore) k1 (λ r _, r = Some (O_sem 0))).
Proof.
  eapply wp_mono.
  - apply (register_find_roundtrip booted (lists_at booted) (O_sem 0) RT_Object_Class_Semaphore "lock").
    + exact booted_running.
    + exact booted_lock_free.
    + by vm_compute.
    + exact booted_kernel_context.
    + by vm_compute.
    + apply catalogued_b_spec. by vm_compute.
    + by vm_compute.
    + done.
    + done.
  - intros [] k1 H. eapply wp_mono; [exact H|]. by intros r k2 [-> _].
Defined.

(** The class [RT_Object_Class_Unknown] passes the test of the parameter although there is
    no container for it. *)
Example find_unknown_class :
  rt_object_find (Some "worker") RT_Object_Class_Unknown booted = Err F_pointer.
Proof. by vm_compute. Qed.
