(* ===== verification/Lifecycle.v ===== *)
(** The life of dynamic objects: [rt_thread_create] of [src/thread.c], [rt_timer_create] and
    [rt_timer_delete] of [src/timer.c], and the idle thread of [src/idle.c], which releases
    dead threads.

    The memory of dynamic objects is a parameter: [new] is the object that the memory
    returned by [RT_KERNEL_MALLOC] becomes, [malloc], [kfree] and [free_object] are the calls
    of the allocator.  The theorems assume that these calls change nothing but the heap of the
    allocator ([HeapOnly]), which is what [rt_malloc] and [rt_free] do. *)

From Stdlib Require Import ZArith Lia.
From stdpp Require Import numbers strings base gmap list.
From S2P Require Import Prelude RtList Bitmap Kernel Scheduler Object Timer Thread.
From S2P Require Import Invariant ThreadSpec Check Demo KernelSpec Registry.
Local Open Scope Z_scope.

(** * The code *)

Definition get_module (m : nat) : K rt_module := k ← get; deref (modules k !! m).
Definition upd_module (m : nat) (f : rt_module → rt_module) : K unit :=
  x ← get_module m; modify (λ k, set_modules (<[m := f x]> (modules k)) k).

Section code.
Variable malloc : Z → K Z.
Variable kfree : Z → K unit.
Variable free_object : objid → K unit.

Definition rt_thread_create (new : option nat) (nm : string) (entry_fn param : nat)
    (stack_size priority tick : Z) : K (option nat) :=
  o ← rt_object_allocate (O_thread <$> new) RT_Object_Class_Thread nm;
  match new with
  | None => mret None
  | Some t =>
      stack_start ← malloc stack_size;
      if stack_start =? 0 then
        rt_object_delete free_object (O_thread t);;
        mret None
      else
        rt_thread_init_fields t entry_fn param stack_start stack_size priority tick;;
        mret (Some t)
  end.

Definition rt_timer_create (new : option nat) (nm : string) (timeout : timeout_fn) (param : nat)
    (time fl : Z) : K (option nat) :=
  o ← rt_object_allocate ((λ n, O_timer (T_timer n)) <$> new) RT_Object_Class_Timer nm;
  match new with
  | None => mret None
  | Some n =>
      rt_timer_init_fields (T_timer n) timeout param time fl;;
      mret (Some n)
  end.

Definition rt_timer_delete (tm : timer_id) : K Z :=
  rt_timer_remove tm;;
  rt_object_delete free_object (O_timer tm);;
  mret (- RT_EOK).

(** [thread->cleanup(thread)] for the function of number [f], and [rt_module_destroy]. *)
Variable run_cleanup : nat → nat → K unit.
Variable rt_module_destroy : nat → K unit.

Definition has_defunct_thread : K bool :=
  n ← on_heap (rd_next N_defunct); mret (bool_decide (n ≠ N_defunct)).

(** The main thread of a module is forgotten. *)
Definition leave_module (m : option nat) (t : nat) : K unit :=
  match m with
  | None => mret tt
  | Some m =>
      x ← get_module m;
      if decide (module_thread x = Some t) then upd_module m (set_module_thread None) else mret tt
  end.

(** A module without threads loses a reference, and is destroyed with the last one. *)
Definition release_module (m : option nat) : K unit :=
  match m with
  | None => mret tt
  | Some m =>
      x ← get_module m;
      e ← (if decide (module_thread x = None)
           then on_heap (rt_list_isempty (N_container (Some m) RT_Object_Class_Thread))
           else mret false);
      (if (e : bool) then upd_module m (λ x, set_nref (u16 (nref x - 1)) x) else mret tt);;
      x ← get_module m;
      if nref x =? 0 then rt_module_destroy m else mret tt
  end.

Fixpoint idle_loop (fuel : nat) : K unit :=
  match fuel with
  | O => fail F_fuel
  | S fuel =>
      d ← has_defunct_thread;
      if (d : bool) then
        RT_DEBUG_NOT_IN_INTERRUPT;;
        d ← has_defunct_thread;
        if (d : bool) then
          n ← on_heap (rd_next N_defunct);
          t ← deref (tlist_entry n);
          o ← get_object (O_thread t);
          leave_module (module_id o) t;;
          on_heap (rt_list_remove (N_tlist t));;
          x ← get_thread t;
          match cleanup x with None => mret tt | Some f => run_cleanup f t end;;
          sys ← rt_object_is_systemobject (O_thread t);
          if (sys : bool) then mret tt
          else
            x ← get_thread t;
            kfree (stack_addr x);;
            rt_object_delete free_object (O_thread t);;
            release_module (module_id o);;
            idle_loop fuel
        else mret tt
      else mret tt
  end.

Definition rt_thread_idle_excute : K unit := k ← get; idle_loop (list_fuel k).

(** One round of the loop of [rt_thread_idle_entry]. *)
Definition rt_thread_idle_entry (hook : K unit) : K unit := hook;; rt_thread_idle_excute.

Definition rt_thread_idle_gethandler : nat := idle.
End code.

(** * Releasing dead threads *)

(** A call that changes nothing but the heap of the allocator. *)
Class HeapOnly {A} (m : K A) : Prop :=
  heap_only : ∀ k, wp m k (λ _ k', ∃ mem, k' = set_sysmem mem k).

#[export] Instance heap_only_ret {A} (a : A) : HeapOnly (mret a).
Proof. intros k. wp_step. exists (sysmem k). by destruct k. Qed.

(** The thread is dynamic: its memory is the allocator's. *)
Definition dynamic (objs : gmap objid rt_object) (t : nat) : bool :=
  from_option (λ o, Z.land (type o) RT_Object_Class_Static =? 0) false (objs !! O_thread t).

(** The dead threads that one call releases, and those it leaves: it stops after the first
    static one. *)
Fixpoint released (objs : gmap objid rt_object) (ts : list nat) : list nat :=
  match ts with
  | [] => []
  | t :: ts => if dynamic objs t then t :: released objs ts else []
  end.
Fixpoint left_over (objs : gmap objid rt_object) (ts : list nat) : list nat :=
  match ts with
  | [] => []
  | t :: ts => if dynamic objs t then left_over objs ts else ts
  end.

(** The list of dead threads: they are not ready, and belong to no module. *)
Record graveyard (k : kernel) (L : lists) (ts : list nat) : Prop := {
  gv_list : L !! N_defunct = Some (N_tlist <$> ts);
  gv_dead : ∀ t, t ∈ ts → ∃ x o, threads k !! t = Some x ∧ stat x ≠ RT_THREAD_READY ∧
    objects k !! O_thread t = Some o ∧ module_id o = None ∧ placed (N_object (O_thread t)) L
}.

(** [k'] differs from [k] in the links of lists and in the heap of the allocator. *)
Definition links_only (k k' : kernel) : Prop := ∃ h mem, k' = set_sysmem mem (set_heap h k).

Lemma links_only_refl k : links_only k k.
Proof. exists (heap k), (sysmem k). by destruct k. Qed.
Lemma links_only_trans k1 k2 k3 : links_only k1 k2 → links_only k2 k3 → links_only k1 k3.
Proof. intros (h & mem & ->) (h' & mem' & ->). exists h', mem'. by destruct k1. Qed.

Lemma kinv_sysmem k L mem : kinv k L → kinv (set_sysmem mem k) L.
Proof. done. Qed.

(** Taking the first dead thread off the list. *)
Lemma graveyard_tail k k' L t ts :
  kinv k L → graveyard k L (t :: ts) → links_only k k' → graveyard k' (detach (N_tlist t) L) ts.
Proof.
  intros Hi [Hl Hd] (h & mem & ->). split.
  - rewrite lookup_detach_ne by done. rewrite Hl. csimpl. f_equal.
    destruct (rep_dlist _ _ _ _ (ko_rep Hi) Hl) as [Hnd _].
    apply NoDup_cons in Hnd as [_ [Hnt _]%NoDup_cons].
    rewrite filter_cons_False by naive_solver. by apply filter_ne_id.
  - intros u Hu. destruct (Hd u) as (x & o & Hx & Hs & Ho & Hm & Hp); [set_solver|].
    exists x, o. split_and!; try done. apply placed_detach; [apply not_head_tlist, Hi|done].
Qed.

Lemma graveyard_detach_object k k' L o ts :
  kinv k L → graveyard k L ts → links_only k k' → graveyard k' (detach (N_object o) L) ts.
Proof.
  intros Hi [Hl Hd] (h & mem & ->). pose proof (ko_typed _ _ _ _ _ _ Hi) as Ht. split.
  - by rewrite lookup_detach_untyped.
  - intros u Hu. destruct (Hd u Hu) as (x & b & Hx & Hs & Ho & Hm & Hp).
    exists x, b. split_and!; try done. apply placed_detach; [by apply not_head_object|done].
Qed.

Lemma container_detach_tlist L t m ty : typed L → container (detach (N_tlist t) L) m ty = container L m ty.
Proof. intros Ht. unfold container. by rewrite lookup_detach_untyped. Qed.

(** An object is unregistered, and then its memory is released. *)
Lemma wp_object_delete_then (free_object : objid → K unit) k L o x (Q : unit → kernel → Prop) :
  kinv k L → objects k !! o = Some x → Z.land (type x) RT_Object_Class_Static = 0 → placed (N_object o) L →
  (∀ h, kinv (set_heap h k) (detach (N_object o) L) → wp (free_object o) (set_heap h k) Q) →
  wp (rt_object_delete free_object o) k Q.
Proof.
  intros Hi Hx Hty Hp HQ. unfold rt_object_delete. wp_step. eapply wp_get_object; [done|].
  wp_step. apply wp_assert; [by apply Z.eqb_eq|]. wp_step.
  eapply wp_mono; [by apply (wp_object_detach k L)|]. intros [] k1 (h & -> & Hi1). by apply HQ.
Qed.

Section idle.
Context {kfree : Z → K unit} {free_object : objid → K unit} {run_cleanup : nat → nat → K unit}.
Context `{∀ a, HeapOnly (kfree a)} `{∀ o, HeapOnly (free_object o)} `{∀ f t, HeapOnly (run_cleanup f t)}.
Variable rt_module_destroy : nat → K unit.

Lemma wp_has_defunct k L ts (Q : bool → kernel → Prop) :
  kinv k L → L !! N_defunct = Some (N_tlist <$> ts) → Q (bool_decide (ts ≠ [])) k →
  wp has_defunct_thread k Q.
Proof.
  intros Hi Hl HQ. unfold has_defunct_thread. wp_step. eapply wp_rd_next_kernel; [apply Hi|done|].
  wp_step. by destruct ts.
Qed.

Lemma wp_object_delete k L o x (Q : unit → kernel → Prop) :
  kinv k L → objects k !! o = Some x → Z.land (type x) RT_Object_Class_Static = 0 → placed (N_object o) L →
  (∀ k', links_only k k' → kinv k' (detach (N_object o) L) → Q tt k') →
  wp (rt_object_delete free_object o) k Q.
Proof.
  intros Hi Hx Hty Hp HQ. eapply wp_object_delete_then; [done..|]. intros h Hi1.
  eapply wp_mono; [apply heap_only|]. intros [] k2 (mem & ->). apply HQ; [by exists h, mem|done].
Qed.

(** One dead thread: it leaves the list, and its cleanup function runs. *)
Lemma wp_bury k L t ts {A} (m : K A) (Q : A → kernel → Prop) x :
  kinv k L → graveyard k L (t :: ts) → threads k !! t = Some x →
  (∀ k', links_only k k' → kinv k' (detach (N_tlist t) L) → wp m k' Q) →
  wp (on_heap (rt_list_remove (N_tlist t));;
      x ← get_thread t;
      match cleanup x with None => mret tt | Some f => run_cleanup f t end;; m) k Q.
Proof.
  intros Hi [_ Hd] Hx Hm. destruct (Hd t) as (x' & o & Hx' & Hs & _); [set_solver|].
  rewrite Hx in Hx'. injection Hx' as <-.
  wp_step. eapply wp_on_heap.
  { apply (wp_list_remove _ L); [apply Hi|by eapply tlist_placed|apply not_head_tlist, Hi]. }
  intros [] h Hrep. wp_step. eapply wp_get_thread; [done|]. wp_step.
  assert (kinv (set_heap h k) (detach (N_tlist t) L)) as Hi1 by by apply (kern_ok_detach_tlist Hi _ _ x).
  destruct (cleanup x) as [f|].
  - eapply wp_mono; [apply heap_only|]. intros [] k2 (mem & ->). apply Hm; [by exists h, mem|done].
  - wp_step. apply Hm; [|done]. exists h, (sysmem k). by destruct k.
Qed.

Lemma wp_idle_loop fuel ts : ∀ k L,
  kinv k L → rt_interrupt_nest k = 0 → graveyard k L ts → (length ts < fuel)%nat →
  wp (idle_loop kfree free_object run_cleanup rt_module_destroy fuel) k (λ _ k',
    links_only k k' ∧ ∃ L', kinv k' L' ∧ graveyard k' L' (left_over (objects k) ts) ∧
      ∀ m ty, container L' m ty =
        filter (λ o, o ∉ O_thread <$> released (objects k) ts) (container L m ty)).
Proof.
  revert ts. induction fuel as [|fuel IH]; intros ts k L Hi Hn Hg Hf; [lia|]. cbn [idle_loop].
  pose proof (gv_list _ _ _ Hg) as Hl. wp_step. eapply wp_has_defunct; [done..|].
  destruct ts as [|t ts]; simpl.
  { wp_step. split; [apply links_only_refl|]. exists L. split_and!; [done|done|].
    intros m ty. symmetry. apply list_filter_all, Forall_forall. set_solver. }
  wp_step. unfold RT_DEBUG_NOT_IN_INTERRUPT. do 2 wp_step. apply wp_assert; [by rewrite Hn|].
  wp_step. eapply wp_has_defunct; [done..|]. simpl. wp_step. eapply wp_rd_next_kernel; [apply Hi|done|].
  simpl. wp_step. wp_step.
  destruct (gv_dead _ _ _ Hg t) as (x & o & Hx & Hs & Ho & Hm & Hp); [set_solver|].
  wp_step. eapply wp_get_object; [done|]. rewrite Hm. cbn [leave_module release_module].
  wp_step. wp_step. eapply wp_bury; [done..|]. intros k1 Hk1 Hi1. pose proof Hk1 as (h1 & mem1 & E1).
  pose proof (graveyard_tail k k1 L t ts Hi Hg Hk1) as Hg1.
  assert (threads k1 = threads k ∧ objects k1 = objects k ∧ rt_interrupt_nest k1 = 0) as (Et & Eo & En)
    by by rewrite E1.
  wp_step. unfold rt_object_is_systemobject. wp_step. eapply wp_get_object; [by rewrite Eo|]. wp_step.
  unfold dynamic. rewrite Ho. simpl. destruct (Z.eqb_spec (Z.land (type o) RT_Object_Class_Static) 0) as [E|E]; simpl.
  2: { wp_step. split; [done|]. exists (detach (N_tlist t) L). split_and!; [done|done|]. intros m ty.
       rewrite container_detach_tlist by apply Hi. symmetry. apply list_filter_all, Forall_forall. set_solver. }
  wp_step. eapply wp_get_thread; [by rewrite Et|]. wp_step. eapply wp_mono; [apply heap_only|].
  intros [] k2 (mem2 & ->). wp_step.
  eapply (wp_object_delete (set_sysmem mem2 k1) (detach (N_tlist t) L) (O_thread t) o); [done|by simpl; rewrite Eo|done| |].
  { apply placed_detach; [apply not_head_tlist, Hi|done]. }
  intros k3 Hk3 Hi3. wp_step. wp_step.
  assert (links_only k1 k3) as Hk13.
  { eapply links_only_trans; [|exact Hk3]. exists (heap k1), mem2. by destruct k1. }
  pose proof (graveyard_detach_object k1 k3 _ (O_thread t) ts Hi1 Hg1 Hk13) as Hg3.
  destruct Hk13 as (h3 & mem3 & E3).
  eapply wp_mono; [apply (IH ts k3 _ Hi3); [by rewrite E3|done|simpl in Hf; lia]|].
  intros [] k4 (Hk4 & L4 & Hi4 & Hg4 & Hc4).
  assert (objects k3 = objects k) as Eo3 by by rewrite E3.
  split; [|exists L4; rewrite Eo3 in Hg4; split_and!; [done|done|]].
  - eapply links_only_trans; [exact Hk1|]. eapply links_only_trans; [|exact Hk4]. by exists h3, mem3.
  - intros m ty. rewrite Hc4, Eo3, container_detach by apply Hi1.
    rewrite container_detach_tlist by apply Hi. rewrite list_filter_filter.
    apply list_filter_iff. intros p. csimpl. set_solver.
Qed.

(** The idle thread releases the dead threads.  Every call of [rt_thread_idle_excute]
    ends: it takes dead threads off the list, first of the list first, unregisters the
    dynamic ones and keeps the invariant of the kernel.  It stops after the first static
    thread; when all are dynamic, none is left. *)
Lemma wp_idle_excute k L ts :
  kinv k L → rt_interrupt_nest k = 0 → graveyard k L ts →
  wp (rt_thread_idle_excute kfree free_object run_cleanup rt_module_destroy) k (λ _ k',
    links_only k k' ∧ ∃ L', kinv k' L' ∧ graveyard k' L' (left_over (objects k) ts) ∧
      (Forall (λ t, dynamic (objects k) t = true) ts → L' !! N_defunct = Some []) ∧
      ∀ m ty, container L' m ty =
        filter (λ o, o ∉ O_thread <$> released (objects k) ts) (container L m ty)).
Proof.
  intros Hi Hn Hg. unfold rt_thread_idle_excute. do 2 wp_step.
  eapply wp_mono; [apply (wp_idle_loop _ ts k L); [done..|]|].
  { pose proof (rep_length _ _ _ _ (ko_rep Hi) (gv_list _ _ _ Hg)) as Hlen.
    rewrite length_fmap in Hlen. unfold list_fuel. lia. }
  intros [] k' (Hk & L' & Hi' & Hg' & Hc). split; [done|]. exists L'. split_and!; [done|done| |done].
  intros Hd. rewrite (gv_list _ _ _ Hg'). do 2 f_equal.
  clear -Hd. induction Hd as [|t ts Ht _ IH]; [done|]. simpl. by rewrite Ht.
Qed.
(** How many static threads are among the dead ones. *)
Definition statics (objs : gmap objid rt_object) (ts : list nat) : nat :=
  length (filter (λ t, dynamic objs t = false) ts).

Lemma statics_left_over objs ts :
  left_over objs ts = [] ∨ (statics objs (left_over objs ts) < statics objs ts)%nat.
Proof.
  unfold statics. induction ts as [|t ts IH]; simpl; [by left|]. destruct (dynamic objs t) eqn:E.
  - rewrite (filter_cons_False _ t) by congruence. done.
  - right. rewrite (filter_cons_True _ t) by done. simpl. lia.
Qed.

Lemma wp_idle_rounds n : ∀ ts k L,
  kinv k L → rt_interrupt_nest k = 0 → graveyard k L ts →
  ts = [] ∨ (statics (objects k) ts < n)%nat →
  wp (repeat_m n (rt_thread_idle_excute kfree free_object run_cleanup rt_module_destroy)) k (λ _ k',
    links_only k k' ∧ ∃ L', kinv k' L' ∧ L' !! N_defunct = Some []).
Proof.
  induction n as [|n IH]; intros ts k L Hi Hn Hg Hs; cbn [repeat_m].
  - destruct Hs as [->|]; [|lia]. wp_step. split; [apply links_only_refl|]. exists L.
    split; [done|apply Hg].
  - wp_step. eapply wp_mono; [by apply (wp_idle_excute k L ts)|].
    intros [] k1 (Hk1 & L1 & Hi1 & Hg1 & _). pose proof Hk1 as (h1 & mem1 & E1).
    eapply wp_mono; [apply (IH (left_over (objects k) ts) k1 L1 Hi1); [by rewrite E1|exact Hg1|]|].
    + assert (objects k1 = objects k) as -> by by rewrite E1.
      destruct Hs as [->|Hs]; [by left|]. destruct (statics_left_over (objects k) ts); [by left|right; lia].
    + intros [] k2 [Hk2 H2]. split; [by eapply links_only_trans|done].
Qed.

(** The cleaning terminates and is complete: every round of the idle thread ends, and
    after one more round than there are static threads among the dead ones no dead thread
    is left, in whatever order they died.  The invariant of the kernel is kept. *)
Theorem idle_rounds_clear k L ts :
  kinv k L → rt_interrupt_nest k = 0 → graveyard k L ts →
  wp (repeat_m (S (statics (objects k) ts))
        (rt_thread_idle_excute kfree free_object run_cleanup rt_module_destroy)) k (λ _ k',
    links_only k k' ∧ ∃ L', kinv k' L' ∧ L' !! N_defunct = Some []).
Proof. intros Hi Hn Hg. apply (wp_idle_rounds _ ts k L); [done..|right; lia]. Qed.
End idle.

(** * Deleting a thread *)

(** The lists after a thread and its timer have left theirs. *)
Definition closed (t : nat) (L : lists) : lists :=
  detach (N_object (O_timer (T_thread t))) (detach (row0 (T_thread t)) (detach (N_tlist t) L)).

Lemma lookup_closed L t hd :
  typed L → in_use hd = true → (∀ s l, hd ≠ N_timer_list s l) →
  closed t L !! hd = detach (N_tlist t) L !! hd.
Proof.
  intros Ht Hu Hn. unfold closed. assert (typed (detach (N_tlist t) L)) as Ht1 by by apply typed_detach.
  rewrite lookup_detach_untyped; [|by apply typed_detach|by destruct hd..].
  rewrite lookup_detach_untyped; [done|done| |by destruct hd]. destruct hd; try done. by edestruct Hn.
Qed.

Lemma timer_queue_closed L t s :
  typed L → timer_queue (closed t L) s = filter (λ u, u ≠ T_thread t) (timer_queue L s).
Proof.
  intros Ht. unfold closed. assert (typed (detach (N_tlist t) L)) as Ht1 by by apply typed_detach.
  erewrite timer_queue_ext by (apply lookup_detach_untyped; [by apply typed_detach|done|done]).
  rewrite timer_queue_detach by done. f_equal. apply timer_queue_ext. by apply lookup_detach_untyped.
Qed.

Lemma placed_closed L t n : typed L → placed n L → placed n (closed t L).
Proof.
  intros Ht Hp. unfold closed. assert (typed (detach (N_tlist t) L)) as Ht1 by by apply typed_detach.
  apply placed_detach; [by apply not_head_object, typed_detach|].
  apply placed_detach; [by apply not_head_row|]. by apply placed_detach; [apply not_head_tlist|].
Qed.

(** The group of the ready queues after [rt_schedule_remove_thread]. *)
Definition group_without (t : nat) (x : rt_thread) (grp : Z) (L : lists) : Z :=
  clear_if_empty (detach (N_tlist t) L) (current_priority x) (number_mask x) grp.

Lemma kern_ok_closed h h1 h3 ths grp tms objs L t x :
  kern_ok h ths grp tms objs L → ths !! t = Some x → stat x ≠ RT_THREAD_INIT →
  rep h1 (detach (N_tlist t) L) → rep h3 (closed t L) →
  kern_ok h3 (<[t := set_stat RT_THREAD_CLOSE x]> ths) (group_without t x grp L) tms objs (closed t L).
Proof.
  intros [Hsch Hty Htl Hact Hex Hrow Htt Htw Hw] Hx Hs Hr1 Hr3.
  assert (typed (closed t L)) as Hty3 by by repeat apply typed_detach.
  assert (∀ s u, u ∈ timer_queue (closed t L) s → u ∈ timer_queue L s ∧ u ≠ T_thread t) as Hq.
  { intros s u. rewrite timer_queue_closed by done. rewrite list_elem_of_filter. tauto. }
  split.
  - eapply (sched_ok_lists h1 h3 _ _ (detach (N_tlist t) L)); [|done|done| |].
    + eapply sched_ok_unready; try done. by eapply so_mask.
    + intros p _. by apply lookup_closed.
    + intros u y _ Hp. apply placed_detach; [by apply not_head_object; repeat apply typed_detach|].
      apply placed_detach; [by apply not_head_row, typed_detach|done].
  - done.
  - intros s. unfold closed. rewrite lookup_detach_untyped by (done || by repeat apply typed_detach).
    rewrite !lookup_detach_ne by done. rewrite !fmap_is_Some. apply Htl.
  - intros s u [Hu _]%Hq. by apply Hact.
  - intros s u [Hu _]%Hq. by eapply Hex.
  - intros u y Hy. destruct (Hrow _ _ Hy). split; [by apply placed_closed|done].
  - intros u y. destruct (decide (u = t)) as [->|]; [intros _; by eapply Htt|].
    rewrite lookup_insert_ne by done. apply Htt.
  - intros s u [Hu Hne]%Hq. rewrite lookup_insert_ne by congruence. by eapply Htw.
  - intros hd l u Hwt Hl Hin. rewrite lookup_closed in Hl by (done || by destruct hd).
    rewrite lookup_detach_ne, fmap_Some in Hl by by destruct hd.
    destruct Hl as (l' & Hl & ->). apply list_elem_of_filter in Hin as [Hne Hin].
    rewrite lookup_insert_ne by congruence. by eapply Hw.
Qed.

Definition closed_kernel (h : lheap node) (t : nat) (x : rt_thread) (L : lists) (k : kernel) : kernel :=
  set_threads (<[t := set_stat RT_THREAD_CLOSE x]> (threads k))
    (set_ready_group h (group_without t x (rt_thread_ready_priority_group k) L) k).

(** What [rt_thread_delete] and [rt_thread_detach] begin with. *)
Lemma wp_close_lists k L t x {A} (m : K A) (Q : A → kernel → Prop) :
  kinv k L → threads k !! t = Some x → placed (N_object (O_timer (T_thread t))) L →
  (∀ h1 h, rep h1 (detach (N_tlist t) L) → rep h (closed t L) → wp m (closed_kernel h t x L k) Q) →
  wp (rt_schedule_remove_thread t;; rt_timer_detach (T_thread t);;
      upd_thread t (set_stat RT_THREAD_CLOSE);; m) k Q.
Proof.
  intros Hi Hx Hp Hm. pose proof (ko_typed _ _ _ _ _ _ Hi) as Hty. pose proof (prio_range _ _ _ _ Hi Hx) as Hpr.
  destruct (ko_thread_timer _ _ _ _ _ _ Hi _ _ Hx) as (y & o & Hy & _).
  destruct (ko_row _ _ _ _ _ _ Hi _ _ Hy) as [Hrow _].
  assert (typed (detach (N_tlist t) L)) as Hty1 by by apply typed_detach.
  wp_step. eapply wp_mono; [eapply (wp_remove_thread k L t x); [apply Hi|done|by eapply tlist_placed|
    by apply not_head_tlist|by apply (ready_list_lookup _ _ _ Hi)]|].
  intros [] k1 (h1 & Hr1 & ->). wp_step. unfold rt_timer_detach, rt_timer_remove, timer_rows. simpl.
  wp_step. wp_step. eapply wp_on_heap.
  { apply (wp_list_remove h1 (detach (N_tlist t) L)); [done| |by apply not_head_row].
    apply placed_detach; [by apply not_head_tlist|done]. }
  intros [] h2 Hr2. wp_step. unfold rt_object_detach. wp_step. eapply wp_on_heap.
  { apply (wp_list_remove h2 (detach (row0 (T_thread t)) (detach (N_tlist t) L))); [done| |
      by apply not_head_object, typed_detach].
    apply placed_detach; [by apply not_head_row|]. apply placed_detach; [by apply not_head_tlist|done]. }
  intros [] h3 Hr3. wp_step. wp_step. eapply wp_upd_thread; [done|].
  by apply (Hm h1 h3).
Qed.

Lemma wp_close k L t x {A} (m : K A) (Q : A → kernel → Prop) :
  kinv k L → threads k !! t = Some x → stat x ≠ RT_THREAD_INIT →
  placed (N_object (O_timer (T_thread t))) L →
  (∀ h, kinv (closed_kernel h t x L k) (closed t L) → wp m (closed_kernel h t x L k) Q) →
  wp (rt_schedule_remove_thread t;; rt_timer_detach (T_thread t);;
      upd_thread t (set_stat RT_THREAD_CLOSE);; m) k Q.
Proof.
  intros Hi Hx Hs Hp Hm. eapply wp_close_lists; [done..|]. intros h1 h Hr1 Hr.
  apply Hm. by apply (kern_ok_closed (heap k) h1 h).
Qed.

(** The lists after the closed thread [t] has joined the dead ones. *)
Definition buried (t : nat) (L : lists) : lists :=
  <[N_defunct := N_tlist t :: default [] (L !! N_defunct)]> (delete (N_tlist t) L).

Lemma placed_buried L t n :
  is_Some (L !! N_defunct) → L !! N_tlist t = Some [] → placed n L → placed n (buried t L).
Proof.
  intros [l Hl] Ht (hd & l' & Hl' & Hn). unfold buried. rewrite Hl. simpl.
  assert (<[N_defunct := N_tlist t :: l]> (delete (N_tlist t) L) !! N_defunct = Some (N_tlist t :: l)) as E
    by apply lookup_insert_eq.
  destruct (decide (hd = N_defunct)) as [->|]; [|destruct (decide (hd = N_tlist t)) as [->|]].
  - eexists _, _. split; [exact E|]. rewrite Hl in Hl'. simplify_eq. set_solver.
  - eexists _, _. split; [exact E|]. rewrite Ht in Hl'. simplify_eq. set_solver.
  - exists hd, l'. by rewrite lookup_insert_ne, lookup_delete_ne.
Qed.

Lemma wp_bury_thread k L t :
  kinv k L → is_Some (L !! N_defunct) → L !! N_tlist t = Some [] →
  wp (on_heap (rt_list_insert_after N_defunct (N_tlist t))) k (λ _ k', ∃ h,
    k' = set_heap h k ∧ kinv k' (buried t L)).
Proof.
  intros Hi Hd Ht. pose proof Hd as [l Hl]. eapply wp_on_heap.
  { apply (insert_after_head _ L _ l); [apply Hi|done..]. }
  intros [] h Hrep. exists h. split; [done|]. apply (kern_ok_lists Hi).
  - unfold buried. by rewrite Hl.
  - unfold buried. rewrite Hl. apply typed_insert; [apply Hi|].
    intros n [->|Hn]%elem_of_cons; [done|]. by eapply (ko_typed _ _ _ _ _ _ Hi).
  - intros hd Hu. unfold buried. by rewrite lookup_insert_ne, lookup_delete_ne by by destruct hd.
  - intros n. by apply placed_buried.
Qed.

Lemma closed_defunct L t ts :
  typed L → L !! N_defunct = Some (N_tlist <$> ts) →
  closed t L !! N_defunct = Some (N_tlist <$> filter (λ u, u ≠ t) ts).
Proof.
  intros Ht Hl. unfold closed. rewrite !lookup_detach_untyped by (done || by repeat apply typed_detach).
  rewrite lookup_detach_ne by done. rewrite Hl. simpl. f_equal. apply filter_fmap_tlist.
Qed.

Lemma closed_tlist L t : typed L → closed t L !! N_tlist t = Some [].
Proof.
  intros Ht. unfold closed. rewrite !lookup_detach_ne by done. by rewrite lookup_detach_eq.
Qed.

(** [rt_thread_delete] ends a thread in whatever state it is, once it was started: the
    thread leaves the ready queue or the wait list it is on, its timer leaves the timer list,
    and it is put in front of the dead threads for the idle thread to release.  The invariant
    of the kernel is kept, no other thread moves, and a thread deleted twice is there once. *)
Lemma wp_thread_delete k L t x o ts :
  kinv k L → threads k !! t = Some x → stat x ≠ RT_THREAD_INIT → graveyard k L ts →
  objects k !! O_thread t = Some o → module_id o = None →
  placed (N_object (O_thread t)) L → placed (N_object (O_timer (T_thread t))) L →
  wp (rt_thread_delete t) k (λ r k', r = RT_EOK ∧ objects k' = objects k ∧
    threads k' = <[t := set_stat RT_THREAD_CLOSE x]> (threads k) ∧ rt_interrupt_nest k' = rt_interrupt_nest k ∧
    ∃ L', kinv k' L' ∧ graveyard k' L' (t :: filter (λ u, u ≠ t) ts) ∧
      (∀ p, 0 <= p < RT_THREAD_PRIORITY_MAX → ready_queue L' p = filter (λ u, u ≠ t) (ready_queue L p)) ∧
      (∀ s, timer_queue L' s = filter (λ u, u ≠ T_thread t) (timer_queue L s)) ∧
      ∀ m ty, container L' m ty = filter (λ o, o ≠ O_timer (T_thread t)) (container L m ty)).
Proof.
  intros Hi Hx Hs Hg Ho Hm Hp Hpt. pose proof (ko_typed _ _ _ _ _ _ Hi) as Hty.
  pose proof (closed_defunct L t ts Hty (gv_list _ _ _ Hg)) as Hd.
  unfold rt_thread_delete. eapply wp_close; [done..|]. intros h Hi1. wp_step.
  eapply wp_mono; [apply (wp_bury_thread _ (closed t L) t Hi1); [rewrite Hd; eauto|by apply closed_tlist]|].
  intros [] k2 (h2 & -> & Hi2). wp_step. split_and!; [done..|]. exists (buried t (closed t L)).
  assert (∀ hd, in_use hd = true → buried t (closed t L) !! hd = closed t L !! hd) as Hu.
  { intros hd Hhd. unfold buried. by rewrite lookup_insert_ne, lookup_delete_ne by by destruct hd. }
  split_and!; [done| | | |].
  - split; [unfold buried; by rewrite lookup_insert_eq, Hd|]. intros u Hin.
    assert (∃ y b, threads k !! u = Some y ∧ (u ≠ t → stat y ≠ RT_THREAD_READY) ∧ objects k !! O_thread u = Some b ∧
      module_id b = None ∧ placed (N_object (O_thread u)) L) as (y & b & Hy & Hsy & Hb & Hmb & Hpb).
    { apply elem_of_cons in Hin as [->|[_ Hin]%list_elem_of_filter]; [by exists x, o|].
      destruct (gv_dead _ _ _ Hg u Hin) as (y & b & ? & ? & ?). by exists y, b. }
    exists (if decide (u = t) then set_stat RT_THREAD_CLOSE x else y), b. simpl.
    split_and!; [|by case_decide; [|apply Hsy]|done|done|].
    + case_decide; subst; by rewrite ?lookup_insert_eq, ?lookup_insert_ne.
    + apply placed_buried; [rewrite Hd; eauto|by apply closed_tlist|by apply placed_closed].
  - intros p Hpr. pose proof (ready_list_lookup _ _ _ Hi Hpr) as Hq.
    apply ready_queue_fmap. rewrite Hu, lookup_closed by done. by apply queue_detach.
  - intros s. rewrite <- timer_queue_closed by done. by apply timer_queue_ext, Hu.
  - intros m ty. transitivity (container (closed t L) m ty).
    + unfold container, buried. by rewrite lookup_insert_ne, lookup_delete_ne.
    + unfold closed. rewrite container_detach by by repeat apply typed_detach.
      f_equal. unfold container. rewrite !lookup_detach_untyped; [done|done|done|done|by apply typed_detach|done|done].
Qed.

(** A deleted thread is released by the next round of the idle thread: if all dead
    threads are dynamic, none is left and the thread is registered nowhere. *)
Theorem delete_then_idle kfree free_object run_cleanup rt_module_destroy k L t x o ts :
  (∀ a, HeapOnly (kfree a)) → (∀ o, HeapOnly (free_object o)) → (∀ f t, HeapOnly (run_cleanup f t)) →
  kinv k L → rt_interrupt_nest k = 0 → threads k !! t = Some x → stat x ≠ RT_THREAD_INIT → graveyard k L ts →
  objects k !! O_thread t = Some o → module_id o = None →
  placed (N_object (O_thread t)) L → placed (N_object (O_timer (T_thread t))) L →
  Forall (λ u, dynamic (objects k) u = true) (t :: ts) →
  wp (rt_thread_delete t;; rt_thread_idle_excute kfree free_object run_cleanup rt_module_destroy) k (λ _ k',
    ∃ L', kinv k' L' ∧ L' !! N_defunct = Some [] ∧ ∀ m ty, O_thread t ∉ container L' m ty).
Proof.
  intros ??? Hi Hn Hx Hs Hg Ho Hm Hp Hpt Hd. wp_step.
  eapply wp_mono; [by apply (wp_thread_delete k L t x o ts)|].
  intros r k1 (_ & Eo & _ & En & L1 & Hi1 & Hg1 & _). rewrite Hn in En.
  assert (Forall (λ u, dynamic (objects k1) u = true) (t :: filter (λ u, u ≠ t) ts)) as Hd1.
  { rewrite Eo. apply Forall_cons in Hd as [? Hd]. constructor; [done|]. apply Forall_forall.
    intros u [_ Hu]%list_elem_of_filter. by apply (proj1 (Forall_forall _ _) Hd). }
  eapply wp_mono; [by apply (wp_idle_excute rt_module_destroy k1 L1)|].
  intros [] k2 (_ & L2 & Hi2 & _ & He & Hc). exists L2. split_and!; [done|by apply He|].
  intros m ty. rewrite Hc. intros [Hin _]%list_elem_of_filter. apply Hin.
  apply Forall_cons in Hd1 as [Ht _]. simpl. rewrite Ht. csimpl. set_solver.
Qed.

(** A thread that was created and never started must not be deleted: its
    [number_mask] is what the memory held, and [rt_thread_delete] clears that mask in the
    group of ready priorities when no thread of its own priority is ready.  The ready
    threads of a priority in the mask stay in their queue, but the scheduler does not see
    them. *)
Theorem rt_thread_delete_stale_mask k L t x p :
  kinv k L → threads k !! t = Some x → stat x = RT_THREAD_INIT →
  placed (N_object (O_timer (T_thread t))) L → is_Some (L !! N_defunct) →
  ready_queue L (current_priority x) = [] → 0 <= p < RT_THREAD_PRIORITY_MAX →
  Z.testbit (number_mask x) p = true →
  wp (rt_thread_delete t) k (λ _ k', Z.testbit (rt_thread_ready_priority_group k') p = false ∧
    ∃ L', rep (heap k') L' ∧ ready_queue L' p = ready_queue L p).
Proof.
  intros Hi Hx Hs Hp [l Hl] He Hpr Hb. pose proof (ko_typed _ _ _ _ _ _ Hi) as Hty.
  pose proof (prio_range _ _ _ _ Hi Hx) as Hpx.
  unfold rt_thread_delete. eapply wp_close_lists; [done..|]. intros h1 h Hr1 Hr. wp_step.
  assert (is_Some (closed t L !! N_defunct)) as [l' Hl'].
  { unfold closed. rewrite !lookup_detach_ne by done. rewrite Hl. simpl. eauto. }
  eapply wp_on_heap; [apply (insert_after_head _ (closed t L) _ l'); [done|done|by apply closed_tlist|done]|].
  intros [] h2 Hr2. wp_step. split.
  - simpl. unfold group_without, clear_if_empty.
    rewrite decide_True; [by rewrite Z.land_spec, Z.lnot_spec, Hb, andb_false_r by lia|].
    rewrite lookup_detach_ne by done. rewrite (ready_list_lookup _ _ _ Hi Hpx), He. done.
  - eexists. split; [exact Hr2|]. pose proof (ready_list_lookup _ _ _ Hi Hpr) as Hq.
    apply ready_queue_fmap. rewrite lookup_insert_ne, lookup_delete_ne, lookup_closed by done.
    rewrite (queue_detach _ _ _ _ Hq). rewrite filter_ne_id; [done|].
    eapply (ready_queue_not_in (ko_sched _ _ _ _ _ _ Hi)); [done..|]. left. by rewrite Hs.
Qed.
