(* ===== verification/Creation.v ===== *)
(** Threads come into being: what [rt_thread_init] and [rt_thread_create] set up, and what
    [rt_thread_startup] makes of it. *)

From Stdlib Require Import ZArith Lia.
From stdpp Require Import numbers strings base gmap list.
From S2P Require Import Prelude RtList Bitmap Kernel Scheduler Object Timer Thread.
From S2P Require Import Invariant ThreadSpec ThreadRun Check Demo KernelSpec Registry Lifecycle.
Local Open Scope Z_scope.

(** * Creating a thread *)

(** The node is on no list: it is alone, or not known to be a node. *)
Definition unlisted (n : node) (L : lists) : Prop :=
  ∀ hd l, L !! hd = Some l → n ∈ hd :: l → hd = n ∧ l = [].

Lemma unlisted_registered n o m ty L :
  n ≠ N_object o → n ≠ N_container m ty → unlisted n L → unlisted n (registered o m ty L).
Proof.
  intros H1 H2 Hu hd l. destruct (decide (hd = N_container m ty)) as [->|Hc].
  - rewrite lookup_registered_eq. intros [= <-] [->|[->|Hn]%elem_of_cons]%elem_of_cons; [done|done|].
    destruct (L !! N_container m ty) as [l|] eqn:E; [|by apply elem_of_nil in Hn].
    destruct (Hu _ _ E) as [? _]; [set_solver|congruence].
  - unfold registered. rewrite lookup_insert_ne by done. rewrite lookup_delete_Some. intros [_ ?]. by apply Hu.
Qed.

Lemma unlisted_init n n' L : n ≠ n' → unlisted n L → unlisted n (<[n' := []]> L).
Proof.
  intros Hne Hu hd l. destruct (decide (hd = n')) as [->|].
  - rewrite lookup_insert_eq. intros [= <-] ->%list_elem_of_singleton. done.
  - rewrite lookup_insert_ne by done. apply Hu.
Qed.

Lemma typed_init n L : typed L → typed (<[n := []]> L).
Proof.
  intros Ht hd l m. destruct (decide (hd = n)) as [->|].
  - rewrite lookup_insert_eq. intros [= <-]. set_solver.
  - rewrite lookup_insert_ne by done. apply Ht.
Qed.

Lemma placed_init n m L : unlisted n L → placed m L → placed m (<[n := []]> L).
Proof.
  intros Hu (hd & l & Hl & Hm). destruct (decide (hd = n)) as [->|].
  - destruct (Hu _ _ Hl) as [_ ->]; [set_solver|]. exists n, []. by rewrite lookup_insert_eq.
  - exists hd, l. by rewrite lookup_insert_ne.
Qed.

(** A thread that is not ready and on no list, new or not, gets a record and a timer. *)
Lemma kern_ok_put_thread h h' ths grp tms objs objs' L L' t x y o :
  kern_ok h ths grp tms objs L → unlisted (N_tlist t) L → unlisted (row0 (T_thread t)) L →
  stat x ≠ RT_THREAD_READY → (stat x ≠ RT_THREAD_INIT → number_mask x = 2 ^ current_priority x) →
  0 <= current_priority x < RT_THREAD_PRIORITY_MAX → timeout_func y = TF_thread_timeout → tm_parameter y = t → objs' !! O_timer (T_thread t) = Some o → flag o = 0 ∨ flag o = RT_TIMER_FLAG_ACTIVATED →
  (∀ tm, tm ≠ T_thread t → objs' !! O_timer tm = objs !! O_timer tm) →
  rep h' L' → typed L' → (∀ hd, in_use hd = true → L' !! hd = L !! hd) →
  (∀ m, placed m L → placed m L') → placed (N_tlist t) L' → placed (row0 (T_thread t)) L' →
  kern_ok h' (<[t := x]> ths) grp (<[T_thread t := y]> tms) objs' L'.
Proof.
  intros Hok Hut Hur Hs Hmx Hp Hyf Hyp Ho Hf Hobjs Hrep Hty' Hu Hpl Hpt Hpr.
  pose proof (kern_ok_lists Hok h' L' Hrep Hty' Hu Hpl) as [Hsch Hty Htl Hact Hex Hrow Htt Htw Hw].
  assert (∀ hd l, in_use hd = true → L' !! hd = Some l → N_tlist t ∉ l) as Hnt.
  { intros hd l Hhd Hl Hin. rewrite Hu in Hl by done. destruct (Hut _ _ Hl) as [-> _]; [set_solver|done]. }
  assert (∀ s, T_thread t ∉ timer_queue L' s) as Hnr.
  { intros s Hin. destruct (Htl s) as [l Hl]. apply (elem_of_timer_queue L' s _ l) in Hin; [|done..].
    rewrite Hu in Hl by done. destruct (Hur _ _ Hl) as [? _]; [set_solver|done]. }
  split; try done.
  - destruct Hsch as [Hr Hq Hrd Hgr Hg Hprio Hmk Hpla Hnh]. split; try done.
    + intros p u Hpp. rewrite Hrd by done. destruct (decide (u = t)) as [->|]; [|by rewrite lookup_insert_ne].
      rewrite lookup_insert_eq. split; [|by intros (z & [= <-] & Hz & _)]. intros Hin. exfalso. apply Hrd in Hin; [|done].
      eapply (Hnt (N_ready p)); [done|by apply Hq|]. by apply list_elem_of_fmap_2.
    + intros u z. rewrite lookup_insert_Some. intros [[<- <-]|[_ ?]]; eauto.
    + intros u z. rewrite lookup_insert_Some. intros [[<- <-]|[_ ?]]; [done|eauto].
    + intros u z. rewrite lookup_insert_Some. intros [[<- <-]|[_ ?]]; eauto.
  - intros s tm Hin. rewrite Hobjs; [by apply Hact|]. intros ->. by apply (Hnr s).
  - intros s tm Hin. rewrite lookup_insert_ne; [by apply (Hex s)|]. intros <-. by apply (Hnr s).
  - intros tm z. rewrite lookup_insert_Some. intros [[<- <-]|[Hne Hz]]; [by rewrite Ho|].
    rewrite Hobjs by done. eauto.
  - intros u z. rewrite lookup_insert_Some. intros [[<- <-]|[Hne Hz]].
    + exists y, o. rewrite lookup_insert_eq. split_and!; done.
    + destruct (Htt _ _ Hz) as (y' & o' & ? & ? & ? & ? & ?). exists y', o'.
      rewrite lookup_insert_ne by congruence. by rewrite Hobjs by congruence.
  - intros s u Hin. rewrite lookup_insert_ne; [by apply (Htw s)|]. intros <-. by apply (Hnr s).
  - intros hd l u Hwt Hl Hin. rewrite lookup_insert_ne; [by eapply Hw|]. intros <-.
    apply (Hnt hd l); [by destruct hd|done..].
Qed.

(** ** The structure of a thread *)

(** The record that [_rt_thread_init] writes over [old]. *)
Definition new_thread (entry_fn param : nat) (stack_start size priority tick : Z) (old : rt_thread) : rt_thread :=
  set_entry entry_fn (set_parameter param
  (set_stack_addr stack_start (set_stack_size size
  (set_stack_byte0 35
  (set_sp (rt_hw_stack_init (u32 (stack_start + size - 4)))
  (set_init_priority priority (set_current_priority priority
  (set_th_init_tick tick (set_remaining_tick tick
  (set_error RT_EOK (set_stat RT_THREAD_INIT
  (set_cleanup None (set_user_data 0 old))))))))))))).

(** The lists after [_rt_thread_init] of [t]. *)
Definition with_thread (t : nat) (L : lists) : lists :=
  <[row0 (T_thread t) := []]>
    (registered (O_timer (T_thread t)) None RT_Object_Class_Timer (<[N_tlist t := []]> L)).

(** The memory of a new thread: its nodes are on no list. *)
Record fresh_thread (t : nat) (L : lists) : Prop := {
  ft_tlist : unlisted (N_tlist t) L;
  ft_row : unlisted (row0 (T_thread t)) L;
  ft_timer : L !! N_object (O_timer (T_thread t)) = Some [];
  ft_timers : is_Some (L !! N_container None RT_Object_Class_Timer)
}.

(** What [_rt_thread_init] does to the records. *)
Record initialised (t : nat) (x : rt_thread) (k k' : kernel) : Prop := {
  in_threads : threads k' = <[t := x]> (threads k);
  in_timers : timers k' = <[T_thread t := mk_timer TF_thread_timeout t 0 0]> (timers k);
  in_objects : ∃ o, objects k' = <[O_timer (T_thread t) := o]> (objects k) ∧ flag o = 0;
  in_group : rt_thread_ready_priority_group k' = rt_thread_ready_priority_group k;
  in_current : rt_current_thread k' = rt_current_thread k;
  in_lock : rt_scheduler_lock_nest k' = rt_scheduler_lock_nest k;
  in_nest : rt_interrupt_nest k' = rt_interrupt_nest k;
  in_sysmem : sysmem k' = sysmem k
}.

Lemma wp_thread_init_fields k L t o entry_fn param stack_start size priority tick :
  rep (heap k) L → kernel_context k → fresh_thread t L → objects k !! O_thread t = Some o →
  priority < RT_THREAD_PRIORITY_MAX →
  wp (rt_thread_init_fields t entry_fn param stack_start size priority tick) k (λ r k',
    r = RT_EOK ∧ rep (heap k') (with_thread t L) ∧
    initialised t (new_thread entry_fn param stack_start size priority tick
                     (default zero_thread (threads k !! t))) k k').
Proof.
  intros Hr Hc [Hut Hur Hot Hct] Ho Hp. unfold rt_thread_init_fields. wp_step.
  eapply wp_on_heap; [by apply (init_detached _ L)|]. intros [] h1 Hr1.
  wp_step. apply wp_assert; [by apply Z.ltb_lt|]. wp_step. wp_step. wp_step.
  eapply wp_get_object; [done|]. wp_step. unfold rt_timer_init. wp_step.
  eapply (wp_object_init_lists _ (<[N_tlist t := []]> L)); [done|done| | |].
  { by rewrite lookup_insert_ne. } { by rewrite lookup_insert_ne. }
  intros h2 Hr2. unfold rt_timer_init_fields, timer_rows. simpl.
  wp_step. eapply wp_upd_object; [apply lookup_insert_eq|]. wp_step.
  eapply wp_upd_object; [apply lookup_insert_eq|]. wp_step. wp_step. wp_step.
  eapply wp_on_heap.
  { apply (init_detached h2 (registered (O_timer (T_thread t)) None RT_Object_Class_Timer (<[N_tlist t := []]> L))); [done|].
    by apply unlisted_registered, unlisted_init. }
  intros [] h3 Hr3. wp_step. wp_step. split_and!; [done|done|]. split; simpl; try done.
  eexists. split; [by rewrite !insert_insert_eq|]. done.
Qed.

Lemma lookup_with_thread t L hd : in_use hd = true → with_thread t L !! hd = L !! hd.
Proof.
  intros Hu. unfold with_thread. rewrite lookup_insert_ne by by destruct hd.
  rewrite lookup_registered by by destruct hd. by rewrite lookup_insert_ne by by destruct hd.
Qed.

Lemma placed_with_thread t L n :
  fresh_thread t L → placed n L → placed n (with_thread t L).
Proof.
  intros [Hut Hur Hot Hct] Hp. apply placed_init; [by apply unlisted_registered, unlisted_init|].
  apply placed_registered_mono; [by rewrite lookup_insert_ne|]. by apply placed_init.
Qed.

Lemma kinv_initialised k k' L t x :
  kinv k L → fresh_thread t L → initialised t x k k' → rep (heap k') (with_thread t L) →
  stat x = RT_THREAD_INIT → 0 <= current_priority x < RT_THREAD_PRIORITY_MAX →
  kinv k' (with_thread t L).
Proof.
  intros Hi Hf [Ht Htm (o & Ho & Hfl) Hg _ _ _ _] Hrep Hs Hp. unfold kinv. rewrite Ht, Htm, Hg, Ho.
  pose proof Hf as [Hut Hur Hot Hct].
  eapply (kern_ok_put_thread (heap k) _ _ _ _ (objects k) _ L _ t x _ o); try done.
  - by rewrite Hs.
  - apply lookup_insert_eq.
  - by left.
  - intros tm Hne. rewrite lookup_insert_ne by congruence. done.
  - apply typed_init, typed_registered, typed_init, Hi.
  - intros hd. apply lookup_with_thread.
  - intros m. by apply placed_with_thread.
  - apply placed_init; [by apply unlisted_registered, unlisted_init|].
    apply placed_registered_mono; [by rewrite lookup_insert_ne|]. exists (N_tlist t), [].
    rewrite lookup_insert_eq. split; [done|set_solver].
  - exists (row0 (T_thread t)), []. unfold with_thread. rewrite lookup_insert_eq. split; [done|set_solver].
Qed.

Lemma fresh_thread_registered t o ty L :
  o ≠ O_timer (T_thread t) → fresh_thread t L → fresh_thread t (registered o None ty L).
Proof.
  intros Ho [Hut Hur Hot Hct]. split.
  - by apply unlisted_registered.
  - by apply unlisted_registered.
  - rewrite lookup_registered; [done|done|congruence].
  - destruct (decide (ty = RT_Object_Class_Timer)) as [->|].
    + rewrite lookup_registered_eq. eauto.
    + rewrite lookup_registered; [done|congruence|done].
Qed.

Lemma wp_object_allocate k L o ty nm (Q : option objid → kernel → Prop) :
  rep (heap k) L → kernel_context k → rt_interrupt_nest k = 0 → L !! N_object o = Some [] →
  is_Some (L !! N_container None ty) →
  (∀ h, rep h (registered o None ty L) →
    Q (Some o) (set_heap h (set_objects (<[o := mk_object (object_name nm) (u8 ty) 0 None]> (objects k)) k))) →
  wp (rt_object_allocate (Some o) ty nm) k Q.
Proof.
  intros Hr Hc Hn Ho [l Hl] HQ. unfold rt_object_allocate, RT_DEBUG_NOT_IN_INTERRUPT. do 3 wp_step.
  apply wp_assert; [by rewrite Hn|]. wp_step. apply wp_module_self; [done|]. wp_step. wp_step. wp_step.
  replace (if ty =? RT_Object_Class_Module then None else None) with (@None nat) by by destruct (ty =? _).
  eapply wp_on_heap; [by apply (insert_after_head _ L _ l)|]. intros [] h Hrep. wp_step.
  apply HQ. unfold registered. by rewrite Hl.
Qed.

(** ** [rt_thread_create] *)

Lemma kernel_context_allocate k o x :
  module_id x = None → kernel_context k → kernel_context (set_objects (<[o := x]> (objects k)) k).
Proof.
  intros Hm Hc t Ht. destruct (decide (o = O_thread t)) as [->|].
  - exists x. split; [apply lookup_insert_eq|done].
  - simpl. rewrite lookup_insert_ne by done. by apply Hc.
Qed.

Lemma container_with_thread t L m ty :
  container (with_thread t L) m ty =
    if decide (m = None ∧ ty = RT_Object_Class_Timer)
    then O_timer (T_thread t) :: container L m ty else container L m ty.
Proof.
  unfold container. case_decide as Hd.
  - destruct Hd as [-> ->]. unfold with_thread. rewrite lookup_insert_ne by done.
    rewrite lookup_registered_eq. by rewrite lookup_insert_ne.
  - unfold with_thread. rewrite lookup_insert_ne, lookup_registered by naive_solver.
    by rewrite lookup_insert_ne.
Qed.

Lemma run_order_ext L L' :
  (∀ p, 0 <= p < RT_THREAD_PRIORITY_MAX → L' !! N_ready p = L !! N_ready p) → run_order L' = run_order L.
Proof.
  intros H. unfold run_order. assert (∀ p, p ∈ ready_lists → ready_queue L' p = ready_queue L p) as Hq.
  { intros p Hp%elem_of_ready_lists. by apply ready_queue_ext, H. }
  clear H. induction ready_lists as [|p ps IH]; [done|]. csimpl.
  rewrite Hq by set_solver. f_equal. apply IH. set_solver.
Qed.

(** C39: [rt_thread_create] is all or nothing.  [taken] and [freed] are what the allocator
    does to its memory when it is asked for the stack and when the memory of an object is
    given back.  If there is no memory for the stack, the object that was already registered
    is unregistered, its memory is given back, and nothing else is left of the attempt;
    otherwise the thread is registered with its timer and initialised, it is not ready yet,
    no other thread changes and nothing is given back.  Both ways the invariant of the
    kernel is kept. *)
Theorem rt_thread_create_spec malloc free_object taken freed k L t nm entry_fn param stack size priority tick :
  (∀ k, wp (malloc size) k (λ p k', p = stack ∧ k' = set_sysmem (taken (sysmem k)) k)) →
  (∀ o k, wp (free_object o) k (λ _ k', k' = set_sysmem (freed o (sysmem k)) k)) →
  kinv k L → kernel_context k → rt_interrupt_nest k = 0 → fresh_thread t L →
  L !! N_object (O_thread t) = Some [] → is_Some (L !! N_container None RT_Object_Class_Thread) →
  0 <= priority < RT_THREAD_PRIORITY_MAX →
  wp (rt_thread_create malloc free_object (Some t) nm entry_fn param size priority tick) k (λ r k', ∃ L',
    kinv k' L' ∧ run_order L' = run_order L ∧
    if stack =? 0 then
      r = None ∧ threads k' = threads k ∧ timers k' = timers k ∧
      (∀ m ty, container L' m ty = container L m ty) ∧
      sysmem k' = freed (O_thread t) (taken (sysmem k))
    else
      r = Some t ∧ sysmem k' = taken (sysmem k) ∧
      threads k' = <[t := new_thread entry_fn param stack size priority tick
                            (default zero_thread (threads k !! t))]> (threads k) ∧
      container L' None RT_Object_Class_Thread = O_thread t :: container L None RT_Object_Class_Thread ∧
      container L' None RT_Object_Class_Timer =
        O_timer (T_thread t) :: container L None RT_Object_Class_Timer).
Proof.
  intros Hmal Hfree Hi Hc Hn Hf Ho Hct Hp. unfold rt_thread_create. simpl. wp_step.
  apply (wp_object_allocate k L); [apply Hi|done..|]. intros h1 Hr1. wp_step.
  eapply wp_mono; [apply Hmal|]. intros p k1 (-> & ->). set (o := mk_object _ _ _ _) in *.
  set (L1 := registered _ _ _ _) in *. set (k1 := set_sysmem _ _).
  assert (kinv k1 L1) as Hi1.
  { eapply kern_ok_registered; [|done|done]. eapply kern_ok_objects; [exact Hi|]. intros tm. simpl.
    by rewrite lookup_insert_ne. }
  assert (objects k1 !! O_thread t = Some o) as Ho1 by apply lookup_insert_eq.
  pose proof (fresh_thread_registered t (O_thread t) RT_Object_Class_Thread L ltac:(done) Hf : fresh_thread t L1) as Hf1.
  destruct (stack =? 0).
  - wp_step. eapply (wp_object_delete_then _ k1 L1); [done|done|done|apply placed_registered|].
    intros h2 Hi2. eapply wp_mono; [apply Hfree|]. intros [] k2 ->. wp_step. exists (detach (N_object (O_thread t)) L1).
    pose proof (ko_typed _ _ _ _ _ _ Hi1) as Ht1. split_and!; [done| |done|done|done| |done].
    + apply run_order_ext. intros q _. rewrite lookup_detach_untyped by done. by apply lookup_registered.
    + intros m ty. rewrite container_detach by done.
      pose proof (container_fresh k L (O_thread t) m ty Hi Ho) as Hfr.
      destruct (decide (N_container m ty = N_container None RT_Object_Class_Thread)) as [[= -> ->]|Hne].
      * unfold L1. rewrite container_registered, filter_cons_False by naive_solver. by apply filter_ne_id.
      * rewrite filter_ne_id; unfold container, L1; by rewrite lookup_registered.
  - wp_step. eapply wp_mono; [apply (wp_thread_init_fields k1 L1 t o); [apply Hi1| |done|done|lia]|].
    { exact (kernel_context_allocate k (O_thread t) o eq_refl Hc). }
    intros r k2 (-> & Hr2 & Hin). wp_step. exists (with_thread t L1).
    split_and!; [by eapply (kinv_initialised k1)| |done|by rewrite (in_sysmem _ _ _ _ Hin)|by rewrite (in_threads _ _ _ _ Hin)| |].
    + apply run_order_ext. intros q _. rewrite lookup_with_thread by done. by apply lookup_registered.
    + rewrite container_with_thread, decide_False by naive_solver. apply container_registered.
    + rewrite container_with_thread, decide_True by done. f_equal. unfold container, L1.
      by rewrite lookup_registered.
Qed.

(** ** [rt_thread_startup] *)

(** The record of a thread that is about to be resumed for the first time. *)
Definition startable (x : rt_thread) : rt_thread :=
  set_stat RT_THREAD_SUSPEND (set_number_mask (u32 (Z.shiftl 1 (init_priority x)))
    (set_current_priority (init_priority x) x)).

Lemma kinv_startable k L t x :
  kinv k L → threads k !! t = Some x → unlisted (N_tlist t) L → unlisted (row0 (T_thread t)) L →
  0 <= init_priority x < RT_THREAD_PRIORITY_MAX →
  kinv (set_threads (<[t := startable x]> (threads k)) k) L.
Proof.
  intros Hi Hx Hut Hur Hp. destruct (ko_thread_timer _ _ _ _ _ _ Hi _ _ Hx) as (y & o & Hy & Hf & Hpar & Ho & Hfl).
  unfold kinv. simpl. rewrite <- (insert_id (timers k) (T_thread t) y) by done.
  eapply (kern_ok_put_thread (heap k) _ _ _ _ (objects k) _ L L t (startable x) y o); try done.
  - intros _. by apply shiftl_mask.
  - apply Hi.
  - apply Hi.
  - by eapply tlist_placed.
  - by apply (ko_row _ _ _ _ _ _ Hi _ y).
Qed.

(** [rt_thread_startup] makes a thread that was only initialised ready: it is last in the
    queue of its priority, and runs at once if it is the best; no other thread moves. *)
Theorem rt_thread_startup_spec k L t x :
  running k L → threads k !! t = Some x → stat x = RT_THREAD_INIT → stack_ok x = true →
  unlisted (N_tlist t) L → unlisted (row0 (T_thread t)) L →
  0 <= init_priority x < RT_THREAD_PRIORITY_MAX →
  wp (rt_thread_startup t) k (λ r k', r = RT_EOK ∧ ∃ L', running k' L' ∧
    threads k' = <[t := set_stat RT_THREAD_READY (startable x)]> (threads k) ∧
    (∀ p, 0 <= p < RT_THREAD_PRIORITY_MAX →
      ready_queue L' p = ready_queue L p ++ if decide (p = init_priority x) then [t] else []) ∧
    rt_current_thread k' = elected k L').
Proof.
  intros Hr Hx Hs Hst Hut Hur Hp. pose proof (rn_inv _ _ Hr) as Hi. destruct (rn_current _ _ Hr) as [c Hcur].
  unfold rt_thread_startup. wp_step. eapply wp_get_thread; [done|]. wp_step.
  apply wp_assert; [by rewrite bool_decide_eq_true|]. wp_step. eapply wp_upd_thread; [done|].
  wp_step. eapply wp_upd_thread; [apply lookup_insert_eq|]. wp_step.
  eapply wp_upd_thread; [apply lookup_insert_eq|]. simpl. rewrite !insert_insert_eq.
  set (k1 := set_threads _ _). pose proof (kinv_startable k L t x Hi Hx Hut Hur Hp) as Hi1. change (kinv k1 L) in Hi1.
  wp_step. eapply wp_mono; [apply (wp_thread_resume k1 L t (startable x) Hi1); [apply lookup_insert_eq|done]|].
  intros r k2 (_ & Hq & Ht2 & Htm2 & Hi2). simpl in Ht2. rewrite insert_insert_eq in Ht2.
  assert (rt_current_thread k2 = Some c) as Hc2 by by rewrite (qt_current _ _ Hq).
  assert (running k2 (resumed t (init_priority x) L)) as Hr2.
  { split; [done|rewrite Ht2; by eapply stacks_ok_insert; [apply Hr|..]| |rewrite Hc2; eauto].
    rewrite Ht2. by apply idle_insert; [apply Hr|]. }
  wp_step. unfold rt_thread_self. wp_step. wp_step. wp_step. rewrite Hc2. wp_step.
  eapply wp_mono; [apply (wp_schedule _ _ Hr2)|]. intros [] k3 (Hr3 & Hm3 & Hc3). wp_step.
  split; [done|]. exists (resumed t (init_priority x) L).
  split_and!; [done|by rewrite (sm_threads _ _ Hm3), Ht2| |].
  - intros p Hpr. rewrite (ready_queue_resumed k L) by done. f_equal. apply filter_ne_id. intros Hin.
    apply (so_ready _ _ _ _ (ko_sched _ _ _ _ _ _ Hi)) in Hin as (x' & Hx' & Hs' & _); [|done]. congruence.
  - rewrite Hc3. unfold elected. rewrite (fr_lock _ _ (qt_frame _ _ Hq)), Hc2, Hcur. done.
Qed.

(** * Instances *)

Definition unlisted_b (n : node) (L : lists) : bool :=
  all_entries (λ hd l, negb (bool_decide (n ∈ hd :: l)) || bool_decide (hd = n ∧ l = [])) L.

Lemma unlisted_b_spec n L : unlisted_b n L = true → unlisted n L.
Proof.
  intros H hd l Hl Hn. pose proof (all_entries_spec _ _ H hd l Hl) as Hb. simpl in Hb.
  rewrite bool_decide_eq_true_2 in Hb by done. by apply bool_decide_eq_true in Hb.
Qed.

Definition fresh_thread_b (t : nat) (L : lists) : bool :=
  unlisted_b (N_tlist t) L && unlisted_b (row0 (T_thread t)) L
  && bool_decide (L !! N_object (O_timer (T_thread t)) = Some [])
  && bool_decide (is_Some (L !! N_container None RT_Object_Class_Timer)).

Lemma fresh_thread_b_spec t L : fresh_thread_b t L = true → fresh_thread t L.
Proof.
  unfold fresh_thread_b. rewrite !andb_true_iff, !bool_decide_eq_true. intros [[[H1 H2] H3] H4].
  by split; [apply unlisted_b_spec..|done|done].
Qed.

(** The booted kernel with memory for one more thread, in which a thread of priority 10 has
    left its mask. *)
Definition spare : kernel :=
  set_threads (<[5%nat := set_number_mask 1024 (set_stat RT_THREAD_CLOSE (set_current_priority 10 zero_thread))]> (threads booted))
    (set_heap (heap booted ∪ static_heap (thread_objects [5%nat])) booted).

Definition stack5 : Z → K Z := λ _, mret 0x20006000.
Definition no_free {A} : A → K unit := λ _, mret tt.

(** The thread created there, with priority 14. *)
Definition created : kernel :=
  run (rt_thread_create stack5 no_free (Some 5%nat) "dyn" 5 0 512 14 10) (set_threads (threads booted) spare).
Definition created_stale : kernel :=
  run (rt_thread_create stack5 no_free (Some 5%nat) "dyn" 5 0 512 14 10) spare.
Definition started : kernel := run (rt_thread_startup 5) created.

Lemma created_running : running created (lists_at created).
Proof. apply running_b_spec. by vm_compute. Qed.

(** An allocator that counts: it has [p] for the stack, or nothing, and takes back objects
    of 128 bytes. *)
Definition count_bytes (n : Z) (h : small_mem) : small_mem := set_used_mem (used_mem h + n) h.
Definition counting_malloc (p size : Z) : K Z := modify (λ k, set_sysmem (count_bytes size (sysmem k)) k);; mret p.
Definition counting_free (o : objid) : K unit := modify (λ k, set_sysmem (count_bytes (-128) (sysmem k)) k).

Lemma create_ready :
  let k := set_threads (threads booted) spare in
  kinv k (lists_at k) ∧ kernel_context k ∧ rt_interrupt_nest k = 0 ∧ fresh_thread 5 (lists_at k) ∧
  lists_at k !! N_object (O_thread 5) = Some [] ∧
  is_Some (lists_at k !! N_container None RT_Object_Class_Thread).
Proof.
  cbv zeta. split_and!; [apply kinv_b_spec|apply kernel_context_b_spec| |apply fresh_thread_b_spec| |apply is_Some_alt];
    by vm_compute.
Qed.

Lemma rt_thread_create_witness :
  let k := set_threads (threads booted) spare in
  wp (rt_thread_create (counting_malloc 0x20006000) counting_free (Some 5%nat) "dyn" 5 0 512 14 10) k
    (λ r _, r = Some 5%nat) ∧
  wp (rt_thread_create (λ _, mret 0) counting_free (Some 5%nat) "dyn" 5 0 512 14 10) k
    (λ r k', r = None ∧ sysmem k' = count_bytes (-128) (sysmem k)).
Proof.
  destruct create_ready as (H1 & H2 & H3 & H4 & H5 & H6). intros k.
  assert (0 <= 14 < RT_THREAD_PRIORITY_MAX) as Hp by (split; reflexivity || discriminate). split.
  - eapply wp_mono.
    + apply (rt_thread_create_spec (counting_malloc 0x20006000) counting_free (count_bytes 512) (λ _, count_bytes (-128))
        k (lists_at k) 5 "dyn" 5 0 0x20006000 512 14 10); [|reflexivity|exact H1|exact H2|exact H3|exact H4|exact H5|exact H6|exact Hp].
      intros k0. split; reflexivity.
    + intros r k' (L' & _ & _ & H). exact (proj1 H).
  - eapply wp_mono.
    + apply (rt_thread_create_spec (λ _, mret 0) counting_free (λ h, h) (λ _, count_bytes (-128))
        k (lists_at k) 5 "dyn" 5 0 0 512 14 10); [|reflexivity|exact H1|exact H2|exact H3|exact H4|exact H5|exact H6|exact Hp].
      intros k0. split; [reflexivity|]. destruct k0. reflexivity.
    + intros r k' (L' & _ & _ & -> & _ & _ & _ & H). split; [reflexivity|exact H].
Defined.

Lemma rt_thread_startup_witness :
  wp (rt_thread_startup 5) created (λ r _, r = RT_EOK).
Proof.
  eapply wp_mono.
  - apply (rt_thread_startup_spec created (lists_at created) 5
      (new_thread 5 0 0x20006000 512 14 10 zero_thread)).
    + exact created_running.
    + by vm_compute.
    + by vm_compute.
    + by vm_compute.
    + apply unlisted_b_spec. by vm_compute.
    + apply unlisted_b_spec. by vm_compute.
    + by vm_compute.
  - by intros r k' [-> _].
Defined.

Definition dead_b (k : kernel) (L : lists) (t : nat) : bool :=
  match threads k !! t, objects k !! O_thread t with
  | Some x, Some o => bool_decide (stat x ≠ RT_THREAD_READY) && bool_decide (module_id o = None)
                      && placed_b (N_object (O_thread t)) L
  | _, _ => false
  end.
Definition graveyard_b (k : kernel) (L : lists) (ts : list nat) : bool :=
  bool_decide (L !! N_defunct = Some (N_tlist <$> ts)) && forallb (dead_b k L) ts.

Lemma graveyard_b_spec k L ts : graveyard_b k L ts = true → graveyard k L ts.
Proof.
  unfold graveyard_b. rewrite andb_true_iff, bool_decide_eq_true. intros [Hl Hd]. split; [done|].
  intros t Ht. pose proof (forallb_elem _ _ _ Hd Ht) as H. unfold dead_b in H.
  destruct (threads k !! t) as [x|]; [|done]. destruct (objects k !! O_thread t) as [o|]; [|done].
  rewrite !andb_true_iff, !bool_decide_eq_true in H. destruct H as [[H1 H2] H3].
  exists x, o. split_and!; try done. by apply placed_b_spec.
Qed.

(** Thread 3, which is static, and then the started thread 5 have been deleted. *)
Definition two_dead : kernel := run (rt_thread_delete 3;; rt_thread_delete 5) started.

Lemma idle_rounds_clear_witness :
  wp (repeat_m 2 (rt_thread_idle_excute no_free no_free (λ _, no_free) no_free)) two_dead
    (λ _ k', ∃ L' : lists, L' !! N_defunct = Some []).
Proof.
  assert (statics (objects two_dead) [5; 3]%nat = 1%nat) as Es by by vm_compute.
  eapply wp_mono.
  - rewrite <- Es.
    apply (idle_rounds_clear (kfree := no_free) (free_object := no_free) (run_cleanup := λ _, no_free)
      no_free two_dead (lists_at two_dead) [5; 3]%nat).
    + apply kinv_b_spec. by vm_compute.
    + by vm_compute.
    + apply graveyard_b_spec. by vm_compute.
  - intros [] k' (_ & L' & _ & H). by exists L'.
Defined.

Lemma delete_then_idle_witness :
  wp (rt_thread_delete 5;; rt_thread_idle_excute no_free no_free (λ _, no_free) no_free) started
    (λ _ k', ∃ L', O_thread 5 ∉ container L' None RT_Object_Class_Thread).
Proof.
  assert (∃ x o, threads started !! 5%nat = Some x ∧ stat x ≠ RT_THREAD_INIT ∧
    objects started !! O_thread 5 = Some o ∧ module_id o = None) as (x & o & Hx & Hs & Ho & Hm)
    by (eexists _, _; split_and!; by vm_compute).
  eapply wp_mono.
  - apply (delete_then_idle no_free no_free (λ _, no_free) no_free started (lists_at started) 5 x o []).
    + intros a. apply heap_only_ret.
    + intros a. apply heap_only_ret.
    + intros f a. apply heap_only_ret.
    + apply kinv_b_spec. by vm_compute.
    + by vm_compute.
    + exact Hx.
    + exact Hs.
    + apply graveyard_b_spec. by vm_compute.
    + exact Ho.
    + exact Hm.
    + apply placed_b_spec. by vm_compute.
    + apply placed_b_spec. by vm_compute.
    + constructor; [by vm_compute|constructor].
  - intros [] k' (L' & _ & _ & H). exists L'. apply H.
Defined.

Lemma rt_thread_delete_stale_mask_witness :
  wp (rt_thread_delete 5) created_stale (λ _ k',
    Z.testbit (rt_thread_ready_priority_group k') 10 = false ∧ ∃ L', ready_queue L' 10 = [2; 3]%nat).
Proof.
  assert (0 <= 10 < RT_THREAD_PRIORITY_MAX) as Hp by by vm_compute.
  assert (∃ x, threads created_stale !! 5%nat = Some x ∧ stat x = RT_THREAD_INIT ∧
    ready_queue (lists_at created_stale) (current_priority x) = [] ∧ Z.testbit (number_mask x) 10 = true)
    as (x & Hx & Hs & Hq & Hb) by (eexists; split_and!; by vm_compute).
  eapply wp_mono.
  - apply (rt_thread_delete_stale_mask created_stale (lists_at created_stale) 5 x 10).
    + apply kinv_b_spec. by vm_compute.
    + exact Hx.
    + exact Hs.
    + apply placed_b_spec. by vm_compute.
    + apply is_Some_alt. by vm_compute.
    + exact Hq.
    + exact Hp.
    + exact Hb.
  - intros r k' [H1 (L' & _ & H2)]. split; [exact H1|]. exists L'. rewrite H2.
    clear. by vm_compute.
Defined.
