(* ===== verification/Startup.v ===== *)
(** Start-up, [src/components.c]: from the memory at reset to the first thread that runs.

    [rtthread_startup] is the sequence of the kernel; the initialisation of the board and the
    creation of the application's threads are arguments, [rt_application_init] is the one
    of the repository.  Interrupts are masked from the beginning until the first thread
    runs; the version message is not modelled.

    [booting] is the invariant between [rt_system_scheduler_init] and
    [rt_system_scheduler_start]: no thread runs, and until [rt_system_timer_thread_init] the list of
    the soft timers is not initialised. *)

From Stdlib Require Import ZArith Lia.
From stdpp Require Import numbers strings base gmap list.
From S2P Require Import Prelude RtList Bitmap Kernel Scheduler Object Timer Thread.
From S2P Require Import Invariant ThreadSpec ThreadRun Check Demo KernelSpec Registry Lifecycle Creation.
Local Open Scope Z_scope.

(** * The code *)

(** How a thread of the application comes into being. *)
Inductive storage := Static (stack : Z) | Dynamic.

Record app := mk_app {
  app_id : nat;
  app_name : string;
  app_entry : nat;
  app_parameter : nat;
  app_storage : storage;
  app_size : Z;
  app_priority : Z;
  app_tick : Z
}.

Section startup.
Context (malloc : Z → K Z) (free_object : objid → K unit).

(** [rt_application_init] with [RT_USING_HEAP]; [tid] is the thread that the allocated memory
    becomes, [entry_fn] the number of [main_thread_entry]. *)
Definition rt_application_init (tid : nat) (entry_fn : nat) : K unit :=
  new ← rt_thread_create malloc free_object (Some tid) "main" entry_fn 0 2048 (RT_THREAD_PRIORITY_MAX / 3) 20;
  rt_assert (bool_decide (is_Some new));;
  t ← deref new;
  rt_thread_startup t;;
  mret tt.

(** Any number of threads in its place. *)
Definition start_app (a : app) : K unit :=
  match app_storage a with
  | Static stack =>
      rt_thread_init (app_id a) (app_name a) (app_entry a) (app_parameter a) stack (app_size a)
        (app_priority a) (app_tick a);;
      rt_thread_startup (app_id a);;
      mret tt
  | Dynamic =>
      new ← rt_thread_create malloc free_object (Some (app_id a)) (app_name a) (app_entry a) (app_parameter a)
              (app_size a) (app_priority a) (app_tick a);
      rt_assert (bool_decide (is_Some new));;
      t ← deref new;
      rt_thread_startup t;;
      mret tt
  end.
Fixpoint start_apps (l : list app) : K unit :=
  match l with [] => mret tt | a :: l => start_app a;; start_apps l end.

(** The stacks and the entry functions of the timer thread and the idle thread are those of
    [rt_system_timer_thread_init] and [rt_thread_idle_init]. *)
Definition rtthread_startup (rt_hw_board_init application_init : K unit)
    (timer_stack : Z) (timer_fn : nat) (idle_stack : Z) (idle_fn : nat) : K Z :=
  rt_hw_board_init;;
  rt_system_timer_init;;
  rt_system_scheduler_init;;
  application_init;;
  rt_system_timer_thread_init timer_stack timer_fn;;
  rt_thread_idle_init idle_stack idle_fn;;
  rt_system_scheduler_start;;
  mret 0.
End startup.

(** * Lists that are not initialised yet *)

Definition soft_timers : node := N_timer_list true 0.

(** The memory and the lists as they will be when the soft timers are initialised. *)
Definition seen_heap (soft : bool) (h : lheap node) : lheap node :=
  if soft then h else <[soft_timers := mk_node soft_timers soft_timers]> h.
Definition seen (soft : bool) (L : lists) : lists := if soft then L else <[soft_timers := []]> L.

Lemma rep_seen soft h L :
  rep h L → (soft = false → unlisted soft_timers L) → rep (seen_heap soft h) (seen soft L).
Proof. intros Hr Hu. destruct soft; [done|]. exact (init_detached h L soft_timers Hr (Hu eq_refl)). Qed.

Lemma lookup_seen soft L hd : hd ≠ soft_timers → seen soft L !! hd = L !! hd.
Proof. intros Hne. destruct soft; [done|]. by apply lookup_insert_ne. Qed.

Lemma typed_seen soft L : typed L → typed (seen soft L).
Proof. destruct soft; [done|apply typed_init]. Qed.

Lemma typed_unseen soft L : (soft = false → unlisted soft_timers L) → typed (seen soft L) → typed L.
Proof.
  destruct soft; [done|]. intros Hu Ht hd l n Hl Hn. destruct (decide (hd = soft_timers)) as [->|Hne].
  - destruct (Hu eq_refl _ _ Hl) as [_ ->]; [set_solver|]. by apply elem_of_nil in Hn.
  - eapply (Ht hd l); [|done]. by rewrite (lookup_seen false).
Qed.

Lemma unlisted_seen soft n L : n ≠ soft_timers → unlisted n L → unlisted n (seen soft L).
Proof. destruct soft; [done|]. by apply unlisted_init. Qed.

Lemma placed_seen soft n L : (soft = false → unlisted soft_timers L) → placed n L → placed n (seen soft L).
Proof. destruct soft; [done|]. intros Hu. by apply placed_init, Hu. Qed.

Lemma placed_seen_mono soft n L L' :
  (soft = false → unlisted soft_timers L') → (∀ m, placed m L → placed m L') →
  placed n (seen soft L) → placed n (seen soft L').
Proof.
  intros Hu Hp. destruct soft; [apply Hp|]. intros (hd & l & Hl & Hn). cbn [seen] in Hl.
  destruct (decide (hd = soft_timers)) as [->|Hne].
  - rewrite lookup_insert_eq in Hl. simplify_eq. apply list_elem_of_singleton in Hn as ->.
    exists soft_timers, []. cbn [seen]. rewrite lookup_insert_eq. split; [done|set_solver].
  - rewrite lookup_insert_ne in Hl by done. apply (placed_seen false); [done|]. apply Hp. by exists hd, l.
Qed.

Lemma seen_enqueue soft p t L :
  seen soft (enqueue (N_ready p) (N_tlist t) L) = enqueue (N_ready p) (N_tlist t) (seen soft L).
Proof. destruct soft; [done|]. unfold seen, enqueue. by rewrite delete_insert_ne, alter_insert_ne by done. Qed.

(** * The invariant during start-up *)

(** [soft]: the soft timers are initialised. *)
Record booting (soft : bool) (k : kernel) (L : lists) : Prop := {
  bo_rep : rep (heap k) L;
  bo_soft : soft = false → unlisted soft_timers L;
  bo_inv : kern_ok (seen_heap soft (heap k)) (threads k) (rt_thread_ready_priority_group k) (timers k)
             (objects k) (seen soft L);
  bo_stacks : stacks_ok (threads k);
  bo_current : rt_current_thread k = None;
  bo_lock : rt_scheduler_lock_nest k = 0;
  bo_nest : rt_interrupt_nest k = 0
}.

(** The memory of a thread that does not exist yet. *)
Record blank (t : nat) (L : lists) : Prop := {
  bl_fresh : fresh_thread t L;
  bl_object : L !! N_object (O_thread t) = Some [];
  bl_threads : is_Some (L !! N_container None RT_Object_Class_Thread)
}.

(** The lists after [t] has been created and started with priority [p]. *)
Definition created_lists (t : nat) (L : lists) : lists :=
  with_thread t (registered (O_thread t) None RT_Object_Class_Thread L).
Definition started_lists (t : nat) (p : Z) (L : lists) : lists :=
  enqueue (N_ready p) (N_tlist t) (created_lists t L).

Lemma lookup_created_lists t L hd : in_use hd = true → created_lists t L !! hd = L !! hd.
Proof.
  intros Hu. unfold created_lists. rewrite lookup_with_thread by done. by apply lookup_registered; destruct hd.
Qed.

Lemma typed_created t L : typed L → typed (created_lists t L).
Proof. intros Ht. by apply typed_init, typed_registered, typed_init, typed_registered. Qed.

Lemma unlisted_created n t L :
  n ≠ N_object (O_thread t) → n ≠ N_object (O_timer (T_thread t)) → (∀ m ty, n ≠ N_container m ty) →
  n ≠ N_tlist t → n ≠ row0 (T_thread t) → unlisted n L → unlisted n (created_lists t L).
Proof.
  intros H1 H2 H3 H4 H5 Hu. unfold created_lists, with_thread.
  by apply unlisted_init, unlisted_registered, unlisted_init, unlisted_registered.
Qed.

Lemma fresh_created t L : blank t L → fresh_thread t (registered (O_thread t) None RT_Object_Class_Thread L).
Proof. intros [Hf _ _]. by apply fresh_thread_registered. Qed.

Lemma placed_created t L n : blank t L → placed n L → placed n (created_lists t L).
Proof.
  intros Hb Hp. apply placed_with_thread; [by apply fresh_created|].
  apply placed_registered_mono; [apply Hb|done].
Qed.

Lemma created_tlist t L : created_lists t L !! N_tlist t = Some [].
Proof.
  unfold created_lists, with_thread. rewrite lookup_insert_ne by done. rewrite lookup_registered by done.
  apply lookup_insert_eq.
Qed.

Lemma created_row t L : created_lists t L !! row0 (T_thread t) = Some [].
Proof. apply lookup_insert_eq. Qed.

(** Creating the thread [t] leaves the memory of [u] as it is. *)
Lemma unlisted_enqueue n hd m L :
  n ≠ hd → n ≠ m → unlisted n L → unlisted n (enqueue hd m L).
Proof.
  intros Hh Hm Hu hd' l. unfold enqueue. rewrite lookup_alter_Some.
  intros [(<- & l' & Hl & ->)|[Hne Hl]] Hn; apply lookup_delete_Some in Hl as [Hd Hl].
  - destruct (Hu _ _ Hl) as [-> _]; set_solver.
  - by apply (Hu _ _ Hl).
Qed.

Lemma blank_started t u p L : t ≠ u → blank u L → blank u (started_lists t p L).
Proof.
  intros Hne [[H1 H2 H3 H4] H5 H6]. unfold started_lists.
  assert (∀ o, o ≠ O_thread t → o ≠ O_timer (T_thread t) → created_lists t L !! N_object o = L !! N_object o) as Hob.
  { intros o ??. unfold created_lists, with_thread. rewrite lookup_insert_ne by done.
    rewrite lookup_registered, lookup_insert_ne by congruence. by rewrite lookup_registered by congruence. }
  assert (∀ ty, is_Some (L !! N_container None ty) → is_Some (created_lists t L !! N_container None ty)) as Hct.
  { intros ty Hs. unfold created_lists, with_thread. rewrite lookup_insert_ne by done.
    destruct (decide (ty = RT_Object_Class_Timer)) as [->|]; [rewrite lookup_registered_eq; eauto|].
    rewrite lookup_registered, lookup_insert_ne by congruence.
    destruct (decide (ty = RT_Object_Class_Thread)) as [->|]; [rewrite lookup_registered_eq; eauto|].
    by rewrite lookup_registered by congruence. }
  split; [split|..].
  - apply unlisted_enqueue; [done|congruence|]. apply unlisted_created; try done. congruence.
  - apply unlisted_enqueue; [done|done|]. apply unlisted_created; try done. unfold row0. congruence.
  - rewrite lookup_enqueue_ne, Hob by congruence. done.
  - rewrite lookup_enqueue_ne by done. by apply Hct.
  - rewrite lookup_enqueue_ne, Hob by congruence. done.
  - rewrite lookup_enqueue_ne by done. by apply Hct.
Qed.

(** ** One thread *)

Lemma booting_created soft k k1 k' L t x :
  booting soft k L → blank t L →
  threads k1 = threads k → timers k1 = timers k →
  rt_thread_ready_priority_group k1 = rt_thread_ready_priority_group k →
  rt_current_thread k1 = rt_current_thread k → rt_scheduler_lock_nest k1 = rt_scheduler_lock_nest k →
  rt_interrupt_nest k1 = rt_interrupt_nest k →
  (∀ tm, objects k1 !! O_timer tm = objects k !! O_timer tm) →
  initialised t x k1 k' → rep (heap k') (created_lists t L) →
  stat x = RT_THREAD_INIT → 0 <= current_priority x < RT_THREAD_PRIORITY_MAX → stack_ok x = true →
  booting soft k' (created_lists t L).
Proof.
  intros [Hr Hs Hi Hst Hc Hlk Hn] Hb Et Etm Eg Ec El En Eo [Ht Htm (o & Ho & Hfl) Hg Hcu Hlo Hne _] Hrep Hsx Hp Hso.
  pose proof Hb as [[Hut Hur _ _] _ _].
  assert (soft = false → unlisted soft_timers (created_lists t L)) as Hs'.
  { intros E. by apply unlisted_created, Hs. }
  split; [done|done| | |congruence|congruence|congruence].
  - rewrite Ht, Htm, Hg, Ho, Et, Etm, Eg.
    eapply (kern_ok_put_thread (seen_heap soft (heap k)) _ _ _ _ (objects k) _ (seen soft L) _ t x _ o); try done.
    + by apply unlisted_seen.
    + by apply unlisted_seen.
    + by rewrite Hsx.
    + apply lookup_insert_eq.
    + by left.
    + intros tm Hne'. rewrite lookup_insert_ne by congruence. apply Eo.
    + by apply rep_seen.
    + apply typed_seen, typed_created. eapply typed_unseen; [done|apply Hi].
    + intros hd Hu. destruct soft; [by apply lookup_created_lists|]. cbn [seen].
      destruct (decide (hd = soft_timers)) as [->|]; [by rewrite !lookup_insert_eq|].
      rewrite !lookup_insert_ne by done. by apply lookup_created_lists.
    + intros m. apply placed_seen_mono; [done|]. intros ?. by apply placed_created.
    + apply placed_seen; [done|]. exists (N_tlist t), []. rewrite created_tlist. split; [done|set_solver].
    + apply placed_seen; [done|]. exists (row0 (T_thread t)), []. rewrite created_row. split; [done|set_solver].
  - rewrite Ht, Et. intros u y. rewrite lookup_insert_Some. intros [[<- <-]|[_ Hy]]; [done|by eapply Hst].
Qed.

(** An empty node of a list is on no other. *)
Lemma alone_unlisted h L n : rep h L → L !! n = Some [] → unlisted n L.
Proof.
  intros Hr Hn hd l Hl [->|Hin]%elem_of_cons; [split; congruence|]. by destruct (alone_not_in h L hd l n).
Qed.

Lemma kern_ok_started h h' ths grp tms objs L t x :
  kern_ok h ths grp tms objs L → ths !! t = Some x → stat x = RT_THREAD_INIT →
  L !! N_tlist t = Some [] → L !! row0 (T_thread t) = Some [] →
  0 <= init_priority x < RT_THREAD_PRIORITY_MAX →
  rep h' (enqueue (N_ready (init_priority x)) (N_tlist t) L) →
  kern_ok h' (<[t := set_stat RT_THREAD_READY (startable x)]> ths)
    (Z.lor grp (u32 (Z.shiftl 1 (init_priority x)))) tms objs
    (enqueue (N_ready (init_priority x)) (N_tlist t) L).
Proof.
  intros Hi Hx Hs Hal Hrow Hp Hrep. pose proof (ko_rep Hi) as Hr.
  destruct (ko_thread_timer _ _ _ _ _ _ Hi _ _ Hx) as (y & o & Hy & Hf & Hpar & Ho & Hfl).
  assert (kern_ok h (<[t := startable x]> ths) grp tms objs L) as Hi1.
  { rewrite <- (insert_id tms (T_thread t) y) by done.
    eapply (kern_ok_put_thread h _ _ _ _ objs _ L L t (startable x) y o); try done.
    - by eapply alone_unlisted.
    - by eapply alone_unlisted.
    - intros _. by apply shiftl_mask.
    - apply Hi.
    - exists (N_tlist t), []. split; [done|set_solver].
    - exists (row0 (T_thread t)), []. split; [done|set_solver]. }
  rewrite <- (insert_insert_eq ths t (set_stat RT_THREAD_READY (startable x)) (startable x)).
  apply (kern_ok_make_ready Hi1 h' t (startable x) (set_stat RT_THREAD_READY (startable x))); try done.
  - apply lookup_insert_eq.
  - intros s Hin. destruct (ko_timer_lists _ _ _ _ _ _ Hi s) as [l Hl].
    apply (elem_of_timer_queue L s _ l) in Hin; [|apply Hi|done]. by eapply (alone_not_in h L).
  - by apply shiftl_mask.
Qed.

Lemma wp_startup_booting soft k L t x o :
  booting soft k L → threads k !! t = Some x → stat x = RT_THREAD_INIT →
  L !! N_tlist t = Some [] → L !! row0 (T_thread t) = Some [] →
  0 <= init_priority x < RT_THREAD_PRIORITY_MAX → objects k !! O_timer (T_thread t) = Some o → flag o = 0 →
  wp (rt_thread_startup t) k (λ _ k',
    booting soft k' (enqueue (N_ready (init_priority x)) (N_tlist t) L) ∧
    threads k' = <[t := set_stat RT_THREAD_READY (startable x)]> (threads k)).
Proof.
  intros [Hr Hs Hi Hst Hc Hlk Hn] Hx Hsx Hal Hrow Hp Ho Hfl.
  assert (soft = false → unlisted soft_timers (enqueue (N_ready (init_priority x)) (N_tlist t) L)) as Hs'.
  { intros E. by apply unlisted_enqueue, Hs. }
  unfold rt_thread_startup. wp_step. eapply wp_get_thread; [done|]. wp_step.
  apply wp_assert; [by rewrite bool_decide_eq_true|]. wp_step. eapply wp_upd_thread; [done|].
  wp_step. eapply wp_upd_thread; [apply lookup_insert_eq|]. wp_step.
  eapply wp_upd_thread; [apply lookup_insert_eq|]. simpl. rewrite !insert_insert_eq.
  unfold rt_thread_resume. wp_step. wp_step. eapply wp_get_thread; [apply lookup_insert_eq|].
  rewrite decide_True by done. wp_step. eapply wp_on_heap.
  { apply (wp_list_remove _ L); [exact Hr|by exists (N_tlist t), []; split; [done|set_solver]|].
    intros l E. rewrite Hal in E. by simplify_eq. }
  intros [] h1 Hr1. rewrite (detach_alone _ L) in Hr1 by done. wp_step.
  unfold rt_timer_stop. wp_step. eapply wp_get_object; [done|]. rewrite Hfl. simpl. wp_step. wp_step.
  assert (0 <= init_priority x < RT_THREAD_PRIORITY_MAX → ∃ l, L !! N_ready (init_priority x) = Some l) as [l Hl]; [|done|].
  { intros _. rewrite <- (lookup_seen soft) by done.
    rewrite (so_queue _ _ _ _ (ko_sched _ _ _ _ _ _ Hi)) by done. eauto. }
  eapply wp_mono; [eapply (wp_insert_thread _ L t (startable x)); [done|apply lookup_insert_eq|done|done]|].
  intros [] k2 (h2 & Hr2 & ->). wp_step. wp_step. unfold rt_thread_self.
  do 3 wp_step. simpl. rewrite Hc. wp_step. rewrite !insert_insert_eq.
  split; [|done]. split; simpl; [done|done| | |done|done|done].
  - rewrite seen_enqueue, ?insert_insert_eq.
    apply (kern_ok_started (seen_heap soft (heap k))); try done.
    + by rewrite lookup_seen.
    + by rewrite lookup_seen.
    + rewrite <- seen_enqueue. by apply rep_seen.
  - rewrite ?insert_insert_eq. by eapply stacks_ok_insert.
Qed.

(** ** Stacks *)

(** A stack with room for the first frame. *)
Definition stack_fits (a size : Z) : Prop := 0 < a ∧ sizeof_stack_frame + 8 <= size ∧ a + size < 2 ^ 32.

Lemma align_down_8 x : 0 <= x < 2 ^ 32 → x - 8 < RT_ALIGN_DOWN x 8 <= x.
Proof.
  intros Hx. assert (RT_ALIGN_DOWN x 8 = x / 8 * 8) as ->.
  { unfold RT_ALIGN_DOWN. unfold wrap at 1. rewrite Z.mod_small by lia.
    change (u32 (Z.lnot (8 - 1))) with (Z.ldiff (Z.ones 32) (Z.ones 3)).
    transitivity (Z.ldiff x (Z.ones 3)); [|by rewrite Z.ldiff_ones_r, Z.shiftl_mul_pow2, Z.shiftr_div_pow2 by lia].
    apply Z.bits_inj'. intros i Hi. rewrite Z.land_spec, !Z.ldiff_spec.
    destruct (decide (i < 32)) as [Hi32|Hi32]; [by rewrite (Z.ones_spec_low 32) by lia|].
    replace (Z.testbit x i) with false; [done|]. symmetry.
    rewrite <- (Z.mod_small x (2 ^ 32)) by lia. apply Z.mod_pow2_bits_high. lia. }
  pose proof (Z.div_mod x 8 ltac:(done)). pose proof (Z.mod_pos_bound x 8 ltac:(done)). lia.
Qed.

Lemma stack_ok_new entry_fn param a size priority tick old :
  stack_fits a size → stack_ok (new_thread entry_fn param a size priority tick old) = true.
Proof.
  unfold stack_fits, sizeof_stack_frame. intros (Ha & Hs & He). unfold stack_ok. simpl. unfold rt_hw_stack_init, sizeof_stack_frame.
  assert (u32 (u32 (a + size - 4) + 4) = a + size) as ->.
  { unfold wrap. rewrite Zplus_mod_idemp_l, Z.mod_small; lia. }
  pose proof (align_down_8 (a + size) ltac:(lia)) as Hd. unfold wrap. rewrite !Z.mod_small by lia.
  apply andb_true_iff. split; [apply Z.ltb_lt|apply Z.leb_le]; lia.
Qed.

(** ** The threads of the application *)

(** What the application must provide: a priority of the scheduler, and a stack, its own or
    from the allocator. *)
Definition app_ok (malloc : Z → K Z) (a : app) : Prop :=
  0 <= app_priority a < RT_THREAD_PRIORITY_MAX ∧
  match app_storage a with
  | Static s => stack_fits s (app_size a)
  | Dynamic => ∀ k, wp (malloc (app_size a)) k (λ p k', stack_fits p (app_size a) ∧ ∃ m, k' = set_sysmem m k)
  end.

(** Initialising and starting a thread that is registered as [o]. *)
Lemma wp_fields_startup soft k k1 L t o entry_fn param stack size priority tick :
  booting soft k L → blank t L → 0 <= priority < RT_THREAD_PRIORITY_MAX → stack_fits stack size →
  rep (heap k1) (registered (O_thread t) None RT_Object_Class_Thread L) → objects k1 !! O_thread t = Some o →
  threads k1 = threads k → timers k1 = timers k →
  rt_thread_ready_priority_group k1 = rt_thread_ready_priority_group k →
  rt_current_thread k1 = rt_current_thread k → rt_scheduler_lock_nest k1 = rt_scheduler_lock_nest k →
  rt_interrupt_nest k1 = rt_interrupt_nest k →
  (∀ tm, objects k1 !! O_timer tm = objects k !! O_timer tm) →
  wp (rt_thread_init_fields t entry_fn param stack size priority tick) k1 (λ _ k2,
    wp (rt_thread_startup t) k2 (λ _ k', booting soft k' (started_lists t priority L) ∧
      ∃ x, threads k' = <[t := x]> (threads k) ∧ stat x = RT_THREAD_READY)).
Proof.
  intros Hb Hbl Hp Hst Hr1 Ho Et Etm Eg Ec El En Eo. set (x := new_thread entry_fn param stack size priority tick
    (default zero_thread (threads k1 !! t))).
  eapply wp_mono.
  { apply (wp_thread_init_fields k1 (registered (O_thread t) None RT_Object_Class_Thread L) t o); [exact Hr1| |by apply fresh_created|done|lia].
    intros u Hu. rewrite Ec, (bo_current _ _ _ Hb) in Hu. done. }
  intros r k2 (_ & Hr2 & Hin). cbv beta. fold x in Hin. change (rep (heap k2) (created_lists t L)) in Hr2.
  assert (stack_ok x = true) as Hok by by apply stack_ok_new.
  assert (booting soft k2 (created_lists t L)) as Hb2 by by eapply (booting_created soft k k1).
  destruct Hin as [Ht2 _ (o2 & Ho2 & Hfl) _ _ _ _ _].
  eapply wp_mono; [eapply (wp_startup_booting soft k2 (created_lists t L) t x o2 Hb2)|].
  - rewrite Ht2. apply lookup_insert_eq.
  - done.
  - apply created_tlist.
  - apply created_row.
  - done.
  - rewrite Ho2. apply lookup_insert_eq.
  - done.
  - intros r' k3 [Hb3 Ht3]. split; [done|]. exists (set_stat RT_THREAD_READY (startable x)).
    by rewrite Ht3, Ht2, insert_insert_eq, Et.
Qed.

Lemma wp_start_app malloc free_object soft k L a :
  booting soft k L → blank (app_id a) L → app_ok malloc a →
  wp (start_app malloc free_object a) k (λ _ k',
    booting soft k' (started_lists (app_id a) (app_priority a) L) ∧
    ∃ x, threads k' = <[app_id a := x]> (threads k) ∧ stat x = RT_THREAD_READY).
Proof.
  intros Hb Hbl [Hp Hs]. unfold start_app.
  assert (kernel_context k) as Hc by (intros u Hu; by rewrite (bo_current _ _ _ Hb) in Hu).
  destruct (app_storage a) as [s|].
  - unfold rt_thread_init. wp_step. wp_step. apply wp_assert.
    { destruct Hs as [Hs _]. by rewrite (proj2 (Z.eqb_neq _ _)) by lia. }
    wp_step. eapply (wp_object_init_lists k L); [apply Hb|done|apply Hbl|apply Hbl|]. intros h Hrep.
    eapply wp_mono; [eapply (wp_fields_startup soft k); try done; [apply lookup_insert_eq|]|].
    { intros tm. simpl. by rewrite lookup_insert_ne. }
    intros r k2 H. cbv beta. wp_step. eapply wp_mono; [exact H|]. intros r' k3 H3. by wp_step.
  - unfold rt_thread_create. simpl. wp_step. wp_step.
    apply (wp_object_allocate k L); [apply Hb|done|apply Hb|apply Hbl|apply Hbl|]. intros h Hrep. wp_step.
    eapply wp_mono; [apply Hs|]. intros p k1 (Hfit & m & ->). cbv beta. destruct Hfit as (Hp0 & Hsz & Hend).
    rewrite (proj2 (Z.eqb_neq _ _)) by lia. wp_step.
    eapply wp_mono; [eapply (wp_fields_startup soft k); try done; [apply lookup_insert_eq|]|].
    { intros tm. simpl. by rewrite lookup_insert_ne. }
    intros r k2 H. cbv beta. wp_step. wp_step. apply wp_assert; [done|]. wp_step. wp_step. wp_step.
    eapply wp_mono; [exact H|]. intros r' k3 H3. by wp_step.
Qed.

(** * The system before its threads *)

(** The memory at reset, or as the board leaves it: there are no threads and timers, the lists
    that start-up initialises are not known to be lists, and there is memory for the threads
    [ts]. *)
Record at_reset (k : kernel) (L : lists) (ts : list nat) : Prop := {
  rs_rep : rep (heap k) L;
  rs_typed : typed L;
  rs_heads : ∀ hd, in_use hd = true ∨ hd = N_defunct → unlisted hd L;
  rs_threads : threads k = ∅;
  rs_timers : timers k = ∅;
  rs_nest : rt_interrupt_nest k = 0;
  rs_blank : ∀ t, t ∈ ts → blank t L
}.

(** The lists with those of [ns] empty. *)
Definition inits (ns : list node) (L : lists) : lists := foldl (λ L n, <[n := []]> L) L ns.

Lemma lookup_inits ns L n : inits ns L !! n = if decide (n ∈ ns) then Some [] else L !! n.
Proof.
  revert L. induction ns as [|m ns IH]; intros L; [done|]. cbn [inits foldl]. fold (inits ns (<[m := []]> L)).
  rewrite IH. destruct (decide (n ∈ ns)); [by rewrite decide_True by set_solver|].
  destruct (decide (n = m)) as [->|]; [by rewrite lookup_insert_eq, decide_True by set_solver|].
  by rewrite lookup_insert_ne, decide_False by set_solver.
Qed.

Lemma unlisted_inits n ns L : unlisted n L → unlisted n (inits ns L).
Proof.
  intros Hu hd l. rewrite lookup_inits. case_decide; [|by apply Hu].
  intros [= <-] ->%list_elem_of_singleton. done.
Qed.

Lemma wp_init_lists ns k L (Q : unit → kernel → Prop) :
  rep (heap k) L → (∀ n, n ∈ ns → unlisted n L) → (∀ h, rep h (inits ns L) → Q tt (set_heap h k)) →
  wp (init_lists ns) k Q.
Proof.
  revert k L. induction ns as [|n ns IH]; intros k L Hr Hu HQ; cbn [init_lists foldr].
  - wp_step. specialize (HQ (heap k) Hr). by rewrite set_heap_id in HQ.
  - wp_step. eapply wp_on_heap; [by apply init_detached, (Hu n); [|set_solver]|].
    intros [] h Hrep. apply (IH _ (<[n := []]> L)); [done| |].
    + intros m Hm. apply (unlisted_inits _ [n]). apply Hu. set_solver.
    + intros h' Hr'. by apply HQ.
Qed.

Definition reset_heads : list node := N_timer_list false 0 :: (N_ready <$> ready_lists) ++ [N_defunct].

#[local] Arguments inits : simpl never.
#[local] Arguments seen : simpl never.
#[local] Arguments seen_heap : simpl never.
#[local] Arguments reset_heads : simpl never.

Lemma inits_app ns ns' L : inits (ns ++ ns') L = inits ns' (inits ns L).
Proof. apply foldl_app. Qed.

Lemma elem_of_reset_heads n : n ∈ reset_heads ↔
  n = N_timer_list false 0 ∨ (∃ p, n = N_ready p ∧ 0 <= p < RT_THREAD_PRIORITY_MAX) ∨ n = N_defunct.
Proof.
  unfold reset_heads. rewrite elem_of_cons, elem_of_app, list_elem_of_fmap, list_elem_of_singleton.
  setoid_rewrite elem_of_ready_lists. done.
Qed.

Lemma blank_inits ns t L :
  (∀ n, n ∈ ns → in_use n = true ∨ n = N_defunct) → blank t L → blank t (inits ns L).
Proof.
  intros Hns [[H1 H2 H3 H4] H5 H6].
  assert (∀ n, in_use n = false → n ≠ N_defunct → inits ns L !! n = L !! n) as E.
  { intros n N1 N2. rewrite lookup_inits, decide_False; [done|]. intros [?|?]%Hns; congruence. }
  split; [split|..]; try (by apply unlisted_inits); by rewrite E.
Qed.

Lemma reset_heads_in_use n : n ∈ reset_heads → in_use n = true ∨ n = N_defunct.
Proof. rewrite elem_of_reset_heads. intros [->|[(p & -> & _)| ->]]; auto. Qed.

(** After the initialisation of timers and scheduler nothing is ready and nothing waits. *)
Lemma kern_ok_initial h objs L :
  rep h L → typed L → (∀ hd, in_use hd = true → unlisted hd L) →
  (∀ p, 0 <= p < RT_THREAD_PRIORITY_MAX → L !! N_ready p = Some []) →
  (∀ s, L !! N_timer_list s 0 = Some []) → kern_ok h ∅ 0 ∅ objs L.
Proof.
  intros Hr Ht Hu Hq Htl.
  assert (∀ s, timer_queue L s = []) as Htq by (intros s; unfold timer_queue; by rewrite Htl).
  assert (∀ p, 0 <= p < RT_THREAD_PRIORITY_MAX → ready_queue L p = []) as Hrq.
  { intros p Hp. unfold ready_queue. by rewrite Hq. }
  split; try (intros; simplify_map_eq; done).
  - split; try (intros; simplify_map_eq; done).
    + intros p Hp. by rewrite Hq, Hrq.
    + intros p t Hp. rewrite Hrq by done. split; [by intros ?%elem_of_nil|by intros (x & Hx & _)].
    + intros p Hp. rewrite Hrq, Z.bits_0 by done. done.
    + intros t. by apply not_head_tlist.
  - intros s tm. rewrite Htq. by intros ?%elem_of_nil.
  - intros s tm. rewrite Htq. by intros ?%elem_of_nil.
  - intros s t. rewrite Htq. by intros ?%elem_of_nil.
  - intros hd l t Hw Hl Hin. destruct (Hu hd ltac:(by destruct hd) _ _ Hl) as [_ ->]; [|by apply elem_of_nil in Hin].
    set_solver.
Qed.

Lemma wp_system_init k L ts :
  at_reset k L ts →
  wp (rt_system_timer_init;; rt_system_scheduler_init) k (λ _ k',
    booting false k' (inits reset_heads L) ∧ ∀ t, t ∈ ts → blank t (inits reset_heads L)).
Proof.
  intros [Hr Ht Hu Hth Htm Hn Hb].
  assert (∀ n, n ∈ reset_heads → unlisted n L) as Hus.
  { intros n Hin. by apply Hu, reset_heads_in_use. }
  wp_step. change rt_system_timer_init with (on_heap (rt_list_init (N_timer_list false 0));; mret tt : K unit). wp_step.
  eapply wp_on_heap; [apply init_detached; [exact Hr|apply (Hus (N_timer_list false 0))]|].
  { apply elem_of_reset_heads. auto. }
  intros [] h1 Hr1. change (rep h1 (inits [N_timer_list false 0] L)) in Hr1. wp_step.
  unfold rt_system_scheduler_init. wp_step. wp_step. wp_step.
  eapply wp_init_lists; [exact Hr1| |].
  { intros n Hin. apply unlisted_inits, Hus. unfold reset_heads. rewrite elem_of_cons, elem_of_app. auto. }
  intros h2 Hr2. rewrite <- inits_app in Hr2. do 6 wp_step.
  eapply wp_on_heap; [apply init_detached; [exact Hr2|apply unlisted_inits, (Hus N_defunct), elem_of_reset_heads; auto]|].
  intros [] h3 Hr3. change (rep h3 (inits [N_defunct] (inits ([N_timer_list false 0] ++ (N_ready <$> ready_lists)) L))) in Hr3.
  rewrite <- inits_app in Hr3. change (rep h3 (inits reset_heads L)) in Hr3.
  assert (unlisted soft_timers (inits reset_heads L)) as Hsoft by (apply unlisted_inits, Hu; auto).
  assert (∀ hd, in_use hd = true → unlisted hd (inits reset_heads L)) as Hu' by (intros hd ?; apply unlisted_inits, Hu; auto).
  split; [|intros t ?; by apply (blank_inits reset_heads), Hb; [apply reset_heads_in_use|]]. split; simpl;
    [exact Hr3|intros _; exact Hsoft| |rewrite Hth; intros t x Hx; by rewrite lookup_empty in Hx|reflexivity|reflexivity|exact Hn].
  rewrite Hth, Htm. apply kern_ok_initial.
  - by apply (rep_seen false).
  - apply (typed_seen false). intros hd l n. rewrite lookup_inits. case_decide; [|apply Ht].
    intros [= <-] ?%elem_of_nil. done.
  - intros hd ?. destruct (decide (hd = soft_timers)) as [->|]; [|by apply (unlisted_seen false); [|apply Hu']].
    apply (unlisted_inits _ [soft_timers]), Hu'. done.
  - intros p Hp. rewrite (lookup_seen false) by done. rewrite lookup_inits, decide_True; [done|].
    apply elem_of_reset_heads. eauto.
  - intros [|]; [apply lookup_insert_eq|]. rewrite (lookup_seen false) by done.
    rewrite lookup_inits, decide_True; [done|]. apply elem_of_reset_heads. auto.
Qed.

(** * The whole sequence *)

(** The threads of the application [l] of priority [p], in the order of their creation. *)
Definition ids_of_priority (l : list app) (p : Z) : list nat := app_id <$> filter (λ a, app_priority a = p) l.

Lemma ready_queue_started soft k L t p q :
  booting soft k L → 0 <= q < RT_THREAD_PRIORITY_MAX →
  ready_queue (started_lists t p L) q = ready_queue L q ++ if decide (q = p) then [t] else [].
Proof.
  intros Hb Hq. unfold started_lists.
  assert (∀ r, ready_queue (created_lists t L) r = ready_queue L r) as E.
  { intros r. by apply ready_queue_ext, lookup_created_lists. }
  rewrite (ready_queue_enqueue _ _ _ (ready_queue L q)), E; [done|].
  rewrite lookup_created_lists, <- (lookup_seen soft) by done.
  rewrite (so_queue _ _ _ _ (ko_sched _ _ _ _ _ _ (bo_inv _ _ _ Hb))) by done.
  f_equal. f_equal. apply ready_queue_ext. by apply lookup_seen.
Qed.

Lemma wp_start_apps malloc free_object soft l k L :
  booting soft k L → Forall (app_ok malloc) l → NoDup (app_id <$> l) → (∀ t, t ∈ app_id <$> l → blank t L) →
  wp (start_apps malloc free_object l) k (λ _ k', ∃ L', booting soft k' L' ∧
    (∀ p, 0 <= p < RT_THREAD_PRIORITY_MAX → ready_queue L' p = ready_queue L p ++ ids_of_priority l p) ∧
    (∀ t, t ∉ app_id <$> l → blank t L → blank t L') ∧
    (∀ t, t ∈ app_id <$> l → ∃ x, threads k' !! t = Some x ∧ stat x = RT_THREAD_READY) ∧
    (∀ t, t ∉ app_id <$> l → threads k' !! t = threads k !! t)).
Proof.
  intros Hb Hok. revert k L Hb. induction Hok as [|a l Ha Hok IH]; intros k L Hb Hnd Hbl; cbn [start_apps].
  - wp_step. exists L. split_and!; [done| |done|by intros t ?%elem_of_nil|done].
    intros p _. unfold ids_of_priority. by rewrite app_nil_r.
  - rewrite fmap_cons in Hnd, Hbl. apply NoDup_cons in Hnd as [Hna Hnd]. wp_step.
    eapply wp_mono; [apply (wp_start_app malloc free_object soft k L a Hb); [apply Hbl; set_solver|done]|].
    intros [] k1 (Hb1 & x & Ht1 & Hx). cbv beta.
    eapply wp_mono; [apply (IH k1 _ Hb1 Hnd)|].
    { intros t Ht. apply blank_started; [|apply Hbl; set_solver]. by intros <-. }
    intros [] k2 (L2 & Hb2 & Hq2 & Hbl2 & Hr2 & Hf2). exists L2. split_and!; [done|..].
    + intros p Hp. rewrite Hq2, (ready_queue_started soft k) by done. rewrite <- app_assoc. f_equal.
      unfold ids_of_priority. rewrite filter_cons. case_decide; subst; [by rewrite decide_True|by rewrite decide_False].
    + intros t Hn Hbt. apply Hbl2; [set_solver|]. apply blank_started; [set_solver|done].
    + intros t [->|Ht]%elem_of_cons; [|by apply Hr2]. exists x. by rewrite Hf2, Ht1, lookup_insert_eq.
    + intros t Hn. rewrite Hf2, Ht1, lookup_insert_ne by set_solver. done.
Qed.

(** The threads of the system. *)
Definition timer_app (stack : Z) (entry_fn : nat) : app :=
  mk_app timer_thread "timer" entry_fn 0 (Static stack) RT_TIMER_THREAD_STACK_SIZE RT_TIMER_THREAD_PRIO 10.
Definition idle_app (stack : Z) (entry_fn : nat) : app :=
  mk_app idle "tidle" entry_fn 0 (Static stack) IDLE_THREAD_STACK_SIZE (RT_THREAD_PRIORITY_MAX - 1) 32.

Lemma wp_soft_timers k L {A} (m : K A) (Q : A → kernel → Prop) :
  booting false k L → (∀ k', booting true k' (<[soft_timers := []]> L) → threads k' = threads k → wp m k' Q) →
  wp (foldr (λ i m, on_heap (rt_list_init (N_timer_list true i));; m) (mret tt) timer_rows;; m) k Q.
Proof.
  intros [Hr Hs Hi Hst Hc Hl Hn] HQ. wp_step.
  change (wp (on_heap (rt_list_init soft_timers);; mret tt) k (λ _ k', wp m k' Q)).
  wp_step. unfold on_heap, rt_list_init. wp_step. wp_step. wp_step. apply HQ; [|done].
  split; [|done|exact Hi|exact Hst|exact Hc|exact Hl|exact Hn].
  exact (init_detached (heap k) L soft_timers Hr (Hs eq_refl)).
Qed.

(** Starting the scheduler. *)
Lemma wp_scheduler_start k L t x :
  booting true k L → threads k !! t = Some x → stat x = RT_THREAD_READY → t = idle →
  wp rt_system_scheduler_start k (λ _ k', running k' L ∧ rt_scheduler_lock_nest k' = 0 ∧
    rt_current_thread k' = head (run_order L)).
Proof.
  intros [Hr Hs Hi Hst Hc Hl Hn] Hx Hsx ->.
  assert (sched_inv k L) as Hsi by apply (ko_sched _ _ _ _ _ _ Hi).
  assert (∃ to, head (run_order L) = Some to) as [to Hto].
  { assert (idle ∈ run_order L) as Hin by (apply (run_order_ready Hsi); eauto).
    destruct (run_order L); [by apply elem_of_nil in Hin|eauto]. }
  destruct (elected_queue _ _ _ Hsi Hto) as (Hhd & Hp & _).
  unfold rt_system_scheduler_start. wp_step. wp_step. wp_step.
  eapply wp_rd_next_kernel; [exact Hr|by apply (so_queue _ _ _ _ Hsi)|].
  wp_step. apply (wp_deref _ to); [by destruct (ready_queue L _); simplify_eq/=|].
  do 2 wp_step. unfold log_hw. wp_step. rewrite Hto. split_and!; [|exact Hl|done].
  split; [exact Hi|exact Hst|eauto|simpl; eauto].
Qed.

(** The application of the repository: one thread, on the heap. *)
Definition main_app (tid entry_fn : nat) : app :=
  mk_app tid "main" entry_fn 0 Dynamic 2048 (RT_THREAD_PRIORITY_MAX / 3) 20.

Lemma rt_application_init_app malloc free_object tid entry_fn k :
  rt_application_init malloc free_object tid entry_fn k = start_apps malloc free_object [main_app tid entry_fn] k.
Proof.
  change (start_apps malloc free_object [main_app tid entry_fn]) with
    (rt_application_init malloc free_object tid entry_fn;; mret tt).
  unfold mbind at 1, M_bind at 1. by destruct (rt_application_init _ _ _ _ k) as [[[] k']|].
Qed.

(** The order in which the threads of [l] would run. *)
Definition start_order (l : list app) : list nat := ready_lists ≫= ids_of_priority l.

Lemma run_order_start L l :
  (∀ p, 0 <= p < RT_THREAD_PRIORITY_MAX → ready_queue L p = ids_of_priority l p) → run_order L = start_order l.
Proof.
  intros H. unfold run_order, start_order.
  assert (∀ p, p ∈ ready_lists → ready_queue L p = ids_of_priority l p) as Hq.
  { intros p Hp%elem_of_ready_lists. by apply H. }
  clear H. induction ready_lists as [|p ps IH]; [done|]. csimpl.
  rewrite Hq by set_solver. f_equal. apply IH. set_solver.
Qed.

(** C14: start-up works for every application.  Whatever list of threads the application
    creates, in its own memory or with [rt_thread_create], and whatever the board leaves in
    memory: from reset, [rtthread_startup] reaches a kernel in which every invariant
    holds and the scheduler is unlocked; each thread of the application, the timer thread
    and the idle thread is ready, in the queue of its priority, in the order of
    creation; and the thread that runs first is the first of the best priority.  No
    step faults: no list is used before it is initialised. *)
Theorem rtthread_startup_spec malloc free_object board application k L apps timer_stack timer_fn idle_stack idle_fn :
  (∀ k, application k = start_apps malloc free_object apps k) →
  let all := apps ++ [timer_app timer_stack timer_fn; idle_app idle_stack idle_fn] in
  wp board k (λ _ k', at_reset k' L (app_id <$> all)) →
  NoDup (app_id <$> all) → Forall (app_ok malloc) all →
  wp (rtthread_startup board application timer_stack timer_fn idle_stack idle_fn) k
    (λ r k', r = 0 ∧ ∃ L', running k' L' ∧ rt_scheduler_lock_nest k' = 0 ∧
      (∀ p, 0 <= p < RT_THREAD_PRIORITY_MAX → ready_queue L' p = ids_of_priority all p) ∧
      rt_current_thread k' = head (start_order all)).
Proof.
  intros Happ all Hboard Hnd Hok. unfold all in Hok, Hnd. rewrite fmap_app in Hnd.
  apply NoDup_app in Hnd as (Hnd1 & Hdis & Hnd2). apply Forall_app in Hok as [Hok1 Hok2].
  set (sys := [timer_app timer_stack timer_fn; idle_app idle_stack idle_fn]) in *.
  assert (∀ t, t ∈ app_id <$> sys → t ∉ app_id <$> apps) as Hdis' by (intros t ? ?; by eapply Hdis).
  unfold rtthread_startup. wp_step. eapply wp_mono; [exact Hboard|]. intros [] k0 Hk0. cbv beta.
  pose proof (wp_system_init _ _ _ Hk0) as Hinit. apply wp_bind_inv in Hinit. wp_step.
  eapply wp_mono; [exact Hinit|]. clear Hinit. intros [] k1 Hinit. cbv beta. wp_step.
  eapply wp_mono; [exact Hinit|]. clear Hinit. intros [] k2 [Hb2 Hbl2]. cbv beta. wp_step.
  unfold all in Hbl2. rewrite fmap_app in Hbl2.
  eapply wp_mono; [unfold wp; rewrite Happ; eapply (wp_start_apps malloc free_object false apps); [exact Hb2|done|done|]|].
  { intros t Ht. apply Hbl2, elem_of_app. by left. }
  intros [] k3 (L3 & Hb3 & Hq3 & Hbl3 & _). cbv beta.
  wp_step.
  change (rt_system_timer_thread_init timer_stack timer_fn) with
    (foldr (λ i m, on_heap (rt_list_init (N_timer_list true i));; m) (mret tt) timer_rows;;
     start_app malloc free_object (timer_app timer_stack timer_fn)).
  apply (wp_soft_timers k3 L3); [done|]. intros k4 Hb4 Ht4.
  assert (∀ t, t ∈ app_id <$> sys → blank t (<[soft_timers := []]> L3)) as Hbl4.
  { intros t Ht. apply (blank_inits [soft_timers]).
    - intros n ->%list_elem_of_singleton. by left.
    - apply Hbl3; [by apply Hdis'|]. apply Hbl2, elem_of_app. by right. }
  pose proof (wp_start_apps malloc free_object true sys k4 _ Hb4 Hok2 Hnd2 Hbl4) as Hsys.
  unfold sys in Hsys at 1. cbn [start_apps] in Hsys.
  apply wp_bind_inv in Hsys. eapply wp_mono; [exact Hsys|]. clear Hsys. intros [] k5 Hsys. cbv beta.
  change (rt_thread_idle_init idle_stack idle_fn) with (start_app malloc free_object (idle_app idle_stack idle_fn)).
  apply wp_bind_inv in Hsys. wp_step. eapply wp_mono; [exact Hsys|]. clear Hsys. intros [] k6 Hsys. cbv beta.
  destruct Hsys as (L6 & Hb6 & Hq6 & _ & Hr6 & _).
  destruct (Hr6 idle) as (x & Hx & Hsx).
  { apply elem_of_cons. right. by apply list_elem_of_singleton. }
  assert (∀ p, 0 <= p < RT_THREAD_PRIORITY_MAX → ready_queue L6 p = ids_of_priority all p) as Hq.
  { intros p Hp. rewrite Hq6 by done.
    rewrite (ready_queue_ext L3) by (by apply lookup_insert_ne). rewrite Hq3 by done.
    assert (ready_queue (inits reset_heads L) p = []) as ->.
    { apply ready_queue_fmap. rewrite lookup_inits, decide_True; [done|]. apply elem_of_reset_heads. eauto. }
    unfold ids_of_priority, all. by rewrite filter_app, fmap_app. }
  wp_step. eapply wp_mono; [by apply (wp_scheduler_start k6 L6 idle x)|]. intros [] k7 (Hr7 & Hl7 & Hc7). wp_step.
  split; [done|]. exists L6. split_and!; [done..|]. by rewrite Hc7, (run_order_start L6 all).
Qed.

(** * Instances *)

Definition no_head_b (L : lists) : bool :=
  all_entries (λ hd l, forallb (λ n, negb (in_use n || bool_decide (n = N_defunct))) (hd :: l)) L.

Lemma no_head_b_spec L hd : no_head_b L = true → in_use hd = true ∨ hd = N_defunct → unlisted hd L.
Proof.
  intros H Hu hd' l Hl Hn. pose proof (all_entries_spec _ _ H hd' l Hl) as Hb. cbv beta in Hb.
  pose proof (forallb_elem _ _ _ Hb Hn) as E. cbv beta in E. apply negb_true_iff, orb_false_iff in E as [E1 E2].
  apply bool_decide_eq_false in E2. destruct Hu; congruence.
Qed.

(** Memory for three threads. *)
Definition at_power_on : kernel := reset_kernel (thread_objects [0; 1; 2]%nat).

Definition blank_b (t : nat) (L : lists) : bool :=
  fresh_thread_b t L && bool_decide (L !! N_object (O_thread t) = Some [])
  && bool_decide (is_Some (L !! N_container None RT_Object_Class_Thread)).

Lemma blank_b_spec t L : blank_b t L = true → blank t L.
Proof.
  unfold blank_b. rewrite !andb_true_iff, !bool_decide_eq_true. intros [[H1 H2] H3].
  by split; [apply fresh_thread_b_spec| |].
Qed.

Definition typed_b (L : lists) : bool := all_entries (λ hd l, forallb (accepts hd) l) L.

Lemma typed_b_spec L : typed_b L = true → typed L.
Proof.
  intros H hd l n Hl Hn. pose proof (all_entries_spec _ _ H hd l Hl) as Hb. cbv beta in Hb.
  exact (forallb_elem _ _ _ Hb Hn).
Qed.

Lemma at_power_on_reset : at_reset at_power_on (lists_at at_power_on) [2; 0; 1]%nat.
Proof.
  split; [apply rep_b_spec|apply typed_b_spec| |by vm_compute..|].
  - by vm_compute.
  - by vm_compute.
  - intros hd. apply no_head_b_spec. by vm_compute.
  - assert (∀ t, t ∈ [2; 0; 1]%nat → blank_b t (lists_at at_power_on) = true) as H.
    { apply Forall_forall. repeat constructor; by vm_compute. }
    intros t Ht. by apply blank_b_spec, H.
Qed.

(** The application of the repository creates the thread [main]; the timer thread, which has a
    better priority, runs first. *)
Lemma rtthread_startup_witness :
  wp (rtthread_startup (mret tt) (rt_application_init (counting_malloc 0x20006000) counting_free 2 2)
        0x20004000 0 0x20005000 1) at_power_on
    (λ r k', r = 0 ∧ rt_current_thread k' = Some timer_thread).
Proof.
  assert (app_ok (counting_malloc 0x20006000) (main_app 2 2)) as Hm.
  { split; [by split|]. intros k. split; [by repeat split|]. by eexists. }
  assert (start_order ([main_app 2 2] ++ [timer_app 0x20004000 0; idle_app 0x20005000 1]) = [0; 2; 1]%nat) as Ho by by vm_compute.
  pose proof at_power_on_reset as Hr. revert Hr. generalize (lists_at at_power_on). generalize at_power_on. intros k L Hr.
  eapply wp_mono.
  - apply (rtthread_startup_spec (counting_malloc 0x20006000) counting_free (mret tt) _ k L
      [main_app 2 2] 0x20004000 0 0x20005000 1); [apply rt_application_init_app|exact Hr|by apply (bool_decide_unpack (NoDup _))|].
    repeat apply Forall_cons_2; [exact Hm|by split; [split|repeat split]..|apply Forall_nil_2].
  - intros r k' (-> & L' & _ & _ & _ & Hc). split; [reflexivity|]. rewrite Hc, Ho. reflexivity.
Defined.
