(* ===== verification/Device.v ===== *)
(** Devices, [src/device.c]: the registry of devices and the operations that go through it.

    The functions of a driver are parameters of the model, gathered in a record with the
    fields of [struct rt_device]; [None] is a null pointer. *)

From Stdlib Require Import ZArith Lia.
From stdpp Require Import numbers strings base gmap list.
From S2P Require Import Prelude RtList Bitmap Kernel Scheduler Object Timer Thread MemPool.
From S2P Require Import Invariant ThreadSpec Check Demo KernelSpec Registry.
Local Open Scope Z_scope.

(** * The code *)

Definition RT_ENOSYS : Z := 6.
Definition RT_EBUSY : Z := 7.
Definition RT_DEVICE_FLAG_STANDALONE : Z := 0x008.
Definition RT_DEVICE_FLAG_ACTIVATED : Z := 0x010.
Definition RT_DEVICE_OFLAG_CLOSE : Z := 0x000.
Definition RT_DEVICE_OFLAG_OPEN : Z := 0x008.

Record driver := mk_driver {
  drv_init : option (K Z);
  drv_open : option (Z → K Z);
  drv_close : option (K Z);
  drv_read : option (Z → Z → Z → K Z);
  drv_write : option (Z → Z → Z → K Z);
  drv_control : option (Z → Z → K Z)
}.

Definition get_device (d : nat) : K rt_device := k ← get; deref (devices k !! d).
Definition upd_device (d : nat) (f : rt_device → rt_device) : K unit :=
  x ← get_device d; modify (λ k, set_devices (<[d := f x]> (devices k)) k).

Definition zero_device : rt_device := mk_device 0 0 0 None None.

Definition rt_device_find (nm : string) : K (option objid) :=
  self ← rt_thread_self;
  let critical (m : K unit) := match self with Some _ => m | None => mret tt end in
  critical rt_enter_critical;;
  o ← find_in (name_is nm) (N_container None RT_Object_Class_Device);
  critical rt_exit_critical;;
  mret o.

Definition rt_device_register (dev : option nat) (nm : string) (flags : Z) : K Z :=
  match dev with
  | None => mret (- RT_ERROR)
  | Some d =>
      o ← rt_device_find nm;
      match o with
      | Some _ => mret (- RT_ERROR)
      | None =>
          rt_object_init (O_device d) RT_Object_Class_Device nm;;
          modify (λ k, set_devices (<[d := set_open_flag 0 (set_ref_count 0 (set_dev_flag flags
            (default zero_device (devices k !! d))))]> (devices k)) k);;
          mret RT_EOK
      end
  end.

Definition rt_device_unregister (d : nat) : K Z :=
  rt_object_detach (O_device d);;
  mret RT_EOK.

Definition rt_device_init_all : K Z := mret RT_EOK.

Section operations.
Variable drv : driver.

Definition activated (x : rt_device) : bool := negb (Z.land (dev_flag x) RT_DEVICE_FLAG_ACTIVATED =? 0).
Definition activate (x : rt_device) : rt_device :=
  set_dev_flag (Z.lor (dev_flag x) RT_DEVICE_FLAG_ACTIVATED) x.

(** The messages printed on failure are left out. *)
Definition rt_device_init (d : nat) : K Z :=
  x ← get_device d;
  match drv_init drv with
  | None => mret RT_EOK
  | Some init =>
      if activated x then mret RT_EOK
      else
        result ← init;
        (if result =? RT_EOK then upd_device d activate else mret tt);;
        mret result
  end.

(** [result == RT_EOK || result == -RT_ENOSYS] *)
Definition accepted (result : Z) : bool := (result =? RT_EOK) || (result =? - RT_ENOSYS).

(** From the test for a stand-alone device on; [result] is that of the initialisation. *)
Definition device_open (d : nat) (oflag result : Z) : K Z :=
  x ← get_device d;
  if negb (Z.land (dev_flag x) RT_DEVICE_FLAG_STANDALONE =? 0)
     && negb (Z.land (open_flag x) RT_DEVICE_OFLAG_OPEN =? 0) then mret (- RT_EBUSY)
  else
    result ← match drv_open drv with None => mret result | Some open => open oflag end;
    (if accepted result then
       upd_device d (set_open_flag (Z.lor oflag RT_DEVICE_OFLAG_OPEN));;
       upd_device d (λ x, set_ref_count (u8 (ref_count x + 1)) x);;
       x ← get_device d;
       rt_assert (negb (ref_count x =? 0))
     else mret tt);;
    mret result.

Definition rt_device_open (d : nat) (oflag : Z) : K Z :=
  x ← get_device d;
  if activated x then device_open d oflag RT_EOK
  else
    result ← match drv_init drv with None => mret RT_EOK | Some init => init end;
    if negb (result =? RT_EOK) then mret result
    else upd_device d activate;; device_open d oflag result.

Definition rt_device_close (d : nat) : K Z :=
  x ← get_device d;
  if ref_count x =? 0 then mret (- RT_ERROR)
  else
    upd_device d (λ x, set_ref_count (u8 (ref_count x - 1)) x);;
    x ← get_device d;
    if negb (ref_count x =? 0) then mret RT_EOK
    else
      result ← match drv_close drv with None => mret RT_EOK | Some close => close end;
      (if accepted result then upd_device d (set_open_flag RT_DEVICE_OFLAG_CLOSE) else mret tt);;
      mret result.

Definition rt_device_read (d : nat) (pos buffer size : Z) : K Z :=
  x ← get_device d;
  if ref_count x =? 0 then rt_set_errno (- RT_ERROR);; mret 0
  else
    match drv_read drv with
    | Some read => read pos buffer size
    | None => rt_set_errno (- RT_ENOSYS);; mret 0
    end.

Definition rt_device_write (d : nat) (pos buffer size : Z) : K Z :=
  x ← get_device d;
  if ref_count x =? 0 then rt_set_errno (- RT_ERROR);; mret 0
  else
    match drv_write drv with
    | Some write => write pos buffer size
    | None => rt_set_errno (- RT_ENOSYS);; mret 0
    end.

Definition rt_device_control (d : nat) (cmd arg : Z) : K Z :=
  match drv_control drv with
  | Some control => control cmd arg
  | None => mret RT_EOK
  end.
End operations.

Definition rt_device_set_rx_indicate (d : nat) (rx_ind : option nat) : K Z :=
  upd_device d (set_rx_indicate rx_ind);; mret RT_EOK.
Definition rt_device_set_tx_complete (d : nat) (tx_done : option nat) : K Z :=
  upd_device d (set_tx_complete tx_done);; mret RT_EOK.

(** * Opening and closing *)

Lemma wp_get_device k d x (Q : rt_device → kernel → Prop) :
  devices k !! d = Some x → Q x k → wp (get_device d) k Q.
Proof. intros. unfold get_device. do 2 wp_step. by eapply wp_deref. Qed.

Lemma wp_upd_device k d x f (Q : unit → kernel → Prop) :
  devices k !! d = Some x → Q tt (set_devices (<[d := f x]> (devices k)) k) → wp (upd_device d f) k Q.
Proof. intros. unfold upd_device. wp_step. by eapply wp_get_device. Qed.

Inductive dev_op := Op_open (oflag : Z) | Op_close.

Definition run_op (drv : driver) (d : nat) (op : dev_op) : K Z :=
  match op with Op_open oflag => rt_device_open drv d oflag | Op_close => rt_device_close drv d end.

Fixpoint run_ops (drv : driver) (d : nat) (ops : list dev_op) : K (list Z) :=
  match ops with
  | [] => mret []
  | op :: ops => r ← run_op drv d op; rs ← run_ops drv d ops; mret (r :: rs)
  end.

(** The abstract device: how often it is open, and whether it can be shared. *)
Inductive answer := Done | Busy | Refused.

Definition abstract_op (standalone : bool) (n : Z) (op : dev_op) : answer * Z :=
  match op with
  | Op_open _ => if standalone && (0 <? n) then (Busy, n) else (Done, n + 1)
  | Op_close => if n =? 0 then (Refused, n) else (Done, n - 1)
  end.

Fixpoint abstract_ops (standalone : bool) (n : Z) (ops : list dev_op) : list answer * Z :=
  match ops with
  | [] => ([], n)
  | op :: ops => let '(a, n) := abstract_op standalone n op in
                 let '(l, n) := abstract_ops standalone n ops in (a :: l, n)
  end.

Definition answers (r : Z) (a : answer) : Prop :=
  match a with Done => accepted r = true | Busy => r = - RT_EBUSY | Refused => r = - RT_ERROR end.

(** The device [d] is open [n] times, and has the open flag if and only if that is not 0. *)
Record device_at (k : kernel) (d : nat) (standalone : bool) (n : Z) : Prop := {
  da_device : ∃ x, devices k !! d = Some x ∧ ref_count x = n ∧
    Z.testbit (open_flag x) 3 = (0 <? n) ∧ Z.testbit (dev_flag x) 3 = standalone;
  da_range : 0 <= n < 256
}.

(** A call of the driver that leaves the structure of the device alone and whose result
    satisfies [P]. *)
Definition driver_call (d : nat) (P : Z → Prop) (m : K Z) : Prop :=
  ∀ k, wp m k (λ r k', P r ∧ devices k' !! d = devices k !! d).

(** A driver whose functions, where there are any, succeed or are not implemented. *)
Record obliging (drv : driver) (d : nat) : Prop := {
  ob_init : ∀ f, drv_init drv = Some f → driver_call d (λ r, r = RT_EOK) f;
  ob_open : ∀ f oflag, drv_open drv = Some f → driver_call d (λ r, accepted r = true) (f oflag);
  ob_close : ∀ f, drv_close drv = Some f → driver_call d (λ r, accepted r = true) f
}.

Lemma testbit_open oflag : Z.testbit (Z.lor oflag RT_DEVICE_OFLAG_OPEN) 3 = true.
Proof. rewrite Z.lor_spec. apply orb_true_r. Qed.
Lemma testbit_activate f : Z.testbit (Z.lor f RT_DEVICE_FLAG_ACTIVATED) 3 = Z.testbit f 3.
Proof. rewrite Z.lor_spec. apply orb_false_r. Qed.

Lemma land_bit3 f : (Z.land f 8 =? 0) = negb (Z.testbit f 3).
Proof. by apply (land_pow2_eqb _ 3). Qed.

Lemma wp_optional d P (f : option (K Z)) r0 k (Q : Z → kernel → Prop) :
  P r0 → (∀ m, f = Some m → driver_call d P m) →
  (∀ r k', P r → devices k' !! d = devices k !! d → Q r k') →
  wp (match f with None => mret r0 | Some m => m end) k Q.
Proof.
  intros Hr Hf HQ. destruct f as [m|]; [|wp_step; by apply HQ].
  eapply wp_mono; [by apply Hf|]. intros r k' [? ?]. by apply HQ.
Qed.

Lemma wp_device_open drv k d sa n oflag r0 :
  obliging drv d → accepted r0 = true → device_at k d sa n → n < 255 →
  wp (device_open drv d oflag r0) k (λ r k',
    answers r (abstract_op sa n (Op_open oflag)).1 ∧
    device_at k' d sa (abstract_op sa n (Op_open oflag)).2).
Proof.
  intros Hob Hr0 Hd Hn. pose proof Hd as [(x & Hx & Hc & Ho & Hs) Hrange]. unfold device_open.
  wp_step. eapply wp_get_device; [done|]. unfold RT_DEVICE_FLAG_STANDALONE, RT_DEVICE_OFLAG_OPEN.
  rewrite !land_bit3, !negb_involutive, Hs, Ho. cbn [abstract_op].
  destruct (sa && (0 <? n)); [by wp_step|]. wp_step.
  assert (∀ r k1, accepted r = true → devices k1 !! d = devices k !! d →
    wp ((if accepted r then upd_device d (set_open_flag (Z.lor oflag 8));;
           upd_device d (λ x, set_ref_count (u8 (ref_count x + 1)) x);;
           x ← get_device d; rt_assert (negb (ref_count x =? 0)) else mret tt);; mret r) k1
      (λ r k', accepted r = true ∧ device_at k' d sa (n + 1))) as Hrest.
  { intros r k1 Hr Hk1. rewrite Hr. wp_step. wp_step. eapply wp_upd_device; [by rewrite Hk1|].
    wp_step. eapply wp_upd_device; [apply lookup_insert_eq|]. wp_step.
    eapply wp_get_device; [apply lookup_insert_eq|]. simpl.
    assert (u8 (ref_count x + 1) = n + 1) as E by (rewrite Hc; unfold wrap; apply Z.mod_small; lia).
    rewrite E. apply wp_assert; [apply negb_true_iff, Z.eqb_neq; lia|]. wp_step. split; [done|].
    split; [|lia]. eexists. split; [apply lookup_insert_eq|]. simpl. split_and!; [done| |done].
    transitivity true; [exact (testbit_open oflag)|symmetry; apply Z.ltb_lt; lia]. }
  simpl. destruct (drv_open drv) as [f|] eqn:Ef; [|wp_step; by apply Hrest].
  eapply wp_mono; [by apply (ob_open _ _ Hob f oflag)|]. intros r k1 [? ?]. by apply Hrest.
Qed.

Lemma device_at_devices k k' d sa n :
  devices k' !! d = devices k !! d → device_at k d sa n → device_at k' d sa n.
Proof. intros E [(x & Hx & H) Hr]. split; [|done]. exists x. by rewrite E. Qed.

Lemma wp_rt_device_open drv k d sa n oflag :
  obliging drv d → device_at k d sa n → n < 255 →
  wp (rt_device_open drv d oflag) k (λ r k',
    answers r (abstract_op sa n (Op_open oflag)).1 ∧
    device_at k' d sa (abstract_op sa n (Op_open oflag)).2).
Proof.
  intros Hob Hd Hn. pose proof Hd as [(x & Hx & Hc & Ho & Hs) Hrange]. unfold rt_device_open.
  wp_step. eapply wp_get_device; [done|]. destruct (activated x); [by apply wp_device_open|].
  wp_step. apply (wp_optional d (λ r, r = RT_EOK)); [done|by apply Hob|].
  intros r k1 -> Hk1. change (negb (RT_EOK =? RT_EOK)) with false. cbv iota.
  wp_step. eapply wp_upd_device; [by rewrite Hk1|]. apply wp_device_open; [done|done| |done].
  split; [|done]. eexists. split; [apply lookup_insert_eq|]. split_and!; [done|done|].
  simpl dev_flag. by rewrite testbit_activate.
Qed.

Lemma wp_rt_device_close drv k d sa n :
  obliging drv d → device_at k d sa n →
  wp (rt_device_close drv d) k (λ r k',
    answers r (abstract_op sa n Op_close).1 ∧ device_at k' d sa (abstract_op sa n Op_close).2).
Proof.
  intros Hob Hd. pose proof Hd as [(x & Hx & Hc & Ho & Hs) Hrange]. unfold rt_device_close.
  wp_step. eapply wp_get_device; [done|]. rewrite Hc. cbn [abstract_op].
  destruct (Z.eqb_spec n 0) as [E|E]; [by wp_step|].
  wp_step. eapply wp_upd_device; [done|]. wp_step. eapply wp_get_device; [apply lookup_insert_eq|]. simpl.
  assert (u8 (ref_count x - 1) = n - 1) as Eu by (rewrite Hc; unfold wrap; apply Z.mod_small; lia).
  rewrite Eu. destruct (Z.eqb_spec (n - 1) 0) as [E1|E1]; simpl.
  - wp_step. apply (wp_optional d (λ r, accepted r = true)); [done|by apply Hob|].
    intros r k1 Hr Hk1. rewrite Hr. wp_step. eapply wp_upd_device; [rewrite Hk1; apply lookup_insert_eq|].
    wp_step. split; [done|]. split; [|lia]. eexists. split; [apply lookup_insert_eq|]. simpl.
    rewrite E1. done.
  - wp_step. split; [done|]. split; [|lia]. eexists. split; [apply lookup_insert_eq|]. simpl.
    split_and!; [done| |done].
    etransitivity; [exact Ho|]. transitivity true; [apply Z.ltb_lt; lia|symmetry; apply Z.ltb_lt; lia].
Qed.

Fixpoint opens (ops : list dev_op) : Z :=
  match ops with [] => 0 | Op_open _ :: ops => 1 + opens ops | Op_close :: ops => opens ops end.

Lemma opens_nonneg ops : 0 <= opens ops.
Proof. induction ops as [|[] ops]; simpl; lia. Qed.

(** A device counts its users.  Any sequence of [rt_device_open] and [rt_device_close]
    on a device whose driver does its part answers as the abstract device does: opening a
    stand-alone device that is open is refused as busy, closing one that is not open is an
    error, all else succeeds; the device is open as often as the calls say, and its open flag
    tells whether it is open at all.  The counter has 8 bits: more than 255 openings at a
    time stop the system. *)
Theorem device_refines drv d sa ops : ∀ k n,
  obliging drv d → device_at k d sa n → n + opens ops <= 255 →
  wp (run_ops drv d ops) k (λ rs k',
    Forall2 answers rs (abstract_ops sa n ops).1 ∧ device_at k' d sa (abstract_ops sa n ops).2).
Proof.
  induction ops as [|op ops IH]; intros k n Hob Hd Hn; cbn [run_ops abstract_ops]; [by wp_step|].
  pose proof (opens_nonneg ops). wp_step.
  assert (wp (run_op drv d op) k (λ r k', answers r (abstract_op sa n op).1 ∧ device_at k' d sa (abstract_op sa n op).2))
    as Hop.
  { destruct op; simpl in Hn; [apply wp_rt_device_open; [done|done|lia]|by apply wp_rt_device_close]. }
  eapply wp_mono; [exact Hop|]. intros r k1 [Hr Hd1].
  assert ((abstract_op sa n op).2 + opens ops <= 255) as Hn1.
  { destruct op; simpl in *; repeat case_match; simpl; lia. }
  destruct (abstract_op sa n op) as [a n1]. simpl in *. wp_step.
  eapply wp_mono; [by apply (IH k1 n1)|]. intros rs k2 [Hrs Hd2].
  destruct (abstract_ops sa n1 ops) as [l n2]. simpl in *. wp_step. split; [by constructor|done].
Qed.

(** ** A device that cannot be closed *)

Definition locked (k : kernel) (d : nat) : Prop :=
  ∃ x, devices k !! d = Some x ∧ ref_count x = 0 ∧ Z.testbit (open_flag x) 3 = true ∧
    Z.testbit (dev_flag x) 3 = true ∧ activated x = true.

Definition locked_answer (op : dev_op) : Z :=
  match op with Op_open _ => - RT_EBUSY | Op_close => - RT_ERROR end.

Lemma wp_locked_op drv k d op :
  locked k d → wp (run_op drv d op) k (λ r k', r = locked_answer op ∧ k' = k).
Proof.
  intros (x & Hx & Hc & Ho & Hs & Ha). destruct op as [oflag|]; simpl.
  - unfold rt_device_open. wp_step. eapply wp_get_device; [done|]. rewrite Ha. unfold device_open.
    wp_step. eapply wp_get_device; [done|]. unfold RT_DEVICE_FLAG_STANDALONE, RT_DEVICE_OFLAG_OPEN.
    rewrite !land_bit3, Hs, Ho. simpl. by wp_step.
  - unfold rt_device_close. wp_step. eapply wp_get_device; [done|]. rewrite Hc. simpl. by wp_step.
Qed.

Lemma wp_locked_ops drv d ops : ∀ k,
  locked k d → wp (run_ops drv d ops) k (λ rs k', rs = locked_answer <$> ops ∧ k' = k).
Proof.
  induction ops as [|op ops IH]; intros k Hl; cbn [run_ops]; [by wp_step|].
  wp_step. eapply wp_mono; [by apply wp_locked_op|]. intros r k1 [-> ->].
  wp_step. eapply wp_mono; [by apply IH|]. intros rs k2 [-> ->]. by wp_step.
Qed.

(** A failing driver locks a stand-alone device for good: [rt_device_close] counts the
    user out before it asks the driver, so when the driver's close function fails, the device
    has no user but keeps its open flag.  From then on every [rt_device_open] answers
    [-RT_EBUSY] and every [rt_device_close] [-RT_ERROR], whatever the driver does. *)
Theorem device_close_failure_locks drv d k x f e ops :
  drv_close drv = Some f → driver_call d (λ r, r = e) f → accepted e = false →
  device_at k d true 1 → devices k !! d = Some x → activated x = true →
  wp (r ← rt_device_close drv d; rs ← run_ops drv d ops; mret (r, rs)) k (λ '(r, rs) _,
    r = e ∧ rs = locked_answer <$> ops).
Proof.
  intros Hf Hcall He [(y & Hy & Hc & Ho & Hs) _] Hx Ha. rewrite Hx in Hy. injection Hy as <-.
  wp_step. unfold rt_device_close. wp_step. eapply wp_get_device; [done|]. rewrite Hc. simpl.
  wp_step. eapply wp_upd_device; [done|]. wp_step. eapply wp_get_device; [apply lookup_insert_eq|]. simpl.
  rewrite Hc. change (negb (u8 (1 - 1) =? 0)) with false. cbv iota. rewrite Hf. wp_step.
  eapply wp_mono; [apply Hcall|]. intros r k1 [-> Hk1]. rewrite He. do 4 wp_step.
  eapply wp_mono; [apply wp_locked_ops|].
  - eexists. rewrite Hk1. split; [apply lookup_insert_eq|]. split_and!; [by vm_compute| | |]; done.
  - intros rs k2 [-> ->]. by wp_step.
Qed.

(** * The registry *)

Lemma rt_device_find_spec k L nm :
  running k L → lock_free k → catalogued k L None RT_Object_Class_Device →
  wp (rt_device_find nm) k (λ r k',
    r = first_such (objects k) (same_name nm) (container L None RT_Object_Class_Device) ∧
    rescheduled k k' L).
Proof.
  intros Hr Hl Hc. unfold rt_device_find, rt_thread_self. do 3 wp_step.
  destruct (rn_current _ _ Hr) as [t Ht]. rewrite Ht.
  by apply (wp_find_critical k L None RT_Object_Class_Device _ (same_name nm)).
Qed.

Lemma kernel_context_rescheduled k k' L :
  elected k L = rt_current_thread k → kernel_context k → rescheduled k k' L → kernel_context k'.
Proof.
  intros He Hc [_ Hm Hcur] t. rewrite Hcur, He, (sm_objects _ _ Hm). apply Hc.
Qed.

(** Names of devices are unique.  [rt_device_register] refuses a name that a registered
    device has, in its first [RT_NAME_MAX] characters, and changes nothing then; otherwise
    the device is registered, closed and unused, and the name finds it. *)
Theorem rt_device_register_spec k L d nm flags :
  running k L → lock_free k → catalogued k L None RT_Object_Class_Device →
  kernel_context k → elected k L = rt_current_thread k → L !! N_object (O_device d) = Some [] →
  wp (rt_device_register (Some d) nm flags) k (λ r k',
    match first_such (objects k) (same_name nm) (container L None RT_Object_Class_Device) with
    | Some _ => r = - RT_ERROR ∧ rescheduled k k' L
    | None => r = RT_EOK ∧ device_at k' d (Z.testbit flags 3) 0 ∧ ∃ L', running k' L' ∧
        container L' None RT_Object_Class_Device = O_device d :: container L None RT_Object_Class_Device ∧
        wp (rt_device_find nm) k' (λ r _, r = Some (O_device d))
    end).
Proof.
  intros Hr Hl Hc Hctx Hel Ho. unfold rt_device_register. wp_step.
  eapply wp_mono; [by apply (rt_device_find_spec k L nm)|]. intros r k1 [-> Hk1].
  destruct (first_such _ _ _) as [o|]; [by wp_step|]. pose proof (rs_running _ _ _ Hk1) as Hr1.
  pose proof (catalogued_rescheduled _ _ _ _ _ Hk1 Hc) as Hc1. wp_step.
  eapply wp_mono; [apply (wp_object_init k1 L (O_device d) RT_Object_Class_Device nm);
    [apply Hr1| |done|done|apply Hc]|].
  { by eapply kernel_context_rescheduled. }
  intros [] k2 (h & -> & Hi2). wp_step. wp_step. wp_step. set (k3 := set_devices _ _).
  set (L3 := registered _ _ _ _) in *.
  assert (running k3 L3) as Hr3 by (split; [exact Hi2|apply Hr1..]). split; [done|]. split.
  { split; [|lia]. eexists. split; [apply lookup_insert_eq|]. done. }
  exists L3. split_and!; [done|apply container_registered|].
  eapply wp_mono; [apply (rt_device_find_spec k3 L3 nm Hr3)|].
  - unfold lock_free. change (rt_scheduler_lock_nest k3) with (rt_scheduler_lock_nest k1).
    by rewrite (fr_lock _ _ (sm_frame _ _ (rs_memory _ _ _ Hk1))).
  - apply (catalogued_init k1 k3 L (O_device d) RT_Object_Class_Device nm); [apply Hr1|done|done|done].
  - intros r k4 [-> _]. unfold L3. rewrite container_registered. unfold first_such. simpl.
    rewrite lookup_insert_eq. simpl. unfold same_name. simpl. by rewrite object_name_idem, String.eqb_refl.
Qed.

(** * Instances *)

(** A driver without an init function whose close function fails once in a while. *)
Definition demo_driver (close_result : Z) : driver :=
  mk_driver None (Some (λ _, mret RT_EOK)) (Some (mret close_result)) None None None.

Lemma demo_call d r : driver_call d (λ r', r' = r) (mret r).
Proof. intros k. by wp_step. Qed.

Lemma demo_obliging d : obliging (demo_driver RT_EOK) d.
Proof.
  split; simpl; [done| |].
  - intros f oflag [= <-] k. by wp_step.
  - intros f [= <-] k. by wp_step.
Qed.

(** The booted kernel with memory for a device. *)
Definition device_room : kernel :=
  set_heap (heap booted ∪ static_heap [O_device 0]) booted.
(** A stand-alone device, registered there. *)
Definition device_demo : kernel :=
  run (rt_device_register (Some 0%nat) "uart0" RT_DEVICE_FLAG_STANDALONE) device_room.

Lemma device_demo_closed : device_at device_demo 0 true 0.
Proof. split; [|done]. eexists. split_and!; by vm_compute. Qed.

Lemma device_refines_witness :
  wp (run_ops (demo_driver RT_EOK) 0 [Op_open 3; Op_open 3; Op_close; Op_close]) device_demo (λ rs _,
    Forall2 answers rs [Done; Busy; Done; Refused]).
Proof.
  eapply wp_mono.
  - apply (device_refines (demo_driver RT_EOK) 0 true [Op_open 3; Op_open 3; Op_close; Op_close] device_demo 0).
    + apply demo_obliging.
    + exact device_demo_closed.
    + by vm_compute.
  - by intros rs k' [H _].
Defined.

Definition device_opened : kernel := run (rt_device_open (demo_driver (-1)) 0 3) device_demo.

Lemma device_close_failure_witness :
  wp (r ← rt_device_close (demo_driver (-1)) 0; rs ← run_ops (demo_driver (-1)) 0 [Op_open 3; Op_close];
      mret (r, rs)) device_opened (λ '(r, rs) _, r = -1 ∧ rs = [- RT_EBUSY; - RT_ERROR]).
Proof.
  assert (∃ x, devices device_opened !! 0%nat = Some x ∧ ref_count x = 1 ∧ Z.testbit (open_flag x) 3 = true ∧
    Z.testbit (dev_flag x) 3 = true ∧ activated x = true) as (x & Hx & Hc & Ho & Hs & Ha)
    by (eexists; split_and!; by vm_compute).
  apply (device_close_failure_locks (demo_driver (-1)) 0 device_opened x (mret (-1)) (-1) [Op_open 3; Op_close]).
  - reflexivity.
  - apply demo_call.
  - reflexivity.
  - split; [|lia]. exists x. split_and!; [exact Hx|exact Hc|exact Ho|exact Hs].
  - exact Hx.
  - exact Ha.
Defined.

Lemma rt_device_register_witness :
  wp (rt_device_register (Some 0%nat) "uart0" RT_DEVICE_FLAG_STANDALONE) device_room (λ r _, r = RT_EOK).
Proof.
  assert (first_such (objects device_room) (same_name "uart0")
    (container (lists_at device_room) None RT_Object_Class_Device) = None) as E by by vm_compute.
  eapply wp_mono.
  - apply (rt_device_register_spec device_room (lists_at device_room) 0 "uart0" RT_DEVICE_FLAG_STANDALONE).
    + apply running_b_spec. by vm_compute.
    + split; by vm_compute.
    + apply catalogued_b_spec. by vm_compute.
    + apply kernel_context_b_spec. by vm_compute.
    + by vm_compute.
    + by vm_compute.
  - intros r k'. rewrite E. by intros [-> _].
Defined.
