(* ===== verification/RingBuffer.v ===== *)
(** Ring buffers, [components/drivers/src/ringbuffer.c] and the inline functions of
    [components/drivers/include/rtdevice.h].

    The pool is a list of bytes.  The two indices have 15 bits and a mirror bit each: equal
    indices mean an empty buffer when the mirrors agree and a full one when they differ.
    [memcpy] outside the pool or behind the end of the caller's data is a fault. *)

From Stdlib Require Import ZArith Lia.
From stdpp Require Import numbers base list.
From S2P Require Import Prelude Kernel.
Local Open Scope Z_scope.

(** * The code *)

Record rt_ringbuffer := mk_ringbuffer {
  buffer_ptr : list Z;
  read_mirror : bool;
  read_index : Z;
  write_mirror : bool;
  write_index : Z;
  buffer_size : Z
}.

Notation RB := (M rt_ringbuffer).

Definition set_buffer (v : list Z) (rb : rt_ringbuffer) : rt_ringbuffer :=
  mk_ringbuffer v (read_mirror rb) (read_index rb) (write_mirror rb) (write_index rb) (buffer_size rb).
Definition set_read (m : bool) (i : Z) (rb : rt_ringbuffer) : rt_ringbuffer :=
  mk_ringbuffer (buffer_ptr rb) m (wrap 15 i) (write_mirror rb) (write_index rb) (buffer_size rb).
Definition set_write (m : bool) (i : Z) (rb : rt_ringbuffer) : rt_ringbuffer :=
  mk_ringbuffer (buffer_ptr rb) (read_mirror rb) (read_index rb) m (wrap 15 i) (buffer_size rb).

Definition rt_ringbuffer_init (pool : list Z) (size : Z) : RB unit :=
  rt_assert (0 <? size);;
  modify (λ _, mk_ringbuffer pool false 0 false 0 (RT_ALIGN_DOWN size RT_ALIGN_SIZE)).

Definition rt_ringbuffer_get_size (rb : rt_ringbuffer) : Z := u16 (buffer_size rb).

Inductive rt_ringbuffer_state :=
  | RT_RINGBUFFER_EMPTY | RT_RINGBUFFER_FULL | RT_RINGBUFFER_HALFFULL.

Definition rt_ringbuffer_status (rb : rt_ringbuffer) : rt_ringbuffer_state :=
  if read_index rb =? write_index rb then
    if Bool.eqb (read_mirror rb) (write_mirror rb) then RT_RINGBUFFER_EMPTY else RT_RINGBUFFER_FULL
  else RT_RINGBUFFER_HALFFULL.

Definition rt_ringbuffer_data_len (rb : rt_ringbuffer) : Z :=
  match rt_ringbuffer_status rb with
  | RT_RINGBUFFER_EMPTY => 0
  | RT_RINGBUFFER_FULL => u16 (buffer_size rb)
  | RT_RINGBUFFER_HALFFULL =>
      if read_index rb <? write_index rb then u16 (write_index rb - read_index rb)
      else u16 (buffer_size rb - (read_index rb - write_index rb))
  end.

Definition rt_ringbuffer_space_len (rb : rt_ringbuffer) : Z :=
  buffer_size rb - rt_ringbuffer_data_len rb.

(** [memcpy(&rb->buffer_ptr[pos], src, n)] *)
Definition copy_in (pos : Z) (src : list Z) (n : Z) : RB unit :=
  rb ← get;
  if (0 <=? pos) && (0 <=? n) && (n <=? Z.of_nat (length src))
     && (pos + n <=? Z.of_nat (length (buffer_ptr rb))) then
    modify (set_buffer (take (Z.to_nat pos) (buffer_ptr rb) ++ take (Z.to_nat n) src ++
                        drop (Z.to_nat (pos + n)) (buffer_ptr rb)))
  else fail F_pointer.

(** [memcpy(dst, &rb->buffer_ptr[pos], n)]: the bytes that are copied *)
Definition copy_out (pos n : Z) : RB (list Z) :=
  rb ← get;
  if (0 <=? pos) && (0 <=? n) && (pos + n <=? Z.of_nat (length (buffer_ptr rb))) then
    mret (take (Z.to_nat n) (drop (Z.to_nat pos) (buffer_ptr rb)))
  else fail F_pointer.

(** The copy of [length] bytes at the write index, which both functions share. *)
Definition put_bytes (ptr : list Z) (length : Z) : RB unit :=
  rb ← get;
  let room := buffer_size rb - write_index rb in
  if length <? room then
    copy_in (write_index rb) ptr length;;
    modify (λ rb, set_write (write_mirror rb) (write_index rb + length) rb)
  else
    copy_in (write_index rb) ptr room;;
    copy_in 0 (drop (Z.to_nat room) ptr) (length - room);;
    modify (λ rb, set_write (negb (write_mirror rb)) (length - room) rb).

Definition rt_ringbuffer_put (ptr : list Z) (length : Z) : RB Z :=
  rb ← get;
  let size := u16 (rt_ringbuffer_space_len rb) in
  if size =? 0 then mret 0
  else
    let length := if size <? length then size else length in
    put_bytes ptr length;;
    mret length.

Definition rt_ringbuffer_put_force (ptr : list Z) (length : Z) : RB Z :=
  rb ← get;
  let space_length := u16 (rt_ringbuffer_space_len rb) in
  let length := if space_length <? length then u16 (buffer_size rb) else length in
  let wraps := negb (length <? buffer_size rb - write_index rb) in
  put_bytes ptr length;;
  (if space_length <? length then
     modify (λ rb, set_read (if wraps then negb (read_mirror rb) else read_mirror rb) (write_index rb) rb)
   else mret tt);;
  mret length.

(** The number of bytes and the bytes. *)
Definition rt_ringbuffer_get (length : Z) : RB (Z * list Z) :=
  rb ← get;
  let size := rt_ringbuffer_data_len rb in
  if size =? 0 then mret (0, [])
  else
    let length := if size <? length then size else length in
    let room := buffer_size rb - read_index rb in
    if length <? room then
      l ← copy_out (read_index rb) length;
      modify (λ rb, set_read (read_mirror rb) (read_index rb + length) rb);;
      mret (length, l)
    else
      l1 ← copy_out (read_index rb) room;
      l2 ← copy_out 0 (length - room);
      modify (λ rb, set_read (negb (read_mirror rb)) (length - room) rb);;
      mret (length, l1 ++ l2).

(** [rb->buffer_ptr[rb->write_index] = ch] and the step of the index. *)
Definition put_byte (ch : Z) : RB bool :=
  rb ← get;
  copy_in (write_index rb) [ch] 1;;
  if write_index rb =? buffer_size rb - 1 then
    modify (λ rb, set_write (negb (write_mirror rb)) 0 rb);; mret true
  else modify (λ rb, set_write (write_mirror rb) (write_index rb + 1) rb);; mret false.

Definition rt_ringbuffer_putchar (ch : Z) : RB Z :=
  rb ← get;
  if rt_ringbuffer_space_len rb =? 0 then mret 0
  else put_byte ch;; mret 1.

Definition rt_ringbuffer_putchar_force (ch : Z) : RB Z :=
  rb ← get;
  flipped ← put_byte ch;
  match rt_ringbuffer_status rb with
  | RT_RINGBUFFER_FULL =>
      modify (λ rb, set_read (if (flipped : bool) then negb (read_mirror rb) else read_mirror rb) (write_index rb) rb);;
      mret 1
  | _ => mret 1
  end.

Definition rt_ringbuffer_getchar : RB (Z * list Z) :=
  rb ← get;
  if rt_ringbuffer_data_len rb =? 0 then mret (0, [])
  else
    l ← copy_out (read_index rb) 1;
    (if read_index rb =? buffer_size rb - 1
     then modify (λ rb, set_read (negb (read_mirror rb)) 0 rb)
     else modify (λ rb, set_read (read_mirror rb) (read_index rb + 1) rb));;
    mret (1, l).

(** * The queue in the buffer *)

(** The indices and the size as natural numbers; the order of the indices depends on the
    mirrors. *)
Record ring (rb : rt_ringbuffer) (r w s : nat) : Prop := {
  rg_read : read_index rb = Z.of_nat r;
  rg_write : write_index rb = Z.of_nat w;
  rg_size : buffer_size rb = Z.of_nat s;
  rg_pool : (s <= length (buffer_ptr rb))%nat;
  rg_bound : Z.of_nat s < 2 ^ 15;
  rg_read_lt : (r < s)%nat;
  rg_write_lt : (w < s)%nat;
  rg_order : if Bool.eqb (read_mirror rb) (write_mirror rb) then (r <= w)%nat else (w <= r)%nat
}.

(** The bytes between the indices. *)
Definition between (same : bool) (b : list Z) (r w : nat) : list Z :=
  if same then take (w - r) (drop r b) else drop r b ++ take w b.

Definition held (rb : rt_ringbuffer) (r w s : nat) : list Z :=
  between (Bool.eqb (read_mirror rb) (write_mirror rb)) (take s (buffer_ptr rb)) r w.

(** The buffer of capacity [cap] holds the queue [q]. *)
Definition holds (rb : rt_ringbuffer) (cap : nat) (q : list Z) : Prop :=
  ∃ r w, ring rb r w cap ∧ q = held rb r w cap.

Lemma length_between (same : bool) (b : list Z) (r w : nat) :
  (if same then r <= w else w <= r)%nat → (r <= length b)%nat → (w <= length b)%nat →
  length (between same b r w) = (if same then w - r else length b - r + w)%nat.
Proof.
  intros Ho Hr Hw. destruct same; simpl.
  - rewrite length_take, length_drop. lia.
  - rewrite length_app, length_drop, length_take. lia.
Qed.

Lemma u16_id z : 0 <= z < 2 ^ 15 → u16 z = z.
Proof. intros Hz. unfold wrap. apply Z.mod_small. lia. Qed.
Lemma wrap15_id z : 0 <= z < 2 ^ 15 → wrap 15 z = z.
Proof. intros Hz. unfold wrap. by apply Z.mod_small. Qed.

Section ring.
Context {rb : rt_ringbuffer} {r w s : nat}.
Hypothesis Hg : ring rb r w s.

Lemma length_pool : length (take s (buffer_ptr rb)) = s.
Proof. pose proof (rg_pool _ _ _ _ Hg). rewrite length_take. lia. Qed.

Lemma length_held :
  length (held rb r w s) =
    (if Bool.eqb (read_mirror rb) (write_mirror rb) then w - r else s - r + w)%nat.
Proof.
  destruct Hg. unfold held. rewrite length_between; rewrite ?length_pool; [done|done|lia|lia].
Qed.

Lemma data_len_held : rt_ringbuffer_data_len rb = Z.of_nat (length (held rb r w s)).
Proof.
  rewrite length_held. destruct Hg as [Hr Hw Hs _ Hb Hrl Hwl Ho].
  unfold rt_ringbuffer_data_len, rt_ringbuffer_status. rewrite Hr, Hw, Hs.
  destruct (Bool.eqb _ _); destruct (Z.eqb_spec (Z.of_nat r) (Z.of_nat w)); simpl.
  - lia.
  - rewrite (proj2 (Z.ltb_lt _ _)) by lia. rewrite u16_id by lia. lia.
  - rewrite u16_id by lia. lia.
  - rewrite (proj2 (Z.ltb_ge _ _)) by lia. rewrite u16_id by lia. lia.
Qed.

Lemma held_le : (length (held rb r w s) <= s)%nat.
Proof. rewrite length_held. destruct Hg. destruct (Bool.eqb _ _); lia. Qed.

Lemma space_len_held : rt_ringbuffer_space_len rb = Z.of_nat (s - length (held rb r w s)).
Proof.
  unfold rt_ringbuffer_space_len. rewrite data_len_held, (rg_size _ _ _ _ Hg).
  pose proof held_le. lia.
Qed.
End ring.

(** ** Copies *)

(** [l] written into [b] at [i]. *)
Definition splice (i : nat) (l b : list Z) : list Z := take i b ++ l ++ drop (i + length l) b.

Lemma length_splice i l b : (i + length l <= length b)%nat → length (splice i l b) = length b.
Proof. intros H. unfold splice. rewrite !length_app, length_take, length_drop. lia. Qed.

Lemma take_splice s i l b :
  (i + length l <= s)%nat → (s <= length b)%nat → take s (splice i l b) = splice i l (take s b).
Proof.
  intros H1 H2. unfold splice. rewrite take_app, take_app, length_take.
  rewrite (take_ge (take i b)) by (rewrite length_take; lia). rewrite (take_ge l) by lia.
  f_equal; [rewrite take_take; f_equal; lia|]. f_equal. rewrite take_drop_commute. f_equal. f_equal. lia.
Qed.

Lemma wp_copy_in (rb : rt_ringbuffer) pos src n (Q : unit → rt_ringbuffer → Prop) :
  (n <= length src)%nat → (pos + n <= length (buffer_ptr rb))%nat →
  Q tt (set_buffer (splice pos (take n src) (buffer_ptr rb)) rb) →
  wp (copy_in (Z.of_nat pos) src (Z.of_nat n)) rb Q.
Proof.
  intros Hn Hp HQ. unfold copy_in. do 2 wp_step.
  rewrite !(proj2 (Z.leb_le _ _)) by lia. simpl. wp_step.
  unfold splice in HQ. rewrite length_take, Nat.min_l in HQ by lia.
  rewrite !Nat2Z.id. replace (Z.to_nat (Z.of_nat pos + Z.of_nat n)) with (pos + n)%nat by lia. done.
Qed.

Lemma wp_copy_out (rb : rt_ringbuffer) pos n (Q : list Z → rt_ringbuffer → Prop) :
  (pos + n <= length (buffer_ptr rb))%nat → Q (take n (drop pos (buffer_ptr rb))) rb →
  wp (copy_out (Z.of_nat pos) (Z.of_nat n)) rb Q.
Proof.
  intros Hp HQ. unfold copy_out. do 2 wp_step.
  rewrite !(proj2 (Z.leb_le _ _)) by lia. simpl. wp_step. by rewrite !Nat2Z.id.
Qed.

(** ** Writing behind the queue, reading from its front *)

Lemma between_put_same b r w l :
  (r <= w)%nat → (w + length l <= length b)%nat →
  between true (splice w l b) r (w + length l) = between true b r w ++ l.
Proof.
  intros H1 H2. unfold between, splice. rewrite !take_drop_commute.
  replace (r + (w + length l - r))%nat with (w + length l)%nat by lia. replace (r + (w - r))%nat with w by lia.
  rewrite app_assoc, take_app_le by (rewrite length_app, length_take; lia).
  rewrite take_ge by (rewrite length_app, length_take; lia).
  rewrite drop_app_le by (rewrite length_take; lia). done.
Qed.

Lemma between_put_diff b r w l :
  (w + length l <= r)%nat → (r <= length b)%nat →
  between false (splice w l b) r (w + length l) = between false b r w ++ l.
Proof.
  intros H1 H2. unfold between. rewrite <- app_assoc. f_equal.
  - unfold splice. rewrite app_assoc, drop_app_ge by (rewrite length_app, length_take; lia).
    rewrite length_app, length_take, drop_drop. f_equal. lia.
  - unfold splice. rewrite app_assoc, take_app_le by (rewrite length_app, length_take; lia).
    by rewrite take_ge by (rewrite length_app, length_take; lia).
Qed.

Lemma between_put_wrap b r w l1 l2 :
  (r <= w)%nat → (w + length l1 = length b)%nat → (length l2 <= r)%nat →
  between false (splice 0 l2 (splice w l1 b)) r (length l2) = between true b r w ++ l1 ++ l2.
Proof.
  intros H1 H2 H3. unfold between. rewrite take_drop_commute. replace (r + (w - r))%nat with w by lia.
  assert (splice w l1 b = take w b ++ l1) as E.
  { unfold splice. rewrite (drop_ge b) by lia. by rewrite app_nil_r. }
  rewrite E. unfold splice. rewrite take_0, app_nil_l, Nat.add_0_l.
  rewrite drop_app_ge by lia. rewrite drop_drop. replace (length l2 + (r - length l2))%nat with r by lia.
  rewrite drop_app_le by (rewrite length_take; lia).
  rewrite take_app_le by lia. rewrite (take_ge l2) by lia. by rewrite app_assoc.
Qed.

Lemma between_get_same b r w n :
  (n <= w - r)%nat → between true b r w = take n (drop r b) ++ between true b (r + n) w.
Proof.
  intros H. unfold between. rewrite <- (take_drop n (take (w - r) (drop r b))). f_equal.
  - rewrite take_take. f_equal. lia.
  - symmetry. rewrite <- drop_drop, (take_drop_commute _ (w - (r + n)) n). do 2 f_equal. lia.
Qed.

Lemma between_get_diff b r w n : between false b r w = take n (drop r b) ++ between false b (r + n) w.
Proof. unfold between. rewrite app_assoc, <- drop_drop. by rewrite take_drop. Qed.

Lemma between_get_wrap b r w n :
  (n <= w)%nat → between false b r w = drop r b ++ take n b ++ between true b n w.
Proof.
  intros H. unfold between. f_equal. rewrite take_drop_commute. replace (n + (w - n))%nat with w by lia.
  transitivity (take n (take w b) ++ drop n (take w b)); [by rewrite take_drop|].
  rewrite take_take, Nat.min_l by lia. done.
Qed.

(** ** The operations on the queue *)

Lemma ring_ext rb rb' r w r' w' s :
  ring rb r w s → read_index rb' = Z.of_nat r' → write_index rb' = Z.of_nat w' →
  buffer_size rb' = buffer_size rb → length (buffer_ptr rb') = length (buffer_ptr rb) →
  (r' < s)%nat → (w' < s)%nat →
  (if Bool.eqb (read_mirror rb') (write_mirror rb') then r' <= w' else w' <= r')%nat → ring rb' r' w' s.
Proof. intros [] H1 H2 H3 H4 H5 H6 H7. split; [done|done|congruence|lia|done|done|done|done]. Qed.

Lemma wp_put_bytes rb r w s src n :
  ring rb r w s → (n <= length src)%nat → (n <= s - length (held rb r w s))%nat →
  wp (put_bytes src (Z.of_nat n)) rb (λ _ rb', holds rb' s (held rb r w s ++ take n src)).
Proof.
  intros Hg Hn Hsp. pose proof (length_pool Hg) as Hlb. pose proof (length_held Hg) as Hlh.
  pose proof Hg as [Hr Hw Hs Hp Hb Hrl Hwl Ho]. set (b := take s (buffer_ptr rb)) in *.
  unfold put_bytes. do 2 wp_step. rewrite Hs, Hw.
  assert (length (take n src) = n) as Hln by (rewrite length_take; lia).
  unfold held in *. fold b in Hlh, Hsp |- *. destruct (Z.ltb_spec (Z.of_nat n) (Z.of_nat s - Z.of_nat w)) as [Hlt|Hge].
  - wp_step. apply wp_copy_in; [done|lia|]. wp_step. exists r, (w + n)%nat.
    set (rb' := set_write _ _ _).
    assert (ring rb' r (w + n) s) as Hg'.
    { apply (ring_ext rb _ r w r (w + n) s Hg); simpl; [done| |done|apply length_splice; lia|done|lia|].
      - rewrite Hw, wrap15_id by lia. lia.
      - destruct (Bool.eqb _ _); lia. }
    split; [done|]. unfold held, rb'. simpl. rewrite take_splice by lia. fold b.
    replace (w + n)%nat with (w + length (take n src))%nat by lia.
    destruct (Bool.eqb _ _); symmetry; [apply between_put_same; lia|apply between_put_diff; lia].
  - destruct (Bool.eqb (read_mirror rb) (write_mirror rb)) eqn:Em; [|lia].
    apply Bool.eqb_prop in Em.
    replace (Z.of_nat s - Z.of_nat w) with (Z.of_nat (s - w)) by lia.
    replace (Z.of_nat n - Z.of_nat (s - w)) with (Z.of_nat (n - (s - w))) by lia.
    wp_step. apply wp_copy_in; [lia|lia|]. wp_step. change 0 with (Z.of_nat 0) at 1. rewrite Nat2Z.id.
    apply wp_copy_in; [rewrite length_drop; lia| |].
    { simpl. rewrite length_splice by (rewrite length_take; lia). lia. }
    wp_step. simpl. set (l1 := take (s - w) src). set (l2 := take (n - (s - w)) (drop (s - w) src)).
    assert (length l1 = (s - w)%nat) as Hl1 by (unfold l1; rewrite length_take; lia).
    assert (length l2 = (n - (s - w))%nat) as Hl2 by (unfold l2; rewrite length_take, length_drop; lia).
    exists r, (n - (s - w))%nat. set (rb' := set_write _ _ _).
    assert (Bool.eqb (read_mirror rb') (write_mirror rb') = false) as Em'.
    { unfold rb'. simpl. rewrite Em. by destruct (write_mirror rb). }
    split.
    + apply (ring_ext rb _ r w r (n - (s - w)) s Hg); [done| |done| |done|lia|rewrite Em'; lia].
      * simpl. rewrite wrap15_id by lia. lia.
      * simpl. rewrite length_splice; rewrite length_splice; lia.
    + unfold held. rewrite Em'. unfold rb'. cbn [buffer_ptr set_write set_buffer].
      rewrite take_splice, take_splice; rewrite ?length_splice; try lia.
      fold b. rewrite <- Hl2, between_put_wrap by lia. f_equal. unfold l1, l2.
      rewrite take_take_drop. f_equal. lia.
Qed.

Lemma set_buffer_id rb : set_buffer (buffer_ptr rb) rb = rb.
Proof. by destruct rb. Qed.

Lemma wp_get_bytes rb r w s n :
  ring rb r w s → (n <= length (held rb r w s))%nat → held rb r w s ≠ [] →
  wp (rt_ringbuffer_get (Z.of_nat n)) rb (λ '(z, l) rb', z = Z.of_nat n ∧
    l = take n (held rb r w s) ∧ holds rb' s (drop n (held rb r w s))).
Proof.
  intros Hg Hn Hne. pose proof (length_pool Hg) as Hlb. pose proof (length_held Hg) as Hlh.
  pose proof (data_len_held Hg) as Hd. pose proof Hg as [Hr Hw Hs Hp Hb Hrl Hwl Ho].
  unfold rt_ringbuffer_get. do 2 wp_step. rewrite Hd.
  destruct (Z.eqb_spec (Z.of_nat (length (held rb r w s))) 0) as [E|_].
  { destruct (held rb r w s); [done|]. simpl in E. lia. }
  rewrite (proj2 (Z.ltb_ge (Z.of_nat (length (held rb r w s))) (Z.of_nat n))) by lia.
  rewrite Hs, Hr. unfold held in *.
  assert (∀ i k, (i + k <= s)%nat → take k (drop i (buffer_ptr rb)) = take k (drop i (take s (buffer_ptr rb)))) as Hwin.
  { intros i k Hik. rewrite !take_drop_commute, take_take. do 2 f_equal. lia. }
  set (b := take s (buffer_ptr rb)) in *.
  destruct (Z.ltb_spec (Z.of_nat n) (Z.of_nat s - Z.of_nat r)) as [Hlt|Hge].
  - wp_step. apply wp_copy_out; [lia|]. rewrite Hwin by lia. wp_step. wp_step. wp_step. split; [done|].
    assert (between (Bool.eqb (read_mirror rb) (write_mirror rb)) b r w
      = take n (drop r b) ++ between (Bool.eqb (read_mirror rb) (write_mirror rb)) b (r + n) w) as E.
    { destruct (Bool.eqb _ _); [by apply between_get_same; lia|apply between_get_diff]. }
    rewrite E. assert (length (take n (drop r b)) = n) as Hl by (rewrite length_take, length_drop; lia).
    rewrite take_app_le by lia. rewrite (take_ge (take n (drop r b))) by lia. split; [done|]. rewrite drop_app_ge by lia. rewrite Hl, Nat.sub_diag, drop_0.
    exists (r + n)%nat, w. split; [|done].
    apply (ring_ext rb _ r w (r + n) w s Hg); simpl; [|done|done|done|lia|done|].
    + rewrite Hr, wrap15_id by lia. lia.
    + destruct (Bool.eqb _ _); lia.
  - destruct (Bool.eqb (read_mirror rb) (write_mirror rb)) eqn:Em; [lia|].
    replace (Z.of_nat s - Z.of_nat r) with (Z.of_nat (s - r)) by lia.
    replace (Z.of_nat n - Z.of_nat (s - r)) with (Z.of_nat (n - (s - r))) by lia.
    wp_step. apply wp_copy_out; [lia|]. rewrite Hwin by lia. wp_step. change 0 with (Z.of_nat 0) at 1.
    apply wp_copy_out; [lia|]. rewrite Hwin by lia. wp_step. wp_step. wp_step. split; [done|].
    rewrite (take_ge (drop r b)) by (rewrite length_drop; lia). rewrite drop_0.
    set (k := (n - (s - r))%nat). rewrite (between_get_wrap b r w k) by lia. rewrite app_assoc.
    assert (length (drop r b ++ take k b) = n) as Hl by (rewrite length_app, length_drop, length_take; lia).
    rewrite take_app_le by lia. rewrite (take_ge (drop r b ++ take k b)) by lia. split; [done|]. rewrite drop_app_ge by lia. rewrite Hl, Nat.sub_diag, drop_0.
    exists k, w. set (rb' := set_read _ _ _).
    assert (Bool.eqb (read_mirror rb') (write_mirror rb') = true) as Em'.
    { unfold rb'. simpl. by destruct (read_mirror rb), (write_mirror rb). }
    split; [|unfold held; by rewrite Em'].
    apply (ring_ext rb _ r w k w s Hg); [|done|done|done|lia|done|rewrite Em'; lia].
    simpl. rewrite wrap15_id by lia. done.
Qed.

(** One byte at a time is a special case. *)
Lemma put_byte_eq rb r w s ch :
  ring rb r w s →
  put_byte ch rb = (put_bytes [ch] 1;; mret (write_index rb =? buffer_size rb - 1)) rb.
Proof.
  intros [Hr Hw Hs Hp Hb Hrl Hwl Ho]. unfold put_byte, put_bytes, copy_in, mbind, M_bind, get, modify.
  rewrite Hw, Hs. destruct (Z.eqb_spec (Z.of_nat w) (Z.of_nat s - 1)) as [E|E].
  - rewrite E, (proj2 (Z.ltb_ge 1 _)) by lia. replace (Z.of_nat s - (Z.of_nat s - 1)) with 1 by lia.
    rewrite !(proj2 (Z.leb_le _ _)); simpl; try lia. cbn. do 3 f_equal.
    rewrite (proj2 (Z.leb_le _ _)); [|rewrite length_app, length_take; simpl; rewrite length_drop; lia].
    cbn. unfold set_buffer, set_write. simpl. by rewrite drop_0.
  - rewrite (proj2 (Z.ltb_lt 1 _)) by lia. rewrite !(proj2 (Z.leb_le _ _)); simpl; try lia. done.
Qed.

Lemma getchar_eq rb r w s :
  ring rb r w s → rt_ringbuffer_getchar rb = rt_ringbuffer_get 1 rb.
Proof.
  intros Hg. pose proof (data_len_held Hg) as Hd. destruct Hg as [Hr Hw Hs Hp Hb Hrl Hwl Ho].
  unfold rt_ringbuffer_getchar, rt_ringbuffer_get, copy_out, mbind, M_bind, get, modify.
  destruct (Z.eqb_spec (rt_ringbuffer_data_len rb) 0) as [E|E]; [done|].
  rewrite (proj2 (Z.ltb_ge (rt_ringbuffer_data_len rb) 1)) by lia. rewrite Hr, Hs.
  destruct (Z.eqb_spec (Z.of_nat r) (Z.of_nat s - 1)) as [E1|E1].
  - rewrite E1, (proj2 (Z.ltb_ge 1 _)) by lia. replace (Z.of_nat s - (Z.of_nat s - 1)) with 1 by lia.
    rewrite !(proj2 (Z.leb_le _ _)); simpl; try lia. cbn.
    rewrite (proj2 (Z.leb_le _ _)) by lia. cbn. by rewrite app_nil_r.
  - rewrite (proj2 (Z.ltb_lt 1 _)) by lia. rewrite !(proj2 (Z.leb_le _ _)); simpl; try lia. done.
Qed.

Lemma status_full rb r w s :
  ring rb r w s → rt_ringbuffer_status rb = RT_RINGBUFFER_FULL ↔
    r = w ∧ Bool.eqb (read_mirror rb) (write_mirror rb) = false.
Proof.
  intros [Hr Hw _ _ _ _ _ _]. unfold rt_ringbuffer_status. rewrite Hr, Hw.
  destruct (Z.eqb_spec (Z.of_nat r) (Z.of_nat w)), (Bool.eqb _ _); naive_solver lia.
Qed.

(** A full buffer forgets its oldest byte. *)
Lemma between_force b w ch :
  (w < length b)%nat →
  between false (splice w [ch] b) (S w) (S w) = tail (between false b w w) ++ [ch] ∧
  (S w = length b → between false (splice w [ch] b) 0 0 = tail (between false b w w) ++ [ch]).
Proof.
  intros Hw. assert (tail (between false b w w) = drop (S w) b ++ take w b) as E.
  { unfold between. destruct (drop w b) as [|x d] eqn:Ed.
    - apply (f_equal length) in Ed. rewrite length_drop in Ed. simpl in Ed. lia.
    - simpl. f_equal. replace (S w) with (w + 1)%nat by lia. rewrite <- drop_drop, Ed. done. }
  rewrite E. unfold splice. simpl length. replace (w + 1)%nat with (S w) by lia. split.
  - unfold between. rewrite app_assoc, drop_app_ge by (rewrite length_app, length_take; simpl; lia).
    rewrite length_app, length_take. simpl. replace (S w - (w `min` length b + 1))%nat with 0%nat by lia.
    rewrite drop_0, take_app_le by (rewrite length_app, length_take; simpl; lia).
    rewrite (take_ge (take w b ++ [ch])) by (rewrite length_app, length_take; simpl; lia). by rewrite app_assoc.
  - intros Hl. unfold between. rewrite drop_0, take_0, app_nil_r. rewrite (drop_ge b (S w)) by lia. by rewrite app_nil_r.
Qed.

Lemma wp_putchar_force rb r w s ch :
  ring rb r w s → length (held rb r w s) = s →
  wp (rt_ringbuffer_putchar_force ch) rb (λ z rb', z = 1 ∧ holds rb' s (tail (held rb r w s) ++ [ch])).
Proof.
  intros Hg Hf. pose proof (length_pool Hg) as Hlb. pose proof (length_held Hg) as Hlh. rewrite Hf in Hlh.
  pose proof Hg as [Hr Hw Hs Hp Hb Hrl Hwl Ho].
  assert (r = w ∧ Bool.eqb (read_mirror rb) (write_mirror rb) = false) as [-> Em].
  { destruct (Bool.eqb (read_mirror rb) (write_mirror rb)); [lia|]. split; [lia|done]. }
  assert (rt_ringbuffer_status rb = RT_RINGBUFFER_FULL) as Est by by apply (status_full rb w w s Hg).
  destruct (between_force (take s (buffer_ptr rb)) w ch) as [H1 H2]; [lia|]. rewrite Hlb in H2.
  unfold rt_ringbuffer_putchar_force, put_byte. do 2 wp_step. rewrite Est. wp_step. wp_step. wp_step. wp_step.
  rewrite Hw. change 1 with (Z.of_nat 1) at 1. apply wp_copy_in; [done|lia|]. simpl.
  unfold held. rewrite Em. rewrite Hs.
  destruct (Z.eqb_spec (Z.of_nat w) (Z.of_nat s - 1)) as [E|E].
  - wp_step. wp_step. wp_step. wp_step. wp_step. wp_step. split; [done|]. exists 0%nat, 0%nat. set (rb' := set_read _ _ _).
    assert (Bool.eqb (read_mirror rb') (write_mirror rb') = false) as Em'.
    { unfold rb'. simpl. by destruct (read_mirror rb), (write_mirror rb). }
    split; [|unfold held; rewrite Em'; unfold rb'; simpl; rewrite take_splice by (simpl; lia); symmetry; apply H2; lia].
    apply (ring_ext rb _ w w 0 0 s Hg); [done|done|done| |lia|lia|rewrite Em'; lia].
    unfold rb'. simpl. apply length_splice. simpl. lia.
  - wp_step. wp_step. wp_step. wp_step. wp_step. split; [done|]. exists (S w), (S w). set (rb' := set_read _ _ _).
    assert (Bool.eqb (read_mirror rb') (write_mirror rb') = false) as Em' by done.
    split; [|unfold held; rewrite Em'; unfold rb'; simpl; rewrite take_splice by (simpl; lia); symmetry; exact H1].
    apply (ring_ext rb _ w w (S w) (S w) s Hg); [| |done| |lia|lia|rewrite Em'; lia].
    + unfold rb'. simpl. rewrite Hw, !wrap15_id by (rewrite ?wrap15_id; lia). lia.
    + unfold rb'. simpl. rewrite Hw, wrap15_id by lia. lia.
    + unfold rb'. simpl. apply length_splice. simpl. lia.
Qed.

(** * Refinement *)

Inductive rb_call :=
  | Put (l : list Z) | Get (n : nat) | Putchar (ch : Z) | Putchar_force (ch : Z) | Getchar.

(** The number of bytes moved, and the bytes read. *)
Definition rb_run (c : rb_call) : RB (Z * list Z) :=
  match c with
  | Put l => n ← rt_ringbuffer_put l (Z.of_nat (length l)); mret (n, [])
  | Get n => rt_ringbuffer_get (Z.of_nat n)
  | Putchar ch => n ← rt_ringbuffer_putchar ch; mret (n, [])
  | Putchar_force ch => n ← rt_ringbuffer_putchar_force ch; mret (n, [])
  | Getchar => rt_ringbuffer_getchar
  end.

(** A queue of at most [cap] bytes. *)
Definition queue_call (cap : nat) (q : list Z) (c : rb_call) : (Z * list Z) * list Z :=
  match c with
  | Put l => let l := take (cap - length q) l in ((Z.of_nat (length l), []), q ++ l)
  | Get n => let l := take n q in ((Z.of_nat (length l), l), drop n q)
  | Putchar ch => if (length q =? cap)%nat then ((0, []), q) else ((1, []), q ++ [ch])
  | Putchar_force ch => if (length q =? cap)%nat then ((1, []), tail q ++ [ch]) else ((1, []), q ++ [ch])
  | Getchar => let l := take 1 q in ((Z.of_nat (length l), l), drop 1 q)
  end.

Lemma wp_rb_put rb s q l :
  holds rb s q →
  wp (rt_ringbuffer_put l (Z.of_nat (length l))) rb (λ n rb',
    n = Z.of_nat (length (take (s - length q) l)) ∧ holds rb' s (q ++ take (s - length q) l)).
Proof.
  intros (r & w & Hg & ->). set (q := held rb r w s) in *.
  pose proof (held_le Hg) as Hle. fold q in Hle. pose proof (rg_bound _ _ _ _ Hg) as Hb.
  unfold rt_ringbuffer_put. do 2 wp_step. rewrite (space_len_held Hg). fold q. rewrite u16_id by lia.
  destruct (Z.eqb_spec (Z.of_nat (s - length q)) 0) as [E|E].
  { wp_step. replace (s - length q)%nat with 0%nat by lia. rewrite take_0, app_nil_r. split; [done|]. by exists r, w. }
  set (n := Nat.min (s - length q) (length l)).
  replace (if Z.of_nat (s - length q) <? Z.of_nat (length l) then _ else _) with (Z.of_nat n)
    by (destruct (Z.ltb_spec (Z.of_nat (s - length q)) (Z.of_nat (length l))); lia).
  wp_step. eapply wp_mono; [apply (wp_put_bytes rb r w s l n Hg); fold q; lia|]. intros [] rb' Hh. wp_step.
  assert (take (s - length q) l = take n l) as ->.
  { unfold n. destruct (decide (s - length q <= length l)%nat) as [|]; [by rewrite Nat.min_l by lia|].
    rewrite Nat.min_r by lia. by rewrite !take_ge by lia. }
  split; [rewrite length_take; lia|done].
Qed.

Lemma wp_rb_get rb s q n :
  holds rb s q →
  wp (rt_ringbuffer_get (Z.of_nat n)) rb (λ '(z, l) rb',
    z = Z.of_nat (length (take n q)) ∧ l = take n q ∧ holds rb' s (drop n q)).
Proof.
  intros (r & w & Hg & ->). set (q := held rb r w s) in *. pose proof (data_len_held Hg) as Hd. fold q in Hd.
  destruct (decide (q = [])) as [E|E].
  { unfold rt_ringbuffer_get. do 2 wp_step. rewrite Hd, E. simpl. wp_step. rewrite take_nil, drop_nil.
    split_and!; [done|done|]. exists r, w. split; [done|]. by fold q. }
  assert (rt_ringbuffer_get (Z.of_nat n) rb = rt_ringbuffer_get (Z.of_nat (Nat.min n (length q))) rb) as En.
  { unfold rt_ringbuffer_get, mbind, M_bind, get. rewrite Hd.
    destruct (Z.ltb_spec (Z.of_nat (length q)) (Z.of_nat n)).
    - rewrite Nat.min_r by lia. by rewrite (proj2 (Z.ltb_ge (Z.of_nat (length q)) (Z.of_nat (length q)))) by lia.
    - rewrite Nat.min_l by lia. by rewrite (proj2 (Z.ltb_ge (Z.of_nat (length q)) (Z.of_nat n))) by lia. }
  unfold wp at 1. rewrite En. change (wp (rt_ringbuffer_get (Z.of_nat (n `min` length q))) rb (λ '(z, l) rb',
    z = Z.of_nat (length (take n q)) ∧ l = take n q ∧ holds rb' s (drop n q))).
  eapply wp_mono; [apply (wp_get_bytes rb r w s _ Hg); fold q; [lia|done]|].
  intros [z l] rb' (-> & -> & Hh). fold q in Hh |- *.
  assert (take (n `min` length q) q = take n q ∧ drop (n `min` length q) q = drop n q) as [E1 E2].
  { destruct (decide (n <= length q)%nat) as [|]; [by rewrite Nat.min_l by lia|].
    rewrite Nat.min_r by lia. by rewrite !take_ge, !drop_ge by lia. }
  rewrite E1, <- E2. split_and!; [rewrite <- E1, length_take; lia|done|done].
Qed.

Lemma wp_put_byte rb r w s ch :
  ring rb r w s → (length (held rb r w s) < s)%nat →
  wp (put_byte ch) rb (λ _ rb', holds rb' s (held rb r w s ++ [ch])).
Proof.
  intros Hg Hl. unfold wp. rewrite (put_byte_eq rb r w s ch Hg).
  change (wp (put_bytes [ch] 1;; mret (write_index rb =? buffer_size rb - 1)) rb
    (λ _ rb', holds rb' s (held rb r w s ++ [ch]))).
  wp_step. eapply wp_mono; [apply (wp_put_bytes rb r w s [ch] 1 Hg); simpl; lia|]. intros [] rb' Hh. by wp_step.
Qed.

Lemma queue_call_spec rb s q c :
  holds rb s q → wp (rb_run c) rb (λ a rb', a = (queue_call s q c).1 ∧ holds rb' s (queue_call s q c).2).
Proof.
  intros Hh. pose proof Hh as (r & w & Hg & Eq). pose proof (held_le Hg) as Hle. rewrite <- Eq in Hle.
  destruct c as [l|n|ch|ch|]; simpl.
  - wp_step. eapply wp_mono; [by apply (wp_rb_put rb s q l)|]. intros n rb' [-> Hh']. by wp_step.
  - eapply wp_mono; [by apply (wp_rb_get rb s q n)|]. by intros [z l] rb' (-> & -> & ?).
  - wp_step. unfold rt_ringbuffer_putchar. do 2 wp_step. rewrite (space_len_held Hg), <- Eq.
    destruct (Nat.eqb_spec (length q) s) as [E|E].
    + rewrite (proj2 (Z.eqb_eq _ _)) by lia. by do 2 wp_step.
    + rewrite (proj2 (Z.eqb_neq _ _)) by lia. wp_step.
      eapply wp_mono; [apply (wp_put_byte rb r w s ch Hg); rewrite <- Eq; lia|]. intros b rb' Hh'.
      rewrite <- Eq in Hh'. by do 2 wp_step.
  - wp_step. destruct (Nat.eqb_spec (length q) s) as [E|E].
    + eapply wp_mono; [apply (wp_putchar_force rb r w s ch Hg); by rewrite <- Eq|]. intros z rb' [-> Hh'].
      rewrite <- Eq in Hh'. by wp_step.
    + unfold rt_ringbuffer_putchar_force. do 3 wp_step.
      eapply wp_mono; [apply (wp_put_byte rb r w s ch Hg); rewrite <- Eq; lia|]. intros b rb' Hh'.
      rewrite <- Eq in Hh'. destruct (rt_ringbuffer_status rb) eqn:Est; [by do 2 wp_step| |by do 2 wp_step].
      exfalso. apply (status_full rb r w s Hg) in Est as [-> Em]. apply E. rewrite Eq, (length_held Hg), Em.
      pose proof (rg_write_lt _ _ _ _ Hg). lia.
  - unfold wp. rewrite (getchar_eq rb r w s Hg).
    change (wp (rt_ringbuffer_get (Z.of_nat 1)) rb (λ a rb', a = (Z.of_nat (length (take 1 q)), take 1 q) ∧ holds rb' s (drop 1 q))).
    eapply wp_mono; [by apply (wp_rb_get rb s q 1)|]. by intros [z l] rb' (-> & -> & ?).
Qed.

Fixpoint rb_runs (cs : list rb_call) : RB (list (Z * list Z)) :=
  match cs with
  | [] => mret []
  | c :: cs => a ← rb_run c; l ← rb_runs cs; mret (a :: l)
  end.
Fixpoint queue_calls (cap : nat) (q : list Z) (cs : list rb_call) : list (Z * list Z) * list Z :=
  match cs with
  | [] => ([], q)
  | c :: cs => let '(a, q) := queue_call cap q c in
               let '(l, q) := queue_calls cap q cs in (a :: l, q)
  end.

(** C37: a ring buffer is a queue of bounded length: any sequence of calls that put and get
    blocks or single bytes, the forced single byte too, moves as many bytes and delivers the
    same ones as the queue does; nothing is read or written outside the pool. *)
Theorem ringbuffer_refines cs : ∀ rb cap q,
  holds rb cap q →
  wp (rb_runs cs) rb (λ l rb', l = (queue_calls cap q cs).1 ∧ holds rb' cap (queue_calls cap q cs).2).
Proof.
  induction cs as [|c cs IH]; intros rb cap q Hh; cbn [rb_runs queue_calls]; [by wp_step|].
  wp_step. eapply wp_mono; [by apply (queue_call_spec rb cap q c)|]. intros a rb1 [-> H1].
  destruct (queue_call cap q c) as [a q1]. simpl in *. wp_step.
  eapply wp_mono; [by apply (IH rb1 cap q1)|]. intros l rb2 [-> H2].
  destruct (queue_calls cap q1 cs) as [l q2]. simpl in *. by wp_step.
Qed.

(** * The forced block

    [rt_ringbuffer_put_force] of a block that does not fit. *)

(** A block that does not fit but is shorter than the buffer: as many bytes as the buffer has
    are copied from the caller, who has fewer. *)
Theorem put_force_overreads rb cap q l :
  holds rb cap q → (cap - length q < length l < cap)%nat →
  rt_ringbuffer_put_force l (Z.of_nat (length l)) rb = Err F_pointer.
Proof.
  intros (r & w & Hg & Eq) Hl. pose proof (space_len_held Hg) as Hs. rewrite <- Eq in Hs.
  destruct Hg as [Hr Hw Hsz Hp Hb Hrl Hwl Ho].
  unfold rt_ringbuffer_put_force, put_bytes, mbind, M_bind, get. rewrite Hs, Hsz, Hw, !u16_id by lia.
  rewrite (proj2 (Z.ltb_lt (Z.of_nat (cap - length q)) (Z.of_nat (length l)))) by lia.
  rewrite (proj2 (Z.ltb_ge (Z.of_nat cap) (Z.of_nat cap - Z.of_nat w))) by lia.
  unfold copy_in, mbind, M_bind, get. destruct ((0 <=? Z.of_nat w) && _ && _ && _) eqn:E; [|done]. cbn.
  apply andb_true_iff in E as [[_ E%Z.leb_le]%andb_true_iff _].
  rewrite (proj2 (Z.leb_gt (Z.of_nat cap - (Z.of_nat cap - Z.of_nat w)) (Z.of_nat (length (drop _ l)))));
    [|rewrite length_drop; lia]. by rewrite andb_false_r.
Qed.

(** The forced block loses the buffer.  A block that is at least as long as the buffer,
    put by force into a buffer whose data is not wrapped, flips both mirrors: the indices and
    the mirrors are then equal, and instead of holding the newest bytes the buffer is empty. *)
Theorem put_force_empties rb r w cap l :
  ring rb r w cap → Bool.eqb (read_mirror rb) (write_mirror rb) = true → (r < w)%nat →
  (cap <= length l)%nat → Z.of_nat (length l) < 2 ^ 16 →
  wp (rt_ringbuffer_put_force l (Z.of_nat (length l))) rb (λ n rb', n = Z.of_nat cap ∧ holds rb' cap []).
Proof.
  intros Hg Em Hrw Hl Hl16. pose proof (space_len_held Hg) as Hsp. pose proof (length_held Hg) as Hlh.
  rewrite Em in Hlh. rewrite Hlh in Hsp. pose proof Hg as [Hr Hw Hs Hp Hb Hrl Hwl Ho].
  unfold rt_ringbuffer_put_force. do 2 wp_step. rewrite Hsp, Hs, Hw, !u16_id by lia.
  rewrite (proj2 (Z.ltb_lt (Z.of_nat (cap - (w - r))) (Z.of_nat (length l)))) by lia.
  rewrite (proj2 (Z.ltb_ge (Z.of_nat cap) (Z.of_nat cap - Z.of_nat w))) by lia.
  rewrite (proj2 (Z.ltb_lt (Z.of_nat (cap - (w - r))) (Z.of_nat cap))) by lia. simpl negb. cbv iota.
  wp_step. unfold put_bytes. do 2 wp_step. rewrite Hs, Hw.
  rewrite (proj2 (Z.ltb_ge (Z.of_nat cap) (Z.of_nat cap - Z.of_nat w))) by lia.
  replace (Z.of_nat cap - Z.of_nat w) with (Z.of_nat (cap - w)) by lia.
  replace (Z.of_nat cap - Z.of_nat (cap - w)) with (Z.of_nat w) by lia. rewrite Nat2Z.id.
  wp_step. apply wp_copy_in; [lia|lia|]. wp_step. change 0 with (Z.of_nat 0) at 1.
  apply wp_copy_in; [rewrite length_drop; lia| |].
  { simpl. rewrite length_splice by (rewrite length_take; lia). lia. }
  wp_step. wp_step. wp_step. wp_step. split; [done|]. exists w, w. set (rb' := set_read _ _ _).
  assert (Bool.eqb (read_mirror rb') (write_mirror rb') = true) as Em'.
  { unfold rb'. simpl. by destruct (read_mirror rb), (write_mirror rb). }
  split; [|unfold held; rewrite Em'; unfold between; by rewrite Nat.sub_diag, take_0].
  apply (ring_ext rb _ r w w w cap Hg); [| |done| |done|done|by rewrite Em'].
  - unfold rb'. simpl. by rewrite !wrap15_id by (rewrite ?wrap15_id; lia).
  - unfold rb'. simpl. by rewrite wrap15_id by lia.
  - unfold rb'. cbn [buffer_ptr set_read set_write set_buffer].
    rewrite length_splice; rewrite length_splice; rewrite ?length_take, ?length_drop; lia.
Qed.

(** * Set-up and instances *)

Lemma rt_ringbuffer_init_spec pool size rb :
  0 < size < 2 ^ 15 → size mod 4 = 0 → Z.of_nat (length pool) = size →
  wp (rt_ringbuffer_init pool size) rb (λ _ rb', holds rb' (length pool) []).
Proof.
  intros Hs Hm Hl. unfold rt_ringbuffer_init. wp_step. apply wp_assert; [apply Z.ltb_lt; lia|]. wp_step.
  assert (RT_ALIGN_DOWN size RT_ALIGN_SIZE = size) as E.
  { unfold RT_ALIGN_SIZE. rewrite RT_ALIGN_DOWN_4 by lia. pose proof (Z.div_mod size 4). lia. }
  exists 0%nat, 0%nat. split; [|done].
  split; [done|done|exact (eq_trans E (eq_sym Hl))|simpl; lia..].
Qed.

Definition ring_demo : rt_ringbuffer := mk_ringbuffer [1; 2; 3; 4; 5; 6; 7; 8] false 2 false 6 8.

Lemma ring_demo_ring : ring ring_demo 2 6 8.
Proof. split; simpl; [done|done|done|lia|lia|lia|lia|lia]. Qed.

Lemma ringbuffer_refines_witness :
  wp (rb_runs [Put [9; 10; 11; 12; 13]; Get 3; Putchar_force 14; Getchar]) ring_demo (λ l _,
    l = [(4, []); (3, [3; 4; 5]); (1, []); (1, [6])]).
Proof.
  eapply wp_mono.
  - apply (ringbuffer_refines [Put [9; 10; 11; 12; 13]; Get 3; Putchar_force 14; Getchar] ring_demo 8 [3; 4; 5; 6]).
    exists 2%nat, 6%nat. split; [exact ring_demo_ring|reflexivity].
  - intros l rb' [-> _]. reflexivity.
Defined.

Lemma put_force_empties_witness :
  wp (rt_ringbuffer_put_force [1; 2; 3; 4; 5; 6; 7; 8] 8) ring_demo (λ n rb', n = 8 ∧ holds rb' 8 []).
Proof.
  apply (put_force_empties ring_demo 2 6 8 [1; 2; 3; 4; 5; 6; 7; 8]).
  - exact ring_demo_ring.
  - reflexivity.
  - lia.
  - simpl. lia.
  - reflexivity.
Defined.
