(* ===== verification/FinshVm.v ===== *)
(** The virtual machine of the shell: [components/finsh/finsh_vm.c] and [finsh_ops.c].

    The stack has slots of 32 bits, unions of a [char], a [short] and a [long]: an operation
    of a smaller width leaves the upper bits of a slot as they were.  [char] is unsigned and
    [long] has 32 bits, as on the Cortex-M7.  The text segment and the stack are arrays of
    fixed size, and an access outside of them is a fault.  The memory that byte code reads and
    writes is a memory of bytes; the exported functions of the system are a parameter. *)

From Stdlib Require Import ZArith Lia.
From stdpp Require Import numbers base gmap list.
From S2P Require Import Prelude Bytes.
Local Open Scope Z_scope.

Definition FINSH_STACK_MAX : Z := 64.
Definition FINSH_TEXT_MAX : Z := 128.

Record vm := mk_vm {
  finsh_vm_stack : list Z;
  text_segment : list Z;
  finsh_sp : Z;
  finsh_pc : Z;
  finsh_mem : ram
}.

Notation V := (M vm).

Definition set_stack (v : list Z) (s : vm) : vm :=
  mk_vm v (text_segment s) (finsh_sp s) (finsh_pc s) (finsh_mem s).
Definition set_text (v : list Z) (s : vm) : vm :=
  mk_vm (finsh_vm_stack s) v (finsh_sp s) (finsh_pc s) (finsh_mem s).
Definition set_vm_sp (v : Z) (s : vm) : vm :=
  mk_vm (finsh_vm_stack s) (text_segment s) v (finsh_pc s) (finsh_mem s).
Definition set_vm_pc (v : Z) (s : vm) : vm :=
  mk_vm (finsh_vm_stack s) (text_segment s) (finsh_sp s) v (finsh_mem s).
Definition set_vm_mem (v : ram) (s : vm) : vm :=
  mk_vm (finsh_vm_stack s) (text_segment s) (finsh_sp s) (finsh_pc s) v.

Definition on_vm_mem {A} (m : M ram A) : V A := zoom finsh_mem set_vm_mem m.

(** An array indexed by a pointer difference. *)
Definition at_index {A} (l : list A) (i : Z) : option A :=
  if 0 <=? i then l !! Z.to_nat i else None.

Definition slot (i : Z) : V Z := s ← gets finsh_vm_stack; deref (at_index s i).
Definition put_slot (i v : Z) : V unit :=
  slot i;; modify (λ s, set_stack (<[Z.to_nat i := v]> (finsh_vm_stack s)) s).
Definition text (i : Z) : V Z := t ← gets text_segment; deref (at_index t i).

(** ** The union *)

Inductive width := BYTE | WORD | DWORD.

Definition bits (w : width) : Z := match w with BYTE => 8 | WORD => 16 | DWORD => 32 end.

(** [char_value], [short_value] and [long_value] of a slot, and storing them. *)
Definition field (w : width) (v : Z) : Z :=
  match w with BYTE => u8 v | WORD => s16 v | DWORD => s32 v end.
Definition put_field (w : width) (old v : Z) : Z := old - wrap (bits w) old + wrap (bits w) v.

(** ** The operators of C, at the width of [int] *)

Definition c_div (a b : Z) : option Z := if b =? 0 then None else Some (Z.quot a b).
Definition c_mod (a b : Z) : option Z := if b =? 0 then None else Some (Z.rem a b).
Definition c_shl (a b : Z) : option Z :=
  if (0 <=? b) && (b <? 32) then Some (Z.shiftl a b) else None.
Definition c_shr (a b : Z) : option Z :=
  if (0 <=? b) && (b <? 32) then Some (Z.shiftr a b) else None.
Definition total (f : Z → Z → Z) (a b : Z) : option Z := Some (f a b).

Definition undefined {S A} (o : option A) : M S A :=
  match o with Some a => mret a | None => fail F_undefined end.

(** * The operations *)

Definition OP_BIN (w : width) (f : Z → Z → option Z) : V unit :=
  sp ← gets finsh_sp;
  a ← slot (sp - 2);
  b ← slot (sp - 1);
  r ← undefined (f (field w a) (field w b));
  put_slot (sp - 2) (put_field w a r);;
  modify (set_vm_sp (sp - 1)).
Definition OP_BIN_BYTE := OP_BIN BYTE.
Definition OP_BIN_WORD := OP_BIN WORD.
Definition OP_BIN_DWORD := OP_BIN DWORD.

Definition OP_no_op : V unit := mret tt.
Definition OP_add_byte : V unit := OP_BIN_BYTE (total Z.add).
Definition OP_add_word : V unit := OP_BIN_WORD (total Z.add).
Definition OP_add_dword : V unit := OP_BIN_DWORD (total Z.add).
Definition OP_sub_byte : V unit := OP_BIN_BYTE (total Z.sub).
Definition OP_sub_word : V unit := OP_BIN_WORD (total Z.sub).
Definition OP_sub_dword : V unit := OP_BIN_DWORD (total Z.sub).
Definition OP_div_byte : V unit := OP_BIN_BYTE c_div.
Definition OP_div_word : V unit := OP_BIN_WORD c_div.
Definition OP_div_dword : V unit := OP_BIN_DWORD c_div.
Definition OP_mod_byte : V unit := OP_BIN_BYTE c_mod.
Definition OP_mod_word : V unit := OP_BIN_WORD c_mod.
Definition OP_mod_dword : V unit := OP_BIN_DWORD c_mod.
Definition OP_mul_byte : V unit := OP_BIN_BYTE (total Z.mul).
Definition OP_mul_word : V unit := OP_BIN_WORD (total Z.mul).
Definition OP_mul_dword : V unit := OP_BIN_DWORD (total Z.mul).
Definition OP_and_byte : V unit := OP_BIN_BYTE (total Z.land).
Definition OP_and_word : V unit := OP_BIN_WORD (total Z.land).
Definition OP_and_dword : V unit := OP_BIN_DWORD (total Z.land).
Definition OP_or_byte : V unit := OP_BIN_BYTE (total Z.lor).
Definition OP_or_word : V unit := OP_BIN_WORD (total Z.lor).
Definition OP_or_dword : V unit := OP_BIN_DWORD (total Z.lor).
Definition OP_xor_byte : V unit := OP_BIN_BYTE (total Z.lxor).
Definition OP_xor_word : V unit := OP_BIN_WORD (total Z.lxor).
Definition OP_xor_dword : V unit := OP_BIN_DWORD (total Z.lxor).

Definition OP_bw (w : width) : V unit :=
  sp ← gets finsh_sp;
  a ← slot (sp - 1);
  put_slot (sp - 1) (put_field w a (Z.lnot (field w a))).
Definition OP_bw_byte : V unit := OP_bw BYTE.
Definition OP_bw_word : V unit := OP_bw WORD.
Definition OP_bw_dword : V unit := OP_bw DWORD.
Definition OP_shl_byte : V unit := OP_BIN_BYTE c_shl.
Definition OP_shl_word : V unit := OP_BIN_WORD c_shl.
Definition OP_shl_dword : V unit := OP_BIN_DWORD c_shl.
Definition OP_shr_byte : V unit := OP_BIN_BYTE c_shr.
Definition OP_shr_word : V unit := OP_BIN_WORD c_shr.
Definition OP_shr_dword : V unit := OP_BIN_DWORD c_shr.

(** A constant of [n] bytes behind the operation, in the slot at the stack pointer. *)
Definition push (w : width) (v : Z) : V unit :=
  sp ← gets finsh_sp;
  a ← slot sp;
  put_slot sp (put_field w a v);;
  modify (set_vm_sp (sp + 1)).

Definition FINSH_GET16 (pc : Z) : V Z :=
  a ← text pc; b ← text (pc + 1); mret (Z.lor a (Z.shiftl b 8)).
Definition FINSH_GET32 (pc : Z) : V Z :=
  a ← text pc; b ← text (pc + 1); c ← text (pc + 2); d ← text (pc + 3);
  mret (Z.lor (Z.lor (Z.lor a (Z.shiftl b 8)) (Z.shiftl c 16)) (Z.shiftl d 24)).

Definition skip (n : Z) : V unit := modify (λ s, set_vm_pc (finsh_pc s + n) s).

Definition OP_ld_byte : V unit :=
  pc ← gets finsh_pc; v ← text pc; push BYTE v;; skip 1.
Definition OP_ld_word : V unit :=
  pc ← gets finsh_pc; v ← FINSH_GET16 pc; push WORD v;; skip 2.
Definition OP_ld_dword : V unit :=
  pc ← gets finsh_pc; v ← FINSH_GET32 pc; push DWORD v;; skip 4.

(** [*(char * )a], [*(short * )a] and [*(long * )a]. *)
Definition size_of (w : width) : nat := match w with BYTE => 1%nat | WORD => 2%nat | DWORD => 4%nat end.
Definition load (w : width) (a : Z) : V Z := on_vm_mem (rd_word (size_of w) (u32 a)).
Definition store_at (w : width) (a v : Z) : V unit := on_vm_mem (wr_word (size_of w) (u32 a) v).

Definition OP_ld_value (w : width) : V unit :=
  pc ← gets finsh_pc; a ← FINSH_GET32 pc; v ← load w a; push w v;; skip 4.
Definition OP_ld_value_byte : V unit := OP_ld_value BYTE.
Definition OP_ld_value_word : V unit := OP_ld_value WORD.
Definition OP_ld_value_dword : V unit := OP_ld_value DWORD.

Definition OP_ld_value_stack (w : width) : V unit :=
  sp ← gets finsh_sp;
  a ← slot (sp - 1);
  v ← load w (field DWORD a);
  put_slot (sp - 1) (put_field w a v).
Definition OP_ld_value_byte_stack : V unit := OP_ld_value_stack BYTE.
Definition OP_ld_value_word_stack : V unit := OP_ld_value_stack WORD.
Definition OP_ld_value_dword_stack : V unit := OP_ld_value_stack DWORD.

Definition OP_st (w : width) : V unit :=
  sp ← gets finsh_sp;
  a ← slot (sp - 2);
  v ← slot (sp - 1);
  store_at w (field DWORD a) (field w v);;
  modify (set_vm_sp (sp - 1)).
Definition OP_st_byte : V unit := OP_st BYTE.
Definition OP_st_word : V unit := OP_st WORD.
Definition OP_st_dword : V unit := OP_st DWORD.

Definition OP_pop : V unit := modify (λ s, set_vm_sp (finsh_sp s - 1) s).

Section Machine.

(** The exported function at an address, applied to its arguments. *)
Context (call : Z → list Z → M ram Z).

(** [while (i < parameters)]: the arguments below the stack pointer, last one first. *)
Fixpoint parameters_loop (n : nat) (sp : Z) (acc : list Z) : V (list Z * Z) :=
  match n with
  | O => mret (acc, sp)
  | S n => a ← slot sp; parameters_loop n (sp - 1) (u32 a :: acc)
  end.

Definition OP_call : V unit :=
  pc ← gets finsh_pc;
  parameters ← text pc;
  skip 1;;
  sp ← gets finsh_sp;
  (if parameters <=? 16 then mret tt else fail F_pointer);;
  '(parameterv, sp) ← parameters_loop (Z.to_nat parameters) (sp - 1) [];
  f ← slot sp;
  r ← on_vm_mem (call (u32 f) (if parameters =? 0 then [0] else parameterv));
  put_slot sp (u32 r);;
  modify (set_vm_sp (sp + 1)).

Definition op_table : list (V unit) :=
  [OP_no_op;
   OP_add_byte;
   OP_add_word;
   OP_add_dword;
   OP_sub_byte;
   OP_sub_word;
   OP_sub_dword;
   OP_div_byte;
   OP_div_word;
   OP_div_dword;
   OP_mod_byte;
   OP_mod_word;
   OP_mod_dword;
   OP_mul_byte;
   OP_mul_word;
   OP_mul_dword;
   OP_and_byte;
   OP_and_word;
   OP_and_dword;
   OP_or_byte;
   OP_or_word;
   OP_or_dword;
   OP_xor_byte;
   OP_xor_word;
   OP_xor_dword;
   OP_bw_byte;
   OP_bw_word;
   OP_bw_dword;
   OP_shl_byte;
   OP_shl_word;
   OP_shl_dword;
   OP_shr_byte;
   OP_shr_word;
   OP_shr_dword;
   OP_ld_byte;
   OP_ld_word;
   OP_ld_dword;
   OP_ld_value_byte;
   OP_ld_value_word;
   OP_ld_value_dword;
   OP_st_byte;
   OP_st_word;
   OP_st_dword;
   OP_pop;
   OP_call;
   OP_ld_value_byte_stack;
   OP_ld_value_word_stack;
   OP_ld_value_dword_stack].

(** [while (pc inside of the text segment) op_table[*pc++]()] *)
Fixpoint vm_loop (fuel : nat) : V unit :=
  pc ← gets finsh_pc;
  if (0 <=? pc) && (pc <? FINSH_TEXT_MAX) then
    match fuel with
    | O => fail F_fuel
    | S fuel =>
        op ← text pc;
        skip 1;;
        f ← deref (at_index op_table op);
        f;;
        vm_loop fuel
    end
  else mret tt.

Definition finsh_vm_run : V unit :=
  modify (set_vm_sp 0);;
  modify (set_vm_pc 0);;
  vm_loop (Z.to_nat FINSH_TEXT_MAX).

End Machine.

Definition finsh_stack_bottom : V Z := v ← slot 0; mret (field DWORD v).
