(* ===== verification/FinshData.v ===== *)
(** The data of the shell's expression interpreter: nodes, variables, exported symbols and the
    heap of strings: [components/finsh/finsh.h], [finsh_node.c], [finsh_var.c], [finsh_heap.c],
    [finsh_error.c], and the lookup of [finsh_vm.c].

    Pointers to nodes and variables are indices into their tables.  The values of variables,
    exported variables and the heap of strings are in the memory of the virtual machine, at
    the addresses that the linker gave them ([global_variable_at], [finsh_heap_at]).  Strings are lists of
    characters without the final zero; the byte behind an identifier of 16 characters, which
    the code leaves uninitialised, is taken to be zero. *)

From Stdlib Require Import ZArith Lia.
From stdpp Require Import numbers base gmap list.
From S2P Require Import Prelude Bytes FinshVm.
Local Open Scope Z_scope.

Definition FINSH_NAME_MAX : nat := 16.
Definition FINSH_NODE_MAX : nat := 16.
Definition FINSH_HEAP_MAX : Z := 128.
Definition FINSH_STRING_MAX : nat := 128.
Definition FINSH_VARIABLE_MAX : nat := 8.

Definition FINSH_ERROR_OK : Z := 0.
Definition FINSH_ERROR_INVALID_TOKEN : Z := 1.
Definition FINSH_ERROR_EXPECT_TYPE : Z := 2.
Definition FINSH_ERROR_UNKNOWN_TYPE : Z := 3.
Definition FINSH_ERROR_VARIABLE_EXIST : Z := 4.
Definition FINSH_ERROR_EXPECT_OPERATOR : Z := 5.
Definition FINSH_ERROR_MEMORY_FULL : Z := 6.
Definition FINSH_ERROR_UNKNOWN_NODE : Z := 8.
Definition FINSH_ERROR_EXPECT_CHAR : Z := 9.
Definition FINSH_ERROR_UNEXPECT_END : Z := 10.
Definition FINSH_ERROR_UNKNOWN_TOKEN : Z := 11.
Definition FINSH_ERROR_UNKNOWN_SYMBOL : Z := 13.
Definition FINSH_ERROR_NULL_NODE : Z := 14.

Definition FINSH_NODE_UNKNOWN : Z := 0.
Definition FINSH_NODE_ID : Z := 1.
Definition FINSH_NODE_VALUE_CHAR : Z := 2.
Definition FINSH_NODE_VALUE_INT : Z := 3.
Definition FINSH_NODE_VALUE_LONG : Z := 4.
Definition FINSH_NODE_VALUE_STRING : Z := 5.
Definition FINSH_NODE_VALUE_NULL : Z := 6.
Definition FINSH_NODE_SYS_ADD : Z := 7.
Definition FINSH_NODE_SYS_SUB : Z := 8.
Definition FINSH_NODE_SYS_MUL : Z := 9.
Definition FINSH_NODE_SYS_DIV : Z := 10.
Definition FINSH_NODE_SYS_MOD : Z := 11.
Definition FINSH_NODE_SYS_AND : Z := 12.
Definition FINSH_NODE_SYS_OR : Z := 13.
Definition FINSH_NODE_SYS_XOR : Z := 14.
Definition FINSH_NODE_SYS_BITWISE : Z := 15.
Definition FINSH_NODE_SYS_SHL : Z := 16.
Definition FINSH_NODE_SYS_SHR : Z := 17.
Definition FINSH_NODE_SYS_FUNC : Z := 18.
Definition FINSH_NODE_SYS_ASSIGN : Z := 19.
Definition FINSH_NODE_SYS_PREINC : Z := 21.
Definition FINSH_NODE_SYS_PREDEC : Z := 22.
Definition FINSH_NODE_SYS_INC : Z := 23.
Definition FINSH_NODE_SYS_DEC : Z := 24.
Definition FINSH_NODE_SYS_GETVALUE : Z := 25.
Definition FINSH_NODE_SYS_GETADDR : Z := 26.
Definition FINSH_NODE_SYS_NULL : Z := 27.

Definition FINSH_DATA_TYPE_VOID : Z := 0.
Definition FINSH_DATA_TYPE_BYTE : Z := 1.
Definition FINSH_DATA_TYPE_WORD : Z := 2.
Definition FINSH_DATA_TYPE_DWORD : Z := 3.
Definition FINSH_NODE_VALUE : Z := 0.

Definition FINSH_IDTYPE_VAR : Z := 1.
Definition FINSH_IDTYPE_SYSVAR : Z := 2.
Definition FINSH_IDTYPE_SYSCALL : Z := 4.
Definition FINSH_IDTYPE_ADDRESS : Z := 8.

Definition finsh_type_unknown : Z := 0.
Definition finsh_type_void : Z := 1.
Definition finsh_type_voidp : Z := 2.
Definition finsh_type_char : Z := 3.
Definition finsh_type_uchar : Z := 4.
Definition finsh_type_charp : Z := 5.
Definition finsh_type_short : Z := 6.
Definition finsh_type_ushort : Z := 7.
Definition finsh_type_shortp : Z := 8.
Definition finsh_type_int : Z := 9.
Definition finsh_type_uint : Z := 10.
Definition finsh_type_intp : Z := 11.
Definition finsh_type_long : Z := 12.
Definition finsh_type_ulong : Z := 13.
Definition finsh_type_longp : Z := 14.

(** ** Structures *)

(** The address of the entry itself, its name and its fields. *)
Record finsh_syscall := mk_syscall { syscall_at : Z; syscall_name : list Z; syscall_func : Z }.
Record finsh_sysvar := mk_sysvar { sysvar_at : Z; sysvar_name : list Z; sysvar_type : Z; sysvar_var : Z }.
Record finsh_var := mk_var { var_name : list Z; var_type : Z }.

(** The union [id] of a node. *)
Inductive ident := No_id | Id_var (i : nat) | Id_sysvar (v : finsh_sysvar) | Id_syscall (f : finsh_syscall).

Record finsh_node := mk_node {
  node_type : Z;
  data_type : Z;
  idtype : Z;
  value : Z;
  id : ident;
  sibling : option nat;
  child : option nat
}.

Definition set_node_type (v : Z) (n : finsh_node) : finsh_node :=
  mk_node v (data_type n) (idtype n) (value n) (id n) (sibling n) (child n).
Definition set_data_type (v : Z) (n : finsh_node) : finsh_node :=
  mk_node (node_type n) v (idtype n) (value n) (id n) (sibling n) (child n).
Definition set_idtype (v : Z) (n : finsh_node) : finsh_node :=
  mk_node (node_type n) (data_type n) v (value n) (id n) (sibling n) (child n).
Definition set_value (v : Z) (n : finsh_node) : finsh_node :=
  mk_node (node_type n) (data_type n) (idtype n) v (id n) (sibling n) (child n).
Definition set_id (v : ident) (n : finsh_node) : finsh_node :=
  mk_node (node_type n) (data_type n) (idtype n) (value n) v (sibling n) (child n).
Definition set_sibling (v : option nat) (n : finsh_node) : finsh_node :=
  mk_node (node_type n) (data_type n) (idtype n) (value n) (id n) v (child n).
Definition set_child (v : option nat) (n : finsh_node) : finsh_node :=
  mk_node (node_type n) (data_type n) (idtype n) (value n) (id n) (sibling n) v.

Definition zero_node : finsh_node := mk_node 0 0 0 0 No_id None None.
Definition zero_var : finsh_var := mk_var [] 0.

Inductive finsh_token_type :=
  | token_type_none
  | finsh_token_type_left_paren | finsh_token_type_right_paren | finsh_token_type_comma
  | finsh_token_type_semicolon | finsh_token_type_mul | finsh_token_type_add | finsh_token_type_inc
  | finsh_token_type_sub | finsh_token_type_dec | finsh_token_type_div | finsh_token_type_mod
  | finsh_token_type_assign | finsh_token_type_and | finsh_token_type_or | finsh_token_type_xor
  | finsh_token_type_bitwise | finsh_token_type_shl | finsh_token_type_shr
  | finsh_token_type_comments
  | finsh_token_type_void | finsh_token_type_char | finsh_token_type_short | finsh_token_type_int
  | finsh_token_type_long | finsh_token_type_unsigned
  | finsh_token_type_value_char | finsh_token_type_value_int | finsh_token_type_value_long
  | finsh_token_type_value_string | finsh_token_type_value_null
  | finsh_token_type_identifier | finsh_token_type_bad | finsh_token_type_eof.

#[export] Instance token_type_eq_dec : EqDecision finsh_token_type.
Proof. solve_decision. Defined.

Record finsh_token := mk_token {
  eof : bool;
  replay : bool;
  position : nat;
  current_token : finsh_token_type;
  token_value : Z;
  string : list Z;
  line : list Z
}.

(** The variables of all files. *)
Record finsh := mk_finsh {
  global_node_table : list finsh_node;
  global_variable : list finsh_var;
  global_errno : Z;
  free_list : Z;
  allocate_list : Z;
  syscall_table : list finsh_syscall;
  global_syscall_list : list finsh_syscall;
  sysvar_table : list finsh_sysvar;
  global_sysvar_list : list finsh_sysvar;
  finsh_compile_pc : Z;
  machine : vm;
  token : finsh_token;
  root : option nat
}.

Notation F := (M finsh).

Definition set_nodes (v : list finsh_node) (s : finsh) : finsh :=
  mk_finsh v (global_variable s) (global_errno s) (free_list s) (allocate_list s) (syscall_table s) (global_syscall_list s) (sysvar_table s) (global_sysvar_list s) (finsh_compile_pc s) (machine s) (token s) (root s).
Definition set_variables (v : list finsh_var) (s : finsh) : finsh :=
  mk_finsh (global_node_table s) v (global_errno s) (free_list s) (allocate_list s) (syscall_table s) (global_syscall_list s) (sysvar_table s) (global_sysvar_list s) (finsh_compile_pc s) (machine s) (token s) (root s).
Definition set_errno (v : Z) (s : finsh) : finsh :=
  mk_finsh (global_node_table s) (global_variable s) v (free_list s) (allocate_list s) (syscall_table s) (global_syscall_list s) (sysvar_table s) (global_sysvar_list s) (finsh_compile_pc s) (machine s) (token s) (root s).
Definition set_free_list (v : Z) (s : finsh) : finsh :=
  mk_finsh (global_node_table s) (global_variable s) (global_errno s) v (allocate_list s) (syscall_table s) (global_syscall_list s) (sysvar_table s) (global_sysvar_list s) (finsh_compile_pc s) (machine s) (token s) (root s).
Definition set_allocate_list (v : Z) (s : finsh) : finsh :=
  mk_finsh (global_node_table s) (global_variable s) (global_errno s) (free_list s) v (syscall_table s) (global_syscall_list s) (sysvar_table s) (global_sysvar_list s) (finsh_compile_pc s) (machine s) (token s) (root s).
Definition set_compile_pc (v : Z) (s : finsh) : finsh :=
  mk_finsh (global_node_table s) (global_variable s) (global_errno s) (free_list s) (allocate_list s) (syscall_table s) (global_syscall_list s) (sysvar_table s) (global_sysvar_list s) v (machine s) (token s) (root s).
Definition set_machine (v : vm) (s : finsh) : finsh :=
  mk_finsh (global_node_table s) (global_variable s) (global_errno s) (free_list s) (allocate_list s) (syscall_table s) (global_syscall_list s) (sysvar_table s) (global_sysvar_list s) (finsh_compile_pc s) v (token s) (root s).
Definition set_token (v : finsh_token) (s : finsh) : finsh :=
  mk_finsh (global_node_table s) (global_variable s) (global_errno s) (free_list s) (allocate_list s) (syscall_table s) (global_syscall_list s) (sysvar_table s) (global_sysvar_list s) (finsh_compile_pc s) (machine s) v (root s).
Definition set_root (v : option nat) (s : finsh) : finsh :=
  mk_finsh (global_node_table s) (global_variable s) (global_errno s) (free_list s) (allocate_list s) (syscall_table s) (global_syscall_list s) (sysvar_table s) (global_sysvar_list s) (finsh_compile_pc s) (machine s) (token s) v.

Definition on_machine {A} (m : M vm A) : F A := zoom machine set_machine m.
Definition on_memory {A} (m : M ram A) : F A := on_machine (on_vm_mem m).

(** [finsh_error.c] *)
Definition finsh_error_init : F unit := modify (set_errno FINSH_ERROR_OK).
Definition finsh_error_set (type : Z) : F unit := modify (set_errno (u8 type)).
Definition finsh_errno : F Z := gets global_errno.

(** * Nodes *)

Definition get_node (p : nat) : F finsh_node := t ← gets global_node_table; deref (t !! p).
Definition upd_node (p : nat) (f : finsh_node → finsh_node) : F unit :=
  n ← get_node p; modify (λ s, set_nodes (<[p := f n]> (global_node_table s)) s).

Definition finsh_node_init : F unit := modify (set_nodes (replicate FINSH_NODE_MAX zero_node)).

Definition finsh_node_allocate (type : Z) : F (option nat) :=
  t ← gets global_node_table;
  match list_find (λ n, node_type n = FINSH_NODE_UNKNOWN) t with
  | Some (i, _) => upd_node i (set_node_type type);; mret (Some i)
  | None => mret None
  end.

(** A node of the type, filled in, or the error. *)
Definition new_node (type : Z) (f : finsh_node → finsh_node) : F (option nat) :=
  node ← finsh_node_allocate type;
  match node with
  | Some i => upd_node i f;; mret (Some i)
  | None => finsh_error_set FINSH_ERROR_MEMORY_FULL;; mret None
  end.

Definition finsh_node_new_char (c : Z) : F (option nat) :=
  new_node FINSH_NODE_VALUE_CHAR (λ n, set_value (put_field BYTE (value n) c) n).
Definition finsh_node_new_int (i : Z) : F (option nat) :=
  new_node FINSH_NODE_VALUE_INT (set_value (u32 i)).
Definition finsh_node_new_long (l : Z) : F (option nat) :=
  new_node FINSH_NODE_VALUE_LONG (set_value (u32 l)).
Definition finsh_node_new_ptr (ptr : Z) : F (option nat) :=
  new_node FINSH_NODE_VALUE_NULL (set_value (u32 ptr)).

(** * Variables *)

(** [strncmp(a, b, n) == 0] of strings *)
Definition same_prefix (n : nat) (a b : list Z) : bool := bool_decide (take n a = take n b).

Section Symbols.

(** The address of [global_variable]; an entry has 24 bytes, the union is at offset 20. *)
Context (global_variable_at : Z).

Definition var_at (i : nat) : Z := global_variable_at + 24 * Z.of_nat i.

Definition value_at (i : nat) : Z := var_at i + 20.

(** [memset] of an entry. *)
Definition clear_var (i : nat) : F unit :=
  modify (λ s, set_variables (<[i := zero_var]> (global_variable s)) s);;
  on_memory (wr32 (value_at i) 0).
Fixpoint clear_vars (n : nat) : F unit :=
  match n with O => mret tt | S n => clear_vars n;; clear_var n end.

Definition finsh_var_init : F unit := clear_vars FINSH_VARIABLE_MAX.

(** [None] for -1. *)
Definition finsh_var_insert (name : list Z) (type : Z) : F (option nat) :=
  t ← gets global_variable;
  if existsb (λ x, same_prefix FINSH_NAME_MAX (var_name x) name) t then mret None
  else
    match list_find (λ x, var_type x = finsh_type_unknown) t with
    | None => mret None
    | Some (empty, _) =>
        modify (λ s, set_variables (<[empty := mk_var (take FINSH_NAME_MAX name) (u8 type)]> t) s);;
        mret (Some empty)
    end.

Definition find_var (name : list Z) : F (option nat) :=
  t ← gets global_variable;
  mret (fst <$> list_find (λ x, same_prefix FINSH_NAME_MAX (var_name x) name = true) t).

Definition finsh_var_delete (name : list Z) : F (option unit) :=
  i ← find_var name;
  match i with
  | None => mret None
  | Some i => clear_var i;; mret (Some tt)
  end.

Definition finsh_var_lookup (name : list Z) : F (option nat) := find_var name.

Definition finsh_sysvar_lookup (name : list Z) : F (option finsh_sysvar) :=
  table ← gets sysvar_table;
  dynamic ← gets global_sysvar_list;
  mret (match list_find (λ v, sysvar_name v = name) table with
        | Some (_, v) => Some v
        | None =>
            snd <$> list_find (λ v, same_prefix (length name) (sysvar_name v) name = true) dynamic
        end).

Definition finsh_syscall_lookup (name : list Z) : F (option finsh_syscall) :=
  table ← gets syscall_table;
  dynamic ← gets global_syscall_list;
  mret (match list_find (λ f, syscall_name f = name) table with
        | Some (_, f) => Some f
        | None =>
            snd <$> list_find (λ f, same_prefix (length name) (syscall_name f) name = true) dynamic
        end).

(** The symbol that a name designates and the kind of the identifier. *)
Definition find_symbol (name : list Z) : F (option (ident * Z)) :=
  v ← finsh_var_lookup name;
  match v with
  | Some i => mret (Some (Id_var i, FINSH_IDTYPE_VAR))
  | None =>
      v ← finsh_sysvar_lookup name;
      match v with
      | Some v => mret (Some (Id_sysvar v, FINSH_IDTYPE_SYSVAR))
      | None =>
          f ← finsh_syscall_lookup name;
          mret ((λ f, (Id_syscall f, FINSH_IDTYPE_SYSCALL)) <$> f)
      end
  end.

Definition finsh_node_new_id (name : list Z) : F (option nat) :=
  symbol ← find_symbol name;
  match symbol with
  | Some (x, type) => new_node FINSH_NODE_ID (λ n, set_idtype type (set_id x n))
  | None => finsh_error_set FINSH_ERROR_UNKNOWN_SYMBOL;; mret None
  end.

(** * The heap of strings

    A block has a header of two words, its length and the next block of its list. *)

Context (finsh_heap_at : Z).

Definition sizeof_block_header : Z := 8.
Definition block_length (b : Z) : F Z := on_memory (rd32 b).
Definition block_next (b : Z) : F Z := on_memory (rd32 (b + 4)).
Definition set_block_length (b v : Z) : F unit := on_memory (wr32 b (u32 v)).
Definition set_block_next (b v : Z) : F unit := on_memory (wr32 (b + 4) (u32 v)).

(** The two lists, by their heads. *)
Inductive block_list := Free_list | Allocate_list.
Definition list_head (l : block_list) : F Z :=
  match l with Free_list => gets free_list | Allocate_list => gets allocate_list end.
Definition set_list_head (l : block_list) (v : Z) : F unit :=
  match l with Free_list => modify (set_free_list v) | Allocate_list => modify (set_allocate_list v) end.

Definition HEAP_ALIGN_SIZE (size : Z) : Z := Z.land (u32 (size + 4 - 1)) (u32 (Z.lnot 3)).

(** At most one block for every header that fits into the heap. *)
Definition heap_fuel : nat := S (Z.to_nat (FINSH_HEAP_MAX / sizeof_block_header)).

Fixpoint zero_bytes (n : nat) (a : Z) : M ram unit :=
  match n with O => mret tt | S n => wr8 a 0;; zero_bytes n (a + 1) end.

Definition finsh_heap_init : F unit :=
  on_memory (zero_bytes (Z.to_nat FINSH_HEAP_MAX) finsh_heap_at);;
  modify (set_free_list finsh_heap_at);;
  set_block_length finsh_heap_at (FINSH_HEAP_MAX - sizeof_block_header);;
  set_block_next finsh_heap_at 0;;
  modify (set_allocate_list 0).

(** The last block in front of [header]. *)
Fixpoint insert_point (fuel : nat) (node header : Z) : F Z :=
  match fuel with
  | O => fail F_fuel
  | S fuel =>
      next ← block_next node;
      if (header <? next) || (next =? 0) then mret node else insert_point fuel next header
  end.

Definition finsh_block_insert (l : block_list) (header : Z) : F unit :=
  node ← list_head l;
  if node =? 0 then set_list_head l header
  else if header <? node then set_block_next header node;; set_list_head l header
  else
    node ← insert_point heap_fuel node header;
    next ← block_next node;
    (if next =? 0 then mret tt else set_block_next header next);;
    set_block_next node header.

(** The block in front of [header] on its list, or 0. *)
Fixpoint block_before (fuel : nat) (node header : Z) : F Z :=
  match fuel with
  | O => fail F_fuel
  | S fuel =>
      if node =? 0 then mret 0
      else
        next ← block_next node;
        if next =? header then mret node else block_before fuel next header
  end.

Definition finsh_block_remove (l : block_list) (header : Z) : F unit :=
  node ← list_head l;
  if node =? header then
    next ← block_next header; set_list_head l next;; set_block_next header 0
  else
    node ← block_before heap_fuel node header;
    if node =? 0 then mret tt
    else next ← block_next header; set_block_next node next.

Definition finsh_block_split (header size : Z) : F unit :=
  let next := header + sizeof_block_header + size in
  len ← block_length header;
  set_block_length next (len - sizeof_block_header - size);;
  set_block_length header size;;
  n ← block_next header;
  set_block_next next n;;
  set_block_next header next.

Definition finsh_block_merge (l : block_list) (header : Z) : F unit :=
  next_node ← block_next header;
  first ← list_head l;
  prev_node ← (if first =? header then mret 0 else block_before heap_fuel first header);
  len ← block_length header;
  let closes := negb (next_node =? 0) && (header + len + sizeof_block_header =? next_node) in
  prev_len ← (if prev_node =? 0 then mret 0 else block_length prev_node);
  if negb (prev_node =? 0) && (prev_node + prev_len + sizeof_block_header =? header) then
    if closes then
      next_len ← block_length next_node;
      set_block_length prev_node (prev_len + len + next_len + 2 * sizeof_block_header);;
      n ← block_next next_node; set_block_next prev_node n
    else
      set_block_length prev_node (prev_len + len + sizeof_block_header);;
      n ← block_next header; set_block_next prev_node n
  else if closes then
    next_len ← block_length next_node;
    set_block_length header (len + next_len + sizeof_block_header);;
    n ← block_next next_node; set_block_next header n
  else mret tt.

Definition finsh_heap_free (ptr : Z) : F unit :=
  let header := ptr - sizeof_block_header in
  finsh_block_remove Allocate_list header;;
  finsh_block_insert Free_list header;;
  finsh_block_merge Free_list header.

(** Does a variable hold the address? *)
Fixpoint is_referenced (n : nat) (data : Z) : F bool :=
  match n with
  | O => mret false
  | S n =>
      t ← gets global_variable;
      x ← deref (t !! n);
      v ← on_memory (rd32 (value_at n));
      if negb (var_type x =? finsh_type_unknown) && (v =? data) then mret true
      else is_referenced n data
  end.

Fixpoint gc_loop (fuel : nat) (header : Z) : F unit :=
  if header =? 0 then mret tt
  else
    match fuel with
    | O => fail F_fuel
    | S fuel =>
        used ← is_referenced FINSH_VARIABLE_MAX (header + sizeof_block_header);
        next ← block_next header;
        (if (used : bool) then mret tt else finsh_heap_free (header + sizeof_block_header));;
        gc_loop fuel next
    end.
Definition finsh_heap_gc : F unit := header ← gets allocate_list; gc_loop heap_fuel header.

(** The first block whose length is large enough, 0 for none. *)
Fixpoint first_fit (fuel : nat) (enough : Z → bool) (header : Z) : F Z :=
  if header =? 0 then mret 0
  else
    match fuel with
    | O => fail F_fuel
    | S fuel =>
        len ← block_length header;
        if enough len then mret header
        else next ← block_next header; first_fit fuel enough next
    end.

Definition finsh_heap_allocate (size : Z) : F Z :=
  let size := HEAP_ALIGN_SIZE size in
  first ← gets free_list;
  header ← first_fit heap_fuel (λ len, size + sizeof_block_header <? len) first;
  header ←
    (if header =? 0 then
       finsh_heap_gc;;
       first ← gets free_list;
       first_fit heap_fuel (λ len, size + sizeof_block_header <=? len) first
     else mret header);
  if header =? 0 then mret 0
  else
    finsh_block_split header size;;
    finsh_block_remove Free_list header;;
    set_block_next header 0;;
    finsh_block_insert Allocate_list header;;
    on_memory (zero_bytes (Z.to_nat size) (header + sizeof_block_header));;
    mret (header + sizeof_block_header).

Fixpoint write_string (a : Z) (s : list Z) : M ram unit :=
  match s with [] => wr8 a 0 | c :: s => wr8 a c;; write_string (a + 1) s end.

Definition finsh_node_new_string (s : list Z) : F (option nat) :=
  node ← finsh_node_allocate FINSH_NODE_VALUE_STRING;
  match node with
  | None => finsh_error_set FINSH_ERROR_MEMORY_FULL;; mret None
  | Some i =>
      ptr ← finsh_heap_allocate (Z.of_nat (length s) + 1);
      upd_node i (set_value (u32 ptr));;
      on_memory (write_string ptr s);;
      mret (Some i)
  end.

End Symbols.
