(* ===== verification/FinshCompile.v ===== *)
(** The compiler of the shell, [components/finsh/finsh_compiler.c]: from a tree of nodes to
    byte code in the text segment.

    The text segment has 128 bytes and the compiler does not check its end: a write behind it
    is a fault.  The recursion over the tree is bounded by the size of the node table. *)

From Stdlib Require Import ZArith Lia.
From stdpp Require Import numbers base gmap list.
From S2P Require Import Prelude Bytes FinshVm FinshData.
Local Open Scope Z_scope.

Definition FINSH_OP_NOOP : Z := 0.
Definition FINSH_OP_ADD_BYTE : Z := 1.
Definition FINSH_OP_ADD_WORD : Z := 2.
Definition FINSH_OP_ADD_DWORD : Z := 3.
Definition FINSH_OP_SUB_BYTE : Z := 4.
Definition FINSH_OP_SUB_WORD : Z := 5.
Definition FINSH_OP_SUB_DWORD : Z := 6.
Definition FINSH_OP_DIV_BYTE : Z := 7.
Definition FINSH_OP_DIV_WORD : Z := 8.
Definition FINSH_OP_DIV_DWORD : Z := 9.
Definition FINSH_OP_MOD_BYTE : Z := 10.
Definition FINSH_OP_MOD_WORD : Z := 11.
Definition FINSH_OP_MOD_DWORD : Z := 12.
Definition FINSH_OP_MUL_BYTE : Z := 13.
Definition FINSH_OP_MUL_WORD : Z := 14.
Definition FINSH_OP_MUL_DWORD : Z := 15.
Definition FINSH_OP_AND_BYTE : Z := 16.
Definition FINSH_OP_AND_WORD : Z := 17.
Definition FINSH_OP_AND_DWORD : Z := 18.
Definition FINSH_OP_OR_BYTE : Z := 19.
Definition FINSH_OP_OR_WORD : Z := 20.
Definition FINSH_OP_OR_DWORD : Z := 21.
Definition FINSH_OP_XOR_BYTE : Z := 22.
Definition FINSH_OP_XOR_WORD : Z := 23.
Definition FINSH_OP_XOR_DWORD : Z := 24.
Definition FINSH_OP_BITWISE_BYTE : Z := 25.
Definition FINSH_OP_BITWISE_WORD : Z := 26.
Definition FINSH_OP_BITWISE_DWORD : Z := 27.
Definition FINSH_OP_SHL_BYTE : Z := 28.
Definition FINSH_OP_SHL_WORD : Z := 29.
Definition FINSH_OP_SHL_DWORD : Z := 30.
Definition FINSH_OP_SHR_BYTE : Z := 31.
Definition FINSH_OP_SHR_WORD : Z := 32.
Definition FINSH_OP_SHR_DWORD : Z := 33.
Definition FINSH_OP_LD_BYTE : Z := 34.
Definition FINSH_OP_LD_WORD : Z := 35.
Definition FINSH_OP_LD_DWORD : Z := 36.
Definition FINSH_OP_LD_VALUE_BYTE : Z := 37.
Definition FINSH_OP_LD_VALUE_WORD : Z := 38.
Definition FINSH_OP_LD_VALUE_DWORD : Z := 39.
Definition FINSH_OP_ST_BYTE : Z := 40.
Definition FINSH_OP_ST_WORD : Z := 41.
Definition FINSH_OP_ST_DWORD : Z := 42.
Definition FINSH_OP_POP : Z := 43.
Definition FINSH_OP_SYSCALL : Z := 44.
Definition FINSH_OP_LD_VALUE_BYTE_STACK : Z := 45.
Definition FINSH_OP_LD_VALUE_WORD_STACK : Z := 46.
Definition FINSH_OP_LD_VALUE_DWORD_STACK : Z := 47.

Definition put_text (i v : Z) : V unit :=
  text i;; modify (λ s, set_text (<[Z.to_nat i := v]> (text_segment s)) s).

Definition finsh_code_byte (x : Z) : F unit :=
  pc ← gets finsh_compile_pc;
  on_machine (put_text pc (u8 x));;
  modify (set_compile_pc (pc + 1)).
Definition finsh_code_word (x : Z) : F unit :=
  finsh_code_byte (Z.land x 0xff);; finsh_code_byte (Z.shiftr x 8).
Definition finsh_code_dword (x : Z) : F unit :=
  let x := u32 x in
  finsh_code_byte (Z.land x 0xff);;
  finsh_code_byte (Z.land (Z.shiftr x 8) 0xff);;
  finsh_code_byte (Z.land (Z.shiftr x 16) 0xff);;
  finsh_code_byte (Z.shiftr x 24).

(** The operation for the data type of a node; nothing for other data types. *)
Definition code_typed (type byte word dword : Z) : F unit :=
  if type =? FINSH_DATA_TYPE_BYTE then finsh_code_byte byte
  else if type =? FINSH_DATA_TYPE_WORD then finsh_code_byte word
  else if type =? FINSH_DATA_TYPE_DWORD then finsh_code_byte dword
  else mret tt.

(** The width at which a variable of a type is loaded: [void *] is in no case of the code. *)
Definition load_width (type : Z) : option width :=
  if (type =? finsh_type_char) || (type =? finsh_type_uchar) then Some BYTE
  else if (type =? finsh_type_short) || (type =? finsh_type_ushort) then Some WORD
  else if (type =? finsh_type_int) || (type =? finsh_type_uint) || (type =? finsh_type_long)
       || (type =? finsh_type_ulong) || (type =? finsh_type_charp) || (type =? finsh_type_shortp)
       || (type =? finsh_type_intp) || (type =? finsh_type_longp) then Some DWORD
  else None.

Definition ld_value (w : width) : Z :=
  match w with
  | BYTE => FINSH_OP_LD_VALUE_BYTE | WORD => FINSH_OP_LD_VALUE_WORD | DWORD => FINSH_OP_LD_VALUE_DWORD
  end.

(** Load the value of a variable at [addr], or its address. *)
Definition code_load (type idt addr : Z) : F unit :=
  match load_width type with
  | None => mret tt
  | Some w =>
      finsh_code_byte (if Z.land idt FINSH_IDTYPE_ADDRESS =? 0 then ld_value w else FINSH_OP_LD_DWORD);;
      finsh_code_dword addr
  end.

Section Compiler.
Context (global_variable_at : Z).

(** [&(node->id.var->value)], also of a node whose identifier is not a variable. *)
Definition id_value_at (x : ident) : Z :=
  match x with
  | No_id => 20
  | Id_var i => value_at global_variable_at i
  | Id_sysvar v => sysvar_at v + 20
  | Id_syscall f => syscall_at f + 20
  end.

Definition code_id (n : finsh_node) : F unit :=
  if negb (Z.land (idtype n) FINSH_IDTYPE_SYSCALL =? 0) then
    match id n with
    | Id_syscall f => finsh_code_byte FINSH_OP_LD_DWORD;; finsh_code_dword (syscall_func f)
    | _ => fail F_pointer
    end
  else if negb (Z.land (idtype n) FINSH_IDTYPE_SYSVAR =? 0) then
    match id n with
    | No_id => mret tt
    | Id_sysvar v => code_load (sysvar_type v) (idtype n) (sysvar_var v)
    | _ => fail F_pointer
    end
  else
    match id n with
    | No_id => mret tt
    | Id_var i =>
        t ← gets global_variable;
        x ← deref (t !! i);
        code_load (var_type x) (idtype n) (value_at global_variable_at i)
    | _ => fail F_pointer
    end.

(** The number of arguments: the siblings of the first child. *)
Fixpoint count_siblings (fuel : nat) (p : option nat) : F Z :=
  match p with
  | None => mret 0
  | Some p =>
      match fuel with
      | O => fail F_fuel
      | S fuel => n ← get_node p; k ← count_siblings fuel (sibling n); mret (k + 1)
      end
  end.

(** Store and load the value again. *)
Definition code_store (type : Z) : F unit :=
  if type =? FINSH_DATA_TYPE_BYTE then
    finsh_code_byte FINSH_OP_ST_BYTE;; finsh_code_byte FINSH_OP_LD_VALUE_BYTE_STACK
  else if type =? FINSH_DATA_TYPE_WORD then
    finsh_code_byte FINSH_OP_ST_WORD;; finsh_code_byte FINSH_OP_LD_VALUE_WORD_STACK
  else if type =? FINSH_DATA_TYPE_DWORD then
    finsh_code_byte FINSH_OP_ST_DWORD;; finsh_code_byte FINSH_OP_LD_VALUE_DWORD_STACK
  else finsh_error_set FINSH_ERROR_UNKNOWN_TYPE.

(** Load the value at [addr], add or subtract 1, and store it. *)
Definition code_step (type addr byte word dword : Z) : F unit :=
  if type =? FINSH_DATA_TYPE_BYTE then
    finsh_code_byte FINSH_OP_LD_VALUE_BYTE;; finsh_code_dword addr;;
    finsh_code_byte FINSH_OP_LD_BYTE;; finsh_code_byte 1;;
    finsh_code_byte byte;; finsh_code_byte FINSH_OP_ST_BYTE
  else if type =? FINSH_DATA_TYPE_WORD then
    finsh_code_byte FINSH_OP_LD_VALUE_WORD;; finsh_code_dword addr;;
    finsh_code_byte FINSH_OP_LD_WORD;; finsh_code_word 1;;
    finsh_code_byte word;; finsh_code_byte FINSH_OP_ST_WORD
  else if type =? FINSH_DATA_TYPE_DWORD then
    finsh_code_byte FINSH_OP_LD_VALUE_DWORD;; finsh_code_dword addr;;
    finsh_code_byte FINSH_OP_LD_DWORD;; finsh_code_dword 1;;
    finsh_code_byte dword;; finsh_code_byte FINSH_OP_ST_DWORD
  else mret tt.

Definition is_data (type : Z) : bool :=
  (type =? FINSH_DATA_TYPE_BYTE) || (type =? FINSH_DATA_TYPE_WORD) || (type =? FINSH_DATA_TYPE_DWORD).

(** [++x] and [--x], behind the address of [x]. *)
Definition code_pre (n c : finsh_node) (byte word dword : Z) : F unit :=
  if node_type c =? FINSH_NODE_ID then
    code_step (data_type n) (id_value_at (id c)) byte word dword;;
    if is_data (data_type n) then finsh_code_byte FINSH_OP_LD_VALUE_DWORD_STACK else mret tt
  else mret tt.

(** [x++] and [x--], behind the value of [x]. *)
Definition code_post (n c : finsh_node) (byte word dword : Z) : F unit :=
  if node_type c =? FINSH_NODE_ID then
    (if is_data (data_type n) then
       finsh_code_byte FINSH_OP_LD_DWORD;; finsh_code_dword (id_value_at (id c))
     else mret tt);;
    code_step (data_type n) (id_value_at (id c)) byte word dword;;
    if is_data (data_type n) then finsh_code_byte FINSH_OP_POP else mret tt
  else mret tt.

Definition node_fuel : nat := S FINSH_NODE_MAX.

(** The code of a node, behind that of its children; [first] is the first child. *)
Definition code_with (n : finsh_node) (first : option finsh_node) : F unit :=
  let type := node_type n in
  if type =? FINSH_NODE_ID then code_id n
  else if type =? FINSH_NODE_VALUE_CHAR then
    finsh_code_byte FINSH_OP_LD_BYTE;; finsh_code_byte (field BYTE (value n))
  else if (type =? FINSH_NODE_VALUE_INT) || (type =? FINSH_NODE_VALUE_LONG)
       || (type =? FINSH_NODE_VALUE_NULL) || (type =? FINSH_NODE_VALUE_STRING) then
    finsh_code_byte FINSH_OP_LD_DWORD;; finsh_code_dword (value n)
  else if type =? FINSH_NODE_SYS_ADD then
    code_typed (data_type n) FINSH_OP_ADD_BYTE FINSH_OP_ADD_WORD FINSH_OP_ADD_DWORD
  else if type =? FINSH_NODE_SYS_SUB then
    code_typed (data_type n) FINSH_OP_SUB_BYTE FINSH_OP_SUB_WORD FINSH_OP_SUB_DWORD
  else if type =? FINSH_NODE_SYS_MUL then
    code_typed (data_type n) FINSH_OP_MUL_BYTE FINSH_OP_MUL_WORD FINSH_OP_MUL_DWORD
  else if type =? FINSH_NODE_SYS_DIV then
    code_typed (data_type n) FINSH_OP_DIV_BYTE FINSH_OP_DIV_WORD FINSH_OP_DIV_DWORD
  else if type =? FINSH_NODE_SYS_MOD then
    code_typed (data_type n) FINSH_OP_MOD_BYTE FINSH_OP_MOD_WORD FINSH_OP_MOD_DWORD
  else if type =? FINSH_NODE_SYS_AND then
    code_typed (data_type n) FINSH_OP_AND_BYTE FINSH_OP_AND_WORD FINSH_OP_AND_DWORD
  else if type =? FINSH_NODE_SYS_OR then
    code_typed (data_type n) FINSH_OP_OR_BYTE FINSH_OP_OR_WORD FINSH_OP_OR_DWORD
  else if type =? FINSH_NODE_SYS_XOR then
    code_typed (data_type n) FINSH_OP_XOR_BYTE FINSH_OP_XOR_WORD FINSH_OP_XOR_DWORD
  else if type =? FINSH_NODE_SYS_BITWISE then
    code_typed (data_type n) FINSH_OP_BITWISE_BYTE FINSH_OP_BITWISE_WORD FINSH_OP_BITWISE_DWORD
  else if type =? FINSH_NODE_SYS_SHL then
    code_typed (data_type n) FINSH_OP_SHL_BYTE FINSH_OP_SHL_WORD FINSH_OP_SHL_DWORD
  else if type =? FINSH_NODE_SYS_SHR then
    code_typed (data_type n) FINSH_OP_SHR_BYTE FINSH_OP_SHR_WORD FINSH_OP_SHR_DWORD
  else if type =? FINSH_NODE_SYS_FUNC then
    match first with
    | None => mret tt
    | Some c =>
        parameters ← count_siblings node_fuel (sibling c);
        finsh_code_byte FINSH_OP_SYSCALL;; finsh_code_byte parameters
    end
  else if type =? FINSH_NODE_SYS_ASSIGN then
    c ← deref first;
    if node_type c =? FINSH_NODE_ID then code_store (data_type c)
    else if node_type c =? FINSH_NODE_SYS_GETVALUE then code_store (Z.land (data_type c) 0x0f)
    else mret tt
  else if type =? FINSH_NODE_SYS_PREINC then
    match first with
    | Some c => code_pre n c FINSH_OP_ADD_BYTE FINSH_OP_ADD_WORD FINSH_OP_ADD_DWORD
    | None => mret tt
    end
  else if type =? FINSH_NODE_SYS_PREDEC then
    match first with
    | Some c => code_pre n c FINSH_OP_SUB_BYTE FINSH_OP_SUB_WORD FINSH_OP_SUB_DWORD
    | None => mret tt
    end
  else if type =? FINSH_NODE_SYS_INC then
    match first with
    | Some c => code_post n c FINSH_OP_ADD_BYTE FINSH_OP_ADD_WORD FINSH_OP_ADD_DWORD
    | None => mret tt
    end
  else if type =? FINSH_NODE_SYS_DEC then
    match first with
    | Some c => code_post n c FINSH_OP_SUB_BYTE FINSH_OP_SUB_WORD FINSH_OP_SUB_DWORD
    | None => mret tt
    end
  else if type =? FINSH_NODE_SYS_NULL then finsh_code_dword 0
  else if type =? FINSH_NODE_SYS_GETVALUE then
    if negb (Z.land (idtype n) FINSH_IDTYPE_ADDRESS =? 0) then mret tt
    else code_typed (data_type n) FINSH_OP_LD_VALUE_BYTE_STACK FINSH_OP_LD_VALUE_WORD_STACK
           FINSH_OP_LD_VALUE_DWORD_STACK
  else if type =? FINSH_NODE_SYS_GETADDR then mret tt
  else finsh_error_set FINSH_ERROR_UNKNOWN_NODE.

Definition code_node (n : finsh_node) : F unit :=
  match child n with
  | None => code_with n None
  | Some p => c ← get_node p; code_with n (Some c)
  end.

Fixpoint finsh_compile (fuel : nat) (p : option nat) : F unit :=
  match p with
  | None => mret tt
  | Some p =>
      match fuel with
      | O => fail F_fuel
      | S fuel =>
          n ← get_node p;
          finsh_compile fuel (child n);;
          n ← get_node p;
          code_node n;;
          finsh_compile fuel (sibling n)
      end
  end.

(** The data type of an identifier of a type; the error for others. *)
Definition type_data (type : Z) : option Z :=
  if type =? finsh_type_void then Some FINSH_DATA_TYPE_VOID
  else if (type =? finsh_type_char) || (type =? finsh_type_uchar) then Some FINSH_DATA_TYPE_BYTE
  else if (type =? finsh_type_short) || (type =? finsh_type_ushort) then Some FINSH_DATA_TYPE_WORD
  else if (type =? finsh_type_int) || (type =? finsh_type_uint) || (type =? finsh_type_long)
       || (type =? finsh_type_ulong) then Some FINSH_DATA_TYPE_DWORD
  else if (type =? finsh_type_charp) || (type =? finsh_type_voidp) || (type =? finsh_type_shortp)
       || (type =? finsh_type_intp) || (type =? finsh_type_longp) then Some FINSH_DATA_TYPE_DWORD
  else None.

Definition set_by_type (p : nat) (type : Z) : F unit :=
  match type_data type with
  | Some d => upd_node p (set_data_type d)
  | None => finsh_error_set FINSH_ERROR_UNKNOWN_TYPE
  end.

(** The data type of a node without children. *)
Definition check_leaf (p : nat) : F unit :=
  n ← get_node p;
  let type := node_type n in
  if type =? FINSH_NODE_ID then
    if negb (Z.land (idtype n) FINSH_IDTYPE_VAR =? 0) then
      match id n with
      | Id_var i =>
          t ← gets global_variable;
          x ← deref (t !! i);
          set_by_type p (var_type x)
      | No_id => mret tt
      | _ => fail F_pointer
      end
    else if negb (Z.land (idtype n) FINSH_IDTYPE_SYSVAR =? 0) then
      match id n with
      | Id_sysvar v => set_by_type p (sysvar_type v)
      | No_id => mret tt
      | _ => fail F_pointer
      end
    else mret tt
  else if type =? FINSH_NODE_VALUE_CHAR then upd_node p (set_data_type FINSH_DATA_TYPE_BYTE)
  else if (type =? FINSH_NODE_VALUE_INT) || (type =? FINSH_NODE_VALUE_LONG)
       || (type =? FINSH_NODE_VALUE_STRING) || (type =? FINSH_NODE_VALUE_NULL) then
    upd_node p (set_data_type FINSH_DATA_TYPE_DWORD)
  else mret tt.

(** What [finsh_type_check] passes to the child of a node. *)
Definition child_addr (type is_addr : Z) : Z :=
  if (type =? FINSH_NODE_SYS_ASSIGN) || (type =? FINSH_NODE_SYS_PREINC)
     || (type =? FINSH_NODE_SYS_PREDEC) || (type =? FINSH_NODE_SYS_GETADDR) then FINSH_IDTYPE_ADDRESS
  else if (type =? FINSH_NODE_SYS_GETVALUE) && negb (is_addr =? 0) then 0
  else is_addr.

Fixpoint finsh_type_check (fuel : nat) (p : option nat) (is_addr : Z) : F unit :=
  match p with
  | None => mret tt
  | Some p =>
      match fuel with
      | O => fail F_fuel
      | S fuel =>
          n ← get_node p;
          finsh_type_check fuel (child n) (child_addr (node_type n) is_addr);;
          finsh_type_check fuel (sibling n) FINSH_NODE_VALUE;;
          upd_node p (λ n, if idtype n =? FINSH_IDTYPE_SYSCALL then n
                           else set_idtype (Z.lor (idtype n) is_addr) n);;
          match child n with
          | Some c => m ← get_node c; upd_node p (set_data_type (data_type m))
          | None => check_leaf p
          end
      end
  end.

(** The statements, one after the other, with a pop between them. *)
Fixpoint compile_statements (fuel : nat) (p : option nat) : F unit :=
  match p with
  | None => mret tt
  | Some p =>
      match fuel with
      | O => fail F_fuel
      | S fuel =>
          n ← get_node p;
          upd_node p (set_sibling None);;
          finsh_compile node_fuel (Some p);;
          match sibling n with
          | None => mret tt
          | Some _ => finsh_code_byte FINSH_OP_POP
          end;;
          compile_statements fuel (sibling n)
      end
  end.

Definition finsh_compiler_run (node : option nat) : F unit :=
  finsh_type_check node_fuel node FINSH_NODE_VALUE;;
  on_machine (modify (set_text (replicate (Z.to_nat FINSH_TEXT_MAX) 0)));;
  on_machine (put_slot 0 0);;
  modify (set_compile_pc 0);;
  compile_statements node_fuel node.

End Compiler.
