(* ===== verification/FinshParser.v ===== *)
(** The scanner and the parser of the shell: [components/finsh/finsh_token.c] and
    [finsh_parser.c].

    Characters are unsigned.  Writes behind the end of a buffer (an identifier of 128
    characters, the digits of a character constant) are faults.  The recursion of the parser
    and its loops are bounded by [fuel], one unit for every character of the line and more. *)

From Stdlib Require Import ZArith Lia.
From stdpp Require Import numbers base gmap list.
From S2P Require Import Prelude Bytes FinshVm FinshData FinshCompile.
Local Open Scope Z_scope.

(** * The scanner *)

Definition is_alpha (ch : Z) : bool := u32 (Z.lor ch 0x20 - 97) <? 26.
Definition is_digit (ch : Z) : bool := (48 <=? ch) && (ch <=? 57).
Definition is_xdigit (ch : Z) : bool := is_digit ch || (u32 (Z.lor ch 0x20 - 97) <? 6).
Definition is_octal (ch : Z) : bool := u32 (ch - 48) <? 8.
Definition is_separator (ch : Z) : bool :=
  negb (((97 <=? ch) && (ch <=? 122)) || ((65 <=? ch) && (ch <=? 90)) || is_digit ch || (ch =? 95)).

Definition set_eof (v : bool) (t : finsh_token) : finsh_token :=
  mk_token v (replay t) (position t) (current_token t) (token_value t) (string t) (line t).
Definition set_replay (v : bool) (t : finsh_token) : finsh_token :=
  mk_token (eof t) v (position t) (current_token t) (token_value t) (string t) (line t).
Definition set_position (v : nat) (t : finsh_token) : finsh_token :=
  mk_token (eof t) (replay t) v (current_token t) (token_value t) (string t) (line t).
Definition set_current (v : finsh_token_type) (t : finsh_token) : finsh_token :=
  mk_token (eof t) (replay t) (position t) v (token_value t) (string t) (line t).
Definition set_token_value (v : Z) (t : finsh_token) : finsh_token :=
  mk_token (eof t) (replay t) (position t) (current_token t) v (string t) (line t).
Definition set_string (v : list Z) (t : finsh_token) : finsh_token :=
  mk_token (eof t) (replay t) (position t) (current_token t) (token_value t) v (line t).

Definition upd_token (f : finsh_token → finsh_token) : F unit :=
  modify (λ s, set_token (f (token s)) s).
(** [self->string]: a text with its zero in front, one character, and the text it holds. *)
Definition token_text (str : list Z) : F unit :=
  upd_token (λ t, set_string (str ++ 0 :: drop (S (length str)) (string t)) t).
Definition token_char (i : nat) (c : Z) : F unit := upd_token (λ t, set_string (<[i := c]> (string t)) t).

Definition is_eof : F bool := t ← gets token; mret (eof t).

Definition finsh_token_init (l : list Z) : F unit :=
  modify (set_token (mk_token false false 0 token_type_none 0 (replicate FINSH_STRING_MAX 0) l)).

Definition token_next_char : F Z :=
  t ← gets token;
  if eof t then mret 0
  else
    match line t !! position t with
    | None => upd_token (set_position 0 ∘ set_eof true);; mret 0
    | Some c =>
        if c =? 10 then upd_token (set_position 0 ∘ set_eof true);; mret 0
        else upd_token (set_position (S (position t)));; mret c
    end.

Definition token_prev_char : F unit :=
  upd_token (λ t, if eof t then t else set_position (pred (position t)) t).

(** The fuel of the loops over the characters of a line. *)
Definition line_fuel : F nat := t ← gets token; mret (S (S (length (line t)))).

(** [while (!is_separator(ch) && !is_eof(self)) { *p++ = ch; ch = next }] *)
Fixpoint identifier_loop (fuel : nat) (ch : Z) (acc : list Z) : F (list Z) :=
  e ← is_eof;
  if is_separator ch || e then mret (rev acc)
  else
    match fuel with
    | O => fail F_fuel
    | S fuel =>
        (if (length acc <? FINSH_STRING_MAX)%nat then mret tt else fail F_pointer);;
        ch' ← token_next_char;
        identifier_loop fuel ch' (ch :: acc)
    end.

Definition token_get_string : F unit :=
  ch ← token_next_char;
  e ← is_eof;
  if (e : bool) then mret tt
  else if is_digit ch then token_text [];; token_prev_char
  else
    fuel ← line_fuel;
    str ← identifier_loop fuel ch [];
    upd_token (set_eof false);;
    token_prev_char;;
    (if (length str <? FINSH_STRING_MAX)%nat then mret tt else fail F_pointer);;
    token_text str.

(** "void", "char", "short", "int", "long", "unsigned", "NULL", "null" *)
Definition finsh_name_table : list (list Z * finsh_token_type) :=
  [([118; 111; 105; 100], finsh_token_type_void);
   ([99; 104; 97; 114], finsh_token_type_char);
   ([115; 104; 111; 114; 116], finsh_token_type_short);
   ([105; 110; 116], finsh_token_type_int);
   ([108; 111; 110; 103], finsh_token_type_long);
   ([117; 110; 115; 105; 103; 110; 101; 100], finsh_token_type_unsigned);
   ([78; 85; 76; 76], finsh_token_type_value_null);
   ([110; 117; 108; 108], finsh_token_type_value_null)].

Definition token_match_name (str : list Z) : option finsh_token_type :=
  snd ∘ snd <$> list_find (λ x, x.1 = str) finsh_name_table.

Fixpoint trim_loop (fuel : nat) : F unit :=
  match fuel with
  | O => fail F_fuel
  | S fuel =>
      ch ← token_next_char;
      if (ch =? 32) || (ch =? 9) || (ch =? 13) then trim_loop fuel else mret tt
  end.
Definition token_trim_space : F unit := fuel ← line_fuel; trim_loop fuel;; token_prev_char.

(** The characters that satisfy [p], from [ch] on, and the one behind them.  [buf] has
    [room] characters for them. *)
Fixpoint chars_while (fuel : nat) (p : Z → bool) (room : nat) (ch : Z) : F (list Z * Z) :=
  if p ch then
    match fuel, room with
    | O, _ => fail F_fuel
    | _, O => fail F_pointer
    | S fuel, S room =>
        ch' ← token_next_char;
        '(l, last) ← chars_while fuel p room ch';
        mret (ch :: l, last)
    end
  else mret ([], ch).

(** The octal escape of a character constant: the digits behind the first one and the
    character behind them go to [buf], and the conversion starts behind them. *)
Definition octal_escape (ch : Z) : F Z :=
  fuel ← line_fuel;
  '(l, _) ← chars_while fuel is_digit 3 ch;
  token_prev_char;;
  mret 0.

Definition char_escape (ch : Z) : option Z :=
  if ch =? 110 then Some 10 else if ch =? 116 then Some 9 else if ch =? 118 then Some 11
  else if ch =? 98 then Some 8 else if ch =? 114 then Some 13 else if ch =? 92 then Some 92
  else if ch =? 39 then Some 39 else None.

Definition token_proc_char : F Z :=
  ch ← token_next_char;
  ch ← (if ch =? 92 then
          ch ← token_next_char;
          match char_escape ch with Some c => mret c | None => octal_escape ch end
        else mret ch);
  q ← token_next_char;
  if q =? 39 then mret ch
  else token_prev_char;; finsh_error_set FINSH_ERROR_EXPECT_CHAR;; mret ch.

Definition xdigit_value (ch : Z) : Z := if ch <? 65 then ch - 48 else Z.lor ch 0x20 - 97 + 10.

(** Digits to the base, from [ch] on. *)
Fixpoint digits_loop (fuel : nat) (p : Z → bool) (f : Z → Z → Z) (result ch : Z) : F Z :=
  if p ch then
    match fuel with
    | O => fail F_fuel
    | S fuel => ch' ← token_next_char; digits_loop fuel p f (s32 (f result ch)) ch'
    end
  else mret result.

Definition string_escape (ch : Z) : option Z :=
  if ch =? 110 then Some 10 else if ch =? 116 then Some 9 else if ch =? 118 then Some 11
  else if ch =? 98 then Some 8 else if ch =? 114 then Some 13 else if ch =? 102 then Some 12
  else if ch =? 97 then Some 7 else if ch =? 34 then Some 34 else None.

Definition token_proc_escape : F Z :=
  ch ← token_next_char;
  fuel ← line_fuel;
  match string_escape ch with
  | Some c => mret c
  | None =>
      if (ch =? 120) || (ch =? 88) then
        ch ← token_next_char;
        r ← digits_loop fuel is_xdigit (λ r ch, r * 16 + xdigit_value ch) 0 ch;
        token_prev_char;; mret r
      else if is_octal ch then
        r ← digits_loop fuel is_octal (λ r ch, r * 8 + ch - 48) 0 ch;
        token_prev_char;; mret r
      else mret 0
  end.

(** The characters up to the closing quote, into [self->string] from [i] on; [false] when there is
    no end.  The text is then left without its zero. *)
Fixpoint string_loop (room i : nat) : F bool :=
  match room with
  | O => mret false
  | S room =>
      ch ← token_next_char;
      e ← is_eof;
      if (e : bool) then finsh_error_set FINSH_ERROR_UNEXPECT_END;; mret false
      else if ch =? 92 then c ← token_proc_escape; token_char i (u8 c);; string_loop room (S i)
      else if ch =? 34 then token_char i 0;; mret true
      else token_char i ch;; string_loop room (S i)
  end.
Definition token_proc_string : F bool := string_loop FINSH_STRING_MAX 0.

(** One digit into the number of two words. *)
Definition digit_of (t : Z) : Z :=
  if (97 <=? t) && (t <=? 102) then t - 97 + 10
  else if (65 <=? t) && (t <=? 70) then t - 65 + 10
  else t - 48.
Definition bn_step (shift : Z) (bn : Z * Z) (ch : Z) : Z * Z :=
  let '(b0, b1) := bn in
  (Z.lor (u32 (Z.shiftl b0 shift)) (u32 (digit_of ch)),
   Z.lor (u32 (Z.shiftl b1 shift)) (Z.shiftr b0 (32 - shift))).
Definition token_spec_number (str : list Z) (b : Z) : Z :=
  let shift := if b =? 16 then 4 else if b =? 8 then 3 else 1 in
  s32 (foldl (bn_step shift) (0, 0) str).1.

Definition is_binary (ch : Z) : bool := (ch =? 48) || (ch =? 49).
Definition is_octal_digit (ch : Z) : bool := (48 <=? ch) && (ch <=? 55).

(** The digits of a number that starts with 0, and the character behind them. *)
Definition special_number (b : Z) (p : Z → bool) (ch : Z) : F Z :=
  fuel ← line_fuel;
  '(l, ch) ← chars_while fuel p 127 ch;
  upd_token (set_token_value (u32 (token_spec_number l b)) ∘ set_current finsh_token_type_value_int);;
  mret ch.

Fixpoint decimal_loop (fuel : nat) (v ch : Z) : F (Z * Z) :=
  if is_digit ch then
    match fuel with
    | O => fail F_fuel
    | S fuel => ch' ← token_next_char; decimal_loop fuel (s32 (v * 10 + (ch - 48))) ch'
    end
  else mret (v, ch).

(** The suffix of a number. *)
Definition number_suffix (ch : Z) : F unit :=
  if (ch =? 108) || (ch =? 76) then upd_token (set_current finsh_token_type_value_long)
  else token_prev_char.

Definition token_proc_number : F unit :=
  ch ← token_next_char;
  fuel ← line_fuel;
  if ch =? 48 then
    ch ← token_next_char;
    if (ch =? 120) || (ch =? 88) then
      ch ← token_next_char;
      ch ← special_number 16 (λ c, is_digit c || is_alpha c) ch; number_suffix ch
    else if (ch =? 98) || (ch =? 66) then
      ch ← token_next_char;
      ch ← special_number 2 is_binary ch; number_suffix ch
    else if is_octal_digit ch then
      ch ← special_number 8 is_octal_digit ch; number_suffix ch
    else
      token_prev_char;;
      upd_token (set_token_value 0 ∘ set_current finsh_token_type_value_int)
  else
    '(v, ch) ← decimal_loop fuel 0 ch;
    upd_token (set_token_value (u32 v) ∘ set_current finsh_token_type_value_int);;
    number_suffix ch.

(** An operator of one or two characters. *)
Definition two_chars (second : Z) (two one : finsh_token_type) : F unit :=
  ch ← token_next_char;
  if ch =? second then upd_token (set_current two)
  else token_prev_char;; upd_token (set_current one).

Definition single_char (ch : Z) : option finsh_token_type :=
  if ch =? 40 then Some finsh_token_type_left_paren
  else if ch =? 41 then Some finsh_token_type_right_paren
  else if ch =? 44 then Some finsh_token_type_comma
  else if ch =? 59 then Some finsh_token_type_semicolon
  else if ch =? 38 then Some finsh_token_type_and
  else if ch =? 42 then Some finsh_token_type_mul
  else if ch =? 124 then Some finsh_token_type_or
  else if ch =? 37 then Some finsh_token_type_mod
  else if ch =? 126 then Some finsh_token_type_bitwise
  else if ch =? 94 then Some finsh_token_type_xor
  else if ch =? 61 then Some finsh_token_type_assign
  else None.

Definition token_operator : F unit :=
  ch ← token_next_char;
  match single_char ch with
  | Some t => upd_token (set_current t)
  | None =>
      if ch =? 43 then two_chars 43 finsh_token_type_inc finsh_token_type_add
      else if ch =? 45 then two_chars 45 finsh_token_type_dec finsh_token_type_sub
      else if ch =? 47 then two_chars 47 finsh_token_type_eof finsh_token_type_div
      else if ch =? 60 then two_chars 60 finsh_token_type_shl finsh_token_type_bad
      else if ch =? 62 then two_chars 62 finsh_token_type_shr finsh_token_type_bad
      else if ch =? 39 then
        c ← token_proc_char;
        upd_token (λ t, set_current finsh_token_type_value_char
                          (set_token_value (put_field BYTE (token_value t) c) t))
      else if ch =? 34 then token_proc_string;; upd_token (set_current finsh_token_type_value_string)
      else if is_digit ch then token_prev_char;; token_proc_number
      else finsh_error_set FINSH_ERROR_UNKNOWN_TOKEN;; upd_token (set_current finsh_token_type_bad)
  end.

Definition token_run : F unit :=
  token_trim_space;;
  token_get_string;;
  e ← is_eof;
  if (e : bool) then upd_token (set_current finsh_token_type_eof)
  else
    t ← gets token;
    match c_string (string t) with
    | [] => token_operator
    | str =>
        upd_token (set_current (default finsh_token_type_identifier (token_match_name str)))
    end.

Definition finsh_token_token : F finsh_token_type :=
  t ← gets token;
  (if replay t then upd_token (set_replay false) else token_run);;
  t ← gets token;
  mret (current_token t).

Definition finsh_token_replay : F unit := upd_token (set_replay true).

(** * The parser *)

Notation ptr := (option nat).

Definition is_base_type (token : finsh_token_type) : bool :=
  bool_decide (token ∈ [finsh_token_type_void; finsh_token_type_char; finsh_token_type_short;
                        finsh_token_type_int; finsh_token_type_long]).

Definition check_token (token type : finsh_token_type) : F unit :=
  if decide (token = type) then mret tt
  else finsh_error_set FINSH_ERROR_INVALID_TOKEN;; finsh_token_replay.
Definition match_token (type : finsh_token_type) : F unit :=
  token ← finsh_token_token; check_token token type.

(** The error and the token back: the exit [__return] of [proc_type]. *)
Definition unknown_type (type : Z) : F Z :=
  finsh_token_replay;; finsh_error_set FINSH_ERROR_UNKNOWN_TYPE;; mret type.

Definition pointer_type (type : Z) : Z :=
  if type =? finsh_type_void then finsh_type_voidp
  else if (type =? finsh_type_char) || (type =? finsh_type_uchar) then finsh_type_charp
  else if (type =? finsh_type_short) || (type =? finsh_type_ushort) then finsh_type_shortp
  else if (type =? finsh_type_int) || (type =? finsh_type_uint) then finsh_type_intp
  else if (type =? finsh_type_long) || (type =? finsh_type_ulong) then finsh_type_longp
  else finsh_type_voidp.

Definition parse_pointer (type : Z) : F Z :=
  token ← finsh_token_token;
  if decide (token = finsh_token_type_mul) then mret (pointer_type type)
  else finsh_token_replay;; mret type.

Definition proc_type : F Z :=
  token ← finsh_token_token;
  match token with
  | finsh_token_type_void => parse_pointer finsh_type_void
  | finsh_token_type_char => parse_pointer finsh_type_char
  | finsh_token_type_short => parse_pointer finsh_type_short
  | finsh_token_type_int => parse_pointer finsh_type_int
  | finsh_token_type_long => parse_pointer finsh_type_long
  | finsh_token_type_unsigned =>
      token ← finsh_token_token;
      match token with
      | finsh_token_type_char => parse_pointer finsh_type_uchar
      | finsh_token_type_short => parse_pointer finsh_type_ushort
      | finsh_token_type_int => parse_pointer finsh_type_uint
      | finsh_token_type_long => parse_pointer finsh_type_ulong
      | finsh_token_type_void => unknown_type finsh_type_unknown
      | _ =>
          finsh_token_replay;; finsh_error_set FINSH_ERROR_EXPECT_TYPE;;
          parse_pointer finsh_type_unknown
      end
  | _ => unknown_type finsh_type_unknown
  end.

Definition proc_identifier : F (list Z) :=
  match_token finsh_token_type_identifier;;
  t ← gets token;
  mret (take FINSH_NAME_MAX (c_string (string t))).

Definition make_sys_node (type : Z) (node1 node2 : ptr) : F ptr :=
  node ← finsh_node_allocate type;
  match node1, node with
  | Some p1, Some p =>
      upd_node p (set_child (Some p1));;
      upd_node p1 (set_sibling node2);;
      mret node
  | _, _ => finsh_error_set FINSH_ERROR_NULL_NODE;; mret node
  end.

Section Parser.
Context (global_variable_at finsh_heap_at : Z).



(** ** Operators of two operands *)

Section Levels.
(** What the operands of the strongest operators are, and a bound for the loops. *)
Context (proc_cast_expr : F ptr) (fuel : nat).

(** [while (token is one of the operators) { ... }], and the token back. *)
Fixpoint operators (n : nat) (sub : F ptr) (op : finsh_token_type → option Z) (left : ptr) : F ptr :=
  token ← finsh_token_token;
  match op token with
  | None => finsh_token_replay;; mret left
  | Some type =>
      match n with
      | O => fail F_fuel
      | S n =>
          right ← sub;
          left ← match right with
                 | None => finsh_error_set FINSH_ERROR_EXPECT_OPERATOR;; mret left
                 | Some _ => make_sys_node type left right
                 end;
          operators n sub op left
      end
  end.

Definition proc_multiplicative_expr : F ptr :=
  cast ← proc_cast_expr;
  operators fuel proc_cast_expr (λ token,
    match token with
    | finsh_token_type_mul => Some FINSH_NODE_SYS_MUL
    | finsh_token_type_div => Some FINSH_NODE_SYS_DIV
    | finsh_token_type_mod => Some FINSH_NODE_SYS_MOD
    | _ => None
    end) cast.

Definition proc_additive_expr : F ptr :=
  mul ← proc_multiplicative_expr;
  operators fuel proc_multiplicative_expr (λ token,
    match token with
    | finsh_token_type_sub => Some FINSH_NODE_SYS_SUB
    | finsh_token_type_add => Some FINSH_NODE_SYS_ADD
    | _ => None
    end) mul.

Definition proc_shift_expr : F ptr :=
  add ← proc_additive_expr;
  operators fuel proc_additive_expr (λ token,
    match token with
    | finsh_token_type_shl => Some FINSH_NODE_SYS_SHL
    | finsh_token_type_shr => Some FINSH_NODE_SYS_SHR
    | _ => None
    end) add.

Definition proc_and_expr : F ptr :=
  shift ← proc_shift_expr;
  operators fuel proc_shift_expr (λ token,
    match token with finsh_token_type_and => Some FINSH_NODE_SYS_AND | _ => None end) shift.

Definition proc_exclusive_or_expr : F ptr :=
  and ← proc_and_expr;
  operators fuel proc_and_expr (λ token,
    match token with finsh_token_type_xor => Some FINSH_NODE_SYS_XOR | _ => None end) and.

Definition proc_inclusive_or_expr : F ptr :=
  xor ← proc_exclusive_or_expr;
  operators fuel proc_exclusive_or_expr (λ token,
    match token with finsh_token_type_or => Some FINSH_NODE_SYS_OR | _ => None end) xor.

Fixpoint assign_expr (n : nat) : F ptr :=
  or ← proc_inclusive_or_expr;
  token ← finsh_token_token;
  if decide (token = finsh_token_type_assign) then
    match n with
    | O => fail F_fuel
    | S n => assign ← assign_expr n; make_sys_node FINSH_NODE_SYS_ASSIGN or assign
    end
  else finsh_token_replay;; mret or.
Definition proc_assign_expr : F ptr := assign_expr fuel.
Definition proc_expr : F ptr := proc_assign_expr.

(** ** Postfix and primary expressions *)

(** [while (token == ',')]: the other arguments, linked behind [assign]. *)
Fixpoint param_loop (n : nat) (assign : nat) : F unit :=
  token ← finsh_token_token;
  if decide (token = finsh_token_type_comma) then
    match n with
    | O => fail F_fuel
    | S n =>
        p ← proc_assign_expr;
        upd_node assign (set_sibling p);;
        match p with
        | Some q => param_loop n q
        | None => finsh_error_set FINSH_ERROR_EXPECT_OPERATOR;; param_loop n assign
        end
    end
  else mret tt.

Definition proc_param_list : F ptr :=
  assign ← proc_assign_expr;
  match assign with
  | None => mret None
  | Some a => param_loop fuel a;; finsh_token_replay;; mret assign
  end.

Definition proc_primary_expr : F ptr :=
  token ← finsh_token_token;
  t ← gets FinshData.token;
  match token with
  | finsh_token_type_identifier =>
      finsh_token_replay;; id ← proc_identifier; finsh_node_new_id id
  | finsh_token_type_left_paren =>
      expr ← proc_expr; match_token finsh_token_type_right_paren;; mret expr
  | finsh_token_type_value_int => finsh_node_new_int (s32 (token_value t))
  | finsh_token_type_value_long => finsh_node_new_long (s32 (token_value t))
  | finsh_token_type_value_char => finsh_node_new_char (field BYTE (token_value t))
  | finsh_token_type_value_string =>
      if bool_decide (0 ∈ string t) then
        finsh_node_new_string global_variable_at (c_string (string t))
      else fail F_pointer
  | finsh_token_type_value_null => finsh_node_new_ptr 0
  | _ => finsh_error_set FINSH_ERROR_INVALID_TOKEN;; mret None
  end.

Fixpoint postfix_loop (n : nat) (postfix : ptr) : F ptr :=
  token ← finsh_token_token;
  match n with
  | O => match token with
         | finsh_token_type_inc | finsh_token_type_dec | finsh_token_type_left_paren => fail F_fuel
         | _ => mret postfix
         end
  | S n =>
      match token with
      | finsh_token_type_inc =>
          postfix ← make_sys_node FINSH_NODE_SYS_INC postfix None; postfix_loop n postfix
      | finsh_token_type_dec =>
          postfix ← make_sys_node FINSH_NODE_SYS_DEC postfix None; postfix_loop n postfix
      | finsh_token_type_left_paren =>
          token ← finsh_token_token;
          param_list ←
            (if decide (token = finsh_token_type_right_paren) then mret None
             else
               finsh_token_replay;;
               l ← proc_param_list;
               match_token finsh_token_type_right_paren;; mret l);
          postfix ← make_sys_node FINSH_NODE_SYS_FUNC postfix param_list; postfix_loop n postfix
      | _ => mret postfix
      end
  end.

Definition proc_postfix_expr : F ptr :=
  postfix ← proc_primary_expr;
  postfix ← postfix_loop fuel postfix;
  finsh_token_replay;; mret postfix.

Definition proc_unary_expr : F ptr :=
  token ← finsh_token_token;
  match token with
  | finsh_token_type_add => proc_cast_expr
  | finsh_token_type_inc => cast ← proc_cast_expr; make_sys_node FINSH_NODE_SYS_PREINC cast None
  | finsh_token_type_sub =>
      cast ← proc_cast_expr;
      zero ← finsh_node_new_long 0;
      make_sys_node FINSH_NODE_SYS_SUB zero cast
  | finsh_token_type_dec => cast ← proc_cast_expr; make_sys_node FINSH_NODE_SYS_PREDEC cast None
  | finsh_token_type_bitwise => cast ← proc_cast_expr; make_sys_node FINSH_NODE_SYS_BITWISE cast None
  | finsh_token_type_mul => cast ← proc_cast_expr; make_sys_node FINSH_NODE_SYS_GETVALUE cast None
  | finsh_token_type_and => cast ← proc_cast_expr; make_sys_node FINSH_NODE_SYS_GETADDR cast None
  | _ => finsh_token_replay;; proc_postfix_expr
  end.

End Levels.

(** One unit of [fuel] for every level of nesting. *)
Fixpoint proc_cast_expr (fuel : nat) : F ptr :=
  match fuel with
  | O => fail F_fuel
  | S fuel =>
      token ← finsh_token_token;
      if decide (token = finsh_token_type_left_paren) then
        type ← proc_type;
        match_token finsh_token_type_right_paren;;
        cast ← proc_cast_expr fuel;
        match cast with
        | Some p => upd_node p (set_data_type (u8 type));; mret cast
        | None => finsh_token_replay;; proc_unary_expr (proc_cast_expr fuel) fuel
        end
      else finsh_token_replay;; proc_unary_expr (proc_cast_expr fuel) fuel
  end.

(** ** Statements and declarations *)

Section Statements.
Context (fuel : nat).
Let assign_expr := proc_assign_expr (proc_cast_expr fuel) fuel.

Definition proc_expr_statement : F ptr :=
  token ← finsh_token_token;
  if decide (token = finsh_token_type_semicolon) then mret None
  else
    finsh_token_replay;;
    expr ← proc_expr (proc_cast_expr fuel) fuel;
    match_token finsh_token_type_semicolon;;
    mret expr.

(** A name, entered as a variable of the type. *)
Definition declare (type : Z) : F (list Z) :=
  id ← proc_identifier;
  r ← finsh_var_insert id type;
  match r with
  | Some _ => mret id
  | None => finsh_error_set FINSH_ERROR_VARIABLE_EXIST;; mret id
  end.

(** [id = expr], linked behind [end_] when there is a list already. *)
Definition append_assign (id : list Z) (assign node end_ : ptr) : F (ptr * ptr) :=
  idnode ← finsh_node_new_id id;
  match node with
  | None => e ← make_sys_node FINSH_NODE_SYS_ASSIGN idnode assign; mret (e, e)
  | Some _ =>
      e ← make_sys_node FINSH_NODE_SYS_ASSIGN idnode assign;
      p ← deref end_;
      upd_node p (set_sibling e);;
      mret (node, e)
  end.

(** The initial value behind a name, if there is one; the token behind it. *)
Definition initial (id : list Z) (node end_ : ptr) : F (ptr * ptr * finsh_token_type) :=
  token ← finsh_token_token;
  if decide (token = finsh_token_type_assign) then
    assign ← assign_expr;
    match assign with
    | None => mret (node, end_, token)
    | Some _ =>
        '(node, end_) ← append_assign id assign node end_;
        token ← finsh_token_token;
        mret (node, end_, token)
    end
  else mret (node, end_, token).

(** [while (token == ',')] *)
Fixpoint decl_loop (n : nat) (type : Z) (node end_ : ptr) (token : finsh_token_type) : F (ptr * finsh_token_type) :=
  if decide (token = finsh_token_type_comma) then
    match n with
    | O => fail F_fuel
    | S n =>
        id ← declare type;
        '(node, end_, token) ← initial id node end_;
        decl_loop n type node end_ token
    end
  else mret (node, token).

Definition proc_variable_decl : F ptr :=
  type ← proc_type;
  id ← declare type;
  token ← finsh_token_token;
  match token with
  | finsh_token_type_comma =>
      '(node, token) ← decl_loop fuel type None None finsh_token_type_comma;
      check_token token finsh_token_type_semicolon;;
      mret node
  | finsh_token_type_assign =>
      assign ← assign_expr;
      '(node, end_, token) ←
        match assign with
        | None => mret (None, None, token)
        | Some _ =>
            '(node, end_) ← append_assign id assign None None;
            token ← finsh_token_token; mret (node, end_, token)
        end;
      '(node, token) ← decl_loop fuel type node end_ token;
      check_token token finsh_token_type_semicolon;;
      mret node
  | finsh_token_type_semicolon => mret None
  | _ => finsh_error_set FINSH_ERROR_EXPECT_TYPE;; mret None
  end.

(** One statement or declaration, linked behind [node]; [drop] for the token that the code
    reads when an expression gives nothing. *)
Definition add_statement (parse : F ptr) (drop : bool) (node : ptr) : F ptr :=
  r ← gets root;
  match r with
  | None => node ← parse; modify (set_root node);; mret node
  | Some _ =>
      s ← parse;
      p ← deref node;
      upd_node p (set_sibling s);;
      match s with
      | Some _ => mret s
      | None => (if drop then finsh_token_token;; mret tt else mret tt);; mret node
      end
  end.

Definition one_statement (token : finsh_token_type) (node : ptr) : F ptr :=
  finsh_token_replay;;
  match token with
  | finsh_token_type_identifier => add_statement proc_expr_statement false node
  | _ =>
      if is_base_type token || bool_decide (token = finsh_token_type_unsigned)
      then add_statement proc_variable_decl false node
      else add_statement proc_expr_statement true node
  end.

Fixpoint parser_loop (n : nat) (node : ptr) : F unit :=
  token ← finsh_token_token;
  match token with
  | finsh_token_type_eof | finsh_token_type_bad => mret tt
  | _ =>
      match n with
      | O => fail F_fuel
      | S n =>
          node ← one_statement token node;
          r ← gets root;
          match r with
          | None => mret tt
          | Some _ => parser_loop n node
          end
      end
  end.

End Statements.

Definition finsh_parser_run (l : list Z) : F unit :=
  finsh_token_init l;;
  let fuel := (2 * length l + 4)%nat in
  parser_loop fuel fuel None.

Definition finsh_parser_init : F unit :=
  modify (set_token (mk_token false false 0 token_type_none 0 (replicate FINSH_STRING_MAX 0) []));; modify (set_root None).

(** * [finsh_init.c] and the line of the shell *)

Definition finsh_init : F unit :=
  finsh_parser_init;;
  finsh_node_init;;
  finsh_var_init global_variable_at;;
  finsh_error_init;;
  finsh_heap_init finsh_heap_at.

Definition finsh_flush : F unit := finsh_parser_init;; finsh_node_init;; finsh_error_init.

Definition finsh_reset : F unit :=
  finsh_node_init;; finsh_var_init global_variable_at;; finsh_error_init;; finsh_heap_init finsh_heap_at.

(** The error number or the value that is printed. *)
Definition finsh_run_line (call : Z → list Z → M ram Z) (l : list Z) : F (Z + Z) :=
  finsh_parser_run l;;
  e ← finsh_errno;
  (if e =? 0 then r ← gets root; finsh_compiler_run global_variable_at r else mret tt);;
  e' ← finsh_errno;
  result ←
    (if e' =? 0 then
       on_machine (finsh_vm_run call);;
       v ← on_machine finsh_stack_bottom; mret (inr v)
     else mret (inl e'));
  finsh_flush;;
  mret result.

End Parser.
