(* ===== verification/FinshTree.v ===== *)
(** What the compiler of the shell does, as functions on trees.

    The node table holds first-child/next-sibling trees.  [check_tree] is the type check and
    [code_tree] the byte code of such a tree; the functions of FinshCompile.v, which walk
    through the table and write into the text segment, compute them. *)

From Stdlib Require Import ZArith Lia.
From stdpp Require Import numbers base gmap list.
From S2P Require Import Prelude Bytes FinshVm FinshData FinshCompile.
Local Open Scope Z_scope.

(** * Trees in the node table *)

(** A node with its place in the table, its children and the nodes behind it. *)
Inductive tree := Leaf | Node (i : nat) (n : finsh_node) (c s : tree).

Definition pointer (t : tree) : option nat := match t with Leaf => None | Node i _ _ _ => Some i end.
Definition top (t : tree) : option finsh_node := match t with Leaf => None | Node _ n _ _ => Some n end.
Definition behind (t : tree) : tree := match t with Leaf => Leaf | Node _ _ _ s => s end.

Fixpoint places (t : tree) : list nat :=
  match t with Leaf => [] | Node i _ c s => i :: places c ++ places s end.
Fixpoint height (t : tree) : nat :=
  match t with Leaf => 0 | Node _ _ c s => S (height c `max` height s) end.

(** The table holds the tree. *)
Fixpoint holds_tree (tbl : list finsh_node) (t : tree) : Prop :=
  match t with
  | Leaf => True
  | Node i n c s =>
      tbl !! i = Some n ∧ child n = pointer c ∧ sibling n = pointer s ∧
      holds_tree tbl c ∧ holds_tree tbl s
  end.

Lemma holds_tree_ext tbl tbl' t :
  (∀ i, i ∈ places t → tbl' !! i = tbl !! i) → holds_tree tbl t → holds_tree tbl' t.
Proof.
  induction t as [|i n c IHc s IHs]; intros Hext Ht; [done|]. cbn [places holds_tree] in *.
  destruct Ht as (Hi & ? & ? & Hc & Hs).
  split; [rewrite Hext by set_solver; done|]. split_and!; [done|done|apply IHc|apply IHs]; auto;
    intros j Hj; apply Hext; set_solver.
Qed.

Lemma height_places t : (height t <= length (places t))%nat.
Proof. induction t; cbn [height places length]; [lia|]. rewrite length_app. lia. Qed.

Lemma holds_places tbl t i : holds_tree tbl t → i ∈ places t → (i < length tbl)%nat.
Proof.
  induction t as [|j n c IHc s IHs]; cbn [holds_tree places]; [set_solver|].
  intros (Hj & _ & _ & Hc & Hs) [->|[Hi|Hi]%elem_of_app]%elem_of_cons; [|auto|auto].
  by eapply lookup_lt_Some.
Qed.

(** A table has no more nodes than entries: its size bounds the recursion. *)
Lemma height_bound tbl t :
  holds_tree tbl t → NoDup (places t) → (height t <= length tbl)%nat.
Proof.
  intros Ht Hd. etrans; [apply height_places|].
  transitivity (length (seq 0 (length tbl))); [|by rewrite length_seq].
  apply submseteq_length, NoDup_submseteq; [done|]. intros i Hi. apply elem_of_seq. pose proof (holds_places _ _ _ Ht Hi). lia.
Qed.

(** * The type check on trees *)

Section Check.
Context (vars : list finsh_var).

Definition with_address (is_addr : Z) (n : finsh_node) : finsh_node :=
  if idtype n =? FINSH_IDTYPE_SYSCALL then n else set_idtype (Z.lor (idtype n) is_addr) n.

(** The data type of a node without children, [None] when the code would fail or set the
    error. *)
Definition leaf_type (n : finsh_node) : option Z :=
  let type := node_type n in
  if type =? FINSH_NODE_ID then
    if negb (Z.land (idtype n) FINSH_IDTYPE_VAR =? 0) then
      match id n with
      | Id_var i => x ← vars !! i; type_data (var_type x)
      | No_id => Some (data_type n)
      | _ => None
      end
    else if negb (Z.land (idtype n) FINSH_IDTYPE_SYSVAR =? 0) then
      match id n with
      | Id_sysvar v => type_data (sysvar_type v)
      | No_id => Some (data_type n)
      | _ => None
      end
    else Some (data_type n)
  else if type =? FINSH_NODE_VALUE_CHAR then Some FINSH_DATA_TYPE_BYTE
  else if (type =? FINSH_NODE_VALUE_INT) || (type =? FINSH_NODE_VALUE_LONG)
       || (type =? FINSH_NODE_VALUE_STRING) || (type =? FINSH_NODE_VALUE_NULL) then
    Some FINSH_DATA_TYPE_DWORD
  else Some (data_type n).

Fixpoint check_tree (is_addr : Z) (t : tree) : option tree :=
  match t with
  | Leaf => Some Leaf
  | Node i n c s =>
      c' ← check_tree (child_addr (node_type n) is_addr) c;
      s' ← check_tree FINSH_NODE_VALUE s;
      let n := with_address is_addr n in
      d ← match top c' with Some m => Some (data_type m) | None => leaf_type n end;
      Some (Node i (set_data_type d n) c' s')
  end.

Lemma check_tree_shape is_addr t t' :
  check_tree is_addr t = Some t' → places t' = places t ∧ pointer t' = pointer t ∧ height t' = height t.
Proof.
  revert is_addr t'. induction t as [|i n c IHc s IHs]; intros a t' H; simpl in H; [by injection H as <-|].
  apply bind_Some in H as (c' & Hc & H). apply bind_Some in H as (s' & Hs & H).
  apply bind_Some in H as (d & Hd & [= <-]).
  destruct (IHc _ _ Hc) as (Hp & _ & Hh), (IHs _ _ Hs) as (Hp' & _ & Hh'). simpl.
  by rewrite Hp, Hp', Hh, Hh'.
Qed.

End Check.

(** The walk through the table computes [check_tree] and leaves the error number alone. *)
Lemma wp_get_node s p n Q : global_node_table s !! p = Some n → Q n s → wp (get_node p) s Q.
Proof. intros H ?. unfold get_node. wp_step. wp_step. by eapply wp_deref. Qed.

Lemma wp_upd_node s p f n Q :
  global_node_table s !! p = Some n → Q tt (set_nodes (<[p := f n]> (global_node_table s)) s) →
  wp (upd_node p f) s Q.
Proof. intros H ?. unfold upd_node. wp_step. eapply wp_get_node; [done|]. by wp_step. Qed.

Lemma wp_check_leaf s p n d Q :
  global_node_table s !! p = Some n → leaf_type (global_variable s) n = Some d →
  Q tt (set_nodes (<[p := set_data_type d n]> (global_node_table s)) s) → wp (check_leaf p) s Q.
Proof.
  intros Hp Hd HQ. unfold check_leaf. wp_step. eapply wp_get_node; [done|]. unfold leaf_type in Hd. cbv zeta in *.
  assert (Hsame : data_type n = d → Q tt s).
  { intros <-. replace s with (set_nodes (<[p := set_data_type (data_type n) n]> (global_node_table s)) s); [done|].
    rewrite list_insert_id by (by destruct n). by destruct s. }
  assert (Hset : ∀ type, type_data type = Some d → wp (set_by_type p type) s Q).
  { intros type Ht. unfold set_by_type. rewrite Ht. by eapply wp_upd_node. }
  repeat match goal with
  | |- context [if ?b then _ else _] => destruct b
  end; simplify_eq; try (wp_step; by apply Hsame); try (by eapply wp_upd_node).
  - destruct (id n) as [|i| |] eqn:E; simplify_eq; [wp_step; by apply Hsame|].
    apply bind_Some in Hd as (x & Hx & Hd). wp_step. wp_step. wp_step. eapply wp_deref; [done|]. by apply Hset.
  - destruct (id n) as [| |v|] eqn:E; simplify_eq; [wp_step; by apply Hsame|]. by apply Hset.
Qed.

Lemma holds_tree_insert tbl i n t :
  i ∉ places t → holds_tree tbl t → holds_tree (<[i := n]> tbl) t.
Proof. intros Hi. apply holds_tree_ext. intros j Hj. rewrite list_lookup_insert_ne; [done|set_solver]. Qed.

(** Everything but the nodes of the tree is as before. *)
Definition only_nodes (t : tree) (s s' : finsh) : Prop :=
  ∃ tbl, s' = set_nodes tbl s ∧ ∀ i, i ∉ places t → tbl !! i = global_node_table s !! i.

Lemma wp_type_check fuel t a s t' :
  (height t <= fuel)%nat → NoDup (places t) → holds_tree (global_node_table s) t →
  check_tree (global_variable s) a t = Some t' →
  wp (finsh_type_check fuel (pointer t) a) s (λ _ s',
    holds_tree (global_node_table s') t' ∧ only_nodes t s s').
Proof.
  revert fuel a s t'. induction t as [|i n c IHc r IHr]; intros fuel a s t' Hf Hd Ht Hc.
  { simpl in Hc. injection Hc as <-. destruct fuel; simpl; (wp_step; split; [done|]; exists (global_node_table s);
      split; [by destruct s|done]). }
  cbn [height] in Hf. destruct fuel as [|fuel]; [lia|]. cbn [pointer finsh_type_check].
  cbn [places] in Hd. apply NoDup_cons in Hd as [Hi Hd]. apply NoDup_app in Hd as (Hdc & Hcr & Hdr).
  destruct Ht as (Hn & Hch & Hsb & Htc & Htr). cbn [check_tree] in Hc.
  apply bind_Some in Hc as (c' & Ec & Hc). apply bind_Some in Hc as (r' & Er & Hc).
  apply bind_Some in Hc as (d & Ed & [= <-]).
  wp_step. eapply wp_get_node; [done|]. wp_step. rewrite Hch.
  eapply wp_mono; [apply IHc; [lia|done|done|exact Ec]|].
  intros _ s1 (Hc1 & tbl1 & -> & Hsame1). cbv beta. wp_step. rewrite Hsb.
  assert (Hr1 : holds_tree tbl1 r).
  { eapply holds_tree_ext; [|exact Htr]. intros j Hj. apply Hsame1. intros Hj'. by apply (Hcr j). }
  eapply wp_mono; [apply IHr; [lia|done|exact Hr1|exact Er]|].
  intros _ s2 (Hr2 & tbl2 & -> & Hsame2). cbv beta.
  assert (Hn2 : tbl2 !! i = Some n).
  { rewrite Hsame2, Hsame1; [done|set_solver|set_solver]. }
  assert (Hc2 : holds_tree tbl2 c').
  { eapply holds_tree_ext; [|exact Hc1]. intros j Hj. apply Hsame2.
    apply check_tree_shape in Ec as (E & _). rewrite E in Hj. intros Hj'. by apply (Hcr j). }
  destruct (check_tree_shape _ _ _ _ Ec) as (Epc & Eptc & _), (check_tree_shape _ _ _ _ Er) as (Epr & Eptr & _).
  wp_step. eapply wp_upd_node; [exact Hn2|]. fold (with_address a n).
  set (s2 := set_nodes (<[i := with_address a n]> tbl2) s).
  assert (Hi2 : global_node_table s2 !! i = Some (with_address a n)).
  { apply list_lookup_insert_eq. by eapply lookup_lt_Some. }
  enough (Hdone : ∀ s3, s3 = set_nodes (<[i := set_data_type d (with_address a n)]> (global_node_table s2)) s2 →
    holds_tree (global_node_table s3) (Node i (set_data_type d (with_address a n)) c' r') ∧
    only_nodes (Node i n c r) s s3).
  { destruct (top c') as [m|] eqn:Etop.
    - destruct c' as [|j m' cc sc]; [done|]. injection Etop as ->. injection Ed as <-.
      cbn [pointer] in Eptc. rewrite <- Eptc. wp_step. eapply wp_get_node; [|eapply wp_upd_node; [exact Hi2|by apply Hdone]].
      change ((<[i:=with_address a n]> tbl2) !! j = Some m). cbn [holds_tree] in Hc2.
      rewrite list_lookup_insert_ne; [apply Hc2|]. cbn [places] in Epc. rewrite <- Epc in Hi. set_solver.
    - destruct c'; [|done]. cbn [pointer] in Eptc. rewrite <- Eptc.
      eapply wp_check_leaf; [exact Hi2|exact Ed|by apply Hdone]. }
  intros s3 ->. change (global_node_table s2) with (<[i:=with_address a n]> tbl2).
  rewrite list_insert_insert_eq. split.
  - cbn [holds_tree]. change (global_node_table (set_nodes ?t ?s)) with t. split_and!.
    + apply list_lookup_insert_eq. by eapply lookup_lt_Some.
    + rewrite Eptc, <- Hch. unfold with_address. by destruct (_ =? _).
    + rewrite Eptr, <- Hsb. unfold with_address. by destruct (_ =? _).
    + apply holds_tree_insert; [rewrite Epc; set_solver|done].
    + apply holds_tree_insert; [rewrite Epr; set_solver|done].
  - eexists. split; [reflexivity|]. cbn [places]. intros j Hj.
    rewrite list_lookup_insert_ne by set_solver. rewrite Hsame2, Hsame1 by set_solver. done.
Qed.
