(* ===== verification/FinshExpr.v ===== *)
(** Expressions of the shell: their meaning, their types, their byte code, and the trees of
    nodes that stand for them.

    [eval] is what an expression means, on the memory alone.  [type_of] gives the width at
    which the compiler lets an operator work on an expression and the number of bits of its
    value that the machine computes: the compiler takes the width of an operation from its left
    operand, and operations of a smaller width leave the rest of a slot as it was, so not
    every expression that is accepted has a meaning. *)

From Stdlib Require Import ZArith Lia.
From stdpp Require Import numbers base gmap list.
From S2P Require Import Prelude Bytes FinshVm FinshData FinshCompile FinshTree.
Local Open Scope Z_scope.

Inductive binop := Add | Sub | Mul | Div | Mod | And | Or | Xor | Shl | Shr.

(** A variable of the shell or one that the system exports. *)
Inductive lval := Local_var (i : nat) | System_var (v : finsh_sysvar).

Inductive expr :=
  | Num (v : Z)
  | Chr (c : Z)
  | Var (x : lval)
  | Addr (x : lval)
  | Bin (o : binop) (a b : expr)
  | Not (a : expr)
  | Assign (x : lval) (e : expr)
  | Pre (inc : bool) (i : nat)
  | Post (inc : bool) (i : nat)
  | Deref (e : expr)
  | Store (p e : expr)
  | Call (f : finsh_syscall) (args : exprs)
with exprs := Enil | Econs (e : expr) (es : exprs).

Scheme expr_mut := Induction for expr Sort Prop with exprs_mut := Induction for exprs Sort Prop.
Combined Scheme expr_exprs_ind from expr_mut, exprs_mut.

Fixpoint elength (es : exprs) : nat := match es with Enil => 0 | Econs _ es => S (elength es) end.

Section Language.
Context (global_variable_at : Z) (vars : list finsh_var) (call : Z → list Z → M ram Z).

(** ** Types *)

Definition narrower (v w : width) : bool := bits v <=? bits w.

Definition lval_type (x : lval) : option Z :=
  match x with Local_var i => var_type <$> vars !! i | System_var v => Some (sysvar_type v) end.
Definition lval_at (x : lval) : Z :=
  match x with Local_var i => value_at global_variable_at i | System_var v => sysvar_var v end.
Definition lval_width (x : lval) : option width := t ← lval_type x; load_width t.

Fixpoint type_of (e : expr) : option (option width * width) :=
  match e with
  | Num _ => Some (Some DWORD, DWORD)
  | Chr _ => Some (Some BYTE, BYTE)
  | Var x => w ← lval_width x; Some (Some w, w)
  | Addr x => w ← lval_width x; Some (Some w, DWORD)
  | Bin _ a b =>
      '(wa, va) ← type_of a; '(_, vb) ← type_of b; w ← wa;
      if narrower w va && narrower w vb then Some (Some w, w) else None
  | Not a => '(wa, va) ← type_of a; w ← wa; if narrower w va then Some (Some w, w) else None
  | Assign x e =>
      w ← lval_width x; '(_, v) ← type_of e; if narrower w v then Some (Some w, w) else None
  | Pre _ i =>
      w ← lval_width (Local_var i);
      match w with DWORD => Some (Some DWORD, DWORD) | _ => None end
  | Post _ i => w ← lval_width (Local_var i); Some (Some w, w)
  | Deref e =>
      t ← type_of e;
      match t with (Some DWORD, DWORD) => Some (Some DWORD, DWORD) | _ => None end
  | Store p e =>
      t ← type_of p; '(_, v) ← type_of e;
      match t, v with (Some DWORD, DWORD), DWORD => Some (Some DWORD, DWORD) | _, _ => None end
  | Call _ args =>
      if types_of args && (elength args <=? 16)%nat then Some (None, DWORD) else None
  end
(** All arguments have the width of a [long]. *)
with types_of (es : exprs) : bool :=
  match es with
  | Enil => true
  | Econs e es => match type_of e with Some (_, DWORD) => types_of es | _ => false end
  end.

(** The width of the operation on an expression; of its value. *)
Definition width_of (e : expr) : width :=
  match type_of e with Some (Some w, _) => w | _ => DWORD end.
Definition valid_of (e : expr) : width :=
  match type_of e with Some (_, w) => w | _ => DWORD end.
Definition width_at (x : lval) : width := default DWORD (lval_width x).

(** ** Meaning *)

Definition operator (o : binop) : Z → Z → option Z :=
  match o with
  | Add => total Z.add | Sub => total Z.sub | Mul => total Z.mul | Div => c_div | Mod => c_mod
  | And => total Z.land | Or => total Z.lor | Xor => total Z.lxor | Shl => c_shl | Shr => c_shr
  end.

Definition fetch (w : width) (a : Z) : M ram Z := rd_word (size_of w) (u32 a).
Definition assign_at (w : width) (a v : Z) : M ram unit := wr_word (size_of w) (u32 a) (field w v).

Definition step_of (inc : bool) (v : Z) : Z := if inc then v + 1 else v - 1.

Fixpoint eval (e : expr) : M ram Z :=
  match e with
  | Num v => mret v
  | Chr c => mret c
  | Var x => fetch (width_at x) (lval_at x)
  | Addr x => mret (lval_at x)
  | Bin o a b =>
      x ← eval a; y ← eval b; undefined (operator o (field (width_of a) x) (field (width_of a) y))
  | Not a => x ← eval a; mret (Z.lnot (field (width_of a) x))
  | Assign x e => v ← eval e; assign_at (width_at x) (lval_at x) v;; mret v
  | Pre inc i =>
      let x := Local_var i in
      v ← fetch DWORD (lval_at x);
      let v := step_of inc (field DWORD v) in
      assign_at DWORD (lval_at x) v;; mret v
  | Post inc i =>
      let x := Local_var i in
      v ← fetch (width_at x) (lval_at x);
      assign_at (width_at x) (lval_at x) (step_of inc (field (width_at x) v));; mret v
  | Deref e => a ← eval e; fetch DWORD a
  | Store p e => a ← eval p; v ← eval e; assign_at DWORD a v;; mret v
  | Call f args => vs ← evals args; call (u32 (syscall_func f)) (match vs with [] => [0] | _ => vs end)
  end
with evals (es : exprs) : M ram (list Z) :=
  match es with Enil => mret [] | Econs e es => v ← eval e; vs ← evals es; mret (u32 v :: vs) end.

(** ** Byte code *)

Definition by_width (w : width) (byte : Z) : Z :=
  match w with BYTE => byte | WORD => byte + 1 | DWORD => byte + 2 end.
Definition op_base (o : binop) : Z :=
  match o with
  | Add => FINSH_OP_ADD_BYTE | Sub => FINSH_OP_SUB_BYTE | Mul => FINSH_OP_MUL_BYTE
  | Div => FINSH_OP_DIV_BYTE | Mod => FINSH_OP_MOD_BYTE | And => FINSH_OP_AND_BYTE
  | Or => FINSH_OP_OR_BYTE | Xor => FINSH_OP_XOR_BYTE | Shl => FINSH_OP_SHL_BYTE
  | Shr => FINSH_OP_SHR_BYTE
  end.

Definition dword (v : Z) : list Z := le_bytes 4 (u32 v).
Definition load_const (v : Z) : list Z := FINSH_OP_LD_DWORD :: dword v.
Definition load_from (w : width) (a : Z) : list Z := by_width w FINSH_OP_LD_VALUE_BYTE :: dword a.

(** The constant 1 at a width. *)
Definition load_one (w : width) : list Z := by_width w FINSH_OP_LD_BYTE :: le_bytes (size_of w) 1.
Definition step_code (inc : bool) (w : width) (a : Z) : list Z :=
  load_from w a ++ load_one w ++
  [by_width w (if inc then FINSH_OP_ADD_BYTE else FINSH_OP_SUB_BYTE); by_width w FINSH_OP_ST_BYTE].

Fixpoint code (e : expr) : list Z :=
  match e with
  | Num v => load_const v
  | Chr c => [FINSH_OP_LD_BYTE; u8 c]
  | Var x => load_from (width_at x) (lval_at x)
  | Addr x => load_const (lval_at x)
  | Bin o a b => code a ++ code b ++ [by_width (width_of a) (op_base o)]
  | Not a => code a ++ [by_width (width_of a) FINSH_OP_BITWISE_BYTE]
  | Assign x e =>
      load_const (lval_at x) ++ code e ++
      [by_width (width_at x) FINSH_OP_ST_BYTE; by_width (width_at x) FINSH_OP_LD_VALUE_BYTE_STACK]
  | Pre inc i =>
      let a := lval_at (Local_var i) in
      load_const a ++ step_code inc DWORD a ++ [FINSH_OP_LD_VALUE_DWORD_STACK]
  | Post inc i =>
      let a := lval_at (Local_var i) in
      load_from (width_at (Local_var i)) a ++ load_const a ++
      step_code inc (width_at (Local_var i)) a ++ [FINSH_OP_POP]
  | Deref e => code e ++ [FINSH_OP_LD_VALUE_DWORD_STACK]
  | Store p e => code p ++ code e ++ [FINSH_OP_ST_DWORD; FINSH_OP_LD_VALUE_DWORD_STACK]
  | Call f args =>
      load_const (syscall_func f) ++ codes args ++ [FINSH_OP_SYSCALL; Z.of_nat (elength args)]
  end
with codes (es : exprs) : list Z :=
  match es with Enil => [] | Econs e es => code e ++ codes es end.

(** ** Trees *)

Definition is_lval (x : lval) (n : finsh_node) : Prop :=
  node_type n = FINSH_NODE_ID ∧
  match x with
  | Local_var i => id n = Id_var i ∧ idtype n = FINSH_IDTYPE_VAR
  | System_var v => id n = Id_sysvar v ∧ idtype n = FINSH_IDTYPE_SYSVAR
  end.

Definition node_of_binop (o : binop) : Z :=
  match o with
  | Add => FINSH_NODE_SYS_ADD | Sub => FINSH_NODE_SYS_SUB | Mul => FINSH_NODE_SYS_MUL
  | Div => FINSH_NODE_SYS_DIV | Mod => FINSH_NODE_SYS_MOD | And => FINSH_NODE_SYS_AND
  | Or => FINSH_NODE_SYS_OR | Xor => FINSH_NODE_SYS_XOR | Shl => FINSH_NODE_SYS_SHL
  | Shr => FINSH_NODE_SYS_SHR
  end.

(** The node and its children stand for the expression; what is behind it does not matter. *)
Fixpoint is_expr (e : expr) (t : tree) : Prop :=
  match t with
  | Leaf => False
  | Node _ n c _ =>
      match e with
      | Num v =>
          (node_type n = FINSH_NODE_VALUE_INT ∨ node_type n = FINSH_NODE_VALUE_LONG ∨
           node_type n = FINSH_NODE_VALUE_STRING ∨ node_type n = FINSH_NODE_VALUE_NULL) ∧
          value n = u32 v ∧ c = Leaf
      | Chr k => node_type n = FINSH_NODE_VALUE_CHAR ∧ u8 (value n) = u8 k ∧ c = Leaf
      | Var x => is_lval x n ∧ c = Leaf
      | Addr x =>
          node_type n = FINSH_NODE_SYS_GETADDR ∧ idtype n = 0 ∧
          match c with Node _ m Leaf Leaf => is_lval x m | _ => False end
      | Bin o a b =>
          node_type n = node_of_binop o ∧ idtype n = 0 ∧
          is_expr a c ∧ is_expr b (behind c) ∧ behind (behind c) = Leaf
      | Not a => node_type n = FINSH_NODE_SYS_BITWISE ∧ idtype n = 0 ∧ is_expr a c ∧ behind c = Leaf
      | Assign x e =>
          node_type n = FINSH_NODE_SYS_ASSIGN ∧ idtype n = 0 ∧
          match c with Node _ m Leaf r => is_lval x m ∧ is_expr e r ∧ behind r = Leaf | _ => False end
      | Pre inc i =>
          node_type n = (if inc then FINSH_NODE_SYS_PREINC else FINSH_NODE_SYS_PREDEC) ∧ idtype n = 0 ∧
          match c with Node _ m Leaf Leaf => is_lval (Local_var i) m | _ => False end
      | Post inc i =>
          node_type n = (if inc then FINSH_NODE_SYS_INC else FINSH_NODE_SYS_DEC) ∧ idtype n = 0 ∧
          match c with Node _ m Leaf Leaf => is_lval (Local_var i) m | _ => False end
      | Deref e => node_type n = FINSH_NODE_SYS_GETVALUE ∧ idtype n = 0 ∧ is_expr e c ∧ behind c = Leaf
      | Store p e =>
          node_type n = FINSH_NODE_SYS_ASSIGN ∧ idtype n = 0 ∧
          match c with
          | Node _ m d r =>
              node_type m = FINSH_NODE_SYS_GETVALUE ∧ idtype m = 0 ∧ is_expr p d ∧ behind d = Leaf ∧
              is_expr e r ∧ behind r = Leaf
          | Leaf => False
          end
      | Call f args =>
          node_type n = FINSH_NODE_SYS_FUNC ∧ idtype n = 0 ∧
          match c with
          | Node _ m Leaf r =>
              node_type m = FINSH_NODE_ID ∧ id m = Id_syscall f ∧ idtype m = FINSH_IDTYPE_SYSCALL ∧
              data_type m = FINSH_DATA_TYPE_VOID ∧ is_exprs args r
          | _ => False
          end
      end
  end
with is_exprs (es : exprs) (t : tree) : Prop :=
  match es with
  | Enil => t = Leaf
  | Econs e es => is_expr e t ∧ is_exprs es (behind t)
  end.

End Language.
