(* ===== verification/FinshCode.v ===== *)
(** The compiler of the shell writes the byte code of FinshExpr.v: for a tree that stands for
    an expression with a type, [finsh_type_check] followed by [finsh_compile] appends [code e]
    to the text segment and does nothing else. *)

From Stdlib Require Import ZArith Lia.
From stdpp Require Import numbers base gmap list.
From S2P Require Import Prelude Bytes FinshVm FinshData FinshCompile FinshTree FinshExpr.
Local Open Scope Z_scope.

(** * Writing to the text segment *)

(** The state with [l] appended to the code. *)
Definition emitted (l : list Z) (s : finsh) : finsh :=
  set_compile_pc (finsh_compile_pc s + Z.of_nat (length l))
    (set_machine (set_text (list_inserts (Z.to_nat (finsh_compile_pc s)) l (text_segment (machine s)))
                    (machine s)) s).

(** In states with these nodes and variables, the computation appends [l] and does nothing else,
    provided that there is room for it. *)
Definition emits (tbl : list finsh_node) (vars : list finsh_var) (m : F unit) (l : list Z) : Prop :=
  ∀ s, global_node_table s = tbl → global_variable s = vars →
    0 <= finsh_compile_pc s →
    finsh_compile_pc s + Z.of_nat (length l) <= Z.of_nat (length (text_segment (machine s))) →
    wp m s (λ _ s', s' = emitted l s).

Lemma emitted_nil s : emitted [] s = s.
Proof. unfold emitted. simpl. rewrite Z.add_0_r. by destruct s as [?????????? []]. Qed.

Lemma emitted_app l1 l2 s :
  0 <= finsh_compile_pc s → emitted l2 (emitted l1 s) = emitted (l1 ++ l2) s.
Proof.
  intros Hpc. unfold emitted. cbn. rewrite length_app, Nat2Z.inj_add, Z.add_assoc.
  rewrite list_inserts_app_l.
  by replace (Z.to_nat (finsh_compile_pc s + Z.of_nat (length l1)))
    with (length l1 + Z.to_nat (finsh_compile_pc s))%nat by lia.
Qed.

Section Emission.
Context {tbl : list finsh_node} {vars : list finsh_var}.
Local Notation emits := (emits tbl vars).

Lemma emits_ret : emits (mret tt) [].
Proof. intros s _ _ _ _. wp_step. by rewrite emitted_nil. Qed.

Lemma emits_bind m1 m2 l1 l2 : emits m1 l1 → emits m2 l2 → emits (m1;; m2) (l1 ++ l2).
Proof.
  intros H1 H2 s Ht Hv Hpc Hroom. rewrite length_app, Nat2Z.inj_add in Hroom. wp_step.
  eapply wp_mono; [apply H1; [done|done|done|lia]|]. intros _ s' ->. cbv beta.
  eapply wp_mono; [apply H2; [done|done|cbn; lia|]|].
  - cbn. rewrite length_inserts. lia.
  - intros _ s' ->. cbv beta. by apply emitted_app.
Qed.

Lemma emits_byte x : emits (finsh_code_byte x) [u8 x].
Proof.
  intros s _ _ Hpc Hroom. cbn [length] in Hroom. unfold finsh_code_byte, on_machine. wp_steps. unfold put_text, text. wp_steps.
  unfold at_index. destruct (Z.leb_spec 0 (finsh_compile_pc s)); [|lia].
  destruct (lookup_lt_is_Some_2 (text_segment (machine s)) (Z.to_nat (finsh_compile_pc s))) as [b Hb]; [lia|].
  eapply wp_deref; [exact Hb|]. wp_steps. unfold emitted. cbn. by destruct s as [?????????? []].
Qed.

Lemma emits_eq m l l' : emits m l → l = l' → emits m l'.
Proof. by intros ? <-. Qed.
Lemma emits_dword x : emits (finsh_code_dword x) (dword x).
Proof.
  unfold finsh_code_dword, dword. assert (Hx : 0 <= u32 x < 2 ^ 32) by (apply Z.mod_pos_bound; lia).
  set (y := u32 x) in *. cbv zeta.
  assert (Hl : ∀ z, Z.land z 255 = z mod 256) by (intros z; apply (Z.land_ones z 8); lia).
  eapply emits_eq.
  - apply emits_bind; [apply emits_byte|]. apply emits_bind; [apply emits_byte|].
    apply emits_bind; [apply emits_byte|]. apply emits_byte.
  - cbn [le_bytes app]. rewrite !Hl, !Z.shiftr_div_pow2 by lia. unfold wrap. change (2 ^ 8) with 256.
    rewrite !Z.div_div by lia. rewrite !Zmod_mod. done.
Qed.

Lemma emits_one w : emits (match w with BYTE => finsh_code_byte 1 | WORD => finsh_code_word 1 | DWORD => finsh_code_dword 1 end)
  (le_bytes (size_of w) 1).
Proof.
  destruct w; [apply emits_byte| |apply emits_dword].
  eapply emits_eq; [apply emits_bind; apply emits_byte|done].
Qed.

Lemma emits_node at_ i n c r fuel lc ln lr :
  holds_tree tbl (Node i n c r) →
  emits (finsh_compile at_ fuel (pointer c)) lc → emits (code_with at_ n (top c)) ln →
  emits (finsh_compile at_ fuel (pointer r)) lr →
  emits (finsh_compile at_ (S fuel) (Some i)) (lc ++ ln ++ lr).
Proof.
  intros (Hi & Hc & Hr & Htc & _) H1 H2 H3. cbn [finsh_compile].
  assert (Hget : ∀ (k : finsh_node → F unit) l, emits (k n) l → emits (get_node i ≫= k) l).
  { intros k l Hk s Ht Hv Hp Hl. wp_step. eapply wp_get_node; [by rewrite Ht|]. by apply Hk. }
  apply Hget. rewrite Hc. apply emits_bind; [done|]. apply Hget. apply emits_bind; [|by rewrite Hr].
  unfold code_node. rewrite Hc. destruct c as [|j m d q]; [done|]. cbn [pointer top] in *.
  intros s Ht Hv Hp Hl. wp_step. eapply wp_get_node; [rewrite Ht; apply Htc|]. by apply H2.
Qed.

End Emission.

(** * Checked expressions *)

Section Expressions.
Context (at_ : Z) (vars : list finsh_var).

(** The data type that the type check gives to an expression. *)
Definition data_code (w : option width) : Z :=
  match w with
  | None => FINSH_DATA_TYPE_VOID | Some BYTE => FINSH_DATA_TYPE_BYTE
  | Some WORD => FINSH_DATA_TYPE_WORD | Some DWORD => FINSH_DATA_TYPE_DWORD
  end.

Lemma load_width_data type w : load_width type = Some w → type_data type = Some (data_code (Some w)).
Proof.
  unfold load_width, type_data. intros H.
  destruct (Z.eqb_spec type finsh_type_void) as [->|]; [done|].
  repeat case_match; simplify_eq; try done;
    repeat match goal with H : _ || _ = true |- _ => apply orb_true_iff in H as [H|H] end;
    repeat match goal with H : (_ =? _) = true |- _ => apply Z.eqb_eq in H end; by subst.
Qed.

Lemma emits_typed tbl w b :
  u8 (by_width w b) = by_width w b →
  emits tbl vars (code_typed (data_code (Some w)) b (b + 1) (b + 2)) [by_width w b].
Proof. intros Hb. destruct w; cbn in *; (eapply emits_eq; [apply emits_byte|by rewrite Hb]). Qed.

Lemma by_width_load w : ld_value w = by_width w FINSH_OP_LD_VALUE_BYTE.
Proof. by destruct w. Qed.

(** A variable, as a value and as an address. *)
Lemma emits_load tbl type w idt addr :
  load_width type = Some w →
  emits tbl vars (code_load type idt addr)
    (if Z.land idt FINSH_IDTYPE_ADDRESS =? 0 then load_from w addr else load_const addr).
Proof.
  intros Hw. unfold code_load. rewrite Hw. unfold load_from, load_const.
  destruct (Z.land idt FINSH_IDTYPE_ADDRESS =? 0).
  - eapply emits_eq; [apply emits_bind; [apply emits_byte|apply emits_dword]|]. by destruct w.
  - eapply emits_eq; [apply emits_bind; [apply emits_byte|apply emits_dword]|]. done.
Qed.

Lemma emits_store tbl w :
  emits tbl vars (code_store (data_code (Some w)))
    [by_width w FINSH_OP_ST_BYTE; by_width w FINSH_OP_LD_VALUE_BYTE_STACK].
Proof.
  destruct w; cbn; (eapply emits_eq; [apply emits_bind; apply emits_byte|done]).
Qed.

Lemma emits_step tbl (inc : bool) (w : width) (addr : Z) :
  emits tbl vars
    (code_step (data_code (Some w)) addr (if inc then FINSH_OP_ADD_BYTE else FINSH_OP_SUB_BYTE)
       (if inc then FINSH_OP_ADD_WORD else FINSH_OP_SUB_WORD)
       (if inc then FINSH_OP_ADD_DWORD else FINSH_OP_SUB_DWORD))
    (step_code inc w addr).
Proof.
  destruct w; cbn -[finsh_code_byte finsh_code_word finsh_code_dword dword].
  all: eapply emits_eq;
    [apply emits_bind; [apply emits_byte|]; apply emits_bind; [apply emits_dword|];
     apply emits_bind; [apply emits_byte|]; apply emits_bind; [first [apply (emits_one BYTE)|apply (emits_one WORD)|apply (emits_one DWORD)]|];
     apply emits_bind; apply emits_byte|by destruct inc].
Qed.

(** The code of an identifier that is a variable. *)
Lemma emits_id tbl x n w :
  node_type n = FINSH_NODE_ID → lval_width vars x = Some w →
  match x with
  | Local_var i => id n = Id_var i ∧ (idtype n = 1 ∨ idtype n = 9)
  | System_var v => id n = Id_sysvar v ∧ (idtype n = 2 ∨ idtype n = 10)
  end →
  emits tbl vars (code_id at_ n)
    (if Z.land (idtype n) FINSH_IDTYPE_ADDRESS =? 0 then load_from w (lval_at at_ x)
     else load_const (lval_at at_ x)).
Proof.
  intros Hn Hw Hx. unfold lval_width in Hw. apply bind_Some in Hw as (type & Ht & Hw).
  unfold code_id. destruct x as [i|sv].
  - apply fmap_Some in Ht as (xv & Hv & ->).
    assert (H : ∀ idt, emits tbl vars (t ← gets global_variable; x ← deref (t !! i);
        code_load (var_type x) idt (value_at at_ i))
      (if Z.land idt FINSH_IDTYPE_ADDRESS =? 0 then load_from w (value_at at_ i) else load_const (value_at at_ i))).
    { intros idt s Hs Hvs Hp Hl. wp_step. wp_step. wp_step. rewrite Hvs. eapply wp_deref; [exact Hv|].
      by apply (emits_load tbl _ w). }
    destruct Hx as [Hid [Hidt|Hidt]]; rewrite Hid, Hidt; apply H.
  - injection Ht as <-.
    destruct Hx as [Hid [Hidt|Hidt]]; rewrite Hid, Hidt; by apply emits_load.
Qed.

(** A checked node of a variable. *)
Lemma check_lval x n w a :
  is_lval x n → lval_width vars x = Some w → a = 0 ∨ a = FINSH_IDTYPE_ADDRESS →
  leaf_type vars (with_address a n) = Some (data_code (Some w)) ∧
  ∀ tbl, emits tbl vars (code_with at_ (set_data_type (data_code (Some w)) (with_address a n)) None)
    (if a =? 0 then load_from w (lval_at at_ x) else load_const (lval_at at_ x)).
Proof.
  intros [Hn Hx] Hw Ha. split.
  - unfold lval_width in Hw. apply bind_Some in Hw as (type & Ht & Hw). apply load_width_data in Hw.
    destruct n as [nt dt it v x' sb ch]. cbn in Hn. subst nt.
    destruct x as [j|sv]; cbn in Hx, Ht; destruct Hx as [-> ->].
    + apply fmap_Some in Ht as (xv & Hv & ->).
      destruct Ha as [->| ->]; cbn -[data_code type_data]; rewrite Hv; exact Hw.
    + injection Ht as <-. destruct Ha as [->| ->]; cbn -[data_code type_data]; exact Hw.
  - intros tbl. set (m := set_data_type _ _).
    assert (Hm : node_type m = FINSH_NODE_ID).
    { unfold m, with_address. by destruct (_ =? _). }
    unfold code_with. cbv zeta. rewrite Hm. change (FINSH_NODE_ID =? FINSH_NODE_ID) with true. cbv iota.
    eapply emits_eq; [apply (emits_id tbl x); [done|exact Hw|]|].
    + unfold m, with_address. destruct x as [j|sv]; destruct Hx as [Hid ->]; (split; [exact Hid|destruct Ha as [->| ->]; by (left + right)]).
    + unfold m, with_address. destruct x as [j|sv]; destruct Hx as [Hid ->]; destruct Ha as [->| ->]; done.
Qed.

(** ** One node *)

Definition compiles (tbl : list finsh_node) (t : tree) (l : list Z) : Prop :=
  ∀ fuel, (height t <= fuel)%nat → emits tbl vars (finsh_compile at_ fuel (pointer t)) l.

Definition checked (a d : Z) (n : finsh_node) : finsh_node := set_data_type d (with_address a n).

Lemma compiles_leaf tbl : compiles tbl Leaf [].
Proof. intros [|fuel] _; apply emits_ret. Qed.

Lemma compiles_node tbl i n c r lc ln lr :
  holds_tree tbl (Node i n c r) → compiles tbl c lc → emits tbl vars (code_with at_ n (top c)) ln →
  compiles tbl r lr → compiles tbl (Node i n c r) (lc ++ ln ++ lr).
Proof.
  intros Ht Hc Hn Hr [|fuel] Hf; cbn [height] in Hf; [lia|].
  eapply emits_node; [done|apply Hc; lia|done|apply Hr; lia].
Qed.

Lemma check_node a i n c s c' s' d :
  check_tree vars (child_addr (node_type n) a) c = Some c' → check_tree vars 0 s = Some s' →
  match top c' with Some m => Some (data_type m) | None => leaf_type vars (with_address a n) end = Some d →
  check_tree vars a (Node i n c s) = Some (Node i (checked a d n) c' s').
Proof. intros Hc Hs Hd. cbn [check_tree]. rewrite Hc. unfold FINSH_NODE_VALUE. cbn [mbind option_bind]. rewrite Hs. cbn [mbind option_bind]. by rewrite Hd. Qed.

Lemma checked_type a d n : node_type (checked a d n) = node_type n.
Proof. unfold checked, with_address. by destruct (_ =? _). Qed.
Lemma checked_value a d n : value (checked a d n) = value n.
Proof. unfold checked, with_address. by destruct (_ =? _). Qed.
Lemma checked_id a d n : id (checked a d n) = id n.
Proof. unfold checked, with_address. by destruct (_ =? _). Qed.
Lemma checked_data a d n : data_type (checked a d n) = d.
Proof. done. Qed.

Lemma dword_u32 v : dword (u32 v) = dword v.
Proof. unfold dword, wrap. by rewrite Zmod_mod. Qed.

(** * Expressions *)

(** What the type check and the compiler make of an expression. *)
Definition compiled (e : expr) : Prop :=
  ∀ t w r', is_expr e t → type_of vars e = Some w → check_tree vars 0 (behind t) = Some r' →
  ∃ i n c', check_tree vars 0 t = Some (Node i n c' r') ∧ data_type n = data_code w.1 ∧
    ∀ tbl l, holds_tree tbl (Node i n c' r') → (height (Node i n c' r') <= node_fuel)%nat →
      compiles tbl r' l → compiles tbl (Node i n c' r') (code at_ vars e ++ l).

Definition compiled_list (es : exprs) : Prop :=
  ∀ t, is_exprs es t → types_of vars es = true →
  ∃ t', check_tree vars 0 t = Some t' ∧
    ∀ tbl, holds_tree tbl t' → (height t' <= node_fuel)%nat →
      compiles tbl t' (codes at_ vars es) ∧
      ∀ fuel s Q, (height t' <= fuel)%nat → global_node_table s = tbl → Q (Z.of_nat (elength es)) s →
        wp (count_siblings fuel (pointer t')) s Q.

(** An expression without nodes behind it. *)
Lemma compiled_last e t w :
  compiled e → is_expr e t → type_of vars e = Some w → behind t = Leaf →
  ∃ i n c', check_tree vars 0 t = Some (Node i n c' Leaf) ∧ data_type n = data_code w.1 ∧
    ∀ tbl, holds_tree tbl (Node i n c' Leaf) → (height (Node i n c' Leaf) <= node_fuel)%nat →
      compiles tbl (Node i n c' Leaf) (code at_ vars e).
Proof.
  intros He Ht Hw Hb. destruct (He t w Leaf) as (i & n & c' & Hc & Hd & Hcomp); [done|done|by rewrite Hb|].
  exists i, n, c'. split_and!; [done|done|]. intros tbl Hh Hf. rewrite <- (app_nil_r (code _ _ _)).
  apply Hcomp; [done|done|apply compiles_leaf].
Qed.

Lemma compiled_Num v : compiled (Num v).
Proof.
  intros [|i n c r] w r' Ht [= <-] Hr; [done|]. destruct Ht as (Hn & Hv & ->).
  eexists i, (checked 0 FINSH_DATA_TYPE_DWORD n), Leaf. split_and!; [|done|].
  - apply check_node; [done|done|]. cbn [top]. unfold leaf_type. cbv zeta.
    replace (node_type (with_address 0 n)) with (node_type n) by (unfold with_address; by destruct (_ =? _)).
    by destruct Hn as [->|[->|[->| ->]]].
  - intros tbl l Hh Hf Hl. apply (compiles_node tbl i _ _ _ []); [done|apply compiles_leaf| |done].
    assert (Hemit : emits tbl vars (finsh_code_byte FINSH_OP_LD_DWORD;; finsh_code_dword (value n)) (load_const v)).
    { eapply emits_eq; [apply emits_bind; [apply emits_byte|apply emits_dword]|]. rewrite Hv, dword_u32. done. }
    unfold code_with. cbv zeta. rewrite checked_type, checked_value.
    destruct Hn as [->|[->|[->| ->]]]; exact Hemit.
Qed.

Lemma compiled_Chr k : compiled (Chr k).
Proof.
  intros [|i n c r] w r' Ht [= <-] Hr; [done|]. destruct Ht as (Hn & Hv & ->).
  eexists i, (checked 0 FINSH_DATA_TYPE_BYTE n), Leaf. split_and!; [|done|].
  - apply check_node; [done|done|]. cbn [top]. unfold leaf_type. cbv zeta.
    replace (node_type (with_address 0 n)) with (node_type n) by (unfold with_address; by destruct (_ =? _)).
    by rewrite Hn.
  - intros tbl l Hh Hf Hl. apply (compiles_node tbl i _ _ _ []); [done|apply compiles_leaf| |done].
    unfold code_with. cbv zeta. rewrite checked_type, checked_value, Hn.
    eapply emits_eq; [apply emits_bind; apply emits_byte|]. cbn [field]. rewrite Hv. unfold wrap.
    by rewrite Zmod_mod.
Qed.

(** The node of a variable, with the nodes behind it. *)
Lemma compiled_lval x j m r r' w a :
  is_lval x m → lval_width vars x = Some w → a = 0 ∨ a = FINSH_IDTYPE_ADDRESS →
  check_tree vars 0 r = Some r' →
  check_tree vars a (Node j m Leaf r) = Some (Node j (checked a (data_code (Some w)) m) Leaf r') ∧
  ∀ tbl l, holds_tree tbl (Node j (checked a (data_code (Some w)) m) Leaf r') → compiles tbl r' l →
    compiles tbl (Node j (checked a (data_code (Some w)) m) Leaf r')
      ((if a =? 0 then load_from w (lval_at at_ x) else load_const (lval_at at_ x)) ++ l).
Proof.
  intros Hm Hw Ha Hr. destruct (check_lval x m w a Hm Hw Ha) as [Hleaf Hcode]. split.
  - by apply check_node.
  - intros tbl l Hh Hl. apply (compiles_node tbl j _ _ _ []); [done|apply compiles_leaf|apply Hcode|done].
Qed.

Lemma lval_node x m : is_lval x m → node_type m = FINSH_NODE_ID.
Proof. by intros [? _]. Qed.

Lemma compiled_Var x : compiled (Var x).
Proof.
  intros [|i n c r] w r' Ht Hw Hr; [done|]. destruct Ht as (Hn & ->).
  cbn [type_of] in Hw. apply bind_Some in Hw as (w0 & Hw & [= <-]).
  destruct (compiled_lval x i n r r' w0 0) as [Hc Hcode]; [done|done|by left|done|].
  eexists i, _, Leaf. split_and!; [exact Hc|done|]. intros tbl l Hh _ Hl.
  cbn [code]. unfold width_at. rewrite Hw. by apply Hcode.
Qed.

(** A node with children: the children's code, then its own. *)
Lemma compiled_up i n c r c' r' m d lc ln :
  check_tree vars (child_addr (node_type n) 0) c = Some c' → check_tree vars 0 r = Some r' →
  top c' = Some m → data_type m = d →
  (∀ tbl, holds_tree tbl c' → (height c' <= node_fuel)%nat →
    compiles tbl c' lc ∧ emits tbl vars (code_with at_ (checked 0 d n) (Some m)) ln) →
  ∃ j n' c'', check_tree vars 0 (Node i n c r) = Some (Node j n' c'' r') ∧ data_type n' = d ∧
    ∀ tbl l, holds_tree tbl (Node j n' c'' r') → (height (Node j n' c'' r') <= node_fuel)%nat →
      compiles tbl r' l → compiles tbl (Node j n' c'' r') ((lc ++ ln) ++ l).
Proof.
  intros Hc Hr Htop Hd Hcode. exists i, (checked 0 d n), c'. split_and!; [|done|].
  - apply check_node; [done|done|]. by rewrite Htop, Hd.
  - intros tbl l Hh Hf Hl. cbn [height] in Hf. pose proof Hh as (_ & _ & _ & Hhc & _).
    destruct (Hcode tbl) as [H1 H2]; [done|lia|]. rewrite <- app_assoc.
    apply compiles_node; [done|done|by rewrite Htop|done].
Qed.

Lemma compiled_Addr x : compiled (Addr x).
Proof.
  intros [|i n c r] w r' Ht Hw Hr; [done|]. destruct Ht as (Hn & Hid & Hm).
  cbn [type_of] in Hw. apply bind_Some in Hw as (w0 & Hw & [= <-]).
  destruct c as [|j m [|] [|]]; try done.
  destruct (compiled_lval x j m Leaf Leaf w0 FINSH_IDTYPE_ADDRESS) as [Hc Hcode]; [done|done|by right|done|].
  replace (code at_ vars (Addr x)) with ((load_const (lval_at at_ x) ++ []) ++ []) by (by rewrite !app_nil_r).
  eapply compiled_up; [rewrite Hn; exact Hc|done|done|done|]. intros tbl Hh _. split.
  - apply Hcode; [done|apply compiles_leaf].
  - unfold code_with. cbv zeta. rewrite checked_type, Hn. apply emits_ret.
Qed.

Lemma node_typed o tbl n a w first :
  node_type n = node_of_binop o →
  emits tbl vars (code_with at_ (checked a (data_code (Some w)) n) first) [by_width w (op_base o)].
Proof.
  intros Hn. unfold code_with. cbv zeta. rewrite checked_type, checked_data, Hn.
  destruct o; apply emits_typed; by destruct w.
Qed.

Lemma compiled_Bin o a b : compiled a → compiled b → compiled (Bin o a b).
Proof.
  intros Ha Hb [|i n c r] w r' Ht Hw Hr; [done|]. destruct Ht as (Hn & Hid & Hta & Htb & Hlast).
  cbn [type_of] in Hw. apply bind_Some in Hw as ([wa va] & Ewa & Hw). apply bind_Some in Hw as ([wb vb] & Ewb & Hw).
  apply bind_Some in Hw as (w0 & -> & Hw). destruct (_ && _); [|done]. injection Hw as <-.
  destruct (compiled_last b _ _ Hb Htb Ewb Hlast) as (j & m & d & Hcb & _ & Hcodeb).
  destruct (Ha c _ _ Hta Ewa Hcb) as (k & p & q & Hca & Hda & Hcodea).
  replace (code at_ vars (Bin o a b)) with ((code at_ vars a ++ code at_ vars b) ++ [by_width w0 (op_base o)]).
  2:{ cbn [code]. unfold width_of. rewrite Ewa. by rewrite <- app_assoc. }
  assert (Hch : child_addr (node_type n) 0 = 0) by (rewrite Hn; by destruct o).
  eapply compiled_up; [rewrite Hch; exact Hca|done|done|exact Hda|].
  - intros tbl Hh Hf. split; [|by apply node_typed]. apply Hcodea; [done|done|]. cbn [height holds_tree] in *.
    apply Hcodeb; [apply Hh|lia].
Qed.

Lemma compiled_Not a : compiled a → compiled (Not a).
Proof.
  intros Ha [|i n c r] w r' Ht Hw Hr; [done|]. destruct Ht as (Hn & Hid & Hta & Hlast).
  cbn [type_of] in Hw. apply bind_Some in Hw as ([wa va] & Ewa & Hw).
  apply bind_Some in Hw as (w0 & -> & Hw). destruct (narrower _ _); [|done]. injection Hw as <-.
  destruct (compiled_last a _ _ Ha Hta Ewa Hlast) as (j & m & d & Hca & Hda & Hcode).
  replace (code at_ vars (Not a)) with (code at_ vars a ++ [by_width w0 FINSH_OP_BITWISE_BYTE]).
  2:{ cbn [code]. unfold width_of. by rewrite Ewa. }
  eapply compiled_up; [rewrite Hn; exact Hca|done|done|exact Hda|].
  intros tbl Hh Hf. split; [by apply Hcode|].
  unfold code_with. cbv zeta. rewrite checked_type, checked_data, Hn. apply emits_typed. by destruct w0.
Qed.

Lemma compiled_Assign x e : compiled e → compiled (Assign x e).
Proof.
  intros He [|i n c r] w r' Ht Hw Hr; [done|]. destruct Ht as (Hn & Hid & Hm).
  destruct c as [|j m [|] q]; try done. destruct Hm as (Hm & Hte & Hlast).
  cbn [type_of] in Hw. apply bind_Some in Hw as (w0 & Ew & Hw). apply bind_Some in Hw as ([we ve] & Ewe & Hw).
  destruct (narrower _ _); [|done]. injection Hw as <-.
  destruct (compiled_last e _ _ He Hte Ewe Hlast) as (k & p & d & Hce & _ & Hcode).
  destruct (compiled_lval x j m q _ w0 FINSH_IDTYPE_ADDRESS Hm Ew (or_intror eq_refl) Hce) as [Hcx Hcodex].
  replace (code at_ vars (Assign x e)) with ((load_const (lval_at at_ x) ++ code at_ vars e) ++
    [by_width w0 FINSH_OP_ST_BYTE; by_width w0 FINSH_OP_LD_VALUE_BYTE_STACK]).
  2:{ cbn [code]. unfold width_at. rewrite Ew. by rewrite <- app_assoc. }
  eapply compiled_up; [rewrite Hn; exact Hcx|done|done|done|].
  intros tbl Hh Hf. split.
  - apply Hcodex; [done|]. cbn [height holds_tree] in *. apply Hcode; [apply Hh|lia].
  - unfold code_with. cbv zeta. rewrite checked_type, Hn. cbn -[code_store checked].
    intros s Hs Hv Hp Hl. wp_step. wp_step. rewrite checked_type, (lval_node _ _ Hm). by apply (emits_store tbl).
Qed.

Lemma id_value_checked a d i m :
  is_lval (Local_var i) m → id_value_at at_ (id (checked a d m)) = value_at at_ i.
Proof. intros (_ & Hid & _). by rewrite checked_id, Hid. Qed.

Lemma compiled_Pre inc i : compiled (Pre inc i).
Proof.
  intros [|j n c r] w r' Ht Hw Hr; [done|]. destruct Ht as (Hn & Hid & Hm).
  destruct c as [|k m [|] [|]]; try done.
  cbn [type_of] in Hw. apply bind_Some in Hw as (w0 & Ew & Hw). destruct w0; try done. injection Hw as <-.
  destruct (compiled_lval (Local_var i) k m Leaf Leaf DWORD FINSH_IDTYPE_ADDRESS Hm Ew (or_intror eq_refl) eq_refl)
    as [Hcx Hcodex].
  assert (Hch : child_addr (node_type n) 0 = FINSH_IDTYPE_ADDRESS) by (rewrite Hn; by destruct inc).
  replace (code at_ vars (Pre inc i)) with ((load_const (value_at at_ i) ++ []) ++
    step_code inc DWORD (value_at at_ i) ++ [FINSH_OP_LD_VALUE_DWORD_STACK]) by (by rewrite app_nil_r).
  eapply compiled_up; [rewrite Hch; exact Hcx|done|done|done|].
  intros tbl Hh Hf. split; [apply Hcodex; [done|apply compiles_leaf]|].
  assert (H : emits tbl vars
      (code_pre at_ (checked 0 (data_code (Some DWORD)) n) (checked FINSH_IDTYPE_ADDRESS (data_code (Some DWORD)) m)
         (if inc then FINSH_OP_ADD_BYTE else FINSH_OP_SUB_BYTE)
         (if inc then FINSH_OP_ADD_WORD else FINSH_OP_SUB_WORD)
         (if inc then FINSH_OP_ADD_DWORD else FINSH_OP_SUB_DWORD))
      (step_code inc DWORD (value_at at_ i) ++ [FINSH_OP_LD_VALUE_DWORD_STACK])).
  { unfold code_pre. rewrite checked_type, (lval_node _ _ Hm), (id_value_checked _ _ _ _ Hm).
    apply emits_bind; [apply emits_step|apply emits_byte]. }
  unfold code_with. cbv zeta. rewrite checked_type, Hn. by destruct inc.
Qed.

Lemma compiled_Post inc i : compiled (Post inc i).
Proof.
  intros [|j n c r] w r' Ht Hw Hr; [done|]. destruct Ht as (Hn & Hid & Hm).
  destruct c as [|k m [|] [|]]; try done.
  cbn [type_of] in Hw. apply bind_Some in Hw as (w0 & Ew & [= <-]).
  destruct (compiled_lval (Local_var i) k m Leaf Leaf w0 0 Hm Ew (or_introl eq_refl) eq_refl) as [Hcx Hcodex].
  assert (Hch : child_addr (node_type n) 0 = 0) by (rewrite Hn; by destruct inc).
  replace (code at_ vars (Post inc i)) with ((load_from w0 (value_at at_ i) ++ []) ++
    load_const (value_at at_ i) ++ step_code inc w0 (value_at at_ i) ++ [FINSH_OP_POP]).
  2:{ cbn [code]. unfold width_at. rewrite Ew. by rewrite app_nil_r. }
  eapply compiled_up; [rewrite Hch; exact Hcx|done|done|done|].
  intros tbl Hh Hf. split; [apply Hcodex; [done|apply compiles_leaf]|].
  assert (H : emits tbl vars
      (code_post at_ (checked 0 (data_code (Some w0)) n) (checked 0 (data_code (Some w0)) m)
         (if inc then FINSH_OP_ADD_BYTE else FINSH_OP_SUB_BYTE)
         (if inc then FINSH_OP_ADD_WORD else FINSH_OP_SUB_WORD)
         (if inc then FINSH_OP_ADD_DWORD else FINSH_OP_SUB_DWORD))
      (load_const (value_at at_ i) ++ step_code inc w0 (value_at at_ i) ++ [FINSH_OP_POP])).
  { unfold code_post. rewrite checked_type, (lval_node _ _ Hm), (id_value_checked _ _ _ _ Hm), checked_data.
    replace (is_data (data_code (Some w0))) with true by (by destruct w0).
    apply emits_bind; [eapply emits_eq; [apply emits_bind; [apply emits_byte|apply emits_dword]|done]|].
    apply emits_bind; [apply emits_step|apply emits_byte]. }
  unfold code_with. cbv zeta. rewrite checked_type, Hn. by destruct inc.
Qed.

Lemma compiled_Deref e : compiled e → compiled (Deref e).
Proof.
  intros He [|i n c r] w r' Ht Hw Hr; [done|]. destruct Ht as (Hn & Hid & Hte & Hlast).
  cbn [type_of] in Hw. apply bind_Some in Hw as ([[[]|] []] & Ew & Hw); try done. injection Hw as <-.
  destruct (compiled_last e _ _ He Hte Ew Hlast) as (j & m & d & Hce & Hde & Hcode).
  cbn [code]. eapply compiled_up; [rewrite Hn; exact Hce|done|done|exact Hde|].
  intros tbl Hh Hf. split; [by apply Hcode|].
  unfold code_with. cbv zeta. rewrite checked_type, checked_data, Hn. cbn [fst].
  replace (idtype (checked 0 (data_code (Some DWORD)) n)) with 0.
  - apply (emits_typed tbl DWORD FINSH_OP_LD_VALUE_BYTE_STACK). done.
  - unfold checked, with_address. by rewrite Hid.
Qed.

Lemma compiled_Store p e : compiled p → compiled e → compiled (Store p e).
Proof.
  intros Hp He [|i n c r] w r' Ht Hw Hr; [done|]. destruct Ht as (Hn & Hid & Hm).
  destruct c as [|j m d q]; [done|]. destruct Hm as (Hm & Hidm & Htp & Hlastp & Hte & Hlaste).
  cbn [type_of] in Hw. apply bind_Some in Hw as ([[[]|] []] & Ewp & Hw); try by (apply bind_Some in Hw as ([??] & ? & ?)).
  apply bind_Some in Hw as ([we []] & Ewe & Hw); try done. injection Hw as <-.
  destruct (compiled_last e _ _ He Hte Ewe Hlaste) as (k & x & y & Hce & _ & Hcodee).
  destruct (compiled_last p _ _ Hp Htp Ewp Hlastp) as (k' & x' & y' & Hcp & Hdp & Hcodep).
  replace (code at_ vars (Store p e)) with ((code at_ vars p ++ code at_ vars e) ++ [FINSH_OP_ST_DWORD; FINSH_OP_LD_VALUE_DWORD_STACK])
    by (cbn [code]; by rewrite <- app_assoc).
  assert (Hcm : check_tree vars FINSH_IDTYPE_ADDRESS (Node j m d q) =
    Some (Node j (checked FINSH_IDTYPE_ADDRESS (data_code (Some DWORD)) m) (Node k' x' y' Leaf) (Node k x y Leaf))).
  { apply check_node; [rewrite Hm; exact Hcp|done|]. cbn [top]. by rewrite Hdp. }
  eapply compiled_up; [rewrite Hn; exact Hcm|done|done|done|].
  intros tbl Hh Hf. cbn [holds_tree height] in Hh, Hf. destruct Hh as (Hj & Hjc & Hjs & Hhp & Hhe). split.
  - rewrite <- (app_nil_l (code at_ vars e)). apply compiles_node.
    + done.
    + apply Hcodep; [done|cbn [height]; lia].
    + unfold code_with. cbv zeta. rewrite checked_type, Hm.
      replace (idtype (checked FINSH_IDTYPE_ADDRESS (data_code (Some DWORD)) m)) with FINSH_IDTYPE_ADDRESS; [apply emits_ret|].
      unfold checked, with_address. by rewrite Hidm.
    + apply Hcodee; [done|cbn [height]; lia].
  - unfold code_with. cbv zeta. rewrite checked_type, Hn. cbn -[code_store checked].
    intros s Hs Hv Hpc Hl. wp_step. wp_step. rewrite checked_type, Hm. by apply (emits_store tbl DWORD).
Qed.

Lemma compiled_Enil : compiled_list Enil.
Proof.
  intros t -> _. exists Leaf. split; [done|]. intros tbl _ _. split; [apply compiles_leaf|].
  intros fuel s Q _ _ HQ. by destruct fuel.
Qed.

Lemma compiled_Econs e es : compiled e → compiled_list es → compiled_list (Econs e es).
Proof.
  intros He Hes t [Hte Htes] Hty. cbn [types_of] in Hty.
  destruct (type_of vars e) as [[we []]|] eqn:Ew; try done.
  destruct (Hes _ Htes Hty) as (r' & Hcr & Hcodes).
  destruct (He t _ _ Hte Ew Hcr) as (i & n & c' & Hc & _ & Hcode). exists (Node i n c' r'). split; [done|].
  intros tbl Hh Hf. destruct (Hcodes tbl) as [Hcomp Hcount]; [apply Hh|cbn [height] in Hf; lia|].
  split; [by apply Hcode|]. intros [|fuel] s Q Hfuel Hs HQ; cbn [height] in Hfuel; [lia|].
  cbn [pointer count_siblings]. wp_step. destruct Hh as (Hi & _ & Hsib & _). eapply wp_get_node; [by rewrite Hs|].
  wp_step. rewrite Hsib. apply Hcount; [lia|done|]. wp_step. cbn [elength] in HQ.
  by replace (Z.of_nat (elength es) + 1) with (Z.of_nat (S (elength es))) by lia.
Qed.

Lemma compiled_Call f args : compiled_list args → compiled (Call f args).
Proof.
  intros Hargs [|i n c r] w r' Ht Hw Hr; [done|]. destruct Ht as (Hn & Hid & Hm).
  destruct c as [|j m [|] q]; try done. destruct Hm as (Hm & Hidm & Hidt & Hdm & Hta).
  cbn [type_of] in Hw. destruct (types_of vars args) eqn:Ety; [|done].
  destruct (elength args <=? 16)%nat eqn:Elen; [|done]. injection Hw as <-.
  destruct (Hargs q Hta Ety) as (q' & Hcq & Hcodes).
  assert (Hcm : check_tree vars 0 (Node j m Leaf q) = Some (Node j (checked 0 FINSH_DATA_TYPE_VOID m) Leaf q')).
  { apply check_node; [done|done|]. cbn [top]. unfold with_address. rewrite Hidt. cbn.
    unfold leaf_type. cbv zeta. by rewrite Hm, Hidt, Hdm. }
  replace (code at_ vars (Call f args)) with ((load_const (syscall_func f) ++ codes at_ vars args) ++
    [FINSH_OP_SYSCALL; Z.of_nat (elength args)]) by (cbn [code]; by rewrite <- app_assoc).
  eapply compiled_up; [rewrite Hn; exact Hcm|done|done|done|].
  intros tbl Hh Hf. cbn [holds_tree height] in Hh, Hf. destruct Hh as (Hj & Hjc & Hjs & _ & Hhq).
  destruct (Hcodes tbl) as [Hcomp Hcount]; [done|lia|]. split.
  - apply (compiles_node tbl j _ _ _ []); [done|apply compiles_leaf| |done].
    unfold code_with. cbv zeta. rewrite checked_type, Hm. unfold code_id.
    rewrite checked_id, Hidm. replace (idtype (checked 0 FINSH_DATA_TYPE_VOID m)) with FINSH_IDTYPE_SYSCALL.
    + eapply emits_eq; [apply emits_bind; [apply emits_byte|apply emits_dword]|done].
    + unfold checked, with_address. rewrite Hidt. cbn. by rewrite ?Hidt.
  - unfold code_with. cbv zeta. rewrite checked_type, Hn. cbn -[finsh_code_byte checked node_fuel].
    intros s Hs Hv Hpc Hl. wp_step. rewrite Hjs. apply Hcount; [lia|done|].
    assert (Hem : emits tbl vars
        (finsh_code_byte FINSH_OP_SYSCALL;; finsh_code_byte (Z.of_nat (elength args)))
        [FINSH_OP_SYSCALL; Z.of_nat (elength args)]); [|by apply Hem].
    eapply emits_eq; [apply emits_bind; apply emits_byte|].
    unfold wrap. rewrite (Z.mod_small (Z.of_nat _)); [done|]. apply Nat.leb_le in Elen. lia.
Qed.

(** Every expression is compiled to its code. *)
Lemma compiled_all : (∀ e, compiled e) ∧ (∀ es, compiled_list es).
Proof.
  apply expr_exprs_ind; eauto using compiled_Num, compiled_Chr, compiled_Var, compiled_Addr, compiled_Bin,
    compiled_Not, compiled_Assign, compiled_Pre, compiled_Post, compiled_Deref, compiled_Store, compiled_Call,
    compiled_Enil, compiled_Econs.
Qed.

End Expressions.

(** * Statements *)

Section Statements.
Context (at_ : Z) (vars : list finsh_var).

(** The statements are the nodes of a chain of siblings. *)
Fixpoint is_program (es : list expr) (t : tree) : Prop :=
  match es with [] => t = Leaf | e :: es => is_expr e t ∧ is_program es (behind t) end.

Definition typed (e : expr) : Prop := is_Some (type_of vars e).

Fixpoint program_code (es : list expr) : list Z :=
  match es with
  | [] => []
  | [e] => code at_ vars e
  | e :: es => code at_ vars e ++ FINSH_OP_POP :: program_code es
  end.

(** The first statement alone. *)
Definition cut (t : tree) : tree :=
  match t with Leaf => Leaf | Node i n c _ => Node i (set_sibling None n) c Leaf end.

Lemma is_expr_cut e t : is_expr e t → is_expr e (cut t).
Proof. destruct t as [|i n c r]; [done|]. by destruct e, n. Qed.

Lemma check_cut t t' : check_tree vars 0 t = Some t' → check_tree vars 0 (cut t) = Some (cut t').
Proof.
  destruct t as [|i n c r]; [by intros [= <-]|]. cbn [check_tree cut]. intros H.
  apply bind_Some in H as (c' & Hc & H). apply bind_Some in H as (s' & Hs & H).
  apply bind_Some in H as (d & Hd & [= <-]).
  change (node_type (set_sibling None n)) with (node_type n). rewrite Hc. cbn [mbind option_bind].
  replace (with_address 0 (set_sibling None n)) with (set_sibling None (with_address 0 n))
    by (unfold with_address; cbn; by destruct (_ =? _)).
  assert (Hm : match top c' with
               | Some m => Some (data_type m)
               | None => leaf_type vars (set_sibling None (with_address 0 n))
               end = Some d) by (rewrite <- Hd; by destruct (top c')).
  cbn [check_tree mbind option_bind]. by rewrite Hm.
Qed.

Lemma check_program es t :
  is_program es t → Forall typed es → ∃ t', check_tree vars 0 t = Some t'.
Proof.
  revert t. induction es as [|e es IH]; intros t Ht Hty; cbn [is_program] in Ht.
  { subst t. by exists Leaf. }
  destruct Ht as [He Hes]. apply Forall_cons in Hty as [[w Hw] Htys].
  destruct (IH _ Hes Htys) as (r' & Hr).
  destruct (proj1 (compiled_all at_ vars) e t w r' He Hw Hr) as (i & n & c' & Hc & _). eauto.
Qed.

Lemma set_nodes_emitted tbl l s : set_nodes tbl (emitted l s) = emitted l (set_nodes tbl s).
Proof. by destruct s. Qed.

Lemma program_code_cons e es :
  es ≠ [] → program_code (e :: es) = code at_ vars e ++ [FINSH_OP_POP] ++ program_code es.
Proof. by destruct es. Qed.

(** Compiling the first statement of the rest of a program. *)
Lemma wp_compile_first e t i n c r s Q :
  is_expr e t → typed e → check_tree vars 0 t = Some (Node i n c r) →
  holds_tree (global_node_table s) (Node i n c r) → NoDup (places (Node i n c r)) →
  (height (Node i n c r) <= node_fuel)%nat → global_variable s = vars →
  0 <= finsh_compile_pc s →
  finsh_compile_pc s + Z.of_nat (length (code at_ vars e)) <= Z.of_nat (length (text_segment (machine s))) →
  Q tt (emitted (code at_ vars e) (set_nodes (<[i := set_sibling None n]> (global_node_table s)) s)) →
  wp (upd_node i (set_sibling None);; finsh_compile at_ node_fuel (Some i)) s Q.
Proof.
  intros He [w Hw] Hc Hh Hd Hf Hv Hpc Hroom HQ.
  pose proof (check_cut _ _ Hc) as Hcut. cbn [cut] in Hcut.
  assert (Hb : behind (cut t) = Leaf) by by destruct t.
  destruct (compiled_last at_ vars e _ w (proj1 (compiled_all at_ vars) e) (is_expr_cut _ _ He) Hw Hb)
    as (i' & n' & c' & Hc' & _ & Hcode). rewrite Hcut in Hc'. injection Hc' as <- <- <-.
  destruct Hh as (Hi & Hch & Hsb & Hhc & Hhr). cbn [places] in Hd. apply NoDup_cons in Hd as [Hni Hd].
  wp_step. eapply wp_upd_node; [done|]. set (tbl := <[i := set_sibling None n]> (global_node_table s)).
  eapply wp_mono.
  - apply (Hcode tbl); [|cbn [height] in *; lia| cbn [height] in *; lia|done|done|done|done].
    cbn [holds_tree]. split_and!; [|done|done| |done].
    + apply list_lookup_insert_eq. by eapply lookup_lt_Some.
    + apply holds_tree_insert; [set_solver|done].
  - intros [] s' ->. exact HQ.
Qed.

Lemma wp_compile_statements es t t' fuel s :
  is_program es t → Forall typed es → check_tree vars 0 t = Some t' →
  holds_tree (global_node_table s) t' → NoDup (places t') → (height t' <= fuel)%nat →
  (height t' <= node_fuel)%nat → global_variable s = vars → 0 <= finsh_compile_pc s →
  finsh_compile_pc s + Z.of_nat (length (program_code es)) <= Z.of_nat (length (text_segment (machine s))) →
  wp (compile_statements at_ fuel (pointer t')) s (λ _ s',
    ∃ tbl, s' = set_nodes tbl (emitted (program_code es) s)).
Proof.
  revert t t' fuel s. induction es as [|e es IH]; intros t t' fuel s Ht Hty Hc Hh Hd Hfuel Hf Hv Hpc Hroom.
  { cbn [is_program] in Ht. subst t. injection Hc as <-. cbn [pointer program_code].
    destruct fuel; simpl; wp_step; exists (global_node_table s); rewrite emitted_nil; by destruct s. }
  destruct Ht as [He Hes]. apply Forall_cons in Hty as [Hte Htys].
  destruct (check_program es (behind t) Hes Htys) as (r' & Hr).
  destruct Hte as [w Hw].
  destruct (proj1 (compiled_all at_ vars) e t w r' He Hw Hr) as (i & n & c' & Hc' & _).
  rewrite Hc in Hc'. injection Hc' as ->.
  destruct fuel as [|fuel]; [cbn [height] in Hfuel; lia|]. cbn [pointer compile_statements].
  wp_step. pose proof Hh as (Hi & Hch & Hsb & Hhc & Hhr). eapply wp_get_node; [done|].
  apply wp_assoc. wp_step.
  assert (Hlen : (length (code at_ vars e) <= length (program_code (e :: es)))%nat).
  { destruct es; [done|]. rewrite program_code_cons, length_app by done. lia. }
  eapply (wp_compile_first e t i n c' r' s); [done|by exists w|done..|lia|].
  rewrite Hsb. destruct es as [|e' es].
  { cbn [is_program] in Hes. rewrite Hes in Hr. injection Hr as <-. cbn [pointer].
    wp_step. wp_step. destruct fuel; simpl; wp_step; eexists; by rewrite set_nodes_emitted. }
  destruct r' as [|j m d q].
  { destruct Hes as [He' _]. apply check_tree_shape in Hr as (_ & Hp & _).
    destruct (behind t); [by destruct e'|done]. }
  cbn [pointer]. rewrite program_code_cons, !length_app in * by done. cbn [length] in Hroom.
  wp_step. eapply wp_mono.
  { eapply emits_byte; [reflexivity|reflexivity|cbn; lia|]. cbn. rewrite length_inserts. lia. }
  intros _ s1 ->. cbv beta. rewrite emitted_app by done.
  cbn [height places] in *. apply NoDup_cons in Hd as [Hni Hd]. apply NoDup_app in Hd as (_ & _ & Hdr).
  eapply wp_mono.
  { apply (IH (behind t) (Node j m d q) fuel); [done|done|done| |done|cbn [height]; lia|cbn [height]; lia|done|cbn; lia|].
    - apply holds_tree_insert; [cbn [places]; set_solver|done].
    - cbn -[program_code]. rewrite length_inserts, length_app. cbn [length]. lia. }
  intros _ s2 (tbl & ->). exists tbl. rewrite emitted_app, <- !app_assoc by (cbn; lia).
  rewrite <- (set_nodes_emitted _ (code at_ vars e ++ _)). done.
Qed.

(** The text segment of a program. *)
Definition text_of (es : list expr) : list Z :=
  program_code es ++ replicate (Z.to_nat FINSH_TEXT_MAX - length (program_code es)) 0.

(** [finsh_compiler_run] leaves the code of the program in the text segment, with zeros behind
    it, and changes nothing else of the machine but the first slot of its stack. *)
Lemma wp_compiler_run es t s :
  is_program es t → Forall typed es → holds_tree (global_node_table s) t → NoDup (places t) →
  length (global_node_table s) = FINSH_NODE_MAX → global_variable s = vars →
  (length (finsh_vm_stack (machine s)) > 0)%nat →
  Z.of_nat (length (program_code es)) <= FINSH_TEXT_MAX →
  wp (finsh_compiler_run at_ (pointer t)) s (λ _ s',
    global_errno s' = global_errno s ∧ global_variable s' = vars ∧
    machine s' = set_text (text_of es) (set_stack (<[0%nat := 0]> (finsh_vm_stack (machine s))) (machine s))).
Proof.
  intros Ht Hty Hh Hd Hlen Hv Hst Hroom. destruct (check_program es t Ht Hty) as (t' & Hc).
  destruct (check_tree_shape _ _ _ _ Hc) as (Hp & Hptr & Hht).
  pose proof (height_bound _ _ Hh Hd) as Hb. rewrite Hlen in Hb. unfold FINSH_NODE_MAX in Hb.
  unfold finsh_compiler_run. wp_step. eapply wp_mono.
  { apply (wp_type_check node_fuel t _ s t'); [unfold node_fuel, FINSH_NODE_MAX; lia|done|done|by rewrite Hv]. }
  intros _ s1 (Hh1 & tbl1 & -> & _). cbv beta. unfold on_machine. wp_step. wp_step. wp_step. wp_step. wp_step.
  unfold put_slot, slot. wp_steps.
  destruct (finsh_vm_stack (machine s)) as [|x st] eqn:Est; [cbn in Hst; lia|].
  eapply wp_deref; [cbn; rewrite Est; done|]. wp_steps. rewrite <- Hptr. eapply wp_mono.
  { apply (wp_compile_statements es t t' node_fuel); [done|done|done| |by rewrite Hp| | |done|cbn; lia|];
      [exact Hh1|unfold node_fuel, FINSH_NODE_MAX; lia|unfold node_fuel, FINSH_NODE_MAX; lia|].
    cbn -[replicate FINSH_TEXT_MAX]. rewrite length_replicate. unfold FINSH_TEXT_MAX in *. lia. }
  intros _ s2 (tbl2 & ->). split_and!; [done|done|]. cbn -[replicate FINSH_TEXT_MAX]. rewrite Est.
  unfold set_text, set_stack, text_of. cbn -[replicate FINSH_TEXT_MAX list_inserts]. f_equal.
  replace (replicate (Z.to_nat FINSH_TEXT_MAX) 0) with
    (replicate (length (program_code es)) 0 ++ replicate (Z.to_nat FINSH_TEXT_MAX - length (program_code es)) 0).
  - apply list_inserts_0_r. by rewrite length_replicate.
  - rewrite <- replicate_add. f_equal. unfold FINSH_TEXT_MAX in *. lia.
Qed.

End Statements.
