(* ===== verification/FinshRun.v ===== *)
(** The virtual machine of the shell runs the byte code of an expression as its meaning says,
    and always ends. *)

From Stdlib Require Import ZArith Znumtheory Lia.
From stdpp Require Import numbers base gmap list.
From S2P Require Import Prelude Bytes FinshVm FinshData FinshCompile FinshTree FinshExpr FinshCode.
Local Open Scope Z_scope.

(** * Fields of slots *)

Definition word (x : Z) : Prop := 0 <= x < 2 ^ 32.

(** The same value at a width. *)
Definition same (w : width) (x y : Z) : Prop := wrap (bits w) x = wrap (bits w) y.

Lemma bits_pos w : 0 < 2 ^ bits w.
Proof. by destruct w. Qed.

Lemma same_sym w x y : same w x y → same w y x.
Proof. unfold same. congruence. Qed.
Lemma same_trans w x y z : same w x y → same w y z → same w x z.
Proof. unfold same. congruence. Qed.

Lemma same_wrap w x : same w (wrap (bits w) x) x.
Proof. unfold same, wrap. apply Zmod_mod. Qed.

Lemma same_put w old v : same w (put_field w old v) v.
Proof.
  unfold same, put_field, wrap. pose proof (bits_pos w).
  rewrite Zplus_mod_idemp_r. replace (old - old mod 2 ^ bits w + v) with (v + (old / 2 ^ bits w) * 2 ^ bits w).
  - apply Z_mod_plus_full.
  - pose proof (Z.div_mod old (2 ^ bits w)). lia.
Qed.

Lemma word_put w old v : word old → word (put_field w old v).
Proof.
  unfold word, put_field, wrap. intros Ho. pose proof (Z.mod_pos_bound v (2 ^ bits w) (bits_pos w)).
  pose proof (Z.div_mod old (2 ^ bits w)). pose proof (Z.mod_pos_bound old (2 ^ bits w) (bits_pos w)).
  assert (old / 2 ^ bits w <= (2 ^ 32 - 1) / 2 ^ bits w) by (apply Z.div_le_mono; [apply bits_pos|lia]).
  assert (0 <= old / 2 ^ bits w) by (apply Z.div_pos; [lia|apply bits_pos]).
  destruct w; cbn [bits] in *; change (2 ^ 8) with 256 in *; change (2 ^ 16) with 65536 in *;
    change (2 ^ 32) with 4294967296 in *; lia.
Qed.

Lemma same_weaken v w x y : narrower v w = true → same w x y → same v x y.
Proof.
  unfold narrower, same, wrap. intros Hn H. apply Z.leb_le in Hn.
  assert (Hd : (2 ^ bits v | 2 ^ bits w)).
  { exists (2 ^ (bits w - bits v)). rewrite <- Z.pow_add_r by (destruct v; cbn [bits] in *; lia). f_equal. lia. }
  rewrite (Zmod_div_mod (2 ^ bits v) (2 ^ bits w) x), (Zmod_div_mod (2 ^ bits v) (2 ^ bits w) y) by (apply bits_pos || done).
  by rewrite H.
Qed.

Lemma field_same w x y : same w x y → field w x = field w y.
Proof.
  unfold same, field. destruct w; cbn [bits]; [done|unfold swrap|unfold swrap]; unfold wrap; intros H;
    rewrite <- Zplus_mod_idemp_l, H, Zplus_mod_idemp_l; done.
Qed.

Lemma same_field w x : same w (field w x) x.
Proof.
  unfold same, field, wrap, swrap. destruct w; cbn [bits]; [apply Zmod_mod| |].
  - rewrite Zminus_mod_idemp_l. f_equal. lia.
  - rewrite Zminus_mod_idemp_l. f_equal. lia.
Qed.

Lemma word_u32 x : word (u32 x).
Proof. apply Z.mod_pos_bound. lia. Qed.
Lemma u32_word x : word x → u32 x = x.
Proof. intros H. by apply Z.mod_small. Qed.

(** * Bytes of constants *)

Lemma lor_shiftl a b n : 0 <= n → 0 <= a < 2 ^ n → Z.lor a (Z.shiftl b n) = a + b * 2 ^ n.
Proof.
  intros Hn Ha. rewrite <- (Z.shiftl_mul_pow2 b n) by done.
  pose proof (Z.add_lor_land a (Z.shiftl b n)) as H.
  assert (Z.land a (Z.shiftl b n) = 0); [|lia].
  apply Z.bits_inj'. intros i Hi. rewrite Z.land_spec, Z.bits_0.
  destruct (decide (i < n)).
  - rewrite Z.shiftl_spec_low by lia. apply andb_false_r.
  - rewrite <- (Z.mod_small a (2 ^ n)), Z.mod_pow2_bits_high by lia. done.
Qed.

(** The bytes [l] are in the text from [p] on. *)
Definition code_at (T : list Z) (p : nat) (l : list Z) : Prop :=
  ∀ i x, l !! i = Some x → T !! (p + i)%nat = Some x.

Lemma code_at_app T p l1 l2 :
  code_at T p (l1 ++ l2) ↔ code_at T p l1 ∧ code_at T (p + length l1) l2.
Proof.
  split.
  - intros H. split; intros i x Hx.
    + apply H. by apply lookup_app_l_Some.
    + rewrite <- Nat.add_assoc. apply H. rewrite lookup_app_r by lia. by rewrite Nat.add_comm, Nat.add_sub.
  - intros [H1 H2] i x Hx. apply lookup_app_Some in Hx as [Hx|[Hge Hx]]; [by apply H1|].
    apply H2 in Hx. by replace (p + length l1 + (i - length l1))%nat with (p + i)%nat in Hx by lia.
Qed.

Lemma code_at_cons T p x l : code_at T p (x :: l) ↔ T !! p = Some x ∧ code_at T (S p) l.
Proof.
  rewrite (code_at_app T p [x] l). replace (p + length [x])%nat with (S p) by (cbn; lia).
  split; intros [H1 H2]; (split; [|done]).
  - rewrite <- (Nat.add_0_r p). by apply H1.
  - intros [|i] y Hy; [|done]. injection Hy as <-. by rewrite Nat.add_0_r.
Qed.

Lemma at_index_nat {A} (l : list A) (n : nat) : at_index l (Z.of_nat n) = l !! n.
Proof. unfold at_index. destruct (Z.leb_spec 0 (Z.of_nat n)); [|lia]. by rewrite Nat2Z.id. Qed.

Lemma wp_text st T sp pc m p x Q :
  T !! p = Some x → Q x (mk_vm st T sp pc m) → wp (text (Z.of_nat p)) (mk_vm st T sp pc m) Q.
Proof. intros Hx HQ. unfold text. wp_steps. eapply wp_deref; [by rewrite at_index_nat|done]. Qed.

Lemma wp_get32 st T sp pc m p v Q :
  code_at T p (dword v) → Q (u32 v) (mk_vm st T sp pc m) →
  wp (FINSH_GET32 (Z.of_nat p)) (mk_vm st T sp pc m) Q.
Proof.
  intros Hc HQ. unfold FINSH_GET32, dword in *. pose proof (word_u32 v) as Hw.
  set (x := u32 v) in *. cbn [le_bytes] in Hc. rewrite !code_at_cons in Hc. destruct Hc as (H0 & H1 & H2 & H3 & _).
  wp_step. eapply wp_text; [exact H0|]. wp_step.
  replace (Z.of_nat p + 1) with (Z.of_nat (S p)) by lia. eapply wp_text; [exact H1|]. wp_step.
  replace (Z.of_nat p + 2) with (Z.of_nat (S (S p))) by lia. eapply wp_text; [exact H2|]. wp_step.
  replace (Z.of_nat p + 3) with (Z.of_nat (S (S (S p)))) by lia. eapply wp_text; [exact H3|]. wp_step.
  pose proof (Z.mod_pos_bound x 256) as B0. pose proof (Z.mod_pos_bound (x / 256) 256) as B1.
  pose proof (Z.mod_pos_bound (x / 256 / 256) 256) as B2.
  rewrite (lor_shiftl (x mod 256) _ 8), (lor_shiftl _ _ 16), (lor_shiftl _ _ 24) by lia.
  match goal with |- Q ?y _ => replace y with x; [done|] end.
  unfold word in Hw. change (2 ^ 32) with 4294967296 in Hw. change (2 ^ 8) with 256; change (2 ^ 16) with 65536; change (2 ^ 24) with 16777216.
  assert (x / 256 / 256 / 256 < 256) by (rewrite !Z.div_div by lia; apply Z.div_lt_upper_bound; lia).
  assert (0 <= x / 256 / 256 / 256) by (rewrite !Z.div_div by lia; apply Z.div_pos; lia).
  rewrite (Z.mod_small (x / 256 / 256 / 256)) by lia.
  pose proof (Z.div_mod x 256). pose proof (Z.div_mod (x / 256) 256). pose proof (Z.div_mod (x / 256 / 256) 256). lia.
Qed.

(** * Runs of the machine *)

Section Runs.
Context (call : Z → list Z → M ram Z).

(** The body of the loop of [finsh_vm_run]. *)
Definition vm_step : V unit :=
  pc ← gets finsh_pc;
  op ← text pc;
  skip 1;;
  f ← deref (at_index (op_table call) op);
  f.

Inductive steps : nat → vm → vm → Prop :=
  | steps_refl s : steps 0 s s
  | steps_next n s s1 s2 :
      0 <= finsh_pc s < FINSH_TEXT_MAX → vm_step s = Ok (tt, s1) → steps n s1 s2 → steps (S n) s s2.

Lemma steps_trans n1 n2 s s1 s2 : steps n1 s s1 → steps n2 s1 s2 → steps (n1 + n2) s s2.
Proof. induction 1; intros H2; [done|]. econstructor; [done|done|auto]. Qed.

Lemma vm_loop_step fuel s :
  0 <= finsh_pc s < FINSH_TEXT_MAX →
  vm_loop call (S fuel) s = match vm_step s with Ok (_, s') => vm_loop call fuel s' | Err e => Err e end.
Proof.
  intros Hpc. cbn [vm_loop]. unfold vm_step, mbind, M_bind, gets.
  rewrite (proj2 (Z.leb_le 0 _)), (proj2 (Z.ltb_lt _ FINSH_TEXT_MAX)) by lia. cbn [andb].
  destruct (text (finsh_pc s) s) as [[op s1]|]; [|done]. destruct (skip 1 s1) as [[u s2]|]; [|done].
  destruct (deref (at_index (op_table call) op) s2) as [[f s3]|]; [|done]. by destruct (f s3) as [[[] ?]|].
Qed.

Lemma vm_loop_steps n fuel s s' :
  steps n s s' → (n <= fuel)%nat → vm_loop call fuel s = vm_loop call (fuel - n) s'.
Proof.
  intros Hn. revert fuel. induction Hn as [s|n s s1 s2 Hpc Hstep _ IH]; intros fuel Hf.
  { by rewrite Nat.sub_0_r. }
  destruct fuel as [|fuel]; [lia|]. rewrite vm_loop_step, Hstep by done. apply IH. lia.
Qed.

(** The machine gets to a state that satisfies [Q], in at most one step for every byte. *)
Definition runs (s : vm) (Q : vm → Prop) : Prop :=
  ∃ n s', steps n s s' ∧ Z.of_nat n <= finsh_pc s' - finsh_pc s ∧ Q s'.

Lemma runs_ret s (Q : vm → Prop) : Q s → runs s Q.
Proof. intros HQ. exists 0%nat, s. split_and!; [constructor|lia|done]. Qed.

Lemma runs_bind s (Q1 Q : vm → Prop) : runs s Q1 → (∀ s1, Q1 s1 → runs s1 Q) → runs s Q.
Proof.
  intros (n1 & s1 & H1 & Hb1 & HQ1) H2. destruct (H2 s1 HQ1) as (n2 & s2 & H & Hb2 & HQ).
  exists (n1 + n2)%nat, s2. split_and!; [by eapply steps_trans|lia|done].
Qed.

(** One operation. *)
Lemma runs_op st T sp p m op f (Q : vm → Prop) :
  T !! p = Some op → (p < 128)%nat → at_index (op_table call) op = Some f →
  wp f (mk_vm st T sp (Z.of_nat (S p)) m) (λ _ s', Z.of_nat (S p) <= finsh_pc s' ∧ runs s' Q) →
  runs (mk_vm st T sp (Z.of_nat p) m) Q.
Proof.
  intros Hop Hp Hf Hw. apply wp_run in Hw as (u & s1 & Hrun & Hpc & Hruns).
  eapply (runs_bind _ (λ s, s = s1)); [|by intros ? ->].
  exists 1%nat, s1. split_and!; [|cbn; lia|done]. eapply (steps_next 0); [cbn; unfold FINSH_TEXT_MAX; lia| |constructor].
  destruct u. assert (H : wp vm_step (mk_vm st T sp (Z.of_nat p) m) (λ _ s', s' = s1)).
  { unfold vm_step. wp_step. wp_step. wp_step. cbn [finsh_pc]. eapply wp_text; [done|]. wp_step. unfold skip. wp_step.
    wp_step. eapply wp_deref; [exact Hf|]. unfold set_vm_pc. cbn.
    replace (Z.of_nat p + 1) with (Z.of_nat (S p)) by lia. unfold wp. by rewrite Hrun. }
  apply wp_run in H as ([] & ? & H & ->). done.
Qed.

(** ** Stack accesses *)

Lemma wp_slot st T k pc sp m x Q :
  st !! k = Some x → Q x (mk_vm st T sp pc m) → wp (slot (Z.of_nat k)) (mk_vm st T sp pc m) Q.
Proof. intros Hx HQ. unfold slot. wp_steps. eapply wp_deref; [by rewrite at_index_nat|done]. Qed.

Lemma wp_put_slot st T k pc sp m v Q :
  (k < length st)%nat → Q tt (mk_vm (<[k := v]> st) T sp pc m) →
  wp (put_slot (Z.of_nat k) v) (mk_vm st T sp pc m) Q.
Proof.
  intros Hk HQ. destruct (lookup_lt_is_Some_2 st k Hk) as [x Hx]. unfold put_slot. wp_step.
  eapply wp_slot; [done|]. wp_step. unfold set_stack. cbn. by rewrite Nat2Z.id.
Qed.

Lemma wp_push st T k pc m w v x Q :
  st !! k = Some x → Q tt (mk_vm (<[k := put_field w x v]> st) T (Z.of_nat (S k)) pc m) →
  wp (push w v) (mk_vm st T (Z.of_nat k) pc m) Q.
Proof.
  intros Hx HQ. unfold push. wp_step. wp_step. wp_step. eapply wp_slot; [done|]. wp_step.
  apply wp_put_slot; [by eapply lookup_lt_Some|]. wp_step. unfold set_vm_sp. cbn.
  by replace (Z.of_nat k + 1) with (Z.of_nat (S k)) by lia.
Qed.

Lemma wp_skip st T sp p m n Q :
  Q tt (mk_vm st T sp (Z.of_nat (p + n)) m) → wp (skip (Z.of_nat n)) (mk_vm st T sp (Z.of_nat p) m) Q.
Proof. intros HQ. unfold skip. wp_step. unfold set_vm_pc. cbn. by rewrite <- Nat2Z.inj_add. Qed.

(** ** Instructions *)

Lemma runs_const st T k p m v x (Q : vm → Prop) :
  code_at T p (load_const v) → (p < 128)%nat → st !! k = Some x →
  runs (mk_vm (<[k := put_field DWORD x v]> st) T (Z.of_nat (S k)) (Z.of_nat (p + 5)) m) Q →
  runs (mk_vm st T (Z.of_nat k) (Z.of_nat p) m) Q.
Proof.
  intros Hc Hp Hx HQ. unfold load_const in Hc. apply code_at_cons in Hc as [H0 Hc].
  eapply runs_op; [exact H0|done|reflexivity|]. unfold OP_ld_dword. wp_step. wp_step. wp_step. cbn [finsh_pc].
  eapply wp_get32; [exact Hc|]. wp_step. eapply wp_push; [done|]. apply (wp_skip _ _ _ (S p) _ 4).
  cbn [finsh_pc]. split; [lia|]. replace (S p + 4)%nat with (p + 5)%nat by lia.
  unfold put_field in *. unfold wrap in *. by rewrite Zmod_mod.
Qed.

Lemma wp_load w a st T sp pc m v m' Q :
  fetch w a m = Ok (v, m') → Q v (mk_vm st T sp pc m') → wp (load w a) (mk_vm st T sp pc m) Q.
Proof. intros Hf HQ. unfold load, on_vm_mem. wp_step. cbn [finsh_mem]. unfold wp. unfold fetch in Hf. by rewrite Hf. Qed.

Lemma runs_load w st T k p m a v m' x (Q : vm → Prop) :
  code_at T p (load_from w a) → (p < 128)%nat → st !! k = Some x → fetch w a m = Ok (v, m') →
  runs (mk_vm (<[k := put_field w x v]> st) T (Z.of_nat (S k)) (Z.of_nat (p + 5)) m') Q →
  runs (mk_vm st T (Z.of_nat k) (Z.of_nat p) m) Q.
Proof.
  intros Hc Hp Hx Hf HQ. unfold load_from in Hc. apply code_at_cons in Hc as [H0 Hc].
  eapply (runs_op _ _ _ _ _ _ (OP_ld_value w)); [exact H0|done|by destruct w|].
  unfold OP_ld_value. wp_step. wp_step. wp_step. cbn [finsh_pc].
  eapply wp_get32; [exact Hc|]. wp_step. eapply wp_load.
  { unfold fetch in *. by rewrite (u32_word (u32 a)) by apply word_u32. }
  wp_step. eapply wp_push; [done|]. apply (wp_skip _ _ _ (S p) _ 4).
  cbn [finsh_pc]. split; [lia|]. by replace (S p + 4)%nat with (p + 5)%nat by lia.
Qed.

Lemma runs_char st T k p m c x (Q : vm → Prop) :
  code_at T p [FINSH_OP_LD_BYTE; u8 c] → (p < 128)%nat → st !! k = Some x →
  runs (mk_vm (<[k := put_field BYTE x c]> st) T (Z.of_nat (S k)) (Z.of_nat (p + 2)) m) Q →
  runs (mk_vm st T (Z.of_nat k) (Z.of_nat p) m) Q.
Proof.
  intros Hc Hp Hx HQ. rewrite !code_at_cons in Hc. destruct Hc as (H0 & H1 & _).
  eapply runs_op; [exact H0|done|reflexivity|]. unfold OP_ld_byte. wp_step. wp_step. wp_step. cbn [finsh_pc].
  eapply wp_text; [exact H1|]. wp_step. eapply wp_push; [done|]. apply (wp_skip _ _ _ (S p) _ 1).
  cbn [finsh_pc]. split; [lia|]. replace (S p + 1)%nat with (p + 2)%nat by lia.
  unfold put_field, wrap in *. cbn [bits] in *. by rewrite Zmod_mod.
Qed.

Lemma runs_one w st T k p m x (Q : vm → Prop) :
  code_at T p (load_one w) → (p < 128)%nat → st !! k = Some x →
  runs (mk_vm (<[k := put_field w x 1]> st) T (Z.of_nat (S k)) (Z.of_nat (p + length (load_one w))) m) Q →
  runs (mk_vm st T (Z.of_nat k) (Z.of_nat p) m) Q.
Proof.
  intros Hc Hp Hx HQ. destruct w.
  - apply (runs_char _ _ _ _ _ 1 x); [exact Hc|done|done|exact HQ].
  - unfold load_one in Hc. cbn [by_width le_bytes size_of] in Hc. rewrite !code_at_cons in Hc.
    destruct Hc as (H0 & H1 & H2 & _).
    eapply runs_op; [exact H0|done|reflexivity|]. unfold OP_ld_word, FINSH_GET16. wp_step. wp_step. wp_step. cbn [finsh_pc].
    wp_step. eapply wp_text; [exact H1|]. wp_step. replace (Z.of_nat (S p) + 1) with (Z.of_nat (S (S p))) by lia.
    eapply wp_text; [exact H2|]. wp_step. wp_step. eapply wp_push; [done|]. apply (wp_skip _ _ _ (S p) _ 2).
    cbn [finsh_pc]. split; [lia|]. by replace (S p + 2)%nat with (p + length (load_one WORD))%nat by (cbn; lia).
  - apply (runs_const _ _ _ _ _ 1 x); [exact Hc|done|done|exact HQ].
Qed.

Lemma op_entry o w : at_index (op_table call) (by_width w (op_base o)) = Some (OP_BIN w (operator o)).
Proof. by destruct o, w. Qed.

Lemma runs_bin o w st T k p m a b r (Q : vm → Prop) :
  T !! p = Some (by_width w (op_base o)) → (p < 128)%nat → st !! k = Some a → st !! S k = Some b →
  operator o (field w a) (field w b) = Some r →
  runs (mk_vm (<[k := put_field w a r]> st) T (Z.of_nat (S k)) (Z.of_nat (S p)) m) Q →
  runs (mk_vm st T (Z.of_nat (S (S k))) (Z.of_nat p) m) Q.
Proof.
  intros H0 Hp Ha Hb Hr HQ. eapply runs_op; [exact H0|done|apply op_entry|].
  unfold OP_BIN. wp_step. wp_step. cbn [finsh_sp].
  replace (Z.of_nat (S (S k)) - 2) with (Z.of_nat k) by lia. replace (Z.of_nat (S (S k)) - 1) with (Z.of_nat (S k)) by lia.
  wp_step. eapply wp_slot; [exact Ha|]. wp_step. eapply wp_slot; [exact Hb|]. wp_step.
  unfold undefined. rewrite Hr. wp_step. wp_step. apply wp_put_slot; [by eapply lookup_lt_Some|]. wp_step.
  cbn [finsh_pc set_vm_sp]. split; [lia|]. exact HQ.
Qed.

Lemma runs_not w st T k p m a (Q : vm → Prop) :
  T !! p = Some (by_width w FINSH_OP_BITWISE_BYTE) → (p < 128)%nat → st !! k = Some a →
  runs (mk_vm (<[k := put_field w a (Z.lnot (field w a))]> st) T (Z.of_nat (S k)) (Z.of_nat (S p)) m) Q →
  runs (mk_vm st T (Z.of_nat (S k)) (Z.of_nat p) m) Q.
Proof.
  intros H0 Hp Ha HQ. eapply (runs_op _ _ _ _ _ _ (OP_bw w)); [exact H0|done|by destruct w|].
  unfold OP_bw. wp_step. wp_step. cbn [finsh_sp]. replace (Z.of_nat (S k) - 1) with (Z.of_nat k) by lia.
  wp_step. eapply wp_slot; [exact Ha|]. apply wp_put_slot; [by eapply lookup_lt_Some|]. cbn [finsh_pc]. split; [lia|done].
Qed.

Lemma runs_store w st T k p m a b m' (Q : vm → Prop) :
  T !! p = Some (by_width w FINSH_OP_ST_BYTE) → (p < 128)%nat → st !! k = Some a → st !! S k = Some b →
  assign_at w (field DWORD a) b m = Ok (tt, m') →
  runs (mk_vm st T (Z.of_nat (S k)) (Z.of_nat (S p)) m') Q →
  runs (mk_vm st T (Z.of_nat (S (S k))) (Z.of_nat p) m) Q.
Proof.
  intros H0 Hp Ha Hb Hm HQ. eapply (runs_op _ _ _ _ _ _ (OP_st w)); [exact H0|done|by destruct w|].
  unfold OP_st. wp_step. wp_step. cbn [finsh_sp].
  replace (Z.of_nat (S (S k)) - 2) with (Z.of_nat k) by lia. replace (Z.of_nat (S (S k)) - 1) with (Z.of_nat (S k)) by lia.
  wp_step. eapply wp_slot; [exact Ha|]. wp_step. eapply wp_slot; [exact Hb|]. wp_step.
  unfold store_at, on_vm_mem. wp_step. cbn [finsh_mem]. unfold wp. unfold assign_at in Hm. rewrite Hm.
  apply wp_modify. cbn [finsh_pc set_vm_sp]. split; [cbn; lia|]. exact HQ.
Qed.

Lemma runs_load_stack w st T k p m a v m' (Q : vm → Prop) :
  T !! p = Some (by_width w FINSH_OP_LD_VALUE_BYTE_STACK) → (p < 128)%nat → st !! k = Some a →
  fetch w (field DWORD a) m = Ok (v, m') →
  runs (mk_vm (<[k := put_field w a v]> st) T (Z.of_nat (S k)) (Z.of_nat (S p)) m') Q →
  runs (mk_vm st T (Z.of_nat (S k)) (Z.of_nat p) m) Q.
Proof.
  intros H0 Hp Ha Hf HQ. eapply (runs_op _ _ _ _ _ _ (OP_ld_value_stack w)); [exact H0|done|by destruct w|].
  unfold OP_ld_value_stack. wp_step. wp_step. cbn [finsh_sp]. replace (Z.of_nat (S k) - 1) with (Z.of_nat k) by lia.
  wp_step. eapply wp_slot; [exact Ha|]. wp_step. eapply wp_load; [exact Hf|].
  apply wp_put_slot; [by eapply lookup_lt_Some|]. cbn [finsh_pc]. split; [lia|done].
Qed.

Lemma runs_pop st T k p m (Q : vm → Prop) :
  T !! p = Some FINSH_OP_POP → (p < 128)%nat →
  runs (mk_vm st T (Z.of_nat k) (Z.of_nat (S p)) m) Q →
  runs (mk_vm st T (Z.of_nat (S k)) (Z.of_nat p) m) Q.
Proof.
  intros H0 Hp HQ. eapply runs_op; [exact H0|done|reflexivity|]. unfold OP_pop. wp_step. cbn [finsh_pc set_vm_sp finsh_sp].
  split; [lia|]. unfold set_vm_sp. cbn. by replace (Z.of_nat (S k) - 1) with (Z.of_nat k) by lia.
Qed.

(** The arguments of a call are the slots from [S k] on. *)
Lemma wp_parameters st T sp pc m k vs acc Q :
  (∀ i v, vs !! i = Some v → ∃ x, st !! (S k + i)%nat = Some x ∧ u32 x = v) →
  Q (vs ++ acc, Z.of_nat k) (mk_vm st T sp pc m) →
  wp (parameters_loop (length vs) (Z.of_nat (k + length vs)) acc) (mk_vm st T sp pc m) Q.
Proof.
  revert acc. induction vs as [|v vs IH] using rev_ind; intros acc Hvs HQ.
  { simpl. wp_step. by rewrite Nat.add_0_r. }
  rewrite length_app. cbn [length]. rewrite Nat.add_1_r. cbn [parameters_loop].
  destruct (Hvs (length vs) v) as (x & Hx & Hv); [rewrite lookup_app_r, Nat.sub_diag by lia; done|].
  wp_step. replace (k + S (length vs))%nat with (S k + length vs)%nat by lia. eapply wp_slot; [exact Hx|].
  replace (Z.of_nat (S k + length vs) - 1) with (Z.of_nat (k + length vs)) by lia. apply IH.
  - intros i y Hy. apply Hvs. by apply lookup_app_l_Some.
  - rewrite Hv. by rewrite <- app_assoc in HQ.
Qed.

Lemma runs_call st T k p m f vs r m' (Q : vm → Prop) :
  code_at T p [FINSH_OP_SYSCALL; Z.of_nat (length vs)] → (p < 128)%nat → (length vs <= 16)%nat →
  st !! k = Some f → (∀ i v, vs !! i = Some v → ∃ x, st !! (S k + i)%nat = Some x ∧ u32 x = v) →
  call (u32 f) (match vs with [] => [0] | _ => vs end) m = Ok (r, m') →
  runs (mk_vm (<[k := u32 r]> st) T (Z.of_nat (S k)) (Z.of_nat (p + 2)) m') Q →
  runs (mk_vm st T (Z.of_nat (S k + length vs)) (Z.of_nat p) m) Q.
Proof.
  intros Hc Hp Hlen Hf Hvs Hcall HQ. rewrite !code_at_cons in Hc. destruct Hc as (H0 & H1 & _).
  eapply runs_op; [exact H0|done|reflexivity|]. unfold OP_call. wp_step. wp_step. wp_step. cbn [finsh_pc].
  eapply wp_text; [exact H1|]. wp_step. apply (wp_skip _ _ _ (S p) _ 1). wp_step. wp_step. cbn [finsh_sp].
  rewrite (proj2 (Z.leb_le (Z.of_nat (length vs)) 16)) by lia. wp_step. wp_step. wp_step. rewrite Nat2Z.id.
  replace (Z.of_nat (S k + length vs) - 1) with (Z.of_nat (k + length vs)) by lia.
  eapply wp_parameters; [exact Hvs|]. cbv beta iota. rewrite app_nil_r. wp_step. eapply wp_slot; [exact Hf|]. wp_step.
  unfold on_vm_mem. wp_step. cbn [finsh_mem].
  replace (if Z.of_nat (length vs) =? 0 then [0] else vs) with (match vs with [] => [0] | _ => vs end) by by destruct vs.
  unfold wp at 1. rewrite Hcall. wp_step. unfold set_vm_mem. cbn.
  apply wp_put_slot; [by eapply lookup_lt_Some|]. cbn [finsh_pc]. split; [lia|]. unfold set_vm_sp. cbn [finsh_vm_stack text_segment finsh_pc finsh_mem].
  replace (Z.of_nat k + 1) with (Z.of_nat (S k)) by lia. replace (S (p + 1))%nat with (p + 2)%nat by lia. exact HQ.
Qed.


End Runs.

(** * Memory *)

Lemma undefined_ok {S A} (o : option A) (s : S) a s' : undefined o s = Ok (a, s') → o = Some a ∧ s' = s.
Proof. destruct o; [|done]. by intros [= -> ->]. Qed.


(** What is assigned is what is read afterwards. *)
Lemma fetch_assign w a v m u m' :
  assign_at w a v m = Ok (u, m') → ∃ v', fetch w a m' = Ok (v', m') ∧ same w v' v.
Proof.
  intros H. apply wr_word_ok in H. exists (le_val (le_bytes (size_of w) (field w v))). split.
  - assert (Hr : wp (fetch w a) m' (λ v' s, v' = le_val (le_bytes (size_of w) (field w v)) ∧ s = m')).
    { apply (wp_rd_word _ _ (le_bytes (size_of w) (field w v))); [by rewrite length_le_bytes| |done].
      subst m'. apply bytes_at_store. }
    by apply wp_run in Hr as (? & ? & ? & -> & ->).
  - rewrite le_val_wrap. transitivity (wrap (bits w) (field w v)); [|apply same_field].
    replace (256 ^ Z.of_nat (size_of w)) with (2 ^ bits w) by by destruct w. apply same_wrap.
Qed.

Lemma fetch_same w a b m : same DWORD a b → fetch w a m = fetch w b m.
Proof. unfold fetch, same. cbn [bits]. by intros ->. Qed.

Lemma assign_same w a b x y m : same DWORD a b → same w x y → assign_at w a x m = assign_at w b y m.
Proof. unfold assign_at. intros Ha ->%field_same. unfold same in Ha. cbn [bits] in Ha. by rewrite Ha. Qed.

(** * Running the code of an expression *)

(** The slots that the evaluation of an expression uses. *)
Fixpoint depth (e : expr) : nat :=
  match e with
  | Num _ | Chr _ | Var _ | Addr _ => 1
  | Bin _ a b => depth a `max` S (depth b)
  | Not a => depth a
  | Assign _ e => S (depth e)
  | Pre _ _ => 3
  | Post _ _ => 4
  | Deref e => depth e
  | Store p e => depth p `max` S (depth e)
  | Call _ args => S (depths args)
  end
with depths (es : exprs) : nat :=
  match es with Enil => 0 | Econs e es => depth e `max` S (depths es) end.

Lemma depth_pos e : (1 <= depth e)%nat.
Proof. induction e; cbn [depth]; lia. Qed.

Section Execution.
Context (at_ : Z) (vars : list finsh_var) (call : Z → list Z → M ram Z) (T : list Z).
Local Notation runs := (runs call).
Local Notation machine_at st k p m := (mk_vm st T (Z.of_nat k) (Z.of_nat p) m).

(** A stack of the same size, with the same slots below [k]. *)
Definition above (k : nat) (st st' : list Z) : Prop :=
  length st' = length st ∧ ∀ i, (i < k)%nat → st' !! i = st !! i.

Definition holds (w : width) (st : list Z) (k : nat) (v : Z) : Prop :=
  ∃ x, st !! k = Some x ∧ same w x v.

Lemma above_refl k st : above k st st.
Proof. done. Qed.
Lemma above_trans k j st st1 st2 : above k st st1 → above j st1 st2 → (k <= j)%nat → above k st st2.
Proof. intros [Hl1 H1] [Hl2 H2] Hj. split; [congruence|]. intros i Hi. rewrite H2 by lia. by apply H1. Qed.
Lemma above_insert k i st x : (k <= i)%nat → above k st (<[i := x]> st).
Proof. intros Hi. split; [by rewrite length_insert|]. intros j Hj. apply list_lookup_insert_ne. lia. Qed.
Lemma above_holds w k i st st' v : above k st st' → (i < k)%nat → holds w st i v → holds w st' i v.
Proof. intros [_ H] Hi (x & Hx & Hs). exists x. by rewrite H. Qed.
Lemma holds_insert w i st x v : (i < length st)%nat → same w x v → holds w (<[i := x]> st) i v.
Proof. intros Hi Hs. exists x. by rewrite list_lookup_insert_eq. Qed.

Lemma runs_pc st k k' p p' m Q : runs (machine_at st k p m) Q → k = k' → p = p' → runs (machine_at st k' p' m) Q.
Proof. by intros ? -> ->. Qed.

Definition executes (e : expr) : Prop :=
  ∀ w v st k p m x m' (Q : vm → Prop),
    type_of vars e = Some (w, v) → code_at T p (code at_ vars e) →
    (p + length (code at_ vars e) <= 128)%nat → (k + depth e <= length st)%nat →
    eval at_ vars call e m = Ok (x, m') →
    (∀ st', above k st st' → holds v st' k x →
       runs (machine_at st' (S k) (p + length (code at_ vars e)) m') Q) →
    runs (machine_at st k p m) Q.

Definition executes_list (es : exprs) : Prop :=
  ∀ st k p m xs m' (Q : vm → Prop),
    types_of vars es = true → code_at T p (codes at_ vars es) →
    (p + length (codes at_ vars es) <= 128)%nat → (k + depths es <= length st)%nat →
    evals at_ vars call es m = Ok (xs, m') →
    (∀ st', above k st st' → length xs = elength es →
       (∀ i x, xs !! i = Some x → ∃ y, st' !! (k + i)%nat = Some y ∧ u32 y = x) →
       runs (machine_at st' (k + elength es) (p + length (codes at_ vars es)) m') Q) →
    runs (machine_at st k p m) Q.

Lemma slot_below (st : list Z) k n : (k + n <= length st)%nat → (1 <= n)%nat → ∃ x, st !! k = Some x.
Proof. intros. apply lookup_lt_is_Some. lia. Qed.

Lemma executes_Num n : executes (Num n).
Proof.
  intros w v st k p m x m' Q [= <- <-] Hc Hp Hk [= <- <-] HQ. cbn in Hp, Hk.
  destruct (slot_below st k 1 Hk) as [y Hy]; [lia|].
  eapply runs_const; [exact Hc|lia|done|]. apply HQ; [by apply above_insert|].
  apply holds_insert; [lia|apply same_put].
Qed.

Lemma executes_Chr c : executes (Chr c).
Proof.
  intros w v st k p m x m' Q [= <- <-] Hc Hp Hk [= <- <-] HQ. cbn in Hp, Hk.
  destruct (slot_below st k 1 Hk) as [y Hy]; [lia|].
  eapply runs_char; [exact Hc|lia|done|]. apply HQ; [by apply above_insert|].
  apply holds_insert; [lia|apply same_put].
Qed.

Lemma executes_Var l : executes (Var l).
Proof.
  intros w v st k p m x m' Q Hw Hc Hp Hk He HQ. cbn in Hp, Hk. cbn [type_of] in Hw.
  apply bind_Some in Hw as (u & Hu & [= <- <-]). cbn [code eval] in *. unfold width_at in *. rewrite Hu in *. cbn [from_option Datatypes.id] in *.
  destruct (slot_below st k 1 Hk) as [y Hy]; [lia|].
  eapply runs_load; [exact Hc|lia|done|done|]. apply HQ; [by apply above_insert|].
  apply holds_insert; [lia|apply same_put].
Qed.

Lemma executes_Addr l : executes (Addr l).
Proof.
  intros w v st k p m x m' Q Hw Hc Hp Hk [= <- <-] HQ. cbn in Hp, Hk. cbn [type_of] in Hw.
  apply bind_Some in Hw as (u & _ & [= <- <-]).
  destruct (slot_below st k 1 Hk) as [y Hy]; [lia|].
  eapply runs_const; [exact Hc|lia|done|]. apply HQ; [by apply above_insert|].
  apply holds_insert; [lia|apply same_put].
Qed.

Lemma executes_Bin o a b : executes a → executes b → executes (Bin o a b).
Proof.
  intros Ha Hb w v st k p m x m' Q Hw Hc Hp Hk He HQ. cbn [type_of] in Hw.
  apply bind_Some in Hw as ([wa va] & Eta & Hw). apply bind_Some in Hw as ([wb vb] & Etb & Hw).
  apply bind_Some in Hw as (u & -> & Hw). destruct (narrower u va) eqn:Na; [|done].
  destruct (narrower u vb) eqn:Nb; [|done]. injection Hw as <- <-.
  cbn [code eval depth] in *. replace (width_of vars a) with u in * by (unfold width_of; by rewrite Eta).
  apply bind_ok in He as (xa & m1 & Hea & He). apply bind_ok in He as (xb & m2 & Heb & He).
  apply undefined_ok in He as [Hop ->]. rewrite !length_app in *. cbn [length] in *.
  apply code_at_app in Hc as [Hca Hc]. apply code_at_app in Hc as [Hcb Hc].
  apply code_at_cons in Hc as [Hc _].
  eapply (Ha _ _ st k p); [exact Eta|done|lia|lia|exact Hea|]. intros st1 H1 T1.
  eapply (Hb _ _ st1 (S k)); [exact Etb|done|lia|destruct H1; lia|exact Heb|]. intros st2 H2 (y & Hy & Sy).
  destruct (above_holds _ _ _ _ _ _ H2 (Nat.lt_succ_diag_r k) T1) as (z & Hz & Sz).
  assert (Hl : (S k < length st2)%nat) by (by eapply lookup_lt_Some).
  eapply runs_bin; [exact Hc|lia|exact Hz|exact Hy| |].
  - rewrite (field_same u z xa), (field_same u y xb) by (eauto using same_weaken). exact Hop.
  - eapply runs_pc; [apply HQ| |].
    + eapply above_trans; [|by apply above_insert|apply Nat.le_refl]. eapply above_trans; [exact H1|exact H2|lia].
    + apply holds_insert; [lia|apply same_put].
    + done.
    + lia.
Qed.

Lemma executes_Not a : executes a → executes (Not a).
Proof.
  intros Ha w v st k p m x m' Q Hw Hc Hp Hk He HQ. cbn [type_of] in Hw.
  apply bind_Some in Hw as ([wa va] & Eta & Hw). apply bind_Some in Hw as (u & -> & Hw).
  destruct (narrower u va) eqn:Na; [|done]. injection Hw as <- <-.
  cbn [code eval depth] in *. replace (width_of vars a) with u in * by (unfold width_of; by rewrite Eta).
  apply bind_ok in He as (xa & m1 & Hea & [= <- <-]). rewrite !length_app in *. cbn [length] in *.
  apply code_at_app in Hc as [Hca Hc]. apply code_at_cons in Hc as [Hc _].
  eapply (Ha _ _ st k p); [exact Eta|done|lia|lia|exact Hea|]. intros st1 H1 (y & Hy & Sy).
  assert (Hl : (k < length st1)%nat) by (by eapply lookup_lt_Some).
  eapply runs_not; [exact Hc|lia|exact Hy|].
  rewrite (field_same u y xa) by (eauto using same_weaken).
  eapply runs_pc; [apply HQ|done|lia].
  - eapply above_trans; [exact H1|by apply above_insert|apply Nat.le_refl].
  - apply holds_insert; [lia|apply same_put].
Qed.

Lemma executes_Deref e : executes e → executes (Deref e).
Proof.
  intros He w v st k p m x m' Q Hw Hc Hp Hk Hev HQ. cbn [type_of] in Hw.
  apply bind_Some in Hw as ([wa va] & Eta & Hw). destruct wa as [[]|]; try done. destruct va; try done.
  injection Hw as <- <-. cbn [code eval depth] in *.
  apply bind_ok in Hev as (a & m1 & Hea & Hf). rewrite !length_app in *. cbn [length] in *.
  apply code_at_app in Hc as [Hca Hc]. apply code_at_cons in Hc as [Hc _].
  eapply (He _ _ st k p); [exact Eta|done|lia|lia|exact Hea|]. intros st1 H1 (y & Hy & Sy).
  assert (Hl : (k < length st1)%nat) by (by eapply lookup_lt_Some).
  eapply (runs_load_stack _ DWORD); [exact Hc|lia|exact Hy| |].
  { rewrite (fetch_same _ _ a); [exact Hf|]. eapply same_trans; [apply same_field|done]. }
  eapply runs_pc; [apply HQ|done|lia].
  - eapply above_trans; [exact H1|by apply above_insert|apply Nat.le_refl].
  - apply holds_insert; [lia|apply same_put].
Qed.

(** Storing the value at the top of the stack, and loading it again. *)
Lemma runs_store_load w st k p m a v m' Q :
  code_at T p [by_width w FINSH_OP_ST_BYTE; by_width w FINSH_OP_LD_VALUE_BYTE_STACK] → (S p < 128)%nat →
  holds DWORD st k a → holds w st (S k) v → assign_at w a v m = Ok (tt, m') →
  (∀ st', above k st st' → holds w st' k v → runs (machine_at st' (S k) (S (S p)) m') Q) →
  runs (machine_at st (S (S k)) p m) Q.
Proof.
  intros Hc Hp (y & Hy & Sy) (z & Hz & Sz) Hm HQ. rewrite !code_at_cons in Hc. destruct Hc as (H0 & H1 & _).
  assert (Ha : same DWORD (field DWORD y) a) by (eapply same_trans; [apply same_field|done]).
  assert (Hl : (k < length st)%nat) by (by eapply lookup_lt_Some).
  eapply runs_store; [exact H0|lia|exact Hy|exact Hz| |].
  { by rewrite (assign_same _ _ a _ v). }
  apply fetch_assign in Hm as (v' & Hf & Sv).
  eapply runs_load_stack; [exact H1|lia|exact Hy| |].
  { by rewrite (fetch_same _ _ a). }
  apply HQ; [by apply above_insert|]. apply holds_insert; [done|]. eapply same_trans; [apply same_put|done].
Qed.

Lemma executes_Assign l e : executes e → executes (Assign l e).
Proof.
  intros He w v st k p m x m' Q Hw Hc Hp Hk Hev HQ. cbn [type_of] in Hw.
  apply bind_Some in Hw as (u & Hu & Hw). apply bind_Some in Hw as ([we ve] & Ete & Hw).
  destruct (narrower u ve) eqn:Nw; [|done]. injection Hw as <- <-. cbn [code eval depth] in *.
  unfold width_at in *. rewrite Hu in *. cbn [from_option Datatypes.id] in *.
  apply bind_ok in Hev as (y & m1 & Hee & Hev). apply bind_ok in Hev as ([] & m2 & Has & [= -> ->]).
  rewrite !length_app in *. cbn [length] in *.
  apply code_at_app in Hc as [Hc0 Hc]. apply code_at_app in Hc as [Hce Hc].
  replace (length (load_const (lval_at at_ l))) with 5%nat in * by done.
  destruct (slot_below st k (S (depth e)) Hk) as [z Hz]; [lia|].
  assert (Hl : (k < length st)%nat) by (by eapply lookup_lt_Some).
  eapply runs_const; [exact Hc0|lia|exact Hz|].
  eapply (He _ _ _ (S k)); [exact Ete|done|lia|rewrite length_insert; lia|exact Hee|]. intros st1 H1 T1.
  eapply (runs_store_load u); [exact Hc|lia| | |exact Has|].
  - eapply above_holds; [exact H1|lia|]. apply holds_insert; [done|apply same_put].
  - destruct T1 as (q & Hq & Sq). exists q. split; [done|]. by eapply same_weaken.
  - intros st2 H2 T2. eapply runs_pc; [apply HQ; [|exact T2]|done|lia].
    eapply above_trans; [|exact H2|apply Nat.le_refl]. eapply above_trans; [by apply above_insert|exact H1|lia].
Qed.

Lemma executes_Store q e : executes q → executes e → executes (Store q e).
Proof.
  intros Hq He w v st k p m x m' Q Hw Hc Hp Hk Hev HQ. cbn [type_of] in Hw.
  apply bind_Some in Hw as ([wq vq] & Etq & Hw). apply bind_Some in Hw as ([we ve] & Ete & Hw).
  destruct wq as [[]|], vq, ve; try done. injection Hw as <- <-. cbn [code eval depth] in *.
  apply bind_ok in Hev as (a & m1 & Heq & Hev). apply bind_ok in Hev as (y & m2 & Hee & Hev).
  apply bind_ok in Hev as ([] & m3 & Has & [= -> ->]). rewrite !length_app in *. cbn [length] in *.
  apply code_at_app in Hc as [Hcq Hc]. apply code_at_app in Hc as [Hce Hc].
  eapply (Hq _ _ st k p); [exact Etq|done|lia|lia|exact Heq|]. intros st1 H1 T1.
  eapply (He _ _ st1 (S k)); [exact Ete|done|lia|destruct H1; lia|exact Hee|]. intros st2 H2 T2.
  eapply (runs_store_load DWORD); [exact Hc|lia|eapply above_holds; [exact H2|lia|exact T1]|exact T2|exact Has|].
  intros st3 H3 T3. eapply runs_pc; [apply HQ; [|exact T3]|done|lia].
  eapply above_trans; [|exact H3|apply Nat.le_refl]. eapply above_trans; [exact H1|exact H2|lia].
Qed.

(** The value of a variable and the constant 1, added or subtracted, and stored at the address
    below them. *)
Lemma runs_step inc w st k p m a y z m1 m2 Q :
  code_at T p (step_code inc w a) → (p + 8 + size_of w <= 128)%nat → (S (S (S k)) <= length st)%nat →
  st !! k = Some z → same DWORD z a →
  fetch w a m = Ok (y, m1) → assign_at w a (step_of inc (field w y)) m = Ok (tt, m2) →
  (∀ st', above (S k) st st' → holds w st' (S k) (step_of inc (field w y)) →
     runs (machine_at st' (S k) (p + length (step_code inc w a)) m2) Q) →
  runs (machine_at st (S k) p m) Q.
Proof.
  intros Hc Hp Hk Hz Sz Hf Hm HQ. pose proof (rd_word_ok _ _ _ _ _ Hf) as ->.
  unfold step_code in *. apply code_at_app in Hc as [H0 Hc]. apply code_at_app in Hc as [H1 Hc].
  rewrite !code_at_cons in Hc. destruct Hc as (H2 & H3 & _). rewrite !length_app in *. cbn [length] in *.
  replace (length (load_from w a)) with 5%nat in * by done.
  replace (length (load_one w)) with (S (size_of w)) in * by by destruct w.
  destruct (slot_below st (S k) 1) as [y0 Hy0]; [lia..|].
  eapply runs_load; [exact H0|lia|exact Hy0|exact Hf|].
  set (st1 := <[S k := put_field w y0 y]> st). assert (Hl1 : length st1 = length st) by apply length_insert.
  destruct (slot_below st1 (S (S k)) 1) as [y1 Hy1]; [lia..|].
  eapply runs_one; [exact H1|lia|exact Hy1|]. replace (length (load_one w)) with (S (size_of w)) by by destruct w.
  set (st2 := <[S (S k) := put_field w y1 1]> st1). assert (Hl2 : length st2 = length st) by by unfold st2; rewrite length_insert.
  assert (Ha : st2 !! S k = Some (put_field w y0 y)).
  { unfold st2, st1. rewrite list_lookup_insert_ne by lia. by rewrite list_lookup_insert_eq by lia. }
  assert (Hb : st2 !! S (S k) = Some (put_field w y1 1)) by (unfold st2; by rewrite list_lookup_insert_eq by lia).
  eapply (runs_bin _ (if inc then Add else Sub)); [| |exact Ha|exact Hb| |].
  - rewrite H2. by destruct inc.
  - lia.
  - rewrite (field_same w (put_field w y0 y) y), (field_same w (put_field w y1 1) 1) by apply same_put.
    replace (field w 1) with 1 by by destruct w. transitivity (Some (step_of inc (field w y))); [by destruct inc|done].
  - assert (Hfin : above (S k) st (<[S k := put_field w (put_field w y0 y) (step_of inc (field w y))]> st2)).
    { apply (above_trans (S k) (S k) _ st2); [|by apply above_insert|done].
      apply (above_trans (S k) (S k) _ st1); [by apply above_insert|apply above_insert; lia|done]. }
    eapply (runs_store _ w); [exact H3|lia| | | |].
    + rewrite (proj2 Hfin) by lia. exact Hz.
    + by rewrite list_lookup_insert_eq by lia.
    + rewrite (assign_same _ _ a _ (step_of inc (field w y))); [exact Hm| |apply same_put].
      eapply same_trans; [apply same_field|exact Sz].
    + eapply runs_pc; [apply HQ; [exact Hfin|]|done|lia]. apply holds_insert; [lia|apply same_put].
Qed.

Lemma executes_Pre inc i : executes (Pre inc i).
Proof.
  intros w v st k p m x m' Q Hw Hc Hp Hk Hev HQ. cbn [type_of] in Hw.
  apply bind_Some in Hw as ([] & Hu & Hw); try done. injection Hw as <- <-. cbn [code eval depth] in *. cbv zeta in *.
  set (a := lval_at at_ (Local_var i)) in *.
  apply bind_ok in Hev as (y & m1 & Hf & Hev). apply bind_ok in Hev as ([] & m2 & Has & [= <- <-]).
  pose proof (rd_word_ok _ _ _ _ _ Hf) as ->. rewrite !length_app in *. cbn [length] in *.
  apply code_at_app in Hc as [H0 Hc]. apply code_at_app in Hc as [H1 Hc]. apply code_at_cons in Hc as [H2 _].
  replace (length (load_const a)) with 5%nat in * by done.
  replace (length (step_code inc DWORD a)) with 12%nat in * by done.
  destruct (slot_below st k 3 Hk) as [z Hz]; [lia|].
  eapply runs_const; [exact H0|lia|exact Hz|].
  eapply (runs_step inc DWORD _ k); [exact H1|cbn [size_of]; lia|rewrite length_insert; lia| |apply same_put|exact Hf|exact Has|].
  { apply list_lookup_insert_eq. lia. }
  intros st1 A1 _. replace (length (step_code inc DWORD a)) with 12%nat by done.
  assert (Ha : st1 !! k = Some (put_field DWORD z a)).
  { rewrite (proj2 A1) by lia. apply list_lookup_insert_eq. lia. }
  assert (Hl : length st1 = length st) by (rewrite (proj1 A1); apply length_insert).
  destruct (fetch_assign _ _ _ _ _ _ Has) as (v' & Hf' & Sv).
  eapply (runs_load_stack _ DWORD); [exact H2|lia|exact Ha| |].
  { rewrite (fetch_same _ _ a); [exact Hf'|]. eapply same_trans; [apply same_field|apply same_put]. }
  eapply runs_pc; [apply HQ|done|lia].
  - apply (above_trans k k _ st1); [|by apply above_insert|done].
    eapply above_trans; [by apply (above_insert k k)|exact A1|lia].
  - apply holds_insert; [lia|]. eapply same_trans; [apply same_put|done].
Qed.

Lemma executes_Post inc i : executes (Post inc i).
Proof.
  intros w v st k p m x m' Q Hw Hc Hp Hk Hev HQ. cbn [type_of] in Hw.
  apply bind_Some in Hw as (u & Hu & [= <- <-]). cbn [code eval depth] in *. cbv zeta in *.
  unfold width_at in *. rewrite Hu in *. cbn [from_option Datatypes.id] in *.
  set (a := lval_at at_ (Local_var i)) in *.
  apply bind_ok in Hev as (y & m1 & Hf & Hev). apply bind_ok in Hev as ([] & m2 & Has & [= <- <-]).
  pose proof (rd_word_ok _ _ _ _ _ Hf) as ->. rewrite !length_app in *. cbn [length] in *.
  apply code_at_app in Hc as [H0 Hc]. apply code_at_app in Hc as [H1 Hc]. apply code_at_app in Hc as [H2 Hc].
  apply code_at_cons in Hc as [H3 _].
  replace (length (load_const a)) with 5%nat in * by done. replace (length (load_from u a)) with 5%nat in * by done.
  assert (Hlen : length (step_code inc u a) = (8 + size_of u)%nat) by (unfold step_code; by destruct u, inc).
  destruct (slot_below st k 4 Hk) as [z Hz]; [lia|].
  eapply runs_load; [exact H0|lia|exact Hz|exact Hf|].
  set (st1 := <[k := put_field u z y]> st). assert (Hl1 : length st1 = length st) by apply length_insert.
  destruct (slot_below st1 (S k) 1) as [z1 Hz1]; [lia..|].
  eapply runs_const; [exact H1|lia|exact Hz1|].
  eapply (runs_step inc u _ (S k)); [exact H2|lia|rewrite length_insert; lia| |apply same_put|exact Hf|exact Has|].
  { apply list_lookup_insert_eq. lia. }
  intros st2 A2 _. eapply runs_pop; [rewrite <- H3; f_equal; lia|lia|].
  eapply runs_pc; [apply HQ|done|lia].
  - apply (above_trans k (S k) _ st1); [by apply above_insert| |lia].
    eapply above_trans; [by apply (above_insert (S k) (S k))|exact A2|lia].
  - eapply above_holds; [exact A2|lia|].
    eapply above_holds; [by apply (above_insert (S k) (S k))|lia|]. apply holds_insert; [lia|apply same_put].
Qed.

Lemma executes_Enil : executes_list Enil.
Proof.
  intros st k p m xs m' Q _ _ _ _ [= <- <-] HQ.
  eapply runs_pc; [apply (HQ st); [done|done|]|cbn; lia|cbn; lia]. by intros [|].
Qed.

Lemma executes_Econs e es : executes e → executes_list es → executes_list (Econs e es).
Proof.
  intros He Hes st k p m xs m' Q Hty Hc Hp Hk Hev HQ. cbn [types_of] in Hty.
  destruct (type_of vars e) as [[w []]|] eqn:Ete; try done. cbn [depths elength] in *.
  change (codes at_ vars (Econs e es)) with (code at_ vars e ++ codes at_ vars es) in *.
  change (evals at_ vars call (Econs e es)) with
    (v ← eval at_ vars call e; vs ← evals at_ vars call es; mret (u32 v :: vs)) in Hev.
  apply bind_ok in Hev as (y & m1 & Hee & Hev). apply bind_ok in Hev as (ys & m2 & Hees & [= <- <-]).
  rewrite !length_app in *. apply code_at_app in Hc as [Hce Hc].
  eapply (He _ _ st k p); [exact Ete|done|lia|lia|exact Hee|]. intros st1 H1 T1.
  eapply (Hes st1 (S k)); [done|done|lia|destruct H1; lia|exact Hees|]. intros st2 H2 Hlen Hvs.
  eapply runs_pc; [apply (HQ st2)|lia|lia].
  - eapply above_trans; [exact H1|exact H2|lia].
  - cbn [length]. by rewrite Hlen.
  - intros [|i] x Hx.
    + injection Hx as <-. rewrite Nat.add_0_r.
      destruct (above_holds _ _ _ _ _ _ H2 (Nat.lt_succ_diag_r k) T1) as (z & Hz & Sz). by exists z.
    + rewrite Nat.add_succ_r. by apply Hvs.
Qed.

Lemma executes_Call f args : executes_list args → executes (Call f args).
Proof.
  intros Hargs w v st k p m x m' Q Hw Hc Hp Hk Hev HQ. cbn [type_of] in Hw.
  destruct (types_of vars args) eqn:Ety; [|done].
  destruct (elength args <=? 16)%nat eqn:Elen; [|done]. injection Hw as <- <-.
  change (depth (Call f args)) with (S (depths args)) in *.
  change (code at_ vars (Call f args)) with (load_const (syscall_func f) ++ codes at_ vars args ++
    [FINSH_OP_SYSCALL; Z.of_nat (elength args)]) in *.
  change (eval at_ vars call (Call f args)) with (vs ← evals at_ vars call args;
    call (u32 (syscall_func f)) (match vs with [] => [0] | _ => vs end)) in Hev.
  apply Nat.leb_le in Elen. apply bind_ok in Hev as (xs & m1 & Hes & Hcall).
  rewrite !length_app in *. cbn [length] in *. replace (length (load_const (syscall_func f))) with 5%nat in * by done.
  apply code_at_app in Hc as [H0 Hc]. apply code_at_app in Hc as [H1 Hc].
  destruct (slot_below st k (S (depths args)) Hk) as [z Hz]; [lia|].
  eapply runs_const; [exact H0|lia|exact Hz|].
  eapply (Hargs _ (S k)); [done|exact H1|lia|rewrite length_insert; lia|exact Hes|]. intros st1 A1 Hlen Hvs.
  assert (Hk1 : st1 !! k = Some (put_field DWORD z (syscall_func f))).
  { rewrite (proj2 A1) by lia. apply list_lookup_insert_eq. lia. }
  assert (Hl : (k < length st1)%nat) by (by eapply lookup_lt_Some).
  rewrite <- Hlen in *. eapply runs_call; [exact Hc|lia|lia|exact Hk1|exact Hvs| |].
  - replace (u32 (put_field DWORD z (syscall_func f))) with (u32 (syscall_func f)); [exact Hcall|].
    symmetry. apply (same_put DWORD).
  - eapply runs_pc; [apply HQ|done|lia].
    + apply (above_trans k k _ st1); [|by apply above_insert|done].
      eapply above_trans; [by apply (above_insert k k)|exact A1|lia].
    + apply holds_insert; [lia|apply (same_wrap DWORD)].
Qed.

(** The machine runs the code of every expression. *)
Lemma executes_all : (∀ e, executes e) ∧ (∀ es, executes_list es).
Proof.
  apply expr_exprs_ind; eauto using executes_Num, executes_Chr, executes_Var, executes_Addr, executes_Bin,
    executes_Not, executes_Assign, executes_Pre, executes_Post, executes_Deref, executes_Store, executes_Call,
    executes_Enil, executes_Econs.
Qed.

(** ** Programs *)

(** The value of the last statement. *)
Fixpoint eval_program (es : list expr) : M ram Z :=
  match es with
  | [] => mret 0
  | [e] => eval at_ vars call e
  | e :: es => eval at_ vars call e;; eval_program es
  end.

Fixpoint last_width (es : list expr) : width :=
  match es with [] => DWORD | [e] => valid_of vars e | _ :: es => last_width es end.

Lemma eval_program_cons e es :
  es ≠ [] → eval_program (e :: es) = (eval at_ vars call e;; eval_program es).
Proof. by destruct es. Qed.
Lemma last_width_cons e es : es ≠ [] → last_width (e :: es) = last_width es.
Proof. by destruct es. Qed.

Lemma runs_program es st p m x m' Q :
  es ≠ [] → Forall (typed vars) es → code_at T p (program_code at_ vars es) →
  (p + length (program_code at_ vars es) <= 128)%nat → Forall (λ e, (depth e <= length st)%nat) es →
  eval_program es m = Ok (x, m') →
  (∀ st', length st' = length st → holds (last_width es) st' 0 x →
     runs (machine_at st' 1 (p + length (program_code at_ vars es)) m') Q) →
  runs (machine_at st 0 p m) Q.
Proof.
  revert st p m. induction es as [|e es IH]; intros st p m Hne Hty Hc Hp Hd Hev HQ; [done|].
  apply Forall_cons in Hty as [[[w v] Hw] Hty]. apply Forall_cons in Hd as [Hde Hd].
  destruct es as [|e' es].
  { eapply (proj1 executes_all e); [exact Hw|done|done|lia|exact Hev|]. intros st1 [Hl _] T1. apply HQ; [done|].
    cbn [last_width]. unfold valid_of. by rewrite Hw. }
  rewrite program_code_cons, eval_program_cons, last_width_cons, !length_app in * by done. cbn [length] in *.
  apply bind_ok in Hev as (y & m1 & Hee & Hev).
  apply code_at_app in Hc as [Hce Hc]. apply code_at_cons in Hc as [H0 Hc].
  eapply (proj1 executes_all e); [exact Hw|done|lia|lia|exact Hee|]. intros st1 [Hl _] _.
  eapply runs_pop; [exact H0|lia|].
  eapply IH; [done|done|exact Hc|lia|by rewrite Hl|exact Hev|]. intros st2 Hl2 T2.
  eapply runs_pc; [apply HQ; [congruence|done]|done|lia].
Qed.

(** Zeros behind the code are operations that do nothing. *)
Lemma runs_zeros n st k p m Q :
  code_at T p (replicate n 0) → (p + n <= 128)%nat →
  runs (machine_at st k (p + n) m) Q → runs (machine_at st k p m) Q.
Proof.
  revert p. induction n as [|n IH]; intros p Hc Hp HQ; [by rewrite Nat.add_0_r in HQ|].
  cbn [replicate] in Hc. apply code_at_cons in Hc as [H0 Hc].
  eapply runs_op; [exact H0|lia|reflexivity|]. unfold OP_no_op. wp_step. cbn [finsh_pc]. split; [lia|].
  apply IH; [done|lia|]. by rewrite Nat.add_succ_comm.
Qed.

End Execution.
