(* ===== verification/FinshSpec.v ===== *)
(** What the shell computes: the compiler and the virtual machine together give the value of
    the last statement, and the virtual machine always ends. *)

From Stdlib Require Import ZArith Lia.
From stdpp Require Import numbers base gmap list.
From S2P Require Import Prelude Bytes FinshVm FinshData FinshCompile FinshTree FinshExpr FinshCode FinshRun.
Local Open Scope Z_scope.

(** * The machine always ends *)

(** The computation never goes back in the text, and does not run out of fuel. *)
Definition advances {A} (m : V A) : Prop :=
  ∀ s, match m s with Ok (_, s') => finsh_pc s <= finsh_pc s' | Err e => e ≠ F_fuel end.

(** The computation on the memory does not run out of fuel. *)
Definition fuel_free {A} (m : M ram A) : Prop := ∀ s, m s ≠ Err F_fuel.

Create HintDb advances.

Section Advances.

Lemma advances_ret {A} (a : A) : advances (mret a).
Proof. intros s. simpl. lia. Qed.
Lemma advances_bind {A B} (m : V A) (f : A → V B) : advances m → (∀ a, advances (f a)) → advances (m ≫= f).
Proof.
  intros Hm Hf s. unfold mbind, M_bind. specialize (Hm s). destruct (m s) as [[a s1]|e]; [|done].
  specialize (Hf a s1). destruct (f a s1) as [[b s2]|e]; [lia|done].
Qed.
Lemma advances_gets {A} (f : vm → A) : advances (gets f).
Proof. intros s. simpl. lia. Qed.
Lemma advances_deref {A} (o : option A) : advances (deref o).
Proof. intros s. destruct o; [simpl; lia|done]. Qed.
Lemma advances_undefined {A} (o : option A) : advances (undefined o).
Proof. intros s. destruct o; [simpl; lia|done]. Qed.
Lemma advances_fail {A} e : e ≠ F_fuel → advances (A := A) (fail e).
Proof. by intros He s. Qed.
Lemma advances_modify f : (∀ s, finsh_pc s <= finsh_pc (f s)) → advances (modify f).
Proof. intros Hf s. apply Hf. Qed.
Lemma advances_mem {A} (m : M ram A) : fuel_free m → advances (on_vm_mem m).
Proof.
  intros Hm s. unfold on_vm_mem, zoom. specialize (Hm (finsh_mem s)). destruct (m (finsh_mem s)) as [[a t]|e].
  - simpl. lia.
  - congruence.
Qed.

Lemma fuel_free_bind {A B} (m : M ram A) (f : A → M ram B) :
  fuel_free m → (∀ a, fuel_free (f a)) → fuel_free (m ≫= f).
Proof.
  intros Hm Hf s. unfold mbind, M_bind. specialize (Hm s). destruct (m s) as [[a s1]|e]; [apply Hf|congruence].
Qed.
Lemma fuel_free_rd8 a : fuel_free (rd8 a).
Proof. intros s. unfold rd8, get, mbind, M_bind. by destruct (s !! a). Qed.
Lemma fuel_free_wr8 a v : fuel_free (wr8 a v).
Proof. intros s. unfold wr8, get, mbind, M_bind. by destruct (s !! a). Qed.
Lemma fuel_free_rd_word n a : fuel_free (rd_word n a).
Proof.
  revert a. induction n as [|n IH]; intros a; [done|]. cbn [rd_word].
  apply fuel_free_bind; [apply fuel_free_rd8|]. intros x. by apply fuel_free_bind.
Qed.
Lemma fuel_free_wr_word n a v : fuel_free (wr_word n a v).
Proof.
  revert a v. induction n as [|n IH]; intros a v; [done|]. cbn [wr_word].
  apply fuel_free_bind; [apply fuel_free_wr8|]. by intros _.
Qed.

End Advances.

#[export] Hint Resolve advances_ret advances_bind advances_gets advances_deref advances_undefined
  advances_mem fuel_free_rd_word fuel_free_wr_word : advances.
#[export] Hint Extern 2 (advances (fail _)) => apply advances_fail; discriminate : advances.
#[export] Hint Extern 2 (advances (modify _)) => apply advances_modify; intros; cbn; lia : advances.

(** Split a computation of the machine into its parts. *)
Ltac advance :=
  repeat first
    [ progress intros
    | apply advances_bind
    | match goal with |- advances (let '(_, _) := ?x in _) => destruct x end
    | match goal with |- advances (if ?b then _ else _) => destruct b end
    | progress eauto with advances ].

Section Ends.
Context (call : Z → list Z → M ram Z).
Hypothesis call_ends : ∀ f vs, fuel_free (call f vs).

Lemma advances_text i : advances (text i).
Proof. unfold text. advance. Qed.
Lemma advances_slot i : advances (slot i).
Proof. unfold slot. advance. Qed.
#[local] Hint Resolve advances_text advances_slot : advances.
Lemma advances_put_slot i v : advances (put_slot i v).
Proof. unfold put_slot. advance. Qed.
Lemma advances_skip n : 0 <= n → advances (skip n).
Proof. intros Hn. apply advances_modify. intros s. cbn. lia. Qed.
#[local] Hint Resolve advances_put_slot : advances.
#[local] Hint Extern 2 (advances (skip _)) => apply advances_skip; lia : advances.

Lemma advances_parameters n sp acc : advances (parameters_loop n sp acc).
Proof. revert sp acc. induction n as [|n IH]; intros sp acc; cbn [parameters_loop]; advance. Qed.

(** Every operation of the table. *)
Lemma advances_operations : Forall advances (op_table call).
Proof.
  assert (Hbin : ∀ w f, advances (OP_BIN w f)) by (intros w f; unfold OP_BIN; advance).
  assert (Hbw : ∀ w, advances (OP_bw w)) by (intros w; unfold OP_bw; advance).
  assert (Hpush : ∀ w v, advances (push w v)) by (intros w v; unfold push; advance).
  assert (Hld : ∀ w, advances (OP_ld_value w)) by (intros w; unfold OP_ld_value, FINSH_GET32, load; advance).
  assert (Hlds : ∀ w, advances (OP_ld_value_stack w)) by (intros w; unfold OP_ld_value_stack, load; advance).
  assert (Hst : ∀ w, advances (OP_st w)) by (intros w; unfold OP_st, store_at; advance).
  unfold op_table. repeat apply Forall_cons_2; try apply Forall_nil_2; try apply Hbin; try apply Hbw; try apply Hld;
    try apply Hlds; try apply Hst.
  - apply advances_ret.
  - unfold OP_ld_byte. advance.
  - unfold OP_ld_word, FINSH_GET16. advance.
  - unfold OP_ld_dword, FINSH_GET32. advance.
  - unfold OP_pop. advance.
  - unfold OP_call. advance. apply advances_parameters.
Qed.

Lemma vm_step_advances s :
  match vm_step call s with Ok (_, s') => finsh_pc s < finsh_pc s' | Err e => e ≠ F_fuel end.
Proof.
  assert (Hrest : ∀ op, advances (f ← deref (at_index (op_table call) op); f)).
  { intros op t. unfold mbind, M_bind. destruct (at_index (op_table call) op) as [f|] eqn:Ef; [|done]. cbn.
    pose proof advances_operations as Hall. rewrite Forall_forall in Hall. apply Hall.
    unfold at_index in Ef. destruct (0 <=? op); [|done]. by eapply list_elem_of_lookup_2. }
  change (vm_step call s) with
    (match text (finsh_pc s) s with
     | Ok (op, s1) => (f ← deref (at_index (op_table call) op); f) (set_vm_pc (finsh_pc s1 + 1) s1)
     | Err e => Err e
     end).
  pose proof (advances_text (finsh_pc s) s) as Ht. destruct (text (finsh_pc s) s) as [[op s1]|e]; [|done].
  specialize (Hrest op (set_vm_pc (finsh_pc s1 + 1) s1)).
  destruct ((f ← deref (at_index (op_table call) op); f) (set_vm_pc (finsh_pc s1 + 1) s1)) as [[u s2]|e]; [|done].
  cbn [finsh_pc set_vm_pc] in Hrest. lia.
Qed.

Lemma vm_loop_ends n s :
  FINSH_TEXT_MAX - finsh_pc s <= Z.of_nat n → 0 <= finsh_pc s →
  match vm_loop call n s with Ok (_, s') => FINSH_TEXT_MAX <= finsh_pc s' | Err e => e ≠ F_fuel end.
Proof.
  revert s. induction n as [|n IH]; intros s Hn Hpc; (destruct (decide (finsh_pc s < FINSH_TEXT_MAX)) as [Hlt|Hge];
    [|cbn [vm_loop]; unfold mbind, M_bind, gets; rewrite (proj2 (Z.ltb_ge _ _)), andb_false_r by lia; simpl; lia]).
  { lia. }
  rewrite vm_loop_step by lia. pose proof (vm_step_advances s) as Hs.
  destruct (vm_step call s) as [[u s2]|e]; [|done]. apply IH; lia.
Qed.

End Ends.

(** C16: [finsh_vm_run] always ends, whatever is in the text segment, provided that the exported
    functions end: the 128 rounds of the model are enough, every operation moves the program
    counter forward and never back, and a run without a fault leaves it behind the text segment. *)
Theorem finsh_vm_run_ends call (s : vm) (Hcall : ∀ f vs m, call f vs m ≠ Err F_fuel) :
  match finsh_vm_run call s with Ok (_, s') => FINSH_TEXT_MAX <= finsh_pc s' | Err e => e ≠ F_fuel end.
Proof. by apply (vm_loop_ends call (λ f vs m, Hcall f vs m)). Qed.

(** * Compiling and running *)

Section Running.
Context (at_ : Z) (vars : list finsh_var) (call : Z → list Z → M ram Z).

Lemma code_at_0 l l' : code_at (l ++ l') 0 l.
Proof. intros i x Hx. by apply lookup_app_l_Some. Qed.

Lemma steps_end n s s' :
  steps call n s s' → Z.of_nat n <= finsh_pc s' - finsh_pc s → 0 <= finsh_pc s → finsh_pc s' = FINSH_TEXT_MAX →
  vm_loop call (Z.to_nat FINSH_TEXT_MAX) s = Ok (tt, s').
Proof.
  intros Hn Hb Hpc He. rewrite (vm_loop_steps call n _ s s' Hn) by (unfold FINSH_TEXT_MAX in *; lia).
  generalize (Z.to_nat FINSH_TEXT_MAX - n)%nat as fuel. intros [|fuel]; cbn [vm_loop]; unfold mbind, M_bind, gets;
    by rewrite He.
Qed.

(** The machine with the code of a program, from its start to its end. *)
Lemma wp_vm_run es v x m' :
  es ≠ [] → Forall (typed vars) es → Z.of_nat (length (program_code at_ vars es)) <= FINSH_TEXT_MAX →
  text_segment v = text_of at_ vars es →
  Forall (λ e, (depth e <= length (finsh_vm_stack v))%nat) es →
  eval_program at_ vars call es (finsh_mem v) = Ok (x, m') →
  wp (finsh_vm_run call) v (λ _ v', finsh_mem v' = m' ∧ holds (last_width vars es) (finsh_vm_stack v') 0 x).
Proof.
  intros Hne Hty Hlen Ht Hd He. unfold FINSH_TEXT_MAX in Hlen. unfold finsh_vm_run. wp_step. wp_step.
  destruct v as [st T sp pc m]. cbn in Ht, Hd, He. subst T. unfold set_vm_pc, set_vm_sp. cbn [finsh_vm_stack text_segment finsh_pc finsh_mem].
  set (n := length (program_code at_ vars es)) in *. set (T := text_of at_ vars es).
  assert (Hc : code_at T 0 (program_code at_ vars es ++ replicate (128 - n) 0)).
  { unfold T, text_of. rewrite <- (app_nil_r (_ ++ replicate _ _)) at 1. apply code_at_0. }
  apply code_at_app in Hc as [Hc Hz].
  assert (Hr : runs call (mk_vm st T (Z.of_nat 0) (Z.of_nat 0) m) (λ v', finsh_pc v' = FINSH_TEXT_MAX ∧
    finsh_mem v' = m' ∧ holds (last_width vars es) (finsh_vm_stack v') 0 x)).
  { eapply runs_program; [exact Hne|exact Hty|exact Hc|lia|exact Hd|exact He|]. intros st' _ Hst.
    eapply runs_zeros; [exact Hz|lia|]. apply runs_ret. cbn. split_and!; [|done|done]. unfold FINSH_TEXT_MAX. fold n. lia. }
  destruct Hr as (k & v' & Hk & Hb & Hpc & Hm & Hh).
  apply wp_run. exists tt, v'. split; [|done]. eapply steps_end; [exact Hk|exact Hb|cbn; lia|exact Hpc].
Qed.

Lemma wp_stack_bottom w v x Q :
  holds w (finsh_vm_stack v) 0 x → (∀ r, same w r x → Q r v) → wp finsh_stack_bottom v Q.
Proof.
  destruct v as [st T sp pc m]. intros (y & Hy & Sy) HQ. unfold finsh_stack_bottom. wp_step.
  eapply (wp_slot _ _ 0); [exact Hy|]. wp_step. apply HQ. eapply same_trans; [|exact Sy].
  eapply same_weaken; [|apply (same_field DWORD)]. by destruct w.
Qed.

End Running.

(** C15: the shell computes what a line means.  For a tree of statements that have a type, whose
    code fits into the text segment and whose values fit into the stack, [finsh_compiler_run],
    [finsh_vm_run] and [finsh_stack_bottom] give the value of the last statement, at the width
    at which the compiler computes it, and leave the memory as the statements leave it. *)
Theorem finsh_computes_value at_ call es t (s : finsh) x m'
  (Hne : es ≠ []) (Ht : is_program es t) (Hty : Forall (typed (global_variable s)) es)
  (Htree : holds_tree (global_node_table s) t) (Hd : NoDup (places t))
  (Hnodes : length (global_node_table s) = FINSH_NODE_MAX)
  (Hroom : Z.of_nat (length (program_code at_ (global_variable s) es)) <= FINSH_TEXT_MAX)
  (Hstack : Forall (λ e, (depth e <= length (finsh_vm_stack (machine s)))%nat) es)
  (Hev : eval_program at_ (global_variable s) call es (finsh_mem (machine s)) = Ok (x, m')) :
  wp (finsh_compiler_run at_ (pointer t);; on_machine (finsh_vm_run call);; on_machine finsh_stack_bottom) s
    (λ r s', wrap (bits (last_width (global_variable s) es)) r = wrap (bits (last_width (global_variable s) es)) x ∧
       finsh_mem (machine s') = m' ∧ global_errno s' = global_errno s ∧ global_variable s' = global_variable s).
Proof.
  assert (Hst : (length (finsh_vm_stack (machine s)) > 0)%nat).
  { destruct es as [|e es]; [done|]. apply Forall_cons in Hstack as [H _]. pose proof (depth_pos e). lia. }
  wp_step. eapply wp_mono; [by eapply wp_compiler_run|]. intros _ s1 (He1 & Hv1 & Hm1). cbv beta.
  wp_step. unfold on_machine at 1. apply wp_zoom. rewrite Hm1. eapply wp_mono.
  { eapply (wp_vm_run at_ (global_variable s)); [exact Hne|exact Hty|exact Hroom|done| |exact Hev].
    cbn. by rewrite length_insert. }
  intros _ v (Hm & Hh). cbv beta. unfold on_machine. apply wp_zoom. eapply wp_stack_bottom; [exact Hh|].
  intros r Hr. cbn. split_and!; [exact Hr|done|done|done].
Qed.

(** C17: the type check of the compiler.  On the tree of an expression that has a type,
    [finsh_type_check] sets no error and gives the top node the data type of the width at which
    the operators work on the expression ([FINSH_DATA_TYPE_VOID] for a call); the nodes of other
    trees stay as they are. *)
Theorem finsh_type_check_types e t w v fuel (s : finsh)
  (Ht : is_expr e t) (Hlast : behind t = Leaf) (Hw : type_of (global_variable s) e = Some (w, v))
  (Htree : holds_tree (global_node_table s) t) (Hd : NoDup (places t)) (Hf : (height t <= fuel)%nat) :
  wp (finsh_type_check fuel (pointer t) FINSH_NODE_VALUE) s (λ _ s',
    global_errno s' = global_errno s ∧
    (∃ i n, pointer t = Some i ∧ global_node_table s' !! i = Some n ∧
       data_type n = match w with
                     | Some BYTE => FINSH_DATA_TYPE_BYTE
                     | Some WORD => FINSH_DATA_TYPE_WORD
                     | Some DWORD => FINSH_DATA_TYPE_DWORD
                     | None => FINSH_DATA_TYPE_VOID
                     end) ∧
    ∀ i, i ∉ places t → global_node_table s' !! i = global_node_table s !! i).
Proof.
  destruct (compiled_last 0 (global_variable s) e t (w, v)) as (i & n & c' & Hc & Hn & _);
    [apply (proj1 (compiled_all 0 (global_variable s)))|done..|].
  destruct (check_tree_shape _ _ _ _ Hc) as (_ & Hp & _). eapply wp_mono; [by eapply wp_type_check|].
  intros _ s' ((Hi & _) & tbl & -> & Hsame). split_and!; [done| |done].
  exists i, n. split_and!; [by rewrite <- Hp|done|]. rewrite Hn. by destruct w as [[]|].
Qed.
