(* ===== verification/FinshDemo.v ===== *)
(** A shell at work: lines of text run by the modelled scanner, parser, compiler and machine;
    the inputs on which the theorems are instantiated, and what the code does on some lines
    that are not as a user would expect. *)

From Stdlib Require Import ZArith Ascii String Lia.
From stdpp Require Import numbers base gmap list.
From S2P Require Import Prelude Bytes FinshVm FinshData FinshCompile FinshParser FinshTree FinshExpr FinshCode FinshRun FinshSpec.
Local Open Scope Z_scope.

Fixpoint chars (s : String.string) : list Z :=
  match s with EmptyString => [] | String c s => Z.of_N (N_of_ascii c) :: chars s end.
Arguments chars _%_string.

(** Memory of zeros: the variables of the shell at 1000, its heap at 2000, four bytes of the
    system at 3000. *)
Definition zeros (a : Z) (n : nat) : list (Z * Z) := (λ i, (a + Z.of_nat i, 0)) <$> seq 0 n.
Definition demo_memory : ram := list_to_map (zeros 1000 192 ++ zeros 2000 128 ++ zeros 3000 4).

(** The exported function [sum] at 77. *)
Definition demo_call (f : Z) (vs : list Z) : M ram Z :=
  if f =? 77 then mret (u32 (fold_right Z.add 0 vs)) else fail F_pointer.

Definition reset_finsh : finsh :=
  mk_finsh (replicate FINSH_NODE_MAX zero_node) (replicate FINSH_VARIABLE_MAX zero_var) 0 0 0
    [mk_syscall 0 (chars "sum") 77] [] [mk_sysvar 0 (chars "tick") finsh_type_int 3000] [] 0
    (mk_vm (replicate 64 0) (replicate 128 0) 0 0 demo_memory)
    (mk_token false false 0 token_type_none 0 (replicate FINSH_STRING_MAX 0) []) None.

(** The answers of the shell to some lines. *)
Fixpoint session (ls : list String.string) : F (list (Z + Z)) :=
  match ls with
  | [] => mret []
  | l :: ls => r ← finsh_run_line 1000 demo_call (chars l); rs ← session ls; mret (r :: rs)
  end.

Definition answers (ls : list String.string) : sum fault (list (Z + Z)) :=
  match (finsh_init 1000 2000;; session ls) reset_finsh with
  | Ok (r, _) => inr r
  | Err e => inl e
  end.

(** * Lines of text *)

Example arithmetic : answers ["1+2*3;"; "long a=40;"; "a=a+2;"; "a<<1|1;"; "sum(a,1,2);"; "7%4-5;"]%string =
  inr [inr 7; inr 40; inr 42; inr 85; inr 45; inr (-2)].
Proof. by vm_compute. Qed.

Example pointers : answers ["long x=7;"; "long *q=&x;"; "*q;"; "*q=9;"; "x;"; "x++;"; "++x;"]%string =
  inr [inr 7; inr 1020; inr 7; inr 9; inr 9; inr 9; inr 11].
Proof. by vm_compute. Qed.

Example unknown_symbol : answers ["nosuch;"]%string = inr [inl FINSH_ERROR_UNKNOWN_SYMBOL].
Proof. by vm_compute. Qed.

(** Nothing checks that the code fits into the text segment: six increments need more than 128
    bytes, and the compiler writes behind the array. *)
Example text_segment_overflow :
  answers ["long a;"; "a++;a++;a++;a++;a++;"; "a;"]%string = inr [inr 0; inr 4; inr 5] ∧
  answers ["long a;"; "a++;a++;a++;a++;a++;a++;"]%string = inl F_pointer.
Proof. split; by vm_compute. Qed.

(** The data type of a call is FINSH_DATA_TYPE_VOID, for which an operator emits no code. *)
Example operator_on_call : answers ["sum(1,2)*3;"]%string = inr [inr 3].
Proof. by vm_compute. Qed.

(** An argument of type [char] is a byte in a slot that holds an older value. *)
Example char_argument : answers ["sum(0,'a');"; "sum(123456,123456);"; "sum(0,'a');"]%string =
  inr [inr 97; inr 246912; inr 123489].
Proof. by vm_compute. Qed.

(** Every parenthesis is taken for a cast. *)
Example grouping : answers ["(1+2)*3;"]%string = inr [inl FINSH_ERROR_NULL_NODE] ∧
  answers ["2*(1+2);"]%string = inr [inl FINSH_ERROR_INVALID_TOKEN] ∧ answers ["(char)300;"]%string = inr [inr 300].
Proof. split_and!; by vm_compute. Qed.

(** The digits of a hexadecimal number are all letters and digits. *)
Example hexadecimal_suffix : answers ["0x10;"; "0x10L;"; "16L;"]%string = inr [inr 16; inr 284; inr 16].
Proof. by vm_compute. Qed.

(** Octal escapes of characters are always 0. *)
Example octal_character : answers ["'\113';"]%string = inr [inr 0].
Proof. by vm_compute. Qed.

(** No code is emitted for a variable of type [void *]: its assignment uses what is on the stack. *)
Example void_pointer : answers ["void *p;"; "p=5;"]%string = inl F_pointer.
Proof. by vm_compute. Qed.

(** The increment of an exported variable works on the table entry, not on the variable. *)
Example increment_of_exported : answers ["tick=7;"; "tick+1;"]%string = inr [inr 7; inr 8] ∧
  answers ["tick++;"]%string = inl F_pointer.
Proof. split; by vm_compute. Qed.

(** * Instances of the theorems *)

Definition run {A} (m : F A) (s : finsh) : finsh := match m s with Ok (_, s') => s' | Err _ => s end.

(** The shell has a variable [long a=40;] and has parsed a line. *)
Definition parsed (l : String.string) : finsh :=
  run (finsh_init 1000 2000;; session ["long a=40;"%string];; finsh_parser_run 1000 (chars l)) reset_finsh.

(** The tree at a pointer. *)
Fixpoint tree_at (fuel : nat) (tbl : list finsh_node) (p : option nat) : tree :=
  match fuel, p with
  | S fuel, Some i =>
      match tbl !! i with
      | Some n => Node i n (tree_at fuel tbl (child n)) (tree_at fuel tbl (sibling n))
      | None => Leaf
      end
  | _, _ => Leaf
  end.

Definition demo : finsh := parsed "a=a+2;a<<1;".
Definition demo_program : list expr :=
  [Assign (Local_var 0) (Bin Add (Var (Local_var 0)) (Num 2)); Bin Shl (Var (Local_var 0)) (Num 1)].
Definition demo_tree : tree := tree_at 16 (global_node_table demo) (root demo).
Definition demo_result : Z * ram :=
  match eval_program 1000 (global_variable demo) demo_call demo_program (finsh_mem (machine demo)) with
  | Ok r => r
  | Err _ => (0, ∅)
  end.

Lemma finsh_computes_value_witness :
  pointer demo_tree = root demo ∧ bits (last_width (global_variable demo) demo_program) = 32 ∧
  wp (finsh_compiler_run 1000 (pointer demo_tree);; on_machine (finsh_vm_run demo_call);; on_machine finsh_stack_bottom)
    demo (λ r s',
      wrap (bits (last_width (global_variable demo) demo_program)) r =
        wrap (bits (last_width (global_variable demo) demo_program)) 84 ∧
      finsh_mem (machine s') = demo_result.2 ∧ global_errno s' = global_errno demo ∧
      global_variable s' = global_variable demo).
Proof.
  split; [by vm_compute|]. split; [by vm_compute|].
  apply (finsh_computes_value 1000 demo_call demo_program demo_tree demo 84 demo_result.2).
  - done.
  - vm_compute. intuition.
  - repeat constructor; eexists; by vm_compute.
  - vm_compute. intuition.
  - apply (bool_decide_unpack _). by vm_compute.
  - by vm_compute.
  - by vm_compute.
  - apply (bool_decide_unpack _). by vm_compute.
  - assert (H : match eval_program 1000 (global_variable demo) demo_call demo_program (finsh_mem (machine demo)) with
                | Ok (x, _) => x =? 84 | Err _ => false end = true) by by vm_compute.
    unfold demo_result. destruct (eval_program _ _ _ _ _) as [[x m]|]; [|done]. by apply Z.eqb_eq in H as ->.
Defined.

Lemma finsh_vm_run_ends_witness :
  match finsh_vm_run (λ _ vs, mret (fold_right Z.add 0 vs)) (machine demo) with
  | Ok (_, s') => FINSH_TEXT_MAX <= finsh_pc s'
  | Err e => e ≠ F_fuel
  end.
Proof. by apply finsh_vm_run_ends. Defined.

Definition demo_shift : finsh := parsed "a<<1;".
Definition shift_tree : tree := tree_at 16 (global_node_table demo_shift) (root demo_shift).

Lemma finsh_type_check_types_witness :
  wp (finsh_type_check node_fuel (pointer shift_tree) FINSH_NODE_VALUE) demo_shift (λ _ s',
    global_errno s' = global_errno demo_shift ∧
    (∃ i n, pointer shift_tree = Some i ∧ global_node_table s' !! i = Some n ∧ data_type n = FINSH_DATA_TYPE_DWORD) ∧
    ∀ i, i ∉ places shift_tree → global_node_table s' !! i = global_node_table demo_shift !! i).
Proof.
  apply (finsh_type_check_types (Bin Shl (Var (Local_var 0)) (Num 1)) shift_tree (Some DWORD) DWORD node_fuel demo_shift).
  - vm_compute. intuition.
  - by vm_compute.
  - by vm_compute.
  - vm_compute. intuition.
  - apply (bool_decide_unpack _). by vm_compute.
  - apply Nat.leb_le. by vm_compute.
Defined.

(** A literal of 128 characters fills the array of the token and is left without its end, and no
    error is set; the copy into the tree reads behind the array.  A character less is accepted. *)
Example long_literal :
  let literal n := 34 :: replicate n 97 ++ [34; 59] in
  let scan n := match (finsh_init 1000 2000;; finsh_token_init (literal n);; finsh_token_token) reset_finsh with
                | Ok (t, s) => Some (t, bool_decide (0 ∈ string (token s)), global_errno s) | Err _ => None end in
  scan 127%nat = Some (finsh_token_type_value_string, true, 0) ∧
  scan 128%nat = Some (finsh_token_type_value_string, false, 0) ∧
  (finsh_init 1000 2000;; finsh_run_line 1000 demo_call (literal 128%nat)) reset_finsh = Err F_pointer.
Proof. split_and!; by vm_compute. Qed.
