(* ===== verification/DfsPath.v ===== *)
(** Paths of the virtual file system: [dfs_subdir] and [dfs_normalize_path] of
    [components/dfs/src/dfs.c].

    The code rewrites the path in place, in a buffer that it has allocated: a pointer reads
    the old path, a second one, never ahead of it, writes the new one.  The model keeps the
    buffer and the two positions; reading or writing outside of the buffer is a fault.

    A path means a walk: [walk] follows its components from the root, [..] leaving the last
    one, and [render] writes where it ends.  The theorem says that the code computes this, and
    what it does when the walk leaves the root. *)

From Stdlib Require Import ZArith Lia.
From stdpp Require Import numbers base list.
From S2P Require Import Prelude.
Local Open Scope Z_scope.

Notation slash := 47.
Notation dot := 46.

(** A C string without its terminating zero. *)
Definition cstr (l : list Z) : Prop := Forall (λ c, c ≠ 0) l.

(** * The code *)

(** [None] for RT_NULL: the same path. *)
Definition dfs_subdir {S} (directory filename : list Z) : M S (option (list Z)) :=
  let dir := length directory in
  if Nat.eqb dir (length filename) then mret None
  else
    c ← deref ((filename ++ [0]) !! dir);
    if negb (c =? slash) && negb (Nat.eqb dir 0) then mret (Some (drop (pred dir) filename))
    else mret (Some (drop dir filename)).

Notation B := (M (list Z)).

Definition rd (i : Z) : B Z := b ← get; deref (if 0 <=? i then b !! Z.to_nat i else None).
Definition wr (i v : Z) : B unit := rd i;; modify (λ b, <[Z.to_nat i := v]> b).

(** [while (( *src == '/') && ( *src != 0)) src++] *)
Fixpoint skip_separators (fuel : nat) (src : Z) : B Z :=
  match fuel with
  | O => fail F_fuel
  | S fuel => c ← rd src; if c =? slash then skip_separators fuel (src + 1) else mret src
  end.

(** [while ((c = *src++) != 0 && c != '/') *dst++ = c] *)
Fixpoint copy_up (fuel : nat) (src dst : Z) : B (Z * Z * Z) :=
  match fuel with
  | O => fail F_fuel
  | S fuel =>
      c ← rd src;
      if (c =? 0) || (c =? slash) then mret (c, src + 1, dst)
      else wr dst c;; copy_up fuel (src + 1) (dst + 1)
  end.

(** [while (c == '/') c = *src++; src--] *)
Fixpoint erase_slashes (fuel : nat) (c src : Z) : B Z :=
  match fuel with
  | O => fail F_fuel
  | S fuel =>
      if c =? slash then c' ← rd src; erase_slashes fuel c' (src + 1) else mret (src - 1)
  end.

(** [while (dst0 < dst && dst[-1] != '/') dst--] *)
Fixpoint step_back (dst : nat) : B Z :=
  match dst with
  | O => mret 0
  | S d => c ← rd (Z.of_nat d); if c =? slash then mret (Z.of_nat dst) else step_back d
  end.

(** What the code does with the component at [src]. *)
Inductive action := Copy (src : Z) | Again (src : Z) | Up (src : Z).

Definition classify (fuel : nat) (src : Z) : B action :=
  c ← rd src;
  if c =? dot then
    c1 ← rd (src + 1);
    if c1 =? 0 then mret (Copy (src + 1))
    else if c1 =? slash then src ← skip_separators fuel (src + 2); mret (Again src)
    else if c1 =? dot then
      c2 ← rd (src + 2);
      if c2 =? 0 then mret (Up (src + 2))
      else if c2 =? slash then src ← skip_separators fuel (src + 3); mret (Up src)
      else mret (Copy src)
    else mret (Copy src)
  else mret (Copy src).

(** [while (1)]: the end of the path that was written, [None] above the root. *)
Fixpoint normalize_loop (n fuel : nat) (src dst : Z) : B (option Z) :=
  match n with
  | O => fail F_fuel
  | S n =>
      a ← classify fuel src;
      match a with
      | Again src => normalize_loop n fuel src dst
      | Copy src =>
          '(c, src, dst) ← copy_up fuel src dst;
          if c =? slash then
            wr dst slash;;
            src ← erase_slashes fuel c src;
            normalize_loop n fuel src (dst + 1)
          else mret (Some dst)
      | Up src =>
          let dst := dst - 1 in
          if dst <? 0 then mret None
          else dst ← step_back (Z.to_nat dst); normalize_loop n fuel src dst
      end
  end.

(** The zero behind the path, and no slash at its end. *)
Definition close_path (dst : Z) : B unit :=
  wr dst 0;;
  let dst := dst - 1 in
  if dst =? 0 then mret tt
  else c ← rd dst; if c =? slash then wr dst 0 else mret tt.

(** The part behind the allocation of [fullpath]. *)
Definition normalize : B (option unit) :=
  b ← get;
  let fuel := S (length b) in
  r ← normalize_loop fuel fuel 0 0;
  match r with
  | None => mret None
  | Some dst =>
      close_path dst;;
      mret (Some tt)
  end.

(** The new path, [None] for RT_NULL. *)
Definition normalize_path {S} (fullpath : list Z) : M S (option (list Z)) := λ s,
  match normalize (fullpath ++ [0]) with
  | Ok (Some _, b) => Ok (Some (c_string b), s)
  | Ok (None, _) => Ok (None, s)
  | Err e => Err e
  end.

(** * What a path means *)

(** The components: what is between the slashes. *)
Fixpoint comps_acc (acc l : list Z) : list (list Z) :=
  match l with
  | [] => match acc with [] => [] | _ => [rev acc] end
  | x :: l =>
      if x =? slash then match acc with [] => comps_acc [] l | _ => rev acc :: comps_acc [] l end
      else comps_acc (x :: acc) l
  end.
Definition comps (l : list Z) : list (list Z) := comps_acc [] l.

(** Where a walk is: below the root or not, and the components, last one first. *)
Definition place := (bool * list (list Z))%type.

Definition move (p : place) (c : list Z) : option place :=
  let '(rooted, st) := p in
  if decide (c = [dot]) then Some p
  else if decide (c = [dot; dot]) then
    match st with
    | _ :: st => Some (rooted, st)
    | [] => if rooted then Some (false, []) else None
    end
  else Some (rooted, c :: st).
Fixpoint walk (p : place) (cs : list (list Z)) : option place :=
  match cs with [] => Some p | c :: cs => p' ← move p c; walk p' cs end.

Definition is_rooted (l : list Z) : bool := match l with x :: _ => x =? slash | [] => false end.

Fixpoint join (cs : list (list Z)) : list Z :=
  match cs with [] => [] | [c] => c | c :: cs => c ++ slash :: join cs end.
Definition render (p : place) : list Z := (if p.1 then [slash] else []) ++ join (rev p.2).

(** The same with a slash behind every component: what the code has written. *)
Definition outs (p : place) : list Z :=
  (if p.1 then [slash] else []) ++ concat ((λ c, c ++ [slash]) <$> rev p.2).

Definition plain (c : list Z) : Prop := c ≠ [] ∧ Forall (λ x, x ≠ slash ∧ x ≠ 0) c.

(** * Components *)

Lemma comps_acc_app acc c l :
  Forall (λ x, x ≠ slash) c → comps_acc acc (c ++ l) = comps_acc (rev c ++ acc) l.
Proof.
  intros Hc. revert acc. induction Hc as [|x c Hx _ IH]; intros acc; [done|]. cbn.
  destruct (Z.eqb_spec x slash); [done|]. rewrite IH. f_equal. by rewrite <- app_assoc.
Qed.

Lemma plain_no_slash c : plain c → Forall (λ x, x ≠ slash) c.
Proof. intros [_ H]. eapply Forall_impl; [exact H|]. by intros x []. Qed.

Lemma rev_nil_inv {A} (l : list A) : rev l = [] → l = [].
Proof. destruct l; [done|]. cbn. intros H. by apply app_nil in H as [_ ?]. Qed.

Lemma comps_plain c : plain c → comps c = [c].
Proof.
  intros Hc. unfold comps. rewrite <- (app_nil_r c) at 1.
  rewrite comps_acc_app by by apply plain_no_slash. rewrite app_nil_r. cbn. destruct (rev c) eqn:E.
  - apply rev_nil_inv in E. by destruct Hc.
  - by rewrite <- E, rev_involutive.
Qed.

Lemma comps_plain_slash c l : plain c → comps (c ++ slash :: l) = c :: comps l.
Proof.
  intros Hc. unfold comps. rewrite comps_acc_app by by apply plain_no_slash. rewrite app_nil_r. cbn.
  destruct (rev c) eqn:E.
  - apply rev_nil_inv in E. by destruct Hc.
  - by rewrite <- E, rev_involutive.
Qed.

(** Without the slashes in front. *)
Fixpoint strip (l : list Z) : list Z :=
  match l with x :: l' => if x =? slash then strip l' else l | [] => [] end.

Lemma strip_spec l : ∃ k, l = replicate k slash ++ strip l ∧ is_rooted (strip l) = false ∧ comps l = comps (strip l).
Proof.
  induction l as [|x l (k & Hl & Hr & Hc)]; [by exists 0%nat|]. cbn [strip]. destruct (Z.eqb_spec x slash) as [->|].
  - exists (S k). split_and!; [cbn; by rewrite <- Hl|done|done].
  - exists 0%nat. split_and!; [done| |done]. cbn. by apply Z.eqb_neq.
Qed.

(** A path that does not start with a slash is empty, a component, or a component in front of a
    slash. *)
Lemma first_component l :
  cstr l → is_rooted l = false →
  l = [] ∨ plain l ∨ ∃ c l', plain c ∧ l = c ++ slash :: l'.
Proof.
  intros Hl. induction Hl as [|x l Hx Hl IH]; [by left|]. cbn. intros Hs. apply Z.eqb_neq in Hs. right.
  destruct (is_rooted l) eqn:Er.
  { right. destruct l as [|y l]; [done|]. cbn in Er. apply Z.eqb_eq in Er as ->. exists [x], l.
    split; [|done]. split; [done|]. by constructor. }
  destruct (IH eq_refl) as [->|[[Hn Hp]|(c & l' & [Hn Hp] & ->)]].
  - left. split; [done|]. by constructor.
  - left. split; [done|]. by constructor.
  - right. exists (x :: c), l'. split; [|done]. split; [done|]. by constructor.
Qed.

(** * Steps of the code *)

Ltac lengths := cbn [length app] in *; rewrite ?length_app, ?length_cons, ?length_replicate, ?length_app, ?length_cons, ?length_replicate in *; cbn [length] in *.

Lemma wp_rd b o x r i Q : b = o ++ x :: r → i = Z.of_nat (length o) → Q x b → wp (rd i) b Q.
Proof.
  intros -> -> HQ. unfold rd. wp_step. wp_step. rewrite (proj2 (Z.leb_le 0 _)), Nat2Z.id by lia.
  eapply wp_deref; [|done]. by rewrite lookup_app_r, Nat.sub_diag by lia.
Qed.

Lemma wp_wr b o x r i v Q : b = o ++ x :: r → i = Z.of_nat (length o) → Q tt (o ++ v :: r) → wp (wr i v) b Q.
Proof.
  intros -> -> HQ. unfold wr. wp_step. eapply wp_rd; [done|done|]. wp_step. rewrite Nat2Z.id.
  by rewrite insert_app_r_alt, Nat.sub_diag by lia.
Qed.

(** Overwriting the first byte of [j ++ y :: r] leaves as much between. *)
Lemma wp_put b o j y r i v Q :
  b = o ++ j ++ y :: r → i = Z.of_nat (length o) →
  (∀ j', length j' = length j → Q tt ((o ++ [v]) ++ j' ++ r)) → wp (wr i v) b Q.
Proof.
  intros -> Hi HQ. destruct j as [|z j].
  - eapply wp_wr; [done|done|]. specialize (HQ [] eq_refl). by rewrite <- app_assoc in HQ.
  - eapply wp_wr; [done|done|]. specialize (HQ (j ++ [y])). rewrite <- !app_assoc in HQ. apply HQ.
    rewrite length_app. cbn. lia.
Qed.

Lemma wp_copy_up c : ∀ fuel b o j x r Q src dst,
  b = o ++ j ++ c ++ x :: r → Forall (λ x, x ≠ slash ∧ x ≠ 0) c → x = 0 ∨ x = slash → (length c < fuel)%nat →
  src = Z.of_nat (length o + length j) → dst = Z.of_nat (length o) →
  (∀ j', length j' = length j →
     Q (x, Z.of_nat (length (o ++ c) + length j + 1), Z.of_nat (length (o ++ c))) ((o ++ c) ++ j' ++ x :: r)) →
  wp (copy_up fuel src dst) b Q.
Proof.
  induction c as [|y c IH]; intros [|fuel] b o j x r Q src dst Hb Hc Hx Hf Hsrc Hdst HQ; try (cbn in Hf; lia); cbn [copy_up].
  - wp_step. eapply (wp_rd _ (o ++ j)); [by rewrite Hb, <- app_assoc|by rewrite length_app|].
    replace ((x =? 0) || (x =? slash)) with true by (destruct Hx as [-> | ->]; done). wp_step.
    specialize (HQ j eq_refl). rewrite app_nil_r in HQ. rewrite Hsrc, Hdst.
    replace (Z.of_nat (length o + length j) + 1) with (Z.of_nat (length o + length j + 1)) by lia. by subst b.
  - apply Forall_cons in Hc as [[Hy Hy0] Hc]. wp_step.
    eapply (wp_rd _ (o ++ j)); [by rewrite Hb, <- app_assoc|by rewrite length_app|].
    rewrite (proj2 (Z.eqb_neq y 0)), (proj2 (Z.eqb_neq y slash)) by done. cbn [orb]. wp_step.
    eapply (wp_put _ o j y (c ++ x :: r)); [by rewrite Hb|done|]. intros j1 Hj1.
    eapply (IH fuel _ (o ++ [y]) j1 x r); [done|done|done|cbn in Hf; lia| | |].
    + rewrite length_app. cbn. lia.
    + rewrite length_app. cbn. lia.
    + intros j2 Hj2. rewrite <- !(app_assoc o), Hj1. cbn [app]. specialize (HQ j2). rewrite <- !app_assoc in HQ. cbn [app] in HQ. apply HQ. lia.
Qed.

Lemma wp_erase_slashes k : ∀ fuel b o x r Q src,
  b = o ++ replicate k slash ++ x :: r → x ≠ slash → (S k < fuel)%nat → src = Z.of_nat (length o) →
  Q (Z.of_nat (length o + k)) b → wp (erase_slashes fuel slash src) b Q.
Proof.
  induction k as [|k IH]; intros fuel b o x r Q src Hb Hx Hf Hsrc HQ.
  - destruct fuel as [|[|fuel]]; try lia. cbn [erase_slashes]. rewrite Z.eqb_refl. wp_step.
    eapply wp_rd; [exact Hb|done|]. rewrite (proj2 (Z.eqb_neq x slash)) by done. wp_step.
    rewrite Nat.add_0_r in HQ. by replace (src + 1 - 1) with (Z.of_nat (length o)) by lia.
  - destruct fuel as [|fuel]; [lia|]. cbn [erase_slashes]. rewrite Z.eqb_refl. wp_step.
    eapply (wp_rd _ o slash (replicate k slash ++ x :: r)); [exact Hb|done|].
    eapply (IH _ _ (o ++ [slash]) x r); [by rewrite <- app_assoc|done|lia|rewrite length_app; cbn; lia|].
    rewrite length_app. cbn [length]. by replace (length o + 1 + k)%nat with (length o + S k)%nat by lia.
Qed.

Lemma wp_skip_separators k : ∀ fuel b o x r Q src,
  b = o ++ replicate k slash ++ x :: r → x ≠ slash → (k < fuel)%nat → src = Z.of_nat (length o) →
  Q (Z.of_nat (length o + k)) b → wp (skip_separators fuel src) b Q.
Proof.
  induction k as [|k IH]; intros fuel b o x r Q src Hb Hx Hf Hsrc HQ; (destruct fuel as [|fuel]; [lia|]);
    cbn [skip_separators]; wp_step.
  - eapply wp_rd; [exact Hb|done|]. rewrite (proj2 (Z.eqb_neq x slash)) by done. wp_step.
    rewrite Nat.add_0_r in HQ. by rewrite Hsrc.
  - eapply (wp_rd _ o slash (replicate k slash ++ x :: r)); [exact Hb|done|]. rewrite Z.eqb_refl.
    eapply (IH _ _ (o ++ [slash]) x r); [by rewrite <- app_assoc|done|lia|rewrite length_app; cbn; lia|].
    rewrite length_app. cbn [length]. by replace (length o + 1 + k)%nat with (length o + S k)%nat by lia.
Qed.

Lemma wp_step_back c : ∀ b o r Q,
  b = o ++ c ++ r → Forall (λ x, x ≠ slash) c → o = [] ∨ (∃ o', o = o' ++ [slash]) →
  Q (Z.of_nat (length o)) b → wp (step_back (length o + length c)) b Q.
Proof.
  induction c as [|x c IH] using rev_ind; intros b o r Q Hb Hc Ho HQ.
  - rewrite Nat.add_0_r. destruct Ho as [->|(o' & ->)]; [done|].
    rewrite length_app. cbn [length]. rewrite Nat.add_1_r. cbn [step_back]. wp_step.
    eapply (wp_rd _ o' slash r); [by rewrite Hb, <- app_assoc|done|]. rewrite Z.eqb_refl. wp_step.
    by rewrite length_app, Nat.add_1_r in HQ.
  - apply Forall_app in Hc as [Hc [Hx _]%Forall_cons]. rewrite length_app. cbn [length].
    rewrite Nat.add_1_r, Nat.add_succ_r. cbn [step_back]. wp_step.
    eapply (wp_rd _ (o ++ c) x r); [by rewrite Hb, <- !app_assoc|by rewrite length_app|].
    rewrite (proj2 (Z.eqb_neq x slash)) by done. apply (IH _ _ ([x] ++ r)); [by rewrite Hb, <- app_assoc|done|done|done].
Qed.

(** What the code finds at a component and the character [x] behind it. *)
Lemma wp_classify fuel b o c x r src Q :
  b = o ++ c ++ x :: r → plain c → x = 0 ∨ x = slash → src = Z.of_nat (length o) → (length b < fuel)%nat →
  (c = [dot] → x = 0 → Q (Copy (src + 1)) b) →
  (∀ k y r', r = replicate k slash ++ y :: r' → y ≠ slash → x = slash →
     (c = [dot] → Q (Again (src + 2 + Z.of_nat k)) b) ∧ (c = [dot; dot] → Q (Up (src + 3 + Z.of_nat k)) b)) →
  (c = [dot; dot] → x = 0 → Q (Up (src + 2)) b) →
  (c ≠ [dot] → c ≠ [dot; dot] → Q (Copy src) b) →
  (x = slash → ∃ k y r', r = replicate k slash ++ y :: r' ∧ y ≠ slash) →
  wp (classify fuel src) b Q.
Proof.
  intros Hb [Hn Hc] Hx Hsrc Hf Hdot0 Hslash Hup0 Hcopy Hr. destruct c as [|y c]; [done|].
  unfold classify. wp_step. eapply (wp_rd _ o y (c ++ x :: r)); [exact Hb|done|].
  destruct (Z.eqb_spec y dot) as [->|Hy]; [|wp_step; apply Hcopy; congruence].
  apply Forall_cons in Hc as [_ Hc]. wp_step. destruct c as [|z c].
  { eapply (wp_rd _ (o ++ [dot]) x r); [by rewrite Hb, <- app_assoc|rewrite length_app; cbn; lia|].
    destruct Hx as [->| ->]; [rewrite Z.eqb_refl; wp_step; by apply Hdot0|]. change (slash =? 0) with false. rewrite Z.eqb_refl. cbv iota.
    destruct (Hr eq_refl) as (k & y & r' & Er & Hy). destruct (Hslash k y r' Er Hy eq_refl) as [HQ _].
    wp_step. eapply (wp_skip_separators k _ _ (o ++ [dot; slash]) y r'); [by rewrite Hb, Er, <- app_assoc|done| |rewrite length_app; cbn; lia|].
    - rewrite Hb, Er in Hf. lengths. lia.
    - wp_step. rewrite length_app. cbn [length]. replace (Z.of_nat (length o + 2 + k)) with (src + 2 + Z.of_nat k) by lia. by apply HQ. }
  apply Forall_cons in Hc as [[Hz Hz0] Hc].
  eapply (wp_rd _ (o ++ [dot]) z (c ++ x :: r)); [by rewrite Hb, <- app_assoc|rewrite length_app; cbn; lia|].
  rewrite (proj2 (Z.eqb_neq z 0)), (proj2 (Z.eqb_neq z slash)) by done. cbv iota.
  destruct (Z.eqb_spec z dot) as [->|Hzd]; [|wp_step; apply Hcopy; congruence].
  wp_step. destruct c as [|u c].
  { eapply (wp_rd _ (o ++ [dot; dot]) x r); [by rewrite Hb, <- app_assoc|rewrite length_app; cbn; lia|].
    destruct Hx as [->| ->]; [rewrite Z.eqb_refl; wp_step; by apply Hup0|]. change (slash =? 0) with false. rewrite Z.eqb_refl. cbv iota.
    destruct (Hr eq_refl) as (k & y & r' & Er & Hy). destruct (Hslash k y r' Er Hy eq_refl) as [_ HQ].
    wp_step. eapply (wp_skip_separators k _ _ (o ++ [dot; dot; slash]) y r'); [by rewrite Hb, Er, <- app_assoc|done| |rewrite length_app; cbn; lia|].
    - rewrite Hb, Er in Hf. lengths. lia.
    - wp_step. rewrite length_app. cbn [length]. replace (Z.of_nat (length o + 3 + k)) with (src + 3 + Z.of_nat k) by lia. by apply HQ. }
  apply Forall_cons in Hc as [[Hu Hu0] _].
  eapply (wp_rd _ (o ++ [dot; dot]) u (c ++ x :: r)); [by rewrite Hb, <- app_assoc|rewrite length_app; cbn; lia|].
  rewrite (proj2 (Z.eqb_neq u 0)), (proj2 (Z.eqb_neq u slash)) by done. cbv iota. wp_step. apply Hcopy; congruence.
Qed.

(** * The loop *)

Lemma outs_cons rooted c st : outs (rooted, c :: st) = outs (rooted, st) ++ c ++ [slash].
Proof.
  unfold outs. cbn [fst snd rev]. rewrite fmap_app, concat_app, <- app_assoc. cbn. by rewrite app_nil_r.
Qed.

Lemma outs_end p : outs p = [] ∨ ∃ o, outs p = o ++ [slash].
Proof.
  destruct p as [rooted [|c st]].
  - destruct rooted; [right; by exists []|by left].
  - right. exists (outs (rooted, st) ++ c). by rewrite outs_cons, <- app_assoc.
Qed.

(** [up_one], with [rest] still to come. *)
Lemma wp_up n fuel p j rest b src Q :
  b = outs p ++ j ++ rest → Forall plain p.2 → src = Z.of_nat (length (outs p) + length j) →
  match move p [dot; dot] with
  | None => Q None b
  | Some p' => ∀ j', b = outs p' ++ j' ++ rest → src = Z.of_nat (length (outs p') + length j') →
                 wp (normalize_loop n fuel src (Z.of_nat (length (outs p')))) b Q
  end →
  wp (let dst := Z.of_nat (length (outs p)) - 1 in
      if dst <? 0 then mret None else dst ← step_back (Z.to_nat dst); normalize_loop n fuel src dst) b Q.
Proof.
  intros Hb Hpl Hsrc HQ. destruct p as [rooted [|c st]]; cbn [move] in HQ; cbn in HQ.
  - destruct rooted; cbv zeta; cbn [outs length app fst snd rev fmap list_fmap concat] in *; [|done].
    change (Z.of_nat 1 - 1) with 0. cbn [Z.ltb Z.compare Z.to_nat step_back]. wp_step. apply wp_ret.
    apply (HQ (slash :: j)); [done|cbn; lia].
  - cbn [snd] in Hpl. apply Forall_cons in Hpl as [Hc Hpl]. cbv zeta.
    replace (Z.of_nat (length (outs (rooted, c :: st))) - 1) with (Z.of_nat (length (outs (rooted, st)) + length c))
      by (rewrite outs_cons, !length_app; cbn; lia).
    rewrite (proj2 (Z.ltb_ge _ 0)), Nat2Z.id by lia. wp_step.
    assert (Hb' : b = outs (rooted, st) ++ c ++ [slash] ++ j ++ rest) by (by rewrite Hb, outs_cons, <- !app_assoc).
    eapply wp_step_back; [exact Hb'|by apply plain_no_slash|apply outs_end|].
    apply (HQ (c ++ [slash] ++ j)); [by rewrite Hb', <- !app_assoc|].
    rewrite Hsrc, outs_cons, !length_app. cbn. lia.
Qed.

(** Copying a component with the slashes behind it. *)
Lemma wp_copy_step n fuel b o j c l src dst Q :
  b = o ++ j ++ c ++ slash :: l ++ [0] → Forall (λ x, x ≠ slash ∧ x ≠ 0) c → (length b < fuel)%nat →
  src = Z.of_nat (length o + length j) → dst = Z.of_nat (length o) →
  (∀ j' b', b' = (o ++ c ++ [slash]) ++ j' ++ strip l ++ [0] → length b' = length b →
     wp (normalize_loop n fuel (Z.of_nat (length (o ++ c ++ [slash]) + length j')) (Z.of_nat (length (o ++ c ++ [slash])))) b' Q) →
  wp ('(c, src, dst) ← copy_up fuel src dst;
      if c =? slash then
        wr dst slash;; src ← erase_slashes fuel c src; normalize_loop n fuel src (dst + 1)
      else mret (Some dst)) b Q.
Proof.
  intros Hb Hc Hf Hsrc Hdst HQ. wp_step.
  eapply (wp_copy_up c _ _ o j slash (l ++ [0])); [exact Hb|done|by right| |done|done|].
  { rewrite Hb in Hf. lengths. lia. }
  intros j1 Hj1. rewrite Z.eqb_refl. wp_step.
  eapply (wp_put _ (o ++ c) j1 slash (l ++ [0])); [done|done|]. intros j2 Hj2.
  destruct (strip_spec l) as (k & Hl & Hr & _).
  assert (Hx : ∃ y r, strip l ++ [0] = y :: r ∧ y ≠ slash).
  { destruct (strip l) as [|y r]; [by exists 0, []|]. exists y, (r ++ [0]). split; [done|]. cbn in Hr. by apply Z.eqb_neq. }
  destruct Hx as (y & r & Hyr & Hy). wp_step.
  eapply (wp_erase_slashes k _ _ (((o ++ c) ++ [slash]) ++ j2) y r); [|done| | |].
  - rewrite <- Hyr, <- !app_assoc. do 4 f_equal. by rewrite app_assoc, <- Hl.
  - rewrite Hb, Hl in Hf. lengths. lia.
  - lengths. lia.
  - set (b' := ((o ++ c) ++ [slash]) ++ j2 ++ l ++ [0]).
    assert (E1 : (length (((o ++ c) ++ [slash]) ++ j2) + k = length (o ++ c ++ [slash]) + length (j2 ++ replicate k slash))%nat)
      by (lengths; lia).
    assert (E2 : Z.of_nat (length (o ++ c)) + 1 = Z.of_nat (length (o ++ c ++ [slash]))) by (lengths; lia).
    rewrite E1, E2. apply HQ.
    + unfold b'. rewrite Hl at 1. by rewrite <- !app_assoc.
    + unfold b'. rewrite Hb. lengths. lia.
Qed.

(** The end of the loop: the text [t] has been written. *)
Definition ended (p : place) (o : option Z) (b : list Z) : Prop :=
  ∃ t z r, b = t ++ z :: r ∧ o = Some (Z.of_nat (length t)) ∧
    (t = outs p ∨ ∃ c st, p.2 = c :: st ∧ t = outs (p.1, st) ++ c).

Definition loop_post (p : place) (rest : list Z) (o : option Z) (b : list Z) : Prop :=
  match walk p (comps rest) with None => o = None | Some p' => ended p' o b ∧ Forall plain p'.2 end.

(** The last component, [c], which may be empty. *)
Lemma wp_copy_last fuel b o j c src dst Q :
  b = o ++ j ++ c ++ [0] → Forall (λ x, x ≠ slash ∧ x ≠ 0) c → (length b < fuel)%nat →
  src = Z.of_nat (length o + length j) → dst = Z.of_nat (length o) →
  (∀ z r, Q (Some (Z.of_nat (length (o ++ c)))) ((o ++ c) ++ z :: r)) →
  ∀ n, wp ('(c, src, dst) ← copy_up fuel src dst;
      if c =? slash then
        wr dst slash;; src ← erase_slashes fuel c src; normalize_loop n fuel src (dst + 1)
      else mret (Some dst)) b Q.
Proof.
  intros Hb Hc Hf Hsrc Hdst HQ n. wp_step. eapply (wp_copy_up c _ _ o j 0 []); [exact Hb|done|by left| |done|done|].
  { rewrite Hb in Hf. lengths. lia. }
  intros j' _. cbn [Z.eqb]. wp_step. destruct j' as [|z j']; apply HQ.
Qed.

Lemma move_component rooted st c : plain c → c ≠ [dot] → c ≠ [dot; dot] → move (rooted, st) c = Some (rooted, c :: st).
Proof. intros _ H1 H2. cbn. by rewrite !decide_False by done. Qed.

Lemma move_dot p : move p [dot] = Some p.
Proof. by destruct p. Qed.

Lemma move_plain p c p' : plain c → Forall plain p.2 → move p c = Some p' → Forall plain p'.2.
Proof.
  destruct p as [rooted st]. cbn. intros Hc Hst H. destruct (decide (c = [dot])); [by simplify_eq|].
  destruct (decide (c = [dot; dot])); [|injection H as <-; by constructor].
  destruct st as [|x st]; [by destruct rooted; simplify_eq|]. injection H as <-. by apply Forall_cons in Hst as [_ ?].
Qed.

Lemma slashes_unique l k k0 y r :
  l ++ [0] = replicate k slash ++ y :: r → y ≠ slash → l = replicate k0 slash ++ strip l → is_rooted (strip l) = false →
  k = k0 ∧ y :: r = strip l ++ [0].
Proof.
  revert l k. induction k0 as [|k0 IH]; intros l k E Hy El Hs.
  - cbn in El. rewrite <- El in *. destruct k as [|k]; [done|]. destruct l as [|x l]; [done|].
    cbn in E, Hs. injection E as -> _. by rewrite Z.eqb_refl in Hs.
  - destruct l as [|x l]; [done|]. cbn in El. destruct (Z.eqb_spec x slash) as [->|Hx]; [|by injection El].
    injection El as El. cbn [strip] in *. rewrite Z.eqb_refl in *. destruct k as [|k]; [by injection E as <- _|].
    cbn in E. injection E as E. destruct (IH l k E Hy El Hs) as [-> ?]. done.
Qed.

Lemma cstr_app l1 l2 : cstr (l1 ++ l2) ↔ cstr l1 ∧ cstr l2.
Proof. apply Forall_app. Qed.

Lemma cstr_strip l : cstr l → cstr (strip l).
Proof. intros H. destruct (strip_spec l) as (k & E & _). rewrite E in H. by apply cstr_app in H as [_ H]. Qed.

Lemma length_strip l : (length (strip l) <= length l)%nat.
Proof. destruct (strip_spec l) as (k & E & _). rewrite E at 2. rewrite length_app. lia. Qed.

Lemma wp_normalize_loop n : ∀ fuel p j rest b src dst,
  b = outs p ++ j ++ rest ++ [0] → cstr rest → is_rooted rest = false → Forall plain p.2 →
  (length b < fuel)%nat → (length rest < n)%nat →
  src = Z.of_nat (length (outs p) + length j) → dst = Z.of_nat (length (outs p)) →
  wp (normalize_loop n fuel src dst) b (loop_post p rest).
Proof.
  induction n as [|n IH]; intros fuel p j rest b src dst Hb Hr Hs Hpl Hf Hn Hsrc Hdst; [lia|].
  cbn [normalize_loop]. wp_step. destruct (first_component rest Hr Hs) as [->|[Hc|(c & l & Hc & ->)]].
  - unfold classify. wp_step. eapply (wp_rd _ (outs p ++ j) 0 []); [by rewrite Hb, <- app_assoc|by rewrite length_app|].
    cbn [Z.eqb]. wp_step. eapply (wp_copy_last _ _ (outs p) j []); [exact Hb|done|done|done|done|].
    intros z r. unfold loop_post. cbn. rewrite app_nil_r. split; [|done]. exists (outs p), z, r. auto.
  - (* the last component *)
    eapply (wp_classify _ _ (outs p ++ j) rest 0 []); [by rewrite Hb, <- app_assoc|done|by left|by rewrite length_app|done|..].
    + intros -> _. eapply (wp_copy_last _ _ (outs p) (j ++ [dot]) []); [by rewrite Hb, <- !app_assoc|done|done|lengths; lia|done|].
      intros z r. unfold loop_post. change (comps [dot]) with [[dot]]. cbn [walk]. rewrite move_dot. cbn. rewrite app_nil_r.
      split; [|done]. exists (outs p), z, r. auto.
    + intros k y r' _ _ H. discriminate H.
    + intros -> _. rewrite Hdst. eapply (wp_up _ _ p (j ++ [dot; dot]) [0]); [by rewrite Hb, <- !app_assoc|done|lengths; lia|].
      unfold loop_post. change (comps [dot; dot]) with [[dot; dot]]. cbn [walk].
      destruct (move p [dot; dot]) as [p'|] eqn:Em; [|done]. intros j' Hb' Hsrc'.
      eapply wp_mono; [eapply (IH fuel p' j' []); [exact Hb'|by apply Forall_nil|done|by eapply (move_plain p [dot; dot])|done|cbn in Hn |- *; lia|done|done]|].
      by intros o b' H.
    + intros Hd Hdd. eapply (wp_copy_last _ _ (outs p) j rest); [exact Hb|by destruct Hc|done|done|done|].
      intros z r. unfold loop_post. rewrite comps_plain by done. cbn [walk].
      destruct p as [rooted st]. rewrite move_component by done. cbn. split; [|by constructor].
      exists (outs (rooted, st) ++ rest), z, r. split_and!; [done|done|]. right. by exists rest, st.
    + done.
  - (* a component in front of a slash *)
    apply cstr_app in Hr as [_ Hl]. apply Forall_cons in Hl as [_ Hl].
    destruct (strip_spec l) as (k0 & El & Hsl & Hcl). pose proof (length_strip l) as Hll.
    rewrite <- app_assoc in Hb. cbn [app] in Hb.
    assert (Hpost : ∀ p' o b', move p c = Some p' → loop_post p' (strip l) o b' → loop_post p (c ++ slash :: l) o b').
    { intros p' o b' Em. unfold loop_post. rewrite comps_plain_slash by done. cbn [walk]. rewrite Em. cbn. by rewrite Hcl. }
    eapply (wp_classify _ _ (outs p ++ j) c slash (l ++ [0])); [by rewrite Hb, <- app_assoc|done|by right|by rewrite length_app|done|..].
    + intros _ H. discriminate H.
    + intros k y r' Er Hy _. destruct (slashes_unique l k k0 y r' Er Hy El Hsl) as [-> _]. split.
      * intros ->. eapply wp_mono; [eapply (IH fuel p (j ++ [dot; slash] ++ replicate k0 slash) (strip l));
          [|by apply cstr_strip|done|done|done|lengths; lia| |done]|].
        -- rewrite Hb, El at 1. by rewrite <- !app_assoc.
        -- lengths. lia.
        -- intros o b'. apply Hpost, move_dot.
      * intros ->. rewrite Hdst.
        eapply (wp_up _ _ p (j ++ [dot; dot; slash] ++ replicate k0 slash) (strip l ++ [0]));
          [rewrite Hb, El at 1; by rewrite <- !app_assoc|done|lengths; lia|].
        destruct (move p [dot; dot]) as [p'|] eqn:Em.
        -- intros j' Hb' Hsrc'. eapply wp_mono; [eapply (IH fuel p' j' (strip l));
             [exact Hb'|by apply cstr_strip|done|by eapply (move_plain p [dot; dot])|done|lengths; lia|done|done]|].
           intros o b'. by apply Hpost.
        -- unfold loop_post. rewrite comps_plain_slash by done. cbn [walk]. by rewrite Em.
    + intros _ H. discriminate H.
    + intros Hd Hdd. eapply (wp_copy_step _ _ _ (outs p) j c l); [exact Hb|by destruct Hc|done|done|done|].
      intros j' b' Hb' Hlen. destruct p as [rooted st].
      replace (outs (rooted, st) ++ c ++ [slash]) with (outs (rooted, c :: st)) in * by apply outs_cons.
      eapply wp_mono; [eapply (IH fuel (rooted, c :: st) j' (strip l));
        [exact Hb'|by apply cstr_strip|done|by constructor|lia|lengths; lia|done|done]|].
      intros o b''. apply Hpost. by apply move_component.
    + intros _. destruct (strip l ++ [0]) as [|y r] eqn:E; [by destruct (strip l)|]. exists k0, y, r. split.
      * rewrite El, <- E at 1. by rewrite <- app_assoc.
      * destruct (strip l) as [|y' r'']; [by injection E as <- _|]. injection E as <- _. cbn in Hsl. by apply Z.eqb_neq.
Qed.

(** * The result *)

Lemma join_snoc cs c : join (cs ++ [c]) = concat ((λ c, c ++ [slash]) <$> cs) ++ c.
Proof.
  induction cs as [|d cs IH]; [done|]. cbn [app fmap list_fmap concat].
  transitivity (d ++ slash :: join (cs ++ [c])).
  - destruct (cs ++ [c]) eqn:E; [by destruct cs|done].
  - rewrite IH, <- !app_assoc. done.
Qed.

Lemma render_cons rooted c st : render (rooted, c :: st) = outs (rooted, st) ++ c.
Proof. unfold render, outs. cbn [fst snd rev]. by rewrite join_snoc, <- app_assoc. Qed.

Lemma plain_cstr c : plain c → cstr c.
Proof. intros [_ H]. eapply Forall_impl; [exact H|]. by intros x []. Qed.

Lemma cstr_outs p : Forall plain p.2 → cstr (outs p).
Proof.
  destruct p as [rooted st]. cbn [snd]. induction 1 as [|c st Hc _ IH].
  - destruct rooted; [by repeat constructor|by constructor].
  - rewrite outs_cons. apply cstr_app. split; [done|]. apply cstr_app. split; [by apply plain_cstr|by repeat constructor].
Qed.

(** What the code returns for a full path: RT_NULL when the walk goes up twice from the root,
    the place where it ends otherwise; when that is above the root the code reads the byte in
    front of the buffer. *)
Definition resolved (fullpath : list Z) : res (option (list Z)) :=
  match walk (is_rooted fullpath, []) (comps fullpath) with
  | None => Ok None
  | Some (false, []) => Err F_pointer
  | Some p => Ok (Some (render p))
  end.

Lemma wp_whole_loop fullpath b n :
  cstr fullpath → b = fullpath ++ [0] → (length b <= n)%nat →
  wp (normalize_loop (S n) (S n) 0 0) b (λ o b',
    match walk (is_rooted fullpath, []) (comps fullpath) with
    | None => o = None
    | Some p' => ended p' o b' ∧ Forall plain p'.2
    end).
Proof.
  intros Hc Hb Hn. destruct (is_rooted fullpath) eqn:Er.
  - destruct fullpath as [|x l]; [done|]. cbn in Er. apply Z.eqb_eq in Er as ->.
    destruct (strip_spec l) as (k & El & Hs & Hcl). pose proof (length_strip l) as Hll.
    apply Forall_cons in Hc as [_ Hc]. cbn [normalize_loop]. wp_step. unfold classify. wp_step.
    eapply (wp_rd _ [] slash (l ++ [0])); [exact Hb|done|]. cbn [Z.eqb Pos.eqb]. wp_step.
    eapply (wp_copy_step _ _ _ [] [] [] l); [exact Hb|done|lia|done|done|]. intros j' b' Hb' Hlen.
    eapply wp_mono; [apply (wp_normalize_loop n (S n) (true, []) j' (strip l));
      [exact Hb'|by apply cstr_strip|done|done|lia|subst b; lengths; lia|done|done]|].
    intros o b''. unfold loop_post. by rewrite <- Hcl.
  - apply (wp_normalize_loop (S n) (S n) (false, []) [] fullpath); [exact Hb|done|done|done|lia|subst b; lengths; lia|done|done].
Qed.

Lemma c_string_text t r : cstr t → c_string (t ++ 0 :: r) = t.
Proof. apply c_string_app. Qed.

(** The text is not empty and does not end in a slash, but for the root. *)
Lemma wp_close_plain t c z r Q :
  cstr (t ++ [c]) → c ≠ slash ∨ t = [] → (∀ b, c_string b = t ++ [c] → Q tt b) →
  wp (close_path (Z.of_nat (length (t ++ [c])))) ((t ++ [c]) ++ z :: r) Q.
Proof.
  intros Hc Hs HQ. unfold close_path. wp_step. eapply wp_wr; [done|done|].
  replace (Z.of_nat (length (t ++ [c])) - 1) with (Z.of_nat (length t)) by (lengths; lia).
  destruct (Z.eqb_spec (Z.of_nat (length t)) 0) as [E|E].
  - wp_step. apply HQ. by apply c_string_text.
  - destruct Hs as [Hs| ->]; [|done]. wp_step. eapply (wp_rd _ t c (0 :: r)); [by rewrite <- app_assoc|done|].
    rewrite (proj2 (Z.eqb_neq c slash)) by done. wp_step. apply HQ. by apply c_string_text.
Qed.

Lemma wp_close_slash t z r Q :
  cstr t → t ≠ [] → (∀ b, c_string b = t → Q tt b) →
  wp (close_path (Z.of_nat (length (t ++ [slash])))) ((t ++ [slash]) ++ z :: r) Q.
Proof.
  intros Hc Hn HQ. unfold close_path. wp_step. eapply wp_wr; [done|done|].
  replace (Z.of_nat (length (t ++ [slash])) - 1) with (Z.of_nat (length t)) by (lengths; lia).
  destruct (Z.eqb_spec (Z.of_nat (length t)) 0) as [E|E].
  { apply (Nat2Z.inj _ 0), nil_length_inv in E. done. }
  wp_step. eapply (wp_rd _ t slash (0 :: r)); [by rewrite <- app_assoc|done|]. rewrite Z.eqb_refl.
  eapply (wp_wr _ t slash (0 :: r)); [by rewrite <- app_assoc|done|]. apply HQ. by apply c_string_text.
Qed.

Lemma plain_snoc c : plain c → ∃ c' x, c = c' ++ [x] ∧ x ≠ slash.
Proof.
  intros [Hn Hc]. destruct c as [|x c _] using rev_ind; [done|]. exists c, x. split; [done|].
  apply Forall_app in Hc as [_ Hc]. by apply Forall_cons in Hc as [[] _].
Qed.

Lemma close_path_render p o b :
  ended p o b → Forall plain p.2 →
  ∃ dst, o = Some dst ∧
    match p with
    | (false, []) => close_path dst b = Err F_pointer
    | _ => wp (close_path dst) b (λ _ b', c_string b' = render p)
    end.
Proof.
  intros (t & z & r & -> & -> & Ht) Hp. eexists. split; [done|]. destruct p as [rooted [|c st]].
  - destruct Ht as [->|(c & st & [=] & _)]. destruct rooted; [|done].
    apply (wp_close_plain [] slash); [by repeat constructor|by right|done].
  - cbn [snd] in Hp. apply Forall_cons in Hp as [Hc Hp].
    enough (H : wp (close_path (Z.of_nat (length t))) (t ++ z :: r) (λ _ b', c_string b' = render (rooted, c :: st)))
      by by destruct rooted.
    assert (Ho : cstr (outs (rooted, st) ++ c)) by (apply cstr_app; split; [by apply cstr_outs|by apply plain_cstr]).
    rewrite render_cons. destruct Ht as [->|(c' & st' & [= <- <-] & ->)].
    + rewrite outs_cons, app_assoc. apply wp_close_slash; [done| |done]. intros [_ ?]%app_nil. by destruct Hc.
    + cbn [fst]. destruct (plain_snoc c Hc) as (c' & x & -> & Hx). rewrite app_assoc in *.
      apply wp_close_plain; [done|by left|done].
Qed.

(** The code computes where the walk ends. *)
Lemma normalize_path_resolved {S} fullpath (s : S) :
  cstr fullpath →
  normalize_path fullpath s = match resolved fullpath with Ok r => Ok (r, s) | Err e => Err e end.
Proof.
  intros Hc. unfold normalize_path, resolved, normalize, mbind, M_bind, get.
  pose proof (wp_whole_loop fullpath _ (length (fullpath ++ [0])) Hc eq_refl (Nat.le_refl _)) as H.
  apply wp_run in H as (o & b & Hrun & Hpost). rewrite Hrun.
  destruct (walk (is_rooted fullpath, []) (comps fullpath)) as [p|]; [|by rewrite Hpost].
  destruct Hpost as [He Hp]. destruct (close_path_render p o b He Hp) as (dst & -> & Hclose).
  destruct p as [[] [|c st]]; try (apply wp_run in Hclose as ([] & b' & Hr & Hs); rewrite Hr; cbn; by rewrite Hs).
  by rewrite Hclose.
Qed.

(** ** Paths in two parts, and paths that are normal *)

Lemma comps_slash d f : comps (d ++ slash :: f) = comps d ++ comps f.
Proof.
  unfold comps. generalize (@nil Z) at 1 2 as acc. induction d as [|x d IH]; intros acc.
  - cbn. by destruct acc.
  - cbn [app comps_acc]. destruct (x =? slash); [|apply IH]. destruct acc; rewrite IH; done.
Qed.

Lemma walk_app p cs ds : walk p (cs ++ ds) = (p' ← walk p cs; walk p' ds).
Proof. revert p. induction cs as [|c cs IH]; intros p; [done|]. cbn. destruct (move p c); [apply IH|done]. Qed.

(** Components that stand for themselves. *)
Definition named (p : place) : Prop := Forall (λ c, plain c ∧ c ≠ [dot] ∧ c ≠ [dot; dot]) p.2.

Lemma comps_outs rooted st l : Forall plain st → comps (outs (rooted, st) ++ l) = rev st ++ comps l.
Proof.
  intros Hst. revert l. induction Hst as [|c st Hc _ IH]; intros l.
  - by destruct rooted.
  - rewrite outs_cons, <- !app_assoc. cbn [app]. rewrite IH, comps_plain_slash by done. cbn [rev].
    by rewrite <- app_assoc.
Qed.

Lemma comps_render rooted st : Forall plain st → comps (render (rooted, st)) = rev st.
Proof.
  intros Hst. destruct Hst as [|c st Hc Hst]; [by destruct rooted|].
  rewrite render_cons, comps_outs, comps_plain by done. done.
Qed.

Lemma walk_named rooted st : named (rooted, st) → walk (rooted, []) (rev st) = Some (rooted, st).
Proof.
  unfold named. cbn [snd]. induction 1 as [|c st (Hc & H1 & H2) _ IH]; [done|]. cbn [rev].
  rewrite walk_app, IH. cbn -[move]. by rewrite move_component.
Qed.

Lemma is_rooted_render p : p.1 = true → is_rooted (render p) = true.
Proof. unfold render. by intros ->. Qed.

(** A normal absolute path is its own normal form. *)
Lemma resolved_render st : named (true, st) → resolved (render (true, st)) = Ok (Some (render (true, st))).
Proof.
  intros Hn. unfold resolved. rewrite is_rooted_render, comps_render by (done || (eapply Forall_impl; [exact Hn|]; by intros x [])).
  by rewrite walk_named.
Qed.

Lemma comps_acc_plain acc l : Forall (λ x, x ≠ slash ∧ x ≠ 0) acc → cstr l → Forall plain (comps_acc acc l).
Proof.
  intros Ha Hl. revert acc Ha. induction Hl as [|x l Hx _ IH]; intros acc Ha; cbn.
  - destruct acc as [|y acc]; [done|]. constructor; [|done]. split; [|by apply Forall_rev].
    intros E%rev_nil_inv. done.
  - destruct (Z.eqb_spec x slash) as [->|Hs]; [|apply IH; by constructor].
    destruct acc as [|y acc]; [by apply IH|]. constructor; [|by apply IH]. split; [|by apply Forall_rev].
    intros E%rev_nil_inv. done.
Qed.

Lemma comps_all_plain l : cstr l → Forall plain (comps l).
Proof. by apply comps_acc_plain. Qed.

Lemma move_named p c p' : plain c → named p → move p c = Some p' → named p'.
Proof.
  destruct p as [rooted st]. unfold named. cbn. intros Hc Hst H. destruct (decide (c = [dot])); [by simplify_eq|].
  destruct (decide (c = [dot; dot])).
  - destruct st as [|x st]; [by destruct rooted; simplify_eq|]. injection H as <-. by apply Forall_cons in Hst as [_ ?].
  - injection H as <-. by constructor.
Qed.

Lemma walk_named_end p cs p' : Forall plain cs → named p → walk p cs = Some p' → named p'.
Proof.
  intros Hcs. revert p. induction Hcs as [|c cs Hc _ IH]; intros p Hp H; [by injection H as <-|].
  cbn in H. apply bind_Some in H as (q & Hq & H). eapply IH; [|exact H]. by eapply move_named.
Qed.

(** ** A path from the caller *)

Definition full_path (directory filename : list Z) : list Z :=
  if is_rooted filename then filename else directory ++ slash :: filename.

Lemma cstr_full_path d f : cstr d → cstr f → cstr (full_path d f).
Proof.
  intros Hd Hf. unfold full_path. destruct (is_rooted f); [done|]. apply cstr_app. split; [done|]. by constructor.
Qed.

Lemma resolved_place l p : cstr l → resolved l = Ok (Some p) → ∃ pl, p = render pl ∧ named pl ∧ pl ≠ (false, []).
Proof.
  intros Hl H. unfold resolved in H. destruct (walk _ _) as [pl|] eqn:E; [|done].
  exists pl. apply walk_named_end in E; [|by apply comps_all_plain|by constructor].
  destruct pl as [[] [|c st]]; try (injection H as <-); done.
Qed.

(** A walk that ends with a name does not end in front of the root. *)
Lemma resolved_ends l cs c : comps l = cs ++ [c] → plain c → c ≠ [dot] → c ≠ [dot; dot] → ∃ r, resolved l = Ok r.
Proof.
  intros Hl Hc H1 H2. unfold resolved. rewrite Hl, walk_app. destruct (walk _ cs) as [[rooted st]|]; [|eauto].
  cbn -[move]. rewrite move_component by done. cbn. destruct rooted; eauto.
Qed.

Lemma cstr_render pl : named pl → cstr (render pl).
Proof.
  destruct pl as [rooted st]. unfold named. cbn [snd]. intros H. destruct H as [|c st [Hc _] Hst].
  - destruct rooted; repeat constructor. done.
  - rewrite render_cons. apply cstr_app. split; [|by apply plain_cstr]. apply cstr_outs.
    eapply Forall_impl; [exact Hst|]. by intros x [].
Qed.

(** What has been normalised can be normalised again. *)
Lemma resolved_again l p d :
  cstr l → resolved l = Ok (Some p) → cstr p ∧ ∃ r, resolved (full_path d p) = Ok r.
Proof.
  intros Hl H. destruct (resolved_place l p Hl H) as (pl & -> & Hn & Hne). split; [by apply cstr_render|].
  destruct pl as [rooted [|c st]].
  - destruct rooted; [|done]. exists (Some (render (true, []))). apply resolved_render. by constructor.
  - assert (comps (render (rooted, c :: st)) = rev st ++ [c]) as E.
    { rewrite comps_render; [done|]. eapply Forall_impl; [exact Hn|]. by intros x []. }
    unfold named in Hn. cbn [snd] in Hn. apply Forall_cons in Hn as [(Hc & H1 & H2) _]. unfold full_path. destruct (is_rooted _).
    + by eapply resolved_ends.
    + eapply (resolved_ends _ (comps d ++ rev st)); [|done..]. by rewrite comps_slash, E, app_assoc.
Qed.
