(* ===== verification/Dfs.v ===== *)
(** The virtual file system: [components/dfs/src/dfs.c], [dfs_fs.c], [dfs_file.c] and
    [dfs_posix.c].

    The tables of file system types, of mounted file systems and of file descriptors are lists
    of their fixed sizes; a pointer into a table is an index.  The functions of a file system
    ([struct dfs_filesystem_operation]) and of the devices are parameters that act on a state
    [world]; a function of a file system gets the structures that its pointers lead to (the
    descriptor, and the mounted file system that the descriptor names) and gives back what it
    has made of the one that it is called with.  Paths are strings that are allocated and freed: the
    state counts those that are allocated ([live]), and [allocs] says which allocations
    succeed.  The lock is the nesting count of the mutex [fslock] as its owner sees it. *)

From Stdlib Require Import ZArith Lia.
From stdpp Require Import numbers base gmap list.
From S2P Require Import Prelude DfsPath.
Local Open Scope Z_scope.

Definition DFS_FILESYSTEM_TYPES_MAX : nat := 4.
Definition DFS_FILESYSTEMS_MAX : nat := 4.
Definition DFS_FD_MAX : nat := 32.
Definition DFS_PATH_MAX : nat := 256.
Definition DFS_FD_MAGIC : Z := 0xfdfd.
Definition DFS_FS_FLAG_FULLPATH : Z := 1.

Definition DFS_F_OPEN : Z := 0x01000000.
Definition DFS_F_DIRECTORY : Z := 0x02000000.
Definition DFS_F_EOF : Z := 0x04000000.
Definition DFS_O_RDONLY : Z := 0.
Definition DFS_O_CREAT : Z := 0x100.
Definition DFS_O_DIRECTORY : Z := 0x200000.

Definition DFS_STATUS_OK : Z := 0.
Definition DFS_STATUS_ENOENT : Z := 2.
Definition DFS_STATUS_EBADF : Z := 9.
Definition DFS_STATUS_ENOMEM : Z := 12.
Definition DFS_STATUS_EBUSY : Z := 16.
Definition DFS_STATUS_EXDEV : Z := 18.
Definition DFS_STATUS_ENODEV : Z := 19.
Definition DFS_STATUS_ENOTDIR : Z := 20.
Definition DFS_STATUS_EINVAL : Z := 22.
Definition DFS_STATUS_ENOSPC : Z := 28.
Definition DFS_STATUS_ENOSYS : Z := 38.

Definition FT_REGULAR : Z := 0.
Definition FT_DIRECTORY : Z := 2.
Definition DFS_SEEK_SET : Z := 0.
Definition DFS_SEEK_CUR : Z := 1.
Definition DFS_SEEK_END : Z := 2.
Definition DFS_S_IFREG : Z := 0x8000.
Definition DFS_S_IFDIR : Z := 0x4000.

(** ** Structures *)

Record dfs_fd := mk_fd {
  magic : Z;
  fd_type : Z;
  fd_path : option (list Z);
  ref_count : Z;
  fd_fs : option nat;
  fd_flags : Z;
  fd_size : Z;
  fd_pos : Z;
  fd_data : Z
}.
Definition zero_fd : dfs_fd := mk_fd 0 0 None 0 None 0 0 0 0.

Definition set_magic (v : Z) (d : dfs_fd) : dfs_fd :=
  mk_fd v (fd_type d) (fd_path d) (ref_count d) (fd_fs d) (fd_flags d) (fd_size d) (fd_pos d) (fd_data d).
Definition set_fd_type (v : Z) (d : dfs_fd) : dfs_fd :=
  mk_fd (magic d) v (fd_path d) (ref_count d) (fd_fs d) (fd_flags d) (fd_size d) (fd_pos d) (fd_data d).
Definition set_fd_path (v : option (list Z)) (d : dfs_fd) : dfs_fd :=
  mk_fd (magic d) (fd_type d) v (ref_count d) (fd_fs d) (fd_flags d) (fd_size d) (fd_pos d) (fd_data d).
Definition set_ref_count (v : Z) (d : dfs_fd) : dfs_fd :=
  mk_fd (magic d) (fd_type d) (fd_path d) v (fd_fs d) (fd_flags d) (fd_size d) (fd_pos d) (fd_data d).
Definition set_fd_fs (v : option nat) (d : dfs_fd) : dfs_fd :=
  mk_fd (magic d) (fd_type d) (fd_path d) (ref_count d) v (fd_flags d) (fd_size d) (fd_pos d) (fd_data d).
Definition set_fd_flags (v : Z) (d : dfs_fd) : dfs_fd :=
  mk_fd (magic d) (fd_type d) (fd_path d) (ref_count d) (fd_fs d) v (fd_size d) (fd_pos d) (fd_data d).
Definition set_fd_size (v : Z) (d : dfs_fd) : dfs_fd :=
  mk_fd (magic d) (fd_type d) (fd_path d) (ref_count d) (fd_fs d) (fd_flags d) v (fd_pos d) (fd_data d).
Definition set_fd_pos (v : Z) (d : dfs_fd) : dfs_fd :=
  mk_fd (magic d) (fd_type d) (fd_path d) (ref_count d) (fd_fs d) (fd_flags d) (fd_size d) v (fd_data d).

Record dfs_filesystem := mk_fs {
  dev_id : option Z;
  fs_path : option (list Z);
  fs_ops : option nat;
  fs_data : Z
}.
Definition zero_fs : dfs_filesystem := mk_fs None None None 0.

Record stat_buf := mk_stat { st_dev : Z; st_mode : Z; st_size : Z; st_mtime : Z }.
Record statfs_buf := mk_statfs { f_bsize : Z; f_blocks : Z; f_bfree : Z }.

(** A directory stream. *)
Record DIR := mk_dir { dir_fd : Z; dir_buf : list Z; dir_num : Z; dir_cur : Z }.

(** The functions of a file system; [None] for RT_NULL. *)
Record dfs_filesystem_operation (W : Type) := mk_ops {
  op_name : list Z;
  op_flags : Z;
  op_mount : option (dfs_filesystem → Z → Z → M W (Z * dfs_filesystem));
  op_unmount : option (dfs_filesystem → M W (Z * dfs_filesystem));
  op_mkfs : option (Z → M W Z);
  op_statfs : option (dfs_filesystem → M W (Z * statfs_buf));
  op_open : option (dfs_filesystem → dfs_fd → M W (Z * dfs_fd));
  op_close : option (dfs_filesystem → dfs_fd → M W (Z * dfs_fd));
  op_ioctl : option (dfs_filesystem → dfs_fd → Z → Z → M W (Z * dfs_fd));
  op_read : option (dfs_filesystem → dfs_fd → Z → M W (Z * list Z * dfs_fd));
  op_write : option (dfs_filesystem → dfs_fd → list Z → M W (Z * dfs_fd));
  op_flush : option (dfs_filesystem → dfs_fd → M W (Z * dfs_fd));
  op_lseek : option (dfs_filesystem → dfs_fd → Z → M W (Z * dfs_fd));
  op_getdents : option (dfs_filesystem → dfs_fd → Z → M W (Z * list Z * dfs_fd));
  op_unlink : option (dfs_filesystem → list Z → M W Z);
  op_stat : option (dfs_filesystem → list Z → M W (Z * stat_buf));
  op_rename : option (dfs_filesystem → option (list Z) → option (list Z) → M W Z)
}.
Arguments mk_ops {W}. Arguments op_name {W}. Arguments op_flags {W}. Arguments op_mount {W}.
Arguments op_unmount {W}. Arguments op_mkfs {W}. Arguments op_statfs {W}. Arguments op_open {W}.
Arguments op_close {W}. Arguments op_ioctl {W}. Arguments op_read {W}. Arguments op_write {W}.
Arguments op_flush {W}. Arguments op_lseek {W}. Arguments op_getdents {W}. Arguments op_unlink {W}.
Arguments op_stat {W}. Arguments op_rename {W}.

(** The global variables. *)
Record dfs (W : Type) := mk_dfs {
  filesystem_operation_table : list (option nat);
  filesystem_table : list dfs_filesystem;
  fd_table : list dfs_fd;
  working_directory : list Z;
  fslock : Z;
  errno : Z;
  local_fd : dfs_fd;
  dirs : gmap nat DIR;
  live : Z;
  allocs : list bool;
  world : W
}.
Arguments mk_dfs {W}. Arguments filesystem_operation_table {W}. Arguments filesystem_table {W}.
Arguments fd_table {W}. Arguments working_directory {W}. Arguments fslock {W}. Arguments errno {W}.
Arguments local_fd {W}. Arguments dirs {W}. Arguments live {W}. Arguments allocs {W}. Arguments world {W}.

Section Setters.
Context {W : Type}.
Implicit Types s : dfs W.
Definition set_ops_table v s : dfs W :=
  mk_dfs v (filesystem_table s) (fd_table s) (working_directory s) (fslock s) (errno s) (local_fd s) (dirs s) (live s) (allocs s) (world s).
Definition set_fs_table v s : dfs W :=
  mk_dfs (filesystem_operation_table s) v (fd_table s) (working_directory s) (fslock s) (errno s) (local_fd s) (dirs s) (live s) (allocs s) (world s).
Definition set_fd_table v s : dfs W :=
  mk_dfs (filesystem_operation_table s) (filesystem_table s) v (working_directory s) (fslock s) (errno s) (local_fd s) (dirs s) (live s) (allocs s) (world s).
Definition set_working_directory v s : dfs W :=
  mk_dfs (filesystem_operation_table s) (filesystem_table s) (fd_table s) v (fslock s) (errno s) (local_fd s) (dirs s) (live s) (allocs s) (world s).
Definition set_fslock v s : dfs W :=
  mk_dfs (filesystem_operation_table s) (filesystem_table s) (fd_table s) (working_directory s) v (errno s) (local_fd s) (dirs s) (live s) (allocs s) (world s).
Definition set_dfs_errno v s : dfs W :=
  mk_dfs (filesystem_operation_table s) (filesystem_table s) (fd_table s) (working_directory s) (fslock s) v (local_fd s) (dirs s) (live s) (allocs s) (world s).
Definition set_local_fd v s : dfs W :=
  mk_dfs (filesystem_operation_table s) (filesystem_table s) (fd_table s) (working_directory s) (fslock s) (errno s) v (dirs s) (live s) (allocs s) (world s).
Definition set_dirs v s : dfs W :=
  mk_dfs (filesystem_operation_table s) (filesystem_table s) (fd_table s) (working_directory s) (fslock s) (errno s) (local_fd s) v (live s) (allocs s) (world s).
Definition set_live v s : dfs W :=
  mk_dfs (filesystem_operation_table s) (filesystem_table s) (fd_table s) (working_directory s) (fslock s) (errno s) (local_fd s) (dirs s) v (allocs s) (world s).
Definition set_allocs v s : dfs W :=
  mk_dfs (filesystem_operation_table s) (filesystem_table s) (fd_table s) (working_directory s) (fslock s) (errno s) (local_fd s) (dirs s) (live s) v (world s).
Definition set_world v s : dfs W :=
  mk_dfs (filesystem_operation_table s) (filesystem_table s) (fd_table s) (working_directory s) (fslock s) (errno s) (local_fd s) (dirs s) (live s) (allocs s) v.
End Setters.

(** The devices, as the file system uses them. *)
Class Devices (W : Type) := {
  rt_device_find : list Z → M W (option Z);
  rt_device_open : Z → M W Z;
  rt_device_close : Z → M W Z
}.

Section Dfs.
Context {W : Type} `{!Devices W} (operations : nat → dfs_filesystem_operation W).
Notation D := (M (dfs W)).

Definition on_world {A} (m : M W A) : D A := zoom world set_world m.

(** ** Memory and the lock

    [take_memory] stands for [rt_malloc], [free_memory] for [rt_free], [copy_string] for
    [rt_strdup] and [set_error_number] for [rt_set_errno]. *)

Definition take_memory : D bool :=
  a ← gets allocs;
  match a with
  | false :: a => modify (set_allocs a);; mret false
  | _ => modify (λ s, set_allocs (tail a) (set_live (live s + 1) s));; mret true
  end.
Definition free_memory {A} (p : option A) : D unit :=
  match p with Some _ => modify (λ s, set_live (live s - 1) s) | None => mret tt end.

Definition copy_string (str : list Z) : D (option (list Z)) :=
  b ← take_memory; mret (if (b : bool) then Some str else None).

Definition set_error_number (e : Z) : D unit := modify (set_dfs_errno e).

Definition dfs_lock : D unit := modify (λ s, set_fslock (fslock s + 1) s).
Definition dfs_unlock : D unit := modify (λ s, set_fslock (fslock s - 1) s).

Definition dfs_init : D unit :=
  modify (set_ops_table (replicate DFS_FILESYSTEM_TYPES_MAX None));;
  modify (set_fs_table (replicate DFS_FILESYSTEMS_MAX zero_fs));;
  modify (set_fd_table (replicate DFS_FD_MAX zero_fd));;
  modify (set_fslock 0);;
  modify (set_working_directory [slash]).

(** ** File descriptors *)

(** A descriptor: an entry of the table, or a variable on the stack. *)
Inductive fdref := Entry (i : nat) | Stack.

Definition get_fd (r : fdref) : D dfs_fd :=
  match r with Entry i => t ← gets fd_table; deref (t !! i) | Stack => gets local_fd end.
Definition put_fd (r : fdref) (d : dfs_fd) : D unit :=
  match r with
  | Entry i => get_fd r;; modify (λ s, set_fd_table (<[i := d]> (fd_table s)) s)
  | Stack => modify (set_local_fd d)
  end.
Definition upd_fd (r : fdref) (f : dfs_fd → dfs_fd) : D unit := d ← get_fd r; put_fd r (f d).

(** -1 for no entry. *)
Definition fd_new : D Z :=
  dfs_lock;;
  t ← gets fd_table;
  idx ←
    match list_find (λ d, ref_count d <= 0) t with
    | None => mret (-1)
    | Some (idx, _) =>
        upd_fd (Entry idx) (λ d, set_magic DFS_FD_MAGIC (set_ref_count 1 d));; mret (Z.of_nat idx)
    end;
  dfs_unlock;;
  mret idx.

Definition fd_get (fd : Z) : D (option fdref) :=
  if (fd <? 0) || (Z.of_nat DFS_FD_MAX <=? fd) then mret None
  else
    let r := Entry (Z.to_nat fd) in
    dfs_lock;;
    d ← get_fd r;
    if negb (magic d =? DFS_FD_MAGIC) then dfs_unlock;; mret None
    else
      upd_fd r (λ d, set_ref_count (ref_count d + 1) d);;
      dfs_unlock;;
      mret (Some r).

Definition fd_put (fd : option fdref) : D unit :=
  rt_assert (bool_decide (is_Some fd));;
  r ← deref fd;
  dfs_lock;;
  upd_fd r (λ d, set_ref_count (ref_count d - 1) d);;
  d ← get_fd r;
  (if ref_count d =? 0 then put_fd r zero_fd else mret tt);;
  dfs_unlock.

(** ** Paths *)

(** The working directory is an array of DFS_PATH_MAX characters. *)
Definition working_directory_string : D (list Z) :=
  w ← gets working_directory; if (length w <? DFS_PATH_MAX)%nat then mret w else fail F_pointer.

Definition dfs_normalize_path (directory : option (list Z)) (filename : list Z) : D (option (list Z)) :=
  directory ← match directory with Some d => mret d | None => working_directory_string end;
  let fullpath := if is_rooted filename then filename else directory ++ slash :: filename in
  b ← take_memory;
  if (b : bool) then
    r ← normalize_path fullpath;
    match r with
    | Some p => mret (Some p)
    | None => free_memory (Some fullpath);; mret None
    end
  else mret None.

(** ** Mounted file systems *)

(** [strncmp(a, b, n) == 0] of strings *)
Definition prefix_of (a b : list Z) : bool := bool_decide (take (length a) b = a).

(** Is the path at or below the mount point? *)
Definition under (mount path : list Z) : bool :=
  prefix_of mount path &&
  negb ((1 <? length mount)%nat && (length mount <? length path)%nat &&
        negb (bool_decide (path !! length mount = Some slash))).

Fixpoint lookup_loop (path : list Z) (t : list dfs_filesystem) (i : nat) (fs : option nat) (prefixlen : nat) : option nat :=
  match t with
  | [] => fs
  | e :: t =>
      match fs_path e, fs_ops e with
      | Some p, Some _ =>
          if (length p <? prefixlen)%nat || negb (under p path) then lookup_loop path t (S i) fs prefixlen
          else lookup_loop path t (S i) (Some i) (length p)
      | _, _ => lookup_loop path t (S i) fs prefixlen
      end
  end.

Definition dfs_filesystem_lookup (path : list Z) : D (option nat) :=
  dfs_lock;;
  t ← gets filesystem_table;
  dfs_unlock;;
  mret (lookup_loop path t 0 None 0).

Definition get_fs (i : nat) : D dfs_filesystem := t ← gets filesystem_table; deref (t !! i).
Definition put_fs (i : nat) (e : dfs_filesystem) : D unit :=
  get_fs i;; modify (λ s, set_fs_table (<[i := e]> (filesystem_table s)) s).

(** The functions of a mounted file system. *)
Definition ops_of (e : dfs_filesystem) : D (dfs_filesystem_operation W) :=
  o ← deref (fs_ops e); mret (operations o).

Definition dfs_filesystem_get_mounted_path (device : Z) : D (option (list Z)) :=
  dfs_lock;;
  t ← gets filesystem_table;
  dfs_unlock;;
  mret (match list_find (λ e, fs_ops e ≠ None ∧ dev_id e = Some device) t with
        | Some (_, e) => fs_path e
        | None => None
        end).

(** RT_EOK or -1.  A full table is no error. *)
Fixpoint register_loop (name : list Z) (t : list (option nat)) (i : nat) (empty : option nat) : option (option nat) :=
  match t with
  | [] => Some empty
  | None :: t => register_loop name t (S i) (match empty with None => Some i | _ => empty end)
  | Some o :: t =>
      if bool_decide (op_name (operations o) = name) then None else register_loop name t (S i) empty
  end.
Definition dfs_register (ops : nat) : D Z :=
  dfs_lock;;
  t ← gets filesystem_operation_table;
  r ← match register_loop (op_name (operations ops)) t 0 None with
      | None => mret (-1)
      | Some None => mret 0
      | Some (Some i) => modify (λ s, set_ops_table (<[i := Some ops]> (filesystem_operation_table s)) s);; mret 0
      end;
  dfs_unlock;;
  mret r.

(** 0 when some descriptor has the file open, otherwise -1. *)
Fixpoint open_loop (fs : nat) (mountpath : list Z) (t : list dfs_fd) : D bool :=
  match t with
  | [] => mret false
  | d :: t =>
      match fd_fs d with
      | None => open_loop fs mountpath t
      | Some f =>
          if Nat.eqb f fs then
            p ← deref (fd_path d);
            if bool_decide (p = mountpath) then mret true else open_loop fs mountpath t
          else open_loop fs mountpath t
      end
  end.
Definition fd_is_open (pathname : list Z) : D Z :=
  fullpath ← dfs_normalize_path None pathname;
  match fullpath with
  | None => mret (-1)
  | Some p =>
      fs ← dfs_filesystem_lookup p;
      match fs with
      | None => free_memory fullpath;; mret (-1)
      | Some i =>
          e ← get_fs i;
          mount ← deref (fs_path e);
          let mountpath := if bool_decide (mount = [slash]) then p else drop (length mount) p in
          dfs_lock;;
          t ← gets fd_table;
          b ← open_loop i mountpath t;
          (if (b : bool) then free_memory fullpath;; dfs_unlock;; mret 0
           else dfs_unlock;; free_memory fullpath;; mret (-1))
      end
  end.

(** ** Files *)

(** The path for the functions of the file system. *)
Definition full_flag (o : dfs_filesystem_operation W) : bool := negb (Z.land (op_flags o) DFS_FS_FLAG_FULLPATH =? 0).
Definition sub_path (e : dfs_filesystem) (fullpath : list Z) : D (option (list Z)) :=
  mount ← deref (fs_path e); dfs_subdir mount fullpath.

(** The open routine of the file system, and what is made of its result. *)
Definition open_routine (r : fdref) (e : dfs_filesystem) (o : dfs_filesystem_operation W) (flags : Z) : D Z :=
  match op_open o with
  | None =>
      d ← get_fd r;
      free_memory (fd_path d);; upd_fd r (set_fd_path None);;
      mret (- DFS_STATUS_ENOSYS)
  | Some f =>
      d ← get_fd r;
      '(result, d) ← on_world (f e d);
      put_fd r d;;
      if result <? 0 then
        free_memory (fd_path d);; upd_fd r (set_fd_path None);; mret result
      else
        upd_fd r (λ d, set_fd_flags (Z.lor (fd_flags d) DFS_F_OPEN) d);;
        (if Z.land flags DFS_O_DIRECTORY =? 0 then mret tt
         else upd_fd r (λ d, set_fd_flags (Z.lor (fd_flags d) DFS_F_DIRECTORY) (set_fd_type FT_DIRECTORY d)));;
        mret 0
  end.

Definition dfs_file_open (fd : option fdref) (path : list Z) (flags : Z) : D Z :=
  match fd with
  | None => mret (- DFS_STATUS_EINVAL)
  | Some r =>
      fullpath ← dfs_normalize_path None path;
      match fullpath with
      | None => mret (-1)
      | Some p =>
          fs ← dfs_filesystem_lookup p;
          match fs with
          | None => free_memory fullpath;; mret (- DFS_STATUS_ENOENT)
          | Some i =>
              upd_fd r (λ d, set_fd_pos 0 (set_fd_size 0 (set_fd_flags (u32 flags) (set_fd_type FT_REGULAR (set_fd_fs fs d)))));;
              e ← get_fs i;
              o ← ops_of e;
              (if full_flag o then upd_fd r (set_fd_path fullpath)
               else
                 sub ← sub_path e p;
                 q ← copy_string (default [slash] sub);
                 upd_fd r (set_fd_path q);;
                 free_memory fullpath);;
              open_routine r e o flags
          end
      end
  end.

(** The file system of a descriptor and its functions. *)
Definition fs_of (d : dfs_fd) : D (dfs_filesystem * dfs_filesystem_operation W) :=
  i ← deref (fd_fs d); e ← get_fs i; o ← ops_of e; mret (e, o).

Definition dfs_file_close (fd : option fdref) : D Z :=
  r ← deref fd;
  d ← get_fd r;
  '(e, o) ← fs_of d;
  result ←
    match op_close o with
    | None => mret 0
    | Some f => '(result, d) ← on_world (f e d); put_fd r d;; mret result
    end;
  if result <? 0 then mret result
  else
    d ← get_fd r;
    free_memory (fd_path d);;
    upd_fd r (set_fd_path None);;
    mret result.

Definition dfs_file_ioctl (fd : option fdref) (cmd args : Z) : D Z :=
  match fd with
  | None => mret (- DFS_STATUS_EINVAL)
  | Some r =>
      d ← get_fd r;
      if negb (fd_type d =? FT_REGULAR) then mret (- DFS_STATUS_EINVAL)
      else
        '(e, o) ← fs_of d;
        match op_ioctl o with
        | Some f => '(result, d) ← on_world (f e d cmd args); put_fd r d;; mret result
        | None => mret (- DFS_STATUS_ENOSYS)
        end
  end.

Definition dfs_file_read (fd : option fdref) (len : Z) : D (Z * list Z) :=
  match fd with
  | None => mret (- DFS_STATUS_EINVAL, [])
  | Some r =>
      d ← get_fd r;
      '(e, o) ← fs_of d;
      match op_read o with
      | None => mret (- DFS_STATUS_ENOSYS, [])
      | Some f =>
          '(result, buf, d) ← on_world (f e d len);
          put_fd r d;;
          (if result <? 0 then upd_fd r (λ d, set_fd_flags (Z.lor (fd_flags d) DFS_F_EOF) d) else mret tt);;
          mret (result, buf)
      end
  end.

Definition dfs_file_getdents (fd : option fdref) (nbytes : Z) : D (Z * list Z) :=
  match fd with
  | None => mret (- DFS_STATUS_EINVAL, [])
  | Some r =>
      d ← get_fd r;
      if negb (fd_type d =? FT_DIRECTORY) then mret (- DFS_STATUS_EINVAL, [])
      else
        '(e, o) ← fs_of d;
        match op_getdents o with
        | Some f => '(result, buf, d) ← on_world (f e d nbytes); put_fd r d;; mret (result, buf)
        | None => mret (- DFS_STATUS_ENOSYS, [])
        end
  end.

Definition dfs_file_write (fd : option fdref) (buf : list Z) : D Z :=
  match fd with
  | None => mret (- DFS_STATUS_EINVAL)
  | Some r =>
      d ← get_fd r;
      '(e, o) ← fs_of d;
      match op_write o with
      | None => mret (- DFS_STATUS_ENOSYS)
      | Some f => '(result, d) ← on_world (f e d buf); put_fd r d;; mret result
      end
  end.

Definition dfs_file_flush (fd : option fdref) : D Z :=
  match fd with
  | None => mret (- DFS_STATUS_EINVAL)
  | Some r =>
      d ← get_fd r;
      '(e, o) ← fs_of d;
      match op_flush o with
      | None => mret (- DFS_STATUS_ENOSYS)
      | Some f => '(result, d) ← on_world (f e d); put_fd r d;; mret result
      end
  end.

(** The structure is read before the pointer is tested. *)
Definition dfs_file_lseek (fd : option fdref) (offset : Z) : D Z :=
  r ← deref fd;
  d ← get_fd r;
  match fd_fs d with
  | None => mret (- DFS_STATUS_EINVAL)
  | Some _ =>
      '(e, o) ← fs_of d;
      match op_lseek o with
      | None => mret (- DFS_STATUS_ENOSYS)
      | Some f =>
          '(result, d) ← on_world (f e d offset);
          put_fd r d;;
          (if 0 <=? result then upd_fd r (set_fd_pos result) else mret tt);;
          mret result
      end
  end.

Definition dfs_file_unlink (path : list Z) : D Z :=
  fullpath ← dfs_normalize_path None path;
  match fullpath with
  | None => mret (- DFS_STATUS_EINVAL)
  | Some p =>
      fs ← dfs_filesystem_lookup p;
      result ←
        match fs with
        | None => mret (- DFS_STATUS_ENOENT)
        | Some i =>
            b ← fd_is_open p;
            if b =? 0 then mret (- DFS_STATUS_EBUSY)
            else
              e ← get_fs i;
              o ← ops_of e;
              match op_unlink o with
              | None => mret (- DFS_STATUS_ENOSYS)
              | Some f =>
                  if full_flag o then on_world (f e p)
                  else sub ← sub_path e p; on_world (f e (default [slash] sub))
              end
        end;
      free_memory fullpath;;
      mret result
  end.

(** Read and write permission for all (octal 666), and a directory that all may search (111). *)
Definition mode_rw : Z := 438.
Definition mode_dir : Z := Z.lor DFS_S_IFDIR 73.

Definition dfs_file_stat (path : list Z) : D (Z * option stat_buf) :=
  fullpath ← dfs_normalize_path None path;
  match fullpath with
  | None => mret (-1, None)
  | Some p =>
      fs ← dfs_filesystem_lookup p;
      match fs with
      | None => free_memory fullpath;; mret (- DFS_STATUS_ENOENT, None)
      | Some i =>
          e ← get_fs i;
          sub ← (if bool_decide (p = [slash]) then mret None else sub_path e p);
          match sub with
          | None =>
              free_memory fullpath;;
              mret (DFS_STATUS_OK, Some (mk_stat 0 (Z.lor mode_rw mode_dir) 0 0))
          | Some q =>
              o ← ops_of e;
              match op_stat o with
              | None => free_memory fullpath;; mret (- DFS_STATUS_ENOSYS, None)
              | Some f =>
                  '(result, buf) ← on_world (f e (if full_flag o then p else q));
                  free_memory fullpath;;
                  mret (result, Some buf)
              end
          end
      end
  end.

Definition dfs_file_rename (oldpath newpath : list Z) : D Z :=
  oldfull ← dfs_normalize_path None oldpath;
  match oldfull with
  | None => mret (- DFS_STATUS_ENOENT)
  | Some p =>
      newfull ← dfs_normalize_path None newpath;
      result ←
        match newfull with
        | None => mret (- DFS_STATUS_ENOENT)
        | Some q =>
            oldfs ← dfs_filesystem_lookup p;
            newfs ← dfs_filesystem_lookup q;
            if bool_decide (oldfs = newfs) then
              i ← deref oldfs;
              e ← get_fs i;
              o ← ops_of e;
              match op_rename o with
              | None => mret (- DFS_STATUS_ENOSYS)
              | Some f =>
                  if full_flag o then on_world (f e (Some p) (Some q))
                  else a ← sub_path e p; b ← sub_path e q; on_world (f e a b)
              end
            else mret (- DFS_STATUS_EXDEV)
        end;
      free_memory oldfull;;
      free_memory newfull;;
      mret result
  end.

(** ** Mounting *)

(** The index of the type; an empty entry in front of it is a null pointer that is followed. *)
Fixpoint find_type (name : list Z) (t : list (option nat)) : D (option nat) :=
  match t with
  | [] => mret None
  | None :: _ => fail F_pointer
  | Some o :: t => if bool_decide (op_name (operations o) = name) then mret (Some o) else find_type name t
  end.

(** An empty entry, if there is one; [None] when the path is mounted. *)
Fixpoint mount_slot (path : list Z) (t : list dfs_filesystem) (i : nat) (fs : option nat) : D (option (option nat)) :=
  match t with
  | [] => mret (Some fs)
  | e :: t =>
      match fs_ops e with
      | None => mount_slot path t (S i) (match fs with None => Some i | _ => fs end)
      | Some _ =>
          p ← deref (fs_path e);
          if bool_decide (p = path) then mret None else mount_slot path t (S i) fs
      end
  end.

(** [err1]: with the lock taken. *)
Definition mount_error (fullpath : option (list Z)) : D Z := dfs_unlock;; free_memory fullpath;; mret (-1).

Definition dfs_mount (device_name : option (list Z)) (path filesystemtype : list Z) (rwflag data : Z) : D Z :=
  dev ← match device_name with None => mret None | Some n => on_world (rt_device_find n) end;
  if bool_decide (device_name ≠ None ∧ dev = None) then set_error_number (- DFS_STATUS_ENODEV);; mret (-1)
  else
    dfs_lock;;
    types ← gets filesystem_operation_table;
    found ← find_type filesystemtype types;
    dfs_unlock;;
    match found with
    | None => set_error_number (- DFS_STATUS_ENODEV);; mret (-1)
    | Some ops =>
        match op_mount (operations ops) with
        | None => set_error_number (- DFS_STATUS_ENOSYS);; mret (-1)
        | Some mount =>
            fullpath ← dfs_normalize_path None path;
            match fullpath with
            | None => set_error_number (- DFS_STATUS_ENOTDIR);; mret (-1)
            | Some p =>
                opened ←
                  (if bool_decide (p = [slash]) || bool_decide (p = [slash; 100; 101; 118]) then mret 0
                   else
                     r ← dfs_file_open (Some Stack) p (Z.lor DFS_O_RDONLY DFS_O_DIRECTORY);
                     if r <? 0 then mret r else dfs_file_close (Some Stack);; mret 0);
                if opened <? 0 then
                  free_memory fullpath;; set_error_number (- DFS_STATUS_ENOTDIR);; mret (-1)
                else
                  dfs_lock;;
                  t ← gets filesystem_table;
                  slot ← mount_slot path t 0 None;
                  match slot with
                  | None => set_error_number (- DFS_STATUS_EINVAL);; mount_error fullpath
                  | Some None => set_error_number (- DFS_STATUS_ENOSPC);; mount_error fullpath
                  | Some (Some i) =>
                      e ← get_fs i;
                      put_fs i (mk_fs dev fullpath (Some ops) (fs_data e));;
                      dfs_unlock;;
                      err ← match dev with None => mret 0 | Some d => on_world (rt_device_open d) end;
                      if negb (err =? 0) then dfs_lock;; put_fs i zero_fs;; mount_error fullpath
                      else
                        e ← get_fs i;
                        '(result, e) ← on_world (mount e rwflag data);
                        put_fs i e;;
                        if result <? 0 then
                          match dev with None => mret tt | Some _ => d ← deref (dev_id e); on_world (rt_device_close d);; mret tt end;;
                          dfs_lock;; put_fs i zero_fs;; mount_error fullpath
                        else mret 0
                  end
            end
        end
    end.

Definition dfs_unmount (specialfile : list Z) : D Z :=
  fullpath ← dfs_normalize_path None specialfile;
  match fullpath with
  | None => set_error_number (- DFS_STATUS_ENOTDIR);; mret (-1)
  | Some p =>
      dfs_lock;;
      t ← gets filesystem_table;
      match list_find (λ e, fs_path e = Some p) t with
      | None => mount_error fullpath
      | Some (i, e) =>
          o ← ops_of e;
          match op_unmount o with
          | None => mount_error fullpath
          | Some f =>
              '(r, e) ← on_world (f e);
              put_fs i e;;
              if r <? 0 then mount_error fullpath
              else
                match dev_id e with None => mret tt | Some d => on_world (rt_device_close d);; mret tt end;;
                free_memory (fs_path e);;
                put_fs i zero_fs;;
                dfs_unlock;;
                free_memory fullpath;;
                mret 0
          end
      end
  end.

Definition dfs_mkfs (fs_name : list Z) (device_name : option (list Z)) : D Z :=
  dev ← match device_name with None => mret None | Some n => on_world (rt_device_find n) end;
  match dev with
  | None => set_error_number (- DFS_STATUS_ENODEV);; mret (-1)
  | Some d =>
      dfs_lock;;
      types ← gets filesystem_operation_table;
      dfs_unlock;;
      match list_find (λ t, op_name ∘ operations <$> t = Some fs_name) types with
      | Some (_, Some o) =>
          match op_mkfs (operations o) with
          | None => set_error_number (- DFS_STATUS_ENOSYS);; mret (-1)
          | Some f => on_world (f d)
          end
      | _ => mret (-1)
      end
  end.

Definition dfs_statfs (path : list Z) : D (Z * option statfs_buf) :=
  fs ← dfs_filesystem_lookup path;
  match fs with
  | None => mret (-1, None)
  | Some i =>
      e ← get_fs i;
      o ← ops_of e;
      match op_statfs o with
      | None => mret (-1, None)
      | Some f => '(r, buf) ← on_world (f e); mret (r, Some buf)
      end
  end.

End Dfs.
