(* ===== verification/DfsPosix.v ===== *)
(** The POSIX functions of the virtual file system: [components/dfs/src/dfs_posix.c].

    A descriptor of the caller is an integer.  A directory stream is a key of [dirs]; [readdir]
    returns the offset of an entry in the buffer of the stream.  What [chdir] prints is not
    modelled. *)

From Stdlib Require Import ZArith Lia.
From stdpp Require Import numbers base gmap list.
From S2P Require Import Prelude DfsPath Dfs.
Local Open Scope Z_scope.

(** sizeof(d->buf) *)
Definition DIR_BUF : nat := 512.

Section Posix.
Context {W : Type} `{!Devices W} (operations : nat → dfs_filesystem_operation W).
Notation D := (M (dfs W)).

(** [set_error_number(e); return -1;] *)
Definition failed (e : Z) : D Z := set_error_number e;; mret (-1).

(** ** Files *)

Definition open (file : list Z) (flags : Z) : D Z :=
  fd ← fd_new;
  if fd <? 0 then failed (- DFS_STATUS_ENOMEM)
  else
    d ← fd_get fd;
    result ← dfs_file_open operations d file flags;
    if result <? 0 then fd_put d;; fd_put d;; failed result
    else fd_put d;; mret fd.

Definition close (fd : Z) : D Z :=
  d ← fd_get fd;
  match d with
  | None => failed (- DFS_STATUS_EBADF)
  | Some _ =>
      result ← dfs_file_close operations d;
      fd_put d;;
      if result <? 0 then failed result else fd_put d;; mret 0
  end.

Definition read (fd len : Z) : D (Z * list Z) :=
  d ← fd_get fd;
  match d with
  | None => r ← failed (- DFS_STATUS_EBADF); mret (r, [])
  | Some _ =>
      '(result, buf) ← dfs_file_read operations d len;
      if result <? 0 then fd_put d;; r ← failed result; mret (r, buf)
      else fd_put d;; mret (result, buf)
  end.

Definition write (fd : Z) (buf : list Z) : D Z :=
  d ← fd_get fd;
  match d with
  | None => failed (- DFS_STATUS_EBADF)
  | Some _ =>
      result ← dfs_file_write operations d buf;
      if result <? 0 then fd_put d;; failed result else fd_put d;; mret result
  end.

(** The position that [lseek] asks for; [None] for another [whence]. *)
Definition seek_offset (d : dfs_fd) (offset whence : Z) : option Z :=
  if whence =? DFS_SEEK_SET then Some offset
  else if whence =? DFS_SEEK_CUR then Some (s32 (offset + fd_pos d))
  else if whence =? DFS_SEEK_END then Some (s32 (offset + fd_size d))
  else None.

Definition lseek (fd offset whence : Z) : D Z :=
  d ← fd_get fd;
  match d with
  | None => failed (- DFS_STATUS_EBADF)
  | Some r =>
      f ← get_fd r;
      match seek_offset f offset whence with
      | None => fd_put d;; failed (- DFS_STATUS_EINVAL)
      | Some offset =>
          if offset <? 0 then fd_put d;; failed (- DFS_STATUS_EINVAL)
          else
            result ← dfs_file_lseek operations d offset;
            if result <? 0 then fd_put d;; failed result else fd_put d;; mret offset
      end
  end.

Definition rename (old new : list Z) : D Z :=
  result ← dfs_file_rename operations old new;
  if result <? 0 then failed result else mret 0.

Definition unlink (pathname : list Z) : D Z :=
  result ← dfs_file_unlink operations pathname;
  if result <? 0 then failed result else mret 0.

Definition stat (file : list Z) : D (Z * option stat_buf) :=
  '(result, buf) ← dfs_file_stat operations file;
  if result <? 0 then r ← failed result; mret (r, buf) else mret (result, buf).

Definition fstat (fildes : Z) : D (Z * option stat_buf) :=
  d ← fd_get fildes;
  match d with
  | None => r ← failed (- DFS_STATUS_EBADF); mret (r, None)
  | Some r =>
      f ← get_fd r;
      let st_mode := Z.lor DFS_S_IFREG mode_rw in
      let st_mode :=
        if fd_type f =? FT_DIRECTORY then Z.lor (Z.land st_mode (Z.lnot DFS_S_IFREG)) mode_dir else st_mode in
      fd_put d;;
      mret (DFS_STATUS_OK, Some (mk_stat 0 st_mode (fd_size f) 0))
  end.

(** The error of the file system is returned as it is. *)
Definition fsync (fildes : Z) : D Z :=
  d ← fd_get fildes;
  match d with
  | None => failed (- DFS_STATUS_EBADF)
  | Some _ => ret ← dfs_file_flush operations d; fd_put d;; mret ret
  end.

Definition ioctl (fildes cmd data : Z) : D Z :=
  d ← fd_get fildes;
  match d with
  | None => failed (- DFS_STATUS_EBADF)
  | Some _ =>
      ret ← dfs_file_ioctl operations d (s32 cmd) data;
      ret ← (if negb (ret =? DFS_STATUS_OK) then failed ret else mret ret);
      fd_put d;;
      mret ret
  end.

Definition statfs (path : list Z) : D (Z * option statfs_buf) :=
  '(result, buf) ← dfs_statfs operations path;
  if result <? 0 then r ← failed result; mret (r, buf) else mret (result, buf).

(** ** Directories *)

Definition mkdir (path : list Z) : D Z :=
  fd ← fd_new;
  if fd =? -1 then failed (- DFS_STATUS_ENOMEM)
  else
    d ← fd_get fd;
    result ← dfs_file_open operations d path (Z.lor DFS_O_DIRECTORY DFS_O_CREAT);
    if result <? 0 then fd_put d;; fd_put d;; failed result
    else dfs_file_close operations d;; fd_put d;; fd_put d;; mret 0.

Definition rmdir (pathname : list Z) : D Z :=
  result ← dfs_file_unlink operations pathname;
  if result <? 0 then failed result else mret 0.

(** The memory of a stream: [rt_malloc(sizeof(DIR))], and [rt_free] of it *)
Definition new_dir : D (option nat) :=
  b ← take_memory;
  if (b : bool) then
    ds ← gets dirs;
    let t : nat := fresh (dom ds) in
    modify (set_dirs (<[t := mk_dir 0 (replicate DIR_BUF 0) 0 0]> ds));;
    mret (Some t)
  else mret None.
Definition free_dir (d : nat) : D unit :=
  modify (λ s, set_dirs (delete d (dirs s)) s);; free_memory (Some d).
Definition get_dir (d : nat) : D DIR := ds ← gets dirs; deref (ds !! d).
Definition put_dir (d : nat) (v : DIR) : D unit := get_dir d;; modify (λ s, set_dirs (<[d := v]> (dirs s)) s).

Definition opendir (name : list Z) : D (option nat) :=
  fd ← fd_new;
  if fd =? -1 then set_error_number (- DFS_STATUS_ENOMEM);; mret None
  else
    d ← fd_get fd;
    result ← dfs_file_open operations d name (Z.lor DFS_O_RDONLY DFS_O_DIRECTORY);
    if 0 <=? result then
      t ← new_dir;
      match t with
      | None => dfs_file_close operations d;; fd_put d
      | Some k => put_dir k (mk_dir fd (replicate DIR_BUF 0) 0 0)
      end;;
      fd_put d;;
      mret t
    else
      fd_put d;; fd_put d;; set_error_number result;; mret None.

(** d_reclen of the entry at the offset [cur]: the third and fourth byte, the low one first *)
Definition d_reclen (buf : list Z) (cur : Z) : D Z :=
  let at_ i := deref (if 0 <=? i then buf !! Z.to_nat i else None) in
  lo ← at_ (cur + 2); hi ← at_ (cur + 3); mret (lo + 256 * hi).

(** The file system writes [out] to the buffer. *)
Definition fill_buf (buf out : list Z) : D (list Z) :=
  if (length out <=? length buf)%nat then mret (out ++ drop (length out) buf) else fail F_pointer.

Definition readdir (d : nat) : D (option Z) :=
  t ← get_dir d;
  fd ← fd_get (dir_fd t);
  match fd with
  | None => set_error_number (- DFS_STATUS_EBADF);; mret None
  | Some _ =>
      cur ←
        (if negb (dir_num t =? 0) then
           n ← d_reclen (dir_buf t) (dir_cur t);
           put_dir d (mk_dir (dir_fd t) (dir_buf t) (dir_num t) (dir_cur t + n));;
           mret (dir_cur t + n)
         else mret (dir_cur t));
      if (dir_num t =? 0) || (dir_num t <=? cur) then
        '(result, out) ← dfs_file_getdents operations fd (Z.of_nat DIR_BUF - 1);
        buf ← fill_buf (dir_buf t) out;
        if result <=? 0 then
          put_dir d (mk_dir (dir_fd t) buf (dir_num t) cur);;
          fd_put fd;; set_error_number result;; mret None
        else
          put_dir d (mk_dir (dir_fd t) buf result 0);;
          fd_put fd;; mret (Some 0)
      else fd_put fd;; mret (Some cur)
  end.

Definition telldir (d : nat) : D Z :=
  t ← get_dir d;
  fd ← fd_get (dir_fd t);
  match fd with
  | None => set_error_number (- DFS_STATUS_EBADF);; mret 0
  | Some r =>
      f ← get_fd r;
      let result := s32 (fd_pos f - dir_num t + dir_cur t) in
      fd_put fd;;
      mret result
  end.

Definition seekdir (d : nat) (offset : Z) : D unit :=
  t ← get_dir d;
  fd ← fd_get (dir_fd t);
  match fd with
  | None => set_error_number (- DFS_STATUS_EBADF)
  | Some _ =>
      result ← dfs_file_lseek operations fd offset;
      (if 0 <=? result then put_dir d (mk_dir (dir_fd t) (dir_buf t) 0 0) else mret tt);;
      fd_put fd
  end.

Definition rewinddir (d : nat) : D unit :=
  t ← get_dir d;
  fd ← fd_get (dir_fd t);
  match fd with
  | None => set_error_number (- DFS_STATUS_EBADF)
  | Some _ =>
      result ← dfs_file_lseek operations fd 0;
      (if 0 <=? result then put_dir d (mk_dir (dir_fd t) (dir_buf t) 0 0) else mret tt);;
      fd_put fd
  end.

Definition closedir (d : nat) : D Z :=
  t ← get_dir d;
  fd ← fd_get (dir_fd t);
  match fd with
  | None => failed (- DFS_STATUS_EBADF)
  | Some _ =>
      result ← dfs_file_close operations fd;
      fd_put fd;;
      fd_put fd;;
      free_dir d;;
      if result <? 0 then failed result else mret 0
  end.

(** ** The working directory *)

(** [strncpy] fills the array; with no room for the end of the string it leaves none. *)
Definition chdir (path : option (list Z)) : D Z :=
  match path with
  | None => dfs_lock;; working_directory_string;; dfs_unlock;; mret 0
  | Some path =>
      if (DFS_PATH_MAX <? length path)%nat then failed (- DFS_STATUS_ENOTDIR)
      else
        fullpath ← dfs_normalize_path None path;
        match fullpath with
        | None => failed (- DFS_STATUS_ENOTDIR)
        | Some p =>
            dfs_lock;;
            d ← opendir p;
            match d with
            | None => free_memory fullpath;; dfs_unlock;; mret (-1)
            | Some d =>
                closedir d;;
                modify (set_working_directory (take DFS_PATH_MAX p));;
                free_memory fullpath;;
                dfs_unlock;;
                mret 0
            end
        end
  end.

(** What [rt_strncpy] leaves in the buffer of [size] bytes: no more than the array is read. *)
Definition getcwd (size : Z) : D (list Z) :=
  w ← gets working_directory;
  if (length w <? Z.to_nat size)%nat && (DFS_PATH_MAX <=? length w)%nat then fail F_pointer
  else mret (take (Z.to_nat size) (w ++ replicate (Z.to_nat size - length w) 0)).
End Posix.
