(* ===== verification/DfsInv.v ===== *)
(** The invariant of the virtual file system and what each function of [Dfs] does to it.

    A descriptor is free (all zero) or open: valid, with one reference, a path and a mounted
    file system.  The allocated strings and streams are exactly those that the tables own, so
    that nothing leaks.  The functions of the file systems are assumed to return, and to leave
    the fields of a descriptor that belong to the virtual file system alone ([FileSystems]). *)

From Stdlib Require Import ZArith Lia.
From stdpp Require Import numbers base gmap list.
From S2P Require Import Prelude DfsPath Dfs DfsPosix.
Local Open Scope Z_scope.

(** What the file systems may not change in a descriptor. *)
Definition same_fd (d d' : dfs_fd) : Prop :=
  magic d' = magic d ∧ ref_count d' = ref_count d ∧ fd_path d' = fd_path d ∧ fd_fs d' = fd_fs d.
Definition same_fs (e e' : dfs_filesystem) : Prop :=
  fs_path e' = fs_path e ∧ fs_ops e' = fs_ops e ∧ dev_id e' = dev_id e.

(** What the virtual file system relies on. *)
Class FileSystems {W} (devices : Devices W) (operations : nat → dfs_filesystem_operation W) := {
  law_find n w : wp (rt_device_find n) w (λ _ _, True);
  law_dev_open d w : wp (rt_device_open d) w (λ _ _, True);
  law_dev_close d w : wp (rt_device_close d) w (λ _ _, True);
  law_mount o f e rw data w : op_mount (operations o) = Some f → wp (f e rw data) w (λ r _, same_fs e r.2);
  law_unmount o f e w : op_unmount (operations o) = Some f → wp (f e) w (λ r _, same_fs e r.2);
  law_mkfs o f d w : op_mkfs (operations o) = Some f → wp (f d) w (λ _ _, True);
  law_statfs o f e w : op_statfs (operations o) = Some f → wp (f e) w (λ _ _, True);
  law_open o f e d w :
    op_open (operations o) = Some f → is_Some (fd_path d) → wp (f e d) w (λ r _, same_fd d r.2);
  law_close o f e d w : op_close (operations o) = Some f → wp (f e d) w (λ r _, same_fd d r.2);
  law_ioctl o f e d cmd a w : op_ioctl (operations o) = Some f → wp (f e d cmd a) w (λ r _, same_fd d r.2);
  law_read o f e d n w : op_read (operations o) = Some f → wp (f e d n) w (λ r _, same_fd d r.2);
  law_write o f e d b w : op_write (operations o) = Some f → wp (f e d b) w (λ r _, same_fd d r.2);
  law_flush o f e d w : op_flush (operations o) = Some f → wp (f e d) w (λ r _, same_fd d r.2);
  law_lseek o f e d p w : op_lseek (operations o) = Some f → wp (f e d p) w (λ r _, same_fd d r.2);
  law_getdents o f e d n w :
    op_getdents (operations o) = Some f →
    wp (f e d n) w (λ r _, same_fd d r.2 ∧ Z.of_nat (length r.1.2) <= n);
  law_unlink o f e p w : op_unlink (operations o) = Some f → wp (f e p) w (λ _ _, True);
  law_stat o f e p w : op_stat (operations o) = Some f → wp (f e p) w (λ _ _, True);
  law_rename o f e p q w : op_rename (operations o) = Some f → wp (f e p q) w (λ _ _, True)
}.

(** Closing a file does not fail.  Where the code ignores that it does, the path is lost. *)
Definition closes_succeed {W} (operations : nat → dfs_filesystem_operation W) : Prop :=
  ∀ o f e d w, op_close (operations o) = Some f → wp (f e d) w (λ r _, 0 <= r.1).

(** ** The invariant *)

Definition mounted (e : dfs_filesystem) : Prop := is_Some (fs_path e) ∧ is_Some (fs_ops e).
Definition mount_ok (e : dfs_filesystem) : Prop := e = zero_fs ∨ mounted e.

Definition on_mount (t : list dfs_filesystem) (d : dfs_fd) : Prop :=
  ∃ i e, fd_fs d = Some i ∧ t !! i = Some e ∧ mounted e.
Definition opened (t : list dfs_filesystem) (d : dfs_fd) : Prop :=
  magic d = DFS_FD_MAGIC ∧ ref_count d = 1 ∧ is_Some (fd_path d) ∧ on_mount t d.
Definition fd_ok (t : list dfs_filesystem) (d : dfs_fd) : Prop := d = zero_fd ∨ opened t d.

Definition owned {A} (p : option A) : Z := match p with Some _ => 1 | None => 0 end.
Definition total {A} (f : A → Z) (l : list A) : Z := foldr (λ a n, f a + n) 0 l.

(** [held]: allocations that a call in progress has not given back yet. *)
Record dfs_inv {W} (held : Z) (s : dfs W) : Prop := {
  ok_types : length (filesystem_operation_table s) = DFS_FILESYSTEM_TYPES_MAX;
  ok_mounts : length (filesystem_table s) = DFS_FILESYSTEMS_MAX;
  ok_fds : length (fd_table s) = DFS_FD_MAX;
  ok_mount : Forall mount_ok (filesystem_table s);
  ok_fd : Forall (fd_ok (filesystem_table s)) (fd_table s);
  ok_live : live s = total (owned ∘ fd_path) (fd_table s) + total (owned ∘ fs_path) (filesystem_table s)
                     + Z.of_nat (size (dirs s)) + held;
  ok_cwd : cstr (working_directory s) ∧ (length (working_directory s) < DFS_PATH_MAX)%nat
}.
Notation dfs_ok := (dfs_inv 0).

Lemma total_insert {A} (f : A → Z) l i a a' :
  l !! i = Some a → total f (<[i := a']> l) = total f l + f a' - f a.
Proof.
  revert i. induction l as [|b l IH]; intros [|i]; [done|done| |].
  - intros [= ->]. cbn [total foldr insert list_insert]. lia.
  - intros H. change (f b + total f (<[i := a']> l) = f b + total f l + f a' - f a). rewrite (IH i) by done. lia.
Qed.

Section Frames.
Context {W : Type}.
Implicit Types s : dfs W.

(** Everything but the descriptors and the count of allocations is kept. *)
Record keeps s s' : Prop := {
  keeps_types : filesystem_operation_table s' = filesystem_operation_table s;
  keeps_mounts : filesystem_table s' = filesystem_table s;
  keeps_cwd : working_directory s' = working_directory s;
  keeps_lock : fslock s' = fslock s;
  keeps_dirs : dirs s' = dirs s
}.

Definition at_fd (r : fdref) (d : dfs_fd) s : Prop :=
  match r with Entry i => fd_table s !! i = Some d | Stack => local_fd s = d end.

(** The descriptor [r] becomes [d'] and [n] more allocations are live. *)
Record touch (r : fdref) (d' : dfs_fd) (n : Z) s s' : Prop := {
  touch_keeps : keeps s s';
  touch_fd : match r with
             | Entry i => fd_table s' = <[i := d']> (fd_table s)
             | Stack => fd_table s' = fd_table s ∧ local_fd s' = d'
             end;
  touch_live : live s' = live s + n
}.

(** No descriptor changes. *)
Record quiet (n : Z) s s' : Prop := {
  quiet_keeps : keeps s s';
  quiet_fds : fd_table s' = fd_table s;
  quiet_local : local_fd s' = local_fd s;
  quiet_live : live s' = live s + n
}.

#[global] Instance keeps_refl : Reflexive keeps.
Proof. done. Qed.
#[global] Instance keeps_trans : Transitive keeps.
Proof. intros x y z [] []. split; congruence. Qed.

Lemma quiet_refl s : quiet 0 s s.
Proof. split; try done. lia. Qed.

Lemma quiet_trans n m k s s1 s2 : quiet n s s1 → quiet m s1 s2 → k = n + m → quiet k s s2.
Proof. intros [? ? ? ?] [? ? ? ?] ->. split; [by etrans|congruence|congruence|lia]. Qed.

Lemma at_quiet r d n s s' : at_fd r d s → quiet n s s' → at_fd r d s'.
Proof. intros H [_ E E' _]. destruct r; cbn in *; congruence. Qed.

Lemma at_touch r d d' n s s' : at_fd r d s → touch r d' n s s' → at_fd r d' s'.
Proof.
  intros H [_ E _]. destruct r as [i|]; cbn in *; [|by destruct E].
  rewrite E. apply list_lookup_insert_eq. by eapply lookup_lt_Some.
Qed.

Lemma touch_trans r d1 d2 n m k s s1 s2 :
  touch r d1 n s s1 → touch r d2 m s1 s2 → k = n + m → touch r d2 k s s2.
Proof.
  intros [? E ?] [? E' ?] ->. split; [by etrans| |lia].
  destruct r; [|destruct E, E'; split; congruence]. by rewrite E', E, list_insert_insert_eq.
Qed.

Lemma touch_quiet r d n m k s s1 s2 : touch r d n s s1 → quiet m s1 s2 → k = n + m → touch r d k s s2.
Proof.
  intros [? E ?] [? ? ? ?] ->. split; [by etrans| |lia]. destruct r; [congruence|destruct E; split; congruence].
Qed.

Lemma quiet_touch r d n m k s s1 s2 : quiet n s s1 → touch r d m s1 s2 → k = n + m → touch r d k s s2.
Proof.
  intros [? E E' ?] [? E2 ?] ->. split; [by etrans| |lia]. destruct r; [congruence|destruct E2; split; congruence].
Qed.

(** ** The invariant across a change *)

Lemma ok_quiet_held n held s s' : dfs_inv held s → quiet n s s' → dfs_inv (held + n) s'.
Proof.
  intros [? ? ? ? ? ? ?] [[K1 K2 K3 K4 K5] E _ L]. split; rewrite ?K1, ?K2, ?K3, ?E, ?K5, ?L; try done. lia.
Qed.

Lemma ok_quiet held s s' : dfs_inv held s → quiet 0 s s' → dfs_inv held s'.
Proof. intros H Hq. rewrite <- (Z.add_0_r held). by eapply ok_quiet_held. Qed.

Lemma ok_touch_held held held' s s' i d d' n :
  dfs_inv held s → at_fd (Entry i) d s → touch (Entry i) d' n s s' → fd_ok (filesystem_table s) d' →
  held' = held + n - (owned (fd_path d') - owned (fd_path d)) → dfs_inv held' s'.
Proof.
  intros [? ? ? ? ? ? ?] Hd [[K1 K2 K3 K4 K5] E L] Hok ->. cbn in Hd, E.
  split; rewrite ?K1, ?K2, ?K3, ?E, ?K5, ?L; try done.
  - by rewrite length_insert.
  - by apply Forall_insert.
  - erewrite total_insert by done. cbn. lia.
Qed.

Lemma ok_touch held s s' i d d' n :
  dfs_inv held s → at_fd (Entry i) d s → touch (Entry i) d' n s s' → fd_ok (filesystem_table s) d' →
  n = owned (fd_path d') - owned (fd_path d) → dfs_inv held s'.
Proof.
  intros ? ? ? ? E. eapply ok_touch_held; [done..|lia].
Qed.

Lemma ok_entry held s i d : dfs_inv held s → at_fd (Entry i) d s → fd_ok (filesystem_table s) d.
Proof. intros H Hd. by eapply (Forall_lookup_1 _ _ _ _ (ok_fd _ _ H)). Qed.

(** ** Streams *)

Lemma ok_dirs held ds s :
  dfs_inv held s → dfs_inv (held + Z.of_nat (size (dirs s)) - Z.of_nat (size ds)) (set_dirs ds s).
Proof. intros [? ? ? ? ? ? ?]. split; try done. cbn [live set_dirs fd_table filesystem_table dirs]. lia. Qed.

Lemma ok_new_dir held k v s :
  dfs_inv held s → dirs s !! k = None → dfs_inv (held - 1) (set_dirs (<[k := v]> (dirs s)) s).
Proof.
  intros H Hk. replace (held - 1) with (held + Z.of_nat (size (dirs s)) - Z.of_nat (size (<[k := v]> (dirs s)))).
  - by apply ok_dirs.
  - rewrite map_size_insert_None by done. lia.
Qed.

Lemma ok_put_dir held k v s :
  dfs_inv held s → is_Some (dirs s !! k) → dfs_inv held (set_dirs (<[k := v]> (dirs s)) s).
Proof.
  intros H [w Hk]. replace held with (held + Z.of_nat (size (dirs s)) - Z.of_nat (size (<[k := v]> (dirs s)))).
  - by apply ok_dirs.
  - rewrite (map_size_insert_Some k v (dirs s)) by (by exists w). lia.
Qed.

Lemma ok_free_dir held k v s :
  dfs_inv held s → dirs s !! k = Some v → dfs_inv (held + 1) (set_dirs (delete k (dirs s)) s).
Proof.
  intros H Hk. replace (held + 1) with (held + Z.of_nat (size (dirs s)) - Z.of_nat (size (delete k (dirs s)))).
  - by apply ok_dirs.
  - assert (size (dirs s) ≠ 0%nat) by (intros E%map_size_empty_inv; by rewrite E in Hk).
    rewrite (map_size_delete_Some k (dirs s)) by (by exists v). lia.
Qed.

(** A change of a descriptor, seen from other streams. *)
Lemma touch_dirs ds r d n s s' : touch r d n s s' → touch r d n (set_dirs ds s) (set_dirs ds s').
Proof. intros [[] ? ?]. by split. Qed.
Lemma quiet_dirs ds n s s' : quiet n s s' → quiet n (set_dirs ds s) (set_dirs ds s').
Proof. intros [[] ? ? ?]. by split. Qed.
End Frames.

(** ** The functions *)

Section Functions.
Context {W : Type} {devices : Devices W} {operations : nat → dfs_filesystem_operation W}.
Implicit Types s : dfs W.

Lemma wp_get_fd r d s Q : at_fd r d s → Q d s → wp (get_fd r) s Q.
Proof. destruct r; cbn; intros H HQ; unfold get_fd; wp_steps; [done|by rewrite H]. Qed.

Lemma wp_put_fd_allocs r d d' s Q :
  at_fd r d s → (∀ s', touch r d' 0 s s' → allocs s' = allocs s → Q tt s') → wp (put_fd r d') s Q.
Proof.
  intros H HQ. destruct r as [i|]; unfold put_fd; cbn [at_fd] in H.
  - wp_step. eapply (wp_get_fd (Entry i)); [done|]. wp_step. apply HQ; [|done]. split; [done|done|cbn; lia].
  - wp_step. apply HQ; [|done]. split; [done|done|cbn; lia].
Qed.

Lemma wp_put_fd r d d' s Q : at_fd r d s → (∀ s', touch r d' 0 s s' → Q tt s') → wp (put_fd r d') s Q.
Proof. intros H HQ. eapply wp_put_fd_allocs; eauto. Qed.

Lemma wp_upd_fd r d f s Q : at_fd r d s → (∀ s', touch r (f d) 0 s s' → Q tt s') → wp (upd_fd r f) s Q.
Proof. intros H HQ. unfold upd_fd. wp_step. eapply wp_get_fd; [done|]. by eapply wp_put_fd. Qed.

Lemma wp_set_errno e s Q : (∀ s', quiet 0 s s' → Q tt s') → wp (set_error_number e) s Q.
Proof. intros HQ. unfold set_error_number. wp_step. apply HQ. split; [done|done|done|cbn; lia]. Qed.

Lemma wp_on_world {A} (m : M W A) s P Q :
  wp m (world s) P → (∀ a w s', P a w → quiet 0 s s' → allocs s' = allocs s → Q a s') → wp (on_world m) s Q.
Proof.
  intros H HQ. unfold on_world. wp_step. eapply wp_mono; [exact H|]. intros a w Ha. eapply HQ; [done| |done].
  split; [done|done|done|cbn; lia].
Qed.

Lemma wp_malloc s Q :
  (∀ b s', quiet (if (b : bool) then 1 else 0) s s' → allocs s' = tail (allocs s) →
     (allocs s !! 0%nat ≠ Some false → b = true) → Q b s') →
  wp take_memory s Q.
Proof.
  intros HQ. unfold take_memory. wp_step. wp_step. destruct (allocs s) as [|[] l] eqn:E; cbv iota; wp_steps;
    apply HQ; cbn; rewrite ?E; try done; split; try done; cbn; lia.
Qed.

Lemma wp_free {A} (p : option A) s Q :
  (∀ s', quiet (- owned p) s s' → allocs s' = allocs s → Q tt s') → wp (free_memory p) s Q.
Proof. intros HQ. unfold free_memory; destruct p; wp_step; apply HQ; try done; split; try done; cbn; lia. Qed.

Lemma wp_strdup p s Q :
  (∀ r s', quiet (owned r) s s' → r = None ∨ r = Some p → (allocs s !! 0%nat ≠ Some false → r = Some p) → Q r s') →
  wp (copy_string p) s Q.
Proof.
  intros HQ. unfold copy_string. wp_step. apply wp_malloc. intros b s' Hs _ Hb. wp_step. apply HQ; [by destruct b| |].
  - destruct b; auto.
  - intros H. by rewrite Hb.
Qed.

(** ** Descriptors *)

Definition put_down (d : dfs_fd) : dfs_fd :=
  if ref_count d - 1 =? 0 then zero_fd else set_ref_count (ref_count d - 1) d.

Lemma wp_fd_put r d s Q : at_fd r d s → (∀ s', touch r (put_down d) 0 s s' → Q tt s') → wp (fd_put (Some r)) s Q.
Proof.
  intros H HQ. unfold fd_put, dfs_lock, dfs_unlock. cbn [deref]. wp_step. apply wp_assert; [by rewrite bool_decide_true|].
  wp_step. wp_step. wp_step. wp_step. wp_step.
  eapply (wp_upd_fd _ d); [by destruct r|]. intros s1 H1.
  assert (at_fd r (set_ref_count (ref_count d - 1) d) s1) as Ha by (eapply at_touch; [|exact H1]; by destruct r).
  wp_step. eapply wp_get_fd; [exact Ha|]. cbn [ref_count set_ref_count]. unfold put_down in HQ.
  assert (∀ s2 d2, touch r d2 0 s1 s2 → touch r d2 0 s (set_fslock (fslock s2 - 1) s2)) as Hend.
  { intros s2 d2 H2. destruct (touch_trans _ _ _ _ _ 0 _ _ _ H1 H2 eq_refl) as [[? ? ? HL ?] E L].
    split; [split; cbn in *; try done; lia|destruct r; [done|by destruct E]|done]. }
  destruct (ref_count d - 1 =? 0); wp_step.
  - eapply wp_put_fd; [exact Ha|]. intros s2 H2. wp_step. by apply HQ, Hend.
  - wp_step. wp_step. apply HQ, Hend. split; [done| |lia].
    destruct r; cbn in *; [|done]. destruct H1 as [_ -> _]. by rewrite list_insert_insert_eq.
Qed.

Lemma wp_fd_get_entry i d s Q :
  (i < DFS_FD_MAX)%nat → at_fd (Entry i) d s → magic d = DFS_FD_MAGIC →
  (∀ s', touch (Entry i) (set_ref_count (ref_count d + 1) d) 0 s s' → allocs s' = allocs s → Q (Some (Entry i)) s') →
  wp (fd_get (Z.of_nat i)) s Q.
Proof.
  intros Hi H Hm HQ. unfold fd_get, dfs_lock, dfs_unlock.
  rewrite (proj2 (Z.ltb_ge _ _)), (proj2 (Z.leb_gt _ _)) by lia. cbn [orb]. cbv iota. rewrite Nat2Z.id. wp_step. wp_step.
  wp_step. eapply wp_get_fd; [exact H|]. rewrite Hm, Z.eqb_refl. cbn [negb]. cbv iota. wp_step.
  unfold upd_fd. wp_step. eapply (wp_get_fd _ d); [exact H|]. unfold put_fd. wp_step. eapply wp_get_fd; [exact H|].
  wp_step. wp_step. wp_step. wp_step. apply HQ; [|done]. split; [split; cbn; try done; lia|done|cbn; lia].
Qed.

Lemma wp_fd_get s fd Q :
  length (fd_table s) = DFS_FD_MAX →
  (∀ s', quiet 0 s s' → Q None s') →
  (∀ i d s', fd = Z.of_nat i → at_fd (Entry i) d s → magic d = DFS_FD_MAGIC →
     touch (Entry i) (set_ref_count (ref_count d + 1) d) 0 s s' → Q (Some (Entry i)) s') →
  wp (fd_get fd) s Q.
Proof.
  intros Hlen Hn HQ. destruct (decide (fd < 0 ∨ Z.of_nat DFS_FD_MAX <= fd)) as [Ho|Ho].
  { unfold fd_get. replace (_ || _) with true by (symmetry; apply orb_true_iff; destruct Ho; [left|right]; lia).
    wp_step. apply Hn, quiet_refl. }
  assert (∃ i, fd = Z.of_nat i ∧ (i < DFS_FD_MAX)%nat) as (i & -> & Hi) by (exists (Z.to_nat fd); lia).
  destruct (lookup_lt_is_Some_2 (fd_table s) i) as [d Hd]; [lia|].
  destruct (decide (magic d = DFS_FD_MAGIC)) as [Hm|Hm].
  { eapply wp_fd_get_entry; [done|exact Hd|done|]. intros s' Hs _. by eapply HQ. }
  unfold fd_get, dfs_lock, dfs_unlock. rewrite (proj2 (Z.ltb_ge _ _)), (proj2 (Z.leb_gt _ _)) by lia. cbn [orb].
  rewrite Nat2Z.id. wp_step. wp_step. wp_step. eapply (wp_get_fd (Entry i)); [exact Hd|].
  rewrite (proj2 (Z.eqb_neq _ _)) by done. cbn [negb]. wp_step. wp_step. wp_step. apply Hn.
  split; [split; cbn; try done; lia|done|done|cbn; lia].
Qed.

(** The first descriptor that is not in use. *)
Lemma wp_fd_new s Q :
  length (fd_table s) = DFS_FD_MAX →
  (Forall (λ d, 0 < ref_count d) (fd_table s) → ∀ s', quiet 0 s s' → allocs s' = allocs s → Q (-1) s') →
  (∀ i d s', fd_table s !! i = Some d → ref_count d <= 0 → Forall (λ d, 0 < ref_count d) (take i (fd_table s)) →
     (i < DFS_FD_MAX)%nat →
     touch (Entry i) (set_magic DFS_FD_MAGIC (set_ref_count 1 d)) 0 s s' → allocs s' = allocs s → Q (Z.of_nat i) s') →
  wp fd_new s Q.
Proof.
  intros Hlen Hn HQ. unfold fd_new, dfs_lock, dfs_unlock. wp_step. wp_step. wp_step. wp_step. wp_step.
  cbn [fd_table set_fslock]. destruct (list_find _ (fd_table s)) as [[i d]|] eqn:E.
  - apply list_find_Some in E as (Hd & Hr & Hl). wp_step. unfold upd_fd. wp_step.
    eapply (wp_get_fd (Entry i) d); [exact Hd|]. unfold put_fd. wp_step. eapply (wp_get_fd (Entry i)); [exact Hd|].
    wp_step. wp_step. wp_step. wp_step. wp_step.
    apply (HQ i d); [done|done| |apply lookup_lt_Some in Hd; lia| |done].
    + apply Forall_lookup. intros j x [Hx Hj]%lookup_take_Some. specialize (Hl _ _ Hx Hj). lia.
    + split; [split; cbn; try done; lia|done|cbn; lia].
  - apply list_find_None in E. wp_step. wp_step. wp_step. wp_step. apply Hn; [|split; [split; cbn; try done; lia|done|done|cbn; lia]|done].
    eapply Forall_impl; [exact E|]. intros d Hd. cbn in Hd. lia.
Qed.

(** ** Paths *)

Definition cwd_ok s : Prop := cstr (working_directory s) ∧ (length (working_directory s) < DFS_PATH_MAX)%nat.

(** The allocation number [k] of the call gets its memory. *)
Definition gets_memory (k : nat) s : Prop := allocs s !! k ≠ Some false.

Lemma wp_normalize s path r Q :
  cwd_ok s → cstr path → resolved (full_path (working_directory s) path) = Ok r →
  (∀ r' s', quiet (owned r') s s' → allocs s' = tail (allocs s) → r' = None ∨ r' = r →
     (gets_memory 0 s → r' = r) → Q r' s') →
  wp (dfs_normalize_path None path) s Q.
Proof.
  intros [Hw Hlen] Hp Hr HQ. unfold dfs_normalize_path, working_directory_string. wp_step. wp_step. wp_step.
  rewrite (proj2 (Nat.ltb_lt _ _)) by done. wp_step. wp_step.
  apply wp_malloc. intros [] s1 H1 Ha Hb; cbv iota.
  - wp_step. unfold wp at 1. fold (full_path (working_directory s) path).
    rewrite normalize_path_resolved, Hr by by apply cstr_full_path. destruct r as [p|]; [apply HQ; auto|].
    wp_step. apply wp_free. intros s2 H2 Ha2. wp_step. apply HQ; [|by rewrite Ha2|by left|done].
    by eapply quiet_trans.
  - wp_step. apply HQ; [done|done|by left|]. intros Hm. by specialize (Hb Hm).
Qed.

(** ** Mounted file systems *)

Lemma lookup_loop_some path (t0 t : list dfs_filesystem) i fs n :
  (∀ k e, t !! k = Some e → t0 !! (i + k)%nat = Some e) →
  match fs with
  | Some j => ∃ e p, t0 !! j = Some e ∧ fs_path e = Some p ∧ is_Some (fs_ops e) ∧ prefix_of p path = true
  | None => True
  end →
  match lookup_loop path t i fs n with
  | Some j => ∃ e p, t0 !! j = Some e ∧ fs_path e = Some p ∧ is_Some (fs_ops e) ∧ prefix_of p path = true
  | None => True
  end.
Proof.
  revert i fs n. induction t as [|e t IH]; intros i fs n Ht Hfs; [done|]. cbn [lookup_loop].
  assert (∀ k e', t !! k = Some e' → t0 !! (S i + k)%nat = Some e') as Ht'.
  { intros k e' H. rewrite <- (Ht (S k) e') by done. f_equal. lia. }
  destruct (fs_path e) as [p|] eqn:Ep; [|by apply IH]. destruct (fs_ops e) as [o|] eqn:Eo; [|by apply IH].
  destruct (_ || _) eqn:E; [by apply IH|]. apply IH; [done|]. apply orb_false_iff in E as [_ E].
  apply negb_false_iff, andb_prop in E as [E _]. exists e, p. rewrite Eo. split_and!; [|done|done|done].
  rewrite <- (Ht 0%nat e) by done. f_equal. lia.
Qed.

Lemma wp_lookup path s Q :
  (∀ fs s', quiet 0 s s' → allocs s' = allocs s → fs = lookup_loop path (filesystem_table s) 0 None 0 →
     match fs with
     | Some i => ∃ e p o, filesystem_table s !! i = Some e ∧ fs_path e = Some p ∧ fs_ops e = Some o ∧
                   take (length p) path = p
     | None => True
     end → Q fs s') →
  wp (dfs_filesystem_lookup path) s Q.
Proof.
  intros HQ. unfold dfs_filesystem_lookup, dfs_lock, dfs_unlock. wp_steps. apply HQ; [|done|done|].
  - split; [split; cbn; try done; lia|done|done|cbn; lia].
  - pose proof (lookup_loop_some path (filesystem_table s) (filesystem_table s) 0 None 0) as H.
    cbn [filesystem_table set_fslock]. destruct (lookup_loop _ _ _ _ _) as [j|]; [|done].
    destruct H as (e & p & ? & ? & [o Ho] & Hp); [done|done|]. exists e, p, o. split_and!; try done.
    by apply bool_decide_eq_true in Hp.
Qed.

Lemma wp_get_fs i e s Q : filesystem_table s !! i = Some e → Q e s → wp (get_fs i) s Q.
Proof. intros H HQ. unfold get_fs. wp_steps. done. Qed.

Lemma wp_ops_of e o s Q : fs_ops e = Some o → Q (operations o) s → wp (ops_of operations e) s Q.
Proof. intros H HQ. unfold ops_of. rewrite H. wp_steps. done. Qed.

(** What [dfs_subdir] finds of a path under the mount point [m]. *)
Definition subdir (m path : list Z) : option (list Z) :=
  if Nat.eqb (length m) (length path) then None
  else if bool_decide (path !! length m ≠ Some slash ∧ m ≠ []) then Some (drop (pred (length m)) path)
  else Some (drop (length m) path).

Lemma wp_sub_path e m path s Q :
  fs_path e = Some m → take (length m) path = m → Q (subdir m path) s → wp (sub_path e path) s Q.
Proof.
  intros He Hp HQ. unfold sub_path, dfs_subdir. rewrite He. wp_step. wp_step. unfold subdir in HQ.
  assert (length m <= length path)%nat by (rewrite <- Hp at 1; rewrite length_take; lia).
  destruct (Nat.eqb_spec (length m) (length path)); [by wp_step|]. wp_step.
  destruct (lookup_lt_is_Some_2 path (length m)) as [c Hc]; [lia|].
  rewrite lookup_app_l, Hc in * by lia. wp_step.
  destruct (Z.eqb_spec c slash) as [->|Hn]; cbn [negb andb].
  - rewrite bool_decide_false in HQ by naive_solver. by wp_step.
  - destruct m as [|x m]; cbn [length Nat.eqb negb].
    + rewrite bool_decide_false in HQ by naive_solver. by wp_step.
    + rewrite bool_decide_true in HQ by naive_solver. by wp_step.
Qed.
End Functions.

(** ** Files *)

Section Files.
Context {W : Type} {devices : Devices W} {operations : nat → dfs_filesystem_operation W}.
Context `{!FileSystems devices operations}.
Implicit Types s : dfs W.

Lemma same_fd_refl d : same_fd d d.
Proof. done. Qed.
Lemma same_fd_trans d1 d2 d3 : same_fd d1 d2 → same_fd d2 d3 → same_fd d1 d3.
Proof. intros (? & ? & ? & ?) (? & ? & ? & ?). split_and!; congruence. Qed.

(** An operation on an open descriptor changes no more than the file system may. *)
Definition keeps_fd {A} (m : M (dfs W) A) (r : fdref) : Prop :=
  ∀ d s Q, at_fd r d s → on_mount (filesystem_table s) d →
    (∀ a d' s', same_fd d d' → touch r d' 0 s s' → Q a s') → wp m s Q.

Lemma touch_id r d s : at_fd r d s → touch r d 0 s s.
Proof. intros H. split; [done| |lia]. destruct r; cbn in *; [by rewrite list_insert_id|done]. Qed.

Lemma wp_fs_of d s Q :
  on_mount (filesystem_table s) d →
  (∀ e o, filesystem_table s !! default 0%nat (fd_fs d) = Some e → fs_ops e = Some o → Q (e, operations o) s) →
  wp (fs_of operations d) s Q.
Proof.
  intros (i & e & Hi & He & _ & o & Ho) HQ. unfold fs_of. rewrite Hi in *. wp_step. wp_step. wp_step.
  eapply wp_get_fs; [done|]. wp_step. eapply wp_ops_of; [done|]. wp_step. eauto.
Qed.

(** The call of the file system, and the descriptor that it leaves. *)
Lemma wp_driver {A} (m : M W (A * dfs_fd)) r d s (k : A → dfs_fd → M (dfs W) A) Q :
  at_fd r d s → wp m (world s) (λ x _, same_fd d x.2) →
  (∀ a d' s', same_fd d d' → touch r d' 0 s s' → at_fd r d' s' → wp (k a d') s' Q) →
  wp ('(a, d) ← on_world m; put_fd r d;; k a d) s Q.
Proof.
  intros Hd Hm HQ. wp_step. eapply wp_on_world; [exact Hm|]. intros [a d'] w s1 Hs H1 _. wp_step.
  eapply wp_put_fd; [by eapply at_quiet|]. intros s2 H2. eapply HQ; [exact Hs| |].
  - by eapply quiet_touch.
  - eapply at_touch; [|exact H2]. by eapply at_quiet.
Qed.

Ltac start_op r d s HQ Hd Hm :=
  intros d s Q Hd Hm HQ; wp_step; eapply wp_get_fd; [exact Hd|].
Ltac refused HQ Hd := wp_step; eapply HQ; [apply same_fd_refl|by apply touch_id].

Lemma keeps_write r buf : keeps_fd (dfs_file_write operations (Some r) buf) r.
Proof.
  unfold dfs_file_write. start_op r d s HQ Hd Hm. wp_step. eapply wp_fs_of; [done|]. intros e o He Ho.
  destruct (op_write _) as [f|] eqn:E; [|refused HQ Hd].
  eapply wp_driver; [done|by eapply law_write|]. intros a d' s' ? ? ?. wp_step. by eapply HQ.
Qed.

Lemma keeps_flush r : keeps_fd (dfs_file_flush operations (Some r)) r.
Proof.
  unfold dfs_file_flush. start_op r d s HQ Hd Hm. wp_step. eapply wp_fs_of; [done|]. intros e o He Ho.
  destruct (op_flush _) as [f|] eqn:E; [|refused HQ Hd].
  eapply wp_driver; [done|by eapply law_flush|]. intros a d' s' ? ? ?. wp_step. by eapply HQ.
Qed.

Lemma keeps_ioctl r cmd a : keeps_fd (dfs_file_ioctl operations (Some r) cmd a) r.
Proof.
  unfold dfs_file_ioctl. start_op r d s HQ Hd Hm. destruct (negb _); [refused HQ Hd|].
  wp_step. eapply wp_fs_of; [done|]. intros e o He Ho.
  destruct (op_ioctl _) as [f|] eqn:E; [|refused HQ Hd].
  eapply wp_driver; [done|by eapply law_ioctl|]. intros x d' s' ? ? ?. wp_step. by eapply HQ.
Qed.

Lemma keeps_lseek r offset : keeps_fd (dfs_file_lseek operations (Some r) offset) r.
Proof.
  unfold dfs_file_lseek. intros d s Q Hd Hm HQ. wp_step. wp_step. wp_step. eapply wp_get_fd; [exact Hd|].
  destruct (fd_fs d) eqn:Ef; [|refused HQ Hd]. wp_step. eapply wp_fs_of; [done|]. intros e o He Ho.
  destruct (op_lseek _) as [f|] eqn:E; [|refused HQ Hd].
  eapply (wp_driver _ _ _ _ (λ result d, _)); [done|by eapply law_lseek|]. intros x d' s' Hs Ht Ha.
  destruct (0 <=? x); wp_step; [|wp_step; wp_step; by eapply HQ].
  eapply wp_upd_fd; [exact Ha|]. intros s2 H2. wp_step. eapply HQ; [|by eapply touch_trans]. done.
Qed.

Lemma keeps_read r len : keeps_fd (dfs_file_read operations (Some r) len) r.
Proof.
  unfold dfs_file_read. start_op r d s HQ Hd Hm. wp_step. eapply wp_fs_of; [done|]. intros e o He Ho.
  destruct (op_read _) as [f|] eqn:E; [|refused HQ Hd].
  wp_step. eapply wp_on_world; [by eapply law_read|]. intros [[x buf] d'] w s1 Hs H1 _. wp_step.
  eapply wp_put_fd; [by eapply at_quiet|]. intros s2 H2.
  assert (at_fd r d' s2) as Ha by (eapply at_touch; [|exact H2]; by eapply at_quiet).
  assert (touch r d' 0 s s2) as Ht by by eapply quiet_touch.
  destruct (x <? 0); wp_step; [|wp_step; wp_step; by eapply HQ].
  eapply wp_upd_fd; [exact Ha|]. intros s3 H3. wp_step. eapply HQ; [|by eapply touch_trans]. done.
Qed.

(** [readdir]'s buffer is long enough for what is read. *)
Lemma wp_getdents r d n s Q :
  at_fd r d s → on_mount (filesystem_table s) d → 0 <= n →
  (∀ a out d' s', same_fd d d' → touch r d' 0 s s' → Z.of_nat (length out) <= n → Q (a, out) s') →
  wp (dfs_file_getdents operations (Some r) n) s Q.
Proof.
  intros Hd Hm Hn HQ. unfold dfs_file_getdents. wp_step. eapply wp_get_fd; [exact Hd|].
  destruct (negb _); [wp_step; eapply HQ; [apply same_fd_refl|by apply touch_id|done]|].
  wp_step. eapply wp_fs_of; [done|]. intros e o He Ho.
  destruct (op_getdents _) as [f|] eqn:E; [|wp_step; eapply HQ; [apply same_fd_refl|by apply touch_id|done]].
  wp_step. eapply wp_on_world; [by eapply law_getdents|]. intros [[x buf] d'] w s1 [Hs Hl] H1 _. wp_step.
  eapply wp_put_fd; [by eapply at_quiet|]. intros s2 H2. wp_step. eapply HQ; [exact Hs| |exact Hl].
  by eapply quiet_touch.
Qed.

(** A file that is closed gives its path back; if it cannot be closed, all stays. *)
Lemma wp_file_close r d s Q :
  at_fd r d s → on_mount (filesystem_table s) d →
  (∀ a d' s', a < 0 → same_fd d d' → touch r d' 0 s s' → ¬ closes_succeed operations → Q a s') →
  (∀ a d' s', 0 <= a → same_fd d d' → touch r (set_fd_path None d') (- owned (fd_path d)) s s' → Q a s') →
  wp (dfs_file_close operations (Some r)) s Q.
Proof.
  intros Hd Hm Hbad Hgood. unfold dfs_file_close. wp_step. wp_step. wp_step. eapply wp_get_fd; [exact Hd|].
  wp_step. eapply wp_fs_of; [done|]. intros e o He Ho.
  assert (∀ a d' s', same_fd d d' → touch r d' 0 s s' → at_fd r d' s' → (a < 0 → ¬ closes_succeed operations) →
    wp (if a <? 0 then mret a else d ← get_fd r; free_memory (fd_path d);; upd_fd r (set_fd_path None);; mret a) s' Q) as Hrest.
  { intros a d' s' Hs Ht Ha Hc. destruct (Z.ltb_spec a 0); [wp_step; eauto|].
    wp_step. eapply wp_get_fd; [exact Ha|]. wp_step. apply wp_free. intros s2 H2 _. wp_step.
    eapply wp_upd_fd; [by eapply at_quiet|]. intros s3 H3. wp_step. eapply Hgood; [done|exact Hs|].
    eapply touch_trans; [eapply touch_quiet; [exact Ht|exact H2|reflexivity]|exact H3|].
    destruct Hs as (_ & _ & -> & _). lia. }
  wp_step. destruct (op_close _) as [f|] eqn:E.
  - wp_step. eapply (wp_on_world _ _ (λ x _, same_fd d x.2 ∧ (x.1 < 0 → ¬ closes_succeed operations))).
    { destruct (proj1 (wp_run _ _ _) (law_close o f e d (world s) E)) as (x & w & Hrun & Hs).
      unfold wp. rewrite Hrun. split; [done|]. intros Hx Hc. specialize (Hc o f e d (world s) E).
      unfold wp in Hc. rewrite Hrun in Hc. lia. }
    intros [a d'] w s1 [Hs Hc] H1 _. wp_step. eapply wp_put_fd; [by eapply at_quiet|]. intros s2 H2. wp_step.
    eapply Hrest; [exact Hs|by eapply quiet_touch|eapply at_touch; [|exact H2]; by eapply at_quiet|done].
  - wp_step. eapply Hrest; [apply same_fd_refl|by apply touch_id|done|lia].
Qed.

(** ** Opening *)

(** The path that the functions of the file system get. *)
Definition seen_as (o : dfs_filesystem_operation W) (m p : list Z) : list Z :=
  if full_flag o then p else default [slash] (subdir m p).

(** A descriptor in which [dfs_file_open] has opened the file at [p]. *)
Definition opens (t : list dfs_filesystem) (p : list Z) (d : dfs_fd) : Prop :=
  ∃ i e m o, lookup_loop p t 0 None 0 = Some i ∧ t !! i = Some e ∧ fs_path e = Some m ∧ fs_ops e = Some o ∧
    fd_fs d = Some i ∧ fd_path d = Some (seen_as (operations o) m p).

Lemma opens_on_mount t p d : opens t p d → on_mount t d.
Proof. intros (i & e & m & o & _ & He & Hm & Ho & Hf & _). exists i, e. split_and!; [done|done|split; [by exists m|by exists o]]. Qed.

(** The end of the function, behind the choice of the path. *)
Lemma wp_open_tail r d s e o flags Q :
  at_fd r d s → is_Some (fd_path d) →
  (∀ a d' s', a < 0 → magic d' = magic d → ref_count d' = ref_count d → fd_path d' = None →
     touch r d' (-1) s s' → Q a s') →
  (∀ d' s', same_fd d d' → touch r d' 0 s s' → Q 0 s') →
  wp (open_routine r e (operations o) flags) s Q.
Proof.
  intros Hd Hp Hbad Hgood. unfold open_routine.
  assert (∀ a d' s', a < 0 → same_fd d d' → touch r d' 0 s s' → at_fd r d' s' →
    wp (free_memory (fd_path d');; upd_fd r (set_fd_path None);; mret a) s' Q) as Hclear.
  { intros a d' s' Ha (E1 & E2 & E3 & E4) Ht Hat. wp_step. apply wp_free. intros s2 H2 _. wp_step.
    eapply wp_upd_fd; [by eapply at_quiet|]. intros s3 H3. wp_step. eapply (Hbad _ (set_fd_path None d')); [done|done|done|done|].
    eapply touch_trans; [eapply touch_quiet; [exact Ht|exact H2|reflexivity]|exact H3|].
    rewrite E3. destruct Hp as [p ->]. cbn. lia. }
  destruct (op_open _) as [f|] eqn:E.
  - wp_step. eapply wp_get_fd; [exact Hd|]. eapply wp_driver; [done|by eapply law_open|]. intros a d' s' Hs Ht Ha.
    destruct (Z.ltb_spec a 0); [by eapply Hclear|]. wp_step. eapply wp_upd_fd; [exact Ha|]. intros s2 H2.
    assert (at_fd r _ s2) as Ha2 by (eapply at_touch; [exact Ha|exact H2]).
    assert (touch r _ 0 s s2) as Ht2 by by eapply touch_trans.
    destruct (_ =? 0); wp_step.
    + wp_step. wp_step. eapply Hgood; [|exact Ht2]. done.
    + eapply wp_upd_fd; [exact Ha2|]. intros s3 H3. wp_step. eapply Hgood; [|by eapply touch_trans]. done.
  - wp_step. eapply wp_get_fd; [exact Hd|]. eapply Hclear; [done|apply same_fd_refl|by apply touch_id|done].
Qed.

Lemma wp_file_open r d s path flags res Q :
  at_fd r d s → cwd_ok s → cstr path → gets_memory 1 s →
  resolved (full_path (working_directory s) path) = Ok res →
  (∀ a d' s', a < 0 → magic d' = magic d → ref_count d' = ref_count d → fd_path d' = None ∨ d' = d →
     touch r d' 0 s s' → Q a s') →
  (∀ p d' s', res = Some p → magic d' = magic d → ref_count d' = ref_count d → opens (filesystem_table s) p d' →
     touch r d' 1 s s' → Q 0 s') →
  wp (dfs_file_open operations (Some r) path flags) s Q.
Proof.
  intros Hd Hc Hs Hm Hres Hbad Hgood. unfold dfs_file_open. wp_step.
  eapply wp_normalize; [done|done|done|]. intros [p|] s1 H1 Ha1 Hr _; cycle 1.
  { wp_step. eapply (Hbad _ d); [done|done|done|by right|]. eapply quiet_touch; [exact H1|apply touch_id; by eapply at_quiet|done]. }
  destruct Hr as [|<-]; [done|]. wp_step. apply wp_lookup. intros fs s2 H2 Ha2 Hfs Hl.
  assert (quiet 1 s s2) as H12 by by eapply quiet_trans.
  assert (at_fd r d s2) as Hd2 by by eapply at_quiet.
  assert (filesystem_table s1 = filesystem_table s) as Et1 by apply H1.
  assert (filesystem_table s2 = filesystem_table s) as Et2 by apply H12. rewrite Et1 in *.
  destruct fs as [i|]; cycle 1.
  { wp_step. apply wp_free. intros s3 H3 _. wp_step. eapply (Hbad _ d); [done|done|done|by right|].
    eapply quiet_touch; [eapply quiet_trans; [exact H12|exact H3|reflexivity]| |done].
    apply touch_id; by eapply at_quiet. }
  destruct Hl as (e & m & o & He & Hem & Heo & Hpre). wp_step. unfold upd_fd at 1. wp_step.
  eapply wp_get_fd; [exact Hd2|]. eapply wp_put_fd_allocs; [exact Hd2|]. intros s3 H3 Ha3.
  set (d3 := set_fd_pos _ _) in H3. assert (at_fd r d3 s3) as Hd3 by by eapply at_touch.
  assert (filesystem_table s3 = filesystem_table s) as Et3 by (transitivity (filesystem_table s2); [apply H3|done]).
  assert (touch r d3 1 s s3) as Ht3 by by eapply quiet_touch.
  wp_step. eapply wp_get_fs; [by rewrite Et3|]. wp_step. eapply wp_ops_of; [done|]. wp_step.
  set (d4 := set_fd_path (Some (seen_as (operations o) m p)) d3).
  assert (∀ s4, touch r d4 1 s s4 → wp (open_routine r e (operations o) flags) s4 Q) as Hrest.
  { intros s4 H4. eapply wp_open_tail; [eapply at_touch; [exact Hd|exact H4]|done| |].
    - intros a d' s' Hneg E1 E2 E3 Ht. eapply (Hbad a d'); [done|done|done|by left|by eapply touch_trans].
    - intros d' s' (E1 & E2 & E3 & E4) Ht. eapply (Hgood p d'); try done; [|by eapply touch_trans].
      exists i, e, m, o. split_and!; done. }
  unfold seen_as in d4. destruct (full_flag (operations o)).
  - eapply wp_upd_fd; [exact Hd3|]. intros s4 H4. apply Hrest. by eapply touch_trans.
  - wp_step. eapply wp_sub_path; [done|done|]. wp_step. apply wp_strdup. intros q s4 H4 _ Hq.
    specialize (Hq ltac:(by rewrite Ha3, Ha2, Ha1, lookup_tail)). subst q.
    wp_step. eapply wp_upd_fd; [eapply at_quiet; [exact Hd3|exact H4]|]. intros s5 H5. apply wp_free. intros s6 H6 _.
    apply Hrest. assert (touch r d3 2 s s4) as Ht4 by by eapply touch_quiet.
    eapply touch_quiet; [eapply touch_trans; [exact Ht4|exact H5|reflexivity]|exact H6|done].
Qed.

(** ** Functions of paths *)

(** The full path of the caller's path can be computed. *)
Definition resolves s (path : list Z) : Prop :=
  cstr path ∧ ∃ r, resolved (full_path (working_directory s) path) = Ok r.

Lemma wp_open_loop fs m t s Q :
  Forall (λ d, fd_fs d = None ∨ is_Some (fd_path d)) t → (∀ b, Q b s) → wp (open_loop fs m t) s Q.
Proof.
  intros Ht HQ. induction Ht as [|d t Hd _ IH]; cbn [open_loop]; [by wp_step|].
  destruct (fd_fs d) as [f|]; [|done]. destruct (Nat.eqb f fs); [|done]. destruct Hd as [|[p Hp]]; [done|].
  rewrite Hp. wp_step. wp_step. destruct (bool_decide _); [by wp_step|done].
Qed.

Definition paths_ok s : Prop := Forall (λ d, fd_fs d = None ∨ is_Some (fd_path d)) (fd_table s).

Lemma paths_quiet n s s' : cwd_ok s → paths_ok s → quiet n s s' → cwd_ok s' ∧ paths_ok s'.
Proof. unfold cwd_ok, paths_ok. intros ? ? [[_ _ E _ _] E' _ _]. by rewrite E, E'. Qed.

Lemma ok_paths held s : dfs_inv held s → paths_ok s.
Proof.
  intros H. eapply Forall_impl; [exact (ok_fd _ _ H)|]. intros d [->|(_ & _ & ? & _)]; [by left|by right].
Qed.

Lemma resolves_quiet s s' n path : resolves s path → quiet n s s' → resolves s' path.
Proof. intros [Hc Hr] [[_ _ E _ _] _ _ _]. split; [done|]. by rewrite E. Qed.

Lemma wp_fd_is_open p s Q :
  cwd_ok s → paths_ok s → resolves s p → (∀ a s', quiet 0 s s' → Q a s') → wp (fd_is_open p) s Q.
Proof.
  intros Hcwd Hok [Hc [r Hr]] HQ. unfold fd_is_open. wp_step. eapply wp_normalize; [done|done|done|].
  intros [q|] s1 H1 _ _ _; [|wp_step; by apply HQ].
  wp_step. apply wp_lookup. intros fs s2 H2 _ _ Hfs. assert (quiet 1 s s2) as H12 by by eapply quiet_trans.
  destruct fs as [i|]; [|wp_step; apply wp_free; intros s3 H3 _; wp_step; apply HQ; by eapply quiet_trans].
  destruct Hfs as (e & m & o & He & Hm & _ & _). wp_step.
  eapply (wp_get_fs i e); [by rewrite (keeps_mounts _ _ (quiet_keeps _ _ _ H2))|]. rewrite Hm.
  wp_step. wp_step. wp_step. unfold dfs_lock, dfs_unlock. wp_step. wp_step. wp_step. wp_step. apply wp_open_loop.
  { cbn. by rewrite (quiet_fds _ _ _ H12). }
  assert (quiet 0 s2 (set_fslock (fslock s2 + 1 - 1) s2)) as HL by (split; [split; cbn; try done; lia|done|done|cbn; lia]).
  intros [].
  - wp_step. apply wp_free. intros s3 H3 _. wp_step. wp_step. wp_step. apply HQ.
    destruct H3 as [[? ? ? HL3 ?] ? ? ?], H12 as [[? ? ? ? ?] ? ? ?], HL as [[? ? ? ? ?] ? ? ?].
    split; [split; cbn in *; try congruence; lia|cbn in *; congruence|cbn in *; congruence|cbn in *; lia].
  - wp_step. wp_step. wp_step. apply wp_free. intros s3 H3 _. wp_step. apply HQ.
    eapply quiet_trans; [eapply quiet_trans; [exact H12|exact HL|reflexivity]|exact H3|done].
Qed.

Lemma wp_unlink path held s Q :
  dfs_inv held s → resolves s path → (∀ a s', quiet 0 s s' → Q a s') → wp (dfs_file_unlink operations path) s Q.
Proof.
  intros Hok [Hc [r Hr]] HQ. unfold dfs_file_unlink. wp_step. eapply wp_normalize; [apply (ok_cwd _ _ Hok)|done|done|].
  intros [p|] s1 H1 _ Hp _; [|wp_step; by apply HQ]. destruct Hp as [|<-]; [done|].
  wp_step. apply wp_lookup. intros fs s2 H2 _ _ Hfs. assert (quiet 1 s s2) as H12 by by eapply quiet_trans.
  assert (∀ a s3, quiet 0 s2 s3 → wp (free_memory (Some p);; mret a) s3 Q) as Hend.
  { intros a s3 H3. wp_step. apply wp_free. intros s4 H4 _. wp_step. apply HQ.
    eapply quiet_trans; [eapply quiet_trans; [exact H12|exact H3|reflexivity]|exact H4|done]. }
  wp_step. destruct fs as [i|]; [|wp_step; apply Hend, quiet_refl].
  destruct Hfs as (e & m & o & He & Hm & Ho & Hpre). wp_step.
  assert (resolves s2 p) as Hp2.
  { destruct (resolved_again _ p (working_directory s2) (cstr_full_path _ _ (proj1 (ok_cwd _ _ Hok)) Hc) Hr). by split. }
  destruct (paths_quiet _ _ _ (ok_cwd _ _ Hok) (ok_paths _ _ Hok) H12) as [Hcwd2 Hpo2].
  apply wp_fd_is_open; [done|done|done|]. intros b s3 H3. destruct (b =? 0); [wp_step; by apply Hend|].
  assert (filesystem_table s3 = filesystem_table s1) as Et3.
  { transitivity (filesystem_table s2); [apply H3|apply H2]. }
  wp_step. eapply (wp_get_fs i e); [by rewrite Et3|]. wp_step. eapply wp_ops_of; [done|].
  destruct (op_unlink _) as [f|] eqn:E; [|wp_step; by apply Hend].
  assert (∀ q, wp (on_world (f e q)) s3 (λ a s', wp (free_memory (Some p);; mret a) s' Q)) as Hcall.
  { intros q. eapply wp_on_world; [by eapply law_unlink|]. intros a w s4 _ H4 _. apply Hend. by eapply quiet_trans. }
  destruct (full_flag _); [apply Hcall|]. wp_step. eapply wp_sub_path; [done|done|]. apply Hcall.
Qed.

Lemma wp_stat path held s Q :
  dfs_inv held s → resolves s path → (∀ a s', quiet 0 s s' → Q a s') → wp (dfs_file_stat operations path) s Q.
Proof.
  intros Hok [Hc [r Hr]] HQ. unfold dfs_file_stat. wp_step. eapply wp_normalize; [apply (ok_cwd _ _ Hok)|done|done|].
  intros [p|] s1 H1 _ Hp _; [|wp_step; by apply HQ]. destruct Hp as [|<-]; [done|].
  wp_step. apply wp_lookup. intros fs s2 H2 _ _ Hfs. assert (quiet 1 s s2) as H12 by by eapply quiet_trans.
  assert (∀ a s3, quiet 0 s2 s3 → wp (free_memory (Some p);; mret a) s3 Q) as Hend.
  { intros a s3 H3. wp_step. apply wp_free. intros s4 H4 _. wp_step. apply HQ.
    eapply quiet_trans; [eapply quiet_trans; [exact H12|exact H3|reflexivity]|exact H4|done]. }
  destruct fs as [i|]; [|apply Hend, quiet_refl].
  destruct Hfs as (e & m & o & He & Hm & Ho & Hpre). wp_step.
  eapply (wp_get_fs i e); [by rewrite (keeps_mounts _ _ (quiet_keeps _ _ _ H2))|]. wp_step.
  apply (wp_mono _ _ (λ _ s', s' = s2)).
  { destruct (bool_decide _); [by wp_step|]. by eapply wp_sub_path. }
  intros [q|] ? ->; [|apply Hend, quiet_refl]. wp_step. eapply wp_ops_of; [done|].
  destruct (op_stat _) as [f|] eqn:E; [|apply Hend, quiet_refl]. wp_step.
  eapply wp_on_world; [by eapply law_stat|]. intros [a buf] w s3 _ H3 _. by apply Hend.
Qed.

(** Two paths on which nothing is mounted are a null pointer to [rename]. *)
Definition renames s (old new : list Z) : Prop :=
  ∀ p q, resolved (full_path (working_directory s) old) = Ok (Some p) →
    resolved (full_path (working_directory s) new) = Ok (Some q) →
    is_Some (lookup_loop p (filesystem_table s) 0 None 0) ∨ is_Some (lookup_loop q (filesystem_table s) 0 None 0).

Lemma wp_rename old new held s Q :
  dfs_inv held s → resolves s old → resolves s new → renames s old new → (∀ a s', quiet 0 s s' → Q a s') →
  wp (dfs_file_rename operations old new) s Q.
Proof.
  intros Hok [Hc [r Hr]] Hnew Hren HQ. unfold dfs_file_rename. wp_step. eapply wp_normalize; [apply (ok_cwd _ _ Hok)|done|done|].
  intros [p|] s1 H1 _ Hp _; [|wp_step; by apply HQ]. destruct Hp as [|<-]; [done|].
  destruct (paths_quiet _ _ _ (ok_cwd _ _ Hok) (ok_paths _ _ Hok) H1) as [Hcwd1 _].
  destruct (resolves_quiet _ _ _ _ Hnew H1) as [Hc1 [r1 Hr1]].
  wp_step. eapply wp_normalize; [done|done|done|]. intros newfull s2 H2 _ Hq _.
  assert (∀ a s3, quiet 0 s2 s3 → wp (free_memory (Some p);; free_memory newfull;; mret a) s3 Q) as Hend.
  { intros a s3 H3. wp_step. apply wp_free. intros s4 H4 _. wp_step. apply wp_free. intros s5 H5 _. wp_step. apply HQ.
    destruct H1, H2, H3, H4, H5. split; [repeat (etrans; [eassumption|]); done|congruence|congruence|cbn in *; lia]. }
  wp_step. destruct newfull as [q|]; [|wp_step; apply Hend, quiet_refl]. destruct Hq as [|<-]; [done|].
  wp_step. apply wp_lookup. intros fs s3 H3 _ Efs Hfs. wp_step. apply wp_lookup. intros fs' s4 H4 _ Efs' Hfs'.
  assert (quiet 0 s2 s4) as H24 by by eapply quiet_trans.
  assert (filesystem_table s1 = filesystem_table s ∧ filesystem_table s2 = filesystem_table s1 ∧
    filesystem_table s3 = filesystem_table s2 ∧ filesystem_table s4 = filesystem_table s3 ∧
    working_directory s1 = working_directory s) as (T1 & T2 & T3 & T4 & Ew).
  { split_and!; [apply H1|apply H2|apply H3|apply H4|apply H1]. }
  destruct (bool_decide_reflect (fs = fs')) as [<-|]; [|wp_step; by apply Hend].
  destruct fs as [i|].
  2: { exfalso. rewrite Ew in Hr1. destruct (Hren p q Hr Hr1) as [[x Hx]|[x Hx]]; congruence. }
  destruct Hfs as (e & m & o & He & Hm & Ho & Hpre), Hfs' as (e' & m' & o' & He' & Hm' & Ho' & Hpre').
  rewrite T3 in He'. simplify_eq. wp_step. wp_step. wp_step. eapply (wp_get_fs i e); [by rewrite T4, T3|].
  wp_step. eapply wp_ops_of; [done|]. destruct (op_rename _) as [f|] eqn:E; [|wp_step; by apply Hend].
  assert (∀ a b, wp (on_world (f e a b)) s4 (λ r s', wp (free_memory (Some p);; free_memory (Some q);; mret r) s' Q)) as Hcall.
  { intros a b. eapply wp_on_world; [by eapply law_rename|]. intros x w s5 _ H5 _. apply Hend. by eapply quiet_trans. }
  destruct (full_flag _); [apply Hcall|]. wp_step. eapply wp_sub_path; [done|done|]. wp_step.
  eapply wp_sub_path; [done|done|]. apply Hcall.
Qed.

Lemma wp_statfs path s Q :
  (∀ a s', quiet 0 s s' → Q a s') → wp (dfs_statfs operations path) s Q.
Proof.
  intros HQ. unfold dfs_statfs. wp_step. apply wp_lookup. intros fs s1 H1 _ _ Hfs.
  destruct fs as [i|]; [|wp_step; by apply HQ]. destruct Hfs as (e & m & o & He & Hm & Ho & _). wp_step.
  eapply (wp_get_fs i e); [by rewrite (keeps_mounts _ _ (quiet_keeps _ _ _ H1))|]. wp_step.
  eapply wp_ops_of; [done|]. destruct (op_statfs _) as [f|] eqn:E; [|wp_step; by apply HQ]. wp_step.
  eapply wp_on_world; [by eapply law_statfs|]. intros [a buf] w s2 _ H2 _. wp_step. apply HQ. by eapply quiet_trans.
Qed.
End Files.
