(* ===== verification/DfsCalls.v ===== *)
(** The POSIX functions keep the invariant of the virtual file system. *)

From Stdlib Require Import ZArith Lia.
From stdpp Require Import numbers base gmap list.
From S2P Require Import Prelude DfsPath Dfs DfsPosix DfsInv.
Local Open Scope Z_scope.

Section Calls.
Context {W : Type} {devices : Devices W} {operations : nat → dfs_filesystem_operation W}.
Context `{!FileSystems devices operations}.
Context {held : Z}.
Implicit Types s : dfs W.

(** A call is over: the invariant holds, and the lock is as it was. *)
Definition fine s s' : Prop := dfs_inv held s' ∧ fslock s' = fslock s.

Lemma fine_quiet s s' : dfs_inv held s → quiet 0 s s' → fine s s'.
Proof. intros Hok H. split; [by eapply ok_quiet|apply H]. Qed.

Lemma fine_quiet_after s s1 s2 : fine s s1 → quiet 0 s1 s2 → fine s s2.
Proof. intros [H1 E1] H. split; [by eapply ok_quiet|]. rewrite <- E1. apply H. Qed.

Lemma fine_touch s s' i d d' n :
  dfs_inv held s → at_fd (Entry i) d s → touch (Entry i) d' n s s' → fd_ok (filesystem_table s) d' →
  n = owned (fd_path d') - owned (fd_path d) → fine s s'.
Proof. intros. split; [by eapply ok_touch|]. by apply H1. Qed.

Lemma wp_failed e s Q : (∀ s', quiet 0 s s' → Q (-1) s') → wp (failed e) s Q.
Proof. intros HQ. unfold failed. wp_step. apply wp_set_errno. intros s' Hs. wp_step. auto. Qed.

Lemma wp_unassoc {A B C} (m : M (dfs W) A) (f : A → M (dfs W) B) (g : B → M (dfs W) C) s Q :
  wp (a ← m; b ← f a; g b) s Q → wp (b ← (a ← m; f a); g b) s Q.
Proof. unfold wp, mbind, M_bind. by destruct (m s) as [[a s']|]. Qed.

(** ** Calls with a descriptor *)

(** The descriptor is taken, used, and put back. *)
Lemma wp_take fd s Q :
  dfs_inv held s → (∀ s', fine s s' → Q None s') →
  (∀ i d s', fd = Z.of_nat i → at_fd (Entry i) d s → opened (filesystem_table s) d →
     touch (Entry i) (set_ref_count 2 d) 0 s s' → Q (Some (Entry i)) s') →
  wp (fd_get fd) s Q.
Proof.
  intros Hok Hn Hs. apply wp_fd_get; [apply Hok|intros s' H; by apply Hn, fine_quiet|]. intros i d s' -> Hd Hm Ht.
  destruct (ok_entry _ _ _ _ Hok Hd) as [->|Ho]; [done|]. eapply Hs; [done|exact Hd|exact Ho|].
  destruct Ho as (_ & E & _). by rewrite E in Ht.
Qed.

Lemma opened_same t d d' : opened t d → same_fd (set_ref_count 2 d) d' → opened t (set_ref_count 1 d').
Proof.
  intros (H1 & H2 & H3 & (j & e & H4 & H5)) (E1 & E2 & E3 & E4). cbn in *.
  split_and!; [by cbn; rewrite E1|done|by cbn; rewrite E3|]. exists j, e. cbn. by rewrite E4.
Qed.

Lemma wp_release i d d' s s1 Q :
  dfs_inv held s → at_fd (Entry i) d s → opened (filesystem_table s) d → same_fd (set_ref_count 2 d) d' →
  touch (Entry i) d' 0 s s1 → (∀ s2, fine s s2 → touch (Entry i) (set_ref_count 1 d') 0 s s2 → Q tt s2) →
  wp (fd_put (Some (Entry i))) s1 Q.
Proof.
  intros Hok Hd Ho Hs Ht HQ. eapply wp_fd_put; [by eapply at_touch|]. intros s2 H2. unfold put_down in H2.
  replace (ref_count d') with 2 in H2 by (symmetry; apply Hs). cbn in H2.
  assert (touch (Entry i) (set_ref_count 1 d') 0 s s2) as H02 by by eapply touch_trans.
  apply HQ; [|done]. eapply fine_touch; [done|exact Hd|exact H02|right; by eapply opened_same|].
  destruct Hs as (_ & _ & E & _). cbn in *. rewrite E. lia.
Qed.

Lemma on_mount_touch s s' r d d' n :
  opened (filesystem_table s) d → touch r d' n s s' → on_mount (filesystem_table s') (set_ref_count 2 d).
Proof. intros (_ & _ & _ & H) [[_ E _ _ _] _ _]. rewrite E. exact H. Qed.

(** An operation that keeps the descriptor, between the two. *)
Lemma wp_used {A B} (m : M (dfs W) A) (k : A → M (dfs W) B) i d s s' Q :
  keeps_fd m (Entry i) → dfs_inv held s → at_fd (Entry i) d s → opened (filesystem_table s) d →
  touch (Entry i) (set_ref_count 2 d) 0 s s' →
  (∀ a d' s1, same_fd (set_ref_count 2 d) d' → touch (Entry i) d' 0 s s1 → wp (k a) s1 Q) →
  wp (m ≫= k) s' Q.
Proof.
  intros Hm Hok Hd Ho Ht HQ. wp_step. eapply Hm; [by eapply at_touch|by eapply on_mount_touch|].
  intros a d' s1 Hs H1. eapply HQ; [exact Hs|by eapply touch_trans].
Qed.

Lemma wp_fail_after e s s' Q : fine s s' → (∀ s', fine s s' → Q (-1) s') → wp (failed e) s' Q.
Proof. intros H HQ. apply wp_failed. intros s2 H2. apply HQ. by eapply fine_quiet_after. Qed.

(** Take the descriptor; the other case is an error. *)
Ltac take_fd Hok Hd Ho Ht :=
  wp_step; apply wp_take; [exact Hok|intros ? ?; repeat wp_step; try (eapply wp_fail_after; eauto)|];
  let i := fresh "i" in let d := fresh "d" in let s' := fresh "s" in
  intros i d s' -> Hd Ho Ht.
(** Put it back and go on. *)
Ltac put_fd_back Hok := wp_step; eapply wp_release; [exact Hok|eassumption|eassumption|eassumption|eassumption|].
Ltac use_fd lem Hok := eapply wp_used; [apply lem|exact Hok|eassumption|eassumption|eassumption|].

Lemma write_fine fd buf s : dfs_inv held s → wp (write operations fd buf) s (λ _ s', fine s s').
Proof.
  intros Hok. unfold write. take_fd Hok Hd Ho Ht. use_fd keeps_write Hok. intros a d' s1 Hs H1.
  destruct (a <? 0); put_fd_back Hok; intros s2 H2 _; [by eapply wp_fail_after|by wp_step].
Qed.

Lemma read_fine fd len s : dfs_inv held s → wp (read operations fd len) s (λ _ s', fine s s').
Proof.
  intros Hok. unfold read. take_fd Hok Hd Ho Ht. use_fd keeps_read Hok. intros [a buf] d' s1 Hs H1.
  destruct (a <? 0); put_fd_back Hok; intros s2 H2 _; [wp_step; by eapply wp_fail_after|by wp_step].
Qed.

Lemma fsync_fine fd s : dfs_inv held s → wp (fsync operations fd) s (λ _ s', fine s s').
Proof.
  intros Hok. unfold fsync. take_fd Hok Hd Ho Ht. use_fd keeps_flush Hok. intros a d' s1 Hs H1.
  put_fd_back Hok. intros s2 H2 _. by wp_step.
Qed.

Lemma ioctl_fine fd cmd data s : dfs_inv held s → wp (ioctl operations fd cmd data) s (λ _ s', fine s s').
Proof.
  intros Hok. unfold ioctl. take_fd Hok Hd Ho Ht. use_fd keeps_ioctl Hok. intros a d' s1 Hs H1. wp_step.
  destruct (negb _).
  - apply wp_failed. intros s2 H2.
    assert (touch (Entry i) d' 0 s s2) by by eapply touch_quiet. put_fd_back Hok. intros s3 H3 _. by wp_step.
  - wp_step. put_fd_back Hok. intros s3 H3 _. by wp_step.
Qed.

Lemma lseek_fine fd offset whence s : dfs_inv held s → wp (lseek operations fd offset whence) s (λ _ s', fine s s').
Proof.
  intros Hok. unfold lseek. take_fd Hok Hd Ho Ht.
  wp_step. eapply wp_get_fd; [by eapply at_touch|]. assert (same_fd (set_ref_count 2 d) (set_ref_count 2 d)) as Hs0 by done.
  destruct (seek_offset _ _ _) as [off|]; [|put_fd_back Hok; intros s2 H2 _; by eapply wp_fail_after].
  destruct (off <? 0); [put_fd_back Hok; intros s2 H2 _; by eapply wp_fail_after|].
  use_fd keeps_lseek Hok. intros a d' s1 Hs H1.
  destruct (a <? 0); put_fd_back Hok; intros s2 H2 _; [by eapply wp_fail_after|by wp_step].
Qed.

Lemma fstat_fine fd s : dfs_inv held s → wp (fstat fd) s (λ _ s', fine s s').
Proof.
  intros Hok. unfold fstat. take_fd Hok Hd Ho Ht.
  wp_step. eapply wp_get_fd; [by eapply at_touch|]. assert (same_fd (set_ref_count 2 d) (set_ref_count 2 d)) as Hs0 by done.
  put_fd_back Hok. intros s2 H2 _. by wp_step.
Qed.

(** ** Opening and closing *)

(** A descriptor that has just been taken: with [k] references, nothing else. *)
Definition fresh_fd (k : Z) : dfs_fd := mk_fd DFS_FD_MAGIC 0 None k None 0 0 0 0.

(** The first free entry. *)
Definition first_free s (i : nat) : Prop :=
  fd_table s !! i = Some zero_fd ∧ Forall (λ d, d ≠ zero_fd) (take i (fd_table s)).
Definition all_open s : Prop := Forall (λ d, d ≠ zero_fd) (fd_table s).

Lemma wp_new s Q :
  dfs_inv held s → (all_open s → ∀ s', quiet 0 s s' → Q (-1) s') →
  (∀ i s', first_free s i → (i < DFS_FD_MAX)%nat → touch (Entry i) (fresh_fd 1) 0 s s' → allocs s' = allocs s →
     Q (Z.of_nat i) s') →
  wp fd_new s Q.
Proof.
  intros Hok Hn Hs. assert (∀ l : list dfs_fd, Forall (λ d, 0 < ref_count d) l → Forall (λ d, d ≠ zero_fd) l) as Hpos.
  { intros l Hl. eapply Forall_impl; [exact Hl|]. intros d Hd ->. by cbn in Hd. }
  apply wp_fd_new; [apply Hok|intros H st H' _; by apply Hn; [apply Hpos|]|]. intros i d s' Hd Hr Hf Hi Ht Ha.
  destruct (ok_entry _ _ i _ Hok Hd) as [->|(_ & E & _)]; [|lia]. apply Hs; [|done|done|done]. split; auto.
Qed.

Lemma touch_trans0 r d1 d2 n s s1 s2 : touch r d1 0 s s1 → touch r d2 n s1 s2 → touch r d2 n s s2.
Proof. intros H1 H2. by eapply touch_trans. Qed.

Lemma wp_open_fresh {B} i path flags res (k : option fdref → Z → M (dfs W) B) s s1 Q :
  dfs_inv held s → first_free s i → (i < DFS_FD_MAX)%nat → touch (Entry i) (fresh_fd 1) 0 s s1 → allocs s1 = allocs s →
  cstr path → gets_memory 1 s → resolved (full_path (working_directory s) path) = Ok res →
  (∀ a d' s', a < 0 → ref_count d' = 2 → fd_path d' = None → touch (Entry i) d' 0 s s' → wp (k (Some (Entry i)) a) s' Q) →
  (∀ p d' s', res = Some p → magic d' = DFS_FD_MAGIC → ref_count d' = 2 → opens (operations := operations) (filesystem_table s) p d' →
     touch (Entry i) d' 1 s s' → wp (k (Some (Entry i)) 0) s' Q) →
  wp (d ← fd_get (Z.of_nat i); result ← dfs_file_open operations d path flags; k d result) s1 Q.
Proof.
  intros Hok Hf Hi Ht Ha Hc Hm Hr Hbad Hgood. wp_step. destruct Hf as [Hf _].
  eapply wp_fd_get_entry; [done|by eapply at_touch|done|]. intros s2 H2 Ha2. cbn in H2.
  assert (touch (Entry i) (fresh_fd 2) 0 s s2) as H02 by by eapply touch_trans0.
  assert (filesystem_table s2 = filesystem_table s ∧ working_directory s2 = working_directory s) as [Et Ew].
  { split; apply H02. }
  wp_step. eapply wp_file_open.
  - by eapply at_touch.
  - unfold cwd_ok. rewrite Ew. apply Hok.
  - done.
  - unfold gets_memory. by rewrite Ha2, Ha.
  - rewrite Ew. exact Hr.
  - intros a d' s' Hneg E1 E2 E3 H3. eapply Hbad; [done|exact E2|by destruct E3 as [| ->]|by eapply touch_trans0].
  - intros p d' s' Hp E1 E2 E3 H3. rewrite Et in E3. eapply Hgood; [done|exact E1|exact E2|done|by eapply touch_trans0].
Qed.

(** Both references are dropped. *)
Lemma wp_drop {B} i d d' n (k : unit → M (dfs W) B) s s1 Q :
  at_fd (Entry i) d s → touch (Entry i) d' n s s1 → ref_count d' = 2 →
  (∀ s2, touch (Entry i) zero_fd n s s2 → wp (k tt) s2 Q) →
  wp (fd_put (Some (Entry i));; x ← fd_put (Some (Entry i)); k x) s1 Q.
Proof.
  intros Hd Ht Hr HQ. wp_step. eapply wp_fd_put; [by eapply at_touch|]. intros s2 H2. wp_step.
  eapply wp_fd_put; [eapply at_touch; [eapply at_touch; [exact Hd|exact Ht]|exact H2]|]. intros s3 H3.
  assert (put_down (put_down d') = zero_fd) as E by (unfold put_down; by rewrite Hr). rewrite E in H3.
  apply HQ. eapply touch_trans; [exact Ht| |symmetry; apply Z.add_0_r]. by eapply touch_trans0.
Qed.

Lemma opens_opened t p d :
  magic d = DFS_FD_MAGIC → opens (operations := operations) t p d → opened t (set_ref_count 1 d).
Proof.
  intros Hm Ho. destruct (opens_on_mount _ _ _ Ho) as (j & e & ? & ? & ?), Ho as (? & ? & ? & ? & _ & _ & _ & _ & _ & E).
  split_and!; [done|done|eexists; exact E|by exists j, e].
Qed.

(** [open]: the file is open in the first free descriptor, or nothing has changed. *)
Lemma wp_open path flags res s Q :
  dfs_inv held s → cstr path → gets_memory 1 s → resolved (full_path (working_directory s) path) = Ok res →
  (∀ s', quiet 0 s s' → Q (-1) s') → (∀ i s', touch (Entry i) zero_fd 0 s s' → first_free s i → Q (-1) s') →
  (∀ i p d' s', res = Some p → first_free s i → opened (filesystem_table s) d' →
     opens (operations := operations) (filesystem_table s) p d' → touch (Entry i) d' 1 s s' → Q (Z.of_nat i) s') →
  wp (open operations path flags) s Q.
Proof.
  intros Hok Hc Hm Hr Hfull Hbad Hgood. unfold open. wp_step. apply wp_new; [done| |].
  { intros _ s' H. cbn. apply wp_failed. intros s2 H2. apply Hfull. by eapply quiet_trans. }
  intros i s1 Hf Hi H1 Ha. rewrite (proj2 (Z.ltb_ge _ _)) by lia.
  eapply (wp_open_fresh i path flags res (λ d result, _)); try done.
  - intros a d' s2 Hneg E1 E2 H2. rewrite (proj2 (Z.ltb_lt _ _)) by done.
    eapply (wp_drop _ _ _ _ (λ _, _)); [apply Hf|exact H2|done|]. intros s3 H3. apply wp_failed. intros s4 H4.
    eapply Hbad; [by eapply touch_quiet|done].
  - intros p d' s2 Hp E1 E2 E3 H2. cbn. wp_step. eapply wp_fd_put; [eapply at_touch; [apply Hf|exact H2]|].
    intros s3 H3. wp_step. unfold put_down in H3. rewrite E2 in H3. cbn in H3.
    eapply Hgood; [done|done| | |by eapply touch_trans].
    + by eapply opens_opened.
    + done.
Qed.

Lemma open_fine path flags s :
  dfs_inv held s → resolves s path → gets_memory 1 s → wp (open operations path flags) s (λ _ s', fine s s').
Proof.
  intros Hok [Hc [r Hr]] Hm. eapply wp_open; try done.
  - intros s' H. by apply fine_quiet.
  - intros i s' H [Hf _]. eapply fine_touch; [done|exact Hf|exact H|by left|done].
  - intros i p d' s' _ [Hf _] Ho _ Ht. eapply fine_touch; [done|exact Hf|exact Ht|by right|].
    destruct Ho as (_ & _ & [q ->] & _). done.
Qed.

(** What [close] does with a descriptor that is open. *)
Lemma wp_close_taken i d s s1 Q :
  dfs_inv held s → at_fd (Entry i) d s → opened (filesystem_table s) d → touch (Entry i) (set_ref_count 2 d) 0 s s1 →
  (∀ s', fine s s' → ¬ closes_succeed operations → Q (-1) s') →
  (∀ s', touch (Entry i) zero_fd (-1) s s' → fine s s' → Q 0 s') →
  wp (result ← dfs_file_close operations (Some (Entry i));
      fd_put (Some (Entry i));;
      if result <? 0 then failed result else fd_put (Some (Entry i));; mret 0) s1 Q.
Proof.
  intros Hok Hd Ho Ht Hbad Hgood. wp_step.
  eapply wp_file_close; [by eapply at_touch|by eapply on_mount_touch| |].
  - intros a d' s2 Ha Hs H1 Hn. assert (touch (Entry i) d' 0 s s2) by by eapply touch_trans0. put_fd_back Hok.
    intros s3 H2 _. rewrite (proj2 (Z.ltb_lt _ _)) by done. eapply wp_fail_after; [done|]. auto.
  - intros a d' s2 Ha Hs H1. destruct (Ho) as (E1 & E2 & [p E3] & E4).
    cbn [fd_path set_ref_count] in H1. rewrite E3 in H1. cbn [owned] in H1.
    assert (touch (Entry i) (set_fd_path None d') (-1) s s2) as H01 by by eapply touch_trans0.
    rewrite (proj2 (Z.ltb_ge _ _)) by done.
    eapply (wp_drop _ _ _ _ (λ _, _)); [exact Hd|exact H01|by destruct Hs as (_ & E & _)|]. intros s3 H2. wp_step.
    eapply Hgood; [exact H2|]. eapply fine_touch; [done|exact Hd|exact H2|by left|]. by rewrite E3.
Qed.

(** [close]: the descriptor is free and its path is given back. *)
Lemma wp_close_open i d s Q :
  dfs_inv held s → closes_succeed operations → fd_table s !! i = Some d → opened (filesystem_table s) d →
  (∀ s', touch (Entry i) zero_fd (-1) s s' → Q 0 s') → wp (close operations (Z.of_nat i)) s Q.
Proof.
  intros Hok Hcl Hd Ho HQ. unfold close. wp_step. eapply (wp_fd_get_entry i d); [|exact Hd|apply Ho|].
  { rewrite <- (ok_fds _ _ Hok). by eapply lookup_lt_Some. }
  intros s1 H1 _. destruct (Ho) as (_ & E & _). rewrite E in H1.
  eapply wp_close_taken; [done|exact Hd|done|exact H1|done|]. intros s' H' _. by apply HQ.
Qed.

Lemma close_fine fd s : dfs_inv held s → wp (close operations fd) s (λ _ s', fine s s').
Proof.
  intros Hok. unfold close. take_fd Hok Hd Ho Ht. eapply wp_close_taken; [done|exact Hd|done|exact Ht|done|]. by intros.
Qed.

(** The close of a descriptor that is given up, and the end of it. *)
Lemma wp_close_drop {B} i p d' (k : unit → M (dfs W) B) s s1 Q :
  closes_succeed operations → fd_table s !! i = Some zero_fd → touch (Entry i) d' 1 s s1 →
  ref_count d' = 2 → opens (operations := operations) (filesystem_table s) p d' →
  (∀ s2, touch (Entry i) zero_fd 0 s s2 → wp (k tt) s2 Q) →
  wp (dfs_file_close operations (Some (Entry i));; fd_put (Some (Entry i));; x ← fd_put (Some (Entry i)); k x) s1 Q.
Proof.
  intros Hcl Hd Ht Hr Hop HQ. wp_step. eapply wp_file_close; [by eapply at_touch| | |].
  - replace (filesystem_table s1) with (filesystem_table s) by (symmetry; apply Ht). by eapply opens_on_mount.
  - intros a d2 s2 _ _ _ Hn. done.
  - intros a d2 s2 _ Hs H2. destruct Hop as (? & ? & ? & ? & _ & _ & _ & _ & _ & E). rewrite E in H2.
    assert (touch (Entry i) (set_fd_path None d2) 0 s s2) as H02 by by eapply touch_trans.
    eapply wp_drop; [exact Hd|exact H02|by destruct Hs as (_ & E' & _); cbn; rewrite E'|done].
Qed.

Lemma mkdir_fine path s :
  dfs_inv held s → closes_succeed operations → resolves s path → gets_memory 1 s →
  wp (mkdir operations path) s (λ _ s', fine s s').
Proof.
  intros Hok Hcl [Hc [r Hr]] Hm. unfold mkdir. wp_step. apply wp_new; [done| |].
  { intros _ s' H. cbn. eapply wp_fail_after; [by apply fine_quiet|done]. }
  intros i s1 Hf Hi H1 Ha. rewrite (proj2 (Z.eqb_neq _ _)) by lia.
  eapply (wp_open_fresh i path _ r (λ d result, _)); try done.
  - intros a d' s2 Hneg E1 E2 H2. rewrite (proj2 (Z.ltb_lt _ _)) by done.
    eapply (wp_drop _ _ _ _ (λ _, _)); [apply Hf|exact H2|done|]. intros s3 H3.
    eapply wp_fail_after; [|done]. eapply fine_touch; [done|apply Hf|exact H3|by left|done].
  - intros p d' s2 Hp E1 E2 E3 H2. cbn. eapply (wp_close_drop _ _ _ (λ _, _)); [done|apply Hf|exact H2|done|exact E3|].
    intros s3 H3. wp_step. eapply fine_touch; [done|apply Hf|exact H3|by left|done].
Qed.

(** ** Streams *)

Lemma set_dirs_id s : set_dirs (dirs s) s = s.
Proof. by destruct s. Qed.

Lemma wp_get_dir k t s Q : dirs s !! k = Some t → Q t s → wp (get_dir k) s Q.
Proof. intros H HQ. unfold get_dir. wp_steps. done. Qed.

Lemma wp_put_dir k v s Q :
  is_Some (dirs s !! k) → Q tt (set_dirs (<[k := v]> (dirs s)) s) → wp (put_dir k v) s Q.
Proof. intros [t H] HQ. unfold put_dir. wp_step. eapply wp_get_dir; [done|]. by wp_step. Qed.

(** The same while a descriptor is in use. *)
Lemma wp_put_dir_touch k v r d n D s s1 Q :
  touch r d n (set_dirs D s) s1 → is_Some (D !! k) →
  (∀ s2, touch r d n (set_dirs (<[k := v]> D) s) s2 → Q tt s2) → wp (put_dir k v) s1 Q.
Proof.
  intros Ht Hk HQ. assert (dirs s1 = D) as <- by apply Ht. apply wp_put_dir; [done|]. apply HQ.
  exact (touch_dirs (<[k := v]> (dirs s1)) _ _ _ _ _ Ht).
Qed.

Lemma wp_new_dir s Q :
  (∀ s', quiet 0 s s' → Q None s') →
  (∀ k v s', dirs s !! k = None → quiet 1 s s' → Q (Some k) (set_dirs (<[k := v]> (dirs s)) s')) →
  wp new_dir s Q.
Proof.
  intros Hn Hs. unfold new_dir. wp_step. apply wp_malloc. intros [] s' H _ _; wp_steps; [|by apply Hn].
  assert (dirs s' = dirs s) as E by apply H. rewrite E. apply Hs; [|done].
  apply not_elem_of_dom. apply is_fresh.
Qed.

(** [opendir]: a new stream with the first free descriptor, or nothing has changed. *)
Lemma wp_opendir name res s Q :
  dfs_inv held s → closes_succeed operations → cstr name → gets_memory 1 s →
  resolved (full_path (working_directory s) name) = Ok res →
  (∀ s', fine s s' → dirs s' = dirs s → Q None s') →
  (∀ k i p d' s', res = Some p → first_free s i → opened (filesystem_table s) d' →
     opens (operations := operations) (filesystem_table s) p d' → dirs s !! k = None → fine s s' →
     touch (Entry i) d' 2 (set_dirs (<[k := mk_dir (Z.of_nat i) (replicate DIR_BUF 0) 0 0]> (dirs s)) s) s' →
     Q (Some k) s') →
  wp (opendir operations name) s Q.
Proof.
  intros Hok Hcl Hc Hm Hr Hbad Hgood. unfold opendir. wp_step. apply wp_new; [done| |].
  { intros _ s' H. cbn. wp_step. apply wp_set_errno. intros s2 H2. wp_step. apply Hbad.
    - apply fine_quiet; [done|]. by eapply quiet_trans.
    - transitivity (dirs s'); [apply H2|apply H]. }
  intros i s1 Hf Hi H1 Ha. rewrite (proj2 (Z.eqb_neq _ _)) by lia.
  assert (∀ s', touch (Entry i) zero_fd 0 s s' → fine s s' ∧ dirs s' = dirs s) as Hnone.
  { intros s' H. split; [|apply H]. eapply fine_touch; [done|apply Hf|exact H|by left|done]. }
  eapply (wp_open_fresh i name _ res (λ d result, _)); try done.
  - intros a d' s2 Hneg E1 E2 H2. rewrite (proj2 (Z.leb_gt _ _)) by done.
    eapply (wp_drop _ _ _ _ (λ _, _)); [apply Hf|exact H2|done|]. intros s3 H3. wp_step. apply wp_set_errno.
    intros s4 H4. wp_step. assert (touch (Entry i) zero_fd 0 s s4) as H04 by by eapply touch_quiet.
    by destruct (Hnone _ H04); apply Hbad.
  - intros p d' s2 Hp E1 E2 E3 H2. change (0 <=? 0) with true. cbv iota. wp_step. apply wp_new_dir.
    + intros s3 H3. assert (touch (Entry i) d' 1 s s3) as H03 by by eapply touch_quiet. apply wp_unassoc.
      eapply (wp_close_drop _ _ _ (λ _, _)); [done|apply Hf|exact H03|done|exact E3|]. intros s4 H4. wp_step.
      destruct (Hnone _ H4). by apply Hbad.
    + intros k v s3 Hk H3. assert (touch (Entry i) d' 2 s s3) as H03 by by eapply touch_quiet.
      assert (dirs s2 = dirs s) as Ed by apply H2. rewrite Ed in *. set (D := <[k := v]> (dirs s)).
      wp_step. eapply wp_put_dir_touch; [exact (touch_dirs D _ _ _ _ _ H03)|unfold D; rewrite lookup_insert_eq; eauto|].
      intros s4 H4. unfold D in H4. rewrite insert_insert_eq in H4. wp_step.
      eapply wp_fd_put; [eapply at_touch; [|exact H4]; apply Hf|]. intros s5 H5. wp_step.
      unfold put_down in H5. rewrite E2 in H5. cbn in H5.
      assert (touch (Entry i) (set_ref_count 1 d') 2 (set_dirs (<[k := mk_dir (Z.of_nat i) (replicate DIR_BUF 0) 0 0]> (dirs s)) s) s5)
        as H05 by by eapply touch_trans.
      assert (opened (filesystem_table s) (set_ref_count 1 d')) as Ho.
      { by eapply opens_opened. }
      eapply Hgood; [done|done|exact Ho| |done| |exact H05].
      * done.
      * split; [|apply H05]. destruct (Ho) as (_ & _ & [q Eq] & _).
        eapply ok_touch_held; [by apply ok_new_dir|apply Hf|exact H05|by right|]. rewrite Eq. cbn. lia.
Qed.

Lemma opendir_fine name s :
  dfs_inv held s → closes_succeed operations → resolves s name → gets_memory 1 s →
  wp (opendir operations name) s (λ _ s', fine s s').
Proof. intros Hok Hcl [Hc [r Hr]] Hm. by eapply wp_opendir. Qed.

Lemma wp_closedir k t s Q :
  dfs_inv held s → closes_succeed operations → dirs s !! k = Some t →
  (∀ a s', fine s s' → Q a s') → wp (closedir operations k) s Q.
Proof.
  intros Hok Hcl Hk HQ. unfold closedir. wp_step. eapply wp_get_dir; [done|]. wp_step. apply wp_take; [done| |].
  { intros s' H. eapply wp_fail_after; [done|]. intros s2 H2. by apply HQ. }
  intros i d s' Hi Hd Ho Ht. wp_step.
  eapply wp_file_close; [by eapply at_touch|by eapply on_mount_touch| |].
  { intros a d' s1 _ _ _ Hn. done. }
  intros a d' s1 Ha Hs H1. destruct (Ho) as (_ & _ & [p E3] & _). cbn [fd_path set_ref_count] in H1.
  rewrite E3 in H1. cbn [owned] in H1.
  assert (touch (Entry i) (set_fd_path None d') (-1) s s1) as H01 by by eapply touch_trans0.
  eapply (wp_drop _ _ _ _ (λ _, _)); [exact Hd|exact H01|by destruct Hs as (_ & E & _)|]. intros s2 H2.
  assert (fine s s2) as [Hf2 HL2]. { eapply fine_touch; [done|exact Hd|exact H2|by left|by rewrite E3]. }
  wp_step. unfold free_dir. wp_step. wp_step. apply wp_free. intros s3 H3 _.
  assert (fine s s3) as Hf3.
  { split; [|rewrite <- HL2; apply H3]. replace held with (held + 1 + - owned (Some k)) by (cbn; lia).
    eapply ok_quiet_held; [|exact H3]. eapply ok_free_dir; [done|].
    by rewrite (keeps_dirs _ _ (touch_keeps _ _ _ _ _ H2)). }
  rewrite (proj2 (Z.ltb_ge _ _)) by done. wp_step. by apply HQ.
Qed.

Lemma telldir_fine k t s : dfs_inv held s → dirs s !! k = Some t → wp (telldir k) s (λ _ s', fine s s').
Proof.
  intros Hok Hk. unfold telldir. wp_step. eapply wp_get_dir; [done|]. wp_step. apply wp_take; [done| |].
  { intros s' H. wp_step. apply wp_set_errno. intros s2 H2. wp_step. by eapply fine_quiet_after. }
  intros i d s' Hi Hd Ho Ht. wp_step. eapply wp_get_fd; [by eapply at_touch|].
  assert (same_fd (set_ref_count 2 d) (set_ref_count 2 d)) as Hs0 by done.
  put_fd_back Hok. intros s2 H2 _. by wp_step.
Qed.

(** The end of a call that has changed a stream. *)
Lemma wp_release_dir k i d d' D s s1 Q :
  dfs_inv held s → is_Some (dirs s !! k) → at_fd (Entry i) d s → opened (filesystem_table s) d →
  same_fd (set_ref_count 2 d) d' → (∃ v, D = <[k := v]> (dirs s)) ∨ D = dirs s →
  touch (Entry i) d' 0 (set_dirs D s) s1 → (∀ s2, fine s s2 → Q tt s2) →
  wp (fd_put (Some (Entry i))) s1 Q.
Proof.
  intros Hok Hk Hd Ho Hs HD Ht HQ. assert (dfs_inv held (set_dirs D s)) as Hok'.
  { destruct HD as [[v ->]| ->]; [by apply ok_put_dir|by rewrite set_dirs_id]. }
  eapply (wp_release _ _ _ (set_dirs D s)); [done|exact Hd|exact Ho|exact Hs|exact Ht|]. intros s2 H2 _. by apply HQ.
Qed.

Lemma wp_seek k offset t s :
  dfs_inv held s → dirs s !! k = Some t →
  wp (seekdir operations k offset) s (λ _ s', fine s s').
Proof.
  intros Hok Hk. unfold seekdir. wp_step. eapply wp_get_dir; [done|]. wp_step. apply wp_take; [done| |].
  { intros s' H. apply wp_set_errno. intros s2 H2. by eapply fine_quiet_after. }
  intros i d s' Hi Hd Ho Ht. use_fd keeps_lseek Hok. intros a d' s1 Hs H1.
  rewrite <- (set_dirs_id s) in H1. wp_step. destruct (0 <=? a).
  - eapply wp_put_dir_touch; [exact H1|by rewrite Hk|]. intros s2 H2.
    eapply wp_release_dir; [done|by rewrite Hk|done|done|done|left; by eexists|exact H2|done].
  - wp_step. eapply wp_release_dir; [done|by rewrite Hk|done|done|done|by right|exact H1|done].
Qed.

Lemma rewinddir_seekdir k : rewinddir operations k = seekdir operations k 0.
Proof. done. Qed.

(** The entry at which [readdir] looks lies in the buffer. *)
Definition stream_ok (t : DIR) : Prop :=
  length (dir_buf t) = DIR_BUF ∧ (dir_num t ≠ 0 → 0 <= dir_cur t ∧ dir_cur t + 3 < Z.of_nat DIR_BUF).

Lemma wp_d_reclen buf cur s Q :
  0 <= cur → cur + 3 < Z.of_nat (length buf) → (∀ n, Q n s) → wp (d_reclen buf cur) s Q.
Proof.
  intros H1 H2 HQ. unfold d_reclen.
  destruct (lookup_lt_is_Some_2 buf (Z.to_nat (cur + 2))) as [x Hx]; [lia|].
  destruct (lookup_lt_is_Some_2 buf (Z.to_nat (cur + 3))) as [y Hy]; [lia|].
  rewrite !(proj2 (Z.leb_le _ _)) by lia. rewrite Hx, Hy. wp_steps. auto.
Qed.

Lemma readdir_fine k t s :
  dfs_inv held s → dirs s !! k = Some t → stream_ok t → wp (readdir operations k) s (λ _ s', fine s s').
Proof.
  intros Hok Hk [Hlen Hcur]. unfold readdir. wp_step. eapply wp_get_dir; [done|]. wp_step. apply wp_take; [done| |].
  { intros s' H. wp_step. apply wp_set_errno. intros s2 H2. wp_step. by eapply fine_quiet_after. }
  intros i d s' Hi Hd Ho Ht. wp_step.
  apply (wp_mono _ _ (λ _ s1, ∃ D, ((∃ v, D = <[k := v]> (dirs s)) ∨ D = dirs s) ∧
    touch (Entry i) (set_ref_count 2 d) 0 (set_dirs D s) s1)).
  { rewrite <- (set_dirs_id s) in Ht. destruct (Z.eqb_spec (dir_num t) 0) as [E|E]; cbn [negb].
    - wp_step. exists (dirs s). split; [by right|done].
    - wp_step. destruct (Hcur E). apply wp_d_reclen; [done|lia|]. intros n. wp_step.
      eapply wp_put_dir_touch; [exact Ht|by rewrite Hk|]. intros s2 H2. wp_step. eexists. split; [left; by eexists|done]. }
  intros cur s1 (D & HD & H1).
  assert (∀ D, (∃ v, D = <[k := v]> (dirs s)) ∨ D = dirs s → is_Some (D !! k) ∧ ∀ v, <[k := v]> D = <[k := v]> (dirs s)) as HDk.
  { intros D' [[v ->]| ->]; [rewrite lookup_insert_eq|by rewrite Hk]. split; [eauto|]. intros. by rewrite insert_insert_eq. }
  destruct (HDk D HD) as [HkD Heq]. destruct (_ || _).
  - wp_step. eapply wp_getdents; [eapply at_touch; [|exact H1]; exact Hd| |unfold DIR_BUF; lia|].
    { replace (filesystem_table s1) with (filesystem_table s) by (symmetry; apply H1). apply Ho. }
    intros a out d' s2 Hs H2 Hout. wp_step. unfold fill_buf.
    rewrite (proj2 (Nat.leb_le _ _)) by lia. wp_step.
    assert (touch (Entry i) d' 0 (set_dirs D s) s2) as H02 by by eapply touch_trans0.
    destruct (a <=? 0); wp_step; (eapply wp_put_dir_touch; [exact H02|done|]); intros s3 H3; wp_step; rewrite Heq in H3;
      (eapply wp_release_dir; [done|by rewrite Hk|done|done|exact Hs|left; by eexists|exact H3|]); intros s4 H4; wp_step.
    + apply wp_set_errno. intros s5 H5. wp_step. by eapply fine_quiet_after.
    + done.
  - wp_step. eapply wp_release_dir; [done|by rewrite Hk|done|done|done|exact HD|exact H1|]. intros s2 H2. by wp_step.
Qed.
End Calls.
Arguments fine {W} held s s'.

(** ** The working directory, and calls with paths *)

Section Paths.
Context {W : Type} {devices : Devices W} {operations : nat → dfs_filesystem_operation W}.
Context `{!FileSystems devices operations}.
Implicit Types s : dfs W.

Lemma ok_lock held n s : dfs_inv held s → dfs_inv held (set_fslock n s).
Proof. by intros []. Qed.

Lemma ok_free {A} (p : A) s s' : dfs_inv 1 s → quiet (- owned (Some p)) s s' → dfs_ok s'.
Proof. intros H Hq. exact (ok_quiet_held _ _ _ _ H Hq). Qed.

(** The directory fits into the array. *)
Definition changes s (path : list Z) : Prop :=
  resolves s path ∧ gets_memory 2 s ∧
  ∀ p, resolved (full_path (working_directory s) path) = Ok (Some p) → (length p < DFS_PATH_MAX)%nat.

Lemma chdir_fine path s :
  dfs_ok s → closes_succeed operations → changes s path → wp (chdir operations (Some path)) s (λ _ s', fine 0 s s').
Proof.
  intros Hok Hcl ([Hc [r Hr]] & Hm & Hfit). unfold chdir. destruct (_ <? _)%nat.
  { apply wp_failed. intros s' H. by apply fine_quiet. }
  wp_step. eapply wp_normalize; [apply (ok_cwd _ _ Hok)|done|done|]. intros [p|] s1 H1 Ha Hp _.
  2: { eapply wp_fail_after; [by apply fine_quiet|done]. }
  destruct Hp as [|<-]; [done|]. specialize (Hfit p Hr).
  destruct (resolved_again _ p (working_directory s1) (cstr_full_path _ _ (proj1 (ok_cwd _ _ Hok)) Hc) Hr) as [Hcp [r' Hr']].
  assert (dfs_inv 1 (set_fslock (fslock s1 + 1) s1)) as Hok1 by (apply ok_lock, (ok_quiet_held 1 0 s); done).
  assert (fslock s1 = fslock s) as HL by apply H1.
  unfold dfs_lock, dfs_unlock. wp_step. wp_step. wp_step.
  eapply (wp_opendir p r'); [exact Hok1|done|done| |done| |].
  { unfold gets_memory in *. cbn. by rewrite Ha, lookup_tail. }
  - intros s2 [Hok2 HL2] _. wp_step. apply wp_free. intros s3 H3 _. wp_step. wp_step. wp_step. split.
    + by eapply ok_lock, ok_free.
    + cbn. rewrite (keeps_lock _ _ (quiet_keeps _ _ _ H3)), HL2. cbn. lia.
  - intros k i q d' s2 _ _ _ _ Hk [Hok2 HL2] Ht. wp_step.
    eapply wp_closedir; [exact Hok2|done| |].
    { replace (dirs s2) with (<[k := mk_dir (Z.of_nat i) (replicate DIR_BUF 0) 0 0]> (dirs s1)) by (symmetry; apply Ht).
      apply lookup_insert_eq. }
    intros a s3 [Hok3 HL3]. wp_step. wp_step. wp_step. apply wp_free. intros s4 H4 _. wp_step. wp_step. wp_step. split.
    + eapply ok_lock, ok_free; [|exact H4]. destruct Hok3. split; try done. cbn [working_directory set_working_directory].
      rewrite take_ge by lia. done.
    + cbn. rewrite (keeps_lock _ _ (quiet_keeps _ _ _ H4)). cbn. rewrite HL3, HL2. cbn. lia.
Qed.

Lemma unlink_fine path s :
  dfs_ok s → resolves s path → wp (unlink operations path) s (λ _ s', fine 0 s s').
Proof.
  intros Hok Hr. unfold unlink. wp_step. eapply wp_unlink; [exact Hok|done|]. intros a s' H.
  destruct (a <? 0); [eapply wp_fail_after; [by apply fine_quiet|done]|wp_step; by apply fine_quiet].
Qed.

Lemma stat_fine path s : dfs_ok s → resolves s path → wp (stat operations path) s (λ _ s', fine 0 s s').
Proof.
  intros Hok Hr. unfold stat. wp_step. eapply wp_stat; [exact Hok|done|]. intros [a buf] s' H.
  destruct (a <? 0); wp_step; [eapply wp_fail_after; [by apply fine_quiet|intros; by wp_step]|by apply fine_quiet].
Qed.

Lemma rename_fine old new s :
  dfs_ok s → resolves s old → resolves s new → renames s old new →
  wp (rename operations old new) s (λ _ s', fine 0 s s').
Proof.
  intros Hok Ho Hn Hr. unfold rename. wp_step. eapply wp_rename; [exact Hok|done|done|done|]. intros a s' H.
  destruct (a <? 0); [eapply wp_fail_after; [by apply fine_quiet|done]|wp_step; by apply fine_quiet].
Qed.

Lemma statfs_fine path s : dfs_ok s → wp (statfs operations path) s (λ _ s', fine 0 s s').
Proof.
  intros Hok. unfold statfs. wp_step. apply wp_statfs. intros [a buf] s' H.
  destruct (a <? 0); wp_step; [eapply wp_fail_after; [by apply fine_quiet|intros; by wp_step]|by apply fine_quiet].
Qed.
End Paths.
