(* ===== verification/DfsMount.v ===== *)
(** Mounting, unmounting and registering file systems keep the invariant. *)

From Stdlib Require Import ZArith Lia.
From stdpp Require Import numbers base gmap list.
From S2P Require Import Prelude DfsPath Dfs DfsPosix DfsInv DfsCalls.
Local Open Scope Z_scope.

Section Mount.
Context {W : Type} {devices : Devices W} {operations : nat → dfs_filesystem_operation W}.
Context `{!FileSystems devices operations}.
Implicit Types s : dfs W.

(** ** The table of mounted file systems *)

Definition unused (i : nat) s : Prop := Forall (λ d, fd_fs d ≠ Some i) (fd_table s).

(** An entry may change when it stays mounted or no file is open on it. *)
Lemma ok_set_fs held held' i e e' s :
  dfs_inv held s → filesystem_table s !! i = Some e → mount_ok e' → mounted e' ∨ unused i s →
  held' = held + owned (fs_path e) - owned (fs_path e') →
  dfs_inv held' (set_fs_table (<[i := e']> (filesystem_table s)) s).
Proof.
  intros [? ? ? ? Hfd Hl ?] He Hok Hu ->.
  split; cbn [filesystem_operation_table filesystem_table fd_table live dirs working_directory set_fs_table]; try done.
  - by rewrite length_insert.
  - by apply Forall_insert.
  - apply Forall_lookup. intros j d Hd. destruct (Forall_lookup_1 _ _ _ _ Hfd Hd) as [->|Ho]; [by left|right].
    destruct Ho as (? & ? & ? & (k & f & Hk & Hf & Hm)). split_and!; [done|done|done|].
    destruct (decide (k = i)) as [->|].
    + destruct Hu as [Hm'|Hu]; [|by destruct (Forall_lookup_1 _ _ _ _ Hu Hd)].
      exists i, e'. rewrite list_lookup_insert_eq by (by eapply lookup_lt_Some). done.
    + exists k, f. by rewrite list_lookup_insert_ne.
  - erewrite total_insert by done. cbn [compose]. lia.
Qed.

Lemma wp_put_fs i e e' s Q :
  filesystem_table s !! i = Some e → Q tt (set_fs_table (<[i := e']> (filesystem_table s)) s) → wp (put_fs i e') s Q.
Proof. intros H HQ. unfold put_fs. wp_step. eapply wp_get_fs; [done|]. by wp_step. Qed.

(** Nothing is open on an entry that is not mounted. *)
Lemma zero_unused held i s : dfs_inv held s → filesystem_table s !! i = Some zero_fs → unused i s.
Proof.
  intros Hok Hi. eapply Forall_impl; [exact (ok_fd _ _ Hok)|]. intros d [->|(_ & _ & _ & (j & e & Hj & He & [[p Hp] _]))]; [done|].
  intros E. rewrite E in Hj. injection Hj as ->. rewrite Hi in He. injection He as <-. done.
Qed.

Lemma mount_ok_ops e : mount_ok e → fs_ops e = None → e = zero_fs.
Proof. intros [->|[_ [o E]]] H; [done|congruence]. Qed.

Lemma same_fs_mounted e e' : mounted e → same_fs e e' → mounted e'.
Proof. intros [H1 H2] (E1 & E2 & _). split; congruence. Qed.

Lemma wp_mount_slot path (t0 t : list dfs_filesystem) i fs s Q :
  Forall mount_ok t → (∀ k e, t !! k = Some e → t0 !! (i + k)%nat = Some e) →
  match fs with Some j => t0 !! j = Some zero_fs | None => True end →
  (∀ r, match r with Some (Some j) => t0 !! j = Some zero_fs | _ => True end → Q r s) →
  wp (mount_slot path t i fs) s Q.
Proof.
  intros Hok. revert i fs. induction Hok as [|e t He _ IH]; intros i fs Ht Hfs HQ; cbn [mount_slot].
  { wp_step. apply HQ. by destruct fs. }
  assert (∀ k e', t !! k = Some e' → t0 !! (S i + k)%nat = Some e') as Ht'.
  { intros k e' H. rewrite <- (Ht (S k) e') by done. f_equal. lia. }
  destruct (fs_ops e) as [o|] eqn:Eo.
  - destruct He as [->|[[p Hp] _]]; [done|]. rewrite Hp. wp_step. wp_step.
    destruct (bool_decide _); [wp_step; by apply HQ|by apply IH].
  - apply IH; [done| |done]. destruct fs; [done|]. rewrite <- (mount_ok_ops e He Eo), <- (Ht 0%nat e) by done.
    f_equal. lia.
Qed.

(** The error path, with the lock taken and the path allocated. *)
Lemma wp_mount_error p s s1 Q :
  dfs_inv 1 s1 → fslock s1 = fslock s + 1 → (∀ s', fine 0 s s' → Q (-1) s') → wp (mount_error (Some p)) s1 Q.
Proof.
  intros Hok HL HQ. unfold mount_error, dfs_unlock. wp_step. wp_step. wp_step. apply wp_free. intros s2 H2 _. wp_step.
  apply HQ. split; [by eapply ok_free, H2; apply ok_lock|].
  rewrite (keeps_lock _ _ (quiet_keeps _ _ _ H2)). cbn. lia.
Qed.

Lemma wp_dev_close d s Q : (∀ s', quiet 0 s s' → Q tt s') → wp (on_world (rt_device_close d);; mret tt) s Q.
Proof. intros HQ. wp_step. eapply wp_on_world; [apply law_dev_close|]. intros a w s' _ H _. wp_step. auto. Qed.

(** ** Unmounting *)

(** No file is open on what is mounted there: the code does not look. *)
Definition unmounts s (path : list Z) : Prop :=
  resolves s path ∧
  ∀ p i e, resolved (full_path (working_directory s) path) = Ok (Some p) →
    filesystem_table s !! i = Some e → fs_path e = Some p → unused i s.

Lemma unmount_fine path s :
  dfs_ok s → unmounts s path → wp (dfs_unmount operations path) s (λ _ s', fine 0 s s').
Proof.
  intros Hok [[Hc [r Hr]] Hfree]. unfold dfs_unmount. wp_step.
  eapply wp_normalize; [apply (ok_cwd _ _ Hok)|done|done|]. intros [p|] s1 H1 _ Hp _; cycle 1.
  { wp_step. apply wp_set_errno. intros s2 H2. wp_step. eapply fine_quiet_after; [by apply fine_quiet|done]. }
  destruct Hp as [|<-]; [done|].
  assert (dfs_inv 1 (set_fslock (fslock s1 + 1) s1)) as Hok1 by (apply ok_lock, (ok_quiet_held 1 0 s); done).
  assert (fslock s1 = fslock s) as HL by apply H1.
  assert (filesystem_table s1 = filesystem_table s ∧ fd_table s1 = fd_table s) as [Et Ef] by (split; apply H1).
  unfold dfs_lock. wp_step. wp_step. wp_step. wp_step.
  cbn [filesystem_table set_fslock]. destruct (list_find _ _) as [[i e]|] eqn:Ei.
  2: { eapply (wp_mount_error p s); [exact Hok1|cbn; lia|done]. }
  apply list_find_Some in Ei as (He & Hpath & _). rewrite Et in He.
  assert (mounted e) as Hm.
  { destruct (Forall_lookup_1 _ _ _ _ (ok_mount _ _ Hok) He) as [->|]; done. }
  destruct (Hm) as [_ [o Ho]]. wp_step. eapply wp_ops_of; [done|].
  destruct (op_unmount _) as [f|] eqn:E. 2: { eapply (wp_mount_error p s); [exact Hok1|cbn; lia|done]. }
  wp_step. eapply wp_on_world; [by eapply law_unmount|]. intros [a e'] w s2 Hs H2 _. cbn [snd] in Hs.
  assert (filesystem_table s2 = filesystem_table s ∧ fd_table s2 = fd_table s ∧ fslock s2 = fslock s + 1) as (Et2 & Ef2 & HL2).
  { destruct H2 as [[_ T _ L _] F _ _]. cbn in T, L, F. split_and!; congruence. }
  wp_step. eapply wp_put_fs; [by rewrite Et2|]. set (s3 := set_fs_table _ s2).
  assert (dfs_inv 1 s3) as Hok3.
  { eapply ok_set_fs; [eapply ok_quiet; [exact Hok1|exact H2]|by rewrite Et2|right; by eapply same_fs_mounted|left; by eapply same_fs_mounted|].
    destruct Hs as (-> & _). lia. }
  destruct (a <? 0); [eapply (wp_mount_error p s); [exact Hok3|done|done]|].
  wp_step. apply (wp_mono _ _ (λ _ s', quiet 0 s3 s')).
  { destruct (dev_id e'); [by apply wp_dev_close|wp_step; apply quiet_refl]. }
  intros _ s4 H4. wp_step. apply wp_free. intros s5 H5 _. unfold dfs_unlock.
  assert (filesystem_table s5 !! i = Some e') as He5.
  { destruct H4 as [[_ T4 _ _ _] _ _ _], H5 as [[_ T5 _ _ _] _ _ _]. rewrite T5, T4. cbn. rewrite Et2.
    apply list_lookup_insert_eq. by eapply lookup_lt_Some. }
  wp_step. eapply wp_put_fs; [exact He5|]. wp_step. wp_step. wp_step. apply wp_free. intros s6 H6 _. wp_step.
  assert (fd_table s5 = fd_table s) as Ef5.
  { destruct H4 as [_ F4 _ _], H5 as [_ F5 _ _]. rewrite F5, F4. done. }
  split.
  - eapply ok_free; [|exact H6]. apply ok_lock. eapply ok_set_fs; [|exact He5|by left| |].
    + eapply ok_quiet_held; [eapply ok_quiet; [exact Hok3|exact H4]|exact H5].
    + right. unfold unused. rewrite Ef5. by eapply Hfree.
    + cbn. lia.
  - destruct H6 as [[_ _ _ L6 _] _ _ _], H5 as [[_ _ _ L5 _] _ _ _], H4 as [[_ _ _ L4 _] _ _ _]. cbn in *. lia.
Qed.

(** ** Mounting *)

Lemma ok_stack held d s s' : dfs_inv held s → touch Stack d 0 s s' → dfs_inv held s'.
Proof.
  intros [? ? ? ? ? ? ?] [[K1 K2 K3 K4 K5] [E _] L]. split; rewrite ?K1, ?K2, ?K3, ?E, ?K5, ?L, ?Z.add_0_r; done.
Qed.

(** The directory is opened and closed again, with a descriptor on the stack. *)
Lemma wp_check_directory p s Q :
  closes_succeed operations → cwd_ok s → resolves s p → gets_memory 1 s →
  (∀ a d s', touch Stack d 0 s s' → Q a s') →
  wp (if bool_decide (p = [slash]) || bool_decide (p = [slash; 100; 101; 118]) then mret 0
      else
        r ← dfs_file_open operations (Some Stack) p (Z.lor DFS_O_RDONLY DFS_O_DIRECTORY);
        if r <? 0 then mret r else dfs_file_close operations (Some Stack);; mret 0) s Q.
Proof.
  intros Hcl Hcwd [Hc [r Hr]] Hm HQ. destruct (_ || _); [wp_step; eapply HQ; by apply touch_id|]. wp_step.
  eapply (wp_file_open Stack); [done|done|done|done|exact Hr| |].
  - intros a d' s' Ha _ _ _ Ht. rewrite (proj2 (Z.ltb_lt _ _)) by done. wp_step. by eapply HQ.
  - intros q d' s' _ _ _ Hop Ht. change (0 <? 0) with false. cbv iota. wp_step.
    eapply wp_file_close; [by eapply (at_touch Stack)| | |].
    + replace (filesystem_table s') with (filesystem_table s) by (symmetry; apply Ht). by eapply opens_on_mount.
    + intros ? ? ? _ _ _ Hn. done.
    + intros a d2 s2 _ _ H2. wp_step. destruct Hop as (? & ? & ? & ? & _ & _ & _ & _ & _ & E). rewrite E in H2.
      eapply HQ. by eapply touch_trans.
Qed.

(** The type is found before an entry of the table that is empty. *)
Definition type_known s (name : list Z) : Prop :=
  ∃ r, ∀ s', find_type operations name (filesystem_operation_table s) s' = Ok (r, s').
Definition mounts s (path filesystemtype : list Z) : Prop :=
  type_known s filesystemtype ∧ resolves s path ∧ gets_memory 2 s.

(** What is done with the entry [i] that has been found. *)
Lemma wp_mount_entry i p ops mount dev rwflag data s s1 Q :
  dfs_inv 1 s1 → fslock s1 = fslock s + 1 → filesystem_table s1 !! i = Some zero_fs →
  op_mount (operations ops) = Some mount → (∀ a s', fine 0 s s' → Q a s') →
  wp (e ← get_fs i;
      put_fs i (mk_fs dev (Some p) (Some ops) (fs_data e));;
      dfs_unlock;;
      err ← match dev with None => mret 0 | Some d => on_world (rt_device_open d) end;
      if negb (err =? 0) then dfs_lock;; put_fs i zero_fs;; mount_error (Some p)
      else
        e ← get_fs i;
        '(result, e) ← on_world (mount e rwflag data);
        put_fs i e;;
        if result <? 0 then
          match dev with None => mret tt | Some _ => d ← deref (dev_id e); on_world (rt_device_close d);; mret tt end;;
          dfs_lock;; put_fs i zero_fs;; mount_error (Some p)
        else mret 0) s1 Q.
Proof.
  intros Hok HL Hi Emount HQ. pose proof (zero_unused _ _ _ Hok Hi) as Hu.
  wp_step. eapply wp_get_fs; [done|]. wp_step. eapply wp_put_fs; [done|]. set (e1 := mk_fs _ _ _ _).
  unfold dfs_unlock. wp_step. wp_step. set (s2 := set_fslock _ _).
  assert (dfs_ok s2) as Hok2.
  { apply ok_lock. eapply ok_set_fs; [exact Hok|done|right; split; by eexists|left; split; by eexists|done]. }
  assert (filesystem_table s2 !! i = Some e1) as Hi2 by (apply list_lookup_insert_eq; by eapply lookup_lt_Some).
  assert (fslock s2 = fslock s) as HL2 by (cbn; lia). assert (unused i s2) as Hu2 by done.
  assert (∀ s3 e3, dfs_ok s3 → fd_table s3 = fd_table s2 → fslock s3 = fslock s2 → filesystem_table s3 !! i = Some e3 →
    fs_path e3 = Some p → wp (dfs_lock;; put_fs i zero_fs;; mount_error (Some p)) s3 Q) as Hundo.
  { intros s3 e3 Hok3 Ef3 HL3 Hi3 Hp3. unfold dfs_lock. wp_step. wp_step. wp_step. eapply wp_put_fs; [exact Hi3|].
    eapply (wp_mount_error p s); [|cbn; lia|auto].
    eapply ok_set_fs; [apply ok_lock; exact Hok3|exact Hi3|by left|right|by rewrite Hp3].
    unfold unused. cbn. by rewrite Ef3. }
  wp_step. apply (wp_mono _ _ (λ _ s', quiet 0 s2 s')).
  { destruct dev; [|wp_step; apply quiet_refl]. eapply wp_on_world; [apply law_dev_open|]. by intros. }
  intros err s3 H3. pose proof (ok_quiet _ _ _ Hok2 H3) as Hok3.
  destruct (H3) as [[_ T3 _ L3 _] F3 _ _]. rewrite <- T3 in Hi2.
  destruct (negb _); [eapply Hundo; [done|done|done|exact Hi2|done]|].
  wp_step. eapply wp_get_fs; [done|]. wp_step. eapply wp_on_world; [by eapply law_mount|].
  intros [a e4] w s4 Hs H4 _. cbn [snd] in Hs. destruct (H4) as [[_ T4 _ L4 _] F4 _ _]. rewrite <- T4 in Hi2.
  wp_step. eapply wp_put_fs; [done|]. set (s5 := set_fs_table _ s4).
  assert (dfs_ok s5) as Hok5.
  { assert (mounted e4) by (eapply same_fs_mounted; [|exact Hs]; split; by eexists).
    eapply ok_set_fs; [eapply ok_quiet; [exact Hok3|exact H4]|exact Hi2|by right|by left|]. destruct Hs as (-> & _). lia. }
  destruct (a <? 0); [|wp_step; apply HQ; split; [done|cbn; congruence]].
  wp_step. apply (wp_mono _ _ (λ _ s', quiet 0 s5 s')).
  { destruct dev as [v|]; [|wp_step; apply quiet_refl]. destruct Hs as (_ & _ & Ev). rewrite Ev. wp_step. wp_step.
    by apply wp_dev_close. }
  intros _ s6 H6. destruct (H6) as [[_ T6 _ L6 _] F6 _ _].
  eapply (Hundo s6 e4); [by eapply ok_quiet|rewrite F6; change (fd_table s4 = fd_table s2); congruence
    |rewrite L6; change (fslock s4 = fslock s2); congruence| |by apply Hs].
  rewrite T6. apply list_lookup_insert_eq. by eapply lookup_lt_Some.
Qed.

Lemma mount_fine device_name path filesystemtype rwflag data s :
  dfs_ok s → closes_succeed operations → mounts s path filesystemtype →
  wp (dfs_mount operations device_name path filesystemtype rwflag data) s (λ _ s', fine 0 s s').
Proof.
  intros Hok Hcl ([ty Hty] & [Hc [r Hr]] & Hm). unfold dfs_mount. wp_step.
  apply (wp_mono _ _ (λ _ s', quiet 0 s s' ∧ allocs s' = allocs s)).
  { destruct device_name; [|wp_step; split; [apply quiet_refl|done]]. eapply wp_on_world; [apply law_find|]. by intros. }
  intros dev s1 [H1 Ha1].
  assert (∀ e s', quiet 0 s s' → wp (set_error_number e;; mret (-1)) s' (λ _ s', fine 0 s s')) as Herr.
  { intros e s' H. wp_step. apply wp_set_errno. intros s2 H2. wp_step. eapply fine_quiet_after; [by apply fine_quiet|done]. }
  destruct (bool_decide _); [by apply Herr|]. unfold dfs_lock, dfs_unlock. wp_step. wp_step. wp_step. wp_step. wp_step.
  unfold wp at 1. cbn [filesystem_operation_table set_fslock].
  rewrite (keeps_types _ _ (quiet_keeps _ _ _ H1)), Hty. wp_step. wp_step.
  set (s2 := set_fslock _ _).
  assert (quiet 0 s s2) as H2.
  { destruct H1 as [[? ? ? ? ?] ? ? ?]. split; [split; cbn; try done; lia|done|done|done]. }
  destruct ty as [ops|]; [|by apply Herr]. destruct (op_mount _) as [mount|] eqn:Em; [|by apply Herr].
  pose proof (ok_quiet _ _ _ Hok H2) as Hok2. wp_step.
  assert (working_directory s2 = working_directory s) as Ew by apply H2.
  eapply wp_normalize; [apply (ok_cwd _ _ Hok2)|done|by rewrite Ew|]. intros [p|] s3 H3 Ha3 Hp _; cycle 1.
  { wp_step. apply wp_set_errno. intros s4 H4. wp_step. eapply fine_quiet_after; [|exact H4].
    eapply fine_quiet; [done|by eapply quiet_trans]. }
  destruct Hp as [|<-]; [done|].
  assert (quiet 1 s s3) as H03 by by eapply quiet_trans.
  pose proof (ok_quiet_held _ _ _ _ Hok H03) as Hok3. cbn in Hok3.
  wp_step. eapply wp_check_directory; [done|apply (ok_cwd _ _ Hok3)| | |].
  { destruct (resolved_again _ p (working_directory s3) (cstr_full_path _ _ (proj1 (ok_cwd _ _ Hok)) Hc) Hr). by split. }
  { unfold gets_memory in *. rewrite Ha3, lookup_tail. cbn. by rewrite Ha1. }
  intros opened d s4 H4. pose proof (ok_stack _ _ _ _ Hok3 H4) as Hok4.
  assert (fslock s4 = fslock s) as HL4 by (transitivity (fslock s3); [apply H4|apply H03]).
  destruct (opened <? 0).
  { wp_step. apply wp_free. intros s5 H5 _. wp_step. apply wp_set_errno. intros s6 H6. wp_step.
    eapply fine_quiet_after; [|exact H6]. split; [by eapply ok_free|rewrite <- HL4; apply H5]. }
  wp_step. wp_step. wp_step. wp_step. wp_step. cbn [filesystem_table set_fslock].
  eapply wp_mount_slot; [apply (ok_mount _ _ Hok4)|intros k e H; exact H|done|].
  assert (dfs_inv 1 (set_fslock (fslock s4 + 1) s4)) as Hok5 by by apply ok_lock.
  assert (∀ e, wp (set_error_number e;; mount_error (Some p)) (set_fslock (fslock s4 + 1) s4) (λ _ s', fine 0 s s')) as Herr5.
  { intros e. wp_step. apply wp_set_errno. intros s6 H6. eapply (wp_mount_error p s); [by eapply ok_quiet| |done].
    rewrite (keeps_lock _ _ (quiet_keeps _ _ _ H6)). cbn. lia. }
  intros [[i|]|] Hi; [|apply Herr5|apply Herr5].
  eapply (wp_mount_entry _ _ _ _ _ _ _ s); [exact Hok5|cbn; lia|exact Hi|done|done].
Qed.

(** ** Registering, and making a file system *)

Lemma register_fine ops s : dfs_ok s → wp (dfs_register operations ops) s (λ _ s', fine 0 s s').
Proof.
  intros Hok. unfold dfs_register, dfs_lock, dfs_unlock. wp_step. wp_step. wp_step. wp_step. wp_step.
  destruct (register_loop _ _ _ _ _) as [[i|]|]; wp_steps; (split; [|cbn; lia]); destruct Hok; split; try done.
  cbn. by rewrite length_insert.
Qed.

Lemma mkfs_fine fs_name device_name s :
  dfs_ok s → wp (dfs_mkfs operations fs_name device_name) s (λ _ s', fine 0 s s').
Proof.
  intros Hok. unfold dfs_mkfs. wp_step. apply (wp_mono _ _ (λ _ s', quiet 0 s s')).
  { destruct device_name; [|wp_step; apply quiet_refl]. eapply wp_on_world; [apply law_find|]. by intros. }
  intros [d|] s1 H1; cycle 1.
  { wp_step. apply wp_set_errno. intros s2 H2. wp_step. eapply fine_quiet_after; [by apply fine_quiet|done]. }
  unfold dfs_lock, dfs_unlock. wp_step. wp_step. wp_step. wp_step. wp_step. wp_step.
  match goal with |- wp _ ?x _ => set (s2 := x) end. assert (quiet 0 s s2) as H2.
  { destruct H1 as [[? ? ? ? ?] ? ? ?]. split; [split; cbn; try done; lia|done|done|done]. }
  pose proof (fine_quiet _ _ Hok H2) as Hf2.
  destruct (list_find _ _) as [[i [o|]]|]; [|by wp_step|by wp_step]. destruct (op_mkfs _) as [f|] eqn:E.
  - eapply wp_on_world; [by eapply law_mkfs|]. intros a w s3 _ H3 _. by eapply fine_quiet_after.
  - wp_step. apply wp_set_errno. intros s3 H3. wp_step. by eapply fine_quiet_after.
Qed.
End Mount.
