(* ===== verification/DfsSpec.v ===== *)
(** What the virtual file system does: paths, mount points, descriptors and calls in sequence. *)

From Stdlib Require Import ZArith Lia.
From stdpp Require Import numbers base gmap list.
From S2P Require Import Prelude DfsPath Dfs DfsPosix DfsInv DfsCalls DfsMount.
Local Open Scope Z_scope.

(** * Mount points *)

(** The entry [e] is mounted at [m], at or above [path]. *)
Definition covers (path : list Z) (e : dfs_filesystem) (m : list Z) : Prop :=
  fs_path e = Some m ∧ is_Some (fs_ops e) ∧ under m path = true.

(** [j] with [m'] comes after [i] with [m] in the search. *)
Definition no_better (path : list Z) (t : list dfs_filesystem) (i : nat) (m : list Z) : Prop :=
  ∀ j e m', t !! j = Some e → covers path e m' → (length m' < length m)%nat ∨ length m' = length m ∧ (j <= i)%nat.

Lemma lookup_loop_longest path t : ∀ i t0 fs n,
  (length t0 = i)%nat →
  match fs with
  | Some j => ∃ e m, t0 !! j = Some e ∧ covers path e m ∧ no_better path t0 j m ∧ n = length m
  | None => n = 0%nat ∧ ∀ j e m, t0 !! j = Some e → ¬ covers path e m
  end →
  match lookup_loop path t i fs n with
  | Some j => ∃ e m, (t0 ++ t) !! j = Some e ∧ covers path e m ∧ no_better path (t0 ++ t) j m
  | None => ∀ j e m, (t0 ++ t) !! j = Some e → ¬ covers path e m
  end.
Proof.
  induction t as [|x t IH]; intros i t0 fs n Hi Hfs.
  { cbn [lookup_loop]. rewrite app_nil_r. destruct fs; [|by destruct Hfs]. destruct Hfs as (e & m & ? & ? & ? & _). eauto. }
  replace (t0 ++ x :: t) with ((t0 ++ [x]) ++ t) by by rewrite <- app_assoc.
  assert (length (t0 ++ [x]) = S i) as Hi' by (rewrite length_app; cbn; lia).
  assert (∀ j e, (t0 ++ [x]) !! j = Some e → t0 !! j = Some e ∨ j = i ∧ e = x) as Hcase.
  { intros j e [H|[Hj H]]%lookup_app_Some; [by left|right]. apply list_lookup_singleton_Some in H as [? <-]. split; [lia|done]. }
  assert ((∀ m, covers path x m → match fs with Some _ => (length m < n)%nat | None => False end) →
    match lookup_loop path t (S i) fs n with
    | Some j => ∃ e m, ((t0 ++ [x]) ++ t) !! j = Some e ∧ covers path e m ∧ no_better path ((t0 ++ [x]) ++ t) j m
    | None => ∀ j e m, ((t0 ++ [x]) ++ t) !! j = Some e → ¬ covers path e m
    end) as Hskip.
  { intros Hx. apply IH; [done|]. destruct fs as [j|].
    - destruct Hfs as (e & m & He & Hc & Hb & ->). exists e, m. split_and!; [by apply lookup_app_l_Some|done| |done].
      intros j' e' m' He' Hc'. destruct (Hcase _ _ He') as [|[-> ->]]; [by eapply Hb|left; by apply Hx].
    - destruct Hfs as [-> Hno]. split; [done|]. intros j e m He Hc. destruct (Hcase _ _ He) as [|[-> ->]]; [by eapply Hno|by eapply Hx]. }
  cbn [lookup_loop]. destruct (fs_path x) as [m|] eqn:Ep; [|apply Hskip; intros m [E _]; congruence].
  destruct (fs_ops x) as [o|] eqn:Eo; [|apply Hskip; intros m' (_ & [? E] & _); congruence].
  destruct (Nat.ltb_spec (length m) n) as [Hlt|Hge]; cbn [orb].
  { apply Hskip. intros m' [E _]. rewrite Ep in E. injection E as <-. destruct fs; [done|]. destruct Hfs as [-> _]. lia. }
  destruct (under m path) eqn:Eu; cbn [negb]; [|apply Hskip; intros m' (E & _ & E'); congruence].
  apply IH; [done|]. exists x, m. split_and!; [by rewrite lookup_app_r, Hi, Nat.sub_diag by lia|by split_and!; try eexists| |done].
  intros j e m' He Hc. destruct (Hcase _ _ He) as [He0|[-> ->]].
  - destruct fs as [k|]; [|by destruct Hfs as [_ Hno]; eapply Hno in Hc].
    destruct Hfs as (e0 & m0 & _ & _ & Hb & ->). apply lookup_lt_Some in He0 as Hj. destruct (Hb _ _ _ He0 Hc); lia.
  - right. destruct Hc as [E _]. rewrite Ep in E. by injection E as <-.
Qed.

(** ** Components *)

Lemma outs_app rooted st st' : outs (rooted, st' ++ st) = outs (rooted, st) ++ outs (false, st').
Proof.
  unfold outs. cbn [fst snd app]. rewrite rev_app_distr, fmap_app, concat_app. by rewrite app_assoc.
Qed.

(** A place below another one, as text. *)
Lemma render_below st c st' :
  st ≠ [] → render (true, (c :: st') ++ st) = render (true, st) ++ slash :: render (false, c :: st').
Proof.
  intros Hst. destruct st as [|d st]; [done|]. cbn [app]. rewrite !render_cons, outs_app, outs_cons, <- !app_assoc. done.
Qed.

Lemma render_length st c st' : plain c → (length (render (true, st)) < length (render (true, (c :: st') ++ st)))%nat.
Proof.
  intros [Hc _]. destruct st as [|d st].
  - rewrite app_nil_r, render_cons. cbn. rewrite length_app. unfold outs. cbn. destruct c; [done|]. cbn. lia.
  - rewrite render_below by done. rewrite length_app. cbn [length]. lia.
Qed.

(** The mount point is at or above the path: its components begin the path's. *)
Lemma under_components m p :
  named (true, m) → named (true, p) → under (render (true, m)) (render (true, p)) = true ↔ m `suffix_of` p.
Proof.
  intros Hm Hp. assert (∀ st, named (true, st) → Forall plain st) as Hpl.
  { intros st H. eapply Forall_impl; [exact H|]. by intros x []. }
  assert (∀ st, named (true, st) → comps (render (true, st)) = rev st) as Hcomps by (intros; apply comps_render; auto).
  unfold under, prefix_of. split.
  - intros [Hpre Hsep]%andb_prop. apply bool_decide_eq_true in Hpre. apply negb_true_iff in Hsep.
    destruct m as [|c m]; [by apply suffix_nil|].
    assert (1 < length (render (true, c :: m)))%nat as H1.
    { rewrite <- (app_nil_r (c :: m)). apply (render_length [] c m). by destruct (Forall_inv Hm). }
    pose proof (take_drop (length (render (true, c :: m))) (render (true, p))) as E. rewrite Hpre in E.
    destruct (drop _ _) as [|x rest].
    + rewrite app_nil_r in E. apply (f_equal comps) in E. rewrite !Hcomps in E by done. apply (f_equal (@rev _)) in E.
      rewrite !rev_involutive in E. by exists [].
    + rewrite <- E in Hsep. rewrite lookup_app_r, Nat.sub_diag, length_app in Hsep by lia. cbn [length lookup list_lookup] in Hsep.
      rewrite !(proj2 (Nat.ltb_lt _ _)) in Hsep by lia. cbn [andb] in Hsep.
      apply negb_false_iff, bool_decide_eq_true in Hsep. injection Hsep as ->.
      apply (f_equal comps) in E. rewrite comps_slash, !Hcomps in E by done. apply (f_equal (@rev _)) in E.
      rewrite rev_app_distr, !rev_involutive in E. by exists (rev (comps rest)).
  - intros [[|c k] ->].
    { cbn [app]. rewrite take_ge, bool_decide_true, (Nat.ltb_irrefl (length (render (true, m)))), andb_false_r by done. done. }
    destruct m as [|d m].
    + rewrite app_nil_r. cbn [andb negb Nat.ltb Nat.leb]. rewrite render_cons. unfold outs. cbn. by rewrite bool_decide_true.
    + rewrite render_below by done. rewrite take_app_length, bool_decide_true by done. cbn [andb].
      rewrite lookup_app_r, Nat.sub_diag by lia. cbn [lookup list_lookup]. by rewrite bool_decide_true, andb_false_r by done.
Qed.

Lemma render_inj m m' : named (true, m) → named (true, m') → render (true, m) = render (true, m') → m = m'.
Proof.
  intros Hm Hm' E. apply (f_equal comps) in E.
  rewrite !comps_render in E by (eapply Forall_impl; [eassumption|]; by intros x []).
  apply (f_equal (@rev _)) in E. by rewrite !rev_involutive in E.
Qed.

(** Of two places above the same one, the longer text is the deeper place. *)
Lemma suffix_by_length m m' p :
  named (true, m) → named (true, m') → m `suffix_of` p → m' `suffix_of` p →
  (length (render (true, m')) <= length (render (true, m)))%nat → m' `suffix_of` m.
Proof.
  intros Hm Hm' H H' Hle. destruct (suffix_weak_total m m' p H H') as [[[|c r] ->]|]; [by exists []| |done].
  apply Forall_inv in Hm' as (Hc & _). pose proof (render_length m c r Hc). lia.
Qed.

Section Spec.
Context {W : Type} {devices : Devices W} {operations : nat → dfs_filesystem_operation W}.
Implicit Types s : dfs W.

(** Something is mounted at the place [m] (its components, last one first), in the entry [i]. *)
Definition mounted_at s (i : nat) (m : list (list Z)) : Prop :=
  named (true, m) ∧ ∃ e, filesystem_table s !! i = Some e ∧ fs_path e = Some (render (true, m)) ∧ is_Some (fs_ops e).

(** The mount points are normal absolute paths. *)
Definition normal_mounts s : Prop :=
  ∀ i e p, filesystem_table s !! i = Some e → fs_path e = Some p → ∃ m, named (true, m) ∧ p = render (true, m).

(** C25: for a normal absolute path [dfs_filesystem_lookup] returns the deepest mount point at or
    above it: the components of the mount point begin those of the path, every other mount point
    that does so lies above it, and of two entries with the same mount point the later one is
    returned; RT_NULL only if nothing is mounted at or above the path.  The state is as before. *)
Theorem lookup_deepest_mount s p :
  named (true, p) → normal_mounts s →
  wp (dfs_filesystem_lookup (render (true, p))) s (λ r s', s' = s ∧
    match r with
    | Some i => ∃ m, mounted_at s i m ∧ m `suffix_of` p ∧
        ∀ j m', mounted_at s j m' → m' `suffix_of` p → m' `suffix_of` m ∧ (m' = m → (j <= i)%nat)
    | None => ∀ j m, mounted_at s j m → ¬ m `suffix_of` p
    end).
Proof.
  intros Hp Hn. unfold dfs_filesystem_lookup, dfs_lock, dfs_unlock. wp_steps.
  split. { destruct s. unfold set_fslock. cbn. f_equal. lia. }
  pose proof (lookup_loop_longest (render (true, p)) (filesystem_table s) 0 [] None 0 eq_refl) as H.
  cbn [filesystem_table set_fslock app] in *.
  assert (∀ j m, mounted_at s j m → m `suffix_of` p → ∃ e, filesystem_table s !! j = Some e ∧
    covers (render (true, p)) e (render (true, m))) as Hcov.
  { intros j m (Hm & e & He & Hpath & Ho) Hs. exists e. split; [done|]. split_and!; [done|done|].
    by apply under_components. }
  destruct (lookup_loop _ _ _ _ _) as [i|].
  - destruct H as (e & t & He & (Ht & Ho & Hu) & Hb); [done|]. destruct (Hn i e t He Ht) as (m & Hm & ->).
    apply under_components in Hu as Hsuf; [|done|done]. exists m.
    split_and!; [split; [done|by exists e]|done|]. intros j m' Hmj Hs'. destruct (Hcov j m' Hmj Hs') as (e' & He' & Hc').
    specialize (Hb j e' _ He' Hc'). split.
    + eapply suffix_by_length; [done|apply Hmj|done|done|lia].
    + intros ->. lia.
  - intros j m Hm Hs. destruct (Hcov j m Hm Hs) as (e & He & Hc). by eapply H.
Qed.

(** * Paths *)

(** C24: [dfs_normalize_path] with no directory computes the walk that the path describes: from
    the root if it begins with a slash, otherwise from the working directory; empty components
    and [.] are skipped and [..] goes up.  It returns the place as text, newly allocated.  Where
    the path leads above the root and goes on, the result is a path that does not begin with a
    slash; above that it is RT_NULL, with nothing allocated; and where the walk ends above the
    root the code reads the byte in front of the string. *)
Theorem normalize_walks s dir filename :
  named (true, dir) → working_directory s = render (true, dir) → (length (working_directory s) < DFS_PATH_MAX)%nat →
  cstr filename → gets_memory 0 s →
  match walk (true, if is_rooted filename then [] else dir) (comps filename) with
  | Some (false, []) => dfs_normalize_path None filename s = Err F_pointer
  | Some p => wp (dfs_normalize_path None filename) s (λ r s', r = Some (render p) ∧ live s' = live s + 1)
  | None => wp (dfs_normalize_path None filename) s (λ r s', r = None ∧ live s' = live s)
  end.
Proof.
  intros Hd Hw Hlen Hf Hm. assert (cwd_ok s) as Hc by (split; [rewrite Hw; by apply cstr_render|done]).
  assert (walk (true, if is_rooted filename then [] else dir) (comps filename) =
    walk (is_rooted (full_path (working_directory s) filename), []) (comps (full_path (working_directory s) filename))) as ->.
  { unfold full_path. destruct (is_rooted filename) eqn:E; [by rewrite E|].
    rewrite Hw, comps_slash, walk_app, comps_render by (eapply Forall_impl; [exact Hd|]; by intros x []).
    replace (is_rooted (render (true, dir) ++ slash :: filename)) with true by done. by rewrite walk_named. }
  assert (∀ r, resolved (full_path (working_directory s) filename) = Ok r →
    wp (dfs_normalize_path None filename) s (λ r' s', r' = r ∧ live s' = live s + owned r)) as Hok.
  { intros r Hr. eapply wp_normalize; [done|done|exact Hr|]. intros r' s' Hq _ _ Hmem. rewrite Hmem in * by done.
    split; [done|apply Hq]. }
  unfold resolved in Hok. destruct (walk _ _) as [[[] [|c st]]|] eqn:E; try (by apply Hok).
  - unfold dfs_normalize_path, working_directory_string. apply err_bind. wp_step. wp_step.
    rewrite (proj2 (Nat.ltb_lt _ _)) by done. wp_step. apply err_bind. apply wp_malloc. intros b s1 _ _ Hb.
    rewrite Hb by done. fold (full_path (working_directory s) filename). unfold mbind, M_bind.
    rewrite normalize_path_resolved by (by apply cstr_full_path; [apply Hc|]). unfold resolved. by rewrite E.
  - eapply wp_mono; [by apply Hok|]. intros r s' [-> ->]. cbn. split; [done|lia].
Qed.
End Spec.

(** * Descriptors *)

Section Files.
Context {W : Type} {devices : Devices W} {operations : nat → dfs_filesystem_operation W}.
Context `{!FileSystems devices operations}.
Implicit Types s : dfs W.

(** C26: [open] returns the lowest free descriptor.  It is then valid, has one reference, names
    the deepest file system above the path (what [dfs_filesystem_lookup] finds) and holds the
    path as that file system sees it; exactly one string more is allocated and no other
    descriptor has changed.  If [open] fails it returns -1, with the descriptors and the
    allocations as they were. *)
Theorem open_takes_lowest s path flags p :
  dfs_ok s → cstr path → resolved (full_path (working_directory s) path) = Ok (Some p) → gets_memory 1 s →
  wp (open operations path flags) s (λ r s',
    (r = -1 ∧ fd_table s' = fd_table s ∧ live s' = live s) ∨
    ∃ i d, r = Z.of_nat i ∧ first_free s i ∧ fd_table s' = <[i := d]> (fd_table s) ∧ live s' = live s + 1 ∧
      magic d = DFS_FD_MAGIC ∧ ref_count d = 1 ∧ opens (operations := operations) (filesystem_table s) p d).
Proof.
  intros Hok Hc Hr Hm. eapply wp_open; [exact Hok|done|done|exact Hr| | |].
  - intros s' [_ ? _ ?]. left. split_and!; [done|done|lia].
  - intros i s' [_ E L] [Hf _]. left. split_and!; [done| |lia]. rewrite E. by apply list_insert_id.
  - intros i q d s' [= <-] Hf (H1 & H2 & _) Ho [_ E L]. right. exists i, d. done.
Qed.

(** C27: a file that [open] has opened and [close] closes again leaves no trace: [close] returns
    0, all descriptors are as they were before the [open] and nothing stays allocated. *)
Theorem open_close s path flags :
  dfs_ok s → closes_succeed operations → resolves s path → gets_memory 1 s →
  wp (fd ← open operations path flags; if fd <? 0 then mret 0 else close operations fd) s (λ r s',
    r = 0 ∧ fd_table s' = fd_table s ∧ live s' = live s ∧ dfs_ok s').
Proof.
  intros Hok Hcl [Hc [r Hr]] Hm. wp_step. eapply wp_open; [exact Hok|done|done|exact Hr| | |].
  - intros s' H. change (-1 <? 0) with true. cbv iota. wp_step. split_and!; [done|apply H|destruct H; lia|by eapply ok_quiet].
  - intros i s' H [Hf _]. change (-1 <? 0) with true. cbv iota. wp_step. split_and!; [done| |destruct H; lia|].
    + rewrite (touch_fd _ _ _ _ _ H). by apply list_insert_id.
    + eapply ok_touch; [exact Hok|exact Hf|exact H|by left|done].
  - intros i p d s1 _ [Hf _] Ho _ H1. rewrite (proj2 (Z.ltb_ge _ _)) by lia.
    assert (dfs_ok s1) as Hok1.
    { eapply ok_touch; [exact Hok|exact Hf|exact H1|by right|]. destruct Ho as (_ & _ & [q ->] & _). done. }
    assert (at_fd (Entry i) d s1) as Hd1 by by eapply at_touch.
    eapply wp_close_open; [exact Hok1|done|exact Hd1| |].
    { by replace (filesystem_table s1) with (filesystem_table s) by (symmetry; apply H1). }
    intros s2 H2. assert (touch (Entry i) zero_fd 0 s s2) as H02 by by eapply touch_trans.
    split_and!; [done| |destruct H02; lia|].
    + rewrite (touch_fd _ _ _ _ _ H02). by apply list_insert_id.
    + eapply ok_touch; [exact Hok|exact Hf|exact H02|by left|done].
Qed.

(** * Sequences of calls *)

Inductive call :=
  | C_open (file : list Z) (flags : Z) | C_close (fd : Z) | C_read (fd len : Z) | C_write (fd : Z) (buf : list Z)
  | C_lseek (fd offset whence : Z) | C_rename (old new : list Z) | C_unlink (path : list Z) | C_stat (file : list Z)
  | C_fstat (fd : Z) | C_fsync (fd : Z) | C_ioctl (fd cmd data : Z) | C_statfs (path : list Z)
  | C_mkdir (path : list Z) | C_rmdir (path : list Z) | C_opendir (name : list Z) | C_readdir (d : nat)
  | C_telldir (d : nat) | C_seekdir (d : nat) (offset : Z) | C_rewinddir (d : nat) | C_closedir (d : nat)
  | C_chdir (path : list Z)
  | C_register (ops : nat) | C_mkfs (fs_name : list Z) (device : option (list Z))
  | C_mount (device : option (list Z)) (path type : list Z) (rwflag data : Z) | C_unmount (path : list Z).

Definition drop_value {A} (m : M (dfs W) A) : M (dfs W) unit := m;; mret tt.

Definition run (c : call) : M (dfs W) unit :=
  match c with
  | C_open file flags => drop_value (open operations file flags)
  | C_close fd => drop_value (close operations fd)
  | C_read fd len => drop_value (read operations fd len)
  | C_write fd buf => drop_value (write operations fd buf)
  | C_lseek fd offset whence => drop_value (lseek operations fd offset whence)
  | C_rename old new => drop_value (rename operations old new)
  | C_unlink path => drop_value (unlink operations path)
  | C_stat file => drop_value (stat operations file)
  | C_fstat fd => drop_value (fstat fd)
  | C_fsync fd => drop_value (fsync operations fd)
  | C_ioctl fd cmd data => drop_value (ioctl operations fd cmd data)
  | C_statfs path => drop_value (statfs operations path)
  | C_mkdir path => drop_value (mkdir operations path)
  | C_rmdir path => drop_value (rmdir operations path)
  | C_opendir name => drop_value (opendir operations name)
  | C_readdir d => drop_value (readdir operations d)
  | C_telldir d => drop_value (telldir d)
  | C_seekdir d offset => seekdir operations d offset
  | C_rewinddir d => rewinddir operations d
  | C_closedir d => drop_value (closedir operations d)
  | C_chdir path => drop_value (chdir operations (Some path))
  | C_register ops => drop_value (dfs_register operations ops)
  | C_mkfs fs_name device => drop_value (dfs_mkfs operations fs_name device)
  | C_mount device path type rwflag data => drop_value (dfs_mount operations device path type rwflag data)
  | C_unmount path => drop_value (dfs_unmount operations path)
  end.

(** What a call needs: a path that does not end above the root and memory for the copy of it, a
    stream that exists, a type that is registered, a mount point without open files. *)
Definition may_call s (c : call) : Prop :=
  match c with
  | C_open path _ | C_mkdir path | C_opendir path => resolves s path ∧ gets_memory 1 s
  | C_unlink path | C_rmdir path | C_stat path => resolves s path
  | C_rename old new => resolves s old ∧ resolves s new ∧ renames s old new
  | C_chdir path => changes s path
  | C_readdir d => ∃ t, dirs s !! d = Some t ∧ stream_ok t
  | C_telldir d | C_seekdir d _ | C_rewinddir d | C_closedir d => is_Some (dirs s !! d)
  | C_mount _ path type _ _ => mounts (operations := operations) s path type
  | C_unmount path => unmounts s path
  | _ => True
  end.

Lemma wp_drop_value {A} (m : M (dfs W) A) s (P : dfs W → Prop) :
  wp m s (λ _ s', P s') → wp (drop_value m) s (λ _ s', P s').
Proof. intros H. unfold drop_value. wp_step. eapply wp_mono; [exact H|]. intros. by wp_step. Qed.

Lemma call_fine s c :
  dfs_ok s → closes_succeed operations → may_call s c → wp (run c) s (λ _ s', fine 0 s s').
Proof.
  intros Hok Hcl. destruct c; cbn [may_call run]; intros Hc; try apply wp_drop_value.
  - destruct Hc. by apply open_fine.
  - by apply close_fine.
  - by apply read_fine.
  - by apply write_fine.
  - by apply lseek_fine.
  - destruct Hc as (? & ? & ?). by apply rename_fine.
  - by apply unlink_fine.
  - by apply stat_fine.
  - by apply fstat_fine.
  - by apply fsync_fine.
  - by apply ioctl_fine.
  - by apply statfs_fine.
  - destruct Hc. by apply mkdir_fine.
  - by apply unlink_fine.
  - destruct Hc. by apply opendir_fine.
  - destruct Hc as (t & Ht & ?). by eapply readdir_fine.
  - destruct Hc as [t Ht]. by eapply telldir_fine.
  - destruct Hc as [t Ht]. by eapply wp_seek.
  - destruct Hc as [t Ht]. rewrite rewinddir_seekdir. by eapply wp_seek.
  - destruct Hc as [t Ht]. by eapply wp_closedir.
  - by apply chdir_fine.
  - by apply register_fine.
  - by apply mkfs_fine.
  - by apply mount_fine.
  - by apply unmount_fine.
Qed.

(** The states after [dfs_init] and any calls that are allowed. *)
Inductive reachable : dfs W → Prop :=
  | reach_init s s' : live s = 0 → dirs s = ∅ → dfs_init s = Ok (tt, s') → reachable s'
  | reach_call s c s' : reachable s → may_call s c → run c s = Ok (tt, s') → reachable s'.

Lemma init_ok s : live s = 0 → dirs s = ∅ → wp dfs_init s (λ _ s', dfs_ok s' ∧ fslock s' = 0).
Proof.
  intros Hl Hd. unfold dfs_init. wp_steps. split; [|done].
  split; cbn [filesystem_operation_table filesystem_table fd_table live dirs working_directory set_ops_table set_fs_table
    set_fd_table set_fslock set_working_directory].
  - apply length_replicate.
  - apply length_replicate.
  - apply length_replicate.
  - apply Forall_replicate. by left.
  - apply Forall_replicate. by left.
  - rewrite Hl, Hd, map_size_empty. done.
  - split; [by repeat constructor|cbn; unfold DFS_PATH_MAX; lia].
Qed.

Lemma reachable_ok s : closes_succeed operations → reachable s → dfs_ok s ∧ fslock s = 0.
Proof.
  intros Hcl. induction 1 as [s s' Hl Hd Hrun|s c s' _ [Hok HL] Hc Hrun].
  - pose proof (init_ok s Hl Hd) as H. unfold wp in H. by rewrite Hrun in H.
  - pose proof (call_fine s c Hok Hcl Hc) as H. unfold wp in H. rewrite Hrun in H. destruct H as [H1 H2].
    split; [done|congruence].
Qed.

(** C23: after [dfs_init] and any sequence of calls of the file system (files, directories,
    streams, mounting and unmounting), in which each call's conditions hold, the invariant holds:
    every descriptor is free or open on a mounted file system with one reference and its path,
    the strings and streams that are allocated are exactly those that the tables own, and the
    lock is free.  And every further call whose conditions hold returns, without a fault. *)
Theorem dfs_reachable_safe s :
  closes_succeed operations → reachable s →
  dfs_ok s ∧ fslock s = 0 ∧ ∀ c, may_call s c → ∃ s', run c s = Ok (tt, s') ∧ dfs_ok s' ∧ fslock s' = 0.
Proof.
  intros Hcl Hr. destruct (reachable_ok s Hcl Hr) as [Hok HL]. split_and!; [done|done|]. intros c Hc.
  pose proof (call_fine s c Hok Hcl Hc) as H. apply wp_run in H as ([] & s' & Hrun & Hf & HL'). exists s'. split_and!; [done|done|congruence].
Qed.
End Files.

Section Types.
Context {W : Type} {devices : Devices W} {operations : nat → dfs_filesystem_operation W}.
Implicit Types s : dfs W.

(** [dfs_mount] without a device and with a type that is not registered follows a null
    pointer, unless all entries of the table of types are in use: the loop tests the address of
    the entry, which is never null, and not the entry. *)
Theorem mount_unknown_type s types rest path filesystemtype rwflag data :
  filesystem_operation_table s = (Some <$> types) ++ None :: rest →
  Forall (λ o, op_name (operations o) ≠ filesystemtype) types →
  dfs_mount operations None path filesystemtype rwflag data s = Err F_pointer.
Proof.
  intros Ht Hn. unfold dfs_mount. apply err_bind. wp_step. rewrite bool_decide_false by naive_solver.
  apply err_bind. unfold dfs_lock. wp_step. apply err_bind. wp_step. cbn [filesystem_operation_table set_fslock].
  rewrite Ht. clear Ht. unfold mbind, M_bind.
  assert (∀ s', find_type operations filesystemtype ((Some <$> types) ++ None :: rest) s' = Err F_pointer) as ->; [|done].
  intros s'. induction Hn as [|o types Ho _ IH]; [done|]. cbn [fmap list_fmap app find_type].
  by rewrite bool_decide_false.
Qed.
End Types.
