(* ===== verification/DfsDemo.v ===== *)
(** A small file system in memory, the theorems at concrete states, and what the code does in
    cases that it does not foresee. *)

From Stdlib Require Import ZArith Lia.
From stdpp Require Import numbers base gmap list.
From S2P Require Import Prelude DfsPath Dfs DfsPosix DfsInv DfsCalls DfsMount DfsSpec.
Local Open Scope Z_scope.

(** * A file system in memory: the paths of its files *)

Definition world := list (list Z).
Notation R := (M world).

Definition ram_open (e : dfs_filesystem) (d : dfs_fd) : R (Z * dfs_fd) :=
  p ← deref (fd_path d);
  files ← get;
  if bool_decide (p = [slash]) || bool_decide (p ∈ files) then mret (0, d)
  else if Z.land (fd_flags d) DFS_O_CREAT =? 0 then mret (- DFS_STATUS_ENOENT, d)
  else modify (cons p);; mret (0, d).
Definition ram_write (e : dfs_filesystem) (d : dfs_fd) (buf : list Z) : R (Z * dfs_fd) :=
  let n := Z.of_nat (length buf) in
  mret (n, set_fd_pos (fd_pos d + n) (set_fd_size (Z.max (fd_size d) (fd_pos d + n)) d)).
Definition ram_read (e : dfs_filesystem) (d : dfs_fd) (len : Z) : R (Z * list Z * dfs_fd) :=
  let n := Z.min (Z.max len 0) (fd_size d - fd_pos d) in
  mret (n, replicate (Z.to_nat n) 0, set_fd_pos (fd_pos d + n) d).
Definition ram_unlink (e : dfs_filesystem) (p : list Z) : R Z :=
  files ← get;
  if bool_decide (p ∈ files) then modify (filter (λ q, q ≠ p));; mret 0 else mret (- DFS_STATUS_ENOENT).

Definition ram : dfs_filesystem_operation world := {|
  op_name := [114; 97; 109];
  op_flags := 0;
  op_mount := Some (λ e _ _, mret (0, e));
  op_unmount := Some (λ e, mret (0, e));
  op_mkfs := None;
  op_statfs := None;
  op_open := Some ram_open;
  op_close := Some (λ e d, mret (0, d));
  op_ioctl := None;
  op_read := Some ram_read;
  op_write := Some ram_write;
  op_flush := None;
  op_lseek := Some (λ e d offset, mret (offset, d));
  op_getdents := None;
  op_unlink := Some ram_unlink;
  op_stat := None;
  op_rename := Some (λ _ _ _, mret 0)
|}.
Definition ops (o : nat) : dfs_filesystem_operation world := ram.

#[export] Instance no_devices : Devices world := {|
  rt_device_find := λ _, mret None;
  rt_device_open := λ _, mret 0;
  rt_device_close := λ _, mret 0
|}.

Lemma ram_open_same e d w : is_Some (fd_path d) → wp (ram_open e d) w (λ r _, same_fd d r.2).
Proof.
  intros [p Hp]. unfold ram_open. rewrite Hp. wp_steps. destruct (_ || _); [by wp_step|].
  destruct (_ =? 0); wp_steps; done.
Qed.

#[export] Instance ram_laws : FileSystems no_devices ops.
Proof.
  split; try done; intros *; try (by intros [= <-]).
  - intros [= <-]. apply ram_open_same.
  - intros [= <-]. unfold ram_unlink. wp_steps. destruct (bool_decide _); by wp_steps.
Qed.

Lemma ram_closes : closes_succeed ops.
Proof. intros o f e d w [= <-]. by wp_step. Qed.

(** * Concrete states *)

Definition empty_state : dfs world := mk_dfs [] [] [] [] 0 0 zero_fd ∅ 0 [] [].

Definition after {A} (m : M (dfs world) A) (s : dfs world) : dfs world :=
  match m s with Ok (_, s') => s' | Err _ => s end.

Definition started : dfs world := Eval vm_compute in after dfs_init empty_state.
Definition registered : dfs world := Eval vm_compute in after (dfs_register ops 0) started.
Definition mounted_root : dfs world := Eval vm_compute in after (dfs_mount ops None [slash] [114; 97; 109] 0 0) registered.
(** "/a" is open for writing *)
Definition file_open : dfs world := Eval vm_compute in after (open ops [slash; 97] DFS_O_CREAT) mounted_root.

Lemma resolves_by (s : dfs world) path r :
  bool_decide (Forall (λ c, c ≠ 0) path) = true → resolved (full_path (working_directory s) path) = Ok r → resolves s path.
Proof. intros H Hr. split; [by apply bool_decide_eq_true in H|by exists r]. Qed.

Lemma reachable_root : reachable (operations := ops) mounted_root.
Proof.
  apply (reach_call registered (C_mount None [slash] [114; 97; 109] 0 0)).
  - apply (reach_call started (C_register 0)); [|done|by vm_compute].
    apply (reach_init empty_state); [done|done|by vm_compute].
  - split_and!.
    + exists (Some 0%nat). intros s'. by vm_compute.
    + by eapply resolves_by; vm_compute.
    + done.
  - by vm_compute.
Qed.

Lemma reachable_file : reachable (operations := ops) file_open.
Proof.
  apply (reach_call mounted_root (C_open [slash; 97] DFS_O_CREAT)); [apply reachable_root| |by vm_compute].
  split; [by eapply resolves_by; vm_compute|done].
Qed.

(** * The theorems at these states *)

Lemma named_by st :
  bool_decide (Forall (λ c, c ≠ [] ∧ Forall (λ x, x ≠ slash ∧ x ≠ 0) c ∧ c ≠ [dot] ∧ c ≠ [dot; dot]) st) = true →
  named (true, st).
Proof. intros H. apply bool_decide_eq_true in H. eapply Forall_impl; [exact H|]. intros c (? & ? & ? & ?). done. Qed.

Lemma normal_root : normal_mounts mounted_root.
Proof.
  intros i e p He Hp. assert (i = 0%nat ∧ p = [slash]) as [-> ->].
  { destruct i as [|[|[|[|i]]]]; cbn in He; try done; injection He as <-; cbn in Hp; try done. by injection Hp as <-. }
  exists []. split; [by constructor|done].
Qed.

Lemma lookup_deepest_mount_witness :
  wp (dfs_filesystem_lookup (render (true, [[97]]))) mounted_root (λ r s', s' = mounted_root ∧
    match r with
    | Some i => ∃ m, mounted_at mounted_root i m ∧ m `suffix_of` [[97]] ∧
        ∀ j m', mounted_at mounted_root j m' → m' `suffix_of` [[97]] → m' `suffix_of` m ∧ (m' = m → (j <= i)%nat)
    | None => ∀ j m, mounted_at mounted_root j m → ¬ m `suffix_of` [[97]]
    end).
Proof. apply (lookup_deepest_mount mounted_root [[97]]); [by apply named_by; vm_compute|apply normal_root]. Defined.

(** "x/../../y//." in the root *)
Lemma normalize_walks_witness :
  match walk (true, []) (comps [120; 47; 46; 46; 47; 121; 47; 47; 46]) with
  | Some (false, []) => dfs_normalize_path None [120; 47; 46; 46; 47; 121; 47; 47; 46] mounted_root = Err F_pointer
  | Some p => wp (dfs_normalize_path None [120; 47; 46; 46; 47; 121; 47; 47; 46]) mounted_root
                (λ r s', r = Some (render p) ∧ live s' = live mounted_root + 1)
  | None => wp (dfs_normalize_path None [120; 47; 46; 46; 47; 121; 47; 47; 46]) mounted_root
              (λ r s', r = None ∧ live s' = live mounted_root)
  end.
Proof.
  apply (normalize_walks mounted_root [] [120; 47; 46; 46; 47; 121; 47; 47; 46]); [by apply named_by|done|vm_compute; lia| |done].
  by apply (bool_decide_unpack _); vm_compute.
Defined.

Lemma open_takes_lowest_witness :
  wp (open ops [98] DFS_O_CREAT) file_open (λ r s',
    (r = -1 ∧ fd_table s' = fd_table file_open ∧ live s' = live file_open) ∨
    ∃ i d, r = Z.of_nat i ∧ first_free file_open i ∧ fd_table s' = <[i := d]> (fd_table file_open) ∧
      live s' = live file_open + 1 ∧ magic d = DFS_FD_MAGIC ∧ ref_count d = 1 ∧
      opens (operations := ops) (filesystem_table file_open) [slash; 98] d).
Proof.
  apply (open_takes_lowest file_open [98] DFS_O_CREAT [slash; 98]).
  - apply (reachable_ok _ ram_closes reachable_file).
  - by apply (bool_decide_unpack _); vm_compute.
  - by vm_compute.
  - done.
Defined.

Lemma open_close_witness :
  wp (fd ← open ops [98] DFS_O_CREAT; if fd <? 0 then mret 0 else close ops fd) file_open (λ r s',
    r = 0 ∧ fd_table s' = fd_table file_open ∧ live s' = live file_open ∧ dfs_ok s').
Proof.
  apply (open_close file_open [98] DFS_O_CREAT).
  - apply (reachable_ok _ ram_closes reachable_file).
  - apply ram_closes.
  - by eapply resolves_by; vm_compute.
  - done.
Defined.

Lemma dfs_reachable_safe_witness :
  dfs_ok file_open ∧ fslock file_open = 0 ∧
  ∀ c, may_call (operations := ops) file_open c → ∃ s', run (operations := ops) c file_open = Ok (tt, s') ∧ dfs_ok s' ∧ fslock s' = 0.
Proof. apply (dfs_reachable_safe file_open ram_closes reachable_file). Defined.

(** "fat" is not registered *)
Lemma mount_unknown_type_witness :
  dfs_mount ops None [slash] [102; 97; 116] 0 0 registered = Err F_pointer.
Proof.
  apply (mount_unknown_type registered [0%nat] [None; None]); [by vm_compute|].
  by apply (bool_decide_unpack _); vm_compute.
Defined.

(** * Cases that the code does not foresee *)

Definition result {A} (m : M (dfs world) A) (s : dfs world) : option A :=
  match m s with Ok (a, _) => Some a | Err _ => None end.

(** A file system that is unmounted while a file is open on it: to close the file is to follow
    a null pointer. *)
Example unmount_with_open_file :
  result (dfs_unmount ops [slash]) file_open = Some 0 ∧
  close ops 0 (after (dfs_unmount ops [slash]) file_open) = Err F_pointer.
Proof. by vm_compute. Qed.

(** [rename] where nothing is mounted follows a null pointer. *)
Example rename_without_file_system : rename ops [slash; 97] [slash; 98] registered = Err F_pointer.
Proof. by vm_compute. Qed.

(** No memory for the copy of the path: the file system gets a descriptor without a path. *)
Example open_without_memory :
  open ops [slash; 97] DFS_O_CREAT (set_allocs [true; false] mounted_root) = Err F_pointer.
Proof. by vm_compute. Qed.

(** The mount point is compared before it is made normal: two file systems at "/". *)
Example mounted_twice :
  result (dfs_mount ops None [slash; slash] [114; 97; 109] 0 0) mounted_root = Some 0 ∧
  (fs_path <$> take 2 (filesystem_table (after (dfs_mount ops None [slash; slash] [114; 97; 109] 0 0) mounted_root)))
    = [Some [slash]; Some [slash]].
Proof. by vm_compute. Qed.

(** A full table of types: the function says that it has registered the file system. *)
Definition other (o : nat) : dfs_filesystem_operation world :=
  mk_ops [Z.of_nat o] 0 None None None None None None None None None None None None None None None.
Example register_in_full_table :
  let s := set_ops_table [Some 1%nat; Some 2%nat; Some 3%nat; Some 4%nat] started in
  dfs_register other 5 s = Ok (0, s).
Proof. by vm_compute. Qed.

(** A directory of 256 characters: [chdir] leaves the working directory without an end. *)
Definition long_name : list Z := slash :: replicate 255 97.
Example working_directory_without_end :
  let s := after (mkdir ops long_name) mounted_root in
  result (chdir ops (Some long_name)) s = Some 0 ∧
  dfs_normalize_path None [97] (after (chdir ops (Some long_name)) s) = Err F_pointer.
Proof. by vm_compute. Qed.

(** A path above the root: it ends there, or goes on without a slash. *)
Example above_the_root :
  dfs_normalize_path None [slash; dot; dot] mounted_root = Err F_pointer ∧
  result (dfs_normalize_path None [slash; dot; dot; slash; 97]) mounted_root = Some (Some [97]) ∧
  result (dfs_normalize_path None [slash; dot; dot; slash; dot; dot]) mounted_root = Some None.
Proof. by vm_compute. Qed.

(** A stream whose file cannot be closed: the descriptor is freed and the path is lost. *)
Definition stubborn (o : nat) : dfs_filesystem_operation world :=
  mk_ops [114; 97; 109] 0 (Some (λ e _ _, mret (0, e))) None None None (Some ram_open)
    (Some (λ e d, mret (-5, d))) None None None None None None None None None.
Example closedir_loses_path :
  let s := after (opendir stubborn [slash]) mounted_root in
  result (closedir stubborn 0) s = Some (-1) ∧
  fd_table (after (closedir stubborn 0) s) = fd_table mounted_root ∧
  live (after (closedir stubborn 0) s) = live mounted_root + 1.
Proof. by vm_compute. Qed.

(** A directory with one entry of 509 bytes; the end is reached, and [readdir] is called again:
    the length of the next entry is read behind the buffer. *)
Definition one_entry (o : nat) : dfs_filesystem_operation world :=
  mk_ops [114; 97; 109] 0 None None None None (Some ram_open) (Some (λ e d, mret (0, d))) None None None None None
    (Some (λ e d n, files ← get;
       match files with
       | [] => mret (0, [], d)
       | _ => modify (λ _, []);; mret (509, [1; 1; 253; 1] ++ replicate 505 0, d)
       end)) None None None.
Example readdir_behind_the_end :
  let s := after (opendir one_entry [slash]) file_open in
  result (readdir one_entry 0) s = Some (Some 0) ∧
  result (readdir one_entry 0) (after (readdir one_entry 0) s) = Some None ∧
  readdir one_entry 0 (after (readdir one_entry 0) (after (readdir one_entry 0) s)) = Err F_pointer.
Proof. by vm_compute. Qed.
