(* ===== verification/Shell.v ===== *)
(** The line editor of the shell: [finsh_thread_entry] and what it calls in
    [components/finsh/shell.c].

    The shell reads characters that the device has received ([rx]) and prints on the console
    ([tx]).  Of a key that the terminal sends as three characters ([ESC \[ A]) it remembers in
    [stat] how much it has seen.  The line is an array of FINSH_CMD_SIZE bytes; reading or
    writing outside of it is a fault.  What a command does (the interpreter of C expressions, or
    msh) and the completion of words are parameters that act on the rest of the system and say
    what they print. *)

From Stdlib Require Import ZArith Lia.
From stdpp Require Import numbers base list.
From S2P Require Import Prelude.
Local Open Scope Z_scope.

Definition FINSH_CMD_SIZE : Z := 80.
Definition FINSH_HISTORY_LINES : Z := 5.
Definition RT_CONSOLEBUF_SIZE : Z := 128.

Inductive input_stat := WAIT_NORMAL | WAIT_SPEC_KEY | WAIT_FUNC_KEY.

Record finsh_shell := mk_shell {
  stat : input_stat;
  echo_mode : bool;
  current_history : Z;
  history_count : Z;
  cmd_history : list (list Z);
  line : list Z;
  line_position : Z;
  line_curpos : Z
}.

(** The shell, the device, the console, the buffer of the prompt and the rest of the system. *)
Record system (W : Type) := mk_system {
  shell : finsh_shell;
  rx : list Z;
  tx : list Z;
  finsh_prompt : list Z;
  rest : W
}.
Arguments mk_system {W}. Arguments shell {W}. Arguments rx {W}. Arguments tx {W}.
Arguments finsh_prompt {W}. Arguments rest {W}.

(** What [rt_kprintf] sends: [rt_vsnprintf] is given one byte less than the buffer has, and stores RT_CONSOLEBUF_SIZE - 2
    characters and a zero at most; of a longer text RT_CONSOLEBUF_SIZE - 1 bytes are sent, the zero too. *)
Definition log_text (text : list Z) : list Z :=
  let room := Z.to_nat (RT_CONSOLEBUF_SIZE - 2) in
  if (length text <=? room)%nat then text else take room text ++ [0].

Definition set_input_stat v (s : finsh_shell) : finsh_shell :=
  mk_shell v (echo_mode s) (current_history s) (history_count s) (cmd_history s) (line s) (line_position s) (line_curpos s).
Definition set_echo_mode v (s : finsh_shell) : finsh_shell :=
  mk_shell (stat s) v (current_history s) (history_count s) (cmd_history s) (line s) (line_position s) (line_curpos s).
Definition set_current_history v (s : finsh_shell) : finsh_shell :=
  mk_shell (stat s) (echo_mode s) v (history_count s) (cmd_history s) (line s) (line_position s) (line_curpos s).
Definition set_history (n : Z) (h : list (list Z)) (s : finsh_shell) : finsh_shell :=
  mk_shell (stat s) (echo_mode s) (current_history s) n h (line s) (line_position s) (line_curpos s).
Definition set_line v (s : finsh_shell) : finsh_shell :=
  mk_shell (stat s) (echo_mode s) (current_history s) (history_count s) (cmd_history s) v (line_position s) (line_curpos s).
Definition set_line_position v (s : finsh_shell) : finsh_shell :=
  mk_shell (stat s) (echo_mode s) (current_history s) (history_count s) (cmd_history s) (line s) (u8 v) (line_curpos s).
Definition set_line_curpos v (s : finsh_shell) : finsh_shell :=
  mk_shell (stat s) (echo_mode s) (current_history s) (history_count s) (cmd_history s) (line s) (line_position s) (u8 v).

(** Is the word shell (msh) used, and the working directory, both of the rest of the system; what
    a line does, in the word shell and in the interpreter of expressions (which is told whether
    to echo), and the completion of a line: the text printed, the new rest, and for the completion the new line. *)
Class Commands (W : Type) := {
  msh_is_used : W → bool;
  cwd : W → list Z;
  msh_exec : list Z → Z → M W (list Z);
  finsh_run_line : bool → list Z → M W (list Z);
  auto_complete : list Z → M W (list Z * list Z)
}.

Section Shell.
Context {W : Type} `{!Commands W}.
Notation T := (M (system W)).

Definition get_shell : T finsh_shell := gets shell.
Definition upd_shell (f : finsh_shell → finsh_shell) : T unit :=
  modify (λ s, mk_system (f (shell s)) (rx s) (tx s) (finsh_prompt s) (rest s)).
Definition set_prompt (p : list Z) : T unit := modify (λ s, mk_system (shell s) (rx s) (tx s) p (rest s)).
Definition on_rest {A} (m : M W A) : T A := zoom rest (λ w s, mk_system (shell s) (rx s) (tx s) (finsh_prompt s) w) m.

Definition kprintf (text : list Z) : T unit :=
  modify (λ s, mk_system (shell s) (rx s) (tx s ++ log_text text) (finsh_prompt s) (rest s)).
(** What commands print themselves. *)
Definition print_raw (text : list Z) : T unit :=
  modify (λ s, mk_system (shell s) (rx s) (tx s ++ text) (finsh_prompt s) (rest s)).

(** [rt_device_read(shell->device, 0, &ch, 1)] *)
Definition read_char : T (option Z) :=
  r ← gets rx;
  match r with
  | [] => mret None
  | c :: r => modify (λ s, mk_system (shell s) r (tx s) (finsh_prompt s) (rest s));; mret (Some c)
  end.

(** ** The line *)

Definition rd_line (i : Z) : T Z := s ← get_shell; deref (if 0 <=? i then line s !! Z.to_nat i else None).
Definition wr_line (i v : Z) : T unit := rd_line i;; upd_shell (λ s, set_line (<[Z.to_nat i := v]> (line s)) s).

(** [rt_memmove(&shell->line[dst], &shell->line[src], n)] *)
Definition move_line (dst src n : Z) : T unit :=
  s ← get_shell;
  let l := line s in
  if (0 <=? dst) && (0 <=? src) && (dst + n <=? Z.of_nat (length l)) && (src + n <=? Z.of_nat (length l)) then
    let m := take (Z.to_nat n) (drop (Z.to_nat src) l) in
    upd_shell (set_line (take (Z.to_nat dst) l ++ m ++ drop (Z.to_nat dst + length m)%nat l))
  else fail F_pointer.

(** The string at an offset of the line: it must end inside the array. *)
Definition string_at (i : Z) : T (list Z) :=
  s ← get_shell;
  let l := drop (Z.to_nat i) (line s) in
  if bool_decide (0 ∈ l) then mret (c_string l) else fail F_pointer.

Fixpoint backspaces (n : nat) : T unit :=
  match n with O => mret tt | S n => kprintf [8];; backspaces n end.

(** ** The prompt *)

Definition _MSH_PROMPT : list Z := [109; 115; 104; 32].
Definition _PROMPT : list Z := [102; 105; 110; 115; 104; 32].

(** [strcat] of one character: behind the string comes a zero. *)
Definition put_end (b : list Z) (c : Z) : T (list Z) :=
  let n := length (c_string b) in
  if (S n <? length b)%nat then mret (<[S n := 0]> (<[n := c]> b)) else fail F_pointer.

Definition finsh_get_prompt : T (list Z) :=
  w ← gets rest;
  let p := if msh_is_used w then _MSH_PROMPT else _PROMPT in
  b ← gets finsh_prompt;
  let room := (Z.to_nat RT_CONSOLEBUF_SIZE - length p)%nat in
  let b := p ++ take room (cwd w ++ replicate room 0) ++ drop (Z.to_nat RT_CONSOLEBUF_SIZE) b in
  b ← put_end b 62;
  set_prompt b;;
  mret (c_string b).

(** [rt_kprintf(FINSH_PROMPT)]: the prompt is the format. *)
Definition print_prompt : T unit :=
  p ← finsh_get_prompt;
  if bool_decide (37 ∈ p) then fail F_undefined else kprintf p.

(** ** History *)

Definition shell_handle_history : T unit :=
  kprintf [27; 91; 50; 75; 13];;
  p ← finsh_get_prompt;
  l ← string_at 0;
  kprintf (p ++ l).

Definition rd_history (i : Z) : T (list Z) :=
  s ← get_shell; deref (if 0 <=? i then cmd_history s !! Z.to_nat i else None).
Definition wr_history (i : Z) (l : list Z) : T unit :=
  rd_history i;; upd_shell (λ s, set_history (history_count s) (<[Z.to_nat i := l]> (cmd_history s)) s).

(** [for (index = 0; ...) memcpy(cmd_history\[index\], cmd_history\[index + 1\], FINSH_CMD_SIZE)] *)
Fixpoint shift_history (n : nat) (index : Z) : T unit :=
  match n with
  | O => mret tt
  | S n => l ← rd_history (index + 1); wr_history index l;; shift_history n (index + 1)
  end.

(** The line as an entry: cleared, and the characters copied. *)
Definition history_entry (s : finsh_shell) : T (list Z) :=
  let n := Z.to_nat (line_position s) in
  if (n <=? length (line s))%nat && (n <=? Z.to_nat FINSH_CMD_SIZE)%nat then
    mret (take n (line s) ++ replicate (Z.to_nat FINSH_CMD_SIZE - n)%nat 0)
  else fail F_pointer.

Definition shell_push_history : T unit :=
  s ← get_shell;
  (if negb (line_position s =? 0) then
     e ← history_entry s;
     if FINSH_HISTORY_LINES <=? history_count s then
       shift_history (Z.to_nat (FINSH_HISTORY_LINES - 1)) 0;;
       wr_history (FINSH_HISTORY_LINES - 1) e;;
       upd_shell (λ s, set_history FINSH_HISTORY_LINES (cmd_history s) s)
     else
       wr_history (history_count s) e;;
       upd_shell (λ s, set_history (u16 (history_count s + 1)) (cmd_history s) s)
   else mret tt);;
  upd_shell (λ s, set_current_history (history_count s) s).

(** The entry [current_history] becomes the line. *)
Definition recall : T unit :=
  s ← get_shell;
  l ← rd_history (current_history s);
  upd_shell (set_line l);;
  t ← string_at 0;
  let n := Z.of_nat (length t) in
  upd_shell (λ s, set_line_curpos n (set_line_position n s));;
  shell_handle_history.

(** ** Keys *)

Inductive verdict := Continue | Break.

Definition up_key : T verdict :=
  s ← get_shell;
  if 0 <? current_history s then
    upd_shell (λ s, set_current_history (current_history s - 1) s);; recall;; mret Continue
  else upd_shell (set_current_history 0);; mret Continue.

Definition down_key : T verdict :=
  s ← get_shell;
  if current_history s <? history_count s - 1 then
    upd_shell (λ s, set_current_history (u16 (current_history s + 1)) s);; recall;; mret Continue
  else if negb (history_count s =? 0) then
    upd_shell (λ s, set_current_history (history_count s - 1) s);; recall;; mret Continue
  else mret Continue.

Definition left_key : T verdict :=
  s ← get_shell;
  (if negb (line_curpos s =? 0) then kprintf [8];; upd_shell (λ s, set_line_curpos (line_curpos s - 1) s) else mret tt);;
  mret Continue.

Definition right_key : T verdict :=
  s ← get_shell;
  (if line_curpos s <? line_position s then
     c ← rd_line (line_curpos s); kprintf [c];; upd_shell (λ s, set_line_curpos (line_curpos s + 1) s)
   else mret tt);;
  mret Continue.

Definition shell_auto_complete : T unit :=
  kprintf [10];;
  s ← get_shell;
  '(text, l) ← on_rest (auto_complete (line s));
  print_raw text;;
  upd_shell (set_line l);;
  p ← finsh_get_prompt;
  l ← string_at 0;
  kprintf (p ++ l).

Definition tab_key : T verdict :=
  s ← get_shell;
  backspaces (Z.to_nat (line_curpos s));;
  shell_auto_complete;;
  l ← string_at 0;
  let n := Z.of_nat (length l) in
  upd_shell (λ s, set_line_curpos n (set_line_position n s));;
  mret Continue.

Definition backspace_key : T verdict :=
  s ← get_shell;
  if line_curpos s =? 0 then mret Continue
  else
    upd_shell (λ s, set_line_position (line_position s - 1) s);;
    upd_shell (λ s, set_line_curpos (line_curpos s - 1) s);;
    s ← get_shell;
    if line_curpos s <? line_position s then
      move_line (line_curpos s) (line_curpos s + 1) (line_position s - line_curpos s);;
      wr_line (line_position s) 0;;
      t ← string_at (line_curpos s);
      kprintf ([8] ++ t ++ [32; 32; 8]);;
      backspaces (Z.to_nat (line_position s - line_curpos s + 1));;
      mret Continue
    else
      kprintf [8; 32; 8];;
      wr_line (line_position s) 0;;
      mret Continue.

(** The end of a line: the command is run. *)
Definition enter_key : T verdict :=
  shell_push_history;;
  s ← get_shell;
  w ← gets rest;
  (if msh_is_used w then
     (if echo_mode s then kprintf [10] else mret tt);;
     text ← on_rest (msh_exec (line s) (line_position s));
     print_raw text
   else
     wr_line (line_position s) 59;;
     if negb (line_position s =? 0) then
       s ← get_shell;
       text ← on_rest (finsh_run_line (echo_mode s) (line s));
       print_raw text
     else if echo_mode s then kprintf [10] else mret tt);;
  print_prompt;;
  upd_shell (set_line (replicate (Z.to_nat FINSH_CMD_SIZE) 0));;
  upd_shell (λ s, set_line_curpos 0 (set_line_position 0 s));;
  mret Break.

Definition normal_key (ch : Z) : T verdict :=
  upd_shell (λ s, if FINSH_CMD_SIZE <=? line_position s then set_line_position 0 s else s);;
  s ← get_shell;
  (if line_curpos s <? line_position s then
     move_line (line_curpos s + 1) (line_curpos s) (line_position s - line_curpos s);;
     wr_line (line_curpos s) ch;;
     (if echo_mode s then t ← string_at (line_curpos s); kprintf t else mret tt);;
     backspaces (Z.to_nat (line_position s - line_curpos s))
   else
     wr_line (line_position s) ch;;
     if echo_mode s then kprintf [ch] else mret tt);;
  upd_shell (λ s, set_line_curpos (line_curpos s + 1) (set_line_position (line_position s + 1) s));;
  upd_shell (λ s, if FINSH_CMD_SIZE <=? line_position s then set_line_curpos 0 (set_line_position 0 s) else s);;
  mret Continue.

Definition line_key (ch : Z) : T verdict := if (ch =? 13) || (ch =? 10) then enter_key else normal_key ch.

(** Behind a carriage return another character is read, and taken for the key unless it is zero. *)
Definition plain_key (ch : Z) : T verdict :=
  if ch =? 13 then
    next ← read_char;
    line_key (match next with Some c => if c =? 0 then 13 else c | None => 13 end)
  else if ch =? 9 then tab_key
  else if (ch =? 127) || (ch =? 8) then backspace_key
  else line_key ch.

Definition handle_char (ch : Z) : T verdict :=
  s ← get_shell;
  if ch =? 27 then upd_shell (set_input_stat WAIT_SPEC_KEY);; mret Continue
  else
    match stat s with
    | WAIT_NORMAL => plain_key ch
    | WAIT_SPEC_KEY =>
        if ch =? 91 then upd_shell (set_input_stat WAIT_FUNC_KEY);; mret Continue
        else upd_shell (set_input_stat WAIT_NORMAL);; plain_key ch
    | WAIT_FUNC_KEY =>
        upd_shell (set_input_stat WAIT_NORMAL);;
        if ch =? 65 then up_key
        else if ch =? 66 then down_key
        else if ch =? 68 then left_key
        else if ch =? 67 then right_key
        else plain_key ch
    end.

(** The loop over the characters that have been received, until there are none or a line has
    ended. *)
Fixpoint read_loop (fuel : nat) : T unit :=
  match fuel with
  | O => fail F_fuel
  | S fuel =>
      c ← read_char;
      match c with
      | None => mret tt
      | Some ch => v ← handle_char ch; match v with Continue => read_loop fuel | Break => mret tt end
      end
  end.

(** One round of the thread: the semaphore has been taken. *)
Definition shell_round : T unit := r ← gets rx; read_loop (S (length r)).

(** The mode is a field of one bit. *)
Definition finsh_set_echo (echo : Z) : T unit := upd_shell (set_echo_mode (Z.testbit (u8 echo) 0)).
Definition finsh_get_echo : T Z := s ← get_shell; mret (if echo_mode s then 1 else 0).

(** The shell that [finsh_system_init] clears, with the characters that are going to be received. *)
Definition finsh_system_init (received : list Z) (w : W) : system W :=
  mk_system
    (mk_shell WAIT_NORMAL false 0 0 (replicate (Z.to_nat FINSH_HISTORY_LINES) (replicate (Z.to_nat FINSH_CMD_SIZE) 0))
       (replicate (Z.to_nat FINSH_CMD_SIZE) 0) 0 0)
    received [] (replicate (Z.to_nat RT_CONSOLEBUF_SIZE + 1) 0) w.

(** The beginning of the thread. *)
Definition shell_start : T unit := upd_shell (set_echo_mode true);; print_prompt.
End Shell.
