(* ===== verification/ShellSpec.v ===== *)
(** The line editor of the shell is an editor: the array, the positions and the history hold a
    line with a cursor and the last commands, each command is run as it was typed, and the
    terminal shows the line. *)

From Stdlib Require Import ZArith Lia.
From stdpp Require Import numbers base sets list.
From S2P Require Import Prelude Shell.
Local Open Scope Z_scope.

(** * An editor *)

Record editor := mk_editor { before : list Z; after : list Z; hist : list (list Z); hpos : nat }.
Definition line_text (e : editor) : list Z := before e ++ after e.

Inductive key := Char (c : Z) | Left | Right | Up | Down | Backspace | Enter.
#[export] Instance key_eq_dec : EqDecision key.
Proof. solve_decision. Defined.

(** The last five commands. *)
Definition remember (h : list (list Z)) (t : list Z) : list (list Z) :=
  match t with [] => h | _ => drop (length h - 4) (h ++ [t]) end.

(** The command at [i] of the history becomes the line. *)
Definition recalled (e : editor) (i : nat) : editor :=
  mk_editor (default [] (hist e !! i)) [] (hist e) i.

Definition edit (k : key) (e : editor) : editor :=
  match k with
  | Char c => mk_editor (before e ++ [c]) (after e) (hist e) (hpos e)
  | Left =>
      match rev (before e) with
      | x :: r => mk_editor (rev r) (x :: after e) (hist e) (hpos e)
      | [] => e
      end
  | Right =>
      match after e with
      | x :: r => mk_editor (before e ++ [x]) r (hist e) (hpos e)
      | [] => e
      end
  | Backspace =>
      match rev (before e) with
      | _ :: r => mk_editor (rev r) (after e) (hist e) (hpos e)
      | [] => e
      end
  | Up => match hpos e with S i => recalled e i | O => e end
  | Down =>
      match hist e with
      | [] => e
      | _ => recalled e (if (S (hpos e) <? length (hist e))%nat then S (hpos e) else length (hist e) - 1)%nat
      end
  | Enter => let h := remember (hist e) (line_text e) in mk_editor [] [] h (length h)
  end.

(** Only printable characters are typed, and no line is longer than 78 of them: behind the line
    there is room for a semicolon and a zero. *)
Definition printable (c : Z) : Prop := 32 <= c <= 126.
Fixpoint fits (ks : list key) (e : editor) : Prop :=
  match ks with
  | [] => True
  | k :: ks =>
      match k with Char c => printable c ∧ (length (line_text e) < 78)%nat | _ => True end ∧ fits ks (edit k e)
  end.

(** What a terminal sends for a key. *)
Inductive key_typed : key → list Z → Prop :=
  | typed_char c : printable c → key_typed (Char c) [c]
  | typed_left : key_typed Left [27; 91; 68]
  | typed_right : key_typed Right [27; 91; 67]
  | typed_up : key_typed Up [27; 91; 65]
  | typed_down : key_typed Down [27; 91; 66]
  | typed_bs : key_typed Backspace [8]
  | typed_del : key_typed Backspace [127]
  | typed_lf : key_typed Enter [10]
  | typed_crlf : key_typed Enter [13; 10]
  | typed_crnul : key_typed Enter [13; 0].
Inductive keys_typed : list key → list Z → Prop :=
  | typed_nil : keys_typed [] []
  | typed_cons k ks bs more : key_typed k bs → keys_typed ks more → keys_typed (k :: ks) (bs ++ more).

(** * A terminal: the row in which the cursor is, and where it is *)

Record terminal := mk_terminal { row : list Z; col : nat; esc : nat }.

Definition feed (t : terminal) (c : Z) : terminal :=
  match esc t with
  | O =>
      if c =? 27 then mk_terminal (row t) (col t) 1
      else if c =? 10 then mk_terminal [] 0 0
      else if c =? 13 then mk_terminal (row t) 0 0
      else if c =? 8 then mk_terminal (row t) (pred (col t)) 0
      else if c =? 0 then t
      else if c =? 9 then
        let n := (8 - col t mod 8)%nat in mk_terminal (row t ++ replicate (col t + n - length (row t)) 32) (col t + n) 0
      else mk_terminal (take (col t) (row t) ++ c :: drop (S (col t)) (row t)) (S (col t)) 0
  | 1%nat => mk_terminal (row t) (col t) (if c =? 91 then 2 else 0)
  | 2%nat => mk_terminal (row t) (col t) (if c =? 50 then 3 else 0)
  | _ => mk_terminal (if c =? 75 then [] else row t) (col t) 0
  end.
Definition display (out : list Z) : terminal := foldl feed (mk_terminal [] 0 0) out.

(** The cursor between [p] and [r]. *)
Definition cursor (p r : list Z) : terminal := mk_terminal (p ++ r) (length p) 0.

Lemma display_app a b : display (a ++ b) = foldl feed (display a) b.
Proof. apply foldl_app. Qed.

Lemma feed_printable p r c : printable c → feed (cursor p r) c = cursor (p ++ [c]) (drop 1 r).
Proof.
  intros [H1 H2]. unfold feed, cursor. cbn [esc row col].
  rewrite !(proj2 (Z.eqb_neq c _)) by lia. f_equal.
  - rewrite take_app_length, drop_app_ge by lia. replace (S (length p) - length p)%nat with 1%nat by lia.
    by rewrite <- app_assoc.
  - rewrite length_app. cbn. lia.
Qed.

Lemma feed_text ts : ∀ p r, Forall printable ts → foldl feed (cursor p r) ts = cursor (p ++ ts) (drop (length ts) r).
Proof.
  induction ts as [|c ts IH]; intros p r Hts; cbn [foldl length].
  - by rewrite app_nil_r.
  - apply Forall_cons in Hts as [Hc Hts]. rewrite feed_printable, IH, drop_drop, <- app_assoc by done. done.
Qed.

Lemma feed_backspaces q : ∀ p r, foldl feed (cursor (p ++ q) r) (replicate (length q) 8) = cursor p (q ++ r).
Proof.
  induction q as [|x q IH] using rev_ind; intros p r; [by rewrite app_nil_r|].
  rewrite length_app, Nat.add_comm. cbn [length Nat.add replicate foldl].
  replace (feed (cursor (p ++ q ++ [x]) r) 8) with (cursor (p ++ q) (x :: r)).
  - rewrite IH. f_equal. by rewrite <- app_assoc.
  - unfold feed, cursor. cbn. f_equal; [by rewrite <- !app_assoc|]. rewrite !length_app. cbn. lia.
Qed.

(** Erasing the row and going to its beginning. *)
Lemma feed_erase p r : foldl feed (cursor p r) [27; 91; 50; 75; 13] = cursor [] [].
Proof. done. Qed.

(** What a command may print: characters, tabs, line feeds, and zeros, which terminals ignore. *)
Definition shows (c : Z) : Prop := printable c ∨ c = 9 ∨ c = 10 ∨ c = 0.

Lemma feed_shows ts : ∀ p, Forall shows ts → ∃ p', foldl feed (cursor p []) ts = cursor p' [].
Proof.
  induction ts as [|c ts IH]; intros p Hts; [by exists p|]. apply Forall_cons in Hts as [[Hc|[->|[->| ->]]] Hts]; cbn [foldl].
  - rewrite feed_printable by done. by apply IH.
  - assert (∃ n, feed (cursor p []) 9 = cursor (p ++ replicate n 32) []) as [n ->]; [|by apply IH].
    exists (8 - length p mod 8)%nat. unfold feed, cursor. cbn [esc row col]. cbn [Z.eqb Pos.eqb]. cbv zeta iota.
    rewrite !app_nil_r. rewrite length_app, length_replicate. do 2 f_equal. f_equal. lia.
  - change (feed (cursor p []) 10) with (cursor [] []). by apply IH.
  - change (feed (cursor p []) 0) with (cursor p []). by apply IH.
Qed.

(** * The line as an array *)

Definition array (l : list Z) : list Z := l ++ replicate (80 - length l) 0.

Lemma length_array l : (length l <= 80)%nat → length (array l) = 80%nat.
Proof. intros H. unfold array. rewrite length_app, length_replicate. lia. Qed.

Lemma printable_nonzero l : Forall printable l → Forall (λ c, c ≠ 0) l.
Proof. intros H. eapply Forall_impl; [exact H|]. unfold printable. lia. Qed.

Lemma array_end l : (length l < 80)%nat → array l = l ++ 0 :: replicate (79 - length l) 0.
Proof. intros H. unfold array. by replace (80 - length l)%nat with (S (79 - length l)) by lia. Qed.

Lemma drop_array b a : (length (b ++ a) <= 80)%nat →
  drop (length b) (array (b ++ a)) = a ++ replicate (80 - length (b ++ a)) 0.
Proof. intros H. unfold array. by rewrite <- app_assoc, drop_app_length. Qed.

(** * The commands of the system *)

(** A system that is [settled] shows a short directory in the prompt, and what its commands print
    can be shown; the interpreter of expressions begins a line. *)
Class CommandLaws W `{!Commands W} := {
  settled : W → Prop;
  law_cwd w : settled w → Forall printable (cwd w) ∧ 37 ∉ cwd w ∧ (length (cwd w) <= 41)%nat;
  law_exec t w o w' : Forall printable t → (length t < 79)%nat → settled w →
    msh_exec (array t) (Z.of_nat (length t)) w = Ok (o, w') → settled w' ∧ Forall shows o;
  law_run t w o w' : Forall printable t → (length t < 79)%nat → settled w →
    finsh_run_line true (array (t ++ [59])) w = Ok (o, w') → settled w' ∧ ∃ o', o = 10 :: o' ∧ Forall shows o'
}.

Section Editor.
Context {W : Type} `{!Commands W, !CommandLaws W}.
Notation T := (M (system W)).
Implicit Types (w : W).

Definition prompt (w : W) : list Z := (if msh_is_used w then _MSH_PROMPT else _PROMPT) ++ cwd w ++ [62].

(** What a line does when it ends. *)
Definition command (t : list Z) : M W unit :=
  w ← get;
  if msh_is_used w then msh_exec (array t) (Z.of_nat (length t));; mret tt
  else match t with [] => mret tt | _ => finsh_run_line true (array (t ++ [59]));; mret tt end.

(** The commands of a sequence of keys, one after the other. *)
Fixpoint commands (ks : list key) (e : editor) : M W unit :=
  match ks with
  | [] => mret tt
  | k :: ks => (match k with Enter => command (line_text e) | _ => mret tt end);; commands ks (edit k e)
  end.

Definition edits (ks : list key) (e : editor) : editor := foldl (λ e k, edit k e) e ks.

(** An entry of the history. *)
Definition entry (l : list Z) : Prop := Forall printable l ∧ l ≠ [] ∧ (length l < 79)%nat.

Record editor_ok (e : editor) : Prop := {
  ok_text : Forall printable (line_text e);
  ok_length : (length (line_text e) < 79)%nat;
  ok_hist : Forall entry (hist e);
  ok_count : (length (hist e) <= 5)%nat;
  ok_hpos : (hpos e <= length (hist e))%nat
}.

(** The state of the shell between two keys. *)
Definition the_shell (e : editor) (junk : list (list Z)) : finsh_shell :=
  mk_shell WAIT_NORMAL true (Z.of_nat (hpos e)) (Z.of_nat (length (hist e))) ((array <$> hist e) ++ junk)
    (array (line_text e)) (Z.of_nat (length (line_text e))) (Z.of_nat (length (before e))).

(** The buffer of the prompt ends in a byte that is zero. *)
Definition prompt_buffer (b : list Z) : Prop := length b = 129%nat ∧ b !! 128%nat = Some 0.

(** The terminal shows the prompt and the line, and the cursor is in its place. *)
Definition on_screen (out : list Z) (w : W) (e : editor) : Prop :=
  ∃ j k, display out = cursor (j ++ prompt w ++ before e) (after e ++ replicate k 32).

Record agrees (s : system W) (e : editor) : Prop := {
  agrees_shell : ∃ junk, shell s = the_shell e junk ∧ (length (hist e) + length junk = 5)%nat;
  agrees_ok : editor_ok e;
  agrees_prompt : prompt_buffer (finsh_prompt s);
  agrees_settled : settled (rest s);
  agrees_screen : on_screen (tx s) (rest s) e
}.

(** ** Printing *)

Lemma wp_kprintf t sh r o p w Q :
  (length t <= 126)%nat → Q tt (mk_system sh r (o ++ t) p w) → wp (kprintf t) (mk_system sh r o p w) Q.
Proof.
  intros Ht HQ. unfold kprintf. wp_step. cbn [shell rx tx finsh_prompt rest].
  unfold log_text. change (Z.to_nat (RT_CONSOLEBUF_SIZE - 2)) with 126%nat. by rewrite (proj2 (Nat.leb_le _ _)).
Qed.

Lemma wp_backspaces n sh r p w Q : ∀ o,
  Q tt (mk_system sh r (o ++ replicate n 8) p w) → wp (backspaces n) (mk_system sh r o p w) Q.
Proof.
  induction n as [|n IH]; intros o HQ; cbn [backspaces].
  - wp_step. by rewrite app_nil_r in HQ.
  - wp_step. apply wp_kprintf; [cbn; lia|]. apply IH. by rewrite <- app_assoc.
Qed.

Lemma wp_string_at i t z sh r o p w Q :
  Forall (λ c, c ≠ 0) t → drop (Z.to_nat i) (line sh) = t ++ 0 :: z → Q t (mk_system sh r o p w) →
  wp (string_at i) (mk_system sh r o p w) Q.
Proof.
  intros Ht Hd HQ. unfold string_at, get_shell. wp_step. wp_step. cbn [shell]. rewrite Hd, bool_decide_true by set_solver.
  wp_step. by rewrite c_string_app.
Qed.


Lemma wp_get_prompt sh r o p w Q :
  settled w → prompt_buffer p → (∀ p', prompt_buffer p' → Q (prompt w) (mk_system sh r o p' w)) →
  wp finsh_get_prompt (mk_system sh r o p w) Q.
Proof.
  intros Hw [Hl H0] HQ. unfold finsh_get_prompt. wp_step. wp_step. wp_step. wp_step. cbn [rest finsh_prompt].
  destruct (law_cwd w Hw) as (Hc & H37 & Hlen). unfold prompt in HQ.
  set (m := if msh_is_used w then _MSH_PROMPT else _PROMPT) in *.
  assert (Forall (λ c, c ≠ 0) m ∧ (length m <= 6)%nat) as [Hm Hlm].
  { unfold m. destruct (msh_is_used w); split; (by repeat constructor) || (cbn; lia). }
  assert (drop 128 p = [0]) as Hd.
  { rewrite (drop_S p 0 128) by done. by rewrite drop_ge by lia. }
  assert (∃ z, m ++ take (Z.to_nat RT_CONSOLEBUF_SIZE - length m) (cwd w ++ replicate (Z.to_nat RT_CONSOLEBUF_SIZE - length m) 0)
    ++ drop (Z.to_nat RT_CONSOLEBUF_SIZE) p = (m ++ cwd w) ++ 0 :: 0 :: z ++ [0] ∧ (length (m ++ cwd w) + length z = 126)%nat) as (z & -> & Hz).
  { change (Z.to_nat RT_CONSOLEBUF_SIZE) with 128%nat. rewrite Hd, take_app_ge, take_replicate by lia.
    exists (replicate (126 - length (m ++ cwd w)) 0). rewrite !length_app, length_replicate.
    replace ((128 - length m - length (cwd w)) `min` (128 - length m))%nat with (S (S (126 - (length m + length (cwd w))))) by lia.
    cbn [replicate]. rewrite <- !app_assoc. cbn. split; [done|lia]. }
  assert (Forall (λ c, c ≠ 0) (m ++ cwd w)) as Hn by (apply Forall_app; split; [done|by apply printable_nonzero]).
  wp_step. unfold put_end. rewrite c_string_app by done.
  rewrite (proj2 (Nat.ltb_lt _ _)) by (rewrite !length_app in *; cbn; rewrite ?length_app; cbn; lia).
  wp_step. wp_step. unfold set_prompt. wp_step. wp_step.
  assert (<[S (length (m ++ cwd w)) := 0]> (<[length (m ++ cwd w) := 62]> ((m ++ cwd w) ++ 0 :: 0 :: z ++ [0]))
    = (m ++ cwd w ++ [62]) ++ 0 :: z ++ [0]) as ->.
  { rewrite insert_app_r_alt, Nat.sub_diag by lia. cbn [list_insert insert].
    rewrite insert_app_r_alt by lia. replace (S _ - _)%nat with 1%nat by lia. cbn. by rewrite <- !app_assoc. }
  rewrite c_string_app.
  - apply HQ. split; [rewrite !length_app in *; cbn; rewrite length_app; cbn; lia|].
    rewrite lookup_app_r by (rewrite !length_app in *; cbn; lia). rewrite !length_app in *. cbn [length].
    replace (128 - (length m + (length (cwd w) + 1)))%nat with (S (length z)) by lia. change ((z ++ [0]) !! length z = Some 0).
    by rewrite lookup_app_r, Nat.sub_diag by lia.
  - rewrite app_assoc. apply Forall_app. split; [done|by repeat constructor].
Qed.

Lemma wp_print_prompt sh r o p w Q :
  settled w → prompt_buffer p → (∀ p', prompt_buffer p' → Q tt (mk_system sh r (o ++ prompt w) p' w)) →
  wp print_prompt (mk_system sh r o p w) Q.
Proof.
  intros Hw Hp HQ. unfold print_prompt. wp_step. apply wp_get_prompt; [done|done|]. intros p' Hp'.
  destruct (law_cwd w Hw) as (Hc & H37 & Hlen). rewrite bool_decide_false.
  - apply wp_kprintf; [|by apply HQ]. unfold prompt. rewrite !length_app. destruct (msh_is_used w); cbn; lia.
  - unfold prompt. rewrite !elem_of_app. destruct (msh_is_used w); set_solver.
Qed.

(** ** The line *)

Lemma wp_upd_shell f sh r o p w Q :
  Q tt (mk_system (f sh) r o p w) → wp (upd_shell f) (mk_system sh r o p w) Q.
Proof. intros HQ. unfold upd_shell. by wp_step. Qed.

Lemma wp_get_shell sh r o p w Q : Q sh (mk_system sh r o p w) → wp get_shell (mk_system sh r o p w) Q.
Proof. intros HQ. unfold get_shell. by wp_step. Qed.

Lemma wp_rd_line b x a i sh r o p w Q :
  line sh = b ++ x :: a → i = Z.of_nat (length b) → Q x (mk_system sh r o p w) → wp (rd_line i) (mk_system sh r o p w) Q.
Proof.
  intros Hl -> HQ. unfold rd_line. wp_step. apply wp_get_shell. rewrite (proj2 (Z.leb_le 0 _)), Nat2Z.id, Hl by lia.
  rewrite lookup_app_r, Nat.sub_diag by lia. by wp_step.
Qed.

Lemma wp_wr_line b x a i v sh r o p w Q :
  line sh = b ++ x :: a → i = Z.of_nat (length b) → Q tt (mk_system (set_line (b ++ v :: a) sh) r o p w) →
  wp (wr_line i v) (mk_system sh r o p w) Q.
Proof.
  intros Hl -> HQ. unfold wr_line. wp_step. eapply wp_rd_line; [done|done|]. apply wp_upd_shell. rewrite Hl, Nat2Z.id.
  by rewrite insert_app_r_alt, Nat.sub_diag by lia.
Qed.

(** A piece of the line moves by one to the right, or to the left. *)
Lemma wp_move_right b x q y z sh r o p w Q i j n :
  line sh = b ++ (x :: q) ++ y :: z → i = Z.of_nat (S (length b)) → j = Z.of_nat (length b) → n = Z.of_nat (S (length q)) →
  Q tt (mk_system (set_line (b ++ x :: (x :: q) ++ z) sh) r o p w) → wp (move_line i j n) (mk_system sh r o p w) Q.
Proof.
  intros Hl -> -> -> HQ. unfold move_line. wp_step. apply wp_get_shell.
  assert (length (line sh) = length b + S (length q) + S (length z))%nat as Hlen by (rewrite Hl, !length_app; cbn; lia).
  rewrite !(proj2 (Z.leb_le _ _)) by lia. cbn [andb]. cbv iota. apply wp_upd_shell. rewrite !Nat2Z.id, Hl, drop_app_length.
  rewrite (take_app_length' (x :: q)) by done.
  replace (take (S (length b)) (b ++ (x :: q) ++ y :: z)) with (b ++ [x]).
  2: { rewrite take_app_ge by lia. by replace (S (length b) - length b)%nat with 1%nat by lia. }
  rewrite drop_app_ge by lia. replace (S (length b) + length (x :: q) - length b)%nat with (length (x :: q) + 1)%nat by lia.
  rewrite drop_app_add. by rewrite <- app_assoc.
Qed.

Lemma wp_move_left b x q z sh r o p w Q i j n :
  line sh = b ++ x :: q ++ z → i = Z.of_nat (length b) → j = Z.of_nat (S (length b)) → n = Z.of_nat (length q) →
  q ≠ [] → Q tt (mk_system (set_line (b ++ q ++ drop (length q) (x :: q ++ z)) sh) r o p w) →
  wp (move_line i j n) (mk_system sh r o p w) Q.
Proof.
  intros Hl -> -> -> Hq HQ. unfold move_line. wp_step. apply wp_get_shell.
  assert (length (line sh) = length b + S (length q) + length z)%nat as Hlen by (rewrite Hl, !length_app; cbn; rewrite length_app; lia).
  rewrite !(proj2 (Z.leb_le _ _)) by lia. cbn [andb]. cbv iota. apply wp_upd_shell. rewrite !Nat2Z.id, Hl, take_app_length.
  replace (drop (S (length b)) (b ++ x :: q ++ z)) with (q ++ z).
  2: { rewrite drop_app_ge by lia. by replace (S (length b) - length b)%nat with 1%nat by lia. }
  rewrite take_app_length. by rewrite drop_app_add.
Qed.

Lemma u8_byte x : 0 <= x < 256 → u8 x = x.
Proof. intros H. apply Z.mod_small. exact H. Qed.

(** ** Keys that change the line *)

(** The shell after a change of the line. *)
Lemma the_shell_eq e junk b a sh n m :
  stat sh = WAIT_NORMAL → echo_mode sh = true → current_history sh = Z.of_nat (hpos e) →
  history_count sh = Z.of_nat (length (hist e)) → cmd_history sh = (array <$> hist e) ++ junk →
  line sh = array (b ++ a) → (length (b ++ a) < 80)%nat → n = Z.of_nat (length (b ++ a)) → m = Z.of_nat (length b) →
  set_line_curpos m (set_line_position n sh) = the_shell (mk_editor b a (hist e) (hpos e)) junk.
Proof.
  intros E1 E2 E3 E4 E5 E6 Hlen -> ->. rewrite length_app in Hlen. unfold set_line_curpos, set_line_position, the_shell. cbn.
  rewrite !u8_byte by (rewrite ?length_app; lia). by rewrite E1, E2, E3, E4, E5, E6.
Qed.

(** The array with a character more. *)
Lemma array_insert b c a : (length (b ++ a) < 80)%nat → b ++ c :: a ++ replicate (79 - length (b ++ a)) 0 = array (b ++ c :: a).
Proof.
  intros H. unfold array. rewrite <- app_assoc. cbn [app]. do 4 f_equal. rewrite !length_app in *. cbn [length]. lia.
Qed.

Lemma wp_ltb {A} (x y : Z) (m1 m2 : T A) s Q :
  (x < y → wp m1 s Q) → (y <= x → wp m2 s Q) → wp (if x <? y then m1 else m2) s Q.
Proof. intros H1 H2. destruct (Z.ltb_spec x y); auto. Qed.

(** The positions behind a new character. *)
Lemma wp_advance b c a h i junk sh r o p w Q :
  sh = set_line (array (b ++ c :: a)) (the_shell (mk_editor b a h i) junk) → (length (b ++ a) < 79)%nat →
  Q Continue (mk_system (the_shell (mk_editor (b ++ [c]) a h i) junk) r o p w) →
  wp (upd_shell (λ s, set_line_curpos (line_curpos s + 1) (set_line_position (line_position s + 1) s));;
      upd_shell (λ s, if FINSH_CMD_SIZE <=? line_position s then set_line_curpos 0 (set_line_position 0 s) else s);;
      mret Continue) (mk_system sh r o p w) Q.
Proof.
  intros -> Hlen HQ. rewrite length_app in Hlen. wp_step. apply wp_upd_shell. wp_step. apply wp_upd_shell. wp_step.
  erewrite (the_shell_eq (mk_editor b a h i) junk (b ++ [c]) a);
    [|done|done|done|done|done|cbn [line set_line]; by rewrite <- app_assoc|rewrite !length_app; cbn [length]; lia
     |cbn [line_position set_line the_shell]; unfold line_text; cbn [before after]; rewrite !length_app; cbn [length]; lia
     |cbn [line_curpos set_line set_line_position the_shell before]; rewrite !length_app; cbn [length]; lia].
  cbn [line_position the_shell line_text before after]. unfold FINSH_CMD_SIZE.
  rewrite (proj2 (Z.leb_gt _ _)); [done|]. unfold line_text. cbn [before after]. rewrite !length_app. cbn [length]. lia.
Qed.

Lemma key_char c e junk r o p w Q :
  editor_ok e → printable c → (length (line_text e) < 79)%nat → on_screen o w e →
  (∀ o', on_screen o' w (edit (Char c) e) → Q Continue (mk_system (the_shell (edit (Char c) e) junk) r o' p w)) →
  wp (normal_key c) (mk_system (the_shell e junk) r o p w) Q.
Proof.
  intros [Ht _ _ _ _] Hc Hlen (j & k & Hscr) HQ. destruct e as [b a h i].
  unfold line_text in *. cbn [before after hist hpos edit] in *.
  unfold normal_key. wp_step. apply wp_upd_shell.
  replace (if FINSH_CMD_SIZE <=? line_position (the_shell (mk_editor b a h i) junk) then _ else _)
    with (the_shell (mk_editor b a h i) junk).
  2: { unfold FINSH_CMD_SIZE. rewrite (proj2 (Z.leb_gt _ _)); [done|]. cbn [line_position the_shell]. unfold line_text. cbn [before after]. lia. }
  wp_step. apply wp_get_shell. cbn [line_curpos line_position the_shell before after echo_mode]. unfold line_text. cbn [before after].
  assert (length (b ++ a) = length b + length a)%nat as Hla by apply length_app. wp_step.
  assert (length b < 79)%nat by lia. apply Forall_app in Ht as [Hb Ha].
  destruct a as [|x q]; apply wp_ltb; cbn [length] in Hla; intros Hlt; try lia.
  - rewrite app_nil_r in *. wp_step.
    eapply (wp_wr_line b 0 (replicate (79 - length b) 0)); [cbn; unfold line_text; cbn; rewrite app_nil_r; by apply array_end; lia|done|].
    apply wp_kprintf; [cbn; lia|]. eapply wp_advance; [|by rewrite app_nil_r|apply HQ].
    + f_equal. pose proof (array_insert b c [] ltac:(rewrite app_nil_r; lia)) as E. by rewrite app_nil_r in E.
    + exists j, (pred k). rewrite display_app, Hscr. cbn [before after app foldl]. rewrite feed_printable by done.
      rewrite <- !app_assoc. f_equal. by destruct k.
  - set (z := replicate (79 - length (b ++ x :: q)) 0).
    assert (∃ z', z = 0 :: z') as [z' Hz].
    { exists (replicate (78 - length (b ++ x :: q)) 0). unfold z. by replace (79 - length (b ++ x :: q))%nat with (S (78 - length (b ++ x :: q))) by lia. }
    wp_step. eapply (wp_move_right b x q 0 z).
    { cbn [line the_shell]. unfold line_text. cbn [before after]. rewrite array_end by lia. by rewrite <- app_assoc. }
    1-3: lia.
    wp_step. eapply (wp_wr_line b x ((x :: q) ++ z)); [done|done|]. wp_step. wp_step.
    eapply (wp_string_at _ (c :: x :: q) z').
    { apply printable_nonzero. by constructor. }
    { cbn [line set_line]. by rewrite Nat2Z.id, drop_app_length, Hz. }
    apply wp_kprintf; [cbn; lia|].
    apply wp_backspaces. eapply wp_advance; [|done|apply HQ].
    + unfold z. rewrite array_insert by lia. reflexivity.
    + exists j, (pred k). rewrite !display_app, Hscr. cbn [before after].
      rewrite feed_text by by constructor. change (c :: x :: q) with ([c] ++ x :: q) at 1. rewrite app_assoc.
      replace (Z.to_nat _) with (length (x :: q)) by (cbn; lia). rewrite feed_backspaces. f_equal; [by rewrite <- !app_assoc|].
      f_equal. change (length (c :: x :: q)) with (1 + length (x :: q))%nat. rewrite Nat.add_comm, drop_app_add. by destruct k.
Qed.

(** ** Keys that move the cursor *)

Lemma edit_left b x a h i : edit Left (mk_editor (b ++ [x]) a h i) = mk_editor b (x :: a) h i.
Proof. cbn. by rewrite rev_app_distr; cbn; rewrite rev_involutive. Qed.

Lemma edit_backspace b x a h i : edit Backspace (mk_editor (b ++ [x]) a h i) = mk_editor b a h i.
Proof. cbn. by rewrite rev_app_distr; cbn; rewrite rev_involutive. Qed.

Lemma key_left e junk r o p w Q :
  editor_ok e → on_screen o w e →
  (∀ o', on_screen o' w (edit Left e) → Q Continue (mk_system (the_shell (edit Left e) junk) r o' p w)) →
  wp left_key (mk_system (the_shell e junk) r o p w) Q.
Proof.
  intros [_ Hlen _ _ _] (j & k & Hscr) HQ. destruct e as [b a h i]. unfold left_key. wp_step. apply wp_get_shell.
  destruct b as [|x b _] using rev_ind; [by apply HQ; exists j, k|]. rewrite edit_left in HQ.
  unfold line_text in *. cbn [before after hist hpos line_curpos the_shell] in *. rewrite !length_app in Hlen. cbn [length] in Hlen.
  rewrite (proj2 (Z.eqb_neq _ 0)) by (rewrite length_app; cbn [length]; lia). cbn [negb]. wp_step. wp_step.
  apply wp_kprintf; [cbn; lia|]. apply wp_upd_shell. wp_step.
  replace (set_line_curpos _ _) with (the_shell (mk_editor b (x :: a) h i) junk); [apply HQ|].
  - exists j, k. rewrite display_app, Hscr. cbn [before after app].
    rewrite !app_assoc. by rewrite (feed_backspaces [x]), <- !app_assoc.
  - unfold set_line_curpos, the_shell, line_text. cbn [before after hist hpos line_curpos stat echo_mode current_history history_count cmd_history line line_position].
    rewrite length_app, <- app_assoc. cbn [length app]. f_equal; [rewrite ?length_app; cbn [length]; lia|]. rewrite length_app; cbn [length]. rewrite u8_byte by lia. lia.
Qed.

Lemma key_right e junk r o p w Q :
  editor_ok e → on_screen o w e →
  (∀ o', on_screen o' w (edit Right e) → Q Continue (mk_system (the_shell (edit Right e) junk) r o' p w)) →
  wp right_key (mk_system (the_shell e junk) r o p w) Q.
Proof.
  intros [Ht Hlen _ _ _] (j & k & Hscr) HQ. destruct e as [b a h i]. unfold right_key. wp_step. apply wp_get_shell.
  unfold line_text in *. cbn [before after hist hpos line_curpos line_position the_shell edit] in *.
  unfold line_text in *. cbn [before after] in *. apply Forall_app in Ht as [_ Ha]. rewrite length_app in *. wp_step.
  destruct a as [|x a]; cbn [length] in *; apply wp_ltb; intros Hlt; try lia.
  - wp_step. wp_step. apply HQ. by exists j, k.
  - apply Forall_cons in Ha as [Hx Ha]. wp_step. eapply wp_rd_line; [|done|].
    { cbn [line the_shell]. unfold line_text, array. cbn [before after]. by rewrite <- app_assoc. }
    wp_step. apply wp_kprintf; [cbn; lia|]. apply wp_upd_shell. wp_step.
    replace (set_line_curpos _ _) with (the_shell (mk_editor (b ++ [x]) a h i) junk); [apply HQ|].
    + exists j, k. rewrite display_app, Hscr. cbn [before after app foldl]. rewrite feed_printable by done.
      by rewrite <- !app_assoc.
    + unfold set_line_curpos, the_shell, line_text. cbn [before after hist hpos line_curpos stat echo_mode current_history history_count cmd_history line line_position].
      rewrite !length_app, <- app_assoc. cbn [length app]. f_equal; [rewrite ?length_app; cbn [length]; lia|]. rewrite ?length_app; cbn [length]. rewrite u8_byte by lia. lia.
Qed.

(** ** Deleting a character *)

Lemma last_of (x : Z) a : ∃ q l, x :: a = q ++ [l] ∧ length q = length a.
Proof.
  destruct (exists_last (l := x :: a) ltac:(done)) as (q & l & E). exists q, l. split; [done|].
  apply (f_equal length) in E. rewrite length_app in E. cbn in E. lia.
Qed.

Lemma array_delete b a x n : (length (b ++ x :: a) < 80)%nat → n = (80 - length (b ++ x :: a))%nat →
  b ++ a ++ 0 :: replicate n 0 = array (b ++ a).
Proof.
  intros H ->. unfold array. rewrite <- app_assoc. do 2 f_equal. rewrite !length_app in *. cbn [length] in *.
  by replace (80 - (length b + length a))%nat with (S (80 - (length b + S (length a)))) by lia.
Qed.

(** The screen when a character before the cursor is deleted. *)
Lemma feed_delete j a x k : Forall printable a →
  ∃ k', foldl feed (foldl feed (cursor (j ++ [x]) (a ++ replicate k 32)) ([8] ++ a ++ [32; 32; 8])) (replicate (length a + 1) 8)
    = cursor j (a ++ replicate k' 32).
Proof.
  intros Ha. exists (2 + pred k)%nat. rewrite !foldl_app.
  change (foldl feed (cursor (j ++ [x]) (a ++ replicate k 32)) [8])
    with (foldl feed (cursor (j ++ [x]) (a ++ replicate k 32)) (replicate (length [x]) 8)).
  rewrite feed_backspaces, feed_text by done.
  destruct (last_of x a) as (q & l & E & Hl). replace (drop _ _) with (l :: replicate k 32).
  2: { cbn [app]. change (x :: a ++ replicate k 32) with ((x :: a) ++ replicate k 32). rewrite E, <- Hl, <- app_assoc. by rewrite drop_app_length. }
  change (foldl feed (cursor (j ++ a) (l :: replicate k 32)) [32; 32; 8])
    with (foldl feed (foldl feed (cursor (j ++ a) (l :: replicate k 32)) [32; 32]) (replicate (length [32]) 8)).
  rewrite feed_text by (repeat constructor; lia).
  change ((j ++ a) ++ [32; 32]) with ((j ++ a) ++ [32] ++ [32]). rewrite app_assoc, feed_backspaces.
  replace (length a + 1)%nat with (length (a ++ [32])) by (rewrite length_app; cbn; lia).
  rewrite <- app_assoc, feed_backspaces. rewrite <- app_assoc. f_equal. f_equal. cbn. by destruct k.
Qed.

Lemma key_backspace e junk r o p w Q :
  editor_ok e → on_screen o w e →
  (∀ o', on_screen o' w (edit Backspace e) → Q Continue (mk_system (the_shell (edit Backspace e) junk) r o' p w)) →
  wp backspace_key (mk_system (the_shell e junk) r o p w) Q.
Proof.
  intros [Ht Hlen _ _ _] (j & k & Hscr) HQ. destruct e as [b a h i]. unfold backspace_key. wp_step. apply wp_get_shell.
  destruct b as [|x b _] using rev_ind; [cbn; by apply wp_ret, HQ; exists j, k|]. rewrite edit_backspace in HQ.
  unfold line_text in *. cbn [before after hist hpos] in *.
  assert (Forall printable (b ++ a)) as Hba by (rewrite !Forall_app in *; tauto).
  assert (length ((b ++ [x]) ++ a) = length b + 1 + length a)%nat as Hl by (rewrite !length_app; done).
  rewrite (proj2 (Z.eqb_neq _ 0)) by (cbn [line_curpos the_shell before]; rewrite length_app; cbn; lia).
  wp_step. apply wp_upd_shell. wp_step. apply wp_upd_shell.
  set (sh := set_line_curpos _ _).
  assert (sh = set_line (array ((b ++ [x]) ++ a)) (the_shell (mk_editor b a h i) junk)) as ->.
  { unfold sh, set_line_curpos, set_line_position, set_line, the_shell, line_text.
    cbn [before after hist hpos stat echo_mode current_history history_count cmd_history line line_position line_curpos].
    rewrite Hl, (length_app b [x]), (length_app b a). cbn [length]. rewrite !u8_byte by lia. f_equal; lia. }
  wp_step. apply wp_get_shell. cbn [line_curpos line_position set_line the_shell before line_text]. unfold line_text. cbn [before after].
  assert (foldl feed (display o) [] = cursor ((j ++ prompt w ++ b) ++ [x]) (a ++ replicate k 32)) as Hscr'.
  { cbn. rewrite Hscr. by rewrite <- !app_assoc. }
  destruct (feed_delete (j ++ prompt w ++ b) a x k) as [k' Hk'].
  { by apply Forall_app in Hba as [_ ?]. }
  assert (array ((b ++ [x]) ++ a) = b ++ x :: a ++ replicate (80 - length (b ++ x :: a)) 0) as Har.
  { unfold array. rewrite <- !app_assoc. done. }
  assert (length (b ++ x :: a) < 80)%nat as Hl' by (rewrite length_app; cbn; lia).
  pose proof (array_delete b a x _ Hl' eq_refl) as Hdel.
  rewrite length_app. apply wp_ltb; intros Hlt.
  - wp_step. eapply (wp_move_left b x a); [cbn [line set_line]; exact Har|lia|lia|lia|by destruct a; cbn in Hlt; [lia|]|].
    destruct (last_of x a) as (q & l & E & Hq).
    change (x :: a ++ replicate (80 - length (b ++ x :: a)) 0) with ((x :: a) ++ replicate (80 - length (b ++ x :: a)) 0).
    rewrite E at 1. rewrite <- app_assoc, <- Hq, drop_app_length. cbn [app].
    wp_step. eapply (wp_wr_line (b ++ a) l _ _ 0); [cbn [line set_line]; by rewrite <- app_assoc|rewrite length_app; lia|].
    wp_step. eapply (wp_string_at _ a (replicate (80 - length (b ++ x :: a)) 0)).
    { apply printable_nonzero. by apply Forall_app in Hba as [_ ?]. }
    { cbn [line set_line]. rewrite Nat2Z.id, <- app_assoc. apply drop_app_length. }
    wp_step. apply wp_kprintf; [cbn [app length]; rewrite length_app; cbn [length]; lia|]. wp_step. apply wp_backspaces. wp_step.
    replace (set_line ((b ++ a) ++ _) _) with (the_shell (mk_editor b a h i) junk); [apply HQ|].
    + exists j, k'. rewrite !display_app. cbn [before after]. cbn [foldl] in Hscr'. rewrite Hscr'.
      replace (Z.to_nat _) with (length a + 1)%nat by lia. etrans; [exact Hk'|done].
    + unfold the_shell at 1. rewrite <- app_assoc, Hdel. reflexivity.
  - destruct a; [|cbn in Hlt; lia]. rewrite app_nil_r in *. wp_step. apply wp_kprintf; [cbn; lia|].
    wp_step. eapply (wp_wr_line b x); [cbn [line set_line]; exact Har|cbn; lia|]. wp_step.
    replace (set_line (b ++ _) _) with (the_shell (mk_editor b [] h i) junk); [apply HQ|].
    + exists j, (S k). rewrite !display_app. cbn [before after]. cbn [foldl] in Hscr'. rewrite Hscr'. cbn [app].
      change [8; 32; 8] with (replicate (length [x]) 8 ++ [32] ++ replicate (length [32]) 8).
      rewrite foldl_app, feed_backspaces, foldl_app, feed_text by (repeat constructor; lia).
      by rewrite feed_backspaces.
    + cbn [app] in Hdel |- *. rewrite Hdel. unfold set_line, the_shell, line_text. cbn. by rewrite app_nil_r.
Qed.

(** ** The history *)

Lemma length_prompt w : settled w → (length (prompt w) <= 48)%nat ∧ Forall printable (prompt w).
Proof.
  intros Hw. destruct (law_cwd w Hw) as (Hc & _ & Hlen). unfold prompt. rewrite !length_app.
  split; [destruct (msh_is_used w); cbn; lia|]. rewrite !Forall_app. repeat split; [|done|by repeat constructor].
  destruct (msh_is_used w); repeat constructor; done.
Qed.

Lemma wp_rd_history h junk i l sh r o p w Q :
  cmd_history sh = (array <$> h) ++ junk → h !! i = Some l → Q (array l) (mk_system sh r o p w) →
  wp (rd_history (Z.of_nat i)) (mk_system sh r o p w) Q.
Proof.
  intros Hh Hl HQ. unfold rd_history. wp_step. apply wp_get_shell. rewrite (proj2 (Z.leb_le 0 _)), Nat2Z.id, Hh by lia.
  rewrite lookup_app_l by (rewrite length_fmap; by eapply lookup_lt_Some). rewrite list_lookup_fmap, Hl. by wp_step.
Qed.

Lemma wp_shell_handle_history t z e sh r o p w Q :
  line sh = t ++ 0 :: z → Forall printable t → (length t < 79)%nat → prompt_buffer p → settled w → on_screen o w e →
  (∀ o' p', prompt_buffer p' → display o' = cursor (prompt w ++ t) [] → Q tt (mk_system sh r o' p' w)) →
  wp shell_handle_history (mk_system sh r o p w) Q.
Proof.
  intros Hl Ht Hlen Hp Hw (j & k & Hscr) HQ. unfold shell_handle_history. wp_step. apply wp_kprintf; [cbn; lia|].
  wp_step. apply wp_get_prompt; [done|done|]. intros p' Hp'. wp_step.
  eapply (wp_string_at 0 t z); [by apply printable_nonzero|done|].
  destruct (length_prompt w Hw) as [Hlp Hpp].
  apply wp_kprintf; [rewrite length_app; lia|]. apply HQ; [done|].
  rewrite !display_app, Hscr, feed_erase, feed_text, drop_nil by (by apply Forall_app). done.
Qed.

Lemma wp_recall e i junk r o p w Q :
  editor_ok e → (i < length (hist e))%nat → prompt_buffer p → settled w → on_screen o w e →
  (∀ o' p', prompt_buffer p' → on_screen o' w (recalled e i) → Q tt (mk_system (the_shell (recalled e i) junk) r o' p' w)) →
  wp recall (mk_system (set_current_history (Z.of_nat i) (the_shell e junk)) r o p w) Q.
Proof.
  intros [_ _ Hh _ _] Hi Hp Hw Hscr HQ. apply lookup_lt_is_Some in Hi as [l Hl].
  assert (entry l) as (Hlp & Hl0 & Hlen) by (by eapply Forall_lookup_1 in Hh).
  unfold recall. wp_step. apply wp_get_shell. wp_step. eapply wp_rd_history; [done|done|].
  wp_step. apply wp_upd_shell. wp_step. eapply (wp_string_at 0 l (replicate (79 - length l) 0)).
  { by apply printable_nonzero. }
  { apply (array_end l). lia. }
  wp_step. apply wp_upd_shell.
  assert (recalled e i = mk_editor l [] (hist e) i) as Hre by (unfold recalled; by rewrite Hl).
  match goal with |- wp _ (mk_system ?sh _ _ _ _) _ => replace sh with (the_shell (recalled e i) junk) end.
  - eapply (wp_shell_handle_history l (replicate (79 - length l) 0)); [|done|done|done|done|done|].
    + rewrite Hre. cbn [line the_shell]. unfold line_text. cbn [before after]. rewrite app_nil_r. apply array_end. lia.
    + intros o' p' Hp' Ho'. apply HQ; [done|]. exists [], 0%nat. rewrite Ho', Hre. cbn. done.
  - rewrite Hre. symmetry. apply (the_shell_eq (mk_editor l [] (hist e) i)); rewrite ?app_nil_r; cbn; try done; lia.
Qed.

Definition goes_to (Q : verdict → system W → Prop) (r : list Z) (w : W) (e : editor) : Prop :=
  ∀ o p junk, (length (hist e) + length junk = 5)%nat → prompt_buffer p → settled w → on_screen o w e →
  Q Continue (mk_system (the_shell e junk) r o p w).

Lemma key_up e junk r o p w Q :
  editor_ok e → (length (hist e) + length junk = 5)%nat → prompt_buffer p → settled w → on_screen o w e →
  goes_to Q r w (edit Up e) → wp up_key (mk_system (the_shell e junk) r o p w) Q.
Proof.
  intros Hok Hj Hp Hw Hscr HQ. unfold up_key. wp_step. apply wp_get_shell. cbn [current_history the_shell].
  destruct (hpos e) as [|i] eqn:Hi.
  - apply wp_ltb; [lia|intros _]. wp_step. apply wp_upd_shell. wp_step.
    assert (edit Up e = e) as He by (unfold edit; by rewrite Hi). rewrite He in HQ.
    match goal with |- Q _ (mk_system ?sh _ _ _ _) => replace sh with (the_shell e junk) end; [by apply HQ|].
    unfold set_current_history, the_shell. cbn. by rewrite Hi.
  - assert (edit Up e = recalled e i) as He by (unfold edit; by rewrite Hi). rewrite He in HQ.
    apply wp_ltb; [intros _|lia]. wp_step. apply wp_upd_shell. cbn [current_history the_shell]. rewrite Hi.
    replace (Z.of_nat (S i) - 1) with (Z.of_nat i) by lia. wp_step.
    apply wp_recall; [done|destruct Hok; lia|done|done|done|]. intros o' p' Hp' Ho'. wp_step. by apply HQ.
Qed.

Lemma key_down e junk r o p w Q :
  editor_ok e → (length (hist e) + length junk = 5)%nat → prompt_buffer p → settled w → on_screen o w e →
  goes_to Q r w (edit Down e) → wp down_key (mk_system (the_shell e junk) r o p w) Q.
Proof.
  intros Hok Hj Hp Hw Hscr HQ. unfold down_key. wp_step. apply wp_get_shell. cbn [current_history history_count the_shell].
  pose proof (ok_hpos _ Hok) as Hpos.
  destruct (decide (hist e = [])) as [Hn|Hn].
  - assert (edit Down e = e) as He by (unfold edit; by rewrite Hn). rewrite He in HQ. rewrite Hn in *. cbn [length] in *.
    apply wp_ltb; [lia|intros _]. change (negb (Z.of_nat 0 =? 0)) with false. cbv iota. wp_step. apply HQ; [by rewrite Hn|done|done|done].
  - assert (length (hist e) ≠ 0%nat) as Hz by (by destruct (hist e)).
    set (i := if (S (hpos e) <? length (hist e))%nat then S (hpos e) else (length (hist e) - 1)%nat).
    assert (edit Down e = recalled e i) as He by (unfold edit; by destruct (hist e)). rewrite He in HQ.
    assert (i < length (hist e))%nat as Hi by (unfold i; destruct (Nat.ltb_spec (S (hpos e)) (length (hist e))); lia).
    assert (∀ sh, sh = set_current_history (Z.of_nat i) (the_shell e junk) →
      wp (recall;; mret Continue) (mk_system sh r o p w) Q) as Hre.
    { intros sh ->. wp_step. apply wp_recall; [done|done|done|done|done|]. intros o' p' Hp' Ho'. wp_step. by apply HQ. }
    pose proof (ok_count _ Hok) as Hc.
    apply wp_ltb; intros Hlt.
    + wp_step. apply wp_upd_shell. apply Hre. f_equal. unfold i. rewrite (proj2 (Nat.ltb_lt _ _)) by lia.
      unfold u16. cbn [current_history the_shell]. rewrite Z.mod_small by lia. lia.
    + rewrite (proj2 (Z.eqb_neq _ 0)) by lia. cbn [negb]. wp_step. apply wp_upd_shell. apply Hre. f_equal.
      unfold i. rewrite (proj2 (Nat.ltb_ge _ _)) by lia. cbn [history_count the_shell]. lia.
Qed.

(** ** The end of a line *)

Lemma wp_wr_history l a x b i sh r o p w Q :
  cmd_history sh = a ++ x :: b → i = Z.of_nat (length a) →
  Q tt (mk_system (set_history (history_count sh) (a ++ l :: b) sh) r o p w) → wp (wr_history i l) (mk_system sh r o p w) Q.
Proof.
  intros Hh -> HQ. unfold wr_history, rd_history. wp_step. wp_step. apply wp_get_shell.
  rewrite (proj2 (Z.leb_le 0 _)), Nat2Z.id, Hh by lia. rewrite lookup_app_r, Nat.sub_diag by lia. wp_step.
  apply wp_upd_shell. rewrite Hh. by rewrite insert_app_r_alt, Nat.sub_diag by lia.
Qed.

(** The entries move by one to the front. *)
Lemma wp_shift_history m : ∀ a x sh r o p w Q,
  cmd_history sh = a ++ x :: m →
  (∀ y, Q tt (mk_system (set_history (history_count sh) (a ++ m ++ [y]) sh) r o p w)) →
  wp (shift_history (length m) (Z.of_nat (length a))) (mk_system sh r o p w) Q.
Proof.
  induction m as [|z m IH]; intros a x sh r o p w Q Hh HQ; cbn [length shift_history].
  - wp_step. specialize (HQ x). cbn [app] in HQ. rewrite <- Hh in HQ. by destruct sh.
  - wp_step. unfold rd_history. wp_step. apply wp_get_shell. rewrite (proj2 (Z.leb_le 0 _)), Hh by lia.
    replace (Z.to_nat (Z.of_nat (length a) + 1)) with (S (length a)) by lia.
    rewrite lookup_app_r by lia. replace (S (length a) - length a)%nat with 1%nat by lia. cbn [lookup list_lookup]. wp_step.
    wp_step. eapply (wp_wr_history z a x (z :: m)); [done|done|].
    replace (Z.of_nat (length a) + 1) with (Z.of_nat (length (a ++ [z]))) by (rewrite length_app; cbn; lia).
    apply (IH (a ++ [z]) z); [cbn; by rewrite <- app_assoc|]. intros y. cbn [history_count set_history].
    rewrite <- app_assoc. apply HQ.
Qed.

(** The line is remembered. *)
Definition remembered (e : editor) : editor :=
  let h := remember (hist e) (line_text e) in mk_editor (before e) (after e) h (length h).

Lemma wp_history_entry e junk (s : system W) Q :
  (length (line_text e) < 79)%nat → Q (array (line_text e)) s → wp (history_entry (the_shell e junk)) s Q.
Proof.
  intros Hlen HQ. unfold history_entry. cbn [line_position line the_shell]. rewrite Nat2Z.id, length_array by lia.
  rewrite (proj2 (Nat.leb_le _ 80)), (proj2 (Nat.leb_le _ (Z.to_nat FINSH_CMD_SIZE))) by (change (Z.to_nat FINSH_CMD_SIZE) with 80%nat; lia). cbn [andb]. cbv iota. wp_step. unfold array at 1. by rewrite take_app_length.
Qed.

Lemma wp_push_history e junk r o p w Q :
  editor_ok e → (length (hist e) + length junk = 5)%nat →
  (∀ junk', (length (hist (remembered e)) + length junk' = 5)%nat →
     Q tt (mk_system (the_shell (remembered e) junk') r o p w)) →
  wp shell_push_history (mk_system (the_shell e junk) r o p w) Q.
Proof.
  intros [_ Hlen _ Hc _] Hj HQ. unfold shell_push_history. wp_step. apply wp_get_shell. wp_step.
  destruct (decide (line_text e = [])) as [Ht|Ht].
  - cbn [line_position the_shell]. rewrite Ht. change (negb (Z.of_nat (length []) =? 0)) with false. cbv iota. wp_step.
    apply wp_upd_shell. unfold remembered, remember in HQ. rewrite Ht in HQ. specialize (HQ junk Hj).
    unfold the_shell in HQ. cbn [hist hpos line_text before after] in HQ. exact HQ.
  - assert (length (line_text e) ≠ 0%nat) by (by destruct (line_text e)). cbn [line_position history_count the_shell].
    rewrite (proj2 (Z.eqb_neq _ 0)) by lia. cbn [negb]. cbv iota. wp_step. apply wp_history_entry; [done|].
    assert (remember (hist e) (line_text e) = drop (length (hist e) - 4) (hist e ++ [line_text e])) as Hr.
    { unfold remember. by destruct (line_text e). }
    unfold FINSH_HISTORY_LINES. destruct (Z.leb_spec 5 (Z.of_nat (length (hist e)))) as [Hfull|Hroom].
    + destruct junk; [|cbn in Hj; lia]. destruct (hist e) as [|x m] eqn:Hh; [cbn in *; lia|].
      assert (length m = 4%nat) as Hm by (cbn in *; lia).
      wp_step. change (Z.to_nat (5 - 1)) with 4%nat. rewrite <- Hm, <- (length_fmap array m). change 0 with (Z.of_nat (@length (list Z) [])).
      eapply (wp_shift_history _ [] (array x)); [cbn [cmd_history the_shell]; by rewrite Hh, app_nil_r|]. intros y. cbn [app].
      wp_step. eapply (wp_wr_history _ (array <$> m) y []); [done|rewrite length_fmap; lia|].
      apply wp_upd_shell. apply wp_upd_shell. unfold remembered in HQ. rewrite Hh, Hr in HQ. cbn [length app hist] in HQ. rewrite Hm in HQ.
      cbn [Nat.sub drop] in HQ. rewrite drop_0 in HQ. specialize (HQ [] ltac:(rewrite length_app, Hm; done)).
      unfold the_shell in HQ. cbn [hist hpos line_text before after] in HQ. rewrite length_app, Hm, fmap_app, app_nil_r in HQ. exact HQ.
    + destruct junk as [|x junk]; [cbn in Hj; lia|]. wp_step.
      eapply (wp_wr_history _ (array <$> hist e) x junk); [done|by rewrite length_fmap|]. apply wp_upd_shell. apply wp_upd_shell.
      unfold remembered in HQ. rewrite Hr in HQ. replace (length (hist e) - 4)%nat with 0%nat in HQ by lia. rewrite drop_0 in HQ.
      cbn [length] in Hj. cbv zeta in HQ. cbn [hist] in HQ. specialize (HQ junk ltac:(rewrite length_app; cbn; lia)).
      unfold the_shell in HQ. cbn [hist hpos line_text before after] in HQ. rewrite length_app, fmap_app, <- app_assoc in HQ.
      cbn [length app fmap list_fmap] in HQ.
      replace (Z.of_nat (length (hist e) + 1)) with (u16 (Z.of_nat (length (hist e)) + 1)) in HQ; [exact HQ|].
      unfold u16. rewrite Z.mod_small by lia. lia.
Qed.

(** The prompt is printed behind the output, and the line is cleared. *)
Lemma wp_new_line e t h junk sh r o p w Q :
  (∃ a b, display o = cursor a b) → Forall shows t → prompt_buffer p → settled w →
  sh = set_line (line sh) (the_shell (mk_editor (before e) (after e) h (length h)) junk) →
  (∀ o' p', prompt_buffer p' → on_screen o' w (mk_editor [] [] h (length h)) →
     Q Break (mk_system (the_shell (mk_editor [] [] h (length h)) junk) r o' p' w)) →
  wp (print_prompt;;
      upd_shell (set_line (replicate (Z.to_nat FINSH_CMD_SIZE) 0));;
      upd_shell (λ s, set_line_curpos 0 (set_line_position 0 s));;
      mret Break) (mk_system sh r (o ++ 10 :: t) p w) Q.
Proof.
  intros (a & b & Ho) Ht Hp Hw Hsh HQ. destruct (length_prompt w Hw) as [_ Hpp].
  wp_step. apply wp_print_prompt; [done|done|]. intros p' Hp'. wp_step. apply wp_upd_shell. wp_step. apply wp_upd_shell. wp_step.
  rewrite Hsh. apply (HQ _ _ Hp'). destruct (feed_shows t [] Ht) as [j Hj]. exists j, 0%nat.
  rewrite !display_app, Ho. cbn [foldl]. change (feed (cursor a b) 10) with (cursor [] []).
  rewrite Hj, feed_text, drop_nil by done. cbn. by rewrite !app_nil_r.
Qed.

Lemma key_enter e junk r o p w w' Q :
  editor_ok e → (length (hist e) + length junk = 5)%nat → prompt_buffer p → settled w → on_screen o w e →
  command (line_text e) w = Ok (tt, w') →
  (∀ o' p' junk', (length (hist (edit Enter e)) + length junk' = 5)%nat → prompt_buffer p' → settled w' →
     on_screen o' w' (edit Enter e) → Q Break (mk_system (the_shell (edit Enter e) junk') r o' p' w')) →
  wp enter_key (mk_system (the_shell e junk) r o p w) Q.
Proof.
  intros Hok Hj Hp Hw (j & k & Hscr) Hcmd HQ. unfold enter_key. wp_step. apply wp_push_history; [done|done|]. intros junk' Hj'.
  wp_step. apply wp_get_shell. wp_step. wp_step. cbn [rest]. wp_step.
  change (edit Enter e) with (mk_editor [] [] (hist (remembered e)) (length (hist (remembered e)))) in HQ. cbn [hist] in HQ, Hj'.
  assert (∀ sh o' t p0, sh = set_line (line sh) (the_shell (remembered e) junk') → Forall shows t → o' = o ++ 10 :: t →
    p0 = p → settled w' →
    wp (print_prompt;; upd_shell (set_line (replicate (Z.to_nat FINSH_CMD_SIZE) 0));;
      upd_shell (λ s, set_line_curpos 0 (set_line_position 0 s));; mret Break) (mk_system sh r o' p0 w') Q) as Hend.
  { intros sh o' t p0 Hsh Ht -> -> Hw'. eapply wp_new_line; [by eauto|done|done|done|exact Hsh|]. intros. by eapply HQ. }
  apply bind_ok in Hcmd as (w1 & w2 & [= <- <-] & Hcmd).
  destruct (msh_is_used w) eqn:Hm.
  - apply bind_ok in Hcmd as (t & w1 & E & [= <-]). destruct (law_exec _ _ _ _ (ok_text _ Hok) (ok_length _ Hok) Hw E) as [Hw' Ht].
    cbn [echo_mode the_shell]. cbv iota. wp_step. apply wp_kprintf; [cbn; lia|]. wp_step. unfold on_rest. wp_step. cbn [rest line line_position the_shell].
    apply wp_run. exists t, w1. split; [exact E|]. unfold print_raw. wp_step. cbn [shell rx tx finsh_prompt rest].
    eapply (Hend _ _ t); [done|done|by rewrite <- app_assoc|done|done].
  - destruct Hok as [Ht Hlen _ _ _]. cbn [line_position the_shell]. wp_step.
    eapply (wp_wr_line (line_text e) 0); [apply array_end; change (line_text (remembered e)) with (line_text e); lia|done|].
    change (line_text (remembered e)) with (line_text e).
    assert (line_text e ++ 59 :: replicate (79 - length (line_text e)) 0 = array (line_text e ++ [59])) as ->.
    { unfold array. rewrite <- app_assoc, length_app. cbn [app length]. do 3 f_equal. lia. }
    destruct (line_text e) as [|x l] eqn:Htext.
    + injection Hcmd as <-. change (negb (Z.of_nat (length []) =? 0)) with false. cbv iota. cbn [echo_mode the_shell]. cbv iota.
      apply wp_kprintf; [cbn; lia|]. eapply (Hend _ _ []); [reflexivity|done|done|done|done].
    + apply bind_ok in Hcmd as (u & w1 & E & [= <-]). destruct (law_run (x :: l) _ _ _ ltac:(done) ltac:(done) Hw E) as (Hw' & t & -> & Hts).
      rewrite (proj2 (Z.eqb_neq _ 0)) by done. cbn [negb]. cbv iota. wp_step. apply wp_get_shell.
      cbn [echo_mode set_line the_shell line]. wp_step. unfold on_rest. wp_step. cbn [rest].
      apply wp_run. exists (10 :: t), w1. split; [exact E|]. unfold print_raw. wp_step. cbn [shell rx tx finsh_prompt rest].
      eapply (Hend _ _ t); [reflexivity|done|done|done|done].
Qed.

(** ** Every key *)

Definition key_fits (k : key) (e : editor) : Prop :=
  match k with Char c => printable c ∧ (length (line_text e) < 78)%nat | _ => True end.

Lemma entry_remember h t : Forall entry h → Forall printable t → (length t < 79)%nat → Forall entry (remember h t).
Proof.
  intros Hh Ht Hlen. unfold remember. destruct t as [|x t]; [done|]. apply Forall_drop, Forall_app. split; [done|].
  constructor; [by split|constructor].
Qed.

Lemma length_remember h t : (length h <= 5)%nat → (length (remember h t) <= 5)%nat.
Proof. intros H. unfold remember. destruct t; [done|]. rewrite length_drop, length_app. cbn [length]. lia. Qed.

Lemma recalled_ok e i : editor_ok e → (i < length (hist e))%nat → editor_ok (recalled e i).
Proof.
  intros [_ _ Hh Hc _] Hi. destruct (lookup_lt_is_Some_2 _ _ Hi) as [l Hl].
  assert (entry l) as (Hlp & _ & Hlen) by (by eapply Forall_lookup_1 in Hh).
  unfold recalled. rewrite Hl. split; unfold line_text; cbn; rewrite ?app_nil_r; auto with lia.
Qed.

Lemma edit_ok k e : editor_ok e → key_fits k e → editor_ok (edit k e).
Proof.
  intros Hok Hk. pose proof Hok as [Ht Hlen Hh Hc Hp].
  assert (Permutation (line_text (edit k e)) (match k with Char c => c :: line_text e | _ => line_text (edit k e) end)) as Hperm.
  { destruct k; try done. unfold line_text. cbn. by rewrite <- app_assoc, Permutation_middle. }
  destruct k as [c| | | | | |]; cbn [edit key_fits] in *.
  - destruct Hk as [Hc' Hl]. split; cbn [hist hpos]; auto.
    + rewrite Hperm. by constructor.
    + rewrite Hperm. cbn. lia.
  - destruct e as [b a h i]. destruct b as [|x b _] using rev_ind; [done|]. cbn. rewrite rev_app_distr. cbn.
    rewrite rev_involutive. unfold line_text in *. cbn [before after] in *. rewrite <- app_assoc in *. by split.
  - destruct e as [b a h i]. destruct a as [|x a]; [done|]. cbn. unfold line_text in *. cbn [before after] in *.
    split; unfold line_text; cbn [before after]; rewrite <- ?app_assoc; done.
  - destruct (hpos e) eqn:E; [done|]. apply recalled_ok; [done|lia].
  - destruct (hist e) eqn:E; [done|]. rewrite <- E in *. apply recalled_ok; [done|].
    destruct (Nat.ltb_spec (S (hpos e)) (length (hist e))); [done|]. rewrite E. cbn. lia.
  - destruct e as [b a h i]. destruct b as [|x b _] using rev_ind; [done|]. cbn. rewrite rev_app_distr. cbn.
    rewrite rev_involutive. unfold line_text in *. cbn [before after] in *. rewrite !length_app in Hlen. rewrite !Forall_app in Ht.
    split; unfold line_text; cbn [before after hist hpos]; rewrite ?length_app, ?Forall_app; try done; try lia. tauto.
  - split; unfold line_text; cbn [before after hist hpos app]; [done|cbn; lia|by apply entry_remember|by apply length_remember|done].
Qed.

Lemma wp_read_char c r sh o p w Q :
  Q (Some c) (mk_system sh r o p w) → wp read_char (mk_system sh (c :: r) o p w) Q.
Proof. intros HQ. unfold read_char. wp_step. wp_step. cbn [rx]. wp_step. by wp_step. Qed.

(** A character in the loop, and the three characters of a cursor key. *)
Lemma wp_read_loop c r sh o p w fuel Q :
  wp (handle_char c) (mk_system sh r o p w) (λ v s, match v with Continue => wp (read_loop fuel) s Q | Break => Q tt s end) →
  wp (read_loop (S fuel)) (mk_system sh (c :: r) o p w) Q.
Proof.
  intros H. cbn [read_loop]. wp_step. apply wp_read_char. wp_step. eapply wp_mono; [exact H|]. intros [] s Hs; [done|by wp_step].
Qed.

Ltac decide_char := cbv beta iota delta [Z.eqb Pos.eqb orb].

Lemma handle_plain c sh r o p w Q :
  stat sh = WAIT_NORMAL → c ≠ 27 → wp (plain_key c) (mk_system sh r o p w) Q → wp (handle_char c) (mk_system sh r o p w) Q.
Proof.
  intros Hs Hc HQ. unfold handle_char. wp_step. apply wp_get_shell. by rewrite (proj2 (Z.eqb_neq c 27)), Hs by done.
Qed.

Lemma loop_cursor_key c m e junk r o p w fuel Q :
  (c = 65 ∧ m = up_key) ∨ (c = 66 ∧ m = down_key) ∨ (c = 68 ∧ m = left_key) ∨ (c = 67 ∧ m = right_key) →
  wp m (mk_system (the_shell e junk) r o p w) (λ v s, match v with Continue => wp (read_loop fuel) s Q | Break => Q tt s end) →
  wp (read_loop (3 + fuel)) (mk_system (the_shell e junk) ([27; 91; c] ++ r) o p w) Q.
Proof.
  intros Hc HQ. cbn [app Nat.add]. apply wp_read_loop. unfold handle_char. wp_step. apply wp_get_shell. decide_char.
  wp_step. apply wp_upd_shell. wp_step. apply wp_read_loop. unfold handle_char. wp_step. apply wp_get_shell. decide_char.
  cbn [stat set_input_stat]. cbv iota. wp_step. apply wp_upd_shell. wp_step. apply wp_read_loop. unfold handle_char. wp_step. apply wp_get_shell.
  destruct Hc as [[-> ->]|[[-> ->]|[[-> ->]|[-> ->]]]]; decide_char; cbn [stat set_input_stat]; cbv iota; wp_step; apply wp_upd_shell; exact HQ.
Qed.

Lemma wp_agrees s e (Q : Prop) :
  agrees s e → (∀ junk r o p w, s = mk_system (the_shell e junk) r o p w → editor_ok e →
    (length (hist e) + length junk = 5)%nat → prompt_buffer p → settled w → on_screen o w e → Q) → Q.
Proof. intros [(junk & Hs & Hj) Hok Hp Ho] HQ. destruct s as [sh r o p w]. cbn in *. subst sh. by eapply HQ. Qed.

Lemma hist_edit k e : k ≠ Enter → hist (edit k e) = hist e.
Proof.
  intros Hk. destruct k; cbn; try done; repeat (case_match; try done).
Qed.

(** What a key does to the rest of the system. *)
Definition effect (k : key) (e : editor) : M W unit :=
  match k with Enter => command (line_text e) | _ => mret tt end.

(** A key in the loop: the end of a line leaves it. *)
Lemma wp_key k bs r e s w' fuel Q :
  key_typed k bs → agrees s e → key_fits k e → rx s = bs ++ r → effect k e (rest s) = Ok (tt, w') →
  (∀ s', agrees s' (edit k e) → rx s' = r → rest s' = w' →
     match k with Enter => Q tt s' | _ => wp (read_loop fuel) s' Q end) →
  wp (read_loop (length bs + fuel)) s Q.
Proof.
  intros Hk Ha Hf Hr Hc HQ. pose proof (edit_ok k e (agrees_ok _ _ Ha) Hf) as Hok'.
  eapply (wp_agrees s e); [done|]. intros junk r0 o p w -> Hok Hj Hp Hw Ho. clear Ha. cbn in Hr. subst r0. cbn [rest] in Hc.
  assert (k ≠ Enter → w' = w) as Hsw by (intros Hne; destruct k; try done; by injection Hc).
  assert (k ≠ Enter → goes_to (λ v s', match v with Continue => wp (read_loop fuel) s' Q | Break => Q tt s' end) r w (edit k e)) as Hkeep.
  { intros Hne o' p' junk' Hj' Hp' Hw' Ho'.
    assert (agrees (mk_system (the_shell (edit k e) junk') r o' p' w) (edit k e)) as Ha' by (split; [exists junk'; by split|done..]).
    specialize (HQ _ Ha' eq_refl). rewrite Hsw in HQ by done. destruct k; try done; by apply HQ. }
  assert (k = Enter → wp enter_key (mk_system (the_shell e junk) r o p w)
    (λ v s', match v with Continue => False | Break => Q tt s' end)) as Hent.
  { intros ->. eapply key_enter; [done|done|done|done|done|exact Hc|]. intros o' p' junk' Hj' Hp' Hw' Ho'.
    apply (HQ (mk_system (the_shell (edit Enter e) junk') r o' p' w')); [|done|done]. split; [exists junk'; by split|done..]. }
  assert (k ≠ Enter → (length (hist (edit k e)) + length junk = 5)%nat) as Hj' by (intros ?; by rewrite hist_edit).
  assert (k ≠ Enter → ∀ o', on_screen o' w (edit k e) →
    match Continue with Continue => wp (read_loop fuel) (mk_system (the_shell (edit k e) junk) r o' p w) Q | Break => True end) as Hsame.
  { intros Hne o' Ho'. exact (Hkeep Hne o' p junk (Hj' Hne) Hp Hw Ho'). }
  inversion Hk as [c Hch| | | | | | | | |]; subst; cbn [length app Nat.add].
  - pose proof Hch as [H1 H2]. apply wp_read_loop, handle_plain; [done|lia|]. unfold plain_key, line_key.
    rewrite !(proj2 (Z.eqb_neq c _)) by lia. cbn [orb]. cbv iota. destruct Hf as [_ Hf].
    apply key_char; [done|done|lia|done|by apply Hsame].
  - apply loop_cursor_key with (m := left_key); [by auto|]. apply key_left; [done|done|by apply Hsame].
  - apply loop_cursor_key with (m := right_key); [by auto|]. apply key_right; [done|done|by apply Hsame].
  - apply loop_cursor_key with (m := up_key); [by auto|]. apply key_up; [done|done|done|done|done|by apply Hkeep].
  - apply loop_cursor_key with (m := down_key); [by auto|]. apply key_down; [done|done|done|done|done|by apply Hkeep].
  - apply wp_read_loop, handle_plain; [done|lia|]. unfold plain_key. decide_char. apply key_backspace; [done|done|by apply Hsame].
  - apply wp_read_loop, handle_plain; [done|lia|]. unfold plain_key. decide_char. apply key_backspace; [done|done|by apply Hsame].
  - apply wp_read_loop, handle_plain; [done|lia|]. unfold plain_key, line_key. decide_char. by eapply wp_mono; [apply Hent|intros []].
  - apply wp_read_loop, handle_plain; [done|lia|]. unfold plain_key. decide_char. wp_step. apply wp_read_char. unfold line_key. decide_char.
    by eapply wp_mono; [apply Hent|intros []].
  - apply wp_read_loop, handle_plain; [done|lia|]. unfold plain_key. decide_char. wp_step. apply wp_read_char. unfold line_key. decide_char.
    by eapply wp_mono; [apply Hent|intros []].
Qed.

(** ** The loop *)

Lemma typed1_nonempty k bs : key_typed k bs → (0 < length bs)%nat.
Proof. destruct 1; cbn; lia. Qed.

Lemma typed_nil_inv bs : keys_typed [] bs → bs = [].
Proof. by inversion 1. Qed.

Lemma commands_cons k ks e w w2 :
  commands (k :: ks) e w = Ok (tt, w2) → ∃ w1, effect k e w = Ok (tt, w1) ∧ commands ks (edit k e) w1 = Ok (tt, w2).
Proof. intros H. cbn [commands] in H. apply bind_ok in H as ([] & w1 & H1 & H2). by exists w1. Qed.

(** What is left of the keys after a round, which ends with a line. *)
Definition goes_on (ks : list key) (e : editor) (w2 : W) (s' : system W) (ks1 ks2 : list key) : Prop :=
  ks = ks1 ++ ks2 ∧ (ks1 = [] → ks2 = []) ∧ keys_typed ks2 (rx s') ∧ agrees s' (edits ks1 e) ∧ fits ks2 (edits ks1 e) ∧
  commands ks2 (edits ks1 e) (rest s') = Ok (tt, w2).

Lemma wp_loop ks w2 : ∀ bs e s fuel,
  keys_typed ks bs → fits ks e → agrees s e → rx s = bs → commands ks e (rest s) = Ok (tt, w2) → (length bs < fuel)%nat →
  wp (read_loop fuel) s (λ _ s', ∃ ks1 ks2, goes_on ks e w2 s' ks1 ks2).
Proof.
  induction ks as [|k ks IH]; intros bs e s fuel Ht Hf Ha Hr Hc Hfuel.
  - apply typed_nil_inv in Ht as ->. destruct fuel; [cbn in Hfuel; lia|]. cbn [read_loop]. wp_step. unfold read_char. wp_step. wp_step.
    rewrite Hr. wp_step. wp_step. exists [], []. split_and!; try done. rewrite Hr. constructor.
  - inversion Ht as [|k' ks' b more Hk Hmore]; subst k' ks'. rename H1 into H. destruct Hf as [Hf1 Hf].
    apply commands_cons in Hc as (w1 & Hc1 & Hc2).
    assert (fuel = length b + (fuel - length b))%nat as -> by (rewrite <- H, length_app in Hfuel; lia).
    rewrite <- H, length_app in Hfuel. pose proof (typed1_nonempty _ _ Hk).
    eapply (wp_key k b more); [done|exact Ha|by destruct k|by rewrite H|exact Hc1|].
    intros s' Ha' Hr' <-. destruct (decide (k = Enter)) as [->|Hne].
    + exists [Enter], ks. split_and!; try done. by rewrite Hr'.
    + assert (wp (read_loop (fuel - length b)) s' (λ _ s'', ∃ ks1 ks2, goes_on (k :: ks) e w2 s'' ks1 ks2)); [|by destruct k].
      eapply wp_mono; [apply (IH more (edit k e)); try done; lia|].
      intros _ s'' (ks1 & ks2 & -> & Hn & Ht2 & Ha2 & Hf2 & Hc3). by exists (k :: ks1), ks2.
Qed.

(** A round for each time the semaphore is taken. *)
Fixpoint rounds (n : nat) : T unit :=
  match n with O => mret tt | S n => shell_round;; rounds n end.

Lemma wp_rounds n w2 : ∀ ks e s,
  keys_typed ks (rx s) → fits ks e → agrees s e → commands ks e (rest s) = Ok (tt, w2) → (length ks <= n)%nat →
  wp (rounds n) s (λ _ s', rx s' = [] ∧ agrees s' (edits ks e) ∧ rest s' = w2).
Proof.
  induction n as [|n IH]; intros ks e s Ht Hf Ha Hc Hn; cbn [rounds].
  - destruct ks; [|cbn in Hn; lia]. wp_step. injection Hc as <-. by apply typed_nil_inv in Ht as ->.
  - wp_step. unfold shell_round. wp_step. wp_step. eapply wp_mono; [eapply wp_loop; try done; lia|].
    intros _ s' (ks1 & ks2 & -> & Hne & Ht2 & Ha2 & Hf2 & Hc2). eapply wp_mono; [apply (IH ks2 (edits ks1 e)); try done|].
    + destruct ks1; [rewrite Hne by done; cbn; lia|]. rewrite length_app in Hn. cbn in Hn. lia.
    + intros _ s'' (Hr & Ha3 & Hc3). unfold edits. by rewrite foldl_app.
Qed.

(** * The editor from the start *)

Definition no_line : editor := mk_editor [] [] [] 0.

Lemma wp_shell_start bs w Q :
  settled w → (∀ s, agrees s no_line → rx s = bs → rest s = w → Q tt s) → wp shell_start (finsh_system_init bs w) Q.
Proof.
  intros Hw HQ. unfold shell_start. wp_step. apply wp_upd_shell. apply wp_print_prompt; [done|by split|]. intros p' Hp'.
  apply HQ; [|done|done]. split; [|split; cbn; [constructor|lia|constructor|lia|lia]|done|done|].
  - exists (replicate 5 (replicate 80 0)). by split.
  - destruct (length_prompt w Hw) as [_ Hpp]. exists [], 0%nat. cbn [app rest tx].
    change (foldl feed (cursor [] []) (prompt w) = cursor (prompt w ++ []) []). by rewrite feed_text, drop_nil, app_nil_r by done.
Qed.

(** C18: The shell implements the editor.  When the characters of any keys have been received, as many rounds as there are keys leave none of
    them: the array, the positions and the history are those of the edited line, and each line that was ended has been
    run as it was typed, in their order, on the rest of the system. *)
Theorem shell_implements_editor ks e s n w'
    (Ht : keys_typed ks (rx s)) (Hf : fits ks e) (Ha : agrees s e) (Hc : commands ks e (rest s) = Ok (tt, w'))
    (Hn : (length ks <= n)%nat) :
  wp (rounds n) s (λ _ s', rx s' = [] ∧ agrees s' (edits ks e) ∧ rest s' = w').
Proof. by apply wp_rounds. Qed.

(** C19: From the start of the shell on, the terminal shows what is edited: behind the prompt there is the line, the cursor stands
    at its place in it, and behind the line there are at most spaces. *)
Theorem shell_shows_line ks bs n w w'
    (Ht : keys_typed ks bs) (Hf : fits ks no_line) (Hw : settled w) (Hc : commands ks no_line w = Ok (tt, w'))
    (Hn : (length ks <= n)%nat) :
  wp (shell_start;; rounds n) (finsh_system_init bs w) (λ _ s',
    let e := edits ks no_line in
    ∃ j k, display (tx s') = cursor (j ++ prompt w' ++ before e) (after e ++ replicate k 32)).
Proof.
  wp_step. apply wp_shell_start; [done|]. intros s Ha Hr Hs.
  eapply wp_mono; [apply (wp_rounds n w' ks no_line); try done; [by rewrite Hr|by rewrite Hs]|].
  intros _ s' (_ & Ha' & <-). exact (agrees_screen _ _ Ha').
Qed.
End Editor.
