(* ===== verification/Msh.v ===== *)
(** The word shell: [components/finsh/msh.c] and the scripts of [components/finsh/msh_file.c].

    A line is an array of bytes in which the words are cut in place; what is beyond its end is
    not there to be read.  The commands are the entries of the symbol table whose names begin
    with [__cmd_]; they act on the console and on the rest of the system ([world]), and so do the calls
    of the file system, which are the class [MshWorld]. *)

From Stdlib Require Import ZArith Lia.
From stdpp Require Import numbers base list.
From S2P Require Import Prelude Shell.
Local Open Scope Z_scope.

Definition RT_FINSH_ARG_MAX : nat := 10.

(** What has been printed, the mode of the shell, and the rest of the system. *)
Record console (X : Type) := mk_console { output : list Z; __msh_state : bool; world : X }.
Arguments mk_console {X}. Arguments output {X}. Arguments __msh_state {X}. Arguments world {X}.

(** A symbol: a command is given its words and returns a number. *)
Record msh_symbol (X : Type) := mk_symbol {
  syscall_name : list Z;
  syscall_desc : list Z;
  syscall_func : list (list Z) → M (console X) Z
}.
Arguments mk_symbol {X}. Arguments syscall_name {X}. Arguments syscall_desc {X}. Arguments syscall_func {X}.

(** What the shell calls: the table of symbols, the heap (the block that [rt_malloc] returns, with
    what it holds), the files, the directories, the interpreter of expressions and its
    completion, the loader of modules. *)
Class MshWorld (X : Type) := {
  _syscall_table : list (msh_symbol X);
  rt_malloc : Z → M X (option (list Z));
  open : list Z → M X Z;
  read_byte : Z → M X (option Z);
  close : Z → M X unit;
  chdir : list Z → M X Z;
  working_directory : X → list Z;
  read_directory : list Z → M X (option (list (list Z)));
  run_expression : bool → list Z → M (console X) unit;
  list_prefix : list Z → M (console X) (list Z);
  rt_module_exec_cmd : list Z → list Z → Z → M (console X) unit
}.

Definition blank (c : Z) : bool := (c =? 32) || (c =? 9).

(** * Words *)

(** The line, and where the words begin that have been found. *)
Record splitter := mk_splitter { cmd : list Z; argv : list nat }.

Definition peek (i : nat) : M splitter Z := s ← get; deref (cmd s !! i).
Definition cut_byte (i : nat) : M splitter unit := peek i;; modify (λ s, mk_splitter (<[i := 0]> (cmd s)) (argv s)).
(** [argv\[argc\] = ptr; argc ++] *)
Definition new_arg (i : nat) : M splitter unit :=
  s ← get;
  if (length (argv s) <? RT_FINSH_ARG_MAX)%nat then modify (λ s, mk_splitter (cmd s) (argv s ++ [i])) else fail F_pointer.

Fixpoint strip_blanks (fuel : nat) (length : Z) (position : nat) : M splitter nat :=
  match fuel with
  | O => fail F_fuel
  | S fuel =>
      c ← peek position;
      if blank c && (Z.of_nat position <? length) then cut_byte position;; strip_blanks fuel length (S position)
      else mret position
  end.

Fixpoint skip_string (fuel : nat) (length : Z) (position : nat) : M splitter nat :=
  match fuel with
  | O => fail F_fuel
  | S fuel =>
      c ← peek position;
      if negb (c =? 34) && (Z.of_nat position <? length) then
        position ← (if c =? 92 then n ← peek (S position); mret (if n =? 34 then S position else position) else mret position);
        skip_string fuel length (S position)
      else mret position
  end.

Fixpoint skip_word (fuel : nat) (length : Z) (position : nat) : M splitter nat :=
  match fuel with
  | O => fail F_fuel
  | S fuel =>
      c ← peek position;
      if negb (blank c) && (Z.of_nat position <? length) then skip_word fuel length (S position) else mret position
  end.

Fixpoint split_loop (fuel : nat) (length : Z) (position : nat) : M splitter unit :=
  match fuel with
  | O => fail F_fuel
  | S fuel =>
      if Z.of_nat position <? length then
        s ← get;
        let n := S (Datatypes.length (cmd s)) in
        position ← strip_blanks n length position;
        if length <=? Z.of_nat position then mret tt
        else
          c ← peek position;
          if c =? 34 then
            new_arg (S position);;
            position ← skip_string n length (S position);
            if length <=? Z.of_nat position then mret tt else cut_byte position;; split_loop fuel length (S position)
          else
            new_arg position;;
            position ← skip_word n length position;
            if length <=? Z.of_nat position then mret tt else split_loop fuel length position
      else mret tt
  end.

Definition msh_split (length : Z) : M splitter Z :=
  s ← get;
  split_loop (S (Datatypes.length (cmd s))) length 0;;
  s ← get;
  mret (Z.of_nat (Datatypes.length (argv s))).

(** * Commands *)

Section Msh.
Context {X : Type} `{!MshWorld X}.
Notation C := (M (console X)).

Definition world_call {A} (m : M X A) : C A := zoom world (λ w s, mk_console (output s) (__msh_state s) w) m.
(** Operations on a line that the caller holds. *)
Definition on_line {A} (l : list Z) (m : M splitter A) : C (A * splitter) :=
  λ s, match m (mk_splitter l []) with Ok (a, l') => Ok ((a, l'), s) | Err e => Err e end.
(** [rt_kprintf] *)
Definition console_printf (text : list Z) : C unit :=
  modify (λ s, mk_console (output s ++ log_text text) (__msh_state s) (world s)).
(** The string in an array that holds its end. *)
Definition string_in (l : list Z) : C (list Z) := if bool_decide (0 ∈ l) then mret (c_string l) else fail F_pointer.

Definition msh_is_used : C bool := gets __msh_state.
Definition set_msh_state (b : bool) : C unit := modify (λ s, mk_console (output s) b (world s)).
Definition msh_exit (args : list (list Z)) : C Z := set_msh_state false;; mret 0.
Definition msh_enter : C Z := set_msh_state true;; mret 0.

(** ["__cmd_"] *)
Definition cmd_prefix : list Z := [95; 95; 99; 109; 100; 95].
(** [strncmp(a, b, n) == 0], for strings without their zeros. *)
Definition strncmp_eq (a b : list Z) (n : nat) : bool := bool_decide (take n a = take n b).
Definition is_command (i : msh_symbol X) : bool := strncmp_eq (syscall_name i) cmd_prefix 6.
Definition command_name (i : msh_symbol X) : list Z := drop 6 (syscall_name i).

(** ["%-16s - %s\n"] *)
Definition help_line (i : msh_symbol X) : list Z :=
  command_name i ++ replicate (16 - length (command_name i)) 32 ++ [32; 45; 32] ++ syscall_desc i ++ [10].

(** ["RT-Thread shell commands:\n"] *)
Definition help_title : list Z :=
  [82; 84; 45; 84; 104; 114; 101; 97; 100; 32; 115; 104; 101; 108; 108; 32; 99; 111; 109; 109; 97; 110; 100; 115; 58; 10].

Fixpoint help_lines (table : list (msh_symbol X)) : C unit :=
  match table with
  | [] => mret tt
  | i :: table => (if is_command i then console_printf (help_line i) else mret tt);; help_lines table
  end.
Definition msh_help (args : list (list Z)) : C Z :=
  console_printf help_title;;
  help_lines _syscall_table;;
  console_printf [10];;
  mret 0.

(** The name is compared with the first [size] bytes of the line, and must end there. *)
Fixpoint get_cmd (table : list (msh_symbol X)) (l : list Z) (size : nat) : C (option (msh_symbol X)) :=
  match table with
  | [] => mret None
  | i :: table =>
      if is_command i then
        if strncmp_eq (command_name i) (c_string l) size then
          e ← deref ((syscall_name i ++ [0]) !! (6 + size)%nat);
          if e =? 0 then mret (Some i) else get_cmd table l size
        else get_cmd table l size
      else get_cmd table l size
  end.
Definition msh_get_cmd (l : list Z) (size : nat) : C (option (msh_symbol X)) := get_cmd _syscall_table l size.

(** The words at the places in [argv]. *)
Fixpoint arguments (l : list Z) (args : list nat) : C (list (list Z)) :=
  match args with
  | [] => mret []
  | a :: args => w ← string_in (drop a l); ws ← arguments l args; mret (w :: ws)
  end.

(** What the command returns; nothing when there is none. *)
Definition _msh_exec_cmd (l : list Z) (length : Z) : C (option Z) :=
  '(cmd0_size, _) ← on_line l (skip_word (S (Datatypes.length l)) length 0);
  if (cmd0_size =? 0)%nat then mret None
  else
    f ← msh_get_cmd l cmd0_size;
    match f with
    | None => mret None
    | Some i =>
        '(argc, s) ← on_line l (msh_split length);
        if argc =? 0 then mret None
        else
          args ← arguments (cmd s) (argv s);
          r ← syscall_func i args;
          mret (Some r)
    end.

(** * Scripts *)

Definition write_line (l : list Z) (i : nat) (c : Z) : C (list Z) :=
  if (i <? length l)%nat then mret (<[i := c]> l) else fail F_pointer.

Definition newline (c : Z) : bool := (c =? 10) || (c =? 13).

(** The first character behind the ends of lines. *)
Fixpoint first_char (fuel : nat) (fd : Z) : C (option Z) :=
  match fuel with
  | O => fail F_fuel
  | S fuel =>
      c ← world_call (read_byte fd);
      match c with
      | None => mret None
      | Some ch => if newline ch then first_char fuel fd else mret (Some ch)
      end
  end.

Fixpoint read_rest (fuel : nat) (fd : Z) (line_buf : list Z) (size index : nat) : C (Z * list Z) :=
  match fuel with
  | O => fail F_fuel
  | S fuel =>
      if (index <? size)%nat then
        c ← world_call (read_byte fd);
        match c with
        | Some ch =>
            if newline ch then l ← write_line line_buf index 0; mret (Z.of_nat index, l)
            else l ← write_line line_buf index ch; read_rest fuel fd l size (S index)
        | None => l ← write_line line_buf index 0; mret (Z.of_nat index, l)
        end
      else mret (Z.of_nat index, line_buf)
  end.

Definition msh_readline (fuel : nat) (fd : Z) (line_buf : list Z) (size : nat) : C (Z * list Z) :=
  c ← first_char fuel fd;
  match c with
  | None => mret (0, line_buf)
  | Some ch => l ← write_line line_buf 0 ch; read_rest (S size) fd l size 1
  end.

(** The first character of a line that is no blank, or its last. *)
Fixpoint line_mark (l : list Z) (ch : Z) : Z :=
  match l with [] => ch | c :: l => if blank c then line_mark l c else c end.

(** The lines of a script that are no comments are executed.  What a command leaves in [line_buf]
    is overwritten by the next line up to its end. *)
Fixpoint script_loop (exec : list Z → Z → C Z) (fuel : nat) (fd : Z) (line_buf : list Z) : C unit :=
  match fuel with
  | O => fail F_fuel
  | S fuel =>
      '(n, l) ← msh_readline (S fuel) fd line_buf (Z.to_nat RT_CONSOLEBUF_SIZE);
      if 0 <? n then
        (if line_mark (take (Z.to_nat n) l) 0 =? 35 then mret tt else exec l n;; mret tt);;
        script_loop exec fuel fd l
      else mret tt
  end.

(** [strstr(s, p) != RT_NULL] *)
Fixpoint contains (p s : list Z) : bool :=
  bool_decide (take (length p) s = p) || match s with [] => false | _ :: s => contains p s end.

Definition RT_ENOMEM : Z := 5.
Definition bin_path : list Z := [47; 98; 105; 110; 47].

(** The name of a program, and in [/bin], is opened; the name that was opened last comes back with the descriptor. *)
Definition open_program (pg_name : list Z) : C (list Z * Z) :=
  fd ← world_call (open pg_name);
  if fd <? 0 then fd ← world_call (open (bin_path ++ pg_name)); mret (bin_path ++ pg_name, fd) else mret (pg_name, fd).

Definition msh_exec_module (cmd_line : list Z) (size : Z) : C Z :=
  if size =? 0 then mret (-1)
  else
    '(cmd_length, _) ← on_line cmd_line (skip_word (S (length cmd_line)) size 0);
    pg ← world_call (rt_malloc (Z.of_nat cmd_length + 32));
    match pg with
    | None => mret (- RT_ENOMEM)
    | Some _ =>
        let pg_name := c_string (take cmd_length cmd_line) in
        '(name, fd) ← open_program
          (if contains [46; 109; 111] pg_name || contains [46; 77; 79] pg_name then pg_name else pg_name ++ [46; 109; 111]);
        if 0 <=? fd then world_call (close fd);; rt_module_exec_cmd name cmd_line size;; mret 0
        else mret (-1)
    end.

Definition msh_exec_script (exec : list Z → Z → C Z) (fuel : nat) (cmd_line : list Z) (size : Z) : C Z :=
  if size =? 0 then mret (-1)
  else
    '(cmd_length, _) ← on_line cmd_line (skip_word (S (length cmd_line)) size 0);
    pg ← world_call (rt_malloc (Z.of_nat cmd_length + 32));
    match pg with
    | None => mret (- RT_ENOMEM)
    | Some _ =>
        let pg_name := c_string (take cmd_length cmd_line) in
        fd ← (if contains [46; 115; 104] pg_name || contains [46; 83; 72] pg_name then
                '(_, fd) ← open_program pg_name; mret fd
              else mret (-1));
        if 0 <=? fd then
          b ← world_call (rt_malloc RT_CONSOLEBUF_SIZE);
          line_buf ← deref b;
          script_loop exec fuel fd line_buf;;
          world_call (close fd);;
          mret 0
        else mret (-1)
    end.

(** The line without the blanks at its beginning, and its length. *)
Fixpoint strim (l : list Z) (length : Z) : C (list Z * Z) :=
  match l with
  | [] => fail F_pointer
  | c :: r => if blank c then strim r (u32 (length - 1)) else mret (l, length)
  end.

(** [": command not found.\n"] *)
Definition not_found : list Z :=
  [58; 32; 99; 111; 109; 109; 97; 110; 100; 32; 110; 111; 116; 32; 102; 111; 117; 110; 100; 46; 10].

(** The string up to its first space. *)
Fixpoint until_space (l : list Z) : list Z :=
  match l with [] => [] | c :: l => if c =? 32 then [] else c :: until_space l end.

(** Scripts execute lines, which may be scripts. *)
Fixpoint msh_exec (fuel : nat) (l : list Z) (length : Z) : C Z :=
  match fuel with
  | O => fail F_fuel
  | S fuel =>
      '(cmd, length) ← strim l length;
      if length =? 0 then mret 0
      else
        r ← _msh_exec_cmd cmd length;
        match r with
        | Some cmd_ret => mret cmd_ret
        | None =>
            m ← msh_exec_module cmd length;
            if m =? 0 then mret 0
            else
            s ← msh_exec_script (msh_exec fuel) fuel cmd length;
            if s =? 0 then mret 0
            else
              path ← string_in cmd;
              d ← world_call (chdir path);
              if d =? 0 then mret 0
              else console_printf (until_space path ++ not_found);; mret (-1)
        end
  end.

(** * Completion *)

Fixpoint str_common (str1 str2 : list Z) : nat :=
  match str1, str2 with x :: l1, y :: l2 => if x =? y then S (str_common l1 l2) else O | _, _ => O end.

(** [strncmp(prefix, name, strlen(prefix)) == 0] *)
Definition completes (prefix name : list Z) : bool := strncmp_eq prefix name (length prefix).

(** A string is copied into the line. *)
Definition put_string (l : list Z) (at_ : nat) (s : list Z) : C (list Z) :=
  if (at_ + length s <=? length l)%nat then mret (take at_ l ++ s ++ drop (at_ + length s) l) else fail F_pointer.

Fixpoint print_names (names : list (list Z)) : C unit :=
  match names with [] => mret tt | n :: names => console_printf (n ++ [10]);; print_names names end.

(** The first name that completes a prefix, and how much of it they all have. *)
Fixpoint match_names (prefix : list Z) (names : list (list Z)) (found : list Z) (min_length : nat) : list Z * nat :=
  match names with
  | [] => (found, min_length)
  | n :: names =>
      if completes prefix n then
        let '(found, min_length) := if (min_length =? 0)%nat then (n, length n) else (found, min_length) in
        let length := str_common n found in
        match_names prefix names found (if (length <? min_length)%nat then length else min_length)
      else match_names prefix names found min_length
  end.

(** The beginning of the last name of a path. *)
Fixpoint last_name (path : list Z) (i index : nat) : nat :=
  match path with [] => index | c :: path => last_name path (S i) (if c =? 47 then S i else index) end.

(** The directory in which a path is completed: [full_path] has 256 bytes. *)
Definition parent_path (w : X) (path : list Z) : option (list Z) :=
  let base :=
    if bool_decide (head path = Some 47) then []
    else let d := working_directory w in if bool_decide (last d = Some 47) then d else d ++ [47] in
  let full := base ++ take (last_name path 0 0) path in
  if (length full <? 256)%nat then Some full else None.

(** The path at [start] of the line. *)
Definition msh_auto_complete_path (l : list Z) (start : nat) : C (list Z) :=
  path ← string_in (drop start l);
  b ← world_call (rt_malloc 256);
  match b with
  | None => mret l
  | Some _ =>
      w ← gets world;
      full_path ← deref (parent_path w path);
      dir ← world_call (read_directory full_path);
      match dir with
      | None => mret l
      | Some names =>
          let n := last_name path 0 0 in
          let index := drop n path in
          match index with
          | [] => print_names names;; mret l
          | _ =>
              let '(found, min_length) := match_names index names full_path 0 in
              if (min_length =? 0)%nat then mret l
              else
                (if (min_length <? length found)%nat then print_names (filter (λ x, completes index x = true) names) else mret tt);;
                l ← put_string l (start + n) (take min_length found);
                put_string l (start + n + min_length) [0]
          end
      end
  end.

(** The last space of the line, which is not its first character. *)
Fixpoint last_space (l : list Z) (i : nat) (found : option nat) : option nat :=
  match l with
  | [] => found
  | c :: l => last_space l (S i) (if (c =? 32) && negb (i =? 0)%nat then Some i else found)
  end.

Definition command_names : list (list Z) := command_name <$> filter (λ i, is_command i = true) _syscall_table.

(** The commands that complete the line are printed, and what they have in common is copied. *)
Definition complete_command (l : list Z) : C (list Z) :=
  prefix ← string_in l;
  let '(name_ptr, min_length) := match_names prefix command_names [] 0 in
  print_names (filter (λ x, completes prefix x = true) command_names);;
  if bool_decide (filter (λ x, completes prefix x = true) command_names = []) then mret l
  else put_string l 0 (take min_length name_ptr).

(** Where the path begins that is completed: behind the last space. *)
Definition path_start (prefix : list Z) : nat := match last_space prefix 0 None with Some i => S i | None => 0%nat end.

Definition msh_auto_complete (l : list Z) : C (list Z) :=
  prefix ← string_in l;
  match prefix with
  | [] => msh_help [];; mret l
  | _ => l ← msh_auto_complete_path l (path_start prefix); complete_command l
  end.

(** What is printed while an operation runs. *)
Definition with_output {A} (m : C A) : C (list Z * A) :=
  modify (λ s, mk_console [] (__msh_state s) (world s));;
  a ← m;
  o ← gets output;
  modify (λ s, mk_console [] (__msh_state s) (world s));;
  mret (o, a).

(** [system] runs a copy of a command. *)
Definition system_command (fuel : nat) (command : list Z) : C Z :=
  b ← world_call (rt_malloc (Z.of_nat (length command) + 1));
  match b with
  | Some _ => msh_exec fuel (command ++ [0]) (Z.of_nat (length command))
  | None => mret (- RT_ENOMEM)
  end.

(** How deep scripts may call scripts, and how many lines they have. *)
Definition SCRIPT_FUEL : nat := S (Z.to_nat 4095).

(** The word shell is what the line editor runs. *)
#[export] Instance msh_commands : Commands (console X) := {
  Shell.msh_is_used := __msh_state;
  Shell.cwd := λ s, working_directory (world s);
  Shell.msh_exec := λ l n, '(o, _) ← with_output (msh_exec SCRIPT_FUEL l n); mret o;
  Shell.finsh_run_line := λ e l, '(o, _) ← with_output (run_expression e l); mret o;
  Shell.auto_complete := λ l, m ← gets __msh_state;
    with_output (if (m : bool) then msh_auto_complete l else list_prefix l)
}.
End Msh.
