(* ===== verification/MshSpec.v ===== *)
(** The word shell cuts a line into its words, runs the command of the first word with them, and
    completes the name of a command as far as it is determined. *)

From Stdlib Require Import ZArith Lia.
From stdpp Require Import numbers base sets list.
From S2P Require Import Prelude Shell Msh.
Local Open Scope Z_scope.

(** * Words *)

(** What is between quotes: a quote behind a backslash belongs to it.  Nothing is behind a string that does not end. *)
Fixpoint quoted (l : list Z) : list Z * option (list Z) :=
  match l with
  | [] => ([], None)
  | c :: l =>
      if c =? 34 then ([], Some l)
      else
        match l with
        | d :: l' =>
            if (c =? 92) && (d =? 34) then let '(t, r) := quoted l' in (c :: d :: t, r)
            else let '(t, r) := quoted l in (c :: t, r)
        | [] => ([c], None)
        end
  end.

Fixpoint plain_word (l : list Z) : list Z * list Z :=
  match l with
  | [] => ([], [])
  | c :: r => if blank c then ([], l) else let '(t, r) := plain_word r in (c :: t, r)
  end.

Fixpoint without_blanks (l : list Z) : list Z :=
  match l with [] => [] | c :: r => if blank c then without_blanks r else l end.

Fixpoint words_from (fuel : nat) (l : list Z) : list (list Z) :=
  match fuel with
  | O => []
  | S fuel =>
      match without_blanks l with
      | [] => []
      | c :: r =>
          if c =? 34 then
            let '(t, rest) := quoted r in t :: match rest with Some rest => words_from fuel rest | None => [] end
          else let '(t, rest) := plain_word (c :: r) in t :: words_from fuel rest
      end
  end.
Definition words (l : list Z) : list (list Z) := words_from (length l) l.

Lemma without_blanks_length l : (length (without_blanks l) <= length l)%nat.
Proof. induction l as [|c l IH]; cbn; [done|]. destruct (blank c); cbn; lia. Qed.

Lemma quoted_text l t r : quoted l = (t, r) → l = t ++ match r with Some r => 34 :: r | None => [] end.
Proof.
  remember (length l) as n eqn:Hn. assert (length l <= n)%nat as Hle by lia. clear Hn. revert l t r Hle.
  induction n as [|n IH]; intros l t r Hle; (destruct l as [|c l]; [by intros [= <- <-]|cbn in Hle; try lia]).
  cbn [quoted]. destruct (Z.eqb_spec c 34) as [->|Hc]; [by intros [= <- <-]|].
  destruct l as [|d l]; [by intros [= <- <-]|]. cbn in Hle. destruct ((c =? 92) && (d =? 34)).
  - destruct (quoted l) as [t' r'] eqn:E. intros [= <- <-]. cbn. do 2 f_equal. apply IH; [lia|done].
  - destruct (quoted (d :: l)) as [t' r'] eqn:E. intros [= <- <-]. cbn [app]. f_equal. apply IH; [cbn; lia|done].
Qed.

Lemma plain_text l t r : plain_word l = (t, r) → l = t ++ r ∧ (r = [] ∨ ∃ c r', r = c :: r' ∧ blank c = true).
Proof.
  revert t r. induction l as [|c l IH]; intros t r; cbn [plain_word].
  - intros [= <- <-]. by auto.
  - destruct (blank c) eqn:Hc; [intros [= <- <-]; eauto 10|]. destruct (plain_word l) as [t' r'] eqn:E. intros [= <- <-].
    destruct (IH _ _ eq_refl) as [-> H]. by split.
Qed.

Lemma Forall_without_blanks (P : Z → Prop) l : Forall P l → Forall P (without_blanks l).
Proof. induction 1 as [|c l Hc Hl IH]; cbn; [done|]. destruct (blank c); [done|by constructor]. Qed.

Lemma without_blanks_head l c r : without_blanks l = c :: r → blank c = false.
Proof. induction l as [|x l IH]; cbn; [done|]. destruct (blank x) eqn:Hx; [done|]. by intros [= <- <-]. Qed.

(** A step of the division into words, whatever divides the rest. *)
Definition words_step (rec : list Z → list (list Z)) (l : list Z) : list (list Z) :=
  match without_blanks l with
  | [] => []
  | c :: r =>
      if c =? 34 then let '(t, rest) := quoted r in t :: match rest with Some rest => rec rest | None => [] end
      else let '(t, rest) := plain_word r in (c :: t) :: rec rest
  end.

Lemma words_from_step f l : words_from (S f) l = words_step (words_from f) l.
Proof.
  unfold words_step. cbn [words_from]. destruct (without_blanks l) as [|c r] eqn:E; [done|].
  apply without_blanks_head in E. destruct (c =? 34); [done|]. cbn [plain_word]. rewrite E. by destruct (plain_word r).
Qed.

Lemma words_step_ext f g l : (∀ r, (length r < length l)%nat → f r = g r) → words_step f l = words_step g l.
Proof.
  intros H. unfold words_step. pose proof (without_blanks_length l) as Hw. destruct (without_blanks l) as [|c r]; [done|].
  cbn [length] in Hw. destruct (c =? 34).
  - destruct (quoted r) as [t rest] eqn:E. apply quoted_text, (f_equal length) in E. rewrite length_app in E.
    destruct rest as [rest|]; [|done]. cbn [length] in E. f_equal. apply H. lia.
  - destruct (plain_word r) as [t rest] eqn:E. apply plain_text in E as [E _]. apply (f_equal length) in E. rewrite length_app in E.
    f_equal. apply H. lia.
Qed.

Lemma words_from_fuel f : ∀ g l, (length l <= f)%nat → (length l <= g)%nat → words_from f l = words_from g l.
Proof.
  induction f as [|f IH]; intros g l Hf Hg.
  - destruct l; [|cbn in Hf; lia]. by destruct g.
  - destruct g as [|g]; [destruct l; [done|cbn in Hg; lia]|]. rewrite !words_from_step.
    apply words_step_ext. intros r Hr. apply IH; lia.
Qed.

Lemma words_eq l : words l = words_step words l.
Proof.
  unfold words at 1. rewrite (words_from_fuel _ (S (length l))) by lia. rewrite words_from_step. apply words_step_ext.
  intros r Hr. apply words_from_fuel; lia.
Qed.

(** The characters of the words are those of the line. *)
Lemma Forall_words_from (P : Z → Prop) f : ∀ l, Forall P l → Forall (Forall P) (words_from f l).
Proof.
  induction f as [|f IH]; intros l Hl; [constructor|]. rewrite words_from_step. unfold words_step.
  apply Forall_without_blanks in Hl. destruct (without_blanks l) as [|c r]; [constructor|]. apply Forall_cons in Hl as [Hc Hr].
  destruct (c =? 34).
  - destruct (quoted r) as [t rest] eqn:E. apply quoted_text in E. rewrite E in Hr. apply Forall_app in Hr as [Ht Hrest].
    constructor; [done|]. destruct rest; [|done]. apply Forall_cons in Hrest as [_ Hrest]. by apply IH.
  - destruct (plain_word r) as [t rest] eqn:E. apply plain_text in E as [-> _]. apply Forall_app in Hr as [Ht Hrest].
    constructor; [by constructor|by apply IH].
Qed.

Lemma Forall_words (P : Z → Prop) l : Forall P l → Forall (Forall P) (words l).
Proof. apply Forall_words_from. Qed.

(** * Cutting a line *)

(** A run that ends well or with a fault. *)
Definition wpf {S A} (m : M S A) (s : S) (Q : A → S → Prop) (F : fault → Prop) : Prop :=
  match m s with Ok (a, s') => Q a s' | Err e => F e end.

Lemma wpf_bind {S A B} (m : M S A) (f : A → M S B) s Q F :
  wp m s (λ a s', wpf (f a) s' Q F) → wpf (m ≫= f) s Q F.
Proof. unfold wp, wpf, mbind, M_bind. by destruct (m s) as [[a s']|]. Qed.

Lemma wp_peek a c b z i av Q :
  i = length a → Q c (mk_splitter (a ++ c :: b ++ z) av) → wp (peek i) (mk_splitter (a ++ c :: b ++ z) av) Q.
Proof.
  intros -> HQ. unfold peek. wp_step. wp_step. cbn [cmd]. rewrite lookup_app_r, Nat.sub_diag by lia. by wp_step.
Qed.

Lemma wp_cut a c b i av Q :
  i = length a → Q tt (mk_splitter (a ++ 0 :: b) av) → wp (cut_byte i) (mk_splitter (a ++ c :: b) av) Q.
Proof.
  intros -> HQ. unfold cut_byte. wp_step. apply (wp_peek a c [] b); [done|]. wp_step. cbn [cmd argv app].
  by rewrite insert_app_r_alt, Nat.sub_diag by lia.
Qed.

(** The byte at a place, which is the end behind the text. *)
Definition text_byte (l : list Z) : Z := default 0 (head l).

Lemma wp_peek_text pre l z i av Q :
  i = length pre → Q (text_byte l) (mk_splitter (pre ++ l ++ 0 :: z) av) → wp (peek i) (mk_splitter (pre ++ l ++ 0 :: z) av) Q.
Proof. intros Hi HQ. destruct l as [|c l]; [by apply (wp_peek pre 0 [] z)|by apply (wp_peek pre c l (0 :: z))]. Qed.

Lemma wp_strip_blanks fuel : ∀ l pre z av n Q,
  n = Z.of_nat (length pre + length l) → (length l < fuel)%nat →
  (∀ k b, l = b ++ without_blanks l → length b = k → (∀ c r, l = c :: r → blank c = true → (0 < k)%nat) →
     Q (length pre + k)%nat (mk_splitter (pre ++ replicate k 0 ++ without_blanks l ++ 0 :: z) av)) →
  wp (strip_blanks fuel n (length pre)) (mk_splitter (pre ++ l ++ 0 :: z) av) Q.
Proof.
  induction fuel as [|fuel IH]; intros l pre z av n Q Hn Hf HQ; [lia|]. cbn [strip_blanks].
  wp_step. apply wp_peek_text; [done|]. destruct l as [|c l].
  - change (blank (text_byte [])) with false. cbn [andb]. cbv iota. wp_step.
    rewrite <- (Nat.add_0_r (length pre)). by apply (HQ 0%nat []).
  - cbn [length] in *. change (text_byte (c :: l)) with c. cbn [without_blanks] in HQ. destruct (blank c) eqn:Hc.
    + rewrite (proj2 (Z.ltb_lt _ _)) by lia. cbn [andb]. cbv iota. wp_step. apply wp_cut; [done|].
      replace (S (length pre)) with (length (pre ++ [0])) by (rewrite length_app; cbn; lia).
      match goal with |- wp _ (mk_splitter ?x _) _ => replace x with ((pre ++ [0]) ++ l ++ 0 :: z) by (by rewrite <- app_assoc) end.
      apply (IH l (pre ++ [0])); [rewrite length_app; cbn; lia|lia|]. intros k b Hb Hk Hk0.
      rewrite length_app, <- app_assoc. cbn [length]. replace (length pre + 1 + k)%nat with (length pre + S k)%nat by lia.
      apply (HQ (S k) (c :: b)); [cbn; by f_equal|cbn; lia|lia].
    + cbn [andb]. cbv iota. wp_step. rewrite <- (Nat.add_0_r (length pre)). apply (HQ 0%nat []); [done|done|].
      intros ? ? [= <- <-]. congruence.
Qed.

Lemma wp_skip_string fuel : ∀ l pre z av n Q t r,
  n = Z.of_nat (length pre + length l) → (length l < fuel)%nat → quoted l = (t, r) →
  Q (length pre + length t)%nat (mk_splitter (pre ++ l ++ 0 :: z) av) →
  wp (skip_string fuel n (length pre)) (mk_splitter (pre ++ l ++ 0 :: z) av) Q.
Proof.
  induction fuel as [|fuel IH]; intros l pre z av n Q t r Hn Hf Hq HQ; [lia|]. cbn [skip_string].
  wp_step. apply wp_peek_text; [done|]. destruct l as [|c l].
  - injection Hq as <- <-. change (text_byte []) with 0. rewrite (proj2 (Z.ltb_ge _ _)) by (cbn in Hn; lia).
    cbn [Z.eqb negb andb]. cbv iota. wp_step. by rewrite Nat.add_0_r in HQ.
  - cbn [length] in *. change (text_byte (c :: l)) with c. rewrite (proj2 (Z.ltb_lt _ _)) by lia. cbn [quoted] in Hq.
    destruct (Z.eqb_spec c 34) as [->|Hc].
    { injection Hq as <- <-. cbn [negb andb]. cbv iota. wp_step. by rewrite Nat.add_0_r in HQ. }
    cbn [negb andb]. cbv iota. wp_step.
    assert (pre ++ (c :: l) ++ 0 :: z = (pre ++ [c]) ++ l ++ 0 :: z) as E1 by (by rewrite <- app_assoc).
    assert (S (length pre) = length (pre ++ [c])) as E2 by (rewrite length_app; cbn; lia).
    assert (∀ t1 r1, quoted l = (t1, r1) → t = c :: t1 →
      wp (skip_string fuel n (S (length pre))) (mk_splitter (pre ++ (c :: l) ++ 0 :: z) av) Q) as Hone.
    { intros t1 r1 Hq1 ->. rewrite E1, E2. eapply IH; [rewrite length_app; cbn; lia|lia|exact Hq1|].
      rewrite <- E1, length_app. cbn [length] in *. by replace (length pre + 1 + length t1)%nat with (length pre + S (length t1))%nat by lia. }
    destruct (Z.eqb_spec c 92) as [->|Hc92]; cbv iota.
    + wp_step. rewrite E1, E2. apply wp_peek_text; [done|]. wp_step. rewrite <- E1, <- E2.
      destruct l as [|d l].
      * injection Hq as <- <-. change (text_byte [] =? 34) with false. cbv iota. by eapply Hone.
      * change (text_byte (d :: l)) with d. cbn [andb] in Hq. destruct (Z.eqb_spec d 34) as [->|Hd]; cbv iota.
        -- destruct (quoted l) as [t1 r1] eqn:Hq1. injection Hq as <- <-. cbn [length] in *.
           replace (pre ++ (92 :: 34 :: l) ++ 0 :: z) with ((pre ++ [92; 34]) ++ l ++ 0 :: z) by (by rewrite <- app_assoc).
           replace (S (S (length pre))) with (length (pre ++ [92; 34])) by (rewrite length_app; cbn; lia).
           eapply IH; [rewrite length_app; cbn; lia|lia|exact Hq1|]. rewrite length_app, <- app_assoc. cbn [length app].
           replace (length pre + 2 + length t1)%nat with (length pre + S (S (length t1)))%nat by lia. exact HQ.
        -- destruct (quoted (d :: l)) as [t1 r1] eqn:Hq1. injection Hq as <- <-. by eapply Hone.
    + wp_step. destruct l as [|d l]; [injection Hq as <- <-; by eapply Hone|]. cbn [andb] in Hq.
      destruct (quoted (d :: l)) as [t1 r1] eqn:Hq1. injection Hq as <- <-. by eapply Hone.
Qed.

Lemma wp_skip_word fuel : ∀ l pre z av n Q t r,
  n = Z.of_nat (length pre + length l) → (length l < fuel)%nat → plain_word l = (t, r) →
  Q (length pre + length t)%nat (mk_splitter (pre ++ l ++ 0 :: z) av) →
  wp (skip_word fuel n (length pre)) (mk_splitter (pre ++ l ++ 0 :: z) av) Q.
Proof.
  induction fuel as [|fuel IH]; intros l pre z av n Q t r Hn Hf Hq HQ; [lia|]. cbn [skip_word].
  wp_step. apply wp_peek_text; [done|]. destruct l as [|c l].
  - injection Hq as <- <-. rewrite (proj2 (Z.ltb_ge _ _)), andb_false_r by (cbn in Hn; lia).
    wp_step. by rewrite Nat.add_0_r in HQ.
  - cbn [length plain_word] in *. change (text_byte (c :: l)) with c. rewrite (proj2 (Z.ltb_lt _ _)) by lia. destruct (blank c).
    { injection Hq as <- <-. cbn [negb andb]. cbv iota. wp_step. by rewrite Nat.add_0_r in HQ. }
    cbn [negb andb]. cbv iota. destruct (plain_word l) as [t1 r1] eqn:Hq1. injection Hq as <- <-. cbn [length] in HQ.
    replace (pre ++ (c :: l) ++ 0 :: z) with ((pre ++ [c]) ++ l ++ 0 :: z) in * by (by rewrite <- app_assoc).
    replace (S (length pre)) with (length (pre ++ [c])) by (rewrite length_app; cbn; lia).
    eapply IH; [rewrite length_app; cbn; lia|lia|exact Hq1|]. rewrite length_app. cbn [length].
    by replace (length pre + 1 + length t1)%nat with (length pre + S (length t1))%nat by lia.
Qed.

(** The words are the strings at their places. *)
Definition words_at (l : list Z) (offs : list nat) (ws : list (list Z)) : Prop :=
  Forall2 (λ o w, c_string (drop o l) = w ∧ 0 ∈ drop o l) offs ws.

Lemma placed_shift a l offs ws : words_at l offs ws → words_at (a ++ l) (Nat.add (length a) <$> offs) ws.
Proof.
  intros H. unfold words_at. apply Forall2_fmap_l. eapply Forall2_impl; [exact H|]. intros o w Hw. cbn.
  by rewrite <- drop_drop, drop_app_length.
Qed.

Lemma placed_here t z : Forall (λ c, c ≠ 0) t → c_string (drop 0 (t ++ 0 :: z)) = t ∧ 0 ∈ drop 0 (t ++ 0 :: z).
Proof. intros Ht. rewrite drop_0, c_string_app by done. split; [done|]. apply elem_of_app. right. by left. Qed.

Definition split_result (l : list Z) (z : list Z) (l' : list Z) (offs : list nat) : Prop :=
  length l' = length l ∧ (∀ c r, l = c :: r → blank c = true → ∃ r', l' = 0 :: r') ∧ words_at (l' ++ 0 :: z) offs (words l).

Lemma split_result_blank l z b k :
  l = b → length b = k → without_blanks l = [] → (∀ c r, l = c :: r → blank c = true → (0 < k)%nat) →
  split_result l z (replicate k 0) [].
Proof.
  intros <- <- Hw Hk. split_and!.
  - apply length_replicate.
  - intros c r -> Hc. specialize (Hk c r eq_refl Hc). cbn. eauto.
  - rewrite words_eq. unfold words_step. rewrite Hw. constructor.
Qed.

(** A word behind [k] blanks and a quote, if it has one ([q]), in front of [l1], which begins with an
    end unless nothing is left. *)
Lemma split_result_word k q t l1 offs1 ws l z :
  (∀ c r, l = c :: r → blank c = true → (0 < k)%nat) → Forall (λ c, c ≠ 0) t →
  length l = (k + length q + length t + length l1)%nat → words l = t :: ws →
  (l1 = [] ∨ ∃ r, l1 = 0 :: r) → words_at (l1 ++ 0 :: z) offs1 ws →
  split_result l z (replicate k 0 ++ q ++ t ++ l1) ((k + length q)%nat :: (Nat.add (k + length q + length t) <$> offs1)).
Proof.
  intros Hk Ht Hlen Hw Hl1 Hp. split_and!.
  - rewrite !length_app, length_replicate. lia.
  - intros c r -> Hc. destruct k; [specialize (Hk _ _ eq_refl Hc); lia|]. cbn. eauto.
  - rewrite Hw. assert (length (replicate k 0 ++ q) = (k + length q)%nat) as Hkq by (by rewrite length_app, length_replicate).
    assert (∃ y, l1 ++ 0 :: z = 0 :: y) as [y Hy] by (destruct Hl1 as [->|[r ->]]; cbn; eauto).
    constructor.
    + rewrite <- !app_assoc, app_assoc, <- Hkq, drop_app_length, Hy, <- (drop_0 (t ++ 0 :: y)). by apply placed_here.
    + replace (k + length q + length t)%nat with (length (replicate k 0 ++ q ++ t)) by (rewrite !length_app in *; lia).
      replace ((replicate k 0 ++ q ++ t ++ l1) ++ 0 :: z) with ((replicate k 0 ++ q ++ t) ++ l1 ++ 0 :: z) by (by rewrite <- !app_assoc).
      by apply placed_shift.
Qed.

Lemma wpf_new_arg {B} i l av (f : M splitter B) Q F :
  ((length av < 10)%nat → wpf f (mk_splitter l (av ++ [i])) Q F) → (length av = 10%nat → F F_pointer) → (length av <= 10)%nat →
  wpf (new_arg i;; f) (mk_splitter l av) Q F.
Proof.
  intros H1 H2 Hle. destruct (decide (length av < 10)%nat) as [Hlt|Hge].
  - apply wpf_bind. unfold new_arg. wp_step. wp_step. cbn [argv]. rewrite (proj2 (Nat.ltb_lt _ RT_FINSH_ARG_MAX)) by done.
    wp_step. by apply H1.
  - unfold wpf, mbind, M_bind, new_arg, mbind, M_bind, get. cbn [argv].
    rewrite (proj2 (Nat.ltb_ge _ RT_FINSH_ARG_MAX)) by (unfold RT_FINSH_ARG_MAX; lia). cbn. apply H2. lia.
Qed.

(** What the loop does at the beginning of a text. *)
Definition splits (fuel : nat) (l : list Z) : Prop := ∀ pre z av n Q F,
  Forall (λ c, c ≠ 0) l → n = Z.of_nat (length pre + length l) → (length l < fuel)%nat → (length av <= 10)%nat →
  ((10 < length av + length (words l))%nat → F F_pointer) →
  ((length av + length (words l) <= 10)%nat → ∀ l' offs, split_result l z l' offs →
     Q tt (mk_splitter (pre ++ l' ++ 0 :: z) (av ++ (Nat.add (length pre) <$> offs)))) →
  wpf (split_loop fuel n (length pre)) (mk_splitter (pre ++ l ++ 0 :: z) av) Q F.

Lemma splits_nil fuel : splits (S fuel) [].
Proof.
  intros pre z av n Q F Hz Hn Hf Hav HF HQ. cbn [split_loop]. rewrite (proj2 (Z.ltb_ge _ n)) by (cbn in Hn; lia). unfold wpf. cbn.
  specialize (HQ ltac:(cbn; lia) [] []). cbn in HQ. rewrite app_nil_r in HQ. apply HQ. split_and!; [done|by intros|constructor].
Qed.

(** Behind the blanks, at a string. *)
Lemma splits_string fuel l k r pre z av n m Q F :
  (∀ r, (length r < length l)%nat → splits fuel r) → (length l <= fuel)%nat → (length l < m)%nat →
  words l = (let '(t, rest) := quoted r in t :: match rest with Some rest => words rest | None => [] end) →
  (∀ c r, l = c :: r → blank c = true → (0 < k)%nat) → Forall (λ c, c ≠ 0) r → length l = (k + S (length r))%nat →
  n = Z.of_nat (length pre + k + S (length r)) → (length av <= 10)%nat →
  ((10 < length av + length (words l))%nat → F F_pointer) →
  ((length av + length (words l) <= 10)%nat → ∀ l' offs, split_result l z l' offs →
     Q tt (mk_splitter (pre ++ l' ++ 0 :: z) (av ++ (Nat.add (length pre) <$> offs)))) →
  wpf (new_arg (S (length pre + k));;
       position ← skip_string m n (S (length pre + k));
       if n <=? Z.of_nat position then mret tt else cut_byte position;; split_loop fuel n (S position))
    (mk_splitter (pre ++ replicate k 0 ++ 34 :: r ++ 0 :: z) av) Q F.
Proof.
  intros IH Hfuel Hm Hwords Hk0 Hrz Hlen Hn Hav HF HQ. destruct (quoted r) as [t rest] eqn:Hq.
  pose proof (quoted_text _ _ _ Hq) as Hr.
  apply wpf_new_arg; [intros Hlt|intros H10; apply HF; rewrite Hwords, H10; cbn; lia|done]. apply wpf_bind.
  set (pre1 := pre ++ replicate k 0 ++ [34]).
  assert (length pre1 = S (length pre + k)) as Hpre1 by (unfold pre1; rewrite !length_app, length_replicate; cbn; lia).
  replace (pre ++ replicate k 0 ++ 34 :: r ++ 0 :: z) with (pre1 ++ r ++ 0 :: z) by (unfold pre1; by rewrite <- !app_assoc).
  rewrite <- Hpre1. eapply wp_skip_string; [lia|lia|exact Hq|].
  assert (Forall (λ c, c ≠ 0) t) as Ht by (rewrite Hr in Hrz; by apply Forall_app in Hrz as [? _]).
  assert (length r = (length t + match rest with Some rest => S (length rest) | None => 0 end)%nat) as Hrl.
  { rewrite Hr, length_app. by destruct rest. }
  destruct rest as [rest|].
  - rewrite (proj2 (Z.leb_gt n _)) by lia. apply wpf_bind. subst r.
    replace (pre1 ++ (t ++ 34 :: rest) ++ 0 :: z) with ((pre1 ++ t) ++ 34 :: rest ++ 0 :: z) by (by rewrite <- !app_assoc).
    apply wp_cut; [by rewrite length_app|].
    replace (S (length pre1 + length t)) with (length (pre1 ++ t ++ [0])) by (rewrite !length_app; cbn; lia).
    replace ((pre1 ++ t) ++ 0 :: rest ++ 0 :: z) with ((pre1 ++ t ++ [0]) ++ rest ++ 0 :: z) by (by rewrite <- !app_assoc).
    apply IH; [lia|by apply Forall_app in Hrz as [_ Hrz]; apply Forall_cons in Hrz as [_ ?]|rewrite !length_app; cbn; lia|lia
      |rewrite length_app; cbn; lia|rewrite length_app; intros Hov; apply HF; rewrite Hwords; cbn in *; lia|].
    rewrite length_app. cbn [length]. intros Hle l2 offs2 (Hl2 & _ & Hp2). rewrite Hwords in HQ. cbn [length] in HQ.
    specialize (HQ ltac:(lia) (replicate k 0 ++ [34] ++ t ++ 0 :: l2) ((k + 1)%nat :: (Nat.add (k + 1 + length t) <$> (S <$> offs2)))).
    replace ((pre1 ++ t ++ [0]) ++ l2 ++ 0 :: z) with (pre ++ (replicate k 0 ++ [34] ++ t ++ 0 :: l2) ++ 0 :: z)
      by (unfold pre1; by rewrite <- !app_assoc).
    replace ((av ++ [length pre1]) ++ (Nat.add (length (pre1 ++ t ++ [0])) <$> offs2))
      with (av ++ (Nat.add (length pre) <$> (k + 1)%nat :: (Nat.add (k + 1 + length t) <$> (S <$> offs2)))); [apply HQ|].
    + apply (split_result_word k [34] t (0 :: l2) (S <$> offs2) (words rest)); try done; [cbn [length] in *; lia|by eauto|].
      by apply (placed_shift [0] (l2 ++ 0 :: z)).
    + rewrite <- app_assoc. f_equal. cbn. f_equal; [lia|]. rewrite <- !list_fmap_compose. apply list_fmap_ext.
      intros i o _. cbn. rewrite !length_app. cbn. lia.
  - rewrite (proj2 (Z.leb_le n _)) by lia. rewrite app_nil_r in Hr. subst r. unfold wpf. cbn.
    rewrite Hwords in HQ. cbn [length] in HQ. specialize (HQ ltac:(lia) (replicate k 0 ++ [34] ++ t ++ []) [(k + 1)%nat]).
    replace (pre1 ++ t ++ 0 :: z) with (pre ++ (replicate k 0 ++ [34] ++ t ++ []) ++ 0 :: z) by (unfold pre1; by rewrite app_nil_r, <- !app_assoc).
    replace (av ++ [length pre1]) with (av ++ (Nat.add (length pre) <$> [(k + 1)%nat])) by (cbn; do 2 f_equal; lia). apply HQ.
    apply (split_result_word k [34] t [] [] []); try done; [cbn in *; lia|by auto|constructor].
Qed.

(** At a word. *)
Lemma splits_plain fuel l k c r pre z av n m Q F :
  (∀ r, (length r < length l)%nat → splits fuel r) → (length l <= fuel)%nat → (length l < m)%nat → blank c = false →
  words l = (let '(t, rest) := plain_word r in (c :: t) :: words rest) →
  (∀ c r, l = c :: r → blank c = true → (0 < k)%nat) → Forall (λ c, c ≠ 0) (c :: r) → length l = (k + S (length r))%nat →
  n = Z.of_nat (length pre + k + S (length r)) → (length av <= 10)%nat →
  ((10 < length av + length (words l))%nat → F F_pointer) →
  ((length av + length (words l) <= 10)%nat → ∀ l' offs, split_result l z l' offs →
     Q tt (mk_splitter (pre ++ l' ++ 0 :: z) (av ++ (Nat.add (length pre) <$> offs)))) →
  wpf (new_arg (length pre + k);;
       position ← skip_word m n (length pre + k);
       if n <=? Z.of_nat position then mret tt else split_loop fuel n position)
    (mk_splitter (pre ++ replicate k 0 ++ (c :: r) ++ 0 :: z) av) Q F.
Proof.
  intros IH Hfuel Hm Hc Hwords Hk0 Hrz Hlen Hn Hav HF HQ. destruct (plain_word r) as [t rest] eqn:Hq.
  pose proof (plain_text _ _ _ Hq) as [Hr Hrest].
  apply wpf_new_arg; [intros Hlt|intros H10; apply HF; rewrite Hwords, H10; cbn; lia|done]. apply wpf_bind.
  set (pre1 := pre ++ replicate k 0).
  assert (length pre1 = (length pre + k)%nat) as Hpre1 by (unfold pre1; by rewrite length_app, length_replicate).
  replace (pre ++ replicate k 0 ++ (c :: r) ++ 0 :: z) with (pre1 ++ (c :: r) ++ 0 :: z) by (unfold pre1; by rewrite <- !app_assoc).
  rewrite <- Hpre1. eapply (wp_skip_word _ _ _ _ _ _ _ (c :: t) rest); [cbn [length]; lia|cbn [length]; lia|cbn [plain_word]; by rewrite Hc, Hq|].
  assert (Forall (λ c, c ≠ 0) (c :: t)) as Ht.
  { rewrite Hr, app_comm_cons in Hrz. by apply Forall_app in Hrz as [? _]. }
  assert (length r = (length t + length rest)%nat) as Hrl by (by rewrite Hr, length_app).
  assert (∀ l2 offs2, (length av + length (words l) <= 10)%nat → length l2 = length rest → (l2 = [] ∨ ∃ r, l2 = 0 :: r) →
    words_at (l2 ++ 0 :: z) offs2 (words rest) →
    Q tt (mk_splitter ((pre1 ++ c :: t) ++ l2 ++ 0 :: z) ((av ++ [length pre1]) ++ (Nat.add (length (pre1 ++ c :: t)) <$> offs2)))) as Hend.
  { intros l2 offs2 Hle Hl2 Hhead Hp2.
    specialize (HQ Hle (replicate k 0 ++ [] ++ (c :: t) ++ l2) ((k + 0)%nat :: (Nat.add (k + 0 + length (c :: t)) <$> offs2))).
    replace ((pre1 ++ c :: t) ++ l2 ++ 0 :: z) with (pre ++ (replicate k 0 ++ [] ++ (c :: t) ++ l2) ++ 0 :: z) by (unfold pre1; by rewrite <- !app_assoc).
    replace ((av ++ [length pre1]) ++ (Nat.add (length (pre1 ++ c :: t)) <$> offs2))
      with (av ++ (Nat.add (length pre) <$> (k + 0)%nat :: (Nat.add (k + 0 + length (c :: t)) <$> offs2))); [apply HQ|].
    + apply (split_result_word k [] (c :: t) l2 offs2 (words rest)); try done. cbn [length] in *. lia.
    + rewrite <- app_assoc. f_equal. cbn. f_equal; [lia|]. rewrite <- list_fmap_compose. apply list_fmap_ext.
      intros i o _. cbn. rewrite length_app. cbn. lia. }
  replace (pre1 ++ (c :: r) ++ 0 :: z) with ((pre1 ++ c :: t) ++ rest ++ 0 :: z) by (rewrite Hr, app_comm_cons; by rewrite <- !app_assoc).
  destruct rest as [|x rest].
  - cbn [length] in *. rewrite (proj2 (Z.leb_le n _)) by lia. unfold wpf. cbn. rewrite Hwords in Hend. cbn [length] in Hend.
    specialize (Hend [] [] ltac:(cbn; lia) eq_refl ltac:(by auto) ltac:(constructor)). cbn in Hend. by rewrite app_nil_r in Hend.
  - cbn [length] in *. rewrite (proj2 (Z.leb_gt n _)) by lia. rewrite Hwords in HF, Hend. cbn [length] in HF, Hend.
    replace (length pre1 + S (length t))%nat with (length (pre1 ++ c :: t)) by (rewrite length_app; cbn; lia).
    apply IH; [cbn; lia| |rewrite length_app; cbn; lia|cbn; lia|rewrite length_app; cbn; lia
      |rewrite length_app; intros Hov; apply HF; cbn in *; lia|].
    + rewrite Hr, app_comm_cons in Hrz. by apply Forall_app in Hrz as [_ ?].
    + rewrite length_app. cbn [length]. intros Hle l2 offs2 (Hl2 & Hh2 & Hp2). apply Hend; [lia|done| |done].
      destruct Hrest as [|(y & r' & [= <- <-] & Hy)]; [done|]. right. by eapply Hh2.
Qed.

Lemma splits_all fuel : ∀ l, (length l < fuel)%nat → splits fuel l.
Proof.
  induction fuel as [|fuel IH]; intros l Hl0; [lia|]. destruct (decide (l = [])) as [->|Hne]; [apply splits_nil|].
  intros pre z av n Q F Hz Hn Hf Hav HF HQ. cbn [split_loop]. assert (0 < length l)%nat as Hpos by (destruct l; cbn; lia || done).
  rewrite (proj2 (Z.ltb_lt _ n)) by lia. apply wpf_bind. wp_step. cbn [cmd]. apply wpf_bind.
  set (m := S (length (pre ++ l ++ 0 :: z))). assert (length l < m)%nat as Hm by (unfold m; rewrite !length_app; lia).
  apply wp_strip_blanks; [done|done|]. intros k b Hb Hk Hk0.
  assert (Forall (λ c, c ≠ 0) (without_blanks l)) as Hwz by (rewrite Hb in Hz; by apply Forall_app in Hz as [_ ?]).
  assert (length l = (k + length (without_blanks l))%nat) as Hlen by (rewrite Hb at 1; rewrite length_app; lia).
  pose proof (words_eq l) as Hwords. unfold words_step in Hwords.
  destruct (without_blanks l) as [|c r] eqn:Hw.
  { rewrite (proj2 (Z.leb_le n _)) by (cbn in Hlen; lia). unfold wpf. cbn. rewrite <- (app_nil_r av).
    apply (HQ ltac:(rewrite Hwords; cbn; lia) (replicate k 0) []).
    eapply split_result_blank; [rewrite Hb; apply app_nil_r|done|done|done]. }
  cbn [length] in Hlen. rewrite (proj2 (Z.leb_gt n _)) by lia. apply wpf_bind.
  pose proof (without_blanks_head _ _ _ Hw) as Hc.
  match goal with |- wp _ (mk_splitter ?x _) _ => replace x with ((pre ++ replicate k 0) ++ (c :: r) ++ 0 :: z) by (by rewrite <- app_assoc) end.
  apply wp_peek_text; [by rewrite length_app, length_replicate|]. change (text_byte (c :: r)) with c. rewrite <- app_assoc.
  destruct (Z.eqb_spec c 34) as [->|Hq].
  - apply Forall_cons in Hwz as [_ Hwz]. eapply (splits_string fuel l k r); try done; [|lia|lia]. intros r0 Hr0. apply IH. lia.
  - eapply (splits_plain fuel l k c r); try done; [|lia|lia]. intros r0 Hr0. apply IH. lia.
Qed.

Lemma wpf_split t z Q F :
  Forall (λ c, c ≠ 0) t → ((10 < length (words t))%nat → F F_pointer) →
  ((length (words t) <= 10)%nat → ∀ l' offs, words_at l' offs (words t) →
     Q (Z.of_nat (length (words t))) (mk_splitter l' offs)) →
  wpf (msh_split (Z.of_nat (length t))) (mk_splitter (t ++ 0 :: z) []) Q F.
Proof.
  intros Hz HF HQ. unfold msh_split. apply wpf_bind. wp_step. cbn [cmd].
  assert (length t < S (length (t ++ 0%Z :: z)))%nat as Hf by (rewrite length_app; lia).
  pose proof (splits_all _ t Hf [] z [] (Z.of_nat (length t))
    (λ _ s, wpf (s ← get; mret (Z.of_nat (length (argv s)))) s Q F) F Hz ltac:(cbn; lia) Hf ltac:(cbn; lia) HF) as H.
  cbn [app length] in H. set (m := split_loop _ _ _) in *. unfold wpf at 1, mbind, M_bind. unfold wpf at 1 in H.
  assert (match m (mk_splitter (t ++ 0 :: z) []) with
    | Ok (_, s') => wpf (s ← get; mret (Z.of_nat (length (argv s)))) s' Q F | Err e => F e end) as H'.
  { apply H. intros Hle l' offs (_ & _ & Hp). cbn [app length].
    assert (Nat.add 0 <$> offs = offs) as -> by apply list_fmap_id. unfold wpf, mbind, M_bind, get, mret, M_ret. cbn [argv].
    rewrite (Forall2_length _ _ _ Hp). by apply HQ. }
  clear H. by destruct (m (mk_splitter (t ++ 0 :: z) [])) as [[? ?]|].
Qed.

(** C21: A line whose words are at most ten is cut in place into exactly its words: a blank ends a
    word, a string in quotes is one word, and [argc] is their number. *)
Theorem msh_split_words t z (Hz : Forall (λ c, c ≠ 0) t) (Hle : (length (words t) <= 10)%nat) :
  wp (msh_split (Z.of_nat (length t))) (mk_splitter (t ++ 0 :: z) [])
    (λ argc s, argc = Z.of_nat (length (words t)) ∧ words_at (cmd s) (argv s) (words t)).
Proof. apply (wpf_split t z _ (λ _, False) Hz); [lia|]. by intros _ l' offs Hp. Qed.

(** A line of more than ten words writes behind the array [argv] of the stack. *)
Theorem msh_split_overflows t z (Hz : Forall (λ c, c ≠ 0) t) (Hgt : (10 < length (words t))%nat) :
  msh_split (Z.of_nat (length t)) (mk_splitter (t ++ 0 :: z) []) = Err F_pointer.
Proof.
  pose proof (wpf_split t z (λ _ _, False) (λ e, e = F_pointer) Hz (λ _, eq_refl) ltac:(lia)) as H.
  unfold wpf in H. destruct (msh_split _ _) as [[]|e]; [done|by rewrite H].
Qed.

(** * Running a command *)

Section Commands.
Context {X : Type} `{!MshWorld X}.
Notation C := (M (console X)).

(** The first symbol whose name is [__cmd_] and the word. *)
Fixpoint find_command (table : list (msh_symbol X)) (w : list Z) : option (msh_symbol X) :=
  match table with
  | [] => None
  | i :: table => if bool_decide (syscall_name i = cmd_prefix ++ w) then Some i else find_command table w
  end.

Definition name_ok (i : msh_symbol X) : Prop := Forall (λ c, c ≠ 0) (syscall_name i).

Lemma is_command_name (i : msh_symbol X) w : syscall_name i = cmd_prefix ++ w ↔ is_command i = true ∧ command_name i = w.
Proof.
  unfold is_command, command_name, strncmp_eq. rewrite bool_decide_eq_true. split.
  - intros ->. done.
  - intros [H1 <-]. rewrite <- (take_drop 6 (syscall_name i)) at 1. by f_equal.
Qed.

Lemma wp_get_cmd table l w rest (s : console X) Q :
  Forall name_ok table → c_string l = w ++ rest → Q (find_command table w) s →
  wp (get_cmd table l (length w)) s Q.
Proof.
  intros Hok Hl HQ. induction table as [|i table IH]; [by apply wp_ret|]. apply Forall_cons in Hok as [Hi Hok].
  cbn [get_cmd find_command] in *. rewrite Hl.
  destruct (is_command i) eqn:Hc.
  2: { rewrite bool_decide_false in HQ; [by apply IH|]. intros E. apply is_command_name in E as [E _]. congruence. }
  unfold strncmp_eq at 1. rewrite take_app_length.
  assert (length (syscall_name i) = (6 + length (command_name i))%nat) as Hlen.
  { pose proof (proj2 (is_command_name i (command_name i)) (conj Hc eq_refl)) as E. apply (f_equal length) in E. exact E. }
  destruct (bool_decide_reflect (take (length w) (command_name i) = w)) as [Ht|Ht].
  - assert (length w <= length (command_name i))%nat as Hle.
    { apply (f_equal length) in Ht. rewrite length_take in Ht. lia. }
    destruct (decide (length w = length (command_name i))) as [E|E].
    + rewrite take_ge in Ht by lia. wp_step. rewrite lookup_app_r, Hlen, E, Nat.sub_diag by lia. wp_step. change (0 =? 0) with true. cbv iota. wp_step.
      by rewrite bool_decide_true in HQ by (by apply is_command_name).
    + wp_step. rewrite lookup_app_l by lia. destruct (lookup_lt_is_Some_2 (syscall_name i) (6 + length w)) as [x Hx]; [lia|].
      rewrite Hx. wp_step. rewrite (proj2 (Z.eqb_neq x 0)) by (by apply (Forall_lookup_1 _ _ _ _ Hi Hx)).
      rewrite bool_decide_false in HQ; [by apply IH|]. intros E'. apply is_command_name in E' as [_ E']. congruence.
  - rewrite bool_decide_false in HQ; [by apply IH|]. intros E'. apply is_command_name in E' as [_ <-].
    apply Ht. by rewrite take_ge.
Qed.

Lemma arguments_placed l offs ws (s : console X) : words_at l offs ws → arguments l offs s = Ok (ws, s).
Proof.
  induction 1 as [|o w offs ws [Hw H0] _ IH]; [done|]. cbn [arguments]. unfold mbind, M_bind, string_in.
  rewrite bool_decide_true by done. cbn. by rewrite IH, Hw.
Qed.

Lemma run_bind {S A B} (m : M S A) (f : A → M S B) s a s' : m s = Ok (a, s') → (m ≫= f) s = f a s'.
Proof. intros H. unfold mbind, M_bind. by rewrite H. Qed.

Lemma run_bind_ext {S A B} (m : M S A) (f g : A → M S B) s : (∀ a s', f a s' = g a s') → (m ≫= f) s = (m ≫= g) s.
Proof. intros H. unfold mbind, M_bind. by destruct (m s) as [[a s']|]. Qed.

Lemma strim_run l z (s : console X) : (Z.of_nat (length l) < 2 ^ 32) →
  strim (l ++ 0 :: z) (Z.of_nat (length l)) s = Ok ((without_blanks l ++ 0 :: z, Z.of_nat (length (without_blanks l))), s).
Proof.
  intros Hlen. induction l as [|c l IH]; [done|]. cbn [app strim without_blanks]. destruct (blank c); [|done].
  cbn [length] in *. replace (u32 (Z.of_nat (S (length l)) - 1)) with (Z.of_nat (length l)) by (unfold u32; rewrite Z.mod_small; lia).
  apply IH. lia.
Qed.

(** What is done with a text that begins with a word. *)
Lemma exec_cmd_run t w rest z (s : console X) :
  Forall name_ok _syscall_table → Forall (λ c, c ≠ 0) t → plain_word t = (w, rest) → w ≠ [] → words t ≠ [] →
  _msh_exec_cmd (t ++ 0 :: z) (Z.of_nat (length t)) s =
    match find_command _syscall_table w with
    | Some i => if (length (words t) <=? 10)%nat then (r ← syscall_func i (words t); mret (Some r)) s else Err F_pointer
    | None => Ok (None, s)
    end.
Proof.
  intros Hok Hz Hp Hw Hne. unfold _msh_exec_cmd.
  assert (on_line (t ++ 0 :: z) (skip_word (S (length (t ++ 0 :: z))) (Z.of_nat (length t)) 0) s
    = Ok ((length w, mk_splitter (t ++ 0 :: z) []), s)) as E1.
  { pose proof (wp_skip_word (S (length (t ++ 0%Z :: z))) t [] z [] (Z.of_nat (length t)) (λ a s, a = length w ∧ s = mk_splitter (t ++ 0 :: z) []) w rest
      eq_refl ltac:(rewrite length_app; lia) Hp ltac:(done)) as H. apply wp_run in H as (? & ? & H & -> & ->).
    unfold on_line. cbn [app length] in H. by rewrite H. }
  rewrite (run_bind _ _ _ _ _ E1). cbv iota beta. destruct w as [|c w]; [done|]. cbn [length Nat.eqb].
  assert (msh_get_cmd (t ++ 0 :: z) (length (c :: w)) s = Ok (find_command _syscall_table (c :: w), s)) as E2.
  { apply plain_text in Hp as [Hp _].
    pose proof (wp_get_cmd _syscall_table (t ++ 0 :: z) (c :: w) rest s (λ a s', a = find_command _syscall_table (c :: w) ∧ s' = s) Hok
      ltac:(by rewrite c_string_app, Hp) ltac:(done)) as H. apply wp_run in H as (? & ? & H & -> & ->). exact H. }
  rewrite (run_bind _ _ _ _ _ E2). destruct (find_command _syscall_table (c :: w)) as [i|]; [|done].
  pose proof (wpf_split t z (λ argc s, (length (words t) <= 10)%nat ∧ argc = Z.of_nat (length (words t)) ∧ words_at (cmd s) (argv s) (words t))
    (λ e, (10 < length (words t))%nat ∧ e = F_pointer) Hz ltac:(by intros) ltac:(by intros ? l' offs Hp')) as H. unfold wpf in H.
  unfold mbind at 1, M_bind at 1, on_line.
  destruct (msh_split (Z.of_nat (length t)) (mk_splitter (t ++ 0 :: z) [])) as [[argc st]|e].
  - destruct H as (Hle & -> & Hpl). rewrite (proj2 (Nat.leb_le _ _)) by done. rewrite (proj2 (Z.eqb_neq _ 0)) by (by destruct (words t)).
    cbv iota. by rewrite (run_bind _ _ _ _ _ (arguments_placed _ _ _ s Hpl)).
  - destruct H as [Hgt ->]. by rewrite (proj2 (Nat.leb_gt _ _)).
Qed.

Lemma words_without_blanks l : words l = words (without_blanks l).
Proof.
  rewrite (words_eq l), (words_eq (without_blanks l)). unfold words_step.
  assert (without_blanks (without_blanks l) = without_blanks l) as ->; [|done].
  induction l as [|c l IH]; [done|]. cbn. destruct (blank c) eqn:Hc; [done|]. cbn. by rewrite Hc.
Qed.

(** A text that is no command: it may be a module, a script, or a directory. *)
Definition no_command (fuel : nat) (t z : list Z) : C Z :=
  m ← msh_exec_module (t ++ 0 :: z) (Z.of_nat (length t));
  if m =? 0 then mret 0
  else
    s ← msh_exec_script (msh_exec fuel) fuel (t ++ 0 :: z) (Z.of_nat (length t));
    if s =? 0 then mret 0
    else
      d ← world_call (chdir t);
      if d =? 0 then mret 0 else console_printf (until_space t ++ not_found);; mret (-1).

Lemma string_in_text t z (s : console X) : Forall (λ c, c ≠ 0) t → string_in (t ++ 0 :: z) s = Ok (t, s).
Proof.
  intros Ht. unfold string_in. rewrite bool_decide_true by (apply elem_of_app; right; by left). by rewrite c_string_app.
Qed.

Lemma no_command_run fuel t z (s : console X) : Forall (λ c, c ≠ 0) t →
  (m ← msh_exec_module (t ++ 0 :: z) (Z.of_nat (length t));
   if m =? 0 then mret 0
   else
   s ← msh_exec_script (msh_exec fuel) fuel (t ++ 0 :: z) (Z.of_nat (length t));
   if s =? 0 then mret 0
   else
     path ← string_in (t ++ 0 :: z);
     d ← world_call (chdir path);
     if d =? 0 then mret 0 else console_printf (until_space path ++ not_found);; mret (-1)) s = no_command fuel t z s.
Proof.
  intros Ht. unfold no_command. apply run_bind_ext. intros m s1. destruct (m =? 0); [done|].
  apply run_bind_ext. intros r s'. destruct (r =? 0); [done|]. by rewrite (run_bind _ _ _ t s') by by apply string_in_text.
Qed.

Lemma msh_exec_run fuel l z (s : console X)
    (Hok : Forall name_ok _syscall_table) (Hz : Forall (λ c, c ≠ 0) l) (Hlen : Z.of_nat (length l) < 2 ^ 32) :
  let t := without_blanks l in
  msh_exec (S fuel) (l ++ 0 :: z) (Z.of_nat (length l)) s =
    match t with
    | [] => Ok (0, s)
    | _ =>
        match find_command _syscall_table (plain_word t).1 with
        | Some i => if (length (words l) <=? 10)%nat then syscall_func i (words l) s else Err F_pointer
        | None => no_command fuel t z s
        end
    end.
Proof.
  intros t. cbn [msh_exec]. rewrite (run_bind _ _ _ _ _ (strim_run l z s Hlen)). cbv iota beta.
  assert (Forall (λ c, c ≠ 0) t) as Hz'.
  { by apply Forall_without_blanks. }
  rewrite words_without_blanks. fold t. destruct (plain_word t) as [w rest] eqn:Hp. cbn [fst].
  destruct t as [|c t0] eqn:Ht; [done|]. pose proof (without_blanks_head _ _ _ Ht) as Hc.
  assert (w ≠ []) as Hw by (intros ->; cbn in Hp; rewrite Hc in Hp; by destruct (plain_word t0)).
  assert (words (c :: t0) ≠ []) as Hwd.
  { rewrite words_eq. unfold words_step. cbn [without_blanks]. rewrite Hc. destruct (c =? 34); [by destruct (quoted t0)|by destruct (plain_word t0)]. }
  rewrite (proj2 (Z.eqb_neq _ 0)) by done. cbv iota. unfold mbind at 1, M_bind at 1.
  rewrite (exec_cmd_run (c :: t0) w rest z s) by done. destruct (find_command _syscall_table w) as [i|].
  - destruct (length (words (c :: t0)) <=? 10)%nat; [|done]. unfold mbind, M_bind.
    by destruct (syscall_func i (words (c :: t0)) s) as [[]|].
  - by apply no_command_run.
Qed.

(** C20: What the word shell does with every line.  A blank line does nothing; if the first word is the name of a command (the symbol
    [__cmd_] and the word), the first such command is run with the words of the line, and more than ten words write
    behind the array [argv]; otherwise the line may be a module, a script or a directory, and else the first word is reported as unknown. *)
Theorem msh_exec_spec fuel l z (s : console X)
    (Hok : Forall name_ok _syscall_table) (Hz : Forall (λ c, c ≠ 0) l) (Hlen : Z.of_nat (length l) < 2 ^ 32) :
  let t := without_blanks l in
  msh_exec (S fuel) (l ++ 0 :: z) (Z.of_nat (length l)) s =
    match t with
    | [] => Ok (0, s)
    | _ =>
        match find_command _syscall_table (plain_word t).1 with
        | Some i => if (length (words l) <=? 10)%nat then syscall_func i (words l) s else Err F_pointer
        | None => no_command fuel t z s
        end
    end.
Proof. by apply msh_exec_run. Qed.

(** * Completion *)

Lemma str_common_spec a b : ∃ p, str_common a b = length p ∧ p `prefix_of` a ∧ p `prefix_of` b ∧
  ∀ q, q `prefix_of` a → q `prefix_of` b → q `prefix_of` p.
Proof.
  revert b. induction a as [|x a IH]; intros [|y b].
  - exists []. by repeat split.
  - exists []. split_and!; [done|apply prefix_nil|apply prefix_nil|done].
  - exists []. split_and!; [done|apply prefix_nil|apply prefix_nil|done].
  - cbn. destruct (Z.eqb_spec x y) as [->|Hxy].
    + destruct (IH b) as (p & -> & Ha & Hb & Hm). exists (y :: p). split_and!; [done|by apply prefix_cons|by apply prefix_cons|].
      intros [|c q] Hqa Hqb; [apply prefix_nil|]. pose proof (prefix_cons_inv_1 _ _ _ _ Hqa) as ->.
      apply prefix_cons, Hm; by eapply prefix_cons_inv_2.
    + exists []. split_and!; [done|apply prefix_nil|apply prefix_nil|].
      intros [|c q] Hqa Hqb; [done|]. apply prefix_cons_inv_1 in Hqa, Hqb. congruence.
Qed.

Lemma completes_prefix p n : completes p n = true ↔ p `prefix_of` n.
Proof.
  unfold completes, strncmp_eq. rewrite bool_decide_eq_true, take_ge by lia. split.
  - intros E. rewrite E. apply prefix_take.
  - intros [k ->]. by rewrite take_app_length.
Qed.

(** What all names begin with, and no more does. *)
Definition common_prefix (p : list Z) (ns : list (list Z)) : Prop :=
  Forall (λ n, p `prefix_of` n) ns ∧ ∀ q, Forall (λ n, q `prefix_of` n) ns → q `prefix_of` p.

Lemma prefix_shorter (a b c : list Z) : a `prefix_of` c → b `prefix_of` c → (length a <= length b)%nat → a `prefix_of` b.
Proof.
  intros [x Ha] [y Hb] Hle. destruct (prefix_weak_total a b c) as [H|H]; [by exists x|by exists y|done|].
  rewrite (prefix_length_eq b a H) by lia. done.
Qed.

Lemma common_prefix_more p found ns n c :
  common_prefix p ns → found ∈ ns → p `prefix_of` found → c `prefix_of` n → c `prefix_of` found →
  (∀ q, q `prefix_of` n → q `prefix_of` found → q `prefix_of` c) →
  common_prefix (if (length c <? length p)%nat then c else p) (ns ++ [n]).
Proof.
  intros [Hp Hmax] Hin Hpf Hcn Hcf Hc. destruct (Nat.ltb_spec (length c) (length p)).
  - assert (c `prefix_of` p) as Hcp by (eapply prefix_shorter; [done|done|lia]). split.
    + apply Forall_app. split; [|by repeat constructor]. eapply Forall_impl; [exact Hp|]. intros x Hx. by etrans.
    + intros q Hq. apply Forall_app in Hq as [Hq Hn]. apply Forall_cons in Hn as [Hn _]. apply Hc; [exact Hn|].
      rewrite Forall_forall in Hq. by apply Hq.
  - assert (p `prefix_of` c) as Hpc by (eapply prefix_shorter; [done|done|lia]). split.
    + apply Forall_app. split; [done|]. constructor; [by etrans|done].
    + intros q Hq. apply Forall_app in Hq as [Hq _]. by apply Hmax.
Qed.

Lemma match_names_more prefix names : ∀ found p seen,
  prefix ≠ [] → common_prefix p seen → found ∈ seen → p `prefix_of` found → prefix `prefix_of` p →
  ∃ p', match_names prefix names found (length p) = (found, length p') ∧ p' `prefix_of` found ∧ prefix `prefix_of` p' ∧
    common_prefix p' (seen ++ filter (λ x, completes prefix x = true) names).
Proof.
  induction names as [|n names IH]; intros found p seen Hne Hc Hin Hpf Hpp; cbn [match_names].
  - exists p. split_and!; [done|done|done|]. by rewrite app_nil_r.
  - rewrite filter_cons. destruct (completes prefix n) eqn:Hn.
    + rewrite decide_True by done. assert (length p ≠ 0%nat) as Hp0.
      { apply prefix_length in Hpp. destruct prefix; [done|]. cbn in Hpp. lia. }
      rewrite (proj2 (Nat.eqb_neq _ 0)) by done. destruct (str_common_spec n found) as (c & -> & Hcn & Hcf & Hmax).
      apply completes_prefix in Hn. rewrite cons_middle, app_assoc.
      replace (if (length c <? length p)%nat then length c else length p) with (length (if (length c <? length p)%nat then c else p)) by (by case_match).
      apply IH; [done|eapply common_prefix_more; done|apply elem_of_app; by left|by case_match|].
      case_match; [|done]. apply Hmax; [done|]. by trans p.
    + rewrite decide_False by done. by apply IH.
Qed.

Lemma match_names_spec prefix names found :
  prefix ≠ [] →
  match filter (λ x, completes prefix x = true) names with
  | [] => match_names prefix names found 0 = (found, 0%nat)
  | n :: ms => ∃ p, match_names prefix names found 0 = (n, length p) ∧ p `prefix_of` n ∧ prefix `prefix_of` p ∧ common_prefix p (n :: ms)
  end.
Proof.
  intros Hne. induction names as [|n names IH]; [done|]. cbn [match_names]. rewrite filter_cons. destruct (completes prefix n) eqn:Hn.
  - rewrite decide_True by done. cbn [Nat.eqb]. destruct (str_common_spec n n) as (c & -> & Hcn & _ & Hmax).
    assert (c = n) as -> by (apply prefix_length_eq; [done|by apply prefix_length, Hmax]). rewrite Nat.ltb_irrefl.
    apply completes_prefix in Hn. destruct (match_names_more prefix names n n [n]) as (p & -> & Hp1 & Hp2 & Hp3); try done.
    + split; [by constructor|]. intros q Hq. by apply Forall_cons in Hq as [Hq _].
    + by left.
    + by exists p.
  - by rewrite decide_False by done.
Qed.

(** What is printed for a list of names. *)
Definition name_lines (names : list (list Z)) : list Z := concat ((λ n, log_text (n ++ [10])) <$> names).

Lemma print_names_run names (s : console X) :
  print_names names s = Ok (tt, mk_console (output s ++ name_lines names) (__msh_state s) (world s)).
Proof.
  revert s. induction names as [|n names IH]; intros s; cbn [print_names].
  - unfold name_lines. cbn. rewrite app_nil_r. by destruct s.
  - unfold console_printf. rewrite (run_bind _ _ _ tt _ eq_refl), IH. cbn [output __msh_state world].
    unfold name_lines. cbn. by rewrite <- app_assoc.
Qed.

(** ** Bounds of what is looked for *)

Lemma last_space_bound l : ∀ i o j, last_space l i o = Some j → o = Some j ∨ (j < i + length l)%nat.
Proof.
  induction l as [|c l IH]; intros i o j H; cbn [last_space length] in *; [by left|].
  apply IH in H as [H|H]; [|right; lia]. destruct (_ && _); [|by left]. injection H as <-. right. lia.
Qed.

Lemma path_start_bound t : (path_start t <= length t)%nat.
Proof.
  unfold path_start. destruct (last_space t 0 None) as [i|] eqn:H; [|lia]. apply last_space_bound in H as [H|H]; [done|lia].
Qed.

Lemma last_name_bound l : ∀ i j, (j <= i)%nat → (last_name l i j <= i + length l)%nat.
Proof.
  induction l as [|c l IH]; intros i j H; cbn [last_name length]; [lia|].
  pose proof (IH (S i) (if c =? 47 then S i else j) ltac:(case_match; lia)). lia.
Qed.

(** The part of a line that is completed as the name of a file, and what is in front of it. *)
Definition name_start (t : list Z) : nat := path_start t + last_name (drop (path_start t) t) 0 0.

Lemma name_start_bound t : (name_start t <= length t)%nat.
Proof.
  unfold name_start. pose proof (path_start_bound t). pose proof (last_name_bound (drop (path_start t) t) 0 0 ltac:(lia)) as H1.
  rewrite length_drop in H1. lia.
Qed.

(** A text in an array of zeros. *)
Definition in_zeros (n : nat) (t : list Z) : list Z := t ++ replicate (n - length t) 0.

Lemma put_in_zeros n a x y (s : console X) :
  (length (a ++ y) <= n)%nat → (length x <= length y)%nat →
  put_string (in_zeros n (a ++ x)) (length a) y s = Ok (in_zeros n (a ++ y), s).
Proof.
  intros Hn Hx. rewrite length_app in Hn. unfold put_string, in_zeros. rewrite length_app, length_replicate, !length_app.
  rewrite (proj2 (Nat.leb_le _ _)) by lia. unfold mret, M_ret. do 2 f_equal.
  rewrite <- !app_assoc, take_app_length. do 2 f_equal. rewrite drop_app_ge by lia. rewrite drop_app_ge by lia.
  rewrite drop_replicate. f_equal. lia.
Qed.

Lemma replicate_end n k : (k < n)%nat → replicate (n - k) 0 = 0 :: replicate (n - k - 1) 0.
Proof. intros H. destruct (n - k)%nat eqn:E; [lia|]. cbn. by rewrite Nat.sub_0_r. Qed.

(** The end that is written is there already. *)
Lemma put_end_zero n y k (s : console X) : k = length y → (length y < n)%nat → put_string (in_zeros n y) k [0] s = Ok (in_zeros n y, s).
Proof.
  intros -> Hn. unfold put_string, in_zeros. rewrite length_app, length_replicate. cbn [length].
  rewrite (proj2 (Nat.leb_le _ _)) by lia. unfold mret, M_ret. do 2 f_equal. rewrite replicate_end by done.
  rewrite take_app_length. f_equal. by rewrite <- drop_drop, drop_app_length.
Qed.

(** ** Completion of a command *)

Definition completed (p x : list Z) (ns : list (list Z)) : Prop :=
  ns = [] ∧ p = x ∨ ns ≠ [] ∧ x `prefix_of` p ∧ common_prefix p ns.

Lemma complete_command_run n t (s : console X) :
  Forall (λ c, c ≠ 0) t → t ≠ [] → (length t < n)%nat → Forall (λ m, (length m <= n)%nat) (command_names (X := X)) →
  let names := filter (λ m, t `prefix_of` m) (command_names (X := X)) in
  ∃ p, complete_command (in_zeros n t) s =
      Ok (in_zeros n p, mk_console (output s ++ name_lines names) (__msh_state s) (world s)) ∧ completed p t names.
Proof.
  intros Ht Hne Hlen Hroom names. assert (filter (λ x, completes t x = true) command_names = names) as Hnames.
  { apply list_filter_iff. intros m. apply completes_prefix. }
  unfold complete_command. assert (in_zeros n t = t ++ 0 :: replicate (n - length t - 1) 0) as Hz.
  { unfold in_zeros. by rewrite replicate_end. }
  rewrite Hz, (run_bind _ _ _ _ _ (string_in_text t _ s Ht)), <- Hz.
  pose proof (match_names_spec t command_names [] Hne) as Hm. rewrite Hnames in *.
  assert (Forall (λ m, (length m <= n)%nat) names) as Hroom'.
  { subst names. apply Forall_forall. intros x Hx. apply list_elem_of_filter in Hx as [_ Hx]. by eapply Forall_forall in Hroom. }
  destruct names as [|m ms] eqn:Hns.
  - rewrite Hm. cbv iota beta. rewrite (run_bind _ _ _ _ _ (print_names_run [] s)). rewrite bool_decide_true by done.
    exists t. split; [done|by left].
  - destruct Hm as (p & -> & Hpn & Htp & Hc). cbv iota beta. rewrite (run_bind _ _ _ _ _ (print_names_run (m :: ms) s)).
    rewrite bool_decide_false by done. apply Forall_cons in Hroom' as [Hn _].
    assert (length t <= length p <= length m)%nat as [Hl1 Hl2] by (split; by apply prefix_length).
    assert (take (length p) m = p) as -> by (destruct Hpn as [x ->]; apply take_app_length).
    exists p. split; [|by right]. apply (put_in_zeros n [] t p); cbn; lia.
Qed.

(** ** Completion of a path *)

(** The names that are listed for a path. *)
Definition listed (x x1 : list Z) (files : list (list Z)) : list Z :=
  match x with
  | [] => name_lines files
  | _ =>
      match filter (λ f, x `prefix_of` f) files with
      | [] => []
      | f :: fs => if (length x1 <? length f)%nat then name_lines (f :: fs) else []
      end
  end.

Lemma complete_path_run n t (s : console X) b w1 full files w2 :
  Forall (λ c, c ≠ 0) t → (length t < n)%nat → rt_malloc 256 (world s) = Ok (Some b, w1) →
  parent_path w1 (drop (path_start t) t) = Some full → read_directory full w1 = Ok (Some files, w2) →
  Forall (λ f, (name_start t + length f < n)%nat) files →
  let x := drop (name_start t) t in
  ∃ x1, msh_auto_complete_path (in_zeros n t) (path_start t) s =
      Ok (in_zeros n (take (name_start t) t ++ x1), mk_console (output s ++ listed x x1 files) (__msh_state s) w2) ∧
    match x with [] => x1 = [] | _ => completed x1 x (filter (λ f, x `prefix_of` f) files) end.
Proof.
  intros Ht Hlen Hmal Hpar Hdir Hroom x. pose proof (name_start_bound t) as Hns. pose proof (path_start_bound t) as Hps.
  assert (take (name_start t) t ++ x = t) as Htx by apply take_drop.
  assert (length (take (name_start t) t) = name_start t) as Hl0 by (rewrite length_take; lia).
  set (i := path_start t) in *. set (path := drop i t) in *.
  assert (drop i (in_zeros n t) = path ++ 0 :: replicate (n - length t - 1) 0) as Hd.
  { unfold in_zeros. rewrite drop_app_le by lia. by rewrite replicate_end. }
  assert (Forall (λ c, c ≠ 0) path) as Hpz by (by apply Forall_drop).
  unfold msh_auto_complete_path. rewrite Hd, (run_bind _ _ _ _ _ (string_in_text path _ s Hpz)).
  assert (∀ A (m : M X A) a w w' o g, m w = Ok (a, w') → world_call m (mk_console o g w) = Ok (a, mk_console o g w')) as Hcall.
  { intros A m a w w' o g E. unfold world_call, zoom. cbn. by rewrite E. }
  destruct s as [o g w]. cbn [world output __msh_state] in *.
  rewrite (run_bind _ _ _ _ _ (Hcall _ _ _ _ _ o g Hmal)). cbv iota beta.
  set (s1 := mk_console o g w1).
  rewrite (run_bind (gets world) _ s1 w1 s1 eq_refl), Hpar, (run_bind (deref (Some full)) _ s1 full s1 eq_refl).
  rewrite (run_bind _ _ _ _ _ (Hcall _ _ _ _ _ o g Hdir)). cbv iota beta.
  assert (drop (last_name path 0 0) path = x) as ->.
  { unfold path, x, name_start. by rewrite drop_drop. }
  change (i + last_name path 0 0)%nat with (name_start t). unfold listed.
  destruct x as [|c x'] eqn:Hx.
  - rewrite (run_bind _ _ _ _ _ (print_names_run files _)). exists []. split; [|done]. by rewrite Htx.
  - rewrite <- Hx in *. assert (x ≠ []) as Hxne by by rewrite Hx.
    pose proof (match_names_spec x files full Hxne) as Hm. clear Hx c x'.
    assert (filter (λ f, completes x f = true) files = filter (λ f, x `prefix_of` f) files) as Hf.
    { apply list_filter_iff. intros f. apply completes_prefix. }
    rewrite Hf in Hm. destruct x as [|c x'] eqn:Hx; [done|]. rewrite <- Hx in *. clear Hx c x'.
    set (fm := filter (λ f, x `prefix_of` f) files) in *.
    assert (Forall (λ f, (name_start t + length f < n)%nat) fm) as Hroom'.
    { apply Forall_forall. intros y Hy. apply list_elem_of_filter in Hy as [_ Hy]. by eapply Forall_forall in Hroom. }
    destruct fm as [|f fs] eqn:Hfm.
    + rewrite Hm. cbv iota beta. exists x. split; [|by left]. rewrite Htx, app_nil_r. done.
    + destruct Hm as (p & -> & Hpf & Hxp & Hc). cbv iota beta. apply Forall_cons in Hroom' as [Hroomf _].
      assert (length x <= length p <= length f)%nat as [Hl1 Hl2] by (split; by apply prefix_length).
      rewrite (proj2 (Nat.eqb_neq (length p) 0)) by (by destruct x; [|cbn in Hl1; lia]).
      exists p. split; [|by right]. assert (take (length p) f = p) as -> by (destruct Hpf as [y ->]; apply take_app_length).
      set (o1 := if (length p <? length f)%nat then name_lines (f :: fs) else []).
      rewrite (run_bind _ _ _ tt (mk_console (o ++ o1) g w2)).
      2: { unfold o1. rewrite Hf. destruct (length p <? length f)%nat; [apply print_names_run|by rewrite app_nil_r]. }
      rewrite <- Htx at 1. rewrite <- Hl0 at 2.
      rewrite (run_bind _ _ _ _ _ (put_in_zeros n (take (name_start t) t) x p _ ltac:(rewrite length_app; lia) Hl1)).
      apply put_end_zero; rewrite length_app; lia.
Qed.

Lemma completed_fits (P : list Z → Prop) x1 x ns :
  completed x1 x ns → P x → Forall P ns → (∀ a b, a `prefix_of` b → P b → P a) → P x1.
Proof.
  intros [[_ ->]|(Hne & _ & [Hp _])] Hx Hns Hclosed; [done|]. destruct ns as [|m ns]; [done|].
  apply Forall_cons in Hns as [Hm _]. apply Forall_cons in Hp as [Hp _]. by eapply Hclosed.
Qed.

(** The run of [msh_auto_complete], in terms of the positions that the code computes. *)
Lemma auto_complete_run n t (s : console X) b w1 full files w2
    (Ht : Forall (λ c, c ≠ 0) t) (Hne : t ≠ []) (Hlen : (length t < n)%nat) (Hmal : rt_malloc 256 (world s) = Ok (Some b, w1))
    (Hpar : parent_path w1 (drop (path_start t) t) = Some full) (Hdir : read_directory full w1 = Ok (Some files, w2))
    (Hfz : Forall (Forall (λ c, c ≠ 0)) files) (Hfiles : Forall (λ f, (name_start t + length f < n)%nat) files)
    (Hcmds : Forall (λ m, (length m <= n)%nat) (command_names (X := X))) :
  let x := drop (name_start t) t in
  ∃ x1 p, let t1 := take (name_start t) t ++ x1 in
    let names := filter (λ m, t1 `prefix_of` m) (command_names (X := X)) in
    msh_auto_complete (in_zeros n t) s =
      Ok (in_zeros n p, mk_console (output s ++ listed x x1 files ++ name_lines names) (__msh_state s) w2) ∧
    match x with [] => x1 = [] | _ => completed x1 x (filter (λ f, x `prefix_of` f) files) end ∧
    completed p t1 names.
Proof.
  intros x. destruct (complete_path_run n t s b w1 full files w2 Ht Hlen Hmal Hpar Hdir Hfiles) as (x1 & Hrun & Hx1).
  fold x in Hrun, Hx1. pose proof (name_start_bound t) as Hns.
  assert (take (name_start t) t ++ x = t) as Htx by apply take_drop.
  assert (length (take (name_start t) t) = name_start t) as Hl0 by (rewrite length_take; lia).
  assert (x `prefix_of` x1 ∧ Forall (λ c, c ≠ 0) x1 ∧ (name_start t + length x1 < n)%nat) as (Hxx & Hx1z & Hx1l).
  { destruct x as [|c x'] eqn:Hx; [subst x1; split_and!; [done|done|cbn; lia]|]. rewrite <- Hx in *.
    assert (∀ P : list Z → Prop, Forall P files → Forall P (filter (λ f, x `prefix_of` f) files)) as Hfil.
    { intros P HP. apply Forall_forall. intros y Hy. apply list_elem_of_filter in Hy as [_ Hy]. by eapply Forall_forall in HP. }
    split; [by destruct Hx1 as [[_ ->]|(_ & ? & _)]|]. split.
    - eapply (completed_fits (Forall (λ c, c ≠ 0))); [exact Hx1|by apply Forall_drop|by apply Hfil|].
      intros a d [k ->] Hd. by apply Forall_app in Hd as [? _].
    - eapply (completed_fits (λ a, (name_start t + length a < n)%nat)); [exact Hx1| |by apply Hfil|].
      + rewrite <- Htx, length_app in Hlen. lia.
      + intros a d Had Hd. apply prefix_length in Had. lia. }
  set (t1 := take (name_start t) t ++ x1).
  assert (Forall (λ c, c ≠ 0) t1) as Ht1 by (apply Forall_app; split; [by apply Forall_take|done]).
  assert (length t1 < n)%nat as Hl1 by (unfold t1; rewrite length_app; lia).
  assert (t1 ≠ []) as Hne1.
  { unfold t1. apply prefix_length in Hxx. rewrite <- Htx in Hne. intros E. apply (f_equal length) in E. rewrite length_app in E. cbn in E.
    apply Hne, nil_length_inv. rewrite length_app. lia. }
  destruct (complete_command_run n t1 (mk_console (output s ++ listed x x1 files) (__msh_state s) w2) Ht1 Hne1 Hl1 Hcmds) as (p & Hrun2 & Hp).
  exists x1, p. fold t1. cbv zeta. split; [|by split]. unfold msh_auto_complete.
  assert (in_zeros n t = t ++ 0 :: replicate (n - length t - 1) 0) as Hz by (unfold in_zeros; by rewrite replicate_end).
  rewrite Hz, (run_bind _ _ _ _ _ (string_in_text t _ s Ht)), <- Hz. 
  assert (∀ A (k0 k1 : A), match t with [] => k0 | _ => k1 end = k1) as -> by (by destruct t).
  rewrite (run_bind _ _ _ _ _ Hrun). fold t1. rewrite Hrun2. cbn [output __msh_state world]. by rewrite <- app_assoc.
Qed.

(** ** The parts of a line *)

(** A line is [a ++ d ++ x]: [a] ends with the last space that is not the first character, or is
    empty without such a space; what is behind it is a path, of which [d] ends with the last
    slash, or is empty without one, and [x] is the name to complete. *)
Record line_parts (t a d x : list Z) : Prop := {
  lp_line : t = a ++ d ++ x;
  lp_space : a = [] ∧ 32 ∉ tail t ∨ (∃ c b, a = c :: b ++ [32]) ∧ 32 ∉ d ++ x;
  lp_slash : (d = [] ∨ ∃ b, d = b ++ [47]) ∧ 47 ∉ x
}.

(** The directory [full] of the path [d ++ x]: [d] if the path is absolute, or else [d] behind
    the working directory [cwd], which gets a slash if it does not end with one. *)
Definition path_directory (cwd d x full : list Z) : Prop :=
  ∃ base, full = base ++ d ∧
    ((∃ r, d ++ x = 47 :: r) ∧ base = [] ∨
     (¬ ∃ r, d ++ x = 47 :: r) ∧
       ((∃ b, cwd = b ++ [47]) ∧ base = cwd ∨ (¬ ∃ b, cwd = b ++ [47]) ∧ base = cwd ++ [47])).

Lemma last_space_app l1 l2 : ∀ i o, last_space (l1 ++ l2) i o = last_space l2 (i + length l1) (last_space l1 i o).
Proof.
  induction l1 as [|c l1 IH]; intros i o; cbn [app last_space length]; [by rewrite Nat.add_0_r|].
  rewrite IH. f_equal. lia.
Qed.

Lemma last_space_none l : ∀ i o, 32 ∉ l → last_space l i o = o.
Proof.
  induction l as [|c l IH]; intros i o Hl; [done|]. apply not_elem_of_cons in Hl as [Hc Hl]. cbn [last_space].
  rewrite (proj2 (Z.eqb_neq c 32)) by done. by apply IH.
Qed.

Lemma last_name_app l1 l2 : ∀ i j, last_name (l1 ++ l2) i j = last_name l2 (i + length l1) (last_name l1 i j).
Proof.
  induction l1 as [|c l1 IH]; intros i j; cbn [app last_name length]; [by rewrite Nat.add_0_r|].
  rewrite IH. f_equal. lia.
Qed.

Lemma last_name_none l : ∀ i j, 47 ∉ l → last_name l i j = j.
Proof.
  induction l as [|c l IH]; intros i j Hl; [done|]. apply not_elem_of_cons in Hl as [Hc Hl]. cbn [last_name].
  rewrite (proj2 (Z.eqb_neq c 47)) by done. by apply IH.
Qed.

Lemma path_start_parts t a d x : line_parts t a d x → path_start t = length a.
Proof.
  intros [-> [[-> Hs]|[(c & b & ->) Hs]] _]; unfold path_start.
  - cbn [app] in *. destruct (d ++ x) as [|c l]; [done|]. cbn [last_space]. rewrite andb_false_r. by rewrite last_space_none.
  - rewrite app_comm_cons, <- app_assoc, last_space_app. cbn [app last_space].
    rewrite (last_space_none (d ++ x)) by done. simpl. rewrite length_app. simpl. lia.
Qed.

Lemma last_name_parts t a d x : line_parts t a d x → last_name (d ++ x) 0 0 = length d.
Proof.
  intros [_ _ [[->|[b ->]] Hx]].
  - by apply last_name_none.
  - rewrite <- app_assoc, last_name_app. cbn [app last_name]. rewrite last_name_none by done.
    rewrite length_app. cbn. lia.
Qed.

Lemma name_start_parts t a d x : line_parts t a d x → name_start t = length (a ++ d) ∧ drop (path_start t) t = d ++ x.
Proof.
  intros Hp. unfold name_start. rewrite (path_start_parts _ _ _ _ Hp). pose proof (lp_line _ _ _ _ Hp) as ->.
  rewrite drop_app_length, (last_name_parts _ _ _ _ Hp), length_app. done.
Qed.

Lemma head_slash (l : list Z) : head l = Some 47 ↔ ∃ r, l = 47 :: r.
Proof. destruct l as [|c l]; cbn; split; [done|by intros [? ?]|intros [= ->]; by eexists|by intros [r [= -> _]]]. Qed.

Lemma last_slash (l : list Z) : last l = Some 47 ↔ ∃ b, l = b ++ [47].
Proof.
  split; [|intros [b ->]; apply last_snoc]. destruct l as [|c l _] using rev_ind; [done|].
  rewrite last_snoc. intros [= ->]. by eexists.
Qed.

Lemma parent_path_parts (w : X) t a d x full :
  line_parts t a d x → path_directory (working_directory w) d x full → (length full < 256)%nat →
  parent_path w (d ++ x) = Some full.
Proof.
  intros Hp (base & -> & Hb) Hl. unfold parent_path. rewrite (last_name_parts _ _ _ _ Hp), take_app_length.
  destruct Hb as [[Hr ->]|[Hr Hb]].
  - rewrite bool_decide_true by by apply head_slash. by rewrite (proj2 (Nat.ltb_lt _ _)).
  - rewrite bool_decide_false by by rewrite head_slash. destruct Hb as [[Hs ->]|[Hs ->]].
    + rewrite bool_decide_true by by apply last_slash. by rewrite (proj2 (Nat.ltb_lt _ _)).
    + rewrite bool_decide_false by by rewrite last_slash. by rewrite (proj2 (Nat.ltb_lt _ _)).
Qed.

(** C22: Tab completes the line as far as it is determined.  The name [x] of a file at its end is
    extended to all that the names of its directory that begin so have in common, and then
    the whole line to what the commands that begin so have in common; what does not begin
    anything stays.  The directory is that of the path behind the last space, absolute or in
    the working directory.  The candidates are listed, and the line stays in its array. *)
Theorem msh_auto_complete_extends n t a d x (s : console X) b w1 full files w2
    (Ht : Forall (λ c, c ≠ 0) t) (Hne : t ≠ []) (Hlen : (length t < n)%nat) (Hmal : rt_malloc 256 (world s) = Ok (Some b, w1))
    (Hparts : line_parts t a d x) (Hpath : path_directory (working_directory w1) d x full) (Hfull : (length full < 256)%nat)
    (Hdir : read_directory full w1 = Ok (Some files, w2))
    (Hfz : Forall (Forall (λ c, c ≠ 0)) files) (Hfiles : Forall (λ f, (length (a ++ d) + length f < n)%nat) files)
    (Hcmds : Forall (λ m, (length m <= n)%nat) (command_names (X := X))) :
  ∃ x1 p, let t1 := a ++ d ++ x1 in
    let names := filter (λ m, t1 `prefix_of` m) (command_names (X := X)) in
    msh_auto_complete (in_zeros n t) s =
      Ok (in_zeros n p, mk_console (output s ++ listed x x1 files ++ name_lines names) (__msh_state s) w2) ∧
    match x with [] => x1 = [] | _ => completed x1 x (filter (λ f, x `prefix_of` f) files) end ∧
    completed p t1 names.
Proof.
  destruct (name_start_parts _ _ _ _ Hparts) as [En Ed]. pose proof (lp_line _ _ _ _ Hparts) as Et.
  pose proof (auto_complete_run n t s b w1 full files w2 Ht Hne Hlen Hmal) as H. rewrite Ed, En in H.
  specialize (H (parent_path_parts _ _ _ _ _ _ Hparts Hpath Hfull) Hdir Hfz Hfiles Hcmds).
  rewrite Et, app_assoc, take_app_length, drop_app_length in H. rewrite Et, app_assoc.
  destruct H as (x1 & p & H). exists x1, p. by rewrite app_assoc.
Qed.
End Commands.
