(* ===== verification/ShellDemo.v ===== *)
(** The shell of a small system: its line editor and its word shell together, on concrete keys, and what happens
    where the code goes wrong. *)

From Stdlib Require Import ZArith Lia.
From stdpp Require Import numbers base sets list.
From S2P Require Import Prelude Shell ShellSpec Msh MshSpec.
Local Open Scope Z_scope.

(** * A system *)

(** A working directory, the file [a.sh], and the commands that were run. *)
Record small := mk_demo { dir : list Z; script : list Z; log : list (list (list Z)) }.

Definition note (args : list (list Z)) : M (console small) unit :=
  modify (λ s, mk_console (output s) (__msh_state s) (mk_demo (dir (world s)) (script (world s)) (log (world s) ++ [args]))).

(** [echo], which also notes its words, and [exit]. *)
Definition demo_echo : msh_symbol small :=
  mk_symbol (cmd_prefix ++ [101; 99; 104; 111]) [] (λ args,
    note args;; console_printf (default [] (args !! 1%nat) ++ [10]);; mret 0).
Definition demo_exit : msh_symbol small :=
  mk_symbol (cmd_prefix ++ [101; 120; 105; 116]) [] (λ args, note args;; msh_exit args).

#[export] Instance demo_world : MshWorld small := {
  _syscall_table := [demo_echo; demo_exit];
  rt_malloc := λ n, mret (Some (replicate (Z.to_nat n) 165));
  open := λ path, s ← gets script;
    mret (if bool_decide (path = [97; 46; 115; 104]) && negb (bool_decide (s = [])) then 3 else -1);
  read_byte := λ _, s ← gets script;
    match s with [] => mret None | c :: r => modify (λ w, mk_demo (dir w) r (log w));; mret (Some c) end;
  close := λ _, mret tt;
  chdir := λ _, mret (-1);
  working_directory := dir;
  read_directory := λ _, mret (Some [[101; 99; 46; 116]; [101; 99; 104]; [98; 105; 110]]);
  run_expression := λ e l, (if (e : bool) then console_printf [10] else mret tt);; note [c_string l];; console_printf [9; 51; 10];; mret tt;
  list_prefix := λ l, mret l;
  rt_module_exec_cmd := λ _ _ _, mret tt
}.

Definition calm (s : console small) : Prop :=
  Forall printable (dir (world s)) ∧ 37 ∉ dir (world s) ∧ (length (dir (world s)) <= 41)%nat ∧ script (world s) = [].

Lemma shows_printable t : Forall printable t → Forall shows t.
Proof. intros H. eapply Forall_impl; [exact H|]. intros c Hc. by left. Qed.

Lemma shows_log_text t : Forall shows t → Forall shows (log_text t).
Proof.
  intros H. unfold log_text. destruct (_ <=? _)%nat; [done|]. apply Forall_app. split; [by apply Forall_take|].
  constructor; [|constructor]. unfold shows. tauto.
Qed.

Lemma shows_not_found : Forall shows not_found.
Proof. unfold not_found. repeat (constructor; [unfold shows, printable; lia|]). constructor. Qed.

Lemma until_space_printable t : Forall printable t → Forall printable (until_space t).
Proof. induction 1 as [|c t Hc Ht IH]; cbn; [done|]. destruct (c =? 32); [done|by constructor]. Qed.

(** What a line prints, and that it leaves the system quiet. *)
Definition good (m : M (console small) Z) : Prop := ∀ s r s',
  calm s → output s = [] → m s = Ok (r, s') → calm s' ∧ Forall shows (output s').

Lemma good_echo args : Forall (Forall printable) args → good (syscall_func demo_echo args).
Proof.
  intros Ha s r s' Hq Ho [= <- <-]. split; [exact Hq|]. cbn [output]. rewrite Ho. cbn [app]. apply shows_log_text, Forall_app.
  split; [|repeat constructor; by right; right; left]. apply shows_printable. destruct (args !! 1%nat) as [w|] eqn:Hw; [|constructor].
  by eapply Forall_lookup_1 in Ha.
Qed.

Lemma good_exit args : good (syscall_func demo_exit args).
Proof. intros s r s' Hq Ho [= <- <-]. split; [exact Hq|]. cbn. by rewrite Ho. Qed.

(** Without the file no program is found. *)
Lemma program_fails p o b d lg : open_program p (mk_console o b (mk_demo d [] lg)) = Ok ((bin_path ++ p, -1), mk_console o b (mk_demo d [] lg)).
Proof.
  assert (∀ q, world_call (open q) (mk_console o b (mk_demo d [] lg)) = Ok (-1, mk_console o b (mk_demo d [] lg))) as Hopen.
  { intros q. unfold world_call, zoom. cbn [open demo_world]. unfold mbind, M_bind, gets. cbn [world script].
    rewrite (bool_decide_true ([] = [])) by done. cbn [negb]. by rewrite andb_false_r. }
  unfold open_program. rewrite (run_bind _ _ _ _ _ (Hopen p)). change (-1 <? 0) with true. cbv iota.
  by rewrite (run_bind _ _ _ _ _ (Hopen (bin_path ++ p))).
Qed.

Lemma same_line {A} (l : list Z) (m : M splitter A) (s s1 : console small) a : on_line l m s = Ok (a, s1) → s1 = s.
Proof. unfold on_line. destruct (m _) as [[? ?]|]; [|done]. congruence. Qed.

Lemma module_fails l n s r s' :
  script (world s) = [] → msh_exec_module (X := small) l n s = Ok (r, s') → s' = s ∧ (r =? 0) = false.
Proof.
  destruct s as [o b [d sc lg]]. cbn [world script]. intros -> H. unfold msh_exec_module in H.
  destruct (n =? 0); [injection H as <- <-; done|].
  apply bind_ok in H as ([k st] & s1 & Hl & H). apply same_line in Hl as ->. apply bind_ok in H as (m & s1 & [= <- <-] & H).
  apply bind_ok in H as ([q fd] & s1 & Hfd & H). cbn [output __msh_state world] in Hfd. rewrite program_fails in Hfd.
  injection Hfd as <- <- <-. by injection H as <- <-.
Qed.

Lemma script_fails exec fuel l n s r s' :
  script (world s) = [] → msh_exec_script (X := small) exec fuel l n s = Ok (r, s') → s' = s ∧ (r =? 0) = false.
Proof.
  destruct s as [o b [d sc lg]]. cbn [world script]. intros -> H. unfold msh_exec_script in H.
  destruct (n =? 0); [injection H as <- <-; done|].
  apply bind_ok in H as ([k st] & s1 & Hl & H). apply same_line in Hl as ->. apply bind_ok in H as (m & s1 & [= <- <-] & H).
  apply bind_ok in H as (fd & s1 & Hfd & H). assert (fd = -1 ∧ s1 = mk_console o b (mk_demo d [] lg)) as [-> ->].
  { cbn [output __msh_state world] in Hfd. destruct (_ || _); [|by injection Hfd as <- <-].
    apply bind_ok in Hfd as ([q fd1] & s2 & H1 & Hfd). rewrite program_fails in H1. injection H1 as <- <- <-. by injection Hfd as <- <-. }
  by injection H as <- <-.
Qed.

Lemma good_no_command fuel t z : Forall printable t → good (no_command fuel t z).
Proof.
  intros Ht s r s' Hq Ho H. unfold no_command in H. apply bind_ok in H as (m & s1 & Hm & H).
  apply module_fails in Hm as [-> Hm]; [|by apply Hq]. rewrite Hm in H. apply bind_ok in H as (r0 & s1 & Hs & H).
  apply script_fails in Hs as [-> Hr0]; [|by apply Hq]. rewrite Hr0 in H. apply bind_ok in H as (d & s1 & [= <- <-] & H).
  injection H as <- <-. split; [exact Hq|]. cbn [output]. rewrite Ho. cbn [app]. apply shows_log_text, Forall_app.
  split; [by apply shows_printable, until_space_printable|apply shows_not_found].
Qed.

Lemma names_are_ok : Forall name_ok (_syscall_table (X := small)).
Proof. repeat constructor; done. Qed.

Lemma find_demo w i args : find_command (_syscall_table (X := small)) w = Some i → Forall (Forall printable) args → good (syscall_func i args).
Proof.
  cbn [find_command _syscall_table demo_world]. intros H Ha. repeat case_bool_decide; simplify_eq; [by apply good_echo|by apply good_exit].
Qed.

Lemma good_exec fuel t z : Forall printable t → (length t < 79)%nat →
  good (msh_exec (S fuel) (t ++ 0 :: z) (Z.of_nat (length t))).
Proof.
  intros Ht Hlen s r s' Hq Ho. rewrite msh_exec_run; [|apply names_are_ok|by apply printable_nonzero|lia].
  destruct (without_blanks t) as [|c u] eqn:Hu.
  - intros [= <- <-]. split; [done|]. by rewrite Ho.
  - destruct (find_command _ _) as [i|] eqn:Hi.
    + destruct (_ <=? _)%nat; [|done]. intros H. eapply find_demo; [exact Hi| |done|done|exact H]. by apply Forall_words.
    + apply good_no_command; [|done|done]. rewrite <- Hu. by apply Forall_without_blanks.
Qed.

#[export] Instance demo_laws : CommandLaws (console small).
Proof.
  refine {| settled := calm |}.
  - intros w Hw. split_and!; apply Hw.
  - intros t w o w' Ht Hlen Hw H. cbn [Shell.msh_exec msh_commands] in H.
    apply bind_ok in H as ([o1 r] & s1 & H & [= <- <-]). unfold with_output in H. apply bind_ok in H as ([] & s2 & [= <-] & H).
    apply bind_ok in H as (r1 & s3 & Hx & H). injection H as <- <- <-. rewrite array_end in Hx by lia.
    eapply good_exec in Hx; [|done|done|done|done]. destruct Hx as [Hq Hx]. by split.
  - intros t w o w' Ht Hlen Hw H. cbn in H. injection H as <- <-. split; [exact Hw|]. exists [9; 51; 10]. split; [done|].
    repeat (constructor; [unfold shows, printable; lia|]). constructor.
Defined.

(** * Keys *)

(** What a terminal sends, and the keys that may be pressed. *)
Definition key_bytes (k : key) : list Z :=
  match k with
  | Char c => [c] | Left => [27; 91; 68] | Right => [27; 91; 67] | Up => [27; 91; 65] | Down => [27; 91; 66]
  | Backspace => [127] | Enter => [13; 10]
  end.
Definition bytes_of (ks : list key) : list Z := concat (key_bytes <$> ks).

Fixpoint fitsb (ks : list key) (e : editor) : bool :=
  match ks with
  | [] => true
  | k :: ks =>
      match k with Char c => (32 <=? c) && (c <=? 126) && (length (line_text e) <? 78)%nat | _ => true end && fitsb ks (edit k e)
  end.

Lemma fitsb_fits ks e : fitsb ks e = true → fits ks e ∧ keys_typed ks (bytes_of ks).
Proof.
  revert e. induction ks as [|k ks IH]; intros e; [by repeat constructor|]. cbn [fitsb fits]. intros [Hk H]%andb_true_iff.
  apply IH in H as [Hf Ht]. assert (match k with Char c => printable c ∧ (length (line_text e) < 78)%nat | _ => True end) as Hk'.
  { destruct k; try done. rewrite !andb_true_iff, !Z.leb_le, Nat.ltb_lt in Hk. by destruct Hk as [[??] ?]. }
  split; [by split|]. constructor; [|done]. destruct k; constructor. by destruct Hk'.
Qed.

(** Two lines that become [echo hi] and [exit], the second edited in the middle; then an expression, a command from the history, and a line
    that is not ended. *)
Definition demo_keys : list key :=
  (Char <$> [32; 101; 99; 107; 111]) ++ [Left; Backspace; Char 104; Right] ++ (Char <$> [32; 104; 105]) ++ [Enter]
  ++ (Char <$> [101; 120; 105; 116]) ++ [Enter] ++ (Char <$> [49; 43; 50]) ++ [Enter; Up; Up; Up; Down; Backspace; Left; Char 90].

Definition demo_rest : console small := mk_console [] true (mk_demo [47] [] []).
Definition demo_start : system (console small) :=
  match shell_start (finsh_system_init (bytes_of demo_keys) demo_rest) with Ok (_, s) => s | Err _ => finsh_system_init [] demo_rest end.
Definition demo_end : console small :=
  mk_console [] false (mk_demo [47] [] [[[101; 99; 104; 111]; [104; 105]]; [[101; 120; 105; 116]]; [[49; 43; 50; 59]]]).

Lemma demo_quiet : calm demo_rest.
Proof. split_and!; [by repeat constructor|set_solver|cbn; lia|done]. Qed.

Lemma demo_fits : fits demo_keys no_line ∧ keys_typed demo_keys (bytes_of demo_keys).
Proof. apply fitsb_fits. by vm_compute. Qed.

Lemma demo_commands : commands demo_keys no_line demo_rest = Ok (tt, demo_end).
Proof. by vm_compute. Qed.

Lemma demo_agrees : agrees demo_start no_line ∧ rx demo_start = bytes_of demo_keys ∧ rest demo_start = demo_rest.
Proof.
  pose proof (wp_shell_start (bytes_of demo_keys) demo_rest
    (λ _ s, agrees s no_line ∧ rx s = bytes_of demo_keys ∧ rest s = demo_rest) demo_quiet ltac:(done)) as H.
  unfold wp in H. unfold demo_start. by destruct (shell_start _) as [[? s]|].
Qed.

Lemma shell_implements_editor_witness :
  wp (rounds 40) demo_start (λ _ s', rx s' = [] ∧ agrees s' (edits demo_keys no_line) ∧ rest s' = demo_end).
Proof.
  apply (shell_implements_editor demo_keys no_line demo_start 40 demo_end).
  - rewrite (proj1 (proj2 demo_agrees)). apply demo_fits.
  - apply demo_fits.
  - apply demo_agrees.
  - rewrite (proj2 (proj2 demo_agrees)). apply demo_commands.
  - vm_compute. lia.
Defined.

Lemma shell_shows_line_witness :
  wp (shell_start;; rounds 40) (finsh_system_init (bytes_of demo_keys) demo_rest) (λ _ s',
    let e := edits demo_keys no_line in
    ∃ j k, display (tx s') = cursor (j ++ prompt demo_end ++ before e) (after e ++ replicate k 32)).
Proof.
  apply (shell_shows_line demo_keys (bytes_of demo_keys) 40 demo_rest demo_end).
  - apply demo_fits.
  - apply demo_fits.
  - apply demo_quiet.
  - apply demo_commands.
  - vm_compute. lia.
Defined.

(** The line that is edited at the end: a command of the history, in which a character was deleted and one inserted. *)
Example demo_line :
  let e := edits demo_keys no_line in before e = [101; 120; 90] ∧ after e = [105] ∧ length (hist e) = 3%nat ∧ hpos e = 1%nat.
Proof. by vm_compute. Qed.

(** * Words and commands *)

(** [echo "a b" c] *)
Definition demo_text : list Z := [101; 99; 104; 111; 32; 34; 97; 32; 98; 34; 32; 99].

Lemma demo_text_nonzero : Forall (λ c, c ≠ 0) demo_text.
Proof. by apply (bool_decide_unpack _); vm_compute. Qed.

Lemma msh_split_words_witness :
  wp (msh_split (Z.of_nat (length demo_text))) (mk_splitter (demo_text ++ 0 :: [65]) [])
    (λ argc s, argc = Z.of_nat (length (words demo_text)) ∧ words_at (cmd s) (argv s) (words demo_text)).
Proof. apply (msh_split_words demo_text [65] demo_text_nonzero). vm_compute. lia. Defined.

Example demo_words : words demo_text = [[101; 99; 104; 111]; [97; 32; 98]; [99]].
Proof. by vm_compute. Qed.

(** Eleven words of one letter. *)
Definition eleven_words : list Z := concat (replicate 11 [97; 32]).

Lemma msh_split_overflows_witness :
  msh_split (Z.of_nat (length eleven_words)) (mk_splitter (eleven_words ++ 0 :: []) []) = Err F_pointer.
Proof.
  apply (msh_split_overflows eleven_words []).
  - by apply (bool_decide_unpack _); vm_compute.
  - vm_compute. lia.
Defined.

Lemma msh_exec_spec_witness :
  let l := 32 :: demo_text in
  msh_exec (X := small) 2 (l ++ 0 :: []) (Z.of_nat (length l)) demo_rest =
    match without_blanks l with
    | [] => Ok (0, demo_rest)
    | _ =>
        match find_command _syscall_table (plain_word (without_blanks l)).1 with
        | Some i => if (length (words l) <=? 10)%nat then syscall_func i (words l) demo_rest else Err F_pointer
        | None => no_command 1 (without_blanks l) [] demo_rest
        end
    end.
Proof.
  intros l. apply (msh_exec_spec 1 l [] demo_rest).
  - exact names_are_ok.
  - constructor; [done|exact demo_text_nonzero].
  - vm_compute. done.
Defined.

(** It prints the second word. *)
Example demo_echo_runs : ∃ w, msh_exec (X := small) 2 (demo_text ++ [0]) 12 demo_rest = Ok (0, mk_console [97; 32; 98; 10] true w).
Proof. eexists. by vm_compute. Qed.

(** [ec] is the beginning of two files, [ec.t] and [ech], and of a command. *)
Lemma msh_auto_complete_extends_witness :
  let files := [[101; 99; 46; 116]; [101; 99; 104]; [98; 105; 110]] in
  let x := [101; 99] in
  ∃ x1 p, let t1 := [108; 115; 32] ++ [47] ++ x1 in
    let names := filter (λ m, t1 `prefix_of` m) (command_names (X := small)) in
    msh_auto_complete (in_zeros 80 [108; 115; 32; 47; 101; 99]) demo_rest =
      Ok (in_zeros 80 p, mk_console (output demo_rest ++ listed x x1 files ++ name_lines names) (__msh_state demo_rest) (world demo_rest)) ∧
    match x with [] => x1 = [] | _ => completed x1 x (filter (λ f, x `prefix_of` f) files) end ∧
    completed p t1 names.
Proof.
  apply (msh_auto_complete_extends 80 [108; 115; 32; 47; 101; 99] [108; 115; 32] [47] [101; 99] demo_rest (replicate 256 165)
    (world demo_rest) [47] [[101; 99; 46; 116]; [101; 99; 104]; [98; 105; 110]] (world demo_rest)).
  - by repeat constructor.
  - done.
  - cbn. lia.
  - reflexivity.
  - split; [reflexivity| |split; [right; by exists []|by apply (bool_decide_unpack _); vm_compute]].
    right. split; [by exists 108, [115]|by apply (bool_decide_unpack _); vm_compute].
  - exists []. split; [reflexivity|]. left. split; [by exists [101; 99]|reflexivity].
  - cbn. lia.
  - reflexivity.
  - by apply (bool_decide_unpack _); vm_compute.
  - by apply (bool_decide_unpack _); vm_compute.
  - by apply (bool_decide_unpack _); vm_compute.
Defined.

(** The files are listed, and then the command completes the line. *)
Example demo_completion : ∃ s, msh_auto_complete (in_zeros 80 [101; 99]) demo_rest = Ok (in_zeros 80 [101; 99; 104; 111], s) ∧
  output s = [101; 99; 46; 116; 10; 101; 99; 104; 10; 101; 99; 104; 111; 10].
Proof. eexists. by vm_compute. Qed.

(** * Where the code goes wrong *)

Definition line_after (n : nat) (s : system (console small)) : res (list Z * nat) :=
  match rounds n s with Ok (_, s') => Ok (c_string (line (shell s')), length (log (world (rest s')))) | Err e => Err e end.

(** A carriage return with another character behind it is lost: no command is run, and the line goes on. *)
Example return_is_lost : line_after 1 (finsh_system_init [97; 13; 98] demo_rest) = Ok ([97; 98], 0%nat).
Proof. by vm_compute. Qed.

(** Eighty characters fill the array, which has no end then: the insertion of a character prints what is behind it. *)
Example full_line_is_read_beyond :
  (shell_start;; shell_round) (finsh_system_init (replicate 80 97 ++ [98; 27; 91; 68; 99]) demo_rest) = Err F_pointer.
Proof. by vm_compute. Qed.

(** The directory is part of a format. *)
Example percent_in_prompt :
  shell_start (finsh_system_init [] (mk_console [] true (mk_demo [47; 37; 100] [] []))) = Err F_undefined.
Proof. by vm_compute. Qed.

(** A long directory leaves no room for the end of the prompt. *)
Example long_prompt :
  shell_start (finsh_system_init [] (mk_console [] true (mk_demo (replicate 125 97) [] []))) = Err F_pointer.
Proof. by vm_compute. Qed.

(** A line of a script that fills the buffer has no end. *)
Example long_script_line :
  msh_exec 3 [97; 46; 115; 104; 0] 4 (mk_console [] true (mk_demo [47] (replicate 128 97) [])) = Err F_pointer.
Proof. by vm_compute. Qed.

(** Three is not FINSH_OPTION_ECHO, and turns the echo on: only the lowest bit is kept. *)
Example echo_mode_three : ∃ s, (finsh_set_echo 3;; finsh_get_echo) (finsh_system_init [] demo_rest) = Ok (1, s).
Proof. eexists. by vm_compute. Qed.

(** The name of a file is copied into the line wherever the line ends. *)
Example long_completion : msh_auto_complete (in_zeros 80 (replicate 77 97 ++ [32; 101])) demo_rest = Err F_pointer.
Proof. by vm_compute. Qed.

(** Of a text that is cut, [rt_kprintf] sends the zero at its end, too. *)
Example cut_text_ends_with_zero : log_text (replicate 127 97) = replicate 126 97 ++ [0].
Proof. by vm_compute. Qed.
