(* ===== verification/MemPoolSpec.v ===== *)
(** The memory pools of [src/mempool.c] as allocators: the chain of free blocks, what
    allocating and freeing do on every path, and what clients may rely on. *)

From Stdlib Require Import ZArith Lia.
From stdpp Require Import numbers strings base gmap list.
From S2P Require Import Prelude RtList Bitmap Kernel Scheduler Object Timer Thread Ipc Message MemPool.
From S2P Require Import Invariant ThreadSpec Check Demo TimerSpec ThreadRun IpcSpec KernelSpec.
Local Open Scope Z_scope.

(** * The invariant *)

(** The free blocks [l], chained from the pointer [a] to null. *)
Fixpoint free_chain (mem : gmap Z mp_word) (a : Z) (l : list Z) : Prop :=
  match l with
  | [] => a = 0
  | b :: l => a = b ∧ b ≠ 0 ∧ ∃ c, mem !! b = Some (W_next c) ∧ free_chain mem c l
  end.

Lemma free_chain_insert mem a l b w :
  b ∉ l → free_chain mem a l → free_chain (<[b := w]> mem) a l.
Proof.
  revert a. induction l as [|c l IH]; [done|]. intros a Hb (-> & Hn & d & Hd & Hc).
  split; [done|]. split; [done|]. exists d. rewrite lookup_insert_ne by set_solver.
  split; [done|]. apply IH; [set_solver|done].
Qed.

(** The header of block [i] of the pool. *)
Definition header_at (p : rt_mempool) (i : Z) : Z :=
  mp_start_address p + i * (mp_block_size p + sizeof_pointer).

(** The pool lies in the address space. *)
Record mp_geometry (p : rt_mempool) : Prop := {
  pg_start : 0 < mp_start_address p;
  pg_block : 0 < mp_block_size p;
  pg_end : mp_start_address p + block_total_count p * (mp_block_size p + sizeof_pointer) <= 2 ^ 32
}.

(** [fr] are the headers of the free blocks, in the order of the chain, [al] those of
    the allocated ones. *)
Record mp_inv (k : kernel) (m : nat) (p : rt_mempool) (fr al : list Z) : Prop := {
  pi_pool : mempools k !! m = Some p;
  pi_geometry : mp_geometry p;
  pi_free : free_chain (mp_mem k) (block_list p) fr;
  pi_alloc : ∀ a, a ∈ al → mp_mem k !! a = Some (W_pool m);
  pi_nodup : NoDup (fr ++ al);
  pi_free_count : block_free_count p = Z.of_nat (length fr);
  pi_total : block_total_count p = Z.of_nat (length (fr ++ al));
  pi_blocks : ∀ a, a ∈ fr ++ al → ∃ i, 0 <= i < block_total_count p ∧ a = header_at p i
}.

Definition with_pool (m : nat) (p : rt_mempool) (mem : gmap Z mp_word) (k : kernel) : kernel :=
  set_mp_mem mem (set_mempools (<[m := p]> (mempools k)) k).

Lemma running_with_pool k L m p mem : running k L → running (with_pool m p mem k) L.
Proof. intros H. split; apply H. Qed.

Lemma header_range k m p fr al a :
  mp_inv k m p fr al → a ∈ fr ++ al → 0 < a ∧ a + sizeof_pointer + mp_block_size p <= 2 ^ 32.
Proof.
  intros [_ [? ? ?] _ _ _ _ _ Hb] (i & Hi & ->)%Hb. unfold header_at, sizeof_pointer in *. nia.
Qed.

(** The memory of distinct blocks does not overlap. *)
Lemma blocks_disjoint k m p fr al a b :
  mp_inv k m p fr al → a ∈ fr ++ al → b ∈ fr ++ al → a ≠ b →
  a + sizeof_pointer + mp_block_size p <= b ∨ b + sizeof_pointer + mp_block_size p <= a.
Proof.
  intros [_ [? ? ?] _ _ _ _ _ Hb] (i & Hi & ->)%Hb (j & Hj & ->)%Hb Hne.
  unfold header_at, sizeof_pointer in *.
  assert (i < j ∨ j < i) as [?|?] by (destruct (Z.lt_trichotomy i j) as [?|[->|?]]; [by left|done|by right]).
  - left. nia.
  - right. nia.
Qed.

(** A step that leaves the pools alone keeps them. *)
Lemma mp_inv_frame k k' m p fr al :
  mp_inv k m p fr al → mempools k' = mempools k → mp_mem k' = mp_mem k → mp_inv k' m p fr al.
Proof. intros [] E1 E2. by split; rewrite ?E1, ?E2. Qed.

(** The count of waiting threads is not part of the invariant. *)
Lemma mp_inv_count k m p fr al n :
  mp_inv k m p fr al →
  mp_inv (with_pool m (set_suspend_thread_count n p) (mp_mem k) k) m (set_suspend_thread_count n p) fr al.
Proof. intros [? [] ? ? ? ? ? ?]. split; try done. apply lookup_insert_eq. Qed.

(** * Allocating and freeing a block *)

Section blocks.
Context {k : kernel} {m : nat} {p : rt_mempool} {fr al : list Z}.
Hypothesis Hp : mp_inv k m p fr al.

Lemma u32_block a : a ∈ fr ++ al →
  u32 (a + sizeof_pointer) = a + sizeof_pointer ∧ u32 (a + sizeof_pointer - sizeof_pointer) = a.
Proof.
  intros Ha. destruct (header_range _ _ _ _ _ _ Hp Ha) as [H1 H2].
  pose proof (pg_block _ (pi_geometry _ _ _ _ _ Hp)). unfold wrap, sizeof_pointer in *.
  split; rewrite Z.mod_small; lia.
Qed.

Definition taken (a : Z) : rt_mempool :=
  set_block_list a (set_block_free_count (u32 (block_free_count p - 1)) p).

Lemma wp_mp_take a fr' :
  fr = a :: fr' →
  wp (mp_take m) k (λ b k', b = a + sizeof_pointer ∧ ∃ p',
    k' = with_pool m p' (<[a := W_pool m]> (mp_mem k)) k ∧
    suspend_thread_count p' = suspend_thread_count p ∧ mp_block_size p' = mp_block_size p ∧
    block_total_count p' = block_total_count p ∧ mp_start_address p' = mp_start_address p ∧
    mp_inv k' m p' fr' (a :: al)).
Proof.
  intros E. destruct (u32_block a) as [Hu _]; [set_solver|].
  destruct Hp as [Hm Hg Hf Ha Hnd Hc Ht Hb]. rewrite E in *. destruct Hf as (Hba & Hn & c & Hw & Hf).
  apply NoDup_cons in Hnd as [Hna Hnd].
  unfold mp_take. wp_step. eapply wp_upd_mp; [done|]. wp_step. eapply wp_get_mp; [apply lookup_insert_eq|].
  simpl. rewrite Hba. wp_step. apply wp_assert; [by apply negb_true_iff, Z.eqb_neq|].
  wp_step. unfold get_word. wp_step. wp_step. eapply wp_deref; [exact Hw|].
  wp_step. eapply wp_upd_mp; [apply lookup_insert_eq|]. wp_step. unfold put_word. wp_step. wp_step.
  split; [done|]. exists (taken c).
  split; [unfold with_pool, set_mempools, set_mp_mem; simpl; by rewrite insert_insert_eq|].
  split_and!; [done..|]. split; simpl.
  - rewrite insert_insert_eq. apply lookup_insert_eq.
  - by destruct Hg.
  - apply free_chain_insert; [set_solver|done].
  - intros b [->|Hbal]%elem_of_cons; [by rewrite lookup_insert_eq|].
    rewrite lookup_insert_ne by set_solver. by apply Ha.
  - rewrite <- Permutation_middle. by constructor.
  - rewrite Hc. simpl. rewrite length_app in Ht. simpl in Ht.
    assert (block_total_count p < 2 ^ 32).
    { destruct Hg as [? ? Hend]. unfold sizeof_pointer in *. nia. }
    unfold wrap. rewrite Z.mod_small by lia. lia.
  - rewrite Ht, !length_app. simpl. lia.
  - intros b Hbin. apply Hb. rewrite elem_of_app, elem_of_cons in Hbin. set_solver.
Qed.

(** Linking a freed block. *)
Definition freed (a : Z) : rt_mempool :=
  set_block_list a (set_block_free_count (u32 (block_free_count p + 1)) p).

Lemma mp_inv_freed a :
  a ∈ al →
  mp_inv (with_pool m (freed a) (<[a := W_next (block_list p)]> (mp_mem k)) k) m (freed a)
    (a :: fr) (filter (λ b, b ≠ a) al).
Proof.
  intros Hin. assert (a ∈ fr ++ al) as Hin' by set_solver.
  destruct (header_range _ _ _ _ _ _ Hp Hin') as [Hpos _].
  destruct Hp as [Hm Hg Hf Ha Hnd Hc Ht Hb].
  destruct (list_elem_of_split _ _ Hin) as (l1 & l2 & El).
  apply NoDup_app in Hnd as (Hnf & Hd & Hna). rewrite El in Hna |- *. rewrite filter_ne_split by done.
  assert (al ≡ₚ a :: l1 ++ l2) as Hperm by (rewrite El; symmetry; apply Permutation_middle).
  assert (fr ++ al ≡ₚ (a :: fr) ++ l1 ++ l2) as Hpp.
  { rewrite Hperm. simpl. symmetry. apply Permutation_middle. }
  split; simpl.
  - apply lookup_insert_eq.
  - by destruct Hg.
  - split_and!; [done|lia|]. exists (block_list p). rewrite lookup_insert_eq. split; [done|].
    apply free_chain_insert; [|done]. intros Hafr. by apply (Hd a).
  - intros b Hbin. rewrite lookup_insert_ne; [apply Ha; rewrite El; set_solver|].
    intros <-. assert (NoDup (a :: l1 ++ l2)) as Hnd2 by by rewrite Permutation_middle.
    by apply NoDup_cons in Hnd2 as [? _].
  - change (NoDup ((a :: fr) ++ l1 ++ l2)). rewrite <- Hpp, El.
    apply NoDup_app. split_and!; [done| |done]. by rewrite <- El.
  - rewrite Hc. rewrite Hpp in Ht. simpl in Ht. rewrite !length_app in Ht.
    assert (block_total_count p < 2 ^ 32).
    { destruct Hg as [? ? Hend]. unfold sizeof_pointer in *. nia. }
    unfold wrap. rewrite Z.mod_small by lia. lia.
  - rewrite Ht, Hpp. done.
  - intros b Hbin. apply Hb. rewrite Hpp. done.
Qed.
End blocks.

(** * The calls *)

Definition mp_list (m : nat) : node := N_suspend (O_mp m).

(** The lists after [t] has joined the waiting threads, at the front. *)
Definition waiting_first (hd : node) (t : nat) (L : lists) : lists :=
  <[hd := N_tlist <$> t :: wait_queue L hd]> (delete (N_tlist t) (detach (N_tlist t) L)).

Lemma wait_queue_waiting_first hd t L time k tms :
  is_wait hd = true →
  wait_queue (blocked_on (waiting_first hd t L) time t k tms) hd = t :: wait_queue L hd.
Proof.
  intros Hw. apply wait_queue_fmap. unfold blocked_on.
  assert (waiting_first hd t L !! hd = Some (N_tlist <$> t :: wait_queue L hd)) as HW
    by apply lookup_insert_eq.
  case_match; [|done]. unfold timer_started. rewrite lookup_insert_ne by by destruct hd.
  rewrite lookup_delete_ne, lookup_detach_ne, HW by by destruct hd.
  cbn [fmap option_fmap option_map]. rewrite filter_ne_id; [done|]. intros Hin. by apply list_elem_of_fmap in Hin as (? & ? & _).
Qed.

(** The pool while [n] threads wait. *)
Definition pool_waiting (k : kernel) (m : nat) (p : rt_mempool) (n : Z) : kernel :=
  with_pool m (set_suspend_thread_count n p) (mp_mem k) k.

Lemma wp_mp_wait k L m p t x time :
  running k L → mempools k !! m = Some p → is_Some (L !! mp_list m) →
  threads k !! t = Some x → stat x = RT_THREAD_READY → t ≠ idle → time < RT_TICK_MAX / 2 →
  let k1 := pool_waiting k m p (u32 (suspend_thread_count p + 1)) in
  wp (mp_wait m t time) k (λ r k',
    r = (if 0 <? time then rt_tick k else 0) ∧
    gives_up (waiting_first (mp_list m) t L) time t x k1 k').
Proof.
  intros Hrun Hm [l Hl] Hx Hs Hid Htime k1. pose proof (rn_inv _ _ Hrun) as Hinv. unfold mp_wait.
  wp_step. wp_use (wp_thread_suspend k L t x Hinv) as (_ & Hq & Ht & Htm & Hinv1); [done..|].
  rename st into k2. set (L1 := detach (N_tlist t) L) in *.
  pose proof (wait_list_nodes L (mp_list m) l (ko_typed _ _ _ _ _ _ Hinv) eq_refl Hl) as El.
  assert (L1 !! mp_list m = Some l) as Hl1.
  { apply (lookup_detach_wait k L _ l t x); [done..|congruence]. }
  wp_step. eapply wp_on_heap.
  { eapply (insert_after_head _ L1); [apply Hinv1|exact Hl1|apply lookup_detach_eq|done]. }
  intros ? h Hr. wp_step. eapply wp_upd_mp.
  { simpl. rewrite (fr_mempools _ _ (qt_frame _ _ Hq)). exact Hm. }
  match goal with |- wp _ ?s _ => set (k3 := s) end.
  assert (kinv k3 (waiting_first (mp_list m) t L)) as Hinv3.
  { unfold k3, waiting_first. rewrite fmap_cons, <- El. fold L1.
    eapply (kern_ok_wait Hinv1 h t (set_stat RT_THREAD_SUSPEND x) (mp_list m) [] l); [done|done| | |done|done].
    - apply lookup_detach_eq.
    - rewrite Ht. apply lookup_insert_eq. }
  eapply wp_mono; [apply (wp_give_up k1 L k3 (waiting_first (mp_list m) t L) t x time)|].
  - by apply running_with_pool.
  - done.
  - done.
  - done.
  - destruct Hq as [[] ? ? ?]. split; [|done..]. split; try done.
    + unfold k3, k1, pool_waiting. simpl. by rewrite fr_mempools.
  - done.
  - done.
  - done.
  - intros r k' [-> H]. done.
Qed.

Section calls.
Context {k : kernel} {L : lists} {m : nat} {p : rt_mempool} {fr al : list Z}.
Hypothesis Hrun : running k L.
Hypothesis HL : is_Some (L !! mp_list m).
Hypothesis Hp : mp_inv k m p fr al.

Lemma mp_alloc_some fuel time a fr' :
  fr = a :: fr' →
  wp (rt_mp_alloc (S fuel) m time) k (λ out k', out = Return (a + sizeof_pointer) ∧ ∃ p',
    k' = with_pool m p' (<[a := W_pool m]> (mp_mem k)) k ∧
    suspend_thread_count p' = suspend_thread_count p ∧ mp_block_size p' = mp_block_size p ∧
    block_total_count p' = block_total_count p ∧ mp_start_address p' = mp_start_address p ∧
    mp_inv k' m p' fr' (a :: al)).
Proof.
  intros E. pose proof (pi_free_count _ _ _ _ _ Hp) as Hc. rewrite E in Hc. simpl in Hc.
  unfold rt_mp_alloc, rt_thread_self. do 4 wp_step. cbn [mp_alloc_loop]. wp_step.
  eapply wp_get_mp; [apply Hp|]. rewrite (proj2 (Z.eqb_neq _ _)) by lia.
  wp_step. eapply wp_mono; [by apply (wp_mp_take Hp a fr')|]. intros b k' [-> H]. by wp_step.
Qed.

Lemma mp_alloc_empty fuel t y :
  fr = [] → may_block k t y →
  wp (rt_mp_alloc (S fuel) m 0) k (λ out k', out = Return 0 ∧ k' = with_error t (- RT_ETIMEOUT) y k).
Proof.
  intros E [Hc Hy _ _ Hn]. pose proof (pi_free_count _ _ _ _ _ Hp) as Hfc. rewrite E in Hfc. simpl in Hfc.
  unfold rt_mp_alloc, rt_thread_self. do 4 wp_step. cbn [mp_alloc_loop]. wp_step.
  eapply wp_get_mp; [apply Hp|]. rewrite Hfc. simpl. wp_step. unfold rt_set_errno. wp_step. wp_step.
  rewrite Hn, Hc. simpl. eapply wp_upd_thread; [done|]. by wp_step.
Qed.

Lemma mp_alloc_wait fuel t y time :
  fr = [] → may_block k t y → time ≠ 0 → time < RT_TICK_MAX / 2 →
  let k1 := pool_waiting (with_error t RT_EOK y k) m p (u32 (suspend_thread_count p + 1)) in
  wp (rt_mp_alloc (S fuel) m time) k (λ out k',
    gives_up (waiting_first (mp_list m) t L) time t (set_error RT_EOK y) k1 k' ∧
    out = Resched (
      y ← get_thread t;
      if negb (error y =? RT_EOK) then mret (Return 0)
      else
        now ← rt_tick_get;
        mp_alloc_loop fuel m (Some t)
          (remaining_timeout time (if 0 <? time then rt_tick k else 0) now))).
Proof.
  intros E [Hc Hy Hs Hid Hn] Ht0 Htime k1.
  pose proof (pi_free_count _ _ _ _ _ Hp) as Hfc. rewrite E in Hfc. simpl in Hfc.
  unfold rt_mp_alloc, rt_thread_self. do 4 wp_step. cbn [mp_alloc_loop]. wp_step.
  eapply wp_get_mp; [apply Hp|]. replace (block_free_count p) with 0 by lia.
  rewrite (proj2 (Z.eqb_neq _ _) Ht0). change (0 =? 0) with true. cbv iota.
  wp_step. unfold RT_DEBUG_NOT_IN_INTERRUPT. wp_step. wp_step. apply wp_assert; [by rewrite Hn|].
  rewrite Hc. wp_step. wp_step. wp_step. eapply wp_upd_thread; [done|].
  wp_step. wp_use (wp_mp_wait (with_error t RT_EOK y k) L m p t (set_error RT_EOK y) time) as [-> Hg].
  - by apply running_with_error.
  - apply Hp.
  - done.
  - apply lookup_insert_eq.
  - done.
  - done.
  - done.
  - wp_step. done.
Qed.

(** The threads after a block has come back: nobody waits, or the first one is woken. *)
Definition served (k' : kernel) (L' : lists) (p' : rt_mempool) : Prop :=
  match wait_queue L (mp_list m) with
  | [] => threads k' = threads k ∧ rt_current_thread k' = rt_current_thread k ∧ L' = L
  | u :: q => ∃ z, threads k !! u = Some z ∧ stat z = RT_THREAD_SUSPEND ∧
      L' = resumed u (current_priority z) L ∧ wait_queue L' (mp_list m) = q ∧
      threads k' = <[u := set_stat RT_THREAD_READY (set_error RT_EOK z)]> (threads k) ∧
      rt_current_thread k' = elected k L'
  end ∧ suspend_thread_count p' = Z.of_nat (length (wait_queue L' (mp_list m))).

Lemma wp_mp_put a :
  a ∈ al →
  wp (mp_put (a + sizeof_pointer)) k (λ m' k', m' = m ∧
    k' = with_pool m (@freed p a) (<[a := W_next (block_list p)]> (mp_mem k)) k).
Proof.
  clear Hrun HL. intros Ha. unfold mp_put. destruct (u32_block Hp a) as [_ Hu]; [set_solver|]. rewrite Hu.
  wp_step. unfold get_word. wp_step. wp_step. eapply wp_deref; [by apply (pi_alloc _ _ _ _ _ Hp)|].
  wp_step. wp_step. wp_step. eapply wp_upd_mp; [apply Hp|]. wp_step. eapply wp_get_mp; [apply lookup_insert_eq|].
  wp_step. unfold put_word. wp_step. wp_step. eapply wp_upd_mp; [apply lookup_insert_eq|]. wp_step.
  split; [done|]. unfold with_pool, set_mempools, set_mp_mem. simpl. by rewrite insert_insert_eq.
Qed.

(** Without waiting threads a block comes back and nothing else happens. *)
Lemma mp_free_quiet a :
  a ∈ al → suspend_thread_count p = 0 →
  wp (rt_mp_free (a + sizeof_pointer)) k (λ _ k',
    k' = with_pool m (@freed p a) (<[a := W_next (block_list p)]> (mp_mem k)) k).
Proof.
  clear Hrun HL. intros Ha Hc. unfold rt_mp_free. wp_step. wp_use (wp_mp_put a Ha) as [-> ->].
  wp_step. eapply wp_get_mp; [apply lookup_insert_eq|].
  change (suspend_thread_count (@freed p a)) with (suspend_thread_count p). rewrite Hc. simpl. by wp_step.
Qed.

(** Threads are counted as waiting, but none is on the list: the head of the list is
    taken for a thread. *)
Lemma mp_free_wild a :
  a ∈ al → 0 < suspend_thread_count p → wait_queue L (mp_list m) = [] →
  rt_mp_free (a + sizeof_pointer) k = Err F_pointer.
Proof.
  intros Ha Hc Hq. destruct HL as [l Hl].
  pose proof (wait_list_nodes L (mp_list m) l (ko_typed _ _ _ _ _ _ (rn_inv _ _ Hrun)) eq_refl Hl) as El.
  rewrite Hq in El. simpl in El. subst l. unfold rt_mp_free.
  apply err_bind. wp_use (wp_mp_put a Ha) as [-> ->].
  apply err_bind. eapply wp_get_mp; [apply lookup_insert_eq|].
  change (suspend_thread_count (@freed p a)) with (suspend_thread_count p).
  rewrite (proj2 (Z.ltb_lt _ _) Hc). apply err_bind.
  eapply wp_rd_next_kernel; [apply (rn_inv _ _ (running_with_pool _ _ _ _ _ Hrun))|exact Hl|]. done.
Qed.

Lemma mp_free_block a :
  a ∈ al → suspend_thread_count p = Z.of_nat (length (wait_queue L (mp_list m))) →
  suspend_thread_count p < 2 ^ 32 →
  wp (rt_mp_free (a + sizeof_pointer)) k (λ _ k', ∃ p' L',
    running k' L' ∧ is_Some (L' !! mp_list m) ∧ mp_inv k' m p' (a :: fr) (filter (λ b, b ≠ a) al) ∧
    mp_block_size p' = mp_block_size p ∧ block_total_count p' = block_total_count p ∧
    mp_start_address p' = mp_start_address p ∧ served k' L' p').
Proof.
  intros Ha Hcount Hbound. unfold rt_mp_free. wp_step. wp_use (wp_mp_put a Ha) as [-> ->]. pose proof (mp_inv_freed Hp a Ha) as Hp1.
  set (k1 := with_pool m (@freed p a) (<[a := W_next (block_list p)]> (mp_mem k)) k) in *.
  assert (running k1 L) as Hrun1 by by apply running_with_pool.
  wp_step. eapply wp_get_mp; [apply Hp1|]. unfold served.
  change (suspend_thread_count (@freed p a)) with (suspend_thread_count p). rewrite Hcount.
  destruct (wait_queue L (mp_list m)) as [|u q] eqn:Hq.
  - simpl. wp_step. exists (@freed p a), L. split_and!; try done. by rewrite Hq.
  - rewrite (proj2 (Z.ltb_lt _ _)) by (simpl; lia).
    destruct (wait_head k1 L (mp_list m) u q (rn_inv _ _ Hrun1) eq_refl Hq) as (Hl & Hnd & z & Hz & Hs).
    wp_step. eapply wp_rd_next_kernel; [apply (rn_inv _ _ Hrun1)|exact Hl|]. simpl.
    wp_step. wp_step. wp_step. eapply wp_upd_thread; [exact Hz|].
    pose proof (running_with_error k1 L u z RT_EOK Hrun1 Hz) as Hrun2.
    fold (with_error u RT_EOK z k1). set (k2 := with_error u RT_EOK z k1) in *.
    wp_step. wp_use (wp_thread_resume k2 L u (set_error RT_EOK z)) as (_ & Hqt & Ht & Htm & Hk);
      [apply Hrun2|apply lookup_insert_eq|done|]. rename st into k3.
    simpl in Ht, Hk. rewrite insert_insert_eq in Ht.
    assert (mempools k3 = mempools k1) as Emp by by rewrite (fr_mempools _ _ (qt_frame _ _ Hqt)).
    assert (mp_mem k3 = mp_mem k1) as Emm by by rewrite (fr_mp_mem _ _ (qt_frame _ _ Hqt)).
    wp_step. eapply wp_upd_mp; [rewrite Emp; apply Hp1|].
    pose proof (mp_inv_count _ _ _ _ _ (u32 (suspend_thread_count (@freed p a) - 1))
      (mp_inv_frame _ k3 _ _ _ _ Hp1 Emp Emm)) as Hp4.
    set (p4 := set_suspend_thread_count _ _) in Hp4.
    match goal with |- wp _ ?s _ => replace s with (with_pool m p4 (mp_mem k3) k3) end;
      [|by destruct k3].
    assert (running k3 (resumed u (current_priority z) L)) as Hrun3.
    { eapply (running_resumed k2 k3 L u (set_error RT_EOK z)); [done|done|apply lookup_insert_eq| |done].
      rewrite Ht. unfold k2. simpl. by rewrite insert_insert_eq. }
    pose proof (running_with_pool _ _ m p4 (mp_mem k3) Hrun3) as Hrun4.
    wp_use (wp_schedule _ _ Hrun4) as (Hr5 & [Hf5 Hh Ho Hth Htm5 Hg5] & Hc5).
    assert (wait_queue (resumed u (current_priority z) L) (mp_list m) = q) as Hq'.
    { rewrite wait_queue_resumed, Hq by (apply (rn_inv _ _ Hrun) || done). by apply (filter_ne_split u []). }
    exists p4, (resumed u (current_priority z) L). split_and!; [done|by apply is_Some_resumed| |done..| |].
    + eapply mp_inv_frame; [exact Hp4|apply (fr_mempools _ _ Hf5)|apply (fr_mp_mem _ _ Hf5)].
    + exists z. split_and!; [done|done|done|done|by rewrite Hth|].
      rewrite Hc5. unfold elected. simpl.
      by rewrite (qt_current _ _ Hqt), (fr_lock _ _ (qt_frame _ _ Hqt)).
    + rewrite Hq'. unfold p4. simpl. rewrite Hcount. simpl. rewrite Hcount in Hbound. simpl in Hbound.
      unfold wrap. rewrite Z.mod_small by lia. lia.
Qed.
End calls.

(** * Set-up *)

Section setup.
Context {start bs count : Z}.
Hypotheses (Hstart : 0 < start) (Hbs : 0 < bs) (Hcount : 0 < count)
  (Hend : start + count * (bs + sizeof_pointer) <= 2 ^ 32).

Let hdr (i : Z) : Z := start + i * (bs + sizeof_pointer).

Lemma mp_slot_hdr i : 0 <= i < count → mp_slot start bs i = hdr i.
Proof using Hstart Hbs Hcount Hend.
  intros Hi. unfold mp_slot, hdr, sizeof_pointer, wrap in *.
  rewrite (Z.mod_small (bs + 4)) by nia. apply Z.mod_small. nia.
Qed.

Lemma hdr_inj i j : hdr i = hdr j → i = j.
Proof using Hbs. unfold hdr, sizeof_pointer. nia. Qed.

Lemma wp_mp_link_blocks n off k (Q : Z → kernel → Prop) :
  0 <= off → off + Z.of_nat n <= count →
  (∀ mem, (∀ i, off <= i < off + Z.of_nat n → mem !! hdr i = Some (W_next (mp_slot start bs (i + 1)))) →
          (∀ i, 0 <= i < off → mem !! hdr i = mp_mem k !! hdr i) →
          Q (off + Z.of_nat n) (set_mp_mem mem k)) →
  wp (mp_link_blocks start bs off n) k Q.
Proof using Hstart Hbs Hcount Hend.
  revert off k. induction n as [|n IH]; intros off k Hoff Hn HQ; simpl.
  - wp_step. replace k with (set_mp_mem (mp_mem k) k) by by destruct k.
    replace off with (off + Z.of_nat 0) by lia. apply HQ; [lia|done].
  - rewrite mp_slot_hdr by lia. wp_step. unfold put_word. wp_step. apply IH; [lia|lia|].
    intros mem Hm Hlow. replace (off + 1 + Z.of_nat n) with (off + Z.of_nat (S n)) by lia.
    apply (HQ mem).
    + intros i Hi. destruct (decide (i = off)) as [->|]; [|apply Hm; lia].
      rewrite Hlow by lia. simpl. by rewrite lookup_insert_eq.
    + intros i Hi. rewrite Hlow by lia. simpl. rewrite lookup_insert_ne; [done|].
      intros E%hdr_inj. lia.
Qed.

Lemma free_chain_hdrs mem n i :
  0 <= i → i + Z.of_nat n = count →
  (∀ j, i <= j < count → mem !! hdr j = Some (W_next (if j + 1 =? count then 0 else hdr (j + 1)))) →
  free_chain mem (if i =? count then 0 else hdr i) (hdr <$> seqZ i (Z.of_nat n)).
Proof using Hstart Hbs.
  revert i. induction n as [|n IH]; intros i Hi Hn Hm.
  - rewrite (proj2 (Z.eqb_eq _ _)) by lia. done.
  - rewrite (proj2 (Z.eqb_neq _ _)) by lia. rewrite seqZ_cons by lia.
    replace (Z.pred (Z.of_nat (S n))) with (Z.of_nat n) by lia. rewrite fmap_cons.
    split; [done|]. split; [unfold hdr, sizeof_pointer; nia|]. eexists. split; [apply Hm; lia|].
    apply (IH (i + 1)); [lia|lia|]. intros j Hj. apply Hm. lia.
Qed.

Lemma wp_mp_setup k m size :
  wp (mp_setup m start size bs count) k (λ _ k', ∃ p,
    mp_inv k' m p (hdr <$> seqZ 0 count) [] ∧ mp_block_size p = bs ∧
    block_total_count p = count ∧ mp_start_address p = start ∧ suspend_thread_count p = 0).
Proof using Hstart Hbs Hcount Hend.
  unfold mp_setup. wp_step. wp_step. wp_step. apply (wp_on_heap _ _ (λ _ _, True)); [unfold rt_list_init; by wp_step|].
  intros [] h _. wp_step. apply wp_mp_link_blocks; [lia|lia|]. rewrite Z2Nat.id by lia.
  intros mem Hm _. rewrite mp_slot_hdr by lia. wp_step. unfold put_word. wp_step.
  eapply wp_upd_mp; [apply lookup_insert_eq|].
  exists (set_block_list start (mk_mempool start size bs 0 count count 0)). split.
  - split; simpl.
    + apply lookup_insert_eq.
    + split; simpl; lia.
    + pose proof (free_chain_hdrs (<[hdr (0 + count - 1) := W_next 0]> mem) (Z.to_nat count) 0) as H.
      rewrite Z2Nat.id in H by lia. rewrite (proj2 (Z.eqb_neq 0 count)) in H by lia.
      replace (hdr 0) with start in H by (unfold hdr; lia). apply H; [lia|lia|].
      intros j Hj. destruct (Z.eqb_spec (j + 1) count) as [<-|].
      * replace (0 + (j + 1) - 1) with j by lia. apply lookup_insert_eq.
      * rewrite lookup_insert_ne by (intros E%hdr_inj; lia). rewrite Hm by lia.
        by rewrite mp_slot_hdr by lia.
    + set_solver.
    + rewrite app_nil_r. apply NoDup_fmap_2; [intros ? ?; apply hdr_inj|apply NoDup_seqZ].
    + rewrite length_fmap, length_seqZ.  lia.
    + rewrite app_nil_r, length_fmap, length_seqZ. lia.
    + intros a. rewrite app_nil_r, list_elem_of_fmap. intros (i & -> & Hi%elem_of_seqZ).
      exists i. split; [lia|]. done.
  - done.
Qed.
End setup.

(** * What clients see *)

(** [rt_mp_alloc], on every path.  A free block is taken, in one step, from the
    chain: it is a block of the pool that nobody holds, and it becomes an allocated
    one.  Without a free block a call that does not wait returns null with the error
    [-RT_ETIMEOUT]; the others suspend the thread, in front of the waiting ones, arm
    its timer when there is a waiting time, and let the best ready thread run. *)
Theorem rt_mp_alloc_spec k L m p fr al t y time fuel :
  running k L → is_Some (L !! mp_list m) → mp_inv k m p fr al → (fr = [] → may_block k t y) →
  time < RT_TICK_MAX / 2 →
  wp (rt_mp_alloc (S fuel) m time) k (λ out k',
    match fr with
    | a :: fr' => out = Return (a + sizeof_pointer) ∧ running k' L ∧ threads k' = threads k ∧
        ∃ p', mp_inv k' m p' fr' (a :: al) ∧ suspend_thread_count p' = suspend_thread_count p
    | [] =>
        if time =? 0 then out = Return 0 ∧ k' = with_error t (- RT_ETIMEOUT) y k
        else
          let p1 := set_suspend_thread_count (u32 (suspend_thread_count p + 1)) p in
          let L' := blocked_on (waiting_first (mp_list m) t L) time t k (timers k') in
          running k' L' ∧ mp_inv k' m p1 [] al ∧ rt_current_thread k' = elected k L' ∧
          wait_queue L' (mp_list m) = t :: wait_queue L (mp_list m) ∧
          out = Resched (
            y ← get_thread t;
            if negb (error y =? RT_EOK) then mret (Return 0)
            else
              now ← rt_tick_get;
              mp_alloc_loop fuel m (Some t)
                (remaining_timeout time (if 0 <? time then rt_tick k else 0) now))
    end).
Proof.
  intros Hrun HL Hp Hb Htime. destruct fr as [|a fr'].
  - destruct (Z.eqb_spec time 0) as [->|Ht]; [by apply (mp_alloc_empty Hp); [|apply Hb]|].
    eapply wp_mono; [by apply (mp_alloc_wait Hrun HL Hp fuel t y time); [|apply Hb|..]|].
    intros out k' [Hg ->]. cbv zeta. split_and!; [apply Hg| |apply Hg|by apply wait_queue_waiting_first|done].
    pose proof (bl_frame Hg) as Hf.
    eapply mp_inv_frame; [apply (mp_inv_count _ _ _ _ _ _ Hp)|apply (fr_mempools _ _ Hf)|apply (fr_mp_mem _ _ Hf)].
  - eapply wp_mono; [by apply (mp_alloc_some Hp fuel time a fr')|].
    intros out k' (-> & p' & -> & ? & _ & _ & _ & ?).
    split_and!; [done|by apply running_with_pool|done|by exists p'].
Qed.

(** [rt_mp_free] of an allocated block, on every path.  The block goes to the front
    of the chain; if threads wait, the first one becomes ready without an error, the
    count of waiting threads follows the list, and the best ready thread runs. *)
Theorem rt_mp_free_spec k L m p fr al a :
  running k L → is_Some (L !! mp_list m) → mp_inv k m p fr al → a ∈ al →
  suspend_thread_count p = Z.of_nat (length (wait_queue L (mp_list m))) →
  suspend_thread_count p < 2 ^ 32 →
  wp (rt_mp_free (a + sizeof_pointer)) k (λ _ k', ∃ p' L',
    running k' L' ∧ mp_inv k' m p' (a :: fr) (filter (λ b, b ≠ a) al) ∧
    suspend_thread_count p' = Z.of_nat (length (wait_queue L' (mp_list m))) ∧
    match wait_queue L (mp_list m) with
    | [] => threads k' = threads k ∧ rt_current_thread k' = rt_current_thread k ∧ L' = L
    | u :: q => ∃ z, threads k !! u = Some z ∧ stat z = RT_THREAD_SUSPEND ∧
        L' = resumed u (current_priority z) L ∧ wait_queue L' (mp_list m) = q ∧
        threads k' = <[u := set_stat RT_THREAD_READY (set_error RT_EOK z)]> (threads k) ∧
        rt_current_thread k' = elected k L'
    end).
Proof.
  intros Hrun HL Hp Ha Hc Hb. eapply wp_mono; [by apply (mp_free_block Hrun HL Hp a)|].
  intros [] k' (p' & L' & ? & _ & ? & _ & _ & _ & Hs & ?). by exists p', L'.
Qed.

(** The block of a client, by the address it got, and the calls that do not wait. *)
Inductive mp_op := Op_alloc | Op_free (b : Z).

Definition mp_call (m : nat) (op : mp_op) : K Z :=
  match op with
  | Op_alloc => o ← rt_mp_alloc 1 m 0; match o with Return b => mret b | Resched _ => fail F_fuel end
  | Op_free b => rt_mp_free b;; mret 0
  end.

(** The promise of a pool of [total] blocks of [size] bytes at [start]: a state is the
    list of the addresses of the blocks that clients hold. *)
Inductive mp_spec (start size total : Z) : list Z → mp_op → Z → list Z → Prop :=
  | Spec_alloc held b i :
      0 <= i < total → b = start + i * (size + sizeof_pointer) + sizeof_pointer →
      (∀ c, c ∈ held → b + size <= c ∨ c + size <= b) →
      mp_spec start size total held Op_alloc b (b :: held)
  | Spec_full held :
      Z.of_nat (length held) = total → mp_spec start size total held Op_alloc 0 held
  | Spec_free held b :
      b ∈ held → mp_spec start size total held (Op_free b) 0 (filter (λ c, c ≠ b) held).

(** A client frees only what it holds; it runs the calls, each one on the kernel that the
    one before left. *)
Inductive mp_trace (m : nat) : kernel → list Z → list (mp_op * Z) → kernel → list Z → Prop :=
  | Trace_nil k held : mp_trace m k held [] k held
  | Trace_alloc k held b k1 tr k' held' :
      mp_call m Op_alloc k = Ok (b, k1) →
      mp_trace m k1 (if b =? 0 then held else b :: held) tr k' held' →
      mp_trace m k held ((Op_alloc, b) :: tr) k' held'
  | Trace_free k held b r k1 tr k' held' :
      b ∈ held → mp_call m (Op_free b) k = Ok (r, k1) →
      mp_trace m k1 (filter (λ c, c ≠ b) held) tr k' held' →
      mp_trace m k held ((Op_free b, r) :: tr) k' held'.

Inductive mp_specs (start size total : Z) : list Z → list (mp_op * Z) → list Z → Prop :=
  | Specs_nil held : mp_specs start size total held [] held
  | Specs_cons held op r held1 tr held' :
      mp_spec start size total held op r held1 → mp_specs start size total held1 tr held' →
      mp_specs start size total held ((op, r) :: tr) held'.

(** The pool [m] implements the state [held]. *)
Record mp_rep (m : nat) (start size total : Z) (k : kernel) (held : list Z) : Prop := {
  mr_thread : ∃ t y, may_block k t y;
  mr_pool : ∃ p fr al, mp_inv k m p fr al ∧ held = (λ a, a + sizeof_pointer) <$> al ∧
    suspend_thread_count p = 0 ∧ mp_start_address p = start ∧ mp_block_size p = size ∧
    block_total_count p = total
}.

(** The calls of a client: it frees only what it holds. *)
Definition mp_may (held : list Z) (op : mp_op) : Prop :=
  match op with Op_alloc => True | Op_free b => b ∈ held end.

Lemma filter_fmap_offset c a (al : list Z) :
  filter (λ b, b ≠ a + c) ((λ a, a + c) <$> al) = (λ a, a + c) <$> filter (λ b, b ≠ a) al.
Proof.
  induction al as [|b al IH]; [done|]. rewrite fmap_cons, !filter_cons, IH.
  repeat case_decide; [done|lia|lia|done].
Qed.

Lemma mp_call_spec m start size total k held op :
  mp_rep m start size total k held → mp_may held op →
  wp (mp_call m op) k (λ r k', ∃ held', mp_spec start size total held op r held' ∧
    mp_rep m start size total k' held' ∧
    held' = match op with
            | Op_alloc => if r =? 0 then held else r :: held
            | Op_free b => filter (λ c, c ≠ b) held
            end).
Proof.
  intros [(t & y & Hb) (p & fr & al & Hp & -> & Hs & <- & <- & <-)] Hop. destruct op as [|b]; simpl in *.
  - destruct fr as [|a fr']; wp_step.
    + eapply wp_mono; [by apply (mp_alloc_empty Hp 0 t y)|]. intros out k' [-> ->]. wp_step.
      exists ((λ a, a + sizeof_pointer) <$> al). split_and!; [| |done].
      * apply Spec_full. rewrite (pi_total _ _ _ _ _ Hp). by rewrite length_fmap.
      * split; [|exists p, [], al; split_and!; try done; by eapply mp_inv_frame].
        exists t, (set_error (- RT_ETIMEOUT) y). destruct Hb. split; try done. apply lookup_insert_eq.
    + assert (a ∈ (a :: fr') ++ al) as Ha by set_solver.
      pose proof (header_range _ _ _ _ _ _ Hp Ha) as [Hpos _].
      eapply wp_mono; [by apply (mp_alloc_some Hp 0 0 a fr')|].
      intros out k' (-> & p' & -> & ? & ? & ? & ? & Hp'). wp_step. unfold sizeof_pointer in *.
      rewrite (proj2 (Z.eqb_neq _ _)) by lia. eexists. split_and!; [| |reflexivity].
      * destruct (pi_blocks _ _ _ _ _ Hp a Ha) as (i & Hi & Hai).
        apply (Spec_alloc _ _ _ _ _ i); [done|by rewrite Hai|].
        intros c (a' & -> & Ha')%list_elem_of_fmap.
        assert (a ≠ a').
        { intros <-. pose proof (pi_nodup _ _ _ _ _ Hp) as Hnd. apply NoDup_cons in Hnd as [Hnd _].
          set_solver. }
        destruct (blocks_disjoint _ _ _ _ _ a a' Hp) as [Hd|Hd]; [done|set_solver|done|..];
          unfold sizeof_pointer in Hd; lia.
      * split; [exists t, y; by destruct Hb|]. exists p', fr', (a :: al).
        split_and!; try done; congruence.
  - apply list_elem_of_fmap in Hop as (a & -> & Ha). wp_step.
    eapply wp_mono; [by apply (mp_free_quiet Hp a)|]. intros [] k' ->. wp_step.
    eexists. split_and!; [apply Spec_free; by apply (list_elem_of_fmap_2 (λ a, a + sizeof_pointer))| |reflexivity].
    split; [exists t, y; by destruct Hb|]. eexists _, _, _.
    split; [by apply (mp_inv_freed Hp a)|]. by rewrite filter_fmap_offset.
Qed.

(** C36: a memory pool is an allocator of fixed blocks.  Whatever clients do with the
    calls that do not wait, as long as they free only what they hold, every answer is one
    that the specification allows: an allocated block lies at a block boundary of the
    pool and overlaps none of the blocks in use, null is returned exactly when all
    blocks are in use, and a freed block is available again.  No permitted call fails. *)
Theorem rt_mp_refines m start size total k held tr k' held' :
  mp_rep m start size total k held → mp_trace m k held tr k' held' →
  mp_specs start size total held tr held' ∧
  ∀ op, mp_may held' op → ∃ r k'', mp_call m op k' = Ok (r, k'').
Proof.
  intros Hrep Htr. induction Htr as [k held|k held b k1 tr k' held' E _ IH|k held b r k1 tr k' held' Hb E _ IH].
  - split; [constructor|]. intros op Hop.
    pose proof (mp_call_spec _ _ _ _ _ _ op Hrep Hop) as (r & k'' & ? & _)%wp_run. eauto.
  - pose proof (mp_call_spec _ _ _ _ _ _ Op_alloc Hrep I) as H. unfold wp in H. rewrite E in H.
    destruct H as (h & Hs & Hr & ->). destruct (IH Hr). split; [by econstructor|done].
  - pose proof (mp_call_spec _ _ _ _ _ _ (Op_free b) Hrep Hb) as H. unfold wp in H. rewrite E in H.
    destruct H as (h & Hs & Hr & ->). destruct (IH Hr). split; [by econstructor|done].
Qed.

(** The set-up of [rt_mp_init] and [rt_mp_create] makes every block of the pool
    available: all [count] blocks are chained in the order of their addresses and none is
    allocated, whatever the memory held before. *)
Theorem mp_setup_spec k m start size bs count :
  0 < start → 0 < bs → 0 < count → start + count * (bs + sizeof_pointer) <= 2 ^ 32 →
  wp (mp_setup m start size bs count) k (λ _ k', ∃ p,
    mp_inv k' m p ((λ i, start + i * (bs + sizeof_pointer)) <$> seqZ 0 count) [] ∧
    mp_block_size p = bs ∧ block_total_count p = count ∧ mp_start_address p = start ∧
    suspend_thread_count p = 0).
Proof. intros. by apply wp_mp_setup. Qed.

(** A thread whose waiting time ends is taken from the list of the waiting threads,
    but it stays in their count, and freeing a block then takes the head of the empty list
    for a thread: [rt_mp_free] follows a wild pointer. *)
Theorem rt_mp_free_stale_count k L m p fr al a :
  running k L → is_Some (L !! mp_list m) → mp_inv k m p fr al → a ∈ al →
  0 < suspend_thread_count p → wait_queue L (mp_list m) = [] →
  rt_mp_free (a + sizeof_pointer) k = Err F_pointer.
Proof. intros Hrun HL Hp. apply (mp_free_wild Hrun HL Hp). Qed.

(** * Instances *)

(** A pool of two blocks of four bytes, the first of which is in use; the same pool with
    both blocks in use; and the latter after a thread has waited for two ticks in vain. *)
Definition mp_demo : kernel :=
  run (rt_mp_init 0 "mp" 0x20006000 16 4;; rt_mp_alloc 1 0 0) booted.
Definition mp_full : kernel := run (rt_mp_alloc 1 0 0) mp_demo.
Definition mp_stale : kernel :=
  run (rt_mp_alloc 2 0 2;; repeat_m 3 (rt_tick_increase (λ _ _, mret tt) 5)) mp_full.

Definition mp_demo_pool (n first free : Z) : rt_mempool :=
  mk_mempool 0x20006000 16 4 first 2 free n.

Definition isOk {A} (r : res A) : bool := match r with Ok _ => true | Err _ => false end.

Lemma mp_demo_inv : mp_inv mp_demo 0 (mp_demo_pool 0 0x20006008 1) [0x20006008] [0x20006000].
Proof.
  split.
  - by vm_compute.
  - by split.
  - split_and!; [done|done|]. exists 0. split; [by vm_compute|done].
  - intros a ->%list_elem_of_singleton. by vm_compute.
  - apply (bool_decide_unpack (NoDup [0x20006008; 0x20006000])). by vm_compute.
  - done.
  - done.
  - intros a [->|[->|[]%not_elem_of_nil]%elem_of_cons]%elem_of_cons.
    + by exists 1.
    + by exists 0.
Qed.

Lemma mp_full_inv k n :
  mempools k !! 0%nat = Some (mp_demo_pool n 0 0) →
  mp_mem k !! 0x20006000 = Some (W_pool 0) → mp_mem k !! 0x20006008 = Some (W_pool 0) →
  mp_inv k 0 (mp_demo_pool n 0 0) [] [0x20006000; 0x20006008].
Proof.
  intros H1 H2 H3. split.
  - done.
  - by split.
  - done.
  - by intros a [->|[->|[]%not_elem_of_nil]%elem_of_cons]%elem_of_cons.
  - apply (bool_decide_unpack (NoDup [0x20006000; 0x20006008])). by vm_compute.
  - done.
  - done.
  - intros a [->|[->|[]%not_elem_of_nil]%elem_of_cons]%elem_of_cons.
    + by exists 0.
    + by exists 1.
Qed.

Lemma rt_mp_alloc_witness :
  wp (rt_mp_alloc 1 0 0) mp_demo (λ out k', out = Return 0x2000600c ∧ threads k' = threads mp_demo).
Proof.
  eapply wp_mono.
  - apply (rt_mp_alloc_spec mp_demo (lists_at mp_demo) 0 (mp_demo_pool 0 0x20006008 1) [0x20006008] [0x20006000] 2
      (thread_at mp_demo 2) 0 0).
    + apply running_b_spec. by vm_compute.
    + apply is_Some_alt. by vm_compute.
    + exact mp_demo_inv.
    + discriminate.
    + reflexivity.
  - intros out k' (-> & _ & H & _). split; [reflexivity|exact H].
Defined.

Lemma rt_mp_free_witness :
  wp (rt_mp_free 0x20006004) mp_demo (λ _ k', threads k' = threads mp_demo).
Proof.
  eapply wp_mono.
  - apply (rt_mp_free_spec mp_demo (lists_at mp_demo) 0 (mp_demo_pool 0 0x20006008 1) [0x20006008] [0x20006000] 0x20006000).
    + apply running_b_spec. by vm_compute.
    + apply is_Some_alt. by vm_compute.
    + exact mp_demo_inv.
    + by apply list_elem_of_singleton.
    + by vm_compute.
    + reflexivity.
  - intros [] k' (p' & L' & _ & _ & _ & H).
    replace (wait_queue (lists_at mp_demo) (mp_list 0)) with (@nil nat) in H by (by vm_compute).
    apply H.
Defined.

Lemma call_run m k b :
  isOk (rt_mp_free b k) = true → mp_call m (Op_free b) k = Ok (0, run (rt_mp_free b) k).
Proof. intros H. unfold mp_call, run, mbind, M_bind, mret, M_ret. by destruct (rt_mp_free b k) as [[[] k']|]. Qed.

Lemma rt_mp_refines_witness :
  let k' := run (rt_mp_free 0x20006004) mp_demo in
  mp_specs 0x20006000 4 2 [0x20006004] [(Op_free 0x20006004, 0)] [] ∧
  ∀ op, mp_may [] op → ∃ r k'', mp_call 0 op k' = Ok (r, k'').
Proof.
  apply (rt_mp_refines 0 0x20006000 4 2 mp_demo [0x20006004]).
  - split.
    + exists 2%nat, (thread_at mp_demo 2). apply may_block_b_spec. by vm_compute.
    + eexists _, _, _. split; [exact mp_demo_inv|done].
  - eapply (Trace_free 0 mp_demo [0x20006004] 0x20006004 0).
    + by apply list_elem_of_singleton.
    + apply call_run. by vm_compute.
    + apply Trace_nil.
Defined.

Lemma mp_setup_witness :
  wp (mp_setup 0 0x20006000 16 4 2) booted (λ _ k', ∃ p, mp_inv k' 0 p [0x20006000; 0x20006008] []).
Proof.
  eapply wp_mono.
  - apply (mp_setup_spec booted 0 0x20006000 16 4 2); done.
  - intros [] k' (p & H & _). exists p. exact H.
Defined.

Lemma rt_mp_free_stale_count_witness : rt_mp_free 0x20006004 mp_stale = Err F_pointer.
Proof.
  apply (rt_mp_free_stale_count mp_stale (lists_at mp_stale) 0 (mp_demo_pool 1 0 0) []
    [0x20006000; 0x20006008] 0x20006000).
  - apply running_b_spec. by vm_compute.
  - apply is_Some_alt. by vm_compute.
  - apply mp_full_inv; by vm_compute.
  - by apply elem_of_cons; left.
  - reflexivity.
  - by vm_compute.
Defined.
