(* ===== verification/MemSpec.v ===== *)
(** The system heap as an allocator: the chain of blocks in memory, what [rt_malloc],
    [rt_free] and [rt_realloc] do to it, and to the data of the blocks in use. *)

From Stdlib Require Import ZArith Lia.
From stdpp Require Import numbers strings base gmap list.
From S2P Require Import Prelude Bytes Overlay KString RtList Bitmap Kernel Scheduler Object Timer Thread Ipc Mem.
From S2P Require Import Invariant ThreadSpec Check Demo TimerSpec ThreadRun IpcSpec Semaphore.
Local Open Scope Z_scope.

(** * Headers in memory *)

Record heap_mem := mk_heap_mem { hm_magic : Z; hm_used : Z; hm_next : Z; hm_prev : Z }.

Definition header_bytes (x : heap_mem) : list Z :=
  le_bytes 2 (hm_magic x) ++ le_bytes 2 (hm_used x) ++ le_bytes 4 (hm_next x) ++ le_bytes 4 (hm_prev x).

Record header_range (x : heap_mem) : Prop := {
  hr_magic : 0 <= hm_magic x < 2 ^ 16;
  hr_used : 0 <= hm_used x < 2 ^ 16;
  hr_next : 0 <= hm_next x < 2 ^ 32;
  hr_prev : 0 <= hm_prev x < 2 ^ 32
}.

(** The header [x] is at [p]. *)
Definition header (m : ram) (p : Z) (x : heap_mem) : Prop :=
  bytes_at m p (header_bytes x) ∧ header_range x.

Lemma length_header_bytes x : length (header_bytes x) = 12%nat.
Proof. unfold header_bytes. by rewrite !length_app, !length_le_bytes. Qed.

Lemma header_fields m p x :
  bytes_at m p (header_bytes x) ↔
  bytes_at m p (le_bytes 2 (hm_magic x)) ∧ bytes_at m (p + 2) (le_bytes 2 (hm_used x)) ∧
  bytes_at m (p + 4) (le_bytes 4 (hm_next x)) ∧ bytes_at m (p + 8) (le_bytes 4 (hm_prev x)).
Proof.
  unfold header_bytes. rewrite !bytes_at_app, !length_le_bytes.
  replace (p + Z.of_nat 2) with (p + 2) by lia. replace (p + 2 + Z.of_nat 2) with (p + 4) by lia.
  replace (p + 4 + Z.of_nat 4) with (p + 8) by lia. done.
Qed.

Lemma header_store_ne m p x a l :
  a + Z.of_nat (length l) <= p ∨ p + 12 <= a → header m p x → header (store a l m) p x.
Proof.
  intros Hd [Hb Hr]. split; [|done]. apply bytes_at_store_ne; [|done]. rewrite length_header_bytes. lia.
Qed.

(** Any twelve bytes are a header. *)
Lemma header_exists m p : bytes_ok m → mapped m p 12 → ∃ x, header m p x.
Proof.
  intros Hok Hm. destruct (mapped_bytes_ok m p 12 Hok Hm) as (l & Hl & Hb & Hbl).
  set (l1 := take 2 l). set (l2 := take 2 (drop 2 l)). set (l3 := take 4 (drop 4 l)). set (l4 := drop 8 l).
  assert (l = l1 ++ l2 ++ l3 ++ l4) as El.
  { unfold l1, l2, l3, l4. do 13 (destruct l as [|? l]; [done|]). done. }
  assert (Forall byte l1 ∧ Forall byte l2 ∧ Forall byte l3 ∧ Forall byte l4) as (B1 & B2 & B3 & B4).
  { rewrite El, !Forall_app in Hbl. tauto. }
  assert (length l1 = 2%nat ∧ length l2 = 2%nat ∧ length l3 = 4%nat ∧ length l4 = 4%nat) as (L1 & L2 & L3 & L4).
  { unfold l1, l2, l3, l4. rewrite !length_take, !length_drop, Hl. done. }
  exists (mk_heap_mem (le_val l1) (le_val l2) (le_val l3) (le_val l4)). split.
  - unfold header_bytes. simpl hm_magic. simpl hm_used. simpl hm_next. simpl hm_prev.
    pose proof (le_bytes_val l1 B1) as E1. pose proof (le_bytes_val l2 B2) as E2.
    pose proof (le_bytes_val l3 B3) as E3. pose proof (le_bytes_val l4 B4) as E4.
    rewrite L1 in E1. rewrite L2 in E2. rewrite L3 in E3. rewrite L4 in E4. rewrite E1, E2, E3, E4. by rewrite <- El.
  - pose proof (le_val_range l1 B1) as R1. pose proof (le_val_range l2 B2) as R2.
    pose proof (le_val_range l3 B3) as R3. pose proof (le_val_range l4 B4) as R4.
    rewrite L1 in R1. rewrite L2 in R2. rewrite L3 in R3. rewrite L4 in R4. by split.
Qed.

#[export] Instance header_layout : Layout 12 header.
Proof. split; [intros *; apply header_store_ne|apply header_exists]. Qed.

Notation view := (overlay 12 header).

(** * The accesses, on headers *)

Definition hset_magic v x := mk_heap_mem v (hm_used x) (hm_next x) (hm_prev x).
Definition hset_used v x := mk_heap_mem (hm_magic x) v (hm_next x) (hm_prev x).
Definition hset_next v x := mk_heap_mem (hm_magic x) (hm_used x) v (hm_prev x).
Definition hset_prev v x := mk_heap_mem (hm_magic x) (hm_used x) (hm_next x) v.

Lemma set_mem_bytes_id h : set_mem_bytes (mem_bytes h) h = h.
Proof. by destruct h. Qed.

Section access.
Context {D : Z → Prop} {m0 : ram} {h : small_mem} {hm : gmap Z heap_mem} {p : Z} {x : heap_mem}.
Hypotheses (Hv : view D m0 (mem_bytes h) hm) (Hp : hm !! p = Some x).

Lemma wp_get_field n a v (Q : Z → small_mem → Prop) :
  bytes_at (mem_bytes h) a (le_bytes n v) → 0 <= v < 256 ^ Z.of_nat n → Q v h →
  wp (on_bytes (rd_word n a)) h Q.
Proof.
  intros Hb Hr HQ. unfold on_bytes. wp_step. eapply wp_rd_word; [|exact Hb|].
  - by rewrite length_le_bytes.
  - by rewrite le_val_bytes, set_mem_bytes_id.
Qed.

Lemma wp_get_magic (Q : Z → small_mem → Prop) : Q (hm_magic x) h → wp (get_magic p) h Q.
Proof.
  destruct (vw_header Hv p x Hp) as [Hb [? ? ? ?]]. apply header_fields in Hb as (? & ? & ? & ?).
  by apply wp_get_field.
Qed.
Lemma wp_get_used (Q : Z → small_mem → Prop) : Q (hm_used x) h → wp (get_used p) h Q.
Proof.
  destruct (vw_header Hv p x Hp) as [Hb [? ? ? ?]]. apply header_fields in Hb as (? & ? & ? & ?).
  by apply wp_get_field.
Qed.
Lemma wp_get_next (Q : Z → small_mem → Prop) : Q (hm_next x) h → wp (get_next p) h Q.
Proof.
  destruct (vw_header Hv p x Hp) as [Hb [? ? ? ?]]. apply header_fields in Hb as (? & ? & ? & ?).
  by apply wp_get_field.
Qed.
Lemma wp_get_prev (Q : Z → small_mem → Prop) : Q (hm_prev x) h → wp (get_prev p) h Q.
Proof.
  destruct (vw_header Hv p x Hp) as [Hb [? ? ? ?]]. apply header_fields in Hb as (? & ? & ? & ?).
  by apply wp_get_field.
Qed.

Lemma wp_put_field n o v x' (Q : unit → small_mem → Prop) :
  0 <= o → o + Z.of_nat n <= 12 → header (store (p + o) (le_bytes n v) (mem_bytes h)) p x' →
  (∀ m', view D m0 m' (<[p := x']> hm) → Q tt (set_mem_bytes m' h)) →
  wp (on_bytes (wr_word n (p + o) v)) h Q.
Proof.
  intros Ho Hn Hx HQ. unfold on_bytes. wp_step. apply wp_wr_word.
  - destruct (vw_header Hv p x Hp) as [Hb%bytes_at_mapped _]. rewrite length_header_bytes in Hb.
    eapply mapped_le; [exact Hb|lia|lia].
  - apply HQ. eapply view_store; [exact Hv|exact Hp|apply le_bytes_ok|done|by rewrite length_le_bytes|done].
Qed.

Ltac put_header Hb :=
  apply header_fields in Hb as (? & ? & ? & ?); split; [|by split];
  apply header_fields; split_and!;
  first [apply bytes_at_store | apply bytes_at_store_ne; [rewrite !length_le_bytes; lia|done]].

Lemma wp_put_magic v (Q : unit → small_mem → Prop) :
  0 <= v < 2 ^ 16 → (∀ m', view D m0 m' (<[p := hset_magic v x]> hm) → Q tt (set_mem_bytes m' h)) →
  wp (put_magic p v) h Q.
Proof.
  intros Hr HQ. unfold put_magic. replace p with (p + 0) at 1 by lia. eapply (wp_put_field 2 0); [lia|lia| |exact HQ].
  rewrite Z.add_0_r. destruct (vw_header Hv p x Hp) as [Hb [? ? ? ?]]. put_header Hb.
Qed.
Lemma wp_put_used v (Q : unit → small_mem → Prop) :
  0 <= v < 2 ^ 16 → (∀ m', view D m0 m' (<[p := hset_used v x]> hm) → Q tt (set_mem_bytes m' h)) →
  wp (put_used p v) h Q.
Proof.
  intros Hr HQ. eapply (wp_put_field 2 2); [lia|lia| |exact HQ].
  destruct (vw_header Hv p x Hp) as [Hb [? ? ? ?]]. put_header Hb.
Qed.
Lemma wp_put_next v (Q : unit → small_mem → Prop) :
  0 <= v < 2 ^ 32 → (∀ m', view D m0 m' (<[p := hset_next v x]> hm) → Q tt (set_mem_bytes m' h)) →
  wp (put_next p v) h Q.
Proof.
  intros Hr HQ. eapply (wp_put_field 4 4); [lia|lia| |exact HQ].
  destruct (vw_header Hv p x Hp) as [Hb [? ? ? ?]]. put_header Hb.
Qed.
Lemma wp_put_prev v (Q : unit → small_mem → Prop) :
  0 <= v < 2 ^ 32 → (∀ m', view D m0 m' (<[p := hset_prev v x]> hm) → Q tt (set_mem_bytes m' h)) →
  wp (put_prev p v) h Q.
Proof.
  intros Hr HQ. eapply (wp_put_field 4 8); [lia|lia| |exact HQ].
  destruct (vw_header Hv p x Hp) as [Hb [? ? ? ?]]. put_header Hb.
Qed.
End access.

(** * Chains of blocks *)

(** A block: the size of its data, and whether it is in use. *)
Notation seg := (Z * bool)%type.

Fixpoint span (l : list seg) : Z :=
  match l with [] => 0 | s :: l => 12 + s.1 + span l end.

Definition seg_header (prev off : Z) (s : seg) : heap_mem :=
  mk_heap_mem HEAP_MAGIC (if s.2 then 1 else 0) (off + 12 + s.1) prev.

(** [P] holds of the headers of the blocks [l], the first of which is at the offset [off],
    behind the one at [prev]. *)
Fixpoint segs (P : Z → heap_mem → Prop) (prev off : Z) (l : list seg) : Prop :=
  match l with
  | [] => True
  | s :: l => P off (seg_header prev off s) ∧ segs P off (off + 12 + s.1) l
  end.

(** The same with the last header, whose [prev] is not kept. *)
Fixpoint chain (P : Z → heap_mem → Prop) (prev off : Z) (l : list seg) : Prop :=
  match l with
  | [] => ∃ pv, P off (mk_heap_mem HEAP_MAGIC 1 off pv)
  | s :: l => P off (seg_header prev off s) ∧ chain P off (off + 12 + s.1) l
  end.

(** The offset of the last block. *)
Fixpoint last_off (prev off : Z) (l : list seg) : Z :=
  match l with [] => prev | s :: l => last_off off (off + 12 + s.1) l end.

Definition sizes (l : list seg) : Prop := Forall (λ s, 0 <= s.1) l.

Lemma span_app l1 l2 : span (l1 ++ l2) = span l1 + span l2.
Proof. induction l1 as [|s l1 IH]; simpl; lia. Qed.
Lemma span_pos l : sizes l → 0 <= span l.
Proof. induction 1; simpl; lia. Qed.

Lemma last_off_app prev off l1 l2 :
  last_off prev off (l1 ++ l2) = last_off (last_off prev off l1) (off + span l1) l2.
Proof.
  revert prev off. induction l1 as [|s l1 IH]; intros prev off; simpl; [by rewrite Z.add_0_r|].
  rewrite IH. f_equal. lia.
Qed.

Lemma segs_app P prev off l1 l2 :
  segs P prev off (l1 ++ l2) ↔ segs P prev off l1 ∧ segs P (last_off prev off l1) (off + span l1) l2.
Proof.
  revert prev off. induction l1 as [|s l1 IH]; intros prev off; simpl; [rewrite Z.add_0_r; tauto|].
  rewrite IH. replace (off + 12 + s.1 + span l1) with (off + (12 + s.1 + span l1)) by lia. tauto.
Qed.

Lemma chain_app P prev off l1 l2 :
  chain P prev off (l1 ++ l2) ↔ segs P prev off l1 ∧ chain P (last_off prev off l1) (off + span l1) l2.
Proof.
  revert prev off. induction l1 as [|s l1 IH]; intros prev off; simpl; [rewrite Z.add_0_r; tauto|].
  rewrite IH. replace (off + 12 + s.1 + span l1) with (off + (12 + s.1 + span l1)) by lia. tauto.
Qed.

Lemma segs_mono (P P' : Z → heap_mem → Prop) prev off l :
  sizes l → (∀ o x, off <= o < off + span l → P o x → P' o x) → segs P prev off l → segs P' prev off l.
Proof.
  intros Hs. revert prev off. induction Hs as [|s l Hs0 Hs IH]; intros prev off HP; simpl; [done|].
  pose proof (span_pos l Hs). simpl in HP. intros [H1 H2]. split; [apply HP; [lia|done]|].
  apply IH; [|done]. intros o x Ho. apply HP. lia.
Qed.

Lemma chain_mono (P P' : Z → heap_mem → Prop) prev off l :
  sizes l → (∀ o x, off <= o <= off + span l → P o x → P' o x) → chain P prev off l → chain P' prev off l.
Proof.
  intros Hs. revert prev off. induction Hs as [|s l Hs0 Hs IH]; intros prev off HP; simpl.
  { intros [pv ?]. exists pv. apply HP; [simpl; lia|done]. }
  pose proof (span_pos l Hs). simpl in HP. intros [H1 H2]. split; [apply HP; [lia|done]|].
  apply IH; [|done]. intros o x Ho. apply HP. lia.
Qed.

(** No two free blocks follow each other; [f]: the block in front is free. *)
Fixpoint merged (f : bool) (l : list seg) : Prop :=
  match l with
  | [] => True
  | s :: l => (f = true → s.2 = true) ∧ merged (negb s.2) l
  end.
Fixpoint ends_free (f : bool) (l : list seg) : bool :=
  match l with [] => f | s :: l => ends_free (negb s.2) l end.

Lemma merged_app f l1 l2 : merged f (l1 ++ l2) ↔ merged f l1 ∧ merged (ends_free f l1) l2.
Proof. revert f. induction l1 as [|s l1 IH]; intros f; simpl; [tauto|]. rewrite IH. tauto. Qed.

Lemma ends_free_app f l1 l2 : ends_free f (l1 ++ l2) = ends_free (ends_free f l1) l2.
Proof. revert f. induction l1 as [|s l1 IH]; intros f; simpl; [done|]. apply IH. Qed.

(** The bytes in use, headers included. *)
Definition used_span (l : list seg) : Z := span (filter (λ s, s.2 = true) l).

Lemma used_span_app l1 l2 : used_span (l1 ++ l2) = used_span l1 + used_span l2.
Proof. unfold used_span. by rewrite filter_app, span_app. Qed.
Lemma used_span_cons s l : used_span (s :: l) = (if s.2 then 12 + s.1 else 0) + used_span l.
Proof.
  unfold used_span. destruct s as [z []].
  - rewrite filter_cons_True by done. simpl. lia.
  - by rewrite filter_cons_False by done.
Qed.
Lemma used_span_range l : sizes l → 0 <= used_span l <= span l.
Proof.
  induction 1 as [|s l Hs Hl IH]; [done|]. rewrite used_span_cons. simpl. destruct s as [z []]; simpl in *; lia.
Qed.

(** Two positions in the chain are the same or a block apart. *)
Lemma positions (l1 l2 k1 k2 : list seg) :
  l1 ++ l2 = k1 ++ k2 → sizes (l1 ++ l2) →
  (l1 = k1 ∧ l2 = k2) ∨ (∃ s k, l2 = s :: k ∧ span l1 + 12 + s.1 <= span k1) ∨
  (∃ s k, k2 = s :: k ∧ span k1 + 12 + s.1 <= span l1).
Proof.
  intros E Hs. destruct (app_eq_inv _ _ _ _ E) as [(k & -> & ->)|(k & -> & ->)].
  - destruct k as [|s k]; [left; by rewrite app_nil_r|]. right. right. exists s, (k ++ l2). split; [done|].
    rewrite span_app. simpl. rewrite <- app_assoc in Hs.
    apply Forall_app in Hs as [_ [_ [Hk _]%Forall_app]%Forall_cons].
    pose proof (span_pos k Hk). lia.
  - destruct k as [|s k]; [left; by rewrite app_nil_r|]. right. left. exists s, (k ++ k2). split; [done|].
    rewrite span_app. simpl. apply Forall_app in Hs as [_ [_ [Hk _]%Forall_app]%Forall_cons].
    pose proof (span_pos k Hk). lia.
Qed.

(** * The invariant of the heap *)

Definition seg_ok (s : seg) : Prop := 0 <= s.1 ∧ s.1 mod 4 = 0.

(** The fixed part: where the heap is. *)
Record geometry (h : small_mem) (n : Z) : Prop := {
  ge_base : 0 < heap_ptr h;
  ge_align : heap_ptr h mod 4 = 0;
  ge_size : mem_size_aligned h + 12 = n;
  ge_min : 12 <= mem_size_aligned h;
  ge_end : heap_end h = heap_ptr h + n;
  ge_top : heap_ptr h + n + 12 <= 2 ^ 32
}.

(** [lfree] designates a free block or the end; [low]: the first free one. *)
Definition lfree_ok (low : bool) (h : small_mem) (l : list seg) : Prop :=
  ∃ l1 l2, l = l1 ++ l2 ∧ lfree h = heap_ptr h + span l1 ∧
    (match l2 with (_, true) :: _ => False | _ => True end) ∧
    (low = true → Forall (λ s, s.2 = true) l1).

(** The heap consists of the blocks [l]. *)
Record heap_ok (low : bool) (h : small_mem) (l : list seg) : Prop := {
  ho_geometry : geometry h (span l);
  ho_segs : Forall seg_ok l;
  ho_merged : merged false l;
  ho_chain : chain (λ o x, header (mem_bytes h) (heap_ptr h + o) x) 0 0 l;
  ho_mapped : mapped (mem_bytes h) (heap_ptr h) (Z.to_nat (span l + 12));
  ho_bytes : bytes_ok (mem_bytes h);
  ho_lfree : lfree_ok low h l;
  ho_used : used_mem h = used_span l
}.

(** The addresses of the data of the blocks in use. *)
Definition used_data (base : Z) (l : list seg) (b : Z) : Prop :=
  ∃ l1 sz l2, l = l1 ++ (sz, true) :: l2 ∧ base + span l1 + 12 <= b < base + span l1 + 12 + sz.

Lemma seg_ok_sizes l : Forall seg_ok l → sizes l.
Proof. intros H. eapply Forall_impl; [exact H|]. by intros s [? _]. Qed.

(** The headers of a chain as a map. *)
Fixpoint header_map (base prev off pv : Z) (l : list seg) : gmap Z heap_mem :=
  match l with
  | [] => {[ base + off := mk_heap_mem HEAP_MAGIC 1 off pv ]}
  | s :: l => <[base + off := seg_header prev off s]> (header_map base off (off + 12 + s.1) pv l)
  end.

Definition in_map (base : Z) (hm : gmap Z heap_mem) (o : Z) (x : heap_mem) : Prop := hm !! (base + o) = Some x.

Lemma header_map_spec m base prev off l :
  sizes l → chain (λ o x, header m (base + o) x) prev off l → ∃ pv,
    chain (in_map base (header_map base prev off pv l)) prev off l ∧
    ∀ q y, header_map base prev off pv l !! q = Some y →
      header m q y ∧ ∃ l1 l2, l = l1 ++ l2 ∧ q = base + off + span l1.
Proof.
  intros Hs. revert prev off. induction Hs as [|s l Hs0 Hs IH]; intros prev off; simpl.
  - intros [pv Hpv]. exists pv. split; [exists pv; apply lookup_singleton_eq|].
    intros q y [<- <-]%lookup_singleton_Some. split; [done|]. exists [], []. simpl. split; [done|lia].
  - intros [H1 H2]. destruct (IH _ _ H2) as (pv & Hc & Hq). pose proof (span_pos l Hs). exists pv. split.
    + split; [apply lookup_insert_eq|]. eapply chain_mono; [done| |exact Hc].
      intros o x Ho Hx. unfold in_map in *. rewrite lookup_insert_ne by lia. done.
    + intros q y [[<- <-]|[_ Hy]]%lookup_insert_Some.
      * split; [done|]. exists [], (s :: l). simpl. split; [done|lia].
      * destruct (Hq q y Hy) as (Hh & l1 & l2 & -> & ->). split; [done|]. exists (s :: l1), l2. simpl.
        split; [done|lia].
Qed.

(** Work on the heap goes on with a map of its headers. *)
Lemma heap_open low h l :
  heap_ok low h l → ∃ hm,
    view (used_data (heap_ptr h) l) (mem_bytes h) (mem_bytes h) hm ∧
    chain (in_map (heap_ptr h) hm) 0 0 l ∧
    ∀ q y, hm !! q = Some y → ∃ l1 l2, l = l1 ++ l2 ∧ q = heap_ptr h + span l1.
Proof.
  intros [_ Hs _ Hc Hm Hb _ _]. apply seg_ok_sizes in Hs.
  destruct (header_map_spec _ _ _ _ _ Hs Hc) as (pv & Hc' & Hq). eexists. split; [|split; [exact Hc'|]].
  - split.
    + intros p x Hp. by apply Hq.
    + intros p q x y Hp Hq' Hne. destruct (Hq p x Hp) as (_ & l1 & l2 & El & Ep).
      destruct (Hq q y Hq') as (_ & k1 & k2 & Ek & Eq). rewrite El in Ek.
      destruct (positions l1 l2 k1 k2 Ek) as [[-> _]|[(s & k & -> & ?)|(s & k & -> & ?)]]; [by rewrite <- El|lia|..].
      * rewrite El in Hs. apply Forall_app in Hs as [_ [? _]%Forall_cons]. lia.
      * rewrite El, Ek in Hs. apply Forall_app in Hs as [_ [? _]%Forall_cons]. lia.
    + intros p x b Hp (k1 & sz & k2 & Ek & Hr). destruct (Hq p x Hp) as (_ & l1 & l2 & El & Ep).
      rewrite Ek in El. destruct (positions k1 ((sz, true) :: k2) l1 l2 El) as [[-> _]|[(s & k & [= <- <-] & ?)|(s & k & -> & ?)]].
      * by rewrite <- Ek.
      * lia.
      * simpl in *. lia.
      * rewrite Ek, El in Hs. apply Forall_app in Hs as [_ [? _]%Forall_cons]. lia.
    + done.
    + done.
    + done.
  - intros q y Hy. destruct (Hq q y Hy) as (_ & l1 & l2 & -> & ->). exists l1, l2. split; [done|lia].
Qed.

Lemma chain_close m base hm prev off l :
  (∀ p x, hm !! p = Some x → header m p x) → chain (in_map base hm) prev off l → chain (λ o x, header m (base + o) x) prev off l.
Proof.
  intros Hv. revert prev off. induction l as [|s l IH]; intros prev off; simpl.
  - intros [pv H]. exists pv. by apply Hv.
  - intros [H1 H2]. split; [by apply Hv|by apply IH].
Qed.

(** A header inserted in front of a chain or behind blocks. *)
Lemma blocks_insert base hm p x prev off l :
  sizes l → p < base + off ∨ base + off + span l < p →
  chain (in_map base hm) prev off l → chain (in_map base (<[p := x]> hm)) prev off l.
Proof.
  intros Hs Hp. apply chain_mono; [done|]. intros o y Ho Hy. unfold in_map in *.
  by rewrite lookup_insert_ne by lia.
Qed.
Lemma segs_insert base hm p x prev off l :
  sizes l → p < base + off ∨ base + off + span l <= p →
  segs (in_map base hm) prev off l → segs (in_map base (<[p := x]> hm)) prev off l.
Proof.
  intros Hs Hp. apply segs_mono; [done|]. intros o y Ho Hy. unfold in_map in *.
  by rewrite lookup_insert_ne by lia.
Qed.

(** The first header of a chain, and what a new [prev] there does. *)
Lemma chain_head base hm prev off l :
  sizes l → chain (in_map base hm) prev off l →
  ∃ x, hm !! (base + off) = Some x ∧ hm_used x = (match l with (_, false) :: _ => 0 | _ => 1 end) ∧
    ∀ prev', chain (in_map base (<[base + off := hset_prev prev' x]> hm)) prev' off l.
Proof.
  intros Hs. destruct Hs as [|s l Hs0 Hs]; simpl.
  - intros [pv H]. eexists. split; [exact H|]. split; [done|]. intros prev'. exists prev'.
    unfold in_map. by rewrite lookup_insert_eq.
  - intros [H1 H2]. eexists. split; [exact H1|]. split; [by destruct s as [z []]|]. intros prev'. split.
    + unfold in_map. by rewrite lookup_insert_eq.
    + apply blocks_insert; [done|lia|done].
Qed.

(** * Joining free blocks *)

(** A position in a list and a block of it. *)
Lemma split_around {A} (a b l1 : list A) s l2 :
  a ++ b = l1 ++ s :: l2 →
  (∃ k, l1 = a ++ k ∧ b = k ++ s :: l2) ∨ (∃ k, a = l1 ++ s :: k ∧ l2 = k ++ b).
Proof.
  intros E. destruct (app_eq_inv _ _ _ _ E) as [(k & -> & Ek)|(k & -> & ->)]; [|left; by exists k].
  destruct k as [|s' k]; simpl in Ek.
  - left. exists []. by rewrite !app_nil_r, <- Ek.
  - right. simplify_eq. by exists k.
Qed.

(** The heap during an operation: its headers are the map [hm]. *)
Record work (D : Z → Prop) (m0 : ram) (h : small_mem) (hm : gmap Z heap_mem) (l : list seg) : Prop := {
  wk_view : view D m0 (mem_bytes h) hm;
  wk_chain : chain (in_map (heap_ptr h) hm) 0 0 l;
  wk_sizes : sizes l;
  wk_geometry : geometry h (span l)
}.

Definition fwd (sz : Z) (l2 : list seg) : Z * list seg :=
  match l2 with (s, false) :: l3 => (sz + 12 + s, l3) | _ => (sz, l2) end.
Definition bwd (l1 : list seg) (sz : Z) : list seg * Z :=
  match reverse l1 with (s, false) :: r => (reverse r, s + 12 + sz) | _ => (l1, sz) end.
(** The blocks after [plug_holes]. *)
Definition plug (l1 : list seg) (sz : Z) (l2 : list seg) : list seg :=
  let '(sz, l2) := fwd sz l2 in let '(l1, sz) := bwd l1 sz in l1 ++ (sz, false) :: l2.

Lemma bwd_snoc_free l1 s sz : bwd (l1 ++ [(s, false)]) sz = (l1, s + 12 + sz).
Proof. unfold bwd. by rewrite reverse_snoc, reverse_involutive. Qed.
Lemma bwd_snoc_used l1 s sz : bwd (l1 ++ [(s, true)]) sz = (l1 ++ [(s, true)], sz).
Proof. unfold bwd. by rewrite reverse_snoc. Qed.

Section plug.
Context {D : Z → Prop} {m0 : ram}.

Lemma wp_block_at h n o (Q : Z → small_mem → Prop) :
  geometry h n → 0 <= o <= n → Q (heap_ptr h + o) h → wp (block_at o) h Q.
Proof.
  intros [? ? ? ? ? ?] Ho HQ. unfold block_at. wp_step. wp_step. wp_step.
  unfold wrap. by rewrite Z.mod_small by lia.
Qed.
Lemma wp_offset_of h n p o (Q : Z → small_mem → Prop) :
  geometry h n → p = heap_ptr h + o → 0 <= o <= n → Q o h → wp (offset_of p) h Q.
Proof.
  intros [? ? ? ? ? ?] -> Ho HQ. unfold offset_of. wp_step. wp_step. wp_step.
  replace (heap_ptr h + o - heap_ptr h) with o by lia. unfold wrap. by rewrite Z.mod_small by lia.
Qed.

Lemma geometry_set h n m lf : geometry h n → geometry (set_mem_bytes m (set_lfree lf h)) n.
Proof. by intros []. Qed.

(** The block at a position and what follows it. *)
Lemma chain_split P l1 s l2 :
  chain P 0 0 (l1 ++ s :: l2) →
  segs P 0 0 l1 ∧ P (span l1) (seg_header (last_off 0 0 l1) (span l1) s) ∧
  chain P (span l1) (span l1 + 12 + s.1) l2.
Proof. by intros [? [? ?]]%chain_app. Qed.

Lemma chain_join P l1 s l2 :
  segs P 0 0 l1 → P (span l1) (seg_header (last_off 0 0 l1) (span l1) s) →
  chain P (span l1) (span l1 + 12 + s.1) l2 → chain P 0 0 (l1 ++ s :: l2).
Proof. intros. by apply chain_app. Qed.

Lemma sizes_split l1 s l2 : sizes (l1 ++ s :: l2) → sizes l1 ∧ 0 <= s.1 ∧ sizes l2.
Proof. intros [? [? ?]%Forall_cons]%Forall_app. done. Qed.

Lemma work_lfree h hm l lf : work D m0 h hm l → work D m0 (set_lfree lf h) hm l.
Proof. intros [? ? ? []]. by split. Qed.

Lemma lfree_if h (b : bool) v : (if b then set_lfree v h else h) = set_lfree (if b then v else lfree h) h.
Proof. destruct b; [done|by destruct h]. Qed.

Lemma set_nothing h : set_mem_bytes (mem_bytes h) (set_lfree (lfree h) h) = h.
Proof. by destruct h. Qed.

Lemma wp_join_blocks h hm l1 s1 s2 l3 :
  work D m0 h hm (l1 ++ (s1, false) :: (s2, false) :: l3) →
  wp (join_blocks (heap_ptr h + span l1) (heap_ptr h + (span l1 + 12 + s1))) h (λ _ h', ∃ m' hm',
    h' = set_mem_bytes m' h ∧ work D m0 h' hm' (l1 ++ (s1 + 12 + s2, false) :: l3)).
Proof.
  intros [Hv Hc Hs Hg]. pose proof (chain_split _ _ _ _ Hc) as (H1 & Hx & [Hn H3]). simpl in Hn, H3.
  apply sizes_split in Hs as (Hs1 & Hz1 & [Hz2 Hs3]%Forall_cons). simpl in Hz1, Hz2.
  pose proof (span_pos _ Hs1). pose proof (span_pos _ Hs3).
  rewrite span_app in Hg. simpl in Hg. pose proof Hg as [Gb Ga Gs Gm Ge Gt]. unfold in_map in Hn.
  unfold join_blocks. wp_step. eapply wp_get_next; [exact Hv|exact Hn|]. simpl.
  wp_step. eapply wp_put_next; [exact Hv|exact Hx|lia|]. intros m1 Hv1.
  set (hm1 := <[heap_ptr h + span l1 := _]> hm) in Hv1.
  assert (hm1 !! (heap_ptr h + (span l1 + 12 + s1)) = Some (seg_header (span l1) (span l1 + 12 + s1) (s2, false))) as Hn1.
  { unfold hm1. by rewrite lookup_insert_ne by lia. }
  wp_step. eapply wp_get_next; [exact Hv1|exact Hn1|]. simpl.
  wp_step. eapply wp_block_at; [by destruct Hg|lia|].
  wp_step. eapply (wp_offset_of _ _ _ (span l1)); [by destruct Hg|done|lia|].
  assert (chain (in_map (heap_ptr h) hm1) (span l1 + 12 + s1) (span l1 + 12 + s1 + 12 + s2) l3) as H3'.
  { apply blocks_insert; [done|lia|done]. }
  destruct (chain_head _ _ _ _ _ Hs3 H3') as (z & Hz & _ & Hre). simpl.
  eapply wp_put_prev; [exact Hv1|exact Hz|lia|]. intros m2 Hv2.
  exists m2. eexists. split; [done|]. split; [exact Hv2| | |].
  - simpl heap_ptr. apply chain_join; simpl fst.
    + apply segs_insert; [done|lia|]. apply segs_insert; [done|lia|done].
    + unfold in_map. rewrite lookup_insert_ne by lia. unfold hm1. rewrite lookup_insert_eq.
      unfold seg_header, hset_next. simpl. f_equal. f_equal. lia.
    + replace (span l1 + 12 + (s1 + 12 + s2)) with (span l1 + 12 + s1 + 12 + s2) by lia. apply Hre.
  - apply Forall_app. split; [done|]. constructor; [simpl; lia|done].
  - rewrite span_app. simpl. split; simpl in *; lia.
Qed.

(** Where [lfree] is after a join with the next block, and with the one in front. *)
Definition lfree_fwd (h : small_mem) (l1 : list seg) (sz : Z) (l2 : list seg) : Z :=
  match l2 with
  | (_, false) :: _ =>
      if lfree h =? heap_ptr h + (span l1 + 12 + sz) then heap_ptr h + span l1 else lfree h
  | _ => lfree h
  end.
Definition lfree_bwd (h : small_mem) (l1 : list seg) : Z :=
  match reverse l1 with
  | (_, false) :: r =>
      if lfree h =? heap_ptr h + span l1 then heap_ptr h + span (reverse r) else lfree h
  | _ => lfree h
  end.

Lemma wp_plug_forward h hm l1 sz l2 :
  work D m0 h hm (l1 ++ (sz, false) :: l2) →
  wp (plug_forward (heap_ptr h + span l1)) h (λ _ h', ∃ m' hm',
    h' = set_mem_bytes m' (set_lfree (lfree_fwd h l1 sz l2) h) ∧
    work D m0 h' hm' (l1 ++ ((fwd sz l2).1, false) :: (fwd sz l2).2)).
Proof.
  intros Hw. pose proof Hw as [Hv Hc Hs Hg]. pose proof (chain_split _ _ _ _ Hc) as (H1 & Hx & H2). simpl in H2.
  apply sizes_split in Hs as (Hs1 & Hsz & Hs2). simpl in Hsz.
  pose proof (span_pos _ Hs1). pose proof (span_pos _ Hs2).
  rewrite span_app in Hg. simpl in Hg. pose proof Hg as [Gb Ga Gs Gm Ge Gt].
  destruct (chain_head _ _ _ _ _ Hs2 H2) as (y & Hy & Hyu & _).
  unfold plug_forward. wp_step. wp_step. wp_step. eapply wp_get_next; [exact Hv|exact Hx|]. simpl.
  wp_step. eapply wp_block_at; [done|lia|]. rewrite (proj2 (Z.eqb_neq _ _)) by lia.
  wp_step. wp_step. eapply wp_get_used; [exact Hv|exact Hy|]. rewrite Hyu. wp_step.
  destruct l2 as [|[s [|]] l3].
  - simpl. wp_step. exists (mem_bytes h), hm. by rewrite set_nothing.
  - simpl. wp_step. exists (mem_bytes h), hm. by rewrite set_nothing.
  - apply Forall_cons in Hs2 as [Hs0 Hs3]. pose proof (span_pos _ Hs3). simpl in Hs0, Ge.
    rewrite (proj2 (Z.eqb_neq _ (heap_end h))) by lia. change (0 =? 0) with true. simpl when.
    wp_step. wp_step. rewrite lfree_if. cbn [lfree_fwd]. match goal with |- context [set_lfree ?v h] => set (lf := v) end.
    eapply wp_mono; [apply (wp_join_blocks (set_lfree lf h) hm l1 sz s l3); by apply work_lfree|].
    intros [] h' (m' & hm' & -> & Hw'). by exists m', hm'.
Qed.

Lemma wp_plug_backward h hm l1 sz l2 :
  work D m0 h hm (l1 ++ (sz, false) :: l2) →
  wp (plug_backward (heap_ptr h + span l1)) h (λ _ h', ∃ m' hm',
    h' = set_mem_bytes m' (set_lfree (lfree_bwd h l1) h) ∧
    work D m0 h' hm' ((bwd l1 sz).1 ++ ((bwd l1 sz).2, false) :: l2)).
Proof.
  intros Hw. pose proof Hw as [Hv Hc Hs Hg]. pose proof (chain_split _ _ _ _ Hc) as (H1 & Hx & H2). simpl in H2.
  apply sizes_split in Hs as (Hs1 & Hsz & Hs2). simpl in Hsz.
  pose proof (span_pos _ Hs1). pose proof (span_pos _ Hs2). rewrite span_app in Hg. simpl in Hg.
  unfold plug_backward. wp_step. eapply wp_get_prev; [exact Hv|exact Hx|]. simpl.
  destruct l1 as [|[s u] l1 _] using rev_ind.
  - simpl. wp_step. eapply wp_block_at; [done|simpl in *; lia|]. rewrite Z.eqb_refl. wp_step. wp_step.
    simpl. wp_step. exists (mem_bytes h), hm. unfold lfree_bwd. simpl. by rewrite set_nothing.
  - rewrite last_off_app. simpl. rewrite span_app in *. simpl in *. apply Forall_app in Hs1 as [Hs1 [Hs0 _]%Forall_cons].
    pose proof (span_pos _ Hs1). simpl in Hs0. apply segs_app in H1 as [_ [Hp _]]. simpl in Hp.
    wp_step. eapply wp_block_at; [done|lia|]. rewrite (proj2 (Z.eqb_neq _ _)) by lia.
    wp_step. wp_step. eapply wp_get_used; [exact Hv|exact Hp|]. wp_step. destruct u; simpl.
    + wp_step. exists (mem_bytes h), hm. unfold lfree_bwd.
      rewrite !bwd_snoc_used, reverse_snoc, set_nothing. done.
    + wp_step. wp_step. rewrite lfree_if. unfold lfree_bwd.
      rewrite !bwd_snoc_free, reverse_snoc, reverse_involutive, span_app. simpl.
      match goal with |- context [set_lfree ?v h] => set (lf := v) end. rewrite <- app_assoc in Hw. simpl in Hw.
      replace (heap_ptr h + (span l1 + (12 + s + 0))) with (heap_ptr h + (span l1 + 12 + s)) by lia.
      eapply wp_mono; [apply (wp_join_blocks (set_lfree lf h) hm l1 s sz l2); by apply work_lfree|].
      intros [] h' (m' & hm' & -> & Hw'). exists m', hm'. split; [|exact Hw'].
      unfold lf. by replace (span l1 + (12 + s + 0)) with (span l1 + 12 + s) by lia.
Qed.

(** Joining two free blocks moves [lfree] off the second one. *)
Lemma lfree_ok_join low h h' l1 s1 s2 l3 :
  sizes (l1 ++ (s1, false) :: (s2, false) :: l3) → heap_ptr h' = heap_ptr h →
  lfree h' = (if lfree h =? heap_ptr h + (span l1 + 12 + s1) then heap_ptr h + span l1 else lfree h) →
  lfree_ok low h (l1 ++ (s1, false) :: (s2, false) :: l3) →
  lfree_ok low h' (l1 ++ (s1 + 12 + s2, false) :: l3).
Proof.
  intros Hs Hb Hl (a & b & E & Hlf & Hfree & Hlow). unfold lfree_ok. rewrite Hb, Hl, Hlf. symmetry in E.
  pose proof (sizes_split _ _ _ Hs) as (_ & Hz1 & [Hz2 _]%Forall_cons). simpl in Hz1, Hz2.
  destruct (split_around _ _ _ _ _ E) as [(k & -> & ->)|(k & -> & Ek)].
  - apply Forall_app in Hs as [[_ Hk]%Forall_app _]. pose proof (span_pos k Hk). rewrite span_app.
    rewrite (proj2 (Z.eqb_neq _ _)) by lia. exists a, (k ++ (s1 + 12 + s2, false) :: l3).
    rewrite app_assoc. split_and!; [done|done| |done]. by destruct k as [|[? []] ?].
  - destruct k as [|s k]; simpl in Ek.
    + rewrite span_app. simpl. replace (heap_ptr h + (span l1 + (12 + s1 + 0))) with (heap_ptr h + (span l1 + 12 + s1)) by lia.
      rewrite Z.eqb_refl. exists l1, ((s1 + 12 + s2, false) :: l3). split_and!; [done|done|done|].
      intros ->. by apply Forall_app in Hlow as [? _].
    + simplify_eq. apply Forall_app in Hs as [_ [_ [_ [Hk _]%Forall_app]%Forall_cons]%Forall_cons].
      pose proof (span_pos k Hk). rewrite span_app. simpl. rewrite (proj2 (Z.eqb_neq _ _)) by lia.
      exists (l1 ++ (s1 + 12 + s2, false) :: k), b. split_and!.
      * by rewrite <- app_assoc.
      * rewrite span_app. simpl. lia.
      * done.
      * intros ->. apply Forall_app in Hlow as [_ [? _]%Forall_cons]; [done|done].
Qed.

Lemma lfree_ok_fwd low h m l1 sz l2 :
  sizes (l1 ++ (sz, false) :: l2) → lfree_ok low h (l1 ++ (sz, false) :: l2) →
  lfree_ok low (set_mem_bytes m (set_lfree (lfree_fwd h l1 sz l2) h)) (l1 ++ ((fwd sz l2).1, false) :: (fwd sz l2).2).
Proof. intros Hs. destruct l2 as [|[s []] l3]; [done..|]. by apply lfree_ok_join. Qed.

Lemma lfree_ok_bwd low h m l1 sz l2 :
  sizes (l1 ++ (sz, false) :: l2) → lfree_ok low h (l1 ++ (sz, false) :: l2) →
  lfree_ok low (set_mem_bytes m (set_lfree (lfree_bwd h l1) h)) ((bwd l1 sz).1 ++ ((bwd l1 sz).2, false) :: l2).
Proof.
  destruct l1 as [|[s []] l1 _] using rev_ind; [done|..].
  - unfold lfree_bwd. by rewrite bwd_snoc_used, reverse_snoc.
  - unfold lfree_bwd. rewrite bwd_snoc_free, reverse_snoc, reverse_involutive, <- !app_assoc, span_app. simpl.
    intros Hs. apply lfree_ok_join; [done|done|]. simpl.
    by replace (span l1 + (12 + s + 0)) with (span l1 + 12 + s) by lia.
Qed.

Lemma wp_plug_holes low h hm l1 sz l2 :
  work D m0 h hm (l1 ++ (sz, false) :: l2) → lfree_ok low h (l1 ++ (sz, false) :: l2) →
  wp (plug_holes (heap_ptr h + span l1)) h (λ _ h', ∃ m' lf' hm',
    h' = set_mem_bytes m' (set_lfree lf' h) ∧ work D m0 h' hm' (plug l1 sz l2) ∧
    lfree_ok low h' (plug l1 sz l2)).
Proof.
  intros Hw Hlf. pose proof Hw as [Hv Hc Hs Hg]. pose proof (chain_split _ _ _ _ Hc) as (_ & Hx & _).
  pose proof Hs as (Hs1 & Hsz & Hs2)%sizes_split. simpl in Hsz. pose proof (span_pos _ Hs1). pose proof (span_pos _ Hs2).
  pose proof Hg as [Gb Ga Gs Gm Ge Gt]. rewrite span_app in Ge. simpl in Ge.
  unfold plug_holes. wp_step. wp_step. wp_step. apply wp_assert; [apply Z.leb_le; lia|].
  wp_step. apply wp_assert; [apply Z.ltb_lt; lia|].
  wp_step. eapply wp_get_used; [exact Hv|exact Hx|]. wp_step. apply wp_assert; [done|].
  wp_step. eapply wp_mono; [exact (wp_plug_forward h hm l1 sz l2 Hw)|]. intros [] h1 (m1 & hm1 & -> & Hw1).
  set (h1 := set_mem_bytes m1 _) in *.
  pose proof (lfree_ok_fwd low h m1 l1 sz l2 Hs Hlf) as Hlf1. fold h1 in Hlf1.
  change (heap_ptr h + span l1) with (heap_ptr h1 + span l1).
  eapply wp_mono; [exact (wp_plug_backward h1 hm1 l1 (fwd sz l2).1 (fwd sz l2).2 Hw1)|].
  intros [] h2 (m2 & hm2 & -> & Hw2). exists m2, (lfree_bwd h1 l1), hm2.
  pose proof (lfree_ok_bwd low h1 m2 l1 _ _ (wk_sizes _ _ _ _ _ Hw1) Hlf1) as Hlf2.
  assert (plug l1 sz l2 = (bwd l1 (fwd sz l2).1).1 ++ ((bwd l1 (fwd sz l2).1).2, false) :: (fwd sz l2).2) as ->.
  { unfold plug. destruct (fwd sz l2) as [sz' l2']. simpl. by destruct (bwd l1 sz'). }
  done.
Qed.
End plug.

(** * Freeing a block *)

Lemma fwd_facts sz l2 :
  12 + (fwd sz l2).1 + span (fwd sz l2).2 = 12 + sz + span l2 ∧ used_span (fwd sz l2).2 = used_span l2.
Proof. destruct l2 as [|[s []] l3]; simpl; [done..|]. rewrite used_span_cons. simpl. lia. Qed.

Lemma bwd_facts l1 sz :
  span (bwd l1 sz).1 + (bwd l1 sz).2 = span l1 + sz ∧ used_span (bwd l1 sz).1 = used_span l1.
Proof.
  destruct l1 as [|[s []] l1 _] using rev_ind; [done|by rewrite bwd_snoc_used|].
  rewrite bwd_snoc_free, span_app, used_span_app, used_span_cons. simpl. unfold used_span at 3. simpl. lia.
Qed.

Lemma plug_eq l1 sz l2 :
  plug l1 sz l2 = (bwd l1 (fwd sz l2).1).1 ++ ((bwd l1 (fwd sz l2).1).2, false) :: (fwd sz l2).2.
Proof. unfold plug. destruct (fwd sz l2) as [sz' l2']. simpl. by destruct (bwd l1 sz'). Qed.

(** Joining free blocks moves no boundary of a block in use. *)
Lemma plug_span l1 sz l2 :
  span (plug l1 sz l2) = span (l1 ++ (sz, false) :: l2) ∧
  used_span (plug l1 sz l2) = used_span l1 + used_span l2.
Proof.
  rewrite plug_eq, !span_app, used_span_app, used_span_cons. simpl.
  destruct (fwd_facts sz l2) as [? ?], (bwd_facts l1 (fwd sz l2).1) as [? ?]. lia.
Qed.

Lemma seg_ok_join s1 s2 u1 u2 u3 : seg_ok (s1, u1) → seg_ok (s2, u2) → seg_ok (s1 + 12 + s2, u3).
Proof.
  unfold seg_ok. simpl. intros [? ?] [? ?]. split; [lia|].
  rewrite Z.add_mod, (Z.add_mod s1 12) by lia. rewrite H0, H2. done.
Qed.

Lemma plug_ok l1 sz l2 :
  Forall seg_ok (l1 ++ (sz, false) :: l2) → Forall seg_ok (plug l1 sz l2).
Proof.
  intros [H1 [Hz H2]%Forall_cons]%Forall_app. rewrite plug_eq.
  assert (seg_ok ((fwd sz l2).1, false) ∧ Forall seg_ok (fwd sz l2).2) as [Hz' H2'].
  { destruct l2 as [|[s []] l3]; [done..|]. apply Forall_cons in H2 as [? ?]. simpl.
    split; [by eapply seg_ok_join|done]. }
  destruct l1 as [|[s []] l1 _] using rev_ind; [by constructor|..].
  - rewrite bwd_snoc_used. simpl. apply Forall_app. by split; [|constructor].
  - rewrite bwd_snoc_free. simpl. apply Forall_app in H1 as [H1 [Hs _]%Forall_cons].
    apply Forall_app. split; [done|]. constructor; [by eapply seg_ok_join|done].
Qed.

Lemma plug_merged l1 sz u l2 : merged false (l1 ++ (sz, u) :: l2) → merged false (plug l1 sz l2).
Proof.
  intros [H1 [Hu H2]]%merged_app. simpl in Hu, H2. rewrite plug_eq.
  assert (merged true (fwd sz l2).2) as H2'.
  { destruct l2 as [|[s []] l3]; simpl in *; tauto. }
  destruct l1 as [|[s []] l1 _] using rev_ind; [done|..].
  - rewrite bwd_snoc_used. apply merged_app. split; [done|]. simpl. by rewrite ends_free_app.
  - rewrite bwd_snoc_free. apply merged_app in H1 as [H1 [Hs _]]. simpl in Hs |- *.
    apply merged_app. by split; [|split].
Qed.

(** What an operation that takes the blocks from [l] to [l'] keeps. *)
Record heap_step (low : bool) (h h' : small_mem) (l l' : list seg) : Prop := {
  hp_ok : heap_ok low h' l';
  hp_ptr : heap_ptr h' = heap_ptr h;
  hp_size : mem_size_aligned h' = mem_size_aligned h;
  hp_data : ∀ b, used_data (heap_ptr h) l b → mem_bytes h' !! b = mem_bytes h !! b;
  hp_dom : ∀ b, is_Some (mem_bytes h !! b) → is_Some (mem_bytes h' !! b)
}.

Lemma heap_close_ok D low low' h h' hm l l' :
  heap_ok low h l → work D (mem_bytes h) h' hm l' →
  heap_ptr h' = heap_ptr h → span l' = span l → mem_size_aligned h' = mem_size_aligned h →
  Forall seg_ok l' → merged false l' → lfree_ok low' h' l' → used_mem h' = used_span l' →
  heap_ok low' h' l'.
Proof.
  intros [Hg _ _ _ Hmap _ _ _] [Hv Hc _ Hg'] Hp Hs Hm Hok Hme Hlf Hu. split; try done.
  - eapply chain_close; [apply (vw_header Hv)|done].
  - rewrite Hp, Hs. by eapply mapped_view.
  - apply Hv.
Qed.

Lemma heap_close low low' h h' hm l l' :
  heap_ok low h l → work (used_data (heap_ptr h) l) (mem_bytes h) h' hm l' →
  heap_ptr h' = heap_ptr h → span l' = span l → mem_size_aligned h' = mem_size_aligned h →
  Forall seg_ok l' → merged false l' → lfree_ok low' h' l' → used_mem h' = used_span l' →
  heap_step low' h h' l l'.
Proof.
  intros Hok Hw Hp Hs Hm Hok' Hme Hlf Hu. split; [by eapply heap_close_ok|done|done|..].
  - apply (vw_data (wk_view _ _ _ _ _ Hw)).
  - apply (vw_dom (wk_view _ _ _ _ _ Hw)).
Qed.

Lemma heap_work low h l : heap_ok low h l → ∃ hm,
  work (used_data (heap_ptr h) l) (mem_bytes h) h hm l ∧
  ∀ q y, hm !! q = Some y → ∃ l1 l2, l = l1 ++ l2 ∧ q = heap_ptr h + span l1.
Proof.
  intros Hok. destruct (heap_open low h l Hok) as (hm & Hv & Hc & Hq). exists hm. split; [|done].
  split; [done|done|apply seg_ok_sizes, Hok|apply Hok].
Qed.

(** [lfree] after a block has been freed. *)
Lemma lfree_ok_free low h h' l1 sz l2 :
  sizes (l1 ++ (sz, true) :: l2) → heap_ptr h' = heap_ptr h →
  lfree h' = (if heap_ptr h + span l1 <? lfree h then heap_ptr h + span l1 else lfree h) →
  lfree_ok low h (l1 ++ (sz, true) :: l2) → lfree_ok low h' (l1 ++ (sz, false) :: l2).
Proof.
  intros Hs Hb Hl (a & b & E & Hlf & Hfree & Hlow). unfold lfree_ok. rewrite Hb, Hl, Hlf. symmetry in E.
  pose proof (sizes_split _ _ _ Hs) as (Hs1 & Hz & Hs2). simpl in Hz.
  destruct (split_around _ _ _ _ _ E) as [(k & -> & ->)|(k & -> & ->)].
  - apply Forall_app in Hs1 as [_ Hk]. pose proof (span_pos k Hk). rewrite span_app.
    rewrite (proj2 (Z.ltb_ge _ _)) by lia. exists a, (k ++ (sz, false) :: l2).
    rewrite app_assoc. split_and!; [done|done| |done]. by destruct k as [|[? []] ?].
  - apply Forall_app in Hs2 as [Hk _]. pose proof (span_pos k Hk). rewrite span_app. simpl.
    rewrite (proj2 (Z.ltb_lt _ _)) by lia. exists l1, ((sz, false) :: k ++ b).
    split_and!; [done|done|done|]. intros ->. by apply Forall_app in Hlow as [? _].
Qed.

Lemma u32_sub x y n : 0 <= y <= x → x < n → n <= 2 ^ 32 → u32 (x - u32 y) = x - y.
Proof. intros. unfold wrap. rewrite (Z.mod_small y), Z.mod_small by lia. done. Qed.

Lemma wp_free_block low h l1 sz l2 :
  heap_ok low h (l1 ++ (sz, true) :: l2) →
  wp (free_block (heap_ptr h + span l1)) h (λ _ h',
    heap_step low h h' (l1 ++ (sz, true) :: l2) (plug l1 sz l2)).
Proof.
  intros Hok. destruct (heap_work _ _ _ Hok) as (hm & Hw & _). pose proof Hw as [Hv Hc Hs Hg].
  pose proof (chain_split _ _ _ _ Hc) as (H1 & Hx & H2). simpl in H2.
  pose proof Hs as (Hs1 & Hsz & Hs2)%sizes_split. simpl in Hsz. pose proof (span_pos _ Hs1). pose proof (span_pos _ Hs2).
  pose proof Hg as [Gb Ga Gs Gm Ge Gt]. rewrite span_app in Gs, Ge, Gt. simpl in Gs, Ge, Gt.
  unfold free_block. wp_step. eapply wp_get_used; [exact Hv|exact Hx|]. wp_step. apply wp_assert; [done|].
  wp_step. eapply wp_get_magic; [exact Hv|exact Hx|]. wp_step. apply wp_assert; [done|].
  wp_step. eapply wp_put_used; [exact Hv|exact Hx|done|]. intros m1 Hv1.
  wp_step. eapply wp_put_magic; [exact Hv1|apply lookup_insert_eq|done|]. intros m2 Hv2.
  rewrite insert_insert_eq in Hv2. wp_step. wp_step. simpl. rewrite lfree_if.
  match goal with |- context [set_lfree ?v _] => set (lf := v) end.
  wp_step. eapply wp_get_next; [exact Hv2|apply lookup_insert_eq|]. simpl.
  wp_step. eapply (wp_offset_of _ (span (l1 ++ (sz, true) :: l2)) _ (span l1)); [by destruct Hg|done|rewrite span_app; simpl; lia|].
  wp_step. wp_step. simpl.
  match goal with |- wp _ ?s _ => set (h1 := s) end.
  match type of Hv2 with view _ _ _ ?m => set (hm1 := m) in Hv2 end.
  assert (work (used_data (heap_ptr h) (l1 ++ (sz, true) :: l2)) (mem_bytes h) h1 hm1 (l1 ++ (sz, false) :: l2)) as Hw1.
  { split; [exact Hv2| | |].
    - apply chain_join.
      + apply segs_insert; [done|simpl; lia|done].
      + unfold in_map, hm1. by rewrite lookup_insert_eq.
      + apply blocks_insert; [done|simpl; lia|done].
    - apply Forall_app. by split; [|constructor].
    - destruct Hg. rewrite span_app in *. by split. }
  assert (lfree_ok low h1 (l1 ++ (sz, false) :: l2)) as Hlf1.
  { eapply (lfree_ok_free low h); [done|done|done|apply Hok]. }
  change (heap_ptr h + span l1) with (heap_ptr h1 + span l1).
  eapply wp_mono; [exact (wp_plug_holes low h1 hm1 l1 sz l2 Hw1 Hlf1)|].
  intros [] h2 (m3 & lf3 & hm3 & -> & Hw3 & Hlf3). destruct (plug_span l1 sz l2) as [Esp Eus].
  eapply heap_close; [exact Hok|exact Hw3|done| |done| | |exact Hlf3|].
  - by rewrite Esp, !span_app.
  - apply plug_ok. by destruct Hok as [_ [? [? ?]%Forall_cons]%Forall_app _ _ _ _ _ _]; apply Forall_app; split; [|constructor].
  - eapply plug_merged, Hok.
  - simpl. rewrite Eus, (ho_used _ _ _ Hok), used_span_app, used_span_cons. simpl.
    pose proof (used_span_range _ Hs1). pose proof (used_span_range _ Hs2).
    replace (span l1 + 12 + sz - span l1) with (12 + sz) by lia.
    unfold wrap. rewrite (Z.mod_small (12 + sz)), Z.mod_small by lia. lia.
Qed.

(** * Splitting a block *)

Section split.
Context {D : Z → Prop} {m0 : ram}.

(** A new header inside the data of a block that is not protected. *)
Lemma view_inside h hm l1 sz u l2 size :
  work D m0 h hm (l1 ++ (sz, u) :: l2) →
  (∀ q y, hm !! q = Some y → ∃ k1 k2, l1 ++ (sz, u) :: l2 = k1 ++ k2 ∧ q = heap_ptr h + span k1) →
  mapped (mem_bytes h) (heap_ptr h) (Z.to_nat (span (l1 ++ (sz, u) :: l2) + 12)) →
  0 <= size → size + 12 <= sz →
  let p2 := heap_ptr h + (span l1 + 12 + size) in
  (∀ b, D b → b < p2 ∨ p2 + 12 <= b) →
  (∀ q y, hm !! q = Some y → q ≠ p2) ∧ ∃ x, view D m0 (mem_bytes h) (<[p2 := x]> hm).
Proof.
  intros [Hv Hc Hs Hg] Hq Hmap Hsize Hsz p2 Hoff.
  pose proof Hs as (Hs1 & Hz & Hs2)%sizes_split. simpl in Hz. pose proof (span_pos _ Hs1). pose proof (span_pos _ Hs2).
  assert (∀ q y, hm !! q = Some y → p2 + 12 <= q ∨ q + 12 <= p2) as Hap.
  { intros q y Hy. destruct (Hq q y Hy) as (k1 & k2 & E & ->). unfold p2.
    destruct (positions l1 ((sz, u) :: l2) k1 k2 E Hs) as [[-> _]|[(s & k & [= <- <-] & ?)|(s & k & -> & ?)]].
    - right. lia.
    - left. simpl in *. lia.
    - rewrite E in Hs. apply Forall_app in Hs as [_ [? _]%Forall_cons]. right. lia. }
  split.
  - intros q y Hy ->. destruct (Hap _ _ Hy); lia.
  - apply view_new; [done| |done|done]. eapply mapped_le; [exact Hmap|unfold p2; lia|].
    rewrite span_app. simpl. unfold p2. lia.
Qed.

Lemma wp_split_block mark h hm l1 sz u l2 size :
  work D m0 h hm (l1 ++ (sz, u) :: l2) →
  (∀ q y, hm !! q = Some y → ∃ k1 k2, l1 ++ (sz, u) :: l2 = k1 ++ k2 ∧ q = heap_ptr h + span k1) →
  mapped (mem_bytes h) (heap_ptr h) (Z.to_nat (span (l1 ++ (sz, u) :: l2) + 12)) →
  0 <= size → size + 12 <= sz →
  let p2 := heap_ptr h + (span l1 + 12 + size) in
  (∀ b, D b → b < p2 ∨ p2 + 12 <= b) →
  wp (split_block mark (heap_ptr h + span l1) (span l1) (span l1 + 12 + size)) h (λ r h', r = p2 ∧
    ∃ m' hm', h' = set_mem_bytes m' h ∧
      work D m0 h' hm' (l1 ++ (size, mark || u) :: (sz - size - 12, false) :: l2)).
Proof.
  intros Hw Hq Hmap Hsize Hsz p2 Hoff. destruct (view_inside h hm l1 sz u l2 size Hw Hq Hmap Hsize Hsz Hoff) as [Hnew [x2 Hv]].
  fold p2 in Hv. destruct Hw as [_ Hc Hs Hg]. pose proof (chain_split _ _ _ _ Hc) as (H1 & Hx & H2). simpl in H2.
  pose proof Hs as (Hs1 & Hz & Hs2)%sizes_split. simpl in Hz. pose proof (span_pos _ Hs1). pose proof (span_pos _ Hs2).
  rewrite span_app in Hg. simpl in Hg. pose proof Hg as [Gb Ga Gs Gm Ge Gt].
  set (p := heap_ptr h + span l1) in *. assert (p ≠ p2) as Hne by (unfold p, p2; lia).
  unfold split_block. wp_step. wp_step. wp_step. eapply wp_block_at; [exact Hg|lia|]. fold p2.
  wp_step. eapply wp_put_magic; [exact Hv|apply lookup_insert_eq|done|]. intros m1 Hv1. rewrite insert_insert_eq in Hv1.
  wp_step. eapply wp_put_used; [exact Hv1|apply lookup_insert_eq|done|]. intros m2 Hv2. rewrite insert_insert_eq in Hv2.
  wp_step. eapply wp_get_next; [exact Hv2|rewrite lookup_insert_ne by done; exact Hx|]. simpl.
  wp_step. eapply wp_put_next; [exact Hv2|apply lookup_insert_eq|lia|]. intros m3 Hv3. rewrite insert_insert_eq in Hv3.
  wp_step. eapply wp_put_prev; [exact Hv3|apply lookup_insert_eq|lia|]. intros m4 Hv4. rewrite insert_insert_eq in Hv4.
  wp_step. eapply wp_put_next; [exact Hv4|rewrite lookup_insert_ne by done; exact Hx|lia|]. intros m5 Hv5.
  match type of Hv5 with view _ _ _ (<[_ := ?a]> (<[_ := ?b]> _)) => set (y := a) in Hv5; set (x := b) in Hv5 end.
  assert (x = seg_header (span l1) (span l1 + 12 + size) (sz - size - 12, false)) as Ex.
  { unfold x, seg_header, hset_prev, hset_next, hset_used, hset_magic. simpl. f_equal. lia. }
  wp_step.
  eapply (wp_mono _ _ (λ _ h', ∃ m', h' = set_mem_bytes m' h ∧ view D m0 m'
    (<[p := seg_header (last_off 0 0 l1) (span l1) (size, mark || u)]> (<[p2 := x]> hm)))).
  { destruct mark; simpl when.
    - eapply wp_put_used; [exact Hv5|apply lookup_insert_eq|done|]. intros m6 Hv6. rewrite insert_insert_eq in Hv6.
      by exists m6.
    - wp_step. by exists m5. }
  intros [] h6 (m6 & -> & Hv6). set (hm6 := <[p := _]> (<[p2 := x]> hm)) in Hv6.
  assert (hm6 !! p2 = Some x) as Hp2 by (unfold hm6; rewrite lookup_insert_ne by done; apply lookup_insert_eq).
  assert (chain (in_map (heap_ptr h) hm6) (span l1) (span l1 + 12 + sz) l2) as H2'.
  { apply blocks_insert; [done|unfold p; lia|]. apply blocks_insert; [done|unfold p2; lia|done]. }
  wp_step. eapply wp_get_next; [exact Hv6|exact Hp2|]. rewrite Ex. simpl hm_next. wp_step.
  eapply (wp_mono _ _ (λ _ h', ∃ m' hm', h' = set_mem_bytes m' h ∧ view D m0 m' hm' ∧
    (∀ q, q < heap_ptr h + (span l1 + 12 + sz) → hm' !! q = hm6 !! q) ∧
    chain (in_map (heap_ptr h) hm') (span l1 + 12 + size) (span l1 + 12 + sz) l2)).
  { replace (span l1 + 12 + size + 12 + (sz - size - 12)) with (span l1 + 12 + sz) by lia.
    destruct (chain_head _ _ _ _ _ Hs2 H2') as (z & Hzz & _ & Hre). case_match eqn:E.
    - wp_step. eapply wp_block_at; [by destruct Hg|lia|]. simpl.
      eapply wp_put_prev; [exact Hv6|exact Hzz|lia|]. intros m7 Hv7. exists m7. eexists. split; [done|].
      split; [exact Hv7|]. split; [|apply Hre]. intros q Hlt. by rewrite lookup_insert_ne by lia.
    - wp_step. exists m6, hm6. split; [done|]. split; [done|]. split; [done|].
      apply negb_false_iff, Z.eqb_eq in E. unfold wrap in E. rewrite Z.mod_small in E by (unfold SIZEOF_STRUCT_MEM; lia).
      unfold SIZEOF_STRUCT_MEM in E. destruct l2 as [|s l2]; [done|]. simpl in Gs.
      apply Forall_cons in Hs2 as [? Hs2]. pose proof (span_pos _ Hs2). lia. }
  intros [] h7 (m7 & hm7 & -> & Hv7 & Hsame & H7). wp_step. split; [done|]. exists m7, hm7. split; [done|].
  split; [exact Hv7| | |].
  - simpl heap_ptr. apply chain_join; simpl fst.
    + eapply segs_mono; [done| |exact H1]. intros o y' Ho Hy'. unfold in_map in *. rewrite Hsame by lia.
      unfold hm6. rewrite !lookup_insert_ne by (unfold p, p2; lia). done.
    + unfold in_map. rewrite Hsame by lia. unfold hm6. by rewrite lookup_insert_eq.
    + split.
      * unfold in_map. rewrite Hsame by lia. fold p2. by rewrite Hp2, Ex.
      * simpl. by replace (span l1 + 12 + size + 12 + (sz - size - 12)) with (span l1 + 12 + sz) by lia.
  - apply Forall_app. split; [done|]. constructor; [done|]. constructor; [simpl; lia|done].
  - rewrite span_app. simpl. destruct Hg. split; simpl in *; lia.
Qed.
End split.

(** * Allocating a block *)

Definition starts_used (l : list seg) : Prop := match l with (_, true) :: _ => True | _ => False end.

(** The loop that looks for the next free block. *)
Lemma wp_lfree_loop fuel D m0 h hm prev off l :
  view D m0 (mem_bytes h) hm → chain (in_map (heap_ptr h) hm) prev off l → sizes l →
  geometry h (off + span l) → 0 <= off → lfree h = heap_ptr h + off → (length l < fuel)%nat →
  wp (lfree_loop fuel) h (λ _ h', ∃ a b, l = a ++ b ∧ Forall (λ s, s.2 = true) a ∧
    ¬ starts_used b ∧ h' = set_lfree (heap_ptr h + off + span a) h).
Proof.
  revert h prev off l. induction fuel as [|fuel IH]; intros h prev off l Hv Hc Hs Hg Hoff Hlf Hf; [lia|].
  destruct (chain_head _ _ _ _ _ Hs Hc) as (x & Hx & Hu & _). rewrite <- Hlf in Hx.
  cbn [lfree_loop]. wp_step. wp_step. wp_step. eapply wp_get_used; [exact Hv|exact Hx|]. rewrite Hu.
  destruct Hs as [|[s u] l Hs0 Hs].
  - rewrite (proj2 (Z.eqb_eq (lfree h) _)); [|destruct Hg; simpl in *; lia]. rewrite andb_false_r. wp_step.
    exists [], []. split_and!; [done|by constructor|by intros []|]. simpl. rewrite Z.add_0_r, <- Hlf. by destruct h.
  - destruct Hc as [Hx' Hc]. unfold in_map in Hx'. rewrite <- Hlf, Hx in Hx'. simplify_eq. simpl in *.
    destruct u; simpl.
    + pose proof (span_pos l Hs). rewrite (proj2 (Z.eqb_neq (lfree h) _)); [|destruct Hg; lia]. simpl.
      wp_step. eapply wp_get_next; [exact Hv|exact Hx|]. simpl. wp_step. eapply wp_block_at; [exact Hg|lia|].
      wp_step. wp_step. replace (off + (12 + s + span l)) with (off + 12 + s + span l) in Hg by lia.
      eapply wp_mono; [apply (IH (set_lfree (heap_ptr h + (off + 12 + s)) h) off (off + 12 + s) l);
        [done|done|done|by destruct Hg|lia|done|lia]|].
      intros [] h' (a & b & -> & Ha & Hb & ->). exists ((s, true) :: a), b. simpl.
      split_and!; [done|by constructor|done|]. unfold set_lfree. simpl. f_equal. lia.
    + wp_step. exists [], ((s, false) :: l). split_and!; [done|by constructor|by intros []|].
      simpl. rewrite Z.add_0_r, <- Hlf. by destruct h.
Qed.

(** The block that is allocated, and what is left of it. *)
Definition carve (sz size : Z) : list seg :=
  if size + 24 <=? sz then [(size, true); (sz - size - 12, false)] else [(sz, true)].

Lemma carve_facts sz size :
  span (carve sz size) = 12 + sz ∧
  ∃ n, 12 + n = used_span (carve sz size) ∧ n = (if size + 24 <=? sz then size else sz).
Proof.
  unfold carve. destruct (size + 24 <=? sz); simpl; (split; [lia|]); eexists; (split; [|reflexivity]);
    rewrite !used_span_cons; unfold used_span; simpl; lia.
Qed.

Lemma lfree_not_used low h l : lfree_ok low h l →
  ∃ a b, l = a ++ b ∧ lfree h = heap_ptr h + span a ∧ ¬ starts_used b ∧
    (low = true → Forall (λ s, s.2 = true) a).
Proof. intros (a & b & ? & ? & Hb & ?). exists a, b. split_and!; [done|done| |done]. destruct b as [|[? []] ?]; [by intros []|done|by intros []]. Qed.

Lemma lfree_intro low h a b :
  lfree h = heap_ptr h + span a → ¬ starts_used b → (low = true → Forall (λ s, s.2 = true) a) →
  lfree_ok low h (a ++ b).
Proof. intros H1 H2 H3. exists a, b. split_and!; [done|done| |done]. destruct b as [|[? []] ?]; [done|by apply H2|done]. Qed.

(** [lfree] when another block than the one it designates is taken. *)
Lemma lfree_ok_take low h h' l1 sz l2 size :
  sizes (l1 ++ (sz, false) :: l2) → heap_ptr h' = heap_ptr h → lfree h' = lfree h →
  lfree h ≠ heap_ptr h + span l1 → lfree_ok low h (l1 ++ (sz, false) :: l2) →
  lfree_ok low h' (l1 ++ carve sz size ++ l2).
Proof.
  intros Hs Hb Hl Hne (a & b & E & Hlf & Hfree & Hlow)%lfree_not_used. symmetry in E.
  destruct (split_around _ _ _ _ _ E) as [(k & -> & ->)|(k & -> & ->)].
  - rewrite <- app_assoc. apply lfree_intro; [by rewrite Hb, Hl| |done].
    destruct k as [|[? []] k]; [|done..]. exfalso. apply Hne. by rewrite app_nil_r.
  - assert (l1 ++ carve sz size ++ k ++ b = (l1 ++ carve sz size ++ k) ++ b) as -> by by rewrite <- !app_assoc.
    apply lfree_intro; [|done|].
    + rewrite Hb, Hl, Hlf, !span_app. destruct (carve_facts sz size) as [-> _]. simpl. lia.
    + intros ->. by apply Forall_app in Hlow as [_ [? _]%Forall_cons].
Qed.

Lemma length_span l : sizes l → 12 * Z.of_nat (length l) <= span l.
Proof. induction 1 as [|s l Hs0 _ IH]; simpl in *; lia. Qed.

Lemma fuel_enough h l : geometry h (span l) → sizes l → (length l < mem_fuel h)%nat.
Proof.
  intros [? ? Gs ? ? ?] Hlen%length_span.
  unfold mem_fuel, SIZEOF_STRUCT_MEM.
  assert (Z.of_nat (length l) <= mem_size_aligned h / 12 + 1).
  { pose proof (Z.div_mod (mem_size_aligned h) 12). pose proof (Z.mod_pos_bound (mem_size_aligned h) 12). lia. }
  lia.
Qed.

Lemma wp_count_used h n (Q : unit → small_mem → Prop) :
  (∀ mx, Q tt (set_max_mem mx (set_used_mem (u32 (used_mem h + n)) h))) → wp (count_used n) h Q.
Proof.
  intros HQ. unfold count_used. wp_step. wp_step. wp_step. simpl. case_match; [apply HQ|].
  replace (set_used_mem _ h) with (set_max_mem (max_mem h) (set_used_mem (u32 (used_mem h + n)) h)) by by destruct h.
  apply HQ.
Qed.

Lemma work_count D m0 h hm l mx um : work D m0 h hm l → work D m0 (set_max_mem mx (set_used_mem um h)) hm l.
Proof. intros [? ? ? []]. by split. Qed.

Lemma wp_malloc_cut low h l1 sz l2 size :
  heap_ok low h (l1 ++ (sz, false) :: l2) → 12 <= size <= sz →
  wp (malloc_cut (heap_ptr h + span l1) (span l1) size) h (λ _ h', ∃ m' mx hm',
    h' = set_max_mem mx (set_used_mem (used_mem h + used_span (carve sz size)) (set_mem_bytes m' h)) ∧
    work (used_data (heap_ptr h) (l1 ++ (sz, false) :: l2)) (mem_bytes h) h' hm' (l1 ++ carve sz size ++ l2)).
Proof.
  intros Hok Hsize. destruct (heap_work _ _ _ Hok) as (hm & Hw & Hq). pose proof Hw as [Hv Hc Hs Hg].
  pose proof (chain_split _ _ _ _ Hc) as (H1 & Hx & H2). simpl in H2.
  pose proof Hs as (Hs1 & Hsz & Hs2)%sizes_split. simpl in Hsz. pose proof (span_pos _ Hs1). pose proof (span_pos _ Hs2).
  pose proof Hg as [Gb Ga Gs Gm Ge Gt]. rewrite span_app in Gs, Ge, Gt. simpl in Gs, Ge, Gt.
  pose proof (used_span_range _ Hs1). pose proof (used_span_range _ Hs2).
  assert (used_mem h = used_span l1 + used_span l2) as Hu.
  { rewrite (ho_used _ _ _ Hok), used_span_app, used_span_cons. simpl. lia. }
  destruct (carve_facts sz size) as [_ (n & En & Enn)]. rewrite <- En.
  assert (u32 (used_mem h + (12 + n)) = used_mem h + (12 + n)) as Eu.
  { unfold wrap. apply Z.mod_small. destruct (size + 24 <=? sz); lia. }
  unfold malloc_cut, SIZEOF_STRUCT_MEM, MIN_SIZE_ALIGNED. wp_step. eapply wp_get_next; [exact Hv|exact Hx|]. simpl.
  replace (u32 (span l1 + 12 + sz - u32 (span l1 + 12))) with sz
    by (unfold wrap; rewrite (Z.mod_small (span l1 + 12)), Z.mod_small; lia).
  replace (u32 (size + 12 + 12)) with (size + 24) by (unfold wrap; rewrite Z.mod_small; lia).
  unfold carve. destruct (Z.leb_spec (size + 24) sz) as [Hle|Hle]; subst n.
  - wp_step. replace (u32 (span l1 + 12 + size)) with (span l1 + 12 + size) by (unfold wrap; rewrite Z.mod_small; lia).
    eapply wp_mono; [apply (wp_split_block true h hm l1 sz false l2 size Hw Hq); [apply Hok|lia|lia|]|].
    { intros b (k1 & z & k2 & E & Hb).
      destruct (positions _ _ _ _ E Hs) as [[_ ?]|[(s & k & [= <- <-] & ?)|(s & k & [= <- <-] & ?)]]; [done|simpl in *; lia..]. }
    intros p2 h1 (-> & m1 & hm1 & -> & Hw1). apply wp_count_used. intros mx. simpl.
    replace (size + 12) with (12 + size) by lia. rewrite Eu. exists m1, mx, hm1. split; [done|].
    by apply (work_count _ _ (set_mem_bytes m1 h)).
  - wp_step. eapply wp_put_used; [exact Hv|exact Hx|done|]. intros m1 Hv1.
    wp_step. eapply wp_get_next; [exact Hv1|apply lookup_insert_eq|]. simpl.
    wp_step. eapply (wp_offset_of _ (span (l1 ++ (sz, false) :: l2)) _ (span l1)); [by destruct Hg|done|rewrite span_app; simpl; lia|].
    apply wp_count_used. intros mx. simpl.
    replace (u32 (span l1 + 12 + sz - span l1)) with (12 + sz) by (unfold wrap; rewrite Z.mod_small; lia).
    rewrite Eu. exists m1, mx. eexists. split; [done|]. apply (work_count _ _ (set_mem_bytes m1 h)).
    split; [exact Hv1| | |].
    + simpl. apply chain_join; [apply segs_insert; [done|lia|done]| |apply blocks_insert; [done|simpl; lia|done]].
      unfold in_map. by rewrite lookup_insert_eq.
    + simpl. apply Forall_app. by split; [|constructor].
    + destruct Hg. simpl. rewrite span_app in *. by split.
Qed.

Lemma carve_cons sz size : ∃ r, carve sz size = ((if size + 24 <=? sz then size else sz), true) :: r.
Proof. unfold carve. case_match; eauto. Qed.

Lemma carve_ok sz size :
  seg_ok (sz, false) → 12 <= size <= sz → size mod 4 = 0 → Forall seg_ok (carve sz size).
Proof.
  unfold carve, seg_ok. simpl. intros [? Hz] ? Hm. destruct (Z.leb_spec (size + 24) sz);
    repeat constructor; simpl; try lia.
  rewrite Zminus_mod, (Zminus_mod sz size), Hz, Hm. done.
Qed.

Lemma carve_merged f l1 sz size l2 :
  merged f (l1 ++ (sz, false) :: l2) → merged f (l1 ++ carve sz size ++ l2).
Proof.
  intros [H1 [H2 H3]]%merged_app. simpl in H2, H3. apply merged_app. split; [done|].
  unfold carve. destruct (size + 24 <=? sz); simpl; [done|]. split; [done|].
  destruct l2 as [|[? []] ?]; simpl in *; tauto.
Qed.

(** The search for the next free block, when the lowest one has been taken. *)
Lemma wp_malloc_lfree low D m0 h hm l1 n r :
  work D m0 h hm (l1 ++ (n, true) :: r) →
  (lfree h = heap_ptr h + span l1 → low = true → Forall (λ s, s.2 = true) l1) →
  (lfree h ≠ heap_ptr h + span l1 → lfree_ok low h (l1 ++ (n, true) :: r)) →
  wp (if heap_ptr h + span l1 =? lfree h then
        lfree_loop (mem_fuel h);;
        h ← get;
        u ← get_used (lfree h);
        rt_assert ((lfree h =? heap_end h) || (u =? 0))
      else mret tt) h (λ _ h', ∃ lf, h' = set_lfree lf h ∧ lfree_ok low h' (l1 ++ (n, true) :: r)).
Proof.
  intros [Hv Hc Hs Hg] Hlow Helse. destruct (Z.eqb_spec (heap_ptr h + span l1) (lfree h)) as [E|E].
  - apply chain_app in Hc as [_ Hc]. apply Forall_app in Hs as [Hs1 Hs2]. pose proof (span_pos _ Hs1).
    pose proof (fuel_enough h (l1 ++ (n, true) :: r) Hg) as Hf. rewrite length_app in Hf.
    wp_step. eapply wp_mono; [apply (wp_lfree_loop _ D m0 h hm _ _ _ Hv Hc Hs2)|].
    + by rewrite span_app in Hg.
    + lia.
    + simpl. lia.
    + simpl in *. specialize (Hf ltac:(by apply Forall_app)). lia.
    + intros [] h' (a & b & Eab & Ha & Hb & ->). wp_step. wp_step. wp_step. simpl.
      rewrite Eab in Hc, Hs2. apply chain_app in Hc as [_ Hc]. apply Forall_app in Hs2 as [Hsa Hsb].
      destruct (chain_head _ _ _ _ _ Hsb Hc) as (x & Hx & Hu & _).
      replace (heap_ptr h + (0 + span l1 + span a)) with (heap_ptr h + (0 + span l1) + span a) in Hx by lia.
      eapply wp_get_used; [exact Hv|exact Hx|]. rewrite Hu. apply wp_assert.
      * destruct b as [|[? []] b]; [|by destruct Hb|by rewrite orb_true_r].
        rewrite (proj2 (Z.eqb_eq _ (heap_end h))); [done|]. rewrite app_nil_r in Eab.
        destruct Hg as [_ _ _ _ Ge _]. rewrite Eab, span_app in Ge. lia.
      * eexists. split; [done|]. rewrite Eab, app_assoc. apply lfree_intro; [|done|].
        -- simpl. rewrite span_app. lia.
        -- intros Hl. apply Forall_app. split; [by apply Hlow|done].
  - wp_step. exists (lfree h). split; [by destruct h|]. replace (set_lfree (lfree h) h) with h by by destruct h.
    by apply Helse.
Qed.

Lemma wp_malloc_take low h l1 sz l2 size :
  heap_ok low h (l1 ++ (sz, false) :: l2) → 12 <= size <= sz → size mod 4 = 0 →
  wp (malloc_take (heap_ptr h + span l1) (span l1) size) h (λ _ h',
    heap_step low h h' (l1 ++ (sz, false) :: l2) (l1 ++ carve sz size ++ l2)).
Proof.
  intros Hok Hsize Hmod. unfold malloc_take. wp_step.
  eapply wp_mono; [by apply (wp_malloc_cut low h l1 sz l2 size)|]. intros [] h1 (m1 & mx & hm1 & E1 & Hw1).
  pose proof Hw1 as [Hv1 Hc1 Hs1 Hg1]. destruct (carve_cons sz size) as [r Er].
  set (n := if size + 24 <=? sz then size else sz) in Er. rewrite Er in Hc1. simpl in Hc1.
  pose proof (chain_split _ _ _ _ Hc1) as (_ & Hx1 & _).
  assert (heap_ptr h1 = heap_ptr h ∧ lfree h1 = lfree h) as [Ep El] by by rewrite E1. rewrite <- Ep.
  wp_step. eapply wp_put_magic; [exact Hv1|exact Hx1|done|]. intros m2 Hv2.
  rewrite insert_id in Hv2 by exact Hx1. wp_step. wp_step.
  set (h2 := set_mem_bytes m2 h1). change (heap_ptr h1) with (heap_ptr h2).
  assert (work (used_data (heap_ptr h) (l1 ++ (sz, false) :: l2)) (mem_bytes h) h2 hm1 (l1 ++ (n, true) :: r ++ l2)) as Hw2.
  { rewrite Er in Hs1, Hg1. split; [exact Hv2|exact Hc1|exact Hs1|by destruct Hg1]. }
  eapply wp_mono; [apply (wp_malloc_lfree low _ _ h2 hm1 l1 n (r ++ l2) Hw2)|].
  - simpl. rewrite El, Ep. intros E Hl. destruct (ho_lfree _ _ _ Hok) as (a & b & Eab & Hlf & _ & Hlow).
    pose proof (seg_ok_sizes _ (ho_segs _ _ _ Hok)) as Hs.
    destruct (positions _ _ _ _ Eab Hs) as [[-> _]|[(s & k & [= <- <-] & ?)|(s & k & -> & ?)]]; [by apply Hlow|..].
    + apply sizes_split in Hs as (_ & ? & _). simpl in *. lia.
    + rewrite Eab in Hs. apply sizes_split in Hs as (_ & ? & _). lia.
  - simpl. rewrite El, Ep. intros E. change ((n, true) :: r ++ l2) with (((n, true) :: r) ++ l2). rewrite <- Er.
    apply (lfree_ok_take low h h2); [apply seg_ok_sizes, Hok|done|done|done|apply Hok].
  - intros [] h3 (lf & -> & Hlf). apply (work_lfree _ _ _ lf) in Hw2.
    change ((n, true) :: r ++ l2) with (((n, true) :: r) ++ l2) in Hw2, Hlf. rewrite <- Er in Hw2, Hlf.
    pose proof (ho_segs _ _ _ Hok) as [Ho1 [Hoz Ho2]%Forall_cons]%Forall_app. destruct (carve_facts sz size) as [Ec _].
    eapply heap_close; [exact Hok|exact Hw2|done| | | | |exact Hlf|].
    + rewrite !span_app, Ec. simpl. lia.
    + simpl. by rewrite E1.
    + rewrite !Forall_app. split_and!; [done|by apply carve_ok|done].
    + apply carve_merged, Hok.
    + simpl. rewrite E1. simpl. rewrite (ho_used _ _ _ Hok), !used_span_app, used_span_cons. simpl. lia.
Qed.

(** * First fit *)

(** Allocation of [size] bytes in the blocks [l] that start at [off]: the first free block
    that is large enough, among those below [limit]; the result is its offset and the
    blocks after the allocation. *)
Fixpoint first_fit (limit size off : Z) (l : list seg) : option (Z * list seg) :=
  match l with
  | [] => None
  | (sz, u) :: l =>
      if off <? limit then
        if negb u && (size <=? sz) then Some (off, carve sz size ++ l)
        else '(o, l') ← first_fit limit size (off + 12 + sz) l; Some (o, (sz, u) :: l')
      else None
  end.

Lemma first_fit_split limit size off l o l' :
  first_fit limit size off l = Some (o, l') →
  ∃ l1 sz l2, l = l1 ++ (sz, false) :: l2 ∧ l' = l1 ++ carve sz size ++ l2 ∧
    o = off + span l1 ∧ size <= sz ∧ o < limit.
Proof.
  revert off l'. induction l as [|[sz u] l IH]; intros off l'; simpl; [done|].
  destruct (Z.ltb_spec off limit); [|done]. case_match eqn:E.
  - intros [= <- <-]. apply andb_true_iff in E as [E1%negb_true_iff E2%Z.leb_le]. subst u.
    exists [], sz, l. simpl. split_and!; [done|done|lia|done|lia].
  - destruct (first_fit limit size (off + 12 + sz) l) as [[o1 l1']|] eqn:E1; simpl; [|done].
    intros [= <- <-]. destruct (IH _ _ E1) as (l1 & z & l2 & -> & -> & -> & ? & ?).
    exists ((sz, u) :: l1), z, l2. simpl. split_and!; [done|done|lia|done|lia].
Qed.

(** The blocks in use at the front are skipped. *)
Lemma first_fit_skip limit size off a b :
  sizes a → Forall (λ s, s.2 = true) a →
  first_fit limit size off (a ++ b) =
    ('(o, l') ← first_fit limit size (off + span a) b; Some (o, a ++ l')).
Proof.
  intros Hs. revert off. induction Hs as [|[sz u] a Hz Hs IH]; intros off Ha; simpl.
  { rewrite Z.add_0_r. by destruct (first_fit limit size off b) as [[]|]. }
  apply Forall_cons in Ha as [Hu Ha]. simpl in Hu, Hz. subst u. simpl. pose proof (span_pos a Hs).
  replace (off + (12 + sz + span a)) with (off + 12 + sz + span a) by lia.
  destruct (Z.ltb_spec off limit).
  - rewrite IH by done. by destruct (first_fit limit size (off + 12 + sz + span a) b) as [[]|].
  - destruct b as [|[z u] b]; simpl; [done|]. by rewrite (proj2 (Z.ltb_ge _ _)) by lia.
Qed.

Lemma wp_malloc_loop fuel low h l1 l2 size :
  heap_ok low h (l1 ++ l2) → 12 <= size <= mem_size_aligned h → size mod 4 = 0 → (length l2 < fuel)%nat →
  wp (malloc_loop fuel size (span l1)) h (λ r h',
    match first_fit (mem_size_aligned h - size) size (span l1) l2 with
    | Some (o, l2') => r = Some (heap_ptr h + o) ∧ heap_step low h h' (l1 ++ l2) (l1 ++ l2')
    | None => r = None ∧ h' = h
    end).
Proof.
  intros Hok Hsize Hmod. destruct (heap_work _ _ _ Hok) as (hm & [Hv0 Hc Hs Hg] & _).
  assert (∃ D, view D (mem_bytes h) (mem_bytes h) hm) as [D Hv] by eauto. clear Hv0.
  revert l1 l2 Hok Hc Hs Hg. induction fuel as [|fuel IH]; intros l1 l2 Hok Hc Hs Hg Hf; [lia|].
  pose proof Hg as [Gb Ga Gs Gm Ge Gt]. cbn [malloc_loop]. wp_step. wp_step.
  replace (u32 (mem_size_aligned h - size)) with (mem_size_aligned h - size)
    by (unfold wrap; rewrite Z.mod_small; lia).
  destruct l2 as [|[sz u] l2].
  { simpl. rewrite app_nil_r in Gs. rewrite (proj2 (Z.ltb_ge _ _)) by lia. by wp_step. }
  pose proof (chain_split _ _ _ _ Hc) as (H1 & Hx & H2). simpl in H2.
  pose proof Hs as (Hs1 & Hz & Hs2)%sizes_split. simpl in Hz. pose proof (span_pos _ Hs1). pose proof (span_pos _ Hs2).
  rewrite span_app in Gs, Ge, Gt. simpl in Gs, Ge, Gt. cbn [first_fit].
  destruct (Z.ltb_spec (span l1) (mem_size_aligned h - size)) as [Hlt|Hge]; [|by wp_step].
  wp_step. eapply wp_block_at; [exact Hg|rewrite span_app; simpl; lia|].
  wp_step. eapply wp_get_used; [exact Hv|exact Hx|]. wp_step.
  eapply (wp_mono _ _ (λ b h', b = (negb u && (size <=? sz)) ∧ h' = h)).
  { destruct u; simpl; [by wp_step|]. wp_step. eapply wp_get_next; [exact Hv|exact Hx|]. wp_step. simpl.
    split; [|done]. f_equal. unfold SIZEOF_STRUCT_MEM, wrap.
    rewrite (Z.mod_small (span l1 + 12)), Z.mod_small by lia. lia. }
  intros b h' [-> ->]. destruct (negb u && (size <=? sz)) eqn:E.
  - apply andb_true_iff in E as [->%negb_true_iff E2%Z.leb_le]. wp_step.
    eapply wp_mono; [apply (wp_malloc_take low h l1 sz l2 size Hok); [lia|done]|].
    intros [] h' Hst. by wp_step.
  - wp_step. eapply wp_get_next; [exact Hv|exact Hx|]. simpl.
    assert (l1 ++ (sz, u) :: l2 = (l1 ++ [(sz, u)]) ++ l2) as Eapp by by rewrite <- app_assoc.
    rewrite Eapp in Hok, Hc, Hs, Hg |- *. simpl in Hf.
    replace (span l1 + 12 + sz) with (span (l1 ++ [(sz, u)])) by (rewrite span_app; simpl; lia).
    eapply wp_mono; [apply IH; [done|done|done|done|lia]|]. intros r h'.
    destruct (first_fit _ _ _ l2) as [[o l2']|]; simpl; [|done].
    intros [-> Hst]. by rewrite <- (app_assoc l1 _ l2') in Hst.
Qed.

(** The search from [lfree] on finds what a search from the start would. *)
Lemma wp_malloc_search h l size :
  heap_ok true h l → 12 <= size <= mem_size_aligned h → size mod 4 = 0 →
  wp (malloc_search size) h (λ r h',
    match first_fit (mem_size_aligned h - size) size 0 l with
    | Some (o, l') => r = Some (heap_ptr h + o) ∧ heap_step true h h' l l'
    | None => r = None ∧ h' = h
    end).
Proof.
  intros Hok Hsize Hmod. destruct (ho_lfree _ _ _ Hok) as (a & b & -> & Hlf & _ & Hlow).
  pose proof (seg_ok_sizes _ (ho_segs _ _ _ Hok)) as [Hsa Hsb]%Forall_app.
  pose proof (ho_geometry _ _ _ Hok) as Hg. pose proof (span_pos _ Hsa). pose proof (span_pos _ Hsb).
  unfold malloc_search. wp_step. wp_step. wp_step.
  eapply (wp_offset_of _ _ _ (span a)); [exact Hg|exact Hlf|rewrite span_app; lia|].
  pose proof (fuel_enough h (a ++ b) Hg) as Hf. rewrite length_app in Hf.
  eapply wp_mono; [apply (wp_malloc_loop _ true h a b size Hok Hsize Hmod)|].
  { specialize (Hf ltac:(by apply Forall_app)). lia. }
  intros r h'. rewrite first_fit_skip by auto. rewrite Z.add_0_l.
  by destruct (first_fit _ _ (span a) b) as [[o l2']|].
Qed.

(** * Shrinking a block *)

Lemma view_weaken (D D' : Z → Prop) m0 m hm :
  (∀ b, D' b → D b) → view D m0 m hm → view D' m0 m hm.
Proof. intros HD [H1 H2 H3 H4 H5 H6]. split; eauto. Qed.

Lemma lfree_ok_shrink low h h' l1 sz l2 n r :
  sizes (l1 ++ (sz, true) :: l2) → heap_ptr h' = heap_ptr h → lfree h' = lfree h → n + 12 + r = sz →
  lfree_ok low h (l1 ++ (sz, true) :: l2) →
  lfree_ok (low && (lfree h <=? heap_ptr h + span l1)) h' (l1 ++ (n, true) :: (r, false) :: l2).
Proof.
  intros Hs Hb Hl Hn (a & b & E & Hlf & Hfree & Hlow)%lfree_not_used. symmetry in E.
  pose proof (sizes_split _ _ _ Hs) as (Hs1 & Hz & Hs2). simpl in Hz.
  destruct (split_around _ _ _ _ _ E) as [(k & -> & ->)|(k & -> & ->)].
  - rewrite <- app_assoc. apply lfree_intro; [by rewrite Hb, Hl| |].
    + by destruct k as [|[? []] ?].
    + intros [? _]%andb_true_iff. auto.
  - assert (l1 ++ (n, true) :: (r, false) :: k ++ b = (l1 ++ (n, true) :: (r, false) :: k) ++ b) as ->
      by by rewrite <- app_assoc.
    apply Forall_app in Hs2 as [Hk _]. pose proof (span_pos _ Hk). rewrite span_app in Hlf. simpl in Hlf.
    apply lfree_intro; [|done|].
    + rewrite Hb, Hl, Hlf, span_app. simpl. lia.
    + intros [_ ?%Z.leb_le]%andb_true_iff. lia.
Qed.

(** The blocks after a block of [sz] bytes has been cut to [n]. *)
Definition shrunk (l1 : list seg) (sz n : Z) (l2 : list seg) : list seg :=
  plug (l1 ++ [(n, true)]) (sz - n - 12) l2.

Lemma wp_realloc_split low h l1 sz l2 n :
  heap_ok low h (l1 ++ (sz, true) :: l2) → 0 <= n → n + 24 < sz → n mod 4 = 0 →
  wp (realloc_split (heap_ptr h + span l1) (span l1) sz n) h (λ _ h',
    heap_ok (low && (lfree h <=? heap_ptr h + span l1)) h' (shrunk l1 sz n l2) ∧
    heap_ptr h' = heap_ptr h ∧ mem_size_aligned h' = mem_size_aligned h ∧
    ∀ b, used_data (heap_ptr h) (l1 ++ (sz, true) :: l2) b →
      ¬ (heap_ptr h + span l1 + 12 + n <= b < heap_ptr h + span l1 + 12 + sz) →
      mem_bytes h' !! b = mem_bytes h !! b).
Proof.
  intros Hok Hn Hsz Hmod. destruct (heap_work _ _ _ Hok) as (hm & [Hv Hc Hs Hg] & Hq).
  pose proof Hs as (Hs1 & Hz & Hs2)%sizes_split. simpl in Hz. pose proof (span_pos _ Hs1). pose proof (span_pos _ Hs2).
  pose proof Hg as [Gb Ga Gs Gm Ge Gt]. rewrite span_app in Gs, Ge, Gt. simpl in Gs, Ge, Gt.
  set (D := λ b, used_data (heap_ptr h) (l1 ++ (sz, true) :: l2) b ∧
    ¬ (heap_ptr h + span l1 + 12 + n <= b < heap_ptr h + span l1 + 12 + sz)).
  apply (view_weaken _ D) in Hv; [|by intros b []].
  unfold realloc_split. wp_step. wp_step. set (h1 := set_used_mem _ h).
  assert (work D (mem_bytes h) h1 hm (l1 ++ (sz, true) :: l2)) as Hw1 by (split; [done|done|done|by destruct Hg]).
  replace (u32 (span l1 + SIZEOF_STRUCT_MEM + n)) with (span l1 + 12 + n)
    by (unfold SIZEOF_STRUCT_MEM, wrap; rewrite Z.mod_small; lia).
  change (heap_ptr h) with (heap_ptr h1) at 1.
  wp_step. eapply wp_mono; [apply (wp_split_block false h1 hm l1 sz true l2 n Hw1 Hq); [apply Hok|lia|lia|]|].
  { intros b [_ Hb]. simpl. lia. }
  intros p2 h2 (-> & m2 & hm2 & -> & Hw2). set (h2 := set_mem_bytes m2 h1) in *. simpl orb in Hw2.
  assert (lfree_ok (low && (lfree h <=? heap_ptr h + span l1)) h2
    ((l1 ++ [(n, true)]) ++ (sz - n - 12, false) :: l2)) as Hlf2.
  { rewrite <- app_assoc. apply (lfree_ok_shrink low h h2 l1 sz); [done|done|done|lia|apply Hok]. }
  assert (l1 ++ (n, true) :: (sz - n - 12, false) :: l2 = (l1 ++ [(n, true)]) ++ (sz - n - 12, false) :: l2) as Eapp
    by by rewrite <- app_assoc.
  rewrite Eapp in Hw2.
  replace (heap_ptr h1 + (span l1 + 12 + n)) with (heap_ptr h2 + span (l1 ++ [(n, true)])) by (rewrite span_app; simpl; lia).
  eapply wp_mono; [exact (wp_plug_holes _ h2 hm2 _ _ _ Hw2 Hlf2)|].
  intros [] h3 (m3 & lf3 & hm3 & -> & Hw3 & Hlf3).
  destruct (plug_span (l1 ++ [(n, true)]) (sz - n - 12) l2) as [Esp Eus].
  pose proof (ho_segs _ _ _ Hok) as [Ho1 [[_ Hoz] Ho2]%Forall_cons]%Forall_app. simpl in Hoz.
  split_and!; [|done|done|intros b Hb Hnb; by apply (vw_data (wk_view _ _ _ _ _ Hw3))].
  eapply heap_close_ok; [exact Hok|exact Hw3|done| |done| | |exact Hlf3|].
  - unfold shrunk. rewrite Esp, !span_app. simpl. lia.
  - apply plug_ok, Forall_app. split.
    + apply Forall_app. split; [done|]. by repeat constructor; simpl.
    + constructor; [|done]. split; simpl; [lia|]. rewrite Zminus_mod, (Zminus_mod sz n), Hoz, Hmod. done.
  - apply (plug_merged _ _ true). pose proof (ho_merged _ _ _ Hok) as [Hm1 [_ Hm2]]%merged_app. simpl in Hm2.
    rewrite <- app_assoc. apply merged_app. split; [done|]. simpl. done.
  - simpl. unfold shrunk. rewrite Eus, (ho_used _ _ _ Hok), !used_span_app, !used_span_cons. simpl.
    unfold used_span at 4. simpl. pose proof (used_span_range _ Hs1). pose proof (used_span_range _ Hs2).
    unfold wrap. rewrite (Z.mod_small (sz - n)), Z.mod_small by lia. lia.
Qed.
