(* ===== verification/MemApi.v ===== *)
(** The calls of the system heap: [rt_malloc], [rt_free], [rt_calloc] and [rt_realloc] of
    [src/mem.c], under the semaphore that protects the heap. *)

From Stdlib Require Import ZArith Lia.
From stdpp Require Import numbers strings base gmap list.
From S2P Require Import Prelude Bytes Overlay KString RtList Bitmap Kernel Scheduler Object Timer Thread Ipc Mem.
From S2P Require Import Invariant ThreadSpec Check Demo TimerSpec ThreadRun IpcSpec Semaphore MemSpec.
Local Open Scope Z_scope.

(** * Sizes *)

Lemma RT_ALIGN_spec size : 0 <= size <= 2 ^ 32 - 4 → RT_ALIGN size RT_ALIGN_SIZE = 4 * ((size + 3) / 4).
Proof.
  intros Hs. unfold RT_ALIGN, RT_ALIGN_SIZE. change (4 - 1) with 3.
  replace (size + 4 - 1) with (size + 3) by lia. unfold wrap at 1. rewrite Z.mod_small by lia.
  apply land_mask4. lia.
Qed.

Lemma RT_ALIGN_wraps size : 2 ^ 32 - 4 < size < 2 ^ 32 → RT_ALIGN size RT_ALIGN_SIZE = 0.
Proof.
  intros Hs. unfold RT_ALIGN, RT_ALIGN_SIZE. change (4 - 1) with 3.
  assert (u32 (size + 4 - 1) = size + 3 - 2 ^ 32) as ->.
  { unfold wrap. replace (size + 4 - 1) with (size + 3 - 2 ^ 32 + 1 * 2 ^ 32) by lia.
    rewrite Z_mod_plus_full, Z.mod_small by lia. done. }
  rewrite land_mask4 by lia. rewrite Z.div_small by lia. done.
Qed.

(** The size of the data for a request. *)
Definition request (size : Z) : Z := Z.max 12 (4 * ((size + 3) / 4)).

Lemma request_facts size : 0 < size → size <= request size ∧ 12 <= request size ∧ request size mod 4 = 0.
Proof.
  intros Hs. unfold request. pose proof (Z.div_mod (size + 3) 4). pose proof (Z.mod_pos_bound (size + 3) 4).
  split; [lia|]. split; [lia|]. destruct (Z.max_spec 12 (4 * ((size + 3) / 4))) as [[_ ->]|[_ ->]]; [|done].
  rewrite Z.mul_comm. apply Z_mod_mult.
Qed.

(** * The lock *)

(** A running thread finds the heap free. *)
Record heap_free (k : kernel) (L : lists) : Prop := {
  hf_running : running k L;
  hf_sem : sem_ok k L heap_sem 1;
  hf_nest : rt_interrupt_nest k = 0
}.

Lemma heap_free_mem k L h : heap_free k L → heap_free (set_sysmem h k) L.
Proof. intros [[] [] ?]. by split; [split|split|]. Qed.

(** A critical section under a semaphore with one permit: nothing of the kernel but the
    memory changes. *)
Section critical.
Context {A B : Type} {k : kernel} {L : lists} {s : nat}.
Hypotheses (Hrun : running k L) (Hsem : sem_ok k L s 1).

(** The state while the semaphore is held. *)
Definition held : kernel := set_sems (<[s := mk_semaphore (1 - 1)]> (sems k)) k.

Lemma release_held h' : wp (rt_sem_release s) (set_sysmem h' held) (λ _ k', k' = set_sysmem h' k).
Proof using Hrun Hsem.
  pose proof (sk_idle _ _ _ _ Hsem ltac:(lia)) as Hq. set (k2 := set_sysmem h' held).
  assert (running k2 L) as Hrun2 by (split; apply Hrun).
  assert (sem_ok k2 L s 0) as Hsem2 by (destruct Hsem; split; [apply lookup_insert_eq|lia|done|done]).
  eapply wp_mono; [by apply (sem_release_count Hrun2 Hsem2)|]. intros e k3 [_ ->].
  unfold k2, held. simpl. change (u16 (0 + 1)) with 1. rewrite insert_insert_eq, insert_id by apply Hsem. by destruct k.
Qed.

Context {m : H A} {f : A → K (outcome B)} {P : A → small_mem → Prop} {Q : outcome B → kernel → Prop}.
Hypotheses (Hm : wp m (sysmem k) P) (HQ : ∀ r h', P r h' → wp (f r) (set_sysmem h' k) Q).

Lemma wp_held : wp (r ← on_mem m; rt_sem_release s;; f r) held Q.
Proof using All.
  wp_step. unfold on_mem. wp_step. simpl. eapply wp_mono; [exact Hm|]. intros r h' HP.
  wp_step. eapply wp_mono; [apply release_held|]. intros e k3 ->. by apply HQ.
Qed.

Lemma wp_held_resume : wp (r ← on_mem m; resume_after (rt_sem_release s) (λ _, f r)) held Q.
Proof using All.
  wp_step. unfold on_mem. wp_step. simpl. eapply wp_mono; [exact Hm|]. intros r h' HP.
  unfold resume_after. wp_step. wp_step. wp_step. eapply wp_mono; [apply release_held|]. intros e k3 ->.
  wp_step. wp_step. simpl. rewrite decide_True by done. by apply HQ.
Qed.
End critical.
Arguments held k s : clear implicits.

(** The same for the heap of the system. *)
Lemma wp_locked {A B} k L (m : H A) (f : A → K (outcome B)) P (Q : outcome B → kernel → Prop) :
  heap_free k L → wp m (sysmem k) P →
  (∀ r h', P r h' → wp (f r) (set_sysmem h' k) Q) →
  wp (o ← rt_sem_take heap_sem RT_WAITING_FOREVER;
      after o (λ _, r ← on_mem m; rt_sem_release heap_sem;; f r)) k Q.
Proof.
  intros [Hrun Hsem _] Hm HQ. wp_step. eapply wp_mono; [by apply (sem_take_available Hsem RT_WAITING_FOREVER)|].
  intros o k1 [-> ->]. simpl. by apply (wp_held Hrun Hsem Hm).
Qed.

Lemma wp_locked_resume {A B} k L (m : H A) (f : A → K (outcome B)) P (Q : outcome B → kernel → Prop) :
  heap_free k L → wp m (sysmem k) P →
  (∀ r h', P r h' → wp (f r) (set_sysmem h' k) Q) →
  wp (o ← rt_sem_take heap_sem RT_WAITING_FOREVER;
      after o (λ _, r ← on_mem m; resume_after (rt_sem_release heap_sem) (λ _, f r))) k Q.
Proof.
  intros [Hrun Hsem _] Hm HQ. wp_step. eapply wp_mono; [by apply (sem_take_available Hsem RT_WAITING_FOREVER)|].
  intros o k1 [-> ->]. simpl. by apply (wp_held_resume Hrun Hsem Hm).
Qed.

(** * Allocating *)

Lemma wp_malloc_checks h low l o l1 l2 sz u size :
  heap_ok low h l → l = l1 ++ (sz, u) :: l2 → o = span l1 → 0 <= size <= sz → o mod 4 = 0 →
  wp (malloc_checks (heap_ptr h + o) size) h (λ _ h', h' = h).
Proof.
  intros Hok -> -> Hsz Ho. pose proof (seg_ok_sizes _ (ho_segs _ _ _ Hok)) as (Hs1 & Hz & Hs2)%sizes_split.
  pose proof (span_pos _ Hs1). pose proof (span_pos _ Hs2). destruct (ho_geometry _ _ _ Hok) as [Gb Ga Gs Gm Ge Gt].
  rewrite span_app in Ge, Gt. simpl in Hz, Ge, Gt. unfold malloc_checks, SIZEOF_STRUCT_MEM. wp_step. wp_step.
  unfold wrap. rewrite (Z.mod_small (heap_ptr h + span l1 + 12 + size)), (Z.mod_small (heap_ptr h + span l1 + 12)) by lia.
  wp_step. apply wp_assert; [apply Z.leb_le; lia|].
  assert ((heap_ptr h + span l1) mod 4 = 0) as Hm by (rewrite Z.add_mod, Ga, Ho; done).
  wp_step. apply wp_assert.
  { apply Z.eqb_eq. unfold RT_ALIGN_SIZE. rewrite Z.add_mod, Hm by lia. done. }
  apply wp_assert; [|done]. apply Z.eqb_eq. unfold RT_ALIGN_SIZE. change (4 - 1) with (Z.ones 2).
  rewrite Z.land_ones by lia. exact Hm.
Qed.

Lemma span_aligned l : Forall seg_ok l → span l mod 4 = 0.
Proof.
  induction 1 as [|s l [_ Hs] _ IH]; [done|]. simpl.
  rewrite Z.add_mod, (Z.add_mod 12), Hs, IH by lia. done.
Qed.

Lemma wp_rt_malloc k L l size :
  heap_free k L → heap_ok true (sysmem k) l → 0 < size <= 2 ^ 32 - 4 →
  wp (rt_malloc size) k (λ out k', ∃ r h', out = Return r ∧ k' = set_sysmem h' k ∧
    let n := request size in
    match (if 4 * ((size + 3) / 4) <=? mem_size_aligned (sysmem k)
           then first_fit (mem_size_aligned (sysmem k) - n) n 0 l else None) with
    | Some (o, l') => r = heap_ptr (sysmem k) + o + 12 ∧ heap_step true (sysmem k) h' l l'
    | None => r = 0 ∧ h' = sysmem k
    end).
Proof.
  intros Hf Hok Hs. pose proof (ho_geometry _ _ _ Hok) as [Gb Ga Gs Gm Ge Gt].
  destruct (request_facts size) as (R1 & R2 & R3); [lia|].
  unfold rt_malloc, RT_DEBUG_NOT_IN_INTERRUPT. wp_step. wp_step. wp_step. apply wp_assert; [by rewrite (hf_nest _ _ Hf)|].
  rewrite (proj2 (Z.eqb_neq _ _)) by lia. wp_step. wp_step. rewrite RT_ALIGN_spec by lia.
  destruct (Z.ltb_spec (mem_size_aligned (sysmem k)) (4 * ((size + 3) / 4))) as [Hlt|Hge].
  { rewrite (proj2 (Z.leb_gt _ _)) by lia. wp_step. exists 0, (sysmem k). split_and!; [done|by destruct k|done|done]. }
  rewrite (proj2 (Z.leb_le _ _)) by lia.
  replace (if 4 * ((size + 3) / 4) <? MIN_SIZE_ALIGNED then MIN_SIZE_ALIGNED else 4 * ((size + 3) / 4))
    with (request size).
  2: { unfold request, MIN_SIZE_ALIGNED. destruct (Z.ltb_spec (4 * ((size + 3) / 4)) 12); lia. }
  assert (12 <= request size <= mem_size_aligned (sysmem k)) as Hr by (unfold request in *; lia).
  eapply (wp_locked k L); [done|by apply (wp_malloc_search _ l)|]. intros r h'.
  destruct (first_fit _ _ 0 l) as [[o l']|] eqn:E.
  - intros [-> Hst]. destruct (first_fit_split _ _ _ _ _ _ E) as (l1 & sz & l2 & -> & -> & -> & Hle & Hlt).
    pose proof (hp_ok _ _ _ _ _ Hst) as Hok'. rewrite <- (hp_ptr _ _ _ _ _ Hst).
    pose proof (ho_segs _ _ _ Hok) as [Ho1 _]%Forall_app. destruct (carve_cons sz (request size)) as [q Eq].
    pose proof (seg_ok_sizes _ Ho1) as Hs1. pose proof (span_pos _ Hs1).
    wp_step. unfold on_mem. wp_step. simpl.
    eapply wp_mono; [eapply (wp_malloc_checks h' true); [exact Hok'|by rewrite Eq|done| |by apply span_aligned]|].
    { case_match; lia. }
    intros [] h2 ->. wp_step. eexists _, h'. split_and!; [|done|reflexivity|done]. f_equal.
    unfold SIZEOF_STRUCT_MEM, wrap. rewrite Z.mod_small; [lia|].
    rewrite (hp_ptr _ _ _ _ _ Hst) in *. rewrite Z.add_0_l. unfold request in *. lia.
  - intros [-> ->]. wp_step. exists 0, (sysmem k). done.
Qed.

(** * The memory of the clients *)

(** A client that writes inside the data of its block does not touch the heap. *)
Lemma heap_ok_write low h l a bs :
  heap_ok low h l → Forall byte bs →
  (∀ b, a <= b < a + Z.of_nat (length bs) → used_data (heap_ptr h) l b) →
  heap_ok low (set_mem_bytes (store a bs (mem_bytes h)) h) l.
Proof.
  intros Hok Hbs Hin. destruct (decide (bs = [])) as [->|Hne]; [simpl; by rewrite set_mem_bytes_id|].
  assert (0 < Z.of_nat (length bs)) as Hpos by (destruct bs; [done|simpl; lia]). clear Hne.
  destruct (heap_open low h l Hok) as (hm & Hv & Hc & _).
  destruct Hok as [[] Hs Hm _ Hmap Hb Hlf Hu]. split; try done.
  - eapply chain_close; [|exact Hc]. intros p x Hp. apply header_store_ne; [|by apply (vw_header Hv)].
    destruct (decide (a + Z.of_nat (length bs) <= p ∨ p + 12 <= a)) as [|Hn]; [done|]. exfalso.
    destruct (decide (a <= p)).
    + destruct (vw_off Hv p x p Hp); [apply Hin; lia|lia|lia].
    + destruct (vw_off Hv p x a Hp); [apply Hin; lia|lia|lia].
  - by apply mapped_store.
  - by apply bytes_ok_store.
Qed.

(** Allocating another block leaves the blocks in use where they are. *)
Lemma used_data_carve base l1 sz l2 size b :
  used_data base (l1 ++ (sz, false) :: l2) b → used_data base (l1 ++ carve sz size ++ l2) b.
Proof.
  intros (k1 & z & k2 & E & Hb). symmetry in E.
  destruct (split_around _ _ _ _ _ E) as [(k & -> & Ek)|(k & -> & ->)].
  - destruct k as [|s k]; simpl in Ek; [done|]. simplify_eq.
    exists k1, z, (k ++ carve sz size ++ l2). by rewrite <- app_assoc.
  - exists (l1 ++ carve sz size ++ k), z, k2. split; [by rewrite <- !app_assoc|].
    rewrite !span_app in *. simpl in *. destruct (carve_facts sz size) as [-> _]. lia.
Qed.

Lemma used_data_block base l1 sz l2 b :
  base + span l1 + 12 <= b < base + span l1 + 12 + sz → used_data base (l1 ++ (sz, true) :: l2) b.
Proof. intros Hb. by exists l1, sz, l2. Qed.

(** * Freeing *)

Lemma wp_rt_free k L low l1 sz l2 :
  heap_free k L → heap_ok low (sysmem k) (l1 ++ (sz, true) :: l2) → 0 < sz →
  wp (rt_free (heap_ptr (sysmem k) + span l1 + 12)) k (λ out k', ∃ h', out = Return tt ∧ k' = set_sysmem h' k ∧
    heap_step low (sysmem k) h' (l1 ++ (sz, true) :: l2) (plug l1 sz l2)).
Proof.
  intros Hf Hok Hsz. pose proof (seg_ok_sizes _ (ho_segs _ _ _ Hok)) as (Hs1 & _ & Hs2)%sizes_split.
  pose proof (span_pos _ Hs1). pose proof (span_pos _ Hs2). pose proof (ho_geometry _ _ _ Hok) as [Gb Ga Gs Gm Ge Gt].
  rewrite span_app in Ge, Gt. simpl in Ge, Gt. pose proof (ho_segs _ _ _ Hok) as [Ho1 _]%Forall_app.
  assert ((heap_ptr (sysmem k) + span l1 + 12) mod 4 = 0) as Hm.
  { rewrite Z.add_mod, (Z.add_mod _ (span l1)), Ga, (span_aligned l1 Ho1) by lia. done. }
  unfold rt_free, RT_DEBUG_NOT_IN_INTERRUPT. wp_step. wp_step. wp_step. apply wp_assert; [by rewrite (hf_nest _ _ Hf)|].
  rewrite (proj2 (Z.eqb_neq _ _)) by lia. wp_step. apply wp_assert.
  { apply Z.eqb_eq. unfold RT_ALIGN_SIZE. change (4 - 1) with (Z.ones 2). by rewrite Z.land_ones. }
  wp_step. wp_step. wp_step. apply wp_assert.
  { unfold in_heap. apply andb_true_iff. split; [apply Z.leb_le; lia|apply Z.ltb_lt; lia]. }
  replace (u32 (heap_ptr (sysmem k) + span l1 + 12 - SIZEOF_STRUCT_MEM)) with (heap_ptr (sysmem k) + span l1)
    by (unfold SIZEOF_STRUCT_MEM, wrap; rewrite Z.mod_small; lia).
  eapply (wp_locked k L); [done|by apply wp_free_block|]. intros [] h' Hst. wp_step. by exists h'.
Qed.

(** Freeing what has just been allocated restores the blocks. *)
Lemma plug_carve l1 sz size l2 n r :
  merged false (l1 ++ (sz, false) :: l2) → carve sz size = (n, true) :: r →
  plug l1 n (r ++ l2) = l1 ++ (sz, false) :: l2.
Proof.
  intros [H1 [H2 H3]]%merged_app Hc. simpl in H2, H3.
  assert (fwd n (r ++ l2) = (sz, l2)) as E.
  { unfold carve in Hc. case_match; simplify_eq/=.
    - f_equal. lia.
    - destruct l2 as [|[? []] ?]; [done|done|]. simpl in H3. by destruct H3 as [?%(λ f, f eq_refl) _]. }
  unfold plug. rewrite E. destruct l1 as [|[s []] l1 _] using rev_ind; [done|by rewrite bwd_snoc_used|].
  rewrite ends_free_app in H2. simpl in H2. by specialize (H2 eq_refl).
Qed.

(** * Properties of allocating and freeing *)

(** The block that [first_fit] allocates lies in no block in use. *)
Lemma first_fit_data base limit size n l o l' b :
  sizes l → size <= n → first_fit limit n 0 l = Some (o, l') → base + o + 12 <= b < base + o + 12 + size →
  used_data base l' b ∧ ¬ used_data base l b.
Proof.
  intros Hs Hn E Hb. destruct (first_fit_split _ _ _ _ _ _ E) as (l1 & sz & l2 & -> & -> & -> & Hle & _).
  rewrite Z.add_0_l in Hb. split.
  - destruct (carve_cons sz n) as [r ->]. apply used_data_block. case_match; lia.
  - intros (k1 & z & k2 & Ek & Hk).
    destruct (positions _ _ _ _ Ek Hs) as [[_ ?]|[(s & k & [= <- <-] & ?)|(s & k & [= <- <-] & ?)]]; [done|..];
      simpl in *; lia.
Qed.

(** C28: [rt_malloc] is first fit.  With the heap free, a request returns null, and changes
    nothing, exactly when first fit finds no block; otherwise the first free block that is
    large enough is allocated, cut if the rest can be a block: its address is aligned, its
    bytes belong to no other block in use, no byte of the blocks in use changes, and the
    heap is well formed again. *)
Theorem rt_malloc_spec k L l size :
  heap_free k L → heap_ok true (sysmem k) l → 0 < size <= 2 ^ 32 - 4 →
  let h := sysmem k in
  let fit := if 4 * ((size + 3) / 4) <=? mem_size_aligned h
             then first_fit (mem_size_aligned h - request size) (request size) 0 l else None in
  wp (rt_malloc size) k (λ out k', ∃ r h', out = Return r ∧ k' = set_sysmem h' k ∧
    match fit with
    | Some (o, l') => r = heap_ptr h + o + 12 ∧ r mod 4 = 0 ∧ heap_step true h h' l l' ∧
        ∀ b, r <= b < r + size → used_data (heap_ptr h) l' b ∧ ¬ used_data (heap_ptr h) l b
    | None => r = 0 ∧ h' = h
    end).
Proof.
  intros Hf Hok Hs h fit. eapply wp_mono; [by apply (wp_rt_malloc k L l size)|].
  intros out k' (r & h' & -> & -> & Hm). exists r, h'. cbv zeta in Hm. fold h fit in Hm.
  destruct fit as [[o l']|] eqn:E; [|done]. destruct Hm as [-> Hst]. split_and!; [done|done|done| |done|].
  - unfold fit in E. case_match; [|done].
    destruct (first_fit_split _ _ _ _ _ _ E) as (l1 & sz & l2 & -> & _ & -> & _ & _).
    pose proof (ho_segs _ _ _ Hok) as [Ho1 _]%Forall_app. pose proof (ge_align _ _ (ho_geometry _ _ _ Hok)) as Ga.
    unfold h. rewrite Z.add_0_l, Z.add_mod, (Z.add_mod (heap_ptr (sysmem k))), Ga, (span_aligned l1 Ho1) by lia. done.
  - intros b Hb. unfold fit in E. case_match; [|done]. destruct (request_facts size) as [? _]; [lia|].
    eapply first_fit_data; [apply seg_ok_sizes, Hok| |exact E|exact Hb]. done.
Qed.

(** C29: [rt_free] of a block in use makes it free and joins it with the free blocks next to
    it, so that no two free blocks are neighbours; no byte of the blocks in use changes, the
    heap is well formed, and [lfree] is the lowest free block again if it was before ([low]). *)
Theorem rt_free_spec k L low l1 sz l2 :
  heap_free k L → heap_ok low (sysmem k) (l1 ++ (sz, true) :: l2) → 0 < sz →
  wp (rt_free (heap_ptr (sysmem k) + span l1 + 12)) k (λ out k', ∃ h', out = Return tt ∧ k' = set_sysmem h' k ∧
    heap_step low (sysmem k) h' (l1 ++ (sz, true) :: l2) (plug l1 sz l2)).
Proof. apply wp_rt_free. Qed.

(** Allocating and freeing are inverse: [rt_free] of what [rt_malloc] has just returned
    restores the blocks of the heap, with their sizes and in their order, and keeps every
    byte of the blocks in use. *)
Theorem rt_malloc_free_roundtrip k L l size :
  heap_free k L → heap_ok true (sysmem k) l → 0 < size <= 2 ^ 32 - 4 →
  wp (o ← rt_malloc size; after o (λ p, o ← rt_free p; after o (λ _, mret (Return p)))) k (λ out k',
    ∃ p h', out = Return p ∧ k' = set_sysmem h' k ∧ heap_ok true h' l ∧
      ∀ b, used_data (heap_ptr (sysmem k)) l b → mem_bytes h' !! b = mem_bytes (sysmem k) !! b).
Proof.
  intros Hf Hok Hs. wp_step. eapply wp_mono; [by apply (wp_rt_malloc k L l size)|].
  intros out k1 (r & h1 & -> & -> & Hm). cbv zeta in Hm. simpl.
  assert (∀ k, heap_free k L → wp (rt_free 0) k (λ o k', o = Return tt ∧ k' = k)) as Hnull.
  { intros k0 [_ _ Hn]. unfold rt_free, RT_DEBUG_NOT_IN_INTERRUPT. do 3 wp_step. apply wp_assert; [by rewrite Hn|].
    simpl. by wp_step. }
  case_match; [|destruct Hm as [-> ->]; wp_step; eapply wp_mono; [by apply Hnull; apply heap_free_mem|];
    intros o k' [-> ->]; simpl; wp_step; by exists 0, (sysmem k)].
  destruct p as [o l']. destruct Hm as [-> Hst]. case_match; [|done].
  destruct (first_fit_split _ _ _ _ _ _ H) as (l1 & sz & l2 & -> & -> & -> & Hle & _). rewrite Z.add_0_l.
  pose proof (hp_ok _ _ _ _ _ Hst) as Hok1. destruct (carve_cons sz (request size)) as [q Eq].
  destruct (request_facts size) as (R1 & R2 & _); [lia|]. pose proof Hok1 as Hok1'. rewrite Eq in Hok1'. simpl in Hok1'.
  rewrite <- (hp_ptr _ _ _ _ _ Hst). wp_step.
  eapply wp_mono; [eapply (wp_rt_free (set_sysmem h1 k) L true l1 _ (q ++ l2)); [by apply heap_free_mem|exact Hok1'|]|].
  { case_match; lia. }
  intros o' k2 (h2 & -> & -> & Hst2). simpl. wp_step. eexists _, h2. split; [done|]. split; [by destruct k|].
  rewrite (plug_carve l1 sz (request size) l2 _ q (ho_merged _ _ _ Hok) Eq) in Hst2.
  split; [apply Hst2|]. intros b Hb. pose proof Hb as Hb0. rewrite (hp_ptr _ _ _ _ _ Hst) in Hb0.
  rewrite <- (hp_data _ _ _ _ _ Hst b Hb0). apply (hp_data _ _ _ _ _ Hst2). simpl.
  apply (used_data_carve _ _ _ _ (request size)) in Hb. by rewrite Eq in Hb.
Qed.

(** C30: the heap is used by one thread at a time.  While another thread is inside, a thread
    that allocates or frees joins the waiting threads of the semaphore and goes on later;
    until then it does not touch the heap. *)
Theorem heap_exclusive k L t x size p :
  running k L → sem_ok k L heap_sem 0 → may_block k t x →
  0 < size → RT_ALIGN size RT_ALIGN_SIZE <= mem_size_aligned (sysmem k) →
  p ≠ 0 → Z.land p 3 = 0 → in_heap (sysmem k) p = true →
  let waits {A} (out : outcome A) (k' : kernel) :=
    (∃ rest, out = Resched rest) ∧ sysmem k' = sysmem k ∧
    blocks (sem_list heap_sem) (obj_flag k (O_sem heap_sem)) RT_WAITING_FOREVER t (set_error RT_EOK x)
      (with_error t RT_EOK x k) L k' in
  wp (rt_malloc size) k waits ∧ wp (rt_free p) k waits.
Proof.
  intros Hrun Hsem Hb Hs Ha Hp Hp4 Hin waits. pose proof (mb_thread_mode _ _ _ Hb) as Hn.
  split.
  - unfold rt_malloc, RT_DEBUG_NOT_IN_INTERRUPT. wp_step. wp_step. wp_step. apply wp_assert; [by rewrite Hn|].
    rewrite (proj2 (Z.eqb_neq _ _)) by lia. wp_step. wp_step. rewrite (proj2 (Z.ltb_ge _ _)) by lia.
    wp_step. eapply wp_mono; [by apply (sem_take_wait Hrun Hsem t x)|]. intros o k' [-> Hbl]. simpl. wp_step.
    split; [by eexists|]. split; [|done]. by rewrite (fr_sysmem _ _ (bl_frame Hbl)).
  - unfold rt_free, RT_DEBUG_NOT_IN_INTERRUPT. wp_step. wp_step. wp_step. apply wp_assert; [by rewrite Hn|].
    rewrite (proj2 (Z.eqb_neq _ _)) by lia. wp_step. apply wp_assert; [by apply Z.eqb_eq|].
    wp_step. wp_step. wp_step. apply wp_assert; [done|].
    wp_step. eapply wp_mono; [by apply (sem_take_wait Hrun Hsem t x)|]. intros o k' [-> Hbl]. simpl. wp_step.
    split; [by eexists|]. split; [|done]. by rewrite (fr_sysmem _ _ (bl_frame Hbl)).
Qed.

(** * Zeroed memory *)

Lemma heap_ptr_pos low h l : heap_ok low h l → 0 < heap_ptr h.
Proof. intros Hok. apply (ho_geometry _ _ _ Hok). Qed.

(** The bytes of a block in use are memory. *)
Lemma used_data_mapped low h l b : heap_ok low h l → used_data (heap_ptr h) l b → is_Some (mem_bytes h !! b).
Proof.
  intros Hok (l1 & sz & l2 & -> & Hb). pose proof (seg_ok_sizes _ (ho_segs _ _ _ Hok)) as (Hs1 & _ & Hs2)%sizes_split.
  pose proof (span_pos _ Hs1). pose proof (span_pos _ Hs2). apply (ho_mapped _ _ _ Hok).
  rewrite span_app. simpl. lia.
Qed.

(** [rt_calloc] returns memory that is zero: when the product of the arguments does
    not overflow, all [count * size] bytes of the block it returns are zero, and no byte
    of another block in use changes. *)
Theorem rt_calloc_spec k L l count size :
  heap_free k L → heap_ok true (sysmem k) l → 0 < count * size <= 2 ^ 32 - 4 →
  wp (rt_calloc count size) k (λ out k', ∃ r h', out = Return r ∧ k' = set_sysmem h' k ∧
    ((r = 0 ∧ h' = sysmem k) ∨
     r ≠ 0 ∧ ∃ l', heap_ok true h' l' ∧
       (∀ b, r <= b < r + count * size → mem_bytes h' !! b = Some 0 ∧
          used_data (heap_ptr h') l' b ∧ ¬ used_data (heap_ptr h') l b) ∧
       ∀ b, used_data (heap_ptr h') l b → mem_bytes h' !! b = mem_bytes (sysmem k) !! b)).
Proof.
  intros Hf Hok Hs. unfold rt_calloc, RT_DEBUG_NOT_IN_INTERRUPT. wp_step. wp_step. wp_step.
  apply wp_assert; [by rewrite (hf_nest _ _ Hf)|].
  replace (u32 (count * size)) with (count * size) by (unfold wrap; rewrite Z.mod_small; lia).
  set (n := count * size) in *. wp_step. eapply wp_mono; [by apply (rt_malloc_spec k L l n)|].
  intros out k1 (r & h1 & -> & -> & Hm). simpl.
  destruct (if 4 * ((n + 3) / 4) <=? mem_size_aligned (sysmem k) then _ else None) as [[o l']|] eqn:E; cycle 1.
  { destruct Hm as [-> ->]. wp_step. simpl. wp_step. wp_step. exists 0, (sysmem k). split_and!; [done|done|by left]. }
  destruct Hm as (Er & _ & Hst & Hd). pose proof (hp_ok _ _ _ _ _ Hst) as Hok1. pose proof (hp_ptr _ _ _ _ _ Hst) as Ep.
  rewrite <- Ep in Hd. assert (0 <= o) as Ho.
  { case_match; [|done]. destruct (first_fit_split _ _ _ _ _ _ E) as (l1 & ? & ? & -> & _ & -> & _).
    pose proof (seg_ok_sizes _ (ho_segs _ _ _ Hok)) as [Hs1 _]%Forall_app. pose proof (span_pos _ Hs1). lia. }
  pose proof (heap_ptr_pos _ _ _ Hok). rewrite (proj2 (Z.eqb_neq _ _)) by lia.
  wp_step. wp_step. unfold on_mem, on_bytes. wp_step. wp_step. simpl.
  eapply wp_mono; [apply rt_memset_spec; [lia|]|].
  { intros b Hb. apply (used_data_mapped _ _ _ _ Hok1). apply Hd. lia. }
  change (0 mod 256) with 0. intros r' m' [-> ->]. wp_step. wp_step.
  set (h2 := set_mem_bytes (store r (replicate (Z.to_nat n) 0) (mem_bytes h1)) h1).
  exists r, h2. split; [done|]. split; [by destruct k|]. right. split; [lia|]. exists l'. split_and!.
  - apply heap_ok_write; [done|by apply Forall_replicate|]. rewrite length_replicate. intros b Hb. apply Hd. lia.
  - intros b Hb. simpl. rewrite lookup_store_in by (rewrite length_replicate; lia).
    split; [|by apply Hd]. apply lookup_replicate_2. lia.
  - intros b Hb. simpl. rewrite lookup_store_out.
    + apply (hp_data _ _ _ _ _ Hst). change (heap_ptr h2) with (heap_ptr h1) in Hb. by rewrite Ep in Hb.
    + rewrite length_replicate. intros Hin. destruct (Hd b) as [_ []]; [lia|done].
Qed.

(** The product wraps around without notice: the block is that of a smaller request. *)
Theorem rt_calloc_wraps count size k : rt_calloc count size k = rt_calloc 1 (u32 (count * size)) k.
Proof.
  unfold rt_calloc. replace (u32 (1 * u32 (count * size))) with (u32 (count * size)); [done|].
  rewrite Z.mul_1_l. unfold wrap. by rewrite Zmod_mod.
Qed.

(** So does the alignment of the size: a request of nearly four gigabytes gets the block of
    the smallest request. *)
Theorem rt_malloc_wraps size k :
  2 ^ 32 - 4 < size < 2 ^ 32 → 12 <= mem_size_aligned (sysmem k) → rt_malloc size k = rt_malloc 12 k.
Proof.
  intros Hs Hm. unfold rt_malloc. rewrite RT_ALIGN_wraps by done. rewrite (RT_ALIGN_spec 12) by lia.
  rewrite (proj2 (Z.eqb_neq size 0)) by lia. change (12 =? 0) with false. cbv iota.
  change (4 * ((12 + 3) / 4)) with 12. change (0 <? MIN_SIZE_ALIGNED) with true.
  change (12 <? MIN_SIZE_ALIGNED) with false. cbv iota.
  unfold mbind, M_bind, gets. destruct (RT_DEBUG_NOT_IN_INTERRUPT k) as [[[] k']|] eqn:E; [|done].
  assert (k' = k) as ->.
  { unfold RT_DEBUG_NOT_IN_INTERRUPT, mbind, M_bind, get, rt_assert, mret, M_ret, fail in E. by case_match; simplify_eq. }
  rewrite !(proj2 (Z.ltb_ge _ _)) by lia. done.
Qed.

(** * Changing the size of a block *)

(** The data of the blocks in use, block by block from the address [a]. *)
Fixpoint used_in (a : Z) (l : list seg) (b : Z) : Prop :=
  match l with
  | [] => False
  | s :: l => (s.2 = true ∧ a + 12 <= b < a + 12 + s.1) ∨ used_in (a + 12 + s.1) l b
  end.

Lemma used_data_in base l b : used_data base l b ↔ used_in base l b.
Proof.
  unfold used_data. revert base. induction l as [|s l IH]; intros base; simpl.
  { split; [|done]. by intros (l1 & sz & l2 & E%(symmetry (x := _)) & _); destruct l1. }
  rewrite <- IH. split.
  - intros (l1 & sz & l2 & E & Hb). destruct l1 as [|s' l1]; simplify_eq/=.
    + left. split; [done|lia].
    + right. exists l1, sz, l2. split; [done|lia].
  - intros [[Hs Hb]|(l1 & sz & l2 & -> & Hb)].
    + destruct s as [sz u]. simpl in *. subst u. exists [], sz, l. simpl. split; [done|lia].
    + exists (s :: l1), sz, l2. simpl. split; [done|lia].
Qed.

Lemma used_in_app a l1 l2 b : used_in a (l1 ++ l2) b ↔ used_in a l1 b ∨ used_in (a + span l1) l2 b.
Proof.
  revert a. induction l1 as [|s l1 IH]; intros a; simpl; [rewrite Z.add_0_r; tauto|].
  rewrite IH. replace (a + 12 + s.1 + span l1) with (a + (12 + s.1 + span l1)) by lia. tauto.
Qed.

(** Freeing a block leaves the other blocks in use where they are. *)
Lemma used_data_plug base l1 sz l2 b :
  used_data base (plug l1 sz l2) b ↔ used_data base (l1 ++ (sz, false) :: l2) b.
Proof.
  rewrite !used_data_in, plug_eq, !used_in_app. simpl.
  assert (used_in base (bwd l1 (fwd sz l2).1).1 b ↔ used_in base l1 b) as ->.
  { destruct l1 as [|[s []] l1 _] using rev_ind; [done|by rewrite bwd_snoc_used|].
    rewrite bwd_snoc_free, used_in_app. simpl. naive_solver. }
  destruct (bwd_facts l1 (fwd sz l2).1) as [E _].
  replace (base + span (bwd l1 (fwd sz l2).1).1 + 12 + (bwd l1 (fwd sz l2).1).2)
    with (base + span l1 + 12 + (fwd sz l2).1) by lia.
  assert (used_in (base + span l1 + 12 + (fwd sz l2).1) (fwd sz l2).2 b ↔ used_in (base + span l1 + 12 + sz) l2 b) as ->.
  { destruct l2 as [|[s []] l3]; [done|done|]. simpl.
    replace (base + span l1 + 12 + (sz + 12 + s)) with (base + span l1 + 12 + sz + 12 + s) by lia. naive_solver. }
  naive_solver.
Qed.

(** The old block is still there after the new one has been allocated. *)
Lemma block_stays l1 sz l2 k1 z k2 n :
  l1 ++ (sz, true) :: l2 = k1 ++ (z, false) :: k2 →
  ∃ l1' l2', k1 ++ carve z n ++ k2 = l1' ++ (sz, true) :: l2' ∧ span l1' = span l1.
Proof.
  intros E. destruct (split_around _ _ _ _ _ E) as [(k & -> & Ek)|(k & -> & ->)].
  - destruct k as [|s k]; simpl in Ek; [done|]. simplify_eq.
    exists l1, (k ++ carve z n ++ k2). by rewrite <- app_assoc.
  - exists (k1 ++ carve z n ++ k), l2. split; [by rewrite <- !app_assoc|].
    rewrite !span_app. simpl. destruct (carve_facts z n) as [-> _]. lia.
Qed.

Lemma bytes_exist low h l a n :
  heap_ok low h l → (∀ b, a <= b < a + Z.of_nat n → used_data (heap_ptr h) l b) →
  ∃ bs, length bs = n ∧ bytes_at (mem_bytes h) a bs ∧ Forall byte bs.
Proof.
  intros Hok Hd. destruct (mapped_bytes (mem_bytes h) a n) as (bs & Hl & Hb).
  { intros b Hb. by eapply used_data_mapped; [|apply Hd]. }
  exists bs. split_and!; [done|done|]. apply Forall_lookup. intros i x Hi.
  apply (ho_bytes _ _ _ Hok (a + Z.of_nat i)). rewrite bytes_at_lookup in Hb. pose proof (lookup_lt_Some _ _ _ Hi).
  rewrite Hb by lia. by replace (Z.to_nat (a + Z.of_nat i - a)) with i by lia.
Qed.

(** The block that [rt_malloc] finds for a request, and the blocks afterwards. *)
Definition malloc_fit (h : small_mem) (l : list seg) (size : Z) : option (Z * list seg) :=
  if (0 <? size) && (4 * ((size + 3) / 4) <=? mem_size_aligned h)
  then first_fit (mem_size_aligned h - request size) (request size) 0 l else None.

Lemma wp_malloc_fit k L l size :
  heap_free k L → heap_ok true (sysmem k) l → 0 <= size <= 2 ^ 32 - 4 →
  wp (rt_malloc size) k (λ out k', ∃ r h', out = Return r ∧ k' = set_sysmem h' k ∧
    match malloc_fit (sysmem k) l size with
    | Some (o, l') => r = heap_ptr (sysmem k) + o + 12 ∧ heap_step true (sysmem k) h' l l'
    | None => r = 0 ∧ h' = sysmem k
    end).
Proof.
  intros Hf Hok Hs. unfold malloc_fit. destruct (Z.ltb_spec 0 size) as [Hlt|Hge].
  - eapply wp_mono; [apply (wp_rt_malloc k L l size); [done|done|lia]|]. done.
  - unfold rt_malloc, RT_DEBUG_NOT_IN_INTERRUPT. wp_step. wp_step. wp_step.
    apply wp_assert; [by rewrite (hf_nest _ _ Hf)|]. rewrite (proj2 (Z.eqb_eq _ _)) by lia. wp_step.
    exists 0, (sysmem k). by destruct k.
Qed.

(** The contents of the block of [sz] bytes at [p], behind blocks of [len] bytes, have moved:
    what [rt_malloc] finds for [n] bytes is allocated, holds the contents up to the smaller
    size, and the old block is free; without memory nothing changes. *)
Definition moved (h : small_mem) (l : list seg) (len sz p n r : Z) (h' : small_mem) : Prop :=
  match malloc_fit h l n with
  | None => r = 0 ∧ h' = h
  | Some (o, l1) =>
      r = heap_ptr h + o + 12 ∧ ∃ b1 b2, l1 = b1 ++ (sz, true) :: b2 ∧ span b1 = len ∧
      heap_ok true h' (plug b1 sz b2) ∧ heap_ptr h' = heap_ptr h ∧
      (∀ b, r <= b < r + n → used_data (heap_ptr h') (plug b1 sz b2) b ∧ ¬ used_data (heap_ptr h') l b) ∧
      (∀ i, 0 <= i < Z.min sz n → mem_bytes h' !! (r + i) = mem_bytes h !! (p + i)) ∧
      ∀ b, used_data (heap_ptr h') l b → mem_bytes h' !! b = mem_bytes h !! b
  end.

(** Move the contents of a block to a new one: the end of [rt_realloc]. *)
Lemma wp_realloc_move k L l1 sz l2 n :
  heap_free k L → heap_ok true (sysmem k) (l1 ++ (sz, true) :: l2) → 0 < sz → 0 <= n <= 2 ^ 32 - 4 →
  let l := l1 ++ (sz, true) :: l2 in
  let p := heap_ptr (sysmem k) + span l1 + 12 in
  wp (o ← rt_malloc n;
      after o (λ nmem,
        if nmem =? 0 then mret (Return 0)
        else
          on_mem (on_bytes (rt_memcpy nmem p (if sz <? n then sz else n)));;
          o ← rt_free p;
          after o (λ _, mret (Return nmem)))) k (λ out k', ∃ r h', out = Return r ∧ k' = set_sysmem h' k ∧
    moved (sysmem k) l (span l1) sz p n r h').
Proof.
  intros Hf Hok Hsz Hn l p. wp_step. eapply wp_mono; [by apply (wp_malloc_fit k L l n)|].
  intros out k1 (r & h1 & -> & -> & Hm). simpl. unfold moved.
  destruct (malloc_fit (sysmem k) l n) as [[o l']|] eqn:E; cycle 1.
  { destruct Hm as [-> ->]. simpl. wp_step. exists 0, (sysmem k). by destruct k. }
  unfold malloc_fit in E. destruct (Z.ltb_spec 0 n) as [Hn0|]; [|done]. destruct (4 * _ <=? _); [|done]. simpl in E.
  destruct Hm as (Er & Hst). pose proof (hp_ok _ _ _ _ _ Hst) as Hok1. pose proof (hp_ptr _ _ _ _ _ Hst) as Ep.
  assert (∀ b, r <= b < r + n → used_data (heap_ptr (sysmem k)) l' b ∧ ¬ used_data (heap_ptr (sysmem k)) l b) as Hd.
  { intros b Hb. destruct (request_facts n) as [? _]; [lia|].
    eapply (first_fit_data _ _ n); [apply seg_ok_sizes, Hok| |exact E|lia]. done. }
  destruct (first_fit_split _ _ _ _ _ _ E) as (a1 & z & a2 & El & El' & Eo & _).
  destruct (block_stays l1 sz l2 a1 z a2 (request n) El) as (b1 & b2 & Eb & Es). rewrite <- El' in Eb.
  pose proof (seg_ok_sizes _ (ho_segs _ _ _ Hok)) as Hs0. pose proof Hs0 as Hs1. unfold l in El. rewrite El in Hs1.
  apply Forall_app in Hs1 as [Hs1 _]. pose proof (span_pos _ Hs1). pose proof (heap_ptr_pos _ _ _ Hok).
  rewrite (proj2 (Z.eqb_neq r 0)) by lia. set (cnt := if sz <? n then sz else n).
  assert (cnt = Z.min sz n) as Ec by (unfold cnt; destruct (Z.ltb_spec sz n); lia).
  assert (∀ b, p <= b < p + sz → used_data (heap_ptr (sysmem k)) l b) as Hp.
  { intros b Hb. apply used_data_block. unfold p in Hb. lia. }
  destruct (bytes_exist true (sysmem k) l p (Z.to_nat cnt) Hok) as (bs & Hlb & Hbs & Hby).
  { intros b Hb. apply Hp. lia. }
  assert (bytes_at (mem_bytes h1) p bs) as Hbs1.
  { rewrite bytes_at_lookup in *. intros b Hb. rewrite (hp_data _ _ _ _ _ Hst) by (apply Hp; lia). by apply Hbs. }
  wp_step. unfold on_mem, on_bytes. wp_step. wp_step. simpl. replace cnt with (Z.of_nat (length bs)) by lia.
  eapply wp_mono; [apply rt_memcpy_spec; [exact Hbs1|exact Hby|..]|].
  { intros b Hb. apply (used_data_mapped _ _ _ _ Hok1). rewrite Ep. apply Hd. lia. }
  { destruct (decide (r + Z.of_nat (length bs) <= p ∨ p + Z.of_nat (length bs) <= r)) as [|Hno]; [done|]. exfalso.
    destruct (decide (p <= r)).
    - destruct (Hd r) as [_ []]; [lia|]. apply Hp. lia.
    - destruct (Hd p) as [_ []]; [lia|]. apply Hp. lia. }
  intros r' m2 [-> ->]. set (h2 := set_mem_bytes (store r bs (mem_bytes h1)) h1).
  assert (heap_ok true h2 l') as Hok2.
  { apply heap_ok_write; [done|done|]. rewrite Ep. intros b Hb. apply Hd. lia. }
  rewrite Eb in Hok2. wp_step.
  replace p with (heap_ptr (sysmem (set_sysmem h2 k)) + span b1 + 12) by (unfold p; rewrite Es; simpl; by rewrite Ep).
  eapply wp_mono; [apply (wp_rt_free (set_sysmem h2 k) L true b1 sz b2); [by apply heap_free_mem|exact Hok2|done]|].
  intros o' k3 (h3 & -> & -> & Hst3). simpl. wp_step. exists r, h3. split; [done|]. split; [by destruct k|].
  pose proof (hp_ptr _ _ _ _ _ Hst3) as Ep3. simpl in Ep3. rewrite Ep in Ep3.
  assert (∀ b, used_data (heap_ptr (sysmem k)) l' b → mem_bytes h3 !! b = store r bs (mem_bytes h1) !! b) as Hd3.
  { intros b Hb. apply (hp_data _ _ _ _ _ Hst3). simpl. by rewrite Ep, <- Eb. }
  split; [done|]. exists b1, b2. rewrite Ep3. split_and!; [done|done|by apply Hst3|done|..].
  - intros b Hb. destruct (Hd b Hb) as [Hu Hnu]. split; [|done]. apply used_data_plug.
    apply used_data_in. rewrite Eb in Hu. apply used_data_in, used_in_app in Hu. apply used_in_app.
    destruct Hu as [?|[[_ Hin]|?]]; [by left| |right; by right]. exfalso. apply Hnu, Hp. unfold p. rewrite <- Es. simpl in Hin. lia.
  - intros i Hi. rewrite Hd3 by (apply Hd; lia). rewrite lookup_store_in by lia.
    rewrite bytes_at_lookup in Hbs. rewrite Hbs by lia. f_equal. lia.
  - intros b Hb. rewrite Hd3.
    + rewrite lookup_store_out; [by apply (hp_data _ _ _ _ _ Hst)|]. intros Hin. by destruct (Hd b) as [_ []]; [lia|].
    + rewrite El'. apply used_data_carve. unfold l in Hb. by rewrite <- El.
Qed.

(** What [rt_realloc] decides inside the critical section. *)
Lemma wp_realloc_block low h l1 sz l2 n :
  heap_ok low h (l1 ++ (sz, true) :: l2) → 0 < sz → 0 <= n <= 2 ^ 32 - 4 → n mod 4 = 0 → n <= mem_size_aligned h →
  wp (realloc_block (heap_ptr h + span l1 + 12) n) h (λ r h',
    if n =? sz then r = None ∧ h' = h
    else if n + 24 <? sz then r = None ∧
      heap_ok (low && (lfree h <=? heap_ptr h + span l1)) h' (shrunk l1 sz n l2) ∧ heap_ptr h' = heap_ptr h ∧
      ∀ b, used_data (heap_ptr h) (l1 ++ (sz, true) :: l2) b →
        ¬ (heap_ptr h + span l1 + 12 + n <= b < heap_ptr h + span l1 + 12 + sz) →
        mem_bytes h' !! b = mem_bytes h !! b
    else r = Some sz ∧ h' = h).
Proof.
  intros Hok Hsz Hn Hmod Hle. destruct (heap_work _ _ _ Hok) as (hm & [Hv Hc Hs Hg] & _).
  pose proof (chain_split _ _ _ _ Hc) as (_ & Hx & _).
  pose proof Hs as (Hs1 & _ & Hs2)%sizes_split. pose proof (span_pos _ Hs1). pose proof (span_pos _ Hs2).
  pose proof Hg as [Gb Ga Gs Gm Ge Gt]. rewrite span_app in Gs, Ge, Gt. simpl in Gs, Ge, Gt.
  unfold realloc_block, SIZEOF_STRUCT_MEM, MIN_SIZE. wp_step. wp_step.
  assert (in_heap h (heap_ptr h + span l1 + 12) = true) as ->.
  { unfold in_heap. apply andb_true_iff. split; [apply Z.leb_le; lia|apply Z.ltb_lt; lia]. }
  replace (u32 (heap_ptr h + span l1 + 12 - 12)) with (heap_ptr h + span l1) by (unfold wrap; rewrite Z.mod_small; lia).
  simpl negb. cbv iota. wp_step. eapply (wp_offset_of _ _ _ (span l1)); [exact Hg|done|rewrite span_app; simpl; lia|].
  wp_step. eapply wp_get_next; [exact Hv|exact Hx|]. simpl hm_next.
  replace (u32 (span l1 + 12 + sz - span l1 - 12)) with sz by (unfold wrap; rewrite Z.mod_small; lia).
  rewrite (Z.eqb_sym sz n). destruct (Z.eqb_spec n sz) as [->|Hne]; [by wp_step|].
  replace (u32 (n + 12 + 12)) with (n + 24) by (unfold wrap; rewrite Z.mod_small; lia).
  destruct (Z.ltb_spec (n + 24) sz) as [Hlt|Hge]; [|by wp_step].
  wp_step. eapply wp_mono; [apply (wp_realloc_split low h l1 sz l2 n Hok); [lia|done|done]|].
  intros [] h' (? & ? & _ & ?). by wp_step.
Qed.

(** What a caller passes to [rt_realloc]: null, an address that is not the heap's, or a block
    in use. *)
Inductive pointer :=
  | P_null
  | P_foreign (p : Z)
  | P_block (l1 : list seg) (sz : Z) (l2 : list seg).

Definition address (h : small_mem) (w : pointer) : Z :=
  match w with P_null => 0 | P_foreign p => p | P_block l1 _ _ => heap_ptr h + span l1 + 12 end.

Definition pointer_ok (h : small_mem) (l : list seg) (w : pointer) : Prop :=
  match w with
  | P_null => True
  | P_foreign p => p ≠ 0 ∧ in_heap h p = false
  | P_block l1 sz l2 => l = l1 ++ (sz, true) :: l2 ∧ 0 < sz
  end.

Lemma aligned_size newsize :
  0 <= newsize <= 2 ^ 32 - 4 → let n := 4 * ((newsize + 3) / 4) in
  RT_ALIGN newsize RT_ALIGN_SIZE = n ∧ 0 <= n <= 2 ^ 32 - 4 ∧ n mod 4 = 0.
Proof.
  intros Hs n. split; [by apply RT_ALIGN_spec|]. unfold n.
  split; [pose proof (Z.div_mod (newsize + 3) 4); pose proof (Z.mod_pos_bound (newsize + 3) 4); lia|].
  rewrite Z.mul_comm. apply Z_mod_mult.
Qed.

(** C31: [rt_realloc], for every pointer that a caller may pass and every size that does not
    wrap, 0 included.  A size above that of the heap gets null.  Null is [rt_malloc], and an
    address outside of the heap is returned as it is.  A block in use that already has the
    size stays; one that becomes smaller by more than a header and the smallest block is cut
    in place, and the rest joins a free block behind it; otherwise the block that
    [rt_malloc] finds is allocated, the contents move there up to the smaller of the two
    sizes and the old block is freed and joins its free neighbours; null is returned, and
    nothing changes, exactly when [rt_malloc] finds no block.  No byte of another block in
    use changes. *)
Theorem rt_realloc_spec k L l w newsize :
  heap_free k L → heap_ok true (sysmem k) l → pointer_ok (sysmem k) l w → 0 <= newsize <= 2 ^ 32 - 4 →
  let h := sysmem k in
  let p := address h w in
  let n := 4 * ((newsize + 3) / 4) in
  wp (rt_realloc p newsize) k (λ out k', ∃ r h', out = Return r ∧ k' = set_sysmem h' k ∧
    if mem_size_aligned h <? n then r = 0 ∧ h' = h
    else match w with
    | P_null =>
        match malloc_fit h l n with
        | Some (o, l') => r = heap_ptr h + o + 12 ∧ heap_step true h h' l l'
        | None => r = 0 ∧ h' = h
        end
    | P_foreign _ => r = p ∧ h' = h
    | P_block l1 sz l2 =>
        if n =? sz then r = p ∧ h' = h
        else if n + 24 <? sz then r = p ∧
          heap_ok (lfree h <=? heap_ptr h + span l1) h' (shrunk l1 sz n l2) ∧ heap_ptr h' = heap_ptr h ∧
          ∀ b, used_data (heap_ptr h) l b → ¬ (p + n <= b < p + sz) → mem_bytes h' !! b = mem_bytes h !! b
        else moved h l (span l1) sz p n r h'
    end).
Proof.
  intros Hf Hok Hw Hs h p n. destruct (aligned_size newsize Hs) as (En & Hn & Hmod). fold n in En, Hn, Hmod.
  unfold rt_realloc, RT_DEBUG_NOT_IN_INTERRUPT. wp_step. wp_step. wp_step. apply wp_assert; [by rewrite (hf_nest _ _ Hf)|].
  rewrite En. wp_step. wp_step. fold h. destruct (Z.ltb_spec (mem_size_aligned h) n) as [Hlt|Hge].
  { wp_step. exists 0, h. by destruct k. }
  destruct w as [|q|l1 sz l2]; simpl in Hw; subst p; simpl address.
  { by apply (wp_malloc_fit k L l n). }
  { destruct Hw as [Hq Hin]. rewrite (proj2 (Z.eqb_neq _ _)) by done.
    eapply (wp_locked_resume k L _ _ (λ r h', r = None ∧ h' = h)); [done|..].
    - unfold realloc_block. wp_step. wp_step. fold h in Hin |- *. by rewrite Hin.
    - intros r h' [-> ->]. wp_step. by exists q, h. }
  destruct Hw as [-> Hsz]. pose proof (heap_ptr_pos _ _ _ Hok) as Hpos.
  pose proof (seg_ok_sizes _ (ho_segs _ _ _ Hok)) as (Hs1 & _ & _)%sizes_split. pose proof (span_pos _ Hs1).
  set (p := heap_ptr h + span l1 + 12). rewrite (proj2 (Z.eqb_neq p 0)) by (unfold p, h; lia).
  eapply (wp_locked_resume k L); [done|by apply (wp_realloc_block true h l1 sz l2 n Hok)|].
  fold p. intros r h'. destruct (Z.eqb_spec n sz) as [->|Hne].
  - intros [-> ->]. wp_step. by exists p, h.
  - destruct (Z.ltb_spec (n + 24) sz).
    + intros (-> & Hok' & ? & Hd). wp_step. exists p, h'. split_and!; [done|done|done|exact Hok'|done|exact Hd].
    + intros [-> ->]. unfold h at 1. replace (set_sysmem (sysmem k) k) with k by by destruct k.
      by apply (wp_realloc_move k L l1 sz l2 n).
Qed.

(** * Set-up *)

Ltac put_header_field Hv :=
  let m := fresh "m" in
  intros m Hv; rewrite insert_insert_eq in Hv; wp_steps.

(** [rt_system_heap_init] lays out a well-formed heap: from memory that has room for
    the two headers and the smallest block, whatever it holds, one free block of all the
    memory between the headers; the addresses are aligned inwards. *)
Theorem heap_setup_spec h begin_addr end_addr :
  let b := 4 * ((begin_addr + 3) / 4) in
  let e := 4 * (end_addr / 4) in
  0 < begin_addr → end_addr < 2 ^ 32 → b + 36 <= e → used_mem h = 0 →
  bytes_ok (mem_bytes h) → mapped (mem_bytes h) b (Z.to_nat (e - b)) →
  wp (r ← heap_setup begin_addr end_addr; modify (λ h, set_lfree (heap_ptr h) h);; mret r) h (λ r h',
    r = true ∧ heap_ptr h' = b ∧ mem_size_aligned h' = e - b - 24 ∧ heap_ok true h' [(e - b - 24, false)]).
Proof.
  intros b e Hb He Hroom Hu Hby Hmap.
  assert (begin_addr <= b < begin_addr + 4 ∧ end_addr - 4 < e <= end_addr) as [Rb Re].
  { unfold b, e. pose proof (Z.div_mod (begin_addr + 3) 4). pose proof (Z.mod_pos_bound (begin_addr + 3) 4).
    pose proof (Z.div_mod end_addr 4). pose proof (Z.mod_pos_bound end_addr 4). lia. }
  unfold heap_setup, SIZEOF_STRUCT_MEM. rewrite RT_ALIGN_spec by lia. rewrite RT_ALIGN_DOWN_4 by lia. fold b e.
  replace (u32 (e - 2 * 12)) with (e - 24) by (unfold wrap; rewrite Z.mod_small; lia).
  replace (u32 (e - b - 2 * 12)) with (e - b - 24) by (unfold wrap; rewrite Z.mod_small; lia).
  rewrite (proj2 (Z.ltb_lt _ _)), (proj2 (Z.leb_le _ _)) by lia. cbn [andb].
  wp_steps. simpl.
  replace (u32 (e - b - 24 + 12)) with (e - b - 12) by (unfold wrap; rewrite Z.mod_small; lia).
  destruct (view_new (λ _, False) (mem_bytes h) (mem_bytes h) ∅ b (view_empty _ Hby)) as [x0 Hv];
    [eapply mapped_le; [exact Hmap|lia|lia]|done|done|].
  eapply wp_put_magic; [exact Hv|apply lookup_insert_eq|done|]. put_header_field Hv1.
  eapply wp_put_next; [exact Hv1|apply lookup_insert_eq|lia|]. put_header_field Hv2.
  eapply wp_put_prev; [exact Hv2|apply lookup_insert_eq|done|]. put_header_field Hv3.
  eapply wp_put_used; [exact Hv3|apply lookup_insert_eq|done|]. put_header_field Hv4.
  eapply wp_get_next; [exact Hv4|apply lookup_insert_eq|]. simpl. wp_step.
  unfold block_at. wp_steps. simpl.
  replace (u32 (b + (e - b - 12))) with (e - 12) by (unfold wrap; rewrite Z.mod_small; lia).
  wp_steps. match type of Hv4 with view _ _ _ (<[_ := ?x]> _) => set (x1 := x) in * end.
  destruct (view_new _ _ _ _ (e - 12) Hv4) as [x2 Hw].
  { eapply mapped_le; [eapply mapped_view; [exact Hv4|exact Hmap]|lia|lia]. }
  { intros q y [[<- _]|[_ Hq]]%lookup_insert_Some; [lia|by rewrite lookup_empty in Hq]. }
  { done. }
  eapply wp_put_magic; [exact Hw|apply lookup_insert_eq|done|]. put_header_field Hw1.
  eapply wp_put_used; [exact Hw1|apply lookup_insert_eq|done|]. put_header_field Hw2.
  eapply wp_put_next; [exact Hw2|apply lookup_insert_eq|lia|]. put_header_field Hw3.
  eapply wp_put_prev; [exact Hw3|apply lookup_insert_eq|lia|]. put_header_field Hw4.
  wp_steps. simpl. split_and!; [done|done|done|]. split; simpl.
  - assert (b mod 4 = 0) by (unfold b; rewrite Z.mul_comm; apply Z_mod_mult). split; simpl; lia.
  - constructor; [|constructor]. split; simpl; [lia|].
    replace (e - b - 24) with ((end_addr / 4 - (begin_addr + 3) / 4 - 6) * 4) by (unfold b, e; lia). apply Z_mod_mult.
  - done.
  - split.
    + apply (vw_header Hw4). rewrite lookup_insert_ne by lia. rewrite Z.add_0_r, lookup_insert_eq.
      unfold x1, seg_header, hset_used, hset_prev, hset_next, hset_magic. simpl. f_equal. f_equal. lia.
    + exists (e - b - 12). apply (vw_header Hw4).
      match goal with |- _ !! ?q = _ => replace q with (e - 12) by lia end.
      rewrite lookup_insert_eq. unfold hset_used, hset_prev, hset_next, hset_magic. simpl. f_equal. f_equal; lia.
  - eapply mapped_view; [exact Hw4|]. eapply mapped_le; [exact Hmap|lia|lia].
  - apply Hw4.
  - exists [], [(e - b - 24, false)]. simpl. split_and!; [done|lia|done|constructor].
  - done.
Qed.

(** * Flaws *)

(** The only free block is the last one and has exactly the size that is asked for: it is
    not found, since the loop stops at [mem_size_aligned - size], the offset of that block. *)
Theorem rt_malloc_misses_exact k L l1 size :
  heap_free k L → 0 < size <= 2 ^ 32 - 4 → Forall (λ s, s.2 = true) l1 →
  heap_ok true (sysmem k) (l1 ++ [(request size, false)]) →
  wp (rt_malloc size) k (λ out k', out = Return 0 ∧ k' = k).
Proof.
  intros Hf Hs Hl Hok. eapply wp_mono; [by apply (wp_rt_malloc k L (l1 ++ [(request size, false)]) size)|].
  intros out k' (r & h' & -> & -> & Hm). cbv zeta in Hm.
  pose proof (seg_ok_sizes _ (ho_segs _ _ _ Hok)) as [Hs1 _]%Forall_app.
  pose proof (ge_size _ _ (ho_geometry _ _ _ Hok)) as Gs. rewrite span_app in Gs. simpl in Gs.
  assert (first_fit (mem_size_aligned (sysmem k) - request size) (request size) 0
    (l1 ++ [(request size, false)]) = None) as E.
  { rewrite first_fit_skip by done. simpl. by rewrite (proj2 (Z.ltb_ge _ _)) by lia. }
  rewrite E in Hm. assert (r = 0 ∧ h' = sysmem k) as [-> ->] by by destruct (_ <=? _).
  split; [done|]. by destruct k.
Qed.

(** * Instances *)

Lemma mapped_b (m : ram) a n :
  forallb (λ b, bool_decide (is_Some (m !! b))) (seqZ a (Z.of_nat n)) = true → mapped m a n.
Proof.
  rewrite forallb_forall. intros H b Hb. eapply bool_decide_eq_true, H, list_elem_of_In, elem_of_seqZ. lia.
Qed.

Lemma bytes_ok_b (m : ram) : forallb (λ p, (0 <=? p.2) && (p.2 <? 256)) (map_to_list m) = true → bytes_ok m.
Proof.
  rewrite forallb_forall. intros H b x Hx. apply elem_of_map_to_list, list_elem_of_In, H in Hx. unfold byte. simpl in Hx. lia.
Qed.

(** A heap of 76 bytes behind the boot, with a block of 12 bytes in use; and the same with
    the rest in use, too. *)
Definition heap_boot : kernel :=
  set_sysmem (mk_small_mem 0 0 0 0 0 0 ∅ (ram_of 1000 (replicate 100 170))) booted.
Definition heap_demo : kernel := run (rt_system_heap_init 1000 1100;; rt_malloc 8) heap_boot.

Lemma heap_demo_free : heap_free heap_demo (lists_at heap_demo).
Proof.
  split.
  - apply running_b_spec. by vm_compute.
  - split; [by vm_compute|lia|apply ipc_ok_b_spec; by vm_compute|by vm_compute].
  - by vm_compute.
Qed.

Ltac header_here := split; [vm_compute; by repeat split|by split; vm_compute].

Lemma heap_demo_ok : heap_ok true (sysmem heap_demo) [(12, true); (52, false)].
Proof.
  split.
  - by split; vm_compute.
  - by repeat constructor.
  - done.
  - split; [header_here|]. split; [header_here|]. exists 88. header_here.
  - apply mapped_b. by vm_compute.
  - apply bytes_ok_b. by vm_compute.
  - exists [(12, true)], [(52, false)]. split_and!; [done|by vm_compute|done|by repeat constructor].
  - by vm_compute.
Qed.

Lemma rt_malloc_witness : wp (rt_malloc 9) heap_demo (λ out _, out = Return 1036).
Proof.
  eapply wp_mono.
  - apply (rt_malloc_spec heap_demo (lists_at heap_demo) [(12, true); (52, false)] 9).
    + exact heap_demo_free.
    + exact heap_demo_ok.
    + lia.
  - assert (mem_size_aligned (sysmem heap_demo) = 76) as -> by by vm_compute.
    assert (heap_ptr (sysmem heap_demo) = 1000) as -> by by vm_compute.
    intros out k' (r & h' & -> & _ & -> & _). reflexivity.
Defined.

Lemma rt_free_witness :
  wp (rt_free 1012) heap_demo (λ out k', out = Return tt ∧ heap_ok true (sysmem k') [(76, false)]).
Proof.
  assert (heap_ptr (sysmem heap_demo) = 1000) as E by by vm_compute.
  replace 1012 with (heap_ptr (sysmem heap_demo) + span [] + 12) by (rewrite E; reflexivity).
  eapply wp_mono.
  - apply (rt_free_spec heap_demo (lists_at heap_demo) true [] 12 [(52, false)]).
    + exact heap_demo_free.
    + exact heap_demo_ok.
    + lia.
  - intros out k' (h' & -> & -> & H). split; [reflexivity|exact (hp_ok _ _ _ _ _ H)].
Defined.

Lemma rt_malloc_free_roundtrip_witness :
  wp (o ← rt_malloc 20; after o (λ p, o ← rt_free p; after o (λ _, mret (Return p)))) heap_demo (λ _ k',
    heap_ok true (sysmem k') [(12, true); (52, false)]).
Proof.
  eapply wp_mono.
  - apply (rt_malloc_free_roundtrip heap_demo (lists_at heap_demo) [(12, true); (52, false)] 20).
    + exact heap_demo_free.
    + exact heap_demo_ok.
    + lia.
  - intros out k' (p & h' & _ & -> & H & _). exact H.
Defined.

Definition heap_busy : kernel := run (rt_sem_take heap_sem 0) heap_demo.

Lemma heap_exclusive_witness :
  wp (rt_malloc 4) heap_busy (λ out k', sysmem k' = sysmem heap_busy) ∧
  wp (rt_free 1012) heap_busy (λ out k', sysmem k' = sysmem heap_busy).
Proof.
  destruct (heap_exclusive heap_busy (lists_at heap_busy) 2 (thread_at heap_busy 2) 4 1012) as [H1 H2].
  - apply running_b_spec. by vm_compute.
  - split; [by vm_compute|lia|apply ipc_ok_b_spec; by vm_compute|lia].
  - apply may_block_b_spec. by vm_compute.
  - lia.
  - by vm_compute.
  - lia.
  - reflexivity.
  - by vm_compute.
  - split; [eapply wp_mono; [exact H1|]|eapply wp_mono; [exact H2|]]; intros out k' (_ & H & _); exact H.
Defined.

Lemma rt_calloc_witness :
  wp (rt_calloc 2 8) heap_demo (λ out k', ∃ r, out = Return r ∧ (r ≠ 0 → mem_bytes (sysmem k') !! r = Some 0)).
Proof.
  eapply wp_mono.
  - apply (rt_calloc_spec heap_demo (lists_at heap_demo) [(12, true); (52, false)] 2 8).
    + exact heap_demo_free.
    + exact heap_demo_ok.
    + lia.
  - intros out k' (r & h' & -> & -> & H). exists r. split; [reflexivity|]. intros Hr.
    destruct H as [[-> _]|(_ & l' & _ & H & _)]; [by destruct Hr|]. apply (H r). lia.
Defined.

Lemma heap_demo_at : heap_ptr (sysmem heap_demo) = 1000 ∧ mem_size_aligned (sysmem heap_demo) = 76.
Proof. split; by vm_compute. Qed.

Lemma rt_realloc_witness :
  wp (rt_realloc 1012 10) heap_demo (λ out k', out = Return 1012 ∧ k' = heap_demo) ∧
  wp (rt_realloc 1012 24) heap_demo (λ out k', out = Return 1036 ∧ heap_ok true (sysmem k') [(12, false); (24, true); (16, false)]).
Proof.
  pose proof heap_demo_free as Hf. pose proof heap_demo_ok as Hok. destruct heap_demo_at as [E Em].
  revert Hf Hok E Em. generalize (lists_at heap_demo). generalize heap_demo. intros k L Hf Hok E Em.
  set (w := P_block [] 12 [(52, false)]).
  assert (pointer_ok (sysmem k) [(12, true); (52, false)] w) as Hw by (split; [reflexivity|lia]).
  assert (address (sysmem k) w = 1012) as Ew by (simpl; rewrite E; reflexivity). rewrite <- Ew. split.
  - eapply wp_mono; [apply (rt_realloc_spec k L [(12, true); (52, false)] w 10 Hf Hok Hw); lia|].
    rewrite Em, Ew. intros out k' (r & h' & -> & -> & H). change (4 * ((10 + 3) / 4)) with 12 in H.
    destruct H as [-> ->]. split; [reflexivity|by destruct k].
  - eapply wp_mono; [apply (rt_realloc_spec k L [(12, true); (52, false)] w 24 Hf Hok Hw); lia|].
    rewrite Em, Ew. intros out k' (r & h' & -> & -> & H). change (4 * ((24 + 3) / 4)) with 24 in H.
    unfold moved, malloc_fit in H. rewrite E, Em in H. destruct H as (-> & b1 & b2 & Eb & _ & H & _).
    split; [reflexivity|]. simpl. change (carve 52 (request 24) ++ []) with [(24, true); (16, false)] in Eb.
    destruct b1 as [|? b1]; [injection Eb as <-; exact H|].
    injection Eb as _ Eb. destruct b1 as [|? [|? [|? ?]]]; discriminate.
Defined.

Lemma heap_setup_witness :
  wp (r ← heap_setup 1000 1100; modify (λ h, set_lfree (heap_ptr h) h);; mret r) (sysmem heap_boot) (λ r h',
    r = true ∧ heap_ok true h' [(76, false)]).
Proof.
  eapply wp_mono.
  - apply (heap_setup_spec (sysmem heap_boot) 1000 1100).
    + lia.
    + lia.
    + by vm_compute.
    + by vm_compute.
    + apply bytes_ok_b. by vm_compute.
    + apply mapped_b. by vm_compute.
  - intros r h' (-> & _ & _ & H). split; [reflexivity|exact H].
Defined.

(** [rt_realloc] does not lower [lfree]: the 56 bytes that the cut sets free, below the
    end, are not found by the next request. *)
Definition heap_full : kernel := run (rt_system_heap_init 1000 1100;; rt_malloc 64) heap_boot.
Example rt_realloc_hides_block :
  wp (o ← rt_realloc 1012 8; after o (λ _, rt_malloc 16)) heap_full (λ out k', out = Return 0 ∧
    bytes_at (mem_bytes (sysmem k')) 1020 (header_bytes (mk_heap_mem HEAP_MAGIC 0 (20 + 12 + 56) 0))).
Proof. by vm_compute. Qed.
