(* ===== verification/MemHeapSpec.v ===== *)
(** Memory heaps as allocators: the ring of blocks and the ring of free blocks in memory,
    and what [rt_memheap_alloc], [rt_memheap_free] and [rt_memheap_realloc] do to them and
    to the data of the blocks in use. *)

From Stdlib Require Import ZArith Lia.
From stdpp Require Import numbers strings base fin_maps gmap list.
From S2P Require Import Prelude Bytes Overlay KString RtList Bitmap Kernel Scheduler Object Timer Thread Ipc MemPool Mem MemHeap.
From S2P Require Import Invariant ThreadSpec Check Demo TimerSpec ThreadRun IpcSpec Semaphore MemSpec MemApi.
Local Open Scope Z_scope.

(** * Items in memory *)

(** An item has a core, which links the blocks, and a node of the free ring. *)
Record core := mk_core { c_magic : Z; c_pool : Z; c_next : Z; c_prev : Z }.
Definition cset_magic v c := mk_core v (c_pool c) (c_next c) (c_prev c).
Definition cset_pool v c := mk_core (c_magic c) v (c_next c) (c_prev c).
Definition cset_next v c := mk_core (c_magic c) (c_pool c) v (c_prev c).
Definition cset_prev v c := mk_core (c_magic c) (c_pool c) (c_next c) v.

Notation item := (core * rt_list_node Z)%type.

Definition item_words (x : item) : list Z :=
  [c_magic x.1; c_pool x.1; c_next x.1; c_prev x.1; next x.2; prev x.2].
Definition words_at (m : ram) (p : Z) (ws : list Z) : Prop :=
  ∀ i v, ws !! i = Some v → bytes_at m (p + 4 * Z.of_nat i) (le_bytes 4 v).
Definition word_ok (v : Z) : Prop := 0 <= v < 2 ^ 32.
Definition item_at (m : ram) (p : Z) (x : item) : Prop :=
  words_at m p (item_words x) ∧ Forall word_ok (item_words x).

Lemma words_at_store m p ws i v :
  words_at m p ws → (i < length ws)%nat →
  words_at (store (p + 4 * Z.of_nat i) (le_bytes 4 v) m) p (<[i := v]> ws).
Proof.
  intros H Hi j w Hj. destruct (decide (i = j)) as [<-|Hne].
  - rewrite list_lookup_insert_eq in Hj by done. injection Hj as <-. apply bytes_at_store.
  - rewrite list_lookup_insert_ne in Hj by done. apply bytes_at_store_ne; [|by apply H].
    rewrite !length_le_bytes. lia.
Qed.

Lemma item_frame m p x a l : a + Z.of_nat (length l) <= p ∨ p + 24 <= a → item_at m p x → item_at (store a l m) p x.
Proof.
  intros Hd [H Hr]. split; [|done]. intros i v Hi. apply bytes_at_store_ne; [|by apply H].
  apply lookup_lt_Some in Hi. rewrite length_le_bytes. simpl in Hi. lia.
Qed.

Lemma word_exists m p n : bytes_ok m → mapped m p n → (4 <= n)%nat →
  ∃ v, bytes_at m p (le_bytes 4 v) ∧ word_ok v.
Proof.
  intros Hok Hm Hn. destruct (mapped_bytes_ok m p 4 Hok) as (l & Hl & Hb & Hby).
  { eapply mapped_le; [exact Hm|lia|lia]. }
  exists (le_val l). pose proof (le_bytes_val l Hby) as E. rewrite Hl in E. rewrite E. split; [done|].
  pose proof (le_val_range l Hby) as R. by rewrite Hl in R.
Qed.

Lemma item_exists m p : bytes_ok m → mapped m p (Z.to_nat 24) → ∃ x, item_at m p x.
Proof.
  intros Hok Hm.
  assert (∀ i, 0 <= i < 6 → ∃ v, bytes_at m (p + 4 * i) (le_bytes 4 v) ∧ word_ok v) as Hw.
  { intros i Hi. apply (word_exists _ _ 4 Hok); [|lia]. eapply mapped_le; [exact Hm|lia|lia]. }
  destruct (Hw 0) as (v0 & ? & ?); [lia|]. destruct (Hw 1) as (v1 & ? & ?); [lia|].
  destruct (Hw 2) as (v2 & ? & ?); [lia|]. destruct (Hw 3) as (v3 & ? & ?); [lia|].
  destruct (Hw 4) as (v4 & ? & ?); [lia|]. destruct (Hw 5) as (v5 & ? & ?); [lia|].
  exists (mk_core v0 v1 v2 v3, mk_node v4 v5). split; [|by repeat (apply Forall_cons; split; [done|])].
  intros i v Hi. do 6 (destruct i as [|i]; [by injection Hi as <-|]). done.
Qed.

#[export] Instance item_layout : Layout 24 item_at.
Proof. split; [intros *; apply item_frame|apply item_exists]. Qed.

(** The items at the keys of [C], which are the keys of [R]: their cores and their nodes. *)
Definition pool (D : Z → Prop) (m0 m : ram) (C : gmap Z core) (R : lheap Z) : Prop :=
  ∃ hm, overlay 24 item_at D m0 m hm ∧ C = fst <$> hm ∧ R = snd <$> hm.

Lemma pool_keys D m0 m C R p : pool D m0 m C R → is_Some (C !! p) ↔ is_Some (R !! p).
Proof. intros (hm & _ & -> & ->). by rewrite !lookup_fmap, !fmap_is_Some. Qed.

Lemma pool_item D m0 m C R p c n : pool D m0 m C R → C !! p = Some c → R !! p = Some n → item_at m p (c, n).
Proof.
  intros (hm & Hv & -> & ->) Hc Hn. rewrite lookup_fmap in Hc. rewrite lookup_fmap in Hn. apply (vw_header Hv).
  destruct (hm !! p) as [[c' n']|]; [|done]. simpl in *. congruence.
Qed.

Lemma pool_apart D m0 m C R p q :
  pool D m0 m C R → is_Some (C !! p) → is_Some (C !! q) → p ≠ q → p + 24 <= q ∨ q + 24 <= p.
Proof.
  intros (hm & Hv & -> & _). rewrite !lookup_fmap, !fmap_is_Some. intros [x Hx] [y Hy]. by apply (vw_apart Hv p q x y).
Qed.

Lemma pool_drop D m0 m C R p : pool D m0 m C R → pool D m0 m (delete p C) (delete p R).
Proof.
  intros (hm & Hv & -> & ->). exists (delete p hm). rewrite !fmap_delete. split_and!; [by apply view_drop|done|done].
Qed.

Lemma pool_new D m0 m C R p :
  pool D m0 m C R → mapped m p 24 → (∀ q, is_Some (C !! q) → p + 24 <= q ∨ q + 24 <= p) →
  (∀ b, D b → b < p ∨ p + 24 <= b) → ∃ c n, pool D m0 m (<[p := c]> C) (<[p := n]> R).
Proof.
  intros (hm & Hv & -> & ->) Hm Hap Hoff. destruct (view_new _ _ _ _ p Hv Hm) as [[c n] Hv'].
  { intros q y Hq. apply Hap. rewrite lookup_fmap, Hq. by eexists. }
  { done. }
  exists c, n, (<[p := (c, n)]> hm). by rewrite !fmap_insert.
Qed.

(** * The accesses *)

Section access.
Context {D : Z → Prop} {m0 : ram} {h : small_mem} {C : gmap Z core} {R : lheap Z}.
Hypothesis Hp : pool D m0 (mem_bytes h) C R.

Lemma wp_item_word (f : item → Z) (i : nat) p c n (Q : Z → small_mem → Prop) :
  C !! p = Some c → R !! p = Some n → item_words (c, n) !! i = Some (f (c, n)) → Q (f (c, n)) h →
  wp (on_bytes (rd32 (p + 4 * Z.of_nat i))) h Q.
Proof using Hp.
  intros Hc Hn Hi HQ. destruct (pool_item _ _ _ _ _ _ _ _ Hp Hc Hn) as [Hw Hr].
  eapply wp_get_field; [by apply Hw| |exact HQ]. change (256 ^ Z.of_nat 4) with (2 ^ 32).
  by apply (Forall_lookup_1 _ _ _ _ Hr Hi).
Qed.

Lemma core_word (f : core → Z) (i : nat) p c (Q : Z → small_mem → Prop) :
  (∀ n, item_words (c, n) !! i = Some (f c)) → C !! p = Some c → Q (f c) h →
  wp (on_bytes (rd32 (p + 4 * Z.of_nat i))) h Q.
Proof using Hp.
  intros Hi Hc HQ. destruct (proj1 (pool_keys _ _ _ _ _ p Hp)) as [n Hn]; [by eexists|].
  by apply (wp_item_word (λ x, f x.1) i p c n).
Qed.

Lemma node_word (f : rt_list_node Z → Z) (i : nat) p v (Q : Z → small_mem → Prop) :
  (∀ c n, item_words (c, n) !! i = Some (f n)) → f <$> R !! p = Some v → Q v h →
  wp (on_bytes (rd32 (p + 4 * Z.of_nat i))) h Q.
Proof using Hp.
  intros Hi (n & Hn & ->)%fmap_Some HQ. destruct (proj2 (pool_keys _ _ _ _ _ p Hp)) as [c Hc]; [by eexists|].
  by apply (wp_item_word (λ x, f x.2) i p c n).
Qed.

Lemma wp_item_magic p c (Q : Z → small_mem → Prop) : C !! p = Some c → Q (c_magic c) h → wp (item_magic p) h Q.
Proof using Hp. intros. unfold item_magic. replace p with (p + 4 * Z.of_nat 0) by lia. by eapply (core_word c_magic). Qed.
Lemma wp_item_pool_ptr p c (Q : Z → small_mem → Prop) : C !! p = Some c → Q (c_pool c) h → wp (item_pool_ptr p) h Q.
Proof using Hp. intros. by eapply (core_word c_pool 1). Qed.
Lemma wp_item_next p c (Q : Z → small_mem → Prop) : C !! p = Some c → Q (c_next c) h → wp (item_next p) h Q.
Proof using Hp. intros. by eapply (core_word c_next 2). Qed.
Lemma wp_item_prev p c (Q : Z → small_mem → Prop) : C !! p = Some c → Q (c_prev c) h → wp (item_prev p) h Q.
Proof using Hp. intros. by eapply (core_word c_prev 3). Qed.
Lemma wp_item_next_free p v (Q : Z → small_mem → Prop) :
  next <$> R !! p = Some v → Q v h → wp (item_next_free p) h Q.
Proof using Hp. intros. by eapply (node_word next 4). Qed.
Lemma wp_item_prev_free p v (Q : Z → small_mem → Prop) :
  prev <$> R !! p = Some v → Q v h → wp (item_prev_free p) h Q.
Proof using Hp. intros. by eapply (node_word prev 5). Qed.

Lemma wp_set_item_word (i : nat) p c n c' n' v (Q : unit → small_mem → Prop) :
  C !! p = Some c → R !! p = Some n → word_ok v → (i < 6)%nat → item_words (c', n') = <[i := v]> (item_words (c, n)) →
  (∀ m', pool D m0 m' (<[p := c']> C) (<[p := n']> R) → Q tt (set_mem_bytes m' h)) →
  wp (on_bytes (wr32 (p + 4 * Z.of_nat i) v)) h Q.
Proof using Hp.
  intros Hc Hn Hv Hi Hw HQ. destruct (pool_item _ _ _ _ _ _ _ _ Hp Hc Hn) as [Hws Hr].
  destruct Hp as (hm & Hview & EC & ER). unfold on_bytes. wp_step. apply wp_wr_word.
  { assert (is_Some (item_words (c, n) !! i)) as [w Hwi] by by apply lookup_lt_is_Some.
    apply Hws, bytes_at_mapped in Hwi. by rewrite length_le_bytes in Hwi. }
  apply HQ. exists (<[p := (c', n')]> hm). rewrite !fmap_insert, <- EC, <- ER. split_and!; [|done|done].
  assert (hm !! p = Some (c, n)) as Hhm.
  { rewrite EC, lookup_fmap in Hc. rewrite ER, lookup_fmap in Hn. destruct (hm !! p) as [[c1 n1]|]; [|done].
    simpl in *. congruence. }
  eapply view_store; [exact Hview|exact Hhm|apply le_bytes_ok|lia|rewrite length_le_bytes; lia|].
  split; rewrite Hw; [by apply words_at_store|]. by apply Forall_insert.
Qed.

Lemma set_core_word (i : nat) p c c' v (Q : unit → small_mem → Prop) :
  (∀ n, item_words (c', n) = <[i := v]> (item_words (c, n))) → (i < 6)%nat → C !! p = Some c → word_ok v →
  (∀ m', pool D m0 m' (<[p := c']> C) R → Q tt (set_mem_bytes m' h)) →
  wp (on_bytes (wr32 (p + 4 * Z.of_nat i) v)) h Q.
Proof using Hp.
  intros Hw Hi Hc Hv HQ. destruct (proj1 (pool_keys _ _ _ _ _ p Hp)) as [n Hn]; [by eexists|].
  eapply (wp_set_item_word i p c n c' n); [done..|]. intros m' Hm'. apply HQ. by rewrite (insert_id R p n) in Hm'.
Qed.

Lemma set_node_word (i : nat) p n n' v (Q : unit → small_mem → Prop) :
  (∀ c, item_words (c, n') = <[i := v]> (item_words (c, n))) → (i < 6)%nat → R !! p = Some n → word_ok v →
  (∀ m', pool D m0 m' C (<[p := n']> R) → Q tt (set_mem_bytes m' h)) →
  wp (on_bytes (wr32 (p + 4 * Z.of_nat i) v)) h Q.
Proof using Hp.
  intros Hw Hi Hn Hv HQ. destruct (proj2 (pool_keys _ _ _ _ _ p Hp)) as [c Hc]; [by eexists|].
  eapply (wp_set_item_word i p c n c n'); [done..|]. intros m' Hm'. apply HQ. by rewrite (insert_id C p c) in Hm'.
Qed.

Lemma wp_set_item_magic p c v (Q : unit → small_mem → Prop) :
  C !! p = Some c → word_ok v → (∀ m', pool D m0 m' (<[p := cset_magic v c]> C) R → Q tt (set_mem_bytes m' h)) →
  wp (set_item_magic p v) h Q.
Proof using Hp.
  intros. unfold set_item_magic. replace p with (p + 4 * Z.of_nat 0) at 1 by lia.
  by apply (set_core_word 0 p c (cset_magic v c) v); [|lia|..].
Qed.
Lemma wp_set_item_pool_ptr p c v (Q : unit → small_mem → Prop) :
  C !! p = Some c → word_ok v → (∀ m', pool D m0 m' (<[p := cset_pool v c]> C) R → Q tt (set_mem_bytes m' h)) →
  wp (set_item_pool_ptr p v) h Q.
Proof using Hp. intros. by apply (set_core_word 1 p c (cset_pool v c) v); [|lia|..]. Qed.
Lemma wp_set_item_next p c v (Q : unit → small_mem → Prop) :
  C !! p = Some c → word_ok v → (∀ m', pool D m0 m' (<[p := cset_next v c]> C) R → Q tt (set_mem_bytes m' h)) →
  wp (set_item_next p v) h Q.
Proof using Hp. intros. by apply (set_core_word 2 p c (cset_next v c) v); [|lia|..]. Qed.
Lemma wp_set_item_prev p c v (Q : unit → small_mem → Prop) :
  C !! p = Some c → word_ok v → (∀ m', pool D m0 m' (<[p := cset_prev v c]> C) R → Q tt (set_mem_bytes m' h)) →
  wp (set_item_prev p v) h Q.
Proof using Hp. intros. by apply (set_core_word 3 p c (cset_prev v c) v); [|lia|..]. Qed.

Lemma insert_set_next p n v : R !! p = Some n → <[p := mk_node v (prev n)]> R = set_next p v R.
Proof using. intros Hn. apply map_eq. intros i. unfold set_next. rewrite lookup_alter, lookup_insert. case_decide; subst; by rewrite ?Hn. Qed.
Lemma insert_set_prev p n v : R !! p = Some n → <[p := mk_node (next n) v]> R = set_prev p v R.
Proof using. intros Hn. apply map_eq. intros i. unfold set_prev. rewrite lookup_alter, lookup_insert. case_decide; subst; by rewrite ?Hn. Qed.

Lemma wp_set_item_next_free p v (Q : unit → small_mem → Prop) :
  is_Some (R !! p) → word_ok v → (∀ m', pool D m0 m' C (set_next p v R) → Q tt (set_mem_bytes m' h)) →
  wp (set_item_next_free p v) h Q.
Proof using Hp.
  intros [n Hn] Hv HQ. eapply (set_node_word 4 p n (mk_node v (prev n))); [done|lia|done|done|].
  by rewrite (insert_set_next p n v Hn).
Qed.
Lemma wp_set_item_prev_free p v (Q : unit → small_mem → Prop) :
  is_Some (R !! p) → word_ok v → (∀ m', pool D m0 m' C (set_prev p v R) → Q tt (set_mem_bytes m' h)) →
  wp (set_item_prev_free p v) h Q.
Proof using Hp.
  intros [n Hn] Hv HQ. eapply (set_node_word 5 p n (mk_node (next n) v)); [done|lia|done|done|].
  by rewrite (insert_set_prev p n v Hn).
Qed.
End access.

(** * Rows of blocks *)

Fixpoint extent (l : list seg) : Z :=
  match l with [] => 0 | s :: l => 24 + s.1 + extent l end.

(** The core of a block. *)
Definition blk (heap : Z) (used : bool) (nx pv : Z) : core :=
  mk_core (if used then RT_MEMHEAP_MAGIC + 1 else RT_MEMHEAP_MAGIC) heap nx pv.

(** The blocks [l] are in a row from [a], behind the block at [pv]; ... *)
Fixpoint rseg (C : gmap Z core) (heap pv a : Z) (l : list seg) : Prop :=
  match l with
  | [] => True
  | s :: l => C !! a = Some (blk heap s.2 (a + 24 + s.1) pv) ∧ rseg C heap a (a + 24 + s.1) l
  end.
(** ... and the last one is followed by the tail, which is followed by [first]. *)
Fixpoint row (C : gmap Z core) (heap first pv a : Z) (l : list seg) : Prop :=
  match l with
  | [] => C !! a = Some (blk heap true first pv)
  | s :: l => C !! a = Some (blk heap s.2 (a + 24 + s.1) pv) ∧ row C heap first a (a + 24 + s.1) l
  end.
Fixpoint last_at (pv a : Z) (l : list seg) : Z :=
  match l with [] => pv | s :: l => last_at a (a + 24 + s.1) l end.
(** The addresses of the free blocks, and their size. *)
Fixpoint frees (a : Z) (l : list seg) : list Z :=
  match l with [] => [] | s :: l => (if s.2 then [] else [a]) ++ frees (a + 24 + s.1) l end.
Fixpoint free_total (l : list seg) : Z :=
  match l with [] => 0 | s :: l => (if s.2 then 0 else s.1) + free_total l end.

Lemma extent_app l1 l2 : extent (l1 ++ l2) = extent l1 + extent l2.
Proof. induction l1 as [|s l1 IH]; simpl; lia. Qed.
Lemma extent_pos l : sizes l → 0 <= extent l.
Proof. induction 1; simpl; lia. Qed.
Lemma free_total_app l1 l2 : free_total (l1 ++ l2) = free_total l1 + free_total l2.
Proof. induction l1 as [|[s []] l1 IH]; simpl; lia. Qed.
Lemma free_total_range l : sizes l → 0 <= free_total l <= extent l.
Proof. induction 1 as [|[s []] l ? _ IH]; simpl in *; lia. Qed.

Lemma shift_extent a s l : a + 24 + s + extent l = a + (24 + s + extent l).
Proof. lia. Qed.

Lemma frees_app a l1 l2 : frees a (l1 ++ l2) = frees a l1 ++ frees (a + extent l1) l2.
Proof.
  revert a. induction l1 as [|s l1 IH]; intros a; simpl; [by rewrite Z.add_0_r|].
  by rewrite IH, <- app_assoc, shift_extent.
Qed.
Lemma last_at_app pv a l1 l2 : last_at pv a (l1 ++ l2) = last_at (last_at pv a l1) (a + extent l1) l2.
Proof.
  revert pv a. induction l1 as [|s l1 IH]; intros pv a; simpl; [by rewrite Z.add_0_r|]. by rewrite IH, shift_extent.
Qed.
Lemma rseg_app C heap pv a l1 l2 :
  rseg C heap pv a (l1 ++ l2) ↔ rseg C heap pv a l1 ∧ rseg C heap (last_at pv a l1) (a + extent l1) l2.
Proof.
  revert pv a. induction l1 as [|s l1 IH]; intros pv a; simpl; [rewrite Z.add_0_r; tauto|].
  rewrite IH, shift_extent. tauto.
Qed.
Lemma row_app C heap first pv a l1 l2 :
  row C heap first pv a (l1 ++ l2) ↔ rseg C heap pv a l1 ∧ row C heap first (last_at pv a l1) (a + extent l1) l2.
Proof.
  revert pv a. induction l1 as [|s l1 IH]; intros pv a; simpl; [rewrite Z.add_0_r; tauto|].
  rewrite IH, shift_extent. tauto.
Qed.

Lemma rseg_frame C C' heap pv a l :
  sizes l → (∀ q, a <= q < a + extent l → C' !! q = C !! q) → rseg C heap pv a l → rseg C' heap pv a l.
Proof.
  intros Hs. revert pv a. induction Hs as [|s l Hs0 Hs IH]; intros pv a HC; simpl in *; [done|].
  pose proof (extent_pos l Hs). intros [H1 H2]. split; [by rewrite HC by lia|]. apply IH; [|done]. intros q Hq. apply HC. lia.
Qed.
Lemma row_frame C C' heap first pv a l :
  sizes l → (∀ q, a <= q <= a + extent l → C' !! q = C !! q) → row C heap first pv a l → row C' heap first pv a l.
Proof.
  intros Hs. revert pv a. induction Hs as [|s l Hs0 Hs IH]; intros pv a HC; simpl in *; [intros; by rewrite HC by lia|].
  pose proof (extent_pos l Hs). intros [H1 H2]. split; [by rewrite HC by lia|]. apply IH; [|done]. intros q Hq. apply HC. lia.
Qed.

(** The first item of a row. *)
Definition first_core (heap first pv a : Z) (l : list seg) : core :=
  match l with [] => blk heap true first pv | s :: _ => blk heap s.2 (a + 24 + s.1) pv end.

Lemma row_first C heap first pv a l : row C heap first pv a l → C !! a = Some (first_core heap first pv a l).
Proof. by destruct l as [|s l]; [|intros [? _]]. Qed.

Lemma row_set_prev C C' heap first pv pv' a l :
  sizes l → row C heap first pv a l → C' !! a = Some (cset_prev pv' (first_core heap first pv a l)) →
  (∀ q, a < q <= a + extent l → C' !! q = C !! q) → row C' heap first pv' a l.
Proof.
  intros Hs Hr Ha HC. destruct Hs as [|s l Hs0 Hs]; simpl in *; [done|]. destruct Hr as [_ Hr].
  split; [done|]. pose proof (extent_pos l Hs). eapply row_frame; [done| |exact Hr]. intros q Hq. apply HC. lia.
Qed.

(** Cutting a block, ... *)
Lemma row_cut C heap first pv a s1 s2 u l n p :
  0 <= s1 → 0 <= s2 → sizes l → row C heap first pv a ((s1 + 24 + s2, u) :: l) →
  n = a + 24 + (s1 + 24 + s2) → p = a + 24 + s1 →
  row (<[a := blk heap u p pv]> (<[n := cset_prev p (first_core heap first a n l)]> (<[p := blk heap false n a]> C)))
    heap first pv a ((s1, u) :: (s2, false) :: l).
Proof.
  intros H1 H2 Hs [Ha Hr] -> ->. simpl in *. pose proof (extent_pos l Hs). split; [apply lookup_insert_eq|]. split.
  - rewrite !lookup_insert_ne by lia. rewrite lookup_insert_eq. do 2 f_equal. lia.
  - replace (a + 24 + s1 + 24 + s2) with (a + 24 + (s1 + 24 + s2)) by lia. eapply row_set_prev; [done|exact Hr|..].
    + rewrite lookup_insert_ne by lia. apply lookup_insert_eq.
    + intros q Hq. by rewrite !lookup_insert_ne by lia.
Qed.

(** ... joining two blocks, ... *)
Lemma row_join C heap first pv a s1 s2 u u2 l n :
  0 <= s1 → 0 <= s2 → sizes l → row C heap first pv a ((s1, u) :: (s2, u2) :: l) → n = a + 24 + s1 + 24 + s2 →
  row (<[a := blk heap u n pv]> (<[n := cset_prev a (first_core heap first (a + 24 + s1) n l)]> C))
    heap first pv a ((s1 + 24 + s2, u) :: l).
Proof.
  intros H1 H2 Hs (Ha & _ & Hr) ->. simpl in *. pose proof (extent_pos l Hs). split.
  - rewrite lookup_insert_eq. do 2 f_equal. lia.
  - replace (a + 24 + (s1 + 24 + s2)) with (a + 24 + s1 + 24 + s2) by lia. eapply row_set_prev; [done|exact Hr|..].
    + rewrite lookup_insert_ne by lia. apply lookup_insert_eq.
    + intros q Hq. by rewrite !lookup_insert_ne by lia.
Qed.

(** ... and marking a block. *)
Lemma row_mark C heap first pv a s u u' l :
  0 <= s → sizes l → row C heap first pv a ((s, u) :: l) →
  row (<[a := blk heap u' (a + 24 + s) pv]> C) heap first pv a ((s, u') :: l).
Proof.
  intros H1 Hs [Ha Hr]. simpl in *. pose proof (extent_pos l Hs). split; [apply lookup_insert_eq|].
  eapply row_frame; [done| |exact Hr]. intros q Hq. by rewrite lookup_insert_ne by lia.
Qed.

(** All blocks of a pool at [start]. *)
Definition rows (C : gmap Z core) (heap start : Z) (l : list seg) : Prop :=
  row C heap start (start + extent l) start l.

Lemma rows_edit C C' heap start l1 m1 m2 :
  sizes l1 → rows C heap start (l1 ++ m1) → extent m1 = extent m2 →
  (∀ q, start <= q < start + extent l1 → C' !! q = C !! q) →
  (∀ pv, row C heap start pv (start + extent l1) m1 → row C' heap start pv (start + extent l1) m2) →
  rows C' heap start (l1 ++ m2).
Proof.
  unfold rows. rewrite !extent_app. intros Hs1 Hr E HC Hm. rewrite <- E. apply row_app in Hr as [H1 H2]. apply row_app.
  split; [by eapply rseg_frame|by apply Hm].
Qed.

(** * The ring of free blocks *)

Lemma NoDup_middle {A} (l1 : list A) p l2 : NoDup (l1 ++ p :: l2) → p ∉ l1 ++ l2 ∧ NoDup (l1 ++ l2).
Proof. by rewrite <- Permutation_middle, NoDup_cons. Qed.

Lemma ring_around (R : lheap Z) hd l1 p l2 :
  dlist R hd (l1 ++ p :: l2) → ∃ ns x y ms,
    hd :: (l1 ++ p :: l2) ++ [hd] = ns ++ x :: p :: y :: ms ∧ hd :: (l1 ++ l2) ++ [hd] = ns ++ x :: y :: ms ∧
    lnk R x p ∧ lnk R p y ∧ x ∈ hd :: l1 ++ l2 ∧ y ∈ hd :: l1 ++ l2 ∧ NoDup (hd :: l1 ++ l2) ∧ p ∉ hd :: l1 ++ l2.
Proof.
  intros Hd.
  assert (∃ ns x, hd :: l1 = ns ++ [x]) as (ns & x & E).
  { destruct l1 as [|x l1 _] using rev_ind; [by exists [], hd|by exists (hd :: l1), x]. }
  assert (∃ y ms, l2 ++ [hd] = y :: ms) as (y & ms & E2) by (destruct l2; simpl; eauto).
  assert (hd :: (l1 ++ p :: l2) ++ [hd] = ns ++ x :: p :: y :: ms) as E3.
  { rewrite !app_comm_cons, E. simplify_list_eq. by rewrite E2. }
  exists ns, x, y, ms. split_and!; [done|..].
  - rewrite !app_comm_cons, E. simplify_list_eq. by rewrite E2.
  - by eapply dlist_lnk.
  - eapply (dlist_lnk _ _ _ (ns ++ [x])); [exact Hd|]. by rewrite E3, <- app_assoc.
  - assert (x ∈ hd :: l1) by (rewrite E; set_solver). set_solver.
  - assert (y ∈ l2 ++ [hd]) by (rewrite E2; set_solver). set_solver.
  - by apply (NoDup_middle (hd :: l1) p l2), Hd.
  - by apply (NoDup_middle (hd :: l1) p l2), Hd.
Qed.

Lemma lnk_nodes (R : lheap Z) x y : lnk R x y → is_Some (R !! x) ∧ is_Some (R !! y).
Proof. intros [(? & -> & _)%fmap_Some (? & -> & _)%fmap_Some]. eauto. Qed.

(** Nodes off the ring do not matter. *)
Lemma dlist_off (R R' : lheap Z) hd l p :
  p ∉ hd :: l → (∀ i, i ≠ p → R' !! i = R !! i) → dlist R hd l → dlist R' hd l.
Proof. intros Hp HR. apply dlist_frame; intros i Hi; (rewrite HR; [done|]); by intros ->. Qed.

Lemma set_next_other (R : lheap Z) p v i : i ≠ p → set_next p v R !! i = R !! i.
Proof. intros. unfold set_next. by rewrite lookup_alter_ne. Qed.
Lemma set_prev_other (R : lheap Z) p v i : i ≠ p → set_prev p v R !! i = R !! i.
Proof. intros. unfold set_prev. by rewrite lookup_alter_ne. Qed.

Ltac ring_cases :=
  repeat first [ rewrite next_set_next | rewrite next_set_prev | rewrite prev_set_prev | rewrite prev_set_next
               | rewrite const_set_next | rewrite const_set_prev ];
  repeat case_decide; simplify_eq/=; try done.

Lemma dlist_without (R : lheap Z) hd l1 p l2 x y ns ms :
  dlist R hd (l1 ++ p :: l2) → hd :: (l1 ++ p :: l2) ++ [hd] = ns ++ x :: p :: y :: ms →
  hd :: (l1 ++ l2) ++ [hd] = ns ++ x :: y :: ms → is_Some (R !! x) → is_Some (R !! y) → is_Some (R !! p) →
  p ∉ hd :: l1 ++ l2 → dlist (set_next x y (set_prev y x R)) hd (l1 ++ l2).
Proof.
  intros [Hnd Hl] E1 E2 [cx Hx] [cy Hy] [cp Hcp] Hp.
  assert (p ≠ x ∧ p ≠ y) as [Npx Npy].
  { assert (x ∈ hd :: (l1 ++ l2) ++ [hd] ∧ y ∈ hd :: (l1 ++ l2) ++ [hd]) as [? ?] by (rewrite E2; set_solver). set_solver. }
  eapply (dlist_off (set_next p p (set_prev p p (set_next x y (set_prev y x R))))); [exact Hp| |].
  { intros i Hi. by rewrite (set_next_other _ p), (set_prev_other _ p). }
  assert (NoDup (hd :: l1 ++ l2)) by by apply (NoDup_middle (hd :: l1) p l2), Hnd.
  split; [done|]. eapply linked_unsplice; [done|exact Hp|exact E1|exact E2|exact Hl|].
  split; intros i; ring_cases; by rewrite ?Hx, ?Hy, ?Hcp.
Qed.

Lemma dlist_with (R : lheap Z) hd l p y :
  dlist R hd l → p ∉ hd :: l → is_Some (R !! p) → y = default hd (head l) → is_Some (R !! y) → is_Some (R !! hd) →
  dlist (set_next hd p (set_prev y p (set_prev p hd (set_next p y R)))) hd (p :: l).
Proof.
  intros [Hnd Hl] Hp [cp Hcp] -> [cy Hy] [ch Hh]. split.
  { apply NoDup_cons in Hnd as [? ?]. rewrite !NoDup_cons. set_solver. }
  eapply (linked_splice R _ hd l (p :: l) [] hd (default hd (head l)) (tail (l ++ [hd])) p); [done|done|by destruct l..|done|].
  assert (p ≠ default hd (head l)) by (destruct l; simpl; set_solver).
  split; intros i; ring_cases; rewrite ?Hy, ?Hcp, ?Hh; try done; set_solver.
Qed.

(** * The steps of the operations *)

(** The state with the heap's record [x] and the bytes [m]. *)
Definition mheap (heap : Z) (x : rt_memheap) (m : ram) (h : small_mem) : small_mem :=
  set_memheaps (<[heap := x]> (memheaps h)) (set_mem_bytes m h).

Lemma mheap_id heap x h : memheaps h !! heap = Some x → h = mheap heap x (mem_bytes h) h.
Proof. intros Hx. unfold mheap. destruct h. unfold set_memheaps, set_mem_bytes. simpl in *. by rewrite insert_id. Qed.
Lemma mheap_mheap heap x m x' m' h : mheap heap x' m' (mheap heap x m h) = mheap heap x' m' h.
Proof. unfold mheap, set_memheaps, set_mem_bytes. simpl. by rewrite insert_insert_eq. Qed.

Lemma ring_nodes (R : lheap Z) hd l i : dlist R hd l → i ∈ hd :: l → is_Some (R !! i).
Proof.
  intros Hd Hi. assert (∃ ns y ms, hd :: l ++ [hd] = ns ++ i :: y :: ms) as (ns & y & ms & E).
  { apply list_elem_of_split in Hi as (l1 & l2 & E). rewrite app_comm_cons, E, <- app_assoc.
    destruct l2 as [|y l2]; [by exists l1, hd, []|by exists l1, y, (l2 ++ [hd])]. }
  by apply (lnk_nodes R i y), (dlist_lnk _ _ _ _ _ _ _ Hd E).
Qed.

Section steps.
Context {D : Z → Prop} {m0 : ram} {h : small_mem} {heap : Z}.

Lemma wp_get_memheap x m (Q : rt_memheap → small_mem → Prop) :
  Q x (mheap heap x m h) → wp (get_memheap heap) (mheap heap x m h) Q.
Proof. intros HQ. unfold get_memheap. wp_step. wp_step. eapply wp_deref; [apply lookup_insert_eq|done]. Qed.

Lemma wp_upd_memheap x m f (Q : unit → small_mem → Prop) :
  Q tt (mheap heap (f x) m h) → wp (upd_memheap heap f) (mheap heap x m h) Q.
Proof.
  intros HQ. unfold upd_memheap. wp_step. apply wp_get_memheap. wp_step.
  replace (set_memheaps _ _) with (mheap heap (f x) m h); [done|].
  unfold mheap, set_memheaps, set_mem_bytes. simpl. by rewrite insert_insert_eq.
Qed.

Lemma wp_remove_free x m C R hd f1 p f2 (Q : unit → small_mem → Prop) :
  pool D m0 m C R → dlist R hd (f1 ++ p :: f2) → Forall word_ok (hd :: f1 ++ f2) →
  (∀ m' R', pool D m0 m' C R' → dlist R' hd (f1 ++ f2) → Q tt (mheap heap x m' h)) →
  wp (remove_free p) (mheap heap x m h) Q.
Proof.
  intros Hp Hd Hw HQ. rewrite Forall_forall in Hw.
  destruct (ring_around _ _ _ _ _ Hd) as (ns & a & b & ms & E1 & E2 & L1 & L2 & Ha & Hb & Hnd & Hn).
  destruct (lnk_nodes _ _ _ L1) as [Sa Sp]. destruct (lnk_nodes _ _ _ L2) as [_ Sb].
  destruct L1 as [_ L1], L2 as [L2 _]. assert (p ≠ b) by set_solver.
  unfold remove_free. wp_step. eapply wp_item_next_free; [exact Hp|exact L2|].
  wp_step. eapply wp_item_prev_free; [exact Hp|exact L1|].
  wp_step. eapply wp_set_item_prev_free; [exact Hp|done|by apply Hw|]. intros m1 Hp1.
  wp_step. eapply wp_item_prev_free; [exact Hp1|by rewrite set_prev_other|].
  wp_step. eapply wp_item_next_free; [exact Hp1|by rewrite set_prev_other|].
  eapply wp_set_item_next_free; [exact Hp1|by apply is_Some_set_prev|by apply Hw|]. intros m2 Hp2.
  apply (HQ _ _ Hp2). by eapply dlist_without.
Qed.

Lemma wp_insert_free x m C R fr p (Q : unit → small_mem → Prop) :
  pool D m0 m C R → dlist R (free_list x) fr → p ∉ free_list x :: fr → is_Some (C !! p) →
  Forall word_ok (p :: free_list x :: fr) →
  (∀ m' R', pool D m0 m' C R' → dlist R' (free_list x) (p :: fr) → Q tt (mheap heap x m' h)) →
  wp (insert_free heap p) (mheap heap x m h) Q.
Proof.
  intros Hp Hd Hn Sp Hw HQ. apply Forall_cons in Hw as [Wp Hw]. rewrite Forall_forall in Hw.
  apply (pool_keys _ _ _ _ _ _ Hp) in Sp. set (hd := free_list x) in *. set (y := default hd (head fr)).
  assert (y ∈ hd :: fr) as Hy by (unfold y; destruct fr; simpl; set_solver).
  assert (next <$> R !! hd = Some y) as Ln.
  { apply (dlist_lnk R hd fr [] hd y (tail (fr ++ [hd])) Hd). unfold y. by destruct fr. }
  pose proof (ring_nodes _ _ _ _ Hd Hy) as Sy. assert (is_Some (R !! hd)) as Sh by by eapply is_Some_next.
  assert (p ≠ y ∧ p ≠ hd) as [Npy Nph] by set_solver.
  unfold insert_free. wp_step. apply wp_get_memheap. fold hd.
  wp_step. eapply wp_item_next_free; [exact Hp|exact Ln|].
  wp_step. eapply wp_set_item_next_free; [exact Hp|done|by apply Hw|]. intros m1 Hp1.
  wp_step. eapply wp_set_item_prev_free; [exact Hp1|by apply is_Some_set_next|apply Hw; set_solver|]. intros m2 Hp2.
  wp_step. eapply wp_item_next_free; [exact Hp2|by rewrite set_prev_other, set_next_other|].
  wp_step. eapply wp_set_item_prev_free; [exact Hp2|by apply is_Some_set_prev, is_Some_set_next|done|]. intros m3 Hp3.
  eapply wp_set_item_next_free; [exact Hp3|by apply is_Some_set_prev, is_Some_set_prev, is_Some_set_next|done|]. intros m4 Hp4.
  apply (HQ _ _ Hp4). by apply dlist_with.
Qed.

(** An item that is in use is not on the ring. *)
Lemma wp_off_ring x m C R hd fr p (Q : unit → small_mem → Prop) :
  pool D m0 m C R → dlist R hd fr → p ∉ hd :: fr → is_Some (C !! p) →
  (∀ m' R', pool D m0 m' C R' → dlist R' hd fr → Q tt (mheap heap x m' h)) →
  wp (set_item_next_free p 0;; set_item_prev_free p 0) (mheap heap x m h) Q.
Proof.
  intros Hp Hd Hn Sp HQ. apply (pool_keys _ _ _ _ _ _ Hp) in Sp.
  wp_step. eapply wp_set_item_next_free; [exact Hp|done|done|]. intros m1 Hp1.
  eapply wp_set_item_prev_free; [exact Hp1|by apply is_Some_set_next|done|]. intros m2 Hp2.
  apply (HQ _ _ Hp2). eapply dlist_off; [exact Hn| |exact Hd].
  intros i Hi. by rewrite set_prev_other, set_next_other.
Qed.

Lemma wp_new_block x m C R p a c n cn (Q : unit → small_mem → Prop) :
  pool D m0 m C R → C !! a = Some c → c_next c = n → C !! n = Some cn → is_Some (C !! p) →
  p ≠ a → p ≠ n → a ≠ n → Forall word_ok [heap; p; a; n] →
  (∀ m', pool D m0 m' (<[a := cset_next p c]> (<[n := cset_prev p cn]> (<[p := blk heap false n a]> C))) R →
    Q tt (mheap heap x m' h)) →
  wp (new_block heap p a) (mheap heap x m h) Q.
Proof.
  intros Hp Ha En Hn [cp Hcp] Npa Npn Nan Hw HQ. rewrite !Forall_cons in Hw. destruct Hw as (Wh & Wp & Wa & Wn & _).
  unfold new_block. wp_step. eapply wp_set_item_magic; [exact Hp|exact Hcp|done|]. intros m1 Hp1.
  wp_step. eapply wp_set_item_pool_ptr; [exact Hp1|apply lookup_insert_eq|done|]. rewrite insert_insert_eq. intros m2 Hp2.
  wp_step. eapply wp_set_item_prev; [exact Hp2|apply lookup_insert_eq|done|]. rewrite insert_insert_eq. intros m3 Hp3.
  wp_step. eapply wp_item_next; [exact Hp3|by rewrite lookup_insert_ne|]. rewrite En.
  wp_step. eapply wp_set_item_next; [exact Hp3|apply lookup_insert_eq|done|]. rewrite insert_insert_eq. intros m4 Hp4.
  wp_step. eapply wp_item_next; [exact Hp4|by rewrite lookup_insert_ne|]. rewrite En.
  wp_step. eapply wp_set_item_prev; [exact Hp4|by rewrite lookup_insert_ne|done|]. intros m5 Hp5.
  eapply wp_set_item_next; [exact Hp5|by rewrite !lookup_insert_ne|done|]. intros m6 Hp6. by apply (HQ _ Hp6).
Qed.

Lemma wp_merge_next x m C R hd f1 p f2 a ca cp n cn (Q : unit → small_mem → Prop) :
  pool D m0 m C R → dlist R hd (f1 ++ p :: f2) → Forall word_ok (hd :: f1 ++ f2) →
  C !! a = Some ca → C !! p = Some cp → c_next cp = n → C !! n = Some cn → p ≠ n → a ≠ n → word_ok a → word_ok n →
  (∀ m' R', pool D m0 m' (<[a := cset_next n ca]> (<[n := cset_prev a cn]> C)) R' → dlist R' hd (f1 ++ f2) →
    Q tt (mheap heap x m' h)) →
  wp (merge_next a p) (mheap heap x m h) Q.
Proof.
  intros Hp Hd Hw Ha Hcp En Hn Npn Nan Wa Wn HQ. unfold merge_next.
  wp_step. eapply wp_item_next; [exact Hp|exact Hcp|]. rewrite En.
  wp_step. eapply wp_set_item_prev; [exact Hp|exact Hn|done|]. intros m1 Hp1.
  wp_step. eapply wp_item_next; [exact Hp1|by rewrite lookup_insert_ne|]. rewrite En.
  wp_step. eapply wp_set_item_next; [exact Hp1|by rewrite lookup_insert_ne|done|]. intros m2 Hp2.
  by apply (wp_remove_free x m2 _ R hd f1 p f2 Q Hp2 Hd Hw).
Qed.

Lemma wp_take_available x m n (Q : unit → small_mem → Prop) :
  let av := u32 (available_size x - n) in
  let u := u32 (pool_size x - av) in
  (∀ x', start_addr x' = start_addr x → pool_size x' = pool_size x → available_size x' = av →
     max_used_size x' = Z.max (max_used_size x) u → mh_block_list x' = mh_block_list x → free_list x' = free_list x →
     Q tt (mheap heap x' m h)) →
  wp (take_available heap n) (mheap heap x m h) Q.
Proof.
  intros av u HQ. unfold take_available. wp_step. apply wp_upd_memheap. apply wp_upd_memheap. apply HQ; simpl.
  all: fold av u; destruct (Z.ltb_spec (max_used_size x) u); simpl; try done; lia.
Qed.

Lemma wp_add_available x m n (Q : unit → small_mem → Prop) :
  Q tt (mheap heap (set_available_size (u32 (available_size x + n)) x) m h) →
  wp (add_available heap n) (mheap heap x m h) Q.
Proof. intros HQ. unfold add_available. by apply wp_upd_memheap. Qed.

(** Reading the state of a block. *)
Lemma wp_is_used x m C R p u nx pv (Q : bool → small_mem → Prop) :
  pool D m0 m C R → C !! p = Some (blk heap u nx pv) → Q u (mheap heap x m h) →
  wp (RT_MEMHEAP_IS_USED p) (mheap heap x m h) Q.
Proof.
  intros Hp Hc HQ. unfold RT_MEMHEAP_IS_USED. wp_step. eapply wp_item_magic; [exact Hp|exact Hc|]. wp_step. by destruct u.
Qed.

Lemma wp_item_size x m C R p c s (Q : Z → small_mem → Prop) :
  pool D m0 m C R → C !! p = Some c → c_next c = p + 24 + s → 0 <= s < 2 ^ 32 → Q s (mheap heap x m h) →
  wp (MEMITEM_SIZE p) (mheap heap x m h) Q.
Proof.
  intros Hp Hc En Hs HQ. unfold MEMITEM_SIZE, RT_MEMHEAP_SIZE. wp_step. eapply wp_item_next; [exact Hp|exact Hc|].
  rewrite En. wp_step. replace (u32 (p + 24 + s - p - 24)) with s; [done|]. unfold wrap. rewrite Z.mod_small; lia.
Qed.
End steps.
