(* ===== verification/MemHeapApi.v ===== *)
(** The properties of memory heaps: the invariant of a heap, allocation, release and
    reallocation under its lock, and the set-up. *)

From Stdlib Require Import ZArith Lia.
From stdpp Require Import numbers strings base fin_maps gmap list.
From S2P Require Import Prelude Bytes Overlay KString RtList Bitmap Kernel Scheduler Object Timer Thread Ipc MemPool Mem MemHeap.
From S2P Require Import Invariant ThreadSpec Check Demo TimerSpec ThreadRun IpcSpec Semaphore MemSpec MemApi MemHeapSpec.
Local Open Scope Z_scope.

(** * The invariant of a heap *)

Definition mseg_ok (s : seg) : Prop := 12 <= s.1 ∧ s.1 mod 4 = 0.

(** Where the heap is: the pool, and the free header outside of it. *)
Record heap_at (heap : Z) (x : rt_memheap) (n : Z) : Prop := {
  ha_start : 0 < start_addr x;
  ha_pool : pool_size x = n + 24;
  ha_top : start_addr x + pool_size x <= 2 ^ 32;
  ha_block : mh_block_list x = start_addr x;
  ha_free : free_list x = free_header heap;
  ha_heap : 0 < heap ∧ heap + 72 <= 2 ^ 32;
  ha_apart : heap + 72 <= start_addr x ∨ start_addr x + pool_size x <= heap + 48
}.

(** What the heap counts. *)
Definition counts (x : rt_memheap) (l : list seg) : Prop :=
  available_size x = free_total l ∧ pool_size x - free_total l <= max_used_size x <= pool_size x.

(** [q] is the address of an item of the heap. *)
Definition boundary (start : Z) (l : list seg) (q : Z) : Prop := ∃ l1 l2, l = l1 ++ l2 ∧ q = start + extent l1.
Definition item_addr (heap start : Z) (l : list seg) (q : Z) : Prop := q = free_header heap ∨ boundary start l q.

(** The items in memory are those of the blocks [l]. *)
Record shape (D : Z → Prop) (m0 m : ram) (heap start : Z) (l : list seg) (C : gmap Z core) (R : lheap Z) : Prop := {
  sh_pool : pool D m0 m C R;
  sh_rows : rows C heap start l;
  sh_keys q : is_Some (C !! q) → item_addr heap start l q
}.

Record memheap_ok (h : small_mem) (heap : Z) (x : rt_memheap) (l : list seg) (fr : list Z) : Prop := {
  mo_heap : memheaps h !! heap = Some x;
  mo_at : heap_at heap x (extent l);
  mo_counts : counts x l;
  mo_segs : Forall mseg_ok l;
  mo_merged : merged false l;
  mo_frees : fr ≡ₚ frees (start_addr x) l;
  mo_items : ∃ C R, shape (λ _, False) (mem_bytes h) (mem_bytes h) heap (start_addr x) l C R ∧ dlist R (free_header heap) fr;
  mo_mapped : mapped (mem_bytes h) (start_addr x) (Z.to_nat (pool_size x))
}.

(** The bytes of the blocks in use; and all bytes but those that the heap may use. *)
Definition used_bytes (start : Z) (l : list seg) (b : Z) : Prop :=
  ∃ l1 sz l2, l = l1 ++ (sz, true) :: l2 ∧ start + extent l1 + 24 <= b < start + extent l1 + 24 + sz.
Definition outside (heap : Z) (x : rt_memheap) (b : Z) : Prop :=
  ¬ (start_addr x <= b < start_addr x + pool_size x) ∧ ¬ (free_header heap <= b < free_header heap + 24).
Definition keep (heap : Z) (x : rt_memheap) (l : list seg) (b : Z) : Prop :=
  used_bytes (start_addr x) l b ∨ outside heap x b.

(** What an operation does: the heap consists of the blocks [l'] instead of [l], nothing but
    the heap's record and memory changes, and no byte that belongs to somebody else does. *)
Record mstep (h : small_mem) (heap : Z) (x : rt_memheap) (l : list seg)
    (h' : small_mem) (x' : rt_memheap) (l' : list seg) (fr' : list Z) : Prop := {
  mt_ok : memheap_ok h' heap x' l' fr';
  mt_same : h' = mheap heap x' (mem_bytes h') h;
  mt_start : start_addr x' = start_addr x;
  mt_size : pool_size x' = pool_size x;
  mt_data b : keep heap x l b → keep heap x l' b → mem_bytes h' !! b = mem_bytes h !! b
}.

Lemma mseg_sizes l : Forall mseg_ok l → sizes l.
Proof. intros H. eapply Forall_impl; [exact H|]. intros s [? _]. lia. Qed.

(** Two positions in a row are the same or a block apart. *)
Lemma mpositions (l1 l2 k1 k2 : list seg) :
  l1 ++ l2 = k1 ++ k2 → sizes (l1 ++ l2) →
  (l1 = k1 ∧ l2 = k2) ∨ (∃ s k, l2 = s :: k ∧ extent l1 + 24 + s.1 <= extent k1) ∨
  (∃ s k, k2 = s :: k ∧ extent k1 + 24 + s.1 <= extent l1).
Proof.
  assert (∀ a b c d : list seg, a = c ++ b → sizes a → c ++ b ++ d = c ++ b ++ d →
    b = [] ∨ ∃ s k, b = s :: k ∧ extent c + 24 + s.1 <= extent a) as Hone.
  { intros a b c d -> Hs _. destruct b as [|s k]; [by left|]. right. exists s, k. split; [done|].
    apply Forall_app in Hs as [_ [_ Hk]%Forall_cons]. rewrite extent_app. simpl. pose proof (extent_pos k Hk). lia. }
  intros E Hs. destruct (app_eq_inv _ _ _ _ E) as [(k & -> & ->)|(k & -> & ->)].
  - destruct (Hone (k1 ++ k) k k1 []) as [->|(s & j & -> & ?)]; [done|by apply Forall_app in Hs as [? _]|done|..].
    + left. by rewrite app_nil_r.
    + right. right. by exists s, (j ++ l2).
  - destruct (Hone (l1 ++ k) k l1 []) as [->|(s & j & -> & ?)]; [done|rewrite app_assoc in Hs; by apply Forall_app in Hs as [? _]|done|..].
    + left. by rewrite app_nil_r.
    + right. left. by exists s, (j ++ k2).
Qed.

Lemma extent_split l1 l2 : sizes (l1 ++ l2) → 0 <= extent l1 ∧ extent l1 <= extent (l1 ++ l2).
Proof.
  intros [H1 H2]%Forall_app. rewrite extent_app. pose proof (extent_pos _ H1). pose proof (extent_pos _ H2). lia.
Qed.

Lemma item_range heap x l q :
  heap_at heap x (extent l) → sizes l → item_addr heap (start_addr x) l q → 0 < q ∧ q + 24 <= 2 ^ 32.
Proof.
  intros [G1 G2 G3 _ _ [G4 G5] _] Hs [->|(l1 & l2 & -> & ->)]; unfold free_header; [lia|].
  pose proof (extent_split _ _ Hs). lia.
Qed.

Lemma item_word heap x l q :
  heap_at heap x (extent l) → sizes l → item_addr heap (start_addr x) l q → word_ok q.
Proof. intros Hg Hs Hq. pose proof (item_range _ _ _ _ Hg Hs Hq). unfold word_ok. lia. Qed.

(** Nothing that is kept lies in an item. *)
Lemma keep_off heap x l b q :
  heap_at heap x (extent l) → sizes l → keep heap x l b → item_addr heap (start_addr x) l q → b < q ∨ q + 24 <= b.
Proof.
  intros [G1 G2 G3 _ _ [G4 G5] G6] Hs Hk Hq. unfold free_header in *.
  destruct Hk as [(k1 & sz & k2 & -> & Hb)|[Ho1 Ho2]], Hq as [->|(l1 & l2 & El & ->)]; unfold free_header in *.
  - pose proof (extent_split k1 _ Hs) as [? _]. rewrite extent_app in G2. simpl in G2.
    apply Forall_app in Hs as [_ [_ Hs]%Forall_cons]. pose proof (extent_pos _ Hs). lia.
  - destruct (mpositions _ _ _ _ El Hs) as [[-> _]|[(s & k & [= <- <-] & ?)|(s & k & -> & ?)]]; simpl in *; [lia|lia|].
    rewrite El in Hs. apply Forall_app in Hs as [_ [? _]%Forall_cons]. lia.
  - lia.
  - subst l. pose proof (extent_split _ _ Hs). lia.
Qed.

Lemma pool_rebase D D' m0 m C R :
  pool D m0 m C R → (∀ p b, is_Some (C !! p) → D' b → b < p ∨ p + 24 <= b) → pool D' m m C R.
Proof.
  intros (hm & [H1 H2 H3 H4 H5 H6] & -> & ->) Hoff. exists hm. split; [|done]. split; try done.
  intros p y b Hp. apply Hoff. rewrite lookup_fmap, Hp. by eexists.
Qed.

Lemma pool_data D m0 m C R b : pool D m0 m C R → D b → m !! b = m0 !! b.
Proof. intros (hm & Hv & _). apply (vw_data Hv). Qed.

Lemma pool_mapped D m0 m C R a n : pool D m0 m C R → mapped m0 a n → mapped m a n.
Proof. intros (hm & Hv & _). by eapply mapped_view. Qed.

(** * Changing the blocks *)

Lemma boundary_cons start s l q : boundary start (s :: l) q ↔ q = start ∨ boundary (start + 24 + s.1) l q.
Proof.
  split.
  - intros ([|s' l1] & l2 & E & ->); [left; simpl; lia|]. injection E as <- ->. right. exists l1, l2.
    split; [done|]. simpl. lia.
  - intros [->|(l1 & l2 & -> & ->)]; [exists [], (s :: l); simpl; split; [done|lia]|].
    exists (s :: l1), l2. split; [done|]. simpl. lia.
Qed.

Lemma boundary_here start l : boundary start l start.
Proof. exists [], l. simpl. split; [done|lia]. Qed.

Lemma boundary_at start l1 l2 : boundary start (l1 ++ l2) (start + extent l1).
Proof. by exists l1, l2. Qed.

Lemma boundary_replace start l1 m1 m2 q :
  (boundary (start + extent l1) m1 q → boundary (start + extent l1) m2 q) →
  boundary start (l1 ++ m1) q → boundary start (l1 ++ m2) q.
Proof.
  revert start. induction l1 as [|s l1 IH]; intros start; simpl; [by rewrite Z.add_0_r|].
  rewrite !boundary_cons. intros H [->|Hq]; [by left|]. right. apply IH; [|done]. by rewrite shift_extent.
Qed.

(** The core of a block, and of what follows it. *)
Definition prev_at (start : Z) (l l1 : list seg) : Z := last_at (start + extent l) start l1.

Section changes.
Context {D : Z → Prop} {m0 m : ram} {heap start : Z} {C : gmap Z core} {R : lheap Z}.

Lemma shape_block l1 s l2 :
  shape D m0 m heap start (l1 ++ s :: l2) C R →
  C !! (start + extent l1) = Some (blk heap s.2 (start + extent l1 + 24 + s.1) (prev_at start (l1 ++ s :: l2) l1)).
Proof. intros [_ [_ [Hr _]]%row_app _]. done. Qed.

Lemma shape_tail l : shape D m0 m heap start l C R → ∃ pv, C !! (start + extent l) = Some (blk heap true start pv).
Proof. intros [_ Hr _]. unfold rows in Hr. rewrite <- (app_nil_r l) in Hr at 2. apply row_app in Hr as [_ Hr]. by eexists. Qed.

Lemma shape_next l1 s l2 a n :
  shape D m0 m heap start (l1 ++ s :: l2) C R → a = start + extent l1 → n = a + 24 + s.1 →
  C !! n = Some (first_core heap start a n l2).
Proof. intros [_ [_ [_ Hr]]%row_app _] -> ->. by apply row_first in Hr. Qed.

Lemma shape_mark l1 s u u' l2 a n m' R' :
  shape D m0 m heap start (l1 ++ (s, u) :: l2) C R → sizes (l1 ++ (s, u) :: l2) →
  a = start + extent l1 → n = a + 24 + s →
  pool D m0 m' (<[a := blk heap u' n (prev_at start (l1 ++ (s, u) :: l2) l1)]> C) R' →
  shape D m0 m' heap start (l1 ++ (s, u') :: l2)
    (<[a := blk heap u' n (prev_at start (l1 ++ (s, u) :: l2) l1)]> C) R'.
Proof.
  intros [Hp Hr Hk] (Hs1 & Hs & Hs2)%sizes_split -> -> Hp'. split; [done|..].
  - unfold rows in *. replace (extent (l1 ++ (s, u') :: l2)) with (extent (l1 ++ (s, u) :: l2)) by by rewrite !extent_app.
    apply row_app in Hr as [H1 H2]. apply row_app. split; [|by apply row_mark with u].
    eapply rseg_frame; [done| |exact H1]. intros q Hq. by rewrite lookup_insert_ne by lia.
  - intros q Hq. apply lookup_insert_is_Some' in Hq as [<-|Hq]; [right; apply boundary_at|].
    destruct (Hk q Hq) as [->|Hb]; [by left|]. right. eapply boundary_replace; [|exact Hb]. by rewrite !boundary_cons.
Qed.

Lemma shape_cut l1 s1 s2 u l2 a p n m' R' :
  shape D m0 m heap start (l1 ++ (s1 + 24 + s2, u) :: l2) C R → sizes (l1 ++ (s1 + 24 + s2, u) :: l2) →
  0 <= s1 → 0 <= s2 → a = start + extent l1 → p = a + 24 + s1 → n = a + 24 + (s1 + 24 + s2) →
  let C' := <[a := blk heap u p (prev_at start (l1 ++ (s1 + 24 + s2, u) :: l2) l1)]>
    (<[n := cset_prev p (first_core heap start a n l2)]> (<[p := blk heap false n a]> C)) in
  pool D m0 m' C' R' → shape D m0 m' heap start (l1 ++ (s1, u) :: (s2, false) :: l2) C' R'.
Proof.
  intros [Hp Hr Hk] (Hs1 & Hs & Hs2)%sizes_split H1 H2 -> -> -> C' Hp'. simpl in Hs. split; [done|..].
  - unfold rows in *. unfold C'.
    replace (extent (l1 ++ (s1, u) :: (s2, false) :: l2)) with (extent (l1 ++ (s1 + 24 + s2, u) :: l2))
      by (rewrite !extent_app; simpl; lia).
    apply row_app in Hr as [Hr1 Hr2]. apply row_app. split; [|by apply row_cut].
    eapply rseg_frame; [done| |exact Hr1]. intros q Hq. by rewrite !lookup_insert_ne by lia.
  - intros q Hq. unfold C' in Hq. apply lookup_insert_is_Some' in Hq as [<-|Hq]; [right; apply boundary_at|].
    assert (∀ q, boundary start (l1 ++ (s1 + 24 + s2, u) :: l2) q → boundary start (l1 ++ (s1, u) :: (s2, false) :: l2) q) as Hmono.
    { intros q'. apply boundary_replace. rewrite !boundary_cons. simpl. intros [->|Hb]; [by left|]. right. right.
      by replace (start + extent l1 + 24 + s1 + 24 + s2) with (start + extent l1 + 24 + (s1 + 24 + s2)) by lia. }
    apply lookup_insert_is_Some' in Hq as [<-|Hq].
    { right. apply Hmono. exists (l1 ++ [(s1 + 24 + s2, u)]), l2. rewrite <- app_assoc, extent_app. simpl. split; [done|lia]. }
    apply lookup_insert_is_Some' in Hq as [<-|Hq].
    { right. exists (l1 ++ [(s1, u)]), ((s2, false) :: l2). rewrite <- app_assoc, extent_app. simpl. split; [done|lia]. }
    destruct (Hk q Hq) as [->|Hb]; [by left|]. right. by apply Hmono.
Qed.

Lemma shape_join l1 s1 s2 u u2 l2 a p n m' R' :
  shape D m0 m heap start (l1 ++ (s1, u) :: (s2, u2) :: l2) C R → sizes (l1 ++ (s1, u) :: (s2, u2) :: l2) →
  a = start + extent l1 → p = a + 24 + s1 → n = p + 24 + s2 → free_header heap ≠ p →
  let C' := <[a := blk heap u n (prev_at start (l1 ++ (s1, u) :: (s2, u2) :: l2) l1)]>
    (<[n := cset_prev a (first_core heap start p n l2)]> C) in
  pool D m0 m' C' R' → shape D m0 m' heap start (l1 ++ (s1 + 24 + s2, u) :: l2) (delete p C') (delete p R').
Proof.
  intros [Hp Hr Hk] Hsz -> -> -> Hhd C' Hp'. pose proof Hsz as (Hs1 & Hs & [Hs0 Hs2]%Forall_cons)%sizes_split. simpl in *.
  pose proof (extent_pos _ Hs2). split; [by apply pool_drop|..].
  - unfold rows in *. unfold C'.
    replace (extent (l1 ++ (s1 + 24 + s2, u) :: l2)) with (extent (l1 ++ (s1, u) :: (s2, u2) :: l2))
      by (rewrite !extent_app; simpl; lia).
    apply row_app in Hr as [Hr1 Hr2]. apply row_app. split.
    + eapply rseg_frame; [done| |exact Hr1]. intros q Hq. rewrite lookup_delete_ne by lia. by rewrite !lookup_insert_ne by lia.
    + pose proof (row_join _ _ _ _ _ _ _ _ _ _ _ Hs Hs0 Hs2 Hr2 eq_refl) as Hj. destruct Hj as [Hj1 Hj2]. split.
      * by rewrite lookup_delete_ne by lia.
      * eapply row_frame; [done| |exact Hj2]. simpl. intros q Hq. by rewrite lookup_delete_ne by lia.
  - assert (∀ q, q ≠ start + extent l1 + 24 + s1 → boundary start (l1 ++ (s1, u) :: (s2, u2) :: l2) q →
      boundary start (l1 ++ (s1 + 24 + s2, u) :: l2) q) as Hmono.
    { intros q Hq. apply boundary_replace. rewrite !boundary_cons. simpl. intros [->|[->|Hb]]; [by left|done|]. right.
      by replace (start + extent l1 + 24 + (s1 + 24 + s2)) with (start + extent l1 + 24 + s1 + 24 + s2) by lia. }
    intros q [y [Hne Hq]%lookup_delete_Some]. apply mk_is_Some in Hq. unfold C' in Hq.
    apply lookup_insert_is_Some' in Hq as [<-|Hq]; [right; apply boundary_at|].
    apply lookup_insert_is_Some' in Hq as [<-|Hq].
    { right. apply Hmono; [lia|]. exists (l1 ++ [(s1, u); (s2, u2)]), l2. rewrite <- app_assoc, extent_app. simpl. split; [done|lia]. }
    destruct (Hk q Hq) as [->|Hb]; [by left|]. right. by apply Hmono.
Qed.
End changes.

(** * The free blocks *)

(** At [a] there is a free block of [s] bytes. *)
Definition sized (start : Z) (l : list seg) (a s : Z) : Prop :=
  ∃ l1 l2, l = l1 ++ (s, false) :: l2 ∧ a = start + extent l1.

Lemma elem_of_frees start l a : a ∈ frees start l ↔ ∃ s, sized start l a s.
Proof.
  split.
  - revert start. induction l as [|[s u] l IH]; intros start; simpl; [by intros ?%not_elem_of_nil|].
    rewrite elem_of_app. intros [Ha|Ha].
    + destruct u; [by apply not_elem_of_nil in Ha|]. apply list_elem_of_singleton in Ha as ->. exists s, [], l. simpl. split; [done|lia].
    + destruct (IH _ Ha) as (s' & l1 & l2 & -> & ->). exists s', ((s, u) :: l1), l2. split; [done|]. simpl. lia.
  - intros (s & l1 & l2 & -> & ->). rewrite frees_app. simpl. set_solver.
Qed.

Lemma sized_inj start l a s s' : sizes l → sized start l a s → sized start l a s' → s = s'.
Proof.
  intros Hs (l1 & l2 & E1 & ->) (k1 & k2 & E2 & Ha).
  assert (0 <= s ∧ 0 <= s') as [? ?].
  { split; [rewrite E1 in Hs|rewrite E2 in Hs]; by apply sizes_split in Hs as (_ & ? & _). }
  rewrite E1 in E2, Hs. destruct (mpositions _ _ _ _ E2 Hs) as [[_ [= ->]]|[(? & ? & [= <- <-] & ?)|(? & ? & [= <- <-] & ?)]];
    [done|simpl in *; lia..].
Qed.

Lemma frees_ge start l a : sizes l → a ∈ frees start l → start <= a ∧ a + 24 <= start + extent l.
Proof.
  intros Hs (s & l1 & l2 & -> & ->)%elem_of_frees. pose proof (extent_split _ _ Hs) as [? _].
  rewrite extent_app. simpl. apply Forall_app in Hs as [_ [? Hs]%Forall_cons]. pose proof (extent_pos _ Hs). simpl in *. lia.
Qed.

Lemma NoDup_frees start l : sizes l → NoDup (frees start l).
Proof.
  intros Hs. revert start. induction Hs as [|s l Hs0 Hs IH]; intros start; simpl; [constructor|].
  destruct (s.2); simpl; [apply IH|]. apply NoDup_cons. split; [|apply IH].
  intros Hin. pose proof (frees_ge _ _ _ Hs Hin). lia.
Qed.

Lemma frees_boundary start l a : a ∈ frees start l → boundary start l a.
Proof. intros (s & l1 & l2 & -> & ->)%elem_of_frees. apply boundary_at. Qed.

Lemma frees_length start l : sizes l → 24 * Z.of_nat (length (frees start l)) <= extent l.
Proof.
  intros Hs. revert start. induction Hs as [|[s u] l Hs0 Hs IH]; intros start; simpl; [lia|].
  specialize (IH (start + 24 + s)). simpl in *. rewrite length_app. destruct u; simpl; lia.
Qed.

(** The walk through the free list. *)
Lemma wp_search_free {D m0 h heap} x m C R hd start l n fuel f1 f2 fs (Q : Z * Z → small_mem → Prop) :
  pool D m0 m C R → dlist R hd (f1 ++ f2) → free_list x = hd → hd ∉ f1 ++ f2 →
  (∀ a, a ∈ f1 ++ f2 → ∃ s c, sized start l a s ∧ C !! a = Some c ∧ c_next c = a + 24 + s ∧ 0 <= s < 2 ^ 32) →
  (∀ a s, a ∈ f1 → sized start l a s → s < n) → fs < n → sizes l →
  (length f2 + 2 <= fuel)%nat →
  (∀ p fs f1' f2', (f1' ++ p :: f2' = f1 ++ f2 ∧ sized start l p fs ∧ n <= fs ∧ (∀ a s, a ∈ f1' → sized start l a s → s < n)) ∨
     (fs < n ∧ ∀ a s, a ∈ f1 ++ f2 → sized start l a s → s < n) → Q (p, fs) (mheap heap x m h)) →
  wp (search_free fuel heap n (default hd (head f2)) fs) (mheap heap x m h) Q.
Proof.
  intros Hp Hd Ehd Hno Hsz. revert f1 f2 fs Hd Hno Hsz. induction fuel as [|fuel IH]; intros f1 f2 fs Hd Hno Hsz Hf1 Hfs Hs Hfu HQ; [lia|].
  cbn [search_free]. wp_step. apply wp_get_memheap. rewrite Ehd. destruct f2 as [|a f2]; simpl.
  { rewrite Z.eqb_refl. simpl. wp_step. apply (HQ _ _ [] []). right. split; [done|]. rewrite app_nil_r. apply Hf1. }
  assert (a ≠ hd) as Ha by set_solver. rewrite (proj2 (Z.eqb_neq a hd) Ha), (proj2 (Z.ltb_lt _ _) Hfs). simpl.
  destruct (Hsz a) as (s & c & Hsa & Hc & En & Hr); [set_solver|].
  wp_step. eapply wp_item_size; [exact Hp|exact Hc|exact En|done|]. destruct (Z.ltb_spec s n) as [Hlt|Hge].
  - wp_step. eapply wp_item_next_free; [exact Hp| |].
    { apply (dlist_lnk R hd (f1 ++ a :: f2) (hd :: f1) a (default hd (head f2)) (tail (f2 ++ [hd])) Hd).
      rewrite <- app_assoc. simpl. by destruct f2. }
    apply (IH (f1 ++ [a]) f2); rewrite <- ?app_assoc; try done; [|simpl in Hfu; lia].
    intros a' s'. rewrite elem_of_app, list_elem_of_singleton. intros [?| ->] Hsa'; [by eapply Hf1|].
    by rewrite (sized_inj _ _ _ _ _ Hs Hsa' Hsa).
  - destruct fuel as [|fuel]; [simpl in Hfu; lia|]. cbn [search_free]. wp_step. apply wp_get_memheap.
    rewrite (proj2 (Z.ltb_ge _ _) Hge), andb_false_r. wp_step. eapply (HQ _ _ f1 f2). by left.
Qed.

(** * Steps on blocks *)

Lemma boundary_around start l1 s u l2 q :
  sizes (l1 ++ (s, u) :: l2) → boundary start (l1 ++ (s, u) :: l2) q →
  q <= start + extent l1 ∨ start + extent l1 + 24 + s <= q.
Proof.
  intros Hs (k1 & k2 & E & ->).
  destruct (mpositions _ _ _ _ E Hs) as [[-> _]|[(? & ? & [= <- <-] & ?)|(? & ? & -> & ?)]]; simpl in *; [lia|lia|].
  rewrite E in Hs. apply Forall_app in Hs as [_ [? _]%Forall_cons]. lia.
Qed.

Section blocks.
Context {D : Z → Prop} {m0 : ram} {h : small_mem} {heap : Z} {x : rt_memheap}.
Notation start := (start_addr x).
Notation hd := (free_header heap).

(** The nodes of the free ring are items. *)
Lemma ring_items m l C R fr a : shape D m0 m heap start l C R → dlist R hd fr → a ∈ hd :: fr → is_Some (C !! a).
Proof. intros [Hp _ _] Hd Ha. apply (pool_keys _ _ _ _ _ _ Hp). by eapply ring_nodes. Qed.

Lemma ring_words m l C R fr :
  shape D m0 m heap start l C R → dlist R hd fr → heap_at heap x (extent l) → sizes l → Forall word_ok (hd :: fr).
Proof.
  intros Hsh Hd Hg Hs. apply Forall_forall. intros a Ha. eapply item_word; [exact Hg|done|].
  apply (sh_keys _ _ _ _ _ _ _ _ Hsh). by eapply ring_items.
Qed.

(** A new free block inside the block at [a]. *)
Lemma wp_cut_block m l1 s1 s2 u l2 C R fr a p (Q : unit → small_mem → Prop) :
  let l := l1 ++ (s1 + 24 + s2, u) :: l2 in
  let l' := l1 ++ (s1, u) :: (s2, false) :: l2 in
  shape D m0 m heap start l C R → dlist R hd fr → heap_at heap x (extent l) → sizes l → 0 <= s1 → 0 <= s2 →
  a = start + extent l1 → p = a + 24 + s1 → mapped m0 start (Z.to_nat (pool_size x)) →
  (∀ b, D b → b < p ∨ p + 24 <= b) →
  (∀ m' C' R', shape D m0 m' heap start l' C' R' → dlist R' hd fr → is_Some (C' !! p) → p ∉ hd :: fr →
    Q tt (mheap heap x m' h)) →
  wp (new_block heap p a) (mheap heap x m h) Q.
Proof.
  intros l l' Hsh Hd Hg Hsz H1 H2 Ea Ep Hm HD HQ. pose proof Hsz as (Hs1 & _ & Hs2)%sizes_split.
  pose proof (extent_pos _ Hs1). pose proof (extent_pos _ Hs2).
  pose proof Hg as [G1 G2 G3 _ G4 [G5 G6] G7]. unfold free_header in *.
  assert (extent l = extent l1 + (24 + (s1 + 24 + s2) + extent l2)) as El2 by (unfold l; by rewrite extent_app).
  set (n := a + 24 + (s1 + 24 + s2)).
  assert (∀ q, is_Some (C !! q) → p + 24 <= q ∨ q + 24 <= p) as Hap.
  { intros q Hq. destruct (sh_keys _ _ _ _ _ _ _ _ Hsh q Hq) as [->|Hb]; [unfold free_header; lia|].
    apply (boundary_around _ _ _ _ _ _ Hsz) in Hb. lia. }
  destruct (pool_new D m0 m C R p) as (c & nd & Hp').
  { apply Hsh. }
  { eapply pool_mapped; [apply Hsh|]. eapply mapped_le; [exact Hm|lia|lia]. }
  { done. }
  { exact HD. }
  assert (p ∉ hd :: fr) as Hpn.
  { intros Hin. destruct (Hap p); [by eapply ring_items|lia|lia]. }
  pose proof (shape_block l1 (s1 + 24 + s2, u) l2 Hsh) as Ha. pose proof (shape_next l1 _ l2 a n Hsh Ea eq_refl) as Hn.
  simpl in Ha. rewrite <- Ea in Ha. fold n in Ha.
  eapply (wp_new_block x m _ _ p a _ n); [exact Hp'|rewrite lookup_insert_ne by lia; exact Ha|done|
    rewrite lookup_insert_ne by lia; exact Hn|rewrite lookup_insert_eq; by eexists|lia|lia|lia|..].
  { repeat (apply Forall_cons; split); unfold word_ok; try lia. constructor. }
  intros m' Hm'. rewrite insert_insert_eq in Hm'. eapply HQ; [|by eapply (dlist_off R); [exact Hpn| |exact Hd]; intros i Hi; rewrite lookup_insert_ne| |done].
  - eapply (shape_cut l1 s1 s2 u l2 a p n); [exact Hsh|done..].
  - rewrite !lookup_insert_ne by lia. rewrite lookup_insert_eq. by eexists.
Qed.

Lemma keep_cut l1 s1 s2 u s l2 b :
  heap_at heap x (extent (l1 ++ s :: l2)) → sizes (l1 ++ (s1, u) :: (s2, false) :: l2) → s.1 = s1 + 24 + s2 →
  keep heap x (l1 ++ (s1, u) :: (s2, false) :: l2) b →
  b < start + extent l1 + 24 + s1 ∨ start + extent l1 + 24 + s1 + 24 <= b.
Proof.
  intros Hg Hs Es Hk. eapply keep_off; [|exact Hs|exact Hk|].
  - rewrite extent_app in *. simpl in *. by replace (24 + s1 + (24 + s2 + extent l2)) with (24 + s.1 + extent l2) by lia.
  - right. exists (l1 ++ [(s1, u)]), ((s2, false) :: l2). rewrite <- app_assoc, extent_app. simpl. split; [done|lia].
Qed.

(** Marking a block as used or free. *)
Lemma wp_mark_block m l1 s u u' l2 C R a (Q : unit → small_mem → Prop) :
  let l := l1 ++ (s, u) :: l2 in
  shape D m0 m heap start l C R → sizes l → a = start + extent l1 →
  (∀ m' C', shape D m0 m' heap start (l1 ++ (s, u') :: l2) C' R → Q tt (mheap heap x m' h)) →
  wp (set_item_magic a (if u' then RT_MEMHEAP_MAGIC + 1 else RT_MEMHEAP_MAGIC)) (mheap heap x m h) Q.
Proof.
  intros l Hsh Hsz -> HQ. pose proof (shape_block l1 (s, u) l2 Hsh) as Ha.
  eapply wp_set_item_magic; [apply Hsh|exact Ha|by destruct u'|]. intros m' Hm'.
  refine (HQ m' _ _). by eapply (shape_mark l1 s u u' l2 _ _ m' R).
Qed.
End blocks.

(** * From the invariant to steps and back *)

(** What the owner of a byte may rely on when the blocks [l] become [l']. *)
Definition kept (heap : Z) (x : rt_memheap) (l l' : list seg) (b : Z) : Prop := keep heap x l b ∧ keep heap x l' b.

Lemma memheap_open h heap x l fr l' C R :
  memheap_ok h heap x l fr → shape (λ _, False) (mem_bytes h) (mem_bytes h) heap (start_addr x) l C R →
  shape (kept heap x l l') (mem_bytes h) (mem_bytes h) heap (start_addr x) l C R.
Proof.
  intros [_ Hg _ Hs _ _ _ _] [Hp Hr Hk]. split; [|done|done]. eapply pool_rebase; [exact Hp|].
  intros p b Sp [Hb _]. eapply keep_off; [exact Hg|by apply mseg_sizes|exact Hb|by apply Hk].
Qed.

Lemma shape_ring D m0 m m' heap start l C R R' :
  shape D m0 m heap start l C R → pool D m0 m' C R' → shape D m0 m' heap start l C R'.
Proof. intros [_ ? ?] ?. by split. Qed.

Lemma heap_at_same heap x x' n :
  start_addr x' = start_addr x → pool_size x' = pool_size x → mh_block_list x' = mh_block_list x →
  free_list x' = free_list x → heap_at heap x n → heap_at heap x' n.
Proof. intros E1 E2 E3 E4 []. split; rewrite ?E1, ?E2, ?E3, ?E4; done. Qed.

Lemma mstep_close h heap x l x' m' l' fr' C' R' :
  heap_at heap x (extent l) → memheaps h !! heap = Some x → mapped (mem_bytes h) (start_addr x) (Z.to_nat (pool_size x)) →
  shape (kept heap x l l') (mem_bytes h) m' heap (start_addr x) l' C' R' → dlist R' (free_header heap) fr' →
  extent l' = extent l → Forall mseg_ok l' → merged false l' → fr' ≡ₚ frees (start_addr x) l' → counts x' l' →
  start_addr x' = start_addr x → pool_size x' = pool_size x → mh_block_list x' = mh_block_list x →
  free_list x' = free_list x → mstep h heap x l (mheap heap x' m' h) x' l' fr'.
Proof.
  intros Hg Hx Hm Hsh Hd El Hs' Hmg Hf Hc E1 E2 E3 E4. split; [|done|done|done|].
  - split; try done.
    + apply lookup_insert_eq.
    + rewrite El. by eapply heap_at_same.
    + by rewrite E1.
    + exists C', R'. rewrite E1. split; [|done]. destruct Hsh as [Hp ? ?]. split; [|done|done].
      eapply pool_rebase; [exact Hp|done].
    + rewrite E1, E2. eapply pool_mapped; [apply Hsh|done].
  - intros b Hb Hb'. eapply pool_data; [apply Hsh|done].
Qed.

(** The free list and the addresses of the free blocks. *)
Lemma frees_take start l1 sz l2 f1 f2 a :
  a = start + extent l1 → f1 ++ a :: f2 ≡ₚ frees start (l1 ++ (sz, false) :: l2) →
  f1 ++ f2 ≡ₚ frees start l1 ++ frees (a + 24 + sz) l2.
Proof.
  intros ->. rewrite frees_app. simpl. rewrite <- !Permutation_middle. apply Permutation_cons_inv.
Qed.

Lemma merged_weaken l : merged true l → merged false l.
Proof. destruct l as [|s l]; [done|]. simpl. tauto. Qed.

Lemma wp_mark_used {D m0 h heap x} m l1 s l2 C R a (Q : option Z → small_mem → Prop) :
  shape D m0 m heap (start_addr x) (l1 ++ (s, false) :: l2) C R → sizes (l1 ++ (s, false) :: l2) →
  a = start_addr x + extent l1 →
  (∀ m' C', shape D m0 m' heap (start_addr x) (l1 ++ (s, true) :: l2) C' R → Q (Some a) (mheap heap x m' h)) →
  wp (g ← item_magic a; set_item_magic a (Z.lor g RT_MEMHEAP_USED);; mret (Some a)) (mheap heap x m h) Q.
Proof.
  intros Hsh Hs Ea HQ. pose proof (shape_block l1 (s, false) l2 Hsh) as Ha. rewrite <- Ea in Ha.
  wp_step. eapply wp_item_magic; [apply Hsh|exact Ha|]. wp_step.
  change (Z.lor _ RT_MEMHEAP_USED) with (if true then RT_MEMHEAP_MAGIC + 1 else RT_MEMHEAP_MAGIC).
  eapply (wp_mark_block m l1 s false true l2); [done..|]. intros m' C' Hsh'. wp_step. by eapply HQ.
Qed.

(** * Allocation under the lock *)

(** A block of [sz] bytes after [n] bytes of it have been allocated. *)
Definition mcarve (n sz : Z) : list seg :=
  if n + 36 <=? sz then [(n, true); (sz - n - 24, false)] else [(sz, true)].

Lemma wp_take_block {h heap} x m C R l1 sz l2 f1 f2 a n m0 D (Q : unit → small_mem → Prop) :
  let l := l1 ++ (sz, false) :: l2 in
  let cut := n + 36 <=? sz in
  let fr' := if cut then a + 24 + n :: f1 ++ f2 else f1 ++ f2 in
  shape D m0 m heap (start_addr x) l C R → dlist R (free_header heap) (f1 ++ a :: f2) →
  heap_at heap x (extent l) → sizes l → 0 <= n <= sz → a = start_addr x + extent l1 →
  mapped m0 (start_addr x) (Z.to_nat (pool_size x)) → available_size x = free_total l →
  (∀ b, D b → keep heap x (l1 ++ mcarve n sz ++ l2) b) →
  (∀ x' m' C' R',
    shape D m0 m' heap (start_addr x) (l1 ++ (if cut then [(n, false); (sz - n - 24, false)] else [(sz, false)]) ++ l2) C' R' →
    dlist R' (free_header heap) fr' →
    start_addr x' = start_addr x → pool_size x' = pool_size x →
    available_size x' = free_total l - (if cut then n + 24 else sz) →
    max_used_size x' = Z.max (max_used_size x) (pool_size x - available_size x') →
    mh_block_list x' = mh_block_list x → free_list x' = free_list x → Q tt (mheap heap x' m' h)) →
  wp (take_block heap n a sz) (mheap heap x m h) Q.
Proof.
  intros l cut fr' Hsh Hd Hg Hsz Hn Ea Hm Hav HD HQ.
  pose proof Hg as [G1 G2 G3 _ G4 [G5 G6] G7]. pose proof Hsz as (Hs1 & _ & Hs2)%sizes_split.
  pose proof (extent_pos _ Hs1). pose proof (extent_pos _ Hs2). pose proof (free_total_range _ Hsz) as Hft.
  pose proof (free_total_range _ Hs1). pose proof (free_total_range _ Hs2).
  assert (extent l = extent l1 + (24 + sz + extent l2)) as El by (unfold l; by rewrite extent_app).
  assert (free_total l = free_total l1 + (sz + free_total l2)) as Eft by (unfold l; by rewrite free_total_app).
  pose proof (ring_words m l C R _ Hsh Hd Hg Hsz) as Hw.
  assert (Forall word_ok (free_header heap :: f1 ++ f2)) as Hw'.
  { rewrite Forall_forall in *. intros b Hb. apply Hw. set_solver. }
  assert (a ∉ free_header heap :: f1 ++ f2) as Han.
  { destruct Hd as [Hnd _]. by apply (NoDup_middle (free_header heap :: f1) a f2), Hnd. }
  unfold take_block, RT_MEMHEAP_SIZE, RT_MEMHEAP_MINIALLOC.
  replace (u32 (n + 24 + 12)) with (n + 36) by (unfold wrap; rewrite Z.mod_small; lia). fold cut.
  unfold mcarve in HD. fold cut in HD. unfold fr' in HQ. destruct cut eqn:Hcut; unfold cut in Hcut.
  - apply Z.leb_le in Hcut. set (s2 := sz - n - 24) in *. assert (sz = n + 24 + s2) as Es by (unfold s2; lia).
    replace (u32 (a + n + 24)) with (a + 24 + n) by (unfold wrap; rewrite Z.mod_small; lia).
    assert (∀ u, sizes (l1 ++ (n, u) :: (s2, false) :: l2)) as Hsz1.
    { intros u. apply Forall_app. split; [done|]. repeat (apply Forall_cons; split; [simpl; lia|]). done. }
    wp_step. unfold l in Hsh, Hsz, Hg. clearbody s2. subst sz.
    eapply (wp_cut_block m l1 n s2 false l2); [exact Hsh|exact Hd|done|done|lia|lia|exact Ea|done|done| |].
    { intros b Hb. rewrite Ea. by eapply (keep_cut l1 n s2 true (n + 24 + s2, false)); [|..|by apply HD]. }
    intros m1 C1 R1 Hsh1 Hd1 Sp Hpn.
    wp_step. eapply wp_remove_free; [apply Hsh1|exact Hd1|done|]. intros m2 R2 Hp2 Hd2.
    apply wp_assoc. wp_step. eapply wp_off_ring; [exact Hp2|exact Hd2|done| |].
    { rewrite Ea. erewrite (shape_block l1 (n, false)); [by eexists|exact Hsh1]. }
    intros m3 R3 Hp3 Hd3. wp_step. eapply (wp_insert_free x); [exact Hp3|by rewrite G4|rewrite G4; set_solver|done| |].
    { rewrite G4. apply Forall_cons. split; [unfold word_ok; lia|done]. }
    intros m4 R4 Hp4 Hd4. rewrite G4 in Hd4. apply wp_take_available. intros x' E1 E2 E3 E4 E5 E6.
    assert (available_size x' = free_total l - (n + 24)) as E7.
    { rewrite E3, Hav. unfold wrap. rewrite Z.mod_small; lia. }
    eapply HQ; try done; [by eapply shape_ring|]. rewrite E4, <- E3. unfold wrap. rewrite Z.mod_small; lia.
  - wp_step. apply wp_take_available. intros x' E1 E2 E3 E4 E5 E6.
    wp_step. eapply wp_remove_free; [apply Hsh|exact Hd|done|]. intros m2 R2 Hp2 Hd2.
    eapply wp_off_ring; [exact Hp2|exact Hd2|done| |].
    { rewrite Ea. erewrite (shape_block l1 (sz, false)); [by eexists|exact Hsh]. }
    intros m3 R3 Hp3 Hd3.
    assert (available_size x' = free_total l - sz) as E7.
    { rewrite E3, Hav. unfold wrap. rewrite Z.mod_small; lia. }
    eapply HQ; try done; [by eapply shape_ring|]. rewrite E4, <- E3. unfold wrap. rewrite Z.mod_small; lia.
Qed.

Lemma mcarve_extent n sz : extent (mcarve n sz) = 24 + sz.
Proof. unfold mcarve. destruct (_ <=? _); simpl; lia. Qed.

Lemma mcarve_free n sz : free_total (mcarve n sz) = sz - (if n + 36 <=? sz then n + 24 else sz).
Proof. unfold mcarve. destruct (_ <=? _); simpl; lia. Qed.

Lemma mcarve_ok n sz : mseg_ok (sz, false) → 12 <= n → n mod 4 = 0 → Forall mseg_ok (mcarve n sz).
Proof.
  intros [Hs Hs4] Hn Hn4. unfold mcarve. destruct (Z.leb_spec (n + 36) sz); repeat (apply Forall_cons; split); try done.
  simpl in *. split; [simpl; lia|]. simpl. rewrite Zminus_mod, (Zminus_mod sz), Hs4, Hn4 by lia. done.
Qed.

Lemma mcarve_merged n sz l1 l2 : merged false (l1 ++ (sz, false) :: l2) → merged false (l1 ++ mcarve n sz ++ l2).
Proof.
  rewrite !merged_app. simpl. intros (H1 & H2 & H3). unfold mcarve. split; [done|].
  destruct (_ <=? _); simpl; [done|]. split; [done|]. by apply merged_weaken.
Qed.

(** The free list after [n] bytes of the block of [sz] bytes at [a] have been allocated. *)
Definition carved_free (n sz a : Z) (f1 f2 : list Z) : list Z :=
  if n + 36 <=? sz then a + 24 + n :: f1 ++ f2 else f1 ++ f2.

Lemma carved_frees n sz start l1 l2 f1 f2 a :
  a = start + extent l1 → f1 ++ a :: f2 ≡ₚ frees start (l1 ++ (sz, false) :: l2) →
  carved_free n sz a f1 f2 ≡ₚ frees start (l1 ++ mcarve n sz ++ l2).
Proof.
  intros Ea Hf. apply (frees_take _ _ _ _ _ _ _ Ea) in Hf. rewrite frees_app. unfold carved_free, mcarve. rewrite <- Ea.
  destruct (n + 36 <=? sz); simpl; rewrite Hf.
  - replace (a + 24 + n + 24 + (sz - n - 24)) with (a + 24 + sz) by lia. apply Permutation_middle.
  - done.
Qed.

Lemma counts_take x x' l l' d :
  counts x l → sizes l' → pool_size x' = pool_size x → available_size x' = free_total l - d →
  max_used_size x' = Z.max (max_used_size x) (pool_size x - available_size x') →
  free_total l' = free_total l - d → counts x' l'.
Proof. intros [H1 H2] Hs E1 E2 E3 E4. pose proof (free_total_range _ Hs). split; lia. Qed.

(** The first block of the free list that is large enough. *)
Definition first_free (start : Z) (l : list seg) (n : Z) (f1 : list Z) : Prop :=
  ∀ a s, a ∈ f1 → sized start l a s → s < n.

Lemma frees_items D m0 m heap start l C R a :
  shape D m0 m heap start l C R → sizes l → start + extent l + 24 <= 2 ^ 32 → 0 < start → a ∈ frees start l →
  ∃ s c, sized start l a s ∧ C !! a = Some c ∧ c_next c = a + 24 + s ∧ 0 <= s < 2 ^ 32.
Proof.
  intros Hsh Hs Ht H0 (s & l1 & l2 & -> & ->)%elem_of_frees. eexists s, _.
  split; [by exists l1, l2|]. split; [by eapply shape_block|]. split; [done|].
  rewrite extent_app in Ht. apply sizes_split in Hs as (Hs1 & Hs & Hs2). simpl in *.
  pose proof (extent_pos _ Hs1). pose proof (extent_pos _ Hs2). lia.
Qed.

Lemma free_header_off heap x l a : heap_at heap x (extent l) → sizes l → a ∈ frees (start_addr x) l → free_header heap ≠ a.
Proof.
  intros [] Hs Ha <-. apply (frees_ge _ _ _ Hs) in Ha. unfold free_header in *. lia.
Qed.

Lemma wp_alloc_block h heap x l fr n (Q : option Z → small_mem → Prop) :
  memheap_ok h heap x l fr → 12 <= n → n mod 4 = 0 →
  (∀ f1 f2 l1 sz l2 h' x', let a := start_addr x + extent l1 in
    fr = f1 ++ a :: f2 → l = l1 ++ (sz, false) :: l2 → n <= sz → first_free (start_addr x) l n f1 →
    mstep h heap x l h' x' (l1 ++ mcarve n sz ++ l2) (carved_free n sz a f1 f2) → Q (Some a) h') →
  (first_free (start_addr x) l n fr → Q None h) →
  wp (alloc_block heap n) h Q.
Proof.
  intros Hok Hn Hn4 HQ HQ0. pose proof Hok as [Hx Hg [Hav Hmax] Hseg Hmg Hf (C & R & Hsh & Hd) Hm].
  pose proof (mseg_sizes _ Hseg) as Hsz. pose proof Hg as [G1 G2 G3 G4 G5 G6 G7]. rewrite (mheap_id heap x h Hx) at 1.
  assert (∀ a, a ∈ fr → a ∈ frees (start_addr x) l) as Hin by (intros a; by rewrite Hf).
  unfold alloc_block. wp_step. apply wp_get_memheap. rewrite G5.
  wp_step. eapply wp_item_next_free; [apply Hsh| |].
  { apply (dlist_lnk R (free_header heap) fr [] (free_header heap) (default (free_header heap) (head fr)) (tail (fr ++ [free_header heap])) Hd).
    by destruct fr. }
  wp_step. eapply (wp_search_free x _ C R (free_header heap) (start_addr x) l n _ [] fr 0); try done; [apply Hsh|..].
  { intros Hh%Hin. by eapply free_header_off in Hh. }
  { intros a Ha%Hin. eapply frees_items; [exact Hsh|done|lia|done|done]. }
  { intros ? ? []%not_elem_of_nil. }
  { lia. }
  { unfold memheap_fuel, RT_MEMHEAP_SIZE. rewrite Hf. pose proof (frees_length (start_addr x) l Hsz).
    assert (Z.of_nat (length (frees (start_addr x) l)) <= pool_size x / 24); [|lia]. apply Z.div_le_lower_bound; lia. }
  intros p fs f1 f2 [(Ef & (l1 & l2 & El & Ep) & Hle & Hsm)|[Hlt Hsm]]; cbv beta iota.
  2: { rewrite (proj2 (Z.leb_gt _ _) Hlt). wp_step. rewrite <- (mheap_id heap x h Hx). by apply HQ0. }
  rewrite (proj2 (Z.leb_le _ _) Hle). simpl in Ef. subst l fr p.
  pose proof (memheap_open _ _ _ _ _ (l1 ++ mcarve n fs ++ l2) _ _ Hok Hsh) as Hsh0.
  wp_step. eapply (wp_take_block x _ C R l1 fs l2 f1 f2); try done; [lia|by intros b [_ Hb]|].
  intros x' m' C' R' Hsh' Hd' E1 E2 E3 E4 E5 E6.
  set (s0 := if n + 36 <=? fs then n else fs). set (r := if n + 36 <=? fs then [(fs - n - 24, false)] else []).
  assert (∀ u, (s0, u) :: r ++ l2 = (if n + 36 <=? fs then [(n, u); (fs - n - 24, false)] else [(fs, u)]) ++ l2) as Er.
  { intros u. unfold s0, r. by destruct (n + 36 <=? fs). }
  rewrite <- Er in Hsh'. rewrite <- E1 in Hsh'.
  pose proof (mcarve_ok n fs) as Hco. apply Forall_app in Hseg as [Hg1 [Hg0 Hg2]%Forall_cons].
  assert (Forall mseg_ok (l1 ++ mcarve n fs ++ l2)) as Hseg'.
  { apply Forall_app; split; [done|]. apply Forall_app; split; [by apply Hco|done]. }
  assert (mcarve n fs ++ l2 = (s0, true) :: r ++ l2) as Ec by (by rewrite Er).
  eapply (wp_mark_used _ l1 s0 (r ++ l2)); [exact Hsh'| |by rewrite E1|].
  { rewrite Ec in Hseg'. apply mseg_sizes in Hseg'. apply Forall_app in Hseg' as [? [? ?]%Forall_cons]. by apply Forall_app; split; [|apply Forall_cons; split]. }
  intros m2 C2 Hsh2. rewrite E1, <- Ec in Hsh2. eapply (HQ f1 f2 l1 fs l2); [done|done|done|exact Hsm|].
  apply (mstep_close h heap x (l1 ++ (fs, false) :: l2) x' m2 (l1 ++ mcarve n fs ++ l2) _ C2 R'); try done.
  - rewrite !extent_app, mcarve_extent. simpl. lia.
  - by apply mcarve_merged.
  - by apply carved_frees.
  - eapply counts_take; [by split|by apply mseg_sizes|done|exact E3|done|].
    rewrite !free_total_app, mcarve_free. simpl. lia.
Qed.

(** * Allocation *)

(** A thread finds the heap free. *)
Record lock_free (k : kernel) (L : lists) (heap : Z) : Prop := {
  lf_running : running k L;
  lf_sem : sem_ok k L (lock heap) 1
}.

Lemma lock_free_mem k L heap h : lock_free k L heap → lock_free (set_sysmem h k) L heap.
Proof. intros [[] []]. by split; split. Qed.

Lemma wp_lock {A} k L heap (none : A) (m : K (outcome A)) (Q : outcome A → kernel → Prop) :
  lock_free k L heap → wp m (held k (lock heap)) Q →
  wp (o ← rt_sem_take (lock heap) RT_WAITING_FOREVER; after o (if_locked none m)) k Q.
Proof.
  intros [Hrun Hsem] Hm. wp_step. eapply wp_mono; [by apply (sem_take_available Hsem RT_WAITING_FOREVER)|].
  by intros o k1 [-> ->].
Qed.

Lemma align_request_spec size : 0 <= size <= 2 ^ 32 - 4 → align_request size = request size.
Proof.
  intros Hs. unfold align_request, request, RT_MEMHEAP_MINIALLOC. rewrite RT_ALIGN_spec by done.
  destruct (Z.ltb_spec (4 * ((size + 3) / 4)) 12); lia.
Qed.

Lemma mrequest_facts size : 0 <= size → size <= request size ∧ 12 <= request size ∧ request size mod 4 = 0.
Proof.
  intros Hs. destruct (decide (size = 0)) as [->|]; [by vm_compute|]. apply request_facts. lia.
Qed.

Lemma extent_aligned l : Forall mseg_ok l → extent l mod 4 = 0.
Proof.
  induction 1 as [|s l [_ Hs] _ IH]; [done|]. simpl. rewrite Z.add_mod, (Z.add_mod 24), Hs, IH by lia. done.
Qed.

(** The bytes that are handed out. *)
Lemma carved_bytes start l1 sz l2 n b :
  sizes (l1 ++ (sz, false) :: l2) → n <= sz → start + extent l1 + 24 <= b < start + extent l1 + 24 + n →
  used_bytes start (l1 ++ mcarve n sz ++ l2) b ∧ ¬ used_bytes start (l1 ++ (sz, false) :: l2) b.
Proof.
  intros Hs Hn Hb. split.
  - unfold mcarve. destruct (n + 36 <=? sz); [exists l1, n, ((sz - n - 24, false) :: l2)|exists l1, sz, l2]; (split; [done|lia]).
  - intros (k1 & z & k2 & E & Hr). destruct (mpositions _ _ _ _ E Hs) as [[_ ?]|[(? & ? & [= <- <-] & ?)|(? & ? & [= <- <-] & ?)]];
      [done|simpl in *; lia..].
Qed.

(** The first block of the free list [fr] that has [n] bytes, the one at [a], is allocated. *)
Definition allocated (h : small_mem) (heap : Z) (x : rt_memheap) (l : list seg) (fr : list Z) (n a : Z)
    (h' : small_mem) (x' : rt_memheap) (l' : list seg) (fr' : list Z) : Prop :=
  ∃ f1 f2 l1 sz l2, fr = f1 ++ a :: f2 ∧ l = l1 ++ (sz, false) :: l2 ∧ a = start_addr x + extent l1 ∧ n <= sz ∧
    first_free (start_addr x) l n f1 ∧ l' = l1 ++ mcarve n sz ++ l2 ∧ fr' = carved_free n sz a f1 f2 ∧
    mstep h heap x l h' x' l' fr'.

Lemma alloc_block_spec h heap x l fr n :
  memheap_ok h heap x l fr → 12 <= n → n mod 4 = 0 →
  wp (alloc_block heap n) h (λ r h',
    (∃ a x' l' fr', r = Some a ∧ allocated h heap x l fr n a h' x' l' fr') ∨
    r = None ∧ h' = h ∧ first_free (start_addr x) l n fr).
Proof.
  intros Hok Hn Hn4. apply (wp_alloc_block _ _ _ _ _ _ _ Hok Hn Hn4).
  - intros f1 f2 l1 sz l2 h' x' a Ef El Hle Hff Hst. left. eexists a, x', _, _. split; [done|].
    by exists f1, f2, l1, sz, l2.
  - intros Hff. by right.
Qed.

Lemma allocated_address h heap x l fr n a h' x' l' fr' :
  memheap_ok h heap x l fr → 0 <= n → allocated h heap x l fr n a h' x' l' fr' →
  0 < a ∧ a + 24 + n < 2 ^ 32 ∧ (a + 24) mod 4 = start_addr x mod 4 ∧
  ∀ b, a + 24 <= b < a + 24 + n → used_bytes (start_addr x) l' b ∧ ¬ used_bytes (start_addr x) l b.
Proof.
  intros [_ [G1 G2 G3 _ _ _ _] _ Hseg _ _ _ _] Hn (f1 & f2 & l1 & sz & l2 & _ & -> & -> & Hle & _ & -> & _).
  pose proof (mseg_sizes _ Hseg) as Hsz. pose proof (extent_split _ _ Hsz) as [? _]. rewrite extent_app in G2. simpl in G2.
  pose proof Hsz as (_ & ? & Hs2)%sizes_split. pose proof (extent_pos _ Hs2). split_and!; [lia|lia|..].
  - apply Forall_app in Hseg as [Hg1 _]. rewrite Z.add_mod, (Z.add_mod (start_addr x)), (extent_aligned _ Hg1) by lia.
    change (24 mod 4) with 0. by rewrite !Z.add_0_r, !Z.mod_mod by lia.
  - intros b Hb. by apply carved_bytes.
Qed.

Lemma wp_check_memheap k heap x (Q : rt_memheap → kernel → Prop) :
  memheaps (sysmem k) !! heap = Some x → Q x k → wp (on_mem (get_memheap heap)) k Q.
Proof.
  intros Hx HQ. unfold on_mem. wp_step. rewrite (mheap_id heap x _ Hx). apply wp_get_memheap.
  rewrite <- (mheap_id heap x _ Hx). by replace (set_sysmem (sysmem k) k) with k by by destruct k.
Qed.

Lemma wp_memheap_alloc k L heap x l fr n :
  lock_free k L heap → memheap_ok (sysmem k) heap x l fr → 0 <= n <= 2 ^ 32 - 4 →
  wp (rt_memheap_alloc heap n) k (λ out k', ∃ r h', out = Return r ∧ k' = set_sysmem h' k ∧
    ((∃ x' l' fr', r ≠ 0 ∧ allocated (sysmem k) heap x l fr (request n) (r - 24) h' x' l' fr') ∨
     r = 0 ∧ h' = sysmem k ∧ (available_size x <= request n ∨ first_free (start_addr x) l (request n) fr))).
Proof.
  intros Hl Hok Hn. destruct (mrequest_facts n) as (R1 & R2 & R3); [lia|]. assert (0 <= request n) as R0 by lia.
  pose proof Hok as [Hx [_ _ _ _ _ [G5 _] _] _ _ _ _ _ _].
  unfold rt_memheap_alloc. wp_step. apply wp_assert; [by rewrite (proj2 (Z.eqb_neq _ _)) by lia|].
  rewrite align_request_spec by done. wp_step. eapply wp_check_memheap; [exact Hx|].
  destruct (Z.ltb_spec (request n) (available_size x)) as [Hlt|Hge].
  2: { wp_step. exists 0, (sysmem k). split_and!; [done|by destruct k|]. right. split_and!; [done|done|by left]. }
  apply (wp_lock k L); [done|]. eapply (wp_held (lf_running _ _ _ Hl) (lf_sem _ _ _ Hl)).
  { by apply (alloc_block_spec _ _ x l fr). }
  intros r h' [(a & x' & l' & fr' & -> & Hal)|(-> & -> & Hff)]; wp_step.
  - destruct (allocated_address _ _ _ _ _ _ _ _ _ _ _ Hok R0 Hal) as (? & ? & _).
    exists (a + 24), h'. split; [unfold RT_MEMHEAP_SIZE, wrap; by rewrite Z.mod_small by lia|].
    split; [done|]. left. exists x', l', fr'. split; [lia|]. by replace (a + 24 - 24) with a by lia.
  - exists 0, (sysmem k). split_and!; [done|done|]. right. split_and!; [done|done|by right].
Qed.

(** C32: [rt_memheap_alloc] takes the first block of the free list that is large enough: with
    the lock free, a request either gets such a block, cut if the rest can be a block, at an
    address that is aligned as the pool is, and its bytes belonged to nobody; or null, when
    the request is not smaller than what is available or all free blocks are too small, and
    then nothing changes.  The heap is well formed afterwards, what it counts is right, and no
    byte that belongs to a block in use or lies outside of the heap changes. *)
Theorem rt_memheap_alloc_spec k L heap x l fr size :
  lock_free k L heap → memheap_ok (sysmem k) heap x l fr → 0 <= size <= 2 ^ 32 - 4 →
  let start := start_addr x in
  wp (rt_memheap_alloc heap size) k (λ out k', ∃ r h', out = Return r ∧ k' = set_sysmem h' k ∧
    ((∃ x' l' fr', allocated (sysmem k) heap x l fr (request size) (r - 24) h' x' l' fr' ∧
        r ≠ 0 ∧ r mod 4 = start mod 4 ∧ ∀ b, r <= b < r + size → used_bytes start l' b ∧ ¬ used_bytes start l b) ∨
     r = 0 ∧ h' = sysmem k ∧ (available_size x <= request size ∨ first_free start l (request size) fr))).
Proof.
  intros Hl Hok Hs start. eapply wp_mono; [by apply (wp_memheap_alloc k L heap x l fr size)|].
  intros out k' (r & h' & -> & -> & Hr). exists r, h'. split_and!; [done|done|].
  destruct Hr as [(x' & l' & fr' & Hr & Hal)|?]; [left|by right]. exists x', l', fr'.
  destruct (mrequest_facts size) as (R1 & R2 & _); [lia|]. assert (0 <= request size) as R0 by lia.
  destruct (allocated_address _ _ _ _ _ _ _ _ _ _ _ Hok R0 Hal) as (_ & _ & Ha & Hb).
  replace (r - 24 + 24) with r in Ha, Hb by lia. split_and!; [done|done|done|]. intros b ?. apply Hb. lia.
Qed.
