(* ===== verification/MemHeapFree.v ===== *)
(** The properties of memory heaps, continued: release, reallocation, the set-up, and a heap
    on which the theorems are instantiated. *)

From Stdlib Require Import ZArith Lia.
From stdpp Require Import numbers strings base fin_maps gmap list.
From S2P Require Import Prelude Bytes Overlay KString RtList Bitmap Kernel Scheduler Object Timer Thread Ipc MemPool Mem MemHeap.
From S2P Require Import Invariant ThreadSpec Check Demo TimerSpec ThreadRun IpcSpec Semaphore MemSpec MemApi MemHeapSpec MemHeapApi.
Local Open Scope Z_scope.

(** * Joining a block with its neighbours *)

Definition join_prev (l1 : list seg) (sz : Z) : list seg * Z :=
  match last l1 with Some (s0, false) => (removelast l1, s0 + 24 + sz) | _ => (l1, sz) end.
Definition join_next (sz : Z) (l2 : list seg) : Z * list seg :=
  match l2 with (s2, false) :: r => (sz + 24 + s2, r) | _ => (sz, l2) end.

(** The blocks after the block of [sz] bytes between [l1] and [l2] has been released. *)
Definition release (l1 : list seg) (sz : Z) (l2 : list seg) : list seg :=
  let '(k, s) := join_prev l1 sz in
  let '(s, r) := join_next s l2 in
  k ++ (s, false) :: r.

Definition first_used (l : list seg) : bool := match l with s :: _ => s.2 | [] => true end.
Definition last_used (l : list seg) : bool := match last l with Some s => s.2 | None => true end.

Lemma join_prev_cases l1 sz :
  (last_used l1 = true ∧ join_prev l1 sz = (l1, sz)) ∨
  (∃ k s0, l1 = k ++ [(s0, false)] ∧ join_prev l1 sz = (k, s0 + 24 + sz)).
Proof.
  unfold join_prev, last_used. destruct l1 as [|[s0 []] k _] using rev_ind; [by left|rewrite last_snoc; by left|].
  rewrite last_snoc. right. exists k, s0. by rewrite removelast_last.
Qed.

Lemma join_next_cases sz l2 :
  (first_used l2 = true ∧ join_next sz l2 = (sz, l2)) ∨
  (∃ s2 r, l2 = (s2, false) :: r ∧ join_next sz l2 = (sz + 24 + s2, r)).
Proof. destruct l2 as [|[s2 []] r]; [by left|by left|]. right. by exists s2, r. Qed.

Lemma mseg_join s1 u1 s2 u2 u : mseg_ok (s1, u1) → mseg_ok (s2, u2) → mseg_ok (s1 + 24 + s2, u).
Proof.
  intros [H1 E1] [H2 E2]. simpl in *. split; simpl; [lia|]. rewrite Z.add_mod, (Z.add_mod s1), E1, E2 by lia. done.
Qed.

Lemma first_core_used heap start pv n l : ∃ nx, first_core heap start pv n l = blk heap (first_used l) nx pv.
Proof. destruct l as [|s l]; by eexists. Qed.

Lemma merged_used l : first_used l = true → merged false l → merged true l.
Proof. destruct l as [|s l]; [done|]. simpl. intros -> [_ ?]. done. Qed.

Lemma release_spec l1 sz l2 : Forall mseg_ok (l1 ++ (sz, true) :: l2) → merged false (l1 ++ (sz, true) :: l2) →
  extent (release l1 sz l2) = extent (l1 ++ (sz, true) :: l2) ∧ Forall mseg_ok (release l1 sz l2) ∧
  merged false (release l1 sz l2).
Proof.
  intros (Hg1 & [Hg0 Hg2]%Forall_cons)%Forall_app (Hm1 & Hm2 & Hm3)%merged_app. simpl in Hm3. unfold release.
  assert (∃ k s, join_prev l1 sz = (k, s) ∧ Forall mseg_ok k ∧ mseg_ok (s, false) ∧ extent k + s = extent l1 + sz ∧
    merged false k ∧ ends_free false k = false) as (k & s & -> & Hk & Hs & Ek & Hmk & Hek).
  { destruct (join_prev_cases l1 sz) as [[Hl ->]|(k & s0 & -> & ->)].
    - eexists _, _. split; [done|]. split_and!; [done|done|done|done|].
      unfold last_used in Hl. destruct l1 as [|[s0 u0] k _] using rev_ind; [done|]. rewrite last_snoc in Hl. simpl in Hl.
      subst u0. by rewrite ends_free_app.
    - apply Forall_app in Hg1 as [Hgk [Hgs _]%Forall_cons]. apply merged_app in Hm1 as (Hmk & Hmf & _).
      eexists _, _. split; [done|]. split_and!; [done|by eapply mseg_join|rewrite extent_app; simpl; lia|done|].
      destruct (ends_free false k) eqn:E; [|done]. simpl in Hmf. by specialize (Hmf eq_refl). }
  assert (∃ s' r, join_next s l2 = (s', r) ∧ Forall mseg_ok r ∧ mseg_ok (s', false) ∧ s' + extent r = s + extent l2 ∧
    merged true r) as (s' & r & -> & Hr & Hs' & Er & Hmr).
  { destruct (join_next_cases s l2) as [[Hl ->]|(s2 & r & -> & ->)].
    - eexists _, _. split; [done|]. split_and!; [done|done|lia|by apply merged_used].
    - apply Forall_cons in Hg2 as [Hgs Hgr]. eexists _, _. split; [done|].
      split_and!; [done|by eapply mseg_join|simpl; lia|]. simpl in Hm3. tauto. }
  split_and!.
  - rewrite !extent_app. simpl. lia.
  - apply Forall_app. split; [done|]. by apply Forall_cons.
  - apply merged_app. split; [done|]. simpl. by rewrite Hek.
Qed.

Lemma prev_at_snoc start l k s : prev_at start l (k ++ [s]) = start + extent k.
Proof. unfold prev_at. by rewrite last_at_app. Qed.

Section merging.
Context {D : Z → Prop} {m0 : ram} {h : small_mem} {heap : Z} {x : rt_memheap}.
Notation start := (start_addr x).
Notation hd := (free_header heap).

(** The item in front of a block. *)
Lemma prev_item m l1 s l2 C R :
  shape D m0 m heap start (l1 ++ s :: l2) C R →
  ∃ nx pv, C !! prev_at start (l1 ++ s :: l2) l1 = Some (blk heap (last_used l1) nx pv).
Proof.
  intros Hsh. destruct l1 as [|s0 k _] using rev_ind.
  - destruct (shape_tail _ Hsh) as [pv Ht]. by eexists _, _.
  - rewrite prev_at_snoc. rewrite <- app_assoc in *. eexists _, _. unfold last_used. rewrite last_snoc.
    exact (shape_block k s0 (s :: l2) Hsh).
Qed.

Lemma wp_merge_prev m l1 sz l2 C R fr a k s (Q : Z * bool → small_mem → Prop) :
  let l := l1 ++ (sz, false) :: l2 in
  join_prev l1 sz = (k, s) → shape D m0 m heap start l C R → dlist R hd fr → heap_at heap x (extent l) → sizes l → a = start + extent l1 →
  a ∉ hd :: fr → 0 <= available_size x < 2 ^ 32 - 24 →
  (∀ m' C' R', shape D m0 m' heap start (k ++ (s, false) :: l2) C' R' → dlist R' hd fr →
    Q (start + extent k, last_used l1)
      (mheap heap (if last_used l1 then x else set_available_size (available_size x + 24) x) m' h)) →
  wp (merge_prev heap a) (mheap heap x m h) Q.
Proof.
  intros l Ej Hsh Hd Hg Hsz Ea Han Hav HQ.
  pose proof Hsz as (Hs1 & Hs0 & Hs2)%sizes_split. simpl in Hs0. pose proof (extent_pos _ Hs1). pose proof (extent_pos _ Hs2).
  pose proof (shape_block l1 (sz, false) l2 Hsh) as Ha. rewrite <- Ea in Ha. simpl in Ha.
  destruct (prev_item _ _ _ _ _ _ Hsh) as (nx & pv & Hpv). fold l in Ha, Hpv.
  unfold merge_prev. wp_step. eapply wp_item_prev; [apply Hsh|exact Ha|]. simpl c_prev.
  wp_step. eapply wp_is_used; [apply Hsh|exact Hpv|].
  destruct (join_prev_cases l1 sz) as [[Hl E]|(k' & s0 & -> & E)]; rewrite E in Ej; injection Ej as <- <-.
  { rewrite Hl in *. simpl. wp_step. rewrite Ea. by eapply HQ. }
  unfold last_used in *. rewrite last_snoc in *. simpl negb. cbv iota. unfold l in *. clear l.
  rewrite prev_at_snoc in *. rewrite <- app_assoc in *. simpl app in *.
  rewrite extent_app in *. simpl extent in *. set (v := start + extent k') in *.
  apply Forall_app in Hs1 as [Hk' [Hs0' _]%Forall_cons]. simpl in Hs0'. pose proof (extent_pos _ Hk').
  pose proof (shape_block k' _ _ Hsh) as Hv. fold v in Hv. simpl in Hv.
  set (n := a + 24 + sz) in *.
  assert (C !! n = Some (first_core heap start a n l2)) as Hn.
  { replace (k' ++ (s0, false) :: (sz, false) :: l2) with ((k' ++ [(s0, false)]) ++ (sz, false) :: l2) in Hsh by by rewrite <- app_assoc.
    apply (shape_next _ (sz, false) l2 a n Hsh); [rewrite extent_app; simpl; lia|done]. }
  assert (v < a ∧ a < n) as [? ?] by (unfold n, v; lia).
  wp_step. apply wp_add_available.
  wp_step. eapply wp_item_prev; [apply Hsh|exact Ha|]. simpl c_prev.
  wp_step. eapply wp_item_next; [apply Hsh|exact Ha|]. simpl c_next.
  assert (word_ok n ∧ word_ok v) as [? ?].
  { destruct Hg as [G1 G2 G3 _ _ _ _]. rewrite ?extent_app in G2. simpl in G2. unfold word_ok, n, v. lia. }
  wp_step. eapply wp_set_item_next; [apply Hsh|exact Hv|done|]. intros m1 Hp1.
  wp_step. eapply wp_item_next; [exact Hp1|rewrite lookup_insert_ne by lia; exact Ha|]. simpl c_next.
  wp_step. eapply wp_item_prev; [exact Hp1|rewrite lookup_insert_ne by lia; exact Ha|]. simpl c_prev.
  wp_step. eapply wp_set_item_prev; [exact Hp1|rewrite lookup_insert_ne by lia; exact Hn|done|]. intros m2 Hp2.
  wp_step. eapply wp_item_prev; [exact Hp2|rewrite !lookup_insert_ne by lia; exact Ha|]. simpl c_prev. wp_step.
  rewrite insert_insert_ne in Hp2 by lia.
  replace (set_available_size _ x) with (set_available_size (available_size x + 24) x)
    by (unfold RT_MEMHEAP_SIZE, wrap; rewrite Z.mod_small by lia; done).
  eapply (HQ m2).
  - eapply (shape_join k' s0 sz false false l2 v a n); [exact Hsh|done|done|unfold v; lia|done| |exact Hp2].
    intros E'. apply Han. set_solver.
  - eapply (dlist_off R); [exact Han| |exact Hd]. intros i Hi. by rewrite lookup_delete_ne.
Qed.

Lemma wp_merge_behind m l1 s l2 C R fr f1 f2 b r s' a (Q : unit → small_mem → Prop) :
  let l := l1 ++ (s, false) :: l2 in
  shape D m0 m heap start l C R → dlist R hd fr → heap_at heap x (extent l) → sizes l → a = start + extent l1 →
  b = a + 24 + s → l2 = (s', false) :: r → fr = f1 ++ b :: f2 →
  (∀ m' C' R', shape D m0 m' heap start (l1 ++ (s + 24 + s', false) :: r) C' R' → dlist R' hd (f1 ++ f2) →
    Q tt (mheap heap x m' h)) →
  wp (merge_next a b) (mheap heap x m h) Q.
Proof.
  intros l Hsh Hd Hg Hsz Ea Eb -> -> HQ. unfold l in *. clear l.
  pose proof Hsz as (Hs1 & Hs0 & [Hs' Hsr]%Forall_cons)%sizes_split. simpl in Hs0, Hs'.
  pose proof (extent_pos _ Hs1). pose proof (extent_pos _ Hsr).
  pose proof (shape_block l1 _ _ Hsh) as Ha. rewrite <- Ea in Ha. simpl in Ha.
  assert (shape D m0 m heap start ((l1 ++ [(s, false)]) ++ (s', false) :: r) C R) as Hsh' by by rewrite <- app_assoc.
  assert (b = start + extent (l1 ++ [(s, false)])) as Eb' by (rewrite extent_app; simpl; lia).
  pose proof (shape_block _ (s', false) r Hsh') as Hb. rewrite <- Eb' in Hb. simpl in Hb.
  set (n := b + 24 + s') in *. pose proof (shape_next _ (s', false) r b n Hsh' Eb' eq_refl) as Hn.
  pose proof (ring_words m _ _ _ _ Hsh Hd Hg Hsz) as Hw.
  pose proof Hg as [G1 G2 G3 _ _ _ _]. rewrite extent_app in G2. simpl in G2.
  assert (b ∉ hd :: f1 ++ f2) as Hbn.
  { destruct Hd as [Hnd _]. by apply (NoDup_middle (hd :: f1) b f2), Hnd. }
  assert (hd ≠ b) as Hhb by set_solver.
  eapply (wp_merge_next x m C R hd f1 b f2 a _ _ n); [apply Hsh|exact Hd| |exact Ha|exact Hb|done|exact Hn|unfold n; lia|unfold n; lia| | |].
  { rewrite Forall_forall in *. intros c Hc. apply Hw. set_solver. }
  { unfold word_ok. lia. }
  { unfold word_ok, n. lia. }
  intros m' R' Hp' Hd'. eapply (HQ m').
  - eapply (shape_join l1 s s' false false r a b n); [exact Hsh|exact Hsz|exact Ea|exact Eb|done|exact Hhb|exact Hp'].
  - eapply (dlist_off R'); [exact Hbn| |exact Hd']. intros i Hi. by rewrite lookup_delete_ne.
Qed.
End merging.

(** * Release under the lock *)

(** The addresses of the free blocks with a block at [p] that is on the list if [on]. *)
Definition frees_with (start : Z) (k : list seg) (on : bool) (s : Z) (l2 : list seg) : list Z :=
  let p := start + extent k in
  frees start k ++ (if on then [p] else []) ++ frees (p + 24 + s) l2.

Lemma frees_with_on start k s l2 : frees start (k ++ (s, false) :: l2) = frees_with start k true s l2.
Proof. by rewrite frees_app. Qed.

Lemma frees_with_off start l1 sz l2 k s :
  join_prev l1 sz = (k, s) → frees start (l1 ++ (sz, true) :: l2) = frees_with start k (negb (last_used l1)) s l2.
Proof.
  destruct (join_prev_cases l1 sz) as [[Hl ->]|(k' & s0 & -> & ->)]; intros [= <- <-].
  - rewrite Hl, frees_app. done.
  - unfold last_used. rewrite last_snoc, !frees_app, extent_app, <- app_assoc. unfold frees_with. simpl.
    do 2 f_equal. f_equal. lia.
Qed.

Lemma frees_fresh start k s l2 : sizes k → sizes l2 → 0 <= s → start + extent k ∉ frees_with start k false s l2.
Proof.
  intros Hk Hl Hs. unfold frees_with. simpl. rewrite elem_of_app.
  intros [Hin|Hin]; apply frees_ge in Hin; [lia|done|lia|done].
Qed.

(** Insert the block at [p] into the free list if it is not on it. *)
Lemma wp_insert_rest {D m0 h heap} x m k s l2 C R fr (on : bool) p (Q : unit → small_mem → Prop) :
  let l := k ++ (s, false) :: l2 in
  shape D m0 m heap (start_addr x) l C R → dlist R (free_header heap) fr → fr ≡ₚ frees_with (start_addr x) k on s l2 →
  heap_at heap x (extent l) → sizes l → p = start_addr x + extent k →
  (∀ m' R' fr', shape D m0 m' heap (start_addr x) l C R' → dlist R' (free_header heap) fr' →
    fr' ≡ₚ frees (start_addr x) l → Q tt (mheap heap x m' h)) →
  wp (when (negb on) (insert_free heap p)) (mheap heap x m h) Q.
Proof.
  intros l Hsh Hd Hf Hg Hsz Ep HQ. pose proof Hsz as (Hk & Hs & Hl2)%sizes_split. simpl in Hs.
  unfold l in HQ. rewrite frees_with_on in HQ. destruct on; simpl.
  { wp_step. by eapply HQ. }
  assert (p ∉ free_header heap :: fr) as Hpn.
  { rewrite elem_of_cons, Hf, Ep. intros [E|Hin]; [|by apply frees_fresh in Hin].
    symmetry in E. eapply (free_header_off heap x l); [exact Hg|done| |exact E].
    unfold l. rewrite frees_app. simpl. set_solver. }
  pose proof (ring_words m _ _ _ _ Hsh Hd Hg Hsz) as Hw.
  eapply (wp_insert_free x m C R fr); rewrite ?(ha_free _ _ _ Hg); [apply Hsh|done|done| | |].
  - rewrite Ep. erewrite (shape_block k (s, false) l2 Hsh). by eexists.
  - apply Forall_cons. split; [|done]. eapply item_word; [exact Hg|done|]. right. rewrite Ep. apply boundary_at.
  - intros m2 R2 Hp2 Hd2. eapply HQ; [by eapply shape_ring|exact Hd2|]. rewrite Hf. unfold frees_with. simpl.
    rewrite Ep. by rewrite Permutation_middle.
Qed.

Lemma wp_free_rest {D m0 h heap} x m k s l2 C R fr on p s' r (Q : unit → small_mem → Prop) :
  let l := k ++ (s, false) :: l2 in
  join_next s l2 = (s', r) → shape D m0 m heap (start_addr x) l C R → dlist R (free_header heap) fr → heap_at heap x (extent l) → sizes l →
  p = start_addr x + extent k → fr ≡ₚ frees_with (start_addr x) k on s l2 → 0 <= available_size x < 2 ^ 32 - 24 →
  (∀ m' C' R' fr', shape D m0 m' heap (start_addr x) (k ++ (s', false) :: r) C' R' → dlist R' (free_header heap) fr' →
    fr' ≡ₚ frees (start_addr x) (k ++ (s', false) :: r) →
    Q tt (mheap heap (if first_used l2 then x else set_available_size (available_size x + 24) x) m' h)) →
  wp (n ← item_next p;
      u ← RT_MEMHEAP_IS_USED n;
      when (negb u) (
        add_available heap RT_MEMHEAP_SIZE;;
        n ← item_next p;
        merge_next p n);;
      when (negb on) (insert_free heap p)) (mheap heap x m h) Q.
Proof.
  intros l Ej Hsh Hd Hg Hsz Ep Hf Hav HQ.
  pose proof Hsz as (Hk & Hs & Hl2)%sizes_split. simpl in Hs.
  pose proof (shape_block k (s, false) l2 Hsh) as Hp. rewrite <- Ep in Hp. simpl in Hp.
  set (n := p + 24 + s) in *. pose proof (shape_next k (s, false) l2 p n Hsh Ep eq_refl) as Hn.
  destruct (first_core_used heap (start_addr x) p n l2) as [nx Efc]. rewrite Efc in Hn.
  wp_step. eapply wp_item_next; [apply Hsh|exact Hp|]. simpl c_next.
  wp_step. eapply wp_is_used; [apply Hsh|exact Hn|].
  destruct (join_next_cases s l2) as [[Hl E]|(s2 & r2 & -> & E)]; rewrite E in Ej; injection Ej as <- <-.
  - rewrite Hl in *. simpl negb. cbn [when]. wp_step. wp_step. eapply wp_insert_rest; [done..|]. intros. by eapply HQ.
  - simpl first_used in *. cbv iota in HQ. simpl negb. cbn [when].
    assert (n ∈ fr) as (f1 & f2 & ->)%list_elem_of_split.
    { rewrite Hf. unfold frees_with. rewrite <- Ep. fold n. simpl. set_solver. }
    wp_step. wp_step. apply wp_add_available.
    replace (set_available_size _ x) with (set_available_size (available_size x + 24) x)
      by (unfold RT_MEMHEAP_SIZE, wrap; rewrite Z.mod_small by lia; done).
    set (x' := set_available_size _ x) in *.
    wp_step. eapply wp_item_next; [apply Hsh|exact Hp|]. simpl c_next. fold n.
    assert (heap_at heap x' (extent l)) as Hg' by by apply (heap_at_same heap x x').
    eapply (wp_merge_behind (x := x') m k s ((s2, false) :: r2) C R _ f1 f2 n r2 s2 p); [exact Hsh|exact Hd|exact Hg'|exact Hsz|exact Ep|done..|].
    intros m' C' R' Hsh' Hd'. apply Forall_cons in Hl2 as [Hs2 Hr2]. simpl in Hs2.
    eapply (wp_insert_rest x' m' k (s + 24 + s2) r2); [exact Hsh'|exact Hd'| | | |done|intros; by eapply HQ].
    + unfold frees_with in *. change (start_addr x') with (start_addr x). rewrite <- Ep in *. fold n in Hf. simpl in Hf.
      replace (p + 24 + (s + 24 + s2)) with (n + 24 + s2) by (unfold n; lia).
      rewrite (app_assoc (frees _ k)) in *. rewrite <- !Permutation_middle in Hf. by apply Permutation_cons_inv in Hf.
    + replace (extent (k ++ (s + 24 + s2, false) :: r2)) with (extent l); [done|]. unfold l. rewrite !extent_app. simpl. lia.
    + apply Forall_app. split; [done|]. apply Forall_cons. split; [simpl; lia|done].
Qed.

Lemma release_free l1 sz l2 :
  free_total (release l1 sz l2) = free_total (l1 ++ (sz, true) :: l2) + sz +
    (if last_used l1 then 0 else 24) + (if first_used l2 then 0 else 24).
Proof.
  unfold release. destruct (join_prev_cases l1 sz) as [[Hl ->]|(k & s0 & -> & ->)].
  - rewrite Hl. destruct (join_next_cases sz l2) as [[Hl2 ->]|(s2 & r & -> & ->)]; [rewrite Hl2|];
      rewrite !free_total_app; simpl; lia.
  - unfold last_used. rewrite last_snoc. destruct (join_next_cases (s0 + 24 + sz) l2) as [[Hl2 ->]|(s2 & r & -> & ->)];
      [rewrite Hl2|]; rewrite !free_total_app; simpl; lia.
Qed.

Lemma used_not_free heap x l1 sz l2 :
  let l := l1 ++ (sz, true) :: l2 in
  heap_at heap x (extent l) → sizes l →
  start_addr x + extent l1 ∉ free_header heap :: frees (start_addr x) l.
Proof.
  intros l Hg Hsz. rewrite elem_of_cons. intros [E|(s & k1 & k2 & E & Ea)%elem_of_frees].
  - destruct Hg as [G1 G2 G3 _ _ [G4 G5] G6]. unfold free_header in *. unfold l in *. rewrite extent_app in G2. simpl in G2.
    apply sizes_split in Hsz as (Hs1 & Hs & Hs2). simpl in Hs. pose proof (extent_pos _ Hs1). pose proof (extent_pos _ Hs2). lia.
  - unfold l in *. clear l. assert (0 <= s ∧ 0 <= sz) as [? ?].
    { split; [rewrite E in Hsz|]; by apply sizes_split in Hsz as (_ & ? & _). }
    destruct (mpositions _ _ _ _ E Hsz) as [[_ ?]|[(? & ? & [= <- <-] & ?)|(? & ? & [= <- <-] & Hlt)]]; [done|simpl in *; lia..].
Qed.

Lemma join_prev_sizes l1 sz k s l2 :
  join_prev l1 sz = (k, s) → sizes (l1 ++ (sz, true) :: l2) →
  extent (k ++ (s, false) :: l2) = extent (l1 ++ (sz, true) :: l2) ∧ sizes (k ++ (s, false) :: l2).
Proof.
  intros Ej (Hs1 & Hs0 & Hs2)%sizes_split. simpl in Hs0.
  destruct (join_prev_cases l1 sz) as [[_ E]|(k' & s0 & -> & E)]; rewrite E in Ej; injection Ej as <- <-.
  - rewrite !extent_app. split; [done|]. apply Forall_app. split; [done|]. by apply Forall_cons.
  - apply Forall_app in Hs1 as [? [Hs0' _]%Forall_cons]. simpl in Hs0'. rewrite !extent_app. simpl. split; [lia|].
    apply Forall_app. split; [done|]. apply Forall_cons. split; [simpl; lia|done].
Qed.

Lemma free_item_spec h heap x l1 sz l2 fr :
  let l := l1 ++ (sz, true) :: l2 in
  memheap_ok h heap x l fr →
  wp (free_item heap (start_addr x + extent l1)) h (λ _ h', ∃ x' fr',
    mstep h heap x l h' x' (release l1 sz l2) fr' ∧ available_size x' = free_total (release l1 sz l2)).
Proof.
  intros l Hok. pose proof Hok as [Hx Hg [Hav Hmax] Hseg Hmg Hf (C & R & Hsh0 & Hd) Hm].
  pose proof (memheap_open _ _ _ _ _ (release l1 sz l2) _ _ Hok Hsh0) as Hsh. clear Hsh0.
  destruct (release_spec l1 sz l2 Hseg Hmg) as (Er & Hsegr & Hmgr). pose proof (release_free l1 sz l2) as Ef.
  pose proof (mseg_sizes _ Hseg) as Hsz. pose proof (mseg_sizes _ Hsegr) as Hszr.
  pose proof (free_total_range _ Hszr) as Hfr. pose proof (free_total_range _ Hsz) as Hfl. fold l in Ef, Er, Hfl.
  pose proof Hg as [G1 G2 G3 _ _ _ _]. pose proof Hsz as (Hs1 & Hs0 & Hs2)%sizes_split. simpl in Hs0.
  set (a := start_addr x + extent l1). pose proof (shape_block l1 (sz, true) l2 Hsh) as Ha. fold a l in Ha.
  rewrite (mheap_id heap x h Hx). unfold free_item.
  wp_step. eapply wp_item_magic; [apply Hsh|exact Ha|]. simpl c_magic.
  change (Z.land _ _) with (if false then RT_MEMHEAP_MAGIC + 1 else RT_MEMHEAP_MAGIC).
  wp_step. eapply (wp_mark_block _ l1 sz true false l2); [exact Hsh|done|done|]. intros m1 C1 Hsh1.
  assert (sizes (l1 ++ (sz, false) :: l2)) as Hsz1.
  { apply Forall_app. split; [done|]. by apply Forall_cons. }
  assert (extent (l1 ++ (sz, false) :: l2) = extent l) as Ee by (unfold l; by rewrite !extent_app).
  pose proof (shape_block l1 (sz, false) l2 Hsh1) as Ha1. fold a in Ha1.
  assert (0 <= extent l1 ∧ extent l1 + 24 + sz <= extent l) as [? ?].
  { unfold l. rewrite extent_app. simpl. pose proof (extent_pos _ Hs1). pose proof (extent_pos _ Hs2). lia. }
  wp_step. eapply (wp_item_size x m1 C1 R a _ sz); [apply Hsh1|exact Ha1|done|lia|].
  wp_step. apply wp_add_available.
  replace (u32 (available_size x + sz)) with (available_size x + sz)
    by (unfold wrap; rewrite Z.mod_small by (destruct (last_used l1), (first_used l2); lia); done).
  set (x1 := set_available_size (available_size x + sz) x).
  assert (a ∉ free_header heap :: fr) as Han.
  { rewrite elem_of_cons, Hf, <- elem_of_cons. by apply used_not_free. }
  pose proof (frees_with_off (start_addr x) l1 sz l2) as Hfo. unfold release in *.
  destruct (join_prev l1 sz) as [k s] eqn:Ej. specialize (Hfo k s eq_refl).
  destruct (join_next s l2) as [s' r] eqn:Ej2.
  wp_step. eapply (wp_merge_prev (x := x1) m1 l1 sz l2 C1 R fr a k s); [exact Ej|exact Hsh1|exact Hd|
    by rewrite Ee; apply (heap_at_same heap x x1)|done|done|done| |].
  { unfold x1. simpl. destruct (last_used l1), (first_used l2); lia. }
  intros m2 C2 R2 Hsh2 Hd2. cbv beta iota. set (x2 := if last_used l1 then x1 else _).
  assert (start_addr x2 = start_addr x ∧ pool_size x2 = pool_size x ∧ mh_block_list x2 = mh_block_list x ∧
    free_list x2 = free_list x ∧ max_used_size x2 = max_used_size x ∧
    available_size x2 = free_total l + sz + (if last_used l1 then 0 else 24)) as (E1 & E2 & E3 & E4 & E5 & E6).
  { unfold x2, x1. destruct (last_used l1); simpl; split_and!; try done; lia. }
  destruct (join_prev_sizes l1 sz k s l2 Ej Hsz) as [Ee2 Hsz2]. fold l in Ee2.
  rewrite <- (negb_involutive (last_used l1)). eapply (wp_free_rest x2 m2 k s l2 C2 R2 fr _ _ s' r); rewrite ?E1.
  { exact Ej2. } { exact Hsh2. } { exact Hd2. } { rewrite Ee2. by apply (heap_at_same heap x x2). } { done. } { done. }
  { by rewrite <- Hfo. } { rewrite E6. destruct (last_used l1), (first_used l2); lia. }
  intros m' C' R' fr' Hsh' Hd' Hf'. set (x3 := if first_used l2 then x2 else _).
  assert (start_addr x3 = start_addr x ∧ pool_size x3 = pool_size x ∧ mh_block_list x3 = mh_block_list x ∧
    free_list x3 = free_list x ∧ max_used_size x3 = max_used_size x ∧
    available_size x3 = free_total (k ++ (s', false) :: r)) as (F1 & F2 & F3 & F4 & F5 & F6).
  { unfold x3. destruct (first_used l2); simpl; split_and!; try done; lia. }
  exists x3, fr'. split; [|done]. rewrite <- (mheap_id heap x h Hx).
  eapply (mstep_close h heap x l x3 m'); try done. split; [done|]. rewrite F2, F5. destruct (last_used l1), (first_used l2); lia.
Qed.

(** * Release *)

Lemma check_item_spec h heap x l1 sz l2 fr :
  memheap_ok h heap x (l1 ++ (sz, true) :: l2) fr →
  wp (check_item (start_addr x + extent l1)) h (λ r h', r = heap ∧ h' = h).
Proof.
  intros Hok. pose proof Hok as [Hx _ _ _ _ _ (C & R & Hsh & _) _]. set (a := start_addr x + extent l1).
  pose proof (shape_block l1 (sz, true) l2 Hsh) as Ha. fold a in Ha. simpl in Ha.
  pose proof (shape_next l1 (sz, true) l2 a _ Hsh eq_refl eq_refl) as Hn. simpl in Hn.
  destruct (first_core_used heap (start_addr x) a (a + 24 + sz) l2) as [nx E]. rewrite E in Hn.
  rewrite (mheap_id heap x h Hx). unfold check_item.
  wp_step. eapply wp_item_magic; [apply Hsh|exact Ha|]. wp_step. apply wp_assert; [done|]. wp_step. apply wp_assert; [done|].
  wp_step. eapply wp_item_next; [apply Hsh|exact Ha|]. simpl c_next.
  wp_step. eapply wp_item_magic; [apply Hsh|exact Hn|]. wp_step. apply wp_assert; [by destruct (first_used l2)|].
  eapply wp_item_pool_ptr; [apply Hsh|exact Ha|]. done.
Qed.

(** The address of the data of a block. *)
Lemma data_address heap x l1 s l2 :
  heap_at heap x (extent (l1 ++ s :: l2)) → sizes (l1 ++ s :: l2) →
  let p := start_addr x + extent l1 + 24 in
  p ≠ 0 ∧ u32 (p - RT_MEMHEAP_SIZE) = start_addr x + extent l1 ∧ 24 < p ∧ p + s.1 + 24 <= 2 ^ 32.
Proof.
  intros [G1 G2 G3 _ _ _ _] (Hs1 & Hs & Hs2)%sizes_split p. rewrite extent_app in G2. simpl in G2.
  pose proof (extent_pos _ Hs1). pose proof (extent_pos _ Hs2). unfold p. split_and!; [lia| |lia|lia].
  unfold RT_MEMHEAP_SIZE, wrap. rewrite Z.mod_small; lia.
Qed.

Lemma wp_memheap_free k L heap x l1 sz l2 fr :
  lock_free k L heap → memheap_ok (sysmem k) heap x (l1 ++ (sz, true) :: l2) fr →
  wp (rt_memheap_free (start_addr x + extent l1 + 24)) k (λ out k', ∃ h' x' fr', out = Return tt ∧ k' = set_sysmem h' k ∧
    mstep (sysmem k) heap x (l1 ++ (sz, true) :: l2) h' x' (release l1 sz l2) fr' ∧
    available_size x' = free_total (release l1 sz l2)).
Proof.
  intros Hl Hok. destruct (data_address heap x l1 (sz, true) l2) as (E1 & E2 & _); [apply Hok|apply mseg_sizes, Hok|].
  unfold rt_memheap_free. rewrite (proj2 (Z.eqb_neq _ _) E1), E2. wp_step. unfold on_mem at 1. wp_step.
  eapply wp_mono; [by apply (check_item_spec _ heap x l1 sz l2 fr)|]. intros r h' [-> ->].
  replace (set_sysmem (sysmem k) k) with k by by destruct k. apply (wp_lock k L); [done|].
  eapply (wp_held (lf_running _ _ _ Hl) (lf_sem _ _ _ Hl)).
  { by apply (free_item_spec _ heap x l1 sz l2 fr). }
  intros [] h' (x' & fr' & Hst & Hav). wp_step. by exists h', x', fr'.
Qed.

(** C33: [rt_memheap_free] of a block in use makes it free and joins it with the free blocks
    next to it, so that no two free blocks are neighbours; the heap is found from the block,
    is well formed afterwards, has as much available as its free blocks have, and no byte
    that belongs to another block in use or lies outside of the heap changes. *)
Theorem rt_memheap_free_spec k L heap x l1 sz l2 fr :
  lock_free k L heap → memheap_ok (sysmem k) heap x (l1 ++ (sz, true) :: l2) fr →
  wp (rt_memheap_free (start_addr x + extent l1 + 24)) k (λ out k', ∃ h' x' fr', out = Return tt ∧ k' = set_sysmem h' k ∧
    mstep (sysmem k) heap x (l1 ++ (sz, true) :: l2) h' x' (release l1 sz l2) fr' ∧
    available_size x' = free_total (release l1 sz l2)).
Proof. apply wp_memheap_free. Qed.

(** * Allocation and release are inverse *)

Lemma release_carve l1 sz l2 n :
  merged false (l1 ++ (sz, false) :: l2) →
  release l1 (if n + 36 <=? sz then n else sz) ((if n + 36 <=? sz then [(sz - n - 24, false)] else []) ++ l2)
  = l1 ++ (sz, false) :: l2.
Proof.
  intros (H1 & H2 & H3)%merged_app.
  assert (∀ s, join_prev l1 s = (l1, s)) as Ep.
  { intros s. destruct (join_prev_cases l1 s) as [[_ E]|(k & s0 & -> & _)]; [done|].
    rewrite ends_free_app in H2. simpl in H2. by specialize (H2 eq_refl). }
  unfold release. rewrite Ep. destruct (n + 36 <=? sz); simpl.
  - do 3 f_equal. lia.
  - destruct (join_next_cases sz l2) as [[_ ->]|(s2 & r & -> & _)]; [done|]. simpl in H3. by destruct H3 as [H3 _]; specialize (H3 eq_refl).
Qed.

Lemma mcarve_head n sz l2 :
  mcarve n sz ++ l2 = (if n + 36 <=? sz then n else sz, true) :: (if n + 36 <=? sz then [(sz - n - 24, false)] else []) ++ l2.
Proof. unfold mcarve. by destruct (n + 36 <=? sz). Qed.

Lemma used_bytes_carve start l1 sz l2 n b :
  used_bytes start (l1 ++ (sz, false) :: l2) b → used_bytes start (l1 ++ mcarve n sz ++ l2) b.
Proof.
  intros (k1 & z & k2 & E & Hb).
  destruct (app_eq_inv _ _ _ _ E) as [(k & -> & Ek)|(k & -> & Ek)]; destruct k as [|s k]; simplify_eq/=.
  - exists k1, z, (k ++ mcarve n sz ++ l2). by rewrite <- app_assoc.
  - exists (l1 ++ mcarve n sz ++ k), z, k2. split; [by rewrite <- !app_assoc|].
    rewrite !extent_app, mcarve_extent in *. simpl in *. lia.
Qed.

Lemma keep_same heap x x' l b :
  start_addr x' = start_addr x → pool_size x' = pool_size x → keep heap x' l b ↔ keep heap x l b.
Proof. intros E1 E2. unfold keep, outside. by rewrite E1, E2. Qed.

Lemma keep_mono heap x l l' b :
  (used_bytes (start_addr x) l b → used_bytes (start_addr x) l' b) → keep heap x l b → keep heap x l' b.
Proof. intros H [?|?]; [left; auto|by right]. Qed.

(** Releasing what has just been allocated restores the blocks of the heap, with their
    sizes and in their order, and what is available; and keeps every byte that belongs to
    somebody else. *)
Theorem rt_memheap_alloc_free_roundtrip k L heap x l fr size :
  lock_free k L heap → memheap_ok (sysmem k) heap x l fr → 0 <= size <= 2 ^ 32 - 4 →
  wp (o ← rt_memheap_alloc heap size; after o (λ p, o ← rt_memheap_free p; after o (λ _, mret (Return p)))) k (λ out k',
    ∃ p h' x' fr', out = Return p ∧ k' = set_sysmem h' k ∧ memheap_ok h' heap x' l fr' ∧
      available_size x' = available_size x ∧ ∀ b, keep heap x l b → mem_bytes h' !! b = mem_bytes (sysmem k) !! b).
Proof.
  intros Hl Hok Hs. wp_step. eapply wp_mono; [by apply (wp_memheap_alloc k L heap x l fr size)|].
  intros out k1 (r & h1 & -> & -> & [(x1 & l' & fr1 & Hr & Hal)|(-> & -> & _)]); simpl; cycle 1.
  { wp_step. unfold rt_memheap_free. simpl. wp_step. simpl. wp_step. exists 0, (sysmem k), x, fr.
    split_and!; [done|by destruct k|done|done|done]. }
  destruct Hal as (f1 & f2 & l1 & sz & l2 & Ef & -> & Ea & Hle & _ & -> & _ & [Hok1 Hsame E1 E2 Hd1]).
  set (n := request size) in *. pose proof (mo_merged _ _ _ _ _ Hok) as Hmg.
  pose proof Hok1 as Hok1'. rewrite mcarve_head in Hok1'.
  wp_step. replace r with (start_addr x1 + extent l1 + 24) by (rewrite E1; lia).
  eapply wp_mono; [eapply (wp_memheap_free (set_sysmem h1 k) L heap x1 l1 _ _ fr1); [by apply lock_free_mem|exact Hok1']|].
  intros o k2 (h2 & x2 & fr2 & -> & -> & [Hok2 _ E3 E4 Hd2] & Hav). simpl. wp_step.
  rewrite release_carve in Hok2, Hav, Hd2 by done. eexists _, h2, x2, fr2. split; [done|]. split; [by destruct k|].
  split; [done|]. split; [by rewrite Hav, (proj1 (mo_counts _ _ _ _ _ Hok))|].
  intros b Hb. assert (keep heap x (l1 ++ mcarve n sz ++ l2) b) as Hb'.
  { eapply keep_mono; [apply used_bytes_carve|exact Hb]. }
  rewrite Hd2, Hd1; [done|done|done|rewrite <- mcarve_head|]; by apply (keep_same heap x x1).
Qed.
