(* ===== verification/MemHeapRealloc.v ===== *)
(** The properties of memory heaps, continued: reallocation. *)

From Stdlib Require Import ZArith Lia.
From stdpp Require Import numbers strings base fin_maps gmap list.
From S2P Require Import Prelude Bytes Overlay KString RtList Bitmap Kernel Scheduler Object Timer Thread Ipc MemPool Mem MemHeap.
From S2P Require Import Invariant ThreadSpec Check Demo TimerSpec ThreadRun IpcSpec Semaphore MemSpec MemApi.
From S2P Require Import MemHeapSpec MemHeapApi MemHeapFree.
Local Open Scope Z_scope.

(** * Growing into the next block *)

(** The rest of the free block of [s2] bytes behind a block of [old] bytes that grows to
    [n] bytes. *)
Definition grown (l1 : list seg) (old n s2 : Z) (r : list seg) : list seg :=
  l1 ++ (n, true) :: (old + s2 - n, false) :: r.

(** The comparison of [rt_memheap_realloc], which adds a signed number. *)
Lemma signed_sum s2 old : 0 <= s2 + old < 2 ^ 32 → u32 (s32 s2 + old) = s2 + old.
Proof.
  intros Hr. unfold swrap, wrap. rewrite <- Zplus_mod_idemp_l, Zminus_mod_idemp_l.
  replace (s2 + 2 ^ (32 - 1) - 2 ^ (32 - 1)) with s2 by lia. rewrite Zplus_mod_idemp_l. by rewrite Z.mod_small.
Qed.

(** Take the free block out of the lists. *)
Lemma wp_take_next {D m0 h heap x l1 old s2 r} {A} m x1 C R f1 f2 b (rest : H A) (Q : A → small_mem → Prop) :
  let start := start_addr x in
  let l := l1 ++ (old, true) :: (s2, false) :: r in
  let a := start + extent l1 in
  shape D m0 m heap start l C R → dlist R (free_header heap) (f1 ++ b :: f2) → heap_at heap x (extent l) → sizes l →
  b = a + 24 + old →
  (∀ m' C' R', shape D m0 m' heap start (l1 ++ (old + 24 + s2, true) :: r) C' R' → dlist R' (free_header heap) (f1 ++ f2) →
    wp rest (mheap heap x1 m' h) Q) →
  wp (remove_free b;;
      n ← item_next b; v ← item_prev b; set_item_prev n v;;
      v ← item_prev b; n ← item_next b; set_item_next v n;;
      rest) (mheap heap x1 m h) Q.
Proof.
  intros start l a Hsh Hd Hg Hsz Eb HQ. pose proof Hsz as (Hs1 & Ho & [Hs Hr]%Forall_cons)%sizes_split. simpl in Ho, Hs.
  pose proof (ring_words m l C R _ Hsh Hd Hg Hsz) as Hw. pose proof (extent_pos _ Hs1). pose proof (extent_pos _ Hr).
  assert (b ∉ free_header heap :: f1 ++ f2) as Hbn.
  { destruct Hd as [Hnd _]. by apply (NoDup_middle (free_header heap :: f1) b f2), Hnd. }
  assert (shape D m0 m heap start ((l1 ++ [(old, true)]) ++ (s2, false) :: r) C R) as Hsh' by by rewrite <- app_assoc.
  assert (b = start + extent (l1 ++ [(old, true)])) as Eb' by (rewrite extent_app; simpl; lia).
  pose proof (shape_block _ (s2, false) r Hsh') as Hb. rewrite <- Eb', prev_at_snoc in Hb. simpl in Hb.
  set (n' := b + 24 + s2) in *. pose proof (shape_next _ (s2, false) r b n' Hsh' Eb' eq_refl) as Hn'.
  pose proof (shape_block l1 _ _ Hsh) as Ha. simpl in Ha. fold a in Ha. rewrite <- Eb in Ha.
  assert (word_ok n' ∧ word_ok a) as [? ?].
  { destruct Hg as [G1 G2 G3 _ _ _ _]. unfold l in G2. rewrite extent_app in G2. simpl in G2. unfold word_ok, n', a, start. unfold a, start in Eb. lia. }
  wp_step. eapply wp_remove_free; [apply Hsh|exact Hd| |].
  { rewrite Forall_forall in *. intros c Hc. apply Hw. set_solver. }
  intros m1 R1 Hp1 Hd1.
  wp_step. eapply wp_item_next; [exact Hp1|exact Hb|]. simpl c_next.
  wp_step. eapply wp_item_prev; [exact Hp1|exact Hb|]. simpl c_prev.
  wp_step. eapply wp_set_item_prev; [exact Hp1|exact Hn'|done|]. intros m2 Hp2.
  wp_step. eapply wp_item_prev; [exact Hp2|rewrite lookup_insert_ne by (unfold n'; lia); exact Hb|]. simpl c_prev.
  wp_step. eapply wp_item_next; [exact Hp2|rewrite lookup_insert_ne by (unfold n'; lia); exact Hb|]. simpl c_next.
  wp_step. eapply wp_set_item_next; [exact Hp2|rewrite lookup_insert_ne by (unfold n'; lia); exact Ha|done|]. intros m3 Hp3.
  eapply (HQ m3).
  - eapply (shape_join l1 old s2 true false r a b n'); [eapply shape_ring; [exact Hsh|exact Hp1]|exact Hsz|done|exact Eb|done| |exact Hp3].
    set_solver.
  - eapply (dlist_off R1); [exact Hbn| |exact Hd1]. intros i Hi. by rewrite lookup_delete_ne.
Qed.
Section grow.
Context {h : small_mem} {heap : Z} {x : rt_memheap} {l1 : list seg} {old s2 : Z} {r : list seg} {fr : list Z} {n : Z}.
Notation start := (start_addr x).
Notation l := (l1 ++ (old, true) :: (s2, false) :: r).
Notation l' := (grown l1 old n s2 r).
Notation a := (start + extent l1).
Hypotheses (Hok : memheap_ok h heap x l fr) (Hold : old < n) (Hn4 : n mod 4 = 0) (Hroom : n + 12 < old + s2).

Lemma grown_facts :
  extent l' = extent l ∧ Forall mseg_ok l' ∧ merged false l' ∧ free_total l' = free_total l - (n - old) ∧ 12 <= old ∧ 12 <= s2.
Proof using All.
  destruct Hok as [_ _ _ Hseg Hmg _ _ _]. apply Forall_app in Hseg as (Hg1 & [[Ho Ho4] [[Hs Hs4] Hgr]%Forall_cons]%Forall_cons).
  apply merged_app in Hmg as (Hm1 & _ & _ & Hm3). simpl in *. unfold grown. rewrite !extent_app, !free_total_app. simpl.
  split_and!; [lia| | |lia|lia|lia].
  - apply Forall_app. split; [done|]. repeat (apply Forall_cons; split); [by split; simpl; lia| |done].
    split; simpl; [lia|]. rewrite Zminus_mod, (Z.add_mod old), Ho4, Hs4, Hn4 by lia. done.
  - apply merged_app. split; [done|]. simpl. by destruct (ends_free false l1).
Qed.


(** The block behind is large enough: the block grows. *)
Lemma wp_grow_in_place :
  wp (grow_block heap a (a + 24) old n) h (λ b h', b = true ∧ ∃ x' fr',
    mstep h heap x l h' x' l' fr').
Proof using All.
  destruct grown_facts as (Ee & Hseg' & Hmg' & Eft & Ho12 & Hs12).
  pose proof Hok as [Hx Hg [Hav Hmax] Hseg Hmg Hf (C & R & Hsh0 & Hd) Hm].
  pose proof (memheap_open _ _ _ _ _ l' _ _ Hok Hsh0) as Hsh. clear Hsh0.
  pose proof (mseg_sizes _ Hseg) as Hsz. pose proof (mseg_sizes _ Hseg') as Hsz'.
  pose proof (free_total_range _ Hsz). pose proof (free_total_range _ Hsz').
  pose proof Hg as [G1 G2 G3 _ G5 [G6 G7] G8]. pose proof Hsz as (Hs1 & _ & [_ Hr]%Forall_cons)%sizes_split.
  pose proof (extent_pos _ Hs1). pose proof (extent_pos _ Hr).
  assert (extent l = extent l1 + (24 + old + (24 + s2 + extent r))) as El by by rewrite extent_app.
  set (b := a + 24 + old).
  pose proof (shape_block l1 _ _ Hsh) as Ha. simpl in Ha.
  assert (shape (kept heap x l l') (mem_bytes h) (mem_bytes h) heap start ((l1 ++ [(old, true)]) ++ (s2, false) :: r) C R) as Hshb
    by by rewrite <- app_assoc.
  pose proof (shape_block _ (s2, false) r Hshb) as Hb. rewrite extent_app in Hb. simpl in Hb.
  replace (start + (extent l1 + (24 + old + 0))) with b in Hb by (unfold b; lia).
  rewrite (mheap_id heap x h Hx). unfold grow_block.
  wp_step. eapply wp_item_next; [apply Hsh|exact Ha|]. simpl c_next. fold b.
  wp_step. apply wp_assert; [apply Z.ltb_lt; unfold b; lia|].
  wp_step. eapply wp_is_used; [apply Hsh|exact Hb|]. simpl negb. cbv iota.
  wp_step. eapply (wp_item_size x _ C R b _ s2); [apply Hsh|exact Hb|done|lia|].
  wp_step. apply wp_assert; [apply Z.ltb_lt; unfold b; lia|].
  rewrite signed_sum by lia.
  replace (u32 (n + RT_MEMHEAP_MINIALLOC)) with (n + 12) by (unfold RT_MEMHEAP_MINIALLOC, wrap; rewrite Z.mod_small; lia).
  rewrite (proj2 (Z.ltb_lt _ _)) by lia.
  wp_step. apply wp_take_available. intros x' E1 E2 E3 E4 E5 E6.
  assert (heap_at heap x' (extent l)) as Hg' by by apply (heap_at_same heap x x').
  assert (b ∈ fr) as (f1 & f2 & Ef)%list_elem_of_split.
  { rewrite Hf, frees_app. simpl. fold b. set_solver. }
  rewrite Ef in Hd, Hf.
  eapply (wp_take_next (x := x) (l1 := l1) (old := old) (s2 := s2) (r := r) _ x' C R f1 f2 b); [exact Hsh|exact Hd|exact Hg|done|done|].
  intros m1 C1 R1 Hsh1 Hd1.
  replace (u32 (a + 24 + n)) with (a + 24 + n) by (unfold wrap; rewrite Z.mod_small; lia).
  assert (old + 24 + s2 = n + 24 + (old + s2 - n)) as Es by lia. rewrite Es in Hsh1.
  assert (extent (l1 ++ (n + 24 + (old + s2 - n), true) :: r) = extent l) as Ee1 by (rewrite !extent_app; simpl; lia).
  assert (sizes (l1 ++ (n + 24 + (old + s2 - n), true) :: r)) as Hsz1.
  { apply Forall_app. split; [done|]. apply Forall_cons. split; [simpl; lia|done]. }
  rewrite <- E1 in Hsh1.
  wp_step. eapply (wp_cut_block m1 l1 n (old + s2 - n) true r); [exact Hsh1|exact Hd1|by rewrite Ee1|done|lia|lia|by rewrite E1|done|
    by rewrite E1, E2| |].
  { intros c [_ Hc]. eapply (keep_cut (heap := heap) (x := x) l1 n (old + s2 - n) true (n + 24 + (old + s2 - n), true) r);
      [by rewrite Ee1|done|done|exact Hc]. }
  intros m2 C2 R2 Hsh2 Hd2 Sp Hpn.
  assert (heap_at heap x' (extent l')) as Hg2 by by rewrite Ee.
  pose proof (ring_words m2 _ C2 R2 _ Hsh2 Hd2 Hg2 Hsz') as Hw.
  wp_step. eapply (wp_insert_free x'); rewrite ?E6, ?G5; [apply Hsh2|exact Hd2|done|done| |].
  { apply Forall_cons. split; [unfold word_ok; lia|done]. }
  intros m3 R3 Hp3 Hd3. rewrite E1 in Hsh2. wp_step. split; [done|]. rewrite <- (mheap_id heap x h Hx).
  eexists x', _. eapply (mstep_close h heap x l x' m3 l' _ C2 R3); try done.
  - by eapply shape_ring.
  - unfold grown. rewrite frees_app in Hf. rewrite frees_app. simpl in Hf |- *. fold b in Hf. rewrite <- !Permutation_middle in Hf.
    apply Permutation_cons_inv in Hf. rewrite Hf, Permutation_middle.
    by replace (a + 24 + n + 24 + (old + s2 - n)) with (b + 24 + s2) by (unfold b; lia).
  - assert (available_size x' = free_total l - (n - old)) as Eav.
    { rewrite E3, Hav. unfold wrap. rewrite Z.mod_small; lia. }
    eapply (counts_take x x' l l' (n - old)); [by split|done|done|exact Eav| |exact Eft].
    rewrite E4, <- E3. unfold wrap. rewrite Z.mod_small; lia.
Qed.
End grow.

(** The block behind is free and, joined with the block of [old] bytes, leaves more than the
    smallest block behind [n] bytes. *)
Definition can_grow (old n : Z) (l2 : list seg) : bool :=
  match l2 with (s2, false) :: _ => n + 12 <? old + s2 | _ => false end.

Lemma wp_grow_not h heap x l1 old l2 fr n :
  memheap_ok h heap x (l1 ++ (old, true) :: l2) fr → 0 <= n <= 2 ^ 32 - 16 → can_grow old n l2 = false →
  wp (grow_block heap (start_addr x + extent l1) (start_addr x + extent l1 + 24) old n) h (λ b h', b = false ∧ h' = h).
Proof.
  intros [Hx Hg _ Hseg _ _ (C & R & Hsh & Hd) _] Hn Hc. set (a := start_addr x + extent l1).
  pose proof (mseg_sizes _ Hseg) as (Hs1 & Ho & Hs2)%sizes_split. simpl in Ho. pose proof (extent_pos _ Hs1). pose proof (extent_pos _ Hs2).
  pose proof Hg as [G1 G2 G3 _ _ _ _]. rewrite extent_app in G2. simpl in G2.
  pose proof (shape_block l1 (old, true) l2 Hsh) as Ha. fold a in Ha. simpl in Ha.
  set (b := a + 24 + old) in *. pose proof (shape_next l1 (old, true) l2 a b Hsh eq_refl eq_refl) as Hb.
  destruct (first_core_used heap (start_addr x) a b l2) as [nx Efc].
  rewrite (mheap_id heap x h Hx). unfold grow_block.
  wp_step. eapply wp_item_next; [apply Hsh|exact Ha|]. simpl c_next.
  wp_step. apply wp_assert; [apply Z.ltb_lt; unfold b; lia|]. rewrite Efc in Hb.
  wp_step. eapply wp_is_used; [apply Hsh|exact Hb|].
  destruct l2 as [|[s2 []] r]; simpl; [by wp_step..|].
  apply Forall_cons in Hs2 as [Hs Hr]. simpl in Hs, G2, Efc. pose proof (extent_pos _ Hr).
  wp_step. eapply (wp_item_size x _ C R b _ s2); [apply Hsh|exact Hb|by injection Efc as <-|unfold a in *; lia|].
  wp_step. apply wp_assert; [apply Z.ltb_lt; unfold b, a; lia|]. rewrite signed_sum by (unfold a in *; lia).
  replace (u32 (n + RT_MEMHEAP_MINIALLOC)) with (n + 12) by (unfold RT_MEMHEAP_MINIALLOC, wrap; rewrite Z.mod_small; lia).
  simpl in Hc. rewrite Z.add_comm in Hc. rewrite (Z.add_comm s2), (Z.add_comm n), Hc. by wp_step.
Qed.

(** * Cutting a block *)

Definition shrunk (l1 : list seg) (old n : Z) (l2 : list seg) : list seg :=
  let '(s, r) := join_next (old - n - 24) l2 in l1 ++ (n, true) :: (s, false) :: r.

Lemma shrunk_facts l1 old n l2 :
  Forall mseg_ok (l1 ++ (old, true) :: l2) → merged false (l1 ++ (old, true) :: l2) → 12 <= n → n mod 4 = 0 → n + 36 <= old →
  let l := l1 ++ (old, true) :: l2 in
  let l' := shrunk l1 old n l2 in
  extent l' = extent l ∧ Forall mseg_ok l' ∧ merged false l' ∧ free_total l <= free_total l'.
Proof.
  intros (Hg1 & [[Ho Ho4] Hg2]%Forall_cons)%Forall_app (Hm1 & Hm2 & Hm3)%merged_app Hn Hn4 Hle l l'. unfold l, l'. simpl in *.
  assert (mseg_ok (old - n - 24, false)) as Hrest.
  { split; simpl; [lia|]. rewrite Zminus_mod, (Zminus_mod old), Ho4, Hn4 by lia. done. }
  unfold shrunk. destruct (join_next_cases (old - n - 24) l2) as [[Hl ->]|(s2 & r & -> & ->)]; rewrite !extent_app, !free_total_app; simpl.
  - split_and!; [lia| |apply merged_app; pose proof (merged_used _ Hl Hm3); simpl; tauto|lia].
    apply Forall_app. split; [done|]. by repeat (apply Forall_cons; split).
  - apply Forall_cons in Hg2 as [Hg2 Hgr]. split_and!; [lia| |apply merged_app; simpl in *; tauto|lia].
    apply Forall_app. split; [done|]. repeat (apply Forall_cons; split); [done|by eapply mseg_join|done].
Qed.

Definition next_free_size (l2 : list seg) : Z := match l2 with (s2, false) :: _ => s2 | _ => 0 end.

(** The end of [shrink_block]: the rest is put on the free list and counted. *)
Lemma wp_shrink_insert {D m0 h heap} x m k s r C R fr p av (Q : unit → small_mem → Prop) :
  let l := k ++ (s, false) :: r in
  shape D m0 m heap (start_addr x) l C R → dlist R (free_header heap) fr → fr ≡ₚ frees_with (start_addr x) k false s r →
  heap_at heap x (extent l) → sizes l → p = start_addr x + extent k → 0 <= s < 2 ^ 32 → u32 (available_size x + s) = av →
  (∀ m' R' fr', shape D m0 m' heap (start_addr x) l C R' → dlist R' (free_header heap) fr' →
    fr' ≡ₚ frees (start_addr x) l → Q tt (mheap heap (set_available_size av x) m' h)) →
  wp (insert_free heap p;; s ← MEMITEM_SIZE p; add_available heap s) (mheap heap x m h) Q.
Proof.
  intros l Hsh Hd Hf Hg Hsz Ep Hr Eav HQ. wp_step.
  change (insert_free heap p) with (when (negb false) (insert_free heap p)).
  eapply (wp_insert_rest x m k s r C R fr false p); [done..|].
  intros m2 R2 fr2 Hsh2 Hd2 Hf2. wp_step. pose proof (shape_block k (s, false) r Hsh2) as Hp. rewrite <- Ep in Hp.
  eapply (wp_item_size x m2 C R2 p _ s); [apply Hsh2|exact Hp|done|done|].
  apply wp_add_available. rewrite Eav. by eapply HQ.
Qed.

(** The part of [shrink_block] that follows the cut. *)
Lemma wp_shrink_rest {D m0 h heap} x m k s l2 C R fr p s' r (Q : unit → small_mem → Prop) :
  let l := k ++ (s, false) :: l2 in
  join_next s l2 = (s', r) → shape D m0 m heap (start_addr x) l C R → dlist R (free_header heap) fr →
  heap_at heap x (extent l) → sizes l → p = start_addr x + extent k → fr ≡ₚ frees_with (start_addr x) k false s l2 →
  next_free_size l2 <= available_size x → available_size x - next_free_size l2 + s' < 2 ^ 32 →
  (∀ m' C' R' fr', shape D m0 m' heap (start_addr x) (k ++ (s', false) :: r) C' R' → dlist R' (free_header heap) fr' →
    fr' ≡ₚ frees (start_addr x) (k ++ (s', false) :: r) →
    Q tt (mheap heap (set_available_size (available_size x - next_free_size l2 + s') x) m' h)) →
  wp (n ← item_next p;
      u ← RT_MEMHEAP_IS_USED n;
      when (negb u) (
        free_ptr ← item_next p;
        s ← MEMITEM_SIZE free_ptr;
        upd_memheap heap (λ x, set_available_size (u32 (available_size x - s)) x);;
        merge_next p free_ptr);;
      insert_free heap p;;
      s ← MEMITEM_SIZE p;
      add_available heap s) (mheap heap x m h) Q.
Proof.
  intros l Ej Hsh Hd Hg Hsz Ep Hf Hav1 Hav2 HQ. pose proof Hsz as (Hk & Hs & Hl2)%sizes_split. simpl in Hs.
  pose proof Hg as [G1 G2 G3 _ _ _ _]. pose proof (extent_pos _ Hk). pose proof (extent_pos _ Hl2).
  assert (extent l = extent k + (24 + s + extent l2)) as El by (unfold l; by rewrite extent_app).
  pose proof (shape_block k (s, false) l2 Hsh) as Hp. rewrite <- Ep in Hp. simpl in Hp.
  set (n := p + 24 + s) in *. pose proof (shape_next k (s, false) l2 p n Hsh Ep eq_refl) as Hn.
  destruct (first_core_used heap (start_addr x) p n l2) as [nx Efc].
  wp_step. eapply wp_item_next; [apply Hsh|exact Hp|]. simpl c_next.
  rewrite Efc in Hn. wp_step. eapply wp_is_used; [apply Hsh|exact Hn|].
  destruct (join_next_cases s l2) as [[Hl E]|(s2 & r2 & -> & E)]; rewrite E in Ej; injection Ej as <- <-.
  - rewrite Hl in *. simpl negb. cbn [when]. wp_step. wp_step.
    assert (next_free_size l2 = 0) as E0 by (unfold next_free_size; by destruct l2 as [|[? []] ?]).
    rewrite E0 in *. eapply (wp_shrink_insert x m k s l2); [done..|lia| |intros; by eapply HQ].
    unfold wrap. rewrite Z.mod_small; lia.
  - simpl first_used. simpl negb. cbn [when]. simpl next_free_size in *. simpl in Efc. injection Efc as <-.
    apply Forall_cons in Hl2 as [Hs2 Hr2]. simpl in Hs2, El. pose proof (extent_pos _ Hr2).
    assert (n ∈ fr) as (f1 & f2 & ->)%list_elem_of_split.
    { rewrite Hf. unfold frees_with. rewrite <- Ep. fold n. simpl. set_solver. }
    wp_step. wp_step. eapply wp_item_next; [apply Hsh|exact Hp|]. simpl c_next. fold n.
    wp_step. eapply (wp_item_size x m C R n _ s2); [apply Hsh|exact Hn|done|lia|].
    wp_step. apply wp_upd_memheap.
    replace (u32 (available_size x - s2)) with (available_size x - s2) by (unfold wrap; rewrite Z.mod_small; lia).
    set (x' := set_available_size _ x).
    assert (heap_at heap x' (extent l)) as Hg' by by apply (heap_at_same heap x x').
    eapply (wp_merge_behind (x := x') m k s ((s2, false) :: r2) C R _ f1 f2 n r2 s2 p); [exact Hsh|exact Hd|exact Hg'|exact Hsz|exact Ep|done..|].
    intros m' C' R' Hsh' Hd'. eapply (wp_shrink_insert x' m' k (s + 24 + s2) r2); [exact Hsh'|exact Hd'| | | |done|lia| |intros; by eapply HQ].
    + unfold frees_with in *. change (start_addr x') with (start_addr x). rewrite <- Ep in *. fold n in Hf. simpl in Hf |- *.
      replace (p + 24 + (s + 24 + s2)) with (n + 24 + s2) by (unfold n; lia).
      rewrite <- !Permutation_middle in Hf. by apply Permutation_cons_inv in Hf.
    + replace (extent (k ++ (s + 24 + s2, false) :: r2)) with (extent l); [done|]. unfold l. rewrite !extent_app. simpl. lia.
    + apply Forall_app. split; [done|]. apply Forall_cons. split; [simpl; lia|done].
    + unfold x', wrap. simpl. rewrite Z.mod_small; lia.
Qed.

Lemma wp_shrink_block h heap x l1 old l2 fr n :
  let l := l1 ++ (old, true) :: l2 in
  memheap_ok h heap x l fr → 12 <= n → n mod 4 = 0 → n + 36 <= old →
  wp (shrink_block heap (start_addr x + extent l1) n) h (λ _ h', ∃ x' fr', mstep h heap x l h' x' (shrunk l1 old n l2) fr').
Proof.
  intros l Hok Hn Hn4 Hle. pose proof Hok as [Hx Hg [Hav Hmax] Hseg Hmg Hf (C & R & Hsh0 & Hd) Hm].
  pose proof (memheap_open _ _ _ _ _ (shrunk l1 old n l2) _ _ Hok Hsh0) as Hsh. clear Hsh0.
  destruct (shrunk_facts l1 old n l2 Hseg Hmg Hn Hn4 Hle) as (Ee & Hseg' & Hmg' & Hft). fold l in Ee, Hft.
  pose proof (mseg_sizes _ Hseg) as Hsz. pose proof (mseg_sizes _ Hseg') as Hsz'. pose proof Hsz as (Hs1 & Ho & Hs2)%sizes_split.
  pose proof (free_total_range _ Hsz) as Hfl. pose proof (free_total_range _ Hsz') as Hfl'.
  pose proof (extent_pos _ Hs1). pose proof (extent_pos _ Hs2). pose proof Hg as [G1 G2 G3 _ _ _ _].
  assert (extent l = extent l1 + (24 + old + extent l2)) as El by (unfold l; by rewrite extent_app).
  set (a := start_addr x + extent l1). set (s := old - n - 24). assert (old = n + 24 + s) as Es by (unfold s; lia).
  rewrite (mheap_id heap x h Hx). unfold shrink_block.
  replace (u32 (a + n + RT_MEMHEAP_SIZE)) with (a + 24 + n) by (unfold RT_MEMHEAP_SIZE, wrap; rewrite Z.mod_small; lia).
  set (p := a + 24 + n).
  destruct (join_next s l2) as [s' r] eqn:Ej.
  assert (shrunk l1 old n l2 = (l1 ++ [(n, true)]) ++ (s', false) :: r) as Esh.
  { unfold shrunk. fold s. by rewrite Ej, <- app_assoc. }
  assert (free_total (shrunk l1 old n l2) = free_total l - next_free_size l2 + s') as Eft.
  { rewrite Esh. unfold l. rewrite !free_total_app. simpl.
    destruct (join_next_cases s l2) as [[Hl E]|(s2 & r2 & -> & E)]; rewrite E in Ej; injection Ej as <- <-; simpl; [|lia].
    destruct l2 as [|[? []] ?]; [simpl; lia..|done]. }
  assert (next_free_size l2 <= free_total l) as Hnf.
  { unfold l. rewrite free_total_app. simpl. pose proof (free_total_range _ Hs1).
    destruct l2 as [|[? []] ?]; simpl in *; [lia|pose proof (free_total_range _ Hs2); simpl in *; lia|].
    apply Forall_cons in Hs2 as [? Hs2]. pose proof (free_total_range _ Hs2). lia. }
  unfold l in Hsh, Hg, Hsz. rewrite Es in Hsh, Hg, Hsz.
  wp_step. eapply (wp_cut_block _ l1 n s true l2); [exact Hsh|exact Hd|exact Hg|exact Hsz|lia|lia|done|done|exact Hm| |].
  { intros c [_ Hc]. rewrite <- Es in Hc. eapply keep_off; [rewrite Ee; apply Hok|exact Hsz'|exact Hc|]. right. rewrite Esh.
    replace p with (start_addr x + extent (l1 ++ [(n, true)])) by (rewrite extent_app; unfold p, a; simpl; lia).
    apply boundary_at. }
  intros m1 C1 R1 Hsh1 Hd1 _ _.
  assert (l1 ++ (n, true) :: (s, false) :: l2 = (l1 ++ [(n, true)]) ++ (s, false) :: l2) as Ek by by rewrite <- app_assoc.
  rewrite Ek in Hsh1.
  eapply (wp_shrink_rest x m1 (l1 ++ [(n, true)]) s l2 C1 R1 fr p s' r); [exact Ej|exact Hsh1|exact Hd1| | | | | | |].
  { rewrite <- Ek. replace (extent (l1 ++ (n, true) :: (s, false) :: l2)) with (extent l); [apply Hok|]. rewrite El, extent_app. simpl. lia. }
  { rewrite <- Ek. apply Forall_app. split; [done|]. repeat (apply Forall_cons; split; [simpl; lia|]). done. }
  { rewrite extent_app. unfold p, a. simpl. lia. }
  { rewrite Hf. unfold l, frees_with. rewrite !frees_app, extent_app. simpl. rewrite app_nil_r.
    by replace (start_addr x + (extent l1 + (24 + n + 0)) + 24 + s) with (start_addr x + extent l1 + 24 + old) by lia. }
  { by rewrite Hav. }
  { rewrite Hav, <- Eft. lia. }
  intros m2 C2 R2 fr2 Hsh2 Hd2 Hf2. rewrite <- Esh in *. rewrite <- (mheap_id heap x h Hx). rewrite Hav, <- Eft.
  eexists _, fr2. eapply (mstep_close h heap x l _ m2 (shrunk l1 old n l2) fr2 C2 R2); try done; [apply Hok|by rewrite <- Es in Hsh2|].
  split; simpl; [done|lia].
Qed.

(** * Moving a block *)

Lemma used_bytes_cons start s l b :
  used_bytes start (s :: l) b ↔ (s.2 = true ∧ start + 24 <= b < start + 24 + s.1) ∨ used_bytes (start + 24 + s.1) l b.
Proof.
  split.
  - intros ([|s' k1] & sz & k2 & E & Hb); injection E as -> E; [left; simpl in *; split; [done|lia]|].
    right. exists k1, sz, k2. split; [done|]. simpl in Hb. lia.
  - intros [[Hu Hb]|(k1 & sz & k2 & -> & Hb)].
    + exists [], s.1, l. destruct s; simpl in *. subst. split; [done|lia].
    + exists (s :: k1), sz, k2. split; [done|]. simpl. lia.
Qed.

Lemma used_bytes_nil start b : ¬ used_bytes start [] b.
Proof. intros ([] & ? & ? & ? & _); done. Qed.

Lemma used_bytes_app start l1 l2 b : used_bytes start (l1 ++ l2) b ↔ used_bytes start l1 b ∨ used_bytes (start + extent l1) l2 b.
Proof.
  revert start. induction l1 as [|s l1 IH]; intros start; simpl.
  - rewrite Z.add_0_r. split; [by right|]. intros [?%used_bytes_nil|?]; done.
  - rewrite !used_bytes_cons, IH, shift_extent. tauto.
Qed.

(** What other blocks hold is still in use after a release. *)
Lemma used_bytes_release start l1 sz l2 b :
  used_bytes start (l1 ++ (sz, true) :: l2) b → ¬ (start + extent l1 + 24 <= b < start + extent l1 + 24 + sz) →
  used_bytes start (release l1 sz l2) b.
Proof.
  rewrite used_bytes_app, used_bytes_cons. simpl. intros Hu Hn. unfold release.
  destruct (join_prev_cases l1 sz) as [[_ ->]|(k & s0 & -> & ->)].
  - destruct (join_next_cases sz l2) as [[_ ->]|(s2 & r & -> & ->)]; rewrite used_bytes_app, used_bytes_cons; simpl; [tauto|].
    rewrite used_bytes_cons in Hu. simpl in Hu.
    replace (start + extent l1 + 24 + (sz + 24 + s2)) with (start + extent l1 + 24 + sz + 24 + s2) by lia.
    destruct Hu as [?|[[_ ?]|[[? _]|?]]]; [tauto|done|done|tauto].
  - rewrite used_bytes_app, used_bytes_cons, extent_app in Hu. simpl in Hu. rewrite extent_app in Hn. simpl in Hn.
    replace (start + (extent k + (24 + s0 + 0))) with (start + extent k + 24 + s0) in Hu, Hn by lia.
    assert (used_bytes start k b ∨ used_bytes (start + extent k + 24 + s0 + 24 + sz) l2 b) as Hu'.
    { destruct Hu as [[?|[[? _]|?%used_bytes_nil]]|[[_ ?]|?]]; [tauto|done|done|lia|tauto]. }
    replace (start + extent k + 24 + s0 + 24 + sz) with (start + extent k + 24 + (s0 + 24 + sz)) in Hu' by lia.
    destruct (join_next_cases (s0 + 24 + sz) l2) as [[_ ->]|(s2 & r & -> & ->)]; rewrite used_bytes_app, used_bytes_cons; simpl; [tauto|].
    rewrite used_bytes_cons in Hu'. simpl in Hu'.
    replace (start + extent k + 24 + (s0 + 24 + sz + 24 + s2)) with (start + extent k + 24 + (s0 + 24 + sz) + 24 + s2) by lia.
    destruct Hu' as [?|[[? _]|?]]; [tauto|done|tauto].
Qed.

(** A block in use stays where it is while another one is allocated. *)
Lemma carve_stays l1 old l2 k sz k' n :
  l1 ++ (old, true) :: l2 = k ++ (sz, false) :: k' →
  ∃ b1 b2, k ++ mcarve n sz ++ k' = b1 ++ (old, true) :: b2 ∧ extent b1 = extent l1.
Proof.
  intros E. destruct (app_eq_inv _ _ _ _ E) as [(j & -> & Ej)|(j & -> & Ej)]; destruct j as [|s j]; simplify_eq/=.
  - exists (k ++ mcarve n sz ++ j), l2. rewrite <- !app_assoc. split; [done|]. rewrite !extent_app, mcarve_extent. simpl. lia.
  - exists l1, (j ++ mcarve n sz ++ k'). by rewrite <- app_assoc.
Qed.

Lemma used_bytes_mapped heap x l m b :
  heap_at heap x (extent l) → sizes l → mapped m (start_addr x) (Z.to_nat (pool_size x)) →
  used_bytes (start_addr x) l b → is_Some (m !! b).
Proof.
  intros [G1 G2 G3 _ _ _ _] Hs Hm (l1 & sz & l2 & -> & Hb). apply Hm. rewrite extent_app in G2. simpl in G2.
  apply sizes_split in Hs as (Hs1 & _ & Hs2). pose proof (extent_pos _ Hs1). pose proof (extent_pos _ Hs2). lia.
Qed.

Lemma used_inside heap x l b :
  heap_at heap x (extent l) → sizes l → used_bytes (start_addr x) l b → ¬ outside heap x b.
Proof.
  intros [G1 G2 G3 _ _ _ _] Hs (l1 & sz & l2 & -> & Hb) [[] _]. rewrite extent_app in G2. simpl in G2.
  apply sizes_split in Hs as (Hs1 & _ & Hs2). pose proof (extent_pos _ Hs1). pose proof (extent_pos _ Hs2). lia.
Qed.

Lemma pool_bytes D m0 m C R : pool D m0 m C R → bytes_ok m.
Proof. intros (hm & Hv & _). apply (vw_bytes Hv). Qed.

(** Writing data into a block keeps the heap. *)
Lemma memheap_write h heap x l fr a bs :
  memheap_ok h heap x l fr → Forall byte bs → bs ≠ [] →
  (∀ b, a <= b < a + Z.of_nat (length bs) → used_bytes (start_addr x) l b) →
  memheap_ok (set_mem_bytes (store a bs (mem_bytes h)) h) heap x l fr.
Proof.
  intros [Hx Hg Hc Hseg Hmg Hf (C & R & [(hm & [V1 V2 V3 V4 V5 V6] & -> & ->) Hr Hk] & Hd) Hm] Hbs Hne Hu.
  assert (0 < Z.of_nat (length bs)) by (destruct bs; [done|simpl; lia]).
  split; try done; [|by apply mapped_store].
  exists (fst <$> hm), (snd <$> hm). split; [|done]. split; [|done|done]. exists hm. split; [|done]. split; try done.
  - intros p y Hp. assert (item_addr heap (start_addr x) l p) as Hpa by (apply Hk; rewrite lookup_fmap, Hp; by eexists).
    apply item_frame; [|by apply V1].
    destruct (decide (a + Z.of_nat (length bs) <= p ∨ p + 24 <= a)) as [|Hno]; [done|]. exfalso.
    destruct (keep_off heap x l (Z.max a p) p Hg (mseg_sizes _ Hseg)); [left; apply Hu; lia|done|lia|lia].
  - by apply bytes_ok_store.
Qed.

(** What [move_block] has done: [n] bytes at [r] are new, the contents of the block of [old]
    bytes behind [l1] are there, the old block is released. *)
Definition moved (h : small_mem) (heap : Z) (x : rt_memheap) (l1 : list seg) (old : Z) (l2 : list seg) (fr : list Z) (n r : Z)
    (h' : small_mem) : Prop :=
  let l := l1 ++ (old, true) :: l2 in
  let start := start_addr x in
  ∃ h1 x1 fr1 k1 k2 x' fr',
    allocated h heap x l fr n (r - 24) h1 x1 (k1 ++ (old, true) :: k2) fr1 ∧ extent k1 = extent l1 ∧
    memheap_ok h' heap x' (release k1 old k2) fr' ∧ start_addr x' = start ∧ pool_size x' = pool_size x ∧
    (∀ b, r <= b < r + n → used_bytes start (release k1 old k2) b ∧ ¬ used_bytes start l b) ∧
    (∀ i, 0 <= i < old → mem_bytes h' !! (r + i) = mem_bytes h !! (start + extent l1 + 24 + i)) ∧
    ∀ b, keep heap x l b → ¬ (start + extent l1 + 24 <= b < start + extent l1 + 24 + old) →
      mem_bytes h' !! b = mem_bytes h !! b.

Lemma block_bytes start l1 old l2 b :
  start + extent l1 + 24 <= b < start + extent l1 + 24 + old → used_bytes start (l1 ++ (old, true) :: l2) b.
Proof. intros Hb. by exists l1, old, l2. Qed.

(** The contents of a block in use. *)
Lemma block_contents h heap x l1 old l2 fr :
  let p := start_addr x + extent l1 + 24 in
  memheap_ok h heap x (l1 ++ (old, true) :: l2) fr →
  ∃ bs, length bs = Z.to_nat old ∧ bytes_at (mem_bytes h) p bs ∧ Forall byte bs.
Proof.
  intros p Hok. pose proof Hok as [_ Hg _ Hseg _ _ (C & R & [Hp _ _] & _) Hm]. apply mseg_sizes in Hseg.
  assert (0 <= old) by by apply sizes_split in Hseg as (_ & ? & _).
  apply mapped_bytes_ok; [by eapply pool_bytes|]. intros b Hb. eapply used_bytes_mapped; [exact Hg|done|exact Hm|].
  apply block_bytes. fold p. lia.
Qed.

(** [rt_memcpy] from the old block to the new one, which was free. *)
Lemma wp_copy_block k h heap x l x0 l0 fr r p old bs (Q : outcome Z → kernel → Prop) (rest : K (outcome Z)) :
  memheap_ok h heap x l fr → start_addr x = start_addr x0 → length bs = Z.to_nat old → 0 < old →
  bytes_at (mem_bytes h) p bs → Forall byte bs →
  (∀ b, p <= b < p + old → used_bytes (start_addr x0) l0 b) →
  (∀ b, r <= b < r + old → used_bytes (start_addr x0) l b ∧ ¬ used_bytes (start_addr x0) l0 b) →
  (let h2 := set_mem_bytes (store r bs (mem_bytes h)) h in
    memheap_ok h2 heap x l fr → wp rest (set_sysmem h2 k) Q) →
  wp (on_mem (on_bytes (rt_memcpy r p old));; rest) (set_sysmem h k) Q.
Proof.
  intros Hok Ex Hlb Ho Hbs Hby Hold Hnew HQ. wp_step. unfold on_mem, on_bytes. wp_step. wp_step. simpl.
  replace old with (Z.of_nat (length bs)) at 1 by lia.
  eapply wp_mono; [apply rt_memcpy_spec; [exact Hbs|exact Hby|..]|].
  { intros b Hb. pose proof Hok as [_ Hg1 _ Hs1 _ _ _ Hm1]. eapply used_bytes_mapped; [exact Hg1|by apply mseg_sizes|exact Hm1|].
    rewrite Ex. apply Hnew. lia. }
  { destruct (decide (r + Z.of_nat (length bs) <= p ∨ p + Z.of_nat (length bs) <= r)) as [|Hno]; [done|]. exfalso.
    destruct (Hnew (Z.max p r)) as [_ []]; [lia|]. apply Hold. lia. }
  intros r' m2 [-> ->]. apply HQ.
  apply memheap_write; [done|done|by intros ->; simpl in *; lia|]. rewrite Ex. intros b Hb. apply Hnew. lia.
Qed.

Lemma wp_move_block k L heap x l1 old l2 fr n :
  let l := l1 ++ (old, true) :: l2 in
  lock_free k L heap → memheap_ok (sysmem k) heap x l fr → 0 <= n <= 2 ^ 32 - 4 → request n = n → old < n →
  wp (move_block heap (start_addr x + extent l1 + 24) old n) k (λ out k', ∃ r h', out = Return r ∧ k' = set_sysmem h' k ∧
    ((r ≠ 0 ∧ moved (sysmem k) heap x l1 old l2 fr n r h') ∨
     r = 0 ∧ h' = sysmem k ∧ (available_size x <= n ∨ first_free (start_addr x) l n fr))).
Proof.
  intros l Hl Hok Hn En Hlt. set (h := sysmem k). set (p := start_addr x + extent l1 + 24). unfold move_block.
  wp_step. eapply wp_mono; [by apply (wp_memheap_alloc k L heap x l fr n)|]. rewrite En.
  intros out k1 (r & h1 & -> & -> & [(x1 & l'' & fr1 & Hr & Hal)|(-> & -> & Hff)]); simpl; cycle 1.
  { wp_step. exists 0, (sysmem k). split_and!; [done|by destruct k|]. by right. }
  rewrite (proj2 (Z.eqb_neq _ _) Hr). pose proof (mseg_sizes _ (mo_segs _ _ _ _ _ Hok)) as Hsz.
  pose proof Hal as (f1 & f2 & a1 & sz & a2 & Ef & El & Ea & Hle & _ & El'' & _ & [Hok1 Hsame E1 E2 Hd1]).
  destruct (carve_stays _ _ _ _ _ _ n El) as (k1 & k2 & Ek & Ekl). rewrite Ek in El''. subst l''.
  destruct (allocated_address _ _ _ _ _ _ _ _ _ _ _ Hok (proj1 Hn) Hal) as (_ & _ & _ & Hnew).
  replace (r - 24 + 24) with r in Hnew by lia.
  assert (0 < old) as Ho0. { destruct Hok as [_ _ _ Hg _ _ _ _]. apply Forall_app in Hg as [_ [[? _] _]%Forall_cons]. simpl in *. lia. }
  assert (∀ b, keep heap x l b → mem_bytes h1 !! b = mem_bytes h !! b) as Hd1'.
  { intros b Hb. apply Hd1; [done|]. eapply keep_mono; [|exact Hb]. rewrite <- Ek, El. apply used_bytes_carve. }
  assert (∀ b, p <= b < p + old → used_bytes (start_addr x) l b) as Hpu by (intros b Hb; by apply block_bytes).
  destruct (block_contents _ _ _ _ _ _ _ Hok) as (bs & Hlb & Hbs & Hby). fold h p in Hbs.
  assert (bytes_at (mem_bytes h1) p bs) as Hbs1.
  { rewrite bytes_at_lookup in *. intros b Hb. rewrite Hd1' by (left; apply Hpu; lia). by apply Hbs. }
  rewrite (proj2 (Z.ltb_lt _ _) Hlt).
  eapply (wp_copy_block k h1 heap x1 _ x l); [exact Hok1|done|done|done|done|done|done|intros b Hb; apply Hnew; lia|].
  intros h2 Hok2.
  wp_step. replace p with (start_addr x1 + extent k1 + 24) by (unfold p; rewrite E1, Ekl; done).
  eapply wp_mono; [apply (wp_memheap_free (set_sysmem h2 k) L heap x1 k1 old k2 fr1); [by apply lock_free_mem|exact Hok2]|].
  intros o' k3 (h3 & x3 & fr3 & -> & -> & [Hok3 _ E3 E4 Hd3] & _). simpl. wp_step.
  exists r, h3. split; [done|]. split; [by destruct k|]. left. split; [done|].
  assert (∀ b, keep heap x (k1 ++ (old, true) :: k2) b → ¬ (p <= b < p + old) → mem_bytes h3 !! b = store r bs (mem_bytes h1) !! b) as Hd3'.
  { intros b Hb Hout. apply (Hd3 b); apply (keep_same heap x x1); try done. eapply keep_mono; [|exact Hb].
    intros Hu. apply used_bytes_release; [done|]. rewrite Ekl. exact Hout. }
  exists h1, x1, fr1, k1, k2, x3, fr3. split_and!; [done|done|done|by rewrite E3, E1|by rewrite E4, E2|..].
  - intros b Hb. destruct (Hnew b Hb) as [Hu Hnu]. split; [|done]. apply used_bytes_release; [done|]. rewrite Ekl.
    intros Hin. by apply Hnu, Hpu.
  - intros i Hi. rewrite Hd3'.
    + rewrite lookup_store_in by lia. rewrite bytes_at_lookup in Hbs. fold p. rewrite Hbs by lia. f_equal. lia.
    + left. apply Hnew. lia.
    + intros Hin. destruct (Hnew (r + i)) as [_ []]; [lia|]. by apply Hpu.
  - intros b Hb Hout. rewrite Hd3'; [|apply (keep_mono heap x l); [|exact Hb]; rewrite <- Ek, El; apply used_bytes_carve|done].
    rewrite lookup_store_out; [by apply Hd1'|]. intros Hin.
    destruct (Hnew b) as [Hu Hnu]; [lia|]. destruct Hb as [?|Hb]; [done|]. rewrite <- E1 in Hu.
    pose proof Hok1 as [_ Hg1 _ Hs1 _ _ _ _]. eapply (used_inside heap x1 _ b Hg1); [by apply mseg_sizes|exact Hu|].
    unfold outside in *. by rewrite E1, E2.
Qed.

(** * Reallocation *)

Lemma request_aligned n : 12 <= n → n mod 4 = 0 → request n = n.
Proof.
  intros Hn Hm. unfold request. pose proof (Z.div_mod n 4 ltac:(lia)). rewrite Hm in *.
  replace ((n + 3) / 4) with (n / 4); [lia|]. apply Z.div_unique with 3; lia.
Qed.

Lemma request_top size : 0 <= size <= 2 ^ 32 - 16 → request size <= 2 ^ 32 - 16.
Proof.
  intros Hs. unfold request. assert ((size + 3) / 4 < 2 ^ 30 - 3); [|lia]. apply Z.div_lt_upper_bound; lia.
Qed.

Lemma wp_block_size k heap x l1 s u l2 fr (Q : Z → kernel → Prop) :
  memheap_ok (sysmem k) heap x (l1 ++ (s, u) :: l2) fr → Q s k → wp (on_mem (MEMITEM_SIZE (start_addr x + extent l1))) k Q.
Proof.
  intros [Hx Hg _ Hseg _ _ (C & R & Hsh & _) _] HQ. pose proof (mseg_sizes _ Hseg) as Hsz.
  destruct (data_address heap x l1 (s, u) l2 Hg Hsz) as (_ & _ & _ & D3). simpl in D3.
  pose proof (shape_block l1 (s, u) l2 Hsh) as Ha. apply sizes_split in Hsz as (Hs1 & Ho & _). simpl in Ho, Ha.
  pose proof (extent_pos _ Hs1). destruct Hg as [G1 _ _ _ _ _ _].
  unfold on_mem. wp_step. rewrite (mheap_id heap x _ Hx).
  eapply (wp_item_size x _ C R _ _ s); [apply Hsh|exact Ha|done|lia|]. rewrite <- (mheap_id heap x _ Hx).
  by replace (set_sysmem (sysmem k) k) with k by by destruct k.
Qed.

(** C34: [rt_memheap_realloc] of a block in use, on every path.  The size 0 releases the
    block.  A block that has to be larger grows in place if the free block behind it is large
    enough; otherwise its contents move to a new block and it is released, or, if there is
    no new block, null is returned and nothing changes.  A block that has to be smaller
    stays, and is cut if the rest can be a block, which is joined with a free block behind
    it.  In every case the heap is well formed afterwards, the contents are kept up to the
    smaller of the two sizes, and no byte that belongs to another block in use or lies
    outside of the heap changes. *)
Theorem rt_memheap_realloc_spec k L heap x l1 old l2 fr newsize :
  let l := l1 ++ (old, true) :: l2 in
  let h := sysmem k in
  let p := start_addr x + extent l1 + 24 in
  let n := request newsize in
  lock_free k L heap → memheap_ok h heap x l fr → 0 <= newsize <= 2 ^ 32 - 16 →
  wp (rt_memheap_realloc heap p newsize) k (λ out k', ∃ r h', out = Return r ∧ k' = set_sysmem h' k ∧
    if newsize =? 0 then r = 0 ∧ ∃ x' fr', mstep h heap x l h' x' (release l1 old l2) fr'
    else if old <? n then
      if can_grow old n l2 then
        r = p ∧ ∃ x' fr', mstep h heap x l h' x' (grown l1 old n (next_free_size l2) (tail l2)) fr'
      else
        r ≠ 0 ∧ moved h heap x l1 old l2 fr n r h' ∨
        r = 0 ∧ h' = h ∧ (available_size x <= n ∨ first_free (start_addr x) l n fr)
    else if old <=? n + 36 then r = p ∧ h' = h
    else r = p ∧ ∃ x' fr', mstep h heap x l h' x' (shrunk l1 old n l2) fr').
Proof.
  intros l h p n Hl Hok Hs. destruct (mrequest_facts newsize) as (R1 & R2 & R3); [lia|]. fold n in R1, R2, R3.
  pose proof (request_top newsize Hs) as R4. fold n in R4.
  pose proof Hok as [_ Hg _ Hseg _ _ _ _]. pose proof (mseg_sizes _ Hseg) as Hsz.
  destruct (data_address heap x l1 (old, true) l2 Hg Hsz) as (D1 & D2 & D3 & D4). fold p in D1, D2, D3, D4. simpl in D4.
  unfold rt_memheap_realloc. destruct (Z.eqb_spec newsize 0) as [->|Hnz].
  { wp_step. eapply wp_mono; [by apply (wp_memheap_free k L heap x l1 old l2 fr)|].
    intros out k' (h' & x' & fr' & -> & -> & Hst & _). simpl. wp_step. exists 0, h'. split_and!; [done|done|done|by exists x', fr']. }
  rewrite align_request_spec by lia. fold n. rewrite (proj2 (Z.eqb_neq _ _) D1), D2.
  wp_step. eapply (wp_block_size k heap x l1 old true l2 fr); [exact Hok|]. destruct (Z.ltb_spec old n) as [Hlt|Hge].
  - apply (wp_lock k L); [done|]. destruct (can_grow old n l2) eqn:Hc.
    + destruct l2 as [|[s2 []] r]; try done. simpl in Hc. apply Z.ltb_lt in Hc.
      eapply (wp_held_resume (lf_running _ _ _ Hl) (lf_sem _ _ _ Hl)); [by apply (wp_grow_in_place (l1 := l1) (s2 := s2) (r := r) Hok)|].
      intros b h' (-> & x' & fr' & Hst). wp_step. exists p, h'. split_and!; [done|done|done|by exists x', fr'].
    + eapply (wp_held_resume (lf_running _ _ _ Hl) (lf_sem _ _ _ Hl)); [apply (wp_grow_not h heap x l1 old l2 fr n Hok); [lia|done]|].
      intros b h' [-> ->]. replace (set_sysmem h k) with k by by destruct k.
      apply (wp_move_block k L heap x l1 old l2 fr n); [done|done|lia|by apply request_aligned|done].
  - replace (u32 (n + RT_MEMHEAP_SIZE + RT_MEMHEAP_MINIALLOC)) with (n + 36)
      by (unfold RT_MEMHEAP_SIZE, RT_MEMHEAP_MINIALLOC, wrap; rewrite Z.mod_small; lia).
    destruct (Z.leb_spec old (n + 36)) as [Hle|Hgt].
    { wp_step. exists p, h. split_and!; [done|by destruct k|done|done]. }
    apply (wp_lock k L); [done|]. eapply (wp_held (lf_running _ _ _ Hl) (lf_sem _ _ _ Hl)).
    { apply (wp_shrink_block h heap x l1 old l2 fr n Hok R2 R3). lia. }
    intros [] h' (x' & fr' & Hst). wp_step. exists p, h'. split_and!; [done|done|done|by exists x', fr'].
Qed.
