(* ===== verification/MemHeapDemo.v ===== *)
(** Memory heaps: the set-up, a heap on which the theorems are instantiated, and what the code
    does with sizes that it does not foresee. *)

From Stdlib Require Import ZArith Lia.
From stdpp Require Import numbers strings base fin_maps gmap list.
From S2P Require Import Prelude Bytes Overlay KString RtList Bitmap Kernel Scheduler Object Timer Thread Ipc MemPool Mem MemHeap.
From S2P Require Import Invariant ThreadSpec Check Demo TimerSpec ThreadRun IpcSpec Semaphore MemSpec MemApi.
From S2P Require Import MemHeapSpec MemHeapApi MemHeapFree MemHeapRealloc.
Local Open Scope Z_scope.

(** * Set-up *)

Lemma dlist_single (R : lheap Z) hd : is_Some (R !! hd) → dlist (set_prev hd hd (set_next hd hd R)) hd [].
Proof.
  intros [c Hc]. split; [apply NoDup_singleton|]. simpl. split; [|done]. split.
  - rewrite next_set_prev, next_set_next, decide_True, Hc by done. done.
  - rewrite prev_set_prev, decide_True by done. unfold set_next. by rewrite lookup_alter_eq, Hc.
Qed.

(** Writes to the memory, one after the other, leave the last memory. *)
Ltac at_mheap m :=
  match goal with |- wp ?p ?s ?Q =>
    match s with context [mheap ?a ?x _ ?h] => change (wp p (mheap a x m h) Q) end end.

(** Lay an item and fill its core. *)
Lemma wp_lay_item {D m0 h heap A} x m C R p mg nx pv (rest : H A) (Q : A → small_mem → Prop) :
  pool D m0 m C R → is_Some (C !! p) → Forall word_ok [mg; heap; nx; pv] →
  (∀ m', pool D m0 m' (<[p := mk_core mg heap nx pv]> C) R → wp rest (mheap heap x m' h) Q) →
  wp (set_item_magic p mg;; set_item_pool_ptr p heap;; set_item_next p nx;; set_item_prev p pv;; rest) (mheap heap x m h) Q.
Proof.
  intros Hp [c Hc] Hw HQ. rewrite !Forall_cons in Hw. destruct Hw as (W1 & W2 & W3 & W4 & _).
  wp_step. eapply wp_set_item_magic; [exact Hp|exact Hc|done|]. intros m1 Hp1.
  wp_step. eapply wp_set_item_pool_ptr; [exact Hp1|apply lookup_insert_eq|done|]. rewrite insert_insert_eq. intros m2 Hp2.
  wp_step. eapply wp_set_item_next; [exact Hp2|apply lookup_insert_eq|done|]. rewrite insert_insert_eq. intros m3 Hp3.
  wp_step. eapply wp_set_item_prev; [exact Hp3|apply lookup_insert_eq|done|]. rewrite insert_insert_eq. intros m4 Hp4.
  by apply (HQ m4).
Qed.

Lemma wp_self_ring {D m0 h heap A} x m C R p (rest : H A) (Q : A → small_mem → Prop) :
  pool D m0 m C R → is_Some (C !! p) → word_ok p →
  (∀ m', pool D m0 m' C (set_prev p p (set_next p p R)) → wp rest (mheap heap x m' h) Q) →
  wp (set_item_next_free p p;; set_item_prev_free p p;; rest) (mheap heap x m h) Q.
Proof.
  intros Hp Sp Wp HQ. apply (pool_keys _ _ _ _ _ _ Hp) in Sp.
  wp_step. eapply wp_set_item_next_free; [exact Hp|done|done|]. intros m1 Hp1.
  wp_step. eapply wp_set_item_prev_free; [exact Hp1|by apply is_Some_set_next|done|]. intros m2 Hp2. by apply (HQ m2).
Qed.

(** There is room for the two headers and the free header. *)
Lemma setup_room m hd start n :
  let D b := ¬ (start <= b < start + n) ∧ ¬ (hd <= b < hd + 24) in
  48 <= n → hd + 24 <= start ∨ start + n <= hd → bytes_ok m → mapped m start (Z.to_nat n) → mapped m hd 24 →
  ∃ c1 c2 c3 n1 n2 n3,
    pool D m m (<[start + n - 24 := c3]> (<[start := c2]> (<[hd := c1]> ∅)))
      (<[start + n - 24 := n3]> (<[start := n2]> (<[hd := n1]> ∅))).
Proof.
  intros D Hn Hap Hby Hm Hmh.
  assert (pool D m m ∅ ∅) as Hp0 by (exists ∅; split; [by split|by rewrite !fmap_empty]).
  destruct (pool_new D m m ∅ ∅ hd Hp0 Hmh) as (c1 & n1 & Hp1); [by intros q [? ?]|unfold D; lia|].
  destruct (pool_new D m m _ _ start Hp1) as (c2 & n2 & Hp2).
  { eapply mapped_le; [exact Hm|lia|lia]. }
  { intros q [->|[? ?]]%lookup_insert_is_Some'; [lia|done]. }
  { unfold D. lia. }
  destruct (pool_new D m m _ _ (start + n - 24) Hp2) as (c3 & n3 & Hp3).
  { eapply mapped_le; [exact Hm|lia|lia]. }
  { intros q [->|[->|[? ?]]%lookup_insert_is_Some']%lookup_insert_is_Some'; [lia|lia|done]. }
  { unfold D. lia. }
  by exists c1, c2, c3, n1, n2, n3.
Qed.

(** A heap of one free block. *)
Lemma one_block D m0 m h heap x C R c :
  let start := start_addr x in
  let n := pool_size x in
  let tail := start + n - 24 in
  heap_at heap x (n - 24) → 60 <= n → n mod 4 = 0 → available_size x = n - 48 → max_used_size x = 48 →
  pool D m0 m (<[tail := blk heap true start start]> (<[start := blk heap false tail tail]> (<[free_header heap := c]> C))) R →
  (∀ q, is_Some (C !! q) → q = tail ∨ q = start ∨ q = free_header heap) → dlist R (free_header heap) [start] → mapped m0 start (Z.to_nat n) →
  memheap_ok (mheap heap x m h) heap x [(n - 48, false)] [start].
Proof.
  intros start n tail Hg Hn Hn4 Hav Hmax Hp Hno Hd Hm. set (l := [(n - 48, false)] : list seg).
  assert (extent l = n - 24) as El by (simpl; lia). assert (start ≠ tail) as Ne by (unfold tail; lia).
  split; [apply lookup_insert_eq|by rewrite El|split; rewrite ?Hav, ?Hmax; unfold n in *; simpl; lia| |done|simpl; done| |by eapply pool_mapped].
  - apply Forall_singleton. split; simpl; [lia|]. rewrite Zminus_mod, Hn4. done.
  - eexists _, R. split; [split|exact Hd].
    + eapply pool_rebase; [exact Hp|done].
    + unfold rows. fold start. rewrite El. replace (start + (n - 24)) with tail by (unfold tail; lia). simpl.
      replace (start + 24 + (n - 48)) with tail by (unfold tail; lia).
      split; [rewrite lookup_insert_ne by done|]; apply lookup_insert_eq.
    + intros q Hq. assert (q = tail ∨ q = start ∨ q = free_header heap) as [->|[->| ->]].
      { repeat (apply lookup_insert_is_Some' in Hq as [<-|Hq]; [tauto|]). by apply Hno. }
      * right. exists l, []. split; [done|]. rewrite El. unfold tail. fold start. lia.
      * right. apply boundary_here.
      * by left.
Qed.

Lemma wp_memheap_setup h heap start size :
  let n := 4 * (size / 4) in
  0 <= size < 2 ^ 32 → 60 <= n → 0 < start → start + n <= 2 ^ 32 → 0 < heap → heap + 72 <= 2 ^ 32 →
  heap + 72 <= start ∨ start + n <= free_header heap →
  bytes_ok (mem_bytes h) → mapped (mem_bytes h) start (Z.to_nat n) → mapped (mem_bytes h) (free_header heap) 24 →
  wp (memheap_setup heap start size) h (λ _ h', ∃ x,
    start_addr x = start ∧ pool_size x = n ∧ memheap_ok h' heap x [(n - 48, false)] [start] ∧
    h' = mheap heap x (mem_bytes h') h ∧ ∀ b, outside heap x b → mem_bytes h' !! b = mem_bytes h !! b).
Proof.
  intros n Hsz Hn Hst Htop Hh Hh2 Hap Hby Hm Hmh. set (m := mem_bytes h) in *. set (hd := free_header heap) in *.
  assert (hd = heap + 48) as Ehd by done.
  set (D b := ¬ (start <= b < start + n) ∧ ¬ (hd <= b < hd + 24)).
  destruct (setup_room m hd start n) as (c1 & c2 & c3 & n1 & n2 & n3 & Hp3); [lia|lia|done..|]. fold D in Hp3.
  set (tail := start + n - 24) in *.
  unfold memheap_setup, RT_MEMHEAP_SIZE. rewrite RT_ALIGN_DOWN_4 by lia. fold n hd.
  replace (u32 (n - 2 * 24)) with (n - 48) by (unfold wrap; rewrite Z.mod_small; lia).
  replace (u32 (n - (n - 48))) with 48 by (unfold wrap; rewrite Z.mod_small; lia).
  wp_step. wp_step. set (x0 := mk_memheap start n (n - 48) 48 0 0).
  replace (set_memheaps _ h) with (mheap heap x0 m h) by (by destruct h).
  assert (hd ≠ start ∧ hd ≠ tail ∧ start ≠ tail) as (N1 & N2 & N3) by (unfold tail; lia).
  assert (word_ok hd ∧ word_ok start ∧ word_ok tail ∧ word_ok heap) as (W1 & W2 & W3 & W4) by (unfold word_ok, tail; lia).
  eapply (wp_lay_item x0 m _ _ hd); [exact Hp3|by rewrite !lookup_insert_ne, lookup_insert_eq by done|
    by repeat (apply Forall_cons; split)|]. intros m1 H1.
  eapply wp_self_ring; [exact H1|by rewrite lookup_insert_eq|done|]. intros m2 H2.
  match type of H2 with pool _ _ _ _ ?R => assert (dlist R hd []) as Hd2 end.
  { apply dlist_single. by rewrite !lookup_insert_ne, lookup_insert_eq by done. }
  wp_step. apply wp_upd_memheap. simpl.
  eapply (wp_lay_item _ m2 _ _ start); [exact H2|by rewrite lookup_insert_ne, lookup_insert_ne, lookup_insert_eq by done|
    by repeat (apply Forall_cons; split)|]. intros m3 H3.
  eapply wp_self_ring; [exact H3|by rewrite lookup_insert_eq|done|]. intros m4 H4.
  replace (u32 (start + (n - 48) + 24)) with tail by (unfold tail, wrap; rewrite Z.mod_small; lia).
  wp_step. eapply wp_set_item_next; [exact H4|apply lookup_insert_eq|done|]. rewrite insert_insert_eq. intros m5 H5.
  wp_step. eapply wp_item_next; [exact H5|apply lookup_insert_eq|].
  wp_step. eapply wp_set_item_prev; [exact H5|apply lookup_insert_eq|done|]. rewrite insert_insert_eq. intros m6 H6.
  wp_step. at_mheap m6. apply wp_upd_memheap. simpl.
  match goal with |- wp _ (mheap _ ?x _ _) _ => set (x1 := x) end.
  wp_step. eapply (wp_insert_free x1 m6 _ _ [] start); [exact H6| | |by rewrite lookup_insert_eq|by repeat (apply Forall_cons; split)|].
  { eapply (dlist_off _ _ hd [] start); [set_solver| |exact Hd2]. intros i Hi. by rewrite set_prev_other, set_next_other. }
  { simpl. set_solver. }
  intros m7 R7 H7 Hd7. simpl in Hd7.
  wp_step. eapply wp_item_next; [exact H7|apply lookup_insert_eq|]. simpl c_next.
  at_mheap m7. change (Z.lor RT_MEMHEAP_MAGIC RT_MEMHEAP_USED) with (RT_MEMHEAP_MAGIC + 1).
  eapply (wp_lay_item x1 m7 _ _ tail); [exact H7|by rewrite !lookup_insert_ne, lookup_insert_eq by done|
    by repeat (apply Forall_cons; split)|]. intros m8 H8.
  assert (is_Some (R7 !! tail)) as S7 by (apply (pool_keys _ _ _ _ _ _ H8); by rewrite lookup_insert_eq).
  wp_step. eapply wp_set_item_prev_free; [exact H8|done|done|]. intros m9 H9.
  eapply wp_set_item_next_free; [exact H9|by apply is_Some_set_prev|done|]. intros m10 H10.
  match goal with |- context [set_mem_bytes m10 ?s] => change (set_mem_bytes m10 s) with (mheap heap x1 m10 h) end.
  exists x1. split; [done|]. split; [done|]. split; [|split; [done|]].
    match type of H10 with pool _ _ _ (<[_ := _]> (<[_ := _]> (<[_ := ?c]> ?C))) ?R =>
      pose proof (one_block D m m10 h heap x1 C R c) as Hone end.
    apply Hone; [split; simpl; try done; lia|done| |done|done|exact H10| | |exact Hm].
    { simpl. unfold n. rewrite Z.mul_comm. apply Z_mod_mult. }
    { intros q Hq. repeat (apply lookup_insert_is_Some' in Hq as [<-|Hq]; [tauto|]). by destruct Hq. }
    eapply (dlist_off R7 _ hd [start] tail); [set_solver| |exact Hd7]. intros i Hi.
    by rewrite set_next_other, set_prev_other.
  - intros b Hb. eapply pool_data; [exact H10|exact Hb].
Qed.

(** C35: [rt_memheap_init] lays out a well-formed heap: from memory that has room for the two
    headers and the smallest block, whatever it holds, and a free header outside of it, one
    free block of all the memory between the headers.  Nothing outside of the heap
    changes. *)
Theorem memheap_setup_spec h heap start size :
  let n := 4 * (size / 4) in
  0 <= size < 2 ^ 32 → 60 <= n → 0 < start → start + n <= 2 ^ 32 → 0 < heap → heap + 72 <= 2 ^ 32 →
  heap + 72 <= start ∨ start + n <= free_header heap →
  bytes_ok (mem_bytes h) → mapped (mem_bytes h) start (Z.to_nat n) → mapped (mem_bytes h) (free_header heap) 24 →
  wp (memheap_setup heap start size) h (λ _ h', ∃ x,
    start_addr x = start ∧ pool_size x = n ∧ memheap_ok h' heap x [(n - 48, false)] [start] ∧
    h' = mheap heap x (mem_bytes h') h ∧ ∀ b, outside heap x b → mem_bytes h' !! b = mem_bytes h !! b).
Proof. apply wp_memheap_setup. Qed.

(** * Instances *)

(** A heap of 200 bytes at 1000 behind the boot, with a block of 12 bytes in use; its
    [struct rt_memheap] is at 100. *)
Definition mh_boot : kernel :=
  set_sysmem (mk_small_mem 0 0 0 0 0 0 ∅ (ram_of 100 (replicate 72 170) ∪ ram_of 1000 (replicate 240 170)))
    (set_heap (heap booted ∪ static_heap [O_sem 100; O_memheap 100]) booted).
Definition mh_new : kernel := run (rt_memheap_init 100 "mh" 1000 200) mh_boot.
Definition mh_demo : kernel := run (rt_memheap_alloc 100 10) mh_new.
Definition mh_record : rt_memheap := mk_memheap 1000 200 116 84 1000 148.

Lemma run_wp {A} (m : K A) k k' (Q : A → kernel → Prop) : k' = run m k → wp m k Q → ∃ a, Q a k'.
Proof. intros ->. unfold wp, run. destruct (m k) as [[a k1]|]; [by exists a|done]. Qed.

Lemma mh_new_setup :
  wp (memheap_setup 100 1000 200) (sysmem mh_boot) (λ _ h', h' = sysmem mh_new).
Proof. by vm_compute. Qed.

Lemma mh_room :
  bytes_ok (mem_bytes (sysmem mh_boot)) ∧ mapped (mem_bytes (sysmem mh_boot)) 1000 200 ∧
  mapped (mem_bytes (sysmem mh_boot)) 148 24.
Proof. split_and!; [apply bytes_ok_b|apply mapped_b|apply mapped_b]; by vm_compute. Qed.

Lemma mh_new_ok : memheap_ok (sysmem mh_new) 100 (mk_memheap 1000 200 152 48 1000 148) [(152, false)] [1000].
Proof.
  assert (memheaps (sysmem mh_new) !! 100 = Some (mk_memheap 1000 200 152 48 1000 148)) as Hx by by vm_compute.
  destruct mh_room as (H1 & H2 & H3). pose proof mh_new_setup as Hs.
  revert H1 H2 H3 Hs Hx. generalize (sysmem mh_new) as h', (sysmem mh_boot) as h. intros h' h H1 H2 H3 Hs Hx.
  assert (wp (memheap_setup 100 1000 200) h (λ _ h1, ∃ x, memheap_ok h1 100 x [(152, false)] [1000])) as Hw.
  { eapply wp_mono; [apply (wp_memheap_setup h 100 1000 200); [lia|done|lia|done|lia|done|by left|exact H1|exact H2|exact H3]|].
    intros _ h1 (x & _ & _ & Hok & _). by exists x. }
  unfold wp in *. destruct (memheap_setup 100 1000 200 h) as [[? h1]|]; [subst h1|done].
  destruct Hw as [x Hok]. pose proof (mo_heap _ _ _ _ _ Hok) as E. rewrite Hx in E. by injection E as <-.
Qed.

Ltac lock_is_free := split; [apply running_b_spec; by vm_compute|
  split; [by vm_compute|lia|apply ipc_ok_b_spec; by vm_compute|by vm_compute]].

Lemma mh_new_free : lock_free mh_new (lists_at mh_new) 100.
Proof. lock_is_free. Qed.
Lemma mh_demo_free : lock_free mh_demo (lists_at mh_demo) 100.
Proof. lock_is_free. Qed.

Lemma mh_demo_run : mh_demo = run (rt_memheap_alloc 100 10) mh_new.
Proof. reflexivity. Qed.

(** The block of a fresh heap is cut. *)
Lemma alloc_first k k' L x x' n :
  lock_free k L 100 → memheap_ok (sysmem k) 100 x [(152, false)] [1000] → 0 <= n <= 2 ^ 32 - 4 →
  k' = run (rt_memheap_alloc 100 n) k → memheaps (sysmem k') !! 100 = Some x' → x' ≠ x →
  ∃ fr', memheap_ok (sysmem k') 100 x' (mcarve (request n) 152) fr'.
Proof.
  intros Hl Hok Hn Ek Hx Hne. pose proof (wp_memheap_alloc k L 100 _ _ _ n Hl Hok Hn) as Hw.
  destruct (run_wp _ k k' _ Ek Hw) as (out & r & h' & _ & -> & [(y & l' & fr' & _ & Hal)|(_ & -> & _)]); simpl in *.
  - destruct Hal as (f1 & f2 & l1 & sz & l2 & Ef & El & _ & _ & _ & -> & _ & Hst). apply mt_ok in Hst.
    pose proof (mo_heap _ _ _ _ _ Hst) as Ex. rewrite Hx in Ex. injection Ex as <-. exists fr'.
    assert (l1 = [] ∧ sz = 152 ∧ l2 = []) as (-> & -> & ->) by (destruct l1 as [|? [|? ?]]; simplify_eq/=; done).
    by rewrite app_nil_r in Hst.
  - destruct Hne. pose proof (mo_heap _ _ _ _ _ Hok) as Ex. rewrite Hx in Ex. by injection Ex.
Qed.

Lemma mh_demo_record : memheaps (sysmem mh_demo) !! 100 = Some mh_record.
Proof. by vm_compute. Qed.

Lemma mh_demo_ok : memheap_ok (sysmem mh_demo) 100 mh_record [(12, true); (116, false)] [1036].
Proof.
  destruct (alloc_first mh_new mh_demo _ _ mh_record 10 mh_new_free mh_new_ok ltac:(done) mh_demo_run mh_demo_record ltac:(done)) as [fr Hok].
  generalize dependent mh_demo. intros k Hok.
  pose proof (mo_frees _ _ _ _ _ Hok) as Efr. by apply Permutation_singleton_r in Efr as ->.
Qed.

Lemma rt_memheap_alloc_witness : wp (rt_memheap_alloc 100 5) mh_demo (λ out _, out = Return 1060 ∨ out = Return 0).
Proof.
  eapply wp_mono.
  - apply (rt_memheap_alloc_spec mh_demo (lists_at mh_demo) 100 mh_record [(12, true); (116, false)] [1036] 5).
    + exact mh_demo_free.
    + exact mh_demo_ok.
    + lia.
  - generalize mh_demo. intros k out k' (r & h' & -> & _ & H). destruct H as [(x' & l' & fr' & Hal & _)|(-> & _)]; [left|by right].
    destruct Hal as (f1 & f2 & l1 & sz & l2 & Ef & _). f_equal. destruct f1 as [|? [|? ?]]; simplify_eq/=. lia.
Defined.

Lemma rt_memheap_free_witness :
  wp (rt_memheap_free 1024) mh_demo (λ out k', ∃ x fr, out = Return tt ∧ memheap_ok (sysmem k') 100 x [(152, false)] fr).
Proof.
  eapply wp_mono.
  - apply (rt_memheap_free_spec mh_demo (lists_at mh_demo) 100 mh_record [] 12 [(116, false)] [1036]).
    + exact mh_demo_free.
    + exact mh_demo_ok.
  - generalize mh_demo. intros k out k' (h' & x' & fr' & -> & -> & H & _). exists x', fr'.
    split; [reflexivity|exact (mt_ok _ _ _ _ _ _ _ _ H)].
Defined.

Lemma rt_memheap_alloc_free_roundtrip_witness :
  wp (o ← rt_memheap_alloc 100 20; after o (λ p, o ← rt_memheap_free p; after o (λ _, mret (Return p)))) mh_demo (λ _ k',
    ∃ x fr, memheap_ok (sysmem k') 100 x [(12, true); (116, false)] fr).
Proof.
  eapply wp_mono.
  - apply (rt_memheap_alloc_free_roundtrip mh_demo (lists_at mh_demo) 100 mh_record [(12, true); (116, false)] [1036] 20).
    + exact mh_demo_free.
    + exact mh_demo_ok.
    + lia.
  - generalize mh_demo. intros k out k' (p & h' & x' & fr' & _ & -> & H & _). exists x', fr'. exact H.
Defined.

Lemma rt_memheap_realloc_witness :
  wp (rt_memheap_realloc 100 1024 50) mh_demo (λ out k', ∃ x fr,
    out = Return 1024 ∧ memheap_ok (sysmem k') 100 x [(52, true); (76, false)] fr).
Proof.
  eapply wp_mono.
  - apply (rt_memheap_realloc_spec mh_demo (lists_at mh_demo) 100 mh_record [] 12 [(116, false)] [1036] 50).
    + exact mh_demo_free.
    + exact mh_demo_ok.
    + lia.
  - generalize mh_demo. intros k out k' (r & h' & -> & -> & H). destruct H as (-> & x' & fr' & H). exists x', fr'.
    split; [reflexivity|exact (mt_ok _ _ _ _ _ _ _ _ H)].
Defined.

Lemma memheap_setup_witness :
  wp (memheap_setup 100 1000 200) (sysmem mh_boot) (λ _ h', ∃ x, memheap_ok h' 100 x [(152, false)] [1000]).
Proof.
  destruct mh_room as (H1 & H2 & H3). eapply wp_mono.
  - apply (memheap_setup_spec (sysmem mh_boot) 100 1000 200).
    + lia.
    + done.
    + lia.
    + done.
    + lia.
    + lia.
    + left. done.
    + exact H1.
    + exact H2.
    + exact H3.
  - generalize mh_boot. intros k _ h' (x & _ & _ & H & _). exists x. exact H.
Defined.

(** * Sizes that the code does not foresee *)

(** All that is available is more than [rt_memheap_alloc] gives: the comparison with
    [available_size] is strict. *)
Example rt_memheap_alloc_not_all :
  wp (rt_memheap_alloc 100 152) mh_new (λ out k', out = Return 0 ∧
    available_size <$> memheaps (sysmem k') !! 100 = Some 152).
Proof. by vm_compute. Qed.

(** The alignment of a request of 2^32 - 1 bytes wraps: it gets the smallest block. *)
Example rt_memheap_alloc_wraps :
  wp (rt_memheap_alloc 100 (2 ^ 32 - 1)) mh_new (λ out k', out = Return 1024 ∧
    bytes_at (mem_bytes (sysmem k')) 1008 (le_bytes 4 1036)).
Proof. by vm_compute. Qed.

(** The size of the rest wraps in [rt_memheap_realloc]: a block in use of 12 bytes "grows" in
    place to 2^32 - 4 bytes, and the header of the free block behind it is laid over its
    data. *)
Example rt_memheap_realloc_wraps :
  wp (rt_memheap_realloc 100 1024 (2 ^ 32 - 4)) mh_demo (λ out k', out = Return 1024 ∧
    bytes_at (mem_bytes (sysmem k')) 1008 (le_bytes 4 1020) ∧
    bytes_at (mem_bytes (sysmem k')) 1024 (le_bytes 4 100)).
Proof. by vm_compute. Qed.

(** A pool of 40 bytes has no room for the two headers: [available_size] wraps, and the
    last header is laid over the first. *)
Example rt_memheap_init_small :
  wp (rt_memheap_init 100 "mh" 1000 40) mh_boot (λ r k', r = RT_EOK ∧
    available_size <$> memheaps (sysmem k') !! 100 = Some (2 ^ 32 - 8)).
Proof. by vm_compute. Qed.
